(* ===== verification/_CoqProject ===== *)
-Q . S2P
Prelude.v
RustStr.v
Utf8.v
Storage.v
Protocol.v
TextSim.v
MemoryTypes.v
MemoryStore.v
MemorySpec.v
MemoryRefine.v
MemoryInv.v
MemoryProps.v
Curator.v
Extraction.v
Session.v
Cron.v
Approvals.v
IterationBudget.v
Patch.v
Truncation.v
Json.v
ProviderRequest.v
ProviderPolicy.v
ProviderClient.v
ProviderProps.v
ProviderCatalog.v
Sse.v
Harness.v
ErrorClassify.v
SelfCorrect.v
ToolInput.v
ToolRegistry.v
Verify.v
Prompts.v
Recall.v
FileSystem.v
Workspace.v
FileTools.v
Pipeline.v
Shell.v
Terminal.v
Background.v
Commands.v
Checks.v
Notes.v
CleanTree.v
Skills.v
SkillText.v
SkillProps.v
CloudTypes.v
CloudStores.v
CloudRoutes.v
CloudIsolation.v
CloudGate.v
CloudSpec.v
CloudRefine.v
CloudProps.v
CloudDirectory.v
CloudReview.v
Turn.v
TurnFrame.v
TurnProps.v
TurnBounds.v
CliSettings.v
CliSession.v
CliAgent.v
TuiState.v
TuiOverlay.v
TuiUpdate.v
TuiProps.v
Capability.v
WireHttp.v
WireChat.v
WireChatProps.v
WireAnthropic.v
WireAnthropicProps.v
WireGemini.v
WireBedrock.v
WireBedrockProps.v
WireProps.v
