(* ===== verification/Prelude.v ===== *)
(** * codel00p: a verification of the agent harness, its knowledge plane, providers, cloud service and command line

    codel00p is a coding-agent system in Rust ([src/core/crates]).  This library
    models its own logic, as opposed to sockets, processes and drawing:

    - the knowledge plane: storage contracts and a backend ([codel00p-storage]),
      reviewed project memory ([codel00p-memory]), session logs
      ([codel00p-session]) and skills ([codel00p-skill]);
    - the agent harness ([codel00p-harness]): the turn loop with permissions,
      verification and self-correction, the tool registry and the tools that
      edit files, run commands, keep notes and run pipelines, over a workspace
      boundary and terminal backends;
    - the provider client ([codel00p-providers]): policy, retries, fallbacks,
      and the wire format and stream of every transport;
    - the cloud service ([codel00p-cloud]) and the state of the gateway and of
      scheduled jobs ([codel00p-gateway], [codel00p-cron]);
    - the command line ([codel00p-cli]): settings, conversations, options and
      permissions of a turn, the chat gateway and the terminal interface.

    ** How the parts interact

    Memory, session and cloud stores are generic over a storage backend: they
    call the [DocumentStore] and [AppendLogStore] traits only.  Here the traits
    are classes of operations and what a backend promises is a pair of classes
    of laws ([DocumentLaws], [LogLaws]); the clients are verified against the
    laws, and the in-memory backend is shown to keep them.

    A turn asks an inference client for the next message, asks a permission
    policy about the tool calls in it, and runs them through a registry, which
    coerces and validates their arguments.  The file tools work on the
    workspace, the workspace on the rooted local backend, and that on a file
    system with symbolic links.  A pipeline is a tool that dispatches to the
    same policy and registry; a capability is a pipeline frozen on disk.  The
    provider client resolves a route under its policy and hands the request to a
    transport, which encodes it and decodes the complete or streamed answer.

    The command line merges its settings from layers of files, turns flags,
    settings and profiles into the options of a turn, and decides by them the
    tools, the backend and the permission policy.  The policy asks the user: at
    a prompt, through the modal of the terminal interface, or, in the chat
    gateway, by leaving a request pending until a message approves it.  What a
    turn adds to a conversation is persisted in the session store, and loaded
    back by the next one.

    Whatever is outside the code under study (the model, the policy, a tool of
    an arbitrary kind, the network, the clock, the scheduler) is an environment:
    a function of everything the code has done so far, which the state records.
    A theorem then holds for every behaviour of it, also one that changes with
    time.  Where the order is not the program's (threads, pipes, processes,
    atomics) the steps are a relation and the theorems speak of every
    interleaving.

    ** Which file models what

    Foundations:
    - [Prelude] (this file): Rust's [Result] and the state-and-error monad of a
      [&mut self] method, comparators and the stable [sort_by], grouping in a
      [BTreeMap], panicking loops, [u64] arithmetic of the release profile
      (wrap-around: the workspace sets no [overflow-checks]).
    - [RustStr], [Utf8]: [str] as its list of Unicode scalar values, with the
      methods the sources use, byte offsets and slices, decimal printing and
      parsing; the UTF-8 encoding and its lossy decoder.  The Unicode tables
      behind [is_alphanumeric] and [to_lowercase] are the class [Unicode].
    - [Json]: the values, maps and accessors of [serde_json]; its printer and
      parser are the class [SerdeJson].
    - [FileSystem], [CleanTree]: paths, links and the operations of [std::fs],
      with the calls the system refuses (class [Faults]: which call on which
      tree, with which error, and how much of a write it did first); trees
      without links.

    Knowledge plane:
    - [Storage]: [types.rs], [traits.rs] and the backend of [in_memory.rs].
    - [Protocol], [TextSim]: [codel00p-protocol/src/memory.rs];
      [codel00p-textsim/src/lib.rs].
    - [MemoryTypes], [MemoryStore]: the inputs, review events, records and
      queries of [codel00p-memory]; every operation of its [store.rs].
    - [MemorySpec], [MemoryRefine], [MemoryInv]: the abstract repository (a map
      of entries, a trail of audit events per memory, a creation index), the
      forward simulation between it and the store, and its invariants.
    - [MemoryProps]: the theorems on the store's own operations and queries, and
      a concrete run that meets their hypotheses.
    - [Recall]: [memory.rs] of the harness: extraction, recommendation, recall
      into a turn and the sink of its candidates, over the repository.
    - [Curator], [Extraction]: [curator.rs] with its union-find forest;
      [extraction.rs].
    - [Session]: [codel00p-session/src/lib.rs], the abstract session store, the
      simulation and the theorems.
    - [Skills], [SkillText], [SkillProps]: [codel00p-skill/src]:
      documents, the shelves of a skills directory, usage and consolidation.

    Harness ([codel00p-harness/src]):
    - [Harness]: the messages, decisions, totals and events of a turn.
    - [Turn], [TurnFrame], [TurnProps], [TurnBounds]: [agent/turn.rs] and
      [turn/hooks.rs], the frame of each of its operations, the theorems.
    - [Verify], [SelfCorrect], [ErrorClassify]: [turn/verify.rs],
      [turn/self_correct.rs], [error_classify.rs] with the recovery of tool
      calls from text.
    - [ToolInput], [ToolRegistry]: [validation.rs], [coerce.rs];
      [tool_registry.rs], [tools.rs].
    - [Prompts], [Notes]: the blocks of a request ([instructions.rs],
      [skills.rs], [self_context.rs], [base_prompt.rs], [agent/context.rs]) and
      [planning.rs]; [curated_memory.rs].
    - [Checks]: [checks.rs], detection of a project's checks, their summaries
      and the tool that runs them.
    - [IterationBudget], [Truncation], [Patch]: [iteration_budget.rs] as
      interleaved atomic steps; [truncation.rs]; [editing/patch.rs].
    - [Workspace]: [workspace.rs], [terminal/local_fs.rs].
    - [FileTools]: [editing/file_ops.rs], [editing/support.rs],
      [editing/apply_patch.rs].
    - [Shell], [Terminal], [Background], [Commands]: the command lines of
      [terminal/ssh/commands.rs] and [terminal/docker/commands.rs] with the lexer
      of a shell (quotes, operators, IO numbers, substitutions); foreground runs
      of [terminal.rs]; [background.rs] as interleaved steps, those of a [kill]
      included; [commands.rs].
    - [Pipeline], [Capability]: [pipeline.rs]; [capability.rs],
      [capability/extract.rs].

    Providers ([codel00p-providers/src]):
    - [ProviderRequest], [ProviderPolicy], [ProviderClient], [ProviderCatalog],
      [ProviderProps]: requests, responses and prices; profiles, registry,
      credentials, policy; the client with retries and fallbacks; the model
      catalogue; the theorems.
    - [Sse], [WireHttp]: [transports/sse.rs]; [stream.rs] and the exchange the
      transports share.
    - [WireChat], [WireAnthropic], [WireGemini], [WireBedrock]: the transport of
      that name (the Responses API is in [WireGemini]): request, normalisation,
      accumulator; frames
      and signatures of Bedrock.  [WireChatProps], [WireAnthropicProps],
      [WireBedrockProps], [WireProps]: their theorems.

    Services:
    - [CloudTypes], [CloudStores], [CloudRoutes], [CloudDirectory]:
      [codel00p-protocol/src/cloud.rs], [auth.rs], [error.rs]; [projects.rs],
      [agents.rs], [mcp.rs], [memory.rs]; [routes.rs], [state.rs];
      [directory.rs].
    - [CloudIsolation], [CloudGate]: isolation of organizations, who may change
      what.  [CloudSpec], [CloudRefine], [CloudProps], [CloudReview]: the service
      as a machine over plain tables, the simulation, and what the machine
      keeps true.
    - [Cron]: [codel00p-cron/src/lib.rs].
    - [Approvals]: [codel00p-gateway/src/approvals.rs], [auth.rs].

    Command line ([codel00p-cli/src]):
    - [CliSettings]: [settings/] and [config.rs]: schema and deserializer,
      merging, profiles, dotted keys, layers, global flags.
    - [CliSession]: [session.rs], [agent/session_state.rs], [agent/chat.rs].
    - [CliAgent]: [agent/options.rs], [agent/permissions.rs],
      [connector_permissions.rs], [agent/mcp/spec.rs], [agent/tooling.rs], what
      [agent/turn.rs] chooses, and the gateway messages of [agent/command.rs]
      and [codel00p-gateway/src/lib.rs].
    - [TuiState], [TuiOverlay], [TuiUpdate], [TuiProps]: [tui/]: composer,
      transcript and panels; the overlays; [update.rs] and [update/] with every
      handler, [event_loop.rs] with every effect; the theorems over the loop.

    State is passed explicitly: a method taking [&mut self] is a function from
    a state to a result and a state, also on its error path; a method taking
    [&self] reads a state.  Panics are [None] (or an explicit failure), never
    left out.

    ** What the theorems show

    - Refinement: the memory repository, the session store, the job store, the
      skills directory and the cloud service behave, results and errors
      included, as small abstract machines, for every sequence of operations
      from an empty store (the skills also when the system refuses calls on the
      way); [apply_patch] behaves as its changes applied one after the other, or
      changes nothing, unless the system refuses a write half way.
    - Governance: no call of the model runs, in a turn or in a pipeline, that the
      policy was not asked about and did not allow; registered tools run only on
      arguments their schema accepts; no provider is called outside its policy;
      nothing becomes an active memory or skill without review, and the audit log
      says by whom; organizations are isolated and only an administrator changes
      what they share; file operations stay below the workspace root; the chat
      gateway runs a privileged tool once per approval and the terminal
      interface sends no decision the user did not make.
    - Conversations of the command line: what a turn persists is what is loaded,
      the line chat and its store agree after any input (both for ids under which
      no log of another session is left), turns of the interface are serialised
      and persisted from where they began.
    - Settings: every key is read by the precedence of its layers, flags over
      settings over profiles; a key that is set reads back and changes no other;
      an unattended turn that must be isolated is.
    - Event sourcing: audit logs replay to the current status and content, both
      locally and in the cloud; the transcript of a turn is well formed and its
      events add up to its totals.
    - Streams: however a provider fragments the content and a network cuts the
      text between characters, each transport returns the complete response;
      event frames of Bedrock survive any cut of the bytes.
    - Conversations: every transport keeps the order of the conversation and
      refuses the same malformed ones.
    - Commands: a shell reads the commands of the SSH backend as the intended
      words whatever the characters of a path; the buffers of a background
      process are what it wrote, in every interleaving, and its end is reported.
    - Well-formedness: after any messages the panels and the cursor of the
      interface are valid and its numeric settings no further from their bounds
      than the configuration put them.
    - Bounds and termination: a turn ends, a model that is done is sent back and
      the checks are run only so often over a whole turn, the retries are
      bounded, the shared budget is never overspent under any interleaving, the
      notes and previews stay within their caps.
    - Queries and plans: each query returns exactly the records its filter
      describes, in the order promised; the clusters of the curators are the
      connected components of the near-duplicate graph; a step of a pipeline
      sees exactly the outputs of the steps before it.
    - Round trips: schedules, directives, skills, documents, logs, files.
    - Theorems and examples outside the list of properties record where the code
      departs from what it means to do, among them [schedule_overflow],
      [approval_crosses_conversations], [reindent_panics],
      [recreated_session_replays], [covered_request_lost],
      [resume_overlaps_turns], [ssh_port_unloadable],
      [agent_config_overridden], [approval_covers_any_input],
      [profile_behaviors_ignored], [isolation_fails_open],
      [apply_patch_half_written], [archive_loses_older_copy],
      [concurrent_kill_loses_output], [restart_overwrites_memory] and
      [kept_request_decided_again].

    ** Parameters

    [serde_json], [toml], the token library, the digests, the HTTP client and
    generated (de)serialisers are outside the sources: they are class members
    or variables, with their documented behaviour as laws (a printed value is
    parsed back; TOML's integers are signed 64-bit), and every theorem that
    assumes one has a witness with a concrete instance.  BM25 scores are the
    result of an arbitrary ranking provider; the [{:?}] rendering of a string is
    a function.  The small file stores (jobs, approvals) are finite maps from
    names to texts, whose reads and writes succeed (the removal of a request may
    be refused, but not in the runs of the gateway theorem); the workspace, the
    skills directory and the notes work on a file system whose operations fail,
    for the reasons the files give and, for writes, removals, moves and new
    directories, whenever the system refuses.  Reads of what is there are not
    refused.  A
    configuration file is the table its TOML denotes.  What a turn does is, for
    the gateway, any sequence of permission requests, and, for the interface
    and the chat, any answer of the environment.

    ** Bounds and fuel

    Loops that are not structural carry fuel, chosen so that it cannot run out,
    and a lemma says so or the result does not depend on it:
    - a turn has [S max_iterations] rounds, a batch of calls as many groups as
      calls, a completion [S max_retries] attempts per route;
    - the union-find [find] has [S node] iterations (parents never exceed their
      node), the matching loops of the patch engine one more than the length of
      the text or the number of lines, [ceil_boundary] the distance to the end;
    - the readers of streams have the length of the buffer (each line or frame
      takes at least a byte), header loops the length of the headers;
    - templates are resolved with the length of the text, directories created
      with the length of the path, listings read with one page more than there
      are; a foreground run polls until the clock reaches its timeout;
    - a path is followed through at most [MAX_LINKS] = 40 links, the limit of
      the system, beyond which resolution fails as it does there.

    Counters keep their width where they can wrap: document versions, revision
    numbers, event numbers, job indices and schedule intervals are [u64], the
    budget is [u32], costs are [u128] saturated to [u64].  Lengths and byte
    offsets are natural numbers: a Rust allocation never exceeds [isize::MAX]
    bytes.

    ** What is not modelled

    The SQLite and Postgres backends (SQL text; they would be instances of the
    storage laws), the BM25 arithmetic (floating point), git and web tools, the
    MCP client and plugins, spawning processes and the warm containers of the
    Docker backend (processes and network), checkpoints of the shadow
    repository, code execution and the map of a repository (tree-sitter and
    process glue), chat-platform adapters, drawing the terminal interface, and
    of the command line its dispatch, help, login, self-update and the clients
    of the cloud. *)

From Stdlib Require Import Sorting.Permutation Sorting.Sorted.
From stdpp Require Import base numbers gmap list.

(** ** Results *)

(** Rust's [Result<A, E>], error type first so that [result E] is a monad. *)
Inductive result (E A : Type) : Type :=
| Ok (a : A)
| Err (e : E).
Arguments Ok {E A} a.
Arguments Err {E A} e.

Definition result_bind {E A B} (f : A → result E B) (m : result E A) : result E B :=
  match m with Ok a => f a | Err e => Err e end.

Definition is_ok {E A} (r : result E A) : bool :=
  match r with Ok _ => true | Err _ => false end.

(** Rust's [Result::map_err], also what [?] does when it converts with [From]. *)
Definition map_err {E F A} (f : E → F) (r : result E A) : result F A :=
  match r with Ok a => Ok a | Err e => Err (f e) end.

(** Rust's [Option::ok_or]. *)
Definition ok_or {E A} (e : E) (o : option A) : result E A :=
  match o with Some a => Ok a | None => Err e end.

(** Collecting an iterator of results: the first error wins. *)
Fixpoint collect_result {E A} (l : list (result E A)) : result E (list A) :=
  match l with
  | [] => Ok []
  | Ok a :: l => match collect_result l with Ok l' => Ok (a :: l') | Err e => Err e end
  | Err e :: _ => Err e
  end.

(** A loop whose body may panic. *)
Fixpoint fold_opt {A B} (f : A → B → option A) (a : A) (l : list B) : option A :=
  match l with
  | [] => Some a
  | b :: l => match f a b with Some a' => fold_opt f a' l | None => None end
  end.

(** Loop invariant rule: [P done acc] holds before each iteration. *)
Lemma fold_opt_ind {A B} (P : list B → A → Prop) (f : A → B → option A) (l : list B) a :
  P [] a →
  (∀ done b todo acc, l = done ++ b :: todo → P done acc →
     ∃ acc', f acc b = Some acc' ∧ P (done ++ [b]) acc') →
  ∃ acc, fold_opt f a l = Some acc ∧ P l acc.
Proof.
  intros H0 Hstep.
  assert (Hgen : ∀ todo done acc, l = done ++ todo → P done acc →
    ∃ acc', fold_opt f acc todo = Some acc' ∧ P l acc').
  { induction todo as [|b todo IH]; intros done acc Hl HP; simpl.
    - exists acc. rewrite app_nil_r in Hl. by subst.
    - destruct (Hstep done b todo acc Hl HP) as (acc' & -> & HP').
      apply (IH (done ++ [b])); [by rewrite <- app_assoc|done]. }
  by apply (Hgen l []).
Qed.

(** ** Stateful, fallible code

    A method taking [&mut self] and returning [Result]: it always yields a
    state, also on the error path, because writes made before [?] returns are
    kept. *)
Definition st (S E A : Type) : Type := S → result E A * S.

Definition st_ret {S E A} (a : A) : st S E A := λ s, (Ok a, s).
Definition st_err {S E A} (e : E) : st S E A := λ s, (Err e, s).
Definition st_bind {S E A B} (m : st S E A) (f : A → st S E B) : st S E B :=
  λ s, match m s with
       | (Ok a, s') => f a s'
       | (Err e, s') => (Err e, s')
       end.
(** A method taking [&self]. *)
Definition st_read {S E A} (f : S → result E A) : st S E A := λ s, (f s, s).
(** A pure fallible step. *)
Definition st_lift {S E A} (r : result E A) : st S E A := λ s, (r, s).

Declare Scope rust_scope.
Delimit Scope rust_scope with rust.
Notation "'let?' x ':=' m 'in' k" := (result_bind (λ x, k) m)
  (at level 10, x pattern, m at level 100, k at level 200,
   format "'[v' 'let?'  x  ':='  m  'in'  '/' k ']'") : rust_scope.
Notation "'let!' x ':=' m 'in' k" := (st_bind m (λ x, k))
  (at level 10, x pattern, m at level 100, k at level 200,
   format "'[v' 'let!'  x  ':='  m  'in'  '/' k ']'") : rust_scope.
Notation "'do!' m 'in' k" := (st_bind m (λ _, k))
  (at level 10, m at level 100, k at level 200,
   format "'[v' 'do!'  m  'in'  '/' k ']'") : rust_scope.
Open Scope rust_scope.

(** [setter eta getter] is the function that replaces the field [getter] of a
    record whose expansion is [eta]. *)
Ltac setter eta getter :=
  lazymatch type of getter with
  | ?R → ?T =>
      exact (λ (v : T) (r : R),
        ltac:(let t := eval cbv beta delta [eta] in (eta r) in
              let t' := eval pattern (getter r) in t in
              lazymatch t' with ?g _ => let u := eval cbv beta in (g v) in exact u end))
  end.

Create HintDb rust.
Create Rewrite HintDb rust_rw.

Lemma Err_inj {E A} (a b : E) : Err (A := A) a = Err b → a = b.
Proof. congruence. Qed.

Lemma result_bind_Ok {E A B} (f : A → result E B) m b :
  result_bind f m = Ok b → ∃ a, m = Ok a ∧ f a = Ok b.
Proof. destruct m; simpl; [eauto|done]. Qed.
Lemma collect_result_Ok {E A} (l : list (result E A)) (l' : list A) :
  collect_result l = Ok l' ↔ l = Ok <$> l'.
Proof.
  revert l'. induction l as [|[a|e] l IH]; intros l'; simpl.
  - split; [by intros [= <-]|]. by destruct l'.
  - destruct (collect_result l) as [k|e] eqn:Hk.
    + split; [intros [= <-]; simpl; f_equal; by apply IH|].
      destruct l' as [|b l']; [done|]. intros [= -> Hl].
      apply IH in Hl. by simplify_eq.
    + split; [done|]. destruct l' as [|b l']; [done|]. intros [= -> Hl].
      apply IH in Hl. done.
  - split; [done|]. by destruct l'.
Qed.

Lemma collect_result_map_Ok {E A B} (f : A → result E B) (g : A → B) (l : list A) :
  (∀ a, a ∈ l → f a = Ok (g a)) → collect_result (f <$> l) = Ok (g <$> l).
Proof.
  intros Hf. apply collect_result_Ok. rewrite <- list_fmap_compose.
  apply list_fmap_ext. intros i a Hi. apply Hf. by eapply list_elem_of_lookup_2.
Qed.

(** ** Comparators and the stable sort

    [slice::sort_by] is a stable sort; a comparator returns an [Ordering]. *)

Definition then_with (c d : comparison) : comparison :=
  match c with Eq => d | _ => c end.

Definition cmp_on {A B} (f : A → B) (c : B → B → comparison) : A → A → comparison :=
  λ x y, c (f x) (f y).
Definition cmp_rev {A} (c : A → A → comparison) : A → A → comparison := λ x y, c y x.
Definition cmp_lex {A} (c d : A → A → comparison) : A → A → comparison :=
  λ x y, then_with (c x y) (d x y).

#[global] Typeclasses Opaque cmp_on cmp_rev cmp_lex.

(** A comparator that is a total preorder. *)
Class TotalCmp {A} (c : A → A → comparison) : Prop := {
  cmp_opp : ∀ x y, c y x = CompOpp (c x y);
  cmp_trans : ∀ x y z, c x y ≠ Gt → c y z ≠ Gt → c x z ≠ Gt;
}.
(** A comparator whose [Eq] is equality. *)
Class StrictCmp {A} (c : A → A → comparison) : Prop := {
  strict_total :: TotalCmp c;
  cmp_eq : ∀ x y, c x y = Eq → x = y;
}.
Arguments cmp_opp {A} c {_} x y.
Arguments cmp_trans {A} c {_} x y z _ _.
Arguments cmp_eq {A} c {_} x y _.

Lemma cmp_refl {A} (c : A → A → comparison) `{!TotalCmp c} x : c x x = Eq.
Proof. pose proof (cmp_opp c x x) as H. by destruct (c x x). Qed.

Lemma cmp_not_gt_total {A} (c : A → A → comparison) `{!TotalCmp c} x y :
  c x y ≠ Gt ∨ c y x ≠ Gt.
Proof. rewrite (cmp_opp c x y). destruct (c x y); naive_solver. Qed.

Lemma cmp_gt_rev {A} (c : A → A → comparison) `{!TotalCmp c} x y :
  c x y = Gt → c y x ≠ Gt.
Proof. rewrite (cmp_opp c x y). by intros ->. Qed.

(** [Eq] is a congruence for the comparator. *)
Lemma cmp_eq_l {A} (c : A → A → comparison) `{!TotalCmp c} x y z :
  c x y = Eq → c x z = c y z.
Proof.
  intros Hxy.
  assert (Hyx : c y x = Eq) by (rewrite (cmp_opp c x y), Hxy; done).
  pose proof (cmp_trans c x y z) as H1. pose proof (cmp_trans c y x z) as H2.
  pose proof (cmp_trans c z x y) as H3. pose proof (cmp_trans c z y x) as H4.
  rewrite (cmp_opp c x z), (cmp_opp c y z) in *.
  rewrite Hxy, Hyx in *.
  destruct (c x z), (c y z); naive_solver.
Qed.

#[export] Instance cmp_on_total {A B} (f : A → B) (c : B → B → comparison) :
  TotalCmp c → TotalCmp (cmp_on f c).
Proof.
  intros Hc. split; unfold cmp_on.
  - intros x y. apply Hc.
  - intros x y z. apply Hc.
Qed.

#[export] Instance cmp_rev_total {A} (c : A → A → comparison) :
  TotalCmp c → TotalCmp (cmp_rev c).
Proof.
  intros Hc. split; unfold cmp_rev.
  - intros x y. apply Hc.
  - intros x y z H1 H2. by apply (cmp_trans c z y x).
Qed.

Lemma cmp_lt_le_trans {A} (c : A → A → comparison) `{!TotalCmp c} x y z :
  c x y = Lt → c y z ≠ Gt → c x z = Lt.
Proof.
  intros Hxy Hyz. destruct (c x z) eqn:Hxz; [exfalso|done|exfalso].
  - apply Hyz. rewrite (cmp_opp c z y), <- (cmp_eq_l c x z y), Hxy by done. done.
  - apply (cmp_trans c y z x); [done| |].
    + by rewrite (cmp_opp c x z), Hxz.
    + by rewrite (cmp_opp c x y), Hxy.
Qed.

#[export] Instance cmp_lex_total {A} (c d : A → A → comparison) :
  TotalCmp c → TotalCmp d → TotalCmp (cmp_lex c d).
Proof.
  intros Hc Hd. split; unfold cmp_lex.
  - intros x y. rewrite (cmp_opp c x y), (cmp_opp d x y).
    by destruct (c x y).
  - intros x y z. destruct (c x y) eqn:Hxy; simpl; [| |done].
    + rewrite (cmp_eq_l c x y z Hxy). destruct (c y z); simpl; [|done..].
      apply (cmp_trans d).
    + intros _ H2. rewrite (cmp_lt_le_trans c x y z Hxy); [done|].
      by destruct (c y z).
Qed.

#[export] Instance nat_cmp_strict : StrictCmp Nat.compare.
Proof.
  split; [split|].
  - intros x y. apply Nat.compare_antisym.
  - intros x y z. rewrite !Nat.compare_le_iff. lia.
  - intros x y. apply Nat.compare_eq.
Qed.

#[export] Instance N_cmp_strict : StrictCmp N.compare.
Proof.
  split; [split|].
  - intros x y. apply N.compare_antisym.
  - intros x y z. change ((x <= y)%N → (y <= z)%N → (x <= z)%N). lia.
  - intros x y. apply N.compare_eq.
Qed.

#[export] Instance Z_cmp_strict : StrictCmp Z.compare.
Proof.
  split; [split|].
  - intros x y. apply Z.compare_antisym.
  - intros x y z. change ((x <= y)%Z → (y <= z)%Z → (x <= z)%Z). lia.
  - intros x y. apply Z.compare_eq.
Qed.

Section sort.
Context {A : Type} (c : A → A → comparison).

Fixpoint insert_sorted (x : A) (l : list A) : list A :=
  match l with
  | [] => [x]
  | y :: l' => match c x y with
               | Gt => y :: insert_sorted x l'
               | _ => x :: y :: l'
               end
  end.

(** [slice::sort_by]: the stable sort by [c]. *)
Fixpoint sort_by (l : list A) : list A :=
  match l with
  | [] => []
  | x :: l' => insert_sorted x (sort_by l')
  end.

Definition cmp_le (x y : A) : Prop := c x y ≠ Gt.

Lemma insert_sorted_perm x l : insert_sorted x l ≡ₚ x :: l.
Proof.
  induction l as [|y l IH]; simpl; [done|].
  destruct (c x y); try done. rewrite IH. apply Permutation_swap.
Qed.

Lemma sort_by_perm l : sort_by l ≡ₚ l.
Proof. induction l as [|x l IH]; simpl; [done|]. by rewrite insert_sorted_perm, IH. Qed.

Lemma elem_of_sort_by x l : x ∈ sort_by l ↔ x ∈ l.
Proof. by rewrite sort_by_perm. Qed.

Lemma length_sort_by l : length (sort_by l) = length l.
Proof. by rewrite sort_by_perm. Qed.

Context `{!TotalCmp c}.

Lemma insert_sorted_sorted x l :
  StronglySorted cmp_le l → StronglySorted cmp_le (insert_sorted x l).
Proof.
  induction 1 as [|y l Hs IH Hy]; simpl; [repeat constructor|].
  destruct (c x y) eqn:Hxy.
  1,2: constructor; [by constructor|]; constructor; [unfold cmp_le; congruence|];
       rewrite Forall_forall in *; intros z Hz; specialize (Hy z Hz);
       unfold cmp_le in *; apply (cmp_trans c x y z); congruence.
  constructor; [done|]. rewrite insert_sorted_perm. constructor; [|done].
  by apply cmp_gt_rev.
Qed.

Lemma sort_by_sorted l : StronglySorted cmp_le (sort_by l).
Proof. induction l; simpl; [constructor|]. by apply insert_sorted_sorted. Qed.

(** Stability: elements that compare [Eq] with [z] keep their order. *)
Lemma insert_sorted_stable z x l :
  StronglySorted cmp_le l →
  filter (λ y, c z y = Eq) (insert_sorted x l) = filter (λ y, c z y = Eq) (x :: l).
Proof.
  intros Hs. induction Hs as [|y l Hs IH Hy]; simpl; [done|].
  destruct (c x y) eqn:Hxy; try done.
  rewrite filter_cons, IH, !filter_cons.
  repeat case_decide; try done. exfalso.
  assert (c x y = Eq); [|congruence].
  rewrite <- (cmp_eq_l c z x y) by done. done.
Qed.

Lemma sort_by_stable z l :
  filter (λ y, c z y = Eq) (sort_by l) = filter (λ y, c z y = Eq) l.
Proof.
  induction l as [|x l IH]; [done|]. cbn [sort_by].
  rewrite insert_sorted_stable by apply sort_by_sorted.
  rewrite !filter_cons, IH. done.
Qed.

(** Sorting permutations of one another gives one list when the comparator
    separates the elements. *)
Lemma sorted_perm_unique l k :
  (∀ x y, x ∈ l → y ∈ l → c x y = Eq → x = y) →
  StronglySorted cmp_le l → StronglySorted cmp_le k → l ≡ₚ k → l = k.
Proof.
  intros Hinj Hl. revert k Hinj. induction Hl as [|x l Hl IH Hx]; intros k Hinj Hk Hp.
  - by apply Permutation_nil in Hp.
  - destruct Hk as [|y k Hk Hy]; [by apply Permutation_sym, Permutation_nil in Hp|].
    assert (x = y) as <-.
    { assert (y ∈ x :: l) as Hyl by (rewrite Hp; left).
      assert (x ∈ y :: k) as Hxk by (rewrite <- Hp; left).
      apply elem_of_cons in Hyl as [->|Hyl]; [done|].
      apply elem_of_cons in Hxk as [->|Hxk]; [done|].
      rewrite Forall_forall in Hx, Hy.
      apply Hinj; [left|by right|].
      specialize (Hx _ Hyl). specialize (Hy _ Hxk). unfold cmp_le in *.
      rewrite (cmp_opp c x y) in Hy. by destruct (c x y). }
    f_equal. apply IH; [|done|by eapply Permutation_cons_inv].
    intros a b Ha Hb. apply Hinj; by right.
Qed.

Lemma sort_by_id l : StronglySorted cmp_le l → sort_by l = l.
Proof.
  induction 1 as [|x l Hs IH Hx]; simpl; [done|]. rewrite IH.
  destruct Hx as [|y l Hy _]; simpl; [done|]. unfold cmp_le in Hy. by destruct (c x y).
Qed.
End sort.

Lemma sort_by_perm_eq {A} (c : A → A → comparison) `{!TotalCmp c} (l k : list A) :
  (∀ x y, x ∈ l → y ∈ l → c x y = Eq → x = y) → l ≡ₚ k → sort_by c l = sort_by c k.
Proof.
  intros Hinj Hp. apply (sorted_perm_unique c).
  - intros x y. rewrite !elem_of_sort_by. apply Hinj.
  - by apply sort_by_sorted.
  - by apply sort_by_sorted.
  - by rewrite !sort_by_perm.
Qed.

(** ** [BTreeMap<K, Vec<V>>]

    [map.entry(k).or_default().push(v)] on a map kept as its entries in key
    order, which is also the order of iteration. *)
Section btree.
Context {K V : Type} (c : K → K → comparison).

Fixpoint btree_push (k : K) (v : V) (m : list (K * list V)) : list (K * list V) :=
  match m with
  | [] => [(k, [v])]
  | (k', vs) :: m' => match c k k' with
                      | Lt => (k, [v]) :: m
                      | Eq => (k', vs ++ [v]) :: m'
                      | Gt => (k', vs) :: btree_push k v m'
                      end
  end.

Definition btree_group (l : list (K * V)) : list (K * list V) :=
  foldl (λ m kv, btree_push kv.1 kv.2 m) [] l.

Context `{!StrictCmp c}.

Definition key_lt (a b : K * list V) : Prop := c a.1 b.1 = Lt.

Lemma elem_of_btree_push k v m k' vs :
  StronglySorted key_lt m →
  (k', vs) ∈ btree_push k v m ↔
  (k' ≠ k ∧ (k', vs) ∈ m) ∨
  (k' = k ∧ ((∃ ws, (k, ws) ∈ m ∧ vs = ws ++ [v]) ∨ (vs = [v] ∧ ∀ ws, (k, ws) ∉ m))).
Proof.
  induction 1 as [|[k0 vs0] m Hs IH Hx]; simpl; [set_solver|].
  assert (Hk0 : ∀ ws, (k0, ws) ∉ m).
  { intros ws Hin. rewrite Forall_forall in Hx. apply Hx in Hin. unfold key_lt in Hin.
    simpl in Hin. by rewrite (cmp_refl c) in Hin. }
  destruct (c k k0) eqn:Hc.
  - apply (cmp_eq c) in Hc as ->. rewrite !elem_of_cons. set_unfold. naive_solver.
  - assert (Hk : ∀ ws, (k, ws) ∉ (k0, vs0) :: m).
    { intros ws Hin. apply elem_of_cons in Hin as [[= -> ->]|Hin]; [by rewrite (cmp_refl c) in Hc|].
      rewrite Forall_forall in Hx. apply Hx in Hin. unfold key_lt in Hin. simpl in Hin.
      rewrite (cmp_opp c k k0), Hc in Hin. done. }
    rewrite elem_of_cons. naive_solver.
  - assert (k ≠ k0) by (intros ->; by rewrite (cmp_refl c) in Hc).
    rewrite !elem_of_cons, IH. split.
    + intros [[= -> ->]|[[? ?]|(-> & [(ws & ? & ->)|[-> ?]])]].
      * left. auto.
      * left. auto.
      * right. split; [done|]. left. exists ws. split; [by right|done].
      * right. split; [done|]. right. split; [done|]. intros ws [?|?]%elem_of_cons; naive_solver.
    + intros [[? [?|?]]|(-> & [(ws & [?|?]%elem_of_cons & ->)|[-> Hn]])]; [naive_solver..|].
      right. right. split; [done|]. right. split; [done|]. intros ws Hws. apply (Hn ws). by right.
Qed.

Lemma btree_push_sorted k v m :
  StronglySorted key_lt m → StronglySorted key_lt (btree_push k v m).
Proof.
  induction 1 as [|[k0 vs0] m Hs IH Hx]; simpl; [repeat constructor|].
  destruct (c k k0) eqn:Hc.
  - constructor; [done|]. eapply Forall_impl; [exact Hx|]. done.
  - repeat constructor; try done. eapply Forall_impl; [exact Hx|].
    intros [k1 vs1] H1. unfold key_lt in *. simpl in *.
    apply (cmp_lt_le_trans c k k0 k1); [done|congruence].
  - constructor; [done|]. rewrite Forall_forall in *. intros [k1 vs1] Hin.
    apply elem_of_btree_push in Hin; [|done].
    destruct Hin as [[_ Hin]|[-> _]]; [by apply Hx in Hin|].
    unfold key_lt. simpl. by rewrite (cmp_opp c k k0), Hc.
Qed.

Lemma btree_group_snoc l kv : btree_group (l ++ [kv]) = btree_push kv.1 kv.2 (btree_group l).
Proof. unfold btree_group. by rewrite foldl_app. Qed.

Lemma btree_group_sorted l : StronglySorted key_lt (btree_group l).
Proof.
  induction l as [|kv l IH] using rev_ind; [constructor|].
  rewrite btree_group_snoc. by apply btree_push_sorted.
Qed.

(** Each group holds, in order, the values pushed under its key; no group is
    empty and no key is missing. *)
Lemma elem_of_btree_group `{!EqDecision K} l k vs :
  (k, vs) ∈ btree_group l ↔
  vs = (filter (λ kv, kv.1 = k) l).*2 ∧ vs ≠ [].
Proof.
  revert k vs. induction l as [|[k0 v0] l IH] using rev_ind; intros k vs; [set_solver|].
  rewrite btree_group_snoc, elem_of_btree_push by apply btree_group_sorted. simpl.
  rewrite filter_app, fmap_app. unfold filter at 2. simpl. destruct (decide (k0 = k)) as [->|Hne]; simpl.
  - split.
    + intros [[? _]|(_ & [(ws & [-> _]%IH & ->)|[-> Hn]])]; [done| |].
      * split; [done|]. by destruct (fmap _ _).
      * split; [|done]. destruct ((filter (λ kv, kv.1 = k) l).*2) as [|w ws] eqn:Hw; [done|].
        exfalso. apply (Hn (w :: ws)), IH. by rewrite Hw.
    + intros [-> _]. right. split; [done|].
      destruct ((filter (λ kv, kv.1 = k) l).*2) as [|w ws] eqn:Hw.
      * right. split; [done|]. intros ws [-> Hne]%IH. by rewrite Hw in Hne.
      * left. exists (w :: ws). split; [|done]. apply IH. by rewrite Hw.
  - rewrite app_nil_r, IH. naive_solver.
Qed.

(** Grouping loses nothing: the groups together are the pushed values. *)
Lemma btree_push_perm k v m : concat (btree_push k v m).*2 ≡ₚ v :: concat m.*2.
Proof.
  induction m as [|[k' vs] m IH]; simpl; [done|]. destruct (c k k'); simpl; [|done|].
  - rewrite <- app_assoc. simpl. by rewrite Permutation_middle.
  - rewrite IH. by rewrite Permutation_middle.
Qed.

Lemma btree_group_perm l : concat (btree_group l).*2 ≡ₚ l.*2.
Proof.
  induction l as [|[k v] l IH] using rev_ind; [done|].
  rewrite btree_group_snoc, btree_push_perm, IH, fmap_app. simpl. by rewrite Permutation_app_comm.
Qed.
End btree.

(** [Vec::truncate] behind an optional limit. *)
Definition truncate_opt {A} (limit : option nat) (l : list A) : list A :=
  match limit with Some n => take n l | None => l end.

Lemma elem_of_truncate_opt {A} (limit : option nat) (l : list A) x :
  x ∈ truncate_opt limit l → x ∈ l.
Proof.
  destruct limit as [n|]; simpl; [|done].
  intros Hx. rewrite <- (take_drop n l). by apply elem_of_app; left.
Qed.

Lemma StronglySorted_take {A} (R : A → A → Prop) n (l : list A) :
  StronglySorted R l → StronglySorted R (take n l).
Proof.
  intros Hl. revert n. induction Hl as [|x l Hl IH Hx]; intros [|n]; simpl; try constructor.
  - apply IH.
  - rewrite Forall_forall in *. intros y Hy. apply Hx.
    rewrite <- (take_drop n l). by apply elem_of_app; left.
Qed.

Lemma StronglySorted_truncate_opt {A} (R : A → A → Prop) limit (l : list A) :
  StronglySorted R l → StronglySorted R (truncate_opt limit l).
Proof. destruct limit; simpl; [apply StronglySorted_take|done]. Qed.

Lemma length_truncate_opt {A} (limit : option nat) (l : list A) n :
  limit = Some n → length (truncate_opt limit l) ≤ n.
Proof. intros ->. simpl. rewrite length_take. lia. Qed.

Lemma list_filter_sublist {A} (f : A → bool) (l : list A) : List.filter f l `sublist_of` l.
Proof. induction l as [|x l IH]; simpl; [done|]. destruct (f x); by constructor. Qed.

Lemma elem_of_list_filter_bool {A} (f : A → bool) (l : list A) x :
  x ∈ List.filter f l ↔ x ∈ l ∧ f x = true.
Proof. by rewrite !list_elem_of_In, List.filter_In. Qed.

Lemma mapM_Forall2 {A B} (f : A → option B) (P : A → B → Prop) (l : list A) :
  (∀ x, x ∈ l → ∃ y, f x = Some y ∧ P x y) → ∃ k, mapM f l = Some k ∧ Forall2 P l k.
Proof.
  intros Hf. assert (∃ k, Forall2 (λ x y, f x = Some y ∧ P x y) l k) as [k Hk].
  { induction l as [|x l IH]; [by exists []|].
    destruct (Hf x) as [y Hy]; [left|]. destruct IH as [k Hk]; [intros; apply Hf; by right|].
    exists (y :: k). by constructor. }
  exists k. split; [apply mapM_Some_2|]; (eapply Forall2_impl; [exact Hk|]); naive_solver.
Qed.

Lemma elem_of_concat {A} (x : A) (ls : list (list A)) : x ∈ concat ls ↔ ∃ l, l ∈ ls ∧ x ∈ l.
Proof.
  rewrite list_elem_of_In, List.in_concat. by setoid_rewrite list_elem_of_In.
Qed.

Lemma NoDup_fmap_filter {A B} (g : A → B) (f : A → bool) (l : list A) :
  NoDup (g <$> l) → NoDup (g <$> List.filter f l).
Proof. intros Hn. eapply sublist_NoDup; [exact Hn|]. apply fmap_sublist, list_filter_sublist. Qed.

Lemma NoDup_fmap_omap {A B C} (g : A → C) (h : B → C) (f : A → option B) (l : list A) :
  (∀ x y, x ∈ l → f x = Some y → h y = g x) → NoDup (g <$> l) → NoDup (h <$> omap f l).
Proof.
  induction l as [|x l IH]; cbn; intros Hf; [done|]. rewrite NoDup_cons. intros [Hx Hl].
  assert (IH' : NoDup (h <$> omap f l)).
  { apply IH; [|done]. intros y z Hy. apply Hf. by right. }
  destruct (f x) as [y|] eqn:Hy; [|done]. cbn. apply NoDup_cons. split; [|done].
  intros (z & Hz & (w & Hw & Hfw)%list_elem_of_omap)%list_elem_of_fmap.
  apply Hx. rewrite <- (Hf x y), Hz, (Hf w z); [by apply list_elem_of_fmap_2|by right|done|left|done].
Qed.

Lemma last_omap_snoc {A B} (f : A → option B) l x :
  last (omap f (l ++ [x])) = match f x with Some y => Some y | None => last (omap f l) end.
Proof.
  rewrite omap_app. simpl. destruct (f x); simpl; [by rewrite last_snoc|by rewrite app_nil_r].
Qed.

Lemma StronglySorted_mono {A} (R R' : A → A → Prop) (l : list A) :
  (∀ x y, R x y → R' x y) → StronglySorted R l → StronglySorted R' l.
Proof.
  intros Hi. induction 1 as [|x l Hs IH Hx]; constructor; [done|].
  eapply Forall_impl; eauto.
Qed.

(** Mapping to elements with the same key keeps a list sorted by that key. *)
Lemma StronglySorted_omap {A B K} (c : K → K → comparison) (ka : A → K) (kb : B → K)
    (f : A → option B) (l : list A) :
  (∀ x y, x ∈ l → f x = Some y → kb y = ka x) →
  StronglySorted (cmp_le (cmp_on ka c)) l → StronglySorted (cmp_le (cmp_on kb c)) (omap f l).
Proof.
  intros Hf. induction 1 as [|x l Hs IH Hx]; cbn; [constructor|].
  assert (IH' : StronglySorted (cmp_le (cmp_on kb c)) (omap f l)).
  { apply IH. intros y z Hy. apply Hf. by right. }
  destruct (f x) as [y|] eqn:Hy; [|done]. constructor; [done|].
  rewrite Forall_forall in Hx. apply Forall_forall. intros z (w & Hw & Hfw)%list_elem_of_omap.
  specialize (Hx w Hw). unfold cmp_le, cmp_on in *.
  rewrite (Hf x y), (Hf w z); [done|by right|done|left|done].
Qed.

(** ** Machine integers *)

Definition u64_modulus : N := 18446744073709551616%N.
(** [u64] arithmetic of the release profile: wrap-around on overflow. *)
Definition u64_wrap (n : N) : N := (n mod u64_modulus)%N.
Definition u64_add (a b : N) : N := u64_wrap (a + b).
Definition u64_mul (a b : N) : N := u64_wrap (a * b).
(** [u64::saturating_add]. *)
Definition u64_saturating_add (a b : N) : N := N.min (a + b) (u64_modulus - 1).
Definition u64_max : N := (u64_modulus - 1)%N.

(** [u32] likewise. *)
Definition u32_modulus : N := 4294967296%N.
Definition u32_add (a b : N) : N := ((a + b) mod u32_modulus)%N.
Definition u32_sub (a b : N) : N := ((a + (u32_modulus - b)) mod u32_modulus)%N.
(** [u32::saturating_sub]. *)
Definition u32_saturating_sub (a b : N) : N := (a - b)%N.

Lemma u64_wrap_small n : (n < u64_modulus)%N → u64_wrap n = n.
Proof. apply N.mod_small. Qed.
