(* ===== verification/RustStr.v ===== *)
(** * Rust strings

    [str] and [String] as sequences of Unicode scalar values, with the methods
    of [str] the program calls.  Byte lengths and byte offsets, which Rust uses
    for slicing, are computed with [len_utf8].  [str] ordering in Rust compares
    UTF-8 bytes, which is the order of the code points used here. *)

From Stdlib Require Import Sorting.Sorted Strings.String Strings.Ascii Numbers.DecimalN
  Numbers.DecimalPos.
From stdpp Require Import base numbers strings gmap list.
From S2P Require Import Prelude.

Abbreviation char := N.
Abbreviation str := (list N).

(** An ASCII literal. *)
Definition lit (s : string) : str := N_of_ascii <$> list_ascii_of_string s.
Arguments lit s%_string_scope.

Definition newline : char := 10%N.
Definition carriage_return : char := 13%N.

(** ** Ordering *)

Fixpoint str_cmp (a b : str) : comparison :=
  match a, b with
  | [], [] => Eq
  | [], _ :: _ => Lt
  | _ :: _, [] => Gt
  | x :: a', y :: b' => then_with (N.compare x y) (str_cmp a' b')
  end.

Lemma str_cmp_opp a b : str_cmp b a = CompOpp (str_cmp a b).
Proof.
  revert b. induction a as [|x a IH]; intros [|y b]; simpl; try done.
  rewrite (N.compare_antisym x y), IH. by destruct (N.compare x y).
Qed.

Lemma str_cmp_eq a b : str_cmp a b = Eq → a = b.
Proof.
  revert b. induction a as [|x a IH]; intros [|y b]; simpl; try done.
  destruct (N.compare x y) eqn:H; simpl; try done.
  apply N.compare_eq in H as ->. intros ?%IH. by subst.
Qed.

Lemma str_cmp_trans a b d : str_cmp a b ≠ Gt → str_cmp b d ≠ Gt → str_cmp a d ≠ Gt.
Proof.
  revert b d. induction a as [|x a IH]; intros [|y b] [|z d]; simpl; try done.
  destruct (N.compare_spec x y), (N.compare_spec y z), (N.compare_spec x z);
    simpl; subst; try done; try (intros; exfalso; lia). apply IH.
Qed.

#[export] Instance str_cmp_strict : StrictCmp str_cmp.
Proof.
  split; [split|].
  - intros a b. apply str_cmp_opp.
  - intros a b d. apply str_cmp_trans.
  - apply str_cmp_eq.
Qed.

(** Sorting by a string key without repeated keys gives a strictly sorted list. *)
Lemma sorted_key_strict {A} (key : A → str) (l : list A) :
  NoDup (key <$> l) → Sorted.StronglySorted (cmp_le (cmp_on key str_cmp)) l →
  Sorted.StronglySorted (λ a b, str_cmp (key a) (key b) = Lt) l.
Proof.
  intros Hn Hs. induction Hs as [|x l Hs IH Hx]; [constructor|].
  cbn in Hn. apply NoDup_cons in Hn as [Hnx Hn]. constructor; [by apply IH|].
  rewrite Forall_forall in *. intros y Hy. specialize (Hx y Hy).
  unfold cmp_le, cmp_on in Hx. destruct (str_cmp (key x) (key y)) eqn:E; [|done..].
  apply str_cmp_eq in E. exfalso. apply Hnx. rewrite E. by apply list_elem_of_fmap_2.
Qed.

Lemma sort_by_key_strict {A} (key : A → str) (l : list A) :
  NoDup (key <$> l) →
  Sorted.StronglySorted (λ a b, str_cmp (key a) (key b) = Lt) (sort_by (cmp_on key str_cmp) l).
Proof.
  intros Hn. apply sorted_key_strict; [by rewrite sort_by_perm|]. apply sort_by_sorted, _.
Qed.

(** ** Characters *)

(** [char::is_whitespace]: the White_Space property. *)
Definition is_whitespace (c : char) : bool :=
  ((9 <=? c) && (c <=? 13) || (c =? 32) || (c =? 133) || (c =? 160) || (c =? 5760)
   || (8192 <=? c) && (c <=? 8202) || (c =? 8232) || (c =? 8233) || (c =? 8239)
   || (c =? 8287) || (c =? 12288))%N.
Definition is_ascii_digit (c : char) : bool := ((48 <=? c) && (c <=? 57))%N.
Definition is_ascii_uppercase (c : char) : bool := ((65 <=? c) && (c <=? 90))%N.
Definition is_ascii_lowercase (c : char) : bool := ((97 <=? c) && (c <=? 122))%N.
Definition is_ascii_alphabetic (c : char) : bool := is_ascii_uppercase c || is_ascii_lowercase c.
Definition is_ascii_alphanumeric (c : char) : bool := is_ascii_alphabetic c || is_ascii_digit c.
Definition ascii_lower (c : char) : char := if is_ascii_uppercase c then (c + 32)%N else c.
Definition to_ascii_lowercase (s : str) : str := ascii_lower <$> s.

(** The Unicode tables behind [char::is_alphanumeric] and [str::to_lowercase].
    Their values outside ASCII are data of the Unicode standard, so they are a
    parameter; on ASCII they are fixed. *)
Class Unicode := {
  is_alphanumeric : char → bool;
  to_lowercase : str → str;
  is_alphanumeric_ascii : ∀ c, (c < 128)%N → is_alphanumeric c = is_ascii_alphanumeric c;
  to_lowercase_ascii : ∀ s : str,
    Forall (λ c, (c < 128)%N) s → to_lowercase s = to_ascii_lowercase s;
}.

(** The tables restricted to ASCII, to run the model on ASCII text. *)
Program Definition ascii_unicode : Unicode := {|
  is_alphanumeric := is_ascii_alphanumeric;
  to_lowercase := to_ascii_lowercase;
|}.
Next Obligation. done. Qed.
Next Obligation. done. Qed.

(** ** Trimming *)

Fixpoint trim_start_matches (p : char → bool) (s : str) : str :=
  match s with
  | c :: s' => if p c then trim_start_matches p s' else s
  | [] => []
  end.
Definition trim_end_matches (p : char → bool) (s : str) : str :=
  reverse (trim_start_matches p (reverse s)).
Definition trim_start (s : str) : str := trim_start_matches is_whitespace s.
Definition trim_end (s : str) : str := trim_end_matches is_whitespace s.
Definition trim (s : str) : str := trim_end (trim_start s).
Definition is_empty {A} (l : list A) : bool := match l with [] => true | _ => false end.

(** ** Splitting and joining *)

(** [str::split] on a character predicate: always at least one piece. *)
Fixpoint split_by (p : char → bool) (s : str) : list str :=
  match s with
  | [] => [[]]
  | c :: s' =>
      if p c then [] :: split_by p s'
      else match split_by p s' with
           | w :: ws => (c :: w) :: ws
           | [] => [[c]]
           end
  end.
Definition split_whitespace (s : str) : list str :=
  filter (λ w, is_empty w = false) (split_by is_whitespace s).

(** The pieces of a text cut after each newline. *)
Fixpoint split_inclusive_nl (s : str) : list str :=
  match s with
  | [] => []
  | c :: s' =>
      if (c =? newline)%N then [c] :: split_inclusive_nl s'
      else match split_inclusive_nl s' with
           | w :: ws => (c :: w) :: ws
           | [] => [[c]]
           end
  end.

Fixpoint strip_prefix (p s : str) : option str :=
  match p, s with
  | [], _ => Some s
  | _ :: _, [] => None
  | x :: p', y :: s' => if (x =? y)%N then strip_prefix p' s' else None
  end.
Definition strip_suffix (p s : str) : option str :=
  reverse <$> strip_prefix (reverse p) (reverse s).
Definition starts_with (p s : str) : bool :=
  match strip_prefix p s with Some _ => true | None => false end.

(** One line without its ending, as [str::lines] yields it. *)
Definition line_body (l : str) : str :=
  match strip_suffix [newline] l with
  | Some l' => default l' (strip_suffix [carriage_return] l')
  | None => l
  end.
Definition lines (s : str) : list str := line_body <$> split_inclusive_nl s.

(** The text before the first character satisfying [p], and the rest from it:
    [str::find] followed by [str::split_at]. *)
Fixpoint split_at_first (p : char → bool) (s : str) : option (str * str) :=
  match s with
  | [] => None
  | c :: s' => if p c then Some ([], s)
               else '(a, b) ← split_at_first p s'; Some (c :: a, b)
  end.
(** [str::split_once] on a character. *)
Definition split_once (c : char) (s : str) : option (str * str) :=
  '(a, b) ← split_at_first (λ x, (x =? c)%N) s; Some (a, tail b).

Fixpoint join (sep : str) (l : list str) : str :=
  match l with
  | [] => []
  | [x] => x
  | x :: l' => x ++ sep ++ join sep l'
  end.

(** [str::contains] on a string. *)
Fixpoint contains (needle s : str) : bool :=
  starts_with needle s || match s with [] => false | _ :: s' => contains needle s' end.

(** ** UTF-8 lengths *)

Definition len_utf8 (c : char) : nat :=
  if (c <? 128)%N then 1 else if (c <? 2048)%N then 2 else if (c <? 65536)%N then 3 else 4.
(** [str::len]: bytes of the UTF-8 encoding. *)
Fixpoint byte_len (s : str) : nat :=
  match s with [] => 0 | c :: s' => len_utf8 c + byte_len s' end.

(** ** Decimal integers *)

Fixpoint show_uint (d : Decimal.uint) : str :=
  match d with
  | Decimal.Nil => []
  | Decimal.D0 d => 48%N :: show_uint d
  | Decimal.D1 d => 49%N :: show_uint d
  | Decimal.D2 d => 50%N :: show_uint d
  | Decimal.D3 d => 51%N :: show_uint d
  | Decimal.D4 d => 52%N :: show_uint d
  | Decimal.D5 d => 53%N :: show_uint d
  | Decimal.D6 d => 54%N :: show_uint d
  | Decimal.D7 d => 55%N :: show_uint d
  | Decimal.D8 d => 56%N :: show_uint d
  | Decimal.D9 d => 57%N :: show_uint d
  end.
(** [format!] of an unsigned integer. *)
Definition show_N (n : N) : str := show_uint (N.to_uint n).

Definition digit_of (c : char) : option (Decimal.uint → Decimal.uint) :=
  match c with
  | 48%N => Some Decimal.D0 | 49%N => Some Decimal.D1 | 50%N => Some Decimal.D2
  | 51%N => Some Decimal.D3 | 52%N => Some Decimal.D4 | 53%N => Some Decimal.D5
  | 54%N => Some Decimal.D6 | 55%N => Some Decimal.D7 | 56%N => Some Decimal.D8
  | 57%N => Some Decimal.D9 | _ => None
  end.
Fixpoint parse_uint (s : str) : option Decimal.uint :=
  match s with
  | [] => Some Decimal.Nil
  | c :: s' => f ← digit_of c; d ← parse_uint s'; Some (f d)
  end.
(** [str::parse::<u64>]: an optional [+], at least one digit, no overflow. *)
Definition parse_u64 (s : str) : option N :=
  let digits := match s with 43%N :: (_ :: _ as r) => r | _ => s end in
  match digits with
  | [] => None
  | _ => d ← parse_uint digits;
         let n := N.of_uint d in
         if (n <? u64_modulus)%N then Some n else None
  end.

(** ** Lemmas *)

Lemma strip_prefix_app p s : strip_prefix p (p ++ s) = Some s.
Proof. induction p as [|x p IH]; simpl; [by destruct s|]. by rewrite N.eqb_refl. Qed.

Lemma strip_prefix_Some p s r : strip_prefix p s = Some r ↔ s = p ++ r.
Proof.
  split; [|intros ->; apply strip_prefix_app].
  revert s. induction p as [|x p IH]; intros s; simpl; [by intros [= ->]|].
  destruct s as [|y s]; [done|]. destruct (N.eqb_spec x y) as [->|]; [|done].
  intros H. by rewrite (IH s H).
Qed.

Lemma starts_with_spec p s : starts_with p s = true ↔ ∃ r, s = p ++ r.
Proof.
  unfold starts_with. destruct (strip_prefix p s) as [r|] eqn:H.
  - apply strip_prefix_Some in H. naive_solver.
  - split; [done|]. intros [r ->]. by rewrite strip_prefix_app in H.
Qed.

Lemma contains_spec p s : contains p s = true ↔ ∃ a b, s = a ++ p ++ b.
Proof.
  induction s as [|c s IH]; simpl; rewrite orb_true_iff, starts_with_spec.
  - split; [intros [[r Hr]|]; [exists [], r; done|done]|].
    intros (a & b & H). destruct a; simpl in H; [|done]. left. by exists b.
  - rewrite IH. split.
    + intros [[r Hr]|(a & b & ->)]; [by exists [], r|by exists (c :: a), b].
    + intros (a & b & H). destruct a as [|x a]; simpl in H; [left; by exists b|].
      right. simplify_eq. by exists a, b.
Qed.

Lemma trim_start_matches_idemp p s :
  trim_start_matches p (trim_start_matches p s) = trim_start_matches p s.
Proof.
  induction s as [|c s IH]; simpl; [done|]. destruct (p c) eqn:Hc; [done|].
  simpl. by rewrite Hc.
Qed.

Lemma trim_start_matches_suffix p s : ∃ a, s = a ++ trim_start_matches p s ∧ forallb p a = true.
Proof.
  induction s as [|c s IH]; simpl; [by exists []|].
  destruct (p c) eqn:Hc.
  - destruct IH as (a & Ha & Hp). exists (c :: a). simpl. rewrite Hc. split; [by f_equal|done].
  - by exists [].
Qed.

Lemma trim_start_matches_none p s :
  (∀ c, head s = Some c → p c = false) → trim_start_matches p s = s.
Proof. destruct s as [|c s]; simpl; [done|]. intros H. by rewrite H. Qed.

Lemma trim_start_matches_head p s c : head (trim_start_matches p s) = Some c → p c = false.
Proof.
  induction s as [|x s IH]; simpl; [done|]. destruct (p x) eqn:Hx; [done|].
  by intros [= ->].
Qed.

Lemma trim_end_matches_idemp p s :
  trim_end_matches p (trim_end_matches p s) = trim_end_matches p s.
Proof.
  unfold trim_end_matches. by rewrite reverse_involutive, trim_start_matches_idemp.
Qed.

Lemma trim_end_matches_prefix p s : ∃ a, s = trim_end_matches p s ++ a ∧ forallb p a = true.
Proof.
  unfold trim_end_matches. destruct (trim_start_matches_suffix p (reverse s)) as (a & Ha & Hp).
  exists (reverse a). split.
  - rewrite <- reverse_app, <- Ha. by rewrite reverse_involutive.
  - rewrite forallb_forall in *. intros x Hx. apply Hp.
    rewrite <- list_elem_of_In in *. by apply elem_of_reverse.
Qed.

(** Trimming is idempotent. *)
Lemma trim_trim s : trim (trim s) = trim s.
Proof.
  unfold trim, trim_end.
  rewrite (trim_start_matches_none is_whitespace (trim_end_matches _ _)) at 1.
  - by rewrite trim_end_matches_idemp.
  - intros c Hc. destruct (trim_end_matches_prefix is_whitespace (trim_start s)) as (a & Ha & _).
    apply (trim_start_matches_head is_whitespace s c).
    fold (trim_start s). rewrite Ha.
    destruct (trim_end_matches is_whitespace (trim_start s)); [done|]. simpl in *. done.
Qed.

(** A text with non-blank ends is its own trim. *)
Lemma trim_id s :
  (∀ c, head s = Some c → is_whitespace c = false) →
  (∀ c, last s = Some c → is_whitespace c = false) → trim s = s.
Proof.
  intros Hh Hl. unfold trim, trim_start, trim_end, trim_end_matches.
  rewrite (trim_start_matches_none _ s) by done.
  rewrite trim_start_matches_none; [apply reverse_involutive|].
  intros c. rewrite <- (last_reverse (reverse s)), reverse_involutive. apply Hl.
Qed.

Lemma byte_len_app a b : byte_len (a ++ b) = byte_len a + byte_len b.
Proof. induction a as [|c a IH]; simpl; [done|]. rewrite IH. lia. Qed.

Lemma len_utf8_pos c : 1 ≤ len_utf8 c.
Proof. unfold len_utf8. repeat case_match; lia. Qed.

Lemma byte_len_zero s : byte_len s = 0 → s = [].
Proof. destruct s as [|c s]; [done|]. simpl. pose proof (len_utf8_pos c). lia. Qed.

Lemma split_inclusive_nl_concat s : concat (split_inclusive_nl s) = s.
Proof.
  induction s as [|c s IH]; simpl; [done|].
  destruct (c =? newline)%N; [simpl; by rewrite IH|].
  destruct (split_inclusive_nl s) as [|w ws]; simpl in *; by subst.
Qed.

Lemma parse_show_uint d : parse_uint (show_uint d) = Some d.
Proof. induction d; simpl; try done; by rewrite IHd. Qed.

Lemma show_uint_digits d : forallb is_ascii_digit (show_uint d) = true.
Proof. induction d; simpl; done. Qed.

Lemma show_N_nonempty n : show_N n ≠ [].
Proof.
  unfold show_N. pose proof (DecimalN.Unsigned.of_to n) as H.
  destruct (N.to_uint n) eqn:E; simpl; try done.
  destruct n as [|p]; [done|]. simpl in E. exfalso.
  by apply (DecimalPos.Unsigned.to_uint_nonnil p).
Qed.

Lemma show_N_digits n : forallb is_ascii_digit (show_N n) = true.
Proof. apply show_uint_digits. Qed.

Lemma parse_u64_digits s n :
  s ≠ [] → forallb is_ascii_digit s = true → parse_uint s = Some (N.to_uint n) →
  (n < u64_modulus)%N → parse_u64 s = Some n.
Proof.
  intros Hs Hd Hp Hn. unfold parse_u64. destruct s as [|c s]; [done|].
  assert (Hc : match c :: s with 43%N :: (_ :: _ as r) => r | _ => c :: s end = c :: s).
  { destruct (decide (c = 43%N)) as [->|Hne]; [done|].
    repeat (case_match; simplify_eq; try done). }
  rewrite Hc, Hp. simpl.
  rewrite DecimalN.Unsigned.of_to. apply N.ltb_lt in Hn. by rewrite Hn.
Qed.

(** Formatting then parsing a [u64] gives it back. *)
Lemma parse_show_u64 n : (n < u64_modulus)%N → parse_u64 (show_N n) = Some n.
Proof.
  intros Hn. apply parse_u64_digits; [apply show_N_nonempty|apply show_N_digits| |done].
  unfold show_N. apply parse_show_uint.
Qed.

Lemma show_N_inj n m : show_N n = show_N m → n = m.
Proof.
  unfold show_N. intros H. apply (f_equal parse_uint) in H.
  rewrite !parse_show_uint in H. simplify_eq.
  rewrite <- (DecimalN.Unsigned.of_to n), <- (DecimalN.Unsigned.of_to m). by f_equal.
Qed.

Lemma parse_uint_digits s d : parse_uint s = Some d → forallb is_ascii_digit s = true.
Proof.
  revert d. induction s as [|c s IH]; intros d; simpl; [done|].
  destruct (digit_of c) as [f|] eqn:Hf; simpl; [|done].
  destruct (parse_uint s) as [d'|]; simpl; [|done]. intros _.
  rewrite (IH d'), andb_true_r by done.
  unfold digit_of in Hf. repeat (case_match; simplify_eq; try done).
Qed.

#[export] Hint Rewrite @app_nil_r strip_prefix_app byte_len_app : rust_rw.

(** ** Splitting at a separator the prefix avoids *)

Definition avoids (p : char → bool) (s : str) : Prop := ∀ c, c ∈ s → p c = false.

Lemma avoids_app p a b : avoids p (a ++ b) ↔ avoids p a ∧ avoids p b.
Proof. unfold avoids. setoid_rewrite elem_of_app. naive_solver. Qed.

Lemma avoids_forallb p s : forallb (λ c, negb (p c)) s = true → avoids p s.
Proof.
  intros Hs c Hc. rewrite forallb_forall in Hs. apply list_elem_of_In, Hs in Hc.
  by destruct (p c).
Qed.

Lemma split_at_first_avoids p a x b :
  avoids p a → p x = true → split_at_first p (a ++ x :: b) = Some (a, x :: b).
Proof.
  intros Ha Hx. induction a as [|c a IH]; simpl; [by rewrite Hx|].
  rewrite (Ha c) by left. rewrite IH; [done|]. intros d Hd. apply Ha. by right.
Qed.

Lemma split_once_avoids x a b :
  avoids (λ c, (c =? x)%N) a → split_once x (a ++ x :: b) = Some (a, b).
Proof.
  intros Ha. unfold split_once. rewrite split_at_first_avoids; [done|done|apply N.eqb_refl].
Qed.

Lemma split_by_avoids p a x b :
  avoids p a → p x = true → split_by p (a ++ x :: b) = a :: split_by p b.
Proof.
  intros Ha Hx. induction a as [|c a IH]; simpl; [by rewrite Hx|].
  rewrite (Ha c) by left. rewrite IH; [done|]. intros d Hd. apply Ha. by right.
Qed.

Lemma split_by_single p a : avoids p a → split_by p a = [a].
Proof.
  intros Ha. induction a as [|c a IH]; simpl; [done|].
  rewrite (Ha c) by left. rewrite IH; [done|]. intros d Hd. apply Ha. by right.
Qed.

Lemma split_at_first_Some p s a b :
  split_at_first p s = Some (a, b) →
  s = a ++ b ∧ avoids p a ∧ ∃ x b', b = x :: b' ∧ p x = true.
Proof.
  revert a b. induction s as [|c s IH]; intros a b; simpl; [done|].
  destruct (p c) eqn:Hc.
  - intros [= <- <-]. split_and!; [done| |eauto]. by intros d Hd%elem_of_nil.
  - destruct (split_at_first p s) as [[a' b']|]; simpl; [|done]. intros [= <- <-].
    destruct (IH a' b' eq_refl) as (-> & Ha & Hb). split_and!; [done| |done].
    intros d [->|Hd]%elem_of_cons; auto.
Qed.

(** ** Trimmed texts *)

Lemma trim_head s c : trim s = s → head s = Some c → is_whitespace c = false.
Proof.
  intros Hs Hc. unfold trim, trim_end in Hs.
  destruct (trim_end_matches_prefix is_whitespace (trim_start s)) as (a & Ha & _).
  rewrite Hs in Ha. apply (trim_start_matches_head is_whitespace s). fold (trim_start s).
  rewrite Ha. by destruct s.
Qed.

Lemma trim_last s c : trim s = s → last s = Some c → is_whitespace c = false.
Proof.
  intros Hs Hc. rewrite <- Hs in Hc. unfold trim, trim_end, trim_end_matches in Hc.
  rewrite last_reverse in Hc. by apply trim_start_matches_head in Hc.
Qed.

Lemma trim_start_cons c s : is_whitespace c = false → trim_start (c :: s) = c :: s.
Proof. intros Hc. unfold trim_start. simpl. by rewrite Hc. Qed.

Lemma trim_space s : trim s = s → trim (32%N :: s) = s.
Proof.
  intros Hs. unfold trim, trim_start at 1. simpl. by fold (trim_start s) (trim s).
Qed.

Lemma trim_ends s : s ≠ [] → trim s = s → ∃ c, last s = Some c ∧ is_whitespace c = false.
Proof.
  intros Hne Hs. destruct (last s) as [c|] eqn:Hl; [|by apply last_None in Hl].
  exists c. split; [done|]. by apply (trim_last s).
Qed.

(** Only blanks are trimmed away. *)
Lemma trim_nonempty s c : c ∈ s → is_whitespace c = false → trim s ≠ [].
Proof.
  intros Hc Hw Ht. unfold trim, trim_end in Ht.
  destruct (trim_start_matches_suffix is_whitespace s) as (a & Ha & Hpa).
  fold (trim_start s) in Ha.
  destruct (trim_end_matches_prefix is_whitespace (trim_start s)) as (b & Hb & Hpb).
  rewrite Ht in Hb. simpl in Hb. rewrite Ha, Hb in Hc.
  rewrite forallb_forall in Hpa, Hpb.
  apply elem_of_app in Hc as [Hc%list_elem_of_In%Hpa|Hc%list_elem_of_In%Hpb]; congruence.
Qed.

(** ** Byte offsets

    [&s[n..]] and [&s[..n]]: [None] is the panic of an offset that is out of
    range or inside a character. *)
Fixpoint byte_drop (s : str) (n : nat) : option str :=
  match n, s with
  | 0, _ => Some s
  | _, [] => None
  | _, c :: s' => if n <? len_utf8 c then None else byte_drop s' (n - len_utf8 c)
  end.
Fixpoint byte_take (s : str) (n : nat) : option str :=
  match n, s with
  | 0, _ => Some []
  | _, [] => None
  | _, c :: s' => if n <? len_utf8 c then None else (λ t, c :: t) <$> byte_take s' (n - len_utf8 c)
  end.
(** [&s[a..b]]. *)
Definition byte_slice (s : str) (a b : nat) : option str :=
  if b <? a then None else t ← byte_drop s a; byte_take t (b - a).
(** [str::find] on a string: the byte offset of the first occurrence. *)
Fixpoint find_str (needle s : str) : option nat :=
  if starts_with needle s then Some 0
  else match s with [] => None | c :: s' => (λ n, len_utf8 c + n) <$> find_str needle s' end.

Lemma byte_drop_app a b : byte_drop (a ++ b) (byte_len a) = Some b.
Proof.
  induction a as [|c a IH]; simpl; [by destruct b|]. pose proof (len_utf8_pos c).
  destruct (len_utf8 c + byte_len a) eqn:Hn; [lia|]. rewrite <- Hn.
  destruct (Nat.ltb_spec (len_utf8 c + byte_len a) (len_utf8 c)); [lia|].
  by replace (len_utf8 c + byte_len a - len_utf8 c) with (byte_len a) by lia.
Qed.

Lemma byte_take_app a b : byte_take (a ++ b) (byte_len a) = Some a.
Proof.
  induction a as [|c a IH]; simpl; [by destruct b|]. pose proof (len_utf8_pos c).
  destruct (len_utf8 c + byte_len a) eqn:Hn; [lia|]. rewrite <- Hn.
  destruct (Nat.ltb_spec (len_utf8 c + byte_len a) (len_utf8 c)); [lia|].
  replace (len_utf8 c + byte_len a - len_utf8 c) with (byte_len a) by lia. by rewrite IH.
Qed.

Lemma byte_slice_app a b c :
  byte_slice (a ++ b ++ c) (byte_len a) (byte_len a + byte_len b) = Some b.
Proof.
  unfold byte_slice. destruct (Nat.ltb_spec (byte_len a + byte_len b) (byte_len a)); [lia|].
  rewrite byte_drop_app. simpl.
  replace (byte_len a + byte_len b - byte_len a) with (byte_len b) by lia. apply byte_take_app.
Qed.

Lemma find_str_Some needle s n :
  find_str needle s = Some n →
  ∃ a b, s = a ++ needle ++ b ∧ n = byte_len a ∧
    ∀ a' b', s = a' ++ needle ++ b' → length a ≤ length a'.
Proof.
  revert n. induction s as [|c s IH]; intros n; simpl;
    (destruct (starts_with _ _) eqn:Hs;
     [apply starts_with_spec in Hs as [r Hr]; intros [= <-]; exists [], r; split_and!; [done|done|simpl; lia]|]);
    [done|].
  intros (k & Hk & ->)%fmap_Some. destruct (IH k Hk) as (a & b & -> & -> & Hmin).
  exists (c :: a), b. split_and!; [done..|]. intros [|c' a'] b' Heq; simpl in Heq.
  - assert (starts_with needle (c :: a ++ needle ++ b) = true) as Ht by (apply starts_with_spec; eauto).
    congruence.
  - injection Heq as -> Heq. simpl. apply Hmin in Heq. lia.
Qed.

Lemma find_str_None needle s : find_str needle s = None ↔ contains needle s = false.
Proof.
  induction s as [|c s IH]; simpl; destruct (starts_with _ _); simpl; try done.
  rewrite <- IH. by destruct (find_str needle s).
Qed.

Lemma strip_suffix_Some p s r : strip_suffix p s = Some r ↔ s = r ++ p.
Proof.
  unfold strip_suffix. rewrite fmap_Some. setoid_rewrite strip_prefix_Some. split.
  - intros (x & Hx & ->). apply (f_equal reverse) in Hx.
    by rewrite reverse_involutive, reverse_app, reverse_involutive in Hx.
  - intros ->. exists (reverse r). by rewrite reverse_app, reverse_involutive.
Qed.

Lemma line_body_prefix l : ∃ eol, l = line_body l ++ eol.
Proof.
  unfold line_body. destruct (strip_suffix [newline] l) as [l'|] eqn:Hl; [|exists []; by rewrite app_nil_r].
  apply strip_suffix_Some in Hl as ->.
  destruct (strip_suffix [carriage_return] l') as [l''|] eqn:Hl'; simpl; [|by eexists].
  apply strip_suffix_Some in Hl' as ->. rewrite <- app_assoc. by eexists.
Qed.

(** Dropping a number of bytes within an ASCII prefix is on a boundary. *)
Lemma byte_drop_ascii a b n :
  Forall (λ c, (c < 128)%N) a → n ≤ byte_len a → is_Some (byte_drop (a ++ b) n).
Proof.
  intros Ha. revert n. induction Ha as [|c a Hc Ha IH]; intros n Hn; simpl in *.
  - replace n with 0 by lia. destruct b; by eexists.
  - destruct n as [|n]; [by eexists|]. assert (Hl : len_utf8 c = 1).
    { unfold len_utf8. destruct (N.ltb_spec c 128); [done|lia]. }
    rewrite Hl in *. simpl. rewrite Nat.sub_0_r. apply IH. lia.
Qed.

(** ** Splitting at a string *)

(** [str::split_once] on a string pattern. *)
Fixpoint split_once_str (needle s : str) : option (str * str) :=
  match strip_prefix needle s with
  | Some rest => Some ([], rest)
  | None => match s with
            | [] => None
            | c :: s => (λ '(a, b), (c :: a, b)) <$> split_once_str needle s
            end
  end.

Lemma split_once_str_Some needle s a b :
  split_once_str needle s = Some (a, b) → s = a ++ needle ++ b.
Proof.
  revert a b. induction s as [|c s IH]; intros a b; cbn;
    (destruct (strip_prefix needle _) as [r|] eqn:E; [apply strip_prefix_Some in E; naive_solver|]);
    [done|].
  destruct (split_once_str needle s) as [[a' b']|]; cbn; [|done].
  intros [= <- <-]. by rewrite (IH a' b').
Qed.

Lemma split_once_str_None needle s :
  split_once_str needle s = None ↔ contains needle s = false.
Proof.
  induction s as [|c s IH]; cbn; unfold starts_with.
  - destruct (strip_prefix needle []); naive_solver.
  - destruct (strip_prefix needle (c :: s)); [naive_solver|]. rewrite <- IH.
    destruct (split_once_str needle s) as [[]|]; cbn; naive_solver.
Qed.

(** The text before and after the first occurrence. *)
Lemma split_once_str_first needle a b :
  (∀ x y, needle ≠ [] → a ++ needle = x ++ needle ++ y → y = []) → needle ≠ [] →
  split_once_str needle (a ++ needle ++ b) = Some (a, b).
Proof.
  intros Hfirst Hne. induction a as [|c a IH].
  - cbn. destruct needle as [|n needle]; [done|]. cbn [app split_once_str].
    change (n :: needle ++ b) with ((n :: needle) ++ b). by rewrite strip_prefix_app.
  - cbn [app split_once_str].
    destruct (strip_prefix needle (c :: a ++ needle ++ b)) as [rest|] eqn:E.
    + apply strip_prefix_Some in E. exfalso. rewrite app_assoc, app_comm_cons in E.
      apply app_eq_inv in E as [(y & E & _)|(y & E & _)].
      * pose proof (Hfirst [] y Hne E) as ->. rewrite app_nil_r in E.
        apply (f_equal length) in E. cbn in E. rewrite length_app in E. lia.
      * apply (f_equal length) in E. cbn in E. rewrite !length_app in E. lia.
    + rewrite IH; [done|]. intros x y Hn Hx. apply (Hfirst (c :: x) y Hn). cbn. by rewrite Hx.
Qed.

(** A prefix without the first character of the needle is skipped. *)
Lemma split_once_str_skip c0 needle pre b :
  avoids (N.eqb c0) pre →
  split_once_str (c0 :: needle) (pre ++ b) =
  (λ '(x, y), (pre ++ x, y)) <$> split_once_str (c0 :: needle) b.
Proof.
  intros Ha. induction pre as [|x pre IH].
  { cbn [app]. by destruct (split_once_str _ b) as [[]|]. }
  cbn [app split_once_str strip_prefix]. rewrite (Ha x) by left.
  rewrite IH by (intros y Hy; apply Ha; by right).
  by destruct (split_once_str _ b) as [[]|].
Qed.

(** ** Digits *)

Lemma digit_not_alphabetic c : is_ascii_digit c = true → is_ascii_alphabetic c = false.
Proof.
  unfold is_ascii_digit, is_ascii_alphabetic, is_ascii_uppercase, is_ascii_lowercase.
  rewrite andb_true_iff, orb_false_iff, !andb_false_iff, !N.leb_le, !N.leb_gt. lia.
Qed.

Lemma digit_not_whitespace c : is_ascii_digit c = true → is_whitespace c = false.
Proof.
  unfold is_ascii_digit, is_whitespace. rewrite andb_true_iff, !N.leb_le. intros [? ?].
  repeat rewrite ?orb_false_iff, ?andb_false_iff, ?N.leb_gt, ?N.eqb_neq. lia.
Qed.

Lemma show_N_digit n c : c ∈ show_N n → is_ascii_digit c = true.
Proof. intros Hc%list_elem_of_In. by apply (proj1 (forallb_forall _ _) (show_N_digits n)). Qed.

Lemma trim_show_N n : trim (show_N n) = show_N n.
Proof.
  apply trim_id; intros c Hc; apply digit_not_whitespace, (show_N_digit n).
  - destruct (show_N n); [done|]. injection Hc as ->. left.
  - by apply last_Some_elem_of in Hc.
Qed.

Lemma show_N_words n : avoids is_whitespace (show_N n).
Proof. intros c Hc. by apply digit_not_whitespace, (show_N_digit n). Qed.
