(* ===== verification/Utf8.v ===== *)
(** * UTF-8

    The encoding of strings, [String::from_utf8_lossy] and [String::from_utf8], byte
    by byte. *)

From stdpp Require Import base numbers strings gmap list.
From S2P Require Import Prelude RustStr.

Open Scope N_scope.

Abbreviation byte := N.

Definition is_scalar (c : char) : bool :=
  (c <? 55296) || (57344 <=? c) && (c <? 1114112).

Definition encode_utf8 (c : char) : list byte :=
  if c <? 128 then [c]
  else if c <? 2048 then [192 + c / 64; 128 + c mod 64]
  else if c <? 65536 then [224 + c / 4096; 128 + c / 64 mod 64; 128 + c mod 64]
  else [240 + c / 262144; 128 + c / 4096 mod 64; 128 + c / 64 mod 64; 128 + c mod 64].
Definition utf8 (s : str) : list byte := concat (encode_utf8 <$> s).

Definition between (a b x : N) : bool := (a <=? x) && (x <=? b).
Definition continuation (b : byte) : bool := between 128 191 b.
Definition replacement : char := 65533.

(** The second byte of a sequence of three or of four. *)
Definition second_of_three (b0 b1 : byte) : bool :=
  if b0 =? 224 then between 160 191 b1
  else if b0 =? 237 then between 128 159 b1
  else between 128 191 b1.
Definition second_of_four (b0 b1 : byte) : bool :=
  if b0 =? 240 then between 144 191 b1
  else if b0 =? 244 then between 128 143 b1
  else between 128 191 b1.

(** [String::from_utf8_lossy]: an ill-formed sequence, up to its first byte that does
    not fit, becomes one replacement character. *)
Fixpoint from_utf8_lossy (bs : list byte) : str :=
  match bs with
  | [] => []
  | b0 :: r0 =>
      if b0 <? 128 then b0 :: from_utf8_lossy r0
      else if between 194 223 b0 then
        match r0 with
        | b1 :: r1 =>
            if continuation b1 then (b0 - 192) * 64 + (b1 - 128) :: from_utf8_lossy r1
            else replacement :: from_utf8_lossy r0
        | [] => [replacement]
        end
      else if between 224 239 b0 then
        match r0 with
        | b1 :: r1 =>
            if second_of_three b0 b1 then
              match r1 with
              | b2 :: r2 =>
                  if continuation b2 then
                    (b0 - 224) * 4096 + (b1 - 128) * 64 + (b2 - 128) :: from_utf8_lossy r2
                  else replacement :: from_utf8_lossy r1
              | [] => [replacement]
              end
            else replacement :: from_utf8_lossy r0
        | [] => [replacement]
        end
      else if between 240 244 b0 then
        match r0 with
        | b1 :: r1 =>
            if second_of_four b0 b1 then
              match r1 with
              | b2 :: r2 =>
                  if continuation b2 then
                    match r2 with
                    | b3 :: r3 =>
                        if continuation b3 then
                          (b0 - 240) * 262144 + (b1 - 128) * 4096 + (b2 - 128) * 64 + (b3 - 128)
                            :: from_utf8_lossy r3
                        else replacement :: from_utf8_lossy r2
                    | [] => [replacement]
                    end
                  else replacement :: from_utf8_lossy r1
              | [] => [replacement]
              end
            else replacement :: from_utf8_lossy r0
        | [] => [replacement]
        end
      else replacement :: from_utf8_lossy r0
  end.

Close Scope N_scope.

(** [Utf8Error]: where the longest valid prefix ends and, unless the input stops
    inside a sequence, how many bytes do not fit. *)
Definition expect (rest : list byte) (fits : byte → bool) (seen : N) (i : N)
    (k : list byte → option (N * option N)) : option (N * option N) :=
  match rest with
  | [] => Some (i, None)
  | b :: rest => if fits b then k rest else Some (i, Some seen)
  end.
Fixpoint utf8_error (fuel : nat) (i : N) (bs : list byte) : option (N * option N) :=
  match fuel, bs with
  | _, [] | O, _ => None
  | S fuel, b0 :: r0 =>
      if (b0 <? 128)%N then utf8_error fuel (i + 1) r0
      else if between 194 223 b0 then
        expect r0 continuation 1 i (utf8_error fuel (i + 2))
      else if between 224 239 b0 then
        expect r0 (second_of_three b0) 1 i (λ r1,
        expect r1 continuation 2 i (utf8_error fuel (i + 3)))
      else if between 240 244 b0 then
        expect r0 (second_of_four b0) 1 i (λ r1,
        expect r1 continuation 2 i (λ r2,
        expect r2 continuation 3 i (utf8_error fuel (i + 4))))
      else Some (i, Some 1%N)
  end.
Definition utf8_error_text (bs : list byte) : str :=
  match utf8_error (length bs) 0 bs with
  | Some (i, Some n) =>
      lit "invalid utf-8 sequence of " ++ show_N n ++ lit " bytes from index " ++ show_N i
  | Some (i, None) => lit "incomplete utf-8 byte sequence from index " ++ show_N i
  | None => []
  end.

(** [String::from_utf8]: what decodes without a replacement of its own. *)
Definition from_utf8 (bs : list byte) : option str :=
  let s := from_utf8_lossy bs in if decide (utf8 s = bs) then Some s else None.

(** ** Decoding what was encoded *)

Lemma between_true a b x : (a <= x <= b)%N → between a b x = true.
Proof. intros Hx. unfold between. apply andb_true_intro; split; apply N.leb_le; lia. Qed.
Lemma between_false a b x : (x < a ∨ b < x)%N → between a b x = false.
Proof. unfold between. intros [Hx|Hx]; apply andb_false_iff; [left|right]; apply N.leb_gt; lia. Qed.

(** Resolve the tests of the decoder on bytes whose range is known. *)
Ltac byte_tests :=
  repeat match goal with
  | |- context [between ?a ?b ?x] =>
      first [rewrite (between_true a b x) by lia | rewrite (between_false a b x) by lia]
  | |- context [(?x <? ?y)%N] =>
      first [rewrite (proj2 (N.ltb_lt x y)) by lia | rewrite (proj2 (N.ltb_ge x y)) by lia]
  end.

(** The digits of a code point in base 64. *)
Lemma digits64 c :
  (c = 64 * (c / 64) + c mod 64 ∧ c mod 64 < 64 ∧
   c / 64 = 64 * (c / 4096) + c / 64 mod 64 ∧ c / 64 mod 64 < 64 ∧
   c / 4096 = 64 * (c / 262144) + c / 4096 mod 64 ∧ c / 4096 mod 64 < 64)%N.
Proof.
  change 262144%N with (4096 * 64)%N. change 4096%N with (64 * 64)%N.
  rewrite <- !N.Div0.div_div.
  split_and!; first [apply N.div_mod | apply N.mod_lt]; done.
Qed.

Ltac name_digits c :=
  destruct (digits64 c) as (?E1 & ?L1 & ?E2 & ?L2 & ?E3 & ?L3);
  set (r2 := ((c / 4096) mod 64)%N) in *; set (q3 := (c / 262144)%N) in *;
  set (r1 := ((c / 64) mod 64)%N) in *; set (q2 := (c / 4096)%N) in *;
  set (q1 := (c / 64)%N) in *; set (r0 := (c mod 64)%N) in *; clearbody r0 r1 r2 q1 q2 q3.

Lemma second_of_three_ok c :
  (2048 <= c < 65536)%N → is_scalar c = true →
  second_of_three (224 + c / 4096) (128 + c / 64 mod 64) = true.
Proof.
  intros Hc Hs. unfold second_of_three, is_scalar in *.
  name_digits c.
  destruct (N.eqb_spec (224 + q2) 224); [apply between_true; lia|].
  destruct (N.eqb_spec (224 + q2) 237); apply between_true; [|lia].
  apply orb_prop in Hs as [Hs%N.ltb_lt|[Hs%N.leb_le _]%andb_prop]; lia.
Qed.

Lemma second_of_four_ok c :
  (65536 <= c < 1114112)%N →
  second_of_four (240 + c / 262144) (128 + c / 4096 mod 64) = true.
Proof.
  intros Hc. unfold second_of_four.
  name_digits c.
  destruct (N.eqb_spec (240 + q3) 240); [apply between_true; lia|].
  destruct (N.eqb_spec (240 + q3) 244); apply between_true; lia.
Qed.

Lemma decode_encode c rest :
  is_scalar c = true → from_utf8_lossy (encode_utf8 c ++ rest) = c :: from_utf8_lossy rest.
Proof.
  intros Hs. assert (c < 1114112)%N as Hmax.
  { unfold is_scalar in Hs. apply orb_prop in Hs as [Hs%N.ltb_lt|[_ Hs%N.ltb_lt]%andb_prop]; lia. }
  unfold encode_utf8. destruct (N.ltb_spec c 128) as [H1|H1].
  { cbn [app from_utf8_lossy]. by byte_tests. }
  destruct (N.ltb_spec c 2048) as [H2|H2].
  { cbn [app from_utf8_lossy]. unfold continuation. name_digits c. byte_tests.
    f_equal. lia. }
  destruct (N.ltb_spec c 65536) as [H3|H3].
  { cbn [app from_utf8_lossy]. rewrite (second_of_three_ok c) by done. unfold continuation.
    name_digits c. byte_tests. f_equal. lia. }
  cbn [app from_utf8_lossy]. rewrite (second_of_four_ok c) by done. unfold continuation.
  name_digits c. byte_tests. f_equal. lia.
Qed.

Lemma lossy_utf8 s : Forall (λ c, is_scalar c = true) s → from_utf8_lossy (utf8 s) = s.
Proof.
  unfold utf8. induction 1 as [|c s Hc Hs IH]; [done|]. cbn [fmap list_fmap concat].
  by rewrite decode_encode, IH.
Qed.

Lemma from_utf8_utf8 s : Forall (λ c, is_scalar c = true) s → from_utf8 (utf8 s) = Some s.
Proof. intros Hs. unfold from_utf8. rewrite lossy_utf8 by done. by rewrite decide_True. Qed.

(** ** What is decoded consists of scalar values *)

Abbreviation scalars s := (Forall (λ c, is_scalar c = true) s).

Lemma between_spec a b x : between a b x = true → (a <= x <= b)%N.
Proof. unfold between. intros [H1%N.leb_le H2%N.leb_le]%andb_prop. lia. Qed.
Lemma scalar_low c : (c < 55296)%N → is_scalar c = true.
Proof. intros Hc. unfold is_scalar. by rewrite (proj2 (N.ltb_lt _ _) Hc). Qed.
Lemma scalar_high c : (57344 <= c < 1114112)%N → is_scalar c = true.
Proof.
  intros Hc. unfold is_scalar. apply orb_true_intro. right.
  apply andb_true_intro; split; [apply N.leb_le|apply N.ltb_lt]; lia.
Qed.
Lemma second_of_three_scalar b0 b1 b2 :
  between 224 239 b0 = true → second_of_three b0 b1 = true → continuation b2 = true →
  is_scalar ((b0 - 224) * 4096 + (b1 - 128) * 64 + (b2 - 128))%N = true.
Proof.
  intros H0%between_spec H1 H2%between_spec. unfold second_of_three in H1.
  destruct (N.eqb_spec b0 224); [apply between_spec in H1; apply scalar_low; lia|].
  destruct (N.eqb_spec b0 237); apply between_spec in H1; [apply scalar_low; lia|].
  destruct (N.le_gt_cases b0 236); [apply scalar_low; lia|apply scalar_high; lia].
Qed.
Lemma second_of_four_scalar b0 b1 b2 b3 :
  between 240 244 b0 = true → second_of_four b0 b1 = true →
  continuation b2 = true → continuation b3 = true →
  is_scalar ((b0 - 240) * 262144 + (b1 - 128) * 4096 + (b2 - 128) * 64 + (b3 - 128))%N = true.
Proof.
  intros H0%between_spec H1 H2%between_spec H3%between_spec. unfold second_of_four in H1.
  destruct (N.eqb_spec b0 240); [apply between_spec in H1; apply scalar_high; lia|].
  destruct (N.eqb_spec b0 244); apply between_spec in H1; apply scalar_high; lia.
Qed.

Lemma lossy_scalars bs : scalars (from_utf8_lossy bs).
Proof.
  remember (length bs) as n eqn:Hn. revert bs Hn.
  induction n as [n IH] using lt_wf_ind. intros [|b0 r0] ->; [constructor|].
  assert (∀ r, length r < length (b0 :: r0) → scalars (from_utf8_lossy r)) as IHr.
  { intros r Hr. by eapply IH. }
  clear IH. cbn [from_utf8_lossy]. cbn [length] in IHr.
  repeat match goal with
  | |- context [ (?x <? 128)%N ] => destruct (N.ltb_spec x 128)
  | |- context [ if ?b then _ else _ ] => destruct b eqn:?
  | |- context [ match ?l with [] => _ | _ :: _ => _ end ] => destruct l
  end; constructor; try (apply IHr; cbn [length]; lia); try reflexivity; try constructor;
    try (by apply second_of_three_scalar); try (by apply second_of_four_scalar).
  - apply scalar_low. lia.
  - repeat match goal with H : _ = true |- _ => apply between_spec in H end. apply scalar_low. lia.
Qed.
Lemma from_utf8_scalars bs s : from_utf8 bs = Some s → scalars s ∧ utf8 s = bs.
Proof.
  unfold from_utf8. destruct (decide _) as [Hd|]; [|done]. intros [= <-].
  split; [apply lossy_scalars|done].
Qed.
