(* ===== verification/Storage.v ===== *)
(** * Storage contracts ([codel00p-storage])

    The data types of [types.rs], the traits of [traits.rs] as classes of
    operations, and the laws a backend promises to the stores built on it.  The
    laws speak about three finite maps, the backend's view: documents,
    key-value pairs and append logs. *)

From stdpp Require Import base numbers strings gmap list.
From S2P Require Import Prelude RustStr.

(** ** JSON

    [serde_json] and the code [#[derive(Serialize, Deserialize)]] generates are
    not part of the sources: the value type, its errors and the conversions are
    parameters, and their documented round trip is a law. *)
Class JsonLib := {
  Value : Type;
  JsonError : Type;
}.
Class Serde `{JsonLib} (A : Type) := {
  to_value : A → result JsonError Value;
  from_value : Value → result JsonError A;
}.
Class SerdeLaws `{JsonLib} (A : Type) `{!Serde A} : Prop :=
  serde_round_trip : ∀ a : A, ∃ v, to_value a = Ok v ∧ from_value v = Ok a.

(** ** Scopes and keys *)

Record StorageScope := {
  organization_id : option str;
  project_id : option str;
  workspace_id : option str;
  user_id : option str;
}.
Definition scope_global : StorageScope :=
  {| organization_id := None; project_id := None; workspace_id := None; user_id := None |}.
Definition scope_organization (o : str) : StorageScope :=
  {| organization_id := Some o; project_id := None; workspace_id := None; user_id := None |}.
Definition scope_project (o p : str) : StorageScope :=
  {| organization_id := Some o; project_id := Some p; workspace_id := None; user_id := None |}.
Definition scope_workspace (w : str) : StorageScope :=
  {| organization_id := None; project_id := None; workspace_id := Some w; user_id := None |}.
Definition scope_user (u : str) : StorageScope :=
  {| organization_id := None; project_id := None; workspace_id := None; user_id := Some u |}.

#[export] Instance StorageScope_eq_dec : EqDecision StorageScope.
Proof. solve_decision. Defined.
#[export] Instance StorageScope_countable : Countable StorageScope.
Proof.
  refine (inj_countable'
    (λ s, (organization_id s, project_id s, workspace_id s, user_id s))
    (λ '(o, p, w, u), {| organization_id := o; project_id := p;
                         workspace_id := w; user_id := u |}) _).
  by intros [].
Defined.

Record ValueKey := { vk_scope : StorageScope; vk_key : str }.
Record DocumentKey := { dk_scope : StorageScope; dk_collection : str; dk_id : str }.
Record LogKey := { lk_scope : StorageScope; lk_stream : str }.

#[export] Instance ValueKey_eq_dec : EqDecision ValueKey.
Proof. solve_decision. Defined.
#[export] Instance DocumentKey_eq_dec : EqDecision DocumentKey.
Proof. solve_decision. Defined.
#[export] Instance LogKey_eq_dec : EqDecision LogKey.
Proof. solve_decision. Defined.
#[export] Instance ValueKey_countable : Countable ValueKey.
Proof.
  refine (inj_countable' (λ k, (vk_scope k, vk_key k))
    (λ '(s, k), {| vk_scope := s; vk_key := k |}) _). by intros [].
Defined.
#[export] Instance DocumentKey_countable : Countable DocumentKey.
Proof.
  refine (inj_countable' (λ k, (dk_scope k, dk_collection k, dk_id k))
    (λ '(s, c, i), {| dk_scope := s; dk_collection := c; dk_id := i |}) _). by intros [].
Defined.
#[export] Instance LogKey_countable : Countable LogKey.
Proof.
  refine (inj_countable' (λ k, (lk_scope k, lk_stream k))
    (λ '(s, k), {| lk_scope := s; lk_stream := k |}) _). by intros [].
Defined.

(** ** Stored records *)

Section records.
Context `{JsonLib}.

Record StorageDocument := {
  doc_scope : StorageScope;
  doc_collection : str;
  doc_id : str;
  doc_version : N;
  doc_payload : Value;
  doc_metadata : gmap str str;
}.
Definition StorageDocument_new (scope : StorageScope) (collection id : str)
    (payload : Value) : StorageDocument :=
  {| doc_scope := scope; doc_collection := collection; doc_id := id; doc_version := 0;
     doc_payload := payload; doc_metadata := ∅ |}.
Definition doc_with_metadata (key value : str) (d : StorageDocument) : StorageDocument :=
  {| doc_scope := doc_scope d; doc_collection := doc_collection d; doc_id := doc_id d;
     doc_version := doc_version d; doc_payload := doc_payload d;
     doc_metadata := <[key := value]> (doc_metadata d) |}.
Definition doc_with_version (d : StorageDocument) (version : N) : StorageDocument :=
  {| doc_scope := doc_scope d; doc_collection := doc_collection d; doc_id := doc_id d;
     doc_version := version; doc_payload := doc_payload d; doc_metadata := doc_metadata d |}.
Definition DocumentKey_new (scope : StorageScope) (collection id : str) : DocumentKey :=
  {| dk_scope := scope; dk_collection := collection; dk_id := id |}.
Definition doc_key (d : StorageDocument) : DocumentKey :=
  DocumentKey_new (doc_scope d) (doc_collection d) (doc_id d).

Record StorageValue := {
  val_scope : StorageScope;
  val_key : str;
  val_version : N;
  val_payload : Value;
  val_metadata : gmap str str;
}.
Definition StorageValue_new (scope : StorageScope) (key : str) (payload : Value) : StorageValue :=
  {| val_scope := scope; val_key := key; val_version := 0; val_payload := payload;
     val_metadata := ∅ |}.
Definition val_with_metadata (key value : str) (v : StorageValue) : StorageValue :=
  {| val_scope := val_scope v; val_key := val_key v; val_version := val_version v;
     val_payload := val_payload v; val_metadata := <[key := value]> (val_metadata v) |}.
Definition val_with_version (v : StorageValue) (version : N) : StorageValue :=
  {| val_scope := val_scope v; val_key := val_key v; val_version := version;
     val_payload := val_payload v; val_metadata := val_metadata v |}.
Definition ValueKey_new (scope : StorageScope) (key : str) : ValueKey :=
  {| vk_scope := scope; vk_key := key |}.

Record AppendLogEntry := {
  log_scope : StorageScope;
  log_stream : str;
  log_id : str;
  log_sequence : N;
  log_payload : Value;
  log_metadata : gmap str str;
}.
Definition LogKey_new (scope : StorageScope) (stream : str) : LogKey :=
  {| lk_scope := scope; lk_stream := stream |}.

Inductive StorageError :=
| NotFound (key : str)
| Conflict (key : str)
| Serialization (source : JsonError)
| Backend (message : str).

(** ** The traits *)

Class DocumentStore (S : Type) := {
  put_document : StorageDocument → st S StorageError StorageDocument;
  get_document : StorageScope → str → str → S → result StorageError (option StorageDocument);
  list_documents : StorageScope → str → S → result StorageError (list StorageDocument);
  delete_document : StorageScope → str → str → st S StorageError bool;
}.
Class KeyValueStore (S : Type) := {
  put_value : StorageValue → st S StorageError StorageValue;
  get_value : StorageScope → str → S → result StorageError (option StorageValue);
  list_values : StorageScope → option str → S → result StorageError (list StorageValue);
  delete_value : StorageScope → str → st S StorageError bool;
}.
Class AppendLogStore (S : Type) := {
  append_log_entry : StorageScope → str → Value → st S StorageError AppendLogEntry;
  replay_log : StorageScope → str → S → result StorageError (list AppendLogEntry);
}.
(** [AppendLogStore::append_log]: the provided method. *)
Definition append_log {S} `{!AppendLogStore S} (scope : StorageScope) (stream : str)
    (payload : Value) : st S StorageError AppendLogEntry :=
  append_log_entry scope stream payload.

(** ** What a backend promises *)

(** The version a put assigns: one more than the stored one, [1] at first. *)
Definition next_version (stored : option N) : N :=
  match stored with Some v => u64_add v 1 | None => 1%N end.
(** What a put stores. *)
Definition stored_document (m : gmap DocumentKey StorageDocument) (d : StorageDocument)
    : StorageDocument :=
  doc_with_version d (next_version (doc_version <$> m !! doc_key d)).
Definition stored_value (m : gmap ValueKey StorageValue) (v : StorageValue) : StorageValue :=
  val_with_version v
    (next_version (val_version <$> m !! ValueKey_new (val_scope v) (val_key v))).
(** The entry an append adds to a log. *)
Definition next_entry (log : list AppendLogEntry) (scope : StorageScope) (stream : str)
    (payload : Value) : AppendLogEntry :=
  let sequence := (N.of_nat (length log) + 1)%N in
  {| log_scope := scope; log_stream := stream; log_id := lit "log-entry-" ++ show_N sequence;
     log_sequence := sequence; log_payload := payload; log_metadata := ∅ |}.
(** A listing: the collection's documents in id order. *)
Definition documents_of (scope : StorageScope) (collection : str)
    (entries : list (DocumentKey * StorageDocument)) : list StorageDocument :=
  sort_by (cmp_on doc_id str_cmp)
    (snd <$> filter (λ p, dk_scope p.1 = scope ∧ dk_collection p.1 = collection) entries).
Definition values_of (scope : StorageScope) (prefix : option str)
    (entries : list (ValueKey * StorageValue)) : list StorageValue :=
  sort_by (cmp_on val_key str_cmp)
    (snd <$> filter (λ p, from_option (λ x, starts_with x (vk_key p.1)) true prefix = true)
       (filter (λ p, vk_scope p.1 = scope) entries)).

(** The view of a backend's state. *)
Class StorageView (S : Type) := {
  docs : S → gmap DocumentKey StorageDocument;
  vals : S → gmap ValueKey StorageValue;
  logs : S → gmap LogKey (list AppendLogEntry);
}.

Class DocumentLaws (S : Type) `{!DocumentStore S, !StorageView S} : Prop := {
  put_document_law : ∀ d s, ∃ s',
    put_document d s = (Ok (stored_document (docs s) d), s') ∧
    docs s' = <[doc_key d := stored_document (docs s) d]> (docs s) ∧
    vals s' = vals s ∧ logs s' = logs s;
  get_document_law : ∀ scope c id s,
    get_document scope c id s = Ok (docs s !! DocumentKey_new scope c id);
  list_documents_law : ∀ scope c s,
    list_documents scope c s = Ok (documents_of scope c (map_to_list (docs s)));
  delete_document_law : ∀ scope c id s, ∃ s',
    delete_document scope c id s =
      (Ok (bool_decide (is_Some (docs s !! DocumentKey_new scope c id))), s') ∧
    docs s' = delete (DocumentKey_new scope c id) (docs s) ∧
    vals s' = vals s ∧ logs s' = logs s;
}.
Class LogLaws (S : Type) `{!AppendLogStore S, !StorageView S} : Prop := {
  append_log_law : ∀ scope stream payload s, ∃ s',
    let log := default [] (logs s !! LogKey_new scope stream) in
    let e := next_entry log scope stream payload in
    append_log_entry scope stream payload s = (Ok e, s') ∧
    logs s' = <[LogKey_new scope stream := log ++ [e]]> (logs s) ∧
    docs s' = docs s ∧ vals s' = vals s;
  replay_log_law : ∀ scope stream s,
    replay_log scope stream s = Ok (default [] (logs s !! LogKey_new scope stream));
}.
End records.
Arguments StorageDocument {_}.
Arguments StorageValue {_}.
Arguments AppendLogEntry {_}.
Arguments StorageError {_}.
Arguments DocumentStore {_} S.
Arguments KeyValueStore {_} S.
Arguments AppendLogStore {_} S.
Arguments StorageView {_} S.
Arguments DocumentLaws {_} S {_ _}.
Arguments LogLaws {_} S {_ _}.

(** A map whose keys are the keys of its documents. *)
Definition docs_keyed `{JsonLib} (m : gmap DocumentKey StorageDocument) : Prop :=
  ∀ k d, m !! k = Some d → doc_key d = k.

Section listing.
Context `{JsonLib}.
Implicit Types m : gmap DocumentKey StorageDocument.

Lemma docs_keyed_insert m d : docs_keyed m → docs_keyed (<[doc_key d := d]> m).
Proof.
  intros Hm k e. rewrite lookup_insert. case_decide; [by intros [= <-]|]. apply Hm.
Qed.

Lemma stored_document_key m d : doc_key (stored_document m d) = doc_key d.
Proof. done. Qed.

Lemma elem_of_documents_of scope c (l : list (DocumentKey * StorageDocument)) d :
  d ∈ documents_of scope c l ↔
    ∃ k, (k, d) ∈ l ∧ dk_scope k = scope ∧ dk_collection k = c.
Proof.
  unfold documents_of. rewrite elem_of_sort_by, list_elem_of_fmap.
  setoid_rewrite list_elem_of_filter. split.
  - intros ([k d'] & -> & [Hs Hc] & Hin). by exists k.
  - intros (k & Hin & Hs & Hc). by exists (k, d).
Qed.

(** The listing does not depend on the order in which the hash map is
    enumerated. *)
Lemma documents_of_perm scope c m l :
  docs_keyed m → l ≡ₚ map_to_list m →
  documents_of scope c l = documents_of scope c (map_to_list m).
Proof.
  intros Hm Hl. apply sort_by_perm_eq.
  - apply _.
  - intros d e Hd He Heq. unfold cmp_on in Heq. apply str_cmp_eq in Heq.
    rewrite list_elem_of_fmap in Hd, He.
    destruct Hd as ([k d'] & -> & Hd), He as ([k' e'] & -> & He).
    rewrite list_elem_of_filter, Hl, elem_of_map_to_list in Hd, He. simpl in *.
    destruct Hd as [[Hs Hc] Hd], He as [[Hs' Hc'] He].
    pose proof (Hm _ _ Hd) as Hk. pose proof (Hm _ _ He) as Hk'.
    assert (k = k') as <-; [|congruence].
    rewrite <- Hk, <- Hk' in *. unfold doc_key, DocumentKey_new in *. simpl in *. congruence.
  - by rewrite Hl.
Qed.
End listing.

(** ** The in-memory backend ([codel00p-storage/src/in_memory.rs])

    [InMemoryStorage] with its twelve operations, the proof that it keeps the
    promises of [Storage], and the invariants of every reachable state. *)

Section in_memory.
Context `{JsonLib}.

Record InMemoryStorage := {
  im_values : gmap ValueKey StorageValue;
  im_documents : gmap DocumentKey StorageDocument;
  im_logs : gmap LogKey (list AppendLogEntry);
}.
Definition InMemoryStorage_default : InMemoryStorage :=
  {| im_values := ∅; im_documents := ∅; im_logs := ∅ |}.

Definition set_values (s : InMemoryStorage) m : InMemoryStorage :=
  {| im_values := m; im_documents := im_documents s; im_logs := im_logs s |}.
Definition set_documents (s : InMemoryStorage) m : InMemoryStorage :=
  {| im_values := im_values s; im_documents := m; im_logs := im_logs s |}.
Definition set_logs (s : InMemoryStorage) m : InMemoryStorage :=
  {| im_values := im_values s; im_documents := im_documents s; im_logs := m |}.

(** ** Key-value operations *)

Definition im_put_value (value : StorageValue) : st InMemoryStorage StorageError StorageValue :=
  λ s,
    let key := ValueKey_new (val_scope value) (val_key value) in
    let next_version :=
      match im_values s !! key with
      | Some existing => u64_add (val_version existing) 1
      | None => 1%N
      end in
    let stored := val_with_version value next_version in
    (Ok stored, set_values s (<[key := stored]> (im_values s))).

Definition im_get_value (scope : StorageScope) (key : str) (s : InMemoryStorage)
    : result StorageError (option StorageValue) :=
  Ok (im_values s !! ValueKey_new scope key).

Definition im_list_values (scope : StorageScope) (key_prefix : option str)
    (s : InMemoryStorage) : result StorageError (list StorageValue) :=
  Ok (sort_by (cmp_on val_key str_cmp)
       (snd <$> filter (λ p, match key_prefix with
                             | Some prefix => starts_with prefix (vk_key p.1)
                             | None => true
                             end = true)
          (filter (λ p, vk_scope p.1 = scope) (map_to_list (im_values s))))).

Definition im_delete_value (scope : StorageScope) (key : str)
    : st InMemoryStorage StorageError bool :=
  λ s,
    let k := ValueKey_new scope key in
    (Ok (bool_decide (is_Some (im_values s !! k))), set_values s (delete k (im_values s))).

(** ** Document operations *)

Definition im_put_document (document : StorageDocument)
    : st InMemoryStorage StorageError StorageDocument :=
  λ s,
    let key := DocumentKey_new (doc_scope document) (doc_collection document)
                 (doc_id document) in
    let next_version :=
      match im_documents s !! key with
      | Some existing => u64_add (doc_version existing) 1
      | None => 1%N
      end in
    let stored := doc_with_version document next_version in
    (Ok stored, set_documents s (<[key := stored]> (im_documents s))).

Definition im_get_document (scope : StorageScope) (collection id : str)
    (s : InMemoryStorage) : result StorageError (option StorageDocument) :=
  Ok (im_documents s !! DocumentKey_new scope collection id).

Definition im_list_documents (scope : StorageScope) (collection : str)
    (s : InMemoryStorage) : result StorageError (list StorageDocument) :=
  Ok (sort_by (cmp_on doc_id str_cmp)
       (snd <$> filter (λ p, dk_scope p.1 = scope ∧ dk_collection p.1 = collection)
          (map_to_list (im_documents s)))).

Definition im_delete_document (scope : StorageScope) (collection id : str)
    : st InMemoryStorage StorageError bool :=
  λ s,
    let k := DocumentKey_new scope collection id in
    (Ok (bool_decide (is_Some (im_documents s !! k))),
     set_documents s (delete k (im_documents s))).

(** ** Append logs *)

Definition im_append_log_entry (scope : StorageScope) (stream : str) (payload : Value)
    : st InMemoryStorage StorageError AppendLogEntry :=
  λ s,
    let key := LogKey_new scope stream in
    let entries := default [] (im_logs s !! key) in
    let sequence := (N.of_nat (length entries) + 1)%N in
    let entry := {| log_scope := scope; log_stream := stream;
                    log_id := lit "log-entry-" ++ show_N sequence;
                    log_sequence := sequence; log_payload := payload;
                    log_metadata := ∅ |} in
    (Ok entry, set_logs s (<[key := entries ++ [entry]]> (im_logs s))).

Definition im_replay_log (scope : StorageScope) (stream : str) (s : InMemoryStorage)
    : result StorageError (list AppendLogEntry) :=
  Ok (default [] (im_logs s !! LogKey_new scope stream)).

#[export] Instance im_document_store : DocumentStore InMemoryStorage := {|
  put_document := im_put_document; get_document := im_get_document;
  list_documents := im_list_documents; delete_document := im_delete_document;
|}.
#[export] Instance im_key_value_store : KeyValueStore InMemoryStorage := {|
  put_value := im_put_value; get_value := im_get_value;
  list_values := im_list_values; delete_value := im_delete_value;
|}.
#[export] Instance im_append_log_store : AppendLogStore InMemoryStorage := {|
  append_log_entry := im_append_log_entry; replay_log := im_replay_log;
|}.
#[export] Instance im_view : StorageView InMemoryStorage := {|
  docs := im_documents; vals := im_values; logs := im_logs;
|}.

(** ** The backend keeps its promises *)

Lemma im_stored_document (m : gmap DocumentKey StorageDocument) d :
  doc_with_version d match m !! doc_key d with
                     | Some existing => u64_add (doc_version existing) 1
                     | None => 1%N
                     end = stored_document m d.
Proof. unfold stored_document, next_version. by destruct (m !! doc_key d). Qed.

#[export] Instance im_document_laws : DocumentLaws InMemoryStorage.
Proof.
  split; intros; try done.
  - rewrite <- im_stored_document. by eexists.
  - by eexists.
Qed.

#[export] Instance im_log_laws : LogLaws InMemoryStorage.
Proof. split; intros; [|done]. by eexists. Qed.

(** ** Reachable states *)

Inductive im_op :=
| OpPutValue (v : StorageValue)
| OpDeleteValue (scope : StorageScope) (key : str)
| OpPutDocument (d : StorageDocument)
| OpDeleteDocument (scope : StorageScope) (collection id : str)
| OpAppend (scope : StorageScope) (stream : str) (payload : Value).

Definition im_step (o : im_op) (s : InMemoryStorage) : InMemoryStorage :=
  match o with
  | OpPutValue v => (im_put_value v s).2
  | OpDeleteValue scope key => (im_delete_value scope key s).2
  | OpPutDocument d => (im_put_document d s).2
  | OpDeleteDocument scope c id => (im_delete_document scope c id s).2
  | OpAppend scope stream payload => (im_append_log_entry scope stream payload s).2
  end.

Definition im_run (ops : list im_op) (s : InMemoryStorage) : InMemoryStorage :=
  foldl (λ s o, im_step o s) s ops.

(** A log whose entries carry their stream and count up from one. *)
Definition log_numbered (k : LogKey) (l : list AppendLogEntry) : Prop :=
  ∀ i e, l !! i = Some e →
    log_sequence e = N.of_nat (S i) ∧ log_id e = lit "log-entry-" ++ show_N (N.of_nat (S i)) ∧
    LogKey_new (log_scope e) (log_stream e) = k.

Record im_wf (s : InMemoryStorage) : Prop := {
  wf_values : ∀ k v, im_values s !! k = Some v → ValueKey_new (val_scope v) (val_key v) = k;
  wf_documents : docs_keyed (im_documents s);
  wf_logs : ∀ k l, im_logs s !! k = Some l → log_numbered k l;
}.

Lemma im_wf_default : im_wf InMemoryStorage_default.
Proof. split; intros k ?; simpl; by rewrite lookup_empty. Qed.

Lemma log_numbered_snoc k l e :
  log_numbered k l → log_sequence e = (N.of_nat (length l) + 1)%N →
  log_id e = lit "log-entry-" ++ show_N (N.of_nat (length l) + 1) →
  LogKey_new (log_scope e) (log_stream e) = k → log_numbered k (l ++ [e]).
Proof.
  intros Hl Hs Hi Hk i x. rewrite lookup_app_Some. intros [Hx|[Hlen Hx]]; [by apply Hl|].
  apply list_lookup_singleton_Some in Hx as [Hi0 <-].
  assert (i = length l) as -> by lia.
  replace (N.of_nat (S (length l))) with (N.of_nat (length l) + 1)%N by lia. done.
Qed.

Lemma im_step_wf o s : im_wf s → im_wf (im_step o s).
Proof.
  intros [Hv Hd Hl]. destruct o as [v|scope key|d|scope c id|scope stream payload];
    simpl; split; simpl; try done.
  - intros k w. rewrite lookup_insert. case_decide as Hk; [by intros [= <-]|apply Hv].
  - intros k w. rewrite lookup_delete_Some. intros [_ ?]. by apply Hv.
  - intros k e. rewrite lookup_insert. case_decide as Hk; [by intros [= <-]|apply Hd].
  - intros k e. rewrite lookup_delete_Some. intros [_ ?]. by apply Hd.
  - intros k l. rewrite lookup_insert. case_decide as Hk; [|apply Hl]. intros [= <-].
    apply log_numbered_snoc; [|done..]. subst k.
    destruct (im_logs s !! LogKey_new scope stream) as [l'|] eqn:E; simpl; [by apply Hl|].
    by intros i e.
Qed.

Lemma im_run_wf ops s : im_wf s → im_wf (im_run ops s).
Proof.
  revert s. induction ops as [|o ops IH]; intros s Hs; simpl; [done|].
  by apply IH, im_step_wf.
Qed.

Lemma im_step_logs o s k :
  default [] (im_logs s !! k) `prefix_of` default [] (im_logs (im_step o s) !! k).
Proof.
  destruct o as [v|scope key|d|scope c id|scope stream payload]; simpl; try done.
  rewrite lookup_insert. case_decide as Hk; [|done]. subst k. by eexists.
Qed.

(** Logs are append-only: whatever operations run next, what a stream
    replayed before is a prefix of what it replays after, and in every state
    reachable from the empty store the entries of a stream carry its scope and
    name and are numbered from one without gaps. *)
Theorem log_append_only ops ops' scope stream :
  let s := im_run ops InMemoryStorage_default in
  ∃ l l', im_replay_log scope stream s = Ok l ∧ im_replay_log scope stream (im_run ops' s) = Ok l' ∧
    l `prefix_of` l' ∧
    ∀ i e, l' !! i = Some e →
      log_sequence e = N.of_nat (S i) ∧ log_id e = lit "log-entry-" ++ show_N (N.of_nat (S i)) ∧
      log_scope e = scope ∧ log_stream e = stream.
Proof.
  intros s. eexists _, _. split; [done|]. split; [done|]. split.
  - generalize s as s0. induction ops' as [|o ops' IH]; intros s0; simpl; [done|].
    etrans; [apply (im_step_logs o)|apply IH].
  - pose proof (im_run_wf ops' s (im_run_wf ops _ im_wf_default)) as Hw.
    intros i e. destruct (im_logs (im_run ops' s) !! LogKey_new scope stream) as [l|] eqn:Hl; simpl; [|done].
    intros He. destruct (wf_logs _ Hw _ _ Hl i e He) as (? & ? & [= ? ?]). done.
Qed.

(** Documents: in every reachable state a put returns the document with
    the next version, a get then reads exactly that, other documents are
    unchanged, and a listing holds each stored document of the collection once,
    strictly ordered by id. *)
Theorem document_put_get ops d scope collection id :
  let s := im_run ops InMemoryStorage_default in
  ∃ stored s', im_put_document d s = (Ok stored, s') ∧
    stored = doc_with_version d (next_version (doc_version <$> im_documents s !! doc_key d)) ∧
    im_get_document (doc_scope d) (doc_collection d) (doc_id d) s' = Ok (Some stored) ∧
    (DocumentKey_new scope collection id ≠ doc_key d →
     im_get_document scope collection id s' = im_get_document scope collection id s) ∧
    ∃ l, im_list_documents scope collection s' = Ok l ∧
      Sorted.StronglySorted (λ a b, str_cmp (doc_id a) (doc_id b) = Lt) l ∧
      ∀ x, x ∈ l ↔ im_get_document scope collection (doc_id x) s' = Ok (Some x).
Proof.
  intros s. set (s' := (im_put_document d s).2).
  assert (Hw : im_wf s') by (apply (im_step_wf (OpPutDocument d)), im_run_wf, im_wf_default).
  exists (stored_document (im_documents s) d), s'. split.
  { unfold s', im_put_document. simpl. by rewrite <- im_stored_document. }
  assert (Hs' : im_documents s' = <[doc_key d := stored_document (im_documents s) d]> (im_documents s)).
  { unfold s', im_put_document. simpl. by rewrite <- im_stored_document. }
  split; [done|]. split; [|split].
  - unfold im_get_document. rewrite Hs'. fold (doc_key d). by rewrite lookup_insert_eq.
  - intros Hne. unfold im_get_document. by rewrite Hs', lookup_insert_ne.
  - eexists. split; [done|]. split.
    + apply sort_by_key_strict. rewrite <- list_fmap_compose.
      apply NoDup_fmap_2_strong; [|apply NoDup_filter, NoDup_map_to_list].
      intros [k x] [k' x']. rewrite !list_elem_of_filter, !elem_of_map_to_list. simpl.
      intros [[H1 H2] Hx] [[H3 H4] Hx'] Heq.
      pose proof (wf_documents _ Hw _ _ Hx) as Hk. pose proof (wf_documents _ Hw _ _ Hx') as Hk'.
      assert (k = k') as <-; [|congruence].
      rewrite <- Hk, <- Hk' in *. unfold doc_key, DocumentKey_new in *. simpl in *. congruence.
    + intros x. rewrite elem_of_sort_by, list_elem_of_fmap.
      setoid_rewrite list_elem_of_filter. unfold im_get_document. split.
      * intros ([k x'] & -> & [[<- <-] Hx%elem_of_map_to_list]). simpl in *. pose proof (wf_documents _ Hw _ _ Hx) as Hk.
        subst k. simpl. unfold doc_key in Hx. by rewrite Hx.
      * intros [= Hx]. exists (DocumentKey_new scope collection (doc_id x), x).
        by rewrite elem_of_map_to_list.
Qed.
End in_memory.
Arguments InMemoryStorage {_}.
