(* ===== verification/Protocol.v ===== *)
(** * Memory contracts ([codel00p-protocol/src/memory.rs], [ids.rs])

    The reviewed-memory data model shared by the memory store, the curator and
    the stores built on them. *)

From stdpp Require Import base numbers strings gmap list.
From S2P Require Import Prelude RustStr.

(** [SessionId], [TurnId] and [EventId] are transparent string newtypes. *)
Abbreviation SessionId := str.
Abbreviation TurnId := str.
Abbreviation EventId := str.

Record ProjectRef := { project_ref_id : str; project_ref_name : str }.
Definition ProjectRef_new (id name : str) : ProjectRef :=
  {| project_ref_id := id; project_ref_name := name |}.

Inductive MemoryKind :=
| Architecture | Convention | Workflow | Decision' | Deployment | Troubleshooting.

Inductive MemoryStatus := Candidate | Approved | Rejected | Archived.

Inductive MemorySensitivity := Normal | Sensitive.

(** Ordered narrow to wide. *)
Inductive MemoryVisibility := Private | Project | Team | Org.

#[export] Instance ProjectRef_eq_dec : EqDecision ProjectRef.
Proof. solve_decision. Defined.
#[export] Instance MemoryKind_eq_dec : EqDecision MemoryKind.
Proof. solve_decision. Defined.
#[export] Instance MemoryStatus_eq_dec : EqDecision MemoryStatus.
Proof. solve_decision. Defined.
#[export] Instance MemorySensitivity_eq_dec : EqDecision MemorySensitivity.
Proof. solve_decision. Defined.
#[export] Instance MemoryVisibility_eq_dec : EqDecision MemoryVisibility.
Proof. solve_decision. Defined.

(** The derived [Ord]: declaration order. *)
Definition visibility_rank (v : MemoryVisibility) : nat :=
  match v with Private => 0 | Project => 1 | Team => 2 | Org => 3 end.
(** [a > b]. *)
Definition visibility_gt (a b : MemoryVisibility) : bool := visibility_rank b <? visibility_rank a.

Record MemorySource := {
  source_session_id : SessionId;
  source_turn_id : TurnId;
  source_uri : option str;
}.
Definition MemorySource_turn (session : SessionId) (turn : TurnId) : MemorySource :=
  {| source_session_id := session; source_turn_id := turn; source_uri := None |}.
Definition MemorySource_import (uri : str) : MemorySource :=
  {| source_session_id := []; source_turn_id := []; source_uri := Some uri |}.
Definition source_with_uri (uri : str) (s : MemorySource) : MemorySource :=
  {| source_session_id := source_session_id s; source_turn_id := source_turn_id s;
     source_uri := if is_empty (trim uri) then None else Some uri |}.
Definition source_is_import (s : MemorySource) : bool :=
  is_empty (source_session_id s) && bool_decide (is_Some (source_uri s)).

Inductive EvidenceKind := EFile | EUrl | EPr | EIssue | ECommit | EOther.

Record MemoryEvidence := {
  evidence_kind : EvidenceKind;
  evidence_reference : str;
  evidence_note : option str;
}.
Definition MemoryEvidence_new (kind : EvidenceKind) (reference : str) : MemoryEvidence :=
  {| evidence_kind := kind; evidence_reference := reference; evidence_note := None |}.
Definition evidence_with_note (note : str) (e : MemoryEvidence) : MemoryEvidence :=
  {| evidence_kind := evidence_kind e; evidence_reference := evidence_reference e;
     evidence_note := if is_empty (trim note) then None else Some note |}.

Record MemoryEntry := {
  entry_id : str;
  entry_project : ProjectRef;
  entry_kind : MemoryKind;
  entry_status : MemoryStatus;
  entry_sensitivity : MemorySensitivity;
  entry_visibility : MemoryVisibility;
  entry_content : str;
  entry_tags : list str;
  entry_source : option MemorySource;
  entry_evidence : list MemoryEvidence;
}.

Definition MemoryEntry_new (id : str) (project : ProjectRef) (kind : MemoryKind)
    (content : str) : MemoryEntry :=
  {| entry_id := id; entry_project := project; entry_kind := kind; entry_status := Candidate;
     entry_sensitivity := Normal; entry_visibility := Project; entry_content := content;
     entry_tags := []; entry_source := None; entry_evidence := [] |}.

Definition with_status (status : MemoryStatus) (e : MemoryEntry) : MemoryEntry :=
  {| entry_id := entry_id e; entry_project := entry_project e; entry_kind := entry_kind e;
     entry_status := status; entry_sensitivity := entry_sensitivity e;
     entry_visibility := entry_visibility e; entry_content := entry_content e;
     entry_tags := entry_tags e; entry_source := entry_source e;
     entry_evidence := entry_evidence e |}.
Definition with_source (source : MemorySource) (e : MemoryEntry) : MemoryEntry :=
  {| entry_id := entry_id e; entry_project := entry_project e; entry_kind := entry_kind e;
     entry_status := entry_status e; entry_sensitivity := entry_sensitivity e;
     entry_visibility := entry_visibility e; entry_content := entry_content e;
     entry_tags := entry_tags e; entry_source := Some source;
     entry_evidence := entry_evidence e |}.
Definition with_sensitivity (sensitivity : MemorySensitivity) (e : MemoryEntry) : MemoryEntry :=
  {| entry_id := entry_id e; entry_project := entry_project e; entry_kind := entry_kind e;
     entry_status := entry_status e; entry_sensitivity := sensitivity;
     entry_visibility := entry_visibility e; entry_content := entry_content e;
     entry_tags := entry_tags e; entry_source := entry_source e;
     entry_evidence := entry_evidence e |}.
Definition with_visibility (visibility : MemoryVisibility) (e : MemoryEntry) : MemoryEntry :=
  {| entry_id := entry_id e; entry_project := entry_project e; entry_kind := entry_kind e;
     entry_status := entry_status e; entry_sensitivity := entry_sensitivity e;
     entry_visibility := visibility; entry_content := entry_content e;
     entry_tags := entry_tags e; entry_source := entry_source e;
     entry_evidence := entry_evidence e |}.
Definition with_tag (tag : str) (e : MemoryEntry) : MemoryEntry :=
  {| entry_id := entry_id e; entry_project := entry_project e; entry_kind := entry_kind e;
     entry_status := entry_status e; entry_sensitivity := entry_sensitivity e;
     entry_visibility := entry_visibility e; entry_content := entry_content e;
     entry_tags := entry_tags e ++ [tag]; entry_source := entry_source e;
     entry_evidence := entry_evidence e |}.
Definition with_evidence (evidence : MemoryEvidence) (e : MemoryEntry) : MemoryEntry :=
  {| entry_id := entry_id e; entry_project := entry_project e; entry_kind := entry_kind e;
     entry_status := entry_status e; entry_sensitivity := entry_sensitivity e;
     entry_visibility := entry_visibility e; entry_content := entry_content e;
     entry_tags := entry_tags e; entry_source := entry_source e;
     entry_evidence := entry_evidence e ++ [evidence] |}.

#[export] Instance MemorySource_eq_dec : EqDecision MemorySource.
Proof. solve_decision. Defined.
#[export] Instance EvidenceKind_eq_dec : EqDecision EvidenceKind.
Proof. solve_decision. Defined.
#[export] Instance MemoryEvidence_eq_dec : EqDecision MemoryEvidence.
Proof. solve_decision. Defined.
#[export] Instance MemoryEntry_eq_dec : EqDecision MemoryEntry.
Proof. solve_decision. Defined.

(** The builder loops [for tag in tags { entry = entry.with_tag(tag) }]. *)
Definition with_tags (tags : list str) (e : MemoryEntry) : MemoryEntry :=
  foldl (λ e t, with_tag t e) e tags.
Definition with_evidences (evs : list MemoryEvidence) (e : MemoryEntry) : MemoryEntry :=
  foldl (λ e v, with_evidence v e) e evs.

Lemma with_tags_eq tags e :
  with_tags tags e =
  {| entry_id := entry_id e; entry_project := entry_project e; entry_kind := entry_kind e;
     entry_status := entry_status e; entry_sensitivity := entry_sensitivity e;
     entry_visibility := entry_visibility e; entry_content := entry_content e;
     entry_tags := entry_tags e ++ tags; entry_source := entry_source e;
     entry_evidence := entry_evidence e |}.
Proof.
  revert e. induction tags as [|t tags IH]; intros e; simpl.
  - destruct e; simpl. by rewrite app_nil_r.
  - unfold with_tags in *. simpl. rewrite IH. simpl. by rewrite <- app_assoc.
Qed.

Lemma with_evidences_eq evs e :
  with_evidences evs e =
  {| entry_id := entry_id e; entry_project := entry_project e; entry_kind := entry_kind e;
     entry_status := entry_status e; entry_sensitivity := entry_sensitivity e;
     entry_visibility := entry_visibility e; entry_content := entry_content e;
     entry_tags := entry_tags e; entry_source := entry_source e;
     entry_evidence := entry_evidence e ++ evs |}.
Proof.
  revert e. induction evs as [|v evs IH]; intros e; simpl.
  - destruct e; simpl. by rewrite app_nil_r.
  - unfold with_evidences in *. simpl. rewrite IH. simpl. by rewrite <- app_assoc.
Qed.
