(* ===== verification/TextSim.v ===== *)
(** * Text similarity ([codel00p-textsim/src/lib.rs])

    The tokenizer and the shingle (token bigram) Jaccard score that memory and
    skill consolidation share. *)

From stdpp Require Import base numbers strings gmap list.
From S2P Require Import Prelude RustStr.

Section textsim.
Context `{Unicode}.

Definition SHINGLE_N : nat := 2.

Definition STOPWORDS : list str :=
  lit <$> ["a"; "an"; "and"; "are"; "as"; "at"; "be"; "by"; "for"; "from"; "in"; "is"; "it";
           "of"; "on"; "or"; "that"; "the"; "to"; "with"]%string.

(** The maximal alphanumeric runs of a text, in order. *)
Definition raw_tokens (text : str) : list str :=
  filter (λ token, is_empty token = false) (split_by (λ c, negb (is_alphanumeric c)) text).

Definition tokenize (text : str) : list str :=
  filter (λ token, token ∉ STOPWORDS) (to_lowercase <$> raw_tokens text).

(** [slice::windows]. *)
Definition windows (n : nat) (tokens : list str) : list (list str) :=
  (λ i, take n (drop i tokens)) <$> seq 0 (S (length tokens) - n).

Definition shingles (tokens : list str) (n : nat) : gset str :=
  match tokens with
  | [] => ∅
  | _ => if length tokens <? n then {[ join (lit " ") tokens ]}
         else list_to_set (join (lit " ") <$> windows n tokens)
  end.

(** [as u8] keeps the low eight bits. *)
Definition as_u8 (n : nat) : nat := n mod 256.

Definition shingle_similarity (left right : str) : nat :=
  let left_shingles := shingles (tokenize left) SHINGLE_N in
  let right_shingles := shingles (tokenize right) SHINGLE_N in
  if bool_decide (left_shingles = ∅) || bool_decide (right_shingles = ∅) then 0
  else
    let intersection := size (left_shingles ∩ right_shingles) in
    let union := size (left_shingles ∪ right_shingles) in
    if union =? 0 then 0
    else as_u8 ((intersection * 100 + union / 2) / union).

(** ** Properties *)

Lemma windows_ne n tokens : n ≠ 0 → n ≤ length tokens → windows n tokens ≠ [].
Proof.
  intros Hn Hlen. unfold windows.
  destruct (S (length tokens) - n) eqn:E; [lia|]. by simpl.
Qed.

(** A text has no shingles exactly when it has no tokens. *)
Lemma shingles_empty tokens n : n ≠ 0 → shingles tokens n = ∅ ↔ tokens = [].
Proof.
  intros Hn. unfold shingles. destruct tokens as [|t ts]; [done|].
  split; [|done]. destruct (length (t :: ts) <? n) eqn:Hl; intros He; exfalso.
  - by apply non_empty_singleton_L in He.
  - apply Nat.ltb_ge in Hl. pose proof (windows_ne n (t :: ts) Hn Hl) as Hw.
    destruct (windows n (t :: ts)); [done|]. set_solver.
Qed.

Lemma inter_le_union (a b : gset str) : size (a ∩ b) ≤ size (a ∪ b).
Proof. apply subseteq_size. set_solver. Qed.

(** The rounded percentage fits in [0..=100], so the cast loses nothing. *)
Lemma ratio_bound i u : u ≠ 0 → i ≤ u → (i * 100 + u / 2) / u ≤ 100.
Proof.
  intros Hu Hi. apply Nat.lt_succ_r, Nat.Div0.div_lt_upper_bound.
  pose proof (Nat.div_mod_eq u 2). pose proof (Nat.mod_upper_bound u 2). nia.
Qed.

(** The score is the rounded Jaccard percentage of the shingle sets. *)
Lemma similarity_eq left right :
  let a := shingles (tokenize left) SHINGLE_N in
  let b := shingles (tokenize right) SHINGLE_N in
  a ≠ ∅ → b ≠ ∅ →
  shingle_similarity left right = (size (a ∩ b) * 100 + size (a ∪ b) / 2) / size (a ∪ b).
Proof.
  intros a b Ha Hb. unfold shingle_similarity. fold a b.
  rewrite !bool_decide_eq_false_2 by done. simpl.
  destruct (Nat.eqb_spec (size (a ∪ b)) 0) as [Hz|Hz].
  - exfalso. apply size_empty_iff in Hz. set_solver.
  - apply Nat.mod_small. eapply Nat.le_lt_trans; [|apply (Nat.lt_succ_diag_r 255)].
    pose proof (ratio_bound _ _ Hz (inter_le_union a b)) as Hb'.
    by eapply Nat.le_trans; [exact Hb'|apply Nat.leb_le].
Qed.

Lemma similarity_empty left right :
  shingles (tokenize left) SHINGLE_N = ∅ ∨ shingles (tokenize right) SHINGLE_N = ∅ →
  shingle_similarity left right = 0.
Proof.
  unfold shingle_similarity. intros [He|He]; rewrite He; [done|].
  by rewrite (bool_decide_eq_true_2 (∅ = ∅)), orb_true_r by done.
Qed.

(** Case analysis on the score: no shingles on one side, or the ratio. *)
Lemma similarity_cases left right :
  shingle_similarity left right = 0 ∨
  (shingles (tokenize left) SHINGLE_N ≠ ∅ ∧ shingles (tokenize right) SHINGLE_N ≠ ∅).
Proof.
  destruct (decide (shingles (tokenize left) SHINGLE_N = ∅));
    [left; apply similarity_empty; by left|].
  destruct (decide (shingles (tokenize right) SHINGLE_N = ∅));
    [left; apply similarity_empty; by right|]. by right.
Qed.

Lemma similarity_le_100 left right : shingle_similarity left right ≤ 100.
Proof.
  destruct (similarity_cases left right) as [->|[Ha Hb]]; [lia|].
  rewrite similarity_eq by done. apply ratio_bound; [|apply inter_le_union].
  intros Hz%size_empty_iff. set_solver.
Qed.

Lemma similarity_sym left right :
  shingle_similarity left right = shingle_similarity right left.
Proof.
  unfold shingle_similarity.
  assert (∀ a b : gset str, a ∩ b = b ∩ a) as Hi by set_solver.
  assert (∀ a b : gset str, a ∪ b = b ∪ a) as Hu by set_solver.
  rewrite orb_comm, Hi, Hu. done.
Qed.

Lemma similarity_self text :
  shingle_similarity text text = if is_empty (tokenize text) then 0 else 100.
Proof.
  destruct (tokenize text) as [|t ts] eqn:Ht; simpl.
  - unfold shingle_similarity. by rewrite Ht.
  - assert (Hne : shingles (tokenize text) SHINGLE_N ≠ ∅)
      by (rewrite shingles_empty, Ht; done).
    rewrite similarity_eq by done. rewrite intersection_idemp_L, union_idemp_L.
    set (u := size _). assert (u ≠ 0) by (intros Hu%size_empty_iff; set_solver).
    symmetry. apply (Nat.div_unique _ _ _ (u / 2)); [|lia].
    apply Nat.div_lt; lia.
Qed.

(** A positive score needs a shared shingle. *)
Lemma similarity_pos_shared left right :
  0 < shingle_similarity left right →
  ∃ g, g ∈ shingles (tokenize left) SHINGLE_N ∧ g ∈ shingles (tokenize right) SHINGLE_N.
Proof.
  intros Hpos. destruct (similarity_cases left right) as [Hz|[Ha Hb]]; [lia|].
  rewrite similarity_eq in Hpos by done.
  set (a := shingles (tokenize left) SHINGLE_N) in *.
  set (b := shingles (tokenize right) SHINGLE_N) in *.
  destruct (set_choose_or_empty (a ∩ b)) as [[g Hg]|He]; [exists g; set_solver|].
  exfalso. apply size_empty_iff in He. rewrite He, Nat.mul_0_l, Nat.add_0_l in Hpos.
  assert (size (a ∪ b) ≠ 0) by (intros Hu%size_empty_iff; set_solver).
  rewrite Nat.div_small in Hpos; [lia|]. apply Nat.div_lt; lia.
Qed.

Lemma tokenize_no_stopwords text token : token ∈ tokenize text → token ∉ STOPWORDS.
Proof. unfold tokenize. rewrite list_elem_of_filter. tauto. Qed.

(** The similarity score: at most 100, symmetric, 100 for a text with
    itself unless it has no content-bearing token, and positive only when the
    two texts share a shingle. *)
Theorem shingle_similarity_laws left right :
  shingle_similarity left right ≤ 100 ∧
  shingle_similarity left right = shingle_similarity right left ∧
  shingle_similarity left left = (if is_empty (tokenize left) then 0 else 100) ∧
  (0 < shingle_similarity left right →
   ∃ g, g ∈ shingles (tokenize left) SHINGLE_N ∧ g ∈ shingles (tokenize right) SHINGLE_N).
Proof.
  split_and!; [apply similarity_le_100|apply similarity_sym|apply similarity_self|].
  apply similarity_pos_shared.
Qed.
End textsim.
