(* ===== verification/MemoryTypes.v ===== *)
(** * Memory inputs, review events, records and queries

    [codel00p-memory]: [util.rs], [error.rs], [inputs.rs], [review.rs],
    [records.rs] and [query.rs]. *)

From stdpp Require Import base numbers strings gmap list.
From S2P Require Import Prelude RustStr Storage Protocol TextSim.

(** ** [util.rs] *)

Definition non_empty_filter (value : str) : option str :=
  let trimmed := trim value in
  if is_empty trimmed then None else Some trimmed.

(** ** [error.rs] *)

Section errors.
Context `{JsonLib}.
Inductive MemoryError :=
| InvalidCandidate (message : str)
| InvalidEdit (message : str)
| InvalidMerge (message : str)
| InvalidSplit (message : str)
| MemoryAlreadyExists (id : str)
| DuplicateMemory (id existing_id : str)
| MemoryNotFound (id : str)
| InvalidTransition (from to : MemoryStatus)
| Ranking (message : str)
| EStorage (e : StorageError)
| ESerialization (e : JsonError).
End errors.
Arguments MemoryError {_}.

(** ** [inputs.rs] *)

Record MemoryCandidateInput := {
  in_id : str;
  in_project : ProjectRef;
  in_kind : MemoryKind;
  in_sensitivity : MemorySensitivity;
  in_visibility : MemoryVisibility;
  in_content : str;
  in_source : MemorySource;
  in_tags : list str;
  in_evidence : list MemoryEvidence;
}.
Definition MemoryCandidateInput_new (id : str) (project : ProjectRef) (kind : MemoryKind)
    (content : str) (source : MemorySource) : MemoryCandidateInput :=
  {| in_id := id; in_project := project; in_kind := kind; in_sensitivity := Normal;
     in_visibility := Project; in_content := content; in_source := source; in_tags := [];
     in_evidence := [] |}.
Definition in_with_tag (tag : str) (i : MemoryCandidateInput) : MemoryCandidateInput :=
  match non_empty_filter tag with
  | Some tag =>
      {| in_id := in_id i; in_project := in_project i; in_kind := in_kind i;
         in_sensitivity := in_sensitivity i; in_visibility := in_visibility i;
         in_content := in_content i; in_source := in_source i;
         in_tags := in_tags i ++ [tag]; in_evidence := in_evidence i |}
  | None => i
  end.
Definition in_with_evidence (e : MemoryEvidence) (i : MemoryCandidateInput)
    : MemoryCandidateInput :=
  {| in_id := in_id i; in_project := in_project i; in_kind := in_kind i;
     in_sensitivity := in_sensitivity i; in_visibility := in_visibility i;
     in_content := in_content i; in_source := in_source i; in_tags := in_tags i;
     in_evidence := in_evidence i ++ [e] |}.
Definition in_with_sensitivity (x : MemorySensitivity) (i : MemoryCandidateInput)
    : MemoryCandidateInput :=
  {| in_id := in_id i; in_project := in_project i; in_kind := in_kind i;
     in_sensitivity := x; in_visibility := in_visibility i;
     in_content := in_content i; in_source := in_source i; in_tags := in_tags i;
     in_evidence := in_evidence i |}.
Definition in_with_visibility (x : MemoryVisibility) (i : MemoryCandidateInput)
    : MemoryCandidateInput :=
  {| in_id := in_id i; in_project := in_project i; in_kind := in_kind i;
     in_sensitivity := in_sensitivity i; in_visibility := x;
     in_content := in_content i; in_source := in_source i; in_tags := in_tags i;
     in_evidence := in_evidence i |}.

Definition candidate_validate `{JsonLib} (i : MemoryCandidateInput) : result MemoryError unit :=
  if is_empty (trim (in_id i)) then
    Err (InvalidCandidate (lit "memory id cannot be empty"))
  else if is_empty (trim (in_content i)) then
    Err (InvalidCandidate (lit "memory content cannot be empty"))
  else Ok tt.

Definition into_entry (i : MemoryCandidateInput) : MemoryEntry :=
  let entry := with_visibility (in_visibility i)
                 (with_sensitivity (in_sensitivity i)
                    (with_source (in_source i)
                       (MemoryEntry_new (in_id i) (in_project i) (in_kind i) (in_content i)))) in
  let entry := with_tags (in_tags i) entry in
  with_evidences (in_evidence i) entry.

Record MemoryExtractionInput := {
  ex_project : ProjectRef;
  ex_source : MemorySource;
  ex_text : str;
  ex_tags : list str;
}.
Definition MemoryExtractionInput_new (project : ProjectRef) (source : MemorySource) (text : str)
    : MemoryExtractionInput :=
  {| ex_project := project; ex_source := source; ex_text := text; ex_tags := [] |}.
Definition ex_with_tag (tag : str) (i : MemoryExtractionInput) : MemoryExtractionInput :=
  match non_empty_filter tag with
  | Some tag => {| ex_project := ex_project i; ex_source := ex_source i; ex_text := ex_text i;
                   ex_tags := ex_tags i ++ [tag] |}
  | None => i
  end.

(** ** [review.rs] *)

Inductive ReviewDecision :=
| Approve (actor : str)
| Reject (actor reason : str)
| Archive (actor reason : str).

Inductive MemoryAuditAction :=
| CandidateCreated | ActionApproved | ActionRejected | ActionArchived | Edited | Merged
| Split | EvidenceAdded.
#[export] Instance MemoryAuditAction_eq_dec : EqDecision MemoryAuditAction.
Proof. solve_decision. Defined.

Definition decision_actor (d : ReviewDecision) : str :=
  match d with Approve actor | Reject actor _ | Archive actor _ => actor end.
Definition decision_reason (d : ReviewDecision) : option str :=
  match d with Approve _ => None | Reject _ reason | Archive _ reason => Some reason end.
Definition decision_action (d : ReviewDecision) : MemoryAuditAction :=
  match d with
  | Approve _ => ActionApproved | Reject _ _ => ActionRejected | Archive _ _ => ActionArchived
  end.
Definition next_status (d : ReviewDecision) : MemoryStatus :=
  match d with Approve _ => Approved | Reject _ _ => Rejected | Archive _ _ => Archived end.

Record MemorySplit := {
  split_actor : str;
  split_new_id : str;
  split_new_content : str;
  split_updated_source_content : option str;
  split_reason : option str;
}.
Definition MemorySplit_new (actor new_id new_content : str) : MemorySplit :=
  {| split_actor := actor; split_new_id := new_id; split_new_content := new_content;
     split_updated_source_content := None; split_reason := None |}.
Definition with_updated_source_content (content : str) (s : MemorySplit) : MemorySplit :=
  {| split_actor := split_actor s; split_new_id := split_new_id s;
     split_new_content := split_new_content s;
     split_updated_source_content := non_empty_filter content; split_reason := split_reason s |}.
Definition split_with_reason (reason : str) (s : MemorySplit) : MemorySplit :=
  {| split_actor := split_actor s; split_new_id := split_new_id s;
     split_new_content := split_new_content s;
     split_updated_source_content := split_updated_source_content s;
     split_reason := non_empty_filter reason |}.

Record MemoryMerge := { merge_actor : str; merge_reason : option str }.
Definition MemoryMerge_new (actor : str) : MemoryMerge :=
  {| merge_actor := actor; merge_reason := None |}.
Definition merge_with_reason (reason : str) (m : MemoryMerge) : MemoryMerge :=
  {| merge_actor := merge_actor m; merge_reason := non_empty_filter reason |}.

Record MemoryEdit := { edit_actor : str; edit_content : str; edit_reason : option str }.
Definition MemoryEdit_replace_content (actor content : str) : MemoryEdit :=
  {| edit_actor := actor; edit_content := content; edit_reason := None |}.
Definition edit_with_reason (reason : str) (e : MemoryEdit) : MemoryEdit :=
  {| edit_actor := edit_actor e; edit_content := edit_content e;
     edit_reason := non_empty_filter reason |}.
Definition edit_validate `{JsonLib} (e : MemoryEdit) : result MemoryError unit :=
  if is_empty (trim (edit_content e)) then
    Err (InvalidEdit (lit "memory content cannot be empty"))
  else Ok tt.

Record MemoryRevision := {
  rev_revision : N;
  rev_sequence : N;
  rev_actor : str;
  rev_action : MemoryAuditAction;
  rev_content : str;
  rev_reason : option str;
}.

Record MemoryAuditEvent := {
  ev_memory_id : str;
  ev_sequence : N;
  ev_action : MemoryAuditAction;
  ev_actor : str;
  ev_reason : option str;
  ev_previous_content : option str;
  ev_new_content : option str;
  ev_merged_into : option str;
  ev_split_into : option str;
  ev_evidence_reference : option str;
}.

Definition candidate_created (memory_id initial_content : str) : MemoryAuditEvent :=
  {| ev_memory_id := memory_id; ev_sequence := 0; ev_action := CandidateCreated;
     ev_actor := lit "system"; ev_reason := None; ev_previous_content := None;
     ev_new_content := Some initial_content; ev_merged_into := None; ev_split_into := None;
     ev_evidence_reference := None |}.
Definition reviewed (memory_id : str) (d : ReviewDecision) : MemoryAuditEvent :=
  {| ev_memory_id := memory_id; ev_sequence := 0; ev_action := decision_action d;
     ev_actor := decision_actor d; ev_reason := decision_reason d; ev_previous_content := None;
     ev_new_content := None; ev_merged_into := None; ev_split_into := None;
     ev_evidence_reference := None |}.
Definition merged (memory_id : str) (m : MemoryMerge) (merged_into : str) : MemoryAuditEvent :=
  {| ev_memory_id := memory_id; ev_sequence := 0; ev_action := Merged;
     ev_actor := merge_actor m; ev_reason := merge_reason m; ev_previous_content := None;
     ev_new_content := None; ev_merged_into := Some merged_into; ev_split_into := None;
     ev_evidence_reference := None |}.
Definition merged_from (memory_id : str) (m : MemoryMerge) (source_id : str)
    : MemoryAuditEvent :=
  let reason := match merge_reason m with
                | Some reason => lit "absorbed " ++ source_id ++ lit ": " ++ reason
                | None => lit "absorbed " ++ source_id
                end in
  {| ev_memory_id := memory_id; ev_sequence := 0; ev_action := Merged;
     ev_actor := merge_actor m; ev_reason := Some reason; ev_previous_content := None;
     ev_new_content := None; ev_merged_into := None; ev_split_into := None;
     ev_evidence_reference := None |}.
Definition split_source (memory_id : str) (s : MemorySplit) : MemoryAuditEvent :=
  {| ev_memory_id := memory_id; ev_sequence := 0; ev_action := Split;
     ev_actor := split_actor s; ev_reason := split_reason s; ev_previous_content := None;
     ev_new_content := None; ev_merged_into := None; ev_split_into := Some (split_new_id s);
     ev_evidence_reference := None |}.
Definition split_from (memory_id : str) (s : MemorySplit) (source_id : str) : MemoryAuditEvent :=
  let reason := match split_reason s with
                | Some reason => lit "split from " ++ source_id ++ lit ": " ++ reason
                | None => lit "split from " ++ source_id
                end in
  {| ev_memory_id := memory_id; ev_sequence := 0; ev_action := Split;
     ev_actor := split_actor s; ev_reason := Some reason; ev_previous_content := None;
     ev_new_content := None; ev_merged_into := None; ev_split_into := None;
     ev_evidence_reference := None |}.
Definition edited (memory_id : str) (e : MemoryEdit) (previous_content new_content : str)
    : MemoryAuditEvent :=
  {| ev_memory_id := memory_id; ev_sequence := 0; ev_action := Edited;
     ev_actor := edit_actor e; ev_reason := edit_reason e;
     ev_previous_content := Some previous_content; ev_new_content := Some new_content;
     ev_merged_into := None; ev_split_into := None; ev_evidence_reference := None |}.
Definition evidence_added (memory_id actor reference : str) (reason : option str)
    : MemoryAuditEvent :=
  {| ev_memory_id := memory_id; ev_sequence := 0; ev_action := EvidenceAdded;
     ev_actor := actor; ev_reason := reason; ev_previous_content := None;
     ev_new_content := None; ev_merged_into := None; ev_split_into := None;
     ev_evidence_reference := Some reference |}.

(** [event.sequence = entry.sequence()]. *)
Definition set_sequence (n : N) (e : MemoryAuditEvent) : MemoryAuditEvent :=
  {| ev_memory_id := ev_memory_id e; ev_sequence := n; ev_action := ev_action e;
     ev_actor := ev_actor e; ev_reason := ev_reason e;
     ev_previous_content := ev_previous_content e; ev_new_content := ev_new_content e;
     ev_merged_into := ev_merged_into e; ev_split_into := ev_split_into e;
     ev_evidence_reference := ev_evidence_reference e |}.
Definition from_log_entry `{JsonLib} `{!Serde MemoryAuditEvent} (entry : AppendLogEntry)
    : result MemoryError MemoryAuditEvent :=
  let? event := map_err ESerialization (from_value (log_payload entry)) in
  Ok (set_sequence (log_sequence entry) event).

(** ** [records.rs] *)

Record MemoryRecord := { record_entry : MemoryEntry }.
Definition MemoryRecord_new (entry : MemoryEntry) : MemoryRecord := {| record_entry := entry |}.
#[export] Instance MemoryRecord_eq_dec : EqDecision MemoryRecord.
Proof. solve_decision. Defined.

Record MemoryQuality := { quality_score : nat; quality_findings : list str }.

Record RetrievedMemory := { rt_record : MemoryRecord; rt_reason : str }.
Record SimilarMemory := { sim_record : MemoryRecord; sim_score : nat }.
Record RankedMemory := { rk_record : MemoryRecord; rk_score : nat }.
Record StaleMemory := {
  stale_record : MemoryRecord;
  stale_newer_record : MemoryRecord;
  stale_score : nat;
}.
Record QualityMemory := { qm_record : MemoryRecord; qm_quality : MemoryQuality }.

Definition record_id (r : MemoryRecord) : str := entry_id (record_entry r).

Section quality.
Context `{Unicode}.

Definition content_tokens (content : str) : gset str :=
  list_to_set (to_lowercase <$> raw_tokens content).

Definition contains_vague_language (tokens : gset str) : bool :=
  existsb (λ token, bool_decide (token ∈ tokens))
    (lit <$> ["important"; "stuff"; "thing"; "things"; "this"; "that"]%string).

Definition score_memory_entry (entry : MemoryEntry) : MemoryQuality :=
  let tokens := content_tokens (entry_content entry) in
  let '(score, findings) := (100%Z, []) in
  let '(score, findings) :=
    if size tokens <? 8
    then ((score - 25)%Z, findings ++ [lit "content is too short to be reusable"])
    else (score, findings) in
  let '(score, findings) :=
    if 80 <? length (split_whitespace (entry_content entry))
    then ((score - 15)%Z, findings ++ [lit "content may be too long for frequent retrieval"])
    else (score, findings) in
  let '(score, findings) :=
    if contains_vague_language tokens
    then ((score - 10)%Z, findings ++ [lit "content uses vague language"])
    else (score, findings) in
  {| quality_score := Z.to_nat (Z.max 0 (Z.min 100 score)); quality_findings := findings |}.

Definition record_quality (r : MemoryRecord) : MemoryQuality :=
  score_memory_entry (record_entry r).

(** The score is 100 less the deductions its findings explain. *)
Lemma score_memory_entry_bounds entry :
  50 ≤ quality_score (score_memory_entry entry) ≤ 100 ∧
  (quality_score (score_memory_entry entry) = 100 ↔
   quality_findings (score_memory_entry entry) = []).
Proof. unfold score_memory_entry. repeat case_match; simplify_eq; simpl; split; try lia; done. Qed.
End quality.

(** ** [query.rs] *)

Record MemoryQuery := {
  mq_project : ProjectRef;
  mq_kind : option MemoryKind;
  mq_sensitivity : option MemorySensitivity;
  mq_visibility : option MemoryVisibility;
  mq_tag : option str;
  mq_text : option str;
  mq_limit : option nat;
}.
Record MemoryListFilter := {
  lf_project : ProjectRef;
  lf_status : option MemoryStatus;
  lf_kind : option MemoryKind;
  lf_sensitivity : option MemorySensitivity;
  lf_visibility : option MemoryVisibility;
  lf_tag : option str;
  lf_limit : option nat;
}.
Record MemoryRetrievalQuery := {
  rq_project : ProjectRef;
  rq_query : str;
  rq_kind : option MemoryKind;
  rq_sensitivity : option MemorySensitivity;
  rq_visibility : option MemoryVisibility;
  rq_tag : option str;
  rq_min_score : nat;
  rq_limit : option nat;
}.
Record MemorySimilarityQuery := {
  sq_project : ProjectRef;
  sq_kind : MemoryKind;
  sq_content : str;
  sq_min_score : nat;
  sq_limit : option nat;
}.
Record MemoryStalenessQuery := {
  tq_project : ProjectRef;
  tq_kind : option MemoryKind;
  tq_min_score : nat;
  tq_limit : option nat;
}.
Record MemoryQualityQuery := {
  qq_project : ProjectRef;
  qq_status : option MemoryStatus;
  qq_kind : option MemoryKind;
  qq_sensitivity : option MemorySensitivity;
  qq_tag : option str;
  qq_max_score : nat;
  qq_limit : option nat;
}.
Definition MemoryQuery_new (project : ProjectRef) : MemoryQuery :=
  {| mq_project := project; mq_kind := None; mq_sensitivity := None;
     mq_visibility := None; mq_tag := None; mq_text := None; mq_limit := None |}.
Definition mq_with_kind (kind : MemoryKind) (q : MemoryQuery) : MemoryQuery :=
  {| mq_project := mq_project q; mq_kind := Some kind; mq_sensitivity := mq_sensitivity q;
     mq_visibility := mq_visibility q; mq_tag := mq_tag q; mq_text := mq_text q;
     mq_limit := mq_limit q |}.
Definition mq_with_sensitivity (sensitivity : MemorySensitivity) (q : MemoryQuery) : MemoryQuery :=
  {| mq_project := mq_project q; mq_kind := mq_kind q; mq_sensitivity := Some sensitivity;
     mq_visibility := mq_visibility q; mq_tag := mq_tag q; mq_text := mq_text q;
     mq_limit := mq_limit q |}.
Definition mq_with_visibility (visibility : MemoryVisibility) (q : MemoryQuery) : MemoryQuery :=
  {| mq_project := mq_project q; mq_kind := mq_kind q; mq_sensitivity := mq_sensitivity q;
     mq_visibility := Some visibility; mq_tag := mq_tag q; mq_text := mq_text q;
     mq_limit := mq_limit q |}.
Definition mq_with_tag (tag : str) (q : MemoryQuery) : MemoryQuery :=
  {| mq_project := mq_project q; mq_kind := mq_kind q; mq_sensitivity := mq_sensitivity q;
     mq_visibility := mq_visibility q; mq_tag := non_empty_filter tag;
     mq_text := mq_text q; mq_limit := mq_limit q |}.
Definition mq_with_text (text : str) (q : MemoryQuery) : MemoryQuery :=
  {| mq_project := mq_project q; mq_kind := mq_kind q; mq_sensitivity := mq_sensitivity q;
     mq_visibility := mq_visibility q; mq_tag := mq_tag q;
     mq_text := non_empty_filter text; mq_limit := mq_limit q |}.
Definition mq_with_limit (limit : nat) (q : MemoryQuery) : MemoryQuery :=
  {| mq_project := mq_project q; mq_kind := mq_kind q; mq_sensitivity := mq_sensitivity q;
     mq_visibility := mq_visibility q; mq_tag := mq_tag q; mq_text := mq_text q;
     mq_limit := if limit =? 0 then None else Some limit |}.
Definition MemoryListFilter_new (project : ProjectRef) : MemoryListFilter :=
  {| lf_project := project; lf_status := None; lf_kind := None; lf_sensitivity := None;
     lf_visibility := None; lf_tag := None; lf_limit := None |}.
Definition lf_with_status (status : MemoryStatus) (q : MemoryListFilter) : MemoryListFilter :=
  {| lf_project := lf_project q; lf_status := Some status; lf_kind := lf_kind q;
     lf_sensitivity := lf_sensitivity q; lf_visibility := lf_visibility q;
     lf_tag := lf_tag q; lf_limit := lf_limit q |}.
Definition lf_with_kind (kind : MemoryKind) (q : MemoryListFilter) : MemoryListFilter :=
  {| lf_project := lf_project q; lf_status := lf_status q; lf_kind := Some kind;
     lf_sensitivity := lf_sensitivity q; lf_visibility := lf_visibility q;
     lf_tag := lf_tag q; lf_limit := lf_limit q |}.
Definition lf_with_sensitivity (sensitivity : MemorySensitivity) (q : MemoryListFilter) : MemoryListFilter :=
  {| lf_project := lf_project q; lf_status := lf_status q; lf_kind := lf_kind q;
     lf_sensitivity := Some sensitivity; lf_visibility := lf_visibility q;
     lf_tag := lf_tag q; lf_limit := lf_limit q |}.
Definition lf_with_visibility (visibility : MemoryVisibility) (q : MemoryListFilter) : MemoryListFilter :=
  {| lf_project := lf_project q; lf_status := lf_status q; lf_kind := lf_kind q;
     lf_sensitivity := lf_sensitivity q; lf_visibility := Some visibility;
     lf_tag := lf_tag q; lf_limit := lf_limit q |}.
Definition lf_with_tag (tag : str) (q : MemoryListFilter) : MemoryListFilter :=
  {| lf_project := lf_project q; lf_status := lf_status q; lf_kind := lf_kind q;
     lf_sensitivity := lf_sensitivity q; lf_visibility := lf_visibility q;
     lf_tag := non_empty_filter tag; lf_limit := lf_limit q |}.
Definition lf_with_limit (limit : nat) (q : MemoryListFilter) : MemoryListFilter :=
  {| lf_project := lf_project q; lf_status := lf_status q; lf_kind := lf_kind q;
     lf_sensitivity := lf_sensitivity q; lf_visibility := lf_visibility q;
     lf_tag := lf_tag q; lf_limit := if limit =? 0 then None else Some limit |}.
Definition MemoryRetrievalQuery_new (project : ProjectRef) (query : str) : MemoryRetrievalQuery :=
  {| rq_project := project; rq_query := query; rq_kind := None; rq_sensitivity := None;
     rq_visibility := None; rq_tag := None; rq_min_score := 1; rq_limit := None |}.
Definition rq_with_kind (kind : MemoryKind) (q : MemoryRetrievalQuery) : MemoryRetrievalQuery :=
  {| rq_project := rq_project q; rq_query := rq_query q; rq_kind := Some kind;
     rq_sensitivity := rq_sensitivity q; rq_visibility := rq_visibility q;
     rq_tag := rq_tag q; rq_min_score := rq_min_score q; rq_limit := rq_limit q |}.
Definition rq_with_sensitivity (sensitivity : MemorySensitivity) (q : MemoryRetrievalQuery) : MemoryRetrievalQuery :=
  {| rq_project := rq_project q; rq_query := rq_query q; rq_kind := rq_kind q;
     rq_sensitivity := Some sensitivity; rq_visibility := rq_visibility q;
     rq_tag := rq_tag q; rq_min_score := rq_min_score q; rq_limit := rq_limit q |}.
Definition rq_with_visibility (visibility : MemoryVisibility) (q : MemoryRetrievalQuery) : MemoryRetrievalQuery :=
  {| rq_project := rq_project q; rq_query := rq_query q; rq_kind := rq_kind q;
     rq_sensitivity := rq_sensitivity q; rq_visibility := Some visibility;
     rq_tag := rq_tag q; rq_min_score := rq_min_score q; rq_limit := rq_limit q |}.
Definition rq_with_tag (tag : str) (q : MemoryRetrievalQuery) : MemoryRetrievalQuery :=
  {| rq_project := rq_project q; rq_query := rq_query q; rq_kind := rq_kind q;
     rq_sensitivity := rq_sensitivity q; rq_visibility := rq_visibility q;
     rq_tag := non_empty_filter tag; rq_min_score := rq_min_score q;
     rq_limit := rq_limit q |}.
Definition rq_with_min_score (min_score : nat) (q : MemoryRetrievalQuery) : MemoryRetrievalQuery :=
  {| rq_project := rq_project q; rq_query := rq_query q; rq_kind := rq_kind q;
     rq_sensitivity := rq_sensitivity q; rq_visibility := rq_visibility q;
     rq_tag := rq_tag q; rq_min_score := min_score; rq_limit := rq_limit q |}.
Definition rq_with_limit (limit : nat) (q : MemoryRetrievalQuery) : MemoryRetrievalQuery :=
  {| rq_project := rq_project q; rq_query := rq_query q; rq_kind := rq_kind q;
     rq_sensitivity := rq_sensitivity q; rq_visibility := rq_visibility q;
     rq_tag := rq_tag q; rq_min_score := rq_min_score q;
     rq_limit := if limit =? 0 then None else Some limit |}.
Definition MemorySimilarityQuery_new (project : ProjectRef) (kind : MemoryKind) (content : str) : MemorySimilarityQuery :=
  {| sq_project := project; sq_kind := kind; sq_content := content; sq_min_score := 70;
     sq_limit := None |}.
Definition sq_with_min_score (min_score : nat) (q : MemorySimilarityQuery) : MemorySimilarityQuery :=
  {| sq_project := sq_project q; sq_kind := sq_kind q; sq_content := sq_content q;
     sq_min_score := min_score; sq_limit := sq_limit q |}.
Definition sq_with_limit (limit : nat) (q : MemorySimilarityQuery) : MemorySimilarityQuery :=
  {| sq_project := sq_project q; sq_kind := sq_kind q; sq_content := sq_content q;
     sq_min_score := sq_min_score q; sq_limit := if limit =? 0 then None else Some limit |}.
Definition MemoryStalenessQuery_new (project : ProjectRef) : MemoryStalenessQuery :=
  {| tq_project := project; tq_kind := None; tq_min_score := 70; tq_limit := None |}.
Definition tq_with_kind (kind : MemoryKind) (q : MemoryStalenessQuery) : MemoryStalenessQuery :=
  {| tq_project := tq_project q; tq_kind := Some kind; tq_min_score := tq_min_score q;
     tq_limit := tq_limit q |}.
Definition tq_with_min_score (min_score : nat) (q : MemoryStalenessQuery) : MemoryStalenessQuery :=
  {| tq_project := tq_project q; tq_kind := tq_kind q; tq_min_score := min_score;
     tq_limit := tq_limit q |}.
Definition tq_with_limit (limit : nat) (q : MemoryStalenessQuery) : MemoryStalenessQuery :=
  {| tq_project := tq_project q; tq_kind := tq_kind q; tq_min_score := tq_min_score q;
     tq_limit := if limit =? 0 then None else Some limit |}.
Definition MemoryQualityQuery_new (project : ProjectRef) : MemoryQualityQuery :=
  {| qq_project := project; qq_status := None; qq_kind := None; qq_sensitivity := None;
     qq_tag := None; qq_max_score := 80; qq_limit := None |}.
Definition qq_with_status (status : MemoryStatus) (q : MemoryQualityQuery) : MemoryQualityQuery :=
  {| qq_project := qq_project q; qq_status := Some status; qq_kind := qq_kind q;
     qq_sensitivity := qq_sensitivity q; qq_tag := qq_tag q;
     qq_max_score := qq_max_score q; qq_limit := qq_limit q |}.
Definition qq_with_kind (kind : MemoryKind) (q : MemoryQualityQuery) : MemoryQualityQuery :=
  {| qq_project := qq_project q; qq_status := qq_status q; qq_kind := Some kind;
     qq_sensitivity := qq_sensitivity q; qq_tag := qq_tag q;
     qq_max_score := qq_max_score q; qq_limit := qq_limit q |}.
Definition qq_with_sensitivity (sensitivity : MemorySensitivity) (q : MemoryQualityQuery) : MemoryQualityQuery :=
  {| qq_project := qq_project q; qq_status := qq_status q; qq_kind := qq_kind q;
     qq_sensitivity := Some sensitivity; qq_tag := qq_tag q;
     qq_max_score := qq_max_score q; qq_limit := qq_limit q |}.
Definition qq_with_tag (tag : str) (q : MemoryQualityQuery) : MemoryQualityQuery :=
  {| qq_project := qq_project q; qq_status := qq_status q; qq_kind := qq_kind q;
     qq_sensitivity := qq_sensitivity q; qq_tag := non_empty_filter tag;
     qq_max_score := qq_max_score q; qq_limit := qq_limit q |}.
Definition qq_with_max_score (max_score : nat) (q : MemoryQualityQuery) : MemoryQualityQuery :=
  {| qq_project := qq_project q; qq_status := qq_status q; qq_kind := qq_kind q;
     qq_sensitivity := qq_sensitivity q; qq_tag := qq_tag q; qq_max_score := max_score;
     qq_limit := qq_limit q |}.
Definition qq_with_limit (limit : nat) (q : MemoryQualityQuery) : MemoryQualityQuery :=
  {| qq_project := qq_project q; qq_status := qq_status q; qq_kind := qq_kind q;
     qq_sensitivity := qq_sensitivity q; qq_tag := qq_tag q;
     qq_max_score := qq_max_score q; qq_limit := if limit =? 0 then None else Some limit |}.

(** ** Lemmas *)

Lemma non_empty_filter_Some v w :
  non_empty_filter v = Some w ↔ w = trim v ∧ trim v ≠ [].
Proof. unfold non_empty_filter. destruct (trim v); naive_solver. Qed.

Lemma into_entry_eq i :
  into_entry i =
  {| entry_id := in_id i; entry_project := in_project i; entry_kind := in_kind i;
     entry_status := Candidate; entry_sensitivity := in_sensitivity i;
     entry_visibility := in_visibility i; entry_content := in_content i;
     entry_tags := in_tags i; entry_source := Some (in_source i);
     entry_evidence := in_evidence i |}.
Proof. unfold into_entry. by rewrite with_evidences_eq, with_tags_eq. Qed.
