(* ===== verification/MemoryStore.v ===== *)
(** * The storage-backed memory repository ([codel00p-memory/src/store.rs])

    Every method of [impl MemoryRepository for StorageBackedMemoryStore<S>] and
    its helpers, over any storage backend [S] and any ranking provider
    ([repository.rs], [ranking.rs]). *)

From stdpp Require Import base numbers strings gmap list.
From S2P Require Import Prelude RustStr Storage Protocol TextSim MemoryTypes.

Record RankingDocument := { rd_id : str; rd_content : str }.
Definition RankingDocument_new (id content : str) : RankingDocument :=
  {| rd_id := id; rd_content := content |}.

Definition MEMORY_COLLECTION : str := lit "memory_entries".
Definition MEMORY_AUDIT_STREAM_PREFIX : str := lit "memory".
Definition memory_audit_stream (id : str) : str := MEMORY_AUDIT_STREAM_PREFIX ++ lit "/" ++ id.

(** ** Pure helpers *)

Definition is_active_memory_status (status : MemoryStatus) : bool :=
  match status with Candidate | Approved => true | _ => false end.

Definition transition_allowed (from to : MemoryStatus) : bool :=
  match from, to with
  | Candidate, Approved | Candidate, Rejected | Approved, Archived => true
  | _, _ => false
  end.
Definition ensure_transition `{JsonLib} (from to : MemoryStatus) : result MemoryError unit :=
  if transition_allowed from to then Ok tt else Err (InvalidTransition from to).

Definition set_status (entry : MemoryEntry) (status : MemoryStatus) : MemoryEntry :=
  with_status status entry.

(** The common prefix of the rebuilding helpers: everything but tags and evidence. *)
Definition rebuild (entry : MemoryEntry) (content : str) : MemoryEntry :=
  let updated :=
    with_visibility (entry_visibility entry)
      (with_sensitivity (entry_sensitivity entry)
         (with_status (entry_status entry)
            (MemoryEntry_new (entry_id entry) (entry_project entry) (entry_kind entry)
               content))) in
  match entry_source entry with
  | Some source => with_source source updated
  | None => updated
  end.
Definition replace_content (entry : MemoryEntry) (content : str) : MemoryEntry :=
  with_evidences (entry_evidence entry) (with_tags (entry_tags entry) (rebuild entry content)).
Definition append_evidence (entry : MemoryEntry) (evidence : MemoryEvidence) : MemoryEntry :=
  with_evidence evidence
    (with_evidences (entry_evidence entry)
       (with_tags (entry_tags entry) (rebuild entry (entry_content entry)))).
Definition union_tag_list (tags extra_tags : list str) : list str :=
  foldl (λ tags tag, if bool_decide (tag ∈ tags) then tags else tags ++ [tag]) tags extra_tags.
Definition union_tags (target : MemoryEntry) (extra_tags : list str) : MemoryEntry :=
  with_tags (union_tag_list (entry_tags target) extra_tags)
    (with_evidences (entry_evidence target) (rebuild target (entry_content target))).

Definition memory_kind_label (kind : MemoryKind) : str :=
  match kind with
  | Architecture => lit "architecture" | Convention => lit "convention"
  | Workflow => lit "workflow" | Decision' => lit "decision"
  | Deployment => lit "deployment" | Troubleshooting => lit "troubleshooting"
  end.
Definition memory_sensitivity_label (s : MemorySensitivity) : str :=
  match s with Normal => lit "normal" | Sensitive => lit "sensitive" end.
Definition memory_visibility_label (v : MemoryVisibility) : str :=
  match v with
  | Private => lit "private" | Project => lit "project" | Team => lit "team" | Org => lit "org"
  end.

(** ** Filters *)

Definition same_project (e : MemoryEntry) (p : ProjectRef) : bool :=
  bool_decide (project_ref_id (entry_project e) = project_ref_id p).
Definition opt_is {A} `{EqDecision A} (want : option A) (have : A) : bool :=
  match want with Some w => bool_decide (have = w) | None => true end.
Definition visible_within (want : option MemoryVisibility) (e : MemoryEntry) : bool :=
  match want with Some v => negb (visibility_gt (entry_visibility e) v) | None => true end.
Definition has_tag (want : option str) (e : MemoryEntry) : bool :=
  match want with Some t => bool_decide (t ∈ entry_tags e) | None => true end.
(** An unset sensitivity excludes sensitive memory. *)
Definition sensitivity_ok (want : option MemorySensitivity) (e : MemoryEntry) : bool :=
  match want with
  | Some s => bool_decide (entry_sensitivity e = s)
  | None => negb (bool_decide (entry_sensitivity e = Sensitive))
  end.

Definition list_accepts (f : MemoryListFilter) (r : MemoryRecord) : bool :=
  let e := record_entry r in
  same_project e (lf_project f) && opt_is (lf_status f) (entry_status e)
  && opt_is (lf_kind f) (entry_kind e) && opt_is (lf_sensitivity f) (entry_sensitivity e)
  && visible_within (lf_visibility f) e && has_tag (lf_tag f) e.

Definition ranked_accepts (q : MemoryRetrievalQuery) (r : MemoryRecord) : bool :=
  let e := record_entry r in
  bool_decide (entry_status e = Approved) && same_project e (rq_project q)
  && sensitivity_ok (rq_sensitivity q) e && visible_within (rq_visibility q) e
  && opt_is (rq_kind q) (entry_kind e) && has_tag (rq_tag q) e.

Section retrieval.
Context `{Unicode}.

Definition retrieve_accepts (q : MemoryQuery) (r : MemoryRecord) : bool :=
  let e := record_entry r in
  bool_decide (entry_status e = Approved) && same_project e (mq_project q)
  && sensitivity_ok (mq_sensitivity q) e && visible_within (mq_visibility q) e
  && opt_is (mq_kind q) (entry_kind e) && has_tag (mq_tag q) e
  && match mq_text q with
     | Some text => contains (to_lowercase text) (to_lowercase (entry_content e))
     | None => true
     end.

Definition retrieve_reason (q : MemoryQuery) : str :=
  let reasons :=
    match mq_kind q with
    | Some kind => [lit "kind " ++ memory_kind_label kind] | None => [] end
    ++ match mq_tag q with Some tag => [lit "tag " ++ tag] | None => [] end
    ++ match mq_text q with Some text => [lit "text " ++ text] | None => [] end
    ++ match mq_sensitivity q with
       | Some s => [lit "sensitivity " ++ memory_sensitivity_label s] | None => [] end
    ++ match mq_visibility q with
       | Some v => [lit "visibility " ++ memory_visibility_label v] | None => [] end in
  if is_empty reasons then lit "matched approved project memory"
  else lit "matched " ++ join (lit " and ") reasons.

Definition similar_candidate (q : MemorySimilarityQuery) (r : MemoryRecord)
    : option SimilarMemory :=
  let e := record_entry r in
  if negb (is_active_memory_status (entry_status e)) then None
  else if negb (same_project e (sq_project q) && bool_decide (entry_kind e = sq_kind q))
  then None
  else
    let score := shingle_similarity (sq_content q) (entry_content e) in
    if score <? sq_min_score q then None
    else Some {| sim_record := r; sim_score := score |}.

Definition quality_candidate (q : MemoryQualityQuery) (r : MemoryRecord)
    : option QualityMemory :=
  let e := record_entry r in
  if is_active_memory_status (entry_status e) && same_project e (qq_project q)
     && opt_is (qq_status q) (entry_status e) && opt_is (qq_kind q) (entry_kind e)
     && opt_is (qq_sensitivity q) (entry_sensitivity e) && has_tag (qq_tag q) e
  then
    let quality := record_quality r in
    if qq_max_score q <? quality_score quality then None
    else Some {| qm_record := r; qm_quality := quality |}
  else None.
End retrieval.

Definition stale_id (m : StaleMemory) : str := record_id (stale_record m).
Definition newer_id (m : StaleMemory) : str := record_id (stale_newer_record m).
Definition score_desc {A} (f : A → nat) : A → A → comparison := cmp_rev (cmp_on f Nat.compare).
#[global] Typeclasses Opaque score_desc.

(** An indexed record: the record and the sequence of its creation event. *)
Record IndexedMemoryRecord := { ix_record : MemoryRecord; ix_sequence : N }.

Section staleness.
Context `{Unicode}.

Definition stale_candidate (q : MemoryStalenessQuery) (older newer : IndexedMemoryRecord)
    : option StaleMemory :=
  let oe := record_entry (ix_record older) in
  let ne := record_entry (ix_record newer) in
  if negb (is_active_memory_status (entry_status ne)) then None
  else if negb (same_project ne (entry_project oe) && bool_decide (entry_kind ne = entry_kind oe))
  then None
  else
    let score := shingle_similarity (entry_content oe) (entry_content ne) in
    if score <? tq_min_score q then None
    else Some {| stale_record := ix_record older; stale_newer_record := ix_record newer;
                 stale_score := score |}.

Definition replaces_best (candidate : StaleMemory) (best : option StaleMemory) : bool :=
  match best with
  | None => true
  | Some best =>
      (stale_score best <? stale_score candidate)
      || (stale_score candidate =? stale_score best)
         && bool_decide (str_cmp (newer_id candidate) (newer_id best) = Lt)
  end.

Definition best_newer (q : MemoryStalenessQuery) (records : list IndexedMemoryRecord)
    (older : IndexedMemoryRecord) : option StaleMemory :=
  foldl (λ best newer,
      match stale_candidate q older newer with
      | Some candidate => if replaces_best candidate best then Some candidate else best
      | None => best
      end)
    None
    (List.filter (λ newer, (ix_sequence older <? ix_sequence newer)%N) records).

Definition stale_of (q : MemoryStalenessQuery) (records : list IndexedMemoryRecord)
    (older : IndexedMemoryRecord) : option StaleMemory :=
  let oe := record_entry (ix_record older) in
  if negb (bool_decide (entry_status oe = Approved)) then None
  else if negb (same_project oe (tq_project q)) then None
  else if negb (opt_is (tq_kind q) (entry_kind oe)) then None
  else best_newer q records older.
End staleness.

(** ** The store *)

Section store.
Context `{Unicode} `{JsonLib} `{!Serde MemoryRecord} `{!Serde MemoryAuditEvent}.
Context {S : Type} `{!DocumentStore S} `{!AppendLogStore S}.

(** [dyn RankingProvider]: an injected trait object. *)
Definition RankingProvider : Type :=
  str → list RankingDocument → result MemoryError (list nat).

Record StorageBackedMemoryStore := {
  ms_scope : StorageScope;
  ms_storage : S;
  ms_ranker : RankingProvider;
}.
Definition with_ranker (ranker : RankingProvider) (s : StorageBackedMemoryStore)
    : StorageBackedMemoryStore :=
  {| ms_scope := ms_scope s; ms_storage := ms_storage s; ms_ranker := ranker |}.
Definition ms_with_storage (s : StorageBackedMemoryStore) (x : S) : StorageBackedMemoryStore :=
  {| ms_scope := ms_scope s; ms_storage := x; ms_ranker := ms_ranker s |}.

Abbreviation M := (st StorageBackedMemoryStore MemoryError).

(** A storage call behind [?]: the error is converted, the storage updated. *)
Definition on_storage {A} (m : StorageScope → st S StorageError A) : M A :=
  λ s, let '(r, x) := m (ms_scope s) (ms_storage s) in
       (map_err EStorage r, ms_with_storage s x).

Definition find_document (id : str) (s : StorageBackedMemoryStore)
    : result MemoryError (option StorageDocument) :=
  map_err EStorage (get_document (ms_scope s) MEMORY_COLLECTION id (ms_storage s)).

Definition put_record (record : MemoryRecord) : M unit :=
  let! payload := st_lift (map_err ESerialization (to_value record)) in
  do! on_storage (λ scope,
        put_document (StorageDocument_new scope MEMORY_COLLECTION (record_id record) payload)) in
  st_ret tt.

Definition append_audit (event : MemoryAuditEvent) : M unit :=
  let! payload := st_lift (map_err ESerialization (to_value event)) in
  do! on_storage (λ scope, append_log scope (memory_audit_stream (ev_memory_id event)) payload) in
  st_ret tt.

Definition append_index (event : MemoryAuditEvent) : M unit :=
  let! payload := st_lift (map_err ESerialization (to_value event)) in
  do! on_storage (λ scope, append_log scope MEMORY_AUDIT_STREAM_PREFIX payload) in
  st_ret tt.

Definition get (id : str) (s : StorageBackedMemoryStore) : result MemoryError MemoryRecord :=
  let? document := find_document id s in
  let? document := ok_or (MemoryNotFound id) document in
  map_err ESerialization (from_value (doc_payload document)).

Definition audit_log (id : str) (s : StorageBackedMemoryStore)
    : result MemoryError (list MemoryAuditEvent) :=
  let? entries := map_err EStorage
                    (replay_log (ms_scope s) (memory_audit_stream id) (ms_storage s)) in
  collect_result (from_log_entry <$> entries).

(** The loop of [indexed_records]: each created id is read back. *)
Fixpoint index_records (events : list AppendLogEntry) (s : StorageBackedMemoryStore)
    : result MemoryError (list IndexedMemoryRecord) :=
  match events with
  | [] => Ok []
  | entry :: events =>
      let? audit := from_log_entry entry in
      if bool_decide (ev_action audit = CandidateCreated) then
        let? record := get (ev_memory_id audit) s in
        let? rest := index_records events s in
        Ok ({| ix_record := record; ix_sequence := ev_sequence audit |} :: rest)
      else index_records events s
  end.
Definition indexed_records (s : StorageBackedMemoryStore)
    : result MemoryError (list IndexedMemoryRecord) :=
  let? entries := map_err EStorage
                    (replay_log (ms_scope s) MEMORY_AUDIT_STREAM_PREFIX (ms_storage s)) in
  index_records entries s.
Definition records (s : StorageBackedMemoryStore) : result MemoryError (list MemoryRecord) :=
  let? records := indexed_records s in
  Ok (ix_record <$> records).

Definition duplicates (entry : MemoryEntry) (r : MemoryRecord) : bool :=
  let existing := record_entry r in
  is_active_memory_status (entry_status existing)
  && same_project existing (entry_project entry)
  && bool_decide (entry_kind existing = entry_kind entry)
  && bool_decide (trim (entry_content existing) = trim (entry_content entry)).
Definition active_duplicate_id (entry : MemoryEntry) (s : StorageBackedMemoryStore)
    : result MemoryError (option str) :=
  let? records := records s in
  Ok (record_id <$> List.find (duplicates entry) records).

(** ** Mutating operations *)

Definition create_candidate (input : MemoryCandidateInput) : M MemoryRecord :=
  do! st_lift (candidate_validate input) in
  let! existing := st_read (find_document (in_id input)) in
  if bool_decide (is_Some existing) then st_err (MemoryAlreadyExists (in_id input))
  else
    let entry := into_entry input in
    let! duplicate := st_read (active_duplicate_id entry) in
    match duplicate with
    | Some existing_id => st_err (DuplicateMemory (entry_id entry) existing_id)
    | None =>
        let record := MemoryRecord_new entry in
        do! put_record record in
        do! append_audit (candidate_created (entry_id entry) (entry_content entry)) in
        do! append_index (candidate_created (entry_id entry) (entry_content entry)) in
        st_ret record
    end.

Definition review (id : str) (decision : ReviewDecision) : M MemoryRecord :=
  let! current := st_read (get id) in
  do! st_lift (ensure_transition (entry_status (record_entry current)) (next_status decision)) in
  let entry := set_status (record_entry current) (next_status decision) in
  let record := MemoryRecord_new entry in
  do! put_record record in
  do! append_audit (reviewed id decision) in
  st_ret record.

Definition edit (id : str) (edit : MemoryEdit) : M MemoryRecord :=
  do! st_lift (edit_validate edit) in
  let! current := st_read (get id) in
  let previous_content := entry_content (record_entry current) in
  let new_content := edit_content edit in
  let entry := replace_content (record_entry current) new_content in
  let record := MemoryRecord_new entry in
  do! put_record record in
  do! append_audit (edited id edit previous_content new_content) in
  st_ret record.

Definition add_evidence (id : str) (evidence : MemoryEvidence) (actor : str)
    (reason : option str) : M MemoryRecord :=
  let! current := st_read (get id) in
  if negb (is_active_memory_status (entry_status (record_entry current))) then
    st_err (InvalidEdit (lit "cannot add evidence to a memory that is not active"))
  else
    let reference := evidence_reference evidence in
    let entry := append_evidence (record_entry current) evidence in
    let record := MemoryRecord_new entry in
    do! put_record record in
    do! append_audit (evidence_added id actor reference reason) in
    st_ret record.

Definition merge (source_id target_id : str) (merge : MemoryMerge) : M MemoryRecord :=
  if bool_decide (source_id = target_id) then
    st_err (InvalidMerge (lit "cannot merge a memory into itself"))
  else
    let! source := st_read (get source_id) in
    let! target := st_read (get target_id) in
    let se := record_entry source in
    let te := record_entry target in
    if negb (same_project se (entry_project te)) then
      st_err (InvalidMerge (lit "memories belong to different projects"))
    else if negb (is_active_memory_status (entry_status se)) then
      st_err (InvalidMerge (lit "source memory is not active"))
    else if negb (is_active_memory_status (entry_status te)) then
      st_err (InvalidMerge (lit "target memory is not active"))
    else
      let target_record := MemoryRecord_new (union_tags te (entry_tags se)) in
      do! put_record target_record in
      do! put_record (MemoryRecord_new (set_status se Archived)) in
      do! append_audit (merged source_id merge target_id) in
      do! append_audit (merged_from target_id merge source_id) in
      st_ret target_record.

(** The candidate a split creates, inheriting project, kind, sensitivity,
    visibility, tags and provenance. *)
Definition split_input (source : MemoryEntry) (split : MemorySplit) : MemoryCandidateInput :=
  let new_source := default (MemorySource_turn (lit "system") (lit "split"))
                      (entry_source source) in
  let new_input :=
    in_with_visibility (entry_visibility source)
      (in_with_sensitivity (entry_sensitivity source)
         (MemoryCandidateInput_new (split_new_id split) (entry_project source)
            (entry_kind source) (split_new_content split) new_source)) in
  foldl (λ i tag, in_with_tag tag i) new_input (entry_tags source).

Definition split (source_id : str) (split : MemorySplit) : M MemoryRecord :=
  let! source := st_read (get source_id) in
  let se := record_entry source in
  if negb (is_active_memory_status (entry_status se)) then
    st_err (InvalidSplit (lit "source memory is not active"))
  else
    let! existing := st_read (find_document (split_new_id split)) in
    if bool_decide (is_Some existing) then st_err (MemoryAlreadyExists (split_new_id split))
    else
      let new_record := MemoryRecord_new (into_entry (split_input se split)) in
      let new_content := entry_content (record_entry new_record) in
      do! put_record new_record in
      do! append_audit (candidate_created (split_new_id split) new_content) in
      do! append_index (candidate_created (split_new_id split) new_content) in
      do! (match split_updated_source_content split with
           | Some updated_content =>
               let previous_content := entry_content se in
               let updated_source := MemoryRecord_new (replace_content se updated_content) in
               do! put_record updated_source in
               append_audit (edited source_id
                 (MemoryEdit_replace_content (split_actor split) updated_content)
                 previous_content updated_content)
           | None => st_ret tt
           end) in
      do! append_audit (split_source source_id split) in
      do! append_audit (split_from (split_new_id split) split source_id) in
      st_ret new_record.

(** ** Queries *)

(** The loop of [revisions]. *)
Fixpoint number_revisions (revision_number : N) (events : list MemoryAuditEvent)
    : list MemoryRevision :=
  match events with
  | [] => []
  | event :: events =>
      let content := match ev_action event with
                     | CandidateCreated | Edited => ev_new_content event
                     | _ => None
                     end in
      match content with
      | Some content =>
          let revision_number := u64_add revision_number 1 in
          {| rev_revision := revision_number; rev_sequence := ev_sequence event;
             rev_actor := ev_actor event; rev_action := ev_action event;
             rev_content := content; rev_reason := ev_reason event |}
          :: number_revisions revision_number events
      | None => number_revisions revision_number events
      end
  end.
Definition revisions (id : str) (s : StorageBackedMemoryStore)
    : result MemoryError (list MemoryRevision) :=
  let? _ := get id s in
  let? events := audit_log id s in
  Ok (number_revisions 0 events).

Definition list_memories (filter : MemoryListFilter) (s : StorageBackedMemoryStore)
    : result MemoryError (list MemoryRecord) :=
  let? all := records s in
  let found := List.filter (list_accepts filter) all in
  let found := sort_by (cmp_on record_id str_cmp) found in
  Ok (truncate_opt (lf_limit filter) found).

Definition retrieve (query : MemoryQuery) (s : StorageBackedMemoryStore)
    : result MemoryError (list RetrievedMemory) :=
  let? all := records s in
  let retrieved := (λ r, {| rt_record := r; rt_reason := retrieve_reason query |})
                     <$> List.filter (retrieve_accepts query) all in
  let retrieved := sort_by (cmp_on (λ m, record_id (rt_record m)) str_cmp) retrieved in
  Ok (truncate_opt (mq_limit query) retrieved).

Definition retrieve_ranked (query : MemoryRetrievalQuery) (s : StorageBackedMemoryStore)
    : result MemoryError (list RankedMemory) :=
  let? all := records s in
  let filtered := List.filter (ranked_accepts query) all in
  let documents := (λ r, RankingDocument_new (record_id r) (entry_content (record_entry r)))
                     <$> filtered in
  let? scores := ms_ranker s (rq_query query) documents in
  if negb (length scores =? length filtered) then
    Err (Ranking (lit "ranking provider returned " ++ show_N (N.of_nat (length scores))
           ++ lit " scores for " ++ show_N (N.of_nat (length filtered)) ++ lit " documents"))
  else
    let ranked := (λ '(r, score), {| rk_record := r; rk_score := score |})
                    <$> List.filter (λ '(_, score), rq_min_score query <=? score)
                          (zip filtered scores) in
    let ranked := sort_by (cmp_lex (score_desc rk_score)
                             (cmp_on (λ m, record_id (rk_record m)) str_cmp)) ranked in
    Ok (truncate_opt (rq_limit query) ranked).

Definition similar_active (query : MemorySimilarityQuery) (s : StorageBackedMemoryStore)
    : result MemoryError (list SimilarMemory) :=
  let? all := records s in
  let similar := omap (similar_candidate query) all in
  let similar := sort_by (cmp_lex (score_desc sim_score)
                            (cmp_on (λ m, record_id (sim_record m)) str_cmp)) similar in
  Ok (truncate_opt (sq_limit query) similar).

Definition stale_active (query : MemoryStalenessQuery) (s : StorageBackedMemoryStore)
    : result MemoryError (list StaleMemory) :=
  let? records := indexed_records s in
  let stale := omap (stale_of query records) records in
  let stale := sort_by (cmp_lex (score_desc stale_score)
                          (cmp_lex (cmp_on stale_id str_cmp) (cmp_on newer_id str_cmp))) stale in
  Ok (truncate_opt (tq_limit query) stale).

Definition quality_review (query : MemoryQualityQuery) (s : StorageBackedMemoryStore)
    : result MemoryError (list QualityMemory) :=
  let? all := records s in
  let low_quality := omap (quality_candidate query) all in
  let low_quality := sort_by (cmp_lex (cmp_on (λ m, quality_score (qm_quality m)) Nat.compare)
                                (cmp_on (λ m, record_id (qm_record m)) str_cmp)) low_quality in
  Ok (truncate_opt (qq_limit query) low_quality).
End store.
Arguments StorageBackedMemoryStore {_} S.
Arguments RankingProvider {_}.
