(* ===== verification/MemorySpec.v ===== *)
(** * The memory repository's abstract specification and its refinement

    The abstract repository is a finite map of entries, one audit trail per
    memory and the creation index, with no storage, serialization or scope.
    Over any backend that keeps the laws of [Storage] and any serialization that
    round-trips, the code of [MemoryStore] refines it: same results, errors
    included, and related states. *)

From stdpp Require Import base numbers strings gmap list.
From S2P Require Import Prelude RustStr Storage Protocol TextSim MemoryTypes MemoryStore.

(** ** The abstract repository *)

Record MemState := {
  ents : gmap str MemoryEntry;
  trail : gmap str (list MemoryAuditEvent);
  idx : list MemoryAuditEvent;
}.
Definition empty_state : MemState := {| ents := ∅; trail := ∅; idx := [] |}.

Definition trail_of (m : MemState) (id : str) : list MemoryAuditEvent := default [] (trail m !! id).
(** The event as it is replayed: numbered by its position. *)
Definition numbered (l : list MemoryAuditEvent) (ev : MemoryAuditEvent) : MemoryAuditEvent :=
  set_sequence (N.of_nat (length l) + 1) ev.

Definition put_ent (e : MemoryEntry) (m : MemState) : MemState :=
  {| ents := <[entry_id e := e]> (ents m); trail := trail m; idx := idx m |}.
Definition log_event (ev : MemoryAuditEvent) (m : MemState) : MemState :=
  let l := trail_of m (ev_memory_id ev) in
  {| ents := ents m; trail := <[ev_memory_id ev := l ++ [numbered l ev]]> (trail m);
     idx := idx m |}.
Definition index_event (ev : MemoryAuditEvent) (m : MemState) : MemState :=
  {| ents := ents m; trail := trail m; idx := idx m ++ [numbered (idx m) ev] |}.

Definition spec_indexed (m : MemState) : list IndexedMemoryRecord :=
  omap (λ ev, e ← ents m !! ev_memory_id ev;
              Some {| ix_record := MemoryRecord_new e; ix_sequence := ev_sequence ev |}) (idx m).
Definition spec_records (m : MemState) : list MemoryRecord := ix_record <$> spec_indexed m.

Inductive MemoryOp :=
| OpCreate (input : MemoryCandidateInput)
| OpReview (id : str) (decision : ReviewDecision)
| OpEdit (id : str) (edit : MemoryEdit)
| OpAddEvidence (id : str) (evidence : MemoryEvidence) (actor : str) (reason : option str)
| OpMerge (source_id target_id : str) (merge : MemoryMerge)
| OpSplit (source_id : str) (split : MemorySplit).

Section spec.
Context `{JsonLib}.

Definition spec_get (id : str) (m : MemState) : result MemoryError MemoryEntry :=
  ok_or (MemoryNotFound id) (ents m !! id).

Abbreviation outcome := (result MemoryError MemoryRecord * MemState)%type.
Definition succeed (e : MemoryEntry) (m : MemState) : outcome := (Ok (MemoryRecord_new e), m).
Definition refuse (e : MemoryError) (m : MemState) : outcome := (Err e, m).

(** A new entry with its creation event in the trail and in the index. *)
Definition add_candidate (e : MemoryEntry) (m : MemState) : MemState :=
  let ev := candidate_created (entry_id e) (entry_content e) in
  index_event ev (log_event ev (put_ent e m)).

Definition spec_create (i : MemoryCandidateInput) (m : MemState) : outcome :=
  match candidate_validate i with
  | Err e => refuse e m
  | Ok _ =>
      match ents m !! in_id i with
      | Some _ => refuse (MemoryAlreadyExists (in_id i)) m
      | None =>
          match List.find (duplicates (into_entry i)) (spec_records m) with
          | Some r => refuse (DuplicateMemory (in_id i) (record_id r)) m
          | None => succeed (into_entry i) (add_candidate (into_entry i) m)
          end
      end
  end.

Definition spec_review (id : str) (d : ReviewDecision) (m : MemState) : outcome :=
  match ents m !! id with
  | None => refuse (MemoryNotFound id) m
  | Some e =>
      if transition_allowed (entry_status e) (next_status d) then
        let e' := with_status (next_status d) e in
        succeed e' (log_event (reviewed id d) (put_ent e' m))
      else refuse (InvalidTransition (entry_status e) (next_status d)) m
  end.

Definition spec_edit (id : str) (ed : MemoryEdit) (m : MemState) : outcome :=
  match edit_validate ed, ents m !! id with
  | Err e, _ => refuse e m
  | Ok _, None => refuse (MemoryNotFound id) m
  | Ok _, Some e =>
      let e' := replace_content e (edit_content ed) in
      succeed e' (log_event (edited id ed (entry_content e) (edit_content ed)) (put_ent e' m))
  end.

Definition spec_add_evidence (id : str) (v : MemoryEvidence) (actor : str)
    (reason : option str) (m : MemState) : outcome :=
  match ents m !! id with
  | None => refuse (MemoryNotFound id) m
  | Some e =>
      if is_active_memory_status (entry_status e) then
        let e' := append_evidence e v in
        succeed e' (log_event (evidence_added id actor (evidence_reference v) reason)
                      (put_ent e' m))
      else refuse (InvalidEdit (lit "cannot add evidence to a memory that is not active")) m
  end.

Definition spec_merge (source_id target_id : str) (mg : MemoryMerge) (m : MemState) : outcome :=
  if bool_decide (source_id = target_id) then
    refuse (InvalidMerge (lit "cannot merge a memory into itself")) m
  else
    match ents m !! source_id, ents m !! target_id with
    | None, _ => refuse (MemoryNotFound source_id) m
    | Some _, None => refuse (MemoryNotFound target_id) m
    | Some se, Some te =>
        if negb (same_project se (entry_project te)) then
          refuse (InvalidMerge (lit "memories belong to different projects")) m
        else if negb (is_active_memory_status (entry_status se)) then
          refuse (InvalidMerge (lit "source memory is not active")) m
        else if negb (is_active_memory_status (entry_status te)) then
          refuse (InvalidMerge (lit "target memory is not active")) m
        else
          let te' := union_tags te (entry_tags se) in
          succeed te'
            (log_event (merged_from target_id mg source_id)
               (log_event (merged source_id mg target_id)
                  (put_ent (with_status Archived se) (put_ent te' m))))
    end.

Definition spec_split (source_id : str) (sp : MemorySplit) (m : MemState) : outcome :=
  match ents m !! source_id with
  | None => refuse (MemoryNotFound source_id) m
  | Some se =>
      if negb (is_active_memory_status (entry_status se)) then
        refuse (InvalidSplit (lit "source memory is not active")) m
      else
        match ents m !! split_new_id sp with
        | Some _ => refuse (MemoryAlreadyExists (split_new_id sp)) m
        | None =>
            let new := into_entry (split_input se sp) in
            let m1 := add_candidate new m in
            let m2 :=
              match split_updated_source_content sp with
              | Some c =>
                  log_event (edited source_id
                               (MemoryEdit_replace_content (split_actor sp) c)
                               (entry_content se) c)
                    (put_ent (replace_content se c) m1)
              | None => m1
              end in
            succeed new (log_event (split_from (split_new_id sp) sp source_id)
                           (log_event (split_source source_id sp) m2))
        end
  end.

Definition spec_step (o : MemoryOp) : st MemState MemoryError MemoryRecord :=
  match o with
  | OpCreate i => spec_create i
  | OpReview id d => spec_review id d
  | OpEdit id e => spec_edit id e
  | OpAddEvidence id v actor reason => spec_add_evidence id v actor reason
  | OpMerge a b mg => spec_merge a b mg
  | OpSplit a sp => spec_split a sp
  end.
End spec.

(** Running a sequence of operations: the results in order and the last state. *)
Fixpoint run_ops {S E A O} (step : O → st S E A) (ops : list O) (s : S)
    : list (result E A) * S :=
  match ops with
  | [] => ([], s)
  | o :: ops =>
      let '(r, s1) := step o s in
      let '(rs, s2) := run_ops step ops s1 in
      (r :: rs, s2)
  end.

(** ** The concrete operations *)

Section concrete.
Context `{Unicode} `{JsonLib} `{!Serde MemoryRecord} `{!Serde MemoryAuditEvent}.
Context {S : Type} `{!DocumentStore S} `{!AppendLogStore S}.

Definition store_step (o : MemoryOp)
    : st (StorageBackedMemoryStore S) MemoryError MemoryRecord :=
  match o with
  | OpCreate i => create_candidate i
  | OpReview id d => review id d
  | OpEdit id e => edit id e
  | OpAddEvidence id v actor reason => add_evidence id v actor reason
  | OpMerge a b mg => merge a b mg
  | OpSplit a sp => split a sp
  end.
End concrete.

(** ** Helpers on the rebuilt entries *)

Lemma replace_content_eq e c :
  replace_content e c =
  {| entry_id := entry_id e; entry_project := entry_project e; entry_kind := entry_kind e;
     entry_status := entry_status e; entry_sensitivity := entry_sensitivity e;
     entry_visibility := entry_visibility e; entry_content := c;
     entry_tags := entry_tags e; entry_source := entry_source e;
     entry_evidence := entry_evidence e |}.
Proof.
  unfold replace_content, rebuild. rewrite with_evidences_eq, with_tags_eq.
  by destruct (entry_source e).
Qed.

Lemma append_evidence_eq e v : append_evidence e v = with_evidence v e.
Proof.
  unfold append_evidence, rebuild. rewrite with_evidences_eq, with_tags_eq.
  destruct e as [? ? ? ? ? ? ? ? [s|] ?]; done.
Qed.

Lemma union_tags_eq e extra :
  union_tags e extra =
  {| entry_id := entry_id e; entry_project := entry_project e; entry_kind := entry_kind e;
     entry_status := entry_status e; entry_sensitivity := entry_sensitivity e;
     entry_visibility := entry_visibility e; entry_content := entry_content e;
     entry_tags := union_tag_list (entry_tags e) extra; entry_source := entry_source e;
     entry_evidence := entry_evidence e |}.
Proof.
  unfold union_tags, rebuild. rewrite with_tags_eq, with_evidences_eq.
  by destruct (entry_source e).
Qed.

Lemma split_input_facts se sp :
  in_id (split_input se sp) = split_new_id sp ∧
  in_project (split_input se sp) = entry_project se ∧
  in_kind (split_input se sp) = entry_kind se ∧
  in_sensitivity (split_input se sp) = entry_sensitivity se ∧
  in_visibility (split_input se sp) = entry_visibility se ∧
  in_content (split_input se sp) = split_new_content sp ∧
  in_tags (split_input se sp) = omap non_empty_filter (entry_tags se).
Proof.
  unfold split_input. set (i0 := in_with_visibility _ _).
  assert (Hf : ∀ tags i,
    let j := foldl (λ i tag, in_with_tag tag i) i tags in
    in_id j = in_id i ∧ in_project j = in_project i ∧ in_kind j = in_kind i ∧
    in_sensitivity j = in_sensitivity i ∧ in_visibility j = in_visibility i ∧
    in_content j = in_content i ∧ in_tags j = in_tags i ++ omap non_empty_filter tags).
  { induction tags as [|t tags IH]; intros i; simpl; [by rewrite app_nil_r|].
    destruct (IH (in_with_tag t i)) as (->&->&->&->&->&->&->).
    unfold in_with_tag. destruct (non_empty_filter t); simpl; [|done].
    by rewrite <- app_assoc. }
  destruct (Hf (entry_tags se) i0) as (->&->&->&->&->&->&->). done.
Qed.

Lemma entry_id_replace_content e c : entry_id (replace_content e c) = entry_id e.
Proof. by rewrite replace_content_eq. Qed.
Lemma entry_id_append_evidence e v : entry_id (append_evidence e v) = entry_id e.
Proof. by rewrite append_evidence_eq. Qed.
Lemma entry_id_union_tags e l : entry_id (union_tags e l) = entry_id e.
Proof. by rewrite union_tags_eq. Qed.
Lemma entry_id_into_entry i : entry_id (into_entry i) = in_id i.
Proof. by rewrite into_entry_eq. Qed.
Lemma entry_content_into_entry i : entry_content (into_entry i) = in_content i.
Proof. by rewrite into_entry_eq. Qed.
Lemma in_id_split_input se sp : in_id (split_input se sp) = split_new_id sp.
Proof. apply split_input_facts. Qed.
Lemma in_content_split_input se sp : in_content (split_input se sp) = split_new_content sp.
Proof. apply split_input_facts. Qed.

#[export] Hint Rewrite entry_id_replace_content entry_id_append_evidence entry_id_union_tags
  entry_id_into_entry entry_content_into_entry in_id_split_input in_content_split_input : rust_rw.
