(* ===== verification/MemoryRefine.v ===== *)
(** * Refinement: the storage-backed repository implements the abstract one

    A forward simulation.  [repr] relates a store to an abstract state: each
    stored document decodes to its entry, each audit stream replays to its
    trail, and the index stream to the creation index. *)

From stdpp Require Import base numbers strings gmap list.
From S2P Require Import Prelude RustStr Storage Protocol TextSim MemoryTypes MemoryStore MemorySpec.

Lemma memory_audit_stream_inj a b : memory_audit_stream a = memory_audit_stream b → a = b.
Proof. unfold memory_audit_stream. intros ?%app_inv_head. by simplify_list_eq. Qed.

Lemma memory_audit_stream_index id : memory_audit_stream id ≠ MEMORY_AUDIT_STREAM_PREFIX.
Proof.
  unfold memory_audit_stream. intros Heq%(f_equal length). rewrite !length_app in Heq.
  simpl in Heq. lia.
Qed.

Section refine.
Context `{Unicode} `{JsonLib} `{!Serde MemoryRecord} `{!Serde MemoryAuditEvent}.
Context `{!SerdeLaws MemoryRecord} `{!SerdeLaws MemoryAuditEvent}.
Context {S : Type} `{!DocumentStore S} `{!AppendLogStore S} `{!StorageView S}.
Context `{!DocumentLaws S} `{!LogLaws S}.
Context (scope : StorageScope) (ranker : RankingProvider).

Abbreviation Store := (StorageBackedMemoryStore S).

Definition log_at (s : Store) (stream : str) : list AppendLogEntry :=
  default [] (logs (ms_storage s) !! LogKey_new (ms_scope s) stream).
Definition doc_at (s : Store) (id : str) : option StorageDocument :=
  docs (ms_storage s) !! DocumentKey_new (ms_scope s) MEMORY_COLLECTION id.

(** A stored document holds entry [e] under its own id. *)
Definition holds (id : str) (d : StorageDocument) (e : MemoryEntry) : Prop :=
  entry_id e = id ∧ from_value (doc_payload d) = Ok (MemoryRecord_new e).

Record repr (s : Store) (m : MemState) : Prop := {
  repr_scope : ms_scope s = scope;
  repr_ranker : ms_ranker s = ranker;
  repr_doc : ∀ id, option_Forall2 (holds id) (doc_at s id) (ents m !! id);
  repr_trail : ∀ id,
    from_log_entry <$> log_at s (memory_audit_stream id) = Ok <$> trail_of m id;
  repr_index : from_log_entry <$> log_at s MEMORY_AUDIT_STREAM_PREFIX = Ok <$> idx m;
  repr_created : Forall (λ ev, ev_action ev = CandidateCreated ∧
                               is_Some (ents m !! ev_memory_id ev)) (idx m);
}.

(** An operation started in [s0]: results agree, states stay related, and a
    refusal leaves the store as it was. *)
Definition refines {A} (s0 : Store) (p : result MemoryError A * Store)
    (q : result MemoryError A * MemState) : Prop :=
  p.1 = q.1 ∧ repr p.2 q.2 ∧ (∀ e, q.1 = Err e → p.2 = s0).

(** ** Reads *)

Lemma find_document_repr s m id :
  repr s m → find_document id s = Ok (doc_at s id).
Proof. intros Hr. unfold find_document. by rewrite get_document_law. Qed.

Lemma doc_at_repr s m id : repr s m → is_Some (doc_at s id) ↔ is_Some (ents m !! id).
Proof.
  intros Hr. destruct (repr_doc _ _ Hr id); [|done]. split; eauto.
Qed.

Lemma get_repr s m id :
  repr s m → get id s = ok_or (MemoryNotFound id) (MemoryRecord_new <$> ents m !! id).
Proof.
  intros Hr. unfold get. rewrite (find_document_repr s m) by done. simpl.
  destruct (repr_doc _ _ Hr id) as [d e [He Hd]|]; simpl; [by rewrite Hd|done].
Qed.

Lemma audit_log_repr s m id : repr s m → audit_log id s = Ok (trail_of m id).
Proof.
  intros Hr. unfold audit_log. rewrite replay_log_law. simpl. apply collect_result_Ok.
  apply (repr_trail _ _ Hr).
Qed.

Lemma index_records_repr s m events l :
  repr s m → from_log_entry <$> events = Ok <$> l →
  Forall (λ ev, ev_action ev = CandidateCreated ∧ is_Some (ents m !! ev_memory_id ev)) l →
  index_records events s =
    Ok (omap (λ ev, e ← ents m !! ev_memory_id ev;
                    Some {| ix_record := MemoryRecord_new e; ix_sequence := ev_sequence ev |}) l).
Proof.
  intros Hr. revert l. induction events as [|x events IH]; intros [|ev l] Hl Hc; try done.
  simpl in Hl. injection Hl as Hx Hl. apply Forall_cons in Hc as [[Ha [e He]] Hc]. simpl.
  rewrite Hx. simpl. rewrite bool_decide_eq_true_2 by done.
  rewrite (get_repr s m) by done. rewrite He. simpl. by rewrite (IH l Hl Hc).
Qed.

Lemma indexed_records_repr s m : repr s m → indexed_records s = Ok (spec_indexed m).
Proof.
  intros Hr. unfold indexed_records. rewrite replay_log_law. simpl.
  apply index_records_repr; [done|apply (repr_index _ _ Hr)|apply (repr_created _ _ Hr)].
Qed.

Lemma records_repr s m : repr s m → records s = Ok (spec_records m).
Proof. intros Hr. unfold records. by rewrite (indexed_records_repr s m). Qed.

Lemma active_duplicate_repr s m e :
  repr s m →
  active_duplicate_id e s = Ok (record_id <$> List.find (duplicates e) (spec_records m)).
Proof. intros Hr. unfold active_duplicate_id. by rewrite (records_repr s m). Qed.

(** ** Writes *)

Lemma repr_put s m s' d e :
  repr s m → ms_scope s' = ms_scope s → ms_ranker s' = ms_ranker s →
  docs (ms_storage s') =
    <[DocumentKey_new (ms_scope s) MEMORY_COLLECTION (entry_id e) := d]> (docs (ms_storage s)) →
  logs (ms_storage s') = logs (ms_storage s) →
  from_value (doc_payload d) = Ok (MemoryRecord_new e) →
  repr s' (put_ent e m).
Proof.
  intros [Hsc Hrk Hdoc Htr Hix Hcr] Hs1 Hs2 Hd Hl Hdec.
  split; try congruence; unfold doc_at, log_at in *; rewrite ?Hs1, ?Hl.
  - intros id. rewrite Hd. simpl. rewrite !lookup_insert.
    destruct (decide (entry_id e = id)) as [<-|Hne].
    + rewrite decide_True by done. by constructor.
    + rewrite decide_False; [apply Hdoc|]. by intros [= ].
  - apply Htr.
  - apply Hix.
  - eapply Forall_impl; [exact Hcr|]. simpl. intros ev [Ha Hs]. split; [done|].
    rewrite lookup_insert. by case_decide.
Qed.

Lemma put_record_repr s m r :
  repr s m → ∃ s', put_record r s = (Ok tt, s') ∧ repr s' (put_ent (record_entry r) m).
Proof.
  intros Hr. destruct (serde_round_trip r) as (v & Hv & Hb).
  unfold put_record, st_bind, st_lift, on_storage. rewrite Hv. simpl.
  destruct (put_document_law
    (StorageDocument_new (ms_scope s) MEMORY_COLLECTION (record_id r) v) (ms_storage s))
    as (x & Hx & Hd & _ & Hl). rewrite Hx. simpl. eexists. split; [done|].
  eapply repr_put; [exact Hr|done..|exact Hd|done|]. simpl. by destruct r.
Qed.

(** One append: the log grows by the event as it will be replayed. *)
Lemma append_stream s stream (ev : MemoryAuditEvent) v l :
  to_value ev = Ok v → from_value v = Ok ev →
  from_log_entry <$> log_at s stream = Ok <$> l →
  ∃ x, append_log (ms_scope s) stream v (ms_storage s) =
         (Ok (next_entry (log_at s stream) (ms_scope s) stream v), x) ∧
    docs x = docs (ms_storage s) ∧
    (∀ k, k ≠ stream → log_at (ms_with_storage s x) k = log_at s k) ∧
    from_log_entry <$> log_at (ms_with_storage s x) stream = Ok <$> (l ++ [numbered l ev]).
Proof.
  intros Hv Hb Hl. destruct (append_log_law (ms_scope s) stream v (ms_storage s))
    as (x & Hx & Hlog & Hd & _). exists x. split; [exact Hx|]. split; [done|].
  unfold log_at in *; simpl; rewrite Hlog; split.
  - intros k Hk. rewrite lookup_insert_ne; [done|]. by intros [= ].
  - rewrite lookup_insert_eq. simpl. rewrite !fmap_app, Hl. simpl. do 2 f_equal.
    unfold from_log_entry. simpl. rewrite Hb. simpl. unfold numbered.
    apply (f_equal length) in Hl. rewrite !length_fmap in Hl. by rewrite Hl.
Qed.

Lemma append_audit_repr s m ev :
  repr s m → ∃ s', append_audit ev s = (Ok tt, s') ∧ repr s' (log_event ev m).
Proof.
  intros Hr. destruct (serde_round_trip ev) as (v & Hv & Hb).
  unfold append_audit, st_bind, st_lift, on_storage. rewrite Hv. simpl.
  destruct (append_stream s (memory_audit_stream (ev_memory_id ev)) ev v
    (trail_of m (ev_memory_id ev))) as (x & Hx & Hd & Hne & Heq);
    [done|done|apply (repr_trail _ _ Hr)|].
  rewrite Hx. simpl. eexists. split; [done|]. destruct Hr as [Hsc Hrk Hdoc Htr Hix Hcr].
  split; simpl; try done.
  - intros id. unfold doc_at. simpl. rewrite Hd. apply Hdoc.
  - intros id. unfold trail_of at 1. simpl. rewrite lookup_insert.
    destruct (decide (ev_memory_id ev = id)) as [<-|Hid]; [exact Heq|].
    rewrite Hne; [apply Htr|]. intros ?%memory_audit_stream_inj. congruence.
  - rewrite Hne; [done|]. intros Hs. by apply (memory_audit_stream_index (ev_memory_id ev)).
Qed.

Lemma append_index_repr s m ev :
  repr s m → ev_action ev = CandidateCreated → is_Some (ents m !! ev_memory_id ev) →
  ∃ s', append_index ev s = (Ok tt, s') ∧ repr s' (index_event ev m).
Proof.
  intros Hr Ha Hin. destruct (serde_round_trip ev) as (v & Hv & Hb).
  unfold append_index, st_bind, st_lift, on_storage. rewrite Hv. simpl.
  destruct (append_stream s MEMORY_AUDIT_STREAM_PREFIX ev v (idx m)) as (x & Hx & Hd & Hne & Heq);
    [done|done|apply (repr_index _ _ Hr)|].
  rewrite Hx. simpl. eexists. split; [done|]. destruct Hr as [Hsc Hrk Hdoc Htr Hix Hcr].
  split; simpl; try done.
  - intros id. unfold doc_at. simpl. rewrite Hd. apply Hdoc.
  - intros id. rewrite Hne; [apply Htr|]. apply memory_audit_stream_index.
  - apply Forall_app. split; [done|]. by repeat constructor.
Qed.

(** ** Composition *)

Lemma refines_bind {A B} (m1 : st Store MemoryError A) (f : A → st Store MemoryError B) s0 s
    a s' q :
  m1 s = (Ok a, s') → refines s0 (f a s') q → refines s0 (st_bind m1 f s) q.
Proof. unfold st_bind. by intros ->. Qed.

Lemma refines_err {A B} (m1 : st Store MemoryError A) (f : A → st Store MemoryError B) s0 e m :
  m1 s0 = (Err e, s0) → repr s0 m → refines s0 (st_bind m1 f s0) (Err e, m).
Proof. unfold st_bind. by intros ->. Qed.

Lemma refines_put {B} r (f : unit → st Store MemoryError B) s0 s m q :
  repr s m → (∀ s', repr s' (put_ent (record_entry r) m) → refines s0 (f tt s') q) →
  refines s0 (st_bind (put_record r) f s) q.
Proof.
  intros Hr Hf. destruct (put_record_repr s m r Hr) as (s' & Hs & Hr').
  eapply refines_bind; eauto.
Qed.
Lemma refines_audit {B} ev (f : unit → st Store MemoryError B) s0 s m q :
  repr s m → (∀ s', repr s' (log_event ev m) → refines s0 (f tt s') q) →
  refines s0 (st_bind (append_audit ev) f s) q.
Proof.
  intros Hr Hf. destruct (append_audit_repr s m ev Hr) as (s' & Hs & Hr').
  eapply refines_bind; eauto.
Qed.
Lemma refines_index {B} ev (f : unit → st Store MemoryError B) s0 s m q :
  repr s m → ev_action ev = CandidateCreated → is_Some (ents m !! ev_memory_id ev) →
  (∀ s', repr s' (index_event ev m) → refines s0 (f tt s') q) →
  refines s0 (st_bind (append_index ev) f s) q.
Proof.
  intros Hr Ha Hi Hf. destruct (append_index_repr s m ev Hr Ha Hi) as (s' & Hs & Hr').
  eapply refines_bind; eauto.
Qed.
(** Reading a record: found, or the refusal. *)
Lemma refines_get {B} id (f : MemoryRecord → st Store MemoryError B) s m q :
  repr s m →
  match ents m !! id with
  | Some e => refines s (f (MemoryRecord_new e) s) q
  | None => q = (Err (MemoryNotFound id), m)
  end → refines s (st_bind (st_read (get id)) f s) q.
Proof.
  intros Hr Hq. unfold st_bind, st_read. rewrite (get_repr s m) by done.
  destruct (ents m !! id); simpl in *; [done|]. by subst.
Qed.
Lemma refines_exists {B} id (f : option StorageDocument → st Store MemoryError B) s0 s m q :
  repr s m →
  (∀ o, bool_decide (is_Some o) = bool_decide (is_Some (ents m !! id)) → refines s0 (f o s) q) →
  refines s0 (st_bind (st_read (find_document id)) f s) q.
Proof.
  intros Hr Hq. unfold st_bind, st_read. rewrite (find_document_repr s m) by done. apply Hq.
  apply bool_decide_ext. by apply doc_at_repr.
Qed.
(** ** The operations *)

Ltac step_write :=
  first [ eapply refines_put; [eassumption|intros ? ?]
        | eapply refines_audit; [eassumption|intros ? ?]
        | eapply refines_index; [eassumption|done| |intros ? ?] ].

(** Adding a candidate: the document, its trail event and its index event. *)
Lemma refines_candidate {B} e (f : unit → st Store MemoryError B) s0 s m q :
  repr s m → (∀ s', repr s' (add_candidate e m) → refines s0 (f tt s') q) →
  refines s0
    (st_bind (put_record (MemoryRecord_new e)) (λ _,
       st_bind (append_audit (candidate_created (entry_id e) (entry_content e))) (λ _,
         st_bind (append_index (candidate_created (entry_id e) (entry_content e))) f)) s) q.
Proof.
  intros Hr Hf. do 3 step_write; [|by apply Hf].
  simpl. rewrite lookup_insert_eq. eauto.
Qed.

Lemma create_refines i s m : repr s m → refines s (create_candidate i s) (spec_create i m).
Proof.
  intros Hr. unfold create_candidate, spec_create.
  destruct (candidate_validate i) as [[]|e] eqn:Hv; [|by apply refines_err].
  eapply refines_bind; [done|]. eapply refines_exists; [done|]. intros o Ho. rewrite Ho.
  destruct (ents m !! in_id i) as [e|] eqn:He; [done|]. simpl.
  eapply refines_bind; [unfold st_read; by rewrite (active_duplicate_repr s m)|].
  destruct (List.find _ _) as [r|]; simpl; [by rewrite entry_id_into_entry|].
  apply refines_candidate with m; [done|]. by intros s' Hs'.
Qed.

Lemma review_refines id d s m : repr s m → refines s (review id d s) (spec_review id d m).
Proof.
  intros Hr. unfold review, spec_review. eapply refines_get; [done|].
  destruct (ents m !! id) as [e|] eqn:He; [|done]. simpl.
  unfold ensure_transition, set_status.
  destruct (transition_allowed _ _); [|by apply refines_err].
  eapply refines_bind; [done|]. by do 2 step_write.
Qed.

Lemma edit_refines id ed s m : repr s m → refines s (edit id ed s) (spec_edit id ed m).
Proof.
  intros Hr. unfold edit, spec_edit.
  destruct (edit_validate ed) as [[]|e]; [|by apply refines_err].
  eapply refines_bind; [done|]. eapply refines_get; [done|].
  destruct (ents m !! id) as [e|] eqn:He; [|done]. by do 2 step_write.
Qed.

Lemma add_evidence_refines id v actor reason s m :
  repr s m → refines s (add_evidence id v actor reason s) (spec_add_evidence id v actor reason m).
Proof.
  intros Hr. unfold add_evidence, spec_add_evidence. eapply refines_get; [done|].
  destruct (ents m !! id) as [e|] eqn:He; [|done]. simpl.
  destruct (is_active_memory_status _); [|done]. simpl. by do 2 step_write.
Qed.

Lemma merge_refines a b mg s m : repr s m → refines s (merge a b mg s) (spec_merge a b mg m).
Proof.
  intros Hr. unfold merge, spec_merge. case_bool_decide; [done|].
  eapply refines_get; [done|]. destruct (ents m !! a) as [se|] eqn:Ha; [|done].
  eapply refines_get; [done|]. destruct (ents m !! b) as [te|] eqn:Hb; [|done]. simpl.
  repeat (case_match; [done|]). by do 4 step_write.
Qed.

Lemma split_refines a sp s m : repr s m → refines s (split a sp s) (spec_split a sp m).
Proof.
  intros Hr. unfold split, spec_split. eapply refines_get; [done|].
  destruct (ents m !! a) as [se|] eqn:Ha; [|done]. simpl.
  destruct (is_active_memory_status _); [|done]. simpl.
  eapply refines_exists; [done|]. intros o Ho. rewrite Ho.
  destruct (ents m !! split_new_id sp) as [ne|] eqn:Hn; [done|]. simpl.
  set (new := into_entry (split_input se sp)).
  replace (split_new_id sp) with (entry_id new) by (subst new; by autorewrite with rust_rw).
  eapply refines_candidate; [done|]. intros s1 H1.
  destruct (split_updated_source_content sp) as [c|].
  - destruct (put_record_repr s1 (add_candidate new m)
      (MemoryRecord_new (replace_content se c)) H1) as (s2 & E2 & H2).
    destruct (append_audit_repr s2 _ (edited a
      (MemoryEdit_replace_content (split_actor sp) c) (entry_content se) c) H2)
      as (s3 & E3 & H3).
    eapply refines_bind; [unfold st_bind at 1; rewrite E2; exact E3|]. by do 2 step_write.
  - eapply refines_bind; [done|]. by do 2 step_write.
Qed.

Lemma store_step_refines o s m : repr s m → refines s (store_step o s) (spec_step o m).
Proof.
  intros Hr. destruct o; simpl; auto using create_refines, review_refines, edit_refines,
    add_evidence_refines, merge_refines, split_refines.
Qed.

(** The simulation lifts to runs. *)
Lemma run_ops_refines ops s m :
  repr s m →
  (run_ops store_step ops s).1 = (run_ops spec_step ops m).1 ∧
  repr (run_ops store_step ops s).2 (run_ops spec_step ops m).2.
Proof.
  revert s m. induction ops as [|o ops IH]; intros s m Hr; simpl; [done|].
  destruct (store_step_refines o s m Hr) as (Hres & Hrep & _).
  destruct (store_step o s) as [r s'], (spec_step o m) as [r' m']. simpl in *. subst.
  specialize (IH s' m' Hrep).
  destruct (run_ops store_step ops s'), (run_ops spec_step ops m'). simpl in *.
  by destruct IH as [-> ?].
Qed.

(** A store over a backend with no data yet represents the empty repository. *)
Definition fresh_store (s : Store) : Prop :=
  ms_scope s = scope ∧ ms_ranker s = ranker ∧
  docs (ms_storage s) = ∅ ∧ logs (ms_storage s) = ∅.

Lemma fresh_store_repr s : fresh_store s → repr s empty_state.
Proof.
  intros (Hsc & Hrk & Hd & Hl). split; try done; unfold doc_at, log_at, trail_of; simpl.
  - intros id. rewrite Hd, !lookup_empty. constructor.
  - intros id. by rewrite Hl, !lookup_empty.
  - by rewrite Hl, lookup_empty.
Qed.
End refine.
Arguments repr {_ _ _ _ _}.
Arguments refines {_ _ _ _ _}.
