(* ===== verification/MemoryInv.v ===== *)
(** * Invariants of the abstract repository

    What every reachable state of the repository satisfies: the audit trail of
    a memory reconstructs its status and content, identities never change, and
    statuses follow the review lifecycle. *)

From stdpp Require Import base numbers strings gmap list.
From S2P Require Import Prelude RustStr Storage Protocol TextSim MemoryTypes MemoryStore MemorySpec.

(** ** Event sourcing

    The status and content a trail records, by folding its events. *)
Definition replay_event (p : option (MemoryStatus * str)) (ev : MemoryAuditEvent)
    : option (MemoryStatus * str) :=
  match ev_action ev with
  | CandidateCreated => pair Candidate <$> ev_new_content ev
  | ActionApproved => pair Approved ∘ snd <$> p
  | ActionRejected => pair Rejected ∘ snd <$> p
  | ActionArchived => pair Archived ∘ snd <$> p
  | Edited => q ← p; pair (q.1) <$> ev_new_content ev
  | Merged => match ev_merged_into ev with Some _ => pair Archived ∘ snd <$> p | None => p end
  | Split | EvidenceAdded => p
  end.
Definition replay_trail (l : list MemoryAuditEvent) : option (MemoryStatus * str) :=
  foldl replay_event None l.
Definition snapshot (e : MemoryEntry) : MemoryStatus * str := (entry_status e, entry_content e).

Lemma replay_event_sequence p n ev : replay_event p (set_sequence n ev) = replay_event p ev.
Proof. done. Qed.

Lemma replay_trail_snoc l ev :
  replay_trail (l ++ [ev]) = replay_event (replay_trail l) ev.
Proof. unfold replay_trail. by rewrite foldl_app. Qed.

(** An approved or archived status has its event. *)
Lemma replay_trail_approved l c :
  replay_trail l = Some (Approved, c) → ∃ ev, ev ∈ l ∧ ev_action ev = ActionApproved.
Proof.
  revert c. induction l as [|ev l IH] using rev_ind; intros c; [done|].
  rewrite replay_trail_snoc. unfold replay_event.
  destruct (decide (ev_action ev = ActionApproved)) as [Ha|Hna].
  { intros _. exists ev. split; [|done]. apply elem_of_app. right. by apply list_elem_of_singleton. }
  intros Hr. assert (∃ c', replay_trail l = Some (Approved, c')) as [c' Hc'].
  { destruct (replay_trail l) as [[q1 q2]|]; destruct (ev_action ev); simpl in *;
      repeat case_match; simplify_eq; simpl in *; try done; eauto;
      destruct (ev_new_content ev); simplify_eq/=; eauto. }
  destruct (IH c' Hc') as (ev' & Hin & Hact). exists ev'. split; [|done].
  apply elem_of_app. by left.
Qed.

(** ** The invariant *)

Definition coherent (m : MemState) : Prop := ∀ id,
  match ents m !! id with
  | Some e => entry_id e = id ∧ replay_trail (trail_of m id) = Some (snapshot e)
  | None => trail_of m id = []
  end.
Definition trails_numbered (m : MemState) : Prop := ∀ id i ev,
  trail_of m id !! i = Some ev → ev_memory_id ev = id ∧ ev_sequence ev = N.of_nat (S i).

Record index_ok (m : MemState) : Prop := {
  index_nodup : NoDup (ev_memory_id <$> idx m);
  index_dom : ∀ id, id ∈ (ev_memory_id <$> idx m) ↔ is_Some (ents m !! id);
  index_numbered : ∀ i ev, idx m !! i = Some ev → ev_sequence ev = N.of_nat (S i);
}.

Record spec_wf (m : MemState) : Prop := {
  wf_coherent : coherent m;
  wf_numbered : trails_numbered m;
  wf_index : index_ok m;
}.

Lemma trail_of_log_event ev m id :
  trail_of (log_event ev m) id =
    if decide (ev_memory_id ev = id) then trail_of m id ++ [numbered (trail_of m id) ev]
    else trail_of m id.
Proof. unfold trail_of. simpl. rewrite lookup_insert. by case_decide; subst. Qed.

Lemma spec_wf_empty : spec_wf empty_state.
Proof.
  split; [| |split]; unfold coherent, trails_numbered, trail_of; simpl.
  - intros id. by rewrite !lookup_empty.
  - intros id i ev. rewrite lookup_empty. simpl. by rewrite lookup_nil.
  - constructor.
  - intros id. rewrite lookup_empty. split; [by intros ?%elem_of_nil|by intros [? ?]].
  - done.
Qed.

(** *** Preservation by the primitive writes *)

Lemma coherent_put_same e e' m :
  coherent m → ents m !! entry_id e' = Some e → snapshot e' = snapshot e → coherent (put_ent e' m).
Proof.
  intros Hm He Hs id. specialize (Hm id). simpl. rewrite lookup_insert. case_decide; [|done].
  subst. rewrite He in Hm. split; [done|]. rewrite Hs. apply Hm.
Qed.

Lemma coherent_update e e' ev m :
  coherent m → ents m !! entry_id e' = Some e → ev_memory_id ev = entry_id e' →
  replay_event (Some (snapshot e)) ev = Some (snapshot e') →
  coherent (log_event ev (put_ent e' m)).
Proof.
  intros Hm He Hid Hr id. specialize (Hm id). simpl. rewrite trail_of_log_event, lookup_insert, Hid.
  destruct (decide (entry_id e' = id)) as [<-|]; [|done]. rewrite He in Hm.
  split; [done|]. rewrite replay_trail_snoc. change (trail_of (put_ent e' m)) with (trail_of m).
  destruct Hm as [_ ->]. unfold numbered. by rewrite replay_event_sequence.
Qed.

Lemma coherent_log ev m :
  coherent m → is_Some (ents m !! ev_memory_id ev) → (∀ p, replay_event p ev = p) →
  coherent (log_event ev m).
Proof.
  intros Hm [e He] Hp id. specialize (Hm id). simpl. rewrite trail_of_log_event.
  case_decide; [|done]. subst. rewrite He in *. split; [apply Hm|].
  rewrite replay_trail_snoc. unfold numbered. rewrite replay_event_sequence, Hp. apply Hm.
Qed.

Lemma coherent_add e m :
  coherent m → ents m !! entry_id e = None → entry_status e = Candidate →
  coherent (add_candidate e m).
Proof.
  intros Hm He Hst id. specialize (Hm id).
  change (ents (add_candidate e m)) with (<[entry_id e := e]> (ents m)).
  change (trail_of (add_candidate e m) id) with
    (trail_of (log_event (candidate_created (entry_id e) (entry_content e)) (put_ent e m)) id).
  rewrite trail_of_log_event, lookup_insert. simpl.
  destruct (decide (entry_id e = id)) as [<-|]; [|done]. rewrite He in Hm. split; [done|].
  change (trail_of (put_ent e m)) with (trail_of m). rewrite Hm. unfold snapshot. by rewrite Hst.
Qed.

Lemma numbered_log ev m : trails_numbered m → trails_numbered (log_event ev m).
Proof.
  intros Hm id i x. rewrite trail_of_log_event. case_decide as Hid; [|apply Hm].
  rewrite lookup_app_Some. intros [Hx|[Hlen Hx]]; [by apply Hm|].
  apply list_lookup_singleton_Some in Hx as [Hi <-]. simpl. split; [done|]. lia.
Qed.
Lemma numbered_put e m : trails_numbered m → trails_numbered (put_ent e m).
Proof. done. Qed.
Lemma numbered_index ev m : trails_numbered m → trails_numbered (index_event ev m).
Proof. done. Qed.
#[export] Hint Resolve numbered_log numbered_put numbered_index : rust.

Lemma index_ok_log ev m : index_ok m → index_ok (log_event ev m).
Proof. by intros []. Qed.
Lemma index_ok_put e m : index_ok m → is_Some (ents m !! entry_id e) → index_ok (put_ent e m).
Proof.
  intros [Hn Hd Hq] He. split; simpl; [done| |done].
  intros id. rewrite Hd, lookup_insert. case_decide; subst; naive_solver.
Qed.
Lemma index_ok_add e m :
  index_ok m → ents m !! entry_id e = None → index_ok (add_candidate e m).
Proof.
  intros [Hn Hd Hq] He. split; simpl.
  - rewrite fmap_app. simpl. apply NoDup_app. split; [done|]. split; [|apply NoDup_singleton].
    intros x Hx ->%list_elem_of_singleton. apply Hd in Hx. rewrite He in Hx. by destruct Hx.
  - intros id. rewrite fmap_app, elem_of_app, Hd, lookup_insert. simpl.
    rewrite list_elem_of_singleton. case_decide; subst; naive_solver.
  - intros i ev. rewrite lookup_app_Some. intros [Hx|[Hlen Hx]]; [by apply Hq|].
    apply list_lookup_singleton_Some in Hx as [Hi <-]. simpl. lia.
Qed.
#[export] Hint Resolve index_ok_log : rust.

(** *** Composite writes *)

(** One entry rewritten together with the event that explains it. *)
Lemma spec_wf_update e e' ev m :
  spec_wf m → ents m !! entry_id e' = Some e → ev_memory_id ev = entry_id e' →
  replay_event (Some (snapshot e)) ev = Some (snapshot e') →
  spec_wf (log_event ev (put_ent e' m)).
Proof.
  intros [Hc Hn Hi] He Hid Hr. split; [by eapply coherent_update|auto with rust|].
  apply index_ok_log, index_ok_put; eauto.
Qed.

Lemma spec_wf_put_same e e' m :
  spec_wf m → ents m !! entry_id e' = Some e → snapshot e' = snapshot e → spec_wf (put_ent e' m).
Proof.
  intros [Hc Hn Hi] He Hs. split; [by eapply coherent_put_same|done|]. apply index_ok_put; eauto.
Qed.

Lemma spec_wf_log ev m :
  spec_wf m → is_Some (ents m !! ev_memory_id ev) → (∀ p, replay_event p ev = p) →
  spec_wf (log_event ev m).
Proof. intros [Hc Hn Hi] He Hp. split; [by apply coherent_log|auto with rust..]. Qed.

Lemma spec_wf_add e m :
  spec_wf m → ents m !! entry_id e = None → entry_status e = Candidate →
  spec_wf (add_candidate e m).
Proof.
  intros [Hc Hn Hi] He Hs. split; [by apply coherent_add| |by apply index_ok_add].
  apply numbered_index, numbered_log. done.
Qed.

Lemma spec_wf_id m id e : spec_wf m → ents m !! id = Some e → entry_id e = id.
Proof. intros Hm He. pose proof (wf_coherent m Hm id) as Hc. rewrite He in Hc. apply Hc. Qed.

Lemma ents_put e m id :
  ents (put_ent e m) !! id = if decide (entry_id e = id) then Some e else ents m !! id.
Proof. apply lookup_insert. Qed.
Lemma ents_log ev m : ents (log_event ev m) = ents m.
Proof. done. Qed.
Lemma ents_add e m id :
  ents (add_candidate e m) !! id = if decide (entry_id e = id) then Some e else ents m !! id.
Proof. apply lookup_insert. Qed.

Section ops.
Context `{JsonLib}.

Lemma spec_create_wf i m : spec_wf m → spec_wf (spec_create i m).2.
Proof.
  intros Hm. unfold spec_create. repeat case_match; try done. simpl.
  apply spec_wf_add; [done|by autorewrite with rust_rw|by rewrite into_entry_eq].
Qed.

Lemma spec_review_wf id d m : spec_wf m → spec_wf (spec_review id d m).2.
Proof.
  intros Hm. unfold spec_review. destruct (ents m !! id) as [e|] eqn:He; [|done].
  destruct (transition_allowed _ _); [|done]. pose proof (spec_wf_id m id e Hm He) as Hid.
  eapply spec_wf_update; simpl; rewrite ?Hid; try done. by destruct d.
Qed.

Lemma spec_edit_wf id ed m : spec_wf m → spec_wf (spec_edit id ed m).2.
Proof.
  intros Hm. unfold spec_edit. destruct (edit_validate ed); [|done].
  destruct (ents m !! id) as [e|] eqn:He; [|done].
  pose proof (spec_wf_id m id e Hm He) as Hid.
  eapply spec_wf_update; autorewrite with rust_rw; rewrite ?Hid; try done.
  by rewrite replace_content_eq.
Qed.

Lemma spec_add_evidence_wf id v a r m : spec_wf m → spec_wf (spec_add_evidence id v a r m).2.
Proof.
  intros Hm. unfold spec_add_evidence. destruct (ents m !! id) as [e|] eqn:He; [|done].
  destruct (is_active_memory_status _); [|done].
  pose proof (spec_wf_id m id e Hm He) as Hid.
  eapply spec_wf_update; autorewrite with rust_rw; rewrite ?Hid; try done.
  by rewrite append_evidence_eq.
Qed.

Lemma spec_merge_wf a b mg m : spec_wf m → spec_wf (spec_merge a b mg m).2.
Proof.
  intros Hm. unfold spec_merge. case_bool_decide as Hab; [done|].
  destruct (ents m !! a) as [se|] eqn:Ha; [|done].
  destruct (ents m !! b) as [te|] eqn:Hb; [|done].
  repeat (case_match; [done|]). simpl.
  pose proof (spec_wf_id m a se Hm Ha) as Ia. pose proof (spec_wf_id m b te Hm Hb) as Ib.
  apply spec_wf_log.
  - eapply (spec_wf_update se); [|simpl; rewrite lookup_insert| |]; simpl; try done.
    + eapply (spec_wf_put_same te); autorewrite with rust_rw; rewrite ?Ib; try done.
      by rewrite union_tags_eq.
    + rewrite entry_id_union_tags, Ia, Ib, decide_False by congruence. done.
  - simpl. rewrite Ia, entry_id_union_tags, Ib, lookup_insert_ne, lookup_insert_eq by done. eauto.
  - done.
Qed.

Lemma spec_split_wf a sp m : spec_wf m → spec_wf (spec_split a sp m).2.
Proof.
  intros Hm. unfold spec_split. destruct (ents m !! a) as [se|] eqn:Ha; [|done].
  destruct (is_active_memory_status _); [|done]. simpl.
  destruct (ents m !! split_new_id sp) as [|] eqn:Hn; [done|]. simpl.
  pose proof (spec_wf_id m a se Hm Ha) as Ia.
  set (new := into_entry (split_input se sp)).
  assert (Hnew : entry_id new = split_new_id sp) by (subst new; by autorewrite with rust_rw).
  assert (Hadd : spec_wf (add_candidate new m)).
  { apply spec_wf_add; [done|by rewrite Hnew|subst new; by rewrite into_entry_eq]. }
  assert (Hse : ents (add_candidate new m) !! a = Some se).
  { rewrite ents_add, Hnew, decide_False by congruence. done. }
  assert (Hin : ∀ x, x = a ∨ x = split_new_id sp → is_Some (ents (add_candidate new m) !! x)).
  { intros x [-> | ->]; [eauto|]. rewrite ents_add, decide_True by done. eauto. }
  destruct (split_updated_source_content sp) as [c|].
  - apply spec_wf_log; [apply spec_wf_log| |]; try done.
    + eapply spec_wf_update; autorewrite with rust_rw; rewrite ?Ia; try done.
      by rewrite replace_content_eq.
    + rewrite ents_log, ents_put. case_decide; eauto.
    + rewrite !ents_log, ents_put. case_decide; eauto.
  - apply spec_wf_log; [apply spec_wf_log| |]; try done; simpl; eauto.
Qed.

Lemma spec_step_wf o m : spec_wf m → spec_wf (spec_step o m).2.
Proof.
  destruct o; simpl; auto using spec_create_wf, spec_review_wf, spec_edit_wf,
    spec_add_evidence_wf, spec_merge_wf, spec_split_wf.
Qed.

Lemma run_ops_wf ops m : spec_wf m → spec_wf (run_ops spec_step ops m).2.
Proof.
  revert m. induction ops as [|o ops IH]; intros m Hm; simpl; [done|].
  pose proof (spec_step_wf o m Hm) as Ho. destruct (spec_step o m) as [r m']. simpl in *.
  specialize (IH m' Ho). by destruct (run_ops spec_step ops m').
Qed.
End ops.

(** ** Evolution

    How one entry may change over time: its identity and classification are
    fixed, tags and evidence only grow, and the status moves forward. *)

Definition status_follows (s s' : MemoryStatus) : bool :=
  bool_decide (s = s') || transition_allowed s s'
  || is_active_memory_status s && bool_decide (s' = Archived).

Record evolves (e e' : MemoryEntry) : Prop := {
  evolves_id : entry_id e' = entry_id e;
  evolves_project : entry_project e' = entry_project e;
  evolves_kind : entry_kind e' = entry_kind e;
  evolves_sensitivity : entry_sensitivity e' = entry_sensitivity e;
  evolves_visibility : entry_visibility e' = entry_visibility e;
  evolves_source : entry_source e' = entry_source e;
  evolves_tags : entry_tags e `prefix_of` entry_tags e';
  evolves_evidence : entry_evidence e `prefix_of` entry_evidence e';
  evolves_status : status_follows (entry_status e) (entry_status e') = true;
}.

#[export] Instance evolves_preorder : PreOrder evolves.
Proof.
  split.
  - intros e. split; try done. by destruct (entry_status e).
  - intros e1 e2 e3 [] []. split; try congruence; try by etrans.
    by destruct (entry_status e1), (entry_status e2), (entry_status e3).
Qed.

(** Everything stored before is still there, evolved; trails and index only grow. *)
Record grows (m m' : MemState) : Prop := {
  grows_ents : ∀ id e, ents m !! id = Some e → ∃ e', ents m' !! id = Some e' ∧ evolves e e';
  grows_trail : ∀ id, trail_of m id `prefix_of` trail_of m' id;
  grows_idx : idx m `prefix_of` idx m';
}.

#[export] Instance grows_preorder : PreOrder grows.
Proof.
  split.
  - intros m. split; try done. intros id e He. exists e. split; [done|]. reflexivity.
  - intros m1 m2 m3 [He Ht Hi] [He' Ht' Hi']. split.
    + intros id e H. destruct (He id e H) as (e2 & H2 & E2).
      destruct (He' id e2 H2) as (e3 & H3 & E3). exists e3. split; [done|]. by etrans.
    + intros id. etrans; [apply Ht|apply Ht'].
    + by etrans.
Qed.

Lemma grows_log ev m : grows m (log_event ev m).
Proof.
  split; [|intros id; rewrite trail_of_log_event|done].
  - intros id e He. exists e. by split.
  - case_decide; [by eexists|done].
Qed.

Lemma grows_put e e' m : ents m !! entry_id e' = Some e → evolves e e' → grows m (put_ent e' m).
Proof.
  intros He Hev. split; [|done..]. intros id x Hx. rewrite ents_put.
  case_decide; [|exists x; by split]. subst. exists e'. split; [done|]. congruence.
Qed.

Lemma grows_add e m : ents m !! entry_id e = None → grows m (add_candidate e m).
Proof.
  intros He. split.
  - intros id x Hx. rewrite ents_add. case_decide; [congruence|]. exists x. by split.
  - intros id. apply (grows_trail m (log_event (candidate_created (entry_id e) (entry_content e)) m)).
    apply grows_log.
  - simpl. by eexists.
Qed.

Lemma evolves_status_step e s :
  status_follows (entry_status e) s = true → evolves e (with_status s e).
Proof. intros Hs. by split. Qed.
Lemma evolves_replace e c : evolves e (replace_content e c).
Proof. rewrite replace_content_eq. split; simpl; try done. by destruct (entry_status e). Qed.
Lemma evolves_evidence_step e v : evolves e (append_evidence e v).
Proof.
  rewrite append_evidence_eq. split; simpl; try done; [by eexists|]. by destruct (entry_status e).
Qed.

Lemma union_tag_list_prefix tags extra : tags `prefix_of` union_tag_list tags extra.
Proof.
  unfold union_tag_list. revert tags. induction extra as [|t extra IH]; intros tags; simpl; [done|].
  case_bool_decide; [apply IH|]. etrans; [|apply IH]. by eexists.
Qed.
Lemma evolves_union e l : evolves e (union_tags e l).
Proof.
  rewrite union_tags_eq. split; simpl; try done; [apply union_tag_list_prefix|].
  by destruct (entry_status e).
Qed.

Section evolution.
Context `{JsonLib}.

Lemma spec_merge_grows a b mg m : spec_wf m → grows m (spec_merge a b mg m).2.
Proof.
  intros Hm. unfold spec_merge. case_bool_decide as Hab; [reflexivity|].
  destruct (ents m !! a) as [se|] eqn:Ha; [|reflexivity].
  destruct (ents m !! b) as [te|] eqn:Hb; [|reflexivity].
  case_match; [reflexivity|]. case_match eqn:Hse; [reflexivity|]. case_match; [reflexivity|].
  pose proof (spec_wf_id m a se Hm Ha) as Ia. pose proof (spec_wf_id m b te Hm Hb) as Ib. simpl.
  etrans; [|apply grows_log]. etrans; [|apply grows_log].
  etrans; [eapply grows_put, evolves_union; by rewrite entry_id_union_tags, Ib|].
  eapply grows_put; [simpl; by rewrite entry_id_union_tags, Ia, Ib, lookup_insert_ne|].
  apply evolves_status_step. by destruct (entry_status se).
Qed.

Lemma spec_split_grows a sp m : spec_wf m → grows m (spec_split a sp m).2.
Proof.
  intros Hm. unfold spec_split. destruct (ents m !! a) as [se|] eqn:Ha; [|reflexivity].
  destruct (is_active_memory_status _); [|reflexivity]. simpl.
  destruct (ents m !! split_new_id sp) as [|] eqn:Hn; [reflexivity|]. simpl.
  pose proof (spec_wf_id m a se Hm Ha) as Ia.
  set (new := into_entry (split_input se sp)).
  assert (Hnew : entry_id new = split_new_id sp) by (subst new; by autorewrite with rust_rw).
  etrans; [|apply grows_log]. etrans; [|apply grows_log].
  etrans; [apply (grows_add new); by rewrite Hnew|].
  destruct (split_updated_source_content sp); [|reflexivity].
  etrans; [|apply grows_log]. eapply grows_put; [|apply evolves_replace].
  rewrite ents_add, entry_id_replace_content, Ia, Hnew, decide_False by congruence. done.
Qed.

Lemma spec_step_grows o m : spec_wf m → grows m (spec_step o m).2.
Proof.
  intros Hm. destruct o as [i|id d|id ed|id v act rs|a b mg|a sp]; simpl;
    [|unfold spec_review|unfold spec_edit|unfold spec_add_evidence
     |by apply spec_merge_grows|by apply spec_split_grows].
  { unfold spec_create. repeat case_match; try reflexivity.
    apply grows_add. by autorewrite with rust_rw. }
  2: destruct (edit_validate ed); [|reflexivity].
  all: destruct (ents m !! id) as [e|] eqn:He; [|reflexivity];
    pose proof (spec_wf_id m id e Hm He) as Hid.
  1: destruct (transition_allowed _ _) eqn:Ht; [|reflexivity].
  3: destruct (is_active_memory_status _); [|reflexivity].
  all: simpl; etrans; [|apply grows_log]; eapply grows_put;
    [by autorewrite with rust_rw; simpl; rewrite Hid|].
  - apply evolves_status_step. unfold status_follows. by rewrite Ht, orb_true_r.
  - apply evolves_replace.
  - apply evolves_evidence_step.
Qed.

Lemma run_ops_grows ops m : spec_wf m → grows m (run_ops spec_step ops m).2.
Proof.
  revert m. induction ops as [|o ops IH]; intros m Hm; simpl; [reflexivity|].
  pose proof (spec_step_grows o m Hm) as Hg. pose proof (spec_step_wf o m Hm) as Hw.
  destruct (spec_step o m) as [r m']. simpl in *. specialize (IH m' Hw).
  destruct (run_ops spec_step ops m') as [rs m'']. simpl in *. by etrans.
Qed.

Lemma spec_get_mono ops m id e :
  spec_wf m → ents m !! id = Some e →
  ∃ e', ents (run_ops spec_step ops m).2 !! id = Some e' ∧ evolves e e'.
Proof. intros Hm. apply grows_ents. by apply run_ops_grows. Qed.
End evolution.
