(* ===== verification/MemoryProps.v ===== *)
(** * Properties of the memory repository

    Stated on the code's own operations, for every store reachable from a fresh
    one by any sequence of repository operations, over any lawful backend. *)

From stdpp Require Import base numbers strings gmap list.
From S2P Require Import Prelude RustStr Storage Protocol TextSim MemoryTypes MemoryStore MemorySpec MemoryRefine MemoryInv.

(** ** Revisions *)

Definition revision_content (ev : MemoryAuditEvent) : option str :=
  match ev_action ev with CandidateCreated | Edited => ev_new_content ev | _ => None end.

Lemma number_revisions_contents n l :
  rev_content <$> number_revisions n l = omap revision_content l.
Proof.
  revert n. induction l as [|ev l IH]; intros n; simpl; [done|].
  unfold revision_content at 1.
  destruct (ev_action ev), (ev_new_content ev); simpl; rewrite ?IH; done.
Qed.

Lemma number_revisions_numbers n l i r :
  (n + N.of_nat (length l) < u64_modulus)%N →
  number_revisions n l !! i = Some r → rev_revision r = (n + N.of_nat (S i))%N.
Proof.
  revert n i. induction l as [|ev l IH]; intros n i Hn; simpl in *; [done|].
  assert (Hu : u64_add n 1 = (n + 1)%N) by (apply u64_wrap_small; lia).
  assert (Hskip : number_revisions n l !! i = Some r → rev_revision r = (n + N.of_nat (S i))%N).
  { intros Hr. apply (IH n i); [lia|done]. }
  destruct (match ev_action ev with CandidateCreated | Edited => _ | _ => _ end);
    [|exact Hskip].
  destruct i as [|i]; simpl; [intros [= <-]; simpl; lia|].
  intros Hr. rewrite (IH (u64_add n 1) i); [lia|lia|done].
Qed.

(** The last content-bearing event carries the content the trail replays to. *)
Lemma replay_trail_content l p :
  replay_trail l = Some p → last (omap revision_content l) = Some (p.2).
Proof.
  revert p. induction l as [|ev l IH] using rev_ind; intros p; [done|].
  rewrite replay_trail_snoc, last_omap_snoc. unfold replay_event, revision_content.
  destruct (replay_trail l) as [q|]; [specialize (IH q eq_refl)|];
    destruct (ev_action ev); simpl; repeat case_match; simpl;
    intros Hp; simplify_eq/=; try done.
Qed.

Section props.
Context `{Unicode} `{JsonLib} `{!Serde MemoryRecord} `{!Serde MemoryAuditEvent}.
Context `{!SerdeLaws MemoryRecord} `{!SerdeLaws MemoryAuditEvent}.
Context {S : Type} `{!DocumentStore S} `{!AppendLogStore S} `{!StorageView S}.
Context `{!DocumentLaws S} `{!LogLaws S}.
Context (scope : StorageScope) (ranker : RankingProvider).

(** The stores the repository's operations can reach from a fresh one. *)
Definition reachable (s : StorageBackedMemoryStore S) : Prop :=
  ∃ s0 ops, fresh_store scope ranker s0 ∧ s = (run_ops store_step ops s0).2.

Lemma reachable_repr s :
  reachable s → ∃ m, repr scope ranker s m ∧ spec_wf m.
Proof.
  intros (s0 & ops & Hf & ->). apply fresh_store_repr in Hf.
  exists (run_ops spec_step ops empty_state).2.
  split; [by apply run_ops_refines|]. apply run_ops_wf, spec_wf_empty.
Qed.

Lemma get_Ok_repr s m id r :
  repr scope ranker s m → get id s = Ok r ↔ ents m !! id = Some (record_entry r).
Proof.
  intros Hr. rewrite (get_repr scope ranker s m) by done.
  destruct (ents m !! id) as [e|]; simpl; [|done].
  split; [by intros [= <-]|]. destruct r; simpl. by intros [= ->].
Qed.

Lemma audit_replays s id r :
  reachable s → get id s = Ok r →
  ∃ evs, audit_log id s = Ok evs ∧ replay_trail evs = Some (snapshot (record_entry r)) ∧
    (∀ i ev, evs !! i = Some ev → ev_memory_id ev = id ∧ ev_sequence ev = N.of_nat (Datatypes.S i)).
Proof.
  intros (m & Hr & Hw)%reachable_repr Hg. apply (get_Ok_repr s m) in Hg; [|done].
  exists (trail_of m id). split; [by eapply audit_log_repr|]. split; [|apply Hw].
  pose proof (wf_coherent m Hw id) as Hc. rewrite Hg in Hc. apply Hc.
Qed.

(** C1. Over any lawful storage backend and any serialization that
    round-trips, every sequence of repository operations from a fresh store
    returns exactly the results of the abstract repository, errors included,
    and afterwards reads, audit logs and record listings agree with it. *)
Theorem store_refines_spec (ops : list MemoryOp) (s0 : StorageBackedMemoryStore S) :
  fresh_store scope ranker s0 →
  let '(rs, s) := run_ops store_step ops s0 in
  let '(rs', m) := run_ops spec_step ops empty_state in
  rs = rs' ∧
  (∀ id, get id s = ok_or (MemoryNotFound id) (MemoryRecord_new <$> ents m !! id)) ∧
  (∀ id, audit_log id s = Ok (trail_of m id)) ∧
  records s = Ok (spec_records m).
Proof.
  intros Hf%fresh_store_repr. destruct (run_ops_refines scope ranker ops s0 empty_state Hf)
    as [Hres Hrep].
  destruct (run_ops store_step ops s0) as [rs s], (run_ops spec_step ops empty_state) as [rs' m].
  simpl in *. repeat split; [done|intros id..|]; by eauto using get_repr, audit_log_repr, records_repr.
Qed.

(** C14. Event sourcing: in every reachable store, folding a memory's audit
    log gives exactly its current status and content, and the log's events
    carry the memory's id and count up from one. *)
Theorem audit_log_reconstructs s id r :
  reachable s → get id s = Ok r →
  ∃ evs, audit_log id s = Ok evs ∧
    replay_trail evs = Some (entry_status (record_entry r), entry_content (record_entry r)) ∧
    (∀ i ev, evs !! i = Some ev → ev_memory_id ev = id ∧ ev_sequence ev = N.of_nat (Datatypes.S i)).
Proof.
  apply audit_replays.
Qed.

(** Lifecycle: whatever operations run next, a stored memory stays
    readable under its id; its project, kind, sensitivity, visibility and
    source never change, its tags and evidence only grow, and its status only
    moves forward (so rejected and archived are final). *)
Theorem memories_evolve s id r ops :
  reachable s → get id s = Ok r →
  ∃ r', get id (run_ops store_step ops s).2 = Ok r' ∧
    evolves (record_entry r) (record_entry r') ∧
    (is_active_memory_status (entry_status (record_entry r)) = false →
     entry_status (record_entry r') = entry_status (record_entry r)).
Proof.
  intros (m & Hr & Hw)%reachable_repr Hg. apply (get_Ok_repr s m) in Hg; [|done].
  destruct (spec_get_mono ops m id _ Hw Hg) as (e' & He' & Hev).
  destruct (run_ops_refines scope ranker ops s m Hr) as [_ Hrep].
  exists (MemoryRecord_new e'). split; [by apply (get_Ok_repr _ _ _ _ Hrep)|]. split; [done|].
  intros Hact. pose proof (evolves_status _ _ Hev) as Hs.
  destruct (entry_status (record_entry r)), (entry_status e') eqn:He; done.
Qed.

(** Atomicity of refusals: an operation that returns an error has not
    touched the store, storage included. *)
Theorem failed_operations_change_nothing s o e :
  reachable s → (store_step o s).1 = Err e → (store_step o s).2 = s.
Proof.
  intros (m & Hr & Hw)%reachable_repr He.
  destruct (store_step_refines scope ranker o s m Hr) as (Hres & _ & Hsame).
  eapply Hsame. by rewrite <- Hres.
Qed.

(** Revisions: the history of a memory ends with its current content, and
    revisions are numbered from one without gaps. *)
Theorem revisions_end_at_current s id r :
  reachable s → get id s = Ok r →
  ∃ evs revs, audit_log id s = Ok evs ∧ revisions id s = Ok revs ∧
    rev_content <$> last revs = Some (entry_content (record_entry r)) ∧
    ((N.of_nat (length evs) < u64_modulus)%N →
     ∀ i v, revs !! i = Some v → rev_revision v = N.of_nat (Datatypes.S i)).
Proof.
  intros Hre Hg. destruct (audit_replays s id r Hre Hg) as (evs & Hl & Hrep & _).
  exists evs, (number_revisions 0 evs). split; [done|]. unfold revisions.
  rewrite Hg, Hl. split; [done|]. split.
  - rewrite <- fmap_last, number_revisions_contents. by apply (replay_trail_content evs _ Hrep).
  - intros Hlen i v Hv. rewrite (number_revisions_numbers 0 evs i v); [lia|lia|done].
Qed.
End props.

(** ** Properties of the repository's queries

    Listing, retrieval, ranked retrieval, similarity, staleness and quality
    review: what they return, in which order, and that nothing is left out. *)

#[export] Instance nat_compare_total : TotalCmp Nat.compare.
Proof.
  split.
  - intros x y. apply Nat.compare_antisym.
  - intros x y z. rewrite !Nat.compare_gt_iff. lia.
Qed.
#[export] Instance score_desc_total {A} (f : A → nat) : TotalCmp (score_desc f).
Proof. unfold score_desc. apply _. Qed.

(** The order of scored results: higher score first, then smaller id. *)
Definition ranked_before {A} (score : A → nat) (id : A → str) (x y : A) : Prop :=
  score y < score x ∨ score x = score y ∧ str_cmp (id x) (id y) ≠ Gt.

Lemma ranked_before_cmp {A} (score : A → nat) (id : A → str) x y :
  cmp_le (cmp_lex (score_desc score) (cmp_on id str_cmp)) x y → ranked_before score id x y.
Proof.
  unfold cmp_le, cmp_lex, score_desc, cmp_rev, cmp_on, ranked_before.
  destruct (Nat.compare_spec (score y) (score x)); simpl; naive_solver lia.
Qed.

(** A sorted and truncated selection: its elements, order and length. *)
Section selection.
Context {A : Type} (c : A → A → comparison) `{!TotalCmp c}.
Lemma selection_sorted limit (l : list A) :
  Sorted.StronglySorted (cmp_le c) (truncate_opt limit (sort_by c l)).
Proof. apply StronglySorted_truncate_opt. by apply sort_by_sorted. Qed.
Lemma selection_elem limit (l : list A) x :
  x ∈ truncate_opt limit (sort_by c l) → x ∈ l.
Proof. intros Hx%elem_of_truncate_opt. by apply elem_of_sort_by in Hx. Qed.
End selection.

Section queries.
Context `{Unicode} `{JsonLib} `{!Serde MemoryRecord} `{!Serde MemoryAuditEvent}.
Context `{!SerdeLaws MemoryRecord} `{!SerdeLaws MemoryAuditEvent}.
Context {S : Type} `{!DocumentStore S} `{!AppendLogStore S} `{!StorageView S}.
Context `{!DocumentLaws S} `{!LogLaws S}.
Context (scope : StorageScope) (ranker : RankingProvider).
Abbreviation reachable := (reachable (S:=S) scope ranker).

(** *** The record listing behind every query *)

Lemma spec_indexed_ids m :
  index_ok m → coherent m →
  (λ x, record_id (ix_record x)) <$> spec_indexed m = ev_memory_id <$> idx m.
Proof.
  intros [_ Hd _] Hc. unfold spec_indexed.
  assert (Hall : ∀ ev, ev ∈ idx m → is_Some (ents m !! ev_memory_id ev)).
  { intros ev Hev. apply Hd. by apply list_elem_of_fmap_2. }
  clear Hd. induction (idx m) as [|ev l IH]; [done|]. simpl.
  destruct (Hall ev) as [e He]; [left|]. rewrite He. simpl. f_equal.
  - unfold record_id. simpl. specialize (Hc (ev_memory_id ev)). rewrite He in Hc. apply Hc.
  - apply IH. intros ev' Hev'. apply Hall. by right.
Qed.

Lemma spec_indexed_elem m x :
  index_ok m → coherent m →
  x ∈ spec_indexed m →
    ents m !! record_id (ix_record x) = Some (record_entry (ix_record x)).
Proof.
  intros _ Hc. unfold spec_indexed. rewrite list_elem_of_omap. intros (ev & Hev & Hx).
  destruct (ents m !! ev_memory_id ev) as [e|] eqn:He; [|done]. simpl in Hx. simplify_eq. simpl.
  specialize (Hc (ev_memory_id ev)). rewrite He in Hc. destruct Hc as [Hid _].
  unfold record_id. simpl. by rewrite Hid.
Qed.

(** Each stored memory is listed exactly once. *)
Lemma records_listing s :
  reachable s →
  ∃ l, indexed_records s = Ok l ∧ records s = Ok (ix_record <$> l) ∧
    NoDup (record_id <$> (ix_record <$> l)) ∧
    (∀ r, r ∈ ix_record <$> l ↔ get (record_id r) s = Ok r).
Proof.
  intros (m & Hr & Hw)%reachable_repr. destruct Hw as [Hc _ Hi].
  exists (spec_indexed m). split; [by eapply indexed_records_repr|].
  split; [by eapply records_repr|].
  assert (Hids : record_id <$> (ix_record <$> spec_indexed m) = ev_memory_id <$> idx m).
  { rewrite <- list_fmap_compose. by apply spec_indexed_ids. }
  rewrite Hids. split; [apply Hi|]. intros r. rewrite (get_Ok_repr scope ranker s m) by done.
  split.
  - intros (x & -> & Hx)%list_elem_of_fmap. by apply spec_indexed_elem.
  - intros He. assert (Hin : record_id r ∈ ev_memory_id <$> idx m).
    { apply (index_dom m Hi). eauto. }
    rewrite <- Hids in Hin. apply list_elem_of_fmap in Hin as (r' & Hid & Hr').
    apply list_elem_of_fmap in Hr' as Hx. destruct Hx as (x & -> & Hx).
    apply (spec_indexed_elem m x Hi Hc) in Hx. rewrite <- Hid, He in Hx.
    destruct r, (ix_record x); simpl in *. by simplify_eq.
Qed.

Lemma fmap_id_inj (l : list MemoryRecord) x y :
  NoDup (record_id <$> l) → x ∈ l → y ∈ l → record_id x = record_id y → x = y.
Proof.
  intros Hn (i & Hx)%list_elem_of_lookup (j & Hy)%list_elem_of_lookup Heq.
  assert (i = j); [|congruence]. eapply (NoDup_lookup _ i j (record_id x) Hn).
  - by rewrite list_lookup_fmap, Hx.
  - by rewrite list_lookup_fmap, Hy, Heq.
Qed.

(** [list] returns exactly the stored memories the filter accepts, in
    strictly increasing id order, cut to the limit. *)
Theorem list_exact s f :
  reachable s →
  ∃ full, list_memories f s = Ok (truncate_opt (lf_limit f) full) ∧
    (∀ r, r ∈ full ↔ get (record_id r) s = Ok r ∧ list_accepts f r = true) ∧
    Sorted.StronglySorted (λ a b, str_cmp (record_id a) (record_id b) = Lt) full.
Proof.
  intros Hs. destruct (records_listing s Hs) as (l & _ & Hrec & Hnd & Hget).
  unfold list_memories. rewrite Hrec. simpl. eexists. split; [done|]. split.
  - intros r. by rewrite elem_of_sort_by, elem_of_list_filter_bool, Hget.
  - apply sort_by_key_strict. by apply NoDup_fmap_filter.
Qed.
(** [retrieve] returns exactly the stored memories the query accepts, each
    with the query's reason, in strictly increasing id order, cut to the
    limit. *)
Theorem retrieve_exact s q :
  reachable s →
  ∃ full, retrieve q s = Ok (truncate_opt (mq_limit q) full) ∧
    (∀ x, x ∈ full ↔ rt_reason x = retrieve_reason q ∧
       get (record_id (rt_record x)) s = Ok (rt_record x) ∧
       retrieve_accepts q (rt_record x) = true) ∧
    Sorted.StronglySorted
      (λ a b, str_cmp (record_id (rt_record a)) (record_id (rt_record b)) = Lt) full.
Proof.
  intros Hs. destruct (records_listing s Hs) as (l & _ & Hrec & Hnd & Hget).
  unfold retrieve. rewrite Hrec. simpl. eexists. split; [done|]. split.
  - intros x. rewrite elem_of_sort_by, list_elem_of_fmap.
    setoid_rewrite elem_of_list_filter_bool. setoid_rewrite Hget. split.
    + intros (r & -> & Hr). by split.
    + intros (Hre & Hg & Ha). exists (rt_record x). split; [|done].
      destruct x; simpl in *. by subst.
  - apply (sort_by_key_strict (λ m, record_id (rt_record m))).
    rewrite <- list_fmap_compose. unfold compose. simpl. by apply NoDup_fmap_filter.
Qed.

(** C15. The review gate: whatever [retrieve] hands to an agent is an approved
    memory of the queried project, sensitive only when sensitive memory was
    asked for, and its audit log holds the approval. *)
Theorem retrieve_review_gate s q l x :
  reachable s → retrieve q s = Ok l → x ∈ l →
  let e := record_entry (rt_record x) in
  entry_status e = Approved ∧
  project_ref_id (entry_project e) = project_ref_id (mq_project q) ∧
  (entry_sensitivity e = Sensitive → mq_sensitivity q = Some Sensitive) ∧
  ∃ evs ev, audit_log (entry_id e) s = Ok evs ∧ ev ∈ evs ∧ ev_action ev = ActionApproved.
Proof.
  intros Hs Hq Hx e. destruct (records_listing s Hs) as (rs & _ & Hrec & _ & Hget).
  unfold retrieve in Hq. rewrite Hrec in Hq. simpl in Hq. injection Hq as <-.
  apply selection_elem in Hx. apply list_elem_of_fmap in Hx as (r & -> & Hr).
  apply elem_of_list_filter_bool in Hr as [Hr Ha]. simpl in e.
  unfold retrieve_accepts in Ha. fold e in Ha. repeat rewrite andb_true_iff in Ha.
  destruct Ha as ((((((Hst & Hp) & Hse) & _) & _) & _) & _).
  apply bool_decide_eq_true in Hst. unfold same_project in Hp. apply bool_decide_eq_true in Hp.
  split; [done|]. split; [done|]. split.
  - intros Hsens. unfold sensitivity_ok in Hse. rewrite Hsens in Hse.
    destruct (mq_sensitivity q) as [[]|]; try done.
  - apply Hget in Hr. destruct (audit_replays scope ranker s _ r Hs Hr) as (evs & Hl & Hrep & _).
    unfold snapshot in Hrep. fold e in Hrep. rewrite Hst in Hrep.
    destruct (replay_trail_approved evs _ Hrep) as (ev & Hin & Hact). by exists evs, ev.
Qed.

(** The documents a ranked query sends to the ranking provider. *)
Definition ranking_documents (q : MemoryRetrievalQuery) (l : list MemoryRecord)
    : list RankingDocument :=
  (λ r, RankingDocument_new (record_id r) (entry_content (record_entry r)))
    <$> List.filter (ranked_accepts q) l.

(** [retrieve_ranked] under any ranking provider: the provider's error is
    returned; a score list of the wrong length is an error; otherwise the
    results are the accepted memories paired with their own scores, none below
    the threshold, best first with ties by id, cut to the limit. *)
Theorem retrieve_ranked_spec s q :
  reachable s →
  ∃ l, records s = Ok l ∧
    let filtered := List.filter (ranked_accepts q) l in
    match ranker (rq_query q) (ranking_documents q l) with
    | Err e => retrieve_ranked q s = Err e
    | Ok scores =>
        (length scores ≠ length filtered → ∃ msg, retrieve_ranked q s = Err (Ranking msg)) ∧
        (length scores = length filtered →
         ∃ full, retrieve_ranked q s = Ok (truncate_opt (rq_limit q) full) ∧
           (∀ x, x ∈ full ↔ rq_min_score q ≤ rk_score x ∧
              ∃ i, filtered !! i = Some (rk_record x) ∧ scores !! i = Some (rk_score x)) ∧
           Sorted.StronglySorted (ranked_before rk_score (λ m, record_id (rk_record m))) full)
    end.
Proof.
  intros Hs. destruct (records_listing s Hs) as (l & _ & Hrec & _ & _).
  exists (ix_record <$> l). split; [done|]. intros filtered.
  destruct (reachable_repr scope ranker s Hs) as (m & Hr & _).
  unfold retrieve_ranked. rewrite Hrec. simpl. rewrite (repr_ranker _ _ _ _ Hr).
  unfold ranking_documents. fold filtered. destruct (ranker _ _) as [scores|e]; [|done]. simpl.
  split.
  - intros Hne. apply Nat.eqb_neq in Hne. rewrite Hne. simpl. by eexists.
  - intros Heq. apply Nat.eqb_eq in Heq as Hb. rewrite Hb. simpl. eexists. split; [done|]. split.
    + intros x. rewrite elem_of_sort_by, list_elem_of_fmap. split.
      * intros ([r sc] & -> & Hin). apply elem_of_list_filter_bool in Hin as [Hz Hm].
        apply list_elem_of_lookup in Hz as [i Hi].
        apply lookup_zip_Some in Hi as [H1 H2]. split; [by apply Nat.leb_le|]. by exists i.
      * intros [Hm (i & H1 & H2)]. exists (rk_record x, rk_score x). split; [by destruct x|].
        apply elem_of_list_filter_bool. split; [|by apply Nat.leb_le].
        apply list_elem_of_lookup. exists i. by apply lookup_zip_Some.
    + eapply StronglySorted_mono; [apply ranked_before_cmp|]. apply sort_by_sorted, _.
Qed.

(** [similar_active] returns exactly the active memories of the project
    and kind whose shingle similarity reaches the threshold, with that score,
    most similar first with ties by id, cut to the limit. *)
Theorem similar_active_spec s q :
  reachable s →
  ∃ full, similar_active q s = Ok (truncate_opt (sq_limit q) full) ∧
    (∀ x, x ∈ full ↔
       let r := sim_record x in
       get (record_id r) s = Ok r ∧
       is_active_memory_status (entry_status (record_entry r)) = true ∧
       same_project (record_entry r) (sq_project q) = true ∧
       entry_kind (record_entry r) = sq_kind q ∧
       sim_score x = shingle_similarity (sq_content q) (entry_content (record_entry r)) ∧
       sq_min_score q ≤ sim_score x) ∧
    Sorted.StronglySorted (ranked_before sim_score (λ m, record_id (sim_record m))) full.
Proof.
  intros Hs. destruct (records_listing s Hs) as (l & _ & Hrec & _ & Hget).
  unfold similar_active. rewrite Hrec. simpl. eexists. split; [done|]. split.
  - intros x. cbv zeta. rewrite elem_of_sort_by, list_elem_of_omap.
    unfold similar_candidate. split.
    + intros (r' & Hin & Hx). apply Hget in Hin.
      destruct (is_active_memory_status _) eqn:E1; [|done]. simpl in Hx.
      destruct (same_project _ _) eqn:E2; [|done]. simpl in Hx.
      case_bool_decide; [|done]. simpl in Hx. destruct (_ <? _) eqn:E3; [done|].
      apply Nat.ltb_ge in E3. by simplify_eq/=.
    + intros (Hg & E1 & E2 & E3 & E4 & E5). exists (sim_record x). split; [by apply Hget|].
      rewrite E1, E2, bool_decide_eq_true_2 by done. simpl. rewrite <- E4.
      assert ((sim_score x <? sq_min_score q) = false) as -> by (by apply Nat.ltb_ge).
      by destruct x.
  - eapply StronglySorted_mono; [apply ranked_before_cmp|]. apply sort_by_sorted, _.
Qed.
(** *** Staleness *)

(** The scan for the best newer memory, over any candidate list. *)
Lemma best_fold {A} (f : A → option StaleMemory) (l : list A) :
  let best := foldl (λ best x, match f x with
                               | Some c => if replaces_best c best then Some c else best
                               | None => best
                               end) None l in
  match best with
  | None => ∀ x, x ∈ l → f x = None
  | Some b => (∃ x, x ∈ l ∧ f x = Some b) ∧
              ∀ x c, x ∈ l → f x = Some c → ranked_before stale_score newer_id b c
  end.
Proof.
  induction l as [|y l IH] using rev_ind; simpl; [by intros x ?%elem_of_nil|].
  rewrite foldl_app. simpl. cbv zeta in IH. set (best := foldl _ None l) in *. clearbody best.
  assert (Hin : ∀ x, x ∈ l ++ [y] ↔ x ∈ l ∨ x = y)
    by (intros x; by rewrite elem_of_app, list_elem_of_singleton).
  destruct (f y) as [c|] eqn:Hy.
  - destruct best as [b|]; simpl in *.
    + destruct IH as [(x & Hx & Hfx) Hbest].
      destruct (_ || _) eqn:Hrep.
      * split; [exists y; rewrite Hin; by split; [right|]|].
        intros x' c' [Hx'| ->]%Hin Hc'; [|simplify_eq; right; split; [done|];
          by rewrite (cmp_refl str_cmp)].
        specialize (Hbest x' c' Hx' Hc'). unfold ranked_before in *.
        apply orb_true_iff in Hrep as [Hlt%Nat.ltb_lt|[Heq%Nat.eqb_eq Hid%bool_decide_eq_true]%andb_true_iff].
        -- left. destruct Hbest as [?|[? _]]; lia.
        -- destruct Hbest as [?|[Hs Hc]]; [left; lia|]. right. split; [lia|].
           by rewrite (cmp_lt_le_trans str_cmp _ _ _ Hid Hc).
      * split; [exists x; rewrite Hin; by split; [left|]|].
        intros x' c' [Hx'| ->]%Hin Hc'; [by apply (Hbest x')|]. simplify_eq.
        apply orb_false_iff in Hrep as [Hge%Nat.ltb_ge Hn]. unfold ranked_before.
        destruct (decide (stale_score c = stale_score b)) as [Heq|]; [|left; lia].
        apply Nat.eqb_eq in Heq as Heq'. rewrite Heq' in Hn. simpl in Hn.
        apply bool_decide_eq_false in Hn. right. split; [done|].
        rewrite (str_cmp_opp (newer_id c)). by destruct (str_cmp (newer_id c) _).
    + split; [exists y; rewrite Hin; by split; [right|]|].
      intros x' c' [Hx'| ->]%Hin Hc'; [by rewrite (IH x' Hx') in Hc'|]. simplify_eq.
      right. split; [done|]. by rewrite (cmp_refl str_cmp).
  - destruct best as [b|].
    + destruct IH as [(x & Hx & Hfx) Hbest].
      split; [exists x; rewrite Hin; by split; [left|]|].
      intros x' c' [Hx'| ->]%Hin Hc'; [by apply (Hbest x')|congruence].
    + intros x [Hx| ->]%Hin; [by apply IH|done].
Qed.

(** [older] is an approved memory the staleness query looks at. *)
Definition stale_considered (q : MemoryStalenessQuery) (older : IndexedMemoryRecord) : Prop :=
  let e := record_entry (ix_record older) in
  entry_status e = Approved ∧ same_project e (tq_project q) = true ∧
  opt_is (tq_kind q) (entry_kind e) = true.

Lemma stale_of_considered q l older :
  stale_considered q older → stale_of q l older = best_newer q l older.
Proof. intros (E1 & E2 & E3). unfold stale_of. by rewrite bool_decide_eq_true_2, E2, E3. Qed.

Lemma stale_of_Some q l older x :
  stale_of q l older = Some x → stale_considered q older ∧ best_newer q l older = Some x.
Proof.
  unfold stale_of, stale_considered. case_bool_decide; [|done]. simpl.
  destruct (same_project _ _); [|done]. simpl. destruct (opt_is _ _); [|done]. done.
Qed.

(** [stale_active] flags an approved memory with the most similar active
    memory of its project and kind that was created after it (ties by id);
    every considered memory with such a newer one is flagged; results are
    ordered by descending score. *)
Theorem stale_active_spec s q :
  reachable s →
  ∃ l full, indexed_records s = Ok l ∧ stale_active q s = Ok (truncate_opt (tq_limit q) full) ∧
    (∀ x, x ∈ full → ∃ older newer, older ∈ l ∧ newer ∈ l ∧ stale_considered q older ∧
       stale_record x = ix_record older ∧ stale_newer_record x = ix_record newer ∧
       (ix_sequence older < ix_sequence newer)%N ∧ tq_min_score q ≤ stale_score x ∧
       (∀ other c, other ∈ l → (ix_sequence older < ix_sequence other)%N →
          stale_candidate q older other = Some c → ranked_before stale_score newer_id x c)) ∧
    (∀ older newer c, older ∈ l → newer ∈ l → stale_considered q older →
       (ix_sequence older < ix_sequence newer)%N → stale_candidate q older newer = Some c →
       ∃ x, x ∈ full ∧ stale_record x = ix_record older) ∧
    Sorted.StronglySorted (λ a b, stale_score b ≤ stale_score a) full.
Proof.
  intros Hs. destruct (records_listing s Hs) as (l & Hix & _).
  exists l. unfold stale_active. rewrite Hix. simpl. eexists. split; [done|]. split; [done|].
  assert (Hcand : ∀ older newer x, stale_candidate q older newer = Some x →
    stale_record x = ix_record older ∧ stale_newer_record x = ix_record newer ∧
    tq_min_score q ≤ stale_score x).
  { intros older newer x. unfold stale_candidate. repeat (case_match; [done|]).
    intros [= <-]. simpl. split; [done|]. split; [done|]. by apply Nat.ltb_ge. }
  split; [|split].
  - intros x Hx. apply elem_of_sort_by, list_elem_of_omap in Hx as (older & Ho & Hx).
    apply stale_of_Some in Hx as [Hcons Hx]. pose proof (best_fold (stale_candidate q older)
      (List.filter (λ newer, (ix_sequence older <? ix_sequence newer)%N) l)) as Hb.
    unfold best_newer in Hx. cbv zeta in Hb. rewrite Hx in Hb.
    destruct Hb as [(newer & Hn & Hc) Hbest].
    apply elem_of_list_filter_bool in Hn as [Hn Hseq%N.ltb_lt].
    destruct (Hcand _ _ _ Hc) as (E1 & E2 & E3). exists older, newer.
    split_and!; try done. intros other c Hother Hlt Hoc.
    eapply Hbest; [|exact Hoc]. apply elem_of_list_filter_bool. split; [done|]. by apply N.ltb_lt.
  - intros older newer c Ho Hn Hcons Hlt Hc. pose proof (best_fold (stale_candidate q older)
      (List.filter (λ newer, (ix_sequence older <? ix_sequence newer)%N) l)) as Hb.
    cbv zeta in Hb. fold (best_newer q l older) in Hb.
    assert (Hnf : newer ∈ List.filter (λ newer, (ix_sequence older <? ix_sequence newer)%N) l).
    { apply elem_of_list_filter_bool. split; [done|]. by apply N.ltb_lt. }
    destruct (best_newer q l older) as [b|] eqn:Eb; [|by rewrite (Hb newer Hnf) in Hc].
    destruct Hb as [(newer' & _ & Hb') _]. exists b. split; [|by apply Hcand in Hb' as [? _]].
    apply elem_of_sort_by, list_elem_of_omap. exists older.
    by rewrite stale_of_considered.
  - eapply StronglySorted_mono; [|apply sort_by_sorted, _].
    intros x y Hxy. unfold cmp_le, cmp_lex, score_desc, cmp_rev, cmp_on in Hxy.
    destruct (Nat.compare_spec (stale_score y) (stale_score x)); simpl in Hxy; try lia; done.
Qed.

(** [quality_review] returns exactly the active memories the query
    selects whose quality score is at most the maximum, with that quality,
    worst first with ties by id, cut to the limit. *)
Theorem quality_review_spec s q :
  reachable s →
  ∃ full, quality_review q s = Ok (truncate_opt (qq_limit q) full) ∧
    (∀ x, x ∈ full ↔
       get (record_id (qm_record x)) s = Ok (qm_record x) ∧
       quality_candidate q (qm_record x) = Some x ∧
       qm_quality x = record_quality (qm_record x) ∧
       quality_score (qm_quality x) ≤ qq_max_score q) ∧
    Sorted.StronglySorted (λ a b, quality_score (qm_quality a) ≤ quality_score (qm_quality b)) full.
Proof.
  intros Hs. destruct (records_listing s Hs) as (l & _ & Hrec & _ & Hget).
  unfold quality_review. rewrite Hrec. simpl. eexists. split; [done|]. split.
  - intros x. rewrite elem_of_sort_by, list_elem_of_omap. split.
    + intros (r & Hr & Hx). apply Hget in Hr. revert Hx. unfold quality_candidate.
      destruct (_ && _) eqn:E1; [|done]. destruct (_ <? _) eqn:E2; [done|].
      intros [= <-]. simpl. rewrite E1, E2. split_and!; try done. by apply Nat.ltb_ge.
    + intros (Hg & Hx & _). exists (qm_record x). split; [by apply Hget|done].
  - eapply StronglySorted_mono; [|apply sort_by_sorted, _].
    intros x y Hxy. unfold cmp_le, cmp_lex, cmp_on in Hxy.
    destruct (Nat.compare_spec (quality_score (qm_quality x)) (quality_score (qm_quality y)));
      simpl in Hxy; try lia; done.
Qed.
End queries.

(** ** The memory repository on a concrete run

    The parameters of the memory development instantiated: ASCII character
    tables, a JSON type with one case per stored type, the in-memory backend and
    a length-based ranking provider.  A run of every repository operation shows
    that the hypotheses of the theorems are met. *)

Definition demo_json : JsonLib := {| Value := MemoryRecord + MemoryAuditEvent; JsonError := () |}.
#[local] Existing Instance ascii_unicode.
#[local] Existing Instance demo_json.

#[local] Instance demo_serde_record : Serde MemoryRecord := {|
  to_value := λ r : MemoryRecord, Ok (inl r : Value);
  from_value := λ v : Value, match v with inl r => Ok r | inr _ => Err () end;
|}.
#[local] Instance demo_serde_event : Serde MemoryAuditEvent := {|
  to_value := λ e : MemoryAuditEvent, Ok (inr e : Value);
  from_value := λ v : Value, match v with inr e => Ok e | inl _ => Err () end;
|}.
#[local] Instance demo_serde_record_laws : SerdeLaws MemoryRecord.
Proof. intros r. by exists (inl r). Qed.
#[local] Instance demo_serde_event_laws : SerdeLaws MemoryAuditEvent.
Proof. intros e. by exists (inr e). Qed.

(** A ranking provider: a document scores the length of its content. *)
Definition demo_ranker : RankingProvider := λ _ documents, Ok (length ∘ rd_content <$> documents).

Definition demo_store : StorageBackedMemoryStore InMemoryStorage :=
  {| ms_scope := scope_global; ms_storage := InMemoryStorage_default; ms_ranker := demo_ranker |}.

Lemma demo_fresh : fresh_store scope_global demo_ranker demo_store.
Proof. repeat split. Qed.

Definition demo_project : ProjectRef := ProjectRef_new (lit "p1") (lit "Project").
Definition demo_source : MemorySource := MemorySource_turn (lit "s1") (lit "t1").
Definition demo_input (id content : str) : MemoryCandidateInput :=
  in_with_tag (lit " build ")
    (MemoryCandidateInput_new id demo_project Convention content demo_source).

Definition demo_ops : list MemoryOp :=
  [ OpCreate (demo_input (lit "m1") (lit "run cargo fmt before committing"));
    OpReview (lit "m1") (Approve (lit "ana"));
    OpCreate (demo_input (lit "m2") (lit "run cargo fmt before committing code"));
    OpEdit (lit "m2") (MemoryEdit_replace_content (lit "ana") (lit "run cargo fmt before committing now"));
    OpAddEvidence (lit "m1") (MemoryEvidence_new EFile (lit "a.rs")) (lit "ana") None;
    OpSplit (lit "m1") (MemorySplit_new (lit "ana") (lit "m3") (lit "use rustfmt defaults")) ].

Definition demo_final : StorageBackedMemoryStore InMemoryStorage :=
  (run_ops store_step demo_ops demo_store).2.

Lemma demo_reachable : reachable scope_global demo_ranker demo_final.
Proof. exists demo_store, demo_ops. split; [apply demo_fresh|done]. Qed.

(** All six operations of the run succeed. *)
Example demo_results : forallb is_ok (run_ops store_step demo_ops demo_store).1 = true.
Proof. vm_compute. reflexivity. Qed.

Definition demo_record (id : str) : MemoryRecord :=
  match get id demo_final with
  | Ok r => r
  | Err _ => MemoryRecord_new (MemoryEntry_new [] demo_project Convention [])
  end.

Lemma store_refines_spec_witness :
  (run_ops store_step demo_ops demo_store).1 = (run_ops spec_step demo_ops empty_state).1 ∧
  records (run_ops store_step demo_ops demo_store).2 =
    Ok (spec_records (run_ops spec_step demo_ops empty_state).2).
Proof.
  pose proof (store_refines_spec scope_global demo_ranker demo_ops demo_store demo_fresh) as Hw.
  destruct (run_ops store_step demo_ops demo_store), (run_ops spec_step demo_ops empty_state).
  destruct Hw as (Hr & _ & _ & Hl). split; [exact Hr|exact Hl].
Defined.

Lemma audit_log_reconstructs_witness :
  ∃ evs, audit_log (lit "m2") demo_final = Ok evs ∧
    replay_trail evs = Some (Candidate, lit "run cargo fmt before committing now").
Proof.
  destruct (audit_log_reconstructs scope_global demo_ranker demo_final (lit "m2")
    (demo_record (lit "m2")) demo_reachable ltac:(vm_compute; reflexivity)) as (evs & Hl & Hr & _).
  exists evs. split; [exact Hl|]. rewrite Hr. vm_compute. reflexivity.
Defined.

Lemma memories_evolve_witness :
  ∃ r', get (lit "m1") (run_ops store_step
          [OpMerge (lit "m2") (lit "m1") (MemoryMerge_new (lit "ana"))] demo_final).2 = Ok r' ∧
    evolves (record_entry (demo_record (lit "m1"))) (record_entry r').
Proof.
  destruct (memories_evolve scope_global demo_ranker demo_final (lit "m1")
    (demo_record (lit "m1")) [OpMerge (lit "m2") (lit "m1") (MemoryMerge_new (lit "ana"))]
    demo_reachable ltac:(vm_compute; reflexivity)) as (r' & Hg & He & _).
  exact (ex_intro _ r' (conj Hg He)).
Defined.

Lemma failed_operations_change_nothing_witness :
  (store_step (OpReview (lit "m1") (Approve (lit "bo"))) demo_final).2 = demo_final.
Proof.
  apply (failed_operations_change_nothing scope_global demo_ranker demo_final
    (OpReview (lit "m1") (Approve (lit "bo"))) (InvalidTransition Approved Approved) demo_reachable).
  vm_compute. reflexivity.
Defined.

Lemma revisions_end_at_current_witness :
  ∃ revs, revisions (lit "m2") demo_final = Ok revs ∧
    rev_content <$> last revs = Some (lit "run cargo fmt before committing now").
Proof.
  destruct (revisions_end_at_current scope_global demo_ranker demo_final (lit "m2")
    (demo_record (lit "m2")) demo_reachable ltac:(vm_compute; reflexivity))
    as (evs & revs & _ & Hr & Hc & _).
  exists revs. split; [exact Hr|]. rewrite Hc. vm_compute. reflexivity.
Defined.

(** ** Queries *)

Definition demo_query : MemoryQuery :=
  mq_with_limit 5 (mq_with_text (lit "CARGO") (MemoryQuery_new demo_project)).

Lemma list_exact_witness :
  ∃ full, list_memories (MemoryListFilter_new demo_project) demo_final = Ok full ∧
    (∀ r, r ∈ full ↔ get (record_id r) demo_final = Ok r ∧
       list_accepts (MemoryListFilter_new demo_project) r = true).
Proof.
  destruct (list_exact scope_global demo_ranker demo_final (MemoryListFilter_new demo_project)
    demo_reachable) as (full & Hl & Hin & _).
  exact (ex_intro _ full (conj Hl Hin)).
Defined.

Lemma retrieve_exact_witness :
  ∃ full, retrieve demo_query demo_final = Ok (truncate_opt (Some 5) full) ∧
    ∀ x, x ∈ full ↔ rt_reason x = lit "matched text CARGO" ∧
      get (record_id (rt_record x)) demo_final = Ok (rt_record x) ∧
      retrieve_accepts demo_query (rt_record x) = true.
Proof.
  destruct (retrieve_exact scope_global demo_ranker demo_final demo_query demo_reachable)
    as (full & Hl & Hin & _).
  exists full. split; [exact Hl|exact Hin].
Defined.

Definition demo_retrieved : RetrievedMemory :=
  {| rt_record := demo_record (lit "m1"); rt_reason := lit "matched text CARGO" |}.

(** The run's only approved memory is retrieved, through its approval. *)
Lemma retrieve_review_gate_witness :
  retrieve demo_query demo_final = Ok [demo_retrieved] ∧
  ∃ evs ev, audit_log (lit "m1") demo_final = Ok evs ∧ ev ∈ evs ∧ ev_action ev = ActionApproved.
Proof.
  assert (Hq : retrieve demo_query demo_final = Ok [demo_retrieved])
    by (vm_compute; reflexivity).
  split; [exact Hq|].
  destruct (retrieve_review_gate scope_global demo_ranker demo_final demo_query [demo_retrieved]
    demo_retrieved demo_reachable Hq ltac:(left)) as (_ & _ & _ & Hev).
  assert (Hid : entry_id (record_entry (rt_record demo_retrieved)) = lit "m1")
    by (vm_compute; reflexivity).
  rewrite Hid in Hev. exact Hev.
Defined.

Lemma retrieve_ranked_spec_witness :
  ∃ l, records demo_final = Ok l ∧
    let filtered := List.filter
      (ranked_accepts (MemoryRetrievalQuery_new demo_project (lit "cargo"))) l in
    ∃ full, retrieve_ranked (MemoryRetrievalQuery_new demo_project (lit "cargo")) demo_final
              = Ok full ∧
      ∀ x, x ∈ full ↔ 1 ≤ rk_score x ∧ ∃ i, filtered !! i = Some (rk_record x) ∧
        (length ∘ rd_content <$>
           ranking_documents (MemoryRetrievalQuery_new demo_project (lit "cargo")) l) !! i
        = Some (rk_score x).
Proof.
  destruct (retrieve_ranked_spec scope_global demo_ranker demo_final
    (MemoryRetrievalQuery_new demo_project (lit "cargo")) demo_reachable) as (l & Hl & Hspec).
  exists l. split; [exact Hl|]. destruct Hspec as [_ Hspec].
  destruct Hspec as (full & Hr & Hin & _).
  - unfold ranking_documents. rewrite !length_fmap. reflexivity.
  - exact (ex_intro _ full (conj Hr Hin)).
Defined.

Lemma similar_active_spec_witness :
  ∃ full, similar_active (sq_with_min_score 40 (MemorySimilarityQuery_new demo_project Convention
              (lit "run cargo fmt before committing"))) demo_final = Ok full ∧
    length full = 2.
Proof.
  destruct (similar_active_spec scope_global demo_ranker demo_final
    (sq_with_min_score 40 (MemorySimilarityQuery_new demo_project Convention
       (lit "run cargo fmt before committing"))) demo_reachable) as (full & Hl & _).
  exists full. split; [exact Hl|].
  assert (Hc : length <$> match similar_active (sq_with_min_score 40
      (MemorySimilarityQuery_new demo_project Convention
         (lit "run cargo fmt before committing"))) demo_final with
      | Ok l => Some l | Err _ => None end = Some 2) by (vm_compute; reflexivity).
  rewrite Hl in Hc. injection Hc as Hc. exact Hc.
Defined.

Lemma stale_active_spec_witness :
  ∃ l full, indexed_records demo_final = Ok l ∧
    stale_active (tq_with_min_score 40 (MemoryStalenessQuery_new demo_project)) demo_final
      = Ok full ∧
    Sorted.StronglySorted (λ a b, stale_score b ≤ stale_score a) full.
Proof.
  destruct (stale_active_spec scope_global demo_ranker demo_final
    (tq_with_min_score 40 (MemoryStalenessQuery_new demo_project)) demo_reachable)
    as (l & full & Hl & Hf & _ & _ & Hs).
  exists l, full. split; [exact Hl|]. split; [exact Hf|exact Hs].
Defined.

(** In the run, [m1] is stale: [m2] was created later and is similar. *)
Example demo_stale :
  match stale_active (tq_with_min_score 40 (MemoryStalenessQuery_new demo_project)) demo_final with
  | Ok [x] => (stale_id x, newer_id x) = (lit "m1", lit "m2")
  | _ => False
  end.
Proof. vm_compute. reflexivity. Qed.

Lemma quality_review_spec_witness :
  ∃ full, quality_review (MemoryQualityQuery_new demo_project) demo_final = Ok full ∧
    Sorted.StronglySorted (λ a b, quality_score (qm_quality a) ≤ quality_score (qm_quality b)) full.
Proof.
  destruct (quality_review_spec scope_global demo_ranker demo_final
    (MemoryQualityQuery_new demo_project) demo_reachable) as (full & Hl & _ & Hs).
  exact (ex_intro _ full (conj Hl Hs)).
Defined.
