(* ===== verification/Curator.v ===== *)
(** * Consolidation planning ([codel00p-memory/src/curator.rs])

    The curator groups records by kind, links near-duplicates with a union-find
    forest and plans one consolidation per cluster. The forest is the source's
    parent vector; an out-of-range index (a panic) is [None]. A record index is
    carried together with the record it selects: [records] is never written. *)

From stdpp Require Import base numbers strings gmap list relations.
From S2P Require Import Prelude RustStr Protocol TextSim MemoryTypes.

(** ** The union-find forest *)

(** [find]: follow the parents, halving the path. The fuel is the number of
    loop iterations allowed. *)
Fixpoint find_fuel (fuel : nat) (parent : list nat) (node : nat) : option (list nat * nat) :=
  match fuel with
  | 0 => None
  | S fuel =>
      p ← parent !! node;
      if p =? node then Some (parent, node)
      else g ← parent !! p; find_fuel fuel (<[node := g]> parent) g
  end.

(** A node's chain of parents decreases, so [S node] iterations are enough
    ([find_spec]). *)
Definition uf_find (parent : list nat) (node : nat) : option (list nat * nat) :=
  find_fuel (S node) parent node.

Definition uf_union (parent : list nat) (left right : nat) : option (list nat) :=
  '(parent, left_root) ← uf_find parent left;
  '(parent, right_root) ← uf_find parent right;
  if left_root =? right_root then Some parent
  else if left_root <? right_root then Some (<[right_root := left_root]> parent)
  else Some (<[left_root := right_root]> parent).

(** Every parent is at most its node: [union] attaches the higher root under
    the lower one. *)
Definition forest (parent : list nat) : Prop :=
  ∀ i p, parent !! i = Some p → p ≤ i.

Inductive Root (parent : list nat) : nat → nat → Prop :=
| root_here i : parent !! i = Some i → Root parent i i
| root_up i p r : parent !! i = Some p → p ≠ i → Root parent p r → Root parent i r.

Definition same_root (parent : list nat) (i j : nat) : Prop :=
  ∃ r, Root parent i r ∧ Root parent j r.

Lemma Root_det parent i r r' : Root parent i r → Root parent i r' → r = r'.
Proof.
  intros H. revert r'. induction H as [i Hi|i p r Hi Hne Hr IH]; inversion 1; simplify_eq; auto.
Qed.

Lemma Root_total parent i : forest parent → i < length parent → ∃ r, Root parent i r.
Proof.
  intros Hf. induction i as [i IH] using lt_wf_ind. intros Hi.
  destruct (lookup_lt_is_Some_2 parent i Hi) as [p Hp].
  destruct (decide (p = i)) as [->|Hne]; [exists i; by constructor|].
  pose proof (Hf _ _ Hp). destruct (IH p) as [r Hr]; [lia..|].
  exists r. by eapply root_up.
Qed.

Lemma Root_root parent i r : Root parent i r → parent !! r = Some r.
Proof. by induction 1. Qed.

Lemma Root_le parent i r : forest parent → Root parent i r → r ≤ i.
Proof. intros Hf. induction 1 as [|i p r Hi _ _ IH]; [done|]. apply Hf in Hi. lia. Qed.

Lemma Root_lt parent i r : Root parent i r → i < length parent.
Proof. destruct 1; by eapply lookup_lt_Some. Qed.

(** Two forests of one length with the same roots one way have them both ways. *)
Lemma Root_iff parent parent' :
  forest parent → length parent' = length parent →
  (∀ i r, Root parent i r → Root parent' i r) → ∀ i r, Root parent i r ↔ Root parent' i r.
Proof.
  intros Hf Hlen H i r. split; [apply H|]. intros Hr.
  destruct (Root_total parent i) as [r' Hr']; [done|apply Root_lt in Hr; congruence|].
  by rewrite (Root_det _ _ _ _ Hr (H _ _ Hr')).
Qed.

(** Halving a path moves no root. *)
Lemma halve_Root parent node p g :
  forest parent → parent !! node = Some p → p ≠ node → parent !! p = Some g →
  forest (<[node := g]> parent) ∧ ∀ i r, Root parent i r ↔ Root (<[node := g]> parent) i r.
Proof.
  intros Hf Hp Hne Hg. pose proof (Hf _ _ Hp). pose proof (Hf _ _ Hg). split.
  - intros i q. rewrite list_lookup_insert_Some. intros [(<- & <- & _)|[_ ?]]; [lia|by apply Hf].
  - apply Root_iff; [done|apply length_insert|].
    intros i. induction i as [i IH] using lt_wf_ind. intros r Hr.
    destruct (decide (i = node)) as [->|Hi].
    + apply (root_up _ _ g); [apply list_lookup_insert_eq; by eapply lookup_lt_Some|lia|].
      apply IH; [lia|]. inversion Hr; simplify_eq.
      match goal with H : Root parent p r |- _ => inversion H; simplify_eq; [by constructor|done] end.
    + inversion Hr; simplify_eq.
      * constructor. by rewrite list_lookup_insert_ne.
      * eapply root_up; [by rewrite list_lookup_insert_ne|done|]. apply IH; [|done].
        match goal with H : parent !! i = Some _ |- _ => apply Hf in H end. lia.
Qed.

Lemma find_fuel_spec fuel parent node :
  forest parent → node < length parent → node < fuel →
  ∃ parent' r, find_fuel fuel parent node = Some (parent', r) ∧ forest parent' ∧
    length parent' = length parent ∧ Root parent node r ∧
    ∀ i r, Root parent i r ↔ Root parent' i r.
Proof.
  revert parent node. induction fuel as [|fuel IH]; intros parent node Hf Hn Hfu; [lia|].
  cbn [find_fuel]. destruct (lookup_lt_is_Some_2 parent node Hn) as [p Hp]. rewrite Hp. simpl.
  destruct (Nat.eqb_spec p node) as [->|Hne].
  { exists parent, node. repeat split; auto. by constructor. }
  pose proof (Hf _ _ Hp).
  destruct (lookup_lt_is_Some_2 parent p) as [g Hg]; [lia|]. rewrite Hg. simpl.
  pose proof (Hf _ _ Hg). destruct (halve_Root parent node p g) as [Hf' Hr']; [done..|].
  destruct (IH (<[node := g]> parent) g) as (parent' & r & -> & Hf'' & Hlen & Hr & Hiff);
    [done|rewrite length_insert; lia|lia|].
  exists parent', r. split_and!; [done|done|by rewrite Hlen, length_insert| |].
  - apply Hr'. apply (root_up _ _ g); [by apply list_lookup_insert_eq|lia|done].
  - intros i r0. by rewrite Hr'.
Qed.

Lemma find_spec parent node :
  forest parent → node < length parent →
  ∃ parent' r, uf_find parent node = Some (parent', r) ∧ forest parent' ∧
    length parent' = length parent ∧ Root parent node r ∧
    ∀ i r, Root parent i r ↔ Root parent' i r.
Proof. intros Hf Hn. apply find_fuel_spec; [done..|lia]. Qed.

(** Attaching the root [b] under the lower root [a]. *)
Lemma attach_Root parent a b :
  forest parent → parent !! a = Some a → parent !! b = Some b → a < b →
  forest (<[b := a]> parent) ∧
  ∀ i r, Root (<[b := a]> parent) i r ↔ ∃ r0, Root parent i r0 ∧ r = if r0 =? b then a else r0.
Proof.
  intros Hf Ha Hb Hlt.
  assert (Hf' : forest (<[b := a]> parent)).
  { intros i q. rewrite list_lookup_insert_Some. intros [(<- & <- & _)|[_ ?]]; [lia|by apply Hf]. }
  assert (Hfwd : ∀ i r0, Root parent i r0 → Root (<[b := a]> parent) i (if r0 =? b then a else r0)).
  { induction 1 as [i Hi|i p r0 Hi Hne Hr IH].
    - destruct (Nat.eqb_spec i b) as [->|Hib].
      + apply (root_up _ _ a); [apply list_lookup_insert_eq; by eapply lookup_lt_Some|lia|].
        constructor. rewrite list_lookup_insert_ne by lia. done.
      + constructor. by rewrite list_lookup_insert_ne.
    - apply (root_up _ _ p); [|exact Hne|exact IH].
      rewrite list_lookup_insert_ne; [done|]. intros ->. congruence. }
  split; [done|]. intros i r. split; [|intros (r0 & Hr0 & ->); by apply Hfwd].
  intros Hr. destruct (Root_total parent i) as [r0 Hr0];
    [done|apply Root_lt in Hr; by rewrite length_insert in Hr|].
  exists r0. split; [done|]. eapply Root_det; [exact Hr|by apply Hfwd].
Qed.

#[export] Instance same_root_sym parent : Symmetric (same_root parent).
Proof. intros i j (r & ? & ?). by exists r. Qed.
#[export] Instance same_root_trans parent : Transitive (same_root parent).
Proof. intros i j k (r & ? & Hj) (r' & Hj' & ?). exists r. by pose proof (Root_det _ _ _ _ Hj Hj') as <-. Qed.

Lemma same_root_refl parent i : forest parent → i < length parent → same_root parent i i.
Proof. intros Hf Hi. destruct (Root_total parent i Hf Hi) as [r Hr]. by exists r. Qed.

Lemma same_root_iff parent parent' :
  (∀ i r, Root parent i r ↔ Root parent' i r) →
  ∀ i j, same_root parent i j ↔ same_root parent' i j.
Proof. intros H i j. unfold same_root. by setoid_rewrite H. Qed.

(** Joining two classes. *)
Definition joined (R : relation nat) (l r i j : nat) : Prop :=
  R i j ∨ (R i l ∧ R r j) ∨ (R i r ∧ R l j).

Lemma attach_same_root parent a b i j :
  forest parent → parent !! a = Some a → parent !! b = Some b → a < b →
  same_root (<[b := a]> parent) i j ↔ joined (same_root parent) a b i j.
Proof.
  intros Hf Ha Hb Hlt. destruct (attach_Root parent a b) as [_ Hr]; [done..|].
  assert (Hra : Root parent a a) by by constructor.
  assert (Hrb : Root parent b b) by by constructor.
  unfold same_root, joined. setoid_rewrite Hr. split.
  - intros (r & (r1 & H1 & ->) & (r2 & H2 & Heq)).
    destruct (Nat.eqb_spec r1 b), (Nat.eqb_spec r2 b); subst; eauto 10.
  - intros [(r & H1 & H2)|[[(r & H1 & H2) (r' & H3 & H4)]|[(r & H1 & H2) (r' & H3 & H4)]]]; [eauto 10|..];
      repeat match goal with
      | H : Root parent a ?r |- _ => pose proof (Root_det _ _ _ _ H Hra); clear H
      | H : Root parent b ?r |- _ => pose proof (Root_det _ _ _ _ H Hrb); clear H
      end; subst; exists a; split; eexists; (split; [eassumption|]);
      repeat case_match; rewrite ?Nat.eqb_eq, ?Nat.eqb_neq in *; lia.
Qed.

Section joined.
Context (R : relation nat) `{!Symmetric R} `{!Transitive R}.

Lemma joined_comm l r i j : joined R l r i j ↔ joined R r l i j.
Proof. unfold joined. tauto. Qed.

Lemma joined_same l r i j : R l r → joined R l r i j ↔ R i j.
Proof.
  intros Hlr. unfold joined. split; [|by left].
  intros [?|[[? ?]|[? ?]]]; [done| |].
  - etrans; [eassumption|]. by etrans.
  - etrans; [eassumption|]. etrans; [symmetry; exact Hlr|done].
Qed.

Lemma joined_move l r a b i j : R l a → R r b → joined R a b i j ↔ joined R l r i j.
Proof.
  intros Hl Hr. unfold joined.
  assert (Hmove : ∀ x y z, R x y → (R z x ↔ R z y) ∧ (R x z ↔ R y z)).
  { intros x y z Hxy. repeat split; intros Hz.
    - by etrans.
    - etrans; [exact Hz|by symmetry].
    - etrans; [symmetry; exact Hxy|exact Hz].
    - by etrans. }
  destruct (Hmove l a i Hl) as [-> _], (Hmove l a j Hl) as [_ ->].
  destruct (Hmove r b i Hr) as [-> _], (Hmove r b j Hr) as [_ ->]. done.
Qed.
End joined.

Lemma union_spec parent left right :
  forest parent → left < length parent → right < length parent →
  ∃ parent', uf_union parent left right = Some parent' ∧ forest parent' ∧
    length parent' = length parent ∧
    ∀ i j, same_root parent' i j ↔ joined (same_root parent) left right i j.
Proof.
  intros Hf Hl Hr. unfold uf_union.
  destruct (find_spec parent left Hf Hl) as (p1 & lr & -> & Hf1 & Hlen1 & Hlr & Hi1). simpl.
  destruct (find_spec p1 right) as (p2 & rr & -> & Hf2 & Hlen2 & Hrr & Hi2); [done|congruence|]. simpl.
  assert (Hsame : ∀ i j, same_root parent i j ↔ same_root p2 i j).
  { intros i j. rewrite (same_root_iff parent p1), (same_root_iff p1 p2); done. }
  assert (Hlr2 : same_root p2 left lr).
  { apply Hi1, Hi2 in Hlr. exists lr. split; [done|]. by constructor; eapply Root_root. }
  assert (Hrr2 : same_root p2 right rr).
  { apply Hi2 in Hrr. exists rr. split; [done|]. by constructor; eapply Root_root. }
  assert (Hjoin : ∀ i j, joined (same_root parent) left right i j ↔ joined (same_root p2) lr rr i j).
  { intros i j. rewrite (joined_move _ left right lr rr) by done. unfold joined. by rewrite !Hsame. }
  assert (p2 !! lr = Some lr) by (apply Hi1, Hi2 in Hlr; by eapply Root_root).
  assert (p2 !! rr = Some rr) by (apply Hi2 in Hrr; by eapply Root_root).
  destruct (Nat.eqb_spec lr rr) as [->|Hne].
  - exists p2. split_and!; [done|done|congruence|]. intros i j.
    rewrite Hjoin, joined_same; [done|apply _..|]. apply same_root_refl; [done|by eapply lookup_lt_Some].
  - destruct (Nat.ltb_spec lr rr) as [Hlt|Hge]; eexists; (split; [done|]).
    + destruct (attach_Root p2 lr rr) as [Hf3 _]; [done..|].
      split_and!; [done|rewrite length_insert; congruence|]. intros i j.
      by rewrite Hjoin, attach_same_root.
    + destruct (attach_Root p2 rr lr) as [Hf3 _]; [done..|lia|].
      split_and!; [done|rewrite length_insert; congruence|]. intros i j.
      rewrite Hjoin, attach_same_root, joined_comm; [done..|lia].
Qed.

(** ** Clustering by similarity of texts *)

Section cluster.
Context `{Unicode} {A : Type} (text : A → str).

(** [for left in 0..count { for right in (left + 1)..count { .. } }]. *)
Definition loop_pairs (count : nat) : list (nat * nat) :=
  concat ((λ left, pair left <$> seq (S left) (count - S left)) <$> seq 0 count).

Definition link_similar (threshold : nat) (indices : list A) : option (list nat) :=
  fold_opt (λ parent '(lpos, rpos),
      l ← indices !! lpos;
      r ← indices !! rpos;
      if threshold <=? shingle_similarity (text l) (text r)
      then uf_union parent lpos rpos else Some parent)
    (seq 0 (length indices)) (loop_pairs (length indices)).

Definition group_by_root (parent : list nat) (indices : list A)
    : option (list nat * list (nat * list A)) :=
  fold_opt (λ '(parent, clusters) '(position, record_index),
      '(parent, root) ← uf_find parent position;
      Some (parent, btree_push Nat.compare root record_index clusters))
    (parent, []) (imap pair indices).

Definition clusters_of (threshold : nat) (indices : list A) : option (list (list A)) :=
  parent ← link_similar threshold indices;
  '(_, clusters) ← group_by_root parent indices;
  Some clusters.*2.

(** ** The clusters are the connected components of near-duplicates *)

Definition similar (threshold : nat) (a b : A) : Prop :=
  threshold ≤ shingle_similarity (text a) (text b).

Lemma similar_sym threshold a b : similar threshold a b → similar threshold b a.
Proof. unfold similar. by rewrite similarity_sym. Qed.

Lemma elem_of_loop_pairs n l r : (l, r) ∈ loop_pairs n ↔ l < r < n.
Proof.
  unfold loop_pairs. rewrite list_elem_of_In, List.in_concat. split.
  - intros (ps & (k & <- & Hk%list_elem_of_In)%List.in_map_iff & Hps%list_elem_of_In).
    apply list_elem_of_fmap in Hps as (j & [= -> ->] & Hj).
    rewrite elem_of_seq in Hk, Hj. lia.
  - intros [Hlr Hr]. exists (pair l <$> seq (S l) (n - S l)). split.
    + apply List.in_map_iff. exists l. split; [done|]. apply list_elem_of_In, elem_of_seq. lia.
    + apply list_elem_of_In, list_elem_of_fmap. exists r. split; [done|]. apply elem_of_seq. lia.
Qed.

Definition linked (threshold : nat) (indices : list A) (ps : list (nat * nat))
    (i j : nat) : Prop :=
  (i, j) ∈ ps ∧ ∃ l r, indices !! i = Some l ∧ indices !! j = Some r ∧ similar threshold l r.

Lemma seq_forest n : forest (seq 0 n) ∧ ∀ i j, i < n → same_root (seq 0 n) i j ↔ i = j.
Proof.
  assert (Hroot : ∀ i r, Root (seq 0 n) i r → i = r).
  { destruct 1 as [|i p r Hi Hne _]; [done|]. apply lookup_seq in Hi. lia. }
  split; [intros i p Hi%lookup_seq; lia|]. intros i j Hi. split.
  - intros (r & Hr1%Hroot & Hr2%Hroot). congruence.
  - intros <-. exists i. split; constructor; apply lookup_seq; lia.
Qed.

Lemma rtsc_empty {X} (R : relation X) i j : (∀ a b, ¬ R a b) → rtsc R i j → i = j.
Proof. intros HR. induction 1 as [|x y z [Hxy|Hxy]]; [done|by apply HR in Hxy..]. Qed.

(** Adding one edge joins its endpoints' classes. *)
Lemma rtsc_joined (R R' : relation nat) l r i j :
  (∀ a b, R' a b ↔ R a b ∨ (a = l ∧ b = r)) → rtsc R' i j ↔ joined (rtsc R) l r i j.
Proof.
  intros HR. unfold joined. split.
  - induction 1 as [x|x y z Hxy Hyz IH]; [left; apply rtc_refl|].
    destruct Hxy as [[Hxy|[-> ->]]%HR|[Hxy|[-> ->]]%HR].
    + assert (rtsc R x y) by (apply rtc_once; by left).
      destruct IH as [?|[[? ?]|[? ?]]]; [left|right; left|right; right]; try split; try done; by etrans.
    + destruct IH as [?|[[? ?]|[? ?]]]; [right; left|right; left|left]; try split; try done; apply rtc_refl.
    + assert (rtsc R x y) by (apply rtc_once; by right).
      destruct IH as [?|[[? ?]|[? ?]]]; [left|right; left|right; right]; try split; try done; by etrans.
    + destruct IH as [?|[[? ?]|[? ?]]]; [right; right|left|right; right]; try split; try done; apply rtc_refl.
  - assert (Hmono : ∀ a b, rtsc R a b → rtsc R' a b).
    { intros a b. apply rtc_subrel. intros x y [?|?]; [left|right]; apply HR; by left. }
    assert (Hlr : rtsc R' l r) by (apply rtc_once; left; apply HR; by right).
    intros [?|[[? ?]|[? ?]]]; [auto| |].
    + etrans; [by apply Hmono|]. etrans; [exact Hlr|by apply Hmono].
    + etrans; [by apply Hmono|]. etrans; [symmetry; exact Hlr|by apply Hmono].
Qed.

Lemma link_similar_spec threshold indices :
  ∃ parent, link_similar threshold indices = Some parent ∧ forest parent ∧
    length parent = length indices ∧
    ∀ i j, i < length indices →
      same_root parent i j ↔
      rtsc (linked threshold indices (loop_pairs (length indices))) i j.
Proof.
  unfold link_similar. set (n := length indices).
  apply (fold_opt_ind (λ done parent, forest parent ∧ length parent = n ∧
    ∀ i j, i < n → same_root parent i j ↔ rtsc (linked threshold indices done) i j)).
  { destruct (seq_forest n) as [Hf Hs]. split_and!; [done|apply length_seq|].
    intros i j Hi. rewrite Hs by done. split; [intros ->; apply rtc_refl|].
    apply rtsc_empty. intros a b [Hab _]. by apply elem_of_nil in Hab. }
  intros done [l r] todo parent Hl (Hf & Hlen & Hinv).
  assert (Hlr : l < r < n).
  { apply elem_of_loop_pairs. rewrite Hl. set_solver. }
  destruct (lookup_lt_is_Some_2 indices l) as [x Hx]; [lia|].
  destruct (lookup_lt_is_Some_2 indices r) as [y Hy]; [lia|].
  rewrite Hx, Hy. simpl. destruct (Nat.leb_spec threshold (shingle_similarity (text x) (text y))).
  - destruct (union_spec parent l r) as (parent' & -> & Hf' & Hlen' & Hs); [done|lia..|].
    exists parent'. split_and!; [done|done|congruence|]. intros i j Hi.
    rewrite Hs, (rtsc_joined (linked threshold indices done)).
    + unfold joined. rewrite !Hinv by lia. done.
    + intros a b. unfold linked. rewrite elem_of_app, list_elem_of_singleton. naive_solver.
  - exists parent. split_and!; [done..|]. intros i j Hi. rewrite Hinv by done.
    assert (Hiff : ∀ a b, linked threshold indices done a b ↔
                           linked threshold indices (done ++ [(l, r)]) a b).
    { intros a b. unfold linked. rewrite elem_of_app, list_elem_of_singleton.
      split; [naive_solver|]. intros [[?|[= -> ->]] (x' & y' & ? & ? & Hsim)]; [eauto 10|].
      simplify_eq. unfold similar in Hsim. lia. }
    split; apply rtc_subrel; intros a b [?|?]; [left|right|left|right]; by apply Hiff.
Qed.

Lemma group_by_root_spec parent indices :
  forest parent → length parent = length indices →
  ∃ parent' l, group_by_root parent indices = Some (parent', btree_group Nat.compare l) ∧
    l.*2 = indices ∧ ∀ i r x, l !! i = Some (r, x) → Root parent i r.
Proof.
  intros Hf Hlen. unfold group_by_root.
  destruct (fold_opt_ind (λ done '(p, cl), forest p ∧ length p = length indices ∧
      (∀ i r, Root parent i r ↔ Root p i r) ∧
      ∃ l, cl = btree_group Nat.compare l ∧ l.*2 = done.*2 ∧
        ∀ i r x, l !! i = Some (r, x) → Root parent i r)
    (λ '(parent, clusters) '(position, record_index),
      '(parent, root) ← uf_find parent position;
      Some (parent, btree_push Nat.compare root record_index clusters))
    (imap pair indices) (parent, [])) as ([p cl] & Hfold & _ & _ & _ & l & -> & Hl & HR).
  - split_and!; [done..|]. by exists [].
  - intros done [pos x] todo [p cl] Hd (Hfp & Hlp & Hiff & l & -> & Hl & HR).
    assert (Hpos : indices !! pos = Some x ∧ pos = length done).
    { assert (Hp : imap pair indices !! length done = Some (pos, x))
        by by rewrite Hd, list_lookup_middle.
      rewrite list_lookup_imap in Hp.
      destruct (indices !! length done) eqn:Hi; naive_solver. }
    destruct Hpos as [Hx ->].
    destruct (find_spec p (length done)) as (p' & root & -> & Hf' & Hl' & Hr & Hiff');
      [done|rewrite Hlp; by eapply lookup_lt_Some|]. simpl.
    eexists (p', _). split; [done|]. split_and!; [done|congruence|intros; by rewrite Hiff|].
    exists (l ++ [(root, x)]). rewrite btree_group_snoc. split_and!; [done|by rewrite !fmap_app, Hl|].
    intros i r y [Hi|[-> Hi]]%lookup_snoc_Some; [destruct Hi; by eapply HR|].
    simplify_eq. apply Hiff. replace (length l) with (length done); [done|].
    by rewrite <- (length_fmap snd l), Hl, length_fmap.
  - exists p, l. split_and!; [done| |done]. rewrite Hl.
    apply list_eq. intros i. rewrite list_lookup_fmap, list_lookup_imap.
    by destruct (indices !! i).
Qed.

(** One step between two of the given records that are near-duplicates. *)
Definition near (threshold : nat) (L : list A) (a b : A) : Prop :=
  a ∈ L ∧ b ∈ L ∧ similar threshold a b.

Lemma near_sym threshold L : Symmetric (near threshold L).
Proof. intros a b (? & ? & ?). split_and!; [done..|by apply similar_sym]. Qed.

Lemma linked_near threshold L p q x y :
  NoDup L → L !! p = Some x → L !! q = Some y →
  rtsc (linked threshold L (loop_pairs (length L))) p q ↔ rtc (near threshold L) x y.
Proof.
  intros Hnd Hp Hq. split.
  - intros Hr. revert x Hp. induction Hr as [p|p k q Hpk _ IH]; intros x Hp; [by simplify_eq|].
    assert (∃ z, L !! k = Some z ∧ similar threshold x z) as (z & Hz & Hs).
    { destruct Hpk as [(_ & l & r & ? & ? & ?)|(_ & l & r & ? & ? & ?)]; simplify_eq; [eauto|].
      eauto using similar_sym. }
    apply (rtc_l _ x z); [|by apply IH]. split_and!; [by eapply list_elem_of_lookup_2..|done].
  - intros Hr. revert p Hp. induction Hr as [x|x z y (Hx & Hz & Hs) _ IH]; intros p Hp.
    + rewrite (NoDup_lookup L p q x) by done. apply rtc_refl.
    + apply list_elem_of_lookup in Hz as [k Hk]. etrans; [|apply IH; done].
      destruct (lt_eq_lt_dec p k) as [[Hlt|<-]|Hlt]; [| apply rtc_refl |]; apply rtc_once.
      * left. split; [|by eauto]. apply elem_of_loop_pairs. split; [done|by eapply lookup_lt_Some].
      * right. split; [|exists z, x; by eauto using similar_sym].
        apply elem_of_loop_pairs. split; [done|by eapply lookup_lt_Some].
Qed.

Lemma near_perm threshold L L' : L ≡ₚ L' → ∀ a b, near threshold L a b ↔ near threshold L' a b.
Proof. intros HL a b. unfold near. by rewrite HL. Qed.

Lemma clusters_of_spec threshold L indices :
  NoDup indices → L ≡ₚ indices →
  ∃ clusters, clusters_of threshold L = Some clusters ∧ concat clusters ≡ₚ indices ∧
    ∀ members x, members ∈ clusters → x ∈ members →
      ∀ y, y ∈ members ↔ y ∈ indices ∧ rtc (near threshold indices) x y.
Proof.
  intros Hnd HL. unfold clusters_of.
  assert (HndL : NoDup L) by by rewrite HL.
  destruct (link_similar_spec threshold L) as (parent & -> & Hf & Hlen & Hsame). simpl.
  destruct (group_by_root_spec parent L Hf Hlen) as (parent' & l & -> & Hl & HR). simpl.
  exists (btree_group Nat.compare l).*2.
  split_and!; [done|by rewrite btree_group_perm, Hl|].
  assert (Hin : ∀ r x, (r, x) ∈ l ↔ ∃ i, L !! i = Some x ∧ Root parent i r).
  { intros r x. rewrite list_elem_of_lookup. split.
    - intros [i Hi]. exists i. split; [by rewrite <- Hl, list_lookup_fmap, Hi|by eapply HR].
    - intros (i & Hi & Hr). exists i. rewrite <- Hl, list_lookup_fmap in Hi.
      destruct (l !! i) as [[r' x']|] eqn:Hli; simplify_eq/=.
      by rewrite (Root_det _ _ _ _ Hr (HR _ _ _ Hli)). }
  intros members x Hms Hx y. apply list_elem_of_fmap in Hms as ([r ms] & -> & Hms).
  apply (elem_of_btree_group Nat.compare) in Hms as [-> _]. simpl in *.
  assert (Hmem : ∀ z, z ∈ (filter (λ kv, kv.1 = r) l).*2 ↔ (r, z) ∈ l).
  { intros z. rewrite list_elem_of_fmap. setoid_rewrite list_elem_of_filter. split.
    - intros ([r' z'] & -> & [Hr' ?]). simpl in *. by subst.
    - intros Hz. by exists (r, z). }
  apply Hmem, Hin in Hx as (i & Hi & Hri). rewrite Hmem, Hin.
  assert (Hnear : ∀ j, L !! j = Some y → same_root parent i j ↔ rtc (near threshold indices) x y).
  { intros j Hj. rewrite Hsame by (by eapply lookup_lt_Some).
    rewrite (linked_near threshold L i j x y) by done.
    split; apply rtc_subrel; intros a b; by apply near_perm. }
  split.
  - intros (j & Hj & Hrj). split; [rewrite <- HL; by eapply list_elem_of_lookup_2|].
    apply (Hnear j Hj). by exists r.
  - intros [Hy Hr]. rewrite <- HL in Hy. apply list_elem_of_lookup in Hy as [j Hj]. exists j. split; [done|].
    apply (Hnear j Hj) in Hr as (r' & H1 & H2). by rewrite (Root_det _ _ _ _ Hri H1).
Qed.

End cluster.

(** ** Planning *)

(** [format!("{:?}", kind)]. *)
Definition kind_debug (k : MemoryKind) : str :=
  match k with
  | Architecture => lit "Architecture" | Convention => lit "Convention"
  | Workflow => lit "Workflow" | Decision' => lit "Decision"
  | Deployment => lit "Deployment" | Troubleshooting => lit "Troubleshooting"
  end.

Lemma kind_debug_inj : Inj (=) (=) kind_debug.
Proof. by intros [] []. Qed.

Definition DEFAULT_CONSOLIDATION_THRESHOLD : nat := 60.

Record DuplicateRecord := { dup_record : MemoryRecord; dup_similarity : nat }.
Record Consolidation := { survivor : MemoryRecord; duplicates : list DuplicateRecord }.
Definition dup_entry (d : DuplicateRecord) : MemoryEntry := record_entry (dup_record d).

Section plan.
Context `{Unicode}.

(** A position of [records] and the record there. *)
Abbreviation IndexedRecord := (nat * MemoryRecord)%type.

Definition content_of (x : IndexedRecord) : str := entry_content (record_entry x.2).
Definition enumerate (records : list MemoryRecord) : list IndexedRecord := imap pair records.

Definition group_by_kind (records : list MemoryRecord) : list (str * list IndexedRecord) :=
  btree_group str_cmp
    ((λ x, (kind_debug (entry_kind (record_entry x.2)), x)) <$> enumerate records).

Definition kind_clusters (threshold : nat) (indices : list IndexedRecord)
    : option (list (list IndexedRecord)) :=
  clusters_of content_of threshold (sort_by (cmp_on (λ x, record_id x.2) str_cmp) indices).

(** Highest quality first, ties by smallest id. *)
Definition survivor_cmp : IndexedRecord → IndexedRecord → comparison :=
  cmp_lex (cmp_rev (cmp_on (λ x, quality_score (record_quality x.2)) Nat.compare))
          (cmp_on (λ x, record_id x.2) str_cmp).

Definition consolidate (members : list IndexedRecord) : option Consolidation :=
  if length members <? 2 then None
  else match sort_by survivor_cmp members with
       | [] => None
       | (_, s) :: rest =>
           let duplicates :=
             (λ member, {| dup_record := member.2;
                           dup_similarity := shingle_similarity (entry_content (record_entry s))
                                               (entry_content (record_entry member.2)) |})
             <$> rest in
           Some {| survivor := s;
                   duplicates := sort_by (cmp_on (λ d, entry_id (dup_entry d)) str_cmp) duplicates |}
       end.

Definition plan_clusters (records : list MemoryRecord) (threshold : nat)
    : option (list (list IndexedRecord)) :=
  clusters ← mapM (kind_clusters threshold) (group_by_kind records).*2;
  Some (concat clusters).

Definition plan_consolidations (records : list MemoryRecord) (threshold : nat)
    : option (list Consolidation) :=
  clusters ← plan_clusters records threshold;
  Some (sort_by (cmp_on (λ c, record_id (survivor c)) str_cmp) (omap consolidate clusters)).

(** ** The clusters are the connected components of near-duplicates, by kind *)

Lemma kind_clusters_spec threshold indices :
  NoDup indices →
  ∃ clusters, kind_clusters threshold indices = Some clusters ∧ concat clusters ≡ₚ indices ∧
    ∀ members x, members ∈ clusters → x ∈ members →
      ∀ y, y ∈ members ↔ y ∈ indices ∧ rtc (near content_of threshold indices) x y.
Proof. intros Hnd. apply clusters_of_spec; [done|apply sort_by_perm]. Qed.

(** Same kind, similarity at or above the threshold. *)
Definition near_positions (records : list MemoryRecord) (threshold : nat) (a b : IndexedRecord) : Prop :=
  a ∈ enumerate records ∧ b ∈ enumerate records ∧
  entry_kind (record_entry a.2) = entry_kind (record_entry b.2) ∧ similar content_of threshold a b.

Lemma elem_of_enumerate records i r : (i, r) ∈ enumerate records ↔ records !! i = Some r.
Proof.
  unfold enumerate. rewrite list_elem_of_lookup. setoid_rewrite list_lookup_imap. split.
  - intros [j Hj]. destruct (records !! j) eqn:Hr; naive_solver.
  - intros Hr. exists i. by rewrite Hr.
Qed.

Lemma NoDup_enumerate records : NoDup (enumerate records).
Proof.
  apply NoDup_alt. intros i j x. unfold enumerate. rewrite !list_lookup_imap.
  destruct (records !! i), (records !! j); naive_solver.
Qed.

(** The kinds partition the positions. *)
Lemma elem_of_group_by_kind records k L :
  (k, L) ∈ group_by_kind records →
  NoDup L ∧ ∀ x, x ∈ L ↔ x ∈ enumerate records ∧ kind_debug (entry_kind (record_entry x.2)) = k.
Proof.
  intros HL. apply (elem_of_btree_group str_cmp) in HL as [-> _].
  set (l := _ <$> enumerate records).
  assert (Hl : l.*2 = enumerate records) by (unfold l; by rewrite <- list_fmap_compose, list_fmap_id).
  split.
  - eapply sublist_NoDup; [apply (NoDup_enumerate records)|]. rewrite <- Hl.
    apply fmap_sublist, sublist_filter.
  - intros x. rewrite list_elem_of_fmap. setoid_rewrite list_elem_of_filter.
    unfold l. setoid_rewrite list_elem_of_fmap. split.
    + intros ([k' x'] & -> & <- & z & [= -> ->] & Hz). done.
    + intros [Hx <-]. eexists (_, x). split; [done|]. split; [done|]. by exists x.
Qed.

Lemma group_by_kind_perm records : concat (group_by_kind records).*2 ≡ₚ enumerate records.
Proof. unfold group_by_kind. rewrite btree_group_perm, <- list_fmap_compose. by rewrite list_fmap_id. Qed.

Lemma near_in_kind records threshold k L x y :
  (k, L) ∈ group_by_kind records → x ∈ L →
  y ∈ L ∧ rtc (near content_of threshold L) x y ↔
  y ∈ enumerate records ∧ rtc (near_positions records threshold) x y.
Proof.
  intros HL Hx. destruct (elem_of_group_by_kind _ _ _ HL) as [_ HE]. split.
  - intros [Hy Hr]. split; [by apply HE|]. revert Hr. apply rtc_subrel.
    intros a b (Ha%HE & Hb%HE & Hs). destruct Ha as [Ha1 Ha2], Hb as [Hb1 Hb2].
    split_and!; [done..| |done]. apply kind_debug_inj. congruence.
  - intros [_ Hr]. induction Hr as [x|x z y (Hx1 & Hz1 & Hk & Hs) _ IH]; [split; [done|apply rtc_refl]|].
    assert (z ∈ L) as Hz.
    { apply HE. split; [done|]. rewrite <- Hk. by apply HE in Hx as [_ ?]. }
    destruct IH as [Hy IH]; [done|]. split; [done|]. by apply (rtc_l _ x z).
Qed.

Lemma plan_clusters_spec records threshold :
  ∃ clusters, plan_clusters records threshold = Some clusters ∧
    concat clusters ≡ₚ enumerate records ∧
    ∀ members x, members ∈ clusters → x ∈ members →
      ∀ y, y ∈ members ↔ y ∈ enumerate records ∧ rtc (near_positions records threshold) x y.
Proof.
  unfold plan_clusters.
  destruct (mapM_Forall2 (kind_clusters threshold) (λ L cs, concat cs ≡ₚ L ∧
      ∀ members x, members ∈ cs → x ∈ members →
      ∀ y, y ∈ members ↔ y ∈ L ∧ rtc (near content_of threshold L) x y) (group_by_kind records).*2)
    as (css & -> & Hall).
  { intros L ([k L'] & -> & HL)%list_elem_of_fmap. apply kind_clusters_spec.
    by apply (elem_of_group_by_kind records k). }
  simpl. exists (concat css). split; [done|]. split.
  - rewrite <- (group_by_kind_perm records). clear -Hall.
    induction Hall as [|L cs l css [HL _] _ IH]; [done|]. simpl. rewrite concat_app. by f_equiv.
  - intros members x Hm Hx.
    apply elem_of_concat in Hm as (cs & Hcs & Hm).
    apply list_elem_of_lookup in Hcs as [i Hi].
    destruct (Forall2_lookup_r _ _ _ _ _ Hall Hi) as (L & HL & Hp & Hspec).
    apply list_elem_of_lookup_2, list_elem_of_fmap in HL as ([k L'] & -> & HL).
    intros y. rewrite (Hspec members x) by done.
    apply (near_in_kind records threshold k); [done|].
    by apply (Hspec members x Hm Hx x).
Qed.

(** ** The plan *)

Definition members_of (c : Consolidation) : list MemoryRecord :=
  survivor c :: (dup_record <$> duplicates c).
Arguments members_of : simpl never.

(** [a] is preferred to [b] as the survivor. *)
Definition preferred (a b : MemoryRecord) : Prop :=
  quality_score (record_quality b) < quality_score (record_quality a) ∨
  (quality_score (record_quality b) = quality_score (record_quality a) ∧
   str_cmp (record_id a) (record_id b) ≠ Gt).

Lemma survivor_cmp_preferred a b : survivor_cmp a b ≠ Gt → preferred a.2 b.2.
Proof.
  unfold survivor_cmp, cmp_lex, cmp_rev, cmp_on, preferred. intros Hc.
  destruct (Nat.compare_spec (quality_score (record_quality b.2)) (quality_score (record_quality a.2)));
    simpl in Hc; naive_solver lia.
Qed.

Instance survivor_cmp_total : TotalCmp survivor_cmp.
Proof. apply _. Qed.

(** What a consolidation of the given records must be. *)
Record consolidates (c : Consolidation) (records : list MemoryRecord) : Prop := {
  cons_members : members_of c ≡ₚ records;
  cons_survivor : ∀ d, d ∈ duplicates c → preferred (survivor c) (dup_record d);
  cons_similarity : ∀ d, d ∈ duplicates c →
    dup_similarity d = shingle_similarity (entry_content (record_entry (survivor c)))
                         (entry_content (dup_entry d));
  cons_ordered : Sorted.StronglySorted (cmp_le (cmp_on (λ d, entry_id (dup_entry d)) str_cmp))
                   (duplicates c);
}.

Lemma consolidate_spec members :
  2 ≤ length members → ∃ c, consolidate members = Some c ∧ consolidates c members.*2.
Proof.
  intros Hlen. unfold consolidate. destruct (Nat.ltb_spec (length members) 2); [lia|].
  pose proof (sort_by_perm survivor_cmp members) as Hp.
  pose proof (sort_by_sorted survivor_cmp members) as Hs.
  destruct (sort_by survivor_cmp members) as [|[i s] rest].
  { apply Permutation_nil in Hp. subst. simpl in Hlen. lia. }
  eexists. split; [done|]. inversion Hs as [|? ? _ Hbest]; subst. rewrite Forall_forall in Hbest.
  split; simpl.
  - unfold members_of. simpl. rewrite sort_by_perm, <- list_fmap_compose, <- Hp. done.
  - intros d (m & -> & Hm)%elem_of_sort_by%list_elem_of_fmap.
    apply (survivor_cmp_preferred (i, s)), Hbest, Hm.
  - intros d (m & -> & Hm)%elem_of_sort_by%list_elem_of_fmap. done.
  - apply sort_by_sorted. apply _.
Qed.

Lemma consolidate_Some members c :
  consolidate members = Some c → 2 ≤ length members ∧ consolidates c members.*2.
Proof.
  intros Hc. assert (2 ≤ length members) as Hlen.
  { unfold consolidate in Hc. destruct (Nat.ltb_spec (length members) 2); [done|lia]. }
  split; [done|]. destruct (consolidate_spec members Hlen) as (c' & Hc' & ?). by simplify_eq.
Qed.

(** Two memories of the set under review that are near-duplicates. *)
Definition near_duplicates (records : list MemoryRecord) (threshold : nat) (a b : MemoryRecord) : Prop :=
  a ∈ records ∧ b ∈ records ∧ entry_kind (record_entry a) = entry_kind (record_entry b) ∧
  threshold ≤ shingle_similarity (entry_content (record_entry a)) (entry_content (record_entry b)).

Lemma near_positions_records records threshold x y :
  rtc (near_positions records threshold) x y → rtc (near_duplicates records threshold) x.2 y.2.
Proof.
  apply (rtc_congruence snd). intros [i a] [j b] (Ha%elem_of_enumerate & Hb%elem_of_enumerate & Hk & Hs).
  split_and!; [by eapply list_elem_of_lookup_2..|done|done].
Qed.

Lemma near_records_positions records threshold x b :
  x ∈ enumerate records → rtc (near_duplicates records threshold) x.2 b →
  ∃ y, y ∈ enumerate records ∧ y.2 = b ∧ rtc (near_positions records threshold) x y.
Proof.
  intros Hx Hr. remember x.2 as a eqn:Ha. revert x Hx Ha.
  induction Hr as [a|a c b (_ & Hc & Hk & Hs) _ IH]; intros x Hx ->; [by exists x|].
  apply list_elem_of_lookup in Hc as [k Hc%elem_of_enumerate].
  destruct (IH (k, c) Hc eq_refl) as (y & Hy & <- & Hr).
  exists y. split_and!; [done..|]. by apply (rtc_l _ x (k, c)).
Qed.

Lemma concat_omap_consolidate clusters :
  concat (members_of <$> omap consolidate clusters) ⊆+ (concat clusters).*2.
Proof.
  induction clusters as [|m cs IH]; simpl; [done|]. rewrite fmap_app.
  destruct (consolidate m) as [c|] eqn:Hc; simpl; [|by apply submseteq_inserts_l].
  apply consolidate_Some in Hc as [_ Hc].
  change (members_of c ++ concat (members_of <$> omap consolidate cs) ⊆+ m.*2 ++ (concat cs).*2).
  rewrite (cons_members _ _ Hc). by apply submseteq_app.
Qed.

Lemma enumerate_snd records : (enumerate records).*2 = records.
Proof.
  unfold enumerate. apply list_eq. intros i. rewrite list_lookup_fmap, list_lookup_imap.
  by destruct (records !! i).
Qed.

Lemma elem_of_records records a : a ∈ records ↔ ∃ i, (i, a) ∈ enumerate records.
Proof. rewrite list_elem_of_lookup. by setoid_rewrite elem_of_enumerate. Qed.

Section planned.
Context (records : list MemoryRecord) (threshold : nat) (clusters : list (list IndexedRecord)).
Context (Hperm : concat clusters ≡ₚ enumerate records).
Context (Hspec : ∀ members x, members ∈ clusters → x ∈ members →
  ∀ y, y ∈ members ↔ y ∈ enumerate records ∧ rtc (near_positions records threshold) x y).

Lemma planned_members c :
  c ∈ omap consolidate clusters →
  consolidates c (members_of c) ∧ duplicates c ≠ [] ∧
  ∀ b, b ∈ members_of c ↔ b ∈ records ∧ rtc (near_duplicates records threshold) (survivor c) b.
Proof.
  intros (ms & Hms & [Hlen Hc]%consolidate_Some)%list_elem_of_omap.
  pose proof (cons_members _ _ Hc) as Hp. split_and!.
  - destruct Hc. by split.
  - intros Hd. apply Permutation_length in Hp. unfold members_of in Hp.
    rewrite Hd, length_fmap in Hp. simpl in Hp. lia.
  - assert (survivor c ∈ ms.*2) as ([i a] & Hsur & Hx)%list_elem_of_fmap
      by (rewrite <- Hp; left). simpl in Hsur. rewrite Hsur.
    intros b. rewrite Hp, list_elem_of_fmap. setoid_rewrite (Hspec ms (i, a) Hms Hx). split.
    + intros ([j y] & -> & Hy & Hr). split; [apply elem_of_records; by exists j|].
      by apply near_positions_records in Hr.
    + intros [_ Hr].
      destruct (near_records_positions records threshold (i, a) b) as (y & Hy & <- & Hr');
        [by apply (Hspec ms (i, a) Hms Hx (i, a))|done|by exists y].
Qed.

Lemma planned_together a b :
  a ∈ records → a ≠ b → rtc (near_duplicates records threshold) a b →
  ∃ c, c ∈ omap consolidate clusters ∧ a ∈ members_of c ∧ b ∈ members_of c.
Proof.
  intros [i Hx]%elem_of_records Hne Hr.
  destruct (near_records_positions records threshold (i, a) b Hx Hr) as (y & Hy & Hyb & Hr').
  assert ((i, a) ∈ concat clusters) as (ms & Hms & Hxm)%elem_of_concat by by rewrite Hperm.
  assert (y ∈ ms) as Hym by by apply (Hspec ms (i, a)).
  assert (2 ≤ length ms) as Hlen.
  { destruct ms as [|z [|w ms]]; simpl; [by apply elem_of_nil in Hxm| |lia].
    apply list_elem_of_singleton in Hxm, Hym. naive_solver. }
  destruct (consolidate_spec ms Hlen) as (c & Hc & Hcs). exists c.
  rewrite (cons_members _ _ Hcs). split_and!.
  - apply list_elem_of_omap. by exists ms.
  - apply list_elem_of_fmap. by exists (i, a).
  - apply list_elem_of_fmap. by exists y.
Qed.

Lemma planned_sub : concat (members_of <$> omap consolidate clusters) ⊆+ records.
Proof. etrans; [apply concat_omap_consolidate|]. by rewrite Hperm, enumerate_snd. Qed.

Lemma survivors_sublist (plan : list Consolidation) :
  survivor <$> plan `sublist_of` concat (members_of <$> plan).
Proof.
  induction plan as [|c plan IH]; simpl; [done|]. unfold members_of at 1. simpl.
  constructor. by apply sublist_inserts_l.
Qed.

Lemma planned_survivors :
  NoDup (record_id <$> records) →
  NoDup ((λ c, record_id (survivor c)) <$> omap consolidate clusters).
Proof.
  intros Hnd. rewrite (list_fmap_compose survivor record_id).
  assert (survivor <$> omap consolidate clusters ⊆+ records) as [k Hk]%submseteq_Permutation.
  { etrans; [apply sublist_submseteq, survivors_sublist|apply planned_sub]. }
  rewrite Hk, fmap_app in Hnd. by apply NoDup_app in Hnd as [? _].
Qed.
End planned.

(** The clusters the curator forms (union-find over all pairs of a kind)
    are exactly the connected components of the near-duplicate graph: every
    position of [records] lies in exactly one cluster, and two positions share
    a cluster iff a chain of same-kind pairs at or above the threshold joins
    them. The loops terminate and never index out of range. *)
Theorem clusters_are_components records threshold :
  ∃ clusters, plan_clusters records threshold = Some clusters ∧
    concat clusters ≡ₚ enumerate records ∧
    ∀ members x, members ∈ clusters → x ∈ members →
      ∀ y, y ∈ members ↔ y ∈ enumerate records ∧ rtc (near_positions records threshold) x y.
Proof. apply plan_clusters_spec. Qed.

(** C22. Consolidation planning: a plan is always produced; each consolidation keeps the preferred survivor (highest
    quality, then smallest id) and lists its duplicates in id order with their
    similarity to it; its members are one whole connected component of the
    near-duplicate graph; every two distinct connected memories are
    consolidated together; no memory occurs in two consolidations; and the
    plan of records with distinct ids is strictly ordered by survivor id. *)
Theorem plan_consolidations_spec records threshold :
  ∃ plan, plan_consolidations records threshold = Some plan ∧
    (∀ c, c ∈ plan → consolidates c (members_of c) ∧ duplicates c ≠ [] ∧
       ∀ b, b ∈ members_of c ↔
         b ∈ records ∧ rtc (near_duplicates records threshold) (survivor c) b) ∧
    (∀ a b, a ∈ records → a ≠ b → rtc (near_duplicates records threshold) a b →
       ∃ c, c ∈ plan ∧ a ∈ members_of c ∧ b ∈ members_of c) ∧
    concat (members_of <$> plan) ⊆+ records ∧
    (NoDup (record_id <$> records) →
     Sorted.StronglySorted (λ c d, str_cmp (record_id (survivor c)) (record_id (survivor d)) = Lt) plan).
Proof.
  unfold plan_consolidations.
  destruct (plan_clusters_spec records threshold) as (clusters & -> & Hperm & Hspec). simpl.
  eexists. split; [done|]. split_and!.
  - intros c Hc%elem_of_sort_by. by eapply planned_members.
  - intros a b Ha Hne Hr.
    destruct (planned_together _ _ _ Hperm Hspec a b Ha Hne Hr) as (c & Hc & ? & ?).
    exists c. by rewrite elem_of_sort_by.
  - rewrite sort_by_perm. by apply planned_sub.
  - intros Hnd. apply sort_by_key_strict. by eapply planned_survivors.
Qed.
End plan.

(** The near-duplicates of the crate's own test: equal quality, so the smaller
    id survives. *)
#[local] Existing Instance ascii_unicode.
Definition demo_memory (id content : str) : MemoryRecord :=
  MemoryRecord_new (with_status Approved
    (MemoryEntry_new id (ProjectRef_new (lit "org") (lit "proj")) Decision' content)).

Definition plan_ids (plan : list Consolidation) : list (str * list str) :=
  (λ c, (record_id (survivor c), (λ d, record_id (dup_record d)) <$> duplicates c)) <$> plan.

Example plan_example :
  option_map plan_ids (plan_consolidations
      [ demo_memory (lit "z") (lit "use postgres as our main primary datastore");
        demo_memory (lit "y") (lit "use postgres for our main primary datastore");
        demo_memory (lit "x") (lit "run cargo fmt before committing") ] 40) =
  Some [(lit "y", [lit "z"])].
Proof. vm_compute. reflexivity. Qed.
