(* ===== verification/Extraction.v ===== *)
(** * Explicit memory directives ([codel00p-memory/src/extraction.rs])

    The parser of [remember <kind> [tags]: content] lines and the extractor that
    turns a turn's text into review candidates. *)

From stdpp Require Import base numbers strings gmap list.
From S2P Require Import Prelude RustStr Storage Protocol MemoryTypes MemoryStore.

Definition colon : char := 58%N.
Definition comma : char := 44%N.
Definition open_bracket : char := 91%N.
Definition close_bracket : char := 93%N.

Definition memory_kind_from_label (label : str) : option MemoryKind :=
  let label := to_ascii_lowercase (trim label) in
  if bool_decide (label = lit "architecture") then Some Architecture
  else if bool_decide (label = lit "convention") then Some Convention
  else if bool_decide (label = lit "workflow") then Some Workflow
  else if bool_decide (label = lit "decision") then Some Decision'
  else if bool_decide (label = lit "deployment") then Some Deployment
  else if bool_decide (label = lit "troubleshooting") then Some Troubleshooting
  else None.

Definition parse_directive_kind (header : str) : option MemoryKind :=
  if is_empty header then Some Decision'
  else
    let kind := trim (default header (fst <$> split_once open_bracket header)) in
    if is_empty kind then Some Decision' else memory_kind_from_label kind.

Definition parse_directive_tags (header : str) : list str :=
  match split_once open_bracket header with
  | None => []
  | Some (_, raw_tags) =>
      match split_once close_bracket raw_tags with
      | None => []
      | Some (raw_tags, _) => omap non_empty_filter (split_by (λ c, (c =? comma)%N) raw_tags)
      end
  end.

Definition parse_remember_directive (line : str) : option (MemoryKind * list str * str) :=
  let line := trim line in
  rest ← strip_prefix (lit "remember") line;
  let rest := trim_start rest in
  '(header, content) ← split_once colon rest;
  content ← non_empty_filter content;
  let header := trim header in
  kind ← parse_directive_kind header;
  let tags := parse_directive_tags header in
  Some (kind, tags, content).

Definition candidate_id (input : MemoryExtractionInput) (n : N) : str :=
  lit "memory-candidate-" ++ source_session_id (ex_source input) ++ lit "-" ++
  source_turn_id (ex_source input) ++ lit "-" ++ show_N n.

(** One iteration of the loop over the lines. *)
Definition extract_line (input : MemoryExtractionInput) (candidates : list MemoryCandidateInput)
    (line : str) : list MemoryCandidateInput :=
  match parse_remember_directive line with
  | None => candidates
  | Some (kind, directive_tags, content) =>
      let candidate := MemoryCandidateInput_new (candidate_id input (N.of_nat (length candidates) + 1))
                         (ex_project input) kind content (ex_source input) in
      let candidate := foldl (λ c tag, in_with_tag tag c) candidate (ex_tags input) in
      let candidate := foldl (λ c tag, in_with_tag tag c) candidate directive_tags in
      candidates ++ [candidate]
  end.

Definition extract `{JsonLib} (input : MemoryExtractionInput)
    : result MemoryError (list MemoryCandidateInput) :=
  Ok (foldl (extract_line input) [] (lines (ex_text input))).

(** ** What one directive yields *)

Lemma fold_with_tag tags c :
  foldl (λ c tag, in_with_tag tag c) c tags =
  {| in_id := in_id c; in_project := in_project c; in_kind := in_kind c;
     in_sensitivity := in_sensitivity c; in_visibility := in_visibility c;
     in_content := in_content c; in_source := in_source c;
     in_tags := in_tags c ++ omap non_empty_filter tags; in_evidence := in_evidence c |}.
Proof.
  revert c. induction tags as [|t tags IH]; intros c; simpl.
  - rewrite app_nil_r. by destruct c.
  - rewrite IH. unfold in_with_tag. destruct (non_empty_filter t); simpl; [|done].
    by rewrite <- app_assoc.
Qed.

Lemma candidate_id_inj input n m : candidate_id input n = candidate_id input m → n = m.
Proof.
  unfold candidate_id. intros H. do 4 apply app_inv_head in H.
  by apply app_inv_head, show_N_inj in H.
Qed.

Lemma candidate_id_trim input n : trim (candidate_id input n) ≠ [].
Proof. apply (trim_nonempty _ 109%N); [left|done]. Qed.

Definition candidate_of (input : MemoryExtractionInput) (n : N)
    (d : MemoryKind * list str * str) : MemoryCandidateInput :=
  {| in_id := candidate_id input n; in_project := ex_project input; in_kind := d.1.1;
     in_sensitivity := Normal; in_visibility := Project; in_content := d.2;
     in_source := ex_source input;
     in_tags := omap non_empty_filter (ex_tags input ++ d.1.2); in_evidence := [] |}.

Lemma extract_eq `{JsonLib} input :
  extract input = Ok (imap (λ i, candidate_of input (N.of_nat (S i)))
                        (omap parse_remember_directive (lines (ex_text input)))).
Proof.
  unfold extract. f_equal. generalize (lines (ex_text input)) as ls.
  induction ls as [|l ls IH] using rev_ind; [done|].
  rewrite foldl_app, omap_app, IH, imap_app. simpl. unfold extract_line.
  destruct (parse_remember_directive l) as [[[kind tags] content]|]; simpl; [|by rewrite app_nil_r].
  f_equal. f_equal. rewrite !fold_with_tag, length_imap. unfold candidate_of. simpl.
  rewrite omap_app, Nat.add_0_r. f_equal. f_equal. lia.
Qed.

Lemma parse_directive_content line kind tags content :
  parse_remember_directive line = Some (kind, tags, content) →
  content ≠ [] ∧ trim content = content.
Proof.
  unfold parse_remember_directive. intros Hp.
  destruct (strip_prefix _ _) as [rest|]; [simpl in Hp|done].
  destruct (split_once colon _) as [[h c]|]; [simpl in Hp|done].
  destruct (non_empty_filter c) as [c'|] eqn:Hc; [simpl in Hp|done].
  destruct (parse_directive_kind _); simplify_eq/=.
  apply non_empty_filter_Some in Hc as [-> Hne]. by rewrite trim_trim.
Qed.

(** ** Writing a directive *)

(** The line that states a memory, as a user would write it. *)
Definition render_directive (kind : MemoryKind) (tags : list str) (content : str) : str :=
  lit "remember " ++ memory_kind_label kind ++ lit " [" ++ join (lit ", ") tags ++ lit "]: " ++ content.

(** A tag that can be written in a directive: not blank, no surrounding
    blanks, and none of the characters that end a tag list. *)
Definition writable_tag (tag : str) : Prop :=
  tag ≠ [] ∧ trim tag = tag ∧
  avoids (λ c, (c =? comma) || (c =? close_bracket) || (c =? colon))%N tag.

Lemma writable_avoids tag x :
  writable_tag tag → x ∈ [comma; close_bracket; colon] → avoids (λ c, (c =? x)%N) tag.
Proof.
  intros (_ & _ & Ht) Hx c Hc. apply Ht in Hc. rewrite !orb_false_iff in Hc.
  apply N.eqb_neq. rewrite !N.eqb_neq in Hc. set_solver.
Qed.

Lemma join_avoids tags x :
  Forall writable_tag tags → x ∈ [close_bracket; colon] → avoids (λ c, (c =? x)%N) (join (lit ", ") tags).
Proof.
  intros Ht Hx. assert (Hx' : x ∈ [comma; close_bracket; colon]) by set_solver.
  induction Ht as [|t tags Hw Ht IH]; simpl; [by intros c Hc%elem_of_nil|].
  destruct tags as [|t' tags]; [by apply writable_avoids|].
  apply avoids_app. split; [by apply writable_avoids|].
  intros c [->|[->|Hc]%elem_of_cons]%elem_of_cons; [set_unfold; naive_solver..|by apply IH].
Qed.

Lemma parse_tag_list tags :
  Forall writable_tag tags →
  omap non_empty_filter (split_by (λ c, (c =? comma)%N) (join (lit ", ") tags)) = tags.
Proof.
  assert (Hne : ∀ t, writable_tag t → non_empty_filter t = Some t ∧ non_empty_filter (32%N :: t) = Some t).
  { intros t (Hne & Htr & _). rewrite !non_empty_filter_Some, trim_space by done.
    by rewrite Htr. }
  intros Ht. destruct Ht as [|t tags Hw Ht]; [done|].
  assert (Hrest : ∀ t, writable_tag t →
    omap non_empty_filter (split_by (λ c, (c =? comma)%N) (32%N :: join (lit ", ") (t :: tags))) = t :: tags ∧
    omap non_empty_filter (split_by (λ c, (c =? comma)%N) (join (lit ", ") (t :: tags))) = t :: tags);
    [|by apply Hrest].
  clear t Hw. induction Ht as [|u tags Hu Ht IH]; intros t Hw; pose proof (Hne t Hw) as [H1 H2];
    pose proof (writable_avoids t comma Hw ltac:(set_solver)) as Ha;
    assert (Ha' : avoids (λ c, (c =? comma)%N) (32%N :: t))
      by (intros c [->|Hc]%elem_of_cons; [done|by apply Ha]).
  - simpl join. rewrite !split_by_single by done. cbn. by rewrite H1, H2.
  - destruct (IH u Hu) as [IH1 _].
    change (join (lit ", ") (t :: u :: tags)) with (t ++ comma :: 32%N :: join (lit ", ") (u :: tags)).
    rewrite (app_comm_cons t), !split_by_avoids by done. cbn [omap list_omap].
    rewrite H1, H2. by rewrite IH1.
Qed.

Lemma kind_label_text kind :
  avoids (λ c, (c =? colon)%N) (memory_kind_label kind) ∧
  avoids (λ c, (c =? open_bracket)%N) (memory_kind_label kind ++ [32%N]) ∧
  trim (memory_kind_label kind ++ [32%N]) = memory_kind_label kind ∧
  memory_kind_from_label (memory_kind_label kind) = Some kind ∧
  ∃ c l, memory_kind_label kind = c :: l ∧ is_whitespace c = false.
Proof. destruct kind; (split_and!; [by apply avoids_forallb..|done|done|by eexists _, _]). Qed.

Definition directive_header (kind : MemoryKind) (tags : list str) : str :=
  (memory_kind_label kind ++ [32%N]) ++ open_bracket :: join (lit ", ") tags ++ [close_bracket].

Lemma parse_header kind tags :
  Forall writable_tag tags →
  trim (directive_header kind tags) = directive_header kind tags ∧
  parse_directive_kind (directive_header kind tags) = Some kind ∧
  parse_directive_tags (directive_header kind tags) = tags.
Proof.
  intros Ht. destruct (kind_label_text kind) as (_ & Hb & Htrim & Hk & c & l & Hl & Hc).
  split_and!.
  - apply trim_id; unfold directive_header.
    + rewrite Hl. by intros ? [= <-].
    + rewrite (app_comm_cons _ _ open_bracket), app_assoc, last_snoc. by intros ? [= <-].
  - unfold parse_directive_kind, directive_header. rewrite split_once_avoids by done. simpl.
    rewrite Htrim, Hl. simpl. by rewrite <- Hl.
  - unfold parse_directive_tags, directive_header. rewrite split_once_avoids by done.
    rewrite split_once_avoids by (apply join_avoids; [done|set_solver]). by apply parse_tag_list.
Qed.

(** Round trip: the directive written for a kind, writable tags and a
    non-blank trimmed content parses back to exactly that kind, those tags and
    that content. *)
Theorem parse_render_directive kind tags content :
  Forall writable_tag tags → content ≠ [] → trim content = content →
  parse_remember_directive (render_directive kind tags content) = Some (kind, tags, content).
Proof.
  intros Ht Hne Htrim. destruct (kind_label_text kind) as (Hcol & _ & _ & _ & c & l & Hl & Hc).
  destruct (parse_header kind tags Ht) as (Hh & Hk & Htags).
  assert (Hline : render_directive kind tags content =
    lit "remember" ++ 32%N :: directive_header kind tags ++ colon :: 32%N :: content).
  { unfold render_directive, directive_header. rewrite <- !app_assoc. simpl. by rewrite <- app_assoc. }
  assert (Htl : trim (render_directive kind tags content) = render_directive kind tags content).
  { apply trim_id; [by intros ? [= <-]|]. destruct (trim_ends content Hne Htrim) as (z & Hz & Hw).
    intros d. unfold render_directive. rewrite !app_assoc, last_app, Hz. by intros [= <-]. }
  unfold parse_remember_directive. rewrite Htl, Hline, strip_prefix_app. simpl.
  assert (Hts : trim_start (32%N :: directive_header kind tags ++ colon :: 32%N :: content) =
    directive_header kind tags ++ colon :: 32%N :: content).
  { unfold directive_header. rewrite Hl. change (trim_start (32%N :: ?s)) with (trim_start s).
    by apply trim_start_cons. }
  rewrite Hts, split_once_avoids; simpl.
  - rewrite Hh, Hk, Htags. simpl.
    replace (non_empty_filter (32%N :: content)) with (Some content); [done|].
    symmetry. apply non_empty_filter_Some. by rewrite trim_space.
  - unfold directive_header. apply avoids_app. split.
    + apply avoids_app. split; [done|by apply avoids_forallb].
    + intros d [->|Hd]%elem_of_cons; [done|]. revert d Hd. apply avoids_app.
      split; [apply join_avoids; [done|set_solver]|by apply avoids_forallb].
Qed.

(** Extraction: it never fails, and yields, in order, one candidate per
    directive line, numbered from one under the session and turn of its
    source, with the extraction's project and source and the tags of both;
    each candidate passes the store's validation, and no two share an id. *)
Theorem extract_spec `{JsonLib} input :
  ∃ candidates, extract input = Ok candidates ∧
    length candidates = length (omap parse_remember_directive (lines (ex_text input))) ∧
    NoDup (in_id <$> candidates) ∧
    ∀ i c, candidates !! i = Some c → ∃ d,
      omap parse_remember_directive (lines (ex_text input)) !! i = Some d ∧
      c = candidate_of input (N.of_nat (S i)) d ∧ candidate_validate c = Ok tt.
Proof.
  rewrite extract_eq. set (ds := omap parse_remember_directive _).
  eexists. split; [done|]. split_and!; [apply length_imap| |].
  - apply NoDup_alt. intros i j x. rewrite !list_lookup_fmap, !list_lookup_imap.
    destruct (ds !! i) as [d|], (ds !! j) as [e|]; simpl; try done.
    intros [= <-] Hid. apply (inj Some), candidate_id_inj in Hid. lia.
  - intros i c. rewrite list_lookup_imap. destruct (ds !! i) as [[[k tags] content]|] eqn:Hd; simpl; [|done].
    intros [= <-]. eexists. split; [done|]. split; [done|].
    apply list_elem_of_lookup_2, list_elem_of_omap in Hd as (line & _ & Hp).
    apply parse_directive_content in Hp as [Hne Htr].
    unfold candidate_validate. simpl.
    destruct (trim content) eqn:Ht; [by subst|]. simpl.
    destruct (trim (candidate_id input _)) eqn:Hid; [|done]. exfalso.
    by eapply candidate_id_trim.
Qed.

(** ** Witness *)

Lemma parse_render_directive_witness :
  render_directive Workflow [lit "ci"; lit "rust"] (lit "run fmt first") =
    lit "remember workflow [ci, rust]: run fmt first" ∧
  parse_remember_directive (lit "remember workflow [ci, rust]: run fmt first") =
    Some (Workflow, [lit "ci"; lit "rust"], lit "run fmt first").
Proof.
  split; [vm_compute; reflexivity|].
  apply (parse_render_directive Workflow [lit "ci"; lit "rust"] (lit "run fmt first")).
  - repeat constructor; first [discriminate | vm_compute; reflexivity | by apply avoids_forallb].
  - discriminate.
  - vm_compute. reflexivity.
Defined.
