(* ===== verification/Session.v ===== *)
(** * Sessions ([codel00p-session/src/lib.rs])

    Session metadata documents and per-session append logs over any storage
    backend.  Messages and agent events are payloads the store never inspects:
    their types are parameters.  [EventId::new] draws from a process-wide
    counter ([codel00p-protocol/src/ids.rs]), so the state is the store together
    with that counter. *)

From stdpp Require Import base numbers strings gmap list.
From S2P Require Import Prelude RustStr Storage Protocol.

Definition SESSION_METADATA_COLLECTION : str := lit "sessions".
Definition SESSION_RECORD_STREAM_PREFIX : str := lit "session".

(** ** Metadata *)

Record SessionMetadata := {
  sm_session_id : SessionId;
  sm_source : str;
  sm_parent_session_id : option SessionId;
  sm_created_at : option N;
  sm_title : option str;
  sm_description : option str;
}.
Definition SessionMetadata_new (session_id : SessionId) (source : str) : SessionMetadata :=
  {| sm_session_id := session_id; sm_source := source; sm_parent_session_id := None;
     sm_created_at := None; sm_title := None; sm_description := None |}.
Definition sm_with_parent (parent : SessionId) (m : SessionMetadata) : SessionMetadata :=
  {| sm_session_id := sm_session_id m; sm_source := sm_source m;
     sm_parent_session_id := Some parent; sm_created_at := sm_created_at m;
     sm_title := sm_title m; sm_description := sm_description m |}.
Definition sm_with_created_at (created_at : N) (m : SessionMetadata) : SessionMetadata :=
  {| sm_session_id := sm_session_id m; sm_source := sm_source m;
     sm_parent_session_id := sm_parent_session_id m; sm_created_at := Some created_at;
     sm_title := sm_title m; sm_description := sm_description m |}.
Definition sm_with_title (title : str) (m : SessionMetadata) : SessionMetadata :=
  let title := trim title in
  {| sm_session_id := sm_session_id m; sm_source := sm_source m;
     sm_parent_session_id := sm_parent_session_id m; sm_created_at := sm_created_at m;
     sm_title := if is_empty title then None else Some title;
     sm_description := sm_description m |}.
Definition sm_with_description (description : str) (m : SessionMetadata) : SessionMetadata :=
  let description := trim description in
  {| sm_session_id := sm_session_id m; sm_source := sm_source m;
     sm_parent_session_id := sm_parent_session_id m; sm_created_at := sm_created_at m;
     sm_title := sm_title m;
     sm_description := if is_empty description then None else Some description |}.

(** ** Persistence events ([codel00p-protocol/src/persistence.rs]) *)

Inductive SessionPersistenceEvent :=
| RecordAppended (event_id : EventId) (session_id : SessionId) (record_id : str) (sequence : N)
| ReplayStarted (event_id : EventId) (session_id : SessionId)
| ReplayCompleted (event_id : EventId) (session_id : SessionId) (record_count : N).
Definition record_appended (event_id : EventId) (session_id : SessionId) (record_id : str)
    (sequence : N) : SessionPersistenceEvent :=
  RecordAppended event_id session_id record_id sequence.
Definition event_record_id (e : SessionPersistenceEvent) : str :=
  match e with
  | RecordAppended _ _ record_id _ => record_id
  | ReplayStarted _ _ | ReplayCompleted _ _ _ => []
  end.
Definition event_sequence (e : SessionPersistenceEvent) : N :=
  match e with
  | RecordAppended _ _ _ sequence => sequence
  | ReplayStarted _ _ | ReplayCompleted _ _ _ => 0
  end.

Inductive SessionRecord (M E : Type) :=
| RMessage (message : M)
| REvent (event : E).
Arguments RMessage {M E} message.
Arguments REvent {M E} event.

Section session.
Context `{JsonLib} {M E : Type}.
Context `{!Serde SessionMetadata} `{!Serde (SessionRecord M E)}.
Context {S : Type} `{!DocumentStore S} `{!AppendLogStore S}.

Record PersistedSessionRecord := {
  psr_id : str;
  psr_session_id : SessionId;
  psr_sequence : N;
  psr_record : SessionRecord M E;
  psr_persistence_event : SessionPersistenceEvent;
}.

Inductive SessionStoreError :=
| SessionAlreadyExists (session_id : str)
| SessionNotFound (session_id : str)
| SStorage (e : StorageError)
| SSerialization (e : JsonError).

Record StorageBackedSessionStore := { ss_scope : StorageScope; ss_storage : S }.

(** The store and the process-wide event counter. *)
Record World := { w_event_counter : N; w_store : StorageBackedSessionStore }.

Abbreviation op := (st World SessionStoreError).

(** A read of the store. *)
Definition on_store {A} (f : StorageBackedSessionStore → result SessionStoreError A) : op A :=
  st_read (λ w, f (w_store w)).
(** A write to the storage, errors converted by [?]. *)
Definition on_storage_mut {A} (f : StorageScope → st S StorageError A) : op A := λ w,
  let '(r, x) := f (ss_scope (w_store w)) (ss_storage (w_store w)) in
  (map_err SStorage r,
   {| w_event_counter := w_event_counter w;
      w_store := {| ss_scope := ss_scope (w_store w); ss_storage := x |} |}).

(** [EventId::new]: [fetch_add] on the counter. *)
Definition EventId_new : op EventId := λ w,
  (Ok (lit "event-" ++ show_N (w_event_counter w)),
   {| w_event_counter := u64_add (w_event_counter w) 1; w_store := w_store w |}).

Definition session_record_stream (session_id : SessionId) : str :=
  SESSION_RECORD_STREAM_PREFIX ++ lit "/" ++ session_id.

(** A string value always deserializes to the transparent newtype. *)
Definition session_id_from_stream (stream : str) : result SessionStoreError SessionId :=
  match strip_prefix (SESSION_RECORD_STREAM_PREFIX ++ lit "/") stream with
  | None => Err (SStorage (Backend (lit "invalid session stream: " ++ stream)))
  | Some session_id => Ok session_id
  end.

Definition psr_with_id (session_id : SessionId) (id : str) (sequence : N) (record : SessionRecord M E)
    : op PersistedSessionRecord :=
  let! event_id := EventId_new in
  let persistence_event := record_appended event_id session_id id sequence in
  st_ret {| psr_id := event_record_id persistence_event; psr_session_id := session_id;
            psr_sequence := sequence; psr_record := record;
            psr_persistence_event := persistence_event |}.

Definition psr_from_log_entry (entry : AppendLogEntry) : op PersistedSessionRecord :=
  let! session_id := st_lift (session_id_from_stream (log_stream entry)) in
  let! record := st_lift (map_err SSerialization (from_value (log_payload entry))) in
  psr_with_id session_id (log_id entry) (log_sequence entry) record.

Definition metadata (session_id : SessionId) (s : StorageBackedSessionStore)
    : result SessionStoreError SessionMetadata :=
  let? found := map_err SStorage
    (get_document (ss_scope s) SESSION_METADATA_COLLECTION session_id (ss_storage s)) in
  let? document := ok_or (SessionNotFound session_id) found in
  map_err SSerialization (from_value (doc_payload document)).

Definition ensure_session (session_id : SessionId) (s : StorageBackedSessionStore)
    : result SessionStoreError unit :=
  let? _ := metadata session_id s in Ok tt.

Definition create_session (m : SessionMetadata) : op unit :=
  let! found := on_store (λ s, map_err SStorage
    (get_document (ss_scope s) SESSION_METADATA_COLLECTION (sm_session_id m) (ss_storage s))) in
  match found with
  | Some _ => st_err (SessionAlreadyExists (sm_session_id m))
  | None =>
      let! payload := st_lift (map_err SSerialization (to_value m)) in
      do! on_storage_mut (λ scope, put_document
            (StorageDocument_new scope SESSION_METADATA_COLLECTION (sm_session_id m) payload)) in
      st_ret tt
  end.

Definition set_session_title (session_id : SessionId) (title : str) : op unit :=
  let! found := on_store (metadata session_id) in
  let m := sm_with_title title found in
  let! payload := st_lift (map_err SSerialization (to_value m)) in
  do! on_storage_mut (λ scope, put_document
        (StorageDocument_new scope SESSION_METADATA_COLLECTION (sm_session_id m) payload)) in
  st_ret tt.

Definition set_session_description (session_id : SessionId) (description : str) : op unit :=
  let! found := on_store (metadata session_id) in
  let m := sm_with_description description found in
  let! payload := st_lift (map_err SSerialization (to_value m)) in
  do! on_storage_mut (λ scope, put_document
        (StorageDocument_new scope SESSION_METADATA_COLLECTION (sm_session_id m) payload)) in
  st_ret tt.

Definition delete_session (session_id : SessionId) : op bool :=
  on_storage_mut (λ scope, delete_document scope SESSION_METADATA_COLLECTION session_id).

Definition list_sessions (s : StorageBackedSessionStore) : result SessionStoreError (list SessionMetadata) :=
  let? documents := map_err SStorage
    (list_documents (ss_scope s) SESSION_METADATA_COLLECTION (ss_storage s)) in
  collect_result ((λ document, map_err SSerialization (from_value (doc_payload document))) <$> documents).

Definition append_record (session_id : SessionId) (record : SessionRecord M E)
    : op PersistedSessionRecord :=
  do! on_store (ensure_session session_id) in
  let! payload := st_lift (map_err SSerialization (to_value record)) in
  let! entry := on_storage_mut (λ scope, append_log scope (session_record_stream session_id) payload) in
  psr_from_log_entry entry.

Definition append_message (session_id : SessionId) (message : M) : op PersistedSessionRecord :=
  append_record session_id (RMessage message).
Definition append_event (session_id : SessionId) (event : E) : op PersistedSessionRecord :=
  append_record session_id (REvent event).

(** [map(..).collect()] over a fallible, stateful step: stops at the first error. *)
Fixpoint collect_st {A B} (f : A → op B) (l : list A) : op (list B) :=
  match l with
  | [] => st_ret []
  | a :: l => let! b := f a in let! bs := collect_st f l in st_ret (b :: bs)
  end.

Definition replay (session_id : SessionId) : op (list PersistedSessionRecord) :=
  do! on_store (ensure_session session_id) in
  let! entries := on_store (λ s, map_err SStorage
    (replay_log (ss_scope s) (session_record_stream session_id) (ss_storage s))) in
  collect_st psr_from_log_entry entries.
End session.
Arguments PersistedSessionRecord M E : clear implicits.
Arguments SessionStoreError {_}.
Arguments StorageBackedSessionStore S : clear implicits.
Arguments World S : clear implicits.

(** ** Sessions: the abstract store and the refinement

    The promise of [SessionStore]: a map of session metadata and, per session
    id, the list of records appended so far.  The storage-backed store is
    related to it by a forward simulation, for any lawful backend and any
    serialization that round-trips. *)

Section spec.
Context `{JsonLib} {M E : Type}.

Record SessionState := {
  sessions : gmap str SessionMetadata;
  streams : gmap str (list (SessionRecord M E));
  events : N;
}.
Definition empty_sessions (n : N) : SessionState :=
  {| sessions := ∅; streams := ∅; events := n |}.
Definition stream_of (m : SessionState) (id : SessionId) : list (SessionRecord M E) :=
  default [] (streams m !! id).

(** The [i]-th record of a session, reported under the event number [n]. *)
Definition persisted (id : SessionId) (n : N) (i : nat) (r : SessionRecord M E)
    : PersistedSessionRecord M E :=
  let sequence := N.of_nat (S i) in
  let record_id := lit "log-entry-" ++ show_N sequence in
  {| psr_id := record_id; psr_session_id := id; psr_sequence := sequence; psr_record := r;
     psr_persistence_event := RecordAppended (lit "event-" ++ show_N n) id record_id sequence |}.

(** The event counter after [k] draws. *)
Definition event_after (n : N) (k : nat) : N := u64_wrap (n + N.of_nat k).

Inductive SessionOp :=
| OpCreateSession (m : SessionMetadata)
| OpTitle (id : SessionId) (title : str)
| OpDescribe (id : SessionId) (description : str)
| OpDelete (id : SessionId)
| OpAppendMessage (id : SessionId) (message : M)
| OpAppendEvent (id : SessionId) (event : E)
| OpReplay (id : SessionId).

Inductive SessionOut :=
| OutUnit
| OutBool (b : bool)
| OutRecord (r : PersistedSessionRecord M E)
| OutRecords (l : list (PersistedSessionRecord M E)).

Definition outcome : Type := result SessionStoreError SessionOut * SessionState.

Definition put_session (s : SessionMetadata) (m : SessionState) : SessionState :=
  {| sessions := <[sm_session_id s := s]> (sessions m); streams := streams m; events := events m |}.

Definition spec_update (id : SessionId) (f : SessionMetadata → SessionMetadata) (m : SessionState)
    : outcome :=
  match sessions m !! id with
  | None => (Err (SessionNotFound id), m)
  | Some s => (Ok OutUnit, put_session (f s) m)
  end.

Definition spec_append (id : SessionId) (r : SessionRecord M E) (m : SessionState) : outcome :=
  match sessions m !! id with
  | None => (Err (SessionNotFound id), m)
  | Some _ =>
      (Ok (OutRecord (persisted id (events m) (length (stream_of m id)) r)),
       {| sessions := sessions m; streams := <[id := stream_of m id ++ [r]]> (streams m);
          events := u64_add (events m) 1 |})
  end.

(** The records of a session, each under the next event number. *)
Definition spec_replay (id : SessionId) (m : SessionState) : outcome :=
  match sessions m !! id with
  | None => (Err (SessionNotFound id), m)
  | Some _ =>
      (Ok (OutRecords (imap (λ i, persisted id (event_after (events m) i) i) (stream_of m id))),
       {| sessions := sessions m; streams := streams m;
          events := event_after (events m) (length (stream_of m id)) |})
  end.

Definition spec_session_step (o : SessionOp) (m : SessionState) : outcome :=
  match o with
  | OpCreateSession s =>
      match sessions m !! sm_session_id s with
      | Some _ => (Err (SessionAlreadyExists (sm_session_id s)), m)
      | None => (Ok OutUnit, put_session s m)
      end
  | OpTitle id title => spec_update id (sm_with_title title) m
  | OpDescribe id description => spec_update id (sm_with_description description) m
  | OpDelete id =>
      (Ok (OutBool (bool_decide (is_Some (sessions m !! id)))),
       {| sessions := delete id (sessions m); streams := streams m; events := events m |})
  | OpAppendMessage id message => spec_append id (RMessage message) m
  | OpAppendEvent id event => spec_append id (REvent event) m
  | OpReplay id => spec_replay id m
  end.

Definition spec_list (m : SessionState) : list SessionMetadata :=
  sort_by (cmp_on sm_session_id str_cmp) (snd <$> map_to_list (sessions m)).

(** Running operations in sequence, keeping their results. *)
Fixpoint run_session {W} (step : SessionOp → W → result SessionStoreError SessionOut * W)
    (ops : list SessionOp) (w : W) : list (result SessionStoreError SessionOut) * W :=
  match ops with
  | [] => ([], w)
  | o :: ops => let '(r, w) := step o w in
                let '(rs, w) := run_session step ops w in (r :: rs, w)
  end.
End spec.
Arguments SessionState M E : clear implicits.
Arguments SessionOp M E : clear implicits.
Arguments SessionOut M E : clear implicits.

Section simulation.
Context `{JsonLib} {M E : Type}.
Context `{!Serde SessionMetadata} `{!Serde (SessionRecord M E)}.
Context `{!SerdeLaws SessionMetadata} `{!SerdeLaws (SessionRecord M E)}.
Context {S : Type} `{!DocumentStore S} `{!AppendLogStore S} `{!StorageView S}.
Context `{!DocumentLaws S} `{!LogLaws S}.
Context (scope : StorageScope).

Definition out {A} (f : A → SessionOut M E) (p : result SessionStoreError A * World S)
    : result SessionStoreError (SessionOut M E) * World S :=
  (match p.1 with Ok a => Ok (f a) | Err e => Err e end, p.2).

Definition session_step (o : SessionOp M E) (w : World S)
    : result SessionStoreError (SessionOut M E) * World S :=
  match o with
  | OpCreateSession m => out (λ _, OutUnit) (create_session m w)
  | OpTitle id title => out (λ _, OutUnit) (set_session_title id title w)
  | OpDescribe id description => out (λ _, OutUnit) (set_session_description id description w)
  | OpDelete id => out OutBool (delete_session id w)
  | OpAppendMessage id message => out OutRecord (append_message id message w)
  | OpAppendEvent id event => out OutRecord (append_event id event w)
  | OpReplay id => out OutRecords (replay id w)
  end.

Definition session_doc (w : World S) (id : SessionId) : option StorageDocument :=
  docs (ss_storage (w_store w)) !! DocumentKey_new (ss_scope (w_store w)) SESSION_METADATA_COLLECTION id.
Definition session_log (w : World S) (id : SessionId) : list AppendLogEntry :=
  default [] (logs (ss_storage (w_store w)) !!
                LogKey_new (ss_scope (w_store w)) (session_record_stream id)).

Definition doc_holds (id : SessionId) (d : StorageDocument) (m : SessionMetadata) : Prop :=
  doc_id d = id ∧ sm_session_id m = id ∧ from_value (doc_payload d) = Ok m.
Definition entry_holds (id : SessionId) (i : nat) (e : AppendLogEntry) (r : SessionRecord M E) : Prop :=
  log_stream e = session_record_stream id ∧ log_sequence e = N.of_nat (Datatypes.S i) ∧
  log_id e = lit "log-entry-" ++ show_N (N.of_nat (Datatypes.S i)) ∧ from_value (log_payload e) = Ok r.

Record session_repr (w : World S) (m : SessionState M E) : Prop := {
  srepr_scope : ss_scope (w_store w) = scope;
  srepr_events : w_event_counter w = events m;
  srepr_bound : (events m < u64_modulus)%N;
  srepr_doc : ∀ id, option_Forall2 (doc_holds id) (session_doc w id) (sessions m !! id);
  srepr_log : ∀ id i, option_Forall2 (entry_holds id i) (session_log w id !! i) (stream_of m id !! i);
}.

(** ** Reads *)

Lemma metadata_repr w m id :
  session_repr w m → metadata id (w_store w) = ok_or (SessionNotFound id) (sessions m !! id).
Proof.
  intros Hr. unfold metadata. rewrite get_document_law. simpl.
  pose proof (srepr_doc _ _ Hr id) as Hd. unfold session_doc in Hd.
  destruct Hd as [d s (_ & _ & Hs)|]; simpl; [by rewrite Hs|done].
Qed.

Lemma ensure_repr w m id :
  session_repr w m →
  ensure_session id (w_store w) = match sessions m !! id with
                                  | Some _ => Ok tt | None => Err (SessionNotFound id) end.
Proof. intros Hr. unfold ensure_session. rewrite (metadata_repr w m) by done. by destruct (sessions m !! id). Qed.

Lemma session_stream_id id : session_id_from_stream (session_record_stream id) = Ok id.
Proof. unfold session_id_from_stream, session_record_stream. by rewrite app_assoc, strip_prefix_app. Qed.

Lemma log_length w m id : session_repr w m → length (session_log w id) = length (stream_of m id).
Proof.
  intros Hr. pose proof (srepr_log _ _ Hr id) as Hl.
  assert (Hiff : ∀ i, i < length (session_log w id) ↔ i < length (stream_of m id)).
  { intros i. rewrite <- !lookup_lt_is_Some. by destruct (Hl i); naive_solver. }
  pose proof (Hiff (length (session_log w id))). pose proof (Hiff (length (stream_of m id))). lia.
Qed.

(** Reading an entry draws one event number. *)
Lemma from_log_entry_repr id i e r (w : World S) :
  entry_holds id i e r →
  psr_from_log_entry e w = (Ok (persisted id (w_event_counter w) i r),
    {| w_event_counter := u64_add (w_event_counter w) 1; w_store := w_store w |}).
Proof.
  intros (Hs & Hn & Hi & Hd). unfold psr_from_log_entry, st_bind, st_lift.
  rewrite Hs, session_stream_id, Hd. simpl. unfold psr_with_id, st_bind, EventId_new. simpl.
  unfold persisted, st_ret. by rewrite Hn, Hi.
Qed.

Lemma event_after_0 n : (n < u64_modulus)%N → event_after n 0 = n.
Proof. intros Hn. unfold event_after. rewrite N.add_0_r. by apply u64_wrap_small. Qed.

Lemma event_after_S n k : event_after (u64_add n 1) k = event_after n (Datatypes.S k).
Proof.
  unfold event_after, u64_add, u64_wrap. rewrite N.Div0.add_mod_idemp_l. f_equal. lia.
Qed.

Lemma u64_add_bound n k : (u64_add n k < u64_modulus)%N.
Proof. by apply N.mod_lt. Qed.

Lemma collect_repr id k es rs (w : World S) :
  (w_event_counter w < u64_modulus)%N →
  (∀ i, option_Forall2 (entry_holds id (k + i)) (es !! i) (rs !! i)) →
  collect_st psr_from_log_entry es w =
    (Ok (imap (λ i, persisted id (event_after (w_event_counter w) i) (k + i)) rs),
     {| w_event_counter := event_after (w_event_counter w) (length rs); w_store := w_store w |}).
Proof.
  revert k rs w. induction es as [|e es IH]; intros k [|r rs] w Hn Hes;
    pose proof (Hes 0) as H0; inversion H0 as [? ? He|]; subst.
  - simpl. rewrite event_after_0 by done. unfold st_ret. by destruct w.
  - cbn [collect_st]. unfold st_bind at 1. rewrite Nat.add_0_r in He.
    rewrite (from_log_entry_repr id k e r) by done. unfold st_bind.
    rewrite (IH (Datatypes.S k) rs) by (apply u64_add_bound || (intros i; specialize (Hes (Datatypes.S i));
      by rewrite Nat.add_succ_r in Hes)). simpl. unfold st_ret.
    rewrite event_after_0, Nat.add_0_r, event_after_S by done. f_equal. f_equal. f_equal.
    apply imap_ext. intros i x _. simpl. by rewrite event_after_S, Nat.add_succ_r.
Qed.

(** ** Writes *)

Lemma put_session_repr w m (s : SessionMetadata) v :
  session_repr w m → to_value s = Ok v → from_value v = Ok s →
  ∃ d w', on_storage_mut (λ scope, put_document
      (StorageDocument_new scope SESSION_METADATA_COLLECTION (sm_session_id s) v)) w = (Ok d, w') ∧
    session_repr w' (put_session s m).
Proof.
  intros Hr Hv Hb. unfold on_storage_mut. set (doc := StorageDocument_new _ _ _ _).
  destruct (put_document_law doc (ss_storage (w_store w))) as (x & -> & Hd & _ & Hl).
  eexists _, _. split; [done|]. destruct Hr as [Hsc Hev Hbd Hdoc Hlog]. split; simpl; try done.
  - intros id. unfold session_doc. simpl. rewrite Hd, !lookup_insert.
    destruct (decide (sm_session_id s = id)) as [<-|Hne].
    + rewrite decide_True by done. by constructor.
    + rewrite decide_False; [apply Hdoc|]. by intros [= ].
  - intros id i. unfold session_log. simpl. rewrite Hl. apply Hlog.
Qed.

Lemma append_repr w m id r :
  session_repr w m → is_Some (sessions m !! id) →
  ∃ w', append_record id r w = (Ok (persisted id (events m) (length (stream_of m id)) r), w') ∧
    session_repr w' {| sessions := sessions m; streams := <[id := stream_of m id ++ [r]]> (streams m);
                       events := u64_add (events m) 1 |}.
Proof.
  intros Hr [s Hs]. destruct (serde_round_trip r) as (v & Hv & Hb).
  pose proof (log_length w m id Hr) as Hlen.
  unfold append_record, on_store, st_bind, st_read, st_lift.
  rewrite (ensure_repr w m), Hs, Hv by done. simpl. unfold on_storage_mut.
  destruct (append_log_law (ss_scope (w_store w)) (session_record_stream id) v (ss_storage (w_store w)))
    as (x & Hx & Hl & Hd & _). unfold append_log. rewrite Hx. simpl.
  fold (session_log w id) in Hl |- *.
  rewrite (from_log_entry_repr id (length (stream_of m id)) _ r); simpl.
  2: { unfold entry_holds, next_entry. simpl. rewrite Hlen.
       replace (N.of_nat (length (stream_of m id)) + 1)%N with
         (N.of_nat (Datatypes.S (length (stream_of m id)))) by lia. done. }
  destruct Hr as [Hsc Hev Hbd Hdoc Hlog]. eexists. rewrite Hev. split; [done|].
  split; simpl; try done.
  - apply u64_add_bound.
  - intros id'. unfold session_doc. simpl. rewrite Hd. apply Hdoc.
  - intros id' i. unfold session_log, stream_of. simpl. rewrite Hl, !lookup_insert.
    destruct (decide (id = id')) as [<-|Hne].
    + rewrite decide_True by done. simpl. fold (stream_of m id).
      destruct (decide (i < length (stream_of m id))) as [Hi|Hi].
      * rewrite !lookup_app_l by lia. apply Hlog.
      * rewrite !lookup_app_r, Hlen by lia.
        destruct (i - length (stream_of m id)) as [|j] eqn:Hj; simpl; [|rewrite !lookup_nil; constructor].
        constructor. assert (i = length (stream_of m id)) as -> by lia.
        unfold entry_holds, next_entry. simpl. rewrite Hlen.
        replace (N.of_nat (length (stream_of m id)) + 1)%N with
          (N.of_nat (Datatypes.S (length (stream_of m id)))) by lia. done.
    + rewrite decide_False; [apply Hlog|]. intros [= Heq]. done.
Qed.

(** ** The simulation *)

Definition agrees (p : result SessionStoreError (SessionOut M E) * World S)
    (q : @outcome _ M E) : Prop :=
  p.1 = q.1 ∧ session_repr p.2 q.2.

Lemma update_repr w m id (f : SessionMetadata → SessionMetadata) :
  (∀ s, sm_session_id (f s) = sm_session_id s) → session_repr w m →
  agrees (out (λ _, OutUnit)
    ((let! found := on_store (metadata id) in
      let m := f found in
      let! payload := st_lift (map_err SSerialization (to_value m)) in
      do! on_storage_mut (λ scope, put_document
            (StorageDocument_new scope SESSION_METADATA_COLLECTION (sm_session_id m) payload)) in
      st_ret tt) w)) (spec_update id f m).
Proof.
  intros Hf Hr. unfold spec_update, on_store, st_read, st_bind, st_lift.
  rewrite (metadata_repr w m) by done. destruct (sessions m !! id) as [s|] eqn:Hs; simpl; [|done].
  destruct (serde_round_trip (f s)) as (v & Hv & Hb). rewrite Hv. simpl.
  destruct (put_session_repr w m (f s) v Hr Hv Hb) as (d & w' & -> & Hr'). done.
Qed.

Lemma append_step_repr w m id r :
  session_repr w m → agrees (out OutRecord (append_record id r w)) (spec_append id r m).
Proof.
  intros Hr. unfold spec_append. destruct (sessions m !! id) as [s|] eqn:Hs.
  - destruct (append_repr w m id r Hr) as (w' & -> & Hr'); [by rewrite Hs|done].
  - unfold append_record, on_store, st_bind, st_read. by rewrite (ensure_repr w m), Hs.
Qed.

Lemma replay_repr w m id :
  session_repr w m → agrees (out OutRecords (replay id w)) (spec_replay id m).
Proof.
  intros Hr. unfold spec_replay, replay, on_store, st_bind, st_read.
  rewrite (ensure_repr w m) by done. destruct (sessions m !! id) as [s|] eqn:Hs; [|done].
  rewrite replay_log_law. simpl. fold (session_log w id).
  destruct Hr as [Hsc Hev Hbd Hdoc Hlog].
  rewrite (collect_repr id 0 _ (stream_of m id)); [|by rewrite Hev|apply Hlog].
  rewrite Hev. split; [done|]. split; try done. by apply N.mod_lt.
Qed.

Lemma delete_repr w m id :
  session_repr w m →
  agrees (out OutBool (delete_session id w)) (spec_session_step (OpDelete id) m).
Proof.
  intros [Hsc Hev Hbd Hdoc Hlog]. unfold delete_session, on_storage_mut.
  destruct (delete_document_law (ss_scope (w_store w)) SESSION_METADATA_COLLECTION id
    (ss_storage (w_store w))) as (x & -> & Hd & _ & Hl). simpl. split.
  - simpl. do 2 f_equal. apply bool_decide_ext. fold (session_doc w id).
    destruct (Hdoc id); naive_solver.
  - split; simpl; try done.
    + intros id'. unfold session_doc. simpl. rewrite Hd, !lookup_delete.
      destruct (decide (id = id')) as [<-|Hne].
      * rewrite decide_True by done. constructor.
      * rewrite decide_False; [apply Hdoc|]. by intros [= ].
    + intros id' i. unfold session_log. simpl. rewrite Hl. apply Hlog.
Qed.

Lemma session_step_repr o w m :
  session_repr w m → agrees (session_step o w) (spec_session_step o m).
Proof.
  intros Hr. destruct o as [s|id t|id d|id|id x|id x|id]; simpl;
    [|by apply update_repr|by apply update_repr|by apply delete_repr|by apply append_step_repr..
     |by apply replay_repr].
  unfold create_session, on_store, st_bind, st_read, st_lift.
  rewrite get_document_law. simpl. fold (session_doc w (sm_session_id s)).
  pose proof (srepr_doc _ _ Hr (sm_session_id s)) as Hd. inversion Hd; [done|].
  destruct (serde_round_trip s) as (v & Hv & Hb). rewrite Hv. simpl.
  destruct (put_session_repr w m s v Hr Hv Hb) as (d & w' & -> & Hr'). done.
Qed.

Lemma run_session_repr ops w m :
  session_repr w m →
  (run_session session_step ops w).1 = (run_session spec_session_step ops m).1 ∧
  session_repr (run_session session_step ops w).2 (run_session spec_session_step ops m).2.
Proof.
  revert w m. induction ops as [|o ops IH]; intros w m Hr; simpl; [done|].
  destruct (session_step_repr o w m Hr) as [H1 H2].
  destruct (session_step o w) as [r w'], (spec_session_step o m) as [r' m']. simpl in *. subst.
  destruct (IH w' m' H2) as [H3 H4].
  destruct (run_session session_step ops w'), (run_session spec_session_step ops m').
  simpl in *. by subst.
Qed.

(** A store with no session documents and no session logs in its scope. *)
Definition fresh_world (w : World S) : Prop :=
  ss_scope (w_store w) = scope ∧ (w_event_counter w < u64_modulus)%N ∧
  ∀ id, session_doc w id = None ∧ session_log w id = [].

Lemma fresh_world_repr w : fresh_world w → session_repr w (empty_sessions (w_event_counter w)).
Proof.
  intros (Hsc & Hn & Hf). split; try done.
  - intros id. destruct (Hf id) as [-> _]. simpl. rewrite lookup_empty. constructor.
  - intros id i. destruct (Hf id) as [_ ->]. unfold stream_of. simpl. rewrite lookup_empty. constructor.
Qed.
End simulation.

(** ** Properties of the session store

    Stated on the code's own operations, for every sequence of operations from
    a fresh store over any lawful backend. *)

Section listing.
Context `{JsonLib} {M E : Type}.
Context `{!Serde SessionMetadata} `{!Serde (SessionRecord M E)}.
Context {S : Type} `{!DocumentStore S} `{!AppendLogStore S} `{!StorageView S}.
Context `{!DocumentLaws S} `{!LogLaws S}.
Context (scope : StorageScope) (w : World S) (m : SessionState M E).
Context (Hr : session_repr scope w m).

Definition session_docs : list (DocumentKey * StorageDocument) :=
  filter (λ p, dk_scope p.1 = ss_scope (w_store w) ∧ dk_collection p.1 = SESSION_METADATA_COLLECTION)
    (map_to_list (docs (ss_storage (w_store w)))).

Definition stored_session (d : StorageDocument) : option SessionMetadata := sessions m !! doc_id d.

Lemma elem_of_session_docs k d :
  (k, d) ∈ session_docs ↔
  k = DocumentKey_new (ss_scope (w_store w)) SESSION_METADATA_COLLECTION (dk_id k) ∧
  session_doc w (dk_id k) = Some d.
Proof.
  unfold session_docs, session_doc. rewrite list_elem_of_filter, elem_of_map_to_list. simpl.
  destruct k as [sc c i]. simpl. split.
  - intros [[-> ->] Hd]. done.
  - intros [[= -> ->] Hd]. done.
Qed.

Lemma session_docs_decode k d :
  (k, d) ∈ session_docs →
  ∃ s, sessions m !! dk_id k = Some s ∧ doc_id d = dk_id k ∧ sm_session_id s = dk_id k ∧
    from_value (doc_payload d) = Ok s.
Proof.
  intros [_ Hd]%elem_of_session_docs. pose proof (srepr_doc _ _ _ Hr (dk_id k)) as Hdoc.
  rewrite Hd in Hdoc. inversion Hdoc as [? s (? & ? & ?)|]; subst. by exists s.
Qed.

Lemma stored_sessions_perm :
  omap stored_session session_docs.*2 ≡ₚ (map_to_list (sessions m)).*2.
Proof.
  set (f := λ p : DocumentKey * StorageDocument, (λ s, (dk_id p.1, s)) <$> sessions m !! dk_id p.1).
  assert (Hf : omap stored_session session_docs.*2 = (omap f session_docs).*2).
  { assert (Hall : ∀ p, p ∈ session_docs → stored_session p.2 = snd <$> f p).
    { intros [k d] (s & Hs & Hk & _)%session_docs_decode. unfold stored_session, f. simpl.
      by rewrite Hk, Hs. }
    revert Hall. generalize session_docs as l. induction l as [|p l IH]; intros Hall; [done|]. cbn.
    rewrite (Hall p) by left. destruct (f p); cbn; rewrite IH; [done| |done|];
      intros q Hq; apply Hall; by right. }
  rewrite Hf. f_equiv. apply NoDup_Permutation; [|apply NoDup_map_to_list|].
  - apply (NoDup_fmap_1 fst). apply (NoDup_fmap_omap (λ p, dk_id p.1)).
    { intros p q _. unfold f. destruct (sessions m !! _); simpl; [|done]. by intros [= <-]. }
    apply NoDup_fmap_2_strong; [|apply NoDup_filter, NoDup_map_to_list].
    intros [k d] [k' d'] [Hk Hd]%elem_of_session_docs [Hk' Hd']%elem_of_session_docs Heq.
    simpl in *. rewrite Heq in Hd, Hk. congruence.
  - intros [id s]. rewrite elem_of_map_to_list, list_elem_of_omap. unfold f. split.
    + intros ([k d] & _ & Hs). simpl in Hs. destruct (sessions m !! dk_id k) eqn:Hk; simplify_eq/=. done.
    + intros Hs. pose proof (srepr_doc _ _ _ Hr id) as Hdoc. rewrite Hs in Hdoc.
      inversion Hdoc as [d ? Hd Heq|]; subst.
      exists (DocumentKey_new (ss_scope (w_store w)) SESSION_METADATA_COLLECTION id, d). simpl.
      rewrite Hs. split; [|done]. by apply elem_of_session_docs.
Qed.

Lemma list_sessions_repr : list_sessions (w_store w) = Ok (spec_list m).
Proof.
  unfold list_sessions. rewrite list_documents_law. simpl. unfold documents_of.
  fold session_docs. set (ds := sort_by _ session_docs.*2).
  assert (Hds : ∀ d, d ∈ ds → ∃ s, stored_session d = Some s ∧ sm_session_id s = doc_id d ∧
                                  from_value (doc_payload d) = Ok s).
  { intros d ([k d'] & -> & Hin)%elem_of_sort_by%list_elem_of_fmap. simpl.
    apply session_docs_decode in Hin as (s & Hs & Hk & Hid & Hdec).
    exists s. unfold stored_session. by rewrite Hk. }
  assert (Hms : (λ d, map_err SSerialization (from_value (doc_payload d))) <$> ds =
                Ok <$> omap stored_session ds).
  { revert Hds. generalize ds as l. induction l as [|d l IH]; intros Hl; [done|]. cbn.
    destruct (Hl d) as (s & Hs & _ & Hdec); [left|]. rewrite Hs, Hdec. cbn. f_equal.
    apply IH. intros d' Hd'. apply Hl. by right. }
  rewrite (proj2 (collect_result_Ok _ (omap stored_session ds)) Hms). f_equal.
  assert (Hp : omap stored_session ds ≡ₚ (map_to_list (sessions m)).*2).
  { rewrite <- stored_sessions_perm. unfold ds. by rewrite sort_by_perm. }
  unfold spec_list. apply (sorted_perm_unique (cmp_on sm_session_id str_cmp)).
  - intros s s' Hs Hs' Heq%(cmp_eq str_cmp).
    rewrite list_elem_of_omap in Hs, Hs'. destruct Hs as (d & Hd & Hs), Hs' as (d' & Hd' & Hs').
    destruct (Hds d Hd) as (? & ? & Hid & _), (Hds d' Hd') as (? & ? & Hid' & _).
    simplify_eq. unfold stored_session in *. congruence.
  - apply (StronglySorted_omap str_cmp doc_id).
    + intros d s Hd Hs. destruct (Hds d Hd) as (? & ? & ? & _). by simplify_eq.
    + apply sort_by_sorted. apply _.
  - apply sort_by_sorted. apply _.
  - by rewrite sort_by_perm.
Qed.
End listing.

(** ** History *)

Section history.
Context `{JsonLib} {M E : Type}.

(** The records appended to a session: the append operations on its id that
    succeeded, in order. *)
Fixpoint appended (id : SessionId) (ops : list (SessionOp M E))
    (rs : list (result SessionStoreError (SessionOut M E))) : list (SessionRecord M E) :=
  match ops, rs with
  | o :: ops, r :: rs =>
      match o, r with
      | OpAppendMessage id' x, Ok _ => if bool_decide (id' = id) then [RMessage x] else []
      | OpAppendEvent id' x, Ok _ => if bool_decide (id' = id) then [REvent x] else []
      | _, _ => []
      end ++ appended id ops rs
  | _, _ => []
  end.

Lemma replayed_records id (n : nat → N) (l : list (SessionRecord M E)) :
  psr_record <$> imap (λ i, persisted id (n i) i) l = l.
Proof.
  apply list_eq. intros i. rewrite list_lookup_fmap, list_lookup_imap. by destruct (l !! i).
Qed.

Lemma stream_of_append (m m' : SessionState M E) id id' r :
  streams m' = <[id' := stream_of m id' ++ [r]]> (streams m) →
  stream_of m' id = stream_of m id ++ (if bool_decide (id' = id) then [r] else []).
Proof.
  intros Hm. unfold stream_of at 1. rewrite Hm, lookup_insert.
  destruct (decide (id' = id)) as [->|Hne].
  - by rewrite bool_decide_eq_true_2.
  - rewrite bool_decide_eq_false_2 by done. by rewrite app_nil_r.
Qed.

Lemma spec_step_stream o (m : SessionState M E) id :
  stream_of (spec_session_step o m).2 id =
  stream_of m id ++ appended id [o] [(spec_session_step o m).1].
Proof.
  destruct o; simpl; unfold spec_update, spec_append, spec_replay;
    try (destruct (sessions m !! _)); simpl; rewrite ?app_nil_r; try done; by apply stream_of_append.
Qed.

Lemma run_stream ops (m : SessionState M E) id :
  stream_of (run_session spec_session_step ops m).2 id =
  stream_of m id ++ appended id ops (run_session spec_session_step ops m).1.
Proof.
  revert m. induction ops as [|o ops IH]; intros m; simpl; [by rewrite app_nil_r|].
  pose proof (spec_step_stream o m id) as Ho. simpl in Ho. rewrite app_nil_r in Ho.
  destruct (spec_session_step o m) as [r m'] eqn:Hs. specialize (IH m'). simpl in *.
  destruct (run_session spec_session_step ops m') as [rs m'']. simpl in *.
  by rewrite IH, Ho, app_assoc.
Qed.
End history.

Section props.
Context `{JsonLib} {M E : Type}.
Context `{!Serde SessionMetadata} `{!Serde (SessionRecord M E)}.
Context `{!SerdeLaws SessionMetadata} `{!SerdeLaws (SessionRecord M E)}.
Context {S : Type} `{!DocumentStore S} `{!AppendLogStore S} `{!StorageView S}.
Context `{!DocumentLaws S} `{!LogLaws S}.
Context (scope : StorageScope).

Definition session_reachable (w : World S) : Prop :=
  ∃ w0 (ops : list (SessionOp M E)), fresh_world scope w0 ∧ w = (run_session session_step ops w0).2.

Lemma session_reachable_repr w :
  session_reachable w → ∃ m : SessionState M E, session_repr scope w m.
Proof.
  intros (w0 & ops & Hf%(fresh_world_repr (M:=M) (E:=E)) & ->).
  eexists. by apply (run_session_repr scope ops w0).
Qed.

(** C17. Over any lawful backend, every sequence of session operations from a
    fresh store returns exactly the results of the abstract session store,
    errors and event numbers included, and afterwards metadata reads and the
    listing (in id order) agree with it. *)
Theorem session_store_refines (ops : list (SessionOp M E)) (w0 : World S) :
  fresh_world scope w0 →
  let '(rs, w) := run_session session_step ops w0 in
  let '(rs', m) := run_session spec_session_step ops (empty_sessions (w_event_counter w0)) in
  rs = rs' ∧
  (∀ id, metadata id (w_store w) = ok_or (SessionNotFound id) (sessions m !! id)) ∧
  list_sessions (w_store w) = Ok (spec_list m).
Proof.
  intros Hf%(fresh_world_repr (M:=M) (E:=E)).
  destruct (run_session_repr scope ops w0 _ Hf) as [Hrs Hr].
  destruct (run_session session_step ops w0), (run_session spec_session_step ops _). simpl in *.
  split_and!; [done| |by apply (list_sessions_repr scope)].
  intros id. by apply (metadata_repr scope).
Qed.

(** Replay is the history: after any operations, replaying a session that
    has metadata returns exactly the records of the appends to its id that
    succeeded, in order, under that id and numbered from one without gaps. *)
Theorem replay_is_history (ops : list (SessionOp M E)) (w0 : World S) id meta :
  fresh_world scope w0 →
  let '(rs, w) := run_session session_step ops w0 in
  metadata id (w_store w) = Ok meta →
  ∃ l, (replay id w).1 = Ok l ∧ psr_record <$> l = appended id ops rs ∧
    ∀ i p, l !! i = Some p →
      psr_session_id p = id ∧ psr_sequence p = N.of_nat (Datatypes.S i) ∧
      psr_id p = lit "log-entry-" ++ show_N (N.of_nat (Datatypes.S i)).
Proof.
  intros Hf%(fresh_world_repr (M:=M) (E:=E)).
  destruct (run_session_repr scope ops w0 _ Hf) as [Hrs Hr].
  pose proof (run_stream ops (empty_sessions (w_event_counter w0)) id) as Hst.
  destruct (run_session session_step ops w0) as [rs w], (run_session spec_session_step ops _) as [rs' m].
  simpl in *. subst rs'. intros Hm.
  rewrite (metadata_repr scope w m) in Hm by done.
  destruct (replay_repr scope w m id Hr) as [Hres _]. unfold spec_replay in Hres.
  destruct (sessions m !! id); [|done].
  destruct (replay id w) as [[l|e] w']; simpl in Hres; [|done]. injection Hres as ->.
  eexists. split; [done|]. split.
  - rewrite replayed_records. by rewrite Hst.
  - intros i p. rewrite list_lookup_imap. destruct (stream_of m id !! i); simpl; [|done].
    by intros [= <-].
Qed.

(** Deletion gates access: after [delete_session] the session's metadata
    is gone, it is not listed, and replaying or appending to it is refused with
    [SessionNotFound] and changes nothing; every other session is untouched. *)
Theorem deleted_session_unreachable w id (r : SessionRecord M E) :
  session_reachable w →
  let w' := (delete_session id w).2 in
  metadata id (w_store w') = Err (SessionNotFound id) ∧
  (∃ l, list_sessions (w_store w') = Ok l ∧ id ∉ sm_session_id <$> l) ∧
  replay (M:=M) (E:=E) id w' = (Err (SessionNotFound id), w') ∧
  append_record id r w' = (Err (SessionNotFound id), w') ∧
  ∀ id', id' ≠ id → metadata id' (w_store w') = metadata id' (w_store w).
Proof.
  intros [m Hr]%session_reachable_repr w'. destruct (delete_repr scope w m id Hr) as [_ Hr'].
  simpl in Hr'. fold w' in Hr'.
  assert (Hmeta : metadata id (w_store w') = Err (SessionNotFound id)).
  { rewrite (metadata_repr scope w' _ id Hr'). simpl. by rewrite lookup_delete_eq. }
  assert (Hens : ensure_session id (w_store w') = Err (SessionNotFound id)).
  { unfold ensure_session. by rewrite Hmeta. }
  split_and!; [done| |..].
  - eexists. split; [by eapply list_sessions_repr|]. unfold spec_list. simpl.
    intros (s & Hid & Hs)%list_elem_of_fmap.
    apply elem_of_sort_by, list_elem_of_fmap in Hs as ([k s'] & -> & Hs). simpl in Hid.
    apply elem_of_map_to_list in Hs. pose proof (srepr_doc _ _ _ Hr' k) as Hd. simpl in Hd.
    rewrite Hs in Hd. inversion Hd as [? ? (_ & Hk & _)|]; subst. by rewrite lookup_delete_eq in Hs.
  - unfold replay, on_store, st_bind, st_read. by rewrite Hens.
  - unfold append_record, on_store, st_bind, st_read. by rewrite Hens.
  - intros id' Hne. rewrite (metadata_repr scope w' _ id' Hr'), (metadata_repr scope w m id' Hr).
    simpl. by rewrite lookup_delete_ne.
Qed.

(** Deleting a session does not delete its records: creating a session
    again under the same id makes every record written before the deletion
    replayable once more. *)
Theorem recreated_session_replays w id meta meta' :
  session_reachable w → metadata id (w_store w) = Ok meta → sm_session_id meta' = id →
  ∃ l w1 w2 l', (replay (M:=M) (E:=E) id w).1 = Ok l ∧
    delete_session id w = (Ok true, w1) ∧ create_session meta' w1 = (Ok tt, w2) ∧
    (replay (M:=M) (E:=E) id w2).1 = Ok l' ∧ psr_record <$> l' = psr_record <$> l.
Proof.
  intros [m Hr]%session_reachable_repr Hmeta Hid.
  rewrite (metadata_repr scope w m) in Hmeta by done.
  destruct (sessions m !! id) as [s|] eqn:Hs; simplify_eq/=.
  destruct (replay_repr scope w m (sm_session_id meta') Hr) as [Hl _].
  destruct (delete_repr scope w m (sm_session_id meta') Hr) as [Hd Hr1].
  destruct (delete_session (sm_session_id meta') w) as [rd w1]. simpl in *.
  rewrite Hs, bool_decide_eq_true_2 in Hd by done.
  destruct (session_step_repr scope (OpCreateSession meta') w1 _ Hr1) as [Hc Hr2]. simpl in Hc, Hr2.
  rewrite lookup_delete_eq in Hc, Hr2.
  destruct (create_session meta' w1) as [rc w2] eqn:Hcreate. simpl in *.
  destruct (replay_repr scope w2 _ (sm_session_id meta') Hr2) as [Hl2 _].
  unfold spec_replay in Hl, Hl2. simpl in Hl2. rewrite lookup_insert_eq in Hl2. rewrite Hs in Hl.
  destruct (replay (sm_session_id meta') w) as [[l|e] wl]; simpl in Hl; [|done].
  destruct (replay (sm_session_id meta') w2) as [[l2|e] wl2] eqn:Hreplay; simpl in Hl2; [|done].
  destruct rd as [b|]; [|done]. destruct rc as [[]|]; [|done].
  injection Hd as ->. injection Hl as ->. injection Hl2 as ->.
  eexists _, w1, w2, _. rewrite Hreplay. split_and!; [reflexivity|reflexivity|done|reflexivity|].
  by rewrite !replayed_records.
Qed.
End props.

(** ** A concrete run *)

Definition demo_session_json : JsonLib :=
  {| Value := SessionMetadata + SessionRecord str N; JsonError := () |}.
#[local] Existing Instance demo_session_json.

#[local] Instance demo_serde_metadata : Serde SessionMetadata := {|
  to_value := λ m : SessionMetadata, Ok (inl m : Value);
  from_value := λ v : Value, match v with inl m => Ok m | inr _ => Err () end;
|}.
#[local] Instance demo_serde_session_record : Serde (SessionRecord str N) := {|
  to_value := λ r : SessionRecord str N, Ok (inr r : Value);
  from_value := λ v : Value, match v with inr r => Ok r | inl _ => Err () end;
|}.
#[local] Instance demo_serde_metadata_laws : SerdeLaws SessionMetadata.
Proof. intros m. by exists (inl m). Qed.
#[local] Instance demo_serde_session_record_laws : SerdeLaws (SessionRecord str N).
Proof. intros r. by exists (inr r). Qed.

Definition demo_world : World InMemoryStorage :=
  {| w_event_counter := 1;
     w_store := {| ss_scope := scope_global; ss_storage := InMemoryStorage_default |} |}.

Lemma demo_world_fresh : fresh_world scope_global demo_world.
Proof. repeat split. Qed.

Definition demo_meta : SessionMetadata := SessionMetadata_new (lit "s1") (lit "cli").

Definition demo_session_ops : list (SessionOp str N) :=
  [ OpCreateSession demo_meta;
    OpAppendMessage (lit "s1") (lit "hello");
    OpTitle (lit "s1") (lit "  Greeting ");
    OpAppendEvent (lit "s1") 7%N;
    OpAppendEvent (lit "s2") 8%N;
    OpReplay (lit "s1") ].

Definition demo_session_final : World InMemoryStorage :=
  (run_session session_step demo_session_ops demo_world).2.

Lemma demo_session_reachable : session_reachable (M:=str) (E:=N) scope_global demo_session_final.
Proof. exists demo_world, demo_session_ops. split; [apply demo_world_fresh|reflexivity]. Qed.

Lemma session_store_refines_witness :
  (run_session session_step demo_session_ops demo_world).1 =
  (run_session spec_session_step demo_session_ops (empty_sessions 1)).1.
Proof.
  pose proof (session_store_refines scope_global demo_session_ops demo_world demo_world_fresh) as Hw.
  destruct (run_session session_step demo_session_ops demo_world),
    (run_session spec_session_step demo_session_ops (empty_sessions (w_event_counter demo_world))) eqn:Hs.
  change (w_event_counter demo_world) with 1%N in Hs. rewrite Hs. exact (proj1 Hw).
Defined.

Lemma replay_is_history_witness :
  ∃ l, (replay (M:=str) (E:=N) (lit "s1") demo_session_final).1 = Ok l ∧
    psr_record <$> l = [RMessage (lit "hello"); REvent 7%N].
Proof.
  pose proof (replay_is_history scope_global demo_session_ops demo_world (lit "s1")
    (sm_with_title (lit "Greeting") demo_meta) demo_world_fresh) as Hw.
  unfold demo_session_final.
  assert (Ha : appended (lit "s1") demo_session_ops
                 (run_session session_step demo_session_ops demo_world).1 =
               [RMessage (lit "hello"); REvent 7%N]) by (vm_compute; reflexivity).
  assert (Hm : metadata (lit "s1") (w_store (run_session session_step demo_session_ops demo_world).2) =
               Ok (sm_with_title (lit "Greeting") demo_meta)) by (vm_compute; reflexivity).
  destruct (run_session session_step demo_session_ops demo_world) as [rs w].
  destruct (Hw Hm) as (l & Hl & Hrec & _). exists l. split; [exact Hl|].
  rewrite Hrec. exact Ha.
Defined.

Lemma deleted_session_unreachable_witness :
  metadata (lit "s1") (w_store (delete_session (lit "s1") demo_session_final).2) =
    Err (SessionNotFound (lit "s1")).
Proof.
  exact (proj1 (deleted_session_unreachable scope_global demo_session_final (lit "s1")
                  (RMessage (lit "x") : SessionRecord str N) demo_session_reachable)).
Defined.

Lemma recreated_session_replays_witness :
  ∃ l w1 w2 l', (replay (M:=str) (E:=N) (lit "s1") demo_session_final).1 = Ok l ∧
    delete_session (lit "s1") demo_session_final = (Ok true, w1) ∧
    create_session demo_meta w1 = (Ok tt, w2) ∧
    (replay (M:=str) (E:=N) (lit "s1") w2).1 = Ok l' ∧ psr_record <$> l' = psr_record <$> l.
Proof.
  apply (recreated_session_replays scope_global demo_session_final (lit "s1")
           (sm_with_title (lit "Greeting") demo_meta) demo_meta demo_session_reachable).
  - vm_compute. reflexivity.
  - reflexivity.
Defined.
