(* ===== verification/Cron.v ===== *)
(** * Schedules and cron jobs ([codel00p-cron/src/lib.rs])

    Parsing and printing of interval schedules, due detection, and the
    file-backed job store.  The job directory is a finite map from file names to
    contents (absent until the first write); TOML is a parameter. *)

From stdpp Require Import base numbers strings gmap list.
From S2P Require Import Prelude RustStr.

Definition dot : char := 46%N.
Definition dash : char := 45%N.

(** ** Errors

    The [Io] case is not produced here: reads and writes of the directory
    succeed. *)

Inductive CronError {TomlError : Type} :=
| InvalidSchedule (spec reason : str)
| InvalidId (id : str)
| UnknownJob (id : str)
| EmptyPrompt
| Parse (path : str) (source : TomlError).
Arguments CronError TomlError : clear implicits.

(** ** Schedules *)

Record Schedule := { interval_secs : N }.

Definition next_after (s : Schedule) (now_epoch_secs : N) : N :=
  u64_saturating_add now_epoch_secs (interval_secs s).

(** The [for] loop over the units of [humanize_secs]. *)
Fixpoint humanize_in (units : list (N * str)) (secs : N) : str :=
  match units with
  | [] => show_N secs ++ lit "s"
  | (unit_secs, suffix) :: units =>
      if ((unit_secs <=? secs) && (secs mod unit_secs =? 0))%N
      then show_N (secs / unit_secs) ++ suffix
      else humanize_in units secs
  end.
Definition humanize_secs (secs : N) : str :=
  humanize_in [(604800%N, lit "w"); (86400%N, lit "d"); (3600%N, lit "h"); (60%N, lit "m")] secs.

Definition describe (s : Schedule) : str := lit "every " ++ humanize_secs (interval_secs s).

(** The unit words and their seconds. *)
Definition unit_secs (unit : str) : option N :=
  let is_any words := bool_decide (unit ∈ lit <$> words) in
  if is_any ["s"; "sec"; "secs"; "second"; "seconds"]%string then Some 1%N
  else if is_any ["m"; "min"; "mins"; "minute"; "minutes"]%string then Some 60%N
  else if is_any ["h"; "hr"; "hrs"; "hour"; "hours"]%string then Some 3600%N
  else if is_any ["d"; "day"; "days"]%string then Some 86400%N
  else if is_any ["w"; "week"; "weeks"]%string then Some 604800%N
  else None.

Section parse.
Context {TomlError : Type}.

Definition parse_schedule (spec : str) : result (CronError TomlError) Schedule :=
  let trimmed := trim spec in
  let body := trim (match strip_prefix (lit "every ") trimmed with
                    | Some rest => rest
                    | None => default trimmed (strip_prefix (lit "every") trimmed)
                    end) in
  let invalid := InvalidSchedule spec in
  let? (number, unit) := ok_or (invalid (lit "expected a number and a unit, e.g. 30m"))
                           (split_at_first is_ascii_alphabetic body) in
  let? amount := ok_or (invalid (lit "expected a leading number, e.g. 30m"))
                   (parse_u64 (trim number)) in
  if (amount =? 0)%N then Err (invalid (lit "interval must be greater than zero"))
  else
    let? secs := ok_or (invalid (lit "unknown unit `" ++ trim unit ++ lit "`"))
                   (unit_secs (trim unit)) in
    Ok {| interval_secs := u64_mul amount secs |}.
End parse.

(** ** Jobs *)

Record CronJob := {
  job_id : str;
  job_schedule : str;
  job_prompt : str;
  job_enabled : bool;
  job_workspace : option str;
  job_provider : option str;
  job_model : option str;
  job_command : option (list str);
  job_last_run_epoch : option N;
}.

Definition set_job_enabled (enabled : bool) (j : CronJob) : CronJob :=
  {| job_id := job_id j; job_schedule := job_schedule j; job_prompt := job_prompt j;
     job_enabled := enabled; job_workspace := job_workspace j; job_provider := job_provider j;
     job_model := job_model j; job_command := job_command j;
     job_last_run_epoch := job_last_run_epoch j |}.
Definition set_job_last_run (ran_at : N) (j : CronJob) : CronJob :=
  {| job_id := job_id j; job_schedule := job_schedule j; job_prompt := job_prompt j;
     job_enabled := job_enabled j; job_workspace := job_workspace j; job_provider := job_provider j;
     job_model := job_model j; job_command := job_command j;
     job_last_run_epoch := Some ran_at |}.

Definition job_action (j : CronJob) : str :=
  match job_command j with
  | Some args => lit "$ codel00p " ++ join (lit " ") args
  | None => job_prompt j
  end.

Definition parsed_schedule {TomlError} (j : CronJob) : result (CronError TomlError) Schedule :=
  parse_schedule (job_schedule j).

Definition is_due (j : CronJob) (now : N) : bool :=
  if negb (job_enabled j) then false
  else match parsed_schedule (TomlError := unit) j with
       | Err _ => false
       | Ok schedule =>
           match job_last_run_epoch j with
           | None => true
           | Some last => (next_after schedule last <=? now)%N
           end
       end.

Definition due_jobs (jobs : list CronJob) (now : N) : list CronJob :=
  List.filter (λ job, is_due job now) jobs.

(** ** Schedule properties *)

Section schedule_props.
Context {TomlError : Type}.

(** A unit word: letters only. *)
Lemma unit_secs_word u k :
  unit_secs u = Some k →
  k ∈ [1; 60; 3600; 86400; 604800]%N ∧ u ≠ [] ∧ trim u = u ∧
  ∃ c r, u = c :: r ∧ is_ascii_alphabetic c = true.
Proof.
  unfold unit_secs. intros Hu.
  repeat match type of Hu with
  | context [bool_decide ?P] =>
      destruct (bool_decide_reflect P) as [Hin|_];
      [injection Hu as <-; split; [repeat constructor|];
       apply list_elem_of_fmap in Hin as (s & -> & Hs);
       repeat (apply elem_of_cons in Hs as [->|Hs]; [by (split_and!; [done|done|by eexists _, _])|]);
       by apply elem_of_nil in Hs
      |]
  end.
  done.
Qed.

(** The amount and the unit of a body. *)
Lemma parse_body n u k :
  (0 < n < u64_modulus)%N → unit_secs u = Some k →
  trim (show_N n ++ u) = show_N n ++ u ∧
  split_at_first is_ascii_alphabetic (show_N n ++ u) = Some (show_N n, u).
Proof.
  intros Hn (_ & Hne & Htrim & c & r & -> & Hc)%unit_secs_word. split.
  - apply trim_id.
    + intros d. destruct (show_N n) as [|x s] eqn:Hs; [by apply show_N_nonempty in Hs|].
      intros [= <-]. apply digit_not_whitespace, (show_N_digit n). rewrite Hs. left.
    + intros d. rewrite last_app. destruct (last (c :: r)) as [z|] eqn:Hz; [|by apply last_None in Hz].
      intros [= <-]. by apply (trim_last (c :: r)).
  - apply split_at_first_avoids; [|done]. intros d Hd. by apply digit_not_alphabetic, (show_N_digit n).
Qed.

Lemma strip_every_digits n u p :
  strip_prefix (101%N :: p) (show_N n ++ u) = None.
Proof.
  destruct (show_N n) as [|x s] eqn:Hs; [by apply show_N_nonempty in Hs|].
  cbn -[N.eqb]. destruct (N.eqb_spec 101 x) as [<-|]; [|done].
  assert (Hd : is_ascii_digit 101%N = true) by (apply (show_N_digit n); rewrite Hs; left). done.
Qed.

Definition every_prefixes : list str := [[]; lit "every "; lit "every"].

Lemma parse_prefixed p n u k :
  p ∈ every_prefixes → (0 < n < u64_modulus)%N → unit_secs u = Some k →
  parse_schedule (TomlError := TomlError) (p ++ show_N n ++ u) = Ok {| interval_secs := u64_mul n k |}.
Proof.
  intros Hp Hn Hu. destruct (parse_body n u k Hn Hu) as [Htrim Hsplit].
  assert (Hbody : trim (match strip_prefix (lit "every ") (trim (p ++ show_N n ++ u)) with
                        | Some rest => rest
                        | None => default (trim (p ++ show_N n ++ u))
                                    (strip_prefix (lit "every") (trim (p ++ show_N n ++ u)))
                        end) = show_N n ++ u).
  { assert (Hlast : ∀ q d, last (q ++ show_N n ++ u) = Some d → is_whitespace d = false).
    { intros q d. rewrite last_app. destruct (last (show_N n ++ u)) as [z|] eqn:Hz.
      - intros [= <-]. by apply (trim_last _ z Htrim).
      - apply last_None, app_eq_nil in Hz as [Hz _]. by apply show_N_nonempty in Hz. }
    unfold every_prefixes in Hp. apply elem_of_cons in Hp as [->|Hp].
    { change ([] ++ show_N n ++ u) with (show_N n ++ u). rewrite Htrim.
      change (lit "every ") with (101%N :: lit "very ").
      change (lit "every") with (101%N :: lit "very"). by rewrite !strip_every_digits. }
    assert (Ht : trim (p ++ show_N n ++ u) = p ++ show_N n ++ u).
    { apply trim_id; [|apply Hlast]. intros d.
      apply elem_of_cons in Hp as [->|[->|Hp%elem_of_nil]%elem_of_cons]; [by intros [= <-]..|done]. }
    rewrite Ht. apply elem_of_cons in Hp as [->|[->|Hp%elem_of_nil]%elem_of_cons]; [| |done].
    - by rewrite strip_prefix_app.
    - change (lit "every ") with (lit "every" ++ [32%N]).
      assert (Hno : strip_prefix (lit "every" ++ [32%N]) (lit "every" ++ show_N n ++ u) = None).
      { destruct (show_N n) as [|x l] eqn:Hs; [by apply show_N_nonempty in Hs|].
        cbn -[N.eqb]. rewrite !N.eqb_refl. destruct (N.eqb_spec 32 x) as [<-|]; [|done].
        assert (Hd : is_ascii_digit 32%N = true) by (apply (show_N_digit n); rewrite Hs; left). done. }
      by rewrite Hno, strip_prefix_app. }
  unfold parse_schedule. rewrite Hbody, Hsplit. simpl.
  rewrite trim_show_N, parse_show_u64 by lia. simpl.
  destruct (N.eqb_spec n 0); [lia|]. destruct (unit_secs_word u k Hu) as (_ & _ & -> & _).
  by rewrite Hu.
Qed.

(** The grammar: a positive [u64] followed by a unit word, with or without
    a leading [every], is accepted, and without overflow the interval is the
    amount times the unit's seconds, at least one second. *)
Theorem parse_schedule_grammar p n u k :
  p ∈ every_prefixes → (0 < n)%N → unit_secs u = Some k → (n * k < u64_modulus)%N →
  parse_schedule (TomlError := TomlError) (p ++ show_N n ++ u) = Ok {| interval_secs := n * k |} ∧
  (1 ≤ n * k)%N.
Proof.
  intros Hp Hn Hu Hnk. destruct (unit_secs_word u k Hu) as [Hk _].
  assert (1 ≤ k)%N by (repeat (apply elem_of_cons in Hk as [->|Hk]; [lia|]); by apply elem_of_nil in Hk).
  rewrite (parse_prefixed p n u k) by (done || nia). unfold u64_mul. rewrite u64_wrap_small by done.
  split; [done|nia].
Qed.

Lemma humanize_in_parse units secs :
  (0 < secs < u64_modulus)%N →
  Forall (λ us, (0 < us.1)%N ∧ unit_secs us.2 = Some us.1) units →
  ∃ n u k, humanize_in units secs = show_N n ++ u ∧ (0 < n < u64_modulus)%N ∧
    unit_secs u = Some k ∧ (n * k = secs)%N.
Proof.
  intros Hs. induction 1 as [|[k u] units [Hk Hu] _ IH]; simpl in *.
  - exists secs, (lit "s"), 1%N. split_and!; [done|lia..|done|lia].
  - destruct ((k <=? secs) && (secs mod k =? 0))%N eqn:Hb; [|done].
    apply andb_true_iff in Hb as [Hle%N.leb_le Hmod%N.eqb_eq].
    pose proof (N.div_mod secs k) as Hdm. rewrite Hmod in Hdm.
    exists (secs / k)%N, u, k. split_and!; [done| | |done|lia].
    + apply N.div_str_pos. lia.
    + apply N.Div0.div_lt_upper_bound. nia.
Qed.

(** Round trip: the description of any positive interval parses back to
    that interval. *)
Theorem parse_describe secs :
  (0 < secs < u64_modulus)%N →
  parse_schedule (TomlError := TomlError) (describe {| interval_secs := secs |}) =
  Ok {| interval_secs := secs |}.
Proof.
  intros Hs. unfold describe, humanize_secs. simpl interval_secs.
  destruct (humanize_in_parse [(604800%N, lit "w"); (86400%N, lit "d"); (3600%N, lit "h"); (60%N, lit "m")] secs)
    as (n & u & k & -> & Hn & Hu & <-); [done|by repeat constructor|].
  rewrite (parse_prefixed (lit "every ") n u k); [|set_solver|done..].
  unfold u64_mul. rewrite u64_wrap_small by lia. done.
Qed.

(** The interval is computed modulo [2^64]: a huge amount passes the
    positivity check and still yields an interval of zero seconds, due again as
    soon as it ran. *)
Theorem schedule_overflow :
  parse_schedule (TomlError := TomlError) (lit "144115188075855872w") = Ok {| interval_secs := 0 |} ∧
  ∀ now, next_after {| interval_secs := 0 |} now = N.min now u64_max.
Proof. split; [vm_compute; reflexivity|]. intros now. unfold next_after, u64_saturating_add. simpl. by rewrite N.add_0_r. Qed.
End schedule_props.

(** ** Due detection *)

(** A job is due exactly when it is enabled, its stored schedule is valid
    and it has never run or its interval has passed since the last run; once
    due it stays due until it runs. *)
Theorem is_due_spec j now :
  (is_due j now = true ↔
   job_enabled j = true ∧ ∃ s, parsed_schedule (TomlError := unit) j = Ok s ∧
     ∀ last, job_last_run_epoch j = Some last → (N.min (last + interval_secs s) u64_max ≤ now)%N) ∧
  (∀ now', is_due j now = true → (now ≤ now')%N → is_due j now' = true).
Proof.
  unfold is_due. split.
  - destruct (job_enabled j); simpl; [|naive_solver].
    destruct (parsed_schedule j) as [s|e]; simpl; [|naive_solver].
    unfold next_after, u64_saturating_add. fold u64_max.
    destruct (job_last_run_epoch j) as [last|]; simpl; [rewrite N.leb_le|]; naive_solver.
  - intros now'. destruct (job_enabled j); simpl; [|done].
    destruct (parsed_schedule j) as [s|e]; [|done].
    destruct (job_last_run_epoch j) as [last|]; [|done]. rewrite !N.leb_le. lia.
Qed.

(** Running a job postpones it by exactly its interval: after a run at
    [t] an enabled job with a valid schedule is due from [t + interval] on and
    not before (below the [u64] limit). *)
Theorem mark_ran_postpones j s t now :
  job_enabled j = true → parsed_schedule (TomlError := unit) j = Ok s →
  (t + interval_secs s < u64_modulus)%N →
  is_due (set_job_last_run t j) now = (t + interval_secs s <=? now)%N.
Proof.
  intros He Hs Ht. unfold is_due. simpl. rewrite He. simpl.
  change (parsed_schedule (set_job_last_run t j)) with (parsed_schedule (TomlError := unit) j).
  rewrite Hs. unfold next_after, u64_saturating_add. rewrite N.min_l; [done|]. lia.
Qed.

(** ** Witnesses *)

Lemma parse_schedule_grammar_witness :
  parse_schedule (TomlError := unit) (lit "every 30m") = Ok {| interval_secs := 1800 |} ∧ (1 ≤ 1800)%N.
Proof.
  exact (parse_schedule_grammar (TomlError := unit) (lit "every ") 30%N (lit "m") 60%N
           (list_elem_of_further _ _ _ (list_elem_of_here _ _)) eq_refl eq_refl eq_refl).
Defined.

Lemma parse_describe_witness :
  describe {| interval_secs := 7200 |} = lit "every 2h" ∧
  parse_schedule (TomlError := unit) (lit "every 2h") = Ok {| interval_secs := 7200 |}.
Proof.
  split; [vm_compute; reflexivity|].
  exact (parse_describe (TomlError := unit) 7200%N (conj eq_refl eq_refl)).
Defined.

Definition demo_hourly : CronJob :=
  {| job_id := lit "cron-1"; job_schedule := lit "1h"; job_prompt := lit "nightly"; job_enabled := true;
     job_workspace := None; job_provider := None; job_model := None; job_command := None;
     job_last_run_epoch := None |}.

Lemma mark_ran_postpones_witness :
  is_due (set_job_last_run 10000 demo_hourly) 13599 = false ∧
  is_due (set_job_last_run 10000 demo_hourly) 13600 = true.
Proof.
  split; (etrans; [apply (mark_ran_postpones demo_hourly {| interval_secs := 3600 |})|]);
    first [reflexivity | vm_compute; reflexivity].
Defined.

(** ** The cron job store ([codel00p-cron/src/lib.rs], [JobStore])

    One [<id>.toml] file per job.  The directory is a finite map from file
    names to texts, [None] before it is created; reads and writes of the file
    system itself succeed.  The [toml] crate is a parameter whose law is its
    documented behaviour: what it prints it parses back, for integers in its
    64-bit signed range; printing anything else fails, which the code turns into
    a panic. *)

Definition i64_max : N := 9223372036854775807%N.

Class TomlLib := {
  TomlError : Type;
  to_string_pretty : CronJob → option str;
  from_str : str → result TomlError CronJob;
}.
Definition toml_printable (j : CronJob) : Prop :=
  ∀ n, job_last_run_epoch j = Some n → (n ≤ i64_max)%N.
Class TomlLaws `{TomlLib} : Prop := {
  toml_round_trip : ∀ j, toml_printable j →
    ∃ text, to_string_pretty j = Some text ∧ from_str text = Ok j;
  toml_out_of_range : ∀ j, ¬ toml_printable j → to_string_pretty j = None;
}.

Section store.
Context `{TomlLib}.

(** An operation fails with an error or panics. *)
Inductive CronFailure :=
| Failed (e : CronError TomlError)
| Panicked.

Definition JobDir : Type := option (gmap str str).
Definition files (d : JobDir) : gmap str str := default ∅ d.

Definition toml_ext : str := lit ".toml".
Definition job_path (id : str) : str := id ++ toml_ext.

(** [Path::extension] of a file name. *)
Definition path_extension (name : str) : option str :=
  match split_at_first (λ c, (c =? dot)%N) (reverse name) with
  | None => None
  | Some (ext, stem) => if is_empty (tail stem) then None else Some (reverse ext)
  end.

Definition validate_id (id : str) : result (CronError TomlError) unit :=
  if negb (is_empty id) &&
     forallb (λ c, is_ascii_alphanumeric c || (c =? dash)%N || (c =? 95)%N) id
  then Ok tt else Err (InvalidId id).

(** [read] on the text of a file. *)
Definition read_job (path text : str) : result (CronError TomlError) CronJob :=
  map_err (Parse path) (from_str text).

Definition list_jobs (d : JobDir) : list CronJob :=
  match d with
  | None => []
  | Some fs =>
      let entries := filter (λ e, path_extension e.1 = Some (lit "toml")) (map_to_list fs) in
      let jobs := omap (λ e, match read_job e.1 e.2 with Ok j => Some j | Err _ => None end) entries in
      sort_by (cmp_on job_id str_cmp) jobs
  end.

Definition get_job (id : str) (d : JobDir) : result CronFailure CronJob :=
  let? _ := map_err Failed (validate_id id) in
  match files d !! job_path id with
  | None => Err (Failed (UnknownJob id))
  | Some text => map_err Failed (read_job (job_path id) text)
  end.

Definition write_job (job : CronJob) : st JobDir CronFailure unit := λ d,
  let d := Some (files d) in
  match to_string_pretty job with
  | None => (Err Panicked, d)
  | Some contents => (Ok tt, Some (<[job_path (job_id job) := contents]> (files d)))
  end.

Definition job_index (j : CronJob) : option N :=
  n ← strip_prefix (lit "cron-") (job_id j); parse_u64 n.
(** [Iterator::max]. *)
Fixpoint max_opt (l : list N) : option N :=
  match l with
  | [] => None
  | n :: l => Some (from_option (N.max n) n (max_opt l))
  end.
Definition next_index (d : JobDir) : N :=
  match max_opt (omap job_index (list_jobs d)) with
  | Some max => u64_add max 1
  | None => 1%N
  end.

Definition job_name (n : N) : str := lit "cron-" ++ show_N n.

Definition add (schedule prompt : str) (workspace provider model : option str)
    : st JobDir CronFailure CronJob :=
  do! st_lift (map_err Failed (parse_schedule schedule)) in
  if is_empty (trim prompt) then st_err (Failed EmptyPrompt)
  else
    let! id := st_read (λ d, Ok (job_name (next_index d))) in
    let job := {| job_id := id; job_schedule := trim schedule; job_prompt := trim prompt;
                  job_enabled := true; job_workspace := workspace; job_provider := provider;
                  job_model := model; job_command := None; job_last_run_epoch := None |} in
    do! write_job job in
    st_ret job.

Definition add_command (schedule : str) (command : list str) : st JobDir CronFailure CronJob :=
  do! st_lift (map_err Failed (parse_schedule schedule)) in
  if forallb (λ arg, is_empty (trim arg)) command then st_err (Failed EmptyPrompt)
  else
    let! id := st_read (λ d, Ok (job_name (next_index d))) in
    let job := {| job_id := id; job_schedule := trim schedule; job_prompt := [];
                  job_enabled := true; job_workspace := None; job_provider := None;
                  job_model := None; job_command := Some command; job_last_run_epoch := None |} in
    do! write_job job in
    st_ret job.

Definition remove (id : str) : st JobDir CronFailure bool :=
  do! st_lift (map_err Failed (validate_id id)) in
  λ d, match files d !! job_path id with
       | None => (Ok false, d)
       | Some _ => (Ok true, Some (delete (job_path id) (files d)))
       end.

Definition set_enabled (id : str) (enabled : bool) : st JobDir CronFailure CronJob :=
  let! job := st_read (get_job id) in
  let job := set_job_enabled enabled job in
  do! write_job job in
  st_ret job.

Definition mark_ran (id : str) (ran_at_epoch : N) : st JobDir CronFailure CronJob :=
  let! job := st_read (get_job id) in
  let job := set_job_last_run ran_at_epoch job in
  do! write_job job in
  st_ret job.

(** ** The abstract store: a map of jobs *)

Abbreviation Jobs := (gmap str CronJob).

Definition spec_index (m : Jobs) : N :=
  match max_opt (omap job_index (map_to_list m).*2) with
  | Some max => u64_add max 1
  | None => 1%N
  end.

Inductive JobOp :=
| OpAdd (schedule prompt : str) (workspace provider model : option str)
| OpAddCommand (schedule : str) (command : list str)
| OpRemove (id : str)
| OpSetEnabled (id : str) (enabled : bool)
| OpMarkRan (id : str) (ran_at_epoch : N).

Inductive JobOut := OutJob (j : CronJob) | OutRemoved (b : bool).

Definition spec_insert (j : CronJob) (m : Jobs) : result CronFailure JobOut * Jobs :=
  (Ok (OutJob j), <[job_id j := j]> m).

Definition spec_add (schedule : str) (blank : bool) (job : str → CronJob) (m : Jobs)
    : result CronFailure JobOut * Jobs :=
  match parse_schedule schedule with
  | Err e => (Err (Failed e), m)
  | Ok _ => if blank then (Err (Failed EmptyPrompt), m)
            else spec_insert (job (job_name (spec_index m))) m
  end.

(** A change that writes a run time beyond TOML's integers panics and changes nothing. *)
Definition spec_change (id : str) (fits : bool) (f : CronJob → CronJob) (m : Jobs)
    : result CronFailure JobOut * Jobs :=
  match validate_id id with
  | Err e => (Err (Failed e), m)
  | Ok _ => match m !! id with
            | None => (Err (Failed (UnknownJob id)), m)
            | Some j => if fits then spec_insert (f j) m else (Err Panicked, m)
            end
  end.

Definition spec_job_step (o : JobOp) (m : Jobs) : result CronFailure JobOut * Jobs :=
  match o with
  | OpAdd schedule prompt workspace provider model =>
      spec_add schedule (is_empty (trim prompt))
        (λ id, {| job_id := id; job_schedule := trim schedule; job_prompt := trim prompt;
                  job_enabled := true; job_workspace := workspace; job_provider := provider;
                  job_model := model; job_command := None; job_last_run_epoch := None |}) m
  | OpAddCommand schedule command =>
      spec_add schedule (forallb (λ arg, is_empty (trim arg)) command)
        (λ id, {| job_id := id; job_schedule := trim schedule; job_prompt := [];
                  job_enabled := true; job_workspace := None; job_provider := None;
                  job_model := None; job_command := Some command; job_last_run_epoch := None |}) m
  | OpRemove id =>
      match validate_id id with
      | Err e => (Err (Failed e), m)
      | Ok _ => (Ok (OutRemoved (bool_decide (is_Some (m !! id)))), delete id m)
      end
  | OpSetEnabled id enabled => spec_change id true (set_job_enabled enabled) m
  | OpMarkRan id ran_at => spec_change id (ran_at <=? i64_max)%N (set_job_last_run ran_at) m
  end.

Definition job_out {A} (f : A → JobOut) (p : result CronFailure A * JobDir)
    : result CronFailure JobOut * JobDir :=
  (match p.1 with Ok a => Ok (f a) | Err e => Err e end, p.2).

Definition job_step (o : JobOp) (d : JobDir) : result CronFailure JobOut * JobDir :=
  match o with
  | OpAdd schedule prompt workspace provider model =>
      job_out OutJob (add schedule prompt workspace provider model d)
  | OpAddCommand schedule command => job_out OutJob (add_command schedule command d)
  | OpRemove id => job_out OutRemoved (remove id d)
  | OpSetEnabled id enabled => job_out OutJob (set_enabled id enabled d)
  | OpMarkRan id ran_at => job_out OutJob (mark_ran id ran_at d)
  end.

Fixpoint run_jobs {S} (step : JobOp → S → result CronFailure JobOut * S) (ops : list JobOp) (s : S)
    : list (result CronFailure JobOut) * S :=
  match ops with
  | [] => ([], s)
  | o :: ops => let '(r, s) := step o s in
                let '(rs, s) := run_jobs step ops s in (r :: rs, s)
  end.

(** ** Names *)

Lemma job_name_inj n k : job_name n = job_name k → n = k.
Proof. unfold job_name. intros ?%app_inv_head. by apply show_N_inj. Qed.

Lemma job_path_inj a b : job_path a = job_path b → a = b.
Proof. unfold job_path. apply app_inv_tail. Qed.

Lemma job_name_index n j : (n < u64_modulus)%N → job_id j = job_name n → job_index j = Some n.
Proof.
  intros Hn Hj. unfold job_index. rewrite Hj. unfold job_name. rewrite strip_prefix_app. simpl.
  by apply parse_show_u64.
Qed.

Lemma path_extension_toml id : id ≠ [] → path_extension (job_path id) = Some (lit "toml").
Proof.
  intros Hid. unfold path_extension, job_path. rewrite reverse_app.
  change (reverse toml_ext) with (lit "lmot" ++ [dot]). rewrite <- app_assoc. simpl ([dot] ++ _).
  rewrite split_at_first_avoids; [|by apply avoids_forallb|done]. simpl.
  destruct (reverse id) eqn:Hr; [|done].
  apply (f_equal reverse) in Hr. by rewrite reverse_involutive in Hr.
Qed.

(** ** The simulation relation *)

Record jobs_repr (d : JobDir) (m : Jobs) : Prop := {
  jr_file : ∀ id, option_Forall2 (λ text j, from_str text = Ok j) (files d !! job_path id) (m !! id);
  jr_names : ∀ name, is_Some (files d !! name) → ∃ id, name = job_path id ∧ is_Some (m !! id);
  jr_job : ∀ id j, m !! id = Some j → job_id j = id ∧ toml_printable j ∧
             ∃ n, id = job_name n ∧ (n < u64_modulus)%N;
}.

Lemma jobs_repr_empty : jobs_repr None ∅.
Proof.
  split; unfold files; simpl.
  - intros id. rewrite !lookup_empty. constructor.
  - intros name [x Hx]. by rewrite lookup_empty in Hx.
  - intros id j. by rewrite lookup_empty.
Qed.

Lemma list_jobs_entries d m :
  jobs_repr d m →
  omap (λ e, match read_job e.1 e.2 with Ok j => Some j | Err _ => None end)
    (filter (λ e, path_extension e.1 = Some (lit "toml")) (map_to_list (files d)))
  ≡ₚ (map_to_list m).*2.
Proof.
  intros Hr. set (L := filter _ _).
  assert (HL : ∀ e, e ∈ L ↔ ∃ id j, e.1 = job_path id ∧ m !! id = Some j ∧
    files d !! job_path id = Some e.2 ∧ from_str e.2 = Ok j).
  { intros [name text]. unfold L. rewrite list_elem_of_filter, elem_of_map_to_list. simpl. split.
    - intros [_ Hf]. destruct (jr_names _ _ Hr name) as (id & -> & j & Hj); [by eexists|].
      pose proof (jr_file _ _ Hr id) as Hfile. rewrite Hf, Hj in Hfile. inversion Hfile; subst. eauto 10.
    - intros (id & j & -> & Hj & Hf & _). split; [|done]. apply path_extension_toml.
      destruct (jr_job _ _ Hr id j Hj) as (_ & _ & n & -> & _). done. }
  set (f := λ e : str * str, match read_job e.1 e.2 with Ok j => Some j | Err _ => None end).
  assert (Hf : ∀ e j, e ∈ L → f e = Some j ↔ ∃ id, e.1 = job_path id ∧ m !! id = Some j).
  { intros e j (id & j' & He & Hj & _ & Hd)%HL. unfold f, read_job. rewrite Hd. simpl. split.
    - intros [= <-]. eauto.
    - intros (id' & He' & Hj'). rewrite He in He'. apply job_path_inj in He' as <-. congruence. }
  apply NoDup_Permutation.
  - apply (NoDup_fmap_1 (λ j, job_path (job_id j))). apply (NoDup_fmap_omap fst).
    + intros e j He (id & -> & Hj)%Hf; [|done]. by destruct (jr_job _ _ Hr id j Hj) as [-> _].
    + eapply sublist_NoDup; [apply (NoDup_fst_map_to_list (files d))|].
      apply fmap_sublist, sublist_filter.
  - apply (NoDup_fmap_1 job_id). rewrite <- list_fmap_compose.
    apply NoDup_fmap_2_strong; [|apply NoDup_map_to_list].
    intros [id j] [id' j'] Hj%elem_of_map_to_list Hj'%elem_of_map_to_list. simpl.
    destruct (jr_job _ _ Hr id j Hj) as [-> _], (jr_job _ _ Hr id' j' Hj') as [-> _]. congruence.
  - intros j. rewrite list_elem_of_omap, list_elem_of_fmap. split.
    + intros (e & He & (id & _ & Hj)%Hf); [|done]. exists (id, j). by rewrite elem_of_map_to_list.
    + intros ([id j'] & -> & Hj%elem_of_map_to_list).
      pose proof (jr_file _ _ Hr id) as Hfile. rewrite Hj in Hfile. inversion Hfile as [text ? Hd Ht|]; subst.
      exists (job_path id, text). assert ((job_path id, text) ∈ L) by (apply HL; eauto 10).
      split; [done|]. apply Hf; [done|]. by exists id.
Qed.

Definition spec_list_jobs (m : Jobs) : list CronJob :=
  sort_by (cmp_on job_id str_cmp) (map_to_list m).*2.

Lemma list_jobs_repr d m : jobs_repr d m → list_jobs d = spec_list_jobs m.
Proof.
  intros Hr. pose proof (list_jobs_entries d m Hr) as Hp. unfold spec_list_jobs.
  transitivity (sort_by (cmp_on job_id str_cmp)
    (omap (λ e, match read_job e.1 e.2 with Ok j => Some j | Err _ => None end)
      (filter (λ e, path_extension e.1 = Some (lit "toml")) (map_to_list (files d))))).
  { unfold list_jobs, files. destruct d as [fs|]; simpl; [done|]. by rewrite map_to_list_empty. }
  apply sort_by_perm_eq; [apply _| |done].
  intros j j' Hj Hj' Heq%(cmp_eq str_cmp). rewrite Hp, list_elem_of_fmap in Hj, Hj'.
  destruct Hj as ([id ?] & -> & Hj%elem_of_map_to_list), Hj' as ([id' ?] & -> & Hj'%elem_of_map_to_list).
  simpl in *. destruct (jr_job _ _ Hr _ _ Hj) as [? _], (jr_job _ _ Hr _ _ Hj') as [? _]. congruence.
Qed.

Lemma get_job_repr d m id :
  jobs_repr d m →
  get_job id d = match validate_id id with
                 | Err e => Err (Failed e)
                 | Ok _ => ok_or (Failed (UnknownJob id)) (m !! id)
                 end.
Proof.
  intros Hr. unfold get_job. destruct (validate_id id); simpl; [|done].
  destruct (jr_file _ _ Hr id) as [text j Hd|]; simpl; [|done]. unfold read_job. by rewrite Hd.
Qed.

(** ** Fresh indices *)

Lemma max_opt_spec l :
  match max_opt l with
  | Some x => x ∈ l ∧ ∀ y, y ∈ l → (y ≤ x)%N
  | None => l = []
  end.
Proof.
  induction l as [|n l IH]; simpl; [done|]. destruct (max_opt l) as [x|]; simpl.
  - destruct IH as [Hx IH]. split.
    + destruct (N.max_spec n x) as [[_ ->]|[_ ->]]; [by right|left].
    + intros y [->|Hy%IH]%elem_of_cons; lia.
  - subst. split; [left|]. intros y ->%list_elem_of_singleton. done.
Qed.

Lemma max_opt_perm l k : l ≡ₚ k → max_opt l = max_opt k.
Proof.
  intros Hp. pose proof (max_opt_spec l) as Hl. pose proof (max_opt_spec k) as Hk.
  destruct (max_opt l) as [x|], (max_opt k) as [y|]; subst; try done.
  - f_equal. destruct Hl as [Hx Hl], Hk as [Hy Hk].
    rewrite Hp in Hx. rewrite <- Hp in Hy. apply Hk in Hx. apply Hl in Hy. lia.
  - apply Permutation_sym, Permutation_nil in Hp. subst. destruct Hl as [Hx%elem_of_nil _]. done.
  - apply Permutation_nil in Hp. subst. destruct Hk as [Hx%elem_of_nil _]. done.
Qed.

Lemma next_index_repr d m : jobs_repr d m → next_index d = spec_index m.
Proof.
  intros Hr. unfold next_index, spec_index. rewrite (list_jobs_repr d m Hr).
  rewrite (max_opt_perm _ (omap job_index (map_to_list m).*2)); [done|].
  unfold spec_list_jobs. by rewrite sort_by_perm.
Qed.

(** Every index in use is at most [b]. *)
Definition indices_below (b : N) (m : Jobs) : Prop :=
  ∀ n, is_Some (m !! job_name n) → (n ≤ b)%N.

Lemma spec_index_fresh d m b :
  jobs_repr d m → indices_below b m → (b + 1 < u64_modulus)%N →
  m !! job_name (spec_index m) = None ∧ (spec_index m ≤ b + 1)%N.
Proof.
  intros Hr Hb Hlt. unfold spec_index.
  pose proof (max_opt_spec (omap job_index (map_to_list m).*2)) as Hmax.
  assert (Hin : ∀ n, is_Some (m !! job_name n) → (n < u64_modulus)%N →
    n ∈ omap job_index (map_to_list m).*2).
  { intros n [j Hj] Hn. apply list_elem_of_omap. exists j. split.
    - apply list_elem_of_fmap. exists (job_name n, j). by rewrite elem_of_map_to_list.
    - destruct (jr_job _ _ Hr _ _ Hj) as [Hid _]. by apply job_name_index. }
  destruct (max_opt _) as [x|].
  - destruct Hmax as [(j & (p & -> & Hp)%list_elem_of_fmap & Hx)%list_elem_of_omap Hmax].
    destruct p as [id j]. simpl in *. apply elem_of_map_to_list in Hp.
    destruct (jr_job _ _ Hr _ _ Hp) as (Hid & _ & n & Hname & Hn). subst id.
    rewrite (job_name_index n j) in Hx by congruence. injection Hx as <-.
    assert (n ≤ b)%N by (apply Hb; rewrite <- Hname; by eexists).
    assert (Hu : u64_add n 1 = (n + 1)%N) by (apply u64_wrap_small; lia). rewrite Hu. split; [|lia].
    apply eq_None_not_Some. intros Hs%Hin; [|lia]. apply Hmax in Hs. lia.
  - split; [|lia]. apply eq_None_not_Some. intros Hs%Hin; [|done]. rewrite Hmax in Hs.
    by apply elem_of_nil in Hs.
Qed.

(** ** Writes *)

Context `{!TomlLaws}.

Lemma write_job_repr d m j n :
  jobs_repr d m → toml_printable j → job_id j = job_name n → (n < u64_modulus)%N →
  ∃ d', write_job j d = (Ok tt, d') ∧ jobs_repr d' (<[job_id j := j]> m).
Proof.
  intros Hr Hp Hid Hn. unfold write_job. destruct (toml_round_trip j Hp) as (text & -> & Hd).
  eexists. split; [done|]. destruct Hr as [Hf Hnm Hj]. split; unfold files in *; simpl.
  - intros id. rewrite !lookup_insert. destruct (decide (job_id j = id)) as [<-|Hne].
    + rewrite decide_True by done. by constructor.
    + rewrite decide_False; [apply Hf|]. by intros ?%job_path_inj.
  - intros name. rewrite lookup_insert_is_Some. intros [<-|[Hne Hs]].
    + exists (job_id j). split; [done|]. rewrite lookup_insert_eq. by eexists.
    + destruct (Hnm name Hs) as (id & -> & Hi). exists id. split; [done|].
      rewrite lookup_insert_is_Some. destruct (decide (job_id j = id)); auto.
  - intros id j'. rewrite lookup_insert_Some. intros [[<- <-]|[_ ?]]; [|by apply Hj].
    split_and!; [done..|]. by exists n.
Qed.

Lemma validate_job_name n : validate_id (job_name n) = Ok tt.
Proof.
  unfold validate_id, job_name. rewrite forallb_app. simpl.
  replace (forallb _ (show_N n)) with true; [done|]. symmetry. apply forallb_forall.
  intros c Hc%list_elem_of_In%show_N_digit. unfold is_ascii_alphanumeric. rewrite Hc.
  by rewrite orb_true_r.
Qed.

Definition job_agrees (b : N) (p : result CronFailure JobOut * JobDir)
    (q : result CronFailure JobOut * Jobs) : Prop :=
  p.1 = q.1 ∧ jobs_repr p.2 q.2 ∧ indices_below b q.2.

Lemma indices_below_mono b b' m : (b ≤ b')%N → indices_below b m → indices_below b' m.
Proof. intros Hb Hm n Hn%Hm. lia. Qed.

Lemma indices_below_insert b b' m n (j : CronJob) :
  indices_below b m → (b ≤ b')%N → (n ≤ b')%N → indices_below b' (<[job_name n := j]> m).
Proof.
  intros Hm Hb Hn k. rewrite lookup_insert_is_Some. intros [<-%job_name_inj|[_ Hk%Hm]]; lia.
Qed.

Lemma add_repr d m b schedule blank job :
  jobs_repr d m → indices_below b m → (b + 1 < u64_modulus)%N →
  (∀ id, job_id (job id) = id) → (∀ id, job_last_run_epoch (job id) = None) →
  job_agrees (b + 1) (job_out OutJob
    ((do! st_lift (map_err Failed (parse_schedule schedule)) in
      if blank : bool then st_err (Failed EmptyPrompt)
      else let! id := st_read (λ d, Ok (job_name (next_index d))) in
           let j := job id in do! write_job j in st_ret j) d))
    (spec_add schedule blank job m).
Proof.
  intros Hr Hb Hlt Hid Hrun. pose proof (indices_below_mono b (b + 1) m ltac:(lia) Hb) as Hb'.
  unfold spec_add, st_bind, st_lift. destruct (parse_schedule schedule) as [s|e]; simpl; [|done].
  destruct blank; [done|]. unfold st_read. rewrite (next_index_repr d m Hr).
  destruct (spec_index_fresh d m b) as [_ Hle]; [done..|].
  set (n := spec_index m) in *.
  destruct (write_job_repr d m (job (job_name n)) n) as (d' & -> & Hr');
    [done|intros k; by rewrite Hrun|done|lia|].
  split; [done|]. split; [done|]. simpl. rewrite Hid.
  apply (indices_below_insert b); [done|lia|done].
Qed.

Lemma write_job_refused d m j :
  jobs_repr d m → ¬ toml_printable j →
  ∃ d', write_job j d = (Err Panicked, d') ∧ jobs_repr d' m.
Proof.
  intros [Hf Hnm Hj] Hp. unfold write_job. rewrite (toml_out_of_range j Hp). by eexists.
Qed.

Lemma change_repr d m b id fits f :
  jobs_repr d m → indices_below b m →
  (∀ j, job_id (f j) = job_id j) →
  (∀ j, toml_printable j → if fits : bool then toml_printable (f j) else ¬ toml_printable (f j)) →
  job_agrees b (job_out OutJob
    ((let! j := st_read (get_job id) in
      let j := f j in do! write_job j in st_ret j) d)) (spec_change id fits f m).
Proof.
  intros Hr Hb Hid Hp. unfold spec_change, st_bind, st_read. rewrite (get_job_repr d m) by done.
  destruct (validate_id id); simpl; [|done]. destruct (m !! id) as [j|] eqn:Hj; simpl; [|done].
  destruct (jr_job _ _ Hr id j Hj) as (Hji & Hjp & n & Hname & Hn).
  assert (Hfid : job_id (f j) = job_name n) by (rewrite Hid; congruence).
  specialize (Hp j Hjp). destruct fits; cycle 1.
  { by destruct (write_job_refused d m (f j)) as (d' & -> & Hr'). }
  destruct (write_job_repr d m (f j) n) as (d' & -> & Hr'); [done|auto|done|done|].
  split; [done|]. split; [done|]. simpl. rewrite Hfid. apply (indices_below_insert b); [done|lia|].
  apply Hb. rewrite <- Hname. by eexists.
Qed.

Lemma remove_repr d m b id :
  jobs_repr d m → indices_below b m →
  job_agrees b (job_out OutRemoved (remove id d)) (spec_job_step (OpRemove id) m).
Proof.
  intros Hr Hb. unfold remove, st_bind, st_lift. simpl.
  destruct (validate_id id); simpl; [|done].
  pose proof (jr_file _ _ Hr id) as Hid.
  destruct (files d !! job_path id) as [text|] eqn:Hf, (m !! id) as [j|] eqn:Hm; try by inversion Hid.
  2: { split; [done|]. simpl. by rewrite delete_id. }
  split; [done|]. simpl. destruct Hr as [Hfl Hnm Hj]. split; [split|].
  - intros id'. unfold files at 1. simpl. rewrite !lookup_delete.
    destruct (decide (id = id')) as [<-|Hne].
    + rewrite decide_True by done. constructor.
    + rewrite decide_False; [apply Hfl|]. by intros ?%job_path_inj.
  - intros name. unfold files at 1. simpl. rewrite lookup_delete_is_Some. intros [Hne Hs].
    destruct (Hnm name Hs) as (id' & -> & Hi). exists id'. split; [done|].
    rewrite lookup_delete_is_Some. split; [congruence|done].
  - intros id' j'. rewrite lookup_delete_Some. intros [_ ?]. by apply Hj.
  - intros n. rewrite lookup_delete_is_Some. intros [_ Hn]. by apply Hb.
Qed.

Lemma job_step_repr o d m b :
  jobs_repr d m → indices_below b m → (b + 1 < u64_modulus)%N →
  job_agrees (b + 1) (job_step o d) (spec_job_step o m).
Proof.
  intros Hr Hb Hlt.
  assert (Hup : ∀ p q, job_agrees b p q → job_agrees (b + 1) p q).
  { intros p q (? & ? & Hq). split_and!; [done..|]. eapply indices_below_mono; [|exact Hq]. lia. }
  destruct o; simpl.
  - by apply (add_repr d m b).
  - by apply (add_repr d m b).
  - apply Hup. by apply remove_repr.
  - apply Hup, change_repr; [done..|]. intros j Hj. done.
  - apply Hup, change_repr; [done..|]. intros j Hj. destruct (N.leb_spec ran_at_epoch i64_max).
    + by intros n [= <-].
    + intros Hp. specialize (Hp ran_at_epoch eq_refl). lia.
Qed.

Lemma run_jobs_repr ops d m b :
  jobs_repr d m → indices_below b m → (b + N.of_nat (length ops) < u64_modulus)%N →
  (run_jobs job_step ops d).1 = (run_jobs spec_job_step ops m).1 ∧
  jobs_repr (run_jobs job_step ops d).2 (run_jobs spec_job_step ops m).2 ∧
  indices_below (b + N.of_nat (length ops)) (run_jobs spec_job_step ops m).2.
Proof.
  revert d m b. induction ops as [|o ops IH]; intros d m b Hr Hb Hlt; simpl in *.
  - rewrite N.add_0_r. done.
  - destruct (job_step_repr o d m b) as (Hres & Hr' & Hb'); [done..|lia|].
    destruct (job_step o d) as [r d'], (spec_job_step o m) as [r' m']. simpl in *. subst r'.
    destruct (IH d' m' (b + 1)%N) as (Hres & Hr'' & Hb''); [done..|lia|].
    destruct (run_jobs job_step ops d') as [rs d''], (run_jobs spec_job_step ops m') as [rs' m''].
    simpl in *. subst rs'. split_and!; [done..|].
    eapply indices_below_mono; [|exact Hb'']. lia.
Qed.

(** C26. The job directory implements a map of jobs: for every sequence of fewer than
    [2^64] operations on an empty directory the results, errors and panics
    included, are those of the map, [list] is the jobs in id order and [get] reads
    them back.  The only panic is that of [mark_ran] on a job with a run time beyond
    the 64-bit signed integers of TOML: the map says so, and keeps the job. *)
Theorem job_store_refines (ops : list JobOp) :
  (N.of_nat (length ops) < u64_modulus)%N →
  let '(rs, d) := run_jobs job_step ops None in
  let '(rs', m) := run_jobs spec_job_step ops ∅ in
  rs = rs' ∧ list_jobs d = spec_list_jobs m ∧
  ∀ id, get_job id d = match validate_id id with
                       | Err e => Err (Failed e)
                       | Ok _ => ok_or (Failed (UnknownJob id)) (m !! id)
                       end.
Proof.
  intros Hlen. destruct (run_jobs_repr ops None ∅ 0) as (Hres & Hr & _);
    [apply jobs_repr_empty|intros n [j Hj]; by rewrite lookup_empty in Hj|lia|].
  destruct (run_jobs job_step ops None), (run_jobs spec_job_step ops ∅). simpl in *.
  split_and!; [done|by apply list_jobs_repr|]. intros id. by apply get_job_repr.
Qed.

(** Adding a job never overwrites one: after any operations, an accepted
    [add] returns a job under an id that named no job before, the job is read
    back by that id, and every other job is unchanged. *)
Theorem add_is_fresh (ops : list JobOp) schedule prompt workspace provider model j d' :
  (N.of_nat (length ops) + 1 < u64_modulus)%N →
  let d := (run_jobs job_step ops None).2 in
  add schedule prompt workspace provider model d = (Ok j, d') →
  get_job (job_id j) d = Err (Failed (UnknownJob (job_id j))) ∧ get_job (job_id j) d' = Ok j ∧
  ∀ id, id ≠ job_id j → get_job id d' = get_job id d.
Proof.
  intros Hlen d Hadd. destruct (run_jobs_repr ops None ∅ 0) as (_ & Hr & Hb);
    [apply jobs_repr_empty|intros n [x Hx]; by rewrite lookup_empty in Hx|lia|].
  simpl in Hr, Hb. fold d in Hr. set (m := (run_jobs spec_job_step ops ∅).2) in *.
  destruct (job_step_repr (OpAdd schedule prompt workspace provider model) d m
    (N.of_nat (length ops))) as (Hres & Hr' & _); [done..|].
  simpl in Hres, Hr'. rewrite Hadd in Hres, Hr'. unfold spec_add in Hres, Hr'.
  destruct (parse_schedule schedule); [|done]. destruct (is_empty (trim prompt)); [done|].
  simpl in Hres, Hr'. injection Hres as Hj.
  destruct (spec_index_fresh d m (N.of_nat (length ops))) as [Hfresh _]; [done..|].
  assert (Hid : job_id j = job_name (spec_index m)) by by rewrite Hj.
  rewrite Hid, (get_job_repr d m _ Hr), validate_job_name, Hfresh.
  rewrite (get_job_repr d' _ _ Hr'), validate_job_name, lookup_insert_eq, <- Hj.
  split_and!; [done..|]. intros id Hne.
  rewrite (get_job_repr d' _ _ Hr'), (get_job_repr d m _ Hr), lookup_insert_ne by done. done.
Qed.
End store.

(** ** A concrete run

    A TOML library that prints a job as the codes of its fields. *)

Definition demo_print (j : CronJob) : str :=
  [N.pos (encode (job_id j)); N.pos (encode (job_schedule j)); N.pos (encode (job_prompt j));
   N.pos (encode (job_enabled j)); N.pos (encode (job_workspace j)); N.pos (encode (job_provider j));
   N.pos (encode (job_model j)); N.pos (encode (job_command j)); N.pos (encode (job_last_run_epoch j))].
Definition demo_parse (text : str) : option CronJob :=
  match text with
  | [N.pos a; N.pos b; N.pos c; N.pos d; N.pos e; N.pos f; N.pos g; N.pos h; N.pos i] =>
      a ← decode a; b ← decode b; c ← decode c; d ← decode d; e ← decode e; f ← decode f;
      g ← decode g; h ← decode h; i ← decode i;
      Some {| job_id := a; job_schedule := b; job_prompt := c; job_enabled := d; job_workspace := e;
              job_provider := f; job_model := g; job_command := h; job_last_run_epoch := i |}
  | _ => None
  end.
Lemma demo_parse_print j : demo_parse (demo_print j) = Some j.
Proof. unfold demo_parse, demo_print. rewrite !decode_encode. by destruct j. Qed.

#[local] Instance demo_toml : TomlLib := {|
  TomlError := ();
  to_string_pretty := λ j,
    if match job_last_run_epoch j with Some n => (n <=? i64_max)%N | None => true end
    then Some (demo_print j) else None;
  from_str := λ text, ok_or () (demo_parse text);
|}.
#[local] Instance demo_toml_laws : TomlLaws.
Proof.
  split; intros j Hj; unfold toml_printable in Hj.
  - exists (demo_print j). split; cbn [to_string_pretty from_str demo_toml].
    + destruct (job_last_run_epoch j) as [n|]; [|done].
      rewrite (proj2 (N.leb_le n i64_max)); [done|]. by apply Hj.
    + by rewrite demo_parse_print.
  - cbn [to_string_pretty demo_toml]. destruct (job_last_run_epoch j) as [n|].
    + destruct (N.leb_spec n i64_max) as [Hle|]; [|done]. exfalso. apply Hj. by intros k [= <-].
    + exfalso. by apply Hj.
Qed.

Definition demo_job_ops : list JobOp :=
  [ OpAdd (lit "1h") (lit " nightly checks ") None None None;
    OpAddCommand (lit "every 1d") [lit "skills"; lit "curate"];
    OpMarkRan (lit "cron-1") 10000;
    OpMarkRan (lit "cron-1") 9223372036854775808;
    OpSetEnabled (lit "cron-2") false;
    OpAdd (lit "soon") (lit "x") None None None;
    OpRemove (lit "cron-9") ].

Lemma job_store_refines_witness :
  (run_jobs job_step demo_job_ops None).1 = (run_jobs spec_job_step demo_job_ops ∅).1.
Proof.
  pose proof (job_store_refines demo_job_ops) as Hw.
  destruct (run_jobs job_step demo_job_ops None), (run_jobs spec_job_step demo_job_ops ∅).
  apply Hw. vm_compute; reflexivity.
Defined.

Definition demo_add := add (lit "30m") (lit "sync") None None None (run_jobs job_step demo_job_ops None).2.
Definition demo_job : CronJob :=
  {| job_id := lit "cron-3"; job_schedule := lit "30m"; job_prompt := lit "sync"; job_enabled := true;
     job_workspace := None; job_provider := None; job_model := None; job_command := None;
     job_last_run_epoch := None |}.

Lemma add_is_fresh_witness :
  get_job (lit "cron-3") (run_jobs job_step demo_job_ops None).2 =
    Err (Failed (UnknownJob (lit "cron-3"))) ∧
  get_job (lit "cron-3") demo_add.2 = Ok demo_job.
Proof.
  assert (Hj : demo_add.1 = Ok demo_job) by vm_cast_no_check (eq_refl (demo_add.1)).
  pose proof (eq_trans (surjective_pairing demo_add) (f_equal (λ r, (r, demo_add.2)) Hj)) as Ha.
  pose proof (add_is_fresh demo_job_ops (lit "30m") (lit "sync") None None None demo_job demo_add.2
    eq_refl Ha) as Hw.
  split; [exact (proj1 Hw)|exact (proj1 (proj2 Hw))].
Defined.
