(* ===== verification/Approvals.v ===== *)
(** * The chat gateway: pending approvals and webhook authentication
    ([codel00p-gateway/src/approvals.rs], [auth.rs])

    One [<conversation>.json] file per pending request: the directory is a
    finite map from file names to texts, reads and writes of the file system
    succeed, the removal of a request may be refused, and the JSON printer and parser
    are parameters with their documented round trip. *)

From stdpp Require Import base numbers strings gmap list.
From S2P Require Import Prelude RustStr Utf8.

Record PendingApproval := { pa_conversation : str; pa_tool : str; pa_detail : str }.

Inductive ApprovalOutcome := Approved | Denied | Nothing.

Class ApprovalJson := {
  JsonFailure : Type;
  print_pending : PendingApproval → result JsonFailure str;
  parse_pending : str → result JsonFailure PendingApproval;
}.
Class ApprovalJsonLaws `{ApprovalJson} : Prop :=
  pending_round_trip : ∀ p, ∃ text, print_pending p = Ok text ∧ parse_pending text = Ok p.

Definition safe_char (c : char) : bool :=
  is_ascii_alphanumeric c || (c =? 45)%N || (c =? 95)%N.

Definition sanitize_conversation (conversation : str) : str :=
  let out := (λ ch, if safe_char ch then ch else 95%N) <$> conversation in
  if is_empty out then lit "_default" else out.

Definition path_for (conversation : str) : str := sanitize_conversation conversation ++ lit ".json".

Section store.
Context `{ApprovalJson}.

(** The [Io] case is not produced here. *)
Inductive ApprovalError := Serialize (e : JsonFailure).

Abbreviation ApprovalDir := (gmap str str).

Definition record (conversation tool detail : str) : st ApprovalDir ApprovalError unit := λ d,
  match print_pending {| pa_conversation := conversation; pa_tool := tool; pa_detail := detail |} with
  | Err e => (Err (Serialize e), d)
  | Ok json => (Ok tt, <[path_for conversation := json]> d)
  end.

Definition pending (conversation : str) (d : ApprovalDir) : option PendingApproval :=
  raw ← d !! path_for conversation;
  match parse_pending raw with Ok p => Some p | Err _ => None end.

(** [removed] says whether the system removes the file: its refusal is ignored. *)
Definition resolve (removed : bool) (conversation : str) (approved : bool) (d : ApprovalDir)
    : ApprovalOutcome * ApprovalDir :=
  match d !! path_for conversation with
  | None => (Nothing, d)
  | Some _ => (if approved then Approved else Denied,
               if removed then delete (path_for conversation) d else d)
  end.

Lemma sanitize_safe conversation :
  sanitize_conversation conversation ≠ [] ∧ forallb safe_char (sanitize_conversation conversation) = true.
Proof.
  unfold sanitize_conversation.
  destruct (_ <$> conversation) as [|c l] eqn:Hl; [done|]. split; [done|]. cbn [is_empty]. rewrite <- Hl.
  clear Hl. induction conversation as [|x s IH]; [done|]. cbn. rewrite IH, andb_true_r.
  destruct (safe_char x) eqn:Hx; [done|reflexivity].
Qed.

Lemma sanitize_id conversation :
  conversation ≠ [] → forallb safe_char conversation = true →
  sanitize_conversation conversation = conversation.
Proof.
  intros Hne Hs. unfold sanitize_conversation.
  assert (Hid : (λ ch, if safe_char ch then ch else 95%N) <$> conversation = conversation).
  { clear Hne. induction conversation as [|x s IH]; [done|]. cbn in *.
    apply andb_true_iff in Hs as [Hx Hs]. rewrite Hx, IH by done. done. }
  rewrite Hid. by destruct conversation.
Qed.

Lemma path_for_inj a b : path_for a = path_for b → sanitize_conversation a = sanitize_conversation b.
Proof. unfold path_for. apply app_inv_tail. Qed.

Context `{!ApprovalJsonLaws}.

(** File names are safe for every conversation id, however hostile: one
    path component of letters, digits, dashes and underscores before the
    extension (so no separator and no [..]), and ids already of that form keep
    their own file. *)
Theorem approval_path_safe conversation :
  (∃ stem, path_for conversation = stem ++ lit ".json" ∧ stem ≠ [] ∧ forallb safe_char stem = true) ∧
  (conversation ≠ [] → forallb safe_char conversation = true →
   path_for conversation = conversation ++ lit ".json").
Proof.
  split.
  - exists (sanitize_conversation conversation). split; [done|]. apply sanitize_safe.
  - intros Hne Hs. unfold path_for. by rewrite sanitize_id.
Qed.

(** The approval life cycle, for ids of safe characters: a recorded
    request is pending until it is resolved; resolving it reports the user's
    decision and consumes it, so that a second decision finds nothing; and no
    step touches another conversation's request. *)
Theorem approval_lifecycle (d : ApprovalDir) conversation tool detail approved other :
  conversation ≠ [] → forallb safe_char conversation = true →
  other ≠ [] → forallb safe_char other = true → other ≠ conversation →
  ∃ d1 d2, record conversation tool detail d = (Ok tt, d1) ∧
    pending conversation d1 =
      Some {| pa_conversation := conversation; pa_tool := tool; pa_detail := detail |} ∧
    resolve true conversation approved d1 = (if approved then Approved else Denied, d2) ∧
    pending conversation d2 = None ∧ resolve true conversation approved d2 = (Nothing, d2) ∧
    pending other d1 = pending other d ∧ pending other d2 = pending other d.
Proof.
  intros Hc Hcs Ho Hos Hne.
  destruct (pending_round_trip {| pa_conversation := conversation; pa_tool := tool; pa_detail := detail |})
    as (text & Hp & Hd).
  assert (Hpath : path_for conversation ≠ path_for other).
  { intros Heq%path_for_inj. rewrite !sanitize_id in Heq by done. congruence. }
  exists (<[path_for conversation := text]> d), (delete (path_for conversation) (<[path_for conversation := text]> d)).
  unfold record, pending, resolve. rewrite Hp. split; [done|].
  rewrite !lookup_insert_eq. simpl. rewrite Hd. split; [done|]. split; [done|].
  rewrite !lookup_delete_eq. simpl. split_and!; [done..| |].
  - by rewrite lookup_insert_ne.
  - by rewrite lookup_delete_ne, lookup_insert_ne.
Qed.

(** A request whose file the system refuses to remove is decided all the same and
    stays pending: the next decision finds it again. *)
Theorem kept_request_decided_again (p : PendingApproval) (conversation text : str) (approved : bool)
    (d : ApprovalDir) :
  parse_pending text = Ok p → d !! path_for conversation = Some text →
  let d' := (resolve false conversation approved d).2 in
  (resolve false conversation approved d).1 = (if approved then Approved else Denied) ∧
  pending conversation d' = Some p ∧
  (resolve true conversation true d').1 = Approved.
Proof. intros Hp Hd. unfold resolve, pending. rewrite !Hd. cbn [fst snd]. rewrite !Hd. simpl. by rewrite Hp. Qed.

(** Distinct conversations can share a file: a decision sent in one of them
    approves and consumes the request pending for the other. *)
Theorem approval_crosses_conversations (d : ApprovalDir) tool detail :
  ∃ d1, record (lit "team_ops") tool detail d = (Ok tt, d1) ∧
    pending (lit "team/ops") d1 =
      Some {| pa_conversation := lit "team_ops"; pa_tool := tool; pa_detail := detail |} ∧
    (resolve true (lit "team/ops") true d1).1 = Approved ∧
    pending (lit "team_ops") (resolve true (lit "team/ops") true d1).2 = None.
Proof.
  destruct (pending_round_trip {| pa_conversation := lit "team_ops"; pa_tool := tool; pa_detail := detail |})
    as (text & Hp & Hd).
  exists (<[path_for (lit "team_ops") := text]> d).
  unfold record, pending, resolve. rewrite Hp. split; [done|].
  change (path_for (lit "team/ops")) with (path_for (lit "team_ops")).
  rewrite !lookup_insert_eq. simpl. rewrite Hd. split_and!; [done..|]. by rewrite lookup_delete_eq.
Qed.
End store.

(** ** Witness *)

Definition demo_print_pending (p : PendingApproval) : str :=
  [N.pos (encode (pa_conversation p)); N.pos (encode (pa_tool p)); N.pos (encode (pa_detail p))].
Definition demo_parse_pending (text : str) : option PendingApproval :=
  match text with
  | [N.pos a; N.pos b; N.pos c] =>
      a ← decode a; b ← decode b; c ← decode c;
      Some {| pa_conversation := a; pa_tool := b; pa_detail := c |}
  | _ => None
  end.
#[local] Instance demo_approval_json : ApprovalJson := {|
  JsonFailure := ();
  print_pending := λ p, Ok (demo_print_pending p);
  parse_pending := λ text, ok_or () (demo_parse_pending text);
|}.
#[local] Instance demo_approval_json_laws : ApprovalJsonLaws.
Proof.
  intros p. exists (demo_print_pending p). split; [done|].
  cbn [parse_pending demo_approval_json]. unfold demo_parse_pending, demo_print_pending.
  rewrite !countable.decode_encode. by destruct p.
Qed.

Lemma approval_lifecycle_witness :
  ∃ d1 d2, record (lit "C1") (lit "shell") (lit "ls") ∅ = (Ok tt, d1) ∧
    resolve true (lit "C1") true d1 = (Approved, d2) ∧ pending (lit "C1") d2 = None.
Proof.
  destruct (approval_lifecycle ∅ (lit "C1") (lit "shell") (lit "ls") true (lit "C2"))
    as (d1 & d2 & H1 & _ & H2 & H3 & _);
    [discriminate|reflexivity|discriminate|reflexivity|discriminate|].
  exists d1, d2. split; [exact H1|]. split; [exact H2|exact H3].
Defined.

Lemma approval_crosses_conversations_witness :
  ∃ d1, record (lit "team_ops") (lit "shell") (lit "ls") ∅ = (Ok tt, d1) ∧
    (resolve true (lit "team/ops") true d1).1 = Approved.
Proof.
  destruct (approval_crosses_conversations ∅ (lit "shell") (lit "ls")) as (d1 & H1 & _ & H2 & _).
  exists d1. split; [exact H1|exact H2].
Defined.

(** ** Webhook authentication ([codel00p-gateway/src/auth.rs])

    The shared secret of the HTTP gateway, presented as a bearer token and compared
    byte by byte without stopping at a difference. *)

Definition bearer (header : str) : option str := strip_prefix (lit "Bearer ") header.

(** [diff |= x ^ y] over the bytes, whatever they are. *)
Definition xor_accumulate (a b : list byte) : N :=
  foldl (λ diff '(x, y), N.lor diff (N.lxor x y)) 0%N (zip a b).
Definition constant_time_eq (a b : list byte) : bool :=
  if negb (length a =? length b) then false else (xor_accumulate a b =? 0)%N.

Definition authorize (configured_secret authorization_header : option str) : bool :=
  match configured_secret with
  | None => true
  | Some secret =>
      match authorization_header ≫= bearer with
      | Some token => constant_time_eq (utf8 token) (utf8 secret)
      | None => false
      end
  end.

Lemma xor_accumulate_zero pairs acc :
  foldl (λ diff '(x, y), N.lor diff (N.lxor x y)) acc pairs = 0%N ↔
  acc = 0%N ∧ Forall (λ '(x, y), x = y) pairs.
Proof.
  revert acc. induction pairs as [|[x y] pairs IH]; intros acc; cbn [foldl].
  { split; [by split|by intros [? _]]. }
  rewrite IH, Forall_cons, N.lor_eq_0_iff, N.lxor_eq_0_iff. tauto.
Qed.

Lemma constant_time_eq_spec a b : constant_time_eq a b = true ↔ a = b.
Proof.
  unfold constant_time_eq. destruct (Nat.eqb_spec (length a) (length b)) as [Hl|Hl]; cbn [negb].
  - rewrite N.eqb_eq. unfold xor_accumulate. rewrite xor_accumulate_zero. split.
    + intros [_ Hf]. revert b Hl Hf. induction a as [|x a IH]; intros [|y b] Hl Hf; try done.
      cbn [zip zip_with] in Hf. apply Forall_cons in Hf as [-> Hf]. f_equal. apply IH; [|done]. by injection Hl.
    + intros <-. split; [done|]. clear Hl. induction a as [|x a IH]; cbn; by constructor.
  - split; [done|]. intros ->. done.
Qed.

Lemma utf8_inj s t : scalars s → scalars t → utf8 s = utf8 t → s = t.
Proof. intros Hs Ht Heq. rewrite <- (lossy_utf8 s Hs), Heq. by apply lossy_utf8. Qed.

(** With a secret configured, a request is authorised exactly when its header is
    the bearer scheme followed by the secret; without one, every request is. *)
Theorem authorize_exact secret header :
  scalars secret → (∀ h, header = Some h → scalars h) →
  (authorize (Some secret) header = true ↔ header = Some (lit "Bearer " ++ secret)) ∧
  authorize None header = true.
Proof.
  intros Hs Hh. split; [|done]. unfold authorize. destruct header as [h|]; cbn [mbind option_bind]; [|done].
  specialize (Hh h eq_refl). unfold bearer. destruct (strip_prefix (lit "Bearer ") h) as [token|] eqn:E.
  - apply strip_prefix_Some in E. subst h. rewrite constant_time_eq_spec.
    apply Forall_app in Hh as [_ Ht]. split.
    + intros Heq. by rewrite (utf8_inj token secret).
    + by intros [= ->].
  - split; [done|]. intros Heq%(inj Some). rewrite Heq, strip_prefix_app in E. done.
Qed.

Lemma authorize_exact_witness :
  (authorize (Some (lit "s3cret")) (Some (lit "Bearer s3cret")) = true ↔
   Some (lit "Bearer s3cret") = Some (lit "Bearer " ++ lit "s3cret")) ∧
  authorize None (Some (lit "Bearer s3cret")) = true.
Proof.
  apply (authorize_exact (lit "s3cret") (Some (lit "Bearer s3cret"))).
  - repeat constructor.
  - intros h Hh. apply (inj Some) in Hh as <-. repeat constructor.
Defined.
