(* ===== verification/IterationBudget.v ===== *)
(** * The shared iteration budget ([codel00p-harness/src/iteration_budget.rs])

    [consume] and [refund] are compare-and-swap loops on one [AtomicU32] shared
    by threads.  The model interleaves their atomic steps.  Relaxed loads, and
    the value a failed [compare_exchange_weak] returns, may be any value the
    cell has held; the exchange may fail spuriously; a successful exchange sees
    the latest value. *)

From stdpp Require Import base numbers strings gmap list.
From S2P Require Import Prelude.

(** Where a thread is: not in a call, or in a loop holding [current]. *)
Inductive Thread := Idle | Consuming (current : N) | Refunding (current : N).

(** [used] with the values it held before; the latest is [bud_used]. *)
Record IterationBudget := {
  max_total : N;
  bud_used : N;
  bud_past : list N;
  bud_threads : gmap nat Thread;
}.
Definition IterationBudget_new (max_total : N) : IterationBudget :=
  {| max_total := max_total; bud_used := 0; bud_past := []; bud_threads := ∅ |}.

Definition thread_of (b : IterationBudget) (t : nat) : Thread := default Idle (bud_threads b !! t).
Definition set_thread (t : nat) (st : Thread) (b : IterationBudget) : IterationBudget :=
  {| max_total := max_total b; bud_used := bud_used b; bud_past := bud_past b;
     bud_threads := <[t := st]> (bud_threads b) |}.
(** A successful exchange. *)
Definition exchange (v : N) (b : IterationBudget) : IterationBudget :=
  {| max_total := max_total b; bud_used := v; bud_past := bud_used b :: bud_past b;
     bud_threads := bud_threads b |}.
(** A value a relaxed load may return. *)
Definition visible (b : IterationBudget) (v : N) : bool := bool_decide (v ∈ bud_used b :: bud_past b).

(** What the scheduler and the memory choose for one atomic step. *)
Inductive choice :=
| LoadConsume (v : N)    (* a call of consume: its first load *)
| LoadRefund (v : N)     (* a call of refund: its first load *)
| Loop                   (* one loop iteration that returns *)
| Retry (next : N).      (* one loop iteration whose exchange fails *)

Inductive event := Silent | Granted | Refused | Refunded | NothingToRefund.

(** One iteration of [consume]'s loop. *)
Definition consume_step (t : nat) (current : N) (c : choice) (b : IterationBudget)
    : option (event * IterationBudget) :=
  match c with
  | Loop =>
      if (max_total b <=? current)%N then Some (Refused, set_thread t Idle b)
      else if (bud_used b =? current)%N
           then Some (Granted, set_thread t Idle (exchange (u32_add current 1) b))
           else None
  | Retry next =>
      if (max_total b <=? current)%N then None
      else if visible b next then Some (Silent, set_thread t (Consuming next) b) else None
  | _ => None
  end.

(** One iteration of [refund]'s loop. *)
Definition refund_step (t : nat) (current : N) (c : choice) (b : IterationBudget)
    : option (event * IterationBudget) :=
  match c with
  | Loop =>
      if (current =? 0)%N then Some (NothingToRefund, set_thread t Idle b)
      else if (bud_used b =? current)%N
           then Some (Refunded, set_thread t Idle (exchange (u32_sub current 1) b))
           else None
  | Retry next =>
      if (current =? 0)%N then None
      else if visible b next then Some (Silent, set_thread t (Refunding next) b) else None
  | _ => None
  end.

(** One atomic step of thread [t]; [None] is a choice that is not possible. *)
Definition budget_step (t : nat) (c : choice) (b : IterationBudget)
    : option (event * IterationBudget) :=
  match thread_of b t with
  | Idle =>
      match c with
      | LoadConsume v => if visible b v then Some (Silent, set_thread t (Consuming v) b) else None
      | LoadRefund v => if visible b v then Some (Silent, set_thread t (Refunding v) b) else None
      | _ => None
      end
  | Consuming current => consume_step t current c b
  | Refunding current => refund_step t current c b
  end.

Definition used (b : IterationBudget) : N := bud_used b.
Definition remaining (b : IterationBudget) : N := u32_saturating_sub (max_total b) (used b).

(** An interleaving of steps and the events it produces. *)
Fixpoint run_budget (sched : list (nat * choice)) (b : IterationBudget)
    : option (list event * IterationBudget) :=
  match sched with
  | [] => Some ([], b)
  | (t, c) :: sched =>
      '(e, b) ← budget_step t c b;
      '(es, b) ← run_budget sched b;
      Some (e :: es, b)
  end.

Definition count (e : event) (es : list event) : N :=
  N.of_nat (length (List.filter (λ x, match e, x with
    | Silent, Silent | Granted, Granted | Refused, Refused | Refunded, Refunded
    | NothingToRefund, NothingToRefund => true
    | _, _ => false end) es)).

(** ** Invariant *)

(** No value the cell ever held exceeds the limit, and threads hold only
    values the cell has held. *)
Record budget_wf (b : IterationBudget) : Prop := {
  bwf_max : (max_total b < u32_modulus)%N;
  bwf_bound : Forall (λ v, (v ≤ max_total b)%N) (bud_used b :: bud_past b);
  bwf_threads : ∀ t, match thread_of b t with
                     | Idle => True
                     | Consuming v | Refunding v => v ∈ bud_used b :: bud_past b
                     end;
}.

Lemma budget_wf_new max : (max < u32_modulus)%N → budget_wf (IterationBudget_new max).
Proof.
  intros Hm. split; simpl; [done|repeat constructor; lia|].
  intros t. unfold thread_of. simpl. by rewrite lookup_empty.
Qed.

Lemma thread_of_set t t' st b : thread_of (set_thread t st b) t' = if decide (t = t') then st else thread_of b t'.
Proof. unfold thread_of. simpl. rewrite lookup_insert. by case_decide. Qed.

Lemma set_thread_wf t st b :
  match st with Idle => True | Consuming v | Refunding v => v ∈ bud_used b :: bud_past b end →
  budget_wf b → budget_wf (set_thread t st b).
Proof.
  intros Hst [Hm Hb Ht]. split; simpl; [done..|]. intros t'. rewrite thread_of_set.
  case_decide; [done|apply Ht].
Qed.

Lemma exchange_wf v b : (v ≤ max_total b)%N → budget_wf b → budget_wf (exchange v b).
Proof.
  intros Hv [Hm Hb Ht]. split; simpl; [done|by constructor|]. intros t. specialize (Ht t).
  change (thread_of (exchange v b) t) with (thread_of b t). destruct (thread_of b t); set_solver.
Qed.

(** One step preserves the invariant and moves [used] by what its event says. *)
Lemma budget_step_wf t c b e b' :
  budget_wf b → budget_step t c b = Some (e, b') →
  budget_wf b' ∧ max_total b' = max_total b ∧
  (bud_used b' + count Refunded [e] = bud_used b + count Granted [e])%N ∧
  (e = Refused → max_total b ∈ bud_used b :: bud_past b).
Proof.
  intros Hw Hstep. destruct (Hw) as [Hm Hb Ht]. specialize (Ht t).
  assert (Hused : (bud_used b ≤ max_total b)%N) by by inversion Hb.
  unfold budget_step, consume_step, refund_step, visible in Hstep.
  destruct (thread_of b t) as [|cur|cur], c as [v|v| |v]; try done;
    repeat (case_bool_decide || case_match); simplify_eq;
    rewrite ?N.leb_le, ?N.leb_gt, ?N.eqb_eq, ?N.eqb_neq in *; subst.
  all: try (split_and!; [by apply set_thread_wf|done|done|done]).
  - split_and!; [by apply set_thread_wf|done|done|]. intros _.
    rewrite Forall_forall in Hb. pose proof (Hb _ Ht). by replace (max_total b) with cur by lia.
  - assert (Hu : u32_add (bud_used b) 1 = (bud_used b + 1)%N) by (apply N.mod_small; lia).
    split_and!; [|done| |done].
    + apply set_thread_wf; [done|]. apply exchange_wf; [rewrite Hu; lia|done].
    + simpl. rewrite Hu. unfold count. simpl. lia.
  - assert (Hu : u32_sub (bud_used b) 1 = (bud_used b - 1)%N).
    { unfold u32_sub. replace (bud_used b + (u32_modulus - 1))%N with
        ((bud_used b - 1) + 1 * u32_modulus)%N by (unfold u32_modulus; lia).
      rewrite N.Div0.mod_add. apply N.mod_small. lia. }
    split_and!; [|done| |done].
    + apply set_thread_wf; [done|]. apply exchange_wf; [rewrite Hu; lia|done].
    + simpl. rewrite Hu. unfold count. simpl. lia.
Qed.

Lemma run_budget_wf sched b0 es b :
  budget_wf b0 → run_budget sched b0 = Some (es, b) →
  budget_wf b ∧ max_total b = max_total b0 ∧
  (bud_used b + count Refunded es = bud_used b0 + count Granted es)%N.
Proof.
  revert b0 es b. induction sched as [|[t c] sched IH]; intros b0 es b Hw; simpl.
  - intros [= <- <-]. done.
  - destruct (budget_step t c b0) as [[e b1]|] eqn:Hs; [simpl|done].
    destruct (run_budget sched b1) as [[es1 b2]|] eqn:Hr; [simpl|done]. intros [= <- <-].
    destruct (budget_step_wf t c b0 e b1 Hw Hs) as (Hw1 & Hm1 & Hu1 & _).
    destruct (IH b1 es1 b2 Hw1 Hr) as (Hw2 & Hm2 & Hu2).
    split_and!; [done|congruence|]. unfold count in *. destruct e; simpl in *; lia.
Qed.

(** C21. Under every interleaving of [consume] and [refund] calls of any number
    of threads, stale loads and spurious exchange failures included: iterations
    granted less iterations refunded is exactly what is in use, never more than
    the limit, and [remaining] is the rest. *)
Theorem budget_never_overspent max sched es b :
  (max < u32_modulus)%N → run_budget sched (IterationBudget_new max) = Some (es, b) →
  (count Granted es = used b + count Refunded es)%N ∧ (used b ≤ max)%N ∧
  (used b + remaining b = max)%N.
Proof.
  intros Hmax Hrun.
  destruct (run_budget_wf _ _ _ _ (budget_wf_new max Hmax) Hrun) as (Hw & Hm & Hu). simpl in Hm, Hu.
  pose proof (bwf_bound b Hw) as Hb. apply Forall_cons in Hb as [Hle _].
  unfold remaining, used, u32_saturating_sub in *. split_and!; lia.
Qed.

(** A refusal is never spurious: when [consume] returns [false], the budget
    had been fully used at some moment of the run. *)
Theorem refusal_means_exhausted max sched es b t c b' :
  (max < u32_modulus)%N → run_budget sched (IterationBudget_new max) = Some (es, b) →
  budget_step t c b = Some (Refused, b') → max ∈ bud_used b :: bud_past b.
Proof.
  intros Hmax Hrun Hs.
  destruct (run_budget_wf _ _ _ _ (budget_wf_new max Hmax) Hrun) as (Hw & Hm & _). simpl in Hm.
  rewrite <- Hm. by eapply budget_step_wf.
Qed.

(** Progress without interference: in every reachable state, a thread in a
    call finishes it within two steps of its own that load the current value;
    an uninterrupted [consume] is granted exactly when the budget is not
    used up. *)
Theorem budget_solo_progress max sched es b t :
  (max < u32_modulus)%N → run_budget sched (IterationBudget_new max) = Some (es, b) →
  (thread_of b t ≠ Idle → ∃ own es' b', run_budget own b = Some (es', b') ∧
     Forall (λ step, step.1 = t) own ∧ length own ≤ 2 ∧ thread_of b' t = Idle) ∧
  (thread_of b t = Idle → ∃ b',
     run_budget [(t, LoadConsume (used b)); (t, Loop)] b =
       Some ([Silent; if (max <=? used b)%N then Refused else Granted], b') ∧
     used b' = if (max <=? used b)%N then used b else (used b + 1)%N).
Proof.
  intros Hmax Hrun.
  destruct (run_budget_wf _ _ _ _ (budget_wf_new max Hmax) Hrun) as (Hw & Hm & _). simpl in Hm.
  assert (Hset : ∀ st b, thread_of (set_thread t st b) t = st).
  { intros st b0. rewrite thread_of_set. by case_decide. }
  assert (Hvis : visible b (bud_used b) = true) by (apply bool_decide_eq_true_2; left).
  split.
  - intros Hidle. destruct (thread_of b t) as [|cur|cur] eqn:Ht; [done|..].
    + destruct (N.leb_spec (max_total b) cur) as [Hc|Hc].
      { exists [(t, Loop)]. cbn [run_budget]. unfold budget_step. rewrite Ht. unfold consume_step.
        rewrite (proj2 (N.leb_le _ _) Hc). simpl. eexists _, _. split_and!; [done|by repeat constructor|simpl; lia|apply Hset]. }
      exists [(t, Retry (bud_used b)); (t, Loop)]. cbn [run_budget]. unfold budget_step. rewrite Ht. unfold consume_step.
      rewrite (proj2 (N.leb_gt _ _) Hc), Hvis. simpl. rewrite Hset. unfold consume_step.
      simpl. rewrite N.eqb_refl. destruct (_ <=? _)%N; simpl; eexists _, _; (split_and!; [done|by repeat constructor|simpl; lia|apply Hset]).
    + destruct (N.eqb_spec cur 0) as [->|Hc].
      { exists [(t, Loop)]. cbn [run_budget]. unfold budget_step. rewrite Ht. simpl. eexists _, _.
        split_and!; [done|by repeat constructor|simpl; lia|apply Hset]. }
      exists [(t, Retry (bud_used b)); (t, Loop)]. cbn [run_budget]. unfold budget_step. rewrite Ht. unfold refund_step.
      rewrite (proj2 (N.eqb_neq _ _) Hc), Hvis. simpl. rewrite Hset. unfold refund_step.
      simpl. rewrite N.eqb_refl. destruct (_ =? _)%N; simpl; eexists _, _; (split_and!; [done|by repeat constructor|simpl; lia|apply Hset]).
  - intros Ht. cbn [run_budget]. unfold budget_step. rewrite Ht. unfold used. rewrite Hvis. simpl.
    rewrite Hset. unfold consume_step. simpl. rewrite Hm, N.eqb_refl.
    destruct (N.leb_spec max (bud_used b)); simpl; eexists; (split; [done|]); [done|].
    simpl. apply N.mod_small. lia.
Qed.

(** ** Witnesses *)

(** Two threads race for one iteration; the loser retries and is refused, the
    winner refunds. *)
Definition demo_sched : list (nat * choice) :=
  [ (0, LoadConsume 0%N); (1, LoadConsume 0%N); (0, Loop); (1, Retry 1%N); (1, Loop);
    (0, LoadRefund 0%N); (0, Loop); (0, LoadRefund 1%N); (0, Loop) ].
Definition demo_run := default ([], IterationBudget_new 1) (run_budget demo_sched (IterationBudget_new 1)).

Lemma demo_run_eq : run_budget demo_sched (IterationBudget_new 1) = Some (demo_run.1, demo_run.2).
Proof. vm_compute. reflexivity. Qed.

Lemma budget_never_overspent_witness :
  demo_run.1 = [Silent; Silent; Granted; Silent; Refused; Silent; NothingToRefund; Silent; Refunded] ∧
  (count Granted demo_run.1 = used demo_run.2 + count Refunded demo_run.1)%N.
Proof.
  split; [vm_compute; reflexivity|].
  exact (proj1 (budget_never_overspent 1 demo_sched demo_run.1 demo_run.2 eq_refl demo_run_eq)).
Defined.

Definition demo_race : IterationBudget :=
  (default ([], IterationBudget_new 1) (run_budget (take 4 demo_sched) (IterationBudget_new 1))).2.

Lemma refusal_means_exhausted_witness : 1%N ∈ bud_used demo_race :: bud_past demo_race.
Proof.
  apply (refusal_means_exhausted 1 (take 4 demo_sched) [Silent; Silent; Granted; Silent] demo_race
           1 Loop (set_thread 1 Idle demo_race)).
  - reflexivity.
  - vm_compute. reflexivity.
  - vm_compute. reflexivity.
Defined.

Lemma budget_solo_progress_witness :
  ∃ own es' b', run_budget own demo_race = Some (es', b') ∧
     Forall (λ step, step.1 = 1) own ∧ length own ≤ 2 ∧ thread_of b' 1 = Idle.
Proof.
  apply (budget_solo_progress 1 (take 4 demo_sched) [Silent; Silent; Granted; Silent] demo_race 1).
  - reflexivity.
  - vm_compute. reflexivity.
  - vm_compute. discriminate.
Defined.
