(* ===== verification/Patch.v ===== *)
(** * The find/replace engine ([codel00p-harness/src/editing/patch.rs])

    Matching by four strategies over byte offsets, splicing, re-indentation and
    the not-found hint.  Byte ranges are kept as the source computes them; a
    slice off a character boundary, which panics, is [None], and so is a loop
    that runs out of fuel.  [debug] is the [{:?}] rendering of a line. *)

From stdpp Require Import base numbers strings gmap list.
From S2P Require Import Prelude RustStr.

Record ChangeOutcome := { patched : str; replacements : nat; strategy : str }.

(** A byte range [loc_start, loc_end) and the text to write there. *)
Record Located := { loc_start : nat; loc_end : nat; replacement : str }.

(** ** Splicing *)

Fixpoint splice_from (original : str) (cursor : nat) (matches : list Located) : option str :=
  match matches with
  | [] => byte_drop original cursor
  | located :: matches =>
      kept ← byte_slice original cursor (loc_start located);
      rest ← splice_from original (loc_end located) matches;
      Some (kept ++ replacement located ++ rest)
  end.
Definition splice (original : str) (matches : list Located) : option str :=
  splice_from original 0 (sort_by (cmp_on loc_start Nat.compare) matches).

(** ** Strategies *)

Fixpoint locate_exact_from (fuel : nat) (original find replace : str) (start : nat)
    : option (list Located) :=
  match fuel with
  | 0 => None
  | S fuel =>
      rest ← byte_drop original start;
      match find_str find rest with
      | None => Some []
      | Some found =>
          let abs := start + found in
          matches ← locate_exact_from fuel original find replace (abs + byte_len find);
          Some ({| loc_start := abs; loc_end := abs + byte_len find; replacement := replace |} :: matches)
      end
  end.
(** Each iteration consumes an occurrence of a non-empty [find]. *)
Definition locate_exact (original find replace : str) : option (list Located) :=
  locate_exact_from (S (length original)) original find replace 0.

Definition split_keep_ends (text : str) : list str := split_inclusive_nl text.
Definition strip_eol (line : str) : str := line_body line.
Definition leading_whitespace (line : str) : str :=
  match split_at_first (λ c, negb (is_whitespace c)) line with Some (ws, _) => ws | None => line end.

(** The start offset of each line, and the end of the last. *)
Fixpoint line_offsets (acc : nat) (lines : list str) : list nat :=
  match lines with
  | [] => [acc]
  | line :: lines => acc :: line_offsets (acc + byte_len line) lines
  end.

(** The window loop of the line strategies: [keys] of the find block against
    the keys of [window] consecutive lines; [write] makes the replacement from
    the first matched line. *)
Fixpoint locate_windows (fuel : nat) (key : str → str) (write : str → option str)
    (find_keys : list str) (offsets : list nat) (orig_lines : list str) (i : nat)
    : option (list Located) :=
  match fuel with
  | 0 => None
  | S fuel =>
      let window := length find_keys in
      if i + window <=? length orig_lines then
        if bool_decide (key <$> take window (drop i orig_lines) = find_keys) then
          start ← offsets !! i;
          stop ← offsets !! (i + window);
          first ← orig_lines !! i;
          text ← write first;
          matches ← locate_windows fuel key write find_keys offsets orig_lines (i + window);
          Some ({| loc_start := start; loc_end := stop; replacement := text |} :: matches)
        else locate_windows fuel key write find_keys offsets orig_lines (S i)
      else Some []
  end.

Definition locate_lines (key : str → str) (write : str → option str) (original find : str)
    : option (list Located) :=
  let find_lines := split_keep_ends find in
  if is_empty find_lines then Some []
  else
    let orig_lines := split_keep_ends original in
    if length orig_lines <? length find_lines then Some []
    else locate_windows (S (length orig_lines)) key write (key <$> find_lines)
           (line_offsets 0 orig_lines) orig_lines 0.

Definition locate_by_line (normalize : str → str) (original find replace : str)
    : option (list Located) :=
  locate_lines (λ line, normalize (strip_eol line)) (λ _, Some replace) original find.

Definition locate_trailing_whitespace (original find replace : str) : option (list Located) :=
  locate_by_line trim_end original find replace.
Definition locate_line_ending (original find replace : str) : option (list Located) :=
  locate_by_line (trim_end_matches (λ c, (c =? carriage_return)%N)) original find replace.

(** [Iterator::min] over byte counts, [0] when there is none. *)
Definition common_indent (lines : list str) : nat :=
  match (λ l, byte_len (leading_whitespace (strip_eol l))) <$>
          filter (λ l, is_empty (trim (strip_eol l)) = false) lines with
  | [] => 0
  | n :: ns => foldl Nat.min n ns
  end.

Definition reindent_line (base_indent : str) (common : nat) (line : str) : option str :=
  let body := strip_eol line in
  eol ← byte_drop line (byte_len body);
  text ← (if is_empty (trim body) then Some body
          else rest ← byte_drop body common; Some (base_indent ++ rest));
  Some (text ++ eol).

Definition reindent (replace base_indent : str) : option str :=
  let lines := split_keep_ends replace in
  if is_empty lines then Some replace
  else parts ← mapM (reindent_line base_indent (common_indent lines)) lines; Some (concat parts).

Definition locate_indentation (original find replace : str) : option (list Located) :=
  locate_lines (λ line, trim_start (strip_eol line))
    (λ first, reindent replace (leading_whitespace (strip_eol first))) original find.

(** ** The not-found hint *)

Definition collapse_whitespace (line : str) : str := join (lit " ") (split_whitespace line).

Fixpoint shared_prefix_len (a b : str) : nat :=
  match a, b with
  | x :: a, y :: b => if (x =? y)%N then S (shared_prefix_len a b) else 0
  | _, _ => 0
  end.

Definition closest_line (find_first : str) (best : option (nat * str)) (line : str)
    : option (nat * str) :=
  let score := shared_prefix_len (trim line) find_first in
  if score =? 0 then best
  else match best with
       | Some (best_score, _) => if score <=? best_score then best else Some (score, line)
       | None => Some (score, line)
       end.

Section engine.
Context (debug : str → str).

Definition not_found_hint (original find : str) : str :=
  let find_first := trim (default [] (head (lines find))) in
  if is_empty find_first then lit "find text was not present"
  else
    match List.find (λ line, bool_decide (collapse_whitespace line = collapse_whitespace find_first)
                             && negb (bool_decide (trim line = find_first))) (lines original) with
    | Some line => lit "find text was not present; a line differs only in whitespace: " ++ debug line
    | None =>
        match foldl (closest_line find_first) None (lines original) with
        | Some (_, line) => lit "find text was not present; closest line is: " ++ debug (trim line)
        | None => lit "find text was not present"
        end
    end.

(** ** Applying a change *)

Definition ambiguous (n : nat) (strategy : str) : str :=
  lit "found " ++ show_N (N.of_nat n) ++ lit " matches for the `find` text via " ++ strategy ++
  lit " matching; add surrounding context so it is unique, or set `replace_all` to true to replace every occurrence".

Definition LocateFn : Type := str → str → str → option (list Located).
Definition strategies : list (str * LocateFn) :=
  [(lit "exact", locate_exact); (lit "line-ending", locate_line_ending);
   (lit "trailing-whitespace", locate_trailing_whitespace); (lit "indentation", locate_indentation)].

Fixpoint apply_strategies (strategies : list (str * LocateFn)) (original find replace : str)
    (replace_all : bool) : option (result str ChangeOutcome) :=
  match strategies with
  | [] => Some (Err (not_found_hint original find))
  | (name, locate) :: strategies =>
      matches ← locate original find replace;
      if is_empty matches then apply_strategies strategies original find replace replace_all
      else if (1 <? length matches) && negb replace_all then Some (Err (ambiguous (length matches) name))
      else
        text ← splice original matches;
        Some (Ok {| patched := text; replacements := length matches; strategy := name |})
  end.
Definition apply_change (original find replace : str) (replace_all : bool)
    : option (result str ChangeOutcome) :=
  apply_strategies strategies original find replace replace_all.
End engine.

Example exact_example :
  apply_change id (lit "let a = 1;") (lit "a = 1") (lit "a = 99") false =
  Some (Ok {| patched := lit "let a = 99;"; replacements := 1; strategy := lit "exact" |}).
Proof. vm_compute. reflexivity. Qed.

Example indentation_example :
  apply_change id (lit "    return x;" ++ [newline]) (lit "        return x;") (lit "return y;") false =
  Some (Ok {| patched := lit "    return y;"; replacements := 1; strategy := lit "indentation" |}).
Proof. vm_compute. reflexivity. Qed.

(** ** Properties of the find/replace engine

    The patched file is the original with some regions replaced and every byte
    outside them kept; which regions, each strategy says; when the engine
    panics. *)

(** ** Segments: a file cut into kept and substituted regions *)

Inductive segment :=
| Keep (text : str)
| Sub (old new : str).

Definition old_text (s : segment) : str := match s with Keep t => t | Sub old _ => old end.
Definition new_text (s : segment) : str := match s with Keep t => t | Sub _ new => new end.
Definition is_sub (s : segment) : bool := match s with Keep _ => false | Sub _ _ => true end.
Definition before (segs : list segment) : str := concat (old_text <$> segs).
Definition after (segs : list segment) : str := concat (new_text <$> segs).
Definition sub_count (segs : list segment) : nat := length (List.filter is_sub segs).

Fixpoint located_of (offset : nat) (segs : list segment) : list Located :=
  match segs with
  | [] => []
  | Keep t :: segs => located_of (offset + byte_len t) segs
  | Sub old new :: segs =>
      {| loc_start := offset; loc_end := offset + byte_len old; replacement := new |}
      :: located_of (offset + byte_len old) segs
  end.

Lemma located_of_length offset segs : length (located_of offset segs) = sub_count segs.
Proof.
  unfold sub_count. revert offset. induction segs as [|[t|old new] segs IH]; intros offset; simpl; [done|..];
    by rewrite IH.
Qed.

Lemma located_of_ge offset segs : Forall (λ l, offset ≤ loc_start l) (located_of offset segs).
Proof.
  revert offset. induction segs as [|[t|old new] segs IH]; intros offset; simpl; [constructor|..].
  - eapply Forall_impl; [apply IH|]. intros l Hl. simpl in Hl. lia.
  - constructor; [simpl; lia|]. eapply Forall_impl; [apply IH|]. intros l Hl. simpl in Hl. lia.
Qed.

Lemma located_of_sorted offset segs :
  Sorted.StronglySorted (cmp_le (cmp_on loc_start Nat.compare)) (located_of offset segs).
Proof.
  revert offset. induction segs as [|[t|old new] segs IH]; intros offset; simpl; [constructor|done|].
  constructor; [done|]. eapply Forall_impl; [apply located_of_ge|]. intros l Hl.
  unfold cmp_le, cmp_on. simpl in *. rewrite Nat.compare_le_iff. lia.
Qed.

Lemma before_cons s segs : before (s :: segs) = old_text s ++ before segs.
Proof. done. Qed.
Lemma after_cons s segs : after (s :: segs) = new_text s ++ after segs.
Proof. done. Qed.

Lemma splice_from_segs pre kept segs :
  splice_from (pre ++ kept ++ before segs) (byte_len pre) (located_of (byte_len pre + byte_len kept) segs) =
  Some (kept ++ after segs).
Proof.
  revert pre kept. induction segs as [|[t|old new] segs IH]; intros pre kept.
  - unfold before, after. simpl. rewrite !app_nil_r. apply byte_drop_app.
  - rewrite before_cons, after_cons. cbn [located_of old_text new_text].
    specialize (IH pre (kept ++ t)). rewrite byte_len_app, Nat.add_assoc, <- !app_assoc in IH. done.
  - rewrite before_cons, after_cons. cbn [located_of old_text new_text splice_from loc_start loc_end].
    rewrite byte_slice_app. simpl.
    specialize (IH (pre ++ kept ++ old) []). rewrite !byte_len_app, Nat.add_0_r in IH.
    rewrite <- !app_assoc, Nat.add_assoc in IH. simpl in IH. by rewrite IH.
Qed.

(** Splicing the located regions of a cut file rewrites exactly those regions. *)
Lemma splice_segs segs : splice (before segs) (located_of 0 segs) = Some (after segs).
Proof.
  unfold splice. rewrite sort_by_id by apply located_of_sorted. apply (splice_from_segs [] []).
Qed.

(** ** What each strategy locates *)

Definition sub_of (P : str → str → Prop) (s : segment) : Prop :=
  match s with Keep _ => True | Sub old new => P old new end.

(** The matches are the substituted regions of a cut of the original. *)
Definition cuts (P : str → str → Prop) (original : str) (matches : list Located) : Prop :=
  ∃ segs, before segs = original ∧ matches = located_of 0 segs ∧ Forall (sub_of P) segs.

Lemma cuts_nil P original : cuts P original [].
Proof.
  exists [Keep original]. unfold before. simpl. rewrite app_nil_r. by repeat constructor.
Qed.

Lemma locate_exact_from_cuts fuel pre rest find replace matches :
  locate_exact_from fuel (pre ++ rest) find replace (byte_len pre) = Some matches →
  ∃ segs, before segs = rest ∧ matches = located_of (byte_len pre) segs ∧
    Forall (sub_of (λ old new, old = find ∧ new = replace)) segs.
Proof.
  revert pre rest matches. induction fuel as [|fuel IH]; intros pre rest matches; [done|].
  cbn [locate_exact_from]. rewrite byte_drop_app. simpl.
  destruct (find_str find rest) as [n|] eqn:Hf.
  - apply find_str_Some in Hf as (a & b & -> & -> & _).
    destruct (locate_exact_from fuel _ _ _ _) as [ms|] eqn:Hrec; [|done]. simpl. intros [= <-].
    specialize (IH (pre ++ a ++ find) b ms). rewrite <- !app_assoc in IH.
    rewrite !byte_len_app, !Nat.add_assoc in IH. destruct (IH Hrec) as (segs & <- & -> & Hs).
    exists (Keep a :: Sub find replace :: segs). split_and!; [done..|]. by repeat constructor.
  - intros [= <-]. exists [Keep rest]. unfold before. simpl. rewrite app_nil_r. by repeat constructor.
Qed.

Lemma locate_exact_cuts original find replace matches :
  locate_exact original find replace = Some matches →
  cuts (λ old new, old = find ∧ new = replace) original matches.
Proof. apply (locate_exact_from_cuts _ [] original). Qed.

Lemma line_offsets_lookup acc lines i :
  i ≤ length lines → line_offsets acc lines !! i = Some (acc + byte_len (concat (take i lines))).
Proof.
  revert acc i. induction lines as [|l lines IH]; intros acc [|i] Hi; simpl in *; try lia.
  - f_equal. lia.
  - f_equal. lia.
  - rewrite IH by lia. rewrite byte_len_app. f_equal. lia.
Qed.

(** A window of lines with the find block's keys. *)
Definition window_sub (key : str → str) (write : str → option str) (find_keys : list str)
    (old new : str) : Prop :=
  ∃ first ls, old = concat (first :: ls) ∧ key <$> first :: ls = find_keys ∧ write first = Some new.

Lemma locate_windows_cuts fuel key write find_keys lines i matches :
  find_keys ≠ [] → i ≤ length lines →
  locate_windows fuel key write find_keys (line_offsets 0 lines) lines i = Some matches →
  ∃ segs, before segs = concat (drop i lines) ∧
    matches = located_of (byte_len (concat (take i lines))) segs ∧
    Forall (sub_of (window_sub key write find_keys)) segs.
Proof.
  intros Hk. revert i matches. induction fuel as [|fuel IH]; intros i matches Hi; [done|].
  cbn [locate_windows]. destruct (Nat.leb_spec (i + length find_keys) (length lines)) as [Hw|Hw].
  2: { intros [= <-]. exists [Keep (concat (drop i lines))]. unfold before. simpl.
       rewrite app_nil_r. by repeat constructor. }
  assert (0 < length find_keys) by (destruct find_keys; simpl; [done|lia]).
  case_bool_decide as Hkey.
  - rewrite !line_offsets_lookup by lia. simpl.
    destruct (lines !! i) as [first|] eqn:Hfirst; [simpl|done].
    destruct (write first) as [text|] eqn:Htext; [simpl|done].
    destruct (locate_windows fuel _ _ _ _ _ _) as [ms|] eqn:Hrec; [simpl|done]. intros [= <-].
    destruct (IH (i + length find_keys) ms) as (segs & Hold & -> & Hs); [lia|done|].
    set (win := take (length find_keys) (drop i lines)) in *.
    assert (Hcat : byte_len (concat (take (i + length find_keys) lines)) =
                   byte_len (concat (take i lines)) + byte_len (concat win)).
    { rewrite <- byte_len_app, <- concat_app. unfold win. by rewrite take_take_drop. }
    exists (Sub (concat win) text :: segs). split_and!.
    + rewrite before_cons, Hold, <- drop_drop. simpl. rewrite <- concat_app. unfold win. by rewrite take_drop.
    + simpl. by rewrite Hcat.
    + constructor; [|done]. exists first, (tail win).
      assert (Hwin : win = first :: tail win).
      { unfold win. rewrite (drop_S _ _ _ Hfirst). by destruct (length find_keys); [lia|]. }
      rewrite <- Hwin. done.
  - intros Hrec. destruct (lookup_lt_is_Some_2 lines i) as [l Hl]; [lia|].
    destruct (IH (S i) matches) as (segs & Hold & -> & Hs); [lia|done|].
    exists (Keep l :: segs). split_and!.
    + rewrite before_cons, Hold. by rewrite (drop_S _ _ _ Hl).
    + simpl. rewrite (take_S_r _ _ _ Hl), concat_app, byte_len_app. simpl. by rewrite app_nil_r.
    + by constructor.
Qed.

Lemma concat_split_keep_ends text : concat (split_keep_ends text) = text.
Proof. apply split_inclusive_nl_concat. Qed.

Lemma locate_lines_cuts key write original find matches :
  locate_lines key write original find = Some matches →
  cuts (window_sub key write (key <$> split_keep_ends find)) original matches.
Proof.
  unfold locate_lines. destruct (split_keep_ends find) as [|f fs] eqn:Hf; cbn [is_empty].
  { intros [= <-]. apply cuts_nil. }
  destruct (_ <? _); [intros [= <-]; apply cuts_nil|]. intros Hm.
  apply locate_windows_cuts in Hm as (segs & Hold & -> & Hs); [|done|lia].
  rewrite drop_0, concat_split_keep_ends in Hold. by exists segs.
Qed.

(** ** Substitutions *)

(** [old] is a run of lines that agrees with the lines of [find] up to [key]. *)
Definition same_block (key : str → str) (find old : str) : Prop :=
  ∃ ls, old = concat ls ∧ key <$> ls = key <$> split_keep_ends find.

(** What each strategy may substitute. *)
Inductive substitution (find replace : str) : str → str → str → Prop :=
| sub_exact : substitution find replace (lit "exact") find replace
| sub_line_ending old :
    same_block (λ l, trim_end_matches (λ c, (c =? carriage_return)%N) (strip_eol l)) find old →
    substitution find replace (lit "line-ending") old replace
| sub_trailing_whitespace old :
    same_block (λ l, trim_end (strip_eol l)) find old →
    substitution find replace (lit "trailing-whitespace") old replace
| sub_indentation first ls new :
    (λ l, trim_start (strip_eol l)) <$> first :: ls =
      (λ l, trim_start (strip_eol l)) <$> split_keep_ends find →
    reindent replace (leading_whitespace (strip_eol first)) = Some new →
    substitution find replace (lit "indentation") (concat (first :: ls)) new.

Lemma cuts_mono P Q original matches :
  (∀ old new, P old new → Q old new) → cuts P original matches → cuts Q original matches.
Proof.
  intros HPQ (segs & Hold & Hm & Hs). exists segs. split_and!; [done..|].
  eapply Forall_impl; [exact Hs|]. intros [t|old new]; simpl; auto.
Qed.

Lemma strategies_cuts name locate original find replace matches :
  (name, locate) ∈ strategies → locate original find replace = Some matches →
  cuts (substitution find replace name) original matches.
Proof.
  intros Hin Hm. unfold strategies in Hin.
  repeat (apply elem_of_cons in Hin as [[= -> ->]|Hin]); [| | | |by apply elem_of_nil in Hin].
  - apply locate_exact_cuts in Hm. revert Hm. apply cuts_mono. intros old new [-> ->]. constructor.
  - apply locate_lines_cuts in Hm. revert Hm. apply cuts_mono.
    intros old new (first & ls & -> & Hk & [= <-]). constructor. by exists (first :: ls).
  - apply locate_lines_cuts in Hm. revert Hm. apply cuts_mono.
    intros old new (first & ls & -> & Hk & [= <-]). constructor. by exists (first :: ls).
  - apply locate_lines_cuts in Hm. revert Hm. apply cuts_mono.
    intros old new (first & ls & -> & Hk & Hw). by constructor.
Qed.

Lemma apply_strategies_Ok debug sts original find replace all o :
  sts ⊆ strategies →
  apply_strategies debug sts original find replace all = Some (Ok o) →
  ∃ segs, before segs = original ∧ patched o = after segs ∧ replacements o = sub_count segs ∧
    1 ≤ sub_count segs ∧ (all = false → sub_count segs = 1) ∧
    Forall (sub_of (substitution find replace (strategy o))) segs.
Proof.
  induction sts as [|[name locate] sts IH]; intros Hsub; simpl; [done|].
  destruct (locate original find replace) as [ms|] eqn:Hm; [simpl|done].
  apply (strategies_cuts name) in Hm as (segs & Hold & -> & Hs); [|apply Hsub; left].
  pose proof (located_of_length 0 segs) as Hlen.
  destruct (located_of 0 segs) as [|m ms] eqn:Hloc; [simpl; apply IH; set_solver|].
  rewrite <- Hloc in *. replace (is_empty (located_of 0 segs)) with false by by rewrite Hloc.
  rewrite Hlen. assert (1 ≤ sub_count segs) by (rewrite <- Hlen, Hloc; simpl; lia).
  destruct ((1 <? sub_count segs) && negb all) eqn:Hamb; [done|].
  rewrite <- Hold, splice_segs. simpl. intros [= <-]. exists segs. split_and!; try done.
  intros ->. rewrite andb_true_r in Hamb. apply Nat.ltb_ge in Hamb. lia.
Qed.

(** C23. The patched file is the original with some regions substituted and
    every byte outside them kept, in order: at least one region, exactly one
    unless [replace_all] is set, as many as reported, and each substitution is
    one the reported strategy allows. *)
Theorem apply_change_preserves debug original find replace all o :
  apply_change debug original find replace all = Some (Ok o) →
  ∃ segs, before segs = original ∧ patched o = after segs ∧ replacements o = sub_count segs ∧
    1 ≤ sub_count segs ∧ (all = false → sub_count segs = 1) ∧
    Forall (sub_of (substitution find replace (strategy o))) segs.
Proof. by apply apply_strategies_Ok. Qed.

(** ** Every character of a patched file comes from the file or the replacement *)

Lemma leading_whitespace_prefix line : ∃ rest, line = leading_whitespace line ++ rest.
Proof.
  unfold leading_whitespace. destruct (split_at_first _ line) as [[a b]|] eqn:Hs.
  - apply split_at_first_Some in Hs as (-> & _). by exists b.
  - exists []. by rewrite app_nil_r.
Qed.

Section characters.
Context (P : char → Prop).

Lemma byte_drop_Forall s n t : Forall P s → byte_drop s n = Some t → Forall P t.
Proof.
  revert n. induction s as [|c s IH]; intros [|n] Hs; cbn [byte_drop]; try (by intros [= <-]).
  destruct (_ <? _); [done|]. apply Forall_cons in Hs as [_ Hs]. by apply IH.
Qed.
Lemma strip_eol_Forall l : Forall P l → Forall P (strip_eol l).
Proof.
  intros Hl. destruct (line_body_prefix l) as [eol He]. rewrite He in Hl.
  by apply Forall_app in Hl as [? _].
Qed.
Lemma reindent_line_Forall base n l t :
  Forall P base → Forall P l → reindent_line base n l = Some t → Forall P t.
Proof.
  intros Hb Hl. unfold reindent_line. pose proof (strip_eol_Forall l Hl) as Hbody.
  destruct (byte_drop l _) as [eol|] eqn:Ee; [|done]. cbn [mbind option_bind].
  apply byte_drop_Forall in Ee; [|done].
  destruct (is_empty (trim (strip_eol l))); cbn [mbind option_bind]; [intros [= <-]; by apply Forall_app|].
  destruct (byte_drop (strip_eol l) n) as [rest|] eqn:Er; [|done]. cbn [mbind option_bind].
  apply byte_drop_Forall in Er; [|done]. intros [= <-]. by repeat apply Forall_app_2.
Qed.
Lemma concat_Forall (ls : list str) : Forall (Forall P) ls ↔ Forall P (concat ls).
Proof.
  induction ls as [|l ls IH]; [by split; constructor|]. cbn [concat]. by rewrite Forall_cons, Forall_app, IH.
Qed.
Lemma reindent_Forall replace base t :
  Forall P base → Forall P replace → reindent replace base = Some t → Forall P t.
Proof.
  intros Hb Hr. unfold reindent. destruct (is_empty _); [by intros [= <-]|].
  destruct (mapM _ _) as [parts|] eqn:Em; [|done]. cbn [mbind option_bind]. intros [= <-].
  apply concat_Forall. apply mapM_Some in Em.
  rewrite <- (concat_split_keep_ends replace) in Hr. apply concat_Forall in Hr.
  revert Em Hr. generalize (common_indent (split_keep_ends replace)) as n. intros n.
  induction 1 as [|l p ls ps Hl Hls IH]; intros Hf; [constructor|].
  apply Forall_cons in Hf as [Hf1 Hf2]. constructor; [|by apply IH]. exact (reindent_line_Forall base n l p Hb Hf1 Hl).
Qed.

Lemma patched_Forall debug original find replace all o :
  apply_change debug original find replace all = Some (Ok o) →
  Forall P original → Forall P replace → Forall P (patched o).
Proof.
  intros (segs & <- & -> & _ & _ & _ & Hs)%apply_strategies_Ok Ho Hr; [|done].
  unfold before, after in *. rewrite <- concat_Forall in Ho |- *.
  induction Hs as [|s segs Hsub Hs IH]; [constructor|].
  apply Forall_cons in Ho as [Ho1 Ho2]. constructor; [|by apply IH].
  destruct s as [t|old new]; [done|]. cbn [new_text old_text sub_of] in *.
  destruct Hsub as [|? _|? _|first ls new _ Hre]; [done..|].
  cbn [concat] in Ho1. apply Forall_app in Ho1 as [Hfirst _].
  refine (reindent_Forall _ _ _ _ Hr Hre). apply strip_eol_Forall in Hfirst.
  destruct (leading_whitespace_prefix (strip_eol first)) as [rest He]. rewrite He in Hfirst.
  by apply Forall_app in Hfirst as [? _].
Qed.
End characters.

(** ** When the engine returns *)

Lemma locate_exact_from_total fuel pre rest find replace :
  find ≠ [] → length rest < fuel →
  is_Some (locate_exact_from fuel (pre ++ rest) find replace (byte_len pre)).
Proof.
  intros Hne. revert pre rest. induction fuel as [|fuel IH]; intros pre rest Hfu; [lia|].
  cbn [locate_exact_from]. rewrite byte_drop_app. simpl.
  destruct (find_str find rest) as [n|] eqn:Hf; [|by eexists].
  apply find_str_Some in Hf as (a & b & -> & -> & _).
  assert (0 < length find) by (destruct find; simpl; [done|lia]). rewrite !length_app in Hfu.
  destruct (IH (pre ++ a ++ find) b) as [ms Hms]; [lia|].
  rewrite <- !app_assoc, !byte_len_app, !Nat.add_assoc in Hms. rewrite Hms. by eexists.
Qed.

Lemma locate_windows_total fuel key write find_keys lines i :
  find_keys ≠ [] → (∀ l, l ∈ lines → is_Some (write l)) → i ≤ length lines → length lines - i < fuel →
  is_Some (locate_windows fuel key write find_keys (line_offsets 0 lines) lines i).
Proof.
  intros Hk Hw. assert (0 < length find_keys) by (destruct find_keys; simpl; [done|lia]).
  revert i. induction fuel as [|fuel IH]; intros i Hi Hfu; [lia|]. cbn [locate_windows].
  destruct (Nat.leb_spec (i + length find_keys) (length lines)); [|by eexists].
  case_bool_decide; [|apply IH; lia].
  rewrite !line_offsets_lookup by lia. simpl.
  destruct (lookup_lt_is_Some_2 lines i) as [l Hl]; [lia|]. rewrite Hl. simpl.
  destruct (Hw l) as [text ->]; [by eapply list_elem_of_lookup_2|]. simpl.
  destruct (IH (i + length find_keys)) as [ms ->]; [lia..|]. by eexists.
Qed.

Lemma locate_lines_total key write original find :
  (∀ l, is_Some (write l)) → is_Some (locate_lines key write original find).
Proof.
  intros Hw. unfold locate_lines. destruct (split_keep_ends find) as [|f fs]; [by eexists|].
  cbn [is_empty]. destruct (_ <? _); [by eexists|]. apply locate_windows_total; [done|auto|lia..].
Qed.

(** Every line of the replacement is indented with ASCII blanks only. *)
Definition ascii_indented (text : str) : Prop :=
  ∀ l, l ∈ split_keep_ends text → Forall (λ c, (c < 128)%N) (leading_whitespace (strip_eol l)).


Lemma foldl_min_le n ns : foldl Nat.min n ns ≤ n ∧ ∀ k, k ∈ ns → foldl Nat.min n ns ≤ k.
Proof.
  revert n. induction ns as [|m ns IH]; intros n; simpl; [split; [lia|by intros k Hk%elem_of_nil]|].
  destruct (IH (Nat.min n m)) as [H1 H2]. split; [lia|].
  intros k [->|Hk]%elem_of_cons; [lia|by apply H2].
Qed.

Lemma common_indent_le lines l :
  l ∈ lines → is_empty (trim (strip_eol l)) = false →
  common_indent lines ≤ byte_len (leading_whitespace (strip_eol l)).
Proof.
  intros Hl Hb. unfold common_indent.
  assert (Hin : byte_len (leading_whitespace (strip_eol l)) ∈
    (λ l, byte_len (leading_whitespace (strip_eol l))) <$>
      filter (λ l, is_empty (trim (strip_eol l)) = false) lines).
  { apply list_elem_of_fmap. exists l. split; [done|]. by apply list_elem_of_filter. }
  destruct (_ <$> _) as [|n ns]; [by apply elem_of_nil in Hin|].
  destruct (foldl_min_le n ns) as [H1 H2]. apply elem_of_cons in Hin as [->|Hin]; [done|by apply H2].
Qed.

Lemma reindent_total replace base : ascii_indented replace → is_Some (reindent replace base).
Proof.
  intros Ha. unfold reindent. destruct (is_empty (split_keep_ends replace)); [by eexists|].
  set (lines := split_keep_ends replace). set (n := common_indent lines).
  destruct (mapM_Forall2 (reindent_line base n) (λ _ _, True) lines) as (parts & -> & _); [|by eexists].
  intros l Hl. unfold reindent_line. destruct (line_body_prefix l) as [eol Hle].
  fold (strip_eol l) in Hle.
  assert (Hd : byte_drop l (byte_len (strip_eol l)) = Some eol) by (rewrite Hle at 1; apply byte_drop_app).
  rewrite Hd. simpl. destruct (is_empty (trim (strip_eol l))) eqn:Hb; [by eexists|].
  destruct (leading_whitespace_prefix (strip_eol l)) as [rest Hrest].
  destruct (byte_drop_ascii (leading_whitespace (strip_eol l)) rest n) as [t Ht];
    [by apply Ha|by apply common_indent_le|].
  rewrite <- Hrest in Ht. rewrite Ht. simpl. by eexists.
Qed.

Lemma strategies_total name locate original find replace :
  find ≠ [] → ascii_indented replace → (name, locate) ∈ strategies →
  is_Some (locate original find replace).
Proof.
  intros Hne Ha Hin. unfold strategies in Hin.
  repeat (apply elem_of_cons in Hin as [[= -> ->]|Hin]); [| | | |by apply elem_of_nil in Hin].
  - apply (locate_exact_from_total _ [] original); [done|lia].
  - apply locate_lines_total. by eexists.
  - apply locate_lines_total. by eexists.
  - apply locate_lines_total. intros l. by apply reindent_total.
Qed.

(** The engine returns: for a non-empty [find] and a replacement indented
    with ASCII blanks, every loop terminates and no slice panics, whatever the
    file contains. *)
Theorem apply_change_returns debug original find replace all :
  find ≠ [] → ascii_indented replace → is_Some (apply_change debug original find replace all).
Proof.
  intros Hne Ha. unfold apply_change. assert (Hsub : strategies ⊆ strategies) by done.
  revert Hsub. generalize strategies at 1 3 as sts.
  induction sts as [|[name locate] sts IH]; intros Hsub; [by eexists|]. cbn [apply_strategies].
  assert (Hin : (name, locate) ∈ strategies) by (apply Hsub; left).
  destruct (strategies_total name locate original find replace) as [ms Hms]; [done..|].
  rewrite Hms. simpl. apply (strategies_cuts name) in Hms as (segs & Hold & -> & _); [|done].
  destruct (is_empty _); [apply IH; set_solver|].
  destruct (_ && _); [by eexists|]. rewrite <- Hold, splice_segs. by eexists.
Qed.

(** Exact matches win: when [find] occurs in the file, the exact strategy
    alone decides; one occurrence or [replace_all] gives its outcome, several
    without [replace_all] are refused with their number. *)
Theorem exact_match_wins debug original find replace all :
  find ≠ [] → contains find original = true →
  ∃ segs, before segs = original ∧ 1 ≤ sub_count segs ∧
    Forall (sub_of (λ old new, old = find ∧ new = replace)) segs ∧
    apply_change debug original find replace all =
      Some (if (1 <? sub_count segs) && negb all
            then Err (ambiguous (sub_count segs) (lit "exact"))
            else Ok {| patched := after segs; replacements := sub_count segs; strategy := lit "exact" |}).
Proof.
  intros Hne Hc. destruct (locate_exact_from_total (S (length original)) [] original find replace)
    as [ms Hms]; [done|lia|]. change (locate_exact original find replace = Some ms) in Hms.
  pose proof (locate_exact_cuts _ _ _ _ Hms) as (segs & Hold & -> & Hs).
  pose proof (located_of_length 0 segs) as Hlen.
  assert (Hpos : 1 ≤ sub_count segs).
  { rewrite <- Hlen. destruct (located_of 0 segs) eqn:Hloc; [exfalso|simpl; lia].
    unfold locate_exact in Hms. cbn [locate_exact_from byte_drop] in Hms.
    replace (byte_drop original 0) with (Some original) in Hms by by destruct original.
    simpl in Hms. destruct (find_str find original) as [n|] eqn:Hf.
    - by destruct (locate_exact_from _ _ _ _ _).
    - apply find_str_None in Hf. congruence. }
  exists segs. split_and!; [done..|]. unfold apply_change, strategies. cbn [apply_strategies].
  rewrite Hms. simpl. destruct (located_of 0 segs) as [|m ms] eqn:Hloc; [simpl in Hlen; lia|].
  cbn [is_empty]. rewrite Hlen. destruct ((1 <? sub_count segs) && negb all); [done|].
  rewrite <- Hloc, <- Hold, splice_segs. done.
Qed.

(** Re-indentation can panic: when the lines of the replacement mix blanks
    of different widths in UTF-8 (here an ideographic space and a plain one),
    the common indentation in bytes falls inside a character. *)
Theorem reindent_panics debug :
  apply_change debug (lit "  x" ++ [newline]) (lit "    x")
    ([12288%N] ++ lit "a" ++ [newline] ++ lit " b") false = None.
Proof. vm_compute. reflexivity. Qed.

(** The indentation strategy ignores each line's own leading blanks, so it
    also matches a block whose lines are shifted by different amounts. *)
Theorem indentation_shift_not_uniform debug :
  ∃ o, apply_change debug (lit "a" ++ [newline] ++ lit "    b" ++ [newline])
         (lit "    a" ++ [newline] ++ lit "b" ++ [newline]) (lit "c") false = Some (Ok o) ∧
    strategy o = lit "indentation" ∧ patched o = lit "c".
Proof. eexists. split; [vm_compute; reflexivity|done]. Qed.

(** ** Witnesses *)

Lemma apply_change_preserves_witness :
  ∃ segs, before segs = lit "x x" ∧ lit "y y" = after segs ∧ sub_count segs = 2.
Proof.
  destruct (apply_change_preserves id (lit "x x") (lit "x") (lit "y") true
    {| patched := lit "y y"; replacements := 2; strategy := lit "exact" |}) as (segs & H1 & H2 & H3 & _);
    [vm_compute; reflexivity|].
  exists segs. split; [exact H1|]. split; [exact H2|symmetry; exact H3].
Defined.

Lemma apply_change_returns_witness :
  is_Some (apply_change id (lit "abc") (lit "b") (lit "x") false).
Proof.
  apply (apply_change_returns id (lit "abc") (lit "b") (lit "x") false); [done|].
  intros l Hl. vm_compute in Hl. apply list_elem_of_singleton in Hl as ->.
  vm_compute. constructor.
Defined.

Lemma exact_match_wins_witness :
  ∃ segs, before segs = lit "x x" ∧ 1 ≤ sub_count segs ∧
    apply_change id (lit "x x") (lit "x") (lit "y") true =
      Some (Ok {| patched := after segs; replacements := sub_count segs; strategy := lit "exact" |}).
Proof.
  destruct (exact_match_wins id (lit "x x") (lit "x") (lit "y") true) as (segs & H1 & H2 & _ & H3);
    [discriminate|reflexivity|].
  exists segs. rewrite andb_false_r in H3. split; [exact H1|]. split; [exact H2|exact H3].
Defined.
