(* ===== verification/Truncation.v ===== *)
(** * Tool-output truncation ([codel00p-harness/src/truncation.rs])

    The head and tail preview of an over-long output, on UTF-8 byte offsets.  A
    slice off a character boundary would panic ([None]).  The temp file the full
    output is written to is I/O: its path, if any, is a parameter.  Byte counts
    are natural numbers: [max_bytes * 6] is only computed for texts longer than
    [max_bytes], which no memory holds when the product would overflow. *)

From stdpp Require Import base numbers strings gmap list.
From S2P Require Import Prelude RustStr.

Record ToolOutputTruncation := { max_bytes : nat }.

Record Preview := { preview_head : str; preview_tail : str; omitted : nat }.

(** [str::is_char_boundary]. *)
Definition is_char_boundary (text : str) (index : nat) : bool :=
  bool_decide (is_Some (byte_drop text index)).

(** The loop of [floor_boundary]. *)
Fixpoint floor_loop (text : str) (index : nat) : nat :=
  match index with
  | 0 => 0
  | S index' => if is_char_boundary text index then index else floor_loop text index'
  end.
Definition floor_boundary (text : str) (index : nat) : nat :=
  if byte_len text <=? index then byte_len text else floor_loop text index.

(** The loop of [ceil_boundary]: at most [byte_len text - index] iterations. *)
Fixpoint ceil_loop (fuel : nat) (text : str) (index : nat) : nat :=
  match fuel with
  | 0 => index
  | S fuel => if (index <? byte_len text) && negb (is_char_boundary text index)
              then ceil_loop fuel text (S index) else index
  end.
Definition ceil_boundary (text : str) (index : nat) : nat :=
  ceil_loop (byte_len text - index) text index.

(** [Preview::of]: [Some None] when the text fits. *)
Definition Preview_of (text : str) (max_bytes : nat) : option (option Preview) :=
  if byte_len text <=? max_bytes then Some None
  else
    let head_budget := max_bytes * 6 / 10 in
    let tail_budget := max_bytes - head_budget in
    let head_end := floor_boundary text head_budget in
    let tail_start := ceil_boundary text (byte_len text - tail_budget) in
    head ← byte_take text head_end;
    if tail_start <=? head_end then
      Some (Some {| preview_head := head; preview_tail := []; omitted := byte_len text - head_end |})
    else
      tail ← byte_drop text tail_start;
      Some (Some {| preview_head := head; preview_tail := tail; omitted := tail_start - head_end |}).

Definition ellipsis : char := 8230%N.

Section apply.
(** [persist]: the path of the temp file, when it could be written. *)
Context (persist : str → str → option str).

Definition apply (t : ToolOutputTruncation) (label text : str) : option str :=
  preview ← Preview_of text (max_bytes t);
  match preview with
  | None => Some text
  | Some p =>
      let location := match persist label text with
                      | Some path => lit "; full output at " ++ path
                      | None => []
                      end in
      Some (preview_head p ++ [newline; ellipsis] ++ lit "[codel00p truncated " ++
            show_N (N.of_nat (omitted p)) ++ lit " bytes of `" ++ label ++ lit "` output" ++ location ++
            lit "]" ++ [ellipsis; newline] ++ preview_tail p)
  end.
End apply.

(** ** Boundaries *)

Lemma byte_drop_Some s n t :
  byte_drop s n = Some t ↔ ∃ a, s = a ++ t ∧ n = byte_len a.
Proof.
  split; [|intros (a & -> & ->); apply byte_drop_app].
  revert n. induction s as [|c s IH]; intros [|n]; cbn [byte_drop].
  - intros [= <-]. by exists [].
  - done.
  - intros [= <-]. by exists [].
  - destruct (Nat.ltb_spec (S n) (len_utf8 c)) as [|Hc]; [done|].
    intros (a & -> & Ha)%IH. exists (c :: a). split; [done|]. simpl. lia.
Qed.

Lemma is_char_boundary_spec text n :
  is_char_boundary text n = true ↔ ∃ a b, text = a ++ b ∧ n = byte_len a.
Proof.
  unfold is_char_boundary. rewrite bool_decide_eq_true. unfold is_Some.
  setoid_rewrite byte_drop_Some. naive_solver.
Qed.

Lemma floor_loop_spec text n :
  floor_loop text n ≤ n ∧ is_char_boundary text (floor_loop text n) = true.
Proof.
  induction n as [|n IH]; cbn [floor_loop].
  - split; [lia|]. apply is_char_boundary_spec. by exists [], text.
  - destruct (is_char_boundary text (S n)) eqn:Hb; [by split|]. destruct IH. split; [lia|done].
Qed.

Lemma floor_boundary_spec text n :
  n < byte_len text → floor_boundary text n ≤ n ∧ is_char_boundary text (floor_boundary text n) = true.
Proof.
  intros Hn. unfold floor_boundary. destruct (Nat.leb_spec (byte_len text) n); [lia|].
  apply floor_loop_spec.
Qed.

Lemma is_char_boundary_len text : is_char_boundary text (byte_len text) = true.
Proof. apply is_char_boundary_spec. exists text, []. by rewrite app_nil_r. Qed.

Lemma ceil_boundary_spec text n :
  n ≤ byte_len text →
  n ≤ ceil_boundary text n ≤ byte_len text ∧ is_char_boundary text (ceil_boundary text n) = true.
Proof.
  intros Hn. unfold ceil_boundary. remember (byte_len text - n) as fuel eqn:Hfuel.
  revert n Hn Hfuel. induction fuel as [|fuel IH]; intros n Hn Hfuel; cbn [ceil_loop].
  - assert (n = byte_len text) as -> by lia. split; [lia|apply is_char_boundary_len].
  - destruct (Nat.ltb_spec n (byte_len text)); [|lia].
    destruct (is_char_boundary text n) eqn:Hb; simpl; [split; [lia|done]|].
    destruct (IH (S n)) as [? ?]; [lia..|]. split; [lia|done].
Qed.

(** The preview of an over-long output: no slice panics; the text is the
    head, a middle part of exactly the reported number of bytes, and the tail;
    head and tail together stay within the cap, the head within 60% of it.
    Text within the cap is returned as it is. *)
Theorem preview_spec text max :
  (byte_len text ≤ max → Preview_of text max = Some None) ∧
  (max < byte_len text → ∃ p middle, Preview_of text max = Some (Some p) ∧
     text = preview_head p ++ middle ++ preview_tail p ∧ omitted p = byte_len middle ∧
     byte_len (preview_head p) + byte_len (preview_tail p) ≤ max ∧
     byte_len (preview_head p) ≤ max * 6 / 10).
Proof.
  unfold Preview_of. split; intros Hmax; destruct (Nat.leb_spec (byte_len text) max); try lia; [done|].
  set (hb := max * 6 / 10).
  assert (Hhb : hb ≤ max) by (unfold hb; apply Nat.Div0.div_le_upper_bound; lia).
  destruct (floor_boundary_spec text hb) as [Hh (a & b & Hab & Ha)%is_char_boundary_spec]; [lia|].
  destruct (ceil_boundary_spec text (byte_len text - (max - hb)))
    as [[Ht1 Ht2] (a' & b' & Hab' & Ha')%is_char_boundary_spec]; [lia|].
  rewrite Ha, Ha' in *.
  assert (Htake : byte_take text (byte_len a) = Some a) by (rewrite Hab; apply byte_take_app).
  assert (Hdrop : byte_drop text (byte_len a') = Some b') by (rewrite Hab'; apply byte_drop_app).
  rewrite Htake. simpl.
  destruct (Nat.leb_spec (byte_len a') (byte_len a)) as [Hle|Hlt].
  - eexists _, b. split; [done|]. simpl. rewrite app_nil_r. split_and!; [done| |lia|lia].
    rewrite Hab, byte_len_app. lia.
  - rewrite Hdrop. simpl.
    assert (∃ middle, a' = a ++ middle) as [middle ->].
    { rewrite Hab in Hab'. apply app_eq_app in Hab' as (k & [[-> ->]|[-> ->]]); [|by exists k].
      rewrite byte_len_app in Hlt. lia. }
    eexists _, middle. split; [done|]. simpl. rewrite byte_len_app.
    split_and!; [by rewrite app_assoc|lia| |lia].
    rewrite Hab', !byte_len_app in Ht1. lia.
Qed.
