(* ===== verification/Json.v ===== *)
(** * JSON values (the [serde_json] surface the harness uses)

    [serde_json] is outside the sources.  Its [Value] enumeration is what the
    sources match on, constructor by constructor, so it is an inductive type
    here; its accessors are the documented ones.  The printer and the parser are
    members of the class [SerdeJson].  A [Map] is a list of pairs with distinct
    keys: where a new key goes depends on the [preserve_order] feature, so that
    is a member of the class too and every theorem holds for both settings. *)

From stdpp Require Import base numbers strings gmap list.
From S2P Require Import Prelude RustStr.

(** A number is an unsigned integer, a negative integer or a finite double,
    given by its bits. *)
Inductive Number := PosInt (n : N) | NegInt (magnitude : positive) | Float (bits : N).

#[warnings="-register-all"]
Inductive Value :=
| VNull
| VBool (b : bool)
| VNumber (n : Number)
| VString (s : str)
| VArray (items : list Value)
| VObject (map : list (str * Value)).

Abbreviation Map := (list (str * Value)).

(** Induction through arrays and objects. *)
Lemma Value_ind' (P : Value → Prop) :
  P VNull → (∀ b, P (VBool b)) → (∀ n, P (VNumber n)) → (∀ s, P (VString s)) →
  (∀ l, Forall P l → P (VArray l)) → (∀ m, Forall (λ kv, P kv.2) m → P (VObject m)) →
  ∀ v, P v.
Proof.
  intros Hn Hb Hi Hs Ha Ho. fix IH 1. intros [|b|n|s|l|m]; [exact Hn | apply Hb | apply Hi | apply Hs | |].
  - apply Ha. induction l as [|v l IHl]; constructor; [apply IH | apply IHl].
  - apply Ho. induction m as [|[k v] m IHm]; constructor; [apply IH | apply IHm].
Qed.

#[export] Instance Number_eq_dec : EqDecision Number.
Proof. solve_decision. Defined.

(** ** The library: printing, parsing and the order of new keys *)

Class SerdeJson := {
  preserve_order : bool;
  to_string : Value → str;
  from_str : str → option Value;
}.

(** ** Maps *)

Fixpoint map_get (k : str) (m : Map) : option Value :=
  match m with
  | [] => None
  | (k', v) :: m => if decide (k = k') then Some v else map_get k m
  end.

Fixpoint map_replace (k : str) (v : Value) (m : Map) : Map :=
  match m with
  | [] => []
  | (k', v') :: m => if decide (k = k') then (k', v) :: m else (k', v') :: map_replace k v m
  end.

(** A key the map does not have goes to its sorted place, or to the end. *)
Fixpoint map_add_sorted (k : str) (v : Value) (m : Map) : Map :=
  match m with
  | [] => [(k, v)]
  | (k', v') :: m' =>
      match str_cmp k k' with
      | Gt => (k', v') :: map_add_sorted k v m'
      | _ => (k, v) :: m
      end
  end.

Section map.
Context `{SerdeJson}.

Definition map_add (k : str) (v : Value) (m : Map) : Map :=
  if preserve_order then m ++ [(k, v)] else map_add_sorted k v m.

(** [Map::insert]. *)
Definition map_insert (k : str) (v : Value) (m : Map) : Map :=
  match map_get k m with
  | Some _ => map_replace k v m
  | None => map_add k v m
  end.

(** [Map::entry(k).or_insert(v)]. *)
Definition map_or_insert (k : str) (v : Value) (m : Map) : Map :=
  match map_get k m with
  | Some _ => m
  | None => map_add k v m
  end.

(** The [json!] macro on an object literal, and collecting pairs into a map. *)
Definition map_of (l : list (str * Value)) : Map :=
  foldl (λ m kv, map_insert kv.1 kv.2 m) [] l.
Definition json_object (l : list (str * Value)) : Value := VObject (map_of l).

End map.

(** ** Accessors of [Value] *)

Definition get (k : str) (v : Value) : option Value :=
  match v with VObject m => map_get k m | _ => None end.
Definition as_str (v : Value) : option str := match v with VString s => Some s | _ => None end.
Definition as_bool (v : Value) : option bool := match v with VBool b => Some b | _ => None end.
Definition as_array (v : Value) : option (list Value) :=
  match v with VArray l => Some l | _ => None end.
Definition as_object (v : Value) : option Map := match v with VObject m => Some m | _ => None end.
Definition as_u64 (v : Value) : option N :=
  match v with VNumber (PosInt n) => Some n | _ => None end.
Definition i64_max : N := 9223372036854775807%N.
Definition as_i64 (v : Value) : option Z :=
  match v with
  | VNumber (PosInt n) => if (n <=? i64_max)%N then Some (Z.of_N n) else None
  | VNumber (NegInt p) => Some (Z.neg p)
  | _ => None
  end.

Definition is_null (v : Value) : bool := match v with VNull => true | _ => false end.
Definition is_boolean (v : Value) : bool := match v with VBool _ => true | _ => false end.
Definition is_number (v : Value) : bool := match v with VNumber _ => true | _ => false end.
Definition is_string (v : Value) : bool := match v with VString _ => true | _ => false end.
Definition is_array (v : Value) : bool := match v with VArray _ => true | _ => false end.
Definition is_object (v : Value) : bool := match v with VObject _ => true | _ => false end.
Definition is_u64 (v : Value) : bool := bool_decide (is_Some (as_u64 v)).
Definition is_i64 (v : Value) : bool := bool_decide (is_Some (as_i64 v)).

(** [value.get(k).and_then(Value::as_str)] and the like. *)
Definition get_str (k : str) (v : Value) : option str := get k v ≫= as_str.

(** ** Well-formed values: distinct keys at every level *)

Fixpoint value_wf (v : Value) : bool :=
  match v with
  | VArray l => forallb value_wf l
  | VObject m => bool_decide (NoDup m.*1) && forallb (λ kv, value_wf kv.2) m
  | _ => true
  end.

(** What [serde_json] documents of its printer and parser. *)
Class SerdeJsonLaws `{SerdeJson} : Prop := {
  from_to_string : ∀ v, value_wf v = true → from_str (to_string v) = Some v;
  from_str_wf : ∀ s v, from_str s = Some v → value_wf v = true;
}.

(** ** Lemmas *)

Lemma forallb_Forall {A} (f : A → bool) (l : list A) :
  forallb f l = true ↔ Forall (λ x, f x = true) l.
Proof.
  induction l as [|x l IH]; cbn; [by split|].
  by rewrite andb_true_iff, IH, Forall_cons.
Qed.

Lemma value_wf_object m :
  value_wf (VObject m) = true ↔ NoDup m.*1 ∧ Forall (λ kv, value_wf kv.2 = true) m.
Proof. cbn. by rewrite andb_true_iff, bool_decide_eq_true, forallb_Forall. Qed.

Lemma map_get_elem k m : map_get k m = None ↔ k ∉ m.*1.
Proof.
  induction m as [|[k' v] m IH]; cbn; [set_solver|].
  case_decide as Hk; [subst; set_solver | rewrite IH; set_solver].
Qed.

Lemma map_get_Some k v m : map_get k m = Some v → (k, v) ∈ m.
Proof.
  induction m as [|[k' v'] m IH]; cbn; [done|].
  case_decide; intros; simplify_eq; [left | right; auto].
Qed.

Lemma map_get_NoDup k v m : NoDup m.*1 → (k, v) ∈ m → map_get k m = Some v.
Proof.
  induction m as [|[k' v'] m IH]; cbn; [set_solver|].
  rewrite NoDup_cons. intros [Hk Hm] Hin. case_decide as E; subst.
  - apply elem_of_cons in Hin as [?|Hin]; [by simplify_eq|].
    destruct Hk. apply list_elem_of_fmap. by exists (k', v).
  - apply IH; [done | set_solver].
Qed.

Lemma map_replace_keys k v m : (map_replace k v m).*1 = m.*1.
Proof. induction m as [|[k' v'] m IH]; cbn; [done|]. case_decide; cbn; congruence. Qed.

Lemma map_get_replace k v m k' :
  map_get k' (map_replace k v m) =
  if decide (k' = k) then (λ _, v) <$> map_get k m else map_get k' m.
Proof.
  induction m as [|[k0 v0] m IH]; cbn; [by case_decide|].
  destruct (decide (k = k0)) as [->|Hk]; cbn.
  - by destruct (decide (k' = k0)).
  - rewrite IH. destruct (decide (k' = k0)), (decide (k' = k)); congruence.
Qed.

Lemma map_add_sorted_perm k v m : map_add_sorted k v m ≡ₚ (k, v) :: m.
Proof.
  induction m as [|[k' v'] m IH]; cbn; [done|].
  destruct (str_cmp k k'); [done..|]. rewrite IH. constructor.
Qed.

Lemma map_get_add_sorted k v m k' :
  map_get k m = None →
  map_get k' (map_add_sorted k v m) = if decide (k' = k) then Some v else map_get k' m.
Proof.
  induction m as [|[k0 v0] m IH]; cbn; intros Hk.
  - by case_decide.
  - destruct (decide (k = k0)) as [|Hk0]; [done|].
    destruct (str_cmp k k0); cbn; [by case_decide..|].
    rewrite (IH Hk). destruct (decide (k' = k0)), (decide (k' = k)); congruence.
Qed.

Lemma map_get_app k m m' :
  map_get k (m ++ m') = match map_get k m with Some v => Some v | None => map_get k m' end.
Proof. induction m as [|[k0 v0] m IH]; cbn; [done|]. by case_decide. Qed.

Section map_lemmas.
Context `{SerdeJson}.

Lemma map_add_perm k v m : map_add k v m ≡ₚ (k, v) :: m.
Proof.
  unfold map_add. destruct preserve_order; [|apply map_add_sorted_perm].
  by rewrite Permutation_app_comm.
Qed.

Lemma map_get_add k v m k' :
  map_get k m = None →
  map_get k' (map_add k v m) = if decide (k' = k) then Some v else map_get k' m.
Proof.
  intros Hk. unfold map_add. destruct preserve_order; [|by apply map_get_add_sorted].
  rewrite map_get_app; cbn. destruct (decide (k' = k)) as [->|]; [by rewrite Hk|].
  by destruct (map_get k' m).
Qed.

Lemma map_get_insert k v m k' :
  map_get k' (map_insert k v m) = if decide (k' = k) then Some v else map_get k' m.
Proof.
  unfold map_insert. destruct (map_get k m) as [v0|] eqn:Hk; [|by apply map_get_add].
  rewrite map_get_replace, Hk. by case_decide.
Qed.

Lemma map_get_or_insert k v m k' :
  map_get k' (map_or_insert k v m) =
  if decide (k' = k) then Some (default v (map_get k m)) else map_get k' m.
Proof.
  unfold map_or_insert. destruct (map_get k m) as [v0|] eqn:Hk.
  - case_decide; subst; auto.
  - by rewrite map_get_add.
Qed.

Lemma map_add_wf k v m :
  map_get k m = None → value_wf v = true → value_wf (VObject m) = true →
  value_wf (VObject (map_add k v m)) = true.
Proof.
  rewrite !value_wf_object. intros Hk Hv [Hd Hm]. pose proof (map_add_perm k v m) as HP. split.
  - rewrite (fmap_Permutation fst _ _ HP). cbn. apply NoDup_cons. split; [|done].
    by apply map_get_elem.
  - rewrite HP. by constructor.
Qed.

Lemma map_or_insert_wf k v m :
  value_wf v = true → value_wf (VObject m) = true →
  value_wf (VObject (map_or_insert k v m)) = true.
Proof.
  intros Hv Hm. unfold map_or_insert. destruct (map_get k m) eqn:Hk; [done|].
  by apply map_add_wf.
Qed.

Lemma map_replace_wf k v m :
  value_wf v = true → value_wf (VObject m) = true →
  value_wf (VObject (map_replace k v m)) = true.
Proof.
  rewrite !value_wf_object, map_replace_keys. intros Hv [Hd Hm]. split; [done|]. clear Hd.
  induction Hm as [|[k' v'] m Hk Hm IH]; cbn in *; [done|]. case_decide; by constructor.
Qed.

Lemma map_insert_wf k v m :
  value_wf v = true → value_wf (VObject m) = true →
  value_wf (VObject (map_insert k v m)) = true.
Proof.
  intros Hv Hm. unfold map_insert. destruct (map_get k m) eqn:Hk.
  - by apply map_replace_wf.
  - by apply map_add_wf.
Qed.

Lemma map_of_wf l :
  Forall (λ kv, value_wf kv.2 = true) l → value_wf (VObject (map_of l)) = true.
Proof.
  unfold map_of. intros Hl.
  assert (∀ m, value_wf (VObject m) = true →
    value_wf (VObject (foldl (λ m kv, map_insert kv.1 kv.2 m) m l)) = true) as Hm.
  { induction Hl as [|[k v] l Hv Hl IH]; [done|]; intros m Hm; cbn [foldl].
    apply IH. by apply map_insert_wf. }
  by apply Hm.
Qed.

Lemma map_get_map_of l k :
  map_get k (map_of l) = map_get k (reverse l).
Proof.
  unfold map_of. induction l as [|[k' v] l IH] using rev_ind; [done|].
  rewrite foldl_app, reverse_app. cbn [foldl reverse]. rewrite map_get_insert, IH. done.
Qed.

End map_lemmas.

Lemma value_wf_get k v w : value_wf v = true → get k v = Some w → value_wf w = true.
Proof.
  destruct v as [| | | |l|m]; try done. rewrite value_wf_object, Forall_forall. cbn.
  intros [_ Hm] Hk. by apply map_get_Some, Hm in Hk.
Qed.

(** ** A lawful printer and parser

    Values are countable: the instance prints the number of a value and parses it
    back, so the laws can be met. *)

Abbreviation leaf := (unit + bool + (N + positive + N) + str)%type.

Definition number_leaf (n : Number) : N + positive + N :=
  match n with PosInt n => inl (inl n) | NegInt p => inl (inr p) | Float b => inr b end.
Definition leaf_number (l : N + positive + N) : Number :=
  match l with inl (inl n) => PosInt n | inl (inr p) => NegInt p | inr b => Float b end.

Fixpoint to_tree (v : Value) : gen_tree leaf :=
  match v with
  | VNull => GenLeaf (inl (inl (inl tt)))
  | VBool b => GenLeaf (inl (inl (inr b)))
  | VNumber n => GenLeaf (inl (inr (number_leaf n)))
  | VString s => GenLeaf (inr s)
  | VArray l => GenNode 0 (to_tree <$> l)
  | VObject m => GenNode 1 ((λ kv, GenNode 2 [GenLeaf (inr kv.1); to_tree kv.2]) <$> m)
  end.

Fixpoint of_tree (t : gen_tree leaf) : Value :=
  match t with
  | GenLeaf (inl (inl (inl _))) => VNull
  | GenLeaf (inl (inl (inr b))) => VBool b
  | GenLeaf (inl (inr n)) => VNumber (leaf_number n)
  | GenLeaf (inr s) => VString s
  | GenNode 0 l => VArray (of_tree <$> l)
  | GenNode _ l =>
      VObject ((λ t, match t with
                     | GenNode _ [GenLeaf (inr k); v] => (k, of_tree v)
                     | _ => ([], VNull)
                     end) <$> l)
  end.

Lemma of_to_tree v : of_tree (to_tree v) = v.
Proof.
  induction v as [|b|[]|s|l Hl|m Hm] using Value_ind'; try done; cbn [to_tree of_tree]; f_equal.
  - induction Hl as [|v l Hv Hl IH]; [done|]. cbn. by rewrite Hv, IH.
  - induction Hm as [|[k v] m Hv Hm IH]; [done|]. cbn in *. by rewrite Hv, IH.
Qed.

#[export] Instance Value_eq_dec : EqDecision Value.
Proof.
  refine (λ v w, cast_if (decide (to_tree v = to_tree w))); [|congruence].
  abstract (by rewrite <- (of_to_tree v), <- (of_to_tree w); f_equal).
Defined.
#[export] Instance Value_countable : Countable Value :=
  inj_countable' to_tree of_tree of_to_tree.

Definition counting_json : SerdeJson :=
  {| preserve_order := false;
     to_string := λ v, show_N (Npos (encode v));
     from_str := λ s,
       match N.of_uint <$> parse_uint s with
       | Some (Npos p) => v ← decode p; if value_wf v then Some v else None
       | _ => None
       end |}.

#[export] Instance counting_json_laws : @SerdeJsonLaws counting_json.
Proof.
  split.
  - intros v Hv. unfold from_str, to_string, counting_json, show_N. rewrite parse_show_uint.
    cbn [fmap option_fmap option_map]. rewrite DecimalN.Unsigned.of_to.
    rewrite decode_encode. cbn [mbind option_bind]. by rewrite Hv.
  - intros s v. cbn. destruct (parse_uint s); cbn; [|done].
    destruct (N.of_uint u) as [|p]; [done|]. destruct (decode p); cbn; [|done].
    case_match; congruence.
Qed.
