(* ===== verification/ProviderRequest.v ===== *)
(** * Provider-neutral requests and responses
    ([codel00p-providers/src/request.rs], [response.rs], [pricing_catalog.rs])

    The data every transport reads and produces, the builders, the wire forms of
    the tool-choice and response-format knobs, and the cost estimate in nano
    currency units, computed in [u128] and saturated to [u64]. *)

From stdpp Require Import base numbers strings gmap list.
From S2P Require Import Prelude RustStr Json.

(** ** Messages and tools *)

Inductive MessageRole := RoleSystem | RoleDeveloper | RoleUser | RoleAssistant | RoleTool.

(** The [ToolCall] of a provider response; its [provider_data] is a [BTreeMap]. *)
Record ProviderToolCall := {
  ptc_id : option str;
  ptc_name : str;
  ptc_arguments : Value;
  ptc_provider_data : gmap str Value;
}.

Record ChatMessage := {
  chat_role : MessageRole;
  chat_content : option str;
  chat_tool_call_id : option str;
  chat_tool_calls : list ProviderToolCall;
}.
Definition chat_system (content : str) : ChatMessage :=
  {| chat_role := RoleSystem; chat_content := Some content; chat_tool_call_id := None;
     chat_tool_calls := [] |}.
Definition chat_user (content : str) : ChatMessage :=
  {| chat_role := RoleUser; chat_content := Some content; chat_tool_call_id := None;
     chat_tool_calls := [] |}.
Definition chat_assistant (content : str) : ChatMessage :=
  {| chat_role := RoleAssistant; chat_content := Some content; chat_tool_call_id := None;
     chat_tool_calls := [] |}.
Definition chat_assistant_tool_calls (calls : list ProviderToolCall) : ChatMessage :=
  {| chat_role := RoleAssistant; chat_content := None; chat_tool_call_id := None;
     chat_tool_calls := calls |}.
Definition chat_tool_result (id content : str) : ChatMessage :=
  {| chat_role := RoleTool; chat_content := Some content; chat_tool_call_id := Some id;
     chat_tool_calls := [] |}.

Record ToolDefinition := {
  td_name : str;
  td_description : str;
  td_parameters : Value;
}.

Inductive ToolChoice := ChoiceAuto | ChoiceRequired | ChoiceNone | ChoiceTool (name : str).
Inductive ResponseFormat :=
  FormatText | FormatJsonObject | FormatJsonSchema (name : str) (schema : Value).

Section wire.
Context `{SerdeJson}.

Definition choice_openai_value (c : ToolChoice) : Value :=
  match c with
  | ChoiceAuto => VString (lit "auto")
  | ChoiceRequired => VString (lit "required")
  | ChoiceNone => VString (lit "none")
  | ChoiceTool name =>
      json_object [(lit "type", VString (lit "function"));
                   (lit "function", json_object [(lit "name", VString name)])]
  end.
Definition choice_anthropic_value (c : ToolChoice) : Value :=
  match c with
  | ChoiceAuto => json_object [(lit "type", VString (lit "auto"))]
  | ChoiceRequired => json_object [(lit "type", VString (lit "any"))]
  | ChoiceNone => json_object [(lit "type", VString (lit "none"))]
  | ChoiceTool name => json_object [(lit "type", VString (lit "tool")); (lit "name", VString name)]
  end.
Definition gemini_mode (mode : str) (more : list (str * Value)) : Value :=
  json_object [(lit "functionCallingConfig", json_object ((lit "mode", VString mode) :: more))].
Definition choice_gemini_config (c : ToolChoice) : Value :=
  match c with
  | ChoiceAuto => gemini_mode (lit "AUTO") []
  | ChoiceRequired => gemini_mode (lit "ANY") []
  | ChoiceNone => gemini_mode (lit "NONE") []
  | ChoiceTool name =>
      gemini_mode (lit "ANY") [(lit "allowedFunctionNames", VArray [VString name])]
  end.
Definition choice_bedrock_value (c : ToolChoice) : option Value :=
  match c with
  | ChoiceAuto => Some (json_object [(lit "auto", json_object [])])
  | ChoiceRequired => Some (json_object [(lit "any", json_object [])])
  | ChoiceTool name =>
      Some (json_object [(lit "tool", json_object [(lit "name", VString name)])])
  | ChoiceNone => None
  end.

Definition format_openai_value (f : ResponseFormat) : option Value :=
  match f with
  | FormatText => None
  | FormatJsonObject => Some (json_object [(lit "type", VString (lit "json_object"))])
  | FormatJsonSchema name schema =>
      Some (json_object [(lit "type", VString (lit "json_schema"));
                         (lit "json_schema",
                          json_object [(lit "name", VString name); (lit "strict", VBool true);
                                       (lit "schema", schema)])])
  end.
End wire.

Definition format_gemini_mime_type (f : ResponseFormat) : option str :=
  match f with FormatText => None | _ => Some (lit "application/json") end.
Definition format_gemini_schema (f : ResponseFormat) : option Value :=
  match f with FormatJsonSchema _ schema => Some schema | _ => None end.

(** ** Usage, prices and costs *)

Record Usage := {
  input_tokens : N;
  output_tokens : N;
  cache_read_tokens : N;
  cache_write_tokens : N;
  reasoning_tokens : N;
}.

Record UsagePricing := {
  price_currency : str;
  input_nanos_per_million_tokens : N;
  output_nanos_per_million_tokens : N;
  cache_read_nanos_per_million_tokens : N;
  cache_write_nanos_per_million_tokens : N;
  reasoning_nanos_per_million_tokens : N;
}.
Definition nanos_per_million_tokens (currency : str) (input output : N) : UsagePricing :=
  {| price_currency := currency; input_nanos_per_million_tokens := input;
     output_nanos_per_million_tokens := output; cache_read_nanos_per_million_tokens := 0;
     cache_write_nanos_per_million_tokens := 0; reasoning_nanos_per_million_tokens := 0 |}.
Definition usd_nanos_per_million_tokens (input output : N) : UsagePricing :=
  nanos_per_million_tokens (lit "USD") input output.

Record UsageCostEstimate := {
  est_currency : str;
  est_pricing_source : option str;
  est_input_nanos : N;
  est_output_nanos : N;
  est_cache_read_nanos : N;
  est_cache_write_nanos : N;
  est_reasoning_nanos : N;
  est_total_nanos : N;
}.

(** The product of two [u64] fits a [u128]. *)
Definition u128_modulus : N := (u64_modulus * u64_modulus)%N.
Definition u128_mul (a b : N) : N := ((a * b) mod u128_modulus)%N.
Definition div_ceil (a b : N) : N := ((a + b - 1) / b)%N.

Definition estimate_component_nanos (tokens price : N) : N :=
  let product := u128_mul tokens price in
  if (product =? 0)%N then 0%N else N.min (div_ceil product 1000000) u64_max.

Definition estimate_cost (u : Usage) (p : UsagePricing) : UsageCostEstimate :=
  let input := estimate_component_nanos (input_tokens u) (input_nanos_per_million_tokens p) in
  let output := estimate_component_nanos (output_tokens u) (output_nanos_per_million_tokens p) in
  let cache_read :=
    estimate_component_nanos (cache_read_tokens u) (cache_read_nanos_per_million_tokens p) in
  let cache_write :=
    estimate_component_nanos (cache_write_tokens u) (cache_write_nanos_per_million_tokens p) in
  let reasoning :=
    estimate_component_nanos (reasoning_tokens u) (reasoning_nanos_per_million_tokens p) in
  {| est_currency := price_currency p; est_pricing_source := None; est_input_nanos := input;
     est_output_nanos := output; est_cache_read_nanos := cache_read;
     est_cache_write_nanos := cache_write; est_reasoning_nanos := reasoning;
     est_total_nanos :=
       u64_saturating_add (u64_saturating_add (u64_saturating_add
         (u64_saturating_add input output) cache_read) cache_write) reasoning |}.

Definition with_pricing_source (source : str) (c : UsageCostEstimate) : UsageCostEstimate :=
  {| est_currency := est_currency c; est_pricing_source := Some source;
     est_input_nanos := est_input_nanos c; est_output_nanos := est_output_nanos c;
     est_cache_read_nanos := est_cache_read_nanos c;
     est_cache_write_nanos := est_cache_write_nanos c;
     est_reasoning_nanos := est_reasoning_nanos c; est_total_nanos := est_total_nanos c |}.

(** ** Requests *)

Record InferenceFallbackRoute := {
  fb_provider : str;
  fb_model : str;
  fb_base_url : option str;
}.
Definition InferenceFallbackRoute_new (provider model : str) : InferenceFallbackRoute :=
  {| fb_provider := provider; fb_model := model; fb_base_url := None |}.
Definition fallback_base_url (value : str) (f : InferenceFallbackRoute) : InferenceFallbackRoute :=
  {| fb_provider := fb_provider f; fb_model := fb_model f; fb_base_url := Some value |}.

(** The temperature is an [f32], given by its bits. *)
Record InferenceRequest := {
  ir_provider : str;
  ir_model : str;
  ir_messages : list ChatMessage;
  ir_tools : list ToolDefinition;
  ir_tool_choice : option ToolChoice;
  ir_response_format : option ResponseFormat;
  ir_temperature : option N;
  ir_max_output_tokens : option N;
  ir_base_url : option str;
  ir_deployment : option str;
  ir_api_version : option str;
  ir_fallback_routes : list InferenceFallbackRoute;
  ir_pricing : option UsagePricing;
}.
Definition InferenceRequest_builder (provider model : str) : InferenceRequest :=
  {| ir_provider := provider; ir_model := model; ir_messages := []; ir_tools := [];
     ir_tool_choice := None; ir_response_format := None; ir_temperature := None;
     ir_max_output_tokens := None; ir_base_url := None; ir_deployment := None;
     ir_api_version := None; ir_fallback_routes := []; ir_pricing := None |}.

(** The request of one fallback route: provider, model and base URL are those of
    the route, and it has no fallback of its own. *)
Definition fallback_request (f : InferenceFallbackRoute) (r : InferenceRequest)
    : InferenceRequest :=
  {| ir_provider := fb_provider f; ir_model := fb_model f; ir_messages := ir_messages r;
     ir_tools := ir_tools r; ir_tool_choice := ir_tool_choice r;
     ir_response_format := ir_response_format r; ir_temperature := ir_temperature r;
     ir_max_output_tokens := ir_max_output_tokens r; ir_base_url := fb_base_url f;
     ir_deployment := ir_deployment r; ir_api_version := ir_api_version r;
     ir_fallback_routes := []; ir_pricing := ir_pricing r |}.

(** The builder's setters. *)
Definition rb_message (m : ChatMessage) (r : InferenceRequest) : InferenceRequest :=
  {| ir_provider := ir_provider r; ir_model := ir_model r; ir_messages := ir_messages r ++ [m];
     ir_tools := ir_tools r; ir_tool_choice := ir_tool_choice r;
     ir_response_format := ir_response_format r; ir_temperature := ir_temperature r;
     ir_max_output_tokens := ir_max_output_tokens r; ir_base_url := ir_base_url r;
     ir_deployment := ir_deployment r; ir_api_version := ir_api_version r;
     ir_fallback_routes := ir_fallback_routes r; ir_pricing := ir_pricing r |}.
Definition rb_tool (t : ToolDefinition) (r : InferenceRequest) : InferenceRequest :=
  {| ir_provider := ir_provider r; ir_model := ir_model r; ir_messages := ir_messages r;
     ir_tools := ir_tools r ++ [t]; ir_tool_choice := ir_tool_choice r;
     ir_response_format := ir_response_format r; ir_temperature := ir_temperature r;
     ir_max_output_tokens := ir_max_output_tokens r; ir_base_url := ir_base_url r;
     ir_deployment := ir_deployment r; ir_api_version := ir_api_version r;
     ir_fallback_routes := ir_fallback_routes r; ir_pricing := ir_pricing r |}.
Definition rb_tool_choice (c : ToolChoice) (r : InferenceRequest) : InferenceRequest :=
  {| ir_provider := ir_provider r; ir_model := ir_model r; ir_messages := ir_messages r;
     ir_tools := ir_tools r; ir_tool_choice := Some c;
     ir_response_format := ir_response_format r; ir_temperature := ir_temperature r;
     ir_max_output_tokens := ir_max_output_tokens r; ir_base_url := ir_base_url r;
     ir_deployment := ir_deployment r; ir_api_version := ir_api_version r;
     ir_fallback_routes := ir_fallback_routes r; ir_pricing := ir_pricing r |}.
Definition rb_response_format (f : ResponseFormat) (r : InferenceRequest) : InferenceRequest :=
  {| ir_provider := ir_provider r; ir_model := ir_model r; ir_messages := ir_messages r;
     ir_tools := ir_tools r; ir_tool_choice := ir_tool_choice r;
     ir_response_format := Some f; ir_temperature := ir_temperature r;
     ir_max_output_tokens := ir_max_output_tokens r; ir_base_url := ir_base_url r;
     ir_deployment := ir_deployment r; ir_api_version := ir_api_version r;
     ir_fallback_routes := ir_fallback_routes r; ir_pricing := ir_pricing r |}.
Definition rb_base_url (u : str) (r : InferenceRequest) : InferenceRequest :=
  {| ir_provider := ir_provider r; ir_model := ir_model r; ir_messages := ir_messages r;
     ir_tools := ir_tools r; ir_tool_choice := ir_tool_choice r;
     ir_response_format := ir_response_format r; ir_temperature := ir_temperature r;
     ir_max_output_tokens := ir_max_output_tokens r; ir_base_url := Some u;
     ir_deployment := ir_deployment r; ir_api_version := ir_api_version r;
     ir_fallback_routes := ir_fallback_routes r; ir_pricing := ir_pricing r |}.
Definition rb_max_output_tokens (n : N) (r : InferenceRequest) : InferenceRequest :=
  {| ir_provider := ir_provider r; ir_model := ir_model r; ir_messages := ir_messages r;
     ir_tools := ir_tools r; ir_tool_choice := ir_tool_choice r;
     ir_response_format := ir_response_format r; ir_temperature := ir_temperature r;
     ir_max_output_tokens := Some n; ir_base_url := ir_base_url r;
     ir_deployment := ir_deployment r; ir_api_version := ir_api_version r;
     ir_fallback_routes := ir_fallback_routes r; ir_pricing := ir_pricing r |}.
Definition rb_temperature (t : N) (r : InferenceRequest) : InferenceRequest :=
  {| ir_provider := ir_provider r; ir_model := ir_model r; ir_messages := ir_messages r;
     ir_tools := ir_tools r; ir_tool_choice := ir_tool_choice r;
     ir_response_format := ir_response_format r; ir_temperature := Some t;
     ir_max_output_tokens := ir_max_output_tokens r; ir_base_url := ir_base_url r;
     ir_deployment := ir_deployment r; ir_api_version := ir_api_version r;
     ir_fallback_routes := ir_fallback_routes r; ir_pricing := ir_pricing r |}.
Definition rb_deployment (d : str) (r : InferenceRequest) : InferenceRequest :=
  {| ir_provider := ir_provider r; ir_model := ir_model r; ir_messages := ir_messages r;
     ir_tools := ir_tools r; ir_tool_choice := ir_tool_choice r;
     ir_response_format := ir_response_format r; ir_temperature := ir_temperature r;
     ir_max_output_tokens := ir_max_output_tokens r; ir_base_url := ir_base_url r;
     ir_deployment := Some d; ir_api_version := ir_api_version r;
     ir_fallback_routes := ir_fallback_routes r; ir_pricing := ir_pricing r |}.
Definition rb_api_version (v : str) (r : InferenceRequest) : InferenceRequest :=
  {| ir_provider := ir_provider r; ir_model := ir_model r; ir_messages := ir_messages r;
     ir_tools := ir_tools r; ir_tool_choice := ir_tool_choice r;
     ir_response_format := ir_response_format r; ir_temperature := ir_temperature r;
     ir_max_output_tokens := ir_max_output_tokens r; ir_base_url := ir_base_url r;
     ir_deployment := ir_deployment r; ir_api_version := Some v;
     ir_fallback_routes := ir_fallback_routes r; ir_pricing := ir_pricing r |}.
Definition rb_fallback (f : InferenceFallbackRoute) (r : InferenceRequest) : InferenceRequest :=
  {| ir_provider := ir_provider r; ir_model := ir_model r; ir_messages := ir_messages r;
     ir_tools := ir_tools r; ir_tool_choice := ir_tool_choice r;
     ir_response_format := ir_response_format r; ir_temperature := ir_temperature r;
     ir_max_output_tokens := ir_max_output_tokens r; ir_base_url := ir_base_url r;
     ir_deployment := ir_deployment r; ir_api_version := ir_api_version r;
     ir_fallback_routes := ir_fallback_routes r ++ [f]; ir_pricing := ir_pricing r |}.
Definition rb_fallback_route (provider model : str) : InferenceRequest → InferenceRequest :=
  rb_fallback (InferenceFallbackRoute_new provider model).
Definition rb_fallback_route_with_base_url (provider model base_url : str)
    : InferenceRequest → InferenceRequest :=
  rb_fallback (fallback_base_url base_url (InferenceFallbackRoute_new provider model)).
Definition rb_pricing (p : UsagePricing) (r : InferenceRequest) : InferenceRequest :=
  {| ir_provider := ir_provider r; ir_model := ir_model r; ir_messages := ir_messages r;
     ir_tools := ir_tools r; ir_tool_choice := ir_tool_choice r;
     ir_response_format := ir_response_format r; ir_temperature := ir_temperature r;
     ir_max_output_tokens := ir_max_output_tokens r; ir_base_url := ir_base_url r;
     ir_deployment := ir_deployment r; ir_api_version := ir_api_version r;
     ir_fallback_routes := ir_fallback_routes r; ir_pricing := Some p |}.

(** ** Responses *)

Record InferenceResponse := {
  rs_content : option str;
  rs_tool_calls : list ProviderToolCall;
  rs_finish_reason : option str;
  rs_reasoning : option str;
  rs_usage : option Usage;
  rs_cost : option UsageCostEstimate;
  rs_provider_data : gmap str Value;
}.
Definition InferenceResponse_assistant (content : str) : InferenceResponse :=
  {| rs_content := Some content; rs_tool_calls := []; rs_finish_reason := None;
     rs_reasoning := None; rs_usage := None; rs_cost := None; rs_provider_data := ∅ |}.
Definition with_finish_reason (value : str) (r : InferenceResponse) : InferenceResponse :=
  {| rs_content := rs_content r; rs_tool_calls := rs_tool_calls r;
     rs_finish_reason := Some value; rs_reasoning := rs_reasoning r; rs_usage := rs_usage r;
     rs_cost := rs_cost r; rs_provider_data := rs_provider_data r |}.
Definition with_provider_data (k : str) (v : Value) (r : InferenceResponse) : InferenceResponse :=
  {| rs_content := rs_content r; rs_tool_calls := rs_tool_calls r;
     rs_finish_reason := rs_finish_reason r; rs_reasoning := rs_reasoning r;
     rs_usage := rs_usage r; rs_cost := rs_cost r;
     rs_provider_data := <[k := v]> (rs_provider_data r) |}.
Definition with_cost (c : UsageCostEstimate) (r : InferenceResponse) : InferenceResponse :=
  {| rs_content := rs_content r; rs_tool_calls := rs_tool_calls r;
     rs_finish_reason := rs_finish_reason r; rs_reasoning := rs_reasoning r;
     rs_usage := rs_usage r; rs_cost := Some c; rs_provider_data := rs_provider_data r |}.

(** ** Pricing catalogs *)

Record ProviderModelPricing := {
  pmp_provider : str;
  pmp_model : str;
  pmp_pricing : UsagePricing;
}.
Record ProviderPricingCatalog := {
  pc_source : option str;
  pc_entries : list ProviderModelPricing;
}.
Definition ProviderPricingCatalog_new (entries : list ProviderModelPricing)
    : ProviderPricingCatalog := {| pc_source := None; pc_entries := entries |}.
Definition pc_with_source (source : str) (c : ProviderPricingCatalog) : ProviderPricingCatalog :=
  {| pc_source := Some source; pc_entries := pc_entries c |}.

(** ** The estimate is exact until it saturates *)

Lemma div_ceil_bounds a b :
  (0 < b → 0 < a → b * (div_ceil a b - 1) < a ∧ a <= b * div_ceil a b)%N.
Proof.
  intros Hb Ha. unfold div_ceil.
  pose proof (N.div_mod (a + b - 1) b ltac:(lia)) as E.
  pose proof (N.mod_lt (a + b - 1) b ltac:(lia)) as Hm.
  rewrite N.mul_sub_distr_l, N.mul_1_r.
  revert E Hm. generalize ((a + b - 1) / b)%N, ((a + b - 1) mod b)%N. intros q r E Hm.
  generalize dependent (b * q)%N. lia.
Qed.

Lemma u128_mul_exact a b :
  (a < u64_modulus → b < u64_modulus → u128_mul a b = a * b)%N.
Proof. intros Ha Hb. unfold u128_mul, u128_modulus. apply N.mod_small. nia. Qed.

(** The least number of nano units that covers the tokens, cut at [u64::MAX]. *)
Definition covers (nanos tokens price : N) : Prop := (tokens * price <= 1000000 * nanos)%N.

Lemma estimate_component_least tokens price :
  (tokens < u64_modulus)%N → (price < u64_modulus)%N →
  let n := estimate_component_nanos tokens price in
  (n <= u64_max)%N ∧
  (∀ m, covers m tokens price → (n <= m)%N) ∧ (n < u64_max → covers n tokens price)%N.
Proof.
  intros Ht Hp n. unfold n, estimate_component_nanos, covers. rewrite u128_mul_exact by done.
  destruct (N.eqb_spec (tokens * price) 0) as [E|E].
  - rewrite E. unfold u64_max, u64_modulus. split_and!; intros; lia.
  - pose proof (div_ceil_bounds (tokens * price) 1000000 ltac:(lia) ltac:(lia)) as [H1 H2].
    set (q := div_ceil _ _) in *. set (t := (tokens * price)%N) in *. split_and!; [lia| |lia].
    intros m Hm. lia.
Qed.

(** A cost estimate never undercharges and never overflows: for counts and
    prices in the [u64] range each component is the least number of nano units
    that covers its tokens at its price (cut at the largest [u64]), and the total
    is the sum of the components, cut in the same way. *)
Theorem estimate_cost_exact (u : Usage) (p : UsagePricing)
    (Hu : Forall (λ n, n < u64_modulus)%N
            [input_tokens u; output_tokens u; cache_read_tokens u; cache_write_tokens u;
             reasoning_tokens u])
    (Hp : Forall (λ n, n < u64_modulus)%N
            [input_nanos_per_million_tokens p; output_nanos_per_million_tokens p;
             cache_read_nanos_per_million_tokens p; cache_write_nanos_per_million_tokens p;
             reasoning_nanos_per_million_tokens p]) :
  let c := estimate_cost u p in
  Forall (λ '(n, tokens, price),
      n <= u64_max ∧ (∀ m, covers m tokens price → n <= m) ∧
      (n < u64_max → covers n tokens price))%N
    [(est_input_nanos c, input_tokens u, input_nanos_per_million_tokens p);
     (est_output_nanos c, output_tokens u, output_nanos_per_million_tokens p);
     (est_cache_read_nanos c, cache_read_tokens u, cache_read_nanos_per_million_tokens p);
     (est_cache_write_nanos c, cache_write_tokens u, cache_write_nanos_per_million_tokens p);
     (est_reasoning_nanos c, reasoning_tokens u, reasoning_nanos_per_million_tokens p)] ∧
  est_total_nanos c =
    N.min (est_input_nanos c + est_output_nanos c + est_cache_read_nanos c +
           est_cache_write_nanos c + est_reasoning_nanos c) u64_max.
Proof.
  rewrite !Forall_cons in Hu, Hp. split.
  - destruct_and?. repeat (apply Forall_cons; split); [..| by apply Forall_nil];
      by apply estimate_component_least.
  - cbn [estimate_cost est_total_nanos est_input_nanos est_output_nanos est_cache_read_nanos
         est_cache_write_nanos est_reasoning_nanos].
    unfold u64_saturating_add. fold u64_max. lia.
Qed.

Lemma estimate_cost_exact_witness :
  est_total_nanos
    (estimate_cost {| input_tokens := 3; output_tokens := 0; cache_read_tokens := 0;
                      cache_write_tokens := 0; reasoning_tokens := 0 |}
       (usd_nanos_per_million_tokens 500000 0)) = 2%N.
Proof.
  refine (eq_trans (proj2 (estimate_cost_exact _ _ _ _)) _); [| | by vm_compute];
    repeat constructor.
Defined.
