(* ===== verification/ProviderPolicy.v ===== *)
(** * Provider profiles, registry, credentials and policy
    ([codel00p-providers/src/profile.rs], [registry.rs], [credentials.rs],
    [policy.rs], [runtime.rs], [error.rs])

    The registry resolves identifiers and aliases to profiles; a policy restricts
    which providers, models, authentication types and credentials a route may use.
    A [BTreeMap] is a finite map whose iteration is by increasing key, a
    [BTreeSet] a finite set iterated in the derived order. *)

From stdpp Require Import base numbers strings gmap list countable.
From S2P Require Import Prelude RustStr Json ProviderRequest.

(** ** Profiles *)

Inductive ApiMode :=
  ModeChatCompletions | ModeAzureChatCompletions | ModeAnthropicMessages | ModeResponses
| ModeBedrockConverse | ModeGemini | ModeExternalProcess.
Inductive AuthType :=
  AuthApiKey | AuthOAuthExternal | AuthAwsSdk | AuthGitHubCopilot | AuthCloudProxy | AuthCustom.
Inductive OutputTokenParameter := MaxTokens | MaxCompletionTokens.

Record ProviderCapabilities := {
  cap_tools : bool;
  cap_streaming : bool;
  cap_vision : bool;
  cap_reasoning : bool;
}.
Definition caps_default : ProviderCapabilities :=
  {| cap_tools := false; cap_streaming := false; cap_vision := false; cap_reasoning := false |}.
Definition agentic : ProviderCapabilities :=
  {| cap_tools := true; cap_streaming := true; cap_vision := false; cap_reasoning := true |}.
Definition caps_is_empty (c : ProviderCapabilities) : bool :=
  negb (cap_tools c) && negb (cap_streaming c) && negb (cap_vision c) && negb (cap_reasoning c).

Record ProviderProfile := {
  pf_id : str;
  pf_aliases : list str;
  pf_display_name : str;
  pf_description : str;
  pf_api_mode : ApiMode;
  pf_auth_type : AuthType;
  pf_env_vars : list str;
  pf_default_base_url : option str;
  pf_models_url : option str;
  pf_default_aux_model : option str;
  pf_output_token_parameter : OutputTokenParameter;
  pf_capabilities : ProviderCapabilities;
}.

(** ** Credentials *)

Inductive Credential :=
| CredApiKey (value : str)
| CredAwsSigV4 (access_key_id secret_access_key : str) (session_token : option str) (region : str)
| CredNone.
Inductive CredentialKind := KindApiKey | KindAwsSigV4 | KindNone.
Inductive CredentialSourceKind :=
  SrcConfigured | SrcEnvironment | SrcOrganization | SrcCloudProxy | SrcManagedIdentity.
Record ResolvedProviderCredential := {
  rc_credential : Credential;
  rc_source : str;
  rc_source_kind : CredentialSourceKind;
}.
Definition credential_kind (c : Credential) : CredentialKind :=
  match c with
  | CredApiKey _ => KindApiKey
  | CredAwsSigV4 _ _ _ _ => KindAwsSigV4
  | CredNone => KindNone
  end.

(** ** Errors *)

Inductive ProviderError :=
| UnknownProvider (provider : str)
| MissingBaseUrl (provider : str)
| MissingCredential (provider : str)
| PolicyDenied (provider reason : str)
| InvalidResponse (provider message : str)
| Http (provider message : str).

(** ** Decidability, enumeration order and names of the enumerations *)

Definition auth_rank (a : AuthType) : nat :=
  match a with
  | AuthApiKey => 0 | AuthOAuthExternal => 1 | AuthAwsSdk => 2 | AuthGitHubCopilot => 3
  | AuthCloudProxy => 4 | AuthCustom => 5
  end.
Definition kind_rank (k : CredentialKind) : nat :=
  match k with KindApiKey => 0 | KindAwsSigV4 => 1 | KindNone => 2 end.
Definition source_rank (k : CredentialSourceKind) : nat :=
  match k with
  | SrcConfigured => 0 | SrcEnvironment => 1 | SrcOrganization => 2 | SrcCloudProxy => 3
  | SrcManagedIdentity => 4
  end.

#[export] Instance ApiMode_eq_dec : EqDecision ApiMode.
Proof. solve_decision. Defined.
#[export] Instance AuthType_eq_dec : EqDecision AuthType.
Proof. solve_decision. Defined.
#[export] Instance CredentialKind_eq_dec : EqDecision CredentialKind.
Proof. solve_decision. Defined.
#[export] Instance CredentialSourceKind_eq_dec : EqDecision CredentialSourceKind.
Proof. solve_decision. Defined.
#[export] Instance Credential_eq_dec : EqDecision Credential.
Proof. solve_decision. Defined.
#[export] Instance ProviderError_eq_dec : EqDecision ProviderError.
Proof. solve_decision. Defined.

#[export] Instance AuthType_countable : Countable AuthType.
Proof.
  refine (inj_countable' auth_rank
    (λ n, default AuthApiKey ([AuthApiKey; AuthOAuthExternal; AuthAwsSdk; AuthGitHubCopilot;
                               AuthCloudProxy; AuthCustom] !! n)) _).
  by intros [].
Defined.
#[export] Instance CredentialKind_countable : Countable CredentialKind.
Proof.
  refine (inj_countable' kind_rank
    (λ n, default KindApiKey ([KindApiKey; KindAwsSigV4; KindNone] !! n)) _).
  by intros [].
Defined.
#[export] Instance CredentialSourceKind_countable : Countable CredentialSourceKind.
Proof.
  refine (inj_countable' source_rank
    (λ n, default SrcConfigured ([SrcConfigured; SrcEnvironment; SrcOrganization; SrcCloudProxy;
                                  SrcManagedIdentity] !! n)) _).
  by intros [].
Defined.

(** The [{:?}] forms, which are also the serialized names. *)
Definition api_mode_debug (m : ApiMode) : str :=
  match m with
  | ModeChatCompletions => lit "ChatCompletions"
  | ModeAzureChatCompletions => lit "AzureChatCompletions"
  | ModeAnthropicMessages => lit "AnthropicMessages"
  | ModeResponses => lit "Responses"
  | ModeBedrockConverse => lit "BedrockConverse"
  | ModeGemini => lit "Gemini"
  | ModeExternalProcess => lit "ExternalProcess"
  end.
Definition auth_debug (a : AuthType) : str :=
  match a with
  | AuthApiKey => lit "ApiKey" | AuthOAuthExternal => lit "OAuthExternal"
  | AuthAwsSdk => lit "AwsSdk" | AuthGitHubCopilot => lit "GitHubCopilot"
  | AuthCloudProxy => lit "CloudProxy" | AuthCustom => lit "Custom"
  end.
Definition kind_debug (k : CredentialKind) : str :=
  match k with
  | KindApiKey => lit "ApiKey" | KindAwsSigV4 => lit "AwsSigV4" | KindNone => lit "None"
  end.
Definition source_debug (k : CredentialSourceKind) : str :=
  match k with
  | SrcConfigured => lit "Configured" | SrcEnvironment => lit "Environment"
  | SrcOrganization => lit "Organization" | SrcCloudProxy => lit "CloudProxy"
  | SrcManagedIdentity => lit "ManagedIdentity"
  end.
Definition output_parameter_debug (p : OutputTokenParameter) : str :=
  match p with MaxTokens => lit "MaxTokens" | MaxCompletionTokens => lit "MaxCompletionTokens" end.

(** ** Iteration of ordered maps and sets *)

Definition btree_entries {A} (m : gmap str A) : list (str * A) :=
  sort_by (cmp_on fst str_cmp) (map_to_list m).
Definition btree_keys (s : gset str) : list str := sort_by str_cmp (elements s).
Definition btree_set {A} `{Countable A} (rank : A → nat) (s : gset A) : list A :=
  sort_by (cmp_on rank Nat.compare) (elements s).

(** Collecting pairs into a [BTreeMap]: a later pair replaces an earlier one. *)
Definition btree_collect {A} (l : list (str * A)) : gmap str A :=
  foldl (λ m kv, <[kv.1 := kv.2]> m) ∅ l.

(** ** Registry *)

Record ProviderRegistry := {
  reg_providers : gmap str ProviderProfile;
  reg_aliases : gmap str str;
}.
Definition ProviderRegistry_new : ProviderRegistry := {| reg_providers := ∅; reg_aliases := ∅ |}.

Definition register (profile : ProviderProfile) (r : ProviderRegistry) : ProviderRegistry :=
  {| reg_providers := <[pf_id profile := profile]> (reg_providers r);
     reg_aliases := foldl (λ m alias, <[alias := pf_id profile]> m) (reg_aliases r)
                      (pf_aliases profile) |}.

Definition registry_resolve (id_or_alias : str) (r : ProviderRegistry) : option ProviderProfile :=
  let key := to_ascii_lowercase (trim id_or_alias) in
  let canonical := default key (reg_aliases r !! key) in
  reg_providers r !! canonical.

Definition profiles (r : ProviderRegistry) : list ProviderProfile :=
  (btree_entries (reg_providers r)).*2.

Definition all_capabilities : ProviderCapabilities :=
  {| cap_tools := true; cap_streaming := true; cap_vision := true; cap_reasoning := true |}.

(** The nine built-in profiles, in order of registration. *)
Definition openai_profile : ProviderProfile :=
  {| pf_id := lit "openai"; pf_aliases := [lit "openai-api"; lit "gpt"];
     pf_display_name := lit "OpenAI"; pf_description := lit "OpenAI API";
     pf_api_mode := ModeResponses; pf_auth_type := AuthApiKey;
     pf_env_vars := [lit "CODEL00P_PROVIDER_OPENAI_API_KEY"; lit "OPENAI_API_KEY"];
     pf_default_base_url := Some (lit "https://api.openai.com/v1");
     pf_models_url := Some (lit "https://api.openai.com/v1/models");
     pf_default_aux_model := None; pf_output_token_parameter := MaxCompletionTokens;
     pf_capabilities := agentic |}.
Definition anthropic_profile : ProviderProfile :=
  {| pf_id := lit "anthropic"; pf_aliases := [lit "claude"; lit "claude-code"];
     pf_display_name := lit "Anthropic"; pf_description := lit "Anthropic Messages API";
     pf_api_mode := ModeAnthropicMessages; pf_auth_type := AuthApiKey;
     pf_env_vars := [lit "CODEL00P_PROVIDER_ANTHROPIC_API_KEY"; lit "ANTHROPIC_API_KEY";
                     lit "ANTHROPIC_TOKEN"; lit "CLAUDE_CODE_OAUTH_TOKEN"];
     pf_default_base_url := Some (lit "https://api.anthropic.com");
     pf_models_url := Some (lit "https://api.anthropic.com/v1/models");
     pf_default_aux_model := None; pf_output_token_parameter := MaxTokens;
     pf_capabilities := all_capabilities |}.
Definition azure_profile : ProviderProfile :=
  {| pf_id := lit "azure-foundry";
     pf_aliases := [lit "azure"; lit "azure-ai"; lit "azure-ai-foundry"];
     pf_display_name := lit "Azure AI Foundry";
     pf_description := lit "Microsoft Azure AI Foundry deployment chat completions endpoint";
     pf_api_mode := ModeAzureChatCompletions; pf_auth_type := AuthApiKey;
     pf_env_vars := [lit "CODEL00P_PROVIDER_AZURE_FOUNDRY_API_KEY"; lit "AZURE_FOUNDRY_API_KEY"];
     pf_default_base_url := None; pf_models_url := None;
     pf_default_aux_model := None; pf_output_token_parameter := MaxTokens;
     pf_capabilities := agentic |}.
Definition bedrock_profile : ProviderProfile :=
  {| pf_id := lit "bedrock";
     pf_aliases := [lit "aws"; lit "aws-bedrock"; lit "amazon-bedrock"; lit "amazon"];
     pf_display_name := lit "AWS Bedrock"; pf_description := lit "AWS Bedrock Converse API";
     pf_api_mode := ModeBedrockConverse; pf_auth_type := AuthAwsSdk;
     pf_env_vars := [lit "CODEL00P_PROVIDER_AWS_ACCESS_KEY_ID";
                     lit "CODEL00P_PROVIDER_AWS_SECRET_ACCESS_KEY";
                     lit "CODEL00P_PROVIDER_AWS_SESSION_TOKEN"; lit "CODEL00P_PROVIDER_AWS_REGION";
                     lit "AWS_ACCESS_KEY_ID"; lit "AWS_SECRET_ACCESS_KEY"; lit "AWS_SESSION_TOKEN";
                     lit "AWS_REGION"; lit "AWS_DEFAULT_REGION"];
     pf_default_base_url := Some (lit "https://bedrock-runtime.us-east-1.amazonaws.com");
     pf_models_url := None;
     pf_default_aux_model := None; pf_output_token_parameter := MaxTokens;
     pf_capabilities := agentic |}.
Definition gemini_profile : ProviderProfile :=
  {| pf_id := lit "gemini";
     pf_aliases := [lit "google"; lit "google-gemini"; lit "google-ai-studio"];
     pf_display_name := lit "Google Gemini";
     pf_description := lit "Google Gemini native and OpenAI-compatible endpoints";
     pf_api_mode := ModeGemini; pf_auth_type := AuthApiKey;
     pf_env_vars := [lit "CODEL00P_PROVIDER_GEMINI_API_KEY"; lit "GOOGLE_API_KEY";
                     lit "GEMINI_API_KEY"];
     pf_default_base_url := Some (lit "https://generativelanguage.googleapis.com/v1beta");
     pf_models_url := None;
     pf_default_aux_model := None; pf_output_token_parameter := MaxTokens;
     pf_capabilities := all_capabilities |}.
Definition github_profile : ProviderProfile :=
  {| pf_id := lit "github"; pf_aliases := [lit "github-copilot"; lit "copilot"];
     pf_display_name := lit "GitHub Copilot";
     pf_description := lit "GitHub Copilot Chat Completions-compatible endpoint";
     pf_api_mode := ModeChatCompletions; pf_auth_type := AuthGitHubCopilot;
     pf_env_vars := [lit "CODEL00P_PROVIDER_GITHUB_TOKEN"; lit "COPILOT_GITHUB_TOKEN";
                     lit "GH_TOKEN"; lit "GITHUB_TOKEN"];
     pf_default_base_url := Some (lit "https://api.githubcopilot.com");
     pf_models_url := None;
     pf_default_aux_model := None; pf_output_token_parameter := MaxCompletionTokens;
     pf_capabilities := agentic |}.
Definition github_models_profile : ProviderProfile :=
  {| pf_id := lit "github-models"; pf_aliases := [lit "github-model"; lit "gh-models"];
     pf_display_name := lit "GitHub Models";
     pf_description := lit "GitHub Models OpenAI-compatible inference endpoint";
     pf_api_mode := ModeChatCompletions; pf_auth_type := AuthApiKey;
     pf_env_vars := [lit "CODEL00P_PROVIDER_GITHUB_MODELS_TOKEN"; lit "GITHUB_TOKEN";
                     lit "GH_TOKEN"];
     pf_default_base_url := Some (lit "https://models.github.ai/inference");
     pf_models_url := Some (lit "https://models.github.ai/catalog/models");
     pf_default_aux_model := None; pf_output_token_parameter := MaxTokens;
     pf_capabilities := agentic |}.
Definition openrouter_profile : ProviderProfile :=
  {| pf_id := lit "openrouter"; pf_aliases := [lit "or"];
     pf_display_name := lit "OpenRouter"; pf_description := lit "OpenRouter model gateway";
     pf_api_mode := ModeChatCompletions; pf_auth_type := AuthApiKey;
     pf_env_vars := [lit "CODEL00P_PROVIDER_OPENROUTER_API_KEY"; lit "OPENROUTER_API_KEY"];
     pf_default_base_url := Some (lit "https://openrouter.ai/api/v1");
     pf_models_url := Some (lit "https://openrouter.ai/api/v1/models");
     pf_default_aux_model := None; pf_output_token_parameter := MaxTokens;
     pf_capabilities := agentic |}.
Definition custom_profile : ProviderProfile :=
  {| pf_id := lit "custom";
     pf_aliases := [lit "ollama"; lit "local"; lit "vllm"; lit "llamacpp"; lit "llama.cpp";
                    lit "llama-cpp"];
     pf_display_name := lit "Custom OpenAI-compatible";
     pf_description := lit "Configured OpenAI-compatible endpoint";
     pf_api_mode := ModeChatCompletions; pf_auth_type := AuthCustom;
     pf_env_vars := [lit "CODEL00P_PROVIDER_CUSTOM_API_KEY"];
     pf_default_base_url := None; pf_models_url := None;
     pf_default_aux_model := None; pf_output_token_parameter := MaxTokens;
     pf_capabilities := agentic |}.
Definition builtin_profiles : list ProviderProfile :=
  [openai_profile; anthropic_profile; azure_profile; bedrock_profile; gemini_profile;
   github_profile; github_models_profile; openrouter_profile; custom_profile].
Definition default_registry : ProviderRegistry :=
  foldl (λ r p, register p r) ProviderRegistry_new builtin_profiles.

(** *** Credentials from the environment, a function from names to values *)

Section env.
Context (env : str → option str).

Definition read_env_secret (key : str) : option (str * str) :=
  value ← env key;
  let value := trim value in
  if is_empty value then None else Some (key, value).
Fixpoint read_first_env_secret (keys : list str) : option (str * str) :=
  match keys with
  | [] => None
  | key :: keys =>
      match read_env_secret key with
      | Some found => Some found
      | None => read_first_env_secret keys
      end
  end.
Definition environment_credential (source_key : str) (credential : Credential)
    : ResolvedProviderCredential :=
  {| rc_credential := credential; rc_source := lit "environment:" ++ source_key;
     rc_source_kind := SrcEnvironment |}.
Definition aws_sigv4_env_credential : option ResolvedProviderCredential :=
  '(source, access_key_id) ←
    read_first_env_secret [lit "CODEL00P_PROVIDER_AWS_ACCESS_KEY_ID"; lit "AWS_ACCESS_KEY_ID"];
  '(_, secret_access_key) ←
    read_first_env_secret [lit "CODEL00P_PROVIDER_AWS_SECRET_ACCESS_KEY";
                           lit "AWS_SECRET_ACCESS_KEY"];
  let session_token := snd <$>
    read_first_env_secret [lit "CODEL00P_PROVIDER_AWS_SESSION_TOKEN"; lit "AWS_SESSION_TOKEN"] in
  '(_, region) ←
    read_first_env_secret [lit "CODEL00P_PROVIDER_AWS_REGION"; lit "AWS_REGION";
                           lit "AWS_DEFAULT_REGION"];
  Some (environment_credential source
          (CredAwsSigV4 access_key_id secret_access_key session_token region)).
Definition env_credential_for_profile (p : ProviderProfile) : option ResolvedProviderCredential :=
  match pf_auth_type p with
  | AuthApiKey | AuthGitHubCopilot | AuthCustom =>
      '(source, secret) ← read_first_env_secret (pf_env_vars p);
      Some (environment_credential source (CredApiKey secret))
  | AuthAwsSdk => aws_sigv4_env_credential
  | AuthOAuthExternal | AuthCloudProxy => None
  end.
Definition credential_from_env (id_or_alias : str) (r : ProviderRegistry)
    : option ResolvedProviderCredential :=
  profile ← registry_resolve id_or_alias r; env_credential_for_profile profile.
End env.

(** ** Policy *)

Record ProviderPolicy := {
  allowed_providers : option (gset str);
  allowed_models : gmap str (gset str);
  allowed_auth_types : gmap str (gset AuthType);
  allowed_credential_kinds : gmap str (gset CredentialKind);
  allowed_credential_source_kinds : gmap str (gset CredentialSourceKind);
  required_provider_capabilities : gmap str ProviderCapabilities;
  required_model_capabilities : gmap str ProviderCapabilities;
}.

Definition ENTERPRISE_DIRECT_PROVIDERS : list str :=
  [lit "openai"; lit "anthropic"; lit "azure-foundry"; lit "bedrock"; lit "gemini";
   lit "github"; lit "github-models"].

Definition allow_all : ProviderPolicy :=
  {| allowed_providers := None; allowed_models := ∅; allowed_auth_types := ∅;
     allowed_credential_kinds := ∅; allowed_credential_source_kinds := ∅;
     required_provider_capabilities := ∅; required_model_capabilities := ∅ |}.
Definition allow_only (providers : list str) : ProviderPolicy :=
  {| allowed_providers := Some (list_to_set providers); allowed_models := ∅;
     allowed_auth_types := ∅; allowed_credential_kinds := ∅;
     allowed_credential_source_kinds := ∅; required_provider_capabilities := ∅;
     required_model_capabilities := ∅ |}.

Definition with_allowed_models (provider : str) (models : list str) (p : ProviderPolicy)
    : ProviderPolicy :=
  {| allowed_providers := allowed_providers p;
     allowed_models := <[provider := list_to_set models]> (allowed_models p);
     allowed_auth_types := allowed_auth_types p;
     allowed_credential_kinds := allowed_credential_kinds p;
     allowed_credential_source_kinds := allowed_credential_source_kinds p;
     required_provider_capabilities := required_provider_capabilities p;
     required_model_capabilities := required_model_capabilities p |}.
Definition with_allowed_auth_types (provider : str) (types : list AuthType) (p : ProviderPolicy)
    : ProviderPolicy :=
  {| allowed_providers := allowed_providers p; allowed_models := allowed_models p;
     allowed_auth_types := <[provider := list_to_set types]> (allowed_auth_types p);
     allowed_credential_kinds := allowed_credential_kinds p;
     allowed_credential_source_kinds := allowed_credential_source_kinds p;
     required_provider_capabilities := required_provider_capabilities p;
     required_model_capabilities := required_model_capabilities p |}.
Definition with_allowed_credential_kinds (provider : str) (kinds : list CredentialKind)
    (p : ProviderPolicy) : ProviderPolicy :=
  {| allowed_providers := allowed_providers p; allowed_models := allowed_models p;
     allowed_auth_types := allowed_auth_types p;
     allowed_credential_kinds := <[provider := list_to_set kinds]> (allowed_credential_kinds p);
     allowed_credential_source_kinds := allowed_credential_source_kinds p;
     required_provider_capabilities := required_provider_capabilities p;
     required_model_capabilities := required_model_capabilities p |}.
Definition with_allowed_credential_source_kinds (provider : str)
    (kinds : list CredentialSourceKind) (p : ProviderPolicy) : ProviderPolicy :=
  {| allowed_providers := allowed_providers p; allowed_models := allowed_models p;
     allowed_auth_types := allowed_auth_types p;
     allowed_credential_kinds := allowed_credential_kinds p;
     allowed_credential_source_kinds :=
       <[provider := list_to_set kinds]> (allowed_credential_source_kinds p);
     required_provider_capabilities := required_provider_capabilities p;
     required_model_capabilities := required_model_capabilities p |}.
Definition with_required_provider_capabilities (provider : str) (c : ProviderCapabilities)
    (p : ProviderPolicy) : ProviderPolicy :=
  {| allowed_providers := allowed_providers p; allowed_models := allowed_models p;
     allowed_auth_types := allowed_auth_types p;
     allowed_credential_kinds := allowed_credential_kinds p;
     allowed_credential_source_kinds := allowed_credential_source_kinds p;
     required_provider_capabilities := <[provider := c]> (required_provider_capabilities p);
     required_model_capabilities := required_model_capabilities p |}.
Definition with_required_model_capabilities (provider : str) (c : ProviderCapabilities)
    (p : ProviderPolicy) : ProviderPolicy :=
  {| allowed_providers := allowed_providers p; allowed_models := allowed_models p;
     allowed_auth_types := allowed_auth_types p;
     allowed_credential_kinds := allowed_credential_kinds p;
     allowed_credential_source_kinds := allowed_credential_source_kinds p;
     required_provider_capabilities := required_provider_capabilities p;
     required_model_capabilities := <[provider := c]> (required_model_capabilities p) |}.

(** The presets. *)
Definition enterprise_direct : ProviderPolicy := allow_only ENTERPRISE_DIRECT_PROVIDERS.
Definition enterprise_cloud_proxy : ProviderPolicy :=
  foldl (λ p provider, with_allowed_auth_types provider [AuthCloudProxy] p) enterprise_direct
    ENTERPRISE_DIRECT_PROVIDERS.
Definition enterprise_custom_gateway : ProviderPolicy :=
  with_allowed_auth_types (lit "custom") [AuthCustom] (allow_only [lit "custom"]).
Definition enterprise_managed_identity : ProviderPolicy :=
  foldl (λ p provider, with_allowed_credential_source_kinds provider [SrcManagedIdentity] p)
    enterprise_direct ENTERPRISE_DIRECT_PROVIDERS.
Definition enterprise_organization_credentials : ProviderPolicy :=
  foldl (λ p provider, with_allowed_credential_source_kinds provider [SrcOrganization] p)
    enterprise_direct ENTERPRISE_DIRECT_PROVIDERS.
Definition enterprise_direct_agentic : ProviderPolicy :=
  foldl (λ p provider, with_required_model_capabilities provider agentic p)
    enterprise_direct ENTERPRISE_DIRECT_PROVIDERS.
Definition from_preset (id : str) : option ProviderPolicy :=
  let id := trim id in
  if decide (id = lit "allow_all") then Some allow_all
  else if decide (id = lit "enterprise_direct") then Some enterprise_direct
  else if decide (id = lit "enterprise_cloud_proxy") then Some enterprise_cloud_proxy
  else if decide (id = lit "enterprise_custom_gateway") then Some enterprise_custom_gateway
  else if decide (id = lit "enterprise_managed_identity") then Some enterprise_managed_identity
  else if decide (id = lit "enterprise_organization_credentials") then
    Some enterprise_organization_credentials
  else if decide (id = lit "enterprise_direct_agentic") then Some enterprise_direct_agentic
  else None.

(** *** Canonical provider names *)

Definition canonical_provider (registry : ProviderRegistry) (provider : str) : str :=
  match registry_resolve provider registry with
  | Some profile => pf_id profile
  | None => provider
  end.
Definition canonical_keys {A} (registry : ProviderRegistry) (m : gmap str A) : gmap str A :=
  btree_collect ((λ kv, (canonical_provider registry kv.1, kv.2)) <$> btree_entries m).
Definition canonicalize (registry : ProviderRegistry) (p : ProviderPolicy) : ProviderPolicy :=
  {| allowed_providers := set_map (canonical_provider registry) <$> allowed_providers p;
     allowed_models := canonical_keys registry (allowed_models p);
     allowed_auth_types := canonical_keys registry (allowed_auth_types p);
     allowed_credential_kinds := canonical_keys registry (allowed_credential_kinds p);
     allowed_credential_source_kinds :=
       canonical_keys registry (allowed_credential_source_kinds p);
     required_provider_capabilities :=
       canonical_keys registry (required_provider_capabilities p);
     required_model_capabilities := canonical_keys registry (required_model_capabilities p) |}.

(** *** Checks *)

Definition capabilities_satisfy (model required : ProviderCapabilities) : bool :=
  (negb (cap_tools required) || cap_tools model) &&
  (negb (cap_streaming required) || cap_streaming model) &&
  (negb (cap_vision required) || cap_vision model) &&
  (negb (cap_reasoning required) || cap_reasoning model).

Definition check_provider (provider : str) (p : ProviderPolicy) : result ProviderError unit :=
  match allowed_providers p with
  | Some allowed =>
      if decide (provider ∈ allowed) then Ok tt
      else Err (PolicyDenied provider (lit "provider is not allowed"))
  | None => Ok tt
  end.
Definition check_provider_capabilities (provider : str) (capabilities : ProviderCapabilities)
    (p : ProviderPolicy) : result ProviderError unit :=
  match required_provider_capabilities p !! provider with
  | Some required =>
      if capabilities_satisfy capabilities required then Ok tt
      else Err (PolicyDenied provider (lit "provider capabilities do not satisfy policy"))
  | None => Ok tt
  end.
Definition check_credential_kind (provider : str) (kind : option CredentialKind)
    (p : ProviderPolicy) : result ProviderError unit :=
  match allowed_credential_kinds p !! provider with
  | Some allowed =>
      match kind with
      | None => Err (PolicyDenied provider (lit "credential kind is not allowed: missing"))
      | Some kind =>
          if decide (kind ∈ allowed) then Ok tt
          else Err (PolicyDenied provider
                      (lit "credential kind is not allowed: " ++ kind_debug kind))
      end
  | None => Ok tt
  end.
Definition check_auth_type (provider : str) (auth_type : AuthType) (p : ProviderPolicy)
    : result ProviderError unit :=
  match allowed_auth_types p !! provider with
  | Some allowed =>
      if decide (auth_type ∈ allowed) then Ok tt
      else Err (PolicyDenied provider (lit "auth type is not allowed: " ++ auth_debug auth_type))
  | None => Ok tt
  end.
Definition check_credential_source_kind (provider : str) (kind : option CredentialSourceKind)
    (p : ProviderPolicy) : result ProviderError unit :=
  match allowed_credential_source_kinds p !! provider with
  | Some allowed =>
      match kind with
      | None => Err (PolicyDenied provider (lit "credential source kind is not allowed: missing"))
      | Some kind =>
          if decide (kind ∈ allowed) then Ok tt
          else Err (PolicyDenied provider
                      (lit "credential source kind is not allowed: " ++ source_debug kind))
      end
  | None => Ok tt
  end.
Definition check_model (provider model : str) (p : ProviderPolicy) : result ProviderError unit :=
  match allowed_models p !! provider with
  | Some allowed =>
      if decide (model ∈ allowed) then Ok tt
      else Err (PolicyDenied provider (lit "model is not allowed: " ++ model))
  | None => Ok tt
  end.

(** *** Routes and the policy shown with them ([runtime.rs]) *)

Inductive RouteValueSource := RequestOverride | FromCloudProxy | ProviderDefault.
Inductive ProviderPolicyDecision := PolicyAllowed.
#[export] Instance RouteValueSource_eq_dec : EqDecision RouteValueSource.
Proof. solve_decision. Defined.

Record ProviderRoutePolicy := {
  rp_allowed_models : option (list str);
  rp_allowed_auth_types : option (list AuthType);
  rp_allowed_credential_kinds : option (list CredentialKind);
  rp_allowed_credential_source_kinds : option (list CredentialSourceKind);
  rp_required_provider_capabilities : ProviderCapabilities;
  rp_required_model_capabilities : ProviderCapabilities;
}.
Definition route_policy (provider : str) (p : ProviderPolicy) : ProviderRoutePolicy :=
  {| rp_allowed_models := btree_keys <$> (allowed_models p !! provider);
     rp_allowed_auth_types := btree_set auth_rank <$> (allowed_auth_types p !! provider);
     rp_allowed_credential_kinds :=
       btree_set kind_rank <$> (allowed_credential_kinds p !! provider);
     rp_allowed_credential_source_kinds :=
       btree_set source_rank <$> (allowed_credential_source_kinds p !! provider);
     rp_required_provider_capabilities :=
       default caps_default (required_provider_capabilities p !! provider);
     rp_required_model_capabilities :=
       default caps_default (required_model_capabilities p !! provider) |}.

Record ResolvedInferenceRoute := {
  rt_requested_provider : str;
  rt_provider : str;
  rt_api_mode : ApiMode;
  rt_auth_type : AuthType;
  rt_base_url : str;
  rt_base_url_source : RouteValueSource;
  rt_credential_source : option str;
  rt_credential_source_kind : option CredentialSourceKind;
  rt_credential_kind : option CredentialKind;
  rt_policy_decision : ProviderPolicyDecision;
  rt_policy : ProviderRoutePolicy;
  rt_capabilities : ProviderCapabilities;
  rt_models_url : option str;
  rt_output_token_parameter : OutputTokenParameter;
}.
Definition source_value_debug (s : RouteValueSource) : str :=
  match s with
  | RequestOverride => lit "RequestOverride"
  | FromCloudProxy => lit "CloudProxy"
  | ProviderDefault => lit "ProviderDefault"
  end.

(** ** What the checks mean *)

(** A route a policy admits: every restriction it states for the provider holds. *)
Record policy_admits (p : ProviderPolicy) (provider model : str) (caps : ProviderCapabilities)
    (auth : AuthType) (kind : option CredentialKind) (source : option CredentialSourceKind)
    : Prop := {
  admits_provider : ∀ allowed, allowed_providers p = Some allowed → provider ∈ allowed;
  admits_capabilities : ∀ required, required_provider_capabilities p !! provider = Some required →
    capabilities_satisfy caps required = true;
  admits_auth : ∀ allowed, allowed_auth_types p !! provider = Some allowed → auth ∈ allowed;
  admits_model : ∀ allowed, allowed_models p !! provider = Some allowed → model ∈ allowed;
  admits_kind : ∀ allowed, allowed_credential_kinds p !! provider = Some allowed →
    ∃ k, kind = Some k ∧ k ∈ allowed;
  admits_source : ∀ allowed, allowed_credential_source_kinds p !! provider = Some allowed →
    ∃ k, source = Some k ∧ k ∈ allowed;
}.

(** The checks of one route, in the order in which [resolve] makes them. *)
Definition check_route (provider model : str) (caps : ProviderCapabilities) (auth : AuthType)
    (kind : option CredentialKind) (source : option CredentialSourceKind) (p : ProviderPolicy)
    : result ProviderError unit :=
  let? _ := check_provider provider p in
  let? _ := check_provider_capabilities provider caps p in
  let? _ := check_auth_type provider auth p in
  let? _ := check_model provider model p in
  let? _ := check_credential_kind provider kind p in
  check_credential_source_kind provider source p.

(** A check either succeeds because its condition holds or denies the provider. *)
Definition decides (provider : str) (r : result ProviderError unit) (P : Prop) : Prop :=
  (r = Ok tt ∧ P) ∨ ((∃ reason, r = Err (PolicyDenied provider reason)) ∧ ¬ P).

Lemma decides_bind provider r k P Q :
  decides provider r P → decides provider k Q →
  decides provider (let? _ := r in k) (P ∧ Q).
Proof.
  intros [[-> HP]|[[reason ->] HP]] [[Hk HQ]|[Hk HQ]]; cbn; unfold decides; tauto || eauto 10.
  - right. split; [eauto | tauto].
  - right. split; [eauto | tauto].
Qed.

Lemma decides_iff provider r (P Q : Prop) : (P ↔ Q) → decides provider r P → decides provider r Q.
Proof. unfold decides. naive_solver. Qed.

(** A restriction that is not stated holds, a stated one is the test made of it. *)
Lemma decides_option {X} provider (o : option X) (test : X → result ProviderError unit)
    (P : X → Prop) :
  (∀ x, decides provider (test x) (P x)) →
  decides provider (match o with Some x => test x | None => Ok tt end)
    (∀ x, o = Some x → P x).
Proof.
  intros Ht. destruct o as [x|]; [|by left].
  apply (decides_iff _ _ (P x)); [naive_solver | apply Ht].
Qed.
Lemma decides_decide provider (P : Prop) `{!Decision P} reason :
  decides provider (if decide P then Ok tt else Err (PolicyDenied provider reason)) P.
Proof. case_decide; [left | right]; eauto. Qed.
Lemma decides_member {K} `{Countable K} provider (k : option K) (allowed : gset K) missing other :
  decides provider
    match k with
    | None => Err (PolicyDenied provider missing)
    | Some k => if decide (k ∈ allowed) then Ok tt else Err (PolicyDenied provider (other k))
    end (∃ x, k = Some x ∧ x ∈ allowed).
Proof.
  destruct k as [k|]; [|right; naive_solver].
  apply (decides_iff _ _ (k ∈ allowed)); [naive_solver | apply decides_decide].
Qed.

Lemma decides_bool provider (b : bool) reason :
  decides provider (if b then Ok tt else Err (PolicyDenied provider reason)) (b = true).
Proof. destruct b; [left | right]; eauto. Qed.

Lemma check_route_decides provider model caps auth kind source p :
  decides provider (check_route provider model caps auth kind source p)
    (policy_admits p provider model caps auth kind source).
Proof.
  eapply decides_iff; cycle 1.
  { unfold check_route. repeat apply decides_bind; apply decides_option; intros x.
    - apply decides_decide.
    - apply (decides_bool _ (capabilities_satisfy caps x)).
    - apply decides_decide.
    - apply decides_decide.
    - apply decides_member.
    - apply decides_member. }
  split; [intros (H1 & H2 & H3 & H4 & H5 & H6); by constructor | intros []; by split_and!].
Qed.

Lemma check_route_ok provider model caps auth kind source p :
  check_route provider model caps auth kind source p = Ok tt ↔
  policy_admits p provider model caps auth kind source.
Proof.
  destruct (check_route_decides provider model caps auth kind source p) as [[-> ?]|[[? ->] ?]];
    naive_solver.
Qed.

(** ** Canonical names *)

Section collect.
Context {A : Type} (f : str → str).

(** Looking a key up after the names were mapped: the greatest name that maps to
    it wins. *)
Lemma collect_lookup (l : list (str * A)) (p : str) :
  Sorted.StronglySorted (λ a b, str_cmp a.1 b.1 = Lt) l →
  match btree_collect ((λ kv, (f kv.1, kv.2)) <$> l) !! p with
  | Some v => ∃ k, (k, v) ∈ l ∧ f k = p ∧
                   ∀ k' v', (k', v') ∈ l → f k' = p → str_cmp k' k ≠ Gt
  | None => ∀ k v, (k, v) ∈ l → f k ≠ p
  end.
Proof.
  unfold btree_collect. induction l as [|[k v] l IH] using rev_ind.
  { intros _. cbn. rewrite lookup_empty. intros k v []%not_elem_of_nil. }
  intros Hs. rewrite fmap_app, foldl_app. cbn [fmap list_fmap foldl fst snd].
  assert (Sorted.StronglySorted (λ a b, str_cmp a.1 b.1 = Lt) l ∧
          ∀ x, x ∈ l → str_cmp x.1 k = Lt) as [Hl Hlast].
  { clear -Hs. induction l as [|x l IHl]; [split; [constructor | intros ? []%not_elem_of_nil]|].
    cbn in Hs. apply Sorted.StronglySorted_inv in Hs as [Hs Hx]. apply IHl in Hs as [Hl Hlast].
    rewrite Forall_app, Forall_singleton in Hx. destruct Hx as [Hx Hk]. split.
    - by constructor.
    - intros y [->|Hy]%elem_of_cons; auto. }
  specialize (IH Hl). destruct (decide (f k = p)) as [Hp|Hp].
  - rewrite Hp, lookup_insert_eq. exists k. split; [set_solver|]. split; [done|].
    intros k' v' [Hk'|Hk']%elem_of_app _; [apply Hlast in Hk'; cbn in Hk'; congruence|].
    apply list_elem_of_singleton in Hk' as [= -> ->]. by rewrite cmp_refl by apply _.
  - rewrite lookup_insert_ne by done. destruct (_ !! p) as [w|].
    + destruct IH as (k1 & Hk1 & Hf & Hmax). exists k1. split; [set_solver|]. split; [done|].
      intros k' v' [Hk'|Hk']%elem_of_app Hf'; [eauto|].
      apply list_elem_of_singleton in Hk' as [= -> ->]. done.
    + intros k' v' [Hk'|Hk']%elem_of_app; [eauto|].
      by apply list_elem_of_singleton in Hk' as [= -> ->].
Qed.
End collect.

Lemma elem_of_btree_entries {A} (m : gmap str A) k v : (k, v) ∈ btree_entries m ↔ m !! k = Some v.
Proof. unfold btree_entries. by rewrite elem_of_sort_by, elem_of_map_to_list. Qed.

Lemma btree_entries_sorted {A} (m : gmap str A) :
  Sorted.StronglySorted (λ a b, str_cmp a.1 b.1 = Lt) (btree_entries m).
Proof.
  unfold btree_entries. apply sort_by_key_strict. apply NoDup_fst_map_to_list.
Qed.

(** The restriction in force for a provider is the one given under the greatest of
    the names that resolve to it. *)
Lemma canonical_keys_lookup {A} (registry : ProviderRegistry) (m : gmap str A) (p : str) :
  match canonical_keys registry m !! p with
  | Some v => ∃ k, m !! k = Some v ∧ canonical_provider registry k = p ∧
                   ∀ k', is_Some (m !! k') → canonical_provider registry k' = p →
                         str_cmp k' k ≠ Gt
  | None => ∀ k, is_Some (m !! k) → canonical_provider registry k ≠ p
  end.
Proof.
  pose proof (collect_lookup (canonical_provider registry) (btree_entries m) p
                (btree_entries_sorted m)) as Hc.
  unfold canonical_keys. destruct (_ !! p) as [v|].
  - destruct Hc as (k & Hk & Hp & Hmax). exists k. apply elem_of_btree_entries in Hk.
    split_and!; try done. intros k' [v' Hk'] Hc'. eapply Hmax; [|done]. by apply elem_of_btree_entries.
  - intros k [v Hk]. eapply Hc. by apply elem_of_btree_entries.
Qed.
