(* ===== verification/ProviderClient.v ===== *)
(** * The inference client ([codel00p-providers/src/client.rs], [client/builder.rs],
    [client/retry.rs], [client/metadata.rs], [error_classifier.rs], [transports/mod.rs])

    Route resolution under the policy, one attempt, bounded retries with backoff,
    fallback routes and cost estimates.  The transports and the clock are the
    environment: they answer as functions of what the client has done so far,
    which its state records, newest first. *)

From stdpp Require Import base numbers strings gmap list.
From S2P Require Import Prelude RustStr Json ProviderRequest ProviderPolicy.

(** ** Classifying provider errors *)

Inductive RuntimeErrorKind :=
| RkProviderAuth | RkProviderRateLimit | RkProviderBilling | RkProviderUnavailable
| RkModelUnavailable | RkContextOverflow | RkPayloadTooLarge | RkPermissionDenied
| RkToolExecution | RkInvalidToolInput | RkCancelled | RkIterationLimit | RkStorage | RkUnknown.
Definition runtime_kind_debug (k : RuntimeErrorKind) : str :=
  match k with
  | RkProviderAuth => lit "ProviderAuth" | RkProviderRateLimit => lit "ProviderRateLimit"
  | RkProviderBilling => lit "ProviderBilling"
  | RkProviderUnavailable => lit "ProviderUnavailable"
  | RkModelUnavailable => lit "ModelUnavailable" | RkContextOverflow => lit "ContextOverflow"
  | RkPayloadTooLarge => lit "PayloadTooLarge" | RkPermissionDenied => lit "PermissionDenied"
  | RkToolExecution => lit "ToolExecution" | RkInvalidToolInput => lit "InvalidToolInput"
  | RkCancelled => lit "Cancelled" | RkIterationLimit => lit "IterationLimit"
  | RkStorage => lit "Storage" | RkUnknown => lit "Unknown"
  end.

Record ClassifiedProviderError := {
  ce_kind : RuntimeErrorKind;
  ce_retryable : bool;
  ce_should_compress : bool;
  ce_should_rotate_credential : bool;
  ce_should_fallback : bool;
  ce_retry_after_secs : option N;
}.
Definition ClassifiedProviderError_new (kind : RuntimeErrorKind) : ClassifiedProviderError :=
  {| ce_kind := kind; ce_retryable := false; ce_should_compress := false;
     ce_should_rotate_credential := false; ce_should_fallback := false;
     ce_retry_after_secs := None |}.
Definition with_retryable (c : ClassifiedProviderError) : ClassifiedProviderError :=
  {| ce_kind := ce_kind c; ce_retryable := true; ce_should_compress := ce_should_compress c;
     ce_should_rotate_credential := ce_should_rotate_credential c;
     ce_should_fallback := ce_should_fallback c; ce_retry_after_secs := ce_retry_after_secs c |}.
Definition with_retry_after (secs : N) (c : ClassifiedProviderError) : ClassifiedProviderError :=
  {| ce_kind := ce_kind c; ce_retryable := ce_retryable c;
     ce_should_compress := ce_should_compress c;
     ce_should_rotate_credential := ce_should_rotate_credential c;
     ce_should_fallback := ce_should_fallback c; ce_retry_after_secs := Some secs |}.
Definition with_compression (c : ClassifiedProviderError) : ClassifiedProviderError :=
  {| ce_kind := ce_kind c; ce_retryable := ce_retryable c; ce_should_compress := true;
     ce_should_rotate_credential := ce_should_rotate_credential c;
     ce_should_fallback := ce_should_fallback c; ce_retry_after_secs := ce_retry_after_secs c |}.
Definition with_credential_rotation (c : ClassifiedProviderError) : ClassifiedProviderError :=
  {| ce_kind := ce_kind c; ce_retryable := ce_retryable c;
     ce_should_compress := ce_should_compress c; ce_should_rotate_credential := true;
     ce_should_fallback := ce_should_fallback c; ce_retry_after_secs := ce_retry_after_secs c |}.
Definition with_fallback (c : ClassifiedProviderError) : ClassifiedProviderError :=
  {| ce_kind := ce_kind c; ce_retryable := ce_retryable c;
     ce_should_compress := ce_should_compress c;
     ce_should_rotate_credential := ce_should_rotate_credential c;
     ce_should_fallback := true; ce_retry_after_secs := ce_retry_after_secs c |}.

Definition message_contains_any (message : str) (patterns : list str) : bool :=
  existsb (λ p, contains p message) patterns.

Fixpoint take_digits (s : str) : str :=
  match s with
  | c :: s => if is_ascii_digit c then c :: take_digits s else []
  | [] => []
  end.
Definition retry_after_marker : str := lit "retry-after:".
(** The second piece of splitting at the marker. *)
Definition after_marker (message : str) : option str :=
  '(_, rest) ← split_once_str retry_after_marker message;
  Some (match split_once_str retry_after_marker rest with
        | Some (piece, _) => piece
        | None => rest
        end).
Definition parse_retry_after (message : str) : option N :=
  after ← after_marker message; parse_u64 (take_digits (trim_start after)).

Definition classify_message (message : str) : ClassifiedProviderError :=
  let message := to_ascii_lowercase message in
  let with_hint c := match parse_retry_after message with
                     | Some secs => with_retry_after secs c
                     | None => c
                     end in
  if message_contains_any message
       [lit "context length"; lit "maximum context"; lit "too many tokens"] then
    with_compression (ClassifiedProviderError_new RkContextOverflow)
  else if message_contains_any message
       [lit "payload too large"; lit "request entity too large"; lit "413"] then
    with_compression (ClassifiedProviderError_new RkPayloadTooLarge)
  else if message_contains_any message
       [lit "rate limit"; lit "too many requests"; lit "429"; lit "throttled"] then
    with_hint (with_fallback (with_retryable (ClassifiedProviderError_new RkProviderRateLimit)))
  else if message_contains_any message
       [lit "401"; lit "403"; lit "unauthorized"; lit "invalid api key"] then
    with_credential_rotation (ClassifiedProviderError_new RkProviderAuth)
  else if message_contains_any message
       [lit "model not found"; lit "unknown model"; lit "invalid model"] then
    with_fallback (ClassifiedProviderError_new RkModelUnavailable)
  else if message_contains_any message
       [lit "503"; lit "529"; lit "overloaded"; lit "temporarily unavailable"] then
    with_hint (with_fallback (with_retryable (ClassifiedProviderError_new RkProviderUnavailable)))
  else ClassifiedProviderError_new RkUnknown.

Definition classify_provider_error (e : ProviderError) : ClassifiedProviderError :=
  match e with
  | MissingCredential _ => with_credential_rotation (ClassifiedProviderError_new RkProviderAuth)
  | PolicyDenied _ _ => ClassifiedProviderError_new RkPermissionDenied
  | MissingBaseUrl _ | UnknownProvider _ => ClassifiedProviderError_new RkUnknown
  | InvalidResponse _ message | Http _ message => classify_message message
  end.

(** The error of a response with a failure status: the display form of the status,
    the hint of the [Retry-After] header, the body. *)
Definition http_status_error (provider status body : str) (retry_after : option N)
    : ProviderError :=
  Http provider
    match retry_after with
    | Some secs =>
        lit "status " ++ status ++ lit " (retry-after: " ++ show_N secs ++ lit "s): " ++ body
    | None => lit "status " ++ status ++ lit ": " ++ body
    end.

(** ** Retry policy *)

(** A [Duration] is its number of nanoseconds, bounded by [Duration::MAX]. *)
Definition duration_max : N := (u64_max * 1000000000 + 999999999)%N.
Definition from_secs (secs : N) : N := (secs * 1000000000)%N.
Definition duration_saturating_mul (d factor : N) : N := N.min (d * factor) duration_max.

(** Floating point: the fraction of a millionth count, clamping to [0, 1] and the
    scaling of a duration are the standard library's. *)
Class Float64 := {
  F64 : Type;
  millionths : N → F64;
  clamp01 : F64 → F64;
  mul_f64 : N → F64 → N;
}.
(** Scaling by a fraction below one does not lengthen a duration. *)
Class Float64Laws `{Float64} : Prop := {
  mul_f64_le d k : (k < 1000000)%N → (mul_f64 d (clamp01 (millionths k)) <= d)%N;
}.

Record RetryPolicy := {
  max_retries : N;
  base_delay : N;
  max_delay : N;
}.
Definition RetryPolicy_default : RetryPolicy :=
  {| max_retries := 2; base_delay := 500000000; max_delay := from_secs 20 |}.
Definition retry_disabled : RetryPolicy := {| max_retries := 0; base_delay := 0; max_delay := 0 |}.
Definition should_retry (attempt : N) (retryable : bool) (p : RetryPolicy) : bool :=
  retryable && (attempt <? max_retries p)%N.
Definition capped_backoff (attempt : N) (p : RetryPolicy) : N :=
  let factor := N.min (2 ^ N.min attempt 16) (u32_modulus - 1) in
  N.min (duration_saturating_mul (base_delay p) factor) (max_delay p).
Definition retry_delay `{Float64} (attempt : N) (retry_after : option N) (jitter : F64)
    (p : RetryPolicy) : N :=
  match retry_after with
  | Some hint => N.min hint (max_delay p)
  | None => mul_f64 (capped_backoff attempt p) (clamp01 jitter)
  end.

(** ** The client *)

Record ProviderProxyRoute := { px_base_url : str; px_credential : Credential }.
Record StoredUsagePricing := { sp_pricing : UsagePricing; sp_source : str }.

(** The client and its builder have the same fields. *)
Record InferenceClient := {
  cl_registry : ProviderRegistry;
  cl_credentials : gmap str ResolvedProviderCredential;
  cl_policy : ProviderPolicy;
  cl_model_pricing : gmap str (gmap str StoredUsagePricing);
  cl_provider_proxies : gmap str ProviderProxyRoute;
  cl_retry : RetryPolicy;
}.
Definition InferenceClient_builder : InferenceClient :=
  {| cl_registry := default_registry; cl_credentials := ∅; cl_policy := allow_all;
     cl_model_pricing := ∅; cl_provider_proxies := ∅; cl_retry := RetryPolicy_default |}.

Definition cb_registry (x : ProviderRegistry) (b : InferenceClient) : InferenceClient :=
  {| cl_registry := x; cl_credentials := cl_credentials b; cl_policy := cl_policy b;
     cl_model_pricing := cl_model_pricing b; cl_provider_proxies := cl_provider_proxies b;
     cl_retry := cl_retry b |}.
Definition cb_retry_policy (x : RetryPolicy) (b : InferenceClient) : InferenceClient :=
  {| cl_registry := cl_registry b; cl_credentials := cl_credentials b; cl_policy := cl_policy b;
     cl_model_pricing := cl_model_pricing b; cl_provider_proxies := cl_provider_proxies b;
     cl_retry := x |}.
Definition cb_policy (x : ProviderPolicy) (b : InferenceClient) : InferenceClient :=
  {| cl_registry := cl_registry b; cl_credentials := cl_credentials b; cl_policy := x;
     cl_model_pricing := cl_model_pricing b; cl_provider_proxies := cl_provider_proxies b;
     cl_retry := cl_retry b |}.
Definition set_credentials (x : gmap str ResolvedProviderCredential) (b : InferenceClient)
    : InferenceClient :=
  {| cl_registry := cl_registry b; cl_credentials := x; cl_policy := cl_policy b;
     cl_model_pricing := cl_model_pricing b; cl_provider_proxies := cl_provider_proxies b;
     cl_retry := cl_retry b |}.
Definition store_credential (provider : str) (credential : Credential) (source : str)
    (kind : CredentialSourceKind) (b : InferenceClient) : InferenceClient :=
  set_credentials
    (<[provider := {| rc_credential := credential; rc_source := source;
                      rc_source_kind := kind |}]> (cl_credentials b)) b.
Definition cb_credential (provider : str) (c : Credential) : InferenceClient → InferenceClient :=
  store_credential provider c (lit "configured") SrcConfigured.
Definition organization_credential (provider : str) (c : Credential) (organization_ref : str)
    : InferenceClient → InferenceClient :=
  store_credential provider c (lit "organization:" ++ organization_ref) SrcOrganization.
Definition managed_identity_credential (provider : str) (c : Credential) (identity_ref : str)
    : InferenceClient → InferenceClient :=
  store_credential provider c (lit "managed_identity:" ++ identity_ref) SrcManagedIdentity.
Definition managed_identity_credential_from_resolver (provider identity_ref : str)
    (resolver : str → str → result ProviderError Credential) (b : InferenceClient)
    : result ProviderError InferenceClient :=
  let? credential := resolver provider identity_ref in
  Ok (managed_identity_credential provider credential identity_ref b).
Definition credentials_from_env (env : str → option str) (b : InferenceClient) : InferenceClient :=
  let loaded := omap (λ profile,
    (λ c, (pf_id profile, c)) <$> credential_from_env env (pf_id profile) (cl_registry b))
    (profiles (cl_registry b)) in
  set_credentials
    (foldl (λ m kv, match m !! kv.1 with Some _ => m | None => <[kv.1 := kv.2]> m end)
       (cl_credentials b) loaded) b.
Definition store_pricing (provider model : str) (pricing : UsagePricing) (source : str)
    (b : InferenceClient) : InferenceClient :=
  {| cl_registry := cl_registry b; cl_credentials := cl_credentials b; cl_policy := cl_policy b;
     cl_model_pricing :=
       <[provider := <[model := {| sp_pricing := pricing; sp_source := source |}]>
                       (default ∅ (cl_model_pricing b !! provider))]> (cl_model_pricing b);
     cl_provider_proxies := cl_provider_proxies b; cl_retry := cl_retry b |}.
Definition cb_model_pricing (provider model : str) (pricing : UsagePricing)
    : InferenceClient → InferenceClient :=
  store_pricing provider model pricing (lit "configured").
Definition cb_pricing_catalog (catalog : ProviderPricingCatalog) (b : InferenceClient)
    : InferenceClient :=
  let source := default (lit "catalog") (pc_source catalog) in
  foldl (λ b e, store_pricing (pmp_provider e) (pmp_model e) (pmp_pricing e) source b) b
    (pc_entries catalog).
Definition cb_provider_proxy (provider base_url : str) (credential : Credential)
    (b : InferenceClient) : InferenceClient :=
  {| cl_registry := cl_registry b; cl_credentials := cl_credentials b; cl_policy := cl_policy b;
     cl_model_pricing := cl_model_pricing b;
     cl_provider_proxies :=
       <[provider := {| px_base_url := base_url; px_credential := credential |}]>
         (cl_provider_proxies b);
     cl_retry := cl_retry b |}.
Definition client_build (b : InferenceClient) : InferenceClient :=
  let registry := cl_registry b in
  {| cl_registry := registry; cl_credentials := canonical_keys registry (cl_credentials b);
     cl_policy := canonicalize registry (cl_policy b);
     cl_model_pricing := canonical_keys registry (cl_model_pricing b);
     cl_provider_proxies := canonical_keys registry (cl_provider_proxies b);
     cl_retry := cl_retry b |}.

(** *** Resolving a route *)

Definition credential_stored (c : InferenceClient) (provider requested : str)
    : option ResolvedProviderCredential :=
  match cl_credentials c !! provider with
  | Some credential => Some credential
  | None => cl_credentials c !! requested
  end.

Definition route_base_url (c : InferenceClient) (request : InferenceRequest)
    (profile : ProviderProfile) : option (str * RouteValueSource) :=
  match ir_base_url request with
  | Some url => Some (url, RequestOverride)
  | None =>
      match cl_provider_proxies c !! pf_id profile with
      | Some proxy => Some (px_base_url proxy, FromCloudProxy)
      | None =>
          match pf_default_base_url profile with
          | Some url => Some (url, ProviderDefault)
          | None => None
          end
      end
  end.

(** The source, its category and the kind of the credential of a route. *)
Definition route_credential (c : InferenceClient) (request : InferenceRequest)
    (profile : ProviderProfile) (source : RouteValueSource)
    : option str * option CredentialSourceKind * option CredentialKind :=
  if decide (source = FromCloudProxy) then
    match cl_provider_proxies c !! pf_id profile with
    | Some proxy =>
        (Some (lit "cloud_proxy"), Some SrcCloudProxy, Some (credential_kind (px_credential proxy)))
    | None => (None, None, None)
    end
  else
    let credential := credential_stored c (pf_id profile) (ir_provider request) in
    (rc_source <$> credential, rc_source_kind <$> credential,
     (λ x, credential_kind (rc_credential x)) <$> credential).

Definition resolve (c : InferenceClient) (request : InferenceRequest)
    : result ProviderError ResolvedInferenceRoute :=
  match registry_resolve (ir_provider request) (cl_registry c) with
  | None => Err (UnknownProvider (ir_provider request))
  | Some profile =>
      match route_base_url c request profile with
      | None => Err (MissingBaseUrl (pf_id profile))
      | Some (base_url, base_url_source) =>
          let '(credential_source, source_kind, kind) :=
            route_credential c request profile base_url_source in
          let auth_type := if decide (base_url_source = FromCloudProxy) then AuthCloudProxy
                           else pf_auth_type profile in
          let? _ := check_route (pf_id profile) (ir_model request) (pf_capabilities profile)
                      auth_type kind source_kind (cl_policy c) in
          Ok {| rt_requested_provider := ir_provider request; rt_provider := pf_id profile;
                rt_api_mode := pf_api_mode profile; rt_auth_type := auth_type;
                rt_base_url := base_url; rt_base_url_source := base_url_source;
                rt_credential_source := credential_source;
                rt_credential_source_kind := source_kind; rt_credential_kind := kind;
                rt_policy_decision := PolicyAllowed;
                rt_policy := route_policy (pf_id profile) (cl_policy c);
                rt_capabilities := pf_capabilities profile;
                rt_models_url := pf_models_url profile;
                rt_output_token_parameter := pf_output_token_parameter profile |}
      end
  end.

Definition credential_for_route (c : InferenceClient) (route : ResolvedInferenceRoute)
    (requested_provider : str) : option Credential :=
  if decide (rt_base_url_source route = FromCloudProxy) then
    px_credential <$> cl_provider_proxies c !! rt_provider route
  else rc_credential <$> credential_stored c (rt_provider route) requested_provider.

(** *** Costs *)

Definition pricing_for_response (c : InferenceClient) (request : InferenceRequest)
    (provider model : str) : option (UsagePricing * str) :=
  match ir_pricing request with
  | Some pricing => Some (pricing, lit "request")
  | None =>
      prices ← cl_model_pricing c !! provider;
      stored ← prices !! model;
      Some (sp_pricing stored, sp_source stored)
  end.
Definition attach_cost_estimate (c : InferenceClient) (response : InferenceResponse)
    (request : InferenceRequest) (provider model : str) : InferenceResponse :=
  match rs_usage response with
  | None => response
  | Some usage =>
      match pricing_for_response c request provider model with
      | None => response
      | Some (pricing, source) =>
          with_cost (with_pricing_source source (estimate_cost usage pricing)) response
      end
  end.

(** *** Route metadata *)

Section metadata.
Context `{SerdeJson}.

Definition VOptStr (o : option str) : Value :=
  match o with Some s => VString s | None => VNull end.
Definition caps_json (c : ProviderCapabilities) : Value :=
  json_object [(lit "tools", VBool (cap_tools c)); (lit "streaming", VBool (cap_streaming c));
               (lit "vision", VBool (cap_vision c)); (lit "reasoning", VBool (cap_reasoning c))].
Definition field_when (present : bool) (key : str) (v : Value) : list (str * Value) :=
  if present then [(key, v)] else [].
Definition list_field {A} (show : A → str) (key : str) (o : option (list A))
    : list (str * Value) :=
  match o with Some l => [(key, VArray (VString ∘ show <$> l))] | None => [] end.
(** The serialized policy: absent lists and empty capabilities are skipped. *)
Definition route_policy_json (p : ProviderRoutePolicy) : Value :=
  json_object (
    list_field id (lit "allowed_models") (rp_allowed_models p) ++
    list_field auth_debug (lit "allowed_auth_types") (rp_allowed_auth_types p) ++
    list_field kind_debug (lit "allowed_credential_kinds") (rp_allowed_credential_kinds p) ++
    list_field source_debug (lit "allowed_credential_source_kinds")
      (rp_allowed_credential_source_kinds p) ++
    field_when (negb (caps_is_empty (rp_required_provider_capabilities p)))
      (lit "required_provider_capabilities") (caps_json (rp_required_provider_capabilities p)) ++
    field_when (negb (caps_is_empty (rp_required_model_capabilities p)))
      (lit "required_model_capabilities") (caps_json (rp_required_model_capabilities p))).

Definition route_metadata (route : ResolvedInferenceRoute) (model : str) : list (str * Value) :=
  map_of [(lit "requested_provider", VString (rt_requested_provider route));
    (lit "provider", VString (rt_provider route)); (lit "model", VString model);
    (lit "api_mode", VString (api_mode_debug (rt_api_mode route)));
    (lit "auth_type", VString (auth_debug (rt_auth_type route)));
    (lit "base_url_source", VString (source_value_debug (rt_base_url_source route)));
    (lit "credential_source", VOptStr (rt_credential_source route));
    (lit "credential_source_kind", VOptStr (source_debug <$> rt_credential_source_kind route));
    (lit "credential_kind", VOptStr (kind_debug <$> rt_credential_kind route));
    (lit "policy_decision", VString (lit "Allowed"));
    (lit "policy", route_policy_json (rt_policy route));
    (lit "models_url", VOptStr (rt_models_url route));
    (lit "output_token_parameter",
       VString (output_parameter_debug (rt_output_token_parameter route)));
    (lit "capabilities", caps_json (rt_capabilities route))].

Definition successful_attempt (route : ResolvedInferenceRoute) (model : str) : Value :=
  VObject (map_insert (lit "outcome") (VString (lit "success")) (route_metadata route model)).
Definition failed_attempt (route : option ResolvedInferenceRoute) (fallback_provider model : str)
    (classified : ClassifiedProviderError) (outcome : str) : Value :=
  let attempt :=
    match route with
    | Some route => route_metadata route model
    | None => map_of [(lit "requested_provider", VString fallback_provider);
                      (lit "provider", VString fallback_provider); (lit "model", VString model)]
    end in
  let attempt := map_insert (lit "outcome") (VString outcome) attempt in
  let attempt := map_insert (lit "error_kind")
                   (VString (runtime_kind_debug (ce_kind classified))) attempt in
  VObject match ce_retry_after_secs classified with
          | Some secs => map_insert (lit "retry_after_secs") (VNumber (PosInt secs)) attempt
          | None => attempt
          end.
Definition attach_route_metadata (response : InferenceResponse) (route : ResolvedInferenceRoute)
    (model : str) (attempts : list Value) : InferenceResponse :=
  with_provider_data (lit "codel00p_route")
    (json_object [(lit "selected", VObject (route_metadata route model));
                  (lit "attempts", VArray attempts)]) response.
End metadata.

(** *** Attempts, retries and fallbacks *)

Record transport_call := {
  tc_api_mode : ApiMode;
  tc_provider : str;
  tc_base_url : str;
  tc_credential : Credential;
  tc_output_token_parameter : option OutputTokenParameter;
  tc_streaming : bool;
  tc_request : InferenceRequest;
}.
Inductive client_action :=
| DidCall (call : transport_call)
| DidReadClock
| DidSleep (delay : N)
| DidToken (text : str).
Abbreviation client_history := (list client_action).

Record ClientEnv := {
  env_transport : client_history → transport_call → result ProviderError InferenceResponse;
  env_subsec_nanos : client_history → N;
}.

Record FailedRouteAttempt := {
  fr_route : option ResolvedInferenceRoute;
  fr_error : ProviderError;
}.
(** A run of the client fails with an error of its own type, or its model runs out
    of fuel. *)
Inductive run_error (E : Type) := Failed (e : E) | OutOfFuel.
Arguments Failed {E} e.
Arguments OutOfFuel {E}.
Abbreviation client_op E := (st client_history (run_error E)).

Definition did {E} (a : client_action) : client_op E client_history :=
  λ s, (Ok (a :: s), a :: s).

Section client.
Context `{SerdeJson} `{Float64} (c : InferenceClient) (env : ClientEnv).

Definition transport_call_of (streaming : bool) (route : ResolvedInferenceRoute)
    (credential : Credential) (request : InferenceRequest) : transport_call :=
  {| tc_api_mode := rt_api_mode route; tc_provider := rt_provider route;
     tc_base_url := rt_base_url route; tc_credential := credential;
     tc_output_token_parameter :=
       match rt_api_mode route with
       | ModeChatCompletions | ModeAzureChatCompletions => Some (rt_output_token_parameter route)
       | _ => None
       end;
     tc_streaming := streaming; tc_request := request |}.

Definition call_transport (call : transport_call)
    : client_op ProviderError InferenceResponse :=
  let! past := did (DidCall call) in
  st_lift (map_err Failed (env_transport env past call)).

Definition complete_one (request : InferenceRequest)
    : client_op FailedRouteAttempt (ResolvedInferenceRoute * InferenceResponse) :=
  match resolve c request with
  | Err e => st_err (Failed {| fr_route := None; fr_error := e |})
  | Ok route =>
      match credential_for_route c route (ir_provider request) with
      | None =>
          st_err (Failed {| fr_route := Some route; fr_error := MissingCredential (rt_provider route) |})
      | Some credential =>
          match rt_api_mode route with
          | ModeExternalProcess =>
              st_err (Failed {| fr_route := Some route;
                fr_error := InvalidResponse (rt_provider route)
                  (lit "api mode " ++ api_mode_debug (rt_api_mode route) ++
                   lit " is not implemented yet") |})
          | _ =>
              let! past := did (DidCall (transport_call_of false route credential request)) in
              match env_transport env past (transport_call_of false route credential request) with
              | Ok response => st_ret (route, response)
              | Err e => st_err (Failed {| fr_route := Some route; fr_error := e |})
              end
          end
      end
  end.

(** [jitter_fraction]: the clock's nanoseconds modulo a million. *)
Definition jitter_fraction {E} : client_op E F64 :=
  let! past := did DidReadClock in
  st_ret (millionths (env_subsec_nanos env past mod 1000000)).

Fixpoint retry_loop (fuel : nat) (attempt : N) (request : InferenceRequest)
    : client_op FailedRouteAttempt (ResolvedInferenceRoute * InferenceResponse) :=
  match fuel with
  | 0 => st_err OutOfFuel
  | S fuel => λ s,
      match complete_one request s with
      | (Ok success, s) => (Ok success, s)
      | (Err OutOfFuel, s) => (Err OutOfFuel, s)
      | (Err (Failed failed), s) =>
          let classified := classify_provider_error (fr_error failed) in
          if negb (should_retry attempt (ce_retryable classified) (cl_retry c)) then
            (Err (Failed failed), s)
          else
            (let retry_after := from_secs <$> ce_retry_after_secs classified in
             let! jitter := jitter_fraction in
             let delay := retry_delay attempt retry_after jitter (cl_retry c) in
             do! (if (delay =? 0)%N then st_ret tt
                  else do! did (DidSleep delay) in st_ret tt) in
             retry_loop fuel (u32_add attempt 1) request) s
      end
  end.
Definition retry_fuel : nat := S (N.to_nat (max_retries (cl_retry c))).
Definition complete_one_with_retry (request : InferenceRequest)
    : client_op FailedRouteAttempt (ResolvedInferenceRoute * InferenceResponse) :=
  retry_loop retry_fuel 0 request.

(** The response of a successful route. *)
Definition finish_route (request : InferenceRequest) (route : ResolvedInferenceRoute)
    (model : str) (attempts : list Value) (response : InferenceResponse) : InferenceResponse :=
  attach_route_metadata
    (attach_cost_estimate c response request (rt_provider route) model) route model
    (attempts ++ [successful_attempt route model]).

(** The loop over the fallback routes. *)
Fixpoint complete_fallbacks (request : InferenceRequest) (last_error : ProviderError)
    (attempts : list Value) (fallbacks : list InferenceFallbackRoute)
    : client_op ProviderError InferenceResponse :=
  match fallbacks with
  | [] => st_err (Failed last_error)
  | fallback :: fallbacks => λ s,
      match complete_one_with_retry (fallback_request fallback request) s with
      | (Ok (route, response), s) =>
          (Ok (finish_route request route (fb_model fallback) attempts response), s)
      | (Err OutOfFuel, s) => (Err OutOfFuel, s)
      | (Err (Failed failed), s) =>
          let classified := classify_provider_error (fr_error failed) in
          let attempt := failed_attempt (fr_route failed) (fb_provider fallback)
                           (fb_model fallback) classified
                           (if ce_should_fallback classified then lit "fallback"
                            else lit "error") in
          if negb (ce_should_fallback classified) then (Err (Failed (fr_error failed)), s)
          else complete_fallbacks request (fr_error failed) (attempts ++ [attempt]) fallbacks s
      end
  end.

Definition complete (request : InferenceRequest) : client_op ProviderError InferenceResponse :=
  λ s,
  match complete_one_with_retry request s with
  | (Ok (route, response), s) =>
      (Ok (finish_route request route (ir_model request) [] response), s)
  | (Err OutOfFuel, s) => (Err OutOfFuel, s)
  | (Err (Failed failed), s) =>
      let classified := classify_provider_error (fr_error failed) in
      let attempt := failed_attempt (fr_route failed) (ir_provider request) (ir_model request)
        classified
        (if ce_should_fallback classified && negb (is_empty (ir_fallback_routes request))
         then lit "fallback" else lit "error") in
      if negb (ce_should_fallback classified) then (Err (Failed (fr_error failed)), s)
      else complete_fallbacks request (fr_error failed) [attempt] (ir_fallback_routes request) s
  end.

(** Streaming: one route, no retry. *)
Definition complete_streaming (request : InferenceRequest)
    : client_op ProviderError InferenceResponse :=
  match resolve c request with
  | Err e => st_err (Failed e)
  | Ok route =>
      match credential_for_route c route (ir_provider request) with
      | None => st_err (Failed (MissingCredential (rt_provider route)))
      | Some credential =>
          let! response :=
            match rt_api_mode route with
            | ModeExternalProcess => λ s,
                match complete_one request s with
                | (Ok (_, response), s) =>
                    match rs_content response with
                    | Some content => (Ok response, DidToken content :: s)
                    | None => (Ok response, s)
                    end
                | (Err (Failed failed), s) => (Err (Failed (fr_error failed)), s)
                | (Err OutOfFuel, s) => (Err OutOfFuel, s)
                end
            | _ => call_transport (transport_call_of true route credential request)
            end in
          st_ret (finish_route request route (ir_model request) [] response)
      end
  end.

End client.
