(* ===== verification/ProviderProps.v ===== *)
(** * Properties of the inference client

    Every transport call uses a route and a credential the policy admits; calls and
    waiting are bounded by the retry policy; the outcome is that of the first route
    that does not fall through; presets enforce what their descriptions say; and
    the [Retry-After] hint survives its way through the error message. *)

From stdpp Require Import base numbers strings gmap list.
From S2P Require Import Prelude RustStr Json ProviderRequest ProviderPolicy ProviderClient.

(** ** Resolved routes *)

(** The credential of a route, with its source category: the proxy's when the base
    URL is the proxy's, the stored one of the provider otherwise. *)
Definition route_secret (c : InferenceClient) (request : InferenceRequest) (p : ProviderProfile)
    (base_url : str) (auth : AuthType) (credential : Credential) (source : CredentialSourceKind)
    : Prop :=
  (ir_base_url request = None ∧ auth = AuthCloudProxy ∧ source = SrcCloudProxy ∧
   cl_provider_proxies c !! pf_id p =
     Some {| px_base_url := base_url; px_credential := credential |}) ∨
  (auth = pf_auth_type p ∧
   (ir_base_url request = Some base_url ∨
    ir_base_url request = None ∧ cl_provider_proxies c !! pf_id p = None ∧
    pf_default_base_url p = Some base_url) ∧
   ∃ name, credential_stored c (pf_id p) (ir_provider request) =
     Some {| rc_credential := credential; rc_source := name; rc_source_kind := source |}).

(** A transport call the policy of the client admits, with the credential it is
    made with. *)
Definition call_admitted (c : InferenceClient) (call : transport_call) : Prop :=
  let request := tc_request call in
  ∃ p auth source,
    registry_resolve (ir_provider request) (cl_registry c) = Some p ∧
    tc_provider call = pf_id p ∧ tc_api_mode call = pf_api_mode p ∧
    route_secret c request p (tc_base_url call) auth (tc_credential call) source ∧
    policy_admits (cl_policy c) (pf_id p) (ir_model request) (pf_capabilities p) auth
      (Some (credential_kind (tc_credential call))) (Some source).

Section resolved.
Context (c : InferenceClient).

Lemma resolve_Ok request route :
  resolve c request = Ok route →
  ∃ p, registry_resolve (ir_provider request) (cl_registry c) = Some p ∧
    rt_provider route = pf_id p ∧ rt_api_mode route = pf_api_mode p ∧
    rt_requested_provider route = ir_provider request ∧
    route_base_url c request p = Some (rt_base_url route, rt_base_url_source route) ∧
    (rt_credential_source route, rt_credential_source_kind route, rt_credential_kind route) =
      route_credential c request p (rt_base_url_source route) ∧
    rt_auth_type route = (if decide (rt_base_url_source route = FromCloudProxy) then AuthCloudProxy
                          else pf_auth_type p) ∧
    policy_admits (cl_policy c) (pf_id p) (ir_model request) (pf_capabilities p)
      (rt_auth_type route) (rt_credential_kind route) (rt_credential_source_kind route).
Proof.
  unfold resolve. destruct (registry_resolve _ _) as [p|]; [|done].
  destruct (route_base_url c request p) as [[u src]|] eqn:Eu; [|done].
  destruct (route_credential c request p src) as [[cs sk] k] eqn:Ec.
  unfold result_bind. destruct (check_route _ _ _ _ _ _ _) as [[]|e] eqn:E; [|done].
  apply check_route_ok in E. intros [= <-]. exists p. cbn. split_and!; done.
Qed.

Lemma resolved_call_admitted streaming request route credential :
  resolve c request = Ok route →
  credential_for_route c route (ir_provider request) = Some credential →
  call_admitted c (transport_call_of streaming route credential request).
Proof.
  intros (p & Hp & Hid & Hmode & _ & Hurl & Hcred & Hauth & Hadm)%resolve_Ok Hc.
  unfold call_admitted, route_secret; cbn. unfold credential_for_route in Hc. rewrite Hid in Hc.
  unfold route_base_url in Hurl. unfold route_credential in Hcred.
  destruct (decide (rt_base_url_source route = FromCloudProxy)) as [Hs|Hs].
  - destruct (ir_base_url request); [congruence|].
    destruct (cl_provider_proxies c !! pf_id p) as [[u cr]|] eqn:Ep; 
      [|by destruct (pf_default_base_url p); simplify_eq].
    cbn in *. simplify_eq. exists p, AuthCloudProxy, SrcCloudProxy.
    split_and!; [done..|left|congruence]. split_and!; [done..|congruence].
  - destruct (credential_stored c (pf_id p) (ir_provider request)) as [[cr nm k]|] eqn:Es; [|done].
    cbn in *. simplify_eq. exists p, (pf_auth_type p), k.
    split_and!; [done..|right|congruence].
    split_and!; [done | | by exists nm].
    destruct (ir_base_url request); [left; congruence|].
    destruct (cl_provider_proxies c !! pf_id p); [congruence|].
    destruct (pf_default_base_url p); [right; naive_solver | done].
Qed.
End resolved.

(** ** What a run adds to the history *)

Definition extends (P : client_action → Prop) (s s' : client_history) : Prop :=
  ∃ new, s' = new ++ s ∧ Forall P new.

#[export] Instance extends_refl P : Reflexive (extends P).
Proof. intros s. exists []. by split; [|constructor]. Qed.
#[export] Instance extends_trans P : Transitive (extends P).
Proof.
  intros s1 s2 s3 (n1 & -> & H1) (n2 & -> & H2). exists (n2 ++ n1).
  rewrite <- app_assoc, Forall_app. done.
Qed.
Lemma extends_cons (P : client_action → Prop) a s : P a → extends P s (a :: s).
Proof. intros Ha. exists [a]. split; [done | by constructor]. Qed.
Lemma extends_mono (P Q : client_action → Prop) s s' :
  (∀ a, P a → Q a) → extends P s s' → extends Q s s'.
Proof. intros HPQ (new & -> & Hn). exists new. split; [done | by eapply Forall_impl]. Qed.

(** The requests of the routes: the primary one and one per fallback. *)
Definition route_requests (request : InferenceRequest) : list InferenceRequest :=
  request :: ((λ f, fallback_request f request) <$> ir_fallback_routes request).

Section runs.
Context `{SerdeJson} `{Float64} (c : InferenceClient) (env : ClientEnv).

(** Calls are admitted and made for one of the given requests, waits are bounded. *)
Definition proper_action (requests : list InferenceRequest) (a : client_action) : Prop :=
  match a with
  | DidCall call => call_admitted c call ∧ tc_request call ∈ requests
  | DidSleep delay => (delay <= max_delay (cl_retry c))%N
  | _ => True
  end.

Lemma complete_one_extends request s :
  extends (proper_action [request]) s (complete_one c env request s).2.
Proof.
  unfold complete_one, st_err. destruct (resolve c request) as [route|e] eqn:Er; [|done].
  destruct (credential_for_route c route _) as [cred|] eqn:Ec; [|done].
  pose proof (resolved_call_admitted c false _ _ _ Er Ec) as Ha.
  destruct (rt_api_mode route); try done;
    unfold st_bind, did; destruct (env_transport _ _ _); cbn;
    (apply extends_cons; split; [done | by apply list_elem_of_singleton]).
Qed.

Lemma capped_backoff_le attempt p : (capped_backoff attempt p <= max_delay p)%N.
Proof. unfold capped_backoff. lia. Qed.

Lemma retry_delay_le `{!Float64Laws} attempt hint k p :
  (retry_delay attempt hint (millionths (k mod 1000000)) p <= max_delay p)%N.
Proof.
  unfold retry_delay. destruct hint as [h|]; [lia|].
  etrans; [apply mul_f64_le, N.mod_lt; lia | apply capped_backoff_le].
Qed.

Lemma retry_loop_extends `{!Float64Laws} fuel attempt request s :
  extends (proper_action [request]) s (retry_loop c env fuel attempt request s).2.
Proof.
  revert attempt s. induction fuel as [|fuel IH]; intros attempt s; cbn [retry_loop]; [done|].
  pose proof (complete_one_extends request s) as He.
  destruct (complete_one c env request s) as [[ok|[failed|]] s1]; cbn [snd] in He; try done.
  destruct (negb _); [done|]. etrans; [exact He|].
  unfold jitter_fraction, st_bind, did, st_ret. set (k := env_subsec_nanos env _).
  etrans; [apply (extends_cons _ DidReadClock); done|].
  pose proof (retry_delay_le attempt
    (from_secs <$> ce_retry_after_secs (classify_provider_error (fr_error failed))) k
    (cl_retry c)) as Hd.
  set (d := retry_delay attempt _ _ _) in *. cbv zeta beta iota.
  destruct (N.eqb_spec d 0); cbv beta iota;
    [apply IH | etrans; [apply (extends_cons _ (DidSleep d)); exact Hd | apply IH]].
Qed.

Lemma with_retry_extends `{!Float64Laws} requests request s :
  request ∈ requests →
  extends (proper_action requests) s (complete_one_with_retry c env request s).2.
Proof.
  intros Hr. eapply extends_mono; [|apply retry_loop_extends].
  intros [call| | |]; cbn; try done. intros [Ha ->%list_elem_of_singleton]. done.
Qed.

Lemma fallbacks_extends `{!Float64Laws} requests request e attempts fallbacks s :
  (∀ f, f ∈ fallbacks → fallback_request f request ∈ requests) →
  extends (proper_action requests) s
    (complete_fallbacks c env request e attempts fallbacks s).2.
Proof.
  revert e attempts s. induction fallbacks as [|f fs IH]; intros e attempts s Hin; [done|].
  cbn [complete_fallbacks].
  pose proof (with_retry_extends requests (fallback_request f request) s (Hin f ltac:(left)))
    as He.
  destruct (complete_one_with_retry _ _ _ _) as [[[route resp]|[failed|]] s1]; cbn [snd] in *;
    try done.
  destruct (negb _); [done|]. etrans; [exact He|]. apply IH. intros f' Hf'. apply Hin. by right.
Qed.

Lemma complete_extends `{!Float64Laws} request s :
  extends (proper_action (route_requests request)) s (complete c env request s).2.
Proof.
  unfold complete.
  pose proof (with_retry_extends (route_requests request) request s ltac:(left)) as He.
  destruct (complete_one_with_retry _ _ _ _) as [[[route resp]|[failed|]] s1]; cbn [snd] in *;
    try done.
  destruct (negb _); [done|]. etrans; [exact He|].
  apply fallbacks_extends. intros f Hf. right. apply list_elem_of_fmap. by exists f.
Qed.
Lemma complete_streaming_extends request s :
  extends (proper_action [request]) s (complete_streaming c env request s).2.
Proof.
  unfold complete_streaming, st_err. destruct (resolve c request) as [route|e] eqn:Er; [|done].
  destruct (credential_for_route c route _) as [cred|] eqn:Ec; [|done].
  pose proof (resolved_call_admitted c true _ _ _ Er Ec) as Ha.
  assert (proper_action [request] (DidCall (transport_call_of true route cred request))) as Hp
    by (split; [done|by apply list_elem_of_singleton]).
  pose proof (complete_one_extends request s) as Hone.
  destruct (rt_api_mode route); unfold st_bind, call_transport, did, st_lift, st_bind, st_ret.
  all: try (destruct (env_transport _ _ _); cbn [map_err snd]; by apply extends_cons).
  destruct (complete_one c env request s) as [[[route' resp]|[failed|]] s1]; cbn [snd] in *; try done.
  destruct (rs_content resp); [|done]. etrans; [exact Hone|by apply extends_cons].
Qed.

(** C9. A secret leaves the client only on a route the policy admits: every transport
    call of a completion (retries and fallbacks included) and of a streaming
    completion is made for the request or, in a completion that does not stream, one of
    its fallback routes, with the credential of the provider it resolves to or of that
    provider's proxy, and the policy admits the provider, its capabilities, the model,
    the authentication type and the kind and source of exactly that credential; and no
    wait is longer than the maximal delay. *)
Theorem calls_follow_policy `{!Float64Laws} (request : InferenceRequest) (s : client_history) :
  extends (proper_action (route_requests request)) s (complete c env request s).2 ∧
  extends (proper_action [request]) s (complete_streaming c env request s).2.
Proof. split; [apply complete_extends|apply complete_streaming_extends]. Qed.

(** ** Bounds *)

Definition is_call (a : client_action) : bool := match a with DidCall _ => true | _ => false end.
Definition calls (s : client_history) : nat := length (List.filter is_call s).
Fixpoint slept (s : client_history) : N :=
  match s with
  | DidSleep d :: s => (d + slept s)%N
  | _ :: s => slept s
  | [] => 0%N
  end.

(** At most [n] more calls, with at most [m] more waits of maximal length. *)
Definition within (n m : nat) (s s' : client_history) : Prop :=
  calls s' ≤ calls s + n ∧ (slept s' <= slept s + N.of_nat m * max_delay (cl_retry c))%N.

Lemma within_trans n m n' m' s1 s2 s3 :
  within n m s1 s2 → within n' m' s2 s3 → within (n + n') (m + m') s1 s3.
Proof. unfold within. nia. Qed.
Lemma within_mono n m n' m' s s' : n ≤ n' → m ≤ m' → within n m s s' → within n' m' s s'.
Proof. unfold within. nia. Qed.

Lemma complete_one_within request s :
  within 1 0 s (complete_one c env request s).2 ∧
  (complete_one c env request s).1 ≠ Err OutOfFuel.
Proof.
  unfold complete_one, st_err, within. destruct (resolve c request) as [route|e];
    [|cbn [fst snd]; split_and!; (lia || done)].
  destruct (credential_for_route c route _) as [cred|]; [|cbn [fst snd]; split_and!; (lia || done)].
  destruct (rt_api_mode route); unfold st_bind, did, calls;
    try destruct (env_transport _ _ _); cbn [fst snd st_ret slept List.filter is_call length];
    split_and!; (lia || done).
Qed.

Lemma retry_loop_within `{!Float64Laws} fuel attempt request s :
  (attempt <= max_retries (cl_retry c))%N → (max_retries (cl_retry c) < u32_modulus)%N →
  N.to_nat (max_retries (cl_retry c) - attempt) < fuel →
  let left := N.to_nat (max_retries (cl_retry c) - attempt) in
  within (S left) left s (retry_loop c env fuel attempt request s).2 ∧
  (retry_loop c env fuel attempt request s).1 ≠ Err OutOfFuel.
Proof.
  intros Ha Hmax. revert attempt s Ha.
  induction fuel as [|fuel IH]; intros attempt s Ha Hf; [lia|]. cbn [retry_loop].
  destruct (complete_one_within request s) as [Hw Hne].
  destruct (complete_one c env request s) as [[ok|[failed|]] s1]; cbn [fst snd] in *;
    [split; [eapply within_mono, Hw; lia | done] | | done].
  set (cls := classify_provider_error _).
  destruct (should_retry attempt (ce_retryable cls) (cl_retry c)) eqn:Er; cbn [negb];
    [|split; [eapply within_mono, Hw; lia | done]].
  apply andb_prop in Er as [_ Hlt%N.ltb_lt].
  assert (u32_add attempt 1 = attempt + 1)%N as Hadd by (unfold u32_add; apply N.mod_small; lia).
  unfold jitter_fraction, st_bind, did, st_ret. rewrite Hadd.
  pose proof (retry_delay_le attempt (from_secs <$> ce_retry_after_secs cls)
    (env_subsec_nanos env (DidReadClock :: s1)) (cl_retry c)) as Hd.
  set (d := retry_delay attempt _ _ _) in *. cbv zeta beta iota.
  destruct (N.eqb_spec d 0) as [Hz|Hz]; cbv beta iota.
  - destruct (IH (attempt + 1)%N (DidReadClock :: s1) ltac:(lia) ltac:(lia)) as [IHw IHne].
    split; [|exact IHne]. revert Hw IHw. unfold within, calls. cbn [slept List.filter is_call]. nia.
  - destruct (IH (attempt + 1)%N (DidSleep d :: DidReadClock :: s1) ltac:(lia) ltac:(lia))
      as [IHw IHne].
    split; [|exact IHne]. revert Hw IHw. unfold within, calls. cbn [slept List.filter is_call]. nia.
Qed.

Let retries : nat := N.to_nat (max_retries (cl_retry c)).

Lemma with_retry_within `{!Float64Laws} request s :
  (max_retries (cl_retry c) < u32_modulus)%N →
  within (S retries) retries s (complete_one_with_retry c env request s).2 ∧
  (complete_one_with_retry c env request s).1 ≠ Err OutOfFuel.
Proof.
  intros Hmax. pose proof (retry_loop_within (retry_fuel c) 0 request s) as Hl.
  unfold retry_fuel in Hl. rewrite N.sub_0_r in Hl. apply Hl; lia.
Qed.

Lemma fallbacks_within `{!Float64Laws} request e attempts fallbacks s :
  (max_retries (cl_retry c) < u32_modulus)%N →
  within (length fallbacks * S retries) (length fallbacks * retries) s
    (complete_fallbacks c env request e attempts fallbacks s).2 ∧
  (complete_fallbacks c env request e attempts fallbacks s).1 ≠ Err OutOfFuel.
Proof.
  intros Hmax. revert e attempts s.
  induction fallbacks as [|f fs IH]; intros e attempts s; cbn [complete_fallbacks length].
  { unfold within. cbn [fst snd st_err]. split; [lia | done]. }
  destruct (with_retry_within (fallback_request f request) s Hmax) as [Hw Hne].
  destruct (complete_one_with_retry _ _ _ _) as [[[route resp]|[failed|]] s1]; cbn [fst snd] in *;
    [split; [eapply within_mono, Hw; lia | done] | | done].
  destruct (negb _); [split; [eapply within_mono, Hw; lia | done]|].
  edestruct IH as [IHw IHne]. split; [|exact IHne].
  eapply within_mono; [..|eapply within_trans; [exact Hw | exact IHw]]; lia.
Qed.

(** C35. A completion always returns, after at most one call plus the retries per
    route, and waits at most the maximal delay per retry: a stuck provider degrades
    to the fallback routes instead of hanging. *)
Theorem complete_bounded `{!Float64Laws} (request : InferenceRequest) (s : client_history)
    (Hmax : (max_retries (cl_retry c) < u32_modulus)%N) :
  let routes := S (length (ir_fallback_routes request)) in
  let '(r, s') := complete c env request s in
  r ≠ Err OutOfFuel ∧
  calls s' ≤ calls s + routes * S (N.to_nat (max_retries (cl_retry c))) ∧
  (slept s' <= slept s + N.of_nat routes * max_retries (cl_retry c) * max_delay (cl_retry c))%N.
Proof.
  cbv zeta. unfold complete. destruct (with_retry_within request s Hmax) as [Hw Hne].
  destruct (complete_one_with_retry _ _ _ _) as [[[route resp]|[failed|]] s1];
    cbn [fst snd] in *; [|  | done].
  { destruct Hw as [Hc Hs]. unfold retries in *. split_and!; [done | nia | nia]. }
  destruct (negb _).
  { destruct Hw as [Hc Hs]. unfold retries in *. split_and!; [done | nia | nia]. }
  edestruct (fallbacks_within request) as [Hw2 Hne2]; [done|].
  destruct (complete_fallbacks _ _ _ _ _ _ _) as [r s'] eqn:E in Hw2, Hne2 |- *.
  rewrite E in *. cbn [fst snd] in *. destruct Hw as [Hc Hs], Hw2 as [Hc2 Hs2].
  unfold retries in *. split_and!; [done | nia | nia].
Qed.

End runs.

(** ** Which route answers *)

Section routes.
Context `{SerdeJson} `{Float64} (c : InferenceClient) (env : ClientEnv).

(** Routes that fail, one after the other, with errors that fall back. *)
Inductive falls_through :
  list InferenceRequest → client_history → list FailedRouteAttempt → client_history → Prop :=
| falls_nil s : falls_through [] s [] s
| falls_cons request requests s f fs s1 s2 :
    complete_one_with_retry c env request s = (Err (Failed f), s1) →
    ce_should_fallback (classify_provider_error (fr_error f)) = true →
    falls_through requests s1 fs s2 →
    falls_through (request :: requests) s (f :: fs) s2.

(** What the metadata records of a route that fell through. *)
Definition fall_record (request : InferenceRequest) (f : FailedRouteAttempt) : Value :=
  failed_attempt (fr_route f) (ir_provider request) (ir_model request)
    (classify_provider_error (fr_error f)) (lit "fallback").

Definition first_answer (request : InferenceRequest) (attempts : list Value)
    (requests : list InferenceRequest) (s : client_history)
    (r : result (run_error ProviderError) InferenceResponse) (s' : client_history) : Prop :=
  ∃ pre req post fs s1, requests = pre ++ req :: post ∧ falls_through pre s fs s1 ∧
    ((∃ route response, complete_one_with_retry c env req s1 = (Ok (route, response), s') ∧
        r = Ok (finish_route c request route (ir_model req)
                  (attempts ++ zip_with fall_record pre fs) response)) ∨
     (∃ f, complete_one_with_retry c env req s1 = (Err (Failed f), s') ∧
        r = Err (Failed (fr_error f)) ∧
        (ce_should_fallback (classify_provider_error (fr_error f)) = false ∨ post = []))).

Lemma first_answer_here request attempts req post s s' route response :
  complete_one_with_retry c env req s = (Ok (route, response), s') →
  first_answer request attempts (req :: post) s
    (Ok (finish_route c request route (ir_model req) attempts response)) s'.
Proof.
  intros E. exists [], req, post, [], s. split_and!; [done | constructor | left].
  exists route, response. cbn. by rewrite app_nil_r.
Qed.
Lemma first_answer_fails request attempts req post s s' f :
  complete_one_with_retry c env req s = (Err (Failed f), s') →
  ce_should_fallback (classify_provider_error (fr_error f)) = false ∨ post = [] →
  first_answer request attempts (req :: post) s (Err (Failed (fr_error f))) s'.
Proof.
  intros E Hf. exists [], req, post, [], s. split_and!; [done | constructor | right]. eauto.
Qed.
Lemma first_answer_next request attempts req requests s s1 f r s' :
  complete_one_with_retry c env req s = (Err (Failed f), s1) →
  ce_should_fallback (classify_provider_error (fr_error f)) = true →
  first_answer request (attempts ++ [fall_record req f]) requests s1 r s' →
  first_answer request attempts (req :: requests) s r s'.
Proof.
  intros E Hf (pre & q & post & fs & s2 & -> & Hpre & Hq). exists (req :: pre), q, post, (f :: fs), s2.
  split_and!; [done | by econstructor |]. cbn [zip_with]. by rewrite <- app_assoc in Hq.
Qed.

Lemma fallbacks_first_answer request e attempts fallback fallbacks s r s' :
  complete_fallbacks c env request e attempts (fallback :: fallbacks) s = (r, s') →
  r ≠ Err OutOfFuel →
  first_answer request attempts
    ((λ f, fallback_request f request) <$> fallback :: fallbacks) s r s'.
Proof.
  revert e attempts fallback s.
  induction fallbacks as [|next fallbacks IH]; intros e attempts fallback s Hr Hne;
    cbn [complete_fallbacks] in Hr; cbn [fmap list_fmap];
    destruct (complete_one_with_retry c env (fallback_request fallback request) s)
      as [[[route response]|[f|]] s1] eqn:E; simplify_eq;
    try (by apply (first_answer_here _ _ (fallback_request fallback request))).
  - unfold st_err in Hr. destruct (ce_should_fallback _) eqn:Ef; cbn [negb] in Hr; simplify_eq;
      by eapply first_answer_fails; eauto.
  - destruct (ce_should_fallback _) eqn:Ef; cbn [negb] in Hr; simplify_eq;
      [|by eapply first_answer_fails; eauto].
    eapply first_answer_next; [done..|]. by apply (IH (fr_error f)).
Qed.

(** The first route that answers decides: the primary route and then the fallback
    routes are tried in order; a route is passed over only when its error falls
    back; the response is that of the first route that succeeds, priced for the
    request, with one metadata record per route tried in that order, and an error
    is returned only when it does not fall back or no route is left. *)
Theorem complete_first_answer `{!Float64Laws} (request : InferenceRequest) (s : client_history)
    (Hmax : (max_retries (cl_retry c) < u32_modulus)%N) :
  let '(r, s') := complete c env request s in
  first_answer request [] (route_requests request) s r s'.
Proof.
  unfold complete, route_requests.
  destruct (with_retry_within c env request s Hmax) as [_ Hne].
  destruct (complete_one_with_retry c env request s) as [[[route response]|[f|]] s1] eqn:E;
    [by apply first_answer_here | | done].
  destruct (ce_should_fallback (classify_provider_error (fr_error f))) eqn:Ef; cbn [negb];
    [|by eapply first_answer_fails; eauto].
  destruct (ir_fallback_routes request) as [|f1 fs] eqn:Efs.
  { cbn [complete_fallbacks st_err]. by eapply first_answer_fails; eauto. }
  cbn [is_empty negb andb].
  destruct (fallbacks_within c env request (fr_error f)
    [fall_record request f] (f1 :: fs) s1 Hmax) as [_ Hne2].
  unfold fall_record in Hne2. destruct (complete_fallbacks c env _ _ _ _ _) as [r s'] eqn:E2.
  eapply first_answer_next; [done..|]. by eapply fallbacks_first_answer.
Qed.
End routes.

(** ** Presets and aliases *)

Section presets.
Context (b : InferenceClient) (request : InferenceRequest) (route : ResolvedInferenceRoute).
Hypothesis (Hreg : cl_registry b = default_registry).

Lemma built_route_admitted (policy : ProviderPolicy) :
  resolve (client_build (cb_policy policy b)) request = Ok route →
  (rt_base_url_source route = FromCloudProxy ↔ rt_auth_type route = AuthCloudProxy) ∧
  (rt_base_url_source route = FromCloudProxy →
     rt_credential_source_kind route = Some SrcCloudProxy) ∧
  ∃ caps, policy_admits (canonicalize default_registry policy) (rt_provider route)
    (ir_model request) caps (rt_auth_type route) (rt_credential_kind route)
    (rt_credential_source_kind route).
Proof.
  intros (p & Hp & -> & _ & _ & Hurl & Hcred & Hauth & Hadm)%resolve_Ok.
  cbn [client_build cb_policy cl_policy cl_registry] in Hadm, Hp. rewrite Hreg in Hadm, Hp.
  assert (pf_auth_type p ≠ AuthCloudProxy) as Hne.
  { clear -Hp. unfold registry_resolve in Hp. set (k := default _ _) in Hp. clearbody k.
    assert (map_Forall (λ _ p, pf_auth_type p ≠ AuthCloudProxy) (reg_providers default_registry))
      as Hall by (apply map_Forall_to_list; vm_compute; repeat constructor; done).
    by apply (Hall k p). }
  split_and!; [| |eauto].
  - rewrite Hauth. case_decide; naive_solver.
  - intros Hs. rewrite Hs in Hurl, Hcred. unfold route_base_url in Hurl.
    unfold route_credential in Hcred. rewrite decide_True in Hcred by done.
    destruct (ir_base_url request); [congruence|].
    destruct (cl_provider_proxies _ !! _); [by simplify_eq|].
    destruct (pf_default_base_url p); congruence.
Qed.

Lemma singleton_set_lookup {A} `{Countable A} (m : gmap str (gset A)) x provider :
  Forall (λ p, m !! p = Some {[x]}) ENTERPRISE_DIRECT_PROVIDERS →
  provider ∈ ENTERPRISE_DIRECT_PROVIDERS → m !! provider = Some {[x]}.
Proof. intros Hm Hp. rewrite Forall_forall in Hm. by apply Hm. Qed.

End presets.

Definition ENTERPRISE_SET : gset str := list_to_set ENTERPRISE_DIRECT_PROVIDERS.
Lemma preset_facts :
  let canonical := canonicalize default_registry in
  (allowed_providers (canonical enterprise_cloud_proxy) = Some ENTERPRISE_SET ∧
   Forall (λ p, allowed_auth_types (canonical enterprise_cloud_proxy) !! p =
                Some {[AuthCloudProxy]}) ENTERPRISE_DIRECT_PROVIDERS) ∧
  (allowed_providers (canonical enterprise_managed_identity) = Some ENTERPRISE_SET ∧
   Forall (λ p, allowed_credential_source_kinds (canonical enterprise_managed_identity) !! p =
                Some {[SrcManagedIdentity]}) ENTERPRISE_DIRECT_PROVIDERS) ∧
  (allowed_providers (canonical enterprise_organization_credentials) = Some ENTERPRISE_SET ∧
   Forall (λ p, allowed_credential_source_kinds (canonical enterprise_organization_credentials)
                !! p = Some {[SrcOrganization]}) ENTERPRISE_DIRECT_PROVIDERS) ∧
  allowed_providers (canonical enterprise_direct) = Some ENTERPRISE_SET ∧
  (allowed_providers (canonical enterprise_custom_gateway) = Some {[lit "custom"]} ∧
   allowed_auth_types (canonical enterprise_custom_gateway) !! lit "custom" =
     Some {[AuthCustom]}).
Proof. cbv zeta. split_and!; apply (bool_decide_eq_true_1 _); vm_compute; reflexivity. Qed.

(** The presets enforce what their descriptions say, whatever else is configured
    on the built-in registry: under the enterprise presets every route is to a
    direct provider; the cloud-proxy preset only admits routes through the proxy
    configured for the provider, the managed-identity and organization presets only
    credentials from such a source, and the gateway preset only the custom
    provider, directly. *)
Theorem presets_enforced (b : InferenceClient) (request : InferenceRequest)
    (route : ResolvedInferenceRoute) (id : str) (policy : ProviderPolicy)
    (Hreg : cl_registry b = default_registry) (Hpreset : from_preset id = Some policy)
    (Hroute : resolve (client_build (cb_policy policy b)) request = Ok route) :
  (trim id = lit "enterprise_cloud_proxy" →
     rt_provider route ∈ ENTERPRISE_DIRECT_PROVIDERS ∧
     rt_base_url_source route = FromCloudProxy ∧
     rt_credential_source_kind route = Some SrcCloudProxy) ∧
  (trim id = lit "enterprise_managed_identity" →
     rt_provider route ∈ ENTERPRISE_DIRECT_PROVIDERS ∧
     rt_credential_source_kind route = Some SrcManagedIdentity) ∧
  (trim id = lit "enterprise_organization_credentials" →
     rt_provider route ∈ ENTERPRISE_DIRECT_PROVIDERS ∧
     rt_credential_source_kind route = Some SrcOrganization) ∧
  (trim id = lit "enterprise_direct" → rt_provider route ∈ ENTERPRISE_DIRECT_PROVIDERS) ∧
  (trim id = lit "enterprise_custom_gateway" →
     rt_provider route = lit "custom" ∧ rt_base_url_source route ≠ FromCloudProxy).
Proof.
  destruct (built_route_admitted b request route Hreg policy Hroute) as (Hproxy & Hsrc & caps & Ha).
  destruct preset_facts as ((Hp1 & Hf1) & (Hp2 & Hf2) & (Hp3 & Hf3) & Hp4 & Hp5 & Hf5).
  destruct Ha as [Hprov _ Hauth _ _ Hsource].
  split_and!; intros Hid; unfold from_preset in Hpreset; rewrite Hid in Hpreset;
    apply (inj Some) in Hpreset as <-.
  - specialize (Hprov _ Hp1). apply elem_of_list_to_set in Hprov as Hin.
    specialize (Hauth _ (singleton_set_lookup _ _ _ Hf1 Hin)). apply elem_of_singleton in Hauth.
    tauto.
  - specialize (Hprov _ Hp2). apply elem_of_list_to_set in Hprov as Hin. split; [done|].
    destruct (Hsource _ (singleton_set_lookup _ _ _ Hf2 Hin)) as (k & -> & ->%elem_of_singleton).
    done.
  - specialize (Hprov _ Hp3). apply elem_of_list_to_set in Hprov as Hin. split; [done|].
    destruct (Hsource _ (singleton_set_lookup _ _ _ Hf3 Hin)) as (k & -> & ->%elem_of_singleton).
    done.
  - specialize (Hprov _ Hp4). by apply elem_of_list_to_set in Hprov.
  - specialize (Hprov _ Hp5). apply elem_of_singleton in Hprov. split; [done|].
    rewrite Hprov in Hauth. specialize (Hauth _ Hf5). apply elem_of_singleton in Hauth.
    rewrite Hproxy. congruence.
Qed.

(** A restriction counts under every name of its provider: if a policy restricts
    the models of [name], and no greater name in the restriction resolves to the
    same provider, then the built client resolves a request to that provider, under
    whatever alias, only for one of the listed models; every other request to it is
    denied by policy. *)
Theorem alias_restrictions_hold (b : InferenceClient) (request : InferenceRequest)
    (name : str) (models : gset str)
    (Hname : allowed_models (cl_policy b) !! name = Some models)
    (Hgreatest : ∀ name', is_Some (allowed_models (cl_policy b) !! name') →
       canonical_provider (cl_registry b) name' = canonical_provider (cl_registry b) name →
       str_cmp name' name ≠ Gt) :
  let c := client_build b in
  (∀ route, resolve c request = Ok route →
     rt_provider route = canonical_provider (cl_registry b) name →
     ir_model request ∈ models) ∧
  (∀ p, registry_resolve (ir_provider request) (cl_registry b) = Some p →
     pf_id p = canonical_provider (cl_registry b) name →
     is_Some (route_base_url c request p) → ir_model request ∉ models →
     ∃ reason, resolve c request = Err (PolicyDenied (pf_id p) reason)).
Proof.
  intros c. set (canon := canonical_provider (cl_registry b)) in *.
  assert (allowed_models (cl_policy c) !! canon name = Some models) as Hmodels.
  { cbn. pose proof (canonical_keys_lookup (cl_registry b) (allowed_models (cl_policy b))
      (canon name)) as Hl.
    destruct (canonical_keys _ _ !! _) as [v|]; [|by destruct (Hl name)].
    destruct Hl as (k & Hk & Hc & Hmax). f_equal.
    enough (k = name) by congruence. apply str_cmp_eq.
    specialize (Hmax name (mk_is_Some _ _ Hname) eq_refl).
    specialize (Hgreatest k (mk_is_Some _ _ Hk) Hc). rewrite str_cmp_opp in Hmax.
    by destruct (str_cmp k name). }
  split.
  - intros route (p & _ & -> & _ & _ & _ & _ & _ & [_ _ _ Hm _ _])%resolve_Ok Hid.
    rewrite Hid in Hm. by apply Hm.
  - intros p Hp Hid [[url src] Hurl] Hnot. unfold resolve. cbn [cl_registry c client_build].
    rewrite Hp, Hurl. destruct (route_credential c request p src) as [[cs sk] k].
    set (auth := if decide _ then _ else _).
    destruct (check_route_decides (pf_id p) (ir_model request) (pf_capabilities p) auth k sk
      (cl_policy c)) as [[_ [_ _ _ Hm _ _]]|[[reason ->] _]].
    + rewrite Hid in Hm. by destruct Hnot; apply Hm.
    + by exists reason.
Qed.

(** ** The retry hint *)

Lemma take_digits_stop d c s :
  forallb is_ascii_digit d = true → is_ascii_digit c = false → take_digits (d ++ c :: s) = d.
Proof.
  intros Hd Hc. induction d as [|x d IH]; cbn in *; [by rewrite Hc|].
  apply andb_prop in Hd as [-> Hd]. by rewrite IH.
Qed.
Lemma lowercase_app a b : to_ascii_lowercase (a ++ b) = to_ascii_lowercase a ++ to_ascii_lowercase b.
Proof. apply fmap_app. Qed.
Lemma digit_facts c :
  is_ascii_digit c = true → is_whitespace c = false ∧ ascii_lower c = c ∧ (114 =? c)%N = false.
Proof.
  unfold is_ascii_digit. intros [H1%N.leb_le H2%N.leb_le]%andb_prop.
  assert (c = 48 ∨ c = 49 ∨ c = 50 ∨ c = 51 ∨ c = 52 ∨ c = 53 ∨ c = 54 ∨ c = 55 ∨ c = 56 ∨ c = 57)%N
    as Hc by lia.
  by destruct_or! Hc; subst c.
Qed.
Lemma lowercase_digits d : forallb is_ascii_digit d = true → to_ascii_lowercase d = d.
Proof.
  induction d as [|c d IH]; [done|]. cbn [forallb]. intros [Hc Hd]%andb_prop.
  unfold to_ascii_lowercase in *. cbn. rewrite IH by done. f_equal.
  by apply digit_facts.
Qed.
Lemma lowercase_avoids_colon s :
  avoids (N.eqb 58) s → avoids (N.eqb 58) (to_ascii_lowercase s).
Proof.
  intros Ha c (x & -> & Hx)%list_elem_of_fmap. specialize (Ha x Hx).
  apply N.eqb_neq in Ha. apply N.eqb_neq. unfold ascii_lower, is_ascii_uppercase.
  destruct (N.leb_spec 65 x), (N.leb_spec x 90); cbn; lia.
Qed.

(** The first colon of a text ends the first marker. *)
Lemma first_marker a b :
  avoids (N.eqb 58) a →
  split_once_str retry_after_marker (a ++ retry_after_marker ++ b) = Some (a, b).
Proof.
  intros Ha. apply split_once_str_first; [|done]. intros x y _ E.
  destruct y as [|c y _] using rev_ind; [done|]. exfalso.
  change retry_after_marker with (lit "retry-after" ++ [58%N]) in E.
  rewrite !app_assoc in E. apply app_inj_tail in E as [E _].
  assert (58%N ∈ a ++ lit "retry-after") as Hin by (rewrite E; set_solver).
  assert (avoids (N.eqb 58) (a ++ lit "retry-after")) as Hav.
  { apply avoids_app. split; [done | by apply avoids_forallb]. }
  specialize (Hav _ Hin). done.
Qed.

Lemma parse_retry_after_message a secs b :
  avoids (N.eqb 58) a → (secs < u64_modulus)%N →
  parse_retry_after (a ++ lit "retry-after: " ++ show_N secs ++ lit "s" ++ b) = Some secs.
Proof.
  intros Ha Hs. unfold parse_retry_after, after_marker.
  change (lit "retry-after: ") with (retry_after_marker ++ [32%N]). rewrite <- app_assoc.
  rewrite first_marker by done. cbn [mbind option_bind].
  assert (∀ r, parse_u64 (take_digits (trim_start ([32%N] ++ show_N secs ++ lit "s" ++ r))) =
               Some secs) as Hpiece.
  { intros r. cbn [app]. change (trim_start (32%N :: ?x)) with (trim_start x).
    destruct (show_N secs) as [|d ds] eqn:E; [by destruct (show_N_nonempty secs)|].
    pose proof (show_N_digits secs) as Hd. rewrite E in Hd.
    change ((d :: ds) ++ lit "s" ++ r) with (d :: (ds ++ lit "s" ++ r)). rewrite trim_start_cons.
    - change (d :: (ds ++ lit "s" ++ r)) with ((d :: ds) ++ 115%N :: r).
      rewrite take_digits_stop by done. rewrite <- E. by apply parse_show_u64.
    - cbn in Hd. apply andb_prop in Hd as [Hd _]. by apply digit_facts. }
  change retry_after_marker with (114%N :: lit "etry-after:").
  rewrite (app_assoc [32%N]), (app_assoc _ (lit "s")), split_once_str_skip.
  - destruct (split_once_str _ b) as [[x y]|]; cbn [fmap option_fmap option_map];
      rewrite <- !app_assoc; apply Hpiece.
  - apply avoids_app. split; [|by apply avoids_forallb]. apply avoids_app.
    split; [by apply avoids_forallb|]. intros c Hc. pose proof (show_N_digits secs) as Hd.
    rewrite forallb_forall in Hd. apply list_elem_of_In, Hd in Hc. by apply digit_facts.
Qed.

(** The hint of a [Retry-After] header survives: the error made of a response
    with that hint is classified with exactly its seconds whenever it is classified
    as retryable, whatever the body says, and the delay before the next attempt is
    then the hint, cut at the maximal delay; the display form of a status has no
    colon. *)
Theorem retry_after_roundtrip `{Float64} (provider status body : str) (secs : N)
    (Hstatus : avoids (N.eqb 58) status) (Hsecs : (secs < u64_modulus)%N) :
  let classified := classify_provider_error (http_status_error provider status body (Some secs)) in
  ce_retryable classified = true →
  ce_retry_after_secs classified = Some secs ∧
  ∀ attempt jitter p,
    retry_delay attempt (from_secs <$> ce_retry_after_secs classified) jitter p =
    N.min (from_secs secs) (max_delay p).
Proof.
  cbv zeta. cbn [classify_provider_error http_status_error].
  set (message := lit "status " ++ _).
  assert (parse_retry_after (to_ascii_lowercase message) = Some secs) as Hparse.
  { unfold message. rewrite !lowercase_app, (lowercase_digits (show_N secs))
      by apply show_N_digits.
    change (to_ascii_lowercase (lit " (retry-after: "))
      with (lit " (" ++ lit "retry-after: ").
    change (to_ascii_lowercase (lit "s): ")) with (lit "s" ++ lit "): ").
    rewrite <- !app_assoc, (app_assoc (to_ascii_lowercase (lit "status "))), app_assoc.
    apply parse_retry_after_message; [|done].
    apply avoids_app. split; [|by apply avoids_forallb]. rewrite <- lowercase_app.
    apply lowercase_avoids_colon, avoids_app. split; [by apply avoids_forallb | done]. }
  unfold classify_message. rewrite Hparse.
  repeat (destruct (message_contains_any _ _); [done|]); done.
Qed.

(** ** A concrete client: a rate-limited primary route and a fallback *)

Definition rational_f64 : Float64 :=
  {| F64 := N; millionths := id; clamp01 := N.min 1000000;
     mul_f64 := λ d k, (d * k / 1000000)%N |}.
Lemma rational_f64_laws : @Float64Laws rational_f64.
Proof.
  constructor. cbn. intros d k Hk. apply N.Div0.div_le_upper_bound. unfold id. nia.
Qed.

Definition demo_client : InferenceClient :=
  client_build (cb_policy (with_allowed_models (lit "claude") [lit "m"] allow_all)
    (cb_credential (lit "gpt") (CredApiKey (lit "k1"))
      (cb_credential (lit "claude") (CredApiKey (lit "k2")) InferenceClient_builder))).
Definition demo_env : ClientEnv :=
  {| env_transport := λ past call,
       if decide (tc_provider call = lit "openai") then
         Err (http_status_error (lit "openai") (lit "429 Too Many Requests") (lit "slow down")
                (Some 3%N))
       else Ok (InferenceResponse_assistant (lit "hi"));
     env_subsec_nanos := λ _, 250000%N |}.
Definition demo_request : InferenceRequest :=
  rb_fallback_route (lit "claude") (lit "m") (InferenceRequest_builder (lit "gpt") (lit "big")).

Lemma calls_follow_policy_witness :
  extends (proper_action demo_client (route_requests demo_request)) []
    (@complete counting_json rational_f64 demo_client demo_env demo_request []).2 ∧
  extends (proper_action demo_client [demo_request]) []
    (@complete_streaming counting_json demo_client demo_env demo_request []).2.
Proof.
  exact (@calls_follow_policy counting_json rational_f64 demo_client demo_env rational_f64_laws
           demo_request []).
Defined.

Lemma complete_bounded_witness :
  (max_retries (cl_retry demo_client) < u32_modulus)%N ∧
  let '(r, s') := @complete counting_json rational_f64 demo_client demo_env demo_request [] in
  r ≠ Err OutOfFuel ∧ calls s' ≤ calls [] + 2 * 3 ∧
  (slept s' <= slept [] + 2 * 2 * from_secs 20)%N.
Proof.
  split; [vm_compute; reflexivity|].
  exact (@complete_bounded counting_json rational_f64 demo_client demo_env rational_f64_laws
           demo_request [] eq_refl).
Defined.

Lemma complete_first_answer_witness :
  let '(r, s') := @complete counting_json rational_f64 demo_client demo_env demo_request [] in
  @first_answer counting_json rational_f64 demo_client demo_env demo_request [] (route_requests demo_request) [] r s'.
Proof.
  exact (@complete_first_answer counting_json rational_f64 demo_client demo_env rational_f64_laws
           demo_request [] eq_refl).
Defined.

(** The primary route is called three times, then the fallback answers. *)
Example demo_run :
  let '(r, s') := @complete counting_json rational_f64 demo_client demo_env demo_request [] in
  is_ok r = true ∧ calls s' = 4 ∧ slept s' = from_secs 6.
Proof. vm_compute. done. Qed.

Definition proxy_builder : InferenceClient :=
  cb_provider_proxy (lit "claude") (lit "https://proxy") (CredApiKey (lit "p"))
    InferenceClient_builder.
Lemma presets_enforced_witness :
  ∃ route,
    resolve (client_build (cb_policy enterprise_cloud_proxy proxy_builder))
      (InferenceRequest_builder (lit "anthropic") (lit "m")) = Ok route ∧
    rt_base_url_source route = FromCloudProxy.
Proof.
  eexists. split; [vm_compute; reflexivity|].
  refine (proj1 (proj2 (proj1 (presets_enforced proxy_builder
    (InferenceRequest_builder (lit "anthropic") (lit "m")) _ (lit "enterprise_cloud_proxy")
    enterprise_cloud_proxy eq_refl _ _) _)));
    [reflexivity | vm_compute; reflexivity | reflexivity].
Defined.

Lemma alias_restrictions_hold_witness :
  ∃ reason, resolve demo_client (InferenceRequest_builder (lit "Anthropic") (lit "other")) =
            Err (PolicyDenied (lit "anthropic") reason).
Proof.
  refine (proj2 (alias_restrictions_hold
    (cb_policy (with_allowed_models (lit "claude") [lit "m"] allow_all)
      (cb_credential (lit "gpt") (CredApiKey (lit "k1"))
        (cb_credential (lit "claude") (CredApiKey (lit "k2")) InferenceClient_builder)))
    (InferenceRequest_builder (lit "Anthropic") (lit "other")) (lit "claude") {[lit "m"]} _ _)
    anthropic_profile _ _ _ _).
  - vm_compute. reflexivity.
  - cbn [cl_policy cb_policy with_allowed_models allowed_models allow_all].
    intros name' [v Hv]. apply lookup_insert_Some in Hv as [[<- _]|[_ Hv]]; [|done].
    intros _. vm_compute. discriminate.
  - vm_compute. reflexivity.
  - vm_compute. reflexivity.
  - eexists. vm_compute. reflexivity.
  - intros Hin%elem_of_singleton. vm_compute in Hin. discriminate.
Defined.

Lemma retry_after_roundtrip_witness :
  ce_retry_after_secs (classify_provider_error
    (http_status_error (lit "openai") (lit "429 Too Many Requests") (lit "slow") (Some 12%N))) =
  Some 12%N.
Proof.
  refine (proj1 (@retry_after_roundtrip rational_f64 (lit "openai") (lit "429 Too Many Requests")
    (lit "slow") 12 _ _ _)); [by apply avoids_forallb | done | vm_compute; reflexivity].
Defined.
