(* ===== verification/ProviderCatalog.v ===== *)
(** * Model catalogs ([codel00p-providers/src/model_catalog.rs], the policy filter of
    [policy.rs] and [list_model_catalog] of [client.rs])

    Listing the models of a provider: the URL, the policy checks, the request and
    the normalization of the reply.  The HTTP exchange with its decoding is a
    function of the URL and the credential. *)

From stdpp Require Import base numbers strings gmap list.
From S2P Require Import Prelude RustStr Json ProviderRequest ProviderPolicy ProviderClient.

(** ** Requests and catalogs *)

Record ModelCatalogRequest := {
  mcr_provider : str;
  mcr_base_url : option str;
  mcr_models_url : option str;
}.
Definition ModelCatalogRequest_builder (provider : str) : ModelCatalogRequest :=
  {| mcr_provider := provider; mcr_base_url := None; mcr_models_url := None |}.
Definition mcr_with_base_url (u : str) (r : ModelCatalogRequest) : ModelCatalogRequest :=
  {| mcr_provider := mcr_provider r; mcr_base_url := Some u; mcr_models_url := mcr_models_url r |}.
Definition mcr_with_models_url (u : str) (r : ModelCatalogRequest) : ModelCatalogRequest :=
  {| mcr_provider := mcr_provider r; mcr_base_url := mcr_base_url r; mcr_models_url := Some u |}.

Inductive ModelCatalogUrlSource := FromModelsUrl | FromBaseUrl | FromProviderDefault.

Record ProviderModelAnnotations := {
  an_registry : option str;
  an_html_url : option str;
  an_version : option str;
  an_rate_limit_tier : option str;
  an_tags : list str;
}.
Record ProviderModelLimits := {
  lim_max_input_tokens : option N;
  lim_max_output_tokens : option N;
}.
Record ProviderModel := {
  pm_id : str;
  pm_display_name : option str;
  pm_description : option str;
  pm_owned_by : option str;
  pm_capabilities : list str;
  pm_capability_flags : ProviderCapabilities;
  pm_input_modalities : list str;
  pm_output_modalities : list str;
  pm_annotations : ProviderModelAnnotations;
  pm_limits : ProviderModelLimits;
  pm_provider_data : gmap str Value;
}.

Record ProviderModelCatalogPolicy := {
  cp_allowed_models : option (list str);
  cp_allowed_auth_types : option (list AuthType);
  cp_allowed_credential_kinds : option (list CredentialKind);
  cp_allowed_credential_source_kinds : option (list CredentialSourceKind);
  cp_required_provider_capabilities : ProviderCapabilities;
  cp_required_capabilities : ProviderCapabilities;
}.
Definition catalog_policy (provider : str) (p : ProviderPolicy) : ProviderModelCatalogPolicy :=
  {| cp_allowed_models := btree_keys <$> (allowed_models p !! provider);
     cp_allowed_auth_types := btree_set auth_rank <$> (allowed_auth_types p !! provider);
     cp_allowed_credential_kinds :=
       btree_set kind_rank <$> (allowed_credential_kinds p !! provider);
     cp_allowed_credential_source_kinds :=
       btree_set source_rank <$> (allowed_credential_source_kinds p !! provider);
     cp_required_provider_capabilities :=
       default caps_default (required_provider_capabilities p !! provider);
     cp_required_capabilities :=
       default caps_default (required_model_capabilities p !! provider) |}.

Record ProviderModelCatalog := {
  mc_requested_provider : str;
  mc_provider : str;
  mc_auth_type : AuthType;
  mc_models_url : str;
  mc_models_url_source : ModelCatalogUrlSource;
  mc_credential_source : option str;
  mc_credential_source_kind : option CredentialSourceKind;
  mc_credential_kind : option CredentialKind;
  mc_policy_decision : ProviderPolicyDecision;
  mc_policy : ProviderModelCatalogPolicy;
  mc_catalog_model_count : nat;
  mc_returned_model_count : nat;
  mc_models : list ProviderModel;
}.

(** ** Normalizing the wire form *)

Record ModelCatalogWireModel := {
  wm_id : str;
  wm_name : option str;
  wm_display_name : option str;
  wm_description : option str;
  wm_summary : option str;
  wm_owned_by : option str;
  wm_publisher : option str;
  wm_registry : option str;
  wm_html_url : option str;
  wm_version : option str;
  wm_rate_limit_tier : option str;
  wm_tags : list str;
  wm_capabilities : list str;
  wm_limits : option Value;
  wm_supported_input_modalities : list str;
  wm_supported_output_modalities : list str;
  wm_extra : gmap str Value;
}.
Inductive ModelCatalogWireResponse :=
| OpenAiCompatible (data : list ModelCatalogWireModel)
| GitHubModels (models : list ModelCatalogWireModel).

Definition normalized_catalog_label (value : str) : str :=
  ascii_lower <$> List.filter is_ascii_alphanumeric value.
Definition has_catalog_label (labels candidates : list str) : bool :=
  existsb (λ label, existsb (λ c, bool_decide (label = c)) candidates) labels.
Definition model_capability_flags (capabilities input_modalities tags : list str)
    : ProviderCapabilities :=
  let labels := normalized_catalog_label <$> capabilities ++ tags in
  {| cap_tools := has_catalog_label labels
       [lit "tools"; lit "toolcalling"; lit "functioncalling"; lit "functioncalls";
        lit "functions"];
     cap_streaming := has_catalog_label labels [lit "streaming"; lit "stream"];
     cap_vision := has_catalog_label labels [lit "vision"; lit "multimodal"; lit "imageinput"] ||
       existsb (λ v, bool_decide (normalized_catalog_label v = lit "image")) input_modalities;
     cap_reasoning := has_catalog_label labels [lit "reasoning"; lit "thinking"] |}.

Definition value_u64 (v : option Value) : option N :=
  match v with
  | Some (VNumber (PosInt n)) => Some n
  | Some (VString s) => parse_u64 s
  | _ => None
  end.
Definition object_u64 (object : option Value) (key : str) : option N :=
  o ← object; v ← get key o; value_u64 (Some v).
Definition limits_from_catalog_values (limits context_length : option Value)
    : ProviderModelLimits :=
  {| lim_max_input_tokens :=
       match object_u64 limits (lit "max_input_tokens") with
       | Some n => Some n
       | None => value_u64 context_length
       end;
     lim_max_output_tokens := object_u64 limits (lit "max_output_tokens") |}.
Definition string_values (values : list str) : Value := VArray (VString <$> values).

(** Keys added to the provider data when present. *)
Definition insert_opt (k : str) (v : option Value) (m : gmap str Value) : gmap str Value :=
  match v with Some v => <[k := v]> m | None => m end.
Definition insert_values (k : str) (l : list str) (m : gmap str Value) : gmap str Value :=
  if is_empty l then m else <[k := string_values l]> m.
Definition opt_or {A} (a b : option A) : option A := match a with Some x => Some x | None => b end.

Definition into_model (w : ModelCatalogWireModel) : ProviderModel :=
  let data := wm_extra w in
  let limits := limits_from_catalog_values (wm_limits w) (data !! lit "context_length") in
  let data := insert_opt (lit "publisher") (VString <$> wm_publisher w) data in
  let data := insert_opt (lit "description") (VString <$> wm_description w) data in
  let data := insert_opt (lit "summary") (VString <$> wm_summary w) data in
  let data := insert_opt (lit "registry") (VString <$> wm_registry w) data in
  let data := insert_opt (lit "html_url") (VString <$> wm_html_url w) data in
  let data := insert_opt (lit "version") (VString <$> wm_version w) data in
  let data := insert_opt (lit "rate_limit_tier") (VString <$> wm_rate_limit_tier w) data in
  let data := insert_values (lit "tags") (wm_tags w) data in
  let data := insert_values (lit "capabilities") (wm_capabilities w) data in
  let data := insert_opt (lit "limits") (wm_limits w) data in
  let data := insert_values (lit "supported_input_modalities")
                (wm_supported_input_modalities w) data in
  let data := insert_values (lit "supported_output_modalities")
                (wm_supported_output_modalities w) data in
  {| pm_id := wm_id w; pm_display_name := opt_or (wm_display_name w) (wm_name w);
     pm_description := opt_or (wm_description w) (wm_summary w);
     pm_owned_by := opt_or (wm_owned_by w) (wm_publisher w);
     pm_capabilities := wm_capabilities w;
     pm_capability_flags := model_capability_flags (wm_capabilities w)
       (wm_supported_input_modalities w) (wm_tags w);
     pm_input_modalities := wm_supported_input_modalities w;
     pm_output_modalities := wm_supported_output_modalities w;
     pm_annotations := {| an_registry := wm_registry w; an_html_url := wm_html_url w;
       an_version := wm_version w; an_rate_limit_tier := wm_rate_limit_tier w;
       an_tags := wm_tags w |};
     pm_limits := limits; pm_provider_data := data |}.
Definition into_models (r : ModelCatalogWireResponse) : list ProviderModel :=
  into_model <$> match r with OpenAiCompatible data => data | GitHubModels models => models end.

(** ** The policy filter *)

Definition filter_models (provider : str) (models : list ProviderModel) (p : ProviderPolicy)
    : list ProviderModel :=
  let models := match allowed_models p !! provider with
                | Some allowed => filter (λ m, pm_id m ∈ allowed) models
                | None => models
                end in
  match required_model_capabilities p !! provider with
  | Some required => List.filter (λ m, capabilities_satisfy (pm_capability_flags m) required) models
  | None => models
  end.

(** ** Listing *)

(** What the HTTP exchange yields. *)
Inductive catalog_reply :=
| SendFailed (message : str)
| FailureStatus (status body : str)
| Undecodable (message : str)
| Decoded (wire : ModelCatalogWireResponse).

Definition slash : char := 47%N.
Definition catalog_url (request : ModelCatalogRequest) (profile : ProviderProfile)
    : option (str * ModelCatalogUrlSource) :=
  match mcr_models_url request with
  | Some url => Some (url, FromModelsUrl)
  | None =>
      match mcr_base_url request with
      | Some base => Some (trim_end_matches (N.eqb slash) base ++ lit "/models", FromBaseUrl)
      | None => (λ url, (url, FromProviderDefault)) <$> pf_models_url profile
      end
  end.

Section listing.
Context (c : InferenceClient) (send : str → Credential → catalog_reply).

Definition decode_reply (provider : str) (r : catalog_reply)
    : result ProviderError ModelCatalogWireResponse :=
  match r with
  | SendFailed message => Err (Http provider message)
  | FailureStatus status body => Err (Http provider (lit "status " ++ status ++ lit ": " ++ body))
  | Undecodable message => Err (InvalidResponse provider message)
  | Decoded wire => Ok wire
  end.

(** The profile, the URL and the credential of a listing: everything that happens
    before a request is sent. *)
Definition catalog_route (request : ModelCatalogRequest)
    : result ProviderError
        (ProviderProfile * (str * ModelCatalogUrlSource) * ResolvedProviderCredential) :=
  let? profile := ok_or (UnknownProvider (mcr_provider request))
                    (registry_resolve (mcr_provider request) (cl_registry c)) in
  let id := pf_id profile in
  let? _ := check_provider id (cl_policy c) in
  let? _ := check_provider_capabilities id (pf_capabilities profile) (cl_policy c) in
  let? _ := check_auth_type id (pf_auth_type profile) (cl_policy c) in
  let? url := ok_or (MissingBaseUrl id) (catalog_url request profile) in
  let? credential := ok_or (MissingCredential id) (cl_credentials c !! id) in
  let? _ := check_credential_kind id (Some (credential_kind (rc_credential credential)))
              (cl_policy c) in
  let? _ := check_credential_source_kind id (Some (rc_source_kind credential)) (cl_policy c) in
  Ok (profile, url, credential).

(** Sending the request: the URL comes with a bearer token or no authorization. *)
Definition fetch_catalog (provider url : str) (credential : Credential)
    : result ProviderError ModelCatalogWireResponse :=
  match credential with
  | CredAwsSigV4 _ _ _ _ =>
      Err (InvalidResponse provider
             (lit "model catalog listing does not support AWS SigV4 credentials yet"))
  | _ => decode_reply provider (send url credential)
  end.

Definition list_model_catalog (request : ModelCatalogRequest)
    : result ProviderError ProviderModelCatalog :=
  let? route := catalog_route request in
  let '(profile, url, credential) := route in
  let id := pf_id profile in
  let? wire := fetch_catalog id url.1 (rc_credential credential) in
  let raw_models := into_models wire in
  let models := filter_models id raw_models (cl_policy c) in
  Ok {| mc_requested_provider := mcr_provider request; mc_provider := id;
        mc_auth_type := pf_auth_type profile; mc_models_url := url.1;
        mc_models_url_source := url.2; mc_credential_source := Some (rc_source credential);
        mc_credential_source_kind := Some (rc_source_kind credential);
        mc_credential_kind := Some (credential_kind (rc_credential credential));
        mc_policy_decision := PolicyAllowed; mc_policy := catalog_policy id (cl_policy c);
        mc_catalog_model_count := length raw_models;
        mc_returned_model_count := length models; mc_models := models |}.

Definition list_models (request : ModelCatalogRequest) : result ProviderError (list ProviderModel) :=
  let? catalog := list_model_catalog request in Ok (mc_models catalog).

End listing.

(** ** What a catalog may contain *)

(** A model a policy lets through for a provider. *)
Definition model_permitted (p : ProviderPolicy) (provider : str) (m : ProviderModel) : Prop :=
  (∀ allowed, allowed_models p !! provider = Some allowed → pm_id m ∈ allowed) ∧
  (∀ required, required_model_capabilities p !! provider = Some required →
     capabilities_satisfy (pm_capability_flags m) required = true).

Lemma filter_models_sublist provider models p :
  filter_models provider models p `sublist_of` models.
Proof.
  unfold filter_models.
  destruct (required_model_capabilities p !! provider);
    (etrans; [first [apply list_filter_sublist | reflexivity]|]);
    (destruct (allowed_models p !! provider); [apply sublist_filter | done]).
Qed.

Lemma elem_of_filter_models provider models p m :
  m ∈ filter_models provider models p ↔ m ∈ models ∧ model_permitted p provider m.
Proof.
  unfold filter_models, model_permitted.
  destruct (required_model_capabilities p !! provider), (allowed_models p !! provider);
    rewrite ?elem_of_list_filter_bool, ?list_elem_of_filter; naive_solver.
Qed.

Ltac bind_ok :=
  repeat match goal with
  | |- context [result_bind _ ?m] => destruct m as [?|] eqn:?; cbn [result_bind]; [|done]
  end.

(** A listing is sent only for a provider and a credential the policy admits. *)
Definition listing_admitted (c : InferenceClient) (profile : ProviderProfile)
    (credential : ResolvedProviderCredential) : Prop :=
  cl_credentials c !! pf_id profile = Some credential ∧
  check_provider (pf_id profile) (cl_policy c) = Ok tt ∧
  check_provider_capabilities (pf_id profile) (pf_capabilities profile) (cl_policy c) = Ok tt ∧
  check_auth_type (pf_id profile) (pf_auth_type profile) (cl_policy c) = Ok tt ∧
  check_credential_kind (pf_id profile) (Some (credential_kind (rc_credential credential)))
    (cl_policy c) = Ok tt ∧
  check_credential_source_kind (pf_id profile) (Some (rc_source_kind credential))
    (cl_policy c) = Ok tt.

Lemma catalog_route_Ok c request profile url credential :
  catalog_route c request = Ok (profile, url, credential) →
  registry_resolve (mcr_provider request) (cl_registry c) = Some profile ∧
  listing_admitted c profile credential.
Proof.
  unfold catalog_route, listing_admitted, ok_or. bind_ok. intros [= -> -> ->].
  repeat case_match; simplify_eq;
    by repeat match goal with u : () |- _ => destruct u end.
Qed.

Lemma fetch_not_denied send provider url credential p r :
  fetch_catalog send provider url credential ≠ Err (PolicyDenied p r).
Proof.
  unfold fetch_catalog, decode_reply.
  destruct credential; [destruct (send _ _)| |destruct (send _ _)]; congruence.
Qed.

(** A model catalog shows exactly what the policy permits: a listing is sent only
    for a provider, an authentication type and a credential the policy admits; its
    models are those of the reply that the policy permits, in the order of the
    reply, with true counts; and a refusal by the policy does not depend on the
    network. *)
Theorem catalog_respects_policy (c : InferenceClient) (send : str → Credential → catalog_reply)
    (request : ModelCatalogRequest) :
  (∀ catalog, list_model_catalog c send request = Ok catalog →
     ∃ profile credential wire,
       mc_provider catalog = pf_id profile ∧ listing_admitted c profile credential ∧
       send (mc_models_url catalog) (rc_credential credential) = Decoded wire ∧
       mc_models catalog `sublist_of` into_models wire ∧
       (∀ m, m ∈ mc_models catalog ↔
          m ∈ into_models wire ∧ model_permitted (cl_policy c) (mc_provider catalog) m) ∧
       mc_catalog_model_count catalog = length (into_models wire) ∧
       mc_returned_model_count catalog = length (mc_models catalog)) ∧
  (∀ provider reason, list_model_catalog c send request = Err (PolicyDenied provider reason) →
     ∀ send', list_model_catalog c send' request = Err (PolicyDenied provider reason)).
Proof.
  unfold list_model_catalog.
  destruct (catalog_route c request) as [[[profile url] credential]|e] eqn:Er; cbn [result_bind].
  - apply catalog_route_Ok in Er as [_ Ha]. split.
    + intros catalog.
      destruct (fetch_catalog _ _ _ _) as [wire|] eqn:Ef; cbn [result_bind]; [|done].
      intros [= <-]. exists profile, credential, wire. split_and!; try done.
      * unfold fetch_catalog, decode_reply in Ef.
        destruct (rc_credential credential); [|done|]; destruct (send _ _) eqn:Es; naive_solver.
      * apply filter_models_sublist.
      * intros m. apply elem_of_filter_models.
    + intros provider reason. destruct (fetch_catalog _ _ _ _) as [wire|e] eqn:Ef;
        cbn [result_bind]; [done|]. intros [= ->]. by destruct (fetch_not_denied _ _ _ _ _ _ Ef).
  - split; [done|]. by intros provider reason [= ->].
Qed.
