(* ===== verification/Sse.v ===== *)
(** * Server-sent events ([codel00p-providers/src/transports/sse.rs])

    The response body arrives as byte chunks; each chunk is decoded on its own and
    appended to a line buffer, whose complete lines are handed to a callback. *)

From stdpp Require Import base numbers strings gmap list.
From S2P Require Import Prelude RustStr Utf8 Json ProviderRequest ProviderPolicy ProviderClient.


(** ** Lines *)

Definition parse_sse_data_line (line : str) : option str :=
  payload ← strip_prefix (lit "data:") line;
  let payload := trim payload in
  if is_empty payload then None else Some payload.
Definition done_marker : str := lit "[DONE]".

(** A successful response is its chunks, an error of the connection among them. *)
Inductive sse_response :=
| SseFailure (status body : str) (retry_after : option N)
| SseStream (chunks : list (result str (list byte))).

Section stream.
Context {X : Type} (provider : str) (on_data : str → X → result ProviderError bool * X).

(** One line: [Some r] ends the stream with [r]. *)
Definition on_line (line : str) (x : X) : option (result ProviderError unit) * X :=
  match parse_sse_data_line (trim_end line) with
  | None => (None, x)
  | Some data =>
      if decide (data = done_marker) then (Some (Ok tt), x)
      else match on_data data x with
           | (Ok true, x) => (Some (Ok tt), x)
           | (Ok false, x) => (None, x)
           | (Err e, x) => (Some (Err e), x)
           end
  end.

(** [buffer.drain(..=newline)]: the first line with its newline, and the rest. *)
Definition drain_line (buffer : str) : option (str * str) :=
  '(line, rest) ← split_once newline buffer; Some (line ++ [newline], rest).

Fixpoint drain_lines (fuel : nat) (buffer : str) (x : X)
    : option (result ProviderError unit) * str * X :=
  match fuel with
  | 0 => (None, buffer, x)
  | S fuel =>
      match drain_line buffer with
      | None => (None, buffer, x)
      | Some (line, rest) =>
          match on_line line x with
          | (Some r, x) => (Some r, rest, x)
          | (None, x) => drain_lines fuel rest x
          end
      end
  end.

(** The loop over the chunks; every line takes a character, so the length of the
    buffer is enough fuel. *)
Fixpoint read_chunks (chunks : list (result str (list byte))) (buffer : str) (x : X)
    : result ProviderError unit * X :=
  match chunks with
  | Err message :: _ => (Err (Http provider message), x)
  | Ok chunk :: chunks =>
      let buffer := buffer ++ from_utf8_lossy chunk in
      match drain_lines (length buffer) buffer x with
      | (Some r, _, x) => (r, x)
      | (None, buffer, x) => read_chunks chunks buffer x
      end
  | [] =>
      match parse_sse_data_line (trim_end buffer) with
      | Some data =>
          if decide (data = done_marker) then (Ok tt, x)
          else match on_data data x with
               | (Ok _, x) => (Ok tt, x)
               | (Err e, x) => (Err e, x)
               end
      | None => (Ok tt, x)
      end
  end.

Definition stream_sse (response : sse_response) (x : X) : result ProviderError unit * X :=
  match response with
  | SseFailure status body retry_after =>
      (Err (http_status_error provider status body retry_after), x)
  | SseStream chunks => read_chunks chunks [] x
  end.

(** ** Reference: the payloads of the whole text, delivered in order *)

(** The payloads of the lines of a text, up to the end marker. *)
Fixpoint until_done (l : list str) : list str :=
  match l with
  | [] => []
  | d :: l => if decide (d = done_marker) then [] else d :: until_done l
  end.
Definition payloads (text : str) : list str :=
  until_done (omap (λ line, parse_sse_data_line (trim_end line))
                (split_by (λ c, (c =? newline)%N) text)).

Fixpoint deliver (l : list str) (x : X) : result ProviderError unit * X :=
  match l with
  | [] => (Ok tt, x)
  | d :: l =>
      match on_data d x with
      | (Ok true, x) => (Ok tt, x)
      | (Ok false, x) => deliver l x
      | (Err e, x) => (Err e, x)
      end
  end.

End stream.

(** ** The stream is the reference *)

Abbreviation is_nl := (λ c, (c =? newline)%N).

Section chunking.
Context {X : Type} (provider : str) (on_data : str → X → result ProviderError bool * X).

Definition deliver_lines (ls : list str) (x : X) : result ProviderError unit * X :=
  deliver on_data (until_done (omap (λ line, parse_sse_data_line (trim_end line)) ls)) x.

Lemma trim_end_nl l : trim_end (l ++ [newline]) = trim_end l.
Proof. unfold trim_end, trim_end_matches. by rewrite reverse_snoc. Qed.

Lemma on_line_nl l x : on_line on_data (l ++ [newline]) x = on_line on_data l x.
Proof. unfold on_line. by rewrite trim_end_nl. Qed.

Lemma deliver_lines_cons l ls x :
  deliver_lines (l :: ls) x =
  match on_line on_data l x with
  | (Some r, x) => (r, x)
  | (None, x) => deliver_lines ls x
  end.
Proof.
  unfold deliver_lines, on_line. cbn [omap list_omap].
  destruct (parse_sse_data_line _) as [d|]; [|done]. cbn [until_done].
  destruct (decide (d = done_marker)); [done|]. cbn [deliver].
  by destruct (on_data d x) as [[[]|] x'].
Qed.

Lemma drain_line_Some buffer line rest :
  drain_line buffer = Some (line, rest) →
  ∃ l, line = l ++ [newline] ∧ buffer = l ++ newline :: rest ∧ avoids is_nl l.
Proof.
  unfold drain_line, split_once.
  destruct (split_at_first _ buffer) as [[a b]|] eqn:E; cbn; [|done]. intros [= <- <-].
  apply split_at_first_Some in E as (-> & Ha & x & b' & -> & Hx%N.eqb_eq). subst x.
  by exists a.
Qed.
Lemma drain_line_None buffer : drain_line buffer = None → avoids is_nl buffer.
Proof.
  unfold drain_line, split_once.
  destruct (split_at_first _ buffer) as [[a b]|] eqn:E; cbn; [done|]. intros _.
  revert E. induction buffer as [|c b IH]; cbn; [by intros _ c Hc%elem_of_nil|].
  destruct (c =? newline)%N eqn:Ec; [done|].
  destruct (split_at_first _ b) as [[]|]; cbn; [done|]. intros _.
  intros d [->|Hd]%elem_of_cons; [done | by apply IH].
Qed.

Lemma drain_lines_spec fuel buffer x more :
  length buffer ≤ fuel →
  let '(o, rest, x') := drain_lines on_data fuel buffer x in
  deliver_lines (split_by is_nl (buffer ++ more)) x =
    match o with
    | Some r => (r, x')
    | None => deliver_lines (split_by is_nl (rest ++ more)) x'
    end ∧ (o = None → avoids is_nl rest).
Proof.
  revert buffer x. induction fuel as [|fuel IH]; intros buffer x Hf; cbn [drain_lines].
  { destruct buffer; [|cbn in Hf; lia]. split; [done|]. by intros _ c Hc%elem_of_nil. }
  destruct (drain_line buffer) as [[line rest]|] eqn:Ed.
  - apply drain_line_Some in Ed as (l & -> & -> & Hl). rewrite length_app in Hf; cbn in Hf.
    rewrite <- app_assoc; cbn [app]. rewrite split_by_avoids by done.
    rewrite deliver_lines_cons, on_line_nl. destruct (on_line on_data l x) as [[r|] x1]; [done|].
    apply IH. lia.
  - split; [done|]. intros _. by apply drain_line_None.
Qed.

Lemma stream_sse_deliver (parts : list str) (x : X)
    (Hscalar : Forall (Forall (λ c, is_scalar c = true)) parts) :
  stream_sse provider on_data (SseStream ((λ part, Ok (utf8 part)) <$> parts)) x =
  deliver on_data (payloads (concat parts)) x.
Proof.
  cbn [stream_sse]. change (payloads (concat parts)) with
    (until_done (omap (λ line, parse_sse_data_line (trim_end line))
      (split_by is_nl ([] ++ concat parts)))).
  assert (avoids is_nl []) as Hb by by intros c Hc%elem_of_nil.
  revert Hb. generalize (@nil char) as buffer. revert x.
  induction Hscalar as [|part parts Hp Hps IH]; intros x buffer Hb; cbn [fmap list_fmap read_chunks].
  - rewrite app_nil_r, split_by_single by done. fold (deliver_lines [buffer] x).
    rewrite deliver_lines_cons. unfold on_line.
    destruct (parse_sse_data_line _) as [d|]; [|done].
    destruct (decide (d = done_marker)); [done|].
    by destruct (on_data d x) as [[[]|] x'].
  - rewrite lossy_utf8 by done. cbn [concat]. rewrite app_assoc.
    fold (deliver_lines (split_by is_nl ((buffer ++ part) ++ concat parts)) x).
    pose proof (drain_lines_spec (length (buffer ++ part)) (buffer ++ part) x (concat parts)
      ltac:(lia)) as Hd.
    destruct (drain_lines _ _ _ _) as [[[r|] rest] x']; destruct Hd as [-> Hr]; [done|].
    apply IH. by apply Hr.
Qed.

(** Streaming does not depend on how the text is cut: when the chunks are the
    encodings of any pieces of a text, the callback receives exactly the payloads of
    the text's [data:] lines, in order, up to the end marker or the callback's
    own stop or error, and the stream returns what the callback's last answer
    means; an unterminated last line counts as a line. *)
Theorem sse_chunking_irrelevant (parts : list str) (x : X)
    (Hscalar : Forall (Forall (λ c, is_scalar c = true)) parts) :
  stream_sse provider on_data (SseStream ((λ part, Ok (utf8 part)) <$> parts)) x =
  deliver on_data (payloads (concat parts)) x.
Proof. by apply stream_sse_deliver. Qed.

End chunking.

Lemma sse_chunking_irrelevant_witness :
  stream_sse (lit "p") (λ d x, (Ok false, x ++ [d]))
    (SseStream [Ok (utf8 (lit "data: he")); Ok (utf8 (lit "llo" ++ [newline]));
                Ok (utf8 (lit "data: [DONE]"))]) [] = (Ok tt, [lit "hello"]).
Proof.
  etrans; [apply (sse_chunking_irrelevant (lit "p") (λ d x, (Ok false, x ++ [d]))
    [lit "data: he"; lit "llo" ++ [newline]; lit "data: [DONE]"] []);
    repeat (constructor; try reflexivity) | vm_compute; reflexivity].
Defined.

(** A character cut by a chunk boundary is lost: each chunk is decoded on its own,
    so when the two bytes of a character arrive in different chunks the callback
    receives two replacement characters in its place, although the bytes received
    are the encoding of the text. *)
Theorem sse_cuts_characters :
  let text := lit "data: " ++ [233%N] ++ [newline] in
  let collect d x : result ProviderError bool * list str := (Ok false, x ++ [d]) in
  let bytes := utf8 text in
  take 7 bytes ++ drop 7 bytes = bytes ∧
  stream_sse (lit "p") collect (SseStream [Ok bytes]) [] = (Ok tt, [[233%N]]) ∧
  stream_sse (lit "p") collect (SseStream [Ok (take 7 bytes); Ok (drop 7 bytes)]) [] =
    (Ok tt, [[replacement; replacement]]).
Proof. vm_compute. done. Qed.
