(* ===== verification/Harness.v ===== *)
(** * Harness data ([codel00p-protocol]: tools, session, permissions, events,
    context; [codel00p-harness]: errors, session, tool results)

    The records and enumerations the agent loop works on, with their methods. *)

From stdpp Require Import base numbers strings gmap list.
From S2P Require Import Prelude RustStr Json Protocol.

(** ** Errors ([errors.rs]); standard and library errors by their text. *)

Inductive HarnessError :=
| Configuration (message : str)
| WorkspaceEscape (path : str)
| InvalidWorkspacePath (path : str)
| ToolNotFound (name : str)
| InvalidToolInput (name message : str)
| ToolFailed (name message : str)
| InferenceFailed (message : str)
| IterationLimit (limit : N)
| Io (text : str)
| JsonErr (text : str).

Definition arrow : char := 8594%N.
Definition dash : char := 8212%N.

Definition error_to_string (e : HarnessError) : str :=
  match e with
  | Configuration message => lit "invalid harness configuration: " ++ message
  | WorkspaceEscape path => lit "workspace path escapes the configured root: " ++ path
  | InvalidWorkspacePath path => lit "workspace path is invalid: " ++ path
  | ToolNotFound name => lit "tool not found: " ++ name
  | InvalidToolInput name message =>
      lit "invalid input for tool " ++ name ++ lit ": " ++ message
  | ToolFailed name message => lit "tool failed: " ++ name ++ lit ": " ++ message
  | InferenceFailed message => lit "inference failed: " ++ message
  | IterationLimit limit =>
      lit "reached the " ++ show_N limit ++ lit "-step iteration limit before finishing " ++ [dash] ++
      lit " the task needed more steps than allowed. Raise it with `--max-iterations`, " ++
      lit "`agent.max_iterations`, or Settings " ++ [arrow] ++
      lit " Advanced, or break the task into smaller steps."
  | Io text => lit "io error: " ++ text
  | JsonErr text => lit "json error: " ++ text
  end.

(** ** Tool calls and results *)

Record ToolCall := { call_id : str; call_name : str; call_input : Value }.

Record ToolResultProgress := { progress_phase : str; progress_message : option str }.
Record ToolResult := { result_content : Value; result_progress : list ToolResultProgress }.
Definition ToolResult_json (content : Value) : ToolResult :=
  {| result_content := content; result_progress := [] |}.
Definition with_progress (phase : str) (message : option str) (r : ToolResult) : ToolResult :=
  {| result_content := result_content r;
     result_progress := result_progress r ++ [{| progress_phase := phase;
                                                 progress_message := message |}] |}.

Record ExecutedToolCall := {
  exec_id : str;
  exec_name : str;
  exec_input : Value;
  exec_result : ToolResult;
}.

(** ** Session messages *)

Inductive SessionRole := RSystem | RUser | RAssistant | RTool.
#[export] Instance SessionRole_eq_dec : EqDecision SessionRole.
Proof. solve_decision. Defined.

(** [{:?}] of a role. *)
Definition role_debug (r : SessionRole) : str :=
  match r with
  | RSystem => lit "System" | RUser => lit "User" | RAssistant => lit "Assistant"
  | RTool => lit "Tool"
  end.

Record SessionMessage := {
  msg_role : SessionRole;
  msg_content : str;
  msg_tool_call_id : option str;
  msg_tool_name : option str;
  msg_payload : option Value;
  msg_tool_calls : list ToolCall;
}.
Definition msg_text (role : SessionRole) (content : str) : SessionMessage :=
  {| msg_role := role; msg_content := content; msg_tool_call_id := None; msg_tool_name := None;
     msg_payload := None; msg_tool_calls := [] |}.
Definition msg_system (content : str) : SessionMessage := msg_text RSystem content.
Definition msg_user (content : str) : SessionMessage := msg_text RUser content.
Definition msg_assistant (content : str) : SessionMessage := msg_text RAssistant content.
Definition msg_assistant_tool_calls (tool_calls : list ToolCall) : SessionMessage :=
  {| msg_role := RAssistant; msg_content := []; msg_tool_call_id := None; msg_tool_name := None;
     msg_payload := None; msg_tool_calls := tool_calls |}.
Definition tool_result_parts (tool_call_id tool_name content : str) (payload : option Value)
    : SessionMessage :=
  {| msg_role := RTool; msg_content := content; msg_tool_call_id := Some tool_call_id;
     msg_tool_name := Some tool_name; msg_payload := payload; msg_tool_calls := [] |}.
Definition msg_tool_result (tool_call_id tool_name content : str) : SessionMessage :=
  tool_result_parts tool_call_id tool_name content None.

(** ** Session state ([codel00p-harness/src/session.rs]) *)

Record SessionState := { session_id : SessionId; messages : list SessionMessage }.
Definition SessionState_new (id : SessionId) : SessionState :=
  {| session_id := id; messages := [] |}.
Definition push_message (m : SessionMessage) (s : SessionState) : SessionState :=
  {| session_id := session_id s; messages := messages s ++ [m] |}.
Definition push_user (content : str) : SessionState → SessionState :=
  push_message (msg_user content).
Definition push_assistant (content : str) : SessionState → SessionState :=
  push_message (msg_assistant content).
Definition push_assistant_tool_calls (tool_calls : list ToolCall) : SessionState → SessionState :=
  push_message (msg_assistant_tool_calls tool_calls).
Definition push_tool_result (call_id name content : str) : SessionState → SessionState :=
  push_message (msg_tool_result call_id name content).

Record SessionCompactionRecord := {
  before_message_count : nat;
  after_message_count : nat;
  compaction_summary : str;
}.
Definition compact_with_summary (summary : str) (keep_recent_messages : nat) (s : SessionState)
    : SessionCompactionRecord * SessionState :=
  let before := length (messages s) in
  let keep := Nat.min keep_recent_messages before in
  let retained_start := before - keep in
  let retained := drop retained_start (messages s) in
  let msgs := msg_system (lit "Session summary:" ++ [newline] ++ summary) :: retained in
  ({| before_message_count := before; after_message_count := length msgs;
      compaction_summary := summary |},
   {| session_id := session_id s; messages := msgs |}).

(** ** Permissions *)

Inductive PermissionScope :=
| ReadOnly | WorkspaceWrite | Shell | ScopeNetwork | ExternalConnector | MemoryWrite.
Inductive PermissionMode := ModeAllow | ModeAsk | ModeDeny.
Inductive PermissionStatus := StatusAllow | StatusDeny.

Record PermissionRequest := {
  request_id : str;
  request_session_id : SessionId;
  request_turn_id : TurnId;
  request_tool_name : str;
  request_input : Value;
  request_scope : PermissionScope;
  request_reason : option str;
}.
Definition PermissionRequest_new (id : str) (session : SessionId) (turn : TurnId)
    (tool_name : str) (input : Value) (scope : PermissionScope) : PermissionRequest :=
  {| request_id := id; request_session_id := session; request_turn_id := turn;
     request_tool_name := tool_name; request_input := input; request_scope := scope;
     request_reason := None |}.

Record PermissionDecision := {
  decision_request_id : str;
  decision_mode : PermissionMode;
  decision_status : PermissionStatus;
  decision_message : option str;
}.
Definition decision_allow (id : str) (mode : PermissionMode) : PermissionDecision :=
  {| decision_request_id := id; decision_mode := mode; decision_status := StatusAllow;
     decision_message := None |}.
Definition decision_deny (id : str) (mode : PermissionMode) (message : str) : PermissionDecision :=
  {| decision_request_id := id; decision_mode := mode; decision_status := StatusDeny;
     decision_message := Some message |}.
Definition allows_execution (d : PermissionDecision) : bool :=
  match decision_status d with StatusAllow => true | StatusDeny => false end.

(** ** Usage and cost ([events.rs]): saturating [u64] counters *)

Record TokenUsage := {
  input_tokens : N;
  output_tokens : N;
  cache_read_tokens : N;
  cache_write_tokens : N;
  reasoning_tokens : N;
}.
Definition TokenUsage_default : TokenUsage :=
  {| input_tokens := 0; output_tokens := 0; cache_read_tokens := 0; cache_write_tokens := 0;
     reasoning_tokens := 0 |}.
Definition prompt_tokens (u : TokenUsage) : N :=
  u64_saturating_add (u64_saturating_add (input_tokens u) (cache_read_tokens u))
    (cache_write_tokens u).
Definition completion_tokens (u : TokenUsage) : N :=
  u64_saturating_add (output_tokens u) (reasoning_tokens u).
Definition total_tokens (u : TokenUsage) : N :=
  u64_saturating_add (prompt_tokens u) (completion_tokens u).
Definition usage_add (u other : TokenUsage) : TokenUsage :=
  {| input_tokens := u64_saturating_add (input_tokens u) (input_tokens other);
     output_tokens := u64_saturating_add (output_tokens u) (output_tokens other);
     cache_read_tokens := u64_saturating_add (cache_read_tokens u) (cache_read_tokens other);
     cache_write_tokens := u64_saturating_add (cache_write_tokens u) (cache_write_tokens other);
     reasoning_tokens := u64_saturating_add (reasoning_tokens u) (reasoning_tokens other) |}.

Record CostEstimate := { currency : str; total_nanos : N }.
Definition CostEstimate_default : CostEstimate := {| currency := []; total_nanos := 0 |}.
Definition cost_add (c other : CostEstimate) : CostEstimate :=
  {| currency := if is_empty (currency c) then currency other else currency c;
     total_nanos := u64_saturating_add (total_nanos c) (total_nanos other) |}.

(** ** Context windows ([context.rs]) *)

Record ContextWindowState := {
  cw_model : str;
  context_limit_tokens : N;
  used_tokens : N;
  warning_threshold_tokens : option N;
  blocking_threshold_tokens : option N;
}.
Definition is_at_blocking_limit (w : ContextWindowState) : bool :=
  default false ((λ threshold, (threshold <=? used_tokens w)%N) <$> blocking_threshold_tokens w).

(** ** Agent events: all but the first carry their id, the session and the turn. *)

Inductive turn_event :=
| TurnStarted
| ContextBuilt (message_count : nat)
| ContextManifest (instruction_sources injected_memory_ids advertised_tools skill_names : list str)
    (message_count : nat) (content_hash : str)
| ContextCompacted (before_count after_count : nat) (summary : option str)
| InferenceRequested (provider model : str)
| InferenceCompleted (finish_reason : option str) (usage : option TokenUsage)
    (cost : option CostEstimate)
| ToolCallArgsDelta (index : nat) (id name : option str) (args_fragment : str)
| ToolCallRequested (tool_name : str)
| ToolCallCompleted (tool_name : str)
| ToolCallFailed (tool_name message : str)
| PermissionRequested (tool_name request_id : str) (scope : PermissionScope)
| PermissionDenied (tool_name request_id message : str)
| ToolProgress (tool_name phase : str) (message : option str)
| LifecycleHookFailed (hook message : str)
| VerificationCompleted (check command : str) (success : bool) (exit_code : option Z)
    (attempt : N)
| SelfCritiqueCompleted (produced_tool_calls : bool)
| FailureBudgetExceeded (operation : str) (attempts : N) (error_kind : str)
| TurnCompleted (iterations : N) (usage : option TokenUsage) (cost : option CostEstimate)
    (verified : option bool).

Inductive AgentEvent :=
| SessionStarted (event_id : EventId) (session_id : SessionId)
| TurnEvent (event_id : EventId) (session_id : SessionId) (turn_id : TurnId) (event : turn_event).

(** The digest is a library function. *)
Class Sha256 := { sha256_hex : str → str }.

(** A header and its values, a newline before each value. *)
Definition manifest_section (header : str) (values : list str) : str :=
  header ++ concat ((λ s, newline :: s) <$> values).
Definition compute_manifest_hash `{Sha256}
    (instruction_sources injected_memory_ids advertised_tools skill_names : list str)
    (message_count : nat) : str :=
  sha256_hex (
    manifest_section (lit "instruction_sources:") instruction_sources ++
    manifest_section (newline :: lit "injected_memory_ids:") injected_memory_ids ++
    manifest_section (newline :: lit "advertised_tools:") advertised_tools ++
    manifest_section (newline :: lit "skill_names:") skill_names ++
    manifest_section (newline :: lit "message_count:") [show_N (N.of_nat message_count)]).

Definition context_manifest `{Sha256}
    (instruction_sources injected_memory_ids advertised_tools skill_names : list str)
    (message_count : nat) : turn_event :=
  let injected_memory_ids := sort_by str_cmp injected_memory_ids in
  let advertised_tools := sort_by str_cmp advertised_tools in
  let skill_names := sort_by str_cmp skill_names in
  ContextManifest instruction_sources injected_memory_ids advertised_tools skill_names
    message_count
    (compute_manifest_hash instruction_sources injected_memory_ids advertised_tools skill_names
       message_count).

(** ** Lemmas *)

Lemma messages_push m s : messages (push_message m s) = messages s ++ [m].
Proof. done. Qed.

Lemma compact_length summary keep s :
  length (messages (compact_with_summary summary keep s).2) =
  S (Nat.min keep (length (messages s))).
Proof. cbn. rewrite length_drop. lia. Qed.

(** Saturating addition is a monoid on [u64], so totals do not depend on grouping. *)
Lemma u64_saturating_add_assoc a b c :
  (a < u64_modulus → c < u64_modulus →
   u64_saturating_add (u64_saturating_add a b) c = u64_saturating_add a (u64_saturating_add b c))%N.
Proof. unfold u64_saturating_add, u64_modulus. lia. Qed.

Lemma u64_saturating_add_bound a b : (u64_saturating_add a b < u64_modulus)%N.
Proof. unfold u64_saturating_add, u64_modulus. lia. Qed.
