(* ===== verification/ErrorClassify.v ===== *)
(** * Tool-failure classification ([codel00p-harness/src/error_classify.rs]) and the
    recovery of tool calls from message text

    The classifier lowers the failure text and takes the first category, in a
    fixed order, one of whose signatures occurs in it. *)

From stdpp Require Import base numbers strings gmap list.
From S2P Require Import Prelude RustStr Json Harness.

Definition em_dash : char := 8212%N.

Inductive ToolErrorKind :=
| MissingDependency | PermissionDenied | NotFound | Timeout | CompileError | Network
| InvalidInput | Unknown.

#[export] Instance ToolErrorKind_eq_dec : EqDecision ToolErrorKind.
Proof. solve_decision. Defined.

Definition kind_as_str (k : ToolErrorKind) : str :=
  match k with
  | MissingDependency => lit "missing_dependency"
  | PermissionDenied => lit "permission_denied"
  | NotFound => lit "not_found"
  | Timeout => lit "timeout"
  | CompileError => lit "compile_error"
  | Network => lit "network"
  | InvalidInput => lit "invalid_input"
  | Unknown => lit "unknown"
  end.

Definition hint (k : ToolErrorKind) : option str :=
  match k with
  | MissingDependency => Some (
      lit "the command failed because a required dependency or tool is missing; " ++
      lit "install it (or use an already-available alternative) rather than retrying as-is")
  | PermissionDenied => Some (
      lit "this was blocked by permissions; retrying the same way will not help " ++ [em_dash] ++
      lit " try a different approach, a path you can access, or ask the user")
  | NotFound => Some (
      lit "the target file, path, or resource does not exist; verify the location " ++
      lit "(list the directory or search) before retrying")
  | Timeout => Some (
      lit "the operation timed out; consider a smaller/faster command, a longer timeout, " ++
      lit "or splitting the work rather than repeating the same call")
  | CompileError => Some (
      lit "the code failed to compile or parse; read the reported error/location and " ++
      lit "fix the source before re-running")
  | Network => Some (
      lit "a network operation failed; the host may be unreachable or offline " ++ [em_dash] ++
      lit " avoid repeating it blindly and consider an offline alternative or asking the user")
  | InvalidInput => Some (
      lit "the tool rejected the input as invalid; match your arguments to the " ++
      lit "`expected_schema` in this result (every required field, correct types) " ++
      lit "before retrying")
  | Unknown => None
  end.

Definition contains_any (haystack : str) (needles : list str) : bool :=
  existsb (λ needle, contains needle haystack) needles.

(** The signatures of each category. *)
Definition permission_needles : list str := lit <$> [
  "permission denied"; "operation not permitted"; "access is denied"; "eacces"; "eperm";
  "must be run as root"; "are you root"; "sudo"; "read-only file system";
  "denied by permission policy"; "blocked by permission"].
Definition dependency_needles : list str := lit <$> [
  "command not found"; ": not found"; "is not recognized as an internal or external command";
  "no such command"; "executable not found"; "modulenotfounderror"; "no module named";
  "cannot find module"; "library not loaded"; "shared object"; "unable to locate package";
  "could not find a version that satisfies"; "is not installed"; "command 'cargo' not found"].
Definition compile_needles : list str := lit <$> [
  "syntaxerror"; "syntax error"; "parse error"; "error[e"; "compilation failed";
  "could not compile"; "expected one of"; "unexpected token"; "cannot find type";
  "mismatched types"; "unterminated"; "indentationerror"].
Definition timeout_needles : list str := lit <$> [
  "timed out"; "timeout"; "deadline exceeded"; "etimedout"; "operation timed out"].
Definition network_needles : list str := lit <$> [
  "connection refused"; "connection reset"; "could not resolve host";
  "name or service not known"; "temporary failure in name resolution";
  "network is unreachable"; "no route to host"; "econnrefused"; "enotfound"; "dns";
  "tls handshake"; "ssl error"; "failed to connect"].
Definition input_needles : list str := lit <$> [
  "invalid input"; "invalid argument"; "invalid value"; "invalid json";
  "failed to deserialize"; "missing required"; "unexpected argument"; "unknown flag";
  "unrecognized option"; "malformed"].
Definition not_found_needles : list str := lit <$> [
  "no such file or directory"; "not found"; "does not exist"; "enoent"; "cannot access"; "404";
  "no such directory"].

Definition classify_kind (message : str) : ToolErrorKind :=
  let lower := to_ascii_lowercase message in
  if contains_any lower permission_needles then PermissionDenied
  else if contains_any lower dependency_needles then MissingDependency
  else if contains_any lower compile_needles then CompileError
  else if contains_any lower timeout_needles then Timeout
  else if contains_any lower network_needles then Network
  else if contains_any lower input_needles then InvalidInput
  else if contains_any lower not_found_needles then NotFound
  else Unknown.

Definition classify (message : str) : ToolErrorKind * option str :=
  let kind := classify_kind message in (kind, hint kind).

(** ** The order of the categories, as a table *)

Definition signatures (k : ToolErrorKind) : list str :=
  match k with
  | PermissionDenied => permission_needles
  | MissingDependency => dependency_needles
  | CompileError => compile_needles
  | Timeout => timeout_needles
  | Network => network_needles
  | InvalidInput => input_needles
  | NotFound => not_found_needles
  | Unknown => []
  end.
Definition precedence : list ToolErrorKind :=
  [PermissionDenied; MissingDependency; CompileError; Timeout; Network; InvalidInput; NotFound].

(** Text [m] shows a signature of [k], in any case. *)
Definition shows (m : str) (k : ToolErrorKind) : Prop :=
  ∃ needle a b, needle ∈ signatures k ∧ to_ascii_lowercase m = a ++ needle ++ b.

Lemma contains_any_spec s l :
  contains_any s l = true ↔ ∃ needle a b, needle ∈ l ∧ s = a ++ needle ++ b.
Proof.
  unfold contains_any. rewrite existsb_exists. split.
  - intros (x & Hin & Hc). apply contains_spec in Hc as (a & b & ->).
    exists x, a, b. by rewrite list_elem_of_In.
  - intros (x & a & b & Hin & ->). exists x. rewrite <- list_elem_of_In. split; [done|].
    apply contains_spec. eauto.
Qed.

Lemma ascii_lower_idemp c : ascii_lower (ascii_lower c) = ascii_lower c.
Proof.
  unfold ascii_lower. destruct (is_ascii_uppercase c) eqn:E; [|by rewrite E].
  replace (is_ascii_uppercase (c + 32)%N) with false; [done|].
  symmetry. unfold is_ascii_uppercase in *. apply andb_true_iff in E as [H1 H2].
  apply N.leb_le in H1, H2. apply andb_false_iff. right. apply N.leb_gt. lia.
Qed.

Lemma to_ascii_lowercase_idemp s : to_ascii_lowercase (to_ascii_lowercase s) = to_ascii_lowercase s.
Proof.
  unfold to_ascii_lowercase. rewrite <- list_fmap_compose. apply list_fmap_ext.
  intros ? c _. apply ascii_lower_idemp.
Qed.

Lemma classify_kind_lower s : classify_kind (to_ascii_lowercase s) = classify_kind s.
Proof. unfold classify_kind. by rewrite to_ascii_lowercase_idemp. Qed.

(** The nested conditionals are a search of the table. *)
Lemma classify_kind_find m :
  classify_kind m =
  default Unknown
    (head (List.filter (λ k, contains_any (to_ascii_lowercase m) (signatures k)) precedence)).
Proof.
  unfold classify_kind, precedence. cbn [List.filter signatures].
  by repeat match goal with |- context [contains_any ?s ?l] => destruct (contains_any s l) end.
Qed.

Lemma head_filter {A} (f : A → bool) (l : list A) x :
  head (List.filter f l) = Some x →
  ∃ l1 l2, l = l1 ++ x :: l2 ∧ f x = true ∧ Forall (λ y, f y = false) l1.
Proof.
  induction l as [|y l IH]; cbn; [done|]. destruct (f y) eqn:Hy; cbn.
  - intros [= ->]. by exists [], l.
  - intros (l1 & l2 & -> & Hx & Hl)%IH. exists (y :: l1), l2. by repeat constructor.
Qed.

Lemma head_filter_None {A} (f : A → bool) (l : list A) :
  head (List.filter f l) = None → Forall (λ y, f y = false) l.
Proof.
  induction l as [|y l IH]; cbn; [by constructor|]. destruct (f y) eqn:Hy; cbn; [done|].
  intros. constructor; auto.
Qed.

Lemma classify_kind_spec (m : str) (k : ToolErrorKind) :
  classify_kind m = k ↔
  (k = Unknown ∧ Forall (λ k', ¬ shows m k') precedence) ∨
  (∃ before after, precedence = before ++ k :: after ∧ shows m k ∧
                   Forall (λ k', ¬ shows m k') before).
Proof.
  rewrite classify_kind_find.
  assert (∀ k', contains_any (to_ascii_lowercase m) (signatures k') = true ↔ shows m k') as Hs.
  { intros k'. apply contains_any_spec. }
  assert (∀ l, Forall (λ y, contains_any (to_ascii_lowercase m) (signatures y) = false) l ↔
               Forall (λ k', ¬ shows m k') l) as Hl.
  { intros l. apply Forall_iff. intros k'. by rewrite <- Hs, not_true_iff_false. }
  destruct (head _) as [k0|] eqn:Hh; cbn.
  - apply head_filter in Hh as (l1 & l2 & Hp & Hk & Hb).
    apply Hs in Hk. apply Hl in Hb. split.
    + intros <-. right. eauto.
    + intros [[-> Hn]|(b & a & Hp' & Hk' & Hb')].
      * exfalso. rewrite Hp in Hn. apply Forall_app in Hn as [_ Hn]. inv Hn. done.
      * rewrite Hp in Hp'. clear -Hp' Hk Hk' Hb Hb'.
        revert b Hb' Hp'. induction Hb as [|y l1 Hy Hb IH]; intros [|z b] Hb'; cbn; intros [= ? Hp'];
          subst; [done | by inv Hb' | done | inv Hb'; eauto].
  - apply head_filter_None, Hl in Hh. split.
    + intros <-. by left.
    + intros [[-> _]|(b & a & Hp & Hk & _)]; [done|].
      rewrite Hp in Hh. apply Forall_app in Hh as [_ Hh]. inv Hh. done.
Qed.

(** A category has a hint unless it is [Unknown]. *)
Lemma hint_None k : hint k = None ↔ k = Unknown.
Proof. by destruct k. Qed.

Lemma kind_as_str_inj k k' : kind_as_str k = kind_as_str k' → k = k'.
Proof.
  intros E. enough (bool_decide (k = k') = true) as Hk by by apply bool_decide_eq_true in Hk.
  revert E. destruct k, k'; first [reflexivity | intros E; vm_compute in E; discriminate E].
Qed.

Lemma Unknown_not_shown m : ¬ shows m Unknown.
Proof. intros (n & a & b & Hn & _). by apply not_elem_of_nil in Hn. Qed.

(** A shown category bounds the result: only a category that precedes it can win. *)
Lemma classify_kind_shown m k :
  shows m k → k ∈ precedence →
  ∃ before after, precedence = before ++ k :: after ∧ (classify_kind m ∈ before ∨ classify_kind m = k).
Proof.
  intros Hk Hin. pose proof (proj1 (classify_kind_spec m (classify_kind m)) eq_refl)
    as [[_ Hn]|(b & a & Hp & _ & Hb)].
  - exfalso. rewrite Forall_forall in Hn. by apply (Hn k).
  - apply list_elem_of_split in Hin as (b' & a' & Hp'). exists b', a'. split; [done|].
    destruct (decide (k = classify_kind m)) as [->|Hne]; [by right|]. left.
    assert (k ∉ b) as Hkb by (intros Hkb; rewrite Forall_forall in Hb; by apply (Hb k)).
    rewrite Hp in Hp'. clear -Hp' Hkb Hne.
    revert b' Hp'. induction b as [|y b IH]; intros [|z b']; cbn; intros [= ? Hp']; subst.
    + by destruct Hne.
    + left.
    + destruct Hkb. left.
    + right. apply IH; [set_solver | done].
Qed.

(** Classification is by the first category, in the documented precedence,
    one of whose signatures occurs in the text in any letter case: a category is
    returned exactly when the text shows it and no category before it, and
    [Unknown] (the only category without a hint) exactly when it shows none. *)
Theorem classify_precedence (m : str) (k : ToolErrorKind) (h : option str) :
  classify m = (k, h) ↔
  h = hint k ∧
  ((k = Unknown ∧ Forall (λ k', ¬ shows m k') precedence) ∨
   (∃ before after, precedence = before ++ k :: after ∧ shows m k ∧
                    Forall (λ k', ¬ shows m k') before)).
Proof.
  rewrite <- classify_kind_spec. unfold classify. split.
  - by intros [= <- <-].
  - by intros [-> <-].
Qed.

(** ** Salvaging a tool call from message text
    ([codel00p-harness/src/agent/turn/recover.rs]) *)

Definition NAME_KEYS : list str := lit <$> ["name"; "tool"; "tool_name"; "function"].
Definition ARG_KEYS : list str := lit <$> ["arguments"; "input"; "parameters"; "args"].

Definition fence : str := lit "```".

Definition fenced_block (text : str) : option str :=
  '(_, after_open) ← split_once_str fence text;
  let body := match split_once newline after_open with
              | Some (_, rest) => rest
              | None => after_open
              end in
  '(inner, _) ← split_once_str fence body;
  Some (trim inner).

(** The loop over [NAME_KEYS]: the first key that yields a name. *)
Fixpoint tool_name_in (keys : list str) (obj : Map) : option str :=
  match keys with
  | [] => None
  | key :: keys =>
      match map_get key obj with
      | Some (VString name) => Some name
      | Some (VObject function) =>
          match map_get (lit "name") function with
          | Some (VString name) => Some name
          | _ => tool_name_in keys obj
          end
      | _ => tool_name_in keys obj
      end
  end.
Definition tool_name (obj : Map) : option str := tool_name_in NAME_KEYS obj.

Section recover.
Context `{SerdeJson}.

(** The loop over [ARG_KEYS]. *)
Fixpoint tool_args_in (keys : list str) (obj : Map) : Value :=
  match keys with
  | [] => VObject []
  | key :: keys =>
      match map_get key obj with
      | Some (VObject args) => VObject args
      | Some (VString text) =>
          match from_str text with
          | Some (VObject args) => VObject args
          | _ => tool_args_in keys obj
          end
      | _ => tool_args_in keys obj
      end
  end.
Definition tool_args (obj : Map) : Value := tool_args_in ARG_KEYS obj.

Definition salvage_tool_call (text : str) (advertised : list str) : option ToolCall :=
  let candidate := default (trim text) (fenced_block text) in
  match from_str candidate with
  | Some (VObject obj) =>
      name ← tool_name obj;
      if negb (bool_decide (name ∈ advertised)) then None else
      let input := tool_args obj in
      Some {| call_id := lit "salvaged-" ++ name; call_name := name; call_input := input |}
  | _ => None
  end.

(** ** Properties *)

Lemma tool_args_object obj : ∃ m, tool_args obj = VObject m.
Proof.
  unfold tool_args. generalize ARG_KEYS. intros keys.
  induction keys as [|key keys IH]; [by eexists|]. cbn.
  repeat (case_match; try done); eauto.
Qed.

(** The text between fences is found whatever surrounds it. *)

(** Salvage is conservative: it produces a call only from a JSON object (the
    first fenced block, or else the whole trimmed message) that names a tool of
    the given list, the call's input is always an object, and a message without a
    closed fence whose text is no JSON object is never turned into a call. *)
Theorem salvage_conservative (text : str) (advertised : list str) :
  (∀ call, salvage_tool_call text advertised = Some call →
     call_name call ∈ advertised ∧ call_id call = lit "salvaged-" ++ call_name call ∧
     (∃ m, call_input call = VObject m) ∧
     ∃ obj, from_str (default (trim text) (fenced_block text)) = Some (VObject obj) ∧
            tool_name obj = Some (call_name call)) ∧
  ((∀ obj, from_str (trim text) ≠ Some (VObject obj)) → contains fence text = false →
   salvage_tool_call text advertised = None).
Proof.
  split.
  - intros call. unfold salvage_tool_call.
    destruct (from_str _) as [[| | | | |obj]|] eqn:Hp; try done.
    destruct (tool_name obj) as [name|] eqn:Hn; [|done]. cbn [mbind option_bind].
    case_bool_decide as Ha; [|done]. cbn [negb]. intros E. apply (inj Some) in E as <-.
    cbn [call_name call_id call_input]. split; [exact Ha|]. split; [reflexivity|].
    split; [apply tool_args_object | by exists obj].
  - intros Hobj Hf%split_once_str_None. unfold salvage_tool_call, fenced_block. rewrite Hf.
    cbn [mbind option_bind default]. destruct (from_str (trim text)) as [[| | | | |obj]|] eqn:E;
      try reflexivity. by destruct (Hobj obj).
Qed.

End recover.
