(* ===== verification/SelfCorrect.v ===== *)
(** * In-turn error self-correction
    ([codel00p-harness/src/agent/turn/self_correct.rs])

    The tracker of consecutive failures per operation, the operation signatures,
    the detection and the enrichment of a failed tool result, and the nudge. *)

From stdpp Require Import base numbers strings gmap list.
From S2P Require Import Prelude RustStr Json Harness ErrorClassify.

(** [SelfCorrectConfig] of [agent.rs]. *)
Record SelfCorrectConfig := {
  error_hints : bool;
  replan_on_failure : bool;
  failure_budget : N;
}.
Definition SelfCorrectConfig_default : SelfCorrectConfig :=
  {| error_hints := false; replan_on_failure := false; failure_budget := 3 |}.

(** ** The tracker: a [HashMap<String, u32>] *)

Record FailureTracker := { counts : gmap str N }.
Definition FailureTracker_new : FailureTracker := {| counts := ∅ |}.
Definition record_success (signature : str) (t : FailureTracker) : FailureTracker :=
  {| counts := delete signature (counts t) |}.
Definition streak (signature : str) (t : FailureTracker) : N :=
  default 0%N (counts t !! signature).
Definition record_failure (signature : str) (t : FailureTracker) : N * FailureTracker :=
  let entry := u32_add (default 0%N (counts t !! signature)) 1 in
  (entry, {| counts := <[signature := entry]> (counts t) |}).

(** ** Signatures *)

Definition operation_signature (tool_name : str) (input : Value) : str :=
  if decide (tool_name = lit "run_command") then
    let program := default [] (get_str (lit "program") input) in
    let args := default [] ((λ items, join (lit " ") (omap as_str items))
                            <$> (get (lit "args") input ≫= as_array)) in
    trim_end (lit "run_command:" ++ program ++ lit " " ++ args)
  else if decide (tool_name = lit "run_checks") then
    let check := default [] (get_str (lit "check") input) in
    let command := default [] (get_str (lit "command") input) in
    lit "run_checks:" ++ check ++ lit ":" ++ command
  else tool_name.

(** ** Failures *)

Definition result_is_failure (content : Value) : bool :=
  match get (lit "error") content with
  | Some _ => true
  | None => match get (lit "success") content with Some (VBool false) => true | _ => false end
  end.

Section enrich.
Context `{SerdeJson}.

Definition failure_message (content : Value) : str :=
  match get_str (lit "error") content with
  | Some error => error
  | None =>
      let stderr := default [] (get_str (lit "stderr") content) in
      if negb (is_empty (trim stderr)) then stderr else
      match get (lit "timed_out") content with
      | Some (VBool true) => lit "operation timed out"
      | _ =>
          let stdout := default [] (get_str (lit "stdout") content) in
          if negb (is_empty (trim stdout)) then stdout else to_string content
      end
  end.

Definition SCHEMA_MAX_BYTES : nat := 2000.

(** The declared type of a property, [any] when it has none. *)
Definition property_kind (spec : Value) : Value :=
  VString (default (lit "any") (get_str (lit "type") spec)).

(** [if let Some(v) = schema.get(key) { compact.insert(key, v.clone()) }]. *)
Definition copy_key (key : str) (schema : Value) (m : Map) : Map :=
  match get key schema with Some v => map_insert key v m | None => m end.

Definition compact_schema (schema : Value) : Value :=
  if byte_len (to_string schema) <=? SCHEMA_MAX_BYTES then schema else
  let compact := copy_key (lit "type") schema [] in
  let compact := copy_key (lit "required") schema compact in
  VObject
    match get (lit "properties") schema with
    | Some (VObject props) =>
        let summarized := map_of ((λ '(name, spec), (name, property_kind spec)) <$> props) in
        map_insert (lit "properties") (VObject summarized) compact
    | _ => compact
    end.

Definition enrich_failure (content : Value) (message : str) (schema : option Value) : Value :=
  match content with
  | VObject map =>
      let '(kind, hint) := classify message in
      let map := map_or_insert (lit "error_kind") (VString (kind_as_str kind)) map in
      let map := match hint with
                 | Some hint => map_or_insert (lit "hint") (VString hint) map
                 | None => map
                 end in
      VObject
        match decide (kind = InvalidInput), schema with
        | left _, Some schema => map_or_insert (lit "expected_schema") (compact_schema schema) map
        | _, _ => map
        end
  | _ => content
  end.

End enrich.

(** ** The nudge; [None] is the panic of [&trimmed[..400]] off a boundary. *)

Definition horizontal_ellipsis : char := 8230%N.

Definition nudge_excerpt (last_error : str) : option str :=
  let trimmed := trim last_error in
  if 400 <? byte_len trimmed
  then (λ head, head ++ [horizontal_ellipsis]) <$> byte_take trimmed 400
  else Some trimmed.

Definition replan_nudge (operation : str) (attempts : N) (last_error : str) (replan : bool)
    : option str :=
  excerpt ← nudge_excerpt last_error;
  Some (
    lit "You have attempted `" ++ operation ++ lit "` and it has failed " ++ show_N attempts ++
    lit " times in a row with the same kind of error:" ++ [newline] ++ excerpt ++
    [newline; newline] ++
    lit "Stop repeating this exact operation " ++ [em_dash] ++
    lit " retrying it the same way will keep failing. Step back and reconsider your approach: " ++
    lit "try a different command/tool, address the underlying cause, or (if you are blocked) " ++
    lit "ask the user." ++
    (if replan then
       lit " If you are working from a plan, revisit and update it (via the planning tool) to " ++
       lit "reflect this dead end before continuing."
     else [])).

(** ** The tracker against its specification *)

(** The runs of a turn: the operation and whether it failed, oldest first. *)
Definition track (t : FailureTracker) (run : str * bool) : FailureTracker :=
  if run.2 then (record_failure run.1 t).2 else record_success run.1 t.

(** The number of failures at the end of a list of outcomes. *)
Fixpoint leading_failures (l : list bool) : N :=
  match l with true :: l => N.succ (leading_failures l) | _ => 0%N end.
Definition trailing_failures (outcomes : list bool) : N := leading_failures (reverse outcomes).
Definition outcomes_of (signature : str) (runs : list (str * bool)) : list bool :=
  (List.filter (λ run, bool_decide (run.1 = signature)) runs).*2.

Lemma streak_record_failure s s' t :
  streak s' (record_failure s t).2 =
  if decide (s' = s) then u32_add (streak s t) 1 else streak s' t.
Proof.
  unfold streak, record_failure; cbn. case_decide as E; subst.
  - by rewrite lookup_insert_eq.
  - by rewrite lookup_insert_ne.
Qed.

Lemma streak_record_success s s' t :
  streak s' (record_success s t) = if decide (s' = s) then 0%N else streak s' t.
Proof.
  unfold streak, record_success; cbn. case_decide as E; subst.
  - by rewrite lookup_delete_eq.
  - by rewrite lookup_delete_ne.
Qed.

Lemma outcomes_of_snoc s runs run :
  outcomes_of s (runs ++ [run]) =
  if decide (run.1 = s) then outcomes_of s runs ++ [run.2] else outcomes_of s runs.
Proof.
  unfold outcomes_of. rewrite List.filter_app, fmap_app. cbn.
  case_bool_decide; case_decide; try done. by rewrite app_nil_r.
Qed.

Lemma trailing_failures_snoc l b :
  trailing_failures (l ++ [b]) = if b then N.succ (trailing_failures l) else 0%N.
Proof. unfold trailing_failures. rewrite reverse_app. by destruct b. Qed.

Lemma u32_add_mod a : u32_add (a mod u32_modulus) 1 = (N.succ a mod u32_modulus)%N.
Proof. unfold u32_add. rewrite N.Div0.add_mod_idemp_l. by rewrite N.add_1_r. Qed.

Lemma tracker_streak_mod (runs : list (str * bool)) (s : str) :
  streak s (foldl track FailureTracker_new runs) =
  (trailing_failures (outcomes_of s runs) mod u32_modulus)%N.
Proof.
  induction runs as [|[s' b] runs IH] using rev_ind; [done|].
  rewrite foldl_app, outcomes_of_snoc. cbn [foldl fst snd].
  set (t := foldl track FailureTracker_new runs) in *.
  change (track t (s', b)) with (if b then (record_failure s' t).2 else record_success s' t).
  destruct b.
  - rewrite streak_record_failure. repeat case_decide; subst; try congruence.
    by rewrite trailing_failures_snoc, IH, u32_add_mod.
  - rewrite streak_record_success. repeat case_decide; subst; try congruence.
    by rewrite trailing_failures_snoc.
Qed.

Lemma leading_failures_le l : (leading_failures l <= N.of_nat (length l))%N.
Proof. induction l as [|[] l IH]; cbn; lia. Qed.

(** The tracker counts consecutive failures: after any runs of a turn, fewer
    than 2^32, the streak of an operation is the number of failures since its
    last success, whatever other operations ran in between; recording one more
    failure returns that number plus one, recording a success clears it. *)
Theorem tracker_counts_consecutive (runs : list (str * bool)) (s : str)
    (Hrange : (N.of_nat (length runs) < u32_modulus - 1)%N) :
  let t := foldl track FailureTracker_new runs in
  streak s t = trailing_failures (outcomes_of s runs) ∧
  (record_failure s t).1 = N.succ (trailing_failures (outcomes_of s runs)) ∧
  streak s (record_success s t) = 0%N.
Proof.
  intros t.
  assert (trailing_failures (outcomes_of s runs) < u32_modulus - 1)%N as Hb.
  { unfold trailing_failures. eapply N.le_lt_trans; [apply leading_failures_le|].
    unfold outcomes_of. rewrite length_reverse, length_fmap.
    pose proof (List.filter_length_le (λ run, bool_decide (run.1 = s)) runs). lia. }
  assert (streak s t = trailing_failures (outcomes_of s runs)) as Hs.
  { unfold t. rewrite tracker_streak_mod. apply N.mod_small. lia. }
  split; [done|]. split; [|by rewrite streak_record_success, decide_True].
  cbn. fold (streak s t). rewrite Hs. unfold u32_add. rewrite N.mod_small; lia.
Qed.

Lemma tracker_counts_consecutive_witness :
  let runs := [(lit "a", true); (lit "b", false); (lit "a", true)] in
  streak (lit "a") (foldl track FailureTracker_new runs) = 2%N.
Proof.
  intros runs. refine (eq_trans (proj1 (tracker_counts_consecutive runs (lit "a") _)) _).
  - reflexivity.
  - vm_compute. reflexivity.
Defined.

(** ** Enrichment *)

Section enrich_props.
Context `{SerdeJson}.

Lemma copy_key_wf key schema m :
  value_wf schema = true → value_wf (VObject m) = true →
  value_wf (VObject (copy_key key schema m)) = true.
Proof.
  intros Hs Hm. unfold copy_key. destruct (get key schema) as [v|] eqn:E; [|done].
  apply map_insert_wf; [exact (value_wf_get key schema v Hs E) | done].
Qed.

Lemma compact_schema_wf schema : value_wf schema = true → value_wf (compact_schema schema) = true.
Proof.
  intros Hs. unfold compact_schema. case_match; [done|].
  set (m := copy_key _ _ (copy_key _ _ [])).
  assert (value_wf (VObject m) = true) as Hm by (unfold m; by repeat apply copy_key_wf).
  destruct (get (lit "properties") schema) as [[| | | | |props]|]; try done.
  apply map_insert_wf; [|done]. apply map_of_wf. apply Forall_fmap, Forall_true.
  by intros [name spec].
Qed.

(** What [enrich_failure] adds under a key that was free. *)
Definition enrichment (message : str) (schema : option Value) (k : str) : option Value :=
  if decide (k = lit "error_kind") then Some (VString (kind_as_str (classify message).1))
  else if decide (k = lit "hint") then VString <$> (classify message).2
  else if decide (k = lit "expected_schema") then
    if decide ((classify message).1 = InvalidInput) then compact_schema <$> schema else None
  else None.

Lemma get_enrich_failure m message schema k :
  get k (enrich_failure (VObject m) message schema) =
  match map_get k m with Some v => Some v | None => enrichment message schema k end.
Proof.
  unfold enrich_failure, enrichment. destruct (classify message) as [kind h] eqn:Hc. cbn [fst snd].
  assert (lit "error_kind" ≠ lit "hint") as Hne1 by by vm_compute.
  assert (lit "error_kind" ≠ lit "expected_schema") as Hne2 by by vm_compute.
  assert (lit "hint" ≠ lit "expected_schema") as Hne3 by by vm_compute.
  generalize dependent (lit "error_kind"). generalize dependent (lit "hint").
  generalize dependent (lit "expected_schema"). intros ks kh Hhs ke Heh Hes.
  cbn [get]. destruct (decide (kind = InvalidInput)) as [Hk|Hk], schema as [schema|], h as [h|];
    cbn [fmap option_fmap option_map];
    rewrite ?map_get_or_insert;
    repeat (case_decide; subst; try congruence);
    repeat match goal with |- context [map_get ?a ?b] => destruct (map_get a b) end; done.
Qed.

Lemma result_is_failure_ext v w :
  get (lit "error") w = get (lit "error") v → get (lit "success") w = get (lit "success") v →
  result_is_failure w = result_is_failure v.
Proof. unfold result_is_failure. by intros -> ->. Qed.

(** Enriching a failed result keeps it well formed (every object keeps
    distinct keys), never changes an existing key, adds to an object exactly the
    kind, the hint the kind has, and for invalid input the expected schema when
    it is known, leaves non-objects alone, and does not change whether the result
    counts as a failure. *)
Theorem enrich_failure_extends (content : Value) (message : str) (schema : option Value)
    (Hwf : value_wf content = true)
    (Hschema : ∀ s, schema = Some s → value_wf s = true) :
  let enriched := enrich_failure content message schema in
  value_wf enriched = true ∧
  (is_object content = false → enriched = content) ∧
  (is_object content = true → ∀ k, get k enriched =
     match get k content with Some v => Some v | None => enrichment message schema k end) ∧
  result_is_failure enriched = result_is_failure content.
Proof.
  intros enriched. subst enriched. destruct content as [| | | | |m]; try done.
  assert (∀ k, enrichment message schema k = None →
    get k (enrich_failure (VObject m) message schema) = map_get k m) as Hother.
  { intros k Hk. rewrite get_enrich_failure, Hk. by destruct (map_get k m). }
  split; [|split; [done|split]].
  - unfold enrich_failure. destruct (classify message) as [kind [h|]];
      (destruct (decide (kind = InvalidInput)); destruct schema as [s|];
       repeat apply map_or_insert_wf; auto using compact_schema_wf).
  - intros _ k. apply get_enrich_failure.
  - apply result_is_failure_ext; apply Hother; reflexivity.
Qed.

End enrich_props.

(** A printer and parser to evaluate the definitions with: the JSON strings. *)
Definition string_json : SerdeJson :=
  {| preserve_order := true;
     to_string := λ v, default (lit "{}") (as_str v);
     from_str := λ s, Some (VString s) |}.

Lemma enrich_failure_extends_witness :
  let content := VObject [(lit "error", VString (lit "invalid input: x"))] in
  get (lit "expected_schema")
    (@enrich_failure string_json content (lit "invalid input: x") (Some (VBool true))) =
  Some (VBool true).
Proof.
  intros content.
  refine (eq_trans (proj1 (proj2 (proj2
    (@enrich_failure_extends string_json content (lit "invalid input: x") (Some (VBool true)) _ _)))
    eq_refl (lit "expected_schema")) _).
  - reflexivity.
  - intros s [= <-]. reflexivity.
  - vm_compute. reflexivity.
Defined.

(** ** The nudge *)

Lemma byte_take_Some s n a : byte_take s n = Some a → ∃ b, s = a ++ b ∧ byte_len a = n.
Proof.
  revert n a. induction s as [|c s IH]; intros [|n] a; cbn [byte_take]; intros E; simplify_eq;
    [by eexists | by eexists |].
  destruct (Nat.ltb_spec (S n) (len_utf8 c)); [done|].
  apply fmap_Some in E as (t & Ht & ->). apply IH in Ht as (b & -> & Ht).
  exists b. cbn. split; [done | lia].
Qed.

(** A slice [..n] panics exactly when [n] is not a boundary of the text. *)
Lemma byte_take_None s n : byte_take s n = None ↔ ∀ a b, s = a ++ b → byte_len a ≠ n.
Proof.
  split.
  - intros E a b -> <-. by rewrite byte_take_app in E.
  - intros H. destruct (byte_take s n) as [a|] eqn:E; [|done].
    apply byte_take_Some in E as (b & -> & Hn). by destruct (H a b).
Qed.

(** The replan nudge panics exactly when the trimmed error is longer than 400
    bytes and byte 400 falls inside a character: an error text in a script whose
    characters take several bytes can end the whole turn.  Otherwise the nudge
    names the operation and the number of attempts. *)
Theorem replan_nudge_panics (operation last_error : str) (attempts : N) (replan : bool) :
  (replan_nudge operation attempts last_error replan = None ↔
   400 < byte_len (trim last_error) ∧
   ∀ a b, trim last_error = a ++ b → byte_len a ≠ 400) ∧
  (∃ text, replan_nudge operation attempts text replan = None) ∧
  (∀ nudge, replan_nudge operation attempts last_error replan = Some nudge →
     ∃ a b c, nudge = a ++ operation ++ b ++ show_N attempts ++ c).
Proof.
  split; [|split].
  - unfold replan_nudge, nudge_excerpt. destruct (Nat.ltb_spec 400 (byte_len (trim last_error))).
    + rewrite <- byte_take_None. destruct (byte_take _ 400); cbn; naive_solver.
    + cbn. split; [done|]. intros [? _]. lia.
  - exists (replicate 134 em_dash). reflexivity.
  - unfold replan_nudge. intros nudge. destruct (nudge_excerpt last_error) as [excerpt|]; [|done].
    intros E. apply (inj Some) in E as <-. eexists _, _, _. reflexivity.
Qed.
