(* ===== verification/ToolInput.v ===== *)
(** * Tool arguments ([codel00p-harness/src/validation.rs], [coerce.rs])

    Arguments are first repaired toward the tool's schema, then validated against
    it, before a tool runs. *)

From stdpp Require Import base numbers strings gmap list.
From S2P Require Import Prelude RustStr Json Harness.

(** ** Validation *)

Definition json_type (v : Value) : str :=
  match v with
  | VNull => lit "null" | VBool _ => lit "boolean" | VNumber _ => lit "number"
  | VString _ => lit "string" | VArray _ => lit "array" | VObject _ => lit "object"
  end.

Definition matches_type (expected : str) (v : Value) : bool :=
  if decide (expected = lit "string") then is_string v
  else if decide (expected = lit "integer") then is_i64 v || is_u64 v
  else if decide (expected = lit "number") then is_number v
  else if decide (expected = lit "boolean") then is_boolean v
  else if decide (expected = lit "array") then is_array v
  else if decide (expected = lit "object") then is_object v
  else if decide (expected = lit "null") then is_null v
  else true.

Definition invalid (tool message : str) : HarnessError := InvalidToolInput tool message.

Definition is_object_schema (schema : Value) : bool :=
  bool_decide (get_str (lit "type") schema = Some (lit "object")).

(** The type the schema declares for a field. *)
Definition declared_type (properties : Map) (field : str) : option str :=
  spec ← map_get field properties; get_str (lit "type") spec.

Definition missing_problem (field : str) : str := lit "missing required field `" ++ field ++ lit "`".
Definition type_problem (field expected : str) (v : Value) : str :=
  lit "field `" ++ field ++ lit "` must be " ++ expected ++ lit ", got " ++ json_type v.

Definition required_fields (schema : Value) : list str :=
  match get (lit "required") schema ≫= as_array with
  | Some required => omap as_str required
  | None => []
  end.
Definition is_missing (input : Map) (field : str) : bool :=
  match map_get field input with None | Some VNull => true | _ => false end.
Definition required_problems (schema : Value) (input : Map) : list str :=
  missing_problem <$> List.filter (is_missing input) (required_fields schema).

Definition field_problem (properties : Map) (kv : str * Value) : option str :=
  match declared_type properties kv.1 with
  | Some expected => if matches_type expected kv.2 then None
                     else Some (type_problem kv.1 expected kv.2)
  | None => None
  end.
Definition type_problems (schema : Value) (input : Map) : list str :=
  match get (lit "properties") schema ≫= as_object with
  | Some properties => omap (field_problem properties) input
  | None => []
  end.

Definition validate_tool_input (tool : str) (schema input : Value) : result HarnessError unit :=
  if negb (is_object_schema schema) then Ok tt else
  match as_object input with
  | None => Err (invalid tool (lit "expected a JSON object of arguments, got " ++ json_type input))
  | Some input_obj =>
      let problems := required_problems schema input_obj ++ type_problems schema input_obj in
      if is_empty problems then Ok tt
      else Err (invalid tool (lit "invalid arguments: " ++ join (lit "; ") problems))
  end.

(** ** Coercion *)

Section coerce.
Context `{SerdeJson}.

Definition decode_json_object_string (value : Value) : Value :=
  match value with
  | VString text => match from_str text with Some (VObject m) => VObject m | _ => value end
  | _ => value
  end.

Definition coerce_field (expected : str) (value : Value) : Value :=
  if decide (expected = lit "array") then
    if negb (is_array value) && negb (is_null value) then VArray [value] else value
  else if decide (expected = lit "object") then
    if is_string value then decode_json_object_string value else value
  else if decide (expected = lit "integer" ∨ expected = lit "number") then
    match as_str value with
    | Some text => match from_str (trim text) with
                   | Some parsed => if is_number parsed then parsed else value
                   | None => value
                   end
    | None => value
    end
  else if decide (expected = lit "boolean") then
    match as_str value with
    | Some text =>
        let t := to_ascii_lowercase (trim text) in
        if decide (t = lit "true") then VBool true
        else if decide (t = lit "false") then VBool false
        else value
    | None => value
    end
  else value.

Definition coerce_entry (properties : Map) (kv : str * Value) : str * Value :=
  match declared_type properties kv.1 with
  | Some expected => (kv.1, coerce_field expected kv.2)
  | None => kv
  end.

Definition coerce_tool_input (schema input : Value) : Value :=
  if negb (is_object_schema schema) then input else
  match decode_json_object_string input with
  | VObject map =>
      match get (lit "properties") schema with
      | Some (VObject properties) => VObject (coerce_entry properties <$> map)
      | _ => VObject map
      end
  | input => input
  end.

End coerce.

(** ** What validation accepts *)

(** The arguments have every required field, not null, and every field the
    schema gives a type has it. *)
Definition conforms (schema : Value) (m : Map) : Prop :=
  (∀ field, field ∈ required_fields schema → ∃ v, map_get field m = Some v ∧ v ≠ VNull) ∧
  (∀ properties field v expected,
     get (lit "properties") schema = Some (VObject properties) →
     (field, v) ∈ m → declared_type properties field = Some expected →
     matches_type expected v = true).

Lemma is_missing_false m field :
  is_missing m field = false ↔ ∃ v, map_get field m = Some v ∧ v ≠ VNull.
Proof.
  unfold is_missing. destruct (map_get field m) as [[]|]; naive_solver.
Qed.

Lemma required_problems_nil schema m :
  required_problems schema m = [] ↔
  ∀ field, field ∈ required_fields schema → ∃ v, map_get field m = Some v ∧ v ≠ VNull.
Proof.
  unfold required_problems.
  transitivity (List.filter (is_missing m) (required_fields schema) = []).
  { by destruct (List.filter _ _). }
  split.
  - intros Hf field Hin. apply is_missing_false.
    destruct (is_missing m field) eqn:E; [|done]. exfalso.
    assert (field ∈ List.filter (is_missing m) (required_fields schema)) as Hin'.
    { by apply elem_of_list_filter_bool. }
    rewrite Hf in Hin'. by apply not_elem_of_nil in Hin'.
  - intros Hall. destruct (List.filter _ _) as [|field l] eqn:E; [done|].
    assert (field ∈ List.filter (is_missing m) (required_fields schema)) as Hin
      by (rewrite E; left).
    apply elem_of_list_filter_bool in Hin as [Hin Hf].
    apply Hall, is_missing_false in Hin. congruence.
Qed.

Lemma type_problems_nil schema m :
  type_problems schema m = [] ↔
  ∀ properties field v expected,
    get (lit "properties") schema = Some (VObject properties) →
    (field, v) ∈ m → declared_type properties field = Some expected →
    matches_type expected v = true.
Proof.
  unfold type_problems. destruct (get _ schema) as [[| | | | |props]|]; cbn [mbind option_bind as_object];
    try (split; [naive_solver | done]).
  split.
  - intros Hn properties field v expected [= <-] Hin Hd.
    destruct (matches_type expected v) eqn:E; [done|]. exfalso.
    assert (type_problem field expected v ∈ omap (field_problem props) m) as Hp.
    { apply list_elem_of_omap. exists (field, v). split; [done|].
      unfold field_problem; cbn. by rewrite Hd, E. }
    rewrite Hn in Hp. by apply not_elem_of_nil in Hp.
  - intros Hall. destruct (omap _ m) as [|p l] eqn:E; [done|].
    assert (p ∈ omap (field_problem props) m) as Hin by (rewrite E; left).
    apply list_elem_of_omap in Hin as ([field v] & Hin & Hp).
    unfold field_problem in Hp; cbn in Hp.
    destruct (declared_type props field) as [expected|] eqn:Hd; [|done].
    by rewrite (Hall props field v expected) in Hp.
Qed.

Lemma join_contains sep l x : x ∈ l → contains x (join sep l) = true.
Proof.
  intros Hx. apply contains_spec. induction l as [|y l IH]; [by apply not_elem_of_nil in Hx|].
  apply elem_of_cons in Hx as [->|Hx].
  - destruct l; cbn; [exists [], []; by rewrite app_nil_r | by eexists [], _].
  - destruct (IH Hx) as (a & b & E). destruct l as [|z l]; [by apply not_elem_of_nil in Hx|].
    change (join sep (y :: z :: l)) with (y ++ sep ++ join sep (z :: l)).
    exists (y ++ sep ++ a), b. rewrite E. by rewrite <- !app_assoc.
Qed.

Lemma contains_app_r needle a b : contains needle b = true → contains needle (a ++ b) = true.
Proof.
  rewrite !contains_spec. intros (x & y & ->). exists (a ++ x), y. by rewrite <- app_assoc.
Qed.

Lemma validate_spec tool schema input :
  validate_tool_input tool schema input = Ok tt ↔
  is_object_schema schema = false ∨ ∃ m, input = VObject m ∧ conforms schema m.
Proof.
  unfold validate_tool_input. destruct (is_object_schema schema); cbn [negb]; [|naive_solver].
  destruct (as_object input) as [m|] eqn:Hm.
  2: { split; [done|]. intros [?|(m & -> & _)]; done. }
  destruct input as [| | | | |m0]; try discriminate Hm. apply (inj Some) in Hm as ->.
  transitivity (required_problems schema m = [] ∧ type_problems schema m = []).
  - destruct (required_problems schema m), (type_problems schema m); cbn; naive_solver.
  - rewrite required_problems_nil, type_problems_nil. unfold conforms. naive_solver.
Qed.

Lemma validate_Err tool schema input e :
  validate_tool_input tool schema input = Err e → ∃ message, e = InvalidToolInput tool message.
Proof. unfold validate_tool_input, invalid. repeat case_match; intros; simplify_eq; eauto. Qed.

(** C37. Validation accepts an input exactly when the schema is not an object
    schema, or the input is an object with every required field present and not
    null and every declared type respected; a refusal is an [InvalidToolInput]
    for the tool whose message names every missing field and every field of the
    wrong type. *)
Theorem validate_iff_conforms (tool : str) (schema input : Value) :
  (validate_tool_input tool schema input = Ok tt ↔
   is_object_schema schema = false ∨ ∃ m, input = VObject m ∧ conforms schema m) ∧
  (∀ e, validate_tool_input tool schema input = Err e →
     ∃ message, e = InvalidToolInput tool message ∧
       ∀ m, input = VObject m →
         (∀ field, field ∈ required_fields schema → is_missing m field = true →
            contains (missing_problem field) message = true) ∧
         (∀ properties field v expected,
            get (lit "properties") schema = Some (VObject properties) →
            (field, v) ∈ m → declared_type properties field = Some expected →
            matches_type expected v = false →
            contains (type_problem field expected v) message = true)).
Proof.
  split; [apply validate_spec|]. unfold validate_tool_input. intros e.
  destruct (is_object_schema schema); cbn [negb]; [|done].
  destruct (as_object input) as [m|] eqn:Hm.
  2: { intros He. apply Err_inj in He as <-. eexists. split; [reflexivity|]. by intros m ->. }
  destruct input as [| | | | |m0]; try discriminate Hm. apply (inj Some) in Hm as ->.
  intros He. case_match eqn:E; [done|]. apply Err_inj in He as <-. eexists.
  split; [reflexivity|]. intros m' [= <-]. split.
  - intros field Hin Hmiss. apply contains_app_r, join_contains, elem_of_app. left.
    apply list_elem_of_fmap. exists field. split; [done|]. by apply elem_of_list_filter_bool.
  - intros properties field v expected Hp Hin Hd Hmt.
    apply contains_app_r, join_contains, elem_of_app. right.
    unfold type_problems. rewrite Hp. cbn. apply list_elem_of_omap. exists (field, v).
    split; [done|]. unfold field_problem; cbn. by rewrite Hd, Hmt.
Qed.

(** ** Coercion against validation *)

(** Closes a goal with a false equation between literals. *)
Ltac lit_contradiction :=
  match goal with E : lit ?a = lit ?b |- _ => exfalso; vm_compute in E; discriminate E end.

Section coerce_props.
Context `{SerdeJson}.

Lemma coerce_field_valid expected v :
  matches_type expected v = true → coerce_field expected v = v.
Proof.
  unfold matches_type, coerce_field. intros Hm.
  repeat case_decide; subst; try lit_contradiction; try done.
  all: try match goal with E : _ ∨ _ |- _ => destruct E; subst; try lit_contradiction end.
  all: by destruct v.
Qed.

(** A field already coerced is not coerced further. *)
Lemma coerce_field_idemp expected v :
  coerce_field expected (coerce_field expected v) = coerce_field expected v.
Proof.
  unfold coerce_field. repeat case_decide; try done.
  - by destruct v.
  - destruct v; try done. cbn. destruct (from_str s) as [[]|] eqn:E; cbn; try done; by rewrite E.
  - destruct v; try done. cbn [as_str]. destruct (from_str (trim s)) as [p|] eqn:E; cbn.
    + destruct (is_number p) eqn:Hp; [by destruct p|]. cbn. by rewrite E, Hp.
    + by rewrite E.
  - destruct v; try done. cbn [as_str]. repeat (case_decide; cbn [as_str]); try done.
    all: by repeat (case_decide; try done).
Qed.

Lemma coerce_entry_key properties kv : (coerce_entry properties kv).1 = kv.1.
Proof. unfold coerce_entry. by case_match. Qed.

Lemma coerce_entry_idemp properties kv :
  coerce_entry properties (coerce_entry properties kv) = coerce_entry properties kv.
Proof.
  unfold coerce_entry. destruct kv as [k v]; cbn.
  destruct (declared_type properties k) as [e|] eqn:E; cbn; rewrite E; [|done].
  by rewrite coerce_field_idemp.
Qed.

Lemma coerce_field_wf `{!SerdeJsonLaws} expected v :
  value_wf v = true → value_wf (coerce_field expected v) = true.
Proof.
  intros Hv. unfold coerce_field, decode_json_object_string.
  repeat case_decide; repeat case_match; simplify_eq; try done.
  all: try by eapply from_str_wf. cbn. by rewrite Hv.
Qed.

Lemma decode_idemp v :
  decode_json_object_string (decode_json_object_string v) = decode_json_object_string v.
Proof. destruct v; try done. cbn. destruct (from_str s) as [[]|] eqn:E; cbn; by rewrite ?E. Qed.

Lemma decode_wf `{!SerdeJsonLaws} v :
  value_wf v = true → value_wf (decode_json_object_string v) = true.
Proof.
  intros Hv. unfold decode_json_object_string. repeat case_match; try done.
  by eapply from_str_wf.
Qed.

Lemma coerce_fields_wf `{!SerdeJsonLaws} properties m :
  value_wf (VObject m) = true → value_wf (VObject (coerce_entry properties <$> m)) = true.
Proof.
  rewrite !value_wf_object. intros [Hd Hm]. split.
  - rewrite <- list_fmap_compose. erewrite list_fmap_ext; [exact Hd|].
    intros ? kv _. apply coerce_entry_key.
  - apply Forall_fmap. eapply Forall_impl; [exact Hm|]. intros kv Hkv. cbn.
    unfold coerce_entry. destruct (declared_type properties kv.1); [|done]. by apply coerce_field_wf.
Qed.

Lemma coerce_fields_conforming schema properties m :
  get (lit "properties") schema = Some (VObject properties) → conforms schema m →
  coerce_entry properties <$> m = m.
Proof.
  intros Hp [_ Hc]. rewrite <- (list_fmap_id m) at 2. apply list_fmap_ext.
  intros i [k v] Hi%list_elem_of_lookup_2. unfold coerce_entry; cbn.
  destruct (declared_type properties k) as [e|] eqn:Hd; [|done].
  rewrite coerce_field_valid; [done | by eapply Hc].
Qed.

Lemma validate_Ok_object tool schema input :
  validate_tool_input tool schema input = Ok tt → is_object_schema schema = true →
  ∃ m, input = VObject m ∧ conforms schema m.
Proof. intros Hv Hs. apply validate_spec in Hv as [?|?]; [congruence | done]. Qed.

Lemma coerce_valid tool schema input :
  validate_tool_input tool schema input = Ok tt → coerce_tool_input schema input = input.
Proof.
  intros Hv. unfold coerce_tool_input. destruct (is_object_schema schema) eqn:Hs; [|done].
  destruct (validate_Ok_object tool schema input) as (m & -> & Hc); [done..|]. cbn.
  destruct (get _ schema) as [[| | | | |properties]|] eqn:Hp; try done.
  by rewrite (coerce_fields_conforming schema).
Qed.

(** Coercion is a repair toward the schema: an input that already validates is
    returned unchanged, coercing twice is coercing once, well-formed arguments
    stay well formed, and an object keeps its fields, of which only those with a
    declared type can change. *)
Theorem coerce_is_repair `{!SerdeJsonLaws} (tool : str) (schema input : Value) :
  (validate_tool_input tool schema input = Ok tt → coerce_tool_input schema input = input) ∧
  coerce_tool_input schema (coerce_tool_input schema input) = coerce_tool_input schema input ∧
  (value_wf input = true → value_wf (coerce_tool_input schema input) = true) ∧
  (∀ m, input = VObject m → ∃ m', coerce_tool_input schema input = VObject m' ∧
     m'.*1 = m.*1 ∧
     ∀ properties, get (lit "properties") schema = Some (VObject properties) →
       ∀ i kv, m !! i = Some kv → declared_type properties kv.1 = None → m' !! i = Some kv).
Proof.
  split; [apply coerce_valid|]. unfold coerce_tool_input.
  destruct (is_object_schema schema) eqn:Hs; cbn [negb].
  2: { split_and!; [done..|]. intros m ->. by exists m. }
  split_and!.
  - pose proof (decode_idemp input) as Hi.
    destruct (decode_json_object_string input) as [| | |s| |m] eqn:Hd; try done.
    + by rewrite Hi.
    + destruct (get _ schema) as [[| | | | |properties]|] eqn:Hp; try done.
      cbn [decode_json_object_string]. f_equal. rewrite <- list_fmap_compose.
      apply list_fmap_ext. intros ? kv _. apply coerce_entry_idemp.
  - intros Hwf%decode_wf. destruct (decode_json_object_string input) as [| | | | |m]; try done.
    destruct (get _ schema) as [[| | | | |properties]|]; try done. by apply coerce_fields_wf.
  - intros m ->. cbn [decode_json_object_string].
    destruct (get _ schema) as [[| | | | |properties]|] eqn:Hp; try (exists m; naive_solver).
    eexists. split; [done|]. split.
    + rewrite <- list_fmap_compose. apply list_fmap_ext. intros ? kv _. apply coerce_entry_key.
    + intros properties' [= <-] i kv Hi Hd. rewrite list_lookup_fmap, Hi. cbn.
      unfold coerce_entry. by rewrite Hd.
Qed.

End coerce_props.

Lemma coerce_is_repair_witness :
  let schema := VObject [(lit "type", VString (lit "object"))] in
  @coerce_tool_input counting_json schema (VObject []) = VObject [].
Proof.
  intros schema.
  refine (proj1 (@coerce_is_repair counting_json counting_json_laws (lit "t") schema (VObject [])) _).
  reflexivity.
Defined.
