(* ===== verification/ToolRegistry.v ===== *)
(** * The tool registry ([codel00p-harness/src/tool_registry.rs], [tools.rs])

    A registry maps names to tools and keeps some of them deferred: executable,
    but hidden from the prompt behind two synthetic tools.  What a tool does when
    it runs depends on the moment it runs at, of an arbitrary type [W]. *)

From Stdlib Require Import Sorting.Sorted.
From stdpp Require Import base numbers strings gmap list.
From S2P Require Import Prelude RustStr Json Harness ToolInput SelfCorrect.

Definition TOOL_SEARCH : str := lit "tool_search".
Definition TOOL_DESCRIBE : str := lit "tool_describe".
Definition DEFAULT_SEARCH_LIMIT : N := 25.
Definition MAX_SEARCH_LIMIT : N := 100.

Record ToolSpec := { spec_name : str; spec_description : str; spec_input_schema : Value }.

(** ** Argument readers shared by the tools *)

Definition optional_string (input : Value) (key : str) : option str := get_str key input.
Definition required_string (tool : str) (input : Value) (key : str) : result HarnessError str :=
  ok_or (InvalidToolInput tool (lit "missing string field `" ++ key ++ lit "`"))
    (optional_string input key).

Inductive Verbosity := Concise | Detailed.
Definition quote : char := 34%N.
Definition parse_verbosity (tool : str) (input : Value) : result HarnessError Verbosity :=
  match optional_string input (lit "verbosity") with
  | None => Ok Detailed
  | Some v =>
      if decide (v = lit "detailed") then Ok Detailed
      else if decide (v = lit "concise") then Ok Concise
      else Err (InvalidToolInput tool
        (lit "`verbosity` must be " ++ [quote] ++ lit "concise" ++ [quote] ++ lit " or " ++
         [quote] ++ lit "detailed" ++ [quote] ++ lit ", got `" ++ v ++ lit "`"))
  end.

(** ** Search scores *)

Definition term_score (name_lower description_lower term : str) : Z * bool :=
  let in_name := contains term name_lower in
  let in_description := contains term description_lower in
  (((if in_name then if decide (name_lower = term) then 100 else 10 else 0) +
    (if in_description then 1 else 0))%Z,
   in_name || in_description).

Definition score_match (name description : str) (terms : list str) : Z :=
  if is_empty terms then 0%Z else
  let name_lower := to_ascii_lowercase name in
  let description_lower := to_ascii_lowercase description in
  let '(score, matched_any) :=
    foldl (λ acc term, let '(s, m) := term_score name_lower description_lower term in
                       ((acc.1 + s)%Z, acc.2 || m)) (0%Z, false) terms in
  if matched_any then score else (-1)%Z.

Section registry.
Context {W : Type} `{SerdeJson}.

(** The [Tool] trait. *)
Record Tool := {
  tool_name : str;
  tool_description : str;
  tool_input_schema : Value;
  tool_is_concurrency_safe : Value → bool;
  tool_permission_scope : Value → PermissionScope;
  tool_execute : W → Value → result HarnessError ToolResult;
}.
Definition ToolSpec_from_tool (t : Tool) : ToolSpec :=
  {| spec_name := tool_name t; spec_description := tool_description t;
     spec_input_schema := tool_input_schema t |}.

Record ToolRegistry := { tools : gmap str Tool; deferred : gset str }.
Definition ToolRegistry_new : ToolRegistry := {| tools := ∅; deferred := ∅ |}.

(** ** Building a registry *)

(** Also [with_tool_arc]. *)
Definition with_tool (tool : Tool) (r : ToolRegistry) : ToolRegistry :=
  let name := tool_name tool in
  {| tools := <[name := tool]> (tools r); deferred := deferred r ∖ {[name]} |}.

Definition with_registry (registry r : ToolRegistry) : ToolRegistry :=
  let deferred1 := deferred r ∖ dom (tools registry) in
  let kept := filter (λ name, tools r !! name = None) (deferred registry) in
  {| tools := tools registry ∪ tools r; deferred := deferred1 ∪ kept |}.

Definition with_deferred_tool_arc (tool : Tool) (r : ToolRegistry) : ToolRegistry :=
  let name := tool_name tool in
  {| tools := <[name := tool]> (tools r); deferred := {[name]} ∪ deferred r |}.

Definition with_deferred_registry (registry r : ToolRegistry) : ToolRegistry :=
  {| tools := tools registry ∪ tools r; deferred := dom (tools registry) ∪ deferred r |}.

Definition with_progressive_disclosure (threshold : nat) (keep_advertised : list str)
    (r : ToolRegistry) : ToolRegistry :=
  if size (tools r) <=? threshold then r else
  {| tools := tools r;
     deferred := filter (λ name, name ∉ keep_advertised) (dom (tools r)) ∪ deferred r |}.

(** ** Reading it: a [BTreeMap] and a [BTreeSet] list their keys in order *)

Definition sorted_names (s : gset str) : list str := sort_by str_cmp (elements s).
Definition names (r : ToolRegistry) : list str := sorted_names (dom (tools r)).
Definition deferred_names (r : ToolRegistry) : list str := sorted_names (deferred r).
Definition contains_key (name : str) (r : ToolRegistry) : bool :=
  bool_decide (is_Some (tools r !! name)).
Definition input_schema (name : str) (r : ToolRegistry) : option Value :=
  tool_input_schema <$> tools r !! name.

Definition spec_of (r : ToolRegistry) (name : str) : option ToolSpec :=
  ToolSpec_from_tool <$> tools r !! name.
Definition specs (r : ToolRegistry) : list ToolSpec := omap (spec_of r) (names r).

Definition string_schema : Value := json_object [(lit "type", VString (lit "string"))].

Definition tool_search_spec (deferred_count : nat) : ToolSpec :=
  {| spec_name := TOOL_SEARCH;
     spec_description :=
       lit "Discover tools that are available but not listed above. " ++
       show_N (N.of_nat deferred_count) ++
       lit " additional tools (for example large MCP tool collections) are kept out of the " ++
       lit "prompt to save context. Search them by keyword over their names and descriptions; " ++
       lit "pass no `query` to list them all (capped by `limit`). Then call `tool_describe` to " ++
       lit "load a tool's full input schema before invoking it by name.";
     spec_input_schema := json_object [
       (lit "type", VString (lit "object"));
       (lit "properties", json_object [
          (lit "query", string_schema);
          (lit "limit", json_object [
             (lit "type", VString (lit "integer"));
             (lit "minimum", VNumber (PosInt 1));
             (lit "maximum", VNumber (PosInt MAX_SEARCH_LIMIT))])])] |}.

Definition tool_describe_spec : ToolSpec :=
  {| spec_name := TOOL_DESCRIBE;
     spec_description :=
       lit "Return the full description and JSON input schema for one or more tools by name " ++
       lit "(typically tools found via `tool_search`). Call this before invoking a previously " ++
       lit "hidden tool so you know its parameters.";
     spec_input_schema := json_object [
       (lit "type", VString (lit "object"));
       (lit "required", VArray [VString (lit "names")]);
       (lit "properties", json_object [
          (lit "names", json_object [
             (lit "type", VString (lit "array"));
             (lit "items", string_schema)])])] |}.

Definition advertised_specs (r : ToolRegistry) : list ToolSpec :=
  omap (spec_of r) (List.filter (λ name, bool_decide (name ∉ deferred r)) (names r)) ++
  (if decide (deferred r = ∅) then [] else
     (if contains_key TOOL_SEARCH r then [] else [tool_search_spec (size (deferred r))]) ++
     (if contains_key TOOL_DESCRIBE r then [] else [tool_describe_spec])).

Definition is_meta_tool (name : str) (r : ToolRegistry) : bool :=
  negb (bool_decide (deferred r = ∅)) && negb (contains_key name r) &&
  (bool_decide (name = TOOL_SEARCH) || bool_decide (name = TOOL_DESCRIBE)).

Definition is_concurrency_safe (name : str) (input : Value) (r : ToolRegistry) : bool :=
  if is_meta_tool name r then true
  else default false ((λ tool, tool_is_concurrency_safe tool input) <$> tools r !! name).

Definition permission_scope (name : str) (input : Value) (r : ToolRegistry) : PermissionScope :=
  if is_meta_tool name r then ReadOnly
  else default ExternalConnector ((λ tool, tool_permission_scope tool input) <$> tools r !! name).

(** ** The synthetic tools *)

Definition search_limit (input : Value) : N :=
  N.max 1 (N.min MAX_SEARCH_LIMIT
    (default DEFAULT_SEARCH_LIMIT (get (lit "limit") input ≫= as_u64))).

Record scored := { hit_score : Z; hit_name : str; hit_description : str }.
Definition hit_cmp : scored → scored → comparison :=
  cmp_lex (cmp_rev (cmp_on hit_score Z.compare)) (cmp_on hit_name str_cmp).

Definition search_hit (r : ToolRegistry) (terms : list str) (name : str) : option scored :=
  tool ← tools r !! name;
  let score := score_match name (tool_description tool) terms in
  if (score <? 0)%Z then None
  else Some {| hit_score := score; hit_name := name; hit_description := tool_description tool |}.

Definition search_terms (input : Value) : list str :=
  split_whitespace (to_ascii_lowercase (trim (default [] (get_str (lit "query") input)))).

Definition search_hits (r : ToolRegistry) (input : Value) : list scored :=
  sort_by hit_cmp (omap (search_hit r (search_terms input)) (deferred_names r)).

Definition hit_json (h : scored) : Value :=
  json_object [(lit "name", VString (hit_name h));
               (lit "description", VString (hit_description h))].

Definition VNat (n : nat) : Value := VNumber (PosInt (N.of_nat n)).

Definition run_tool_search (input : Value) (r : ToolRegistry) : result HarnessError ToolResult :=
  let limit := search_limit input in
  let hits := search_hits r input in
  let total_matches := length hits in
  Ok (ToolResult_json (json_object [
    (lit "tools", VArray (hit_json <$> take (N.to_nat limit) hits));
    (lit "total_matches", VNat total_matches);
    (lit "deferred_total", VNat (size (deferred r)));
    (lit "truncated", VBool (limit <? N.of_nat total_matches)%N)])).

Definition describe_error (message : str) : HarnessError := InvalidToolInput TOOL_DESCRIBE message.

Definition describe_one (r : ToolRegistry) (name : Value) : result HarnessError Value :=
  match as_str name with
  | None => Err (describe_error (lit "`names` must be an array of strings"))
  | Some name =>
      Ok match tools r !! name with
         | Some tool => json_object [
             (lit "name", VString name);
             (lit "description", VString (tool_description tool));
             (lit "input_schema", tool_input_schema tool)]
         | None => json_object [
             (lit "name", VString name);
             (lit "error", VString (lit "unknown tool"))]
         end
  end.

Definition run_tool_describe (input : Value) (r : ToolRegistry) : result HarnessError ToolResult :=
  let? names := ok_or (describe_error (lit "missing array field `names`"))
                  (get (lit "names") input ≫= as_array) in
  if is_empty names then Err (describe_error (lit "`names` must not be empty")) else
  let? described := collect_result (describe_one r <$> names) in
  Ok (ToolResult_json (json_object [(lit "tools", VArray described)])).

(** ** Execution *)

Definition execute (name : str) (w : W) (input : Value) (r : ToolRegistry)
    : result HarnessError ToolResult :=
  if is_meta_tool name r then
    if decide (name = TOOL_SEARCH) then run_tool_search input r else run_tool_describe input r
  else
    let? tool := ok_or (ToolNotFound name) (tools r !! name) in
    let schema := tool_input_schema tool in
    let input := coerce_tool_input schema input in
    let? _ := validate_tool_input name schema input in
    tool_execute tool w input.

End registry.

Arguments Tool : clear implicits.
Arguments ToolRegistry : clear implicits.

(** ** Properties *)

#[export] Instance hit_cmp_total : TotalCmp hit_cmp.
Proof. unfold hit_cmp. apply _. Qed.

Lemma elem_of_sorted_names s n : n ∈ sorted_names s ↔ n ∈ s.
Proof. unfold sorted_names. by rewrite elem_of_sort_by, elem_of_elements. Qed.

Lemma sorted_names_sorted s :
  Sorted.StronglySorted (λ a b, str_cmp a b = Lt) (sorted_names s).
Proof.
  apply (sort_by_key_strict (λ n, n)). rewrite list_fmap_id. apply NoDup_elements.
Qed.

Section registry_props.
Context {W : Type} `{SerdeJson}.
Implicit Types r : ToolRegistry W.

(** Every registered tool is filed under its own name; only registered tools are
    deferred. *)
Record registry_ok r : Prop := {
  ok_named : ∀ n t, tools r !! n = Some t → tool_name t = n;
  ok_deferred : deferred r ⊆ dom (tools r);
}.

(** Registries built with the public methods. *)
Inductive built : ToolRegistry W → Prop :=
| built_new : built ToolRegistry_new
| built_tool tool r : built r → built (with_tool tool r)
| built_registry r' r : built r' → built r → built (with_registry r' r)
| built_deferred_tool tool r : built r → built (with_deferred_tool_arc tool r)
| built_deferred_registry r' r : built r' → built r → built (with_deferred_registry r' r)
| built_disclosure n keep r : built r → built (with_progressive_disclosure n keep r).

Lemma insert_named (m : gmap str (Tool W)) t :
  (∀ n t, m !! n = Some t → tool_name t = n) →
  ∀ n t', <[tool_name t := t]> m !! n = Some t' → tool_name t' = n.
Proof. intros Hm n t'. rewrite lookup_insert_Some. naive_solver. Qed.

Lemma union_named (m m' : gmap str (Tool W)) :
  (∀ n t, m !! n = Some t → tool_name t = n) → (∀ n t, m' !! n = Some t → tool_name t = n) →
  ∀ n t, (m ∪ m') !! n = Some t → tool_name t = n.
Proof. intros Hm Hm' n t. rewrite lookup_union_Some_raw. naive_solver. Qed.

Lemma built_ok r : built r → registry_ok r.
Proof.
  induction 1 as [|tool r _ [Hn Hd]|r' r _ [Hn' Hd'] _ [Hn Hd]|tool r _ [Hn Hd]
    |r' r _ [Hn' Hd'] _ [Hn Hd]|n keep r _ [Hn Hd]].
  - by split.
  - split; cbn; [by apply insert_named | rewrite dom_insert; set_solver].
  - split; cbn; [by apply union_named | rewrite dom_union; set_solver].
  - split; cbn; [by apply insert_named | rewrite dom_insert; set_solver].
  - split; cbn; [by apply union_named | rewrite dom_union; set_solver].
  - unfold with_progressive_disclosure. case_match; split; cbn; [done..|]. set_solver.
Qed.

Lemma contains_key_true name r : contains_key name r = true ↔ name ∈ dom (tools r).
Proof. unfold contains_key. by rewrite bool_decide_eq_true, elem_of_dom. Qed.

Lemma elem_of_specs_of r (l : list str) n :
  registry_ok r →
  n ∈ (spec_name <$> omap (spec_of r) l) ↔ n ∈ l ∧ n ∈ dom (tools r).
Proof.
  intros [Hn _]. rewrite list_elem_of_fmap, elem_of_dom. split.
  - intros (s & -> & (m & Hm & Hs)%list_elem_of_omap). unfold spec_of in Hs.
    apply fmap_Some in Hs as (t & Ht & ->). cbn. rewrite (Hn _ _ Ht). split; [done | by exists t].
  - intros [Hl [t Ht]]. exists (ToolSpec_from_tool t). split; [by rewrite <- (Hn _ _ Ht)|].
    apply list_elem_of_omap. exists n. split; [done|]. unfold spec_of. by rewrite Ht.
Qed.

Lemma elem_of_fmap_unless {A B} (f : A → B) (b : bool) (x : A) (y : B) :
  y ∈ (f <$> (if b then [] else [x])) ↔ b = false ∧ y = f x.
Proof. destruct b; cbn; rewrite ?elem_of_nil, ?list_elem_of_singleton; naive_solver. Qed.

(** Registries keep their invariant (tools are filed under their own names,
    only registered tools are deferred), and disclosure hides nothing for good:
    the advertised names are exactly the registered names that are not deferred,
    plus the two discovery tools, unless shadowed, as soon as something is
    deferred; a deferred tool stays executable under its name. *)
Theorem registry_disclosure (r : ToolRegistry W) (Hr : built r) :
  registry_ok r ∧
  (∀ n, (n ∈ (spec_name <$> advertised_specs r)) ↔
     (n ∈ dom (tools r) ∧ n ∉ deferred r) ∨
     (deferred r ≠ ∅ ∧ (n ∉ dom (tools r)) ∧ (n = TOOL_SEARCH ∨ n = TOOL_DESCRIBE))) ∧
  (∀ n w input, n ∈ deferred r → is_meta_tool n r = false ∧
     ∃ t, tools r !! n = Some t ∧
       let args := coerce_tool_input (tool_input_schema t) input in
       execute n w input r =
       (let? _ := validate_tool_input n (tool_input_schema t) args in tool_execute t w args)).
Proof.
  pose proof (built_ok r Hr) as Hok. split; [done|]. split.
  - intros n. unfold advertised_specs. rewrite fmap_app, elem_of_app.
    rewrite elem_of_specs_of by done. rewrite elem_of_list_filter_bool, bool_decide_eq_true.
    unfold names. rewrite elem_of_sorted_names.
    assert (∀ k, contains_key k r = false ↔ k ∉ dom (tools r)) as Hkf.
    { intros k. rewrite <- contains_key_true. by destruct (contains_key k r). }
    destruct (decide (deferred r = ∅)) as [Hd|Hd]; [rewrite elem_of_nil; naive_solver|].
    rewrite fmap_app, elem_of_app, !elem_of_fmap_unless, !Hkf.
    change (spec_name (tool_search_spec _)) with TOOL_SEARCH.
    change (spec_name tool_describe_spec) with TOOL_DESCRIBE.
    generalize TOOL_SEARCH, TOOL_DESCRIBE. naive_solver.
  - intros n w input Hn. pose proof (ok_deferred _ Hok _ Hn) as [t Ht]%elem_of_dom.
    assert (is_meta_tool n r = false) as Hm.
    { unfold is_meta_tool, contains_key. rewrite Ht. cbn. by rewrite andb_false_r. }
    split; [done|]. exists t. split; [done|]. unfold execute. by rewrite Hm, Ht.
Qed.

(** C40. A registered tool runs only on arguments its schema accepts: whatever the
    model sent, the tool either does not run and the call fails with the
    validation error, whatever the tool does, or it runs on the coerced
    arguments, which validate; arguments that already validate reach it as they
    are. *)
Theorem execute_validates (r : ToolRegistry W) (name : str) (t : Tool W) (w : W) (input : Value)
    (Ht : tools r !! name = Some t) :
  let args := coerce_tool_input (tool_input_schema t) input in
  match validate_tool_input name (tool_input_schema t) args with
  | Err e => execute name w input r = Err e ∧ ∃ message, e = InvalidToolInput name message
  | Ok _ => execute name w input r = tool_execute t w args ∧
            (is_object_schema (tool_input_schema t) = true →
             ∃ m, args = VObject m ∧ conforms (tool_input_schema t) m)
  end ∧
  (validate_tool_input name (tool_input_schema t) input = Ok tt →
   execute name w input r = tool_execute t w input).
Proof.
  intros args.
  assert (is_meta_tool name r = false) as Hm.
  { unfold is_meta_tool, contains_key. rewrite Ht. cbn. by rewrite andb_false_r. }
  assert (execute name w input r =
    (let? _ := validate_tool_input name (tool_input_schema t) args in tool_execute t w args)) as Hx.
  { unfold execute. by rewrite Hm, Ht. }
  split.
  - destruct (validate_tool_input name (tool_input_schema t) args) as [[]|e] eqn:Hv.
    + split; [done|]. intros Hs. by eapply validate_Ok_object.
    + split; [done|]. by eapply validate_Err.
  - intros Hv. rewrite Hx. unfold args. by rewrite (coerce_valid name _ _ Hv), Hv.
Qed.

(** How hits are ordered: higher score first, then by name. *)
Definition hit_before (a b : scored) : Prop :=
  (hit_score b < hit_score a)%Z ∨
  hit_score a = hit_score b ∧ str_cmp (hit_name a) (hit_name b) ≠ Gt.

Lemma hit_cmp_before a b : cmp_le hit_cmp a b → hit_before a b.
Proof.
  unfold cmp_le, hit_cmp, cmp_lex, cmp_rev, cmp_on, hit_before.
  destruct (Z.compare_spec (hit_score b) (hit_score a)); cbn; naive_solver.
Qed.

Lemma elem_of_search_hits r input h :
  h ∈ search_hits r input ↔
  hit_name h ∈ deferred r ∧ ∃ t, tools r !! hit_name h = Some t ∧
    hit_description h = tool_description t ∧
    hit_score h = score_match (hit_name h) (tool_description t) (search_terms input) ∧
    (0 <= hit_score h)%Z.
Proof.
  unfold search_hits. rewrite elem_of_sort_by, list_elem_of_omap. split.
  - intros (n & Hn & Hh). apply elem_of_sorted_names in Hn. unfold search_hit in Hh.
    destruct (tools r !! n) as [t|] eqn:Ht; [|done]. cbn in Hh.
    destruct (Z.ltb_spec (score_match n (tool_description t) (search_terms input)) 0); [done|].
    simplify_eq. cbn. eauto 10.
  - intros (Hn & t & Ht & Hd & Hs & Hp). exists (hit_name h).
    split; [by apply elem_of_sorted_names|]. unfold search_hit. rewrite Ht. cbn.
    rewrite <- Hs. destruct (Z.ltb_spec (hit_score h) 0); [lia|].
    destruct h; cbn in *. by subst.
Qed.

Lemma search_hits_sorted r input :
  Sorted.StronglySorted hit_before (search_hits r input).
Proof.
  eapply StronglySorted_mono; [|apply sort_by_sorted, _]. exact hit_cmp_before.
Qed.

Lemma search_limit_range input : (1 <= search_limit input <= 100)%N.
Proof. unfold search_limit, MAX_SEARCH_LIMIT. lia. Qed.

(** [tool_search] answers with at most 100 and at least one slot: the hits it
    ranks are exactly the deferred tools whose score is not negative, best first
    and by name among equals, it reports how many there are and whether the list
    was cut; with an empty query every deferred tool is a hit. *)
Theorem tool_search_spec_ok (r : ToolRegistry W) (input : Value) (Hr : built r) :
  (∃ shown, shown = take (N.to_nat (search_limit input)) (search_hits r input) ∧
     (1 <= search_limit input <= 100)%N ∧
     ∃ res, run_tool_search input r = Ok res ∧
       get (lit "tools") (result_content res) = Some (VArray (hit_json <$> shown)) ∧
       get (lit "total_matches") (result_content res) = Some (VNat (length (search_hits r input))) ∧
       get (lit "truncated") (result_content res) =
         Some (VBool (bool_decide (length shown < length (search_hits r input))))) ∧
  Sorted.StronglySorted hit_before (search_hits r input) ∧
  (∀ h, h ∈ search_hits r input ↔
     hit_name h ∈ deferred r ∧ ∃ t, tools r !! hit_name h = Some t ∧
       hit_description h = tool_description t ∧
       hit_score h = score_match (hit_name h) (tool_description t) (search_terms input) ∧
       (0 <= hit_score h)%Z) ∧
  (search_terms input = [] → ∀ n, n ∈ (hit_name <$> search_hits r input) ↔ n ∈ deferred r).
Proof.
  split_and!.
  - eexists. split; [done|]. split; [apply search_limit_range|]. eexists. split; [done|].
    unfold json_object, ToolResult_json. cbn [result_content get].
    rewrite !map_get_map_of. cbn [reverse]. split; [done|]. split; [done|].
    change (Some (VBool (search_limit input <? N.of_nat (length (search_hits r input)))%N) =
      Some (VBool (bool_decide (length (take (N.to_nat (search_limit input)) (search_hits r input))
                                < length (search_hits r input))))).
    do 2 f_equal. rewrite length_take. case_bool_decide; [apply N.ltb_lt | apply N.ltb_ge]; lia.
  - apply search_hits_sorted.
  - apply elem_of_search_hits.
  - intros Hq n. rewrite list_elem_of_fmap. split.
    + intros (h & -> & Hh). by apply elem_of_search_hits in Hh as [? _].
    + intros Hn. pose proof (ok_deferred _ (built_ok _ Hr) _ Hn) as [t Ht]%elem_of_dom.
      exists {| hit_score := 0; hit_name := n; hit_description := tool_description t |}.
      split; [done|]. apply elem_of_search_hits. cbn. split; [done|]. exists t.
      split_and!; [done..| |lia]. by rewrite Hq.
Qed.

(** Folding a registry into itself advertises every tool it had deferred: a
    name deferred in both registries does not stay deferred. *)
Theorem with_registry_undefers (r : ToolRegistry W) (Hr : built r) :
  deferred (with_registry r r) = ∅ ∧ tools (with_registry r r) = tools r.
Proof.
  pose proof (ok_deferred _ (built_ok _ Hr)) as Hd. cbn. split; [|apply map_union_idemp].
  apply set_eq. intros n. split; [|set_solver].
  rewrite elem_of_union, elem_of_difference, elem_of_filter. intros [[? ?]|[Hn ?]]; [set_solver|].
  exfalso. apply not_elem_of_dom in Hn. set_solver.
Qed.

End registry_props.

(** ** A concrete registry *)

Definition demo_tool : Tool unit :=
  {| tool_name := lit "mcp_fetch"; tool_description := lit "Fetch a page";
     tool_input_schema := VObject [(lit "type", VString (lit "object"))];
     tool_is_concurrency_safe := λ _, true; tool_permission_scope := λ _, ScopeNetwork;
     tool_execute := λ _ v, Ok (ToolResult_json v) |}.
Definition demo_registry : ToolRegistry unit := with_deferred_tool_arc demo_tool ToolRegistry_new.

Lemma demo_built : built demo_registry.
Proof. repeat constructor. Qed.

Lemma registry_disclosure_witness : registry_ok demo_registry.
Proof. exact (proj1 (@registry_disclosure unit string_json demo_registry demo_built)). Defined.

Lemma execute_validates_witness :
  @execute unit string_json (lit "mcp_fetch") tt (VObject []) demo_registry =
  Ok (ToolResult_json (VObject [])).
Proof.
  refine (proj2 (@execute_validates unit string_json demo_registry (lit "mcp_fetch") demo_tool tt
    (VObject []) _) _); vm_compute; reflexivity.
Defined.

Lemma tool_search_spec_ok_witness :
  lit "mcp_fetch" ∈ (hit_name <$> search_hits demo_registry (VObject [])).
Proof.
  refine (proj2 (proj2 (proj2 (proj2
    (@tool_search_spec_ok unit string_json demo_registry (VObject []) demo_built))) _
    (lit "mcp_fetch")) _); [vm_compute; reflexivity|].
  unfold demo_registry; cbn [deferred with_deferred_tool_arc]; set_solver.
Defined.

Lemma with_registry_undefers_witness : deferred (with_registry demo_registry demo_registry) = ∅.
Proof. exact (proj1 (with_registry_undefers demo_registry demo_built)). Defined.
