(* ===== verification/Verify.v ===== *)
(** * Verify-before-done and self-critique
    ([codel00p-harness/src/agent/turn/verify.rs])

    The decision taken when the model signals it is done.  Running a check goes
    through the registered [run_checks] tool, whose result is the parameter
    [run_check]; [has_run_checks] and [detected_test] say whether that tool is
    registered and whether a test command was detected. *)

From stdpp Require Import base numbers strings gmap list.
From S2P Require Import Prelude RustStr Json Harness.

(** [VerifyConfig] of [agent.rs]. *)
Record VerifyConfig := {
  self_verify : bool;
  auto_test : bool;
  lint_and_fix : bool;
  self_critique : bool;
  verify_iterations : N;
  test_command : option str;
}.
Definition VerifyConfig_default : VerifyConfig :=
  {| self_verify := false; auto_test := true; lint_and_fix := false; self_critique := false;
     verify_iterations := 3; test_command := None |}.

Definition MUTATING_TOOLS : list str :=
  lit <$> ["create_file"; "update_file"; "delete_file"; "apply_patch"; "run_command"].

Inductive DonePhase := Complete (verified : option bool) | Continue.
Inductive VerificationOutcome := VPassed | VFailed | VSkipped.

Record VerifyState := {
  vs_attempts : N;
  critique_injected : bool;
  critique_pending : bool;
  executed_at_critique : nat;
  last_verified : option bool;
}.
Definition VerifyState_new : VerifyState :=
  {| vs_attempts := 0; critique_injected := false; critique_pending := false;
     executed_at_critique := 0; last_verified := None |}.
Definition set_last_verified (b : bool) (v : VerifyState) : VerifyState :=
  {| vs_attempts := vs_attempts v; critique_injected := critique_injected v;
     critique_pending := critique_pending v; executed_at_critique := executed_at_critique v;
     last_verified := Some b |}.
Definition bump_attempts (v : VerifyState) : VerifyState :=
  {| vs_attempts := u32_add (vs_attempts v) 1; critique_injected := critique_injected v;
     critique_pending := critique_pending v; executed_at_critique := executed_at_critique v;
     last_verified := last_verified v |}.
Definition inject_critique (executed : nat) (v : VerifyState) : VerifyState :=
  {| vs_attempts := vs_attempts v; critique_injected := true; critique_pending := true;
     executed_at_critique := executed; last_verified := last_verified v |}.
Definition clear_critique_pending (v : VerifyState) : VerifyState :=
  {| vs_attempts := vs_attempts v; critique_injected := critique_injected v;
     critique_pending := false; executed_at_critique := executed_at_critique v;
     last_verified := last_verified v |}.

Definition call_mutates (call : ExecutedToolCall) : bool :=
  bool_decide (exec_name call ∈ MUTATING_TOOLS) &&
  negb (bool_decide (is_Some (get (lit "error") (result_content (exec_result call))))).
Definition turn_mutated (executed : list ExecutedToolCall) : bool := existsb call_mutates executed.

Definition SELF_CRITIQUE_PROMPT : str :=
  lit "Before finishing, review your own work: what did you actually change, and what " ++
  lit "did you actually verify? If anything is unverified, risky, or you over-claimed " ++
  lit "that something works, address it now (make the fix and/or run the relevant " ++
  lit "checks). If everything is genuinely done and verified, briefly confirm what you " ++
  lit "verified. Do not claim success you have not checked.".

Definition capture_failures (content : Value) : str :=
  let summary :=
    match get (lit "summary") content with
    | Some summary =>
        if is_null summary then []
        else [lit "summary: " ++ show_N (default 0%N (get (lit "passed") summary ≫= as_u64)) ++
              lit " passed, " ++ show_N (default 0%N (get (lit "failed") summary ≫= as_u64)) ++
              lit " failed"]
    | None => []
    end in
  let stderr := default [] (get_str (lit "stderr") content) in
  let stdout := default [] (get_str (lit "stdout") content) in
  let body := if negb (is_empty (trim stderr)) then stderr else stdout in
  let parts := summary ++ (if negb (is_empty (trim body)) then [trim body] else []) in
  if is_empty parts then lit "(no captured output)" else join [newline] parts.

(** [i64::to_string]. *)
Definition show_Z (z : Z) : str :=
  if (z <? 0)%Z then lit "-" ++ show_N (Z.to_N (- z)) else show_N (Z.to_N z).

Definition failure_feedback (command failures : str) (exit_code : option Z) (final : bool) : str :=
  let budget_note :=
    if final then
      [newline; newline] ++
      lit "This was the final automated verification attempt; if it " ++
      lit "still fails the turn will end with verification UNRESOLVED."
    else [] in
  lit "Automated verification failed (`" ++ command ++ lit "` exited " ++
  default (lit "non-zero") (show_Z <$> exit_code) ++ lit "):" ++ [newline] ++ failures ++
  [newline; newline] ++ lit "Fix the issue and continue; do not finish until it passes." ++
  budget_note.

Section verify.
Context `{SerdeJson}.

(** The input of one check. *)
Definition check_input (config : VerifyConfig) (check : str) : Value :=
  let input := [(lit "check", VString check)] in
  match bool_decide (check = lit "test"), test_command config with
  | true, Some command => VObject (map_insert (lit "command") (VString command) input)
  | _, _ => VObject input
  end.

Definition enabled_checks (config : VerifyConfig) : list str :=
  (if auto_test config then [lit "test"] else []) ++
  (if lint_and_fix config then [lit "lint"] else []).

(** A check that ran: its verdict, command and exit code. *)
Definition check_success (content : Value) : bool :=
  default false (get (lit "success") content ≫= as_bool).
Definition check_command (check : str) (content : Value) : str :=
  default check (get_str (lit "command") content).
Definition check_exit_code (content : Value) : option Z :=
  get (lit "exit_code") content ≫= as_i64.

Context {S : Type}.
(** [run_checks] executed in the state, and the two effects on it: an event and a
    message appended to the session. *)
Context (run_check : Value → S → result HarnessError ToolResult * S).
Context (record : turn_event → S → S) (push : SessionMessage → S → S).
Context (config : VerifyConfig) (has_run_checks : bool) (detected_test : bool).

(** The loop of [run_verification] over the enabled checks. *)
Fixpoint run_checks (checks : list str) (attempt : N) (v : VerifyState) (s : S)
    : VerificationOutcome * VerifyState * S :=
  match checks with
  | [] => (VPassed, set_last_verified true v, s)
  | check :: checks =>
      let '(result, s) := run_check (check_input config check) s in
      match result with
      | Err error =>
          run_checks checks attempt v
            (record (ToolCallFailed (lit "run_checks") (error_to_string error)) s)
      | Ok result =>
          let content := result_content result in
          let success := check_success content in
          let command := check_command check content in
          let exit_code := check_exit_code content in
          let s := record (VerificationCompleted check command success exit_code attempt) s in
          if success then run_checks checks attempt v s
          else
            (VFailed, set_last_verified false v,
             push (msg_user (failure_feedback command (capture_failures content) exit_code
                               (verify_iterations config <=? attempt)%N)) s)
      end
  end.

Definition run_verification (v : VerifyState) (s : S) : VerificationOutcome * VerifyState * S :=
  if negb has_run_checks then (VSkipped, v, s) else
  if negb detected_test && bool_decide (test_command config = None) then (VSkipped, v, s) else
  let checks := enabled_checks config in
  if is_empty checks then (VSkipped, v, s) else
  let v := bump_attempts v in
  run_checks checks (vs_attempts v) v s.

(** Phase 2. *)
Definition critique_phase (executed : list ExecutedToolCall) (v : VerifyState) (s : S)
    : DonePhase * VerifyState * S :=
  if self_critique config && negb (critique_injected v) && turn_mutated executed
  then (Continue, inject_critique (length executed) v, push (msg_user SELF_CRITIQUE_PROMPT) s)
  else (Complete (last_verified v), v, s).

Definition should_verify (executed : list ExecutedToolCall) (v : VerifyState) : bool :=
  let reflection_added_work :=
    negb (critique_injected v) || (executed_at_critique v <? length executed) in
  self_verify config && reflection_added_work && turn_mutated executed &&
  (vs_attempts v <? verify_iterations config)%N.

Definition verify_before_done (executed : list ExecutedToolCall) (v : VerifyState) (s : S)
    : DonePhase * VerifyState * S :=
  if should_verify executed v then
    match run_verification v s with
    | (VFailed, v, s) => (Continue, v, s)
    | (VPassed, v, s) | (VSkipped, v, s) => critique_phase executed v s
    end
  else critique_phase executed v s.

End verify.

(** ** Properties *)

Section verify_props.
Context `{SerdeJson} {S : Type}.
Context (run_check : Value → S → result HarnessError ToolResult * S).
Context (record : turn_event → S → S) (push : SessionMessage → S → S).
Context (config : VerifyConfig).

(** What the checks of one verification returned, up to the first that failed. *)
Fixpoint check_results (checks : list str) (attempt : N) (s : S)
    : list (result HarnessError ToolResult) :=
  match checks with
  | [] => []
  | check :: checks =>
      let '(result, s) := run_check (check_input config check) s in
      result ::
      match result with
      | Err error =>
          check_results checks attempt
            (record (ToolCallFailed (lit "run_checks") (error_to_string error)) s)
      | Ok r =>
          let content := result_content r in
          if check_success content then
            check_results checks attempt
              (record (VerificationCompleted check (check_command check content) true
                         (check_exit_code content) attempt) s)
          else []
      end
  end.
(** A check that ran and passed, or that could not run. *)
Definition not_failed (r : result HarnessError ToolResult) : bool :=
  match r with Ok r => check_success (result_content r) | Err _ => true end.

Lemma run_checks_spec checks attempt v s :
  let '(outcome, v', _) := run_checks run_check record push config checks attempt v s in
  let passed := forallb not_failed (check_results checks attempt s) in
  v' = set_last_verified passed v ∧
  outcome = (if passed then VPassed else VFailed) ∧
  (passed = true → length (check_results checks attempt s) = length checks).
Proof.
  revert s. induction checks as [|check checks IH]; intros s; [done|]. cbn.
  destruct (run_check (check_input config check) s) as [[r|e] s1]; cbn.
  - destruct (check_success (result_content r)); cbn; [|done]. specialize (IH
      (record (VerificationCompleted check (check_command check (result_content r)) true
                 (check_exit_code (result_content r)) attempt) s1)).
    destruct (run_checks _ _ _ _ _ _ _ _) as [[o v'] s']. naive_solver.
  - specialize (IH (record (ToolCallFailed (lit "run_checks") (error_to_string e)) s1)).
    destruct (run_checks _ _ _ _ _ _ _ _) as [[o v'] s']. naive_solver.
Qed.

Context (has_run_checks detected_test : bool).
Abbreviation step := (verify_before_done run_check record push config has_run_checks detected_test).

(** How many more times a turn can be sent back to the model. *)
Definition patience (v : VerifyState) : N :=
  (verify_iterations config - vs_attempts v) + (if critique_injected v then 0 else 1).

Lemma run_verification_state v s :
  let '(o, v', _) := run_verification run_check record push config has_run_checks detected_test v s in
  critique_injected v' = critique_injected v ∧
  (o = VSkipped ∧ v' = v ∨ vs_attempts v' = u32_add (vs_attempts v) 1).
Proof.
  unfold run_verification. destruct has_run_checks; cbn [negb]; [|naive_solver].
  destruct (negb detected_test && _); [naive_solver|].
  destruct (is_empty (enabled_checks config)); [naive_solver|].
  pose proof (run_checks_spec (enabled_checks config) (vs_attempts (bump_attempts v))
                (bump_attempts v) s) as Hr.
  destruct (run_checks _ _ _ _ _ _ _ _) as [[o v'] s']. destruct Hr as (-> & _ & _). cbn. auto.
Qed.

(** The attempts stay within the iterations allowed. *)
Lemma attempts_step executed v s ph v' s'
    (Hn : (verify_iterations config < u32_modulus)%N) (Hv : (vs_attempts v <= verify_iterations config)%N) :
  step executed v s = (ph, v', s') →
  (vs_attempts v <= vs_attempts v' <= verify_iterations config)%N.
Proof.
  assert (∀ v1 s1, critique_phase push config executed v1 s1 = (ph, v', s') →
    vs_attempts v' = vs_attempts v1) as Hc.
  { intros v1 s1. unfold critique_phase. by case_match; intros; simplify_eq. }
  unfold verify_before_done. case_match eqn:Hs; [|intros ->%Hc; lia].
  unfold should_verify in Hs. apply andb_true_iff in Hs as [_ Hs]. apply N.ltb_lt in Hs.
  pose proof (run_verification_state v s) as Hr.
  destruct (run_verification _ _ _ _ _ _ v s) as [[o v1] s1]. destruct Hr as [_ Ho].
  assert (vs_attempts v <= vs_attempts v1 <= verify_iterations config)%N as H1.
  { destruct Ho as [[_ ->]|Ha]; [lia|]. rewrite Ha. unfold u32_add. rewrite N.mod_small by lia. lia. }
  destruct o; intros Hx; simplify_eq; [apply Hc in Hx; congruence|done|apply Hc in Hx; congruence].
Qed.

(** [Continue] spends patience; nothing ever adds to it. *)
Lemma patience_step executed v s ph v' s'
    (Hn : (verify_iterations config < u32_modulus)%N) :
  step executed v s = (ph, v', s') →
  (patience v' <= patience v)%N ∧ (ph = Continue → patience v' < patience v)%N.
Proof.
  assert (∀ v1 s1, critique_phase push config executed v1 s1 = (ph, v', s') →
    (patience v' <= patience v1)%N ∧ (ph = Continue → patience v' < patience v1)%N) as Hc.
  { intros v1 s1. unfold critique_phase. case_match eqn:E; intros; simplify_eq; [|by split].
    unfold patience; cbn. apply andb_true_iff in E as [[_ E]%andb_true_iff _].
    apply negb_true_iff in E. rewrite E. split; lia. }
  unfold verify_before_done. case_match eqn:Hs; [|apply Hc].
  unfold should_verify in Hs. apply andb_true_iff in Hs as [_ Hs]. apply N.ltb_lt in Hs.
  pose proof (run_verification_state v s) as Hv.
  destruct (run_verification _ _ _ _ _ _ v s) as [[o v1] s1]. destruct Hv as [Hi Ho].
  assert (patience v1 <= patience v ∧ (o ≠ VSkipped → patience v1 < patience v))%N as [Hle Hlt].
  { unfold patience. rewrite Hi. destruct Ho as [[-> ->]|Ha]; [by split|].
    rewrite Ha. unfold u32_add. rewrite N.mod_small by lia. split; lia. }
  destruct o; intros Hx; simplify_eq.
  - apply Hc in Hx. naive_solver lia.
  - split; [done|]. intros _. by apply Hlt.
  - apply Hc in Hx. naive_solver lia.
Qed.

(** The verdict of a verification that runs its checks is exactly whether every
    check that ran passed; a failed verification and an accepted one count one
    attempt; a turn that changed nothing is completed at once with the verdict it
    had. *)
Theorem verification_verdict (executed : list ExecutedToolCall) (v : VerifyState) (s : S)
    (Hrun : has_run_checks = true) (Htest : detected_test = true)
    (Hchecks : enabled_checks config ≠ []) :
  (let '(outcome, v', _) :=
     run_verification run_check record push config has_run_checks detected_test v s in
   let results := check_results (enabled_checks config) (u32_add (vs_attempts v) 1) s in
   vs_attempts v' = u32_add (vs_attempts v) 1 ∧
   last_verified v' = Some (forallb not_failed results) ∧
   (outcome = VPassed ↔ forallb not_failed results = true) ∧
   (outcome = VPassed → length results = length (enabled_checks config))) ∧
  (turn_mutated executed = false → step executed v s = (Complete (last_verified v), v, s)).
Proof.
  split.
  - unfold run_verification. rewrite Hrun, Htest. cbn [negb andb].
    destruct (is_empty (enabled_checks config)) eqn:He; [by destruct (enabled_checks config)|].
    change (vs_attempts (bump_attempts v)) with (u32_add (vs_attempts v) 1).
    pose proof (run_checks_spec (enabled_checks config) (u32_add (vs_attempts v) 1)
                  (bump_attempts v) s) as Hr.
    destruct (run_checks _ _ _ _ _ _ _ _) as [[o v'] s']. destruct Hr as (-> & -> & Hl). cbn.
    destruct (forallb _ _); naive_solver.
  - intros Hm. unfold verify_before_done, should_verify, critique_phase. rewrite Hm.
    by rewrite !andb_false_r, ?andb_false_l.
Qed.

(** A verification none of whose checks could run reports success: when every
    execution of [run_checks] fails with an error, the verdict surfaced is
    [Some true] although no check ran. *)
Theorem unrunnable_checks_verify (v : VerifyState) (s : S)
    (Hrun : has_run_checks = true) (Htest : detected_test = true)
    (Hchecks : enabled_checks config ≠ [])
    (Hbroken : ∀ input s, ∃ e s', run_check input s = (Err e, s')) :
  ∃ v' s', run_verification run_check record push config has_run_checks detected_test v s =
           (VPassed, v', s') ∧ last_verified v' = Some true.
Proof.
  unfold run_verification. rewrite Hrun, Htest. cbn [negb andb].
  destruct (is_empty (enabled_checks config)) eqn:He; [by destruct (enabled_checks config)|].
  pose proof (run_checks_spec (enabled_checks config) (vs_attempts (bump_attempts v))
                (bump_attempts v) s) as Hr.
  assert (∀ checks attempt s, forallb not_failed (check_results checks attempt s) = true) as Hf.
  { induction checks as [|c checks IH]; intros attempt s0; [done|]. cbn.
    destruct (Hbroken (check_input config c) s0) as (e & s1 & ->). cbn. apply IH. }
  destruct (run_checks _ _ _ _ _ _ _ _) as [[o v'] s']. rewrite Hf in Hr.
  destruct Hr as (-> & -> & _). by eexists _, _.
Qed.

End verify_props.

(** ** Concrete runs *)

Definition demo_verify : VerifyConfig :=
  {| self_verify := true; auto_test := true; lint_and_fix := true; self_critique := true;
     verify_iterations := 2; test_command := None |}.
Definition demo_call : ExecutedToolCall :=
  {| exec_id := lit "1"; exec_name := lit "apply_patch"; exec_input := VNull;
     exec_result := ToolResult_json (VObject []) |}.
(** A check that always fails, and one that cannot run. *)
Definition failing_check (input : Value) (s : unit) : result HarnessError ToolResult * unit :=
  (Ok (ToolResult_json (VObject [(lit "success", VBool false)])), s).
Definition broken_check (input : Value) (s : unit) : result HarnessError ToolResult * unit :=
  (Err (ToolNotFound (lit "run_checks")), s).

#[local] Existing Instance counting_json.

Lemma verification_verdict_witness :
  verify_before_done failing_check (λ _ s, s) (λ _ s, s) demo_verify true true [] VerifyState_new tt
  = (Complete None, VerifyState_new, tt).
Proof.
  refine (proj2 (verification_verdict failing_check (λ _ s, s) (λ _ s, s) demo_verify true true
    [] VerifyState_new tt eq_refl eq_refl _) eq_refl).
  discriminate.
Defined.

Lemma unrunnable_checks_verify_witness :
  ∃ v' s', run_verification broken_check (λ _ s, s) (λ _ s, s) demo_verify true true
             VerifyState_new tt = (VPassed, v', s') ∧ last_verified v' = Some true.
Proof.
  refine (unrunnable_checks_verify broken_check (λ _ s, s) (λ _ s, s) demo_verify true true
    VerifyState_new tt eq_refl eq_refl _ _).
  - discriminate.
  - intros input s. by eexists _, _.
Defined.
