(* ===== verification/Prompts.v ===== *)
(** * What goes into an inference request ([codel00p-harness]: instructions.rs,
    memory.rs, skills.rs, self_context.rs, base_prompt.rs, agent/context.rs)

    The context blocks and their rendering, and the summary used on compaction. *)

From stdpp Require Import base numbers strings gmap list.
From S2P Require Import Prelude RustStr Protocol Json Harness ErrorClassify SelfCorrect.

(** ** Project instructions *)

Record ProjectInstruction := { instruction_source : str; instruction_content : str }.
Record ProjectInstructions := { instructions : list ProjectInstruction }.

(** [replace] of a carriage return and newline by a newline. *)
Fixpoint replace_crlf (s : str) : str :=
  match s with
  | 13%N :: ((10%N :: _) as s') => replace_crlf s'
  | c :: s' => c :: replace_crlf s'
  | [] => []
  end.
Definition normalize_instruction_content (content : str) : str := replace_crlf (trim content).
Definition ProjectInstruction_new (source content : str) : ProjectInstruction :=
  {| instruction_source := source;
     instruction_content := normalize_instruction_content content |}.

Definition sources (p : ProjectInstructions) : list str := instruction_source <$> instructions p.
(** The last character pushed is popped, also when there is no instruction. *)
Definition as_prompt (p : ProjectInstructions) : str :=
  removelast (
    lit "Project instructions:" ++
    concat ((λ i, newline :: lit "## " ++ instruction_source i ++ [newline] ++
                  instruction_content i ++ [newline]) <$> instructions p)).

(** ** Project memory *)

Record ProjectMemoryItem := {
  item_id : str; item_kind : MemoryKind; item_content : str; item_tags : list str;
  item_reason : str;
}.
Record ProjectMemoryContext := { items : list ProjectMemoryItem }.

Definition memory_kind_label (k : MemoryKind) : str :=
  match k with
  | Architecture => lit "architecture" | Convention => lit "convention"
  | Workflow => lit "workflow" | Decision' => lit "decision" | Deployment => lit "deployment"
  | Troubleshooting => lit "troubleshooting"
  end.
Definition format_prompt_field (value : str) : str :=
  join (newline :: lit "    ") (lines value).
Definition memory_item_prompt (i : ProjectMemoryItem) : str :=
  newline :: lit "- id: " ++ item_id i ++
  newline :: lit "  kind: " ++ memory_kind_label (item_kind i) ++
  newline :: lit "  tags: " ++ format_prompt_field (join (lit ",") (item_tags i)) ++
  newline :: lit "  reason: " ++ format_prompt_field (item_reason i) ++
  newline :: lit "  content: " ++ format_prompt_field (item_content i).
Definition memory_prompt (m : ProjectMemoryContext) : option str :=
  if is_empty (items m) then None else
  Some (lit "Project memory:" ++
        concat (memory_item_prompt <$> sort_by (cmp_on item_id str_cmp) (items m))).

Record ProjectMemoryRequest := {
  pmr_session_id : SessionId; pmr_turn_id : TurnId; pmr_message_count : nat;
  pmr_latest_user_message : option str;
}.
Definition ProjectMemoryRequest_for (session : SessionId) (turn : TurnId) (count : nat)
    (message : str) : ProjectMemoryRequest :=
  {| pmr_session_id := session; pmr_turn_id := turn; pmr_message_count := count;
     pmr_latest_user_message := if is_empty (trim message) then None else Some message |}.

(** ** Skills *)

Record SkillPrompt := { skill_name : str; skill_instructions : str }.
Record SkillContext := { skills : list SkillPrompt }.
Definition skill_prompt (c : SkillContext) : option str :=
  if is_empty (skills c) then None else
  Some (lit "Relevant skills (procedural knowledge to apply when useful):" ++ [newline] ++
        concat ((λ s, newline :: lit "## Skill: " ++ skill_name s ++ [newline] ++
                      skill_instructions s ++ [newline]) <$> skills c)).
Record SkillSelectionRequest := {
  ssr_session_id : SessionId; ssr_turn_id : TurnId; ssr_message_count : nat; ssr_query : str;
}.

(** ** The self block *)

Record AgentSelfContext := {
  self_name : str; self_version : str; self_provider : str; self_model : str;
  self_tool_sets : list str; self_backend : str; self_isolated : bool;
  self_permission_mode : str; self_profile : option str;
  self_knowledge : bool; self_state : bool;
}.
Record AgentSelfState := {
  st_iteration : option N; st_max_iterations : option N;
  st_context_used_tokens : option N; st_context_window_tokens : option N;
  st_plan_completed : option nat; st_plan_total : option nat;
}.
Definition show_nat (n : nat) : str := show_N (N.of_nat n).

Definition compact_tokens (tokens : N) : str :=
  if (1000 <=? tokens)%N then show_N (tokens / 1000) ++ lit "k" else show_N tokens.

Definition identity_line (c : AgentSelfContext) : str :=
  if decide (self_name c = lit "codel00p") then
    lit "You are codel00p v" ++ self_version c ++ lit " (provider: " ++ self_provider c ++
    lit ", model: " ++ self_model c ++ lit ")."
  else
    lit "You are `" ++ self_name c ++ lit "`, a codel00p agent (v" ++ self_version c ++
    lit ", provider: " ++ self_provider c ++ lit ", model: " ++ self_model c ++ lit ").".
Definition capabilities_line (c : AgentSelfContext) : str :=
  let caps :=
    (if is_empty (self_tool_sets c) then []
     else [lit "tools = " ++ join (lit ",") (self_tool_sets c)]) ++
    [lit "execution backend = " ++ self_backend c ++ lit " (" ++
     (if self_isolated c then lit "isolated" else lit "not isolated") ++ lit ")"] ++
    [lit "permission mode = " ++ self_permission_mode c] ++
    match self_profile c with Some profile => [lit "profile = " ++ profile] | None => [] end in
  lit "Capabilities: " ++ join (lit "; ") caps ++ lit ".".
Definition run_state_parts (s : AgentSelfState) : list str :=
  match st_iteration s, st_max_iterations s with
  | Some iteration, Some max =>
      [lit "iteration " ++ show_N iteration ++ lit "/" ++ show_N max]
  | _, _ => []
  end ++
  match st_context_used_tokens s with
  | Some used =>
      match st_context_window_tokens s with
      | Some window => [lit "context ~" ++ compact_tokens used ++ lit "/" ++
                        compact_tokens window ++ lit " tokens"]
      | None => [lit "context ~" ++ compact_tokens used ++ lit " tokens"]
      end
  | None => []
  end ++
  match st_plan_completed s, st_plan_total s with
  | Some completed, Some total =>
      if 0 <? total then [lit "plan " ++ show_nat completed ++ lit "/" ++ show_nat total ++
                          lit " steps done"] else []
  | _, _ => []
  end.

(** [SelfPromptAssembler::assemble]. *)
Definition self_prompt (c : AgentSelfContext) (s : AgentSelfState) : option str :=
  if negb (self_knowledge c) && negb (self_state c) then None else
  let lines :=
    (if self_knowledge c then [identity_line c; capabilities_line c] else []) ++
    (if self_state c then
       let parts := run_state_parts s in
       if is_empty parts then [] else [lit "Run state: " ++ join (lit "; ") parts ++ lit "."]
     else []) in
  if is_empty lines then None else
  Some (join [newline] (lines ++
    [lit "Use this to reason about what you can and cannot do, and to pace yourself."])).

(** ** The base prompt *)

Definition BASE_CORE : str := join [newline] [
  lit "How you work:";
  lit "- Understand before you act. Read the relevant code and grasp the task and its " ++
  lit "context before editing; do not guess at structure you can inspect.";
  lit "- Make focused, correct changes that match the surrounding code's style and " ++
  lit "conventions. Prefer the smallest change that fully solves the problem.";
  lit "- Verify before you declare done. Where applicable, run the project's tests and " ++
  lit "build (or the relevant checks) and confirm they pass. Never claim something " ++
  lit "works, is fixed, or is complete unless you have actually checked it. If you " ++
  lit "cannot verify, say so plainly and state exactly what is unverified.";
  lit "- Be honest about uncertainty. Don't overstate confidence. Prefer doing the " ++
  lit "work yourself over telling the user to do it."].
Definition BASE_PLANNING : str :=
  lit "- For non-trivial or multi-step work, lay out a short plan up front using the " ++
  lit "planning tool and keep it updated as you make progress.".
Definition base_prompt (auto_plan : bool) : str :=
  if auto_plan then BASE_CORE ++ [newline] ++ BASE_PLANNING else BASE_CORE.

(** ** The latest task and the compaction summary ([agent/context.rs]) *)

Definition latest_user_message (state : SessionState) : str :=
  default [] (msg_content <$> head (List.filter (λ m, bool_decide (msg_role m = RUser))
                                      (reverse (messages state)))).

(** One line of the summary; [None] is the panic of [truncate(200)] off a
    character boundary. *)
Definition summary_content (content : str) : option str :=
  let content := (λ c, if decide (c = newline) then 32%N else c) <$> content in
  if 200 <? byte_len content
  then (λ head, head ++ lit "...") <$> byte_take content 200
  else Some content.
Definition summary_line (index : nat) (m : SessionMessage) : option str :=
  content ← summary_content (msg_content m);
  Some (show_nat (index + 1) ++ lit ". " ++ role_debug (msg_role m) ++ lit ": " ++ content).
Fixpoint summary_lines (index : nat) (l : list SessionMessage) : option (list str) :=
  match l with
  | [] => Some []
  | m :: l => line ← summary_line index m; rest ← summary_lines (S index) l; Some (line :: rest)
  end.
Definition summarize_compacted_messages (msgs : list SessionMessage) (keep_recent : nat)
    : option str :=
  let compacted_count := length msgs - keep_recent in
  lines ← summary_lines 0 (take compacted_count msgs);
  Some (join [newline]
    ((lit "Compacted " ++ show_nat compacted_count ++ lit " older session messages.") :: lines)).

(** ** Properties *)

(** The text of a compacted message on one line. *)
Definition one_line (content : str) : str :=
  (λ c, if decide (c = newline) then 32%N else c) <$> content.

Lemma summary_content_None content :
  summary_content content = None ↔
  200 < byte_len (one_line content) ∧ ∀ a b, one_line content = a ++ b → byte_len a ≠ 200.
Proof.
  unfold summary_content. fold (one_line content).
  destruct (Nat.ltb_spec 200 (byte_len (one_line content))).
  - rewrite <- byte_take_None. destruct (byte_take _ 200); cbn; naive_solver.
  - split; [done|]. intros [? _]. lia.
Qed.

Lemma summary_lines_None index l :
  summary_lines index l = None ↔ ∃ m, m ∈ l ∧ summary_content (msg_content m) = None.
Proof.
  revert index. induction l as [|m l IH]; intros index; cbn [summary_lines].
  - split; [done|]. intros (m & Hm & _). by apply not_elem_of_nil in Hm.
  - unfold summary_line. destruct (summary_content (msg_content m)) eqn:E; cbn [mbind option_bind].
    + destruct (summary_lines (S index) l) eqn:El; cbn [mbind option_bind].
      * split; [done|]. intros (m' & Hm & Hn). apply elem_of_cons in Hm as [->|Hm]; [congruence|].
        assert (summary_lines (S index) l = None) by (apply IH; eauto). congruence.
      * split; [|done]. intros _. apply IH in El as (m' & Hm & Hn). exists m'. by split; [right|].
    + split; [|done]. intros _. exists m. by split; [left|].
Qed.

(** Compacting a conversation panics exactly when one of the messages to be
    summarised, put on one line, is longer than 200 bytes and byte 200 falls inside
    a character; this happens for ordinary non-ASCII text. *)
Theorem compaction_summary_panics (msgs : list SessionMessage) (keep_recent : nat) :
  (summarize_compacted_messages msgs keep_recent = None ↔
   ∃ m, m ∈ take (length msgs - keep_recent) msgs ∧
        200 < byte_len (one_line (msg_content m)) ∧
        ∀ a b, one_line (msg_content m) = a ++ b → byte_len a ≠ 200) ∧
  ∃ text, summarize_compacted_messages [msg_user text] 0 = None.
Proof.
  split.
  - unfold summarize_compacted_messages.
    transitivity (summary_lines 0 (take (length msgs - keep_recent) msgs) = None).
    { by destruct (summary_lines 0 _). }
    rewrite summary_lines_None. by setoid_rewrite summary_content_None.
  - exists (replicate 67 em_dash). vm_compute. reflexivity.
Qed.

(** ** The planning tool ([codel00p-harness/src/planning.rs]) *)

Definition MAX_STEPS : nat := 50.

Inductive PlanStatus := Pending | InProgress | Completed.
#[export] Instance PlanStatus_eq_dec : EqDecision PlanStatus.
Proof. solve_decision. Defined.

Definition status_parse (value : str) : option PlanStatus :=
  if decide (value = lit "pending") then Some Pending
  else if decide (value = lit "in_progress") then Some InProgress
  else if decide (value = lit "completed") then Some Completed
  else None.
Definition status_label (s : PlanStatus) : str :=
  match s with
  | Pending => lit "pending" | InProgress => lit "in_progress" | Completed => lit "completed"
  end.

Record PlanItem := { plan_step : str; plan_status : PlanStatus }.

(** The shared store holds the latest plan. *)
Record PlanStore := { current : list PlanItem }.
Definition PlanStore_new : PlanStore := {| current := [] |}.
Definition set_plan (plan : list PlanItem) (s : PlanStore) : PlanStore := {| current := plan |}.

Definition plan_invalid (message : str) : HarnessError :=
  InvalidToolInput (lit "update_plan") message.
Definition show_count (n : nat) : str := show_N (N.of_nat n).

Definition parse_item (index : nat) (item : Value) : result HarnessError PlanItem :=
  let? step := ok_or (plan_invalid (lit "step " ++ show_count index ++
                                    lit ": missing non-empty `step`"))
    (step ← get_str (lit "step") item; if is_empty (trim step) then None else Some step) in
  let? status := ok_or (plan_invalid (lit "step " ++ show_count index ++
                          lit ": `status` must be one of pending, in_progress, completed"))
    (get_str (lit "status") item ≫= status_parse) in
  Ok {| plan_step := step; plan_status := status |}.

(** The loop over the items: the first invalid one fails the call. *)
Fixpoint parse_items (index : nat) (l : list Value) : result HarnessError (list PlanItem) :=
  match l with
  | [] => Ok []
  | item :: l =>
      let? i := parse_item index item in
      let? plan := parse_items (S index) l in
      Ok (i :: plan)
  end.

Definition count_status (s : PlanStatus) (plan : list PlanItem) : nat :=
  length (List.filter (λ i, bool_decide (plan_status i = s)) plan).

Section plan.
Context `{SerdeJson}.

Definition VOpt (o : option str) : Value := match o with Some s => VString s | None => VNull end.
Definition VCount (n : nat) : Value := VNumber (PosInt (N.of_nat n)).

Definition item_json (i : PlanItem) : Value :=
  json_object [(lit "step", VString (plan_step i));
               (lit "status", VString (status_label (plan_status i)))].

Definition validate_plan (input : Value) : result HarnessError (list PlanItem) :=
  let? items := ok_or (plan_invalid (lit "missing array field `plan`"))
                  (get (lit "plan") input ≫= as_array) in
  if is_empty items then Err (plan_invalid (lit "`plan` must not be empty")) else
  if MAX_STEPS <? length items then
    Err (plan_invalid (lit "plan has " ++ show_count (length items) ++
                       lit " steps; the maximum is " ++ show_count MAX_STEPS)) else
  let? plan := parse_items 0 items in
  let in_progress := count_status InProgress plan in
  if 1 <? in_progress then
    Err (plan_invalid (show_count in_progress ++
           lit " steps are in_progress; keep exactly one step in_progress at a time"))
  else Ok plan.

(** [UpdatePlanTool::execute]: the store is set before the answer is built. *)
Definition update_plan (input : Value) : st PlanStore HarnessError ToolResult := λ s,
  match validate_plan input with
  | Err e => (Err e, s)
  | Ok plan =>
      (Ok (ToolResult_json (json_object [
         (lit "plan", VArray (item_json <$> plan));
         (lit "total", VCount (length plan));
         (lit "completed", VCount (count_status Completed plan));
         (lit "explanation", VOpt (get_str (lit "explanation") input))])),
       set_plan plan s)
  end.

(** ** Properties *)

(** A plan: between one and fifty non-blank steps, at most one in progress. *)
Record plan_ok (plan : list PlanItem) : Prop := {
  plan_steps : 1 ≤ length plan ≤ MAX_STEPS;
  plan_one_active : count_status InProgress plan ≤ 1;
  plan_nonblank : Forall (λ i, trim (plan_step i) ≠ []) plan;
}.

Lemma status_parse_label s : status_parse (status_label s) = Some s.
Proof. destruct s; vm_compute; reflexivity. Qed.
Lemma status_label_parse v s : status_parse v = Some s → status_label s = v.
Proof. unfold status_parse. repeat case_decide; intros; simplify_eq; reflexivity. Qed.

Lemma parse_item_Ok index item i :
  parse_item index item = Ok i ↔
  get_str (lit "step") item = Some (plan_step i) ∧ trim (plan_step i) ≠ [] ∧
  get_str (lit "status") item = Some (status_label (plan_status i)).
Proof.
  unfold parse_item. destruct (get_str (lit "step") item) as [step|]; cbn [mbind option_bind];
    [|split; [done | naive_solver]].
  destruct (is_empty (trim step)) eqn:He; cbn [ok_or mbind result_bind].
  { split; [done|]. intros ([= ->] & Hne & _). by destruct (trim (plan_step i)). }
  assert (trim step ≠ []) as Hne by by destruct (trim step).
  destruct (get_str (lit "status") item) as [v|]; cbn [mbind option_bind ok_or result_bind];
    [|split; [done | naive_solver]].
  destruct (status_parse v) as [s|] eqn:Hs; cbn [ok_or mbind result_bind].
  - apply status_label_parse in Hs as <-. destruct i as [step' s']; cbn. split.
    + by intros [= <- <-].
    + intros ([= ->] & _ & [= E]). do 2 f_equal.
      apply (f_equal status_parse) in E. rewrite !status_parse_label in E. congruence.
  - split; [done|]. intros (_ & _ & [= ->]). by rewrite status_parse_label in Hs.
Qed.
(** An argument describes a plan item. *)
Definition describes (item : Value) (i : PlanItem) : Prop :=
  get_str (lit "step") item = Some (plan_step i) ∧
  get_str (lit "status") item = Some (status_label (plan_status i)).

Lemma describes_inj item i j : describes item i → describes item j → i = j.
Proof.
  destruct i as [a x], j as [b y]. unfold describes; cbn. intros [-> E1] [E2 E3].
  rewrite E1 in E3. apply (inj Some) in E2, E3. apply (f_equal status_parse) in E3.
  rewrite !status_parse_label in E3. congruence.
Qed.

Lemma parse_items_Ok index l plan :
  parse_items index l = Ok plan ↔
  Forall2 describes l plan ∧ Forall (λ i, trim (plan_step i) ≠ []) plan.
Proof.
  revert index plan. induction l as [|item l IH]; intros index plan; cbn.
  - split; [intros [= <-]; by repeat constructor|]. by intros [->%Forall2_nil_inv_l _].
  - split.
    + destruct (parse_item index item) as [i|e] eqn:Hi; cbn; [|done].
      destruct (parse_items (S index) l) as [rest|e] eqn:Hr; cbn; [|done]. intros [= <-].
      apply parse_item_Ok in Hi as (Hs & Hne & Ht). apply IH in Hr as [Hd Hn].
      split; by constructor.
    + intros [(i & rest & [Hs Ht] & Hd & ->)%Forall2_cons_inv_l [Hne Hn]%Forall_cons].
      assert (parse_item index item = Ok i) as -> by by apply parse_item_Ok.
      assert (parse_items (S index) l = Ok rest) as -> by (apply IH; done). done.
Qed.

Lemma validate_plan_Ok input plan :
  validate_plan input = Ok plan ↔
  ∃ items, get (lit "plan") input = Some (VArray items) ∧ Forall2 describes items plan ∧
           plan_ok plan.
Proof.
  unfold validate_plan. destruct (get (lit "plan") input) as [[| | | |items|]|];
    try (split; [done | naive_solver]).
  cbn [mbind option_bind as_array ok_or result_bind]. split.
  - destruct (is_empty items) eqn:He; [done|].
    destruct (Nat.ltb_spec MAX_STEPS (length items)); [done|].
    destruct (parse_items 0 items) as [plan'|] eqn:Hp; cbn [mbind result_bind]; [|done].
    destruct (Nat.ltb_spec 1 (count_status InProgress plan')); [done|]. intros [= <-].
    apply parse_items_Ok in Hp as [Hd Hn]. exists items. split; [done|]. split; [done|].
    split; [|done..]. rewrite <- (Forall2_length _ _ _ Hd). destruct items; [done|]. cbn in *. lia.
  - intros (items' & [= <-] & Hd & [Hlen Hone Hn]).
    pose proof (Forall2_length _ _ _ Hd) as Hl.
    destruct (is_empty items) eqn:He; [destruct items; cbn in *; [lia|done]|].
    destruct (Nat.ltb_spec MAX_STEPS (length items)); [lia|].
    assert (parse_items 0 items = Ok plan) as -> by by apply parse_items_Ok.
    cbn [mbind result_bind].
    destruct (Nat.ltb_spec 1 (count_status InProgress plan)); [lia|done].
Qed.

Lemma parse_items_Err index l e :
  parse_items index l = Err e → ∃ m, e = plan_invalid m.
Proof.
  revert index. induction l as [|item l IH]; intros index; cbn; [done|].
  destruct (parse_item index item) as [i|e'] eqn:Hi; cbn.
  - destruct (parse_items (S index) l) eqn:Hr; cbn; [done|]. intros E. apply (IH (S index)).
    congruence.
  - intros E. assert (e' = e) as -> by congruence. clear -Hi. revert Hi. unfold parse_item.
    destruct (get_str (lit "step") item ≫= _); cbn [ok_or mbind result_bind]; [|intros E%Err_inj; eexists; symmetry; exact E].
    destruct (get_str (lit "status") item ≫= status_parse); cbn [ok_or mbind result_bind]; [done|].
    intros E%Err_inj; eexists; symmetry; exact E.
Qed.

Lemma validate_plan_Err input e : validate_plan input = Err e → ∃ m, e = plan_invalid m.
Proof.
  unfold validate_plan. destruct (get (lit "plan") input ≫= as_array) as [items|];
    cbn [ok_or mbind result_bind]; [|intros E%Err_inj; eexists; symmetry; exact E].
  destruct (is_empty items); [intros E%Err_inj; eexists; symmetry; exact E|].
  destruct (MAX_STEPS <? length items); [intros E%Err_inj; eexists; symmetry; exact E|].
  destruct (parse_items 0 items) as [plan|e'] eqn:Hp; cbn [mbind result_bind].
  - destruct (1 <? _); [intros E%Err_inj; eexists; symmetry; exact E | done].
  - intros E. apply (parse_items_Err 0 items). congruence.
Qed.

(** The planning tool accepts exactly the well-formed plans: it replaces the
    stored plan, reporting its size and how many steps are complete, exactly when
    the argument lists between one and fifty items with a non-blank step and a
    known status of which at most one is in progress; otherwise it fails with an
    [InvalidToolInput] of its own and the stored plan stays as it was. *)
Theorem update_plan_exact (input : Value) (s : PlanStore) :
  (∀ plan,
     (∃ items, get (lit "plan") input = Some (VArray items) ∧ Forall2 describes items plan ∧
               plan_ok plan) ↔
     (∃ r, update_plan input s = (Ok r, {| current := plan |}) ∧
           get (lit "total") (result_content r) = Some (VCount (length plan)) ∧
           get (lit "completed") (result_content r) = Some (VCount (count_status Completed plan)))) ∧
  (∀ e s', update_plan input s = (Err e, s') →
     s' = s ∧ ∃ message, e = InvalidToolInput (lit "update_plan") message).
Proof.
  split.
  - intros plan. rewrite <- validate_plan_Ok. unfold update_plan.
    destruct (validate_plan input) as [plan'|e]; [|split; [done | by intros (? & ? & _)]]. split.
    + intros [= ->]. eexists. split; [done|].
      unfold json_object, ToolResult_json; cbn [result_content get]. by rewrite !map_get_map_of.
    + intros (r & [= _ ->] & _). done.
  - intros e s'. unfold update_plan. destruct (validate_plan input) as [|e0] eqn:Hv; [done|].
    intros [= <- <-]. split; [done|]. by apply validate_plan_Err in Hv.
Qed.

End plan.
