(* ===== verification/Recall.v ===== *)
(** * Project memory in a turn ([codel00p-harness/src/memory.rs])

    What a turn takes from the memory repository and what it leaves there: the
    provider that recalls approved memories, the two sources of candidates
    (explicit directives and recommendations) and the sink that files them for
    review.  The rendering [json_text] of a JSON error is a parameter. *)

From stdpp Require Import base numbers strings gmap list.
From S2P Require Import Prelude RustStr Storage Protocol TextSim MemoryTypes MemoryStore MemorySpec MemoryRefine MemoryInv MemoryProps Extraction Harness Prompts.

(** ** Display forms *)

Section display.
Context `{JsonLib} (json_text : JsonError → str).

Definition storage_error_text (e : StorageError) : str :=
  match e with
  | NotFound key => lit "record not found: " ++ key
  | Conflict key => lit "storage conflict: " ++ key
  | Serialization source => lit "serialization failed: " ++ json_text source
  | Backend message => lit "backend failure: " ++ message
  end.
(** [{:?}] of a status: the name of its variant. *)
Definition status_debug (s : MemoryStatus) : str :=
  match s with
  | Candidate => lit "Candidate" | Approved => lit "Approved"
  | Rejected => lit "Rejected" | Archived => lit "Archived"
  end.
Definition memory_error_text (e : MemoryError) : str :=
  match e with
  | InvalidCandidate message => lit "invalid memory candidate: " ++ message
  | InvalidEdit message => lit "invalid memory edit: " ++ message
  | InvalidMerge message => lit "invalid memory merge: " ++ message
  | InvalidSplit message => lit "invalid memory split: " ++ message
  | MemoryAlreadyExists id => lit "memory already exists: " ++ id
  | DuplicateMemory id existing_id =>
      lit "duplicate memory: " ++ id ++ lit " duplicates " ++ existing_id
  | MemoryNotFound id => lit "memory not found: " ++ id
  | InvalidTransition from to =>
      lit "invalid memory transition from " ++ status_debug from ++ lit " to " ++ status_debug to
  | Ranking message => lit "ranking provider failed: " ++ message
  | EStorage e => lit "storage failed: " ++ storage_error_text e
  | ESerialization e => lit "serialization failed: " ++ json_text e
  end.
End display.

(** ** Candidates from explicit directives *)

Record TurnMemoryExtractionRequest := {
  tmx_session_id : SessionId; tmx_turn_id : TurnId; tmx_assistant_message : option str;
  tmx_message_count : nat;
}.

Record ExplicitTurnMemoryExtractor := { xt_project : ProjectRef; xt_tags : list str }.
Definition ExplicitTurnMemoryExtractor_new (project : ProjectRef) : ExplicitTurnMemoryExtractor :=
  {| xt_project := project; xt_tags := [] |}.
Definition xt_with_tag (tag : str) (x : ExplicitTurnMemoryExtractor)
    : ExplicitTurnMemoryExtractor :=
  match non_empty_filter tag with
  | Some tag => {| xt_project := xt_project x; xt_tags := xt_tags x ++ [tag] |}
  | None => x
  end.

Definition turn_extract `{JsonLib} (json_text : JsonError → str) (x : ExplicitTurnMemoryExtractor)
    (request : TurnMemoryExtractionRequest) : result HarnessError (list MemoryCandidateInput) :=
  match tmx_assistant_message request with
  | None => Ok []
  | Some assistant_message =>
      let input := MemoryExtractionInput_new (xt_project x)
                     (MemorySource_turn (tmx_session_id request) (tmx_turn_id request))
                     assistant_message in
      let input := foldl (λ input tag, ex_with_tag tag input) input (xt_tags x) in
      map_err (λ error, InferenceFailed
                 (lit "memory extraction failed: " ++ memory_error_text json_text error))
        (extract input)
  end.

(** ** Recommendations *)

Record RecommendationToolCall := { rc_name : str; rc_result_snippet : option str }.
Record TurnMemoryRecommendationRequest := {
  tmr_session_id : SessionId; tmr_turn_id : TurnId; tmr_goal : str;
  tmr_assistant_message : option str; tmr_tool_calls : list RecommendationToolCall;
}.
Definition TurnMemoryRecommendationRequest_new (session_id : SessionId) (turn_id : TurnId)
    (goal : str) (assistant_message : option str) (tool_calls : list (str * option str))
    : TurnMemoryRecommendationRequest :=
  {| tmr_session_id := session_id; tmr_turn_id := turn_id; tmr_goal := goal;
     tmr_assistant_message := assistant_message;
     tmr_tool_calls := (λ '(name, snippet), {| rc_name := name; rc_result_snippet := snippet |})
                         <$> tool_calls |}.

Definition MUTATING_TOOLS : list str :=
  lit <$> ["create_file"; "update_file"; "delete_file"; "apply_patch"; "git_commit"]%string.
Definition is_mutating_tool (name : str) : bool := bool_decide (name ∈ MUTATING_TOOLS).

Definition ellipsis : char := 8230%N.
(** The first non-empty line, trimmed and capped. *)
Definition first_line (text : str) : str :=
  let line := default [] (List.find (λ line, negb (is_empty line)) (trim <$> lines text)) in
  if 120 <? length line then take 119 line ++ [ellipsis] else line.

Record DeterministicMemoryRecommender := {
  dr_project : ProjectRef; dr_tags : list str; dr_min_mutations : nat; dr_kind : MemoryKind;
}.
Definition DeterministicMemoryRecommender_new (project : ProjectRef)
    : DeterministicMemoryRecommender :=
  {| dr_project := project; dr_tags := [lit "auto-recommended"]; dr_min_mutations := 1;
     dr_kind := Workflow |}.
Definition dr_with_min_mutations (min : nat) (d : DeterministicMemoryRecommender)
    : DeterministicMemoryRecommender :=
  {| dr_project := dr_project d; dr_tags := dr_tags d; dr_min_mutations := Nat.max min 1;
     dr_kind := dr_kind d |}.
Definition dr_with_kind (kind : MemoryKind) (d : DeterministicMemoryRecommender)
    : DeterministicMemoryRecommender :=
  {| dr_project := dr_project d; dr_tags := dr_tags d; dr_min_mutations := dr_min_mutations d;
     dr_kind := kind |}.
Definition dr_with_tag (tag : str) (d : DeterministicMemoryRecommender)
    : DeterministicMemoryRecommender :=
  match non_empty_filter tag with
  | Some tag =>
      {| dr_project := dr_project d; dr_tags := dr_tags d ++ [tag];
         dr_min_mutations := dr_min_mutations d; dr_kind := dr_kind d |}
  | None => d
  end.

(** The loop over the calls: the distinct mutating tools in the order first
    seen, and the number of mutating calls. *)
Definition count_mutation (acc : list str * nat) (call : RecommendationToolCall)
    : list str * nat :=
  let '(mutating, mutation_count) := acc in
  if is_mutating_tool (rc_name call) then
    (if bool_decide (rc_name call ∈ mutating) then mutating else mutating ++ [rc_name call],
     S mutation_count)
  else (mutating, mutation_count).

Definition quotation : char := 34%N.
Definition recommendation_id (session_id : SessionId) (turn_id : TurnId) : str :=
  lit "memory-candidate-" ++ session_id ++ lit "-" ++ turn_id ++ lit "-1".
Definition recommendation_content (goal : str) (tools : list str) : str :=
  lit "Workflow: " ++ quotation :: goal ++ quotation :: lit " was accomplished using " ++
  join (lit ", ") tools ++ lit ".".

Definition recommend (d : DeterministicMemoryRecommender)
    (request : TurnMemoryRecommendationRequest)
    : result HarnessError (list MemoryCandidateInput) :=
  match tmr_assistant_message request with
  | None => Ok []
  | Some message =>
      let answer := trim message in
      if is_empty answer then Ok [] else
      let '(mutating, mutation_count) := foldl count_mutation ([], 0) (tmr_tool_calls request) in
      if mutation_count <? dr_min_mutations d then Ok [] else
      let goal := first_line (tmr_goal request) in
      let goal := if is_empty goal then first_line answer else goal in
      if is_empty goal then Ok [] else
      let candidate :=
        MemoryCandidateInput_new (recommendation_id (tmr_session_id request) (tmr_turn_id request))
          (dr_project d) (dr_kind d) (recommendation_content goal mutating)
          (MemorySource_turn (tmr_session_id request) (tmr_turn_id request)) in
      Ok [foldl (λ candidate tag, in_with_tag tag candidate) candidate (dr_tags d)]
  end.

(** ** The provider's filters *)

(** [MemoryRepositoryProjectMemoryProvider] less its repository, which is the
    state the retrieval reads. *)
Record MemoryProvider := {
  mp_project : ProjectRef; mp_kind : option MemoryKind; mp_tag : option str;
  mp_text : option str; mp_visibility : option MemoryVisibility; mp_limit : option nat;
  mp_proactive : bool;
}.
Definition MemoryProvider_new (project : ProjectRef) : MemoryProvider :=
  {| mp_project := project; mp_kind := None; mp_tag := None; mp_text := None;
     mp_visibility := None; mp_limit := None; mp_proactive := true |}.
Definition mp_with_kind (kind : MemoryKind) (p : MemoryProvider) : MemoryProvider :=
  {| mp_project := mp_project p; mp_kind := Some kind; mp_tag := mp_tag p; mp_text := mp_text p;
     mp_visibility := mp_visibility p; mp_limit := mp_limit p; mp_proactive := mp_proactive p |}.
Definition mp_with_proactive (proactive : bool) (p : MemoryProvider) : MemoryProvider :=
  {| mp_project := mp_project p; mp_kind := mp_kind p; mp_tag := mp_tag p; mp_text := mp_text p;
     mp_visibility := mp_visibility p; mp_limit := mp_limit p; mp_proactive := proactive |}.
Definition mp_with_visibility (visibility : MemoryVisibility) (p : MemoryProvider)
    : MemoryProvider :=
  {| mp_project := mp_project p; mp_kind := mp_kind p; mp_tag := mp_tag p; mp_text := mp_text p;
     mp_visibility := Some visibility; mp_limit := mp_limit p;
     mp_proactive := mp_proactive p |}.
Definition mp_with_tag (tag : str) (p : MemoryProvider) : MemoryProvider :=
  {| mp_project := mp_project p; mp_kind := mp_kind p; mp_tag := non_empty_filter tag;
     mp_text := mp_text p; mp_visibility := mp_visibility p; mp_limit := mp_limit p;
     mp_proactive := mp_proactive p |}.
Definition mp_with_text (text : str) (p : MemoryProvider) : MemoryProvider :=
  {| mp_project := mp_project p; mp_kind := mp_kind p; mp_tag := mp_tag p;
     mp_text := non_empty_filter text; mp_visibility := mp_visibility p;
     mp_limit := mp_limit p; mp_proactive := mp_proactive p |}.
Definition mp_with_limit (limit : nat) (p : MemoryProvider) : MemoryProvider :=
  {| mp_project := mp_project p; mp_kind := mp_kind p; mp_tag := mp_tag p; mp_text := mp_text p;
     mp_visibility := mp_visibility p; mp_limit := if limit =? 0 then None else Some limit;
     mp_proactive := mp_proactive p |}.

(** [if let Some(x) = option { query = query.with(x) }]. *)
Definition with_opt {A Q} (with_ : A → Q → Q) (o : option A) (q : Q) : Q :=
  match o with Some x => with_ x q | None => q end.

Definition ranked_query (p : MemoryProvider) (task : str) : MemoryRetrievalQuery :=
  with_opt rq_with_limit (mp_limit p) (with_opt rq_with_visibility (mp_visibility p)
    (with_opt rq_with_tag (mp_tag p) (with_opt rq_with_kind (mp_kind p)
      (MemoryRetrievalQuery_new (mp_project p) task)))).
Definition filter_query (p : MemoryProvider) : MemoryQuery :=
  with_opt mq_with_limit (mp_limit p) (with_opt mq_with_visibility (mp_visibility p)
    (with_opt mq_with_text (mp_text p) (with_opt mq_with_tag (mp_tag p)
      (with_opt mq_with_kind (mp_kind p) (MemoryQuery_new (mp_project p)))))).

Definition memory_item (r : MemoryRecord) (reason : str) : ProjectMemoryItem :=
  let e := record_entry r in
  {| item_id := entry_id e; item_kind := entry_kind e; item_content := entry_content e;
     item_tags := entry_tags e; item_reason := reason |}.

Record MemoryCandidateSinkOutcome := { created_ids : list str; duplicate_ids : list str }.
Definition outcome_default : MemoryCandidateSinkOutcome :=
  {| created_ids := []; duplicate_ids := [] |}.
Definition total_seen (o : MemoryCandidateSinkOutcome) : nat :=
  length (created_ids o) + length (duplicate_ids o).
Definition push_created (id : str) (o : MemoryCandidateSinkOutcome) : MemoryCandidateSinkOutcome :=
  {| created_ids := created_ids o ++ [id]; duplicate_ids := duplicate_ids o |}.
Definition push_duplicate (id : str) (o : MemoryCandidateSinkOutcome)
    : MemoryCandidateSinkOutcome :=
  {| created_ids := created_ids o; duplicate_ids := duplicate_ids o ++ [id] |}.

Section repository.
Context `{Unicode} `{JsonLib} `{!Serde MemoryRecord} `{!Serde MemoryAuditEvent}.
Context {S : Type} `{!DocumentStore S} `{!AppendLogStore S}.
Context (json_text : JsonError → str).

Definition retrieval_failed (error : MemoryError) : HarnessError :=
  InferenceFailed (lit "project memory retrieval failed: " ++ memory_error_text json_text error).

Definition provider_retrieve (p : MemoryProvider) (request : ProjectMemoryRequest)
    (s : StorageBackedMemoryStore S) : result HarnessError ProjectMemoryContext :=
  let task_text := if mp_proactive p then pmr_latest_user_message request else None in
  match task_text with
  | Some task =>
      let? found := map_err retrieval_failed (retrieve_ranked (ranked_query p task) s) in
      Ok {| items := (λ m, memory_item (rk_record m)
                        (lit "proactive recall (relevance " ++
                         show_N (N.of_nat (rk_score m)) ++ lit ")")) <$> found |}
  | None =>
      let? found := map_err retrieval_failed (retrieve (filter_query p) s) in
      Ok {| items := (λ m, memory_item (rt_record m) (rt_reason m)) <$> found |}
  end.

(** [MemoryRepositoryCandidateSink]: the repository behind its lock, which is
    poisoned when a thread panicked while it held it. *)
Record MemoryRepositoryCandidateSink := {
  repository : StorageBackedMemoryStore S; poisoned : bool;
}.
Definition with_repository (k : MemoryRepositoryCandidateSink) (s : StorageBackedMemoryStore S)
    : MemoryRepositoryCandidateSink :=
  {| repository := s; poisoned := poisoned k |}.

Definition persist_failed (error : MemoryError) : HarnessError :=
  InferenceFailed
    (lit "memory candidate persistence failed: " ++ memory_error_text json_text error).

Fixpoint persist_loop (candidates : list MemoryCandidateInput)
    (outcome : MemoryCandidateSinkOutcome) (s : StorageBackedMemoryStore S)
    : result HarnessError MemoryCandidateSinkOutcome * StorageBackedMemoryStore S :=
  match candidates with
  | [] => (Ok outcome, s)
  | candidate :: candidates =>
      let id := in_id candidate in
      let '(r, s) := create_candidate candidate s in
      match r with
      | Ok _ => persist_loop candidates (push_created id outcome) s
      | Err (MemoryAlreadyExists _) | Err (DuplicateMemory _ _) =>
          persist_loop candidates (push_duplicate id outcome) s
      | Err error => (Err (persist_failed error), s)
      end
  end.
Definition persist (candidates : list MemoryCandidateInput) (k : MemoryRepositoryCandidateSink)
    : result HarnessError MemoryCandidateSinkOutcome * MemoryRepositoryCandidateSink :=
  if poisoned k then
    (Err (Configuration (lit "memory candidate repository lock was poisoned")), k)
  else
    let '(r, s) := persist_loop candidates outcome_default (repository k) in
    (r, with_repository k s).
End repository.
Arguments MemoryRepositoryCandidateSink {_} S.

(** ** Filing candidates, on the abstract repository *)

(** The result of one [create_candidate] call as the sink sees it: filed or
    known already; any other error stops it. *)
Definition filing `{JsonLib} (r : result MemoryError MemoryRecord) : result MemoryError bool :=
  match r with
  | Ok _ => Ok true
  | Err (MemoryAlreadyExists _) | Err (DuplicateMemory _ _) => Ok false
  | Err e => Err e
  end.
Fixpoint spec_persist `{JsonLib} (candidates : list MemoryCandidateInput) (m : MemState)
    : result MemoryError (list bool) * MemState :=
  match candidates with
  | [] => (Ok [], m)
  | c :: candidates =>
      let '(r, m1) := spec_create c m in
      match filing r with
      | Ok b => let '(rest, m2) := spec_persist candidates m1 in
                (let? bs := rest in Ok (b :: bs), m2)
      | Err e => (Err e, m1)
      end
  end.
Definition push (id : str) (b : bool) (o : MemoryCandidateSinkOutcome)
    : MemoryCandidateSinkOutcome :=
  if b then push_created id o else push_duplicate id o.
Definition pushes (cs : list MemoryCandidateInput) (bs : list bool)
    (o : MemoryCandidateSinkOutcome) : MemoryCandidateSinkOutcome :=
  foldl (λ o '(c, b), push (in_id c) b o) o (zip cs bs).

Section filing.
Context `{JsonLib}.
Implicit Types (c : MemoryCandidateInput) (m : MemState).

Lemma find_app_Some {A} (f : A → bool) l1 l2 x :
  List.find f l1 = Some x → List.find f (l1 ++ l2) = Some x.
Proof. induction l1 as [|a l1 IH]; simpl; [done|]. by destruct (f a). Qed.

Lemma spec_records_add e m :
  spec_wf m → ents m !! entry_id e = None →
  spec_records (add_candidate e m) = spec_records m ++ [MemoryRecord_new e].
Proof.
  intros [_ _ Hi] Hnew. unfold spec_records, spec_indexed, add_candidate, index_event. simpl.
  rewrite omap_app, fmap_app. f_equal.
  - f_equal. assert (Hall : ∀ ev, ev ∈ idx m → entry_id e ≠ ev_memory_id ev).
    { intros ev Hev Heq. assert (Hin : ev_memory_id ev ∈ ev_memory_id <$> idx m)
        by by apply list_elem_of_fmap_2.
      apply (index_dom m Hi) in Hin as [e' He']. congruence. }
    induction (idx m) as [|ev l IH]; [done|]. simpl.
    rewrite lookup_insert_ne by (apply Hall; left).
    assert (Hl : ∀ ev', ev' ∈ l → entry_id e ≠ ev_memory_id ev').
    { intros ev' Hev'. apply Hall. by right. }
    destruct (ents m !! ev_memory_id ev); simpl; [f_equal|]; by apply IH.
  - simpl. by rewrite lookup_insert_eq.
Qed.

(** A valid candidate that the repository would not file: its id is taken, or
    an active memory says the same. *)
Definition known c m : Prop :=
  candidate_validate c = Ok tt ∧
  (is_Some (ents m !! in_id c) ∨ is_Some (List.find (duplicates (into_entry c)) (spec_records m))).

Lemma spec_create_cases c m :
  spec_wf m →
  (∃ e, candidate_validate c = Err e ∧ spec_create c m = (Err e, m) ∧ filing (Err e) = Err e) ∨
  (known c m ∧ ∃ e, spec_create c m = (Err e, m) ∧ filing (Err e) = Ok false) ∨
  (candidate_validate c = Ok tt ∧ ents m !! in_id c = None ∧
   spec_create c m = (Ok (MemoryRecord_new (into_entry c)), add_candidate (into_entry c) m)).
Proof.
  intros Hw. unfold spec_create, known.
  destruct (candidate_validate c) as [[]|e] eqn:Hv.
  - right. destruct (ents m !! in_id c) eqn:He; [left; split; [by eauto|]; by eexists|].
    destruct (List.find _ _) eqn:Hf; [left; split; [by eauto|]; by eexists|]. by right.
  - left. exists e. split; [done|]. split; [done|].
    unfold candidate_validate in Hv. repeat case_match; by simplify_eq.
Qed.

Lemma known_create c m :
  spec_wf m → known c m → ∃ e, spec_create c m = (Err e, m) ∧ filing (Err e) = Ok false.
Proof.
  intros Hw [Hv Hk]. unfold spec_create. rewrite Hv.
  destruct (ents m !! in_id c) eqn:He; [by eexists|].
  destruct (List.find _ _) eqn:Hf; [by eexists|]. destruct Hk as [[? ?]|[? ?]]; congruence.
Qed.

Lemma known_add c e m :
  spec_wf m → ents m !! entry_id e = None → known c m → known c (add_candidate e m).
Proof.
  intros Hw Hnew [Hv Hk]. split; [done|]. destruct Hk as [[x Hx]|[x Hx]].
  - left. exists x. rewrite ents_add. rewrite decide_False; congruence.
  - right. exists x. rewrite spec_records_add by done. by apply find_app_Some.
Qed.

(** What filing candidates does to the repository: it stays well formed, keeps
    every entry and adds, at the end of the listing, entries of candidates. *)
Record files (cs : list MemoryCandidateInput) m m' : Prop := {
  files_wf : spec_wf m';
  files_keep : ents m ⊆ ents m';
  files_new : ∀ id e, ents m' !! id = Some e →
    ents m !! id = Some e ∨ ∃ c, c ∈ cs ∧ in_id c = id ∧ e = into_entry c;
  files_records : ∃ new, spec_records m' = spec_records m ++ new ∧
    Forall (λ r, ∃ c, c ∈ cs ∧ r = MemoryRecord_new (into_entry c)) new;
  files_known : ∀ c, known c m → known c m';
}.

Lemma files_refl cs m : spec_wf m → files cs m m.
Proof. intros Hw. split; [done|done|by left| |done]. exists []. by rewrite app_nil_r. Qed.

Lemma files_trans cs m1 m2 m3 : files cs m1 m2 → files cs m2 m3 → files cs m1 m3.
Proof.
  intros [W2 K2 N2 (n2 & R2 & F2) S2] [W3 K3 N3 (n3 & R3 & F3) S3].
  split; [done|by etrans| | |by auto].
  - intros id e [He|?]%N3; [by apply N2|by right].
  - exists (n2 ++ n3). rewrite R3, R2, app_assoc. split; [done|]. by apply Forall_app.
Qed.

Lemma files_mono cs cs' m m' : cs ⊆ cs' → files cs m m' → files cs' m m'.
Proof.
  intros Hs [W K N (new & R & F) S]. split; [done|done| | |done].
  - intros id e [?|(c & ? & ?)]%N; [by left|]. right. exists c. set_solver.
  - exists new. split; [done|]. eapply Forall_impl; [exact F|]. intros r (c & ? & ?). set_solver.
Qed.

Lemma files_create c m : spec_wf m → files [c] m (spec_create c m).2.
Proof.
  intros Hw. destruct (spec_create_cases c m Hw)
    as [(e & _ & -> & _)|[(_ & e & -> & _)|(_ & Hn & ->)]]; simpl; try by apply files_refl.
  assert (Hid : entry_id (into_entry c) = in_id c) by by autorewrite with rust_rw.
  assert (He : ents m !! entry_id (into_entry c) = None) by by rewrite Hid.
  split.
  - apply spec_wf_add; [done..|by rewrite into_entry_eq].
  - apply map_subseteq_spec. intros id e Hx. rewrite ents_add, decide_False; congruence.
  - intros id e. rewrite ents_add. case_decide as Heq; [|by left]. intros [= <-].
    right. exists c. rewrite <- Heq, Hid. set_solver.
  - exists [MemoryRecord_new (into_entry c)]. split; [by apply spec_records_add|].
    apply Forall_singleton. exists c. set_solver.
  - intros c'. by apply known_add.
Qed.

Lemma spec_persist_files cs m : spec_wf m → files cs m (spec_persist cs m).2.
Proof.
  revert m. induction cs as [|c cs IH]; intros m Hw; simpl; [by apply files_refl|].
  pose proof (files_create c m Hw) as Hc.
  destruct (spec_create c m) as [r m1]. simpl in Hc.
  assert (Hc' : files (c :: cs) m m1) by (eapply files_mono; [|exact Hc]; set_solver).
  destruct (filing r) as [b|e]; [|done].
  specialize (IH m1 (files_wf _ _ _ Hc)). destruct (spec_persist cs m1) as [rest m2]. simpl in *.
  eapply files_trans; [exact Hc'|]. eapply files_mono; [|exact IH]. set_solver.
Qed.

(** The ids of the candidates with a given flag, in order. *)
Definition flagged (flag : bool) (cs : list MemoryCandidateInput) (bs : list bool) : list str :=
  omap (λ '(c, b), if Bool.eqb b flag then Some (in_id c) else None) (zip cs bs).

Lemma pushes_eq cs bs o :
  pushes cs bs o = {| created_ids := created_ids o ++ flagged true cs bs;
                      duplicate_ids := duplicate_ids o ++ flagged false cs bs |}.
Proof.
  unfold pushes, flagged. revert o. induction (zip cs bs) as [|[c b] l IH]; intros o; simpl.
  - rewrite !app_nil_r. by destruct o.
  - rewrite IH. destruct b; simpl; by rewrite <- app_assoc.
Qed.

Lemma flagged_perm cs bs :
  length bs = length cs → flagged true cs bs ++ flagged false cs bs ≡ₚ in_id <$> cs.
Proof.
  unfold flagged. revert bs. induction cs as [|c cs IH]; intros [|b bs] Hl; simpl in *; try done.
  destruct b; simpl; [by rewrite (IH bs) by lia|].
  rewrite <- Permutation_middle. by rewrite (IH bs) by lia.
Qed.

Lemma spec_persist_ok cs m :
  spec_wf m → Forall (λ c, candidate_validate c = Ok tt) cs →
  ∃ bs, (spec_persist cs m).1 = Ok bs ∧ length bs = length cs ∧
    Forall (λ c, known c (spec_persist cs m).2) cs ∧
    NoDup (flagged true cs bs) ∧
    (∀ id, id ∈ flagged true cs bs ↔
       ents m !! id = None ∧ is_Some (ents (spec_persist cs m).2 !! id)).
Proof.
  intros Hw Hv. revert m Hw. induction Hv as [|c cs Hc Hv IH]; intros m Hw; simpl.
  - exists []. do 3 (split; [done|]). split; [constructor|].
    intros id. split; [by intros ?%not_elem_of_nil|]. intros [-> [? ?]]. done.
  - pose proof (files_create c m Hw) as Hf.
    destruct (spec_create_cases c m Hw) as [(e & He & _)|Hcase]; [congruence|].
    destruct Hcase as [(Hk & e & Heq & Hfl)|(_ & Hn & Heq)];
      rewrite Heq in Hf |- *; simpl in Hf; [rewrite Hfl|]; simpl.
    + destruct (IH m Hw) as (bs & Hr & Hl & Hkn & Hnd & Hin).
      pose proof (spec_persist_files cs m Hw) as Hp.
      destruct (spec_persist cs m) as [r m2]. simpl in *. subst r. exists (false :: bs).
      split; [done|]. split; [simpl; lia|]. split; [|done].
      constructor; [by eapply files_known|done].
    + set (m1 := add_candidate (into_entry c) m) in *.
      destruct (IH m1 (files_wf _ _ _ Hf)) as (bs & Hr & Hl & Hkn & Hnd & Hin).
      pose proof (spec_persist_files cs m1 (files_wf _ _ _ Hf)) as Hp.
      assert (H1 : ents m1 !! in_id c = Some (into_entry c)).
      { subst m1. rewrite ents_add, decide_True; [done|]. by autorewrite with rust_rw. }
      destruct (spec_persist cs m1) as [r m2]. cbn [fst snd] in *. subst r. exists (true :: bs).
      split; [done|]. split; [simpl; lia|].
      assert (H2 : ents m2 !! in_id c = Some (into_entry c)).
      { eapply lookup_weaken; [exact H1|apply (files_keep _ _ _ Hp)]. }
      split; [constructor; [split; [done|left; by eauto]|done]|].
      unfold flagged. simpl. fold (flagged true cs bs). split.
      * constructor; [|done]. rewrite Hin, H1. by intros [? _].
      * intros id. rewrite elem_of_cons, Hin. subst m1. rewrite ents_add.
        autorewrite with rust_rw. case_decide as Hid; subst; [|naive_solver].
        split; [naive_solver|]. by left.
Qed.

Lemma flagged_known cs :
  flagged true cs (replicate (length cs) false) = [] ∧
  flagged false cs (replicate (length cs) false) = in_id <$> cs.
Proof.
  unfold flagged. induction cs as [|c cs [IH1 IH2]]; [done|]. split; [exact IH1|].
  simpl. f_equal. exact IH2.
Qed.

(** A second filing finds everything known. *)
Lemma spec_persist_known cs m :
  spec_wf m → Forall (λ c, known c m) cs →
  spec_persist cs m = (Ok (replicate (length cs) false), m).
Proof.
  intros Hw. induction 1 as [|c cs Hc _ IH]; [done|]. simpl.
  destruct (known_create c m Hw Hc) as (e & -> & Hf). by rewrite Hf, IH.
Qed.
End filing.

Lemma run_ops_app {S E A O} (step : O → st S E A) l1 l2 s :
  (run_ops step (l1 ++ l2) s).2 = (run_ops step l2 (run_ops step l1 s).2).2.
Proof.
  revert s. induction l1 as [|o l1 IH]; intros s; simpl; [done|].
  destruct (step o s) as [r s1]. specialize (IH s1).
  destruct (run_ops step (l1 ++ l2) s1), (run_ops step l1 s1). simpl in *. done.
Qed.

(** ** The sink and the provider over the repository *)

Section sink.
Context `{Unicode} `{JsonLib} `{!Serde MemoryRecord} `{!Serde MemoryAuditEvent}.
Context `{!SerdeLaws MemoryRecord} `{!SerdeLaws MemoryAuditEvent}.
Context {S : Type} `{!DocumentStore S} `{!AppendLogStore S} `{!StorageView S}.
Context `{!DocumentLaws S} `{!LogLaws S}.
Context (scope : StorageScope) (ranker : RankingProvider) (json_text : JsonError → str).
Abbreviation reachable := (reachable (S:=S) scope ranker).
Abbreviation repr := (repr (S:=S) scope ranker).

Lemma persist_loop_refines cs o s m :
  repr s m →
  let '(r, s') := persist_loop json_text cs o s in
  let '(r', m') := spec_persist cs m in
  repr s' m' ∧
  r = match r' with Ok bs => Ok (pushes cs bs o) | Err e => Err (persist_failed json_text e) end ∧
  (∀ n, r' = Ok (replicate n false) → s' = s).
Proof.
  revert o s m. induction cs as [|c cs IH]; intros o s m Hr; [done|]. simpl.
  destruct (create_refines scope ranker c s m Hr) as (Hres & Hrep & Hsame).
  destruct (create_candidate c s) as [r s1], (spec_create c m) as [r' m1]. simpl in *. subst r'.
  assert (Hgo : ∀ b, filing r = Ok b →
    let '(r2, s2) := persist_loop json_text cs (push (in_id c) b o) s1 in
    let '(r', m') := let '(rest, m2) := spec_persist cs m1 in
                     (let? bs := rest in Ok (b :: bs), m2) in
    repr s2 m' ∧
    r2 = match r' with Ok bs => Ok (pushes (c :: cs) bs o) | Err e => Err (persist_failed json_text e) end ∧
    (∀ n, r' = Ok (replicate n false) → s2 = s)).
  { intros b Hb. specialize (IH (push (in_id c) b o) s1 m1 Hrep).
    destruct (persist_loop json_text cs _ s1) as [r2 s2], (spec_persist cs m1) as [[bs|e] m2];
      simpl; destruct IH as (H1 & H2 & H3); (split; [done|]); (split; [done|]); [|done].
    intros [|n] Hn; simplify_eq/=. rewrite (H3 n eq_refl).
    destruct r as [x|e]; [done|]. by apply (Hsame e). }
  destruct r as [x|[]]; simpl in *; try (by apply (Hgo true)); try (by apply (Hgo false));
    (split; [done|]); (split; [done|]); intros ? [=].
Qed.

Lemma create_reachable c s : reachable s → reachable (create_candidate c s).2.
Proof.
  intros (s0 & ops & Hf & ->). exists s0, (ops ++ [OpCreate c]). split; [done|].
  rewrite run_ops_app. simpl. by destruct (create_candidate c _).
Qed.

Lemma persist_loop_reachable cs o s : reachable s → reachable (persist_loop json_text cs o s).2.
Proof.
  revert o s. induction cs as [|c cs IH]; intros o s Hs; [done|]. simpl.
  pose proof (create_reachable c s Hs) as Hc.
  destruct (create_candidate c s) as [r s1]. simpl in Hc.
  destruct r as [x|[]]; simpl; try done; by apply IH.
Qed.

(** The memory a candidate finds in its way: its id is taken, or an active
    memory of the same project and kind has the same content. *)
Definition represented (c : MemoryCandidateInput) (s : StorageBackedMemoryStore S) : Prop :=
  (∃ r, get (in_id c) s = Ok r) ∨
  ∃ r, get (record_id r) s = Ok r ∧ duplicates (into_entry c) r = true.

Lemma known_represented c s m : repr s m → spec_wf m → known c m → represented c s.
Proof.
  intros Hr [Hc _ Hi] [_ [[e He]|[r Hf]]].
  - left. exists (MemoryRecord_new e). by apply (get_Ok_repr scope ranker s m).
  - right. exists r. apply List.find_some in Hf as [Hin Hd]. split; [|done].
    apply list_elem_of_In in Hin. unfold spec_records in Hin.
    apply list_elem_of_fmap in Hin as (x & -> & Hx).
    apply (get_Ok_repr scope ranker s m); [done|]. by apply spec_indexed_elem.
Qed.

(** Filing candidates that pass validation succeeds; it sorts their
    ids into created and duplicate ones; the created ones are new, distinct and
    stored as unreviewed candidates, everything stored before is as it was and
    nothing else is added; no candidate is lost, since each has its id stored or
    an active memory with its content; and filing them again changes nothing
    and reports them all as duplicates. *)
Theorem persist_exact cs k :
  poisoned k = false → reachable (repository k) →
  Forall (λ c, candidate_validate c = Ok tt) cs →
  ∃ o k', persist json_text cs k = (Ok o, k') ∧
    created_ids o ++ duplicate_ids o ≡ₚ in_id <$> cs ∧ NoDup (created_ids o) ∧
    (∀ id r, get id (repository k) = Ok r → get id (repository k') = Ok r) ∧
    (∀ id r, get id (repository k') = Ok r → get id (repository k) = Ok r ∨
       (id ∈ created_ids o ∧ ∃ c, c ∈ cs ∧ in_id c = id ∧ r = MemoryRecord_new (into_entry c))) ∧
    (∀ id, id ∈ created_ids o → get id (repository k) = Err (MemoryNotFound id) ∧
       ∃ r, get id (repository k') = Ok r ∧ entry_status (record_entry r) = Candidate) ∧
    Forall (λ c, represented c (repository k')) cs ∧
    persist json_text cs k' = (Ok {| created_ids := []; duplicate_ids := in_id <$> cs |}, k').
Proof.
  intros Hp (m & Hr & Hw)%reachable_repr Hv. destruct k as [s p]. simpl in *. subst p.
  destruct (spec_persist_ok cs m Hw Hv) as (bs & Hbs & Hl & Hk & Hnd & Hin).
  pose proof (spec_persist_files cs m Hw) as Hf.
  pose proof (persist_loop_refines cs outcome_default s m Hr) as Href. unfold persist. simpl.
  destruct (persist_loop json_text cs outcome_default s) as [r s'], (spec_persist cs m) as [r' m'].
  simpl in *. subst r'. destruct Href as (Hr' & -> & _).
  rewrite pushes_eq. simpl. eexists _, _. split; [done|]. simpl.
  split; [by apply flagged_perm|]. split; [done|].
  assert (Hget : ∀ id x, get id s' = Ok x ↔ ents m' !! id = Some (record_entry x)).
  { intros id x. by apply (get_Ok_repr scope ranker). }
  assert (Hget0 : ∀ id x, get id s = Ok x ↔ ents m !! id = Some (record_entry x)).
  { intros id x. by apply (get_Ok_repr scope ranker). }
  split; [|split; [|split; [|split]]].
  - intros id x. rewrite Hget, Hget0. intros Hx.
    eapply lookup_weaken; [exact Hx|apply (files_keep _ _ _ Hf)].
  - intros id x. rewrite Hget, Hget0, Hin. intros Hx.
    destruct (files_new _ _ _ Hf id _ Hx) as [?|(c & Hc & Hid & He)]; [by left|].
    destruct (ents m !! id) as [e0|] eqn:He0.
    + left. pose proof (lookup_weaken _ _ _ _ He0 (files_keep _ _ _ Hf)). congruence.
    + right. split; [by eauto|]. exists c. destruct x; simpl in *. naive_solver.
  - intros id [Hn [e He]]%Hin. split; [by rewrite (get_repr scope ranker s m), Hn|].
    exists (MemoryRecord_new e). split; [by apply Hget|]. simpl.
    destruct (files_new _ _ _ Hf id e He) as [?|(c & _ & _ & ->)]; [congruence|].
    by rewrite into_entry_eq.
  - eapply Forall_impl; [exact Hk|]. intros c Hkc. eapply known_represented; [done|apply Hf|done].
  - pose proof (persist_loop_refines cs outcome_default s' m' Hr') as Href.
    rewrite (spec_persist_known cs m') in Href; [|apply Hf|done].
    destruct (persist_loop json_text cs outcome_default s') as [r2 s2].
    destruct Href as (_ & -> & Hs). rewrite (Hs _ eq_refl), pushes_eq. simpl.
    destruct (flagged_known cs) as [-> ->]. done.
Qed.

Lemma persist_loop_stops pre bad post o s e :
  reachable s →
  Forall (λ c, candidate_validate c = Ok tt) pre → candidate_validate bad = Err e →
  persist_loop json_text (pre ++ bad :: post) o s =
    (Err (persist_failed json_text e), (persist_loop json_text pre o s).2).
Proof.
  intros Hs Hv Hbad. revert s o Hs. induction Hv as [|c cs Hc Hv IH]; intros s o Hs.
  - simpl. unfold create_candidate. rewrite Hbad. simpl.
    unfold candidate_validate in Hbad. repeat case_match; by simplify_eq.
  - simpl. pose proof (create_reachable c s Hs) as Hr1.
    destruct (reachable_repr scope ranker s Hs) as (m & Hr & Hw).
    destruct (create_refines scope ranker c s m Hr) as (Hres & _ & _).
    destruct (create_candidate c s) as [r s1]. simpl in *. subst r.
    destruct (spec_create_cases c m Hw) as [(e' & He & _)|[(_ & e' & -> & Hfl)|(_ & _ & ->)]];
      [congruence| |by apply IH].
    destruct e'; simpl in *; try done; by apply IH.
Qed.

(** The first invalid candidate stops the sink with its error; those before it
    have been filed. *)
Theorem persist_stops pre bad post k e :
  poisoned k = false → reachable (repository k) →
  Forall (λ c, candidate_validate c = Ok tt) pre → candidate_validate bad = Err e →
  persist json_text (pre ++ bad :: post) k =
    (Err (persist_failed json_text e), (persist json_text pre k).2).
Proof.
  intros Hp Hs Hv Hbad. unfold persist. rewrite Hp.
  rewrite (persist_loop_stops pre bad post _ _ e) by done. by destruct (persist_loop _ pre _ _).
Qed.

(** *** What a turn recalls *)

Lemma filter_candidates (f : MemoryRecord → bool) new :
  (∀ r, f r = true → entry_status (record_entry r) = Approved) →
  Forall (λ r, entry_status (record_entry r) = Candidate) new → List.filter f new = [].
Proof.
  intros Hf. induction 1 as [|r new Hr _ IH]; simpl; [done|]. rewrite IH.
  destruct (f r) eqn:Hfr; [|done]. apply Hf in Hfr. congruence.
Qed.

Lemma retrieve_accepts_approved q r :
  retrieve_accepts q r = true → entry_status (record_entry r) = Approved.
Proof.
  unfold retrieve_accepts. rewrite !andb_true_iff. intros ((((((Ha & _) & _) & _) & _) & _) & _).
  by apply bool_decide_eq_true in Ha.
Qed.
Lemma ranked_accepts_approved q r :
  ranked_accepts q r = true → entry_status (record_entry r) = Approved.
Proof.
  unfold ranked_accepts. rewrite !andb_true_iff. intros (((((Ha & _) & _) & _) & _) & _).
  by apply bool_decide_eq_true in Ha.
Qed.

(** C16. Nothing a turn proposes reaches a prompt before it is reviewed:
    whatever candidates are filed, valid or not, every recall gives exactly what
    it gave before. *)
Theorem recall_ignores_candidates p request cs k :
  reachable (repository k) →
  provider_retrieve json_text p request (repository (persist json_text cs k).2) =
  provider_retrieve json_text p request (repository k).
Proof.
  intros Hs. unfold persist. destruct (poisoned k); [done|].
  destruct (reachable_repr scope ranker _ Hs) as (m & Hr & Hw).
  pose proof (persist_loop_refines cs outcome_default _ m Hr) as Href.
  pose proof (spec_persist_files cs m Hw) as Hf.
  destruct (persist_loop json_text cs outcome_default (repository k)) as [r s'].
  destruct (spec_persist cs m) as [r' m']. destruct Href as (Hr' & _ & _). simpl in *.
  destruct (files_records _ _ _ Hf) as (new & Hrec & Hnew).
  assert (Hc : Forall (λ x, entry_status (record_entry x) = Candidate) new).
  { eapply Forall_impl; [exact Hnew|]. intros x (c & _ & ->). simpl. by rewrite into_entry_eq. }
  pose proof (records_repr scope ranker _ _ Hr) as H1.
  pose proof (records_repr scope ranker _ _ Hr') as H2. rewrite Hrec in H2.
  unfold provider_retrieve, retrieve, retrieve_ranked. rewrite H1, H2. simpl.
  rewrite (repr_ranker _ _ _ _ Hr), (repr_ranker _ _ _ _ Hr').
  destruct (if mp_proactive p then _ else _) as [task|];
    rewrite List.filter_app, (filter_candidates _ new) by
      eauto using retrieve_accepts_approved, ranked_accepts_approved;
    by rewrite app_nil_r.
Qed.

Definition limit_of (p : MemoryProvider) : option nat :=
  n ← mp_limit p; if n =? 0 then None else Some n.

Lemma ranked_query_eq p task :
  ranked_query p task =
  {| rq_project := mp_project p; rq_query := task; rq_kind := mp_kind p; rq_sensitivity := None;
     rq_visibility := mp_visibility p; rq_tag := mp_tag p ≫= non_empty_filter;
     rq_min_score := 1; rq_limit := limit_of p |}.
Proof. unfold limit_of. destruct p as [? [] [] ? [] [] ?]; done. Qed.
Lemma filter_query_eq p :
  filter_query p =
  {| mq_project := mp_project p; mq_kind := mp_kind p; mq_sensitivity := None;
     mq_visibility := mp_visibility p; mq_tag := mp_tag p ≫= non_empty_filter;
     mq_text := mp_text p ≫= non_empty_filter; mq_limit := limit_of p |}.
Proof. unfold limit_of. destruct p as [? [] [] [] [] [] ?]; done. Qed.

(** What the provider's own filters ask of a memory. *)
Definition provider_accepts (p : MemoryProvider) (e : MemoryEntry) : bool :=
  bool_decide (entry_status e = Approved) && same_project e (mp_project p)
  && negb (bool_decide (entry_sensitivity e = Sensitive)) && visible_within (mp_visibility p) e
  && opt_is (mp_kind p) (entry_kind e) && has_tag (mp_tag p ≫= non_empty_filter) e.

Lemma approval_logged s id r :
  reachable s → get id s = Ok r → entry_status (record_entry r) = Approved →
  ∃ evs ev, audit_log id s = Ok evs ∧ ev ∈ evs ∧ ev_action ev = ActionApproved.
Proof.
  intros Hs Hg Ha. destruct (audit_replays scope ranker s id r Hs Hg) as (evs & Hl & Hrep & _).
  unfold snapshot in Hrep. rewrite Ha in Hrep.
  destruct (replay_trail_approved evs _ Hrep) as (ev & Hin & Hact). by exists evs, ev.
Qed.

Lemma provider_found p request s :
  reachable s →
  ∀ ctx, provider_retrieve json_text p request s = Ok ctx →
  (∀ i, i ∈ items ctx → ∃ r reason, i = memory_item r reason ∧ get (record_id r) s = Ok r ∧
     provider_accepts p (record_entry r) = true) ∧
  (∀ n, limit_of p = Some n → length (items ctx) ≤ n).
Proof.
  intros Hs ctx. destruct (records_listing scope ranker s Hs) as (l & _ & Hrec & _ & Hget).
  unfold provider_retrieve, retrieve, retrieve_ranked. rewrite Hrec. simpl.
  destruct (if mp_proactive p then _ else _) as [task|].
  - rewrite ranked_query_eq. simpl. destruct (ms_ranker s _ _) as [scores|e]; simpl; [|done].
    case_match; simpl; [done|]. intros [= <-]. simpl. split.
    + intros i (x & -> & Hx)%list_elem_of_fmap. apply selection_elem in Hx.
      apply list_elem_of_fmap in Hx as ([r sc] & -> & Hx).
      apply elem_of_list_filter_bool in Hx as [Hx _]. apply elem_of_zip_l in Hx.
      apply elem_of_list_filter_bool in Hx as [Hx Ha]. simpl.
      exists r. eexists. split; [done|]. split; [by apply Hget|]. exact Ha.
    + intros n Hn. rewrite length_fmap. by apply length_truncate_opt.
  - rewrite filter_query_eq. simpl. intros [= <-]. simpl. split.
    + intros i (x & -> & Hx)%list_elem_of_fmap. apply selection_elem in Hx.
      apply list_elem_of_fmap in Hx as (r & -> & Hx).
      apply elem_of_list_filter_bool in Hx as [Hx Ha]. simpl.
      exists r. eexists. split; [done|]. split; [by apply Hget|].
      unfold retrieve_accepts in Ha. simpl in Ha. by apply andb_true_iff in Ha as [Ha _].
    + intros n Hn. rewrite length_fmap. by apply length_truncate_opt.
Qed.

(** Everything a turn recalls was reviewed: an item shows the stored id,
    kind, content and tags of an approved, non-sensitive memory of the
    provider's project that passes its kind, tag and visibility filters, and the
    audit log of that memory holds the approval; there are at most as many items
    as the limit says. *)
Theorem recall_reviewed p request s ctx :
  reachable s → provider_retrieve json_text p request s = Ok ctx →
  (∀ n, limit_of p = Some n → length (items ctx) ≤ n) ∧
  ∀ i, i ∈ items ctx → ∃ r evs ev,
    get (item_id i) s = Ok r ∧ i = memory_item r (item_reason i) ∧
    provider_accepts p (record_entry r) = true ∧
    audit_log (item_id i) s = Ok evs ∧ ev ∈ evs ∧ ev_action ev = ActionApproved.
Proof.
  intros Hs Hp. destruct (provider_found p request s Hs ctx Hp) as [Hitems Hlim].
  split; [done|]. intros i Hi. destruct (Hitems i Hi) as (r & reason & -> & Hg & Ha).
  assert (Hst : entry_status (record_entry r) = Approved).
  { unfold provider_accepts in Ha. rewrite !andb_true_iff in Ha.
    destruct Ha as (((((Hst & _) & _) & _) & _) & _). by apply bool_decide_eq_true in Hst. }
  destruct (approval_logged s _ r Hs Hg Hst) as (evs & ev & Hl & Hin & Hact).
  by exists r, evs, ev.
Qed.
End sink.

(** ** Recommendations *)

Lemma count_mutation_spec calls acc :
  NoDup acc.1 →
  let '(tools, n) := foldl count_mutation acc calls in
  NoDup tools ∧ n = acc.2 + length (List.filter (λ c, is_mutating_tool (rc_name c)) calls) ∧
  ∀ t, t ∈ tools ↔ t ∈ acc.1 ∨ ∃ c, c ∈ calls ∧ rc_name c = t ∧ is_mutating_tool t = true.
Proof.
  revert acc. induction calls as [|c calls IH]; intros [tools n] Hnd; simpl.
  - split; [done|]. split; [lia|]. intros t. split; [by left|].
    intros [?|(c & Hc%not_elem_of_nil & _)]; done.
  - destruct (is_mutating_tool (rc_name c)) eqn:Hm.
    + case_bool_decide as Hin.
      * specialize (IH (tools, Datatypes.S n) Hnd). destruct (foldl _ _ _) as [tools' n'].
        destruct IH as (H1 & H2 & H3). split; [done|]. simpl in *. split; [lia|].
        intros t. rewrite H3. setoid_rewrite elem_of_cons. split; [naive_solver|].
        intros [?|(c' & [->|?] & <- & ?)]; [by left|by left|naive_solver].
      * assert (Hnd' : NoDup (tools ++ [rc_name c])).
        { apply NoDup_app. split; [done|]. split; [|apply NoDup_singleton]. set_solver. }
        specialize (IH (tools ++ [rc_name c], Datatypes.S n) Hnd').
        destruct (foldl _ _ _) as [tools' n'].
        destruct IH as (H1 & H2 & H3). split; [done|]. simpl in *. split; [lia|].
        intros t. rewrite H3, elem_of_app, list_elem_of_singleton.
        setoid_rewrite elem_of_cons. split; [naive_solver|].
        intros [?|(c' & [->|?] & <- & ?)]; [by left; left|by left; right|naive_solver].
    + specialize (IH (tools, n) Hnd). destruct (foldl _ _ _) as [tools' n'].
      destruct IH as (H1 & H2 & H3). split; [done|]. split; [done|].
      intros t. rewrite H3. setoid_rewrite elem_of_cons. split; [naive_solver|].
      intros [?|(c' & [->|?] & <- & ?)]; [by left|congruence|naive_solver].
Qed.

(** A summary line is at most 120 characters long. *)
Lemma first_line_bounded text : length (first_line text) ≤ 120.
Proof.
  unfold first_line. set (line := default _ _).
  destruct (120 <? length line) eqn:Hl.
  - rewrite length_app, length_take. change (length [ellipsis]) with 1. lia.
  - by apply Nat.ltb_ge in Hl.
Qed.

Definition mutations (calls : list RecommendationToolCall) : list RecommendationToolCall :=
  List.filter (λ c, is_mutating_tool (rc_name c)) calls.

Lemma strip_suffix_char c s s' : strip_suffix [c] s = Some s' → s = s' ++ [c].
Proof.
  unfold strip_suffix. destruct (reverse s) as [|x r] eqn:Hr; simpl; [done|].
  destruct (N.eqb_spec c x) as [<-|]; simpl; [|done]. intros [= <-].
  rewrite <- (reverse_involutive s), Hr. by rewrite reverse_cons.
Qed.

(** A character that is not whitespace stays in its line. *)
Lemma line_body_keeps l c : c ∈ l → is_whitespace c = false → c ∈ line_body l.
Proof.
  intros Hc Hw. assert (Hn : ∀ x, is_whitespace x = true → c ≠ x) by (intros x Hx ->; congruence).
  unfold line_body. destruct (strip_suffix [newline] l) as [l'|] eqn:H1; [|done].
  apply strip_suffix_char in H1. subst l.
  assert (Hl' : c ∈ l').
  { apply elem_of_app in Hc as [?|Hc]; [done|]. apply list_elem_of_singleton in Hc.
    by destruct (Hn newline eq_refl). }
  destruct (strip_suffix [carriage_return] l') as [l''|] eqn:H2; [|done]. simpl.
  apply strip_suffix_char in H2. subst l'.
  apply elem_of_app in Hl' as [?|Hl']; [done|]. apply list_elem_of_singleton in Hl'.
  by destruct (Hn carriage_return eq_refl).
Qed.

(** A text that is not blank has a summary line. *)
Lemma first_line_nonempty text : trim text ≠ [] → first_line (trim text) ≠ [].
Proof.
  intros Hne. destruct (trim_ends (trim text) Hne (trim_trim text)) as (c & Hlast & Hw).
  assert (Hin : c ∈ trim text) by by apply last_Some_elem_of.
  rewrite <- (split_inclusive_nl_concat (trim text)) in Hin.
  apply elem_of_concat in Hin as (l & Hl & Hc).
  unfold first_line. set (ls := trim <$> lines (trim text)).
  assert (Hfind : ∃ line, List.find (λ line, negb (is_empty line)) ls = Some line).
  { destruct (List.find (λ line, negb (is_empty line)) ls) eqn:Hf; [by eexists|].
    exfalso. pose proof (List.find_none _ ls Hf (trim (line_body l))) as Hnone.
    assert (Ht : trim (line_body l) ≠ []).
    { by apply (trim_nonempty _ c); [apply line_body_keeps|]. }
    destruct (trim (line_body l)) as [|x r] eqn:Hx; [done|].
    enough (negb (is_empty (x :: r)) = false) by done. apply Hnone.
    apply list_elem_of_In. subst ls. rewrite <- Hx. unfold lines.
    by do 2 apply list_elem_of_fmap_2. }
  destruct Hfind as (line & Hfl). rewrite Hfl. simpl.
  apply List.find_some in Hfl as [_ Hline].
  destruct (120 <? length line); [by destruct (take 119 line)|]. by destruct line.
Qed.

(** A turn is productive when it ended with an answer after enough mutating calls. *)
Definition productive (d : DeterministicMemoryRecommender)
    (request : TurnMemoryRecommendationRequest) : Prop :=
  (∃ message, tmr_assistant_message request = Some message ∧ trim message ≠ []) ∧
  dr_min_mutations d ≤ length (mutations (tmr_tool_calls request)).

(** The recommender never fails.  It recommends nothing for a turn that is not
    productive and exactly one candidate otherwise, which passes the
    repository's validation, is of the configured project and kind, names the
    turn as its source, and whose content is a goal of at most 120 characters
    with exactly the distinct mutating tools of the turn. *)
Theorem recommend_spec `{JsonLib} d request :
  (¬ productive d request → recommend d request = Ok []) ∧
  (productive d request → ∃ c goal tools,
     recommend d request = Ok [c] ∧ candidate_validate c = Ok tt ∧
     in_id c = recommendation_id (tmr_session_id request) (tmr_turn_id request) ∧
     in_project c = dr_project d ∧ in_kind c = dr_kind d ∧
     in_source c = MemorySource_turn (tmr_session_id request) (tmr_turn_id request) ∧
     in_tags c = omap non_empty_filter (dr_tags d) ∧
     in_content c = recommendation_content goal tools ∧ goal ≠ [] ∧ length goal ≤ 120 ∧
     NoDup tools ∧ (∀ t, t ∈ tools ↔ t ∈ rc_name <$> mutations (tmr_tool_calls request))).
Proof.
  unfold recommend, productive, mutations.
  destruct (tmr_assistant_message request) as [message|]; [|split; [done|naive_solver]].
  destruct (is_empty (trim message)) eqn:He.
  { split; [done|]. intros [(m & [= <-] & Hne) _]. by destruct (trim message). }
  pose proof (count_mutation_spec (tmr_tool_calls request) ([], 0) NoDup_nil_2) as Hcnt.
  destruct (foldl count_mutation _ _) as [tools n]. destruct Hcnt as (Hnd & Hn & Hin).
  simpl in Hn, Hin. rewrite <- Hn. destruct (n <? dr_min_mutations d) eqn:Hlt.
  { split; [done|]. apply Nat.ltb_lt in Hlt. intros [_ ?]. lia. }
  apply Nat.ltb_ge in Hlt. assert (Hne : trim message ≠ []) by by destruct (trim message).
  split; [intros Hp; destruct Hp; split; [by eauto|done]|]. intros _.
  set (goal := if is_empty (first_line (tmr_goal request)) then _ else _).
  assert (Hg : goal ≠ [] ∧ length goal ≤ 120).
  { subst goal. destruct (first_line (tmr_goal request)) eqn:Hf; simpl.
    - split; [by apply first_line_nonempty|apply first_line_bounded].
    - split; [done|]. pose proof (first_line_bounded (tmr_goal request)) as Hb.
      by rewrite Hf in Hb. }
  destruct Hg as [Hg Hlen]. destruct (is_empty goal) eqn:Heg; [by destruct goal|].
  rewrite fold_with_tag. eexists _, goal, tools. split; [done|]. simpl. split.
  { unfold candidate_validate. simpl.
    destruct (trim (recommendation_id _ _)) eqn:H1.
    { by apply (trim_nonempty _ 109%N) in H1; [|left|]. }
    destruct (trim (recommendation_content _ _)) eqn:H2; [|done].
    by apply (trim_nonempty _ 87%N) in H2; [|left|]. }
  repeat (split; [done|]). intros t. rewrite Hin, list_elem_of_fmap. split.
  - intros [?%not_elem_of_nil|(c & Hc & <- & Hm)]; [done|]. exists c.
    by rewrite elem_of_list_filter_bool.
  - intros (c & -> & [Hc Hm]%elem_of_list_filter_bool). right. by exists c.
Qed.

(** ** The two sources of candidates together *)

Lemma fold_ex_tags tags i :
  ex_source (foldl (λ i tag, ex_with_tag tag i) i tags) = ex_source i.
Proof.
  revert i. induction tags as [|t tags IH]; intros i; simpl; [done|]. rewrite IH.
  unfold ex_with_tag. by case_match.
Qed.

(** The first explicit candidate of a turn and the recommendation for it have
    the same id. *)
Lemma turn_extract_first_id `{JsonLib} json_text x request c cs :
  turn_extract json_text x request = Ok (c :: cs) →
  in_id c = recommendation_id (tmx_session_id request) (tmx_turn_id request).
Proof.
  unfold turn_extract. destruct (tmx_assistant_message request) as [text|]; [|done].
  rewrite extract_eq. simpl. set (input := foldl _ _ _). destruct (omap _ _) as [|p l]; [done|].
  simpl. intros [= <- _]. simpl. unfold candidate_id, recommendation_id.
  assert (Hs : ex_source input =
    MemorySource_turn (tmx_session_id request) (tmx_turn_id request)) by apply fold_ex_tags.
  rewrite Hs. done.
Qed.

Section collision.
Context `{Unicode} `{JsonLib} `{!Serde MemoryRecord} `{!Serde MemoryAuditEvent}.
Context `{!SerdeLaws MemoryRecord} `{!SerdeLaws MemoryAuditEvent}.
Context {S : Type} `{!DocumentStore S} `{!AppendLogStore S} `{!StorageView S}.
Context `{!DocumentLaws S} `{!LogLaws S}.
Context (scope : StorageScope) (ranker : RankingProvider) (json_text : JsonError → str).

(** In a turn with an explicit directive that was filed, the recommendation for
    the same turn is dropped as a duplicate, whatever it says: the two sources
    number their candidates from one under the same prefix. *)
Theorem recommendation_dropped x d k session turn text count goal calls c cs r record :
  poisoned k = false → reachable (S:=S) scope ranker (repository k) →
  turn_extract json_text x {| tmx_session_id := session; tmx_turn_id := turn;
    tmx_assistant_message := Some text; tmx_message_count := count |} = Ok (c :: cs) →
  recommend d (TurnMemoryRecommendationRequest_new session turn goal (Some text) calls) = Ok [r] →
  let k' := (persist json_text (c :: cs) k).2 in
  get (in_id c) (repository k') = Ok record →
  persist json_text [r] k' = (Ok {| created_ids := []; duplicate_ids := [in_id r] |}, k').
Proof.
  intros Hp Hs Hx Hr k' Hget. apply turn_extract_first_id in Hx. simpl in Hx.
  set (req := TurnMemoryRecommendationRequest_new session turn goal (Some text) calls) in *.
  destruct (recommend_spec d req) as [Hno Hyes].
  assert (Hprod : productive d req).
  { destruct (decide (dr_min_mutations d ≤ length (mutations (tmr_tool_calls req)))) as [Hm|Hm].
    - destruct (decide (trim text = [])) as [Ht|Ht].
      + rewrite Hno in Hr; [done|]. intros [(m & [= <-] & Hne) _]. done.
      + split; [|done]. by exists text.
    - rewrite Hno in Hr; [done|]. by intros [_ ?]. }
  destruct (Hyes Hprod) as (c' & _ & _ & Hrec & Hv & Hid & _).
  rewrite Hr in Hrec. injection Hrec as <-.
  assert (Hk' : poisoned k' = false ∧ reachable (S:=S) scope ranker (repository k')).
  { subst k'. unfold persist. rewrite Hp.
    pose proof (persist_loop_reachable scope ranker json_text (c :: cs) outcome_default _ Hs) as Hl.
    destruct (persist_loop _ _ _ _) as [? s']. done. }
  destruct Hk' as [Hp' Hs']. destruct (reachable_repr scope ranker _ Hs') as (m & Hrep & Hw).
  assert (Hkn : known r m).
  { split; [done|]. left. rewrite Hid. simpl. rewrite <- Hx.
    apply (get_Ok_repr scope ranker _ m) in Hget; [|done]. by eexists. }
  pose proof (persist_loop_refines scope ranker json_text [r] outcome_default _ m Hrep) as Href.
  rewrite (spec_persist_known [r] m Hw) in Href by by constructor.
  unfold persist. rewrite Hp'. destruct (persist_loop _ [r] _ _) as [r2 s2].
  destruct Href as (_ & -> & Hsame). rewrite (Hsame 1 eq_refl). by destruct k'.
Qed.
End collision.

(** ** A concrete run *)

#[local] Existing Instance ascii_unicode.
#[local] Existing Instance demo_json.
#[local] Existing Instances demo_serde_record demo_serde_event.
#[local] Existing Instances demo_serde_record_laws demo_serde_event_laws.

Definition demo_text (e : JsonError) : str := lit "error".
Definition demo_sink : MemoryRepositoryCandidateSink InMemoryStorage :=
  {| repository := demo_final; poisoned := false |}.
Definition demo_extractor : ExplicitTurnMemoryExtractor :=
  xt_with_tag (lit "turn") (ExplicitTurnMemoryExtractor_new demo_project).
Definition demo_message : str := lit "remember workflow: run make before pushing".
Definition demo_candidates : list MemoryCandidateInput :=
  match turn_extract demo_text demo_extractor
          {| tmx_session_id := lit "s9"; tmx_turn_id := lit "t9";
             tmx_assistant_message := Some demo_message; tmx_message_count := 2 |} with
  | Ok cs => cs
  | Err _ => []
  end.
Definition demo_request : ProjectMemoryRequest :=
  ProjectMemoryRequest_for (lit "s9") (lit "t9") 2 (lit "how do we build?").

Lemma persist_exact_witness :
  ∃ o k', persist demo_text demo_candidates demo_sink = (Ok o, k') ∧
    created_ids o = [lit "memory-candidate-s9-t9-1"] ∧
    created_ids o ++ duplicate_ids o ≡ₚ in_id <$> demo_candidates.
Proof.
  destruct (persist_exact scope_global demo_ranker demo_text demo_candidates demo_sink)
    as (o & k' & Hp & Hperm & _); [reflexivity|apply demo_reachable| |].
  { apply Forall_fold_right. vm_compute. by repeat split. }
  exists o, k'. split; [done|]. split; [|done].
  assert (Ho : (persist demo_text demo_candidates demo_sink).1 = Ok o) by by rewrite Hp.
  vm_compute in Ho. injection Ho as <-. reflexivity.
Defined.

Lemma recall_ignores_candidates_witness :
  provider_retrieve demo_text (MemoryProvider_new demo_project) demo_request
    (repository (persist demo_text demo_candidates demo_sink).2) =
  provider_retrieve demo_text (MemoryProvider_new demo_project) demo_request demo_final.
Proof.
  apply (recall_ignores_candidates scope_global demo_ranker demo_text
    (MemoryProvider_new demo_project) demo_request demo_candidates demo_sink).
  apply demo_reachable.
Defined.

Definition demo_recalled : ProjectMemoryContext :=
  match provider_retrieve demo_text (MemoryProvider_new demo_project) demo_request demo_final with
  | Ok ctx => ctx
  | Err _ => {| items := [] |}
  end.

Lemma recall_reviewed_witness :
  length (items demo_recalled) = 1 ∧
  ∀ i, i ∈ items demo_recalled → ∃ r evs ev,
    get (item_id i) demo_final = Ok r ∧ i = memory_item r (item_reason i) ∧
    provider_accepts (MemoryProvider_new demo_project) (record_entry r) = true ∧
    audit_log (item_id i) demo_final = Ok evs ∧ ev ∈ evs ∧ ev_action ev = ActionApproved.
Proof.
  split; [vm_compute; reflexivity|].
  apply (recall_reviewed scope_global demo_ranker demo_text (MemoryProvider_new demo_project)
    demo_request demo_final demo_recalled).
  - apply demo_reachable.
  - vm_compute. reflexivity.
Defined.

Example recommendation_dropped_example :
  let d := DeterministicMemoryRecommender_new demo_project in
  match recommend d (TurnMemoryRecommendationRequest_new (lit "s9") (lit "t9")
          (lit "Add a build script") (Some demo_message) [(lit "create_file", None)]) with
  | Ok [r] =>
      in_content r = lit "Workflow: " ++ [quotation] ++ lit "Add a build script" ++ [quotation]
                     ++ lit " was accomplished using create_file." ∧
      (persist demo_text [r] (persist demo_text demo_candidates demo_sink).2).1 =
        Ok {| created_ids := []; duplicate_ids := [lit "memory-candidate-s9-t9-1"] |}
  | _ => False
  end.
Proof. vm_compute. split; reflexivity. Qed.
