(* ===== verification/FileSystem.v ===== *)
(** * Paths and the file system (what the sources use of [std::path] and [std::fs])

    A file system maps physical paths (names from the root, no link on the way) to
    files, directories and symbolic links.  A path is resolved name by name,
    following links up to the limit of the system; every operation that takes a
    path resolves it first.  A call that changes the tree may also be refused by the
    system for a reason outside the tree (no permission, no space left): which calls
    are, and what a write or the removal of a tree has done by then, is the parameter
    [Faults]. *)

From stdpp Require Import base numbers strings gmap list.
From S2P Require Import Prelude RustStr Utf8.

(** ** Paths *)

Inductive seg := SNormal (name : str) | SParent.
Abbreviation ppath := (list str).

(** Whether it is absolute, its components and whether it ends in a separator or a
    dot, so that it must name a directory. *)
Record path := { p_abs : bool; p_segs : list seg; p_slash : bool }.

Definition slash : char := 47%N.
Definition dot : str := lit ".".
Definition dotdot : str := lit "..".

Definition seg_of (piece : str) : option seg :=
  if is_empty piece || bool_decide (piece = dot) then None
  else if bool_decide (piece = dotdot) then Some SParent
  else Some (SNormal piece).
Definition path_of (s : str) : path :=
  let pieces := split_by (λ c, (c =? slash)%N) s in
  {| p_abs := match s with c :: _ => (c =? slash)%N | [] => false end;
     p_segs := omap seg_of pieces;
     p_slash := match last pieces with
                | Some piece => is_empty piece || bool_decide (piece = dot)
                | None => false
                end |}.

(** The path of a physical path. *)
Definition path_at (p : ppath) : path :=
  {| p_abs := true; p_segs := SNormal <$> p; p_slash := false |}.

(** [Path::join] of a physical directory. *)
Definition path_join (root : ppath) (p : path) : path :=
  if p_abs p then p
  else {| p_abs := true; p_segs := (SNormal <$> root) ++ p_segs p; p_slash := p_slash p |}.

(** [Path::parent]: the components without the last one. *)
Definition path_parent (p : path) : option path :=
  match p_segs p with
  | [] => None
  | _ => Some {| p_abs := p_abs p; p_segs := removelast (p_segs p); p_slash := false |}
  end.

#[export] Instance seg_eq_dec : EqDecision seg.
Proof. solve_decision. Defined.

(** ** The file system *)

Inductive node := NFile (bytes : list byte) | NDir | NLink (target : path).
Abbreviation fs := (gmap ppath node).

(** What the system refuses a call for although the tree would allow it. *)
Inductive OsFault := PermissionDenied | ReadOnlyFilesystem | StorageFull | OtherFault (message : str).
Definition fault_text (e : OsFault) : str :=
  match e with
  | PermissionDenied => lit "Permission denied (os error 13)"
  | ReadOnlyFilesystem => lit "Read-only file system (os error 30)"
  | StorageFull => lit "No space left on device (os error 28)"
  | OtherFault message => message
  end.

Inductive IoError :=
  NotFound | NotADirectory | IsADirectory | AlreadyExists | TooManyLinks | DirectoryNotEmpty
| InvalidInput | InvalidData | Fault (e : OsFault).
Definition io_text (e : IoError) : str :=
  match e with
  | NotFound => lit "No such file or directory (os error 2)"
  | NotADirectory => lit "Not a directory (os error 20)"
  | IsADirectory => lit "Is a directory (os error 21)"
  | AlreadyExists => lit "File exists (os error 17)"
  | TooManyLinks => lit "Too many levels of symbolic links (os error 40)"
  | DirectoryNotEmpty => lit "Directory not empty (os error 39)"
  | InvalidInput => lit "Invalid argument (os error 22)"
  | InvalidData => lit "stream did not contain valid UTF-8"
  | Fault e => fault_text e
  end.

(** The calls the system refuses, by the tree they are made on.  A refused write may
    have opened the file, and so emptied it, and written the first bytes; a refused
    removal of a tree may have removed some of the entries below it. *)
Class Faults := {
  refuse_write : fs → ppath → list byte → option (OsFault * option nat);
  refuse_remove : fs → ppath → option OsFault;
  refuse_mkdir : fs → ppath → option OsFault;
  refuse_rename : fs → ppath → ppath → option OsFault;
  refuse_remove_tree : fs → ppath → option (OsFault * (ppath → bool));
}.
Definition no_faults : Faults :=
  {| refuse_write := λ _ _ _, None; refuse_remove := λ _ _, None; refuse_mkdir := λ _ _, None;
     refuse_rename := λ _ _ _, None; refuse_remove_tree := λ _ _, None |}.

Definition is_dir_node (n : option node) : bool :=
  match n with Some NDir => true | _ => false end.

(** Resolving a path: found, with the links that may still be followed; missing in an
    existing directory; or an error. *)
Inductive found := FoundAt (p : ppath) (links : nat) | MissingAt (p : ppath) | LookupErr (e : IoError).

Definition MAX_LINKS : nat := 40.

Section lookup.
Context (f : fs).

Fixpoint resolve_segs (links : nat) : list seg → ppath → found :=
  fix go (segs : list seg) (cur : ppath) : found :=
    match segs with
    | [] => FoundAt cur links
    | SParent :: rest =>
        if is_dir_node (f !! cur) then go rest (removelast cur) else LookupErr NotADirectory
    | SNormal name :: rest =>
        if is_dir_node (f !! cur) then
          match f !! (cur ++ [name]) with
          | None => if is_empty rest then MissingAt (cur ++ [name]) else LookupErr NotFound
          | Some (NLink target) =>
              match links with
              | 0 => LookupErr TooManyLinks
              | S links =>
                  resolve_segs links (p_segs target ++ rest) (if p_abs target then [] else cur)
              end
          | Some _ => go rest (cur ++ [name])
          end
        else LookupErr NotADirectory
    end.

(** An absolute path; a final separator asks for a directory. *)
Definition lookup_path (p : path) : found :=
  match resolve_segs MAX_LINKS (p_segs p) [] with
  | FoundAt q links =>
      if p_slash p && negb (is_dir_node (f !! q)) then LookupErr NotADirectory
      else FoundAt q links
  | r => r
  end.

(** [Path::canonicalize], [exists], [is_file] and [is_dir]. *)
Definition canonicalize_path (p : path) : result IoError ppath :=
  match lookup_path p with
  | FoundAt q _ => Ok q
  | MissingAt _ => Err NotFound
  | LookupErr e => Err e
  end.
Definition path_exists (p : path) : bool := is_ok (canonicalize_path p).
Definition path_is_file (p : path) : bool :=
  match canonicalize_path p with
  | Ok q => match f !! q with Some (NFile _) => true | _ => false end
  | Err _ => false
  end.
Definition path_is_dir (p : path) : bool :=
  match canonicalize_path p with Ok q => is_dir_node (f !! q) | Err _ => false end.

(** [fs::read]. *)
Definition fs_read (p : path) : result IoError (list byte) :=
  let? q := canonicalize_path p in
  match f !! q with
  | Some (NFile bytes) => Ok bytes
  | Some NDir => Err IsADirectory
  | _ => Err NotFound
  end.

End lookup.

Section changes.
Context `{OS : Faults}.

(** Opening, emptying and writing a file. *)
Definition put_file (q : ppath) (bytes : list byte) : st fs IoError unit := λ f,
  match refuse_write f q bytes with
  | None => (Ok tt, <[q := NFile bytes]> f)
  | Some (e, None) => (Err (Fault e), f)
  | Some (e, Some k) => (Err (Fault e), <[q := NFile (take k bytes)]> f)
  end.
(** [fs::write]: the final link is followed, a missing file is created. *)
Definition fs_write (p : path) (bytes : list byte) : st fs IoError unit := λ f,
  match lookup_path f p with
  | FoundAt q _ =>
      match f !! q with
      | Some (NFile _) => put_file q bytes f
      | _ => (Err IsADirectory, f)
      end
  | MissingAt q => if p_slash p then (Err IsADirectory, f) else put_file q bytes f
  | LookupErr e => (Err e, f)
  end.

(** A change that happens as a whole or not at all. *)
Definition fs_step (op : fs → result IoError fs) : st fs IoError unit := λ f,
  match op f with Ok f' => (Ok tt, f') | Err e => (Err e, f) end.
Definition unless_refused (refusal : option OsFault) (f' : fs) : result IoError fs :=
  match refusal with None => Ok f' | Some e => Err (Fault e) end.

(** [fs::remove_file] on a canonical path. *)
Definition fs_remove_file (q : ppath) (f : fs) : result IoError fs :=
  match f !! q with
  | Some (NFile _) | Some (NLink _) => unless_refused (refuse_remove f q) (delete q f)
  | Some NDir => Err IsADirectory
  | None => Err NotFound
  end.

(** [mkdir]: the final name is not followed. *)
Definition fs_mkdir (f : fs) (segs : list seg) : result IoError fs :=
  match last segs with
  | Some (SNormal name) =>
      match resolve_segs f MAX_LINKS (removelast segs) [] with
      | FoundAt d _ =>
          if is_dir_node (f !! d) then
            match f !! (d ++ [name]) with
            | None => unless_refused (refuse_mkdir f (d ++ [name])) (<[d ++ [name] := NDir]> f)
            | Some _ => Err AlreadyExists
            end
          else Err NotADirectory
      | MissingAt _ => Err NotFound
      | LookupErr e => Err e
      end
  | _ => Err AlreadyExists
  end.
End changes.
Definition segs_is_dir (f : fs) (segs : list seg) : bool :=
  match resolve_segs f MAX_LINKS segs [] with
  | FoundAt q _ => is_dir_node (f !! q)
  | _ => false
  end.

(** [fs::create_dir_all] on the components of an absolute path: a failing [mkdir] is
    fine when the directory exists, and a missing parent is created first. *)
Definition mkdir_or_dir `{OS : Faults} (segs : list seg) : st fs IoError unit := λ f,
  match fs_mkdir f segs with
  | Ok f' => (Ok tt, f')
  | Err e => (if segs_is_dir f segs then Ok tt else Err e, f)
  end.
Fixpoint create_dirs `{OS : Faults} (fuel : nat) (segs : list seg) : st fs IoError unit := λ f,
  match fs_mkdir f segs with
  | Ok f' => (Ok tt, f')
  | Err NotFound =>
      match fuel with
      | 0 => (Err NotFound, f)
      | S fuel => (do! create_dirs fuel (removelast segs) in mkdir_or_dir segs) f
      end
  | Err e => (if segs_is_dir f segs then Ok tt else Err e, f)
  end.
Definition fs_create_dir_all `{OS : Faults} (segs : list seg) : st fs IoError unit :=
  create_dirs (length segs) segs.

(** ** Moving and removing trees *)

(** The entry a path names, its last component not followed. *)
Definition entry_at (f : fs) (segs : list seg) : result IoError ppath :=
  match last segs with
  | Some (SNormal name) =>
      match resolve_segs f MAX_LINKS (removelast segs) [] with
      | FoundAt d _ => if is_dir_node (f !! d) then Ok (d ++ [name]) else Err NotADirectory
      | MissingAt _ => Err NotFound
      | LookupErr e => Err e
      end
  | _ => Err InvalidInput
  end.

Definition prefixb (a q : ppath) : bool := bool_decide (a `prefix_of` q).
Definition has_children (f : fs) (a : ppath) : bool :=
  existsb (λ e, prefixb a e.1 && negb (bool_decide (e.1 = a))) (map_to_list f).
Definition remove_tree (a : ppath) (f : fs) : fs := filter (λ e, prefixb a e.1 = false) f.

(** Exchanging two separate trees; the one that is moved to was removed before. *)
Definition swap_trees (a b q : ppath) : ppath :=
  if prefixb a q then b ++ drop (length a) q
  else if prefixb b q then a ++ drop (length b) q
  else q.
Definition move_tree (a b : ppath) (f : fs) : fs := kmap (swap_trees a b) (remove_tree b f).

(** The entries below [a] that are gone when the removal of the tree stops: everything
    in a directory goes before the directory. *)
Definition remove_below (gone : ppath → bool) (a : ppath) (f : fs) : fs :=
  filter (λ e, prefixb a e.1 && negb (bool_decide (e.1 = a)) &&
               forallb (λ e', negb (prefixb e.1 e'.1) || gone e'.1) (map_to_list f) = false) f.

(** [fs::rename] and [fs::remove_dir_all]. *)
Definition fs_rename `{OS : Faults} (from to : list seg) (f : fs) : result IoError fs :=
  let? a := entry_at f from in
  let? b := entry_at f to in
  let moved := unless_refused (refuse_rename f a b) (move_tree a b f) in
  if decide (a = b) then (if bool_decide (is_Some (f !! a)) then Ok f else Err NotFound)
  else match f !! a with
  | None => Err NotFound
  | Some NDir =>
      if prefixb a b then Err InvalidInput
      else match f !! b with
           | None => moved
           | Some NDir => if has_children f b then Err DirectoryNotEmpty else moved
           | Some _ => Err NotADirectory
           end
  | Some _ =>
      match f !! b with
      | Some NDir => Err IsADirectory
      | _ => moved
      end
  end.
Definition fs_remove_dir_all `{OS : Faults} (p : list seg) : st fs IoError unit := λ f,
  match entry_at f p with
  | Err e => (Err e, f)
  | Ok a =>
      match f !! a with
      | None => (Err NotFound, f)
      | Some (NFile _) => (Err NotADirectory, f)
      | Some (NLink _) => fs_step (λ f, unless_refused (refuse_remove f a) (delete a f)) f
      | Some NDir =>
          match refuse_remove_tree f a with
          | None => (Ok tt, remove_tree a f)
          | Some (e, gone) => (Err (Fault e), remove_below gone a f)
          end
      end
  end.

(** The names in a directory, in the order of the map. *)
Definition children (f : fs) (d : ppath) : list str :=
  omap (λ e, match last e.1 with
             | Some name => if decide (e.1 = d ++ [name]) then Some name else None
             | None => None
             end) (map_to_list f).

(** ** Resolution, step by step *)

Lemma is_dir_node_true n : is_dir_node n = true ↔ n = Some NDir.
Proof. destruct n as [[]|]; cbn; naive_solver. Qed.

Section facts.
Context (f : fs).

Lemma resolve_nil links cur : resolve_segs f links [] cur = FoundAt cur links.
Proof. by destruct links. Qed.
Lemma resolve_parent links rest cur :
  resolve_segs f links (SParent :: rest) cur =
  if is_dir_node (f !! cur) then resolve_segs f links rest (removelast cur)
  else LookupErr NotADirectory.
Proof. by destruct links. Qed.
Lemma resolve_normal links name rest cur :
  resolve_segs f links (SNormal name :: rest) cur =
  if is_dir_node (f !! cur) then
    match f !! (cur ++ [name]) with
    | None => if is_empty rest then MissingAt (cur ++ [name]) else LookupErr NotFound
    | Some (NLink target) =>
        match links with
        | 0 => LookupErr TooManyLinks
        | S links => resolve_segs f links (p_segs target ++ rest) (if p_abs target then [] else cur)
        end
    | Some _ => resolve_segs f links rest (cur ++ [name])
    end
  else LookupErr NotADirectory.
Proof. by destruct links. Qed.

(** Induction along a resolution. *)
Lemma resolve_ind (P : nat → list seg → ppath → Prop) :
  (∀ links cur, P links [] cur) →
  (∀ links rest cur, P links rest (removelast cur) → P links (SParent :: rest) cur) →
  (∀ links name rest cur,
     P links rest (cur ++ [name]) →
     (∀ target links', links = S links' →
        P links' (p_segs target ++ rest) (if p_abs target then [] else cur)) →
     P links (SNormal name :: rest) cur) →
  ∀ links segs cur, P links segs cur.
Proof.
  intros Hnil Hpar Hnorm. induction links as [|links IHl];
    (induction segs as [|[name|] segs IHs]; intros cur; [apply Hnil | apply Hnorm | apply Hpar]);
    try apply IHs; [done|]. intros target ? [= <-]. apply IHl.
Qed.

(** Resolving in two stages. *)
Lemma resolve_app s2 links s1 cur :
  resolve_segs f links (s1 ++ s2) cur =
  match resolve_segs f links s1 cur with
  | FoundAt q l => resolve_segs f l s2 q
  | MissingAt q => if is_empty s2 then MissingAt q else LookupErr NotFound
  | LookupErr e => LookupErr e
  end.
Proof.
  revert links s1 cur.
  apply (resolve_ind (λ links s1 cur, resolve_segs f links (s1 ++ s2) cur = _)).
  - intros links cur. by rewrite resolve_nil.
  - intros links rest cur IH. cbn [app]. rewrite !resolve_parent. by destruct (is_dir_node _).
  - intros links name rest cur IH IHl. cbn [app]. rewrite !resolve_normal.
    destruct (is_dir_node _); [|done].
    destruct (f !! (cur ++ [name])) as [[b| |target]|]; [done|done| |].
    + destruct links as [|links]; [done|]. rewrite app_assoc. by apply IHl.
    + by destruct rest, s2.
Qed.

(** A directory below a found one, through plain directories. *)
Lemma resolve_dirs links names q :
  (∀ k, k ≤ length names → f !! (q ++ take k names) = Some NDir) →
  resolve_segs f links (SNormal <$> names) q = FoundAt (q ++ names) links.
Proof.
  revert q. induction names as [|n names IH]; intros q Hd; cbn [fmap list_fmap].
  { by rewrite resolve_nil, app_nil_r. }
  rewrite resolve_normal. pose proof (Hd 0 ltac:(lia)) as H0. rewrite app_nil_r in H0.
  rewrite H0; cbn [is_dir_node]. pose proof (Hd 1 ltac:(cbn; lia)) as H1.
  change (take 1 (n :: names)) with (n :: take 0 names) in H1. rewrite take_0 in H1. rewrite H1. rewrite IH; [by rewrite <- app_assoc|].
  intros k Hk. specialize (Hd (S k) ltac:(cbn; lia)). rewrite <- app_assoc. exact Hd.
Qed.

Lemma resolve_missing_dir links segs cur q :
  resolve_segs f links segs cur = MissingAt q → f !! q = None ∧ ∃ d n, q = d ++ [n] ∧ f !! d = Some NDir.
Proof.
  revert links segs cur.
  apply (resolve_ind (λ links segs cur, resolve_segs f links segs cur = MissingAt q → _)).
  - intros links cur. by rewrite resolve_nil.
  - intros links rest cur IH. rewrite resolve_parent. by destruct (is_dir_node _).
  - intros links name rest cur IH IHl. rewrite resolve_normal.
    destruct (is_dir_node (f !! cur)) eqn:Ed; [|done].
    destruct (f !! (cur ++ [name])) as [[b| |target]|] eqn:E; [done|done| |].
    + destruct links as [|links]; [done|]. by apply IHl.
    + destruct rest; [|done]. intros [= <-]. split; [done|]. exists cur, name. split; [done|].
      unfold is_dir_node in Ed. by repeat case_match.
Qed.

Lemma canonicalize_found p q :
  canonicalize_path f p = Ok q → ∃ l, resolve_segs f MAX_LINKS (p_segs p) [] = FoundAt q l.
Proof.
  unfold canonicalize_path, lookup_path. destruct (resolve_segs _ _ _ _) as [q' l| |]; try done.
  destruct (_ && _); [done|]. intros [= ->]. by exists l.
Qed.

End facts.

(** Adding entries and changing the contents of files do not change what is found. *)
Definition extends (f f' : fs) : Prop :=
  ∀ p n, f !! p = Some n →
    f' !! p = Some n ∨ ∃ b b', n = NFile b ∧ f' !! p = Some (NFile b').
Lemma extends_subseteq f f' : f ⊆ f' → extends f f'.
Proof. intros Hf p n Hn. left. by eapply lookup_weaken. Qed.
Lemma extends_trans f g h : extends f g → extends g h → extends f h.
Proof.
  intros Hfg Hgh p n Hn. destruct (Hfg p n Hn) as [H|(b & b' & -> & H)];
    destruct (Hgh p _ H) as [H'|(b1 & b2 & Hb & H')]; eauto.
Qed.
Lemma extends_file f q b :
  f !! q = None ∨ (∃ b0, f !! q = Some (NFile b0)) → extends f (<[q := NFile b]> f).
Proof.
  intros Hq p n Hn. destruct (decide (q = p)) as [->|Hne]; [|left; by rewrite lookup_insert_ne].
  rewrite lookup_insert_eq. destruct Hq as [Hq|[b0 Hq]]; [by rewrite Hq in Hn|].
  right. exists b0, b. rewrite Hq in Hn. by injection Hn as <-.
Qed.
Lemma extends_dir f f' q : extends f f' → f !! q = Some NDir → f' !! q = Some NDir.
Proof. intros H Hq. destruct (H _ _ Hq) as [?|(?&?&[=]&?)]; done. Qed.

Lemma extends_is_file f f' q b :
  extends f f' → f !! q = Some (NFile b) → ∃ b', f' !! q = Some (NFile b').
Proof. intros H Hq. destruct (H _ _ Hq) as [?|(?&?&_&?)]; eauto. Qed.

Lemma resolve_mono (f f' : fs) links segs cur q l :
  extends f f' → resolve_segs f links segs cur = FoundAt q l → resolve_segs f' links segs cur = FoundAt q l.
Proof.
  intros Hf. revert links segs cur.
  apply (resolve_ind (λ links segs cur, resolve_segs f links segs cur = FoundAt q l → _)).
  - intros links cur. by rewrite !resolve_nil.
  - intros links rest cur IH. rewrite !resolve_parent.
    destruct (f !! cur) as [[]|] eqn:E; cbn [is_dir_node]; try done.
    by rewrite (extends_dir _ _ _ Hf E).
  - intros links name rest cur IH IHl. rewrite !resolve_normal.
    destruct (f !! cur) as [[]|] eqn:E; cbn [is_dir_node]; try done.
    rewrite (extends_dir _ _ _ Hf E); cbn [is_dir_node].
    destruct (f !! (cur ++ [name])) as [n|] eqn:En; [|by destruct rest].
    destruct (Hf _ _ En) as [->|(b & b' & -> & ->)]; [|done]. destruct n as [b| |target]; [done|done|].
    destruct links as [|links]; [done|]. by apply IHl.
Qed.


Lemma canonicalize_mono f f' p q b :
  extends f f' → canonicalize_path f p = Ok q → f !! q = Some (NFile b) →
  canonicalize_path f' p = Ok q.
Proof.
  intros He. unfold canonicalize_path, lookup_path.
  destruct (resolve_segs f MAX_LINKS (p_segs p) []) as [q' l| |] eqn:E; try done.
  rewrite (resolve_mono f f' _ _ _ _ _ He E). intros H Hq.
  assert (q' = q) as -> by (destruct (_ && _); [done|by injection H]).
  rewrite Hq in H. destruct (He _ _ Hq) as [->|(b1 & b2 & _ & ->)]; cbn [is_dir_node] in *; exact H.
Qed.

(** Removing a file leaves what is found elsewhere. *)
Lemma resolve_delete (f : fs) x b links segs cur q l :
  f !! x = Some (NFile b) → q ≠ x →
  resolve_segs f links segs cur = FoundAt q l → resolve_segs (delete x f) links segs cur = FoundAt q l.
Proof.
  intros Hx Hne.
  assert (∀ p, is_dir_node (f !! p) = true → is_dir_node (delete x f !! p) = true) as Hdir.
  { intros p Hp%is_dir_node_true. rewrite lookup_delete_ne; [by rewrite Hp|]. by intros ->; rewrite Hx in Hp. }
  revert links segs cur.
  apply (resolve_ind (λ links segs cur, resolve_segs f links segs cur = FoundAt q l → _)).
  - intros links cur. by rewrite !resolve_nil.
  - intros links rest cur IH. rewrite !resolve_parent.
    destruct (is_dir_node (f !! cur)) eqn:E; [|done]. by rewrite (Hdir _ E).
  - intros links name rest cur IH IHl. rewrite !resolve_normal.
    destruct (is_dir_node (f !! cur)) eqn:E; [|done]. rewrite (Hdir _ E).
    destruct (decide (x = cur ++ [name])) as [->|Hnx].
    + rewrite Hx. destruct rest as [|[m|] rest].
      * rewrite resolve_nil. intros [= Hq _]. by destruct Hne.
      * rewrite resolve_normal, Hx. done.
      * rewrite resolve_parent, Hx. done.
    + rewrite lookup_delete_ne by done.
      destruct (f !! (cur ++ [name])) as [[b0| |target]|]; [done|done| |by destruct rest].
      destruct links as [|links]; [done|]. by apply IHl.
Qed.

Lemma canonicalize_delete (f : fs) x b p q b' :
  f !! x = Some (NFile b) → q ≠ x → canonicalize_path f p = Ok q → f !! q = Some (NFile b') →
  canonicalize_path (delete x f) p = Ok q.
Proof.
  intros Hx Hne. unfold canonicalize_path, lookup_path.
  destruct (resolve_segs f MAX_LINKS (p_segs p) []) as [q' l| |] eqn:E; try done. intros H Hq.
  assert (q' = q) as -> by (destruct (_ && _); [done|by injection H]).
  rewrite (resolve_delete f x b _ _ _ q l Hx Hne E), lookup_delete_ne by done. exact H.
Qed.

(** ** File systems that differ in the contents of files *)

Definition node_shape (n : node) : node := match n with NFile _ => NFile [] | n => n end.
Definition same_tree (f f' : fs) : Prop := ∀ p, node_shape <$> (f !! p) = node_shape <$> (f' !! p).
Infix "≃" := same_tree (at level 70).

#[export] Instance same_tree_equiv : Equivalence same_tree.
Proof.
  split.
  - by intros f p.
  - intros f g Hfg p. symmetry. apply Hfg.
  - intros f g h Hfg Hgh p. by rewrite (Hfg p).
Qed.

Lemma same_tree_node (f f' : fs) p :
  f ≃ f' → f !! p = f' !! p ∨ ∃ b b', f !! p = Some (NFile b) ∧ f' !! p = Some (NFile b').
Proof.
  intros Hs. specialize (Hs p). destruct (f !! p) as [[b| |t]|], (f' !! p) as [[b'| |t']|];
    cbn in Hs; simplify_eq; eauto.
Qed.
Lemma same_tree_insert (f : fs) q b b' :
  f !! q = Some (NFile b) → f ≃ <[q := NFile b']> f.
Proof.
  intros Hq p. destruct (decide (q = p)) as [<-|Hne].
  - by rewrite Hq, lookup_insert_eq.
  - by rewrite lookup_insert_ne.
Qed.

#[export] Instance is_dir_node_proper p : Proper (same_tree ==> eq) (λ f : fs, is_dir_node (f !! p)).
Proof. intros f f' Hs. destruct (same_tree_node f f' p Hs) as [->|(b & b' & -> & ->)]; done. Qed.
Lemma same_tree_dir (f f' : fs) p : f ≃ f' → is_dir_node (f !! p) = is_dir_node (f' !! p).
Proof. intros Hs. by apply (is_dir_node_proper p). Qed.

#[export] Instance resolve_segs_proper : Proper (same_tree ==> eq ==> eq ==> eq ==> eq) resolve_segs.
Proof.
  intros f f' Hs links ? <- segs ? <- cur ? <-. revert links segs cur.
  apply (resolve_ind (λ links segs cur, resolve_segs f links segs cur = resolve_segs f' links segs cur)).
  - intros links cur. by rewrite !resolve_nil.
  - intros links rest cur IH. by rewrite !resolve_parent, (same_tree_dir f f' cur Hs), IH.
  - intros links name rest cur IH IHl. rewrite !resolve_normal, (same_tree_dir f f' cur Hs).
    destruct (is_dir_node _); [|done].
    destruct (same_tree_node f f' (cur ++ [name]) Hs) as [->|(b & b' & -> & ->)]; [|done].
    destruct (f' !! (cur ++ [name])) as [[b| |target]|]; [done|done| |done].
    destruct links as [|links]; [done|]. by apply IHl.
Qed.
#[export] Instance lookup_path_proper : Proper (same_tree ==> eq ==> eq) lookup_path.
Proof.
  intros f f' Hs p ? <-. unfold lookup_path. rewrite Hs.
  destruct (resolve_segs _ _ _ _); [|done|done]. by rewrite (same_tree_dir f f' _ Hs).
Qed.
#[export] Instance canonicalize_path_proper : Proper (same_tree ==> eq ==> eq) canonicalize_path.
Proof. intros f f' Hs p ? <-. unfold canonicalize_path. by rewrite Hs. Qed.
#[export] Instance path_exists_proper : Proper (same_tree ==> eq ==> eq) path_exists.
Proof. intros f f' Hs p ? <-. unfold path_exists. by rewrite Hs. Qed.
#[export] Instance segs_is_dir_proper : Proper (same_tree ==> eq ==> eq) segs_is_dir.
Proof.
  intros f f' Hs p ? <-. unfold segs_is_dir. rewrite Hs.
  destruct (resolve_segs _ _ _ _); [|done|done]. by apply same_tree_dir.
Qed.

(** ** What was written is read back *)

Lemma resolve_created (f : fs) q b links segs cur :
  resolve_segs f links segs cur = MissingAt q →
  ∃ l, resolve_segs (<[q := NFile b]> f) links segs cur = FoundAt q l.
Proof.
  intros H. pose proof (resolve_missing_dir f links segs cur q H) as [Hq _]. revert links segs cur H.
  assert (∀ p x, f !! p = Some x → <[q := NFile b]> f !! p = Some x) as Hkeep.
  { intros p x Hp. rewrite lookup_insert_ne; [done|]. intros ->. congruence. }
  assert (∀ p, is_dir_node (f !! p) = true → is_dir_node (<[q := NFile b]> f !! p) = true) as Hdir.
  { intros p Hp%is_dir_node_true. by rewrite (Hkeep _ _ Hp). }
  apply (resolve_ind (λ links segs cur, resolve_segs f links segs cur = MissingAt q →
    ∃ l, resolve_segs (<[q := NFile b]> f) links segs cur = FoundAt q l)).
  - intros links cur. by rewrite resolve_nil.
  - intros links rest cur IH. rewrite !resolve_parent.
    destruct (is_dir_node (f !! cur)) eqn:E; [|done]. by rewrite (Hdir _ E).
  - intros links name rest cur IH IHl. rewrite !resolve_normal.
    destruct (is_dir_node (f !! cur)) eqn:E; [|done]. rewrite (Hdir _ E).
    destruct (f !! (cur ++ [name])) as [x|] eqn:Ex.
    + rewrite (Hkeep _ _ Ex). destruct x as [b0| |target]; [done|done|].
      destruct links as [|links]; [done|]. by apply IHl.
    + destruct rest; [|done]. cbn [is_empty]. intros [= <-]. rewrite lookup_insert_eq.
      exists links. by rewrite resolve_nil.
Qed.

(** A write that succeeds puts its bytes in one file, at the place the path names. *)
Lemma fs_write_ok `{OS : Faults} f p b f' : fs_write p b f = (Ok tt, f') → ∃ q, f' = <[q := NFile b]> f ∧
  (lookup_path f p = MissingAt q ∧ p_slash p = false ∨
   ∃ l b0, lookup_path f p = FoundAt q l ∧ f !! q = Some (NFile b0)).
Proof.
  unfold fs_write, put_file. destruct (lookup_path f p) as [q l|q|] eqn:El; [| |done].
  - destruct (f !! q) as [[b0| |]|] eqn:Eq; try done.
    destruct (refuse_write f q b) as [[e [k|]]|]; try done. intros [= <-]. eexists. split; [done|]. eauto.
  - destruct (p_slash p); [done|]. destruct (refuse_write f q b) as [[e [k|]]|]; try done.
    intros [= <-]. eexists. split; [done|]. by left.
Qed.
Lemma fs_write_read `{OS : Faults} f p b f' : fs_write p b f = (Ok tt, f') → fs_read f' p = Ok b.
Proof.
  intros (q & -> & [[El Es]|(l & b0 & El & Eq)])%fs_write_ok; unfold fs_read, canonicalize_path.
  - unfold lookup_path in El |- *.
    destruct (resolve_segs f MAX_LINKS (p_segs p) []) as [| |] eqn:Er; [by destruct (_ && _)| |done].
    injection El as ->. destruct (resolve_created f q b _ _ _ Er) as [l Hl]. rewrite Hl, Es. cbn [andb result_bind].
    by rewrite lookup_insert_eq.
  - rewrite <- (same_tree_insert f q b0 b Eq), El. cbn [result_bind]. by rewrite lookup_insert_eq.
Qed.
