(* ===== verification/Workspace.v ===== *)
(** * The workspace boundary ([codel00p-harness/src/workspace.rs],
    [terminal/local_fs.rs], the rooted local backend of [terminal.rs])

    File operations on paths relative to the workspace root, through the local
    backend, over the file system of [FileSystem].  Reads resolve the real path and
    require it to be inside the root; writes and creations check the nearest
    existing parent. *)

From stdpp Require Import base numbers strings gmap list.
From S2P Require Import Prelude RustStr Utf8 Json Harness FileSystem.

(** ** Workspace-bounded local files ([local_fs.rs]) *)

Abbreviation fsop := (st fs HarnessError).

Definition io_error (e : IoError) : HarnessError := Io (io_text e).
Definition is_parent_seg (s : seg) : bool := match s with SParent => true | _ => false end.

Definition reject_unsafe_components (rel : str) : result HarnessError unit :=
  if existsb is_parent_seg (p_segs (path_of rel)) then Err (WorkspaceEscape rel) else Ok tt.

(** [Path::starts_with] on physical paths. *)
Definition starts_with_path (root q : ppath) : bool := bool_decide (root `prefix_of` q).

(** The first ancestor that exists, the path itself included. *)
Fixpoint nearest_existing (f : fs) (fuel : nat) (p : path) : option path :=
  if path_exists f p then Some p
  else match fuel, path_parent p with
       | S fuel, Some parent => nearest_existing f fuel parent
       | _, _ => None
       end.
Definition nearest_existing_parent (f : fs) (rel : str) (p : path) : result HarnessError path :=
  ok_or (InvalidWorkspacePath rel) (nearest_existing f (length (p_segs p)) p).

Definition resolve_existing (root : ppath) (rel : str) (f : fs) : result HarnessError ppath :=
  let? _ := reject_unsafe_components rel in
  let candidate := path_join root (path_of rel) in
  let? resolved := map_err io_error (canonicalize_path f candidate) in
  if starts_with_path root resolved then Ok resolved else Err (WorkspaceEscape rel).

Definition resolve_for_create (root : ppath) (rel : str) (f : fs) : result HarnessError path :=
  let? _ := reject_unsafe_components rel in
  if p_abs (path_of rel) then Err (WorkspaceEscape rel)
  else
    let candidate := path_join root (path_of rel) in
    let? parent := ok_or (InvalidWorkspacePath rel) (path_parent candidate) in
    let? existing := if path_exists f parent then Ok parent
                     else nearest_existing_parent f rel parent in
    let? resolved_parent := map_err io_error (canonicalize_path f existing) in
    if starts_with_path root resolved_parent then Ok candidate else Err (WorkspaceEscape rel).

Definition lift_io {A} (m : st fs IoError A) : fsop A := λ f,
  let '(r, f') := m f in (map_err io_error r, f').

Definition read_file (root : ppath) (rel : str) : fsop (list byte) :=
  let! resolved := st_read (resolve_existing root rel) in
  st_read (λ f, map_err io_error (fs_read f (path_at resolved))).

Definition write_file `{OS : Faults} (root : ppath) (rel : str) (contents : list byte) : fsop unit :=
  let! destination := st_read (resolve_for_create root rel) in
  do! match path_parent destination with
      | Some parent => lift_io (fs_create_dir_all (p_segs parent))
      | None => st_ret tt
      end in
  lift_io (fs_write destination contents).

Definition delete_file `{OS : Faults} (root : ppath) (rel : str) : fsop unit :=
  let! resolved := st_read (resolve_existing root rel) in
  lift_io (fs_step (fs_remove_file resolved)).

Definition create_dir_all `{OS : Faults} (root : ppath) (rel : str) : fsop unit :=
  let! destination := st_read (resolve_for_create root rel) in
  lift_io (fs_create_dir_all (p_segs destination)).

Record FileKind := { fk_exists : bool; fk_is_file : bool; fk_is_dir : bool; fk_size : N }.
Definition FileKind_MISSING : FileKind :=
  {| fk_exists := false; fk_is_file := false; fk_is_dir := false; fk_size := 0 |}.
Definition file_kind (n : option node) : result HarnessError FileKind :=
  match n with
  | Some (NFile bytes) =>
      Ok {| fk_exists := true; fk_is_file := true; fk_is_dir := false;
            fk_size := N.of_nat (length bytes) |}
  | Some NDir =>
      Ok {| fk_exists := true; fk_is_file := false; fk_is_dir := true; fk_size := 0 |}
  | _ => Err (io_error NotFound)
  end.
Definition metadata (root : ppath) (rel : str) (f : fs) : result HarnessError FileKind :=
  match resolve_existing root rel f with
  | Ok resolved => file_kind (f !! resolved)
  | Err (Io text) => if decide (text = io_text NotFound) then Ok FileKind_MISSING else Err (Io text)
  | Err e => Err e
  end.

(** ** The rooted local backend and the facade *)

Record LocalBackend := { lb_workspace_root : option ppath }.
Definition LocalBackend_new : LocalBackend := {| lb_workspace_root := None |}.
Definition LocalBackend_rooted (root : ppath) : LocalBackend := {| lb_workspace_root := Some root |}.
Definition unsupported_fs (rel : str) : HarnessError :=
  ToolFailed (lit "workspace")
    (lit "this execution backend does not support workspace filesystem access (" ++ rel ++ lit ")").
Definition root_for (rel : str) (b : LocalBackend) : result HarnessError ppath :=
  ok_or (unsupported_fs rel) (lb_workspace_root b).

Record Workspace := { ws_root : ppath; ws_backend : LocalBackend }.

Definition canonical_root (root : path) (f : fs) : result HarnessError ppath :=
  let? q := map_err io_error (canonicalize_path f root) in
  if is_dir_node (f !! q) then Ok q else Err (InvalidWorkspacePath (lit "/" ++ join (lit "/") q)).
Definition Workspace_new (root : path) (f : fs) : result HarnessError Workspace :=
  let? q := canonical_root root f in
  Ok {| ws_root := q; ws_backend := LocalBackend_rooted q |}.
Definition Workspace_with_backend (root : path) (backend : LocalBackend) (f : fs)
    : result HarnessError Workspace :=
  let? q := canonical_root root f in Ok {| ws_root := q; ws_backend := backend |}.

Definition ws_resolve (w : Workspace) (rel : str) : fs → result HarnessError ppath :=
  resolve_existing (ws_root w) rel.
Definition ws_resolve_for_create (w : Workspace) (rel : str) : fs → result HarnessError path :=
  resolve_for_create (ws_root w) rel.
Definition ws_resolve_existing_file (w : Workspace) (rel : str) (f : fs)
    : result HarnessError ppath :=
  let? q := ws_resolve w rel f in
  if path_is_file f (path_at q) then Ok q
  else Err (ToolFailed (lit "workspace") (lit "file does not exist: " ++ rel)).
Definition ws_resolve_directory (w : Workspace) (rel : str) (f : fs) : result HarnessError ppath :=
  let? q := ws_resolve w rel f in
  if path_is_dir f (path_at q) then Ok q else Err (InvalidWorkspacePath rel).

(** The facade: the lexical checks, then the backend. *)
Definition on_backend {A} (w : Workspace) (rel : str) (op : ppath → fsop A) : fsop A :=
  do! st_lift (reject_unsafe_components rel) in
  let! root := st_lift (root_for rel (ws_backend w)) in
  op root.
Definition ws_read_bytes (w : Workspace) (rel : str) : fsop (list byte) :=
  on_backend w rel (λ root, read_file root rel).
Definition ws_read_utf8 (w : Workspace) (rel : str) : fsop str :=
  let! bytes := ws_read_bytes w rel in
  st_lift (ok_or (Io (utf8_error_text bytes)) (from_utf8 bytes)).
Definition ws_write `{OS : Faults} (w : Workspace) (rel : str) (contents : list byte) : fsop unit :=
  do! st_lift (reject_unsafe_components rel) in
  if p_abs (path_of rel) then st_err (WorkspaceEscape rel)
  else on_backend w rel (λ root, write_file root rel contents).
Definition ws_delete `{OS : Faults} (w : Workspace) (rel : str) : fsop unit :=
  on_backend w rel (λ root, delete_file root rel).
Definition ws_create_dir_all `{OS : Faults} (w : Workspace) (rel : str) : fsop unit :=
  do! st_lift (reject_unsafe_components rel) in
  if p_abs (path_of rel) then st_err (WorkspaceEscape rel)
  else on_backend w rel (λ root, create_dir_all root rel).
Definition ws_metadata (w : Workspace) (rel : str) : fsop FileKind :=
  on_backend w rel (λ root, st_read (metadata root rel)).
Definition ws_exists (w : Workspace) (rel : str) : fsop bool :=
  let! k := ws_metadata w rel in st_ret (fk_exists k).
Definition ws_is_file (w : Workspace) (rel : str) : fsop bool :=
  let! k := ws_metadata w rel in st_ret (fk_is_file k).
Definition ws_is_dir (w : Workspace) (rel : str) : fsop bool :=
  let! k := ws_metadata w rel in st_ret (fk_is_dir k).

(** ** The workspace boundary holds, except through a final link

    Reads, deletions, directory creations and writes whose destination is not a
    symbolic link only touch entries below the workspace root.  A write whose last
    name is a link is followed wherever it points. *)

Abbreviation under root q := (root `prefix_of` q).

(** Nothing outside the root differs. *)
Definition agrees_outside (root : ppath) (f f' : fs) : Prop :=
  ∀ q, ¬ under root q → f' !! q = f !! q.

#[export] Instance agrees_refl root : Reflexive (agrees_outside root).
Proof. by intros f q _. Qed.
#[export] Instance agrees_trans root : Transitive (agrees_outside root).
Proof. intros f g h Hfg Hgh q Hq. rewrite Hgh by done. by apply Hfg. Qed.

Lemma agrees_insert root f q n : under root q → agrees_outside root f (<[q := n]> f).
Proof. intros Hq p Hp. rewrite lookup_insert_ne; [done | by intros ->]. Qed.
Lemma agrees_delete root f q : under root q → agrees_outside root f (delete q f).
Proof. intros Hq p Hp. rewrite lookup_delete_ne; [done | by intros ->]. Qed.

(** Every entry is in a directory: nothing exists below a missing entry. *)
Definition parents_exist (f : fs) : Prop :=
  ∀ q n x, f !! (q ++ [n]) = Some x → f !! q = Some NDir.
Lemma absent_below f p r : parents_exist f → f !! p = None → f !! (p ++ r) = None.
Proof.
  intros Hf Hp. induction r as [|x r IH] using rev_ind; [by rewrite app_nil_r|].
  destruct (f !! (p ++ r ++ [x])) eqn:E; [|done]. rewrite app_assoc in E.
  by rewrite (Hf _ _ _ E) in IH.
Qed.

(** A file system in which every entry is in a directory, with a workspace root that
    is reached through directories. *)
Record fs_ok (root : ppath) (f : fs) : Prop := {
  fs_parents : parents_exist f;
  fs_root : ∀ k, k ≤ length root → f !! take k root = Some NDir;
}.

(** A path without [..] consists of names. *)
Lemma safe_names rel :
  reject_unsafe_components rel = Ok tt → ∃ names, p_segs (path_of rel) = SNormal <$> names.
Proof.
  unfold reject_unsafe_components. generalize (p_segs (path_of rel)). intros segs.
  destruct (existsb is_parent_seg segs) eqn:E; [done|]. intros _.
  induction segs as [|[n|] segs IH]; [by exists []| |done].
  cbn in E. destruct (IH E) as [names ->]. by exists (n :: names).
Qed.

Lemma removelast_names (names : list str) :
  removelast (SNormal <$> names) = SNormal <$> removelast names.
Proof.
  induction names as [|n [|m names] IH]; [done..|]. cbn in *. by rewrite IH.
Qed.
Lemma last_names (names : list str) : last (SNormal <$> names) = SNormal <$> last names.
Proof. apply fmap_last. Qed.

(** [mkdir] of a path that exists fails, but not because something is missing. *)
Lemma mkdir_existing `{OS : Faults} f segs q l :
  resolve_segs f MAX_LINKS segs [] = FoundAt q l →
  ∃ e, fs_mkdir f segs = Err e ∧ e ≠ NotFound.
Proof.
  intros Hf. unfold fs_mkdir. destruct (last segs) as [[n|]|] eqn:El; [|by eexists..].
  apply last_Some in El as [init ->]. rewrite removelast_last.
  rewrite resolve_app in Hf. destruct (resolve_segs f MAX_LINKS init []) as [d l'|d|e]; try done.
  rewrite resolve_normal in Hf. destruct (is_dir_node (f !! d)); [|done].
  destruct (f !! (d ++ [n])); [by eexists|done].
Qed.

(** [create_dir_all] of a path that exists changes nothing. *)
Lemma create_dirs_found `{OS : Faults} f fuel segs q l :
  resolve_segs f MAX_LINKS segs [] = FoundAt q l → (create_dirs fuel segs f).2 = f.
Proof.
  intros (e & He & Hne)%mkdir_existing. destruct fuel; cbn [create_dirs]; rewrite He; by destruct e.
Qed.

(** [mkdir] below a directory that is found. *)
Lemma mkdir_found `{OS : Faults} f segs d l n :
  resolve_segs f MAX_LINKS segs [] = FoundAt d l →
  fs_mkdir f (segs ++ [SNormal n]) =
  if is_dir_node (f !! d) then
    match f !! (d ++ [n]) with
    | None => unless_refused (refuse_mkdir f (d ++ [n])) (<[d ++ [n] := NDir]> f)
    | Some _ => Err AlreadyExists
    end
  else Err NotADirectory.
Proof. intros H1. unfold fs_mkdir. by rewrite last_snoc, removelast_last, H1. Qed.

(** A path that is not found is not found below either. *)
Lemma not_found_below `{OS : Faults} f segs n :
  (∀ q l, resolve_segs f MAX_LINKS segs [] ≠ FoundAt q l) →
  (∀ q l, resolve_segs f MAX_LINKS (segs ++ [SNormal n]) [] ≠ FoundAt q l) ∧
  (∃ e, fs_mkdir f (segs ++ [SNormal n]) = Err e).
Proof.
  intros H. unfold fs_mkdir. rewrite last_snoc, removelast_last. split.
  - intros q l. rewrite resolve_app.
    destruct (resolve_segs f MAX_LINKS segs []) as [q' l'| |] eqn:E; try done. by destruct (H q' l').
  - destruct (resolve_segs f MAX_LINKS segs []) as [q' l'| |] eqn:E; [by destruct (H q' l') | eauto..].
Qed.
Lemma not_found_no_dir f segs :
  (∀ q l, resolve_segs f MAX_LINKS segs [] ≠ FoundAt q l) → segs_is_dir f segs = false.
Proof.
  intros H. unfold segs_is_dir. destruct (resolve_segs _ _ _ _) as [q l| |] eqn:E; try done.
  by destruct (H q l).
Qed.

(** What creating [first :: names] below [a] may do: directories are added below it,
    and on success all of them are there. *)
Record created (a : ppath) (first : str) (names : list str) (f : fs)
    (r : result IoError unit) (f' : fs) : Prop := {
  cr_grows : f ⊆ f';
  cr_parents : parents_exist f';
  cr_agrees : agrees_outside a f f';
  cr_deep : ∀ q, length a + S (length names) < length q → f' !! q = f !! q;
  cr_ok : r = Ok tt → f !! (a ++ [first]) = None ∧
            ∀ k, k ≤ S (length names) → f' !! (a ++ take k (first :: names)) = Some NDir;
}.

(** A new entry in a directory keeps the shape of the tree. *)
Lemma parents_insert f d n x :
  parents_exist f → f !! d = Some NDir → f !! (d ++ [n]) = None →
  parents_exist (<[d ++ [n] := x]> f).
Proof.
  intros Hf Hd Hn q m y. destruct (decide (q ++ [m] = d ++ [n])) as [Heq|Hne].
  - apply app_inj_tail in Heq as [-> ->]. intros _. rewrite lookup_insert_ne; [done|].
    intros He. rewrite He in Hn. congruence.
  - rewrite lookup_insert_ne by congruence. intros Hy%Hf. rewrite lookup_insert_ne; [done|].
    intros <-. congruence.
Qed.

Section below.
Context `{OS : Faults} (f : fs) (pre : list seg) (a : ppath) (l : nat) (first : str).
Hypothesis Hpar : parents_exist f.
Hypothesis Hpre : resolve_segs f MAX_LINKS pre [] = FoundAt a l.
Hypothesis Hnone : ∀ q l', resolve_segs f MAX_LINKS (pre ++ [SNormal first]) [] ≠ FoundAt q l'.

Lemma created_nothing names e : created a first names f (Err e) f.
Proof. by split. Qed.

Lemma created_first fuel :
  let '(r, f') := create_dirs fuel (pre ++ [SNormal first]) f in created a first [] f r f'.
Proof.
  pose proof (mkdir_found f pre a l first Hpre) as Hm.
  pose proof (not_found_no_dir f _ Hnone) as Hnd.
  destruct (is_dir_node (f !! a)) eqn:Ed.
  2: { destruct fuel; cbn [create_dirs]; rewrite Hm, Hnd; apply created_nothing. }
  destruct (f !! (a ++ [first])) eqn:E.
  { destruct fuel; cbn [create_dirs]; rewrite Hm, Hnd; apply created_nothing. }
  destruct (refuse_mkdir f (a ++ [first])) as [e|].
  { destruct fuel; cbn [create_dirs]; rewrite Hm, Hnd; apply created_nothing. }
  cbn [unless_refused] in Hm.
  assert (create_dirs fuel (pre ++ [SNormal first]) f = (Ok tt, <[a ++ [first] := NDir]> f)) as ->.
  { destruct fuel; cbn [create_dirs]; by rewrite Hm. }
  assert (∀ q, length q ≠ S (length a) → <[a ++ [first] := NDir]> f !! q = f !! q) as Hother.
  { intros q Hq. rewrite lookup_insert_ne; [done|]. intros <-. rewrite length_app in Hq.
    cbn in Hq. lia. }
  split.
  - by apply insert_subseteq.
  - apply parents_insert; [done| |done]. by apply is_dir_node_true.
  - apply agrees_insert. by exists [first].
  - intros q Hq. cbn in Hq. apply Hother. lia.
  - intros _. split; [done|]. intros [|[|k]] Hk; cbn in Hk; try lia.
    + rewrite take_0, app_nil_r, Hother by lia. by apply is_dir_node_true.
    + cbn [take]. by rewrite lookup_insert_eq.
Qed.

(** The last directory, once the others are there. *)
Lemma created_snoc f1 names m :
  created a first names f (Ok tt) f1 →
  let '(r, f2) := mkdir_or_dir (pre ++ (SNormal <$> first :: names) ++ [SNormal m]) f1 in
  created a first (names ++ [m]) f r f2.
Proof.
  intros [Hsub Hpf1 Hag Hdeep Hok]. destruct (Hok eq_refl) as [Hfirst Hdirs].
  assert (∀ k, k ≤ length (first :: names) → f1 !! (a ++ take k (first :: names)) = Some NDir) as Hdirs'
    by (intros k Hk; by apply Hdirs).
  assert (f1 !! (a ++ first :: names) = Some NDir) as Hd.
  { specialize (Hdirs (S (length names)) ltac:(lia)). by rewrite take_ge in Hdirs by (cbn; lia). }
  assert (f1 !! (a ++ first :: names ++ [m]) = None) as Hm.
  { rewrite Hdeep by (rewrite !length_app; cbn; rewrite length_app; cbn; lia).
    pose proof (absent_below f _ (names ++ [m]) Hpar Hfirst) as Ha. by rewrite <- app_assoc in Ha. }
  unfold mkdir_or_dir. rewrite app_assoc, (mkdir_found _ _ (a ++ first :: names) l).
  2: { rewrite resolve_app, (resolve_mono f f1 _ _ _ a l) by eauto using extends_subseteq.
       by apply resolve_dirs. }
  rewrite Hd, <- app_assoc. cbn [app is_dir_node]. rewrite Hm.
  destruct (refuse_mkdir f1 _) as [e|]; cbn [unless_refused].
  { assert (segs_is_dir f1 ((pre ++ (SNormal <$> first :: names)) ++ [SNormal m]) = false) as ->.
    { unfold segs_is_dir. rewrite resolve_app, resolve_app, (resolve_mono f f1 _ _ _ a l)
        by eauto using extends_subseteq.
      rewrite (resolve_dirs f1 l (first :: names) a Hdirs'), resolve_normal, Hd. cbn [is_dir_node].
      rewrite <- app_assoc. cbn [app]. by rewrite Hm. }
    split; try done. intros q Hq. apply Hdeep. rewrite length_app in Hq. lia. }
  split.
  - etrans; [exact Hsub|]. by apply insert_subseteq.
  - replace (a ++ first :: names ++ [m]) with ((a ++ first :: names) ++ [m]) in * by by rewrite <- app_assoc.
    by apply parents_insert.
  - etrans; [exact Hag|]. apply agrees_insert. by exists (first :: names ++ [m]).
  - intros q Hq. rewrite length_app in Hq; cbn in Hq. rewrite lookup_insert_ne.
    + apply Hdeep. lia.
    + intros <-. rewrite length_app in Hq; cbn in Hq. rewrite length_app in Hq; cbn in Hq. lia.
  - intros _. split; [done|]. intros k Hk. rewrite length_app in Hk; cbn in Hk.
    destruct (decide (k ≤ S (length names))) as [Hle|Hgt].
    + rewrite app_comm_cons, take_app_le by (cbn; lia).
      rewrite lookup_insert_ne; [by apply Hdirs|].
      intros Heq%(f_equal length). rewrite !length_app, length_take in Heq.
      cbn [length] in Heq. rewrite ?length_app in Heq. cbn [length] in Heq. lia.
    + rewrite take_ge by (cbn; rewrite length_app; cbn; lia). apply lookup_insert_eq.
Qed.

Lemma created_below names fuel :
  let '(r, f') := create_dirs fuel (pre ++ (SNormal <$> first :: names)) f in
  created a first names f r f'.
Proof.
  revert fuel. induction names as [|m names IH] using rev_ind; intros fuel;
    [exact (created_first fuel)|].
  rewrite app_comm_cons, fmap_app. change (SNormal <$> [m]) with [SNormal m].
  assert (∀ q l', resolve_segs f MAX_LINKS (pre ++ (SNormal <$> first :: names)) [] ≠ FoundAt q l') as Hn.
  { clear IH fuel. induction names as [|n names IH] using rev_ind; [exact Hnone|].
    rewrite app_comm_cons, fmap_app, app_assoc. by apply not_found_below. }
  destruct (not_found_below f _ m Hn) as [Hn' [e He]].
  pose proof (not_found_no_dir f _ Hn') as Hnd. rewrite <- app_assoc in He, Hnd.
  destruct fuel as [|fuel]; cbn [create_dirs]; rewrite He, ?Hnd; [by destruct e; apply created_nothing|].
  destruct e; try apply created_nothing.
  rewrite (app_assoc pre), removelast_last. unfold st_bind. specialize (IH fuel).
  destruct (create_dirs fuel _ f) as [[[]|e] f1].
  - rewrite <- app_assoc. by apply created_snoc.
  - destruct IH as [Hs Hp Ha Hd _]. split; try done. intros q Hq. apply Hd.
    rewrite length_app in Hq. lia.
Qed.
End below.

(** ** The destination of a creation *)

Definition is_found (f : fs) (segs : list seg) (q : ppath) (l : nat) : Prop :=
  resolve_segs f MAX_LINKS segs [] = FoundAt q l.

Lemma exists_found f p :
  p_slash p = false → path_exists f p = true → ∃ q l, is_found f (p_segs p) q l.
Proof.
  intros Hs. unfold path_exists, canonicalize_path, lookup_path, is_found. rewrite Hs.
  destruct (resolve_segs _ _ _ _) as [q l| |]; [eauto|done|done].
Qed.
Lemma not_exists_found f p :
  p_slash p = false → path_exists f p = false → ∀ q l, ¬ is_found f (p_segs p) q l.
Proof.
  intros Hs He q l H. unfold is_found in H. revert He.
  unfold path_exists, canonicalize_path, lookup_path. by rewrite Hs, H.
Qed.

(** The components of the nearest existing ancestor are an initial part, and the next
    one is not found. *)
Lemma nearest_split f fuel p e :
  p_slash p = false → nearest_existing f fuel p = Some e →
  p_slash e = false ∧ (∃ q l, is_found f (p_segs e) q l) ∧
  ∃ rest, p_segs p = p_segs e ++ rest ∧
    ∀ s rest', rest = s :: rest' → ∀ q l, ¬ is_found f (p_segs e ++ [s]) q l.
Proof.
  revert p. induction fuel as [|fuel IH]; intros p Hs; cbn [nearest_existing];
    (destruct (path_exists f p) eqn:Ep;
      [intros [= <-]; split; [done|]; split; [by apply exists_found|];
       exists []; split; [by rewrite app_nil_r|done]|]); [done|].
  unfold path_parent. destruct (p_segs p) as [|s0 segs] eqn:Esegs; [done|].
  rewrite <- Esegs. intros (Hse & He & rest & Hrest & Hnext)%IH; [|done].
  split; [done|]. split; [done|]. cbn [p_segs] in Hrest.
  destruct (last (p_segs p)) as [x|] eqn:Elast; [|by rewrite Esegs, last_None in Elast].
  apply last_Some in Elast as [init Hinit]. rewrite Hinit, removelast_last in Hrest.
  exists (rest ++ [x]). rewrite Hinit, Hrest. split; [by rewrite app_assoc|].
  intros s rest' Heq. destruct rest as [|r0 rest]; [|cbn in Heq; injection Heq as -> _; by eapply Hnext].
  injection Heq as -> _. rewrite app_nil_r in Hrest. subst init. rewrite <- Hinit.
  by apply not_exists_found.
Qed.

(** A creation is checked at an existing directory below the root; the names after it
    do not exist, and the last name is free. *)
Record target (root : ppath) (f : fs) (segs : list seg) (pre : list seg) (a : ppath) (l : nat)
    (r : list str) (n : str) : Prop := {
  tg_segs : segs = pre ++ (SNormal <$> r) ++ [SNormal n];
  tg_found : is_found f pre a l;
  tg_under : under root a;
  tg_next : ∀ first r', r = first :: r' → ∀ q l', ¬ is_found f (pre ++ [SNormal first]) q l';
}.

Lemma names_split (names : list str) pre rest :
  SNormal <$> names = pre ++ rest → ∃ r, rest = SNormal <$> r.
Proof. intros (x & r & -> & -> & ->)%fmap_app_inv. by exists r. Qed.

Lemma join_names root rel :
  reject_unsafe_components rel = Ok tt → p_abs (path_of rel) = false →
  ∃ names, p_segs (path_join root (path_of rel)) = SNormal <$> names.
Proof.
  intros (names & Hn)%safe_names Ha. unfold path_join. rewrite Ha. cbn [p_segs].
  rewrite Hn, <- fmap_app. eauto.
Qed.

Lemma create_target root rel f dest :
  resolve_for_create root rel f = Ok dest →
  dest = path_join root (path_of rel) ∧ reject_unsafe_components rel = Ok tt ∧
  p_abs (path_of rel) = false ∧ ∃ pre a l r n, target root f (p_segs dest) pre a l r n.
Proof.
  unfold resolve_for_create. destruct (reject_unsafe_components rel) as [[]|] eqn:Er; [|done].
  cbn [result_bind]. destruct (p_abs (path_of rel)) eqn:Ea; [done|].
  destruct (join_names root rel Er Ea) as [names Hnames].
  set (cand := path_join root (path_of rel)) in *.
  destruct (path_parent cand) as [parent|] eqn:Epar; [|done]. cbn [ok_or result_bind].
  unfold path_parent in Epar. destruct (p_segs cand) as [|s0 segs0] eqn:Ec; [done|].
  rewrite <- Ec in *. injection Epar as <-. cbn [p_segs] in *.
  destruct (last (p_segs cand)) as [x|] eqn:Elast; [|by rewrite Ec, last_None in Elast].
  apply last_Some in Elast as [init Hinit].
  assert (∃ n, x = SNormal n) as [n ->].
  { rewrite Hnames in Hinit. destruct (names_split _ _ _ Hinit) as ([|m [|]] & Hm); try done.
    injection Hm as ->. eauto. }
  set (parent := {| p_abs := p_abs cand; p_segs := _; p_slash := false |}).
  intros H. assert (∃ e, nearest_existing f (length (p_segs parent)) parent = Some e ∧
    (let? q := map_err io_error (canonicalize_path f e) in
     if starts_with_path root q then Ok cand else Err (WorkspaceEscape rel)) = Ok dest) as (e & He & Hd).
  { destruct (path_exists f parent) eqn:Ep; cbn [result_bind] in H.
    - exists parent. split; [|done]. destruct (length (p_segs parent)); cbn [nearest_existing]; by rewrite Ep.
    - unfold nearest_existing_parent in H.
      destruct (nearest_existing _ _ _) as [e|]; [eauto|done]. }
  clear H. destruct (canonicalize_path f e) as [q|] eqn:Eq; [|done]. cbn [map_err result_bind] in Hd.
  destruct (starts_with_path root q) eqn:Esw; [|done]. injection Hd as <-.
  apply bool_decide_eq_true in Esw. apply canonicalize_found in Eq as [l Hl].
  destruct (nearest_split f _ parent e eq_refl He) as (_ & _ & rest & Hrest & Hnext).
  cbn [p_segs parent] in Hrest. rewrite Hinit, removelast_last in Hrest.
  assert (∃ r, rest = SNormal <$> r) as [r ->].
  { apply (names_split (removelast names) (p_segs e)).
    rewrite <- removelast_names, <- Hnames, Hinit. by rewrite removelast_last. }
  do 3 (split; [done|]). exists (p_segs e), q, l, r, n. split; try done.
  - by rewrite Hinit, Hrest, app_assoc.
  - intros first r' -> . by apply (Hnext _ (SNormal <$> r')).
Qed.

(** ** The effect of each operation *)

Lemma agrees_weaken root a f f' : under root a → agrees_outside a f f' → agrees_outside root f f'.
Proof. intros Hr Ha q Hq. apply Ha. intros Hu. apply Hq. by etrans. Qed.

(** A change that stays below the root and keeps the tree. *)
Record confined (root : ppath) (f f' : fs) : Prop := {
  cf_agrees : agrees_outside root f f';
  cf_ok : fs_ok root f';
}.
Lemma confined_refl root f : fs_ok root f → confined root f f.
Proof. by split. Qed.
Lemma confined_trans root f f1 f2 : confined root f f1 → confined root f1 f2 → confined root f f2.
Proof. intros [H1 _] [H2 H3]. split; [by etrans|done]. Qed.

Lemma confined_extends root f f' :
  fs_ok root f → agrees_outside root f f' → extends f f' → parents_exist f' → confined root f f'.
Proof.
  intros [_ Hr] Ha He Hp. split; [done|]. split; [done|]. intros k Hk. eapply extends_dir; eauto.
Qed.

(** The directories of a creation: confined, and on success found below the root. *)
Lemma create_names_confined `{OS : Faults} root f pre a l r fuel :
  fs_ok root f → is_found f pre a l → under root a →
  (∀ first r', r = first :: r' → ∀ q l', ¬ is_found f (pre ++ [SNormal first]) q l') →
  let '(res, f1) := create_dirs fuel (pre ++ (SNormal <$> r)) f in
  confined root f f1 ∧ f ⊆ f1 ∧
  (∀ q, length a + length r < length q → f1 !! q = f !! q) ∧
  (res = Ok tt → is_found f1 (pre ++ (SNormal <$> r)) (a ++ r) l).
Proof.
  intros Hok Hf Hu Hn. destruct r as [|first r].
  - change (SNormal <$> []) with (@nil seg). rewrite !app_nil_r.
    pose proof (create_dirs_found f fuel pre a l Hf) as He.
    destruct (create_dirs fuel pre f) as [res f1]. cbn in He. subst f1.
    split; [by apply confined_refl|]. done.
  - pose proof (created_below f pre a l first (fs_parents _ _ Hok) Hf
                  (λ q l', Hn first r eq_refl q l') r fuel) as Hc.
    destruct (create_dirs fuel _ f) as [res f1]. destruct Hc as [Hg Hp Ha Hd Ho].
    split_and!; try done.
    + apply confined_extends; try done; [by eapply agrees_weaken | by apply extends_subseteq].
    + intros Hres. destruct (Ho Hres) as [_ Hdirs]. unfold is_found in *.
      rewrite resolve_app, (resolve_mono f f1 _ _ _ a l) by eauto using extends_subseteq.
      by apply resolve_dirs.
Qed.

(** The destination of a write is a symbolic link. *)
Definition final_link (root : ppath) (rel : str) (f : fs) : bool :=
  let segs := p_segs (path_join root (path_of rel)) in
  match last segs, resolve_segs f MAX_LINKS (removelast segs) [] with
  | Some (SNormal n), FoundAt d _ =>
      match f !! (d ++ [n]) with Some (NLink _) => true | _ => false end
  | _, _ => false
  end.

(** Writing a name that is not a link in a found directory: nothing changes, or a file
    is put there, with all the bytes on success. *)
Lemma write_at_found `{OS : Faults} f1 p parent n d l bytes :
  p_segs p = parent ++ [SNormal n] → is_found f1 parent d l →
  (∀ t, f1 !! (d ++ [n]) ≠ Some (NLink t)) →
  let '(r, f2) := fs_write p bytes f1 in
  (f2 = f1 ∧ r ≠ Ok tt) ∨
  ∃ written, p_slash p = false ∧ f1 !! d = Some NDir ∧
    (f1 !! (d ++ [n]) = None ∨ ∃ b, f1 !! (d ++ [n]) = Some (NFile b)) ∧
    f2 = <[d ++ [n] := NFile written]> f1 ∧ (r = Ok tt → written = bytes).
Proof.
  intros Hp Hd Hl. unfold fs_write, lookup_path. unfold is_found in Hd.
  rewrite Hp, resolve_app, Hd, resolve_normal.
  destruct (is_dir_node (f1 !! d)) eqn:Edir; [|by left]. apply is_dir_node_true in Edir.
  assert (f1 !! (d ++ [n]) = None ∨ (∃ b, f1 !! (d ++ [n]) = Some (NFile b)) →
    p_slash p = false →
    let '(r, f2) := put_file (d ++ [n]) bytes f1 in
    (f2 = f1 ∧ r ≠ Ok tt) ∨
    ∃ written, p_slash p = false ∧ f1 !! d = Some NDir ∧
      (f1 !! (d ++ [n]) = None ∨ ∃ b, f1 !! (d ++ [n]) = Some (NFile b)) ∧
      f2 = <[d ++ [n] := NFile written]> f1 ∧ (r = Ok tt → written = bytes)) as Hput.
  { intros Hn Hs. unfold put_file.
    destruct (refuse_write f1 (d ++ [n]) bytes) as [[e [k|]]|]; [right|by left|right]; by eexists. }
  destruct (f1 !! (d ++ [n])) as [[b| |t]|] eqn:E; [| |by destruct (Hl t)|].
  - rewrite resolve_nil, E. cbn [is_dir_node negb]. rewrite andb_true_r.
    destruct (p_slash p); [by left|]. rewrite E. apply Hput; eauto.
  - rewrite resolve_nil, E. cbn [is_dir_node negb]. rewrite andb_false_r, E. by left.
  - cbn [is_empty]. destruct (p_slash p); [by left|]. apply Hput; eauto.
Qed.

Lemma parents_file f d n b b' :
  parents_exist f → f !! (d ++ [n]) = Some (NFile b) → parents_exist (<[d ++ [n] := NFile b']> f).
Proof.
  intros Hf Hb q m y. destruct (decide (q = d ++ [n])) as [->|Hq].
  - rewrite lookup_insert_ne.
    + intros Hy%Hf. congruence.
    + intros Heq%(f_equal length). rewrite !length_app in Heq. cbn in Heq. lia.
  - rewrite (lookup_insert_ne f _ q) by congruence.
    destruct (decide (q ++ [m] = d ++ [n])) as [Heq|Hne].
    + apply app_inj_tail in Heq as [-> ->]. intros _. by eapply Hf.
    + rewrite lookup_insert_ne by congruence. apply Hf.
Qed.

Lemma insert_file_confined root f d n bytes :
  fs_ok root f → under root d → f !! d = Some NDir →
  f !! (d ++ [n]) = None ∨ (∃ b, f !! (d ++ [n]) = Some (NFile b)) →
  confined root f (<[d ++ [n] := NFile bytes]> f).
Proof.
  intros Hok Hu Hd Hn. apply confined_extends; [done| |by apply extends_file|].
  - apply agrees_insert. by apply prefix_app_r.
  - destruct Hn as [Hn|[b Hb]].
    + apply parents_insert; [by apply (fs_parents root)|done|done].
    + eapply parents_file; [by apply (fs_parents root)|done].
Qed.

Lemma parents_delete f q :
  parents_exist f → f !! q ≠ Some NDir → parents_exist (delete q f).
Proof.
  intros Hf Hq p n x. rewrite lookup_delete_Some. intros [_ Hx%Hf].
  rewrite lookup_delete_ne; [done|]. by intros ->.
Qed.

(** ** Operations of the local backend *)

Lemma parent_of_target root f dest pre a l r n :
  target root f (p_segs dest) pre a l r n →
  ∃ parent, path_parent dest = Some parent ∧ p_segs parent = pre ++ (SNormal <$> r).
Proof.
  intros [Hs _ _ _]. unfold path_parent. rewrite app_assoc in Hs.
  destruct (p_segs dest) as [|s0 segs] eqn:E; [by destruct (pre ++ (SNormal <$> r))|].
  rewrite Hs, removelast_last. eauto.
Qed.

Lemma dirs_above (f : fs) (y z : ppath) x :
  parents_exist f → z ≠ [] → f !! (y ++ z) = Some x → f !! y = Some NDir.
Proof.
  intros Hf. revert x. induction z as [|n z IH] using rev_ind; [done|]. intros x _.
  rewrite app_assoc. intros Hx%Hf. destruct z; [by rewrite app_nil_r in Hx|]. by eapply IH.
Qed.

(** When the destination exists, so does its directory. *)
Lemma target_found (root : ppath) (f : fs) segs pre a l r n x :
  fs_ok root f → target root f segs pre a l r n → f !! ((a ++ r) ++ [n]) = Some x →
  is_found f (pre ++ (SNormal <$> r)) (a ++ r) l ∧ f !! (a ++ r) = Some NDir.
Proof.
  intros Hok [Hs Hf Hu Hn] Hx.
  assert (f !! (a ++ r) = Some NDir) as Har by (by eapply (fs_parents root)).
  split; [|done]. unfold is_found in *. rewrite resolve_app, Hf. apply resolve_dirs. intros k Hk.
  rewrite <- (take_drop k r), app_assoc in Har.
  destruct (drop k r) as [|y z] eqn:Ed; [by rewrite app_nil_r in Har|].
  by apply (dirs_above f _ (y :: z) NDir (fs_parents _ _ Hok)).
Qed.

(** The last name is a link only when the destination is one already. *)
Lemma target_no_link (root : ppath) (rel : str) (f f1 : fs) (pre : list seg) (a : ppath) (l : nat)
    (r : list str) (n : str) :
  fs_ok root f → final_link root rel f = false →
  target root f (p_segs (path_join root (path_of rel))) pre a l r n →
  (∀ q, length a + length r < length q → f1 !! q = f !! q) →
  ∀ t, f1 !! ((a ++ r) ++ [n]) ≠ Some (NLink t).
Proof.
  intros Hok Hl Ht Hdeep t Hx.
  rewrite Hdeep in Hx by (rewrite !length_app; cbn; lia).
  destruct (target_found _ _ _ _ _ _ _ _ _ Hok Ht Hx) as [Hfound _].
  unfold final_link in Hl. unfold is_found in Hfound.
  by rewrite (tg_segs _ _ _ _ _ _ _ _ Ht), app_assoc, last_snoc, removelast_last, Hfound, Hx in Hl.
Qed.

Lemma target_before root f f1 p pre a l r n :
  fs_ok root f → target root f (p_segs p) pre a l r n → p_slash p = false → f ⊆ f1 →
  f1 !! ((a ++ r) ++ [n]) = None ∨ (∃ b, f1 !! ((a ++ r) ++ [n]) = Some (NFile b)) →
  f !! ((a ++ r) ++ [n]) = None ∨ canonicalize_path f p = Ok ((a ++ r) ++ [n]).
Proof.
  intros Hok Ht Hslash Hsub Hnew. destruct (f !! ((a ++ r) ++ [n])) as [x|] eqn:Ex; [right|by left].
  destruct (target_found _ _ _ _ _ _ _ _ _ Hok Ht Ex) as [Hfound Hd]. unfold is_found in Hfound.
  pose proof (lookup_weaken _ _ _ _ Ex Hsub) as Hx1. rewrite Hx1 in Hnew.
  destruct Hnew as [|[b [= ->]]]; [done|].
  unfold canonicalize_path, lookup_path.
  rewrite Hslash, (tg_segs _ _ _ _ _ _ _ _ Ht), app_assoc, resolve_app, Hfound, resolve_normal, Hd.
  cbn [is_dir_node]. by rewrite Ex, resolve_nil.
Qed.

Lemma write_file_spec `{OS : Faults} root rel contents f :
  fs_ok root f → final_link root rel f = false →
  let '(res, f') := write_file root rel contents f in
  confined root f f' ∧ extends f f' ∧
  (res = Ok tt → reject_unsafe_components rel = Ok tt ∧
     ∃ q, under root q ∧ canonicalize_path f' (path_join root (path_of rel)) = Ok q ∧
          f' !! q = Some (NFile contents) ∧
          (f !! q = None ∨ canonicalize_path f (path_join root (path_of rel)) = Ok q)).
Proof.
  intros Hok Hl. unfold write_file, st_bind, st_read.
  destruct (resolve_for_create root rel f) as [dest|e] eqn:Ed;
    [|by split_and!; [apply confined_refl|apply extends_subseteq|]].
  destruct (create_target _ _ _ _ Ed) as (-> & Hsafe & Habs & pre & a & l & r & n & Ht).
  destruct (parent_of_target _ _ _ _ _ _ _ _ Ht) as (parent & -> & Hps).
  unfold lift_io, fs_create_dir_all. rewrite Hps.
  pose proof (create_names_confined root f pre a l r (length (pre ++ (SNormal <$> r))) Hok
    (tg_found _ _ _ _ _ _ _ _ Ht) (tg_under _ _ _ _ _ _ _ _ Ht) (tg_next _ _ _ _ _ _ _ _ Ht)) as Hc.
  destruct (create_dirs _ _ f) as [[[]|e] f1]; destruct Hc as (Hcf & Hsub & Hdeep & Hfound);
    cbn [map_err]; [|by split_and!; [|apply extends_subseteq|]]. specialize (Hfound eq_refl).
  pose proof (target_no_link _ _ _ f1 _ _ _ _ _ Hok Hl Ht Hdeep) as Hnl.
  pose proof (tg_segs _ _ _ _ _ _ _ _ Ht) as Hsegs. rewrite app_assoc in Hsegs.
  pose proof (write_at_found f1 _ _ _ _ _ contents Hsegs Hfound Hnl) as Hw.
  destruct (fs_write _ contents f1) as [res f2].
  destruct Hw as [[-> Hne]|(written & Hslash & Hdir & Hnew & -> & Hres)].
  { split_and!; [done|by apply extends_subseteq|]. destruct res as [[]|]; [by destruct Hne|done]. }
  assert (under root (a ++ r)) as Hu by (apply prefix_app_r, (tg_under _ _ _ _ _ _ _ _ Ht)).
  split; [eapply confined_trans; [done|]; by apply insert_file_confined; [apply Hcf|..]|].
  split; [eapply extends_trans; [by apply extends_subseteq|by apply extends_file]|].
  destruct res as [[]|]; [|done]. rewrite (Hres eq_refl) in *.
  intros _. split; [done|]. exists ((a ++ r) ++ [n]). split; [by apply prefix_app_r|].
  split; [|split; [apply lookup_insert_eq|by eapply target_before]].
  unfold canonicalize_path, lookup_path. rewrite Hslash, Hsegs, resolve_app.
  unfold is_found in Hfound. rewrite (resolve_mono _ _ _ _ _ _ _ (extends_file _ _ _ Hnew) Hfound), resolve_normal.
  rewrite (extends_dir _ _ _ (extends_file _ _ contents Hnew) Hdir). cbn [is_dir_node].
  by rewrite lookup_insert_eq, resolve_nil.
Qed.

Lemma create_dir_all_confined `{OS : Faults} root rel f :
  fs_ok root f → confined root f (create_dir_all root rel f).2.
Proof.
  intros Hok. unfold create_dir_all, st_bind, st_read.
  destruct (resolve_for_create root rel f) as [dest|e] eqn:Ed; [|by apply confined_refl].
  destruct (create_target _ _ _ _ Ed) as (-> & Hsafe & Habs & pre & a & l & r & n & [Hs Hf Hu Hn]).
  unfold lift_io, fs_create_dir_all. rewrite Hs.
  destruct (resolve_segs f MAX_LINKS (pre ++ (SNormal <$> r) ++ [SNormal n]) []) as [q l'| |] eqn:E.
  { pose proof (create_dirs_found f (length (pre ++ (SNormal <$> r) ++ [SNormal n])) _ _ _ E) as He.
    destruct (create_dirs _ _ f) as [res f1]. cbn in He |- *. subst. by apply confined_refl. }
  all: pose proof (create_names_confined root f pre a l (r ++ [n])
         (length (pre ++ (SNormal <$> r) ++ [SNormal n])) Hok Hf Hu) as Hc.
  all: rewrite fmap_app in Hc; change (SNormal <$> [n]) with [SNormal n] in Hc.
  all: destruct (create_dirs _ _ f) as [res f1]; apply Hc.
  all: intros first r' Heq; (destruct r as [|r0 r]; [|injection Heq as -> _; by eapply Hn]).
  all: injection Heq as -> _; intros q' l'; unfold is_found.
  all: cbn [fmap list_fmap app] in E; by rewrite E.
Qed.

Lemma delete_file_confined `{OS : Faults} root rel f :
  fs_ok root f → confined root f (delete_file root rel f).2.
Proof.
  intros Hok. unfold delete_file, st_bind, st_read, resolve_existing.
  destruct (reject_unsafe_components rel) as [[]|]; [|by apply confined_refl]. cbn [result_bind].
  destruct (canonicalize_path f _) as [q|] eqn:Eq; [|by apply confined_refl].
  cbn [map_err result_bind]. destruct (starts_with_path root q) eqn:Es; [|by apply confined_refl].
  apply bool_decide_eq_true in Es. unfold lift_io, fs_step, fs_remove_file.
  destruct (f !! q) as [x|] eqn:Ex; [|by apply confined_refl].
  assert (x ≠ NDir → confined root f (delete q f)) as Hdel.
  { intros Hx. split; [by apply agrees_delete|]. split.
    - apply parents_delete; [by apply (fs_parents root)|]. congruence.
    - intros k Hk. rewrite lookup_delete_ne; [by apply (fs_root root)|]. intros ->.
      rewrite (fs_root root f Hok k Hk) in Ex. congruence. }
  destruct x; [|by apply confined_refl|];
    (destruct (refuse_remove f q); [by apply confined_refl|by apply Hdel]).
Qed.

(** A physical file is found at its own path. *)
Lemma canonicalize_physical (f : fs) (q : ppath) b :
  parents_exist f → f !! [] = Some NDir → f !! q = Some (NFile b) →
  canonicalize_path f (path_at q) = Ok q.
Proof.
  intros Hf Hr Hq. destruct q as [|n d _] using rev_ind; [by rewrite Hr in Hq|].
  unfold canonicalize_path, lookup_path. cbn [p_segs path_at p_slash]. rewrite fmap_app.
  rewrite resolve_app, (resolve_dirs f MAX_LINKS d []).
  2: { intros k Hk. cbn [app]. apply (dirs_above f _ (drop k d ++ [n]) (NFile b) Hf).
       - by destruct (drop k d).
       - by rewrite app_assoc, take_drop. }
  cbn [app fmap list_fmap]. rewrite resolve_normal, (Hf _ _ _ Hq). cbn [is_dir_node].
  by rewrite Hq, resolve_nil.
Qed.

Lemma read_file_at (f : fs) root rel q b :
  parents_exist f → f !! [] = Some NDir → reject_unsafe_components rel = Ok tt →
  canonicalize_path f (path_join root (path_of rel)) = Ok q → under root q →
  f !! q = Some (NFile b) → read_file root rel f = (Ok b, f).
Proof.
  intros Hf Hr Hs Hc Hu Hb. unfold read_file, st_bind, st_read, resolve_existing.
  rewrite Hs. cbn [result_bind]. rewrite Hc. cbn [map_err result_bind].
  unfold starts_with_path. rewrite bool_decide_eq_true_2 by done.
  unfold fs_read. rewrite (canonicalize_physical f q b) by done. cbn [result_bind].
  by rewrite Hb.
Qed.

(** ** The workspace *)

(** A workspace created on a proper tree is rooted at a directory of it. *)
Lemma workspace_new_ok p f w :
  parents_exist f → Workspace_new p f = Ok w →
  w = {| ws_root := ws_root w; ws_backend := LocalBackend_rooted (ws_root w) |} ∧ fs_ok (ws_root w) f.
Proof.
  intros Hf. unfold Workspace_new, canonical_root.
  destruct (canonicalize_path f p) as [q|]; [|done]. cbn [map_err result_bind].
  destruct (is_dir_node (f !! q)) eqn:E; [|done]. cbn [result_bind]. intros [= <-].
  split; [done|]. apply is_dir_node_true in E. split; [done|]. cbn [ws_root]. intros k Hk.
  destruct (decide (k = length q)) as [->|]; [by rewrite take_ge|].
  apply (dirs_above f _ (drop k q) NDir Hf); [|by rewrite take_drop].
  intros Hd%(f_equal length). rewrite length_drop in Hd. cbn in Hd. lia.
Qed.

(** Operations of the workspace, in any order. *)
Inductive ws_op :=
  | OpRead (rel : str) | OpWrite (rel : str) (contents : list byte) | OpDelete (rel : str)
  | OpCreateDirs (rel : str) | OpMetadata (rel : str).
Definition ws_step `{OS : Faults} (w : Workspace) (op : ws_op) (f : fs) : fs :=
  match op with
  | OpRead rel => (ws_read_bytes w rel f).2
  | OpWrite rel contents => (ws_write w rel contents f).2
  | OpDelete rel => (ws_delete w rel f).2
  | OpCreateDirs rel => (ws_create_dir_all w rel f).2
  | OpMetadata rel => (ws_metadata w rel f).2
  end.
Definition ws_run `{OS : Faults} (w : Workspace) (ops : list ws_op) (f : fs) : fs :=
  foldl (λ f op, ws_step w op f) f ops.
(** No write of the sequence has a symbolic link as its destination. *)
Definition no_link_write (w : Workspace) (op : ws_op) (f : fs) : bool :=
  match op with OpWrite rel _ => negb (final_link (ws_root w) rel f) | _ => true end.
Fixpoint no_link_writes `{OS : Faults} (w : Workspace) (ops : list ws_op) (f : fs) : bool :=
  match ops with
  | [] => true
  | op :: ops => no_link_write w op f && no_link_writes w ops (ws_step w op f)
  end.

Section rooted.
Context `{OS : Faults} (root : ppath) (w : Workspace).
Hypothesis Hw : w = {| ws_root := root; ws_backend := LocalBackend_rooted root |}.

Lemma on_backend_rooted {A} (rel : str) (op : ppath → fsop A) (f : fs) :
  on_backend w rel op f =
  match reject_unsafe_components rel with Ok _ => op root f | Err e => (Err e, f) end.
Proof.
  unfold on_backend, st_bind, st_lift. rewrite Hw.
  by destruct (reject_unsafe_components rel).
Qed.
Lemma ws_write_rooted rel contents f :
  ws_write w rel contents f = write_file root rel contents f ∨
  ∃ e, ws_write w rel contents f = (Err e, f).
Proof.
  unfold ws_write, st_bind at 1, st_lift at 1.
  destruct (reject_unsafe_components rel) as [u|e] eqn:E; [|eauto].
  destruct (p_abs (path_of rel)); [right; by eexists|].
  rewrite on_backend_rooted, E. by left.
Qed.
Lemma ws_create_rooted rel f :
  ws_create_dir_all w rel f = create_dir_all root rel f ∨
  ∃ e, ws_create_dir_all w rel f = (Err e, f).
Proof.
  unfold ws_create_dir_all, st_bind at 1, st_lift at 1.
  destruct (reject_unsafe_components rel) as [u|e] eqn:E; [|eauto].
  destruct (p_abs (path_of rel)); [right; by eexists|].
  rewrite on_backend_rooted, E. by left.
Qed.

Lemma ws_step_confined op f :
  fs_ok root f → no_link_write w op f = true → confined root f (ws_step w op f).
Proof.
  intros Hok Hl. destruct op as [rel|rel c|rel|rel|rel]; cbn [ws_step].
  - unfold ws_read_bytes. rewrite on_backend_rooted.
    destruct (reject_unsafe_components rel); [|by apply confined_refl].
    unfold read_file, st_bind, st_read. destruct (resolve_existing root rel f); by apply confined_refl.
  - cbn [no_link_write] in Hl. rewrite Hw in Hl. cbn [ws_root] in Hl. apply negb_true_iff in Hl.
    pose proof (write_file_spec root rel c f Hok Hl) as Hs.
    destruct (ws_write_rooted rel c f) as [->|[e ->]]; [|by apply confined_refl].
    destruct (write_file root rel c f). apply Hs.
  - unfold ws_delete. rewrite on_backend_rooted.
    destruct (reject_unsafe_components rel); [|by apply confined_refl]. by apply delete_file_confined.
  - destruct (ws_create_rooted rel f) as [->|[e ->]]; [|by apply confined_refl].
    by apply create_dir_all_confined.
  - unfold ws_metadata. rewrite on_backend_rooted.
    destruct (reject_unsafe_components rel); by apply confined_refl.
Qed.
End rooted.

(** C5. Whatever sequence of reads, writes, deletions, directory creations and metadata
    queries goes through a workspace (its real root found when it was made), and
    whatever links are inside, no entry outside the root changes, as long as no write
    names a symbolic link as its last component; and every entry stays in a directory. *)
Theorem workspace_confined `{OS : Faults} p f0 w ops :
  parents_exist f0 → Workspace_new p f0 = Ok w → no_link_writes w ops f0 = true →
  agrees_outside (ws_root w) f0 (ws_run w ops f0) ∧ fs_ok (ws_root w) (ws_run w ops f0).
Proof.
  intros Hf Hn. destruct (workspace_new_ok p f0 w Hf Hn) as [Hw Hok]. clear Hf Hn.
  revert f0 Hok. induction ops as [|op ops IH]; intros f Hok; [done|].
  cbn [no_link_writes]. intros [Hl Hls]%andb_prop.
  destruct (ws_step_confined _ _ Hw op f Hok Hl) as [Ha Hok'].
  destruct (IH _ Hok' Hls) as [Ha2 Hok2]. split; [|done]. etrans; [exact Ha|exact Ha2].
Qed.

(** What a workspace reads is the contents of a file whose real path is below the
    root, however the given path reaches it, and reading changes nothing. *)
Theorem workspace_reads_inside p f0 w f rel bytes f' :
  parents_exist f0 → Workspace_new p f0 = Ok w →
  ws_read_bytes w rel f = (Ok bytes, f') →
  f' = f ∧ ∃ q, ws_root w `prefix_of` q ∧ resolve_existing (ws_root w) rel f = Ok q ∧
    fs_read f (path_at q) = Ok bytes.
Proof.
  intros Hf Hn. destruct (workspace_new_ok p f0 w Hf Hn) as [Hw _].
  unfold ws_read_bytes. rewrite (on_backend_rooted _ _ Hw).
  destruct (reject_unsafe_components rel) as [[]|] eqn:Er; [|done].
  unfold read_file, st_bind, st_read. destruct (resolve_existing (ws_root w) rel f) as [q|] eqn:Eq; [|done].
  intros [= Hb <-]. split; [done|]. exists q. split_and!; [|done|].
  - unfold resolve_existing in Eq. rewrite Er in Eq. cbn [result_bind] in Eq.
    destruct (canonicalize_path f _); [|done]. cbn [map_err result_bind] in Eq.
    destruct (starts_with_path _ _) eqn:Es; [|done]. injection Eq as <-.
    by apply bool_decide_eq_true in Es.
  - by destruct (fs_read f (path_at q)); cbn in Hb; [injection Hb as ->|].
Qed.

(** A successful write of a text is read back as that text, also after the missing
    directories were created and when the path goes through links inside the root. *)
Theorem workspace_write_read `{OS : Faults} p f0 w rel text f' :
  parents_exist f0 → f0 !! [] = Some NDir → Workspace_new p f0 = Ok w →
  final_link (ws_root w) rel f0 = false → Forall (λ c, is_scalar c = true) text →
  ws_write w rel (utf8 text) f0 = (Ok tt, f') → ws_read_utf8 w rel f' = (Ok text, f').
Proof.
  intros Hf Hr Hn Hl Ht Hwr. destruct (workspace_new_ok p f0 w Hf Hn) as [Hw Hok].
  destruct (ws_write_rooted _ _ Hw rel (utf8 text) f0) as [Hb|[e Hb]];
    rewrite Hb in Hwr; [|done].
  pose proof (write_file_spec (ws_root w) rel (utf8 text) f0 Hok Hl) as Hs.
  rewrite Hwr in Hs. destruct Hs as ([_ Hok'] & _ & Hread).
  destruct (Hread eq_refl) as (Hsafe & q & Hu & Hc & Hq & _).
  unfold ws_read_utf8, st_bind at 1, ws_read_bytes.
  rewrite (on_backend_rooted _ _ Hw), Hsafe.
  rewrite (read_file_at f' (ws_root w) rel q (utf8 text)); try done.
  - unfold st_lift. by rewrite from_utf8_utf8.
  - by eapply fs_parents.
  - by apply (fs_root _ _ Hok' 0 ltac:(lia)).
Qed.

(** ** A tree with links *)

#[local] Existing Instance no_faults.

Lemma ws_read_state w rel f : (ws_read_bytes w rel f).2 = f.
Proof.
  unfold ws_read_bytes, on_backend, read_file, st_bind, st_lift, st_read.
  destruct (reject_unsafe_components rel); [|done]. destruct (root_for _ _); [|done].
  by destruct (resolve_existing _ _ _).
Qed.

Lemma parents_check (f : fs) :
  bool_decide (map_Forall (λ q _, q = [] ∨ is_dir_node (f !! removelast q) = true) f) = true →
  parents_exist f.
Proof.
  intros H%bool_decide_eq_true q n x Hx. specialize (H _ _ Hx). destruct H as [H|H].
  - by destruct q.
  - rewrite removelast_last in H. by apply is_dir_node_true.
Qed.

Definition at_ (s : string) : ppath :=
  omap (λ g, match g with SNormal n => Some n | _ => None end) (p_segs (path_of (lit s))).
Definition demo_fs : fs := list_to_map [
  ([], NDir); (at_ "/etc", NDir); (at_ "/etc/passwd", NFile (utf8 (lit "root:x:0")));
  (at_ "/home", NDir); (at_ "/home/ws", NDir); (at_ "/home/ws/src", NDir);
  (at_ "/home/ws/src/a.rs", NFile (utf8 (lit "fn main() {}")));
  (at_ "/home/ws/lib", NLink (path_of (lit "src")));
  (at_ "/home/ws/out", NLink (path_of (lit "/etc")));
  (at_ "/home/ws/key", NLink (path_of (lit "/etc/passwd")))].
Definition demo_ws : Workspace :=
  {| ws_root := at_ "/home/ws"; ws_backend := LocalBackend_rooted (at_ "/home/ws") |}.
Definition demo_ops : list ws_op := [
  OpWrite (lit "lib/new/b.rs") (utf8 (lit "mod b;")); OpRead (lit "src/new/b.rs");
  OpWrite (lit "out/shadow") [1%N]; OpRead (lit "key"); OpDelete (lit "lib/a.rs");
  OpWrite (lit "../up") [2%N]; OpCreateDirs (lit "a/b/c")].

Lemma demo_parents : parents_exist demo_fs.
Proof. apply parents_check. vm_compute. reflexivity. Qed.
Lemma demo_new : Workspace_new (path_of (lit "/home/ws/")) demo_fs = Ok demo_ws.
Proof. vm_compute. reflexivity. Qed.

Lemma workspace_confined_witness :
  agrees_outside (ws_root demo_ws) demo_fs (ws_run demo_ws demo_ops demo_fs) ∧
  ws_run demo_ws demo_ops demo_fs !! at_ "/home/ws/src/new/b.rs" = Some (NFile (utf8 (lit "mod b;"))) ∧
  ws_run demo_ws demo_ops demo_fs !! at_ "/home/ws/src/a.rs" = None ∧
  ws_run demo_ws demo_ops demo_fs !! at_ "/home/ws/a/b/c" = Some NDir.
Proof.
  split; [|vm_compute; split_and!; reflexivity].
  apply (workspace_confined (path_of (lit "/home/ws/")) demo_fs demo_ws demo_ops demo_parents demo_new).
  vm_compute. reflexivity.
Defined.

Lemma workspace_reads_inside_witness :
  demo_fs = demo_fs ∧ ∃ q, ws_root demo_ws `prefix_of` q ∧
    resolve_existing (ws_root demo_ws) (lit "lib/a.rs") demo_fs = Ok q ∧
    fs_read demo_fs (path_at q) = Ok (utf8 (lit "fn main() {}")).
Proof.
  apply (workspace_reads_inside (path_of (lit "/home/ws/")) demo_fs demo_ws demo_fs (lit "lib/a.rs")
           (utf8 (lit "fn main() {}")) demo_fs demo_parents demo_new).
  rewrite (surjective_pairing (ws_read_bytes _ _ _)), ws_read_state.
  apply (f_equal (λ r, (r, demo_fs))). vm_compute. reflexivity.
Defined.

Lemma workspace_write_read_witness :
  let f' := (ws_write demo_ws (lit "lib/new/b.rs") (utf8 (lit "mod b;")) demo_fs).2 in
  ws_read_utf8 demo_ws (lit "lib/new/b.rs") f' = (Ok (lit "mod b;"), f').
Proof.
  intros f'. apply (workspace_write_read (path_of (lit "/home/ws/")) demo_fs demo_ws (lit "lib/new/b.rs")
           (lit "mod b;") f' demo_parents); [vm_compute; reflexivity | exact demo_new | vm_compute; reflexivity | |].
  - repeat constructor.
  - rewrite (surjective_pairing (ws_write _ _ _ _)). apply (f_equal (λ r, (r, f'))).
    vm_compute. reflexivity.
Defined.

(** A write follows its last component when that is a link: writing [key], a link
    to a file outside the root, replaces that file's contents, although reading [key]
    is refused as an escape. *)
Theorem write_escapes_through_link :
  (ws_read_bytes demo_ws (lit "key") demo_fs).1 = Err (WorkspaceEscape (lit "key")) ∧
  (ws_write demo_ws (lit "key") [7%N] demo_fs).1 = Ok tt ∧
  ¬ agrees_outside (ws_root demo_ws) demo_fs (ws_write demo_ws (lit "key") [7%N] demo_fs).2.
Proof.
  split_and!; [vm_compute; reflexivity..|]. intros H.
  specialize (H (at_ "/etc/passwd")). vm_compute in H.
  assert (¬ under (ws_root demo_ws) (at_ "/etc/passwd")) as Hu.
  { apply (bool_decide_eq_false_1 _). vm_compute. reflexivity. }
  vm_compute in Hu. specialize (H Hu). discriminate H.
Qed.
