(* ===== verification/FileTools.v ===== *)
(** * File-editing tools ([codel00p-harness/src/editing/file_ops.rs],
    [editing/support.rs], [editing/apply_patch.rs])

    The tools that change files of the workspace: whole-file operations, and
    [apply_patch], which normalises a call into a list of changes, applies them to
    the texts in memory and writes the files at the end.  A panic of the patch
    engine stops [apply_patch] as the error [Panicked]. *)

From Stdlib Require Import Sorting.Sorted.
From stdpp Require Import base numbers strings gmap list.
From S2P Require Import Prelude RustStr Utf8 Patch Json Harness SelfCorrect ToolInput ToolRegistry FileSystem Workspace.

(** ** Shared guards ([support.rs]) *)

Definition tool_failed (name message : str) : HarnessError := ToolFailed name message.
Definition optional_bool (input : Value) (key : str) : bool :=
  default false (get key input ≫= as_bool).

Definition missing_file (tool path : str) : HarnessError :=
  tool_failed tool (lit "file does not exist: " ++ path).
Definition require_existing_file (w : Workspace) (tool path : str) : fsop unit :=
  let! is_file := ws_is_file w path in
  if negb is_file then st_err (missing_file tool path) else st_ret tt.
Definition read_source_file (w : Workspace) (tool from : str) : fsop (list byte) :=
  do! require_existing_file w tool from in
  ws_read_bytes w from.
Definition ensure_dest_free (w : Workspace) (tool to : str) (overwrite : bool) : fsop unit :=
  if overwrite then st_ret tt
  else
    let! found := ws_exists w to in
    if found then
      st_err (tool_failed tool (lit "destination already exists: " ++ to ++
                                lit " (set `overwrite` to true to replace it)"))
    else st_ret tt.

(** The real path of an existing file, or the path as it is joined. *)
Definition existing_file_key (w : Workspace) (tool path : str) : fsop FileSystem.path :=
  let! resolved := st_read (ws_resolve_for_create w path) in
  let! is_file := ws_is_file w path in
  if negb is_file then st_err (missing_file tool path)
  else st_read (λ f, Ok match canonicalize_path f resolved with
                        | Ok q => path_at q
                        | Err _ => resolved
                        end).

(** ** Whole-file tools ([file_ops.rs]) *)

Definition type_of `{SerdeJson} (t : str) : Value := json_object [(lit "type", VString t)].
Definition object_schema `{SerdeJson} (required : list str) (properties : list (str * Value)) : Value :=
  json_object [(lit "type", VString (lit "object"));
               (lit "required", VArray (VString <$> required));
               (lit "properties", json_object properties)].
Definition size_value (n : nat) : Value := VNumber (PosInt (N.of_nat n)).

Definition create_file_name : str := lit "create_file".
Definition create_file_schema `{SerdeJson} : Value :=
  object_schema [lit "path"; lit "content"]
    [(lit "path", type_of (lit "string")); (lit "content", type_of (lit "string"))].
Definition create_file_execute `{SerdeJson} `{OS : Faults} (w : Workspace) (input : Value) : fsop ToolResult :=
  let! path := st_lift (required_string create_file_name input (lit "path")) in
  let! content := st_lift (required_string create_file_name input (lit "content")) in
  let! found := ws_exists w path in
  if found then st_err (tool_failed create_file_name (lit "file already exists: " ++ path))
  else
    do! ws_write w path (utf8 content) in
    st_ret (ToolResult_json (json_object
      [(lit "path", VString path); (lit "operation", VString (lit "created"));
       (lit "bytes_written", size_value (byte_len content))])).

Definition update_file_name : str := lit "update_file".
Definition update_file_schema `{SerdeJson} : Value :=
  object_schema [lit "path"; lit "content"]
    [(lit "path", type_of (lit "string")); (lit "content", type_of (lit "string"))].
Definition update_file_execute `{SerdeJson} `{OS : Faults} (w : Workspace) (input : Value) : fsop ToolResult :=
  let! path := st_lift (required_string update_file_name input (lit "path")) in
  let! content := st_lift (required_string update_file_name input (lit "content")) in
  do! require_existing_file w update_file_name path in
  do! ws_write w path (utf8 content) in
  st_ret (ToolResult_json (json_object
    [(lit "path", VString path); (lit "operation", VString (lit "updated"));
     (lit "bytes_written", size_value (byte_len content))])).

Definition delete_file_name : str := lit "delete_file".
Definition delete_file_schema `{SerdeJson} : Value :=
  object_schema [lit "path"] [(lit "path", type_of (lit "string"))].
Definition delete_file_execute `{SerdeJson} `{OS : Faults} (w : Workspace) (input : Value) : fsop ToolResult :=
  let! path := st_lift (required_string delete_file_name input (lit "path")) in
  do! require_existing_file w delete_file_name path in
  do! ws_delete w path in
  st_ret (ToolResult_json (json_object
    [(lit "path", VString path); (lit "operation", VString (lit "deleted"))])).

Definition transfer_schema `{SerdeJson} : Value :=
  object_schema [lit "from"; lit "to"]
    [(lit "from", type_of (lit "string")); (lit "to", type_of (lit "string"));
     (lit "overwrite", type_of (lit "boolean"))].
Definition transfer_result `{SerdeJson} (from to operation : str) (bytes : list byte) : ToolResult :=
  ToolResult_json (json_object
    [(lit "from", VString from); (lit "to", VString to); (lit "operation", VString operation);
     (lit "bytes_written", size_value (length bytes))]).

Definition move_file_name : str := lit "move_file".
Definition move_file_execute `{SerdeJson} `{OS : Faults} (w : Workspace) (input : Value) : fsop ToolResult :=
  let! from := st_lift (required_string move_file_name input (lit "from")) in
  let! to := st_lift (required_string move_file_name input (lit "to")) in
  let overwrite := optional_bool input (lit "overwrite") in
  let! bytes := read_source_file w move_file_name from in
  do! ensure_dest_free w move_file_name to overwrite in
  do! ws_write w to bytes in
  do! ws_delete w from in
  st_ret (transfer_result from to (lit "moved") bytes).

Definition copy_file_name : str := lit "copy_file".
Definition copy_file_execute `{SerdeJson} `{OS : Faults} (w : Workspace) (input : Value) : fsop ToolResult :=
  let! from := st_lift (required_string copy_file_name input (lit "from")) in
  let! to := st_lift (required_string copy_file_name input (lit "to")) in
  let overwrite := optional_bool input (lit "overwrite") in
  let! bytes := read_source_file w copy_file_name from in
  do! ensure_dest_free w copy_file_name to overwrite in
  do! ws_write w to bytes in
  st_ret (transfer_result from to (lit "copied") bytes).

(** ** [apply_patch] *)

Module ApplyPatch.
Definition apply_patch_name : str := lit "apply_patch".

Definition change_fields `{SerdeJson} : list (str * Value) :=
  [(lit "path", type_of (lit "string")); (lit "find", type_of (lit "string"));
   (lit "replace", type_of (lit "string")); (lit "replace_all", type_of (lit "boolean"))].
Definition apply_patch_schema `{SerdeJson} : Value :=
  json_object [(lit "type", VString (lit "object"));
    (lit "properties", json_object
      ((lit "changes", json_object
         [(lit "items", object_schema [lit "path"; lit "find"; lit "replace"] change_fields)])
       :: change_fields))].

Record NormalizedChange := {
  nc_path : str;
  nc_find : str;
  nc_replace : str;
  nc_replace_all : bool;
}.

Definition PATH_KEYS : list str :=
  [lit "path"; lit "file"; lit "file_path"; lit "filepath"; lit "filename"].
Definition FIND_KEYS : list str :=
  [lit "find"; lit "search"; lit "old"; lit "old_string"; lit "old_str"; lit "old_text"].
Definition REPLACE_KEYS : list str :=
  [lit "replace"; lit "replacement"; lit "new"; lit "new_string"; lit "new_str"; lit "new_text"].
Definition REPLACE_ALL_KEYS : list str := [lit "replace_all"; lit "replaceAll"].

(** [iter().find_map]. *)
Fixpoint find_map {A B} (f : A → option B) (l : list A) : option B :=
  match l with
  | [] => None
  | x :: l => match f x with Some b => Some b | None => find_map f l end
  end.
Definition first_str (value : Value) (keys : list str) : option str :=
  find_map (λ key, get key value ≫= as_str) keys.
Definition first_bool (value : Value) (keys : list str) : option bool :=
  find_map (λ key, get key value ≫= as_bool) keys.

Definition invalid_input (tool message : str) : HarnessError := InvalidToolInput tool message.
Definition missing_field (tool field : str) : HarnessError :=
  invalid_input tool (lit "missing string field `" ++ field ++ lit "`").

Definition or_else {A} (o d : option A) : option A := match o with Some _ => o | None => d end.
Definition raw_changes (input : Value) : list Value :=
  match get (lit "changes") input with
  | Some (VArray items) => items
  | Some (VObject m) => [VObject m]
  | _ => [input]
  end.

(** A field of a change, or the one the whole call shares. *)
Definition normalize_change (tool : str) (input change : Value) : result HarnessError NormalizedChange :=
  let? path := ok_or (missing_field tool (lit "path"))
                 (or_else (first_str change PATH_KEYS) (first_str input PATH_KEYS)) in
  let? find := ok_or (missing_field tool (lit "find"))
                 (or_else (first_str change FIND_KEYS) (first_str input FIND_KEYS)) in
  let? replace := ok_or (missing_field tool (lit "replace"))
                    (or_else (first_str change REPLACE_KEYS) (first_str input REPLACE_KEYS)) in
  let replace_all := default false
    (or_else (first_bool change REPLACE_ALL_KEYS) (first_bool input REPLACE_ALL_KEYS)) in
  if is_empty find then Err (invalid_input tool (lit "`find` must not be empty"))
  else Ok {| nc_path := path; nc_find := find; nc_replace := replace; nc_replace_all := replace_all |}.
Fixpoint normalize_each (tool : str) (input : Value) (raw : list Value)
    : result HarnessError (list NormalizedChange) :=
  match raw with
  | [] => Ok []
  | change :: raw =>
      let? c := normalize_change tool input change in
      let? cs := normalize_each tool input raw in
      Ok (c :: cs)
  end.
Definition normalize_changes (tool : str) (input : Value) : result HarnessError (list NormalizedChange) :=
  let raw := raw_changes input in
  if is_empty raw then Err (invalid_input tool (lit "`changes` must not be empty"))
  else normalize_each tool input raw.

(** The [BTreeMap] of the texts, by the real path of the file: an association list in
    the order of the paths, with the path as it was last given. *)
Definition seg_cmp (a b : seg) : comparison :=
  match a, b with
  | SParent, SParent => Eq
  | SParent, SNormal _ => Lt
  | SNormal _, SParent => Gt
  | SNormal a, SNormal b => str_cmp a b
  end.
Fixpoint segs_cmp (a b : list seg) : comparison :=
  match a, b with
  | [], [] => Eq
  | [], _ :: _ => Lt
  | _ :: _, [] => Gt
  | x :: a, y :: b => match seg_cmp x y with Eq => segs_cmp a b | c => c end
  end.
Abbreviation texts := (list (list seg * (str * str))).
Fixpoint texts_get (key : list seg) (t : texts) : option (str * str) :=
  match t with
  | [] => None
  | (k, v) :: t => if decide (key = k) then Some v else texts_get key t
  end.
Fixpoint texts_insert (key : list seg) (v : str * str) (t : texts) : texts :=
  match t with
  | [] => [(key, v)]
  | (k, u) :: rest =>
      match segs_cmp key k with
      | Lt => (key, v) :: t
      | Eq => (key, v) :: rest
      | Gt => (k, u) :: texts_insert key v rest
      end
  end.

Inductive Stop := Failed (e : HarnessError) | Panicked.
Abbreviation patchop := (st fs Stop).
Definition failing {A} (m : fsop A) : patchop A := λ f,
  let '(r, f') := m f in (map_err Failed r, f').

Section debug.
Context (debug : str → str).

Definition change_summary `{SerdeJson} (path : str) (o : ChangeOutcome) : Value :=
  json_object [(lit "path", VString path); (lit "replacements", size_value (replacements o));
               (lit "bytes_written", size_value (byte_len (patched o)));
               (lit "strategy", VString (strategy o))].
Definition apply_in_memory (path current : str) (c : NormalizedChange) : result Stop ChangeOutcome :=
  match apply_change debug current (nc_find c) (nc_replace c) (nc_replace_all c) with
  | None => Err Panicked
  | Some (Err message) => Err (Failed (tool_failed apply_patch_name (path ++ lit ": " ++ message)))
  | Some (Ok o) => Ok o
  end.

(** The loop over the changes: the texts and the summaries so far. *)
Fixpoint patch_changes `{SerdeJson} (w : Workspace) (changes : list NormalizedChange) (contents : texts)
    (summaries : list Value) : patchop (texts * list Value) :=
  match changes with
  | [] => st_ret (contents, summaries)
  | c :: changes =>
      let path := nc_path c in
      let! key := failing (existing_file_key w apply_patch_name path) in
      let! current := match texts_get (p_segs key) contents with
                      | Some (_, existing) => st_ret existing
                      | None => failing (ws_read_utf8 w path)
                      end in
      let! outcome := st_lift (apply_in_memory path current c) in
      patch_changes w changes (texts_insert (p_segs key) (path, patched outcome) contents)
        (summaries ++ [change_summary path outcome])
  end.
Fixpoint write_texts `{OS : Faults} (w : Workspace) (contents : texts) : fsop unit :=
  match contents with
  | [] => st_ret tt
  | (_, (rel_path, text)) :: contents =>
      do! ws_write w rel_path (utf8 text) in
      write_texts w contents
  end.
Definition apply_patch_execute `{SerdeJson} `{OS : Faults} (w : Workspace) (input : Value) : patchop ToolResult :=
  let! changes := failing (st_lift (normalize_changes apply_patch_name input)) in
  let! done := patch_changes w changes [] [] in
  do! failing (write_texts w done.1) in
  st_ret (ToolResult_json (json_object
    [(lit "operation", VString (lit "patched")); (lit "changes", VArray done.2)])).
End debug.
End ApplyPatch.

(** ** The editing tools keep their promises

    [apply_patch] decides before it writes: when a change fails nothing was written, and
    otherwise it has the effect of its changes applied to the files one after the
    other, unless the system refuses one of the writes, which leaves the files written
    so far.  Moving puts the bytes at the destination. *)

Import ApplyPatch.

(** ** The order of the texts *)

Lemma str_cmp_lt_trans a b c : str_cmp a b = Lt → str_cmp b c = Lt → str_cmp a c = Lt.
Proof.
  intros H1 H2. destruct (str_cmp a c) eqn:E; [|done|].
  - apply str_cmp_eq in E as ->. rewrite str_cmp_opp, H1 in H2. done.
  - exfalso. apply (str_cmp_trans a b c); congruence.
Qed.
Lemma seg_cmp_eq a b : seg_cmp a b = Eq → a = b.
Proof. destruct a, b; cbn; try done. by intros ->%str_cmp_eq. Qed.
Lemma seg_cmp_opp a b : seg_cmp b a = CompOpp (seg_cmp a b).
Proof. destruct a, b; cbn; try done. apply str_cmp_opp. Qed.
Lemma seg_cmp_lt_trans a b c : seg_cmp a b = Lt → seg_cmp b c = Lt → seg_cmp a c = Lt.
Proof. destruct a, b, c; cbn; try done. apply str_cmp_lt_trans. Qed.

Lemma segs_cmp_eq a b : segs_cmp a b = Eq → a = b.
Proof.
  revert b. induction a as [|x a IH]; intros [|y b]; cbn; try done.
  destruct (seg_cmp x y) eqn:E; try done. intros ->%IH. f_equal. by apply seg_cmp_eq.
Qed.
Lemma segs_cmp_opp a b : segs_cmp b a = CompOpp (segs_cmp a b).
Proof.
  revert b. induction a as [|x a IH]; intros [|y b]; cbn; try done.
  rewrite seg_cmp_opp, IH. by destruct (seg_cmp x y).
Qed.
Lemma segs_cmp_lt_trans a b c : segs_cmp a b = Lt → segs_cmp b c = Lt → segs_cmp a c = Lt.
Proof.
  revert b c. induction a as [|x a IH]; intros [|y b] [|z c]; cbn; try done.
  destruct (seg_cmp x y) eqn:E1; [|  | done]; (destruct (seg_cmp y z) eqn:E2; [| |done]); intros H1 H2.
  - apply seg_cmp_eq in E1 as ->. rewrite E2. eauto.
  - apply seg_cmp_eq in E1 as ->. by rewrite E2.
  - apply seg_cmp_eq in E2 as ->. by rewrite E1.
  - by rewrite (seg_cmp_lt_trans x y z).
Qed.

Definition keys_lt (a b : list seg * (str * str)) : Prop := segs_cmp a.1 b.1 = Lt.
Abbreviation sorted_texts := (StronglySorted keys_lt).

Lemma texts_insert_keys (P : list seg → Prop) k v t :
  P k → Forall (λ e, P e.1) t → Forall (λ e, P e.1) (texts_insert k v t).
Proof.
  intros Hk. induction t as [|[k' u] t IH]; cbn [texts_insert]; intros Ht; [by repeat constructor|].
  apply Forall_cons in Ht as [H1 H2]. destruct (segs_cmp k k'); repeat constructor; eauto.
Qed.
Lemma texts_insert_sorted k v t : sorted_texts t → sorted_texts (texts_insert k v t).
Proof.
  induction t as [|[k' u] t IH]; cbn [texts_insert]; intros Hs; [by repeat constructor|].
  inversion_clear Hs as [|? ? Hst Hall]. destruct (segs_cmp k k') eqn:E.
  - apply segs_cmp_eq in E as ->. by constructor.
  - constructor; [by constructor|]. constructor; [done|].
    eapply Forall_impl; [exact Hall|]. intros e He. by eapply segs_cmp_lt_trans.
  - constructor; [by apply IH|]. apply (texts_insert_keys (λ x, segs_cmp k' x = Lt)); [|done].
    by rewrite segs_cmp_opp, E.
Qed.

(** ** The texts laid over the file system *)

Definition names_of (k : list seg) : ppath :=
  omap (λ s, match s with SNormal n => Some n | SParent => None end) k.
Lemma names_of_names q : names_of (SNormal <$> q) = q.
Proof. induction q as [|n q IH]; [done|]. unfold names_of in *. cbn. by rewrite IH. Qed.

Fixpoint overlay (t : texts) (f : fs) : fs :=
  match t with
  | [] => f
  | (k, (_, text)) :: t => <[names_of k := NFile (utf8 text)]> (overlay t f)
  end.
Definition physical (k : list seg) : Prop := k = SNormal <$> names_of k.
Lemma physical_inj k k' : physical k → physical k' → names_of k = names_of k' → k = k'.
Proof. unfold physical. intros Hk Hk' Heq. by rewrite Hk, Hk', Heq. Qed.

Lemma overlay_insert k rel text t f :
  physical k → Forall (λ e, physical e.1) t →
  overlay (texts_insert k (rel, text) t) f = <[names_of k := NFile (utf8 text)]> (overlay t f).
Proof.
  intros Hk. induction t as [|[k' [rel' text']] t IH]; cbn [texts_insert]; intros Ht; [done|].
  apply Forall_cons in Ht as [Hk' Ht]. cbn [fst] in Hk'.
  destruct (segs_cmp k k') eqn:E; cbn [overlay].
  - apply segs_cmp_eq in E as ->. by rewrite insert_insert_eq.
  - done.
  - rewrite IH by done. apply insert_insert_ne. intros Heq.
    apply (physical_inj _ _ Hk' Hk) in Heq as ->.
    pose proof (segs_cmp_opp k k) as Ho. rewrite E in Ho. done.
Qed.
Lemma overlay_insert' q rel text t f :
  Forall (λ e, physical e.1) t →
  overlay (texts_insert (SNormal <$> q) (rel, text) t) f = <[q := NFile (utf8 text)]> (overlay t f).
Proof.
  intros Ht. rewrite overlay_insert by (unfold physical; by rewrite ?names_of_names).
  by rewrite names_of_names.
Qed.
Lemma overlay_lookup k t f :
  physical k → Forall (λ e, physical e.1) t →
  overlay t f !! names_of k =
  match texts_get k t with Some (_, text) => Some (NFile (utf8 text)) | None => f !! names_of k end.
Proof.
  intros Hk. induction t as [|[k' [rel' text']] t IH]; intros Ht; [done|].
  apply Forall_cons in Ht as [Hk' Ht]. cbn [overlay texts_get].
  destruct (decide (k = k')) as [<-|Hne]; [by rewrite lookup_insert_eq|].
  rewrite lookup_insert_ne; [by apply IH|]. intros Heq. by apply Hne, physical_inj.
Qed.

Lemma overlay_lookup' q t f :
  Forall (λ e, physical e.1) t →
  overlay t f !! q =
  match texts_get (SNormal <$> q) t with Some (_, text) => Some (NFile (utf8 text)) | None => f !! q end.
Proof.
  intros Ht. pose proof (overlay_lookup (SNormal <$> q) t f) as H. rewrite names_of_names in H.
  apply H; [|done]. unfold physical. by rewrite names_of_names.
Qed.

Lemma overlay_comm t f q n :
  Forall (λ e, names_of e.1 ≠ q) t → overlay t (<[q := n]> f) = <[q := n]> (overlay t f).
Proof.
  induction t as [|[k [rel text]] t IH]; intros Ht; [done|].
  apply Forall_cons in Ht as [Hk Ht]. cbn [overlay]. rewrite IH by done. by apply insert_insert_ne.
Qed.

(** ** The reference: one change after the other, each written at once

    No write of the reference is refused. *)

Section reference.
Context (debug : str → str) (w : Workspace).

Definition edit_one (c : NormalizedChange) : patchop unit :=
  do! failing (existing_file_key w apply_patch_name (nc_path c)) in
  let! current := failing (ws_read_utf8 w (nc_path c)) in
  let! outcome := st_lift (apply_in_memory debug (nc_path c) current c) in
  failing (ws_write (OS := no_faults) w (nc_path c) (utf8 (patched outcome))).
Fixpoint edit_all (changes : list NormalizedChange) : patchop unit :=
  match changes with
  | [] => st_ret tt
  | c :: changes => do! edit_one c in edit_all changes
  end.
End reference.

(** ** Files that exist *)

Section rooted.
Context `{SerdeJson} (root : ppath) (w : Workspace).
Hypothesis Hw : w = {| ws_root := root; ws_backend := LocalBackend_rooted root |}.

(** The path is the existing file [q] of the workspace. *)
Record names_file (f : fs) (rel : str) (q : ppath) : Prop := {
  nf_safe : reject_unsafe_components rel = Ok tt;
  nf_create : resolve_for_create root rel f = Ok (path_join root (path_of rel));
  nf_real : canonicalize_path f (path_join root (path_of rel)) = Ok q;
  nf_under : under root q;
  nf_file : ∃ b, f !! q = Some (NFile b);
}.

Lemma nearest_existing_proper f f' fuel p :
  f ≃ f' → nearest_existing f fuel p = nearest_existing f' fuel p.
Proof.
  intros Hs. revert p. induction fuel as [|fuel IH]; intros p; cbn [nearest_existing]; rewrite Hs; [done|].
  destruct (path_parent p); [by rewrite IH|done].
Qed.
Lemma resolve_for_create_proper rel f f' :
  f ≃ f' → resolve_for_create root rel f = resolve_for_create root rel f'.
Proof.
  intros Hs. unfold resolve_for_create, nearest_existing_parent.
  destruct (reject_unsafe_components rel); [|done]. cbn [result_bind].
  destruct (p_abs _); [done|]. destruct (path_parent _) as [p|]; [|done]. cbn [ok_or result_bind].
  rewrite Hs, (nearest_existing_proper f f') by done.
  destruct (if path_exists f' p then _ else _); [|done]. cbn [result_bind]. by rewrite Hs.
Qed.
Lemma resolve_existing_proper rel f f' :
  f ≃ f' → resolve_existing root rel f = resolve_existing root rel f'.
Proof.
  intros Hs. unfold resolve_existing. destruct (reject_unsafe_components rel); [|done].
  cbn [result_bind]. by rewrite Hs.
Qed.
Lemma names_file_proper rel q f f' : f ≃ f' → names_file f rel q → names_file f' rel q.
Proof.
  intros Hs [Hsafe Hc Hr Hu [b Hb]]. split; [done| | |done|].
  - by rewrite <- (resolve_for_create_proper rel f f').
  - by rewrite <- Hs.
  - destruct (same_tree_node f f' q Hs) as [He|(b0 & b1 & _ & He)]; [rewrite <- He; eauto|eauto].
Qed.

Lemma is_file_spec rel f :
  ws_is_file w rel f =
  (let? _ := reject_unsafe_components rel in
   match resolve_existing root rel f with
   | Ok q => let? k := file_kind (f !! q) in Ok (fk_is_file k)
   | Err (Io text) => if decide (text = io_text NotFound) then Ok false else Err (Io text)
   | Err e => Err e
   end, f).
Proof.
  unfold ws_is_file, st_bind, ws_metadata. rewrite (on_backend_rooted _ _ Hw).
  destruct (reject_unsafe_components rel); [|done]. cbn [result_bind]. unfold st_read, metadata.
  destruct (resolve_existing root rel f) as [q|e]; [by destruct (file_kind _)|].
  destruct e; try done. by destruct (decide _).
Qed.
Lemma is_file_state rel f : (ws_is_file w rel f).2 = f.
Proof. by rewrite is_file_spec. Qed.
Lemma is_file_proper rel f f' : f ≃ f' → (ws_is_file w rel f).1 = (ws_is_file w rel f').1.
Proof.
  intros Hs. rewrite !is_file_spec. cbn [fst]. destruct (reject_unsafe_components rel); [|done].
  cbn [result_bind]. rewrite (resolve_existing_proper rel f f' Hs).
  destruct (resolve_existing root rel f') as [q|]; [|done].
  destruct (same_tree_node f f' q Hs) as [->|(b & b' & -> & ->)]; done.
Qed.

Lemma file_key_ok rel f key f' :
  existing_file_key w apply_patch_name rel f = (Ok key, f') →
  f' = f ∧ ∃ q, names_file f rel q ∧ key = path_at q.
Proof.
  unfold existing_file_key, st_bind, st_read. unfold ws_resolve_for_create. rewrite Hw at 1.
  cbn [ws_root]. destruct (resolve_for_create root rel f) as [dest|] eqn:Ed; [|done].
  destruct (create_target _ _ _ _ Ed) as (-> & Hsafe & _ & _).
  rewrite is_file_spec. rewrite Hsafe. cbn [result_bind].
  destruct (resolve_existing root rel f) as [q|e] eqn:Er;
    [|destruct e; try done; by destruct (decide _)].
  unfold resolve_existing in Er. rewrite Hsafe in Er. cbn [result_bind] in Er.
  destruct (canonicalize_path f _) as [q'|] eqn:Ec; [|done]. cbn [map_err result_bind] in Er.
  destruct (starts_with_path root q') eqn:Es; [|done]. injection Er as ->.
  destruct (f !! q) as [[b| |t]|] eqn:Eq; cbn [file_kind result_bind fk_is_file negb]; try done.
  rewrite Ec. intros [= <- <-]. split; [done|]. exists q. split; [|done].
  split; try done; [by apply bool_decide_eq_true in Es | eauto].
Qed.
Lemma file_key_proper rel f f' :
  f ≃ f' → (existing_file_key w apply_patch_name rel f).1 = (existing_file_key w apply_patch_name rel f').1.
Proof.
  intros Hs. unfold existing_file_key, st_bind, st_read, ws_resolve_for_create.
  replace (ws_root w) with root by by rewrite Hw.
  rewrite (resolve_for_create_proper rel f f' Hs).
  destruct (resolve_for_create root rel f'); [|done].
  pose proof (is_file_proper rel f f' Hs) as Hf.
  rewrite (surjective_pairing (ws_is_file w rel f)), (surjective_pairing (ws_is_file w rel f')).
  rewrite !is_file_state, Hf. destruct (ws_is_file w rel f').1 as [[]|]; [|done|done].
  cbn [negb fst]. by rewrite Hs.
Qed.
Lemma file_key_state rel f : (existing_file_key w apply_patch_name rel f).2 = f.
Proof.
  unfold existing_file_key, st_bind, st_read. destruct (ws_resolve_for_create w rel f); [|done].
  rewrite (surjective_pairing (ws_is_file w rel f)), is_file_state.
  by destruct (ws_is_file w rel f).1 as [[]|].
Qed.

(** Reading and writing an existing file. *)
Lemma create_dirs_dir `{OS : Faults} f fuel segs q l :
  resolve_segs f MAX_LINKS segs [] = FoundAt q l → f !! q = Some NDir →
  create_dirs fuel segs f = (Ok tt, f).
Proof.
  intros Hf Hd. pose proof (create_dirs_found f fuel segs q l Hf) as Hst.
  assert (segs_is_dir f segs = true) as Hdir by (unfold segs_is_dir; by rewrite Hf, Hd).
  pose proof (mkdir_existing f segs q l Hf) as [e [He Hne]].
  destruct fuel; cbn [create_dirs] in Hst |- *; rewrite He, Hdir; by destruct e.
Qed.

Lemma write_existing `{OS : Faults} f rel q contents :
  names_file f rel q → ws_write w rel contents f = lift_io (put_file q contents) f.
Proof.
  intros [Hsafe Hc Hr Hu [b Hb]].
  destruct (create_target _ _ _ _ Hc) as (_ & _ & Habs & pre & a & l & r & n & Ht).
  unfold ws_write, st_bind at 1, st_lift at 1. rewrite Hsafe, Habs, (on_backend_rooted _ _ Hw), Hsafe.
  unfold write_file, st_bind, st_read. rewrite Hc.
  destruct (parent_of_target _ _ _ _ _ _ _ _ Ht) as (parent & -> & Hps).
  pose proof (tg_segs _ _ _ _ _ _ _ _ Ht) as Hsegs. rewrite app_assoc, <- Hps in Hsegs.
  unfold canonicalize_path in Hr. destruct (lookup_path f _) as [q' l'| |] eqn:El; try done.
  injection Hr as ->. pose proof El as El'. unfold lookup_path in El'.
  rewrite Hsegs, resolve_app in El'.
  destruct (resolve_segs f MAX_LINKS (p_segs parent) []) as [d l1| |] eqn:Ed; try done.
  assert (f !! d = Some NDir) as Hd.
  { rewrite resolve_normal in El'. destruct (is_dir_node (f !! d)) eqn:E; [|done].
    by apply is_dir_node_true. }
  unfold lift_io, fs_create_dir_all. rewrite (create_dirs_dir _ _ _ _ _ Ed Hd). cbn [map_err].
  unfold fs_write. by rewrite El, Hb.
Qed.

Lemma read_existing f rel q b :
  parents_exist f → f !! [] = Some NDir → names_file f rel q → f !! q = Some (NFile b) →
  ws_read_utf8 w rel f = (ok_or (Io (utf8_error_text b)) (from_utf8 b), f).
Proof.
  intros Hp Hr Hn Hb. unfold ws_read_utf8, st_bind at 1, ws_read_bytes.
  rewrite (on_backend_rooted _ _ Hw), (nf_safe _ _ _ Hn).
  by rewrite (read_file_at f root rel q b Hp Hr (nf_safe _ _ _ Hn) (nf_real _ _ _ Hn) (nf_under _ _ _ Hn) Hb).
Qed.

Lemma same_tree_parents f f' : f ≃ f' → parents_exist f → parents_exist f'.
Proof.
  intros Hs Hp q n x Hx. apply is_dir_node_true. rewrite <- (same_tree_dir f f' q Hs).
  apply is_dir_node_true. destruct (same_tree_node f f' (q ++ [n]) Hs) as [He|(b & b' & He & _)];
    [rewrite Hx in He|]; by eapply Hp.
Qed.
Lemma same_tree_root f f' : f ≃ f' → f !! [] = Some NDir → f' !! [] = Some NDir.
Proof. intros Hs Hr. apply is_dir_node_true. rewrite <- (same_tree_dir f f' [] Hs). by rewrite Hr. Qed.

(** The texts in memory: one per file, of files that exist. *)
Definition entry_ok (f : fs) (e : list seg * (str * str)) : Prop :=
  physical e.1 ∧ names_file f e.2.1 (names_of e.1) ∧ scalars e.2.2.
Record texts_ok (f : fs) (t : texts) : Prop := {
  to_sorted : sorted_texts t;
  to_entries : Forall (entry_ok f) t;
}.
Lemma texts_physical f t : Forall (entry_ok f) t → Forall (λ e, physical e.1) t.
Proof. intros Ht. eapply Forall_impl; [exact Ht|]. by intros e [? _]. Qed.

Lemma overlay_same_tree f t : Forall (entry_ok f) t → f ≃ overlay t f.
Proof.
  induction 1 as [|[k [rel text]] t (Hk & Hn & _) Ht IH]; [done|]. cbn [overlay].
  etrans; [exact IH|]. cbn [fst snd] in Hn.
  destruct (nf_file _ _ _ (names_file_proper _ _ _ _ IH Hn)) as [b Hb]. by eapply same_tree_insert.
Qed.
Lemma texts_insert_ok f t q rel text :
  names_file f rel q → scalars text → texts_ok f t →
  texts_ok f (texts_insert (SNormal <$> q) (rel, text) t).
Proof.
  intros Hn Ht [Hs He]. split; [by apply texts_insert_sorted|]. clear Hs.
  assert (entry_ok f (SNormal <$> q, (rel, text))) as Hnew.
  { unfold entry_ok, physical. cbn [fst snd]. by rewrite names_of_names. }
  induction He as [|[k u] t Hk He IH]; cbn [texts_insert]; [by constructor|].
  destruct (segs_cmp _ k); apply Forall_cons; (split; [done|]); [done|by apply Forall_cons|done].
Qed.
Lemma texts_get_ok f t k rel text :
  Forall (entry_ok f) t → texts_get k t = Some (rel, text) → scalars text.
Proof.
  induction 1 as [|[k' [rel' text']] t (_ & _ & Hs) Ht IH]; cbn [texts_get]; [done|].
  destruct (decide _); [|done]. by intros [= <- <-].
Qed.

(** The texts of a sorted list below a key are those before it. *)
Lemma texts_get_before k done kq v rest :
  sorted_texts (done ++ (kq, v) :: rest) →
  texts_get k done = if decide (segs_cmp k kq = Lt) then texts_get k (done ++ (kq, v) :: rest) else None.
Proof.
  induction done as [|[k' u] done IH]; cbn [app texts_get]; inversion_clear 1 as [|? ? Hs Hall].
  - destruct (decide (segs_cmp k kq = Lt)) as [Hlt|]; [|done].
    assert (∀ k', segs_cmp kq k' = Lt ∨ k' = kq → k ≠ k') as Hne.
    { intros k' Hk' ->. destruct Hk' as [Hk'| ->]; [by rewrite segs_cmp_opp, Hlt in Hk'|].
      pose proof (segs_cmp_opp kq kq) as Ho. by rewrite Hlt in Ho. }
    rewrite decide_False by (apply Hne; by right).
    clear Hs. induction Hall as [|[k' u] l Hk Hall IHl]; [done|]. cbn [texts_get].
    rewrite decide_False; [done|]. apply Hne. by left.
  - rewrite (IH Hs). destruct (decide (k = k')) as [->|]; [|done].
    rewrite decide_True; [done|]. rewrite Forall_forall in Hall.
    apply (Hall (kq, v)), elem_of_app. right. left.
Qed.

Lemma texts_get_here k done v rest :
  sorted_texts (done ++ (k, v) :: rest) → texts_get k (done ++ (k, v) :: rest) = Some v.
Proof.
  induction done as [|[k' u] done IH]; cbn [app texts_get]; inversion_clear 1 as [|? ? Hs Hall].
  - by rewrite decide_True.
  - rewrite decide_False; [by apply IH|]. intros ->. rewrite Forall_forall in Hall.
    specialize (Hall (k', v) ltac:(set_solver)). unfold keys_lt in Hall. cbn [fst] in Hall.
    pose proof (segs_cmp_opp k' k') as Ho. by rewrite Hall in Ho.
Qed.

(** Writing the texts lays them over the file system, up to the first one whose write
    is refused. *)
Lemma write_texts_overlay `{OS : Faults} f t : texts_ok f t →
  write_texts w t f = (Ok tt, overlay t f) ∨
  ∃ done k rel text rest e n,
    t = done ++ (k, (rel, text)) :: rest ∧
    refuse_write (overlay done f) (names_of k) (utf8 text) = Some (e, n) ∧
    write_texts w t f =
      (Err (io_error (Fault e)),
       match n with
       | None => overlay done f
       | Some n => <[names_of k := NFile (take n (utf8 text))]> (overlay done f)
       end).
Proof.
  intros [Hs He]. revert f He.
  induction Hs as [|[k [rel text]] t Hst IH Hall]; intros f He; [by left|].
  apply Forall_cons in He as [(Hk & Hn & Htext) He]. cbn [fst snd] in *.
  cbn [write_texts]. unfold st_bind. rewrite (write_existing f rel (names_of k)) by done.
  unfold lift_io, put_file.
  destruct (refuse_write f (names_of k) (utf8 text)) as [[e n]|] eqn:Er.
  { right. exists [], k, rel, text, t, e, n. split_and!; [done|done|]. by destruct n. }
  cbn [map_err]. destruct (nf_file _ _ _ Hn) as [b Hb].
  pose proof (same_tree_insert f _ b (utf8 text) Hb) as Hsame.
  assert (Forall (λ e, names_of e.1 ≠ names_of k) t) as Hne.
  { rewrite Forall_forall in Hall, He. apply Forall_forall. intros e Hin Heq.
    destruct (He e Hin) as (Hp & _). specialize (Hall e Hin). unfold keys_lt in Hall. cbn [fst] in Hall.
    apply (physical_inj _ _ Hp Hk) in Heq. rewrite Heq in Hall.
    pose proof (segs_cmp_opp k k) as Ho. rewrite Hall in Ho. done. }
  destruct (IH (<[names_of k := NFile (utf8 text)]> f)) as [->|(dn & k' & rel' & text' & rest & e & n & -> & Hr & ->)].
  - eapply Forall_impl; [exact He|]. intros e (? & ? & ?). split_and!; [done| |done].
    by eapply names_file_proper.
  - left. by rewrite overlay_comm.
  - right. apply Forall_app in Hne as [Hne _]. rewrite overlay_comm in Hr |- * by done.
    by exists ((k, (rel, text)) :: dn), k', rel', text', rest, e, n.
Qed.

(** ** The batch against the reference *)

Section batch.
Context (debug : str → str) (f : fs).
Hypothesis Hpar : parents_exist f.
Hypothesis Htop : f !! [] = Some NDir.

(** The text the batch works on is the one the reference reads. *)
Lemma current_text t q rel :
  texts_ok f t → names_file f rel q →
  ∃ r, ws_read_utf8 w rel (overlay t f) = (r, overlay t f) ∧
    (∀ s, r = Ok s → scalars s) ∧
    match texts_get (SNormal <$> q) t with
    | Some (_, existing) => r = Ok existing
    | None => ws_read_utf8 w rel f = (r, f)
    end.
Proof.
  intros [_ Ht] Hn. pose proof (overlay_same_tree f t Ht) as Hs.
  pose proof (names_file_proper _ _ _ _ Hs Hn) as Hn'. destruct (nf_file _ _ _ Hn') as [b Hb].
  pose proof (read_existing _ rel q b (same_tree_parents _ _ Hs Hpar) (same_tree_root _ _ Hs Htop) Hn' Hb) as Hr.
  eexists. split; [exact Hr|]. split.
  { intros s. destruct (from_utf8 b) eqn:E; [|done]. intros [= <-]. by apply from_utf8_scalars in E as [? _]. }
  pose proof (overlay_lookup (SNormal <$> q) t f) as Hl. unfold physical in Hl at 1.
  rewrite names_of_names in Hl. rewrite Hb in Hl. specialize (Hl eq_refl (texts_physical _ _ Ht)).
  destruct (texts_get _ t) as [[rel' text]|] eqn:Eg.
  - injection Hl as ->. by rewrite from_utf8_utf8 by (by eapply texts_get_ok).
  - by apply (read_existing f rel q b Hpar Htop Hn).
Qed.

Lemma patch_changes_spec changes t summaries :
  texts_ok f t → Forall (λ c, scalars (nc_replace c)) changes →
  ∃ r, patch_changes debug w changes t summaries f = (r, f) ∧
    match edit_all debug w changes (overlay t f) with
    | (Ok _, g) => ∃ t' s', r = Ok (t', s') ∧ texts_ok f t' ∧ g = overlay t' f
    | (Err e, _) => r = Err e
    end.
Proof.
  revert t summaries. induction changes as [|c changes IH]; intros t summaries Ht Hc.
  { eexists. split; [done|]. cbn. eauto. }
  apply Forall_cons in Hc as [Hc Hcs]. cbn [patch_changes edit_all]. unfold edit_one.
  pose proof (overlay_same_tree f t (to_entries _ _ Ht)) as Hs.
  pose proof (file_key_proper (nc_path c) f (overlay t f) Hs) as Hk.
  unfold st_bind, failing.
  rewrite (surjective_pairing (existing_file_key w apply_patch_name (nc_path c) f)),
    (surjective_pairing (existing_file_key w apply_patch_name (nc_path c) (overlay t f))), !file_key_state, <- Hk.
  destruct (existing_file_key w apply_patch_name (nc_path c) f).1 as [key|e] eqn:Ek; cbn [map_err];
    [|by eexists].
  destruct (file_key_ok (nc_path c) f key f) as (_ & q & Hn & ->).
  { rewrite (surjective_pairing (existing_file_key _ _ _ f)), Ek. by rewrite file_key_state. }
  destruct (current_text t q (nc_path c) Ht Hn) as (r & -> & Hsc & Hcur).
  change (p_segs (path_at q)) with (SNormal <$> q).
  assert ((match texts_get (SNormal <$> q) t with
           | Some (_, existing) => st_ret existing
           | None => λ f0 : fs, let '(r0, f'0) := ws_read_utf8 w (nc_path c) f0 in (map_err Failed r0, f'0)
           end) f = (map_err Failed r, f)) as ->.
  { destruct (texts_get _ t) as [[? existing]|]; [by rewrite Hcur|by rewrite Hcur]. }
  destruct r as [current|e]; cbn [map_err]; [|by eexists]. unfold st_lift.
  destruct (apply_in_memory debug (nc_path c) current c) as [o|e] eqn:Ea; [|by eexists].
  pose proof (names_file_proper _ _ _ _ Hs Hn) as Hn'.
  rewrite (write_existing (OS := no_faults) _ _ q _ Hn'). cbn [lift_io put_file refuse_write no_faults map_err].
  assert (scalars (patched o)) as Ho.
  { unfold apply_in_memory in Ea. destruct (apply_change _ _ _ _ _) as [[o'|]|] eqn:Ec; try done.
    injection Ea as ->. eapply patched_Forall; [exact Ec| |exact Hc]. by apply Hsc. }
  rewrite <- (overlay_insert' q (nc_path c) (patched o) t f) by eauto using texts_physical, to_entries.
  apply IH; [|done]. by apply texts_insert_ok.
Qed.
End batch.
End rooted.

Lemma overlay_agrees root f t : Forall (entry_ok root f) t → agrees_outside root f (overlay t f).
Proof.
  induction 1 as [|[k [rel text]] t (Hk & Hn & _) Ht IH]; [done|]. cbn [overlay].
  etrans; [exact IH|]. apply agrees_insert. by apply (nf_under root f rel).
Qed.

Lemma overlay_app t1 t2 f : overlay (t1 ++ t2) f = overlay t1 (overlay t2 f).
Proof. induction t1 as [|[k [rel text]] t1 IH]; [done|]. cbn [app overlay]. by rewrite IH. Qed.

(** The order in which the files are written. *)
Definition path_cmp (a b : ppath) : comparison := segs_cmp (SNormal <$> a) (SNormal <$> b).
(** The system refused the write of one file on the way from [f] to [g]: the files
    before it are as in [g], the files after it as in [f], and it has the contents it
    had or the first bytes of the new ones. *)
Definition write_stopped `{OS : Faults} (f g : fs) (e : HarnessError) (h : fs) : Prop :=
  ∃ q bytes before fault written,
    g !! q = Some (NFile bytes) ∧
    (∀ x, before !! x = if decide (path_cmp x q = Lt) then g !! x else f !! x) ∧
    refuse_write before q bytes = Some (fault, written) ∧ e = io_error (Fault fault) ∧
    h = match written with None => before | Some n => <[q := NFile (take n bytes)]> before end.

(** C8. An [apply_patch] call decides before it writes.  When a change fails, or the
    engine panics, the call ends in the way the changes applied one after the other
    end, and no file has changed.  When every change applies, the call has the effect
    of the changes applied to the files one after the other, each reading what the
    one before it wrote (also when two paths name the same file), unless the system
    refuses to write one of the files: then the call fails with that error, the files
    before it in the order of their paths have their final text, those after it are
    untouched, and the file itself is untouched or cut short.  Nothing outside the
    workspace changes in any case. *)
Theorem apply_patch_atomic `{SerdeJson} `{OS : Faults} debug p f w input changes :
  parents_exist f → f !! [] = Some NDir → Workspace_new p f = Ok w →
  normalize_changes apply_patch_name input = Ok changes →
  Forall (λ c, scalars (nc_replace c)) changes →
  let '(r, h) := apply_patch_execute debug w input f in
  match edit_all debug w changes f with
  | (Ok _, g) => (is_ok r = true ∧ h = g) ∨ ∃ e, r = Err (Failed e) ∧ write_stopped f g e h
  | (Err e, _) => r = Err e ∧ h = f
  end ∧ agrees_outside (ws_root w) f h.
Proof.
  intros Hp Hr Hnew Hn Hs. destruct (workspace_new_ok p f w Hp Hnew) as [Hw _].
  destruct (patch_changes_spec (ws_root w) w Hw debug f Hp Hr changes [] []) as (r & Hr1 & Hr2);
    [by repeat constructor|done|].
  unfold apply_patch_execute, st_bind, failing, st_lift. rewrite Hn. cbn [map_err]. rewrite Hr1.
  cbn [overlay] in Hr2. destruct (edit_all debug w changes f) as [[u|e] g]; [|by rewrite Hr2].
  destruct Hr2 as (t & s & -> & Ht & ->). cbn [fst].
  pose proof (to_entries _ _ _ Ht) as He. pose proof (texts_physical _ _ _ He) as Hphys.
  destruct (write_texts_overlay (ws_root w) w Hw f t Ht)
    as [->|(dn & k & rel & text & rest & e & n & -> & Href & ->)]; cbn [map_err].
  { split; [by left|]. by apply overlay_agrees. }
  apply Forall_app in He as [Hdn He]. apply Forall_cons in He as [(Hk & Hnf & _) _].
  cbn [fst snd] in Hk, Hnf.
  apply Forall_app in Hphys as Hphys2. destruct Hphys2 as [Hpd _].
  split.
  - right. eexists. split; [done|].
    exists (names_of k), (utf8 text), (overlay dn f), e, n. split_and!; [| |done..].
    + rewrite overlay_lookup by done.
      pose proof (to_sorted _ _ _ Ht) as Hsort. clear -Hsort.
      rewrite (texts_get_here k dn (rel, text) rest); done.
    + intros x. unfold path_cmp. rewrite !overlay_lookup' by done.
      unfold physical in Hk. rewrite <- Hk, (texts_get_before _ dn k (rel, text) rest) by apply (to_sorted _ _ _ Ht).
      by destruct (decide _).
  - pose proof (overlay_agrees _ _ _ Hdn) as Ha. destruct n as [n|]; [|done].
    etrans; [exact Ha|]. apply agrees_insert. by apply (nf_under _ f rel).
Qed.

(** ** Moving *)

Lemma read_source_ok root w from f bytes f' :
  w = {| ws_root := root; ws_backend := LocalBackend_rooted root |} →
  parents_exist f → f !! [] = Some NDir →
  read_source_file w move_file_name from f = (Ok bytes, f') →
  f' = f ∧ ∃ q, reject_unsafe_components from = Ok tt ∧
    canonicalize_path f (path_join root (path_of from)) = Ok q ∧ under root q ∧
    f !! q = Some (NFile bytes).
Proof.
  intros Hw Hp Hr. unfold read_source_file, require_existing_file, st_bind.
  rewrite (surjective_pairing (ws_is_file w from f)), (is_file_state _ _ Hw).
  destruct (ws_is_file w from f).1 as [[]|] eqn:Ef; try done. cbn [negb].
  rewrite (is_file_spec _ _ Hw) in Ef. cbn [fst] in Ef.
  destruct (reject_unsafe_components from) as [[]|] eqn:Es; [|done]. cbn [result_bind] in Ef.
  unfold resolve_existing in Ef. rewrite Es in Ef. cbn [result_bind] in Ef.
  destruct (canonicalize_path f _) as [q|] eqn:Ec; cbn [map_err result_bind] in Ef.
  2: { unfold io_error in Ef. by destruct (decide _). }
  destruct (starts_with_path root q) eqn:Eu; [|done]. apply bool_decide_eq_true in Eu.
  destruct (f !! q) as [[b| |]|] eqn:Eq; try done. unfold st_ret, ws_read_bytes.
  rewrite (on_backend_rooted _ _ Hw), Es, (read_file_at f root from q b) by done.
  intros [= <- <-]. split; [done|]. by exists q.
Qed.

Lemma not_exists_canonical root w to f f' :
  w = {| ws_root := root; ws_backend := LocalBackend_rooted root |} →
  ensure_dest_free w move_file_name to false f = (Ok tt, f') →
  f' = f ∧ ∀ q, under root q → canonicalize_path f (path_join root (path_of to)) ≠ Ok q.
Proof.
  intros Hw. unfold ensure_dest_free, ws_exists, ws_metadata, st_bind.
  rewrite (on_backend_rooted _ _ Hw). destruct (reject_unsafe_components to) eqn:Es; [|done].
  unfold st_read, metadata, resolve_existing. rewrite Es. cbn [result_bind].
  destruct (canonicalize_path f _) as [q|] eqn:Ec; cbn [map_err result_bind].
  - unfold starts_with_path. destruct (bool_decide_reflect (root `prefix_of` q)); [|done].
    destruct (f !! q) as [[]|]; done.
  - unfold io_error. destruct (decide _); [|done]. intros [= <-]. split; [done|]. by intros.
Qed.

(** A file that is moved without [overwrite] is at its new path with the bytes it
    had, read through the workspace, and gone from its old real path. *)
Theorem move_file_moves `{SerdeJson} `{OS : Faults} p f w input from to r f' :
  parents_exist f → f !! [] = Some NDir → Workspace_new p f = Ok w →
  required_string move_file_name input (lit "from") = Ok from →
  required_string move_file_name input (lit "to") = Ok to →
  optional_bool input (lit "overwrite") = false → final_link (ws_root w) to f = false →
  move_file_execute w input f = (Ok r, f') →
  ∃ bytes q, ws_read_bytes w from f = (Ok bytes, f) ∧ resolve_existing (ws_root w) from f = Ok q ∧
    f' !! q = None ∧ ws_read_bytes w to f' = (Ok bytes, f') ∧
    agrees_outside (ws_root w) f f'.
Proof.
  intros Hp Hr Hnew Hfrom Hto Hov Hl. destruct (workspace_new_ok p f w Hp Hnew) as [Hw Hok].
  set (root := ws_root w) in *. unfold move_file_execute, st_bind, st_lift. rewrite Hfrom, Hto, Hov.
  destruct (read_source_file w move_file_name from f) as [[bytes|] f0] eqn:Erd; [|done].
  destruct (read_source_ok root w from f bytes f0 Hw Hp Hr Erd) as (-> & q & Hs1 & Hc1 & Hu1 & Hq).
  destruct (ensure_dest_free w move_file_name to false f) as [[[]|] f0] eqn:Eex; [|done].
  destruct (not_exists_canonical root w to f f0 Hw Eex) as [-> Hfree].
  pose proof (write_file_spec root to bytes f Hok Hl) as Hwr.
  destruct (ws_write_rooted root w Hw to bytes f) as [->|[e ->]]; [|done].
  destruct (write_file root to bytes f) as [[[]|] f1]; [|done].
  destruct Hwr as (Hcf & Hext & Hdone). destruct (Hdone eq_refl) as (Hs2 & q2 & Hu2 & Hc2 & Hq2 & Hnone).
  destruct Hnone as [Hnone|Hbad]; [|by destruct (Hfree q2 Hu2)].
  assert (q2 ≠ q) as Hne by (intros ->; congruence).
  pose proof (canonicalize_mono f f1 _ q bytes Hext Hc1 Hq) as Hc1'.
  destruct (extends_is_file f f1 q bytes Hext Hq) as [b1 Hq1].
  unfold ws_delete. rewrite (on_backend_rooted _ _ Hw), Hs1. unfold delete_file, st_bind, st_read, resolve_existing.
  rewrite Hs1. cbn [result_bind]. rewrite Hc1'. cbn [map_err result_bind].
  unfold starts_with_path. rewrite bool_decide_eq_true_2 by done.
  unfold lift_io, fs_step, fs_remove_file. rewrite Hq1.
  destruct (refuse_remove f1 q); cbn [unless_refused map_err]; [done|]. intros [= _ <-].
  exists bytes, q. unfold resolve_existing, starts_with_path, ws_read_bytes.
  rewrite !(on_backend_rooted _ _ Hw), Hs1, Hs2. cbn [result_bind]. rewrite Hc1. cbn [map_err result_bind].
  rewrite bool_decide_eq_true_2 by done.
  split_and!; [by apply (read_file_at f root from q) | done | apply lookup_delete_eq | |].
  - pose proof (cf_ok _ _ _ Hcf) as Hok1. apply (read_file_at _ root to q2); try done.
    + apply parents_delete; [by apply (fs_parents root)|]. by rewrite Hq1.
    + rewrite lookup_delete_ne; [by apply (fs_root root f1 Hok1 0 ltac:(lia))|].
      intros ->. pose proof (fs_root root f1 Hok1 0 ltac:(lia)) as Ht. change (take 0 root) with (@nil str) in Ht. congruence.
    + eapply canonicalize_delete; [exact Hq1|done|exact Hc2|exact Hq2].
    + by rewrite lookup_delete_ne.
  - etrans; [exact (cf_agrees _ _ _ Hcf)|]. by apply agrees_delete.
Qed.

(** ** Examples *)

Definition call_of (l : list (str * Value)) : Value := @json_object counting_json l.
Definition change_of (path find replace : str) : Value :=
  call_of [(lit "path", VString path); (lit "find", VString find); (lit "replace", VString replace)].
Definition demo_patch : Value :=
  call_of [(lit "changes", VArray [
    change_of (lit "src/a.rs") (lit "main") (lit "start");
    change_of (lit "lib/a.rs") (lit "start()") (lit "start(n: u8)")])].
Definition demo_changes : list NormalizedChange := [
  {| nc_path := lit "src/a.rs"; nc_find := lit "main"; nc_replace := lit "start"; nc_replace_all := false |};
  {| nc_path := lit "lib/a.rs"; nc_find := lit "start()"; nc_replace := lit "start(n: u8)"; nc_replace_all := false |}].

(** Every write to the file [q] is refused when the disk is full: the file is emptied. *)
Definition full_at (q : ppath) : Faults :=
  {| refuse_write := λ _ x _, if decide (x = q) then Some (StorageFull, Some 0) else None;
     refuse_remove := λ _ _, None; refuse_mkdir := λ _ _, None;
     refuse_rename := λ _ _ _, None; refuse_remove_tree := λ _ _, None |}.

Lemma apply_patch_atomic_witness :
  let '(r, h) := @apply_patch_execute id counting_json no_faults demo_ws demo_patch demo_fs in
  match edit_all id demo_ws demo_changes demo_fs with
  | (Ok _, g) => (is_ok r = true ∧ h = g) ∨ ∃ e, r = Err (Failed e) ∧ write_stopped (OS := no_faults) demo_fs g e h
  | (Err e, _) => r = Err e ∧ h = demo_fs
  end ∧ agrees_outside (ws_root demo_ws) demo_fs h.
Proof.
  apply (@apply_patch_atomic counting_json no_faults id (path_of (lit "/home/ws/")) demo_fs demo_ws demo_patch demo_changes
           demo_parents); [vm_compute; reflexivity | exact demo_new | vm_compute; reflexivity | repeat constructor].
Defined.
Example patch_composes_example :
  (@apply_patch_execute id counting_json no_faults demo_ws demo_patch demo_fs).2 !! at_ "/home/ws/src/a.rs" =
  Some (NFile (utf8 (lit "fn start(n: u8) {}"))).
Proof. vm_compute. reflexivity. Qed.

(** A batch whose second write fails is not undone: the first file keeps its new text,
    and the second one, which was emptied to be written, has lost its own. *)
Definition two_files_fs : fs := <[at_ "/home/ws/src/b.rs" := NFile (utf8 (lit "mod b;"))]> demo_fs.
Definition two_files_patch : Value :=
  call_of [(lit "changes", VArray [
    change_of (lit "src/a.rs") (lit "main") (lit "start");
    change_of (lit "src/b.rs") (lit "b") (lit "c")])].
Theorem apply_patch_half_written :
  let '(r, h) := @apply_patch_execute id counting_json (full_at (at_ "/home/ws/src/b.rs")) demo_ws
                   two_files_patch two_files_fs in
  r = Err (Failed (Io (fault_text StorageFull))) ∧
  h !! at_ "/home/ws/src/a.rs" = Some (NFile (utf8 (lit "fn start() {}"))) ∧
  h !! at_ "/home/ws/src/b.rs" = Some (NFile []).
Proof. vm_compute. split_and!; reflexivity. Qed.

Definition demo_move : Value :=
  call_of [(lit "from", VString (lit "src/a.rs")); (lit "to", VString (lit "lib/new/b.rs"))].
Lemma move_file_moves_witness :
  let f' := (@move_file_execute counting_json no_faults demo_ws demo_move demo_fs).2 in
  ∃ bytes q, ws_read_bytes demo_ws (lit "src/a.rs") demo_fs = (Ok bytes, demo_fs) ∧
    resolve_existing (ws_root demo_ws) (lit "src/a.rs") demo_fs = Ok q ∧
    f' !! q = None ∧ ws_read_bytes demo_ws (lit "lib/new/b.rs") f' = (Ok bytes, f') ∧
    agrees_outside (ws_root demo_ws) demo_fs f'.
Proof.
  intros f'.
  apply (@move_file_moves counting_json no_faults (path_of (lit "/home/ws/")) demo_fs demo_ws demo_move
           (lit "src/a.rs") (lit "lib/new/b.rs")
           (@transfer_result counting_json (lit "src/a.rs") (lit "lib/new/b.rs") (lit "moved")
              (utf8 (lit "fn main() {}"))) f' demo_parents);
    [vm_compute; reflexivity | exact demo_new | vm_compute; reflexivity.. |].
  rewrite (surjective_pairing (@move_file_execute _ _ _ _ _)). apply (f_equal (λ r, (r, f'))).
  vm_compute. reflexivity.
Defined.

Definition self_move : Value :=
  call_of [(lit "from", VString (lit "src/a.rs")); (lit "to", VString (lit "lib/a.rs"));
           (lit "overwrite", VBool true)].
(** Moving a file onto itself with [overwrite], here under another spelling of its
    path, reports success and deletes the file. *)
Theorem move_onto_itself_deletes :
  is_ok (@move_file_execute counting_json no_faults demo_ws self_move demo_fs).1 = true ∧
  demo_fs !! at_ "/home/ws/src/a.rs" = Some (NFile (utf8 (lit "fn main() {}"))) ∧
  (@move_file_execute counting_json no_faults demo_ws self_move demo_fs).2 !! at_ "/home/ws/src/a.rs" = None.
Proof. vm_compute. split_and!; reflexivity. Qed.
