(* ===== verification/Pipeline.v ===== *)
(** * Pipelines ([codel00p-harness/src/pipeline.rs])

    A list of tool calls that runs in one inference: later steps refer to the outputs
    of earlier ones with templates, and every step passes the permission policy and the
    tool registry.  What has happened so far, the questions to the policy and the calls
    of tools, is the world that the policy and the tools see. *)

From stdpp Require Import base numbers strings gmap list.
From S2P Require Import Prelude RustStr Json Protocol Harness ToolInput SelfCorrect ToolRegistry.

(** ** Steps *)

Definition MAX_STEPS : nat := 32.
Record PipelineStep := { step_id : option str; step_tool : str; step_input : Value }.

Definition parse_step (tool_name : str) (index : nat) (value : Value)
    : result HarnessError PipelineStep :=
  let? tool := required_string tool_name value (lit "tool") in
  let id := get_str (lit "id") value in
  let input := default (VObject []) (get (lit "input") value) in
  if negb (is_object input) then
    Err (InvalidToolInput tool_name
      (lit "step " ++ show_N (N.of_nat index) ++ lit ": `input` must be an object"))
  else Ok {| step_id := id; step_tool := tool; step_input := input |}.
Definition parse_steps (tool_name : str) (steps : list Value)
    : result HarnessError (list PipelineStep) :=
  if is_empty steps then Err (InvalidToolInput tool_name (lit "`steps` must not be empty"))
  else if MAX_STEPS <? length steps then
    Err (InvalidToolInput tool_name (lit "pipeline has " ++ show_N (N.of_nat (length steps))
      ++ lit " steps; the maximum is " ++ show_N (N.of_nat MAX_STEPS)))
  else collect_result (imap (parse_step tool_name) steps).

(** ** Scopes *)

Definition scope_rank (scope : PermissionScope) : nat :=
  match scope with
  | ReadOnly => 0 | MemoryWrite => 1 | WorkspaceWrite => 2 | ScopeNetwork => 3
  | Shell => 4 | ExternalConnector => 5
  end.
Definition scope_label (scope : PermissionScope) : str :=
  match scope with
  | ReadOnly => lit "read_only" | MemoryWrite => lit "memory_write"
  | WorkspaceWrite => lit "workspace_write" | ScopeNetwork => lit "network"
  | Shell => lit "shell" | ExternalConnector => lit "external_connector"
  end.
(** [Iterator::max_by_key] on the rank: the last of the greatest. *)
Definition max_by_rank (scopes : list PermissionScope) : option PermissionScope :=
  foldl (λ best s, match best with
                   | None => Some s
                   | Some b => if scope_rank s <? scope_rank b then Some b else Some s
                   end) None scopes.

(** ** Templates *)

Definition open_braces : str := lit "{{".
Definition close_braces : str := lit "}}".
Definition whole_template (text : str) : option str :=
  inner ← strip_prefix open_braces text;
  inner ← strip_suffix close_braces inner;
  if contains open_braces inner || contains close_braces inner then None else Some inner.

(** A dotted path, [a[0].b] read as [a.0.b]. *)
Definition normalized (expr : str) : str :=
  omap (λ c, if (c =? 91)%N then Some 46%N else if (c =? 93)%N then None else Some c) expr.
Definition path_segments (expr : str) : list str :=
  List.filter (λ s, negb (is_empty s)) (split_by (λ c, (c =? 46)%N) (normalized expr)).
(** An element by its index. *)
Definition array_get (items : list Value) (index : N) : option Value :=
  if (index <? N.of_nat (length items))%N then items !! N.to_nat index else None.
Fixpoint lookup_from (cursor : Value) (segments : list str) : option Value :=
  match segments with
  | [] => Some cursor
  | segment :: segments =>
      next ← match cursor with
             | VObject m => map_get segment m
             | VArray items => index ← parse_u64 segment; array_get items index
             | _ => None
             end;
      lookup_from next segments
  end.
Definition lookup_reference (expr : str) (context : Map) : option Value :=
  match path_segments expr with
  | [] => None
  | first :: segments => v ← map_get first context; lookup_from v segments
  end.

Section templates.
Context `{SerdeJson}.

Definition value_text (v : Value) : str :=
  match v with VString s => s | other => to_string other end.
(** What a template in the midst of a text becomes. *)
Definition substitute (expr : str) (context : Map) : str :=
  default [] (value_text <$> lookup_reference (trim expr) context).

(** The scan of [resolve_string]; every template takes at least four characters of
    the text, so its length is fuel enough. *)
Fixpoint resolve_rest (fuel : nat) (rest : str) (context : Map) : str :=
  match fuel with
  | 0 => rest
  | S fuel =>
      match split_once_str open_braces rest with
      | None => rest
      | Some (before, after) =>
          match split_once_str close_braces after with
          | None => before ++ open_braces ++ after
          | Some (expr, rest) => before ++ substitute expr context ++ resolve_rest fuel rest context
          end
      end
  end.
Definition resolve_string (text : str) (context : Map) : Value :=
  match whole_template (trim text) with
  | Some expr => default VNull (lookup_reference (trim expr) context)
  | None => VString (resolve_rest (length text) text context)
  end.
Fixpoint resolve_references (value : Value) (context : Map) : Value :=
  match value with
  | VString text => resolve_string text context
  | VArray items => VArray (List.map (λ v, resolve_references v context) items)
  | VObject m => VObject (List.map (λ '(k, v), (k, resolve_references v context)) m)
  | other => other
  end.

(** *** Lemmas *)

Definition brace_free (s : str) : Prop := avoids (N.eqb 123) s ∧ avoids (N.eqb 125) s.

Lemma split_after needle s a b :
  split_once_str needle s = Some (a, b) → length a + length needle + length b = length s.
Proof. intros ->%split_once_str_Some. rewrite !length_app. lia. Qed.

Lemma resolve_rest_fuel fuel fuel' rest context :
  length rest ≤ fuel → length rest ≤ fuel' →
  resolve_rest fuel rest context = resolve_rest fuel' rest context.
Proof.
  revert fuel' rest. induction fuel as [|fuel IH]; intros [|fuel'] rest H1 H2; try done.
  - destruct rest; [done|cbn in H1; lia].
  - destruct rest; [done|cbn in H2; lia].
  - cbn [resolve_rest].
    destruct (split_once_str open_braces rest) as [[before after]|] eqn:E1; [|done].
    destruct (split_once_str close_braces after) as [[expr rest']|] eqn:E2; [|done].
    apply split_after in E1, E2. cbn [length open_braces] in E1.
    change (length open_braces) with 2 in E1. change (length close_braces) with 2 in E2.
    f_equal. f_equal. apply IH; lia.
Qed.

Lemma split_open pre rest :
  avoids (N.eqb 123) pre → split_once_str open_braces (pre ++ open_braces ++ rest) = Some (pre, rest).
Proof.
  intros Hp. change open_braces with (123%N :: [123%N]). rewrite split_once_str_skip by done.
  change ((123%N :: [123%N]) ++ rest) with ([] ++ (123%N :: [123%N]) ++ rest).
  cbn. by rewrite app_nil_r.
Qed.
Lemma split_close pre rest :
  avoids (N.eqb 125) pre → split_once_str close_braces (pre ++ close_braces ++ rest) = Some (pre, rest).
Proof.
  intros Hp. change close_braces with (125%N :: [125%N]). rewrite split_once_str_skip by done.
  cbn. by rewrite app_nil_r.
Qed.
Lemma split_no_open tail : avoids (N.eqb 123) tail → split_once_str open_braces tail = None.
Proof.
  intros Ht. rewrite <- (app_nil_r tail). change open_braces with (123%N :: [123%N]).
  by rewrite split_once_str_skip.
Qed.

(** A text made of literals and templates, and what it is to become. *)
Definition template_text (pieces : list (str * str)) (tail : str) : str :=
  concat ((λ p, p.1 ++ open_braces ++ p.2 ++ close_braces) <$> pieces) ++ tail.
Definition template_value (pieces : list (str * str)) (tail : str) (context : Map) : str :=
  concat ((λ p, p.1 ++ substitute p.2 context) <$> pieces) ++ tail.

Lemma resolve_rest_template pieces tail context :
  Forall (λ p, avoids (N.eqb 123) p.1 ∧ avoids (N.eqb 125) p.2) pieces → avoids (N.eqb 123) tail →
  resolve_rest (length (template_text pieces tail)) (template_text pieces tail) context
    = template_value pieces tail context.
Proof.
  intros Hp Ht. induction Hp as [|[l e] pieces [Hl He] _ IH].
  - unfold template_text, template_value. cbn [fmap list_fmap concat app].
    destruct tail as [|c tail]; [done|]. cbn [length resolve_rest]. by rewrite split_no_open.
  - unfold template_text, template_value in *. cbn [fmap list_fmap concat fst snd] in *.
    rewrite <- !app_assoc in *. cbn in Hl, He.
    remember (concat _ ++ tail) as rest eqn:Er.
    set (text := l ++ open_braces ++ e ++ close_braces ++ rest).
    rewrite (resolve_rest_fuel _ (S (length text))) by lia. cbn [resolve_rest]. unfold text at 1.
    rewrite split_open, split_close by done. f_equal. f_equal. rewrite <- IH.
    apply resolve_rest_fuel; [|done]. unfold text. rewrite !length_app. lia.
Qed.

Lemma avoids_contains c needle s : avoids (N.eqb c) s → contains (c :: needle) s = false.
Proof.
  intros Ha. destruct (contains (c :: needle) s) eqn:E; [|done].
  apply contains_spec in E as (a & b & ->). specialize (Ha c). rewrite N.eqb_refl in Ha.
  discriminate Ha. rewrite !elem_of_app. right. left. by apply elem_of_cons; left.
Qed.

(** References mean what they say.  A string that is one template becomes the value
    it refers to, of whatever type, or null; in any other text every template is
    replaced by the text of its value, in place, and the rest is kept: what is put in is
    never read as a template itself, and a text without templates is unchanged. *)
Theorem template_substitution (context : Map) :
  (∀ expr, brace_free expr →
     resolve_string (open_braces ++ expr ++ close_braces) context
       = default VNull (lookup_reference (trim expr) context)) ∧
  (∀ pieces tail,
     Forall (λ p, avoids (N.eqb 123) p.1 ∧ avoids (N.eqb 125) p.2) pieces → avoids (N.eqb 123) tail →
     whole_template (trim (template_text pieces tail)) = None →
     resolve_string (template_text pieces tail) context
       = VString (template_value pieces tail context)).
Proof.
  split.
  - intros expr [H1 H2]. unfold resolve_string.
    assert (trim (open_braces ++ expr ++ close_braces) = open_braces ++ expr ++ close_braces) as ->.
    { apply trim_id; intros c Hc; [by injection Hc as <-|].
      rewrite app_assoc, last_app in Hc. by injection Hc as <-. }
    unfold whole_template. rewrite strip_prefix_app. cbn [mbind option_bind].
    assert (strip_suffix close_braces (expr ++ close_braces) = Some expr) as ->
      by by apply strip_suffix_Some.
    cbn [mbind option_bind]. unfold open_braces, close_braces.
    change (lit "{{") with (123%N :: [123%N]). change (lit "}}") with (125%N :: [125%N]).
    by rewrite !avoids_contains.
  - intros pieces tail Hp Ht Hw. unfold resolve_string. rewrite Hw. by rewrite resolve_rest_template.
Qed.
End templates.

(** ** The engine *)

Inductive pipeline_event :=
| Asked (request : PermissionRequest) (answer : result HarnessError PermissionDecision)
| Dispatched (tool : str) (input : Value).
Abbreviation world := (list pipeline_event).

Record DispatchOutcome := { do_ok : bool; do_value : Value }.
Record PipelineRun := {
  run_reports : list Value;
  run_completed : nat;
  run_total : nat;
  run_stopped_early : bool;
}.

Section engine.
Context `{SerdeJson} (sub_tools : @ToolRegistry world).
Context (decide_policy : world → PermissionRequest → result HarnessError PermissionDecision).

Definition programmatic : str := lit "programmatic".
Definition dispatch_request (tool : str) (input : Value) (request_id : str) : PermissionRequest :=
  PermissionRequest_new request_id programmatic programmatic tool input
    (permission_scope tool input sub_tools).
Definition denied_value (decision : PermissionDecision) : Value :=
  json_object
    [(lit "error", VString (default (lit "tool execution denied by permission policy")
                              (decision_message decision)));
     (lit "error_kind", VString (lit "permission_denied"))].
Definition dispatch_tool (tool : str) (input : Value) (request_id : str)
    : st world HarnessError DispatchOutcome := λ past,
  let request := dispatch_request tool input request_id in
  let answer := decide_policy past request in
  let past := past ++ [Asked request answer] in
  match answer with
  | Err e => (Err e, past)
  | Ok decision =>
      if negb (allows_execution decision) then
        (Ok {| do_ok := false; do_value := denied_value decision |}, past)
      else
        (Ok match execute tool past input sub_tools with
            | Ok r => {| do_ok := true; do_value := result_content r |}
            | Err e => {| do_ok := false;
                          do_value := json_object [(lit "error", VString (error_to_string e))] |}
            end,
         past ++ [Dispatched tool input])
  end.

Definition max_step_scope (steps : list PipelineStep) : PermissionScope :=
  default ReadOnly (max_by_rank ((λ step, permission_scope (step_tool step) (step_input step) sub_tools)
                                   <$> steps)).

Definition steps_key : str := lit "steps".
(** The output of a step, for the references of the later ones. *)
Definition record_output (step : PipelineStep) (v : Value) (context : Map) : Map :=
  let context :=
    match map_get steps_key context with
    | Some (VArray items) => map_insert steps_key (VArray (items ++ [v])) context
    | _ => context
    end in
  match step_id step with Some id => map_insert id v context | None => context end.
Definition step_report (index : nat) (step : PipelineStep) (scope : PermissionScope)
    (outcome : DispatchOutcome) : Value :=
  json_object
    ([(lit "index", VNat index)]
     ++ match step_id step with Some id => [(lit "id", VString id)] | None => [] end
     ++ [(lit "tool", VString (step_tool step)); (lit "scope", VString (scope_label scope));
         (lit "ok", VBool (do_ok outcome))]
     ++ [(if do_ok outcome then lit "output" else lit "error", do_value outcome)]).

Definition step_request_id (id_prefix : str) (index : nat) : str :=
  id_prefix ++ lit "-step-" ++ show_N (N.of_nat index).
(** The loop of [run]: the reports, how many steps completed, whether it stopped. *)
Fixpoint run_steps (index : nat) (steps : list PipelineStep) (stop_on_error : bool) (id_prefix : str)
    (context : Map) : st world HarnessError (list Value * nat * bool) :=
  match steps with
  | [] => st_ret ([], 0, false)
  | step :: steps =>
      let input := resolve_references (step_input step) context in
      let scope := permission_scope (step_tool step) input sub_tools in
      let! outcome := dispatch_tool (step_tool step) input (step_request_id id_prefix index) in
      let context := record_output step (if do_ok outcome then do_value outcome else VNull) context in
      let report := step_report index step scope outcome in
      if negb (do_ok outcome) && stop_on_error then st_ret ([report], 0, true)
      else
        let! rest := run_steps (S index) steps stop_on_error id_prefix context in
        let '(reports, completed, stopped) := rest in
        st_ret (report :: reports, if do_ok outcome then S completed else completed, stopped)
  end.
Definition initial_steps (initial_context : Map) : Map := map_insert steps_key (VArray []) initial_context.
Definition run_pipeline (steps : list PipelineStep) (stop_on_error : bool) (id_prefix : str)
    (initial_context : Map) : st world HarnessError PipelineRun :=
  let! r := run_steps 0 steps stop_on_error id_prefix (initial_steps initial_context) in
  let '(reports, completed, stopped) := r in
  st_ret {| run_reports := reports; run_completed := completed; run_total := length steps;
            run_stopped_early := stopped |}.

(** ** The [run_pipeline] tool *)

Definition run_pipeline_name : str := lit "run_pipeline".
Definition step_schema : Value :=
  json_object
    [(lit "type", VString (lit "object")); (lit "required", VArray [VString (lit "tool")]);
     (lit "properties", json_object
       [(lit "tool", json_object [(lit "type", VString (lit "string"))]);
        (lit "input", json_object [(lit "type", VString (lit "object"))]);
        (lit "id", json_object [(lit "type", VString (lit "string"))])])].
Definition run_pipeline_schema : Value :=
  json_object
    [(lit "type", VString (lit "object")); (lit "required", VArray [VString (lit "steps")]);
     (lit "properties", json_object
       [(lit "steps", json_object [(lit "type", VString (lit "array")); (lit "items", step_schema)]);
        (lit "stop_on_error", json_object [(lit "type", VString (lit "boolean"))])])].
Definition pipeline_steps (input : Value) : result HarnessError (list PipelineStep) :=
  let? steps := ok_or (InvalidToolInput run_pipeline_name (lit "missing array field `steps`"))
                  (get (lit "steps") input ≫= as_array) in
  parse_steps run_pipeline_name steps.
Definition run_pipeline_permission_scope (input : Value) : PermissionScope :=
  match pipeline_steps input with Ok steps => max_step_scope steps | Err _ => ReadOnly end.
Definition run_pipeline_execute (input : Value) : st world HarnessError ToolResult :=
  let! steps := st_lift (pipeline_steps input) in
  let stop_on_error := default true (get (lit "stop_on_error") input ≫= as_bool) in
  let! run := run_pipeline steps stop_on_error (lit "pipeline") [] in
  st_ret (ToolResult_json (json_object
    [(lit "steps", VArray (run_reports run)); (lit "completed", VNat (run_completed run));
     (lit "total", VNat (run_total run)); (lit "stopped_early", VBool (run_stopped_early run))])).

(** ** Theorems *)

(** Every dispatch follows a request for exactly that call, with the scope the registry
    gives it, that the policy has allowed. *)
Inductive governed : list pipeline_event → Prop :=
| governed_nil : governed []
| governed_refused request answer events :
    (∀ d, answer = Ok d → allows_execution d = false) →
    governed events → governed (Asked request answer :: events)
| governed_allowed request d events :
    allows_execution d = true →
    request_scope request
      = permission_scope (request_tool_name request) (request_input request) sub_tools →
    governed events →
    governed (Asked request (Ok d) :: Dispatched (request_tool_name request) (request_input request) :: events).
Definition asked (events : list pipeline_event) : list PermissionRequest :=
  omap (λ e, match e with Asked r _ => Some r | Dispatched _ _ => None end) events.

Definition report_output (report : Value) : Value := default VNull (get (lit "output") report).
Definition report_ok (report : Value) : bool := default false (get (lit "ok") report ≫= as_bool).
(** The context of a step, from the reports of the steps before it. *)
Definition context_after (context : Map) (steps : list PipelineStep) (reports : list Value) : Map :=
  foldl (λ c sv, record_output sv.1 sv.2 c) context (zip steps (report_output <$> reports)).

Lemma step_report_fields index step scope outcome :
  report_output (step_report index step scope outcome)
    = (if do_ok outcome then do_value outcome else VNull) ∧
  report_ok (step_report index step scope outcome) = do_ok outcome.
Proof.
  unfold report_output, report_ok, step_report, json_object, get. rewrite !map_get_map_of.
  destruct (step_id step), (do_ok outcome); by split.
Qed.

Lemma dispatch_spec tool input request_id past :
  ∃ r events, dispatch_tool tool input request_id past = (r, past ++ events) ∧ governed events ∧
    asked events = [dispatch_request tool input request_id].
Proof.
  unfold dispatch_tool. destruct (decide_policy past _) as [d|e] eqn:Ed.
  - destruct (allows_execution d) eqn:Ea; cbn [negb].
    + rewrite <- app_assoc. eexists _, _. split; [reflexivity|]. split; [|done].
      cbn [app]. apply (governed_allowed (dispatch_request tool input request_id)); [done..|].
      apply governed_nil.
    + eexists _, _. split; [reflexivity|]. split; [|done]. apply governed_refused; [|apply governed_nil].
      by intros ? [= <-].
  - eexists _, _. split; [reflexivity|]. split; [|done]. by apply governed_refused; [|apply governed_nil].
Qed.

Lemma governed_app a b : governed a → governed b → governed (a ++ b).
Proof. induction 1; intros Hb; cbn [app]; [done|by constructor; auto|by constructor; auto]. Qed.
Lemma asked_app a b : asked (a ++ b) = asked a ++ asked b.
Proof. apply omap_app. Qed.

(** What a run leaves behind: its events, and how its requests and reports match the
    steps. *)
Definition requests_match (index : nat) (id_prefix : str) (steps : list PipelineStep) (context : Map)
    (reports : list Value) (requests : list PermissionRequest) : Prop :=
  ∀ i request, requests !! i = Some request → ∃ step, steps !! i = Some step ∧
    request = dispatch_request (step_tool step)
      (resolve_references (step_input step) (context_after context steps (take i reports)))
      (step_request_id id_prefix (index + i)).
Lemma requests_match_cons index id_prefix step steps context report reports request requests :
  request = dispatch_request (step_tool step) (resolve_references (step_input step) context)
    (step_request_id id_prefix index) →
  requests_match (S index) id_prefix steps (record_output step (report_output report) context)
    reports requests →
  requests_match index id_prefix (step :: steps) context (report :: reports) (request :: requests).
Proof.
  intros Hr Hm [|i] req Hi; cbn in Hi.
  - injection Hi as <-. exists step. split; [done|]. by rewrite Nat.add_0_r.
  - destruct (Hm i req Hi) as (st0 & Hs & ->). exists st0. split; [done|].
    cbn [take]. unfold context_after. cbn [fmap list_fmap zip foldl fst snd]. by rewrite <- plus_n_Sm.
Qed.

(** How many steps ran, and why it ended. *)
Definition run_ended (steps : list PipelineStep) (stop_on_error : bool) (reports : list Value)
    (completed : nat) (stopped : bool) : Prop :=
  completed = length (List.filter report_ok reports) ∧
  if stopped then
    stop_on_error = true ∧ ∃ before failed, reports = before ++ [failed] ∧
      Forall (λ r, report_ok r = true) before ∧ report_ok failed = false ∧ length reports ≤ length steps
  else
    length reports = length steps ∧ (stop_on_error = true → Forall (λ r, report_ok r = true) reports).
Lemma run_ended_cons step steps stop_on_error report reports completed stopped :
  run_ended steps stop_on_error reports completed stopped →
  (report_ok report = true ∨ stop_on_error = false) →
  run_ended (step :: steps) stop_on_error (report :: reports)
    (if report_ok report then S completed else completed) stopped.
Proof.
  intros [Hc He] Hr. split; [cbn; destruct (report_ok report); cbn; by rewrite Hc|].
  destruct stopped.
  - destruct He as (-> & before & failed & -> & Hb & Hf & Hl). destruct Hr as [Hr|]; [|done].
    split; [done|]. exists (report :: before), failed. split; [done|]. split; [by constructor|].
    split; [done|]. cbn in *. lia.
  - destruct He as [He Hall]. split; [cbn; lia|]. intros Hs. destruct Hr as [Hr|]; [|congruence].
    constructor; [done|by apply Hall].
Qed.

Lemma run_steps_spec steps : ∀ index stop_on_error id_prefix context past,
  ∃ r events reports, run_steps index steps stop_on_error id_prefix context past = (r, past ++ events) ∧
    governed events ∧ requests_match index id_prefix steps context reports (asked events) ∧
    length (asked events) ≤ length steps ∧
    match r with
    | Ok (reports', completed, stopped) =>
        reports' = reports ∧ length (asked events) = length reports ∧
        run_ended steps stop_on_error reports completed stopped
    | Err _ => True
    end.
Proof.
  induction steps as [|step steps IH]; intros index stop_on_error id_prefix context past;
    cbn [run_steps].
  { exists (Ok ([], 0, false)), [], []. rewrite app_nil_r. split; [done|].
    split; [apply governed_nil|]. split; [by intros i request|]. by split. }
  set (input := resolve_references (step_input step) context).
  unfold st_bind. destruct (dispatch_spec (step_tool step) input (step_request_id id_prefix index) past)
    as (r & events & -> & Hg & Ha).
  assert (∀ reports, requests_match index id_prefix (step :: steps) context reports (asked events)) as Hone.
  { intros reports. rewrite Ha. intros [|i] req Hi; cbn in Hi; [|done].
    injection Hi as <-. exists step. split; [done|]. by rewrite Nat.add_0_r. }
  destruct r as [outcome|e].
  2:{ exists (Err e), events, []. split_and!; [done..|apply Hone|rewrite Ha; cbn; lia|done]. }
  set (report := step_report index step (permission_scope (step_tool step) input sub_tools) outcome).
  destruct (step_report_fields index step (permission_scope (step_tool step) input sub_tools) outcome)
    as [Hout Hok]. fold report in Hout, Hok.
  destruct (negb (do_ok outcome) && stop_on_error) eqn:Estop.
  { apply andb_true_iff in Estop as [Eo%negb_true_iff ->]. exists (Ok ([report], 0, true)), events, [report].
    split_and!; [done..|apply Hone|rewrite Ha; cbn; lia|done|by rewrite Ha|].
    split; [cbn [List.filter]; by rewrite Hok, Eo|]. split; [done|]. exists [], report.
    split_and!; [done..|congruence|cbn; lia]. }
  destruct (IH (S index) stop_on_error id_prefix
    (record_output step (if do_ok outcome then do_value outcome else VNull) context) (past ++ events))
    as (r & events' & reports & -> & Hg' & Hm & Hl & Hr). rewrite <- Hout in Hm.
  assert (requests_match index id_prefix (step :: steps) context (report :: reports)
    (asked (events ++ events')) ∧ length (asked (events ++ events')) = S (length (asked events')))
    as [HM HL] by (rewrite asked_app, Ha; split; [by apply requests_match_cons|done]).
  rewrite <- app_assoc. pose proof (governed_app _ _ Hg Hg') as HG.
  destruct r as [[[reports' completed] stopped]|e]; [destruct Hr as (-> & Hlen & He)|];
    eexists _, (events ++ events'), (report :: reports);
    (split; [reflexivity|]); (split; [done|]); (split; [done|]); (split; [rewrite HL; cbn; lia|]);
    [|done]. split; [done|]. split; [rewrite HL; cbn; lia|]. rewrite <- Hok.
  apply run_ended_cons; [done|]. rewrite Hok. destruct (do_ok outcome), stop_on_error; auto.
Qed.

Lemma run_pipeline_spec steps stop_on_error id_prefix context past :
  ∃ r events reports, run_pipeline steps stop_on_error id_prefix context past = (r, past ++ events) ∧
    governed events ∧
    requests_match 0 id_prefix steps (initial_steps context) reports (asked events) ∧
    length (asked events) ≤ length steps ∧
    match r with
    | Ok run => run_reports run = reports ∧ length (asked events) = length reports ∧
        run_total run = length steps ∧
        run_ended steps stop_on_error reports (run_completed run) (run_stopped_early run)
    | Err _ => True
    end.
Proof.
  unfold run_pipeline, st_bind.
  destruct (run_steps_spec steps 0 stop_on_error id_prefix (initial_steps context) past)
    as (r & events & reports & -> & Hg & Hm & Hl & Hr).
  destruct r as [[[reports' completed] stopped]|e]; eexists _, events, reports;
    (split; [reflexivity|]); split_and!; try done; naive_solver.
Qed.

Lemma parse_steps_length tool_name values steps :
  parse_steps tool_name values = Ok steps → 0 < length steps ≤ MAX_STEPS.
Proof.
  unfold parse_steps. destruct values as [|v values]; [done|]. cbn [is_empty].
  destruct (Nat.ltb_spec MAX_STEPS (length (v :: values))) as [?|Hle]; [done|].
  intros Hc. apply collect_result_Ok in Hc. apply (f_equal length) in Hc.
  rewrite length_imap, length_fmap in Hc. rewrite <- Hc. cbn in *. lia.
Qed.

(** C27. Orchestration moves into a pipeline, authority does not: whatever the input,
    the policy and the tools, each tool is dispatched only right after the policy has
    allowed a request for exactly that tool and input under the scope the registry gives
    it; there are at most 32 requests; and an input that is not a list of steps reaches
    neither the policy nor a tool. *)
Theorem pipeline_governed (input : Value) (past : world) :
  ∃ r events, run_pipeline_execute input past = (r, past ++ events) ∧ governed events ∧
    length (asked events) ≤ 32 ∧
    (∀ e, pipeline_steps input = Err e → r = Err e ∧ events = []).
Proof.
  unfold run_pipeline_execute, st_bind, st_lift.
  destruct (pipeline_steps input) as [steps|e] eqn:Es.
  - assert (length steps ≤ 32) as Hlen.
    { unfold pipeline_steps in Es. destruct (ok_or _ _) as [values|]; [|done]. cbn in Es.
      by apply parse_steps_length in Es as [_ ?]. }
    destruct (run_pipeline_spec steps (default true (get (lit "stop_on_error") input ≫= as_bool))
      (lit "pipeline") [] past) as (r & events & reports & -> & Hg & _ & Hl & _).
    destruct r as [run|e]; eexists _, events; (split; [reflexivity|]); split_and!; try done; lia.
  - exists (Err e), []. rewrite app_nil_r. split_and!; [done|apply governed_nil|cbn; lia|].
    by intros ? [= <-].
Qed.

(** *** References to earlier steps *)

Lemma record_output_steps step v context items :
  step_id step ≠ Some steps_key → map_get steps_key context = Some (VArray items) →
  map_get steps_key (record_output step v context) = Some (VArray (items ++ [v])).
Proof.
  intros Hid Hi. unfold record_output. rewrite Hi. destruct (step_id step) as [id|].
  - rewrite map_get_insert, decide_False by congruence. by rewrite map_get_insert, decide_True.
  - by rewrite map_get_insert, decide_True.
Qed.
Lemma context_after_steps steps reports context items :
  Forall (λ s, step_id s ≠ Some steps_key) steps → length reports ≤ length steps →
  map_get steps_key context = Some (VArray items) →
  map_get steps_key (context_after context steps reports)
    = Some (VArray (items ++ (report_output <$> reports))).
Proof.
  unfold context_after. intros Hs. revert reports context items.
  induction Hs as [|step steps Hid _ IH]; intros [|report reports] context items Hl Hi; cbn in *;
    rewrite ?app_nil_r; try done; [lia|].
  rewrite (IH reports _ (items ++ [report_output report])); [by rewrite <- app_assoc|lia|].
  by apply record_output_steps.
Qed.
Lemma record_output_other step v context id :
  id ≠ steps_key → step_id step ≠ Some id →
  map_get id (record_output step v context) = map_get id context.
Proof.
  intros Hk Hid. unfold record_output.
  assert (∀ c, map_get id (match step_id step with Some i => map_insert i v c | None => c end)
    = map_get id c) as ->.
  { intros c. destruct (step_id step) as [i|]; [|done]. by rewrite map_get_insert, decide_False by congruence. }
  destruct (map_get steps_key context) as [[]|]; try done. by rewrite map_get_insert, decide_False.
Qed.
Lemma context_after_other steps reports context id :
  id ≠ steps_key →
  (∀ j other, j < length reports → steps !! j = Some other → step_id other ≠ Some id) →
  map_get id (context_after context steps reports) = map_get id context.
Proof.
  unfold context_after. intros Hk. revert reports context.
  induction steps as [|step steps IH]; intros [|report reports] context Hs; cbn; try done.
  rewrite IH.
  - apply record_output_other; [done|]. apply (Hs 0 step); [cbn; lia|done].
  - intros j other Hj. apply (Hs (S j)). cbn. lia.
Qed.
Lemma context_after_id steps reports context k named id report :
  id ≠ steps_key → steps !! k = Some named → step_id named = Some id → reports !! k = Some report →
  (∀ j other, k < j < length reports → steps !! j = Some other → step_id other ≠ Some id) →
  map_get id (context_after context steps reports) = Some (report_output report).
Proof.
  intros Hkey. revert steps reports context.
  induction k as [|k IH]; intros [|step steps] [|rep reports] context Hs Hid Hr Hlast; try done.
  - injection Hs as ->. injection Hr as ->.
    change (context_after context (named :: steps) (report :: reports))
      with (context_after (record_output named (report_output report) context) steps reports).
    rewrite context_after_other; [|done|].
    + unfold record_output. rewrite Hid. by rewrite map_get_insert, decide_True.
    + intros j other Hj. apply (Hlast (S j)). cbn. lia.
  - apply (IH steps reports); [done..|]. intros j other Hj. apply (Hlast (S j)). cbn. lia.
Qed.

(** Data flows from step to step as declared: the [i]-th request of a run is for the
    [i]-th step, with its templates resolved in a context where [steps] holds the outputs
    of the steps before it (null for a failed one) and an identifier the output of the
    last step before it that bears it; and the run ends after all steps or, when it is to
    stop on errors, right after the first failed one, with the completed steps counted. *)
Theorem pipeline_dataflow (steps : list PipelineStep) (stop_on_error : bool) (id_prefix : str)
    (context : Map) (past past' : world) (run : PipelineRun)
    (Hids : Forall (λ s, step_id s ≠ Some steps_key) steps)
    (Hrun : run_pipeline steps stop_on_error id_prefix context past = (Ok run, past')) :
  run_ended steps stop_on_error (run_reports run) (run_completed run) (run_stopped_early run) ∧
  ∃ events, past' = past ++ events ∧ length (asked events) = length (run_reports run) ∧
    ∀ i request, asked events !! i = Some request → ∃ step c, steps !! i = Some step ∧
      request = dispatch_request (step_tool step) (resolve_references (step_input step) c)
        (step_request_id id_prefix i) ∧
      map_get steps_key c = Some (VArray (report_output <$> take i (run_reports run))) ∧
      ∀ k id named report, k < i → steps !! k = Some named → step_id named = Some id →
        run_reports run !! k = Some report →
        (∀ j other, k < j < i → steps !! j = Some other → step_id other ≠ Some id) →
        map_get id c = Some (report_output report).
Proof.
  destruct (run_pipeline_spec steps stop_on_error id_prefix context past)
    as (r & events & reports & E & Hg & Hm & Hl & Hr). rewrite Hrun in E.
  injection E as <- ->. destruct Hr as (-> & Hlen & _ & He). split; [done|].
  exists events. split; [done|]. split; [done|]. intros i request Hi.
  destruct (Hm i request Hi) as (step & Hs & Hreq). pose proof (lookup_lt_Some _ _ _ Hi) as Hlt.
  exists step, (context_after (initial_steps context) steps (take i reports)).
  split; [done|]. split; [exact Hreq|]. split.
  - apply (context_after_steps steps (take i reports) _ []); [done|rewrite length_take; lia|].
    unfold initial_steps. by rewrite map_get_insert, decide_True.
  - intros k id named report Hk Hnamed Hid Hrep Hlast.
    apply (context_after_id _ _ _ k named); [|done..| |].
    + intros ->. eapply Forall_lookup_1 in Hids; [|exact Hnamed]. done.
    + by rewrite lookup_take_lt.
    + intros j other Hj. rewrite length_take in Hj. apply Hlast. lia.
Qed.

(** *** The outer gate *)

Lemma max_by_rank_ge scopes : ∀ best,
  let r := foldl (λ best s, match best with
                   | None => Some s
                   | Some b => if scope_rank s <? scope_rank b then Some b else Some s
                   end) best scopes in
  (∀ b, best = Some b → ∃ m, r = Some m ∧ scope_rank b ≤ scope_rank m) ∧
  (∀ s, s ∈ scopes → ∃ m, r = Some m ∧ scope_rank s ≤ scope_rank m).
Proof.
  induction scopes as [|s scopes IH]; intros best; cbn [foldl].
  { split; [intros b ->; by exists b|]. by intros s ?%elem_of_nil. }
  set (best' := match best with None => _ | Some b => _ end). destruct (IH best') as [H1 H2].
  assert (∃ b', best' = Some b' ∧ scope_rank s ≤ scope_rank b' ∧
    ∀ b, best = Some b → scope_rank b ≤ scope_rank b') as (b' & Eb & Hs & Hb).
  { unfold best'. destruct best as [b|]; [|by exists s].
    destruct (Nat.ltb_spec (scope_rank s) (scope_rank b)) as [?|?].
    - exists b. split_and!; [done|lia|]. by intros ? [= <-].
    - exists s. split_and!; [done..|]. intros ? [= <-]. lia. }
  destruct (H1 b' Eb) as (m & Em & Hm). split.
  - intros b Hbest. exists m. split; [done|]. pose proof (Hb b Hbest). lia.
  - intros x [->|Hx]%elem_of_cons; [exists m; split; [done|lia]|by apply H2].
Qed.

(** When the scope of a tool does not depend on its input, the scope of a pipeline
    covers every request it makes: its outer gate is never weaker than its steps. *)
Theorem pipeline_outer_gate (steps : list PipelineStep) (stop_on_error : bool) (id_prefix : str)
    (context : Map) (past : world) (request : PermissionRequest) (answer : result HarnessError PermissionDecision)
    (Hscopes : ∀ name tool i j, tools sub_tools !! name = Some tool →
       tool_permission_scope tool i = tool_permission_scope tool j)
    (Hasked : Asked request answer ∈ (run_pipeline steps stop_on_error id_prefix context past).2)
    (Hnew : Asked request answer ∉ past) :
  scope_rank (request_scope request) ≤ scope_rank (max_step_scope steps).
Proof.
  destruct (run_pipeline_spec steps stop_on_error id_prefix context past)
    as (r & events & reports & E & _ & Hm & _). rewrite E in Hasked. cbn [snd] in Hasked.
  apply elem_of_app in Hasked as [?|Hasked]; [done|].
  assert (request ∈ asked events) as Hin.
  { apply list_elem_of_omap. by exists (Asked request answer). }
  apply list_elem_of_lookup in Hin as [i Hi]. destruct (Hm i request Hi) as (step & Hs & ->).
  unfold max_step_scope, max_by_rank.
  set (scopes := _ <$> steps). destruct (max_by_rank_ge scopes None) as [_ H2].
  destruct (H2 (permission_scope (step_tool step) (step_input step) sub_tools)) as (m & -> & Hle).
  { apply list_elem_of_fmap. exists step. split; [done|]. by eapply list_elem_of_lookup_2. }
  cbn [default]. etransitivity; [|exact Hle]. cbn [request_scope dispatch_request PermissionRequest_new].
  unfold permission_scope. destruct (is_meta_tool _ _); [done|].
  destruct (tools sub_tools !! step_tool step) as [tool|] eqn:Et; [|done]. cbn.
  by rewrite (Hscopes _ tool _ (step_input step) Et).
Qed.
End engine.

(** ** On examples *)

Definition echo_tool : @Tool world := {|
  tool_name := lit "echo"; tool_description := [];
  tool_input_schema := VObject [(lit "type", VString (lit "object"))];
  tool_is_concurrency_safe := λ _, true;
  tool_permission_scope := λ _, ReadOnly;
  tool_execute := λ _ input, Ok (ToolResult_json input);
|}.
Definition demo_tools : @ToolRegistry world := with_tool echo_tool ToolRegistry_new.
Definition demo_policy (_ : world) (request : PermissionRequest) : result HarnessError PermissionDecision :=
  Ok (if scope_rank (request_scope request) =? 0 then decision_allow (request_id request) ModeAllow
      else decision_deny (request_id request) ModeDeny (lit "no")).
Definition demo_steps : list PipelineStep :=
  [{| step_id := Some (lit "a"); step_tool := lit "echo";
      step_input := VObject [(lit "x", VString (lit "hi"))] |};
   {| step_id := None; step_tool := lit "echo";
      step_input := VObject [(lit "y", VString (lit "{{a.x}} {{steps[0].x}}"))] |};
   {| step_id := None; step_tool := lit "other"; step_input := VObject [] |}].

Lemma template_substitution_witness :
  let context := [(lit "a", VString (lit "{{b}}"))] in
  resolve_string (H := counting_json) (lit "{{ a }}") context = VString (lit "{{b}}") ∧
  resolve_string (H := counting_json) (lit "x {{a}}!") context = VString (lit "x {{b}}!").
Proof.
  intros context. destruct (template_substitution (H := counting_json) context) as [H1 H2]. split.
  - change (lit "{{ a }}") with (open_braces ++ lit " a " ++ close_braces).
    rewrite H1; [reflexivity|]. split; by apply avoids_forallb.
  - pose proof (H2 [(lit "x ", lit "a")] (lit "!")) as H3.
    change (lit "x {{a}}!") with (template_text [(lit "x ", lit "a")] (lit "!")).
    rewrite H3; [reflexivity| | |reflexivity]; [|by apply avoids_forallb].
    constructor; [|constructor]. split; by apply avoids_forallb.
Defined.

Lemma pipeline_dataflow_witness :
  ∃ run past', run_pipeline (H := counting_json) demo_tools demo_policy demo_steps true (lit "p") [] []
      = (Ok run, past') ∧
    run_ended demo_steps true (run_reports run) (run_completed run) (run_stopped_early run) ∧
    run_completed run = 2 ∧ run_stopped_early run = true.
Proof.
  destruct (run_pipeline (H := counting_json) demo_tools demo_policy demo_steps true (lit "p") [] [])
    as [[run|e] past'] eqn:E; [|vm_compute in E; discriminate E].
  exists run, past'. split; [reflexivity|]. split.
  - refine (proj1 (pipeline_dataflow (H := counting_json) demo_tools demo_policy demo_steps true
      (lit "p") [] [] past' run _ E)). by repeat constructor.
  - vm_compute in E. injection E as <- _. split; reflexivity.
Defined.

Lemma pipeline_outer_gate_witness :
  ∃ request answer, Asked request answer
      ∈ (run_pipeline (H := counting_json) demo_tools demo_policy demo_steps true (lit "p") [] []).2 ∧
    scope_rank (request_scope request) ≤ scope_rank (max_step_scope demo_tools demo_steps).
Proof.
  set (request := dispatch_request demo_tools (lit "echo") (VObject [(lit "x", VString (lit "hi"))])
    (step_request_id (lit "p") 0)).
  assert (Asked request (Ok (decision_allow (request_id request) ModeAllow))
    ∈ (run_pipeline (H := counting_json) demo_tools demo_policy demo_steps true (lit "p") [] []).2) as Hin.
  { vm_compute. apply elem_of_cons. by left. }
  exists request, (Ok (decision_allow (request_id request) ModeAllow)). split; [exact Hin|].
  refine (pipeline_outer_gate (H := counting_json) demo_tools demo_policy demo_steps true (lit "p") [] []
    request (Ok (decision_allow (request_id request) ModeAllow)) _ Hin _).
  - intros name tool i j Ht. unfold demo_tools, with_tool in Ht. cbn [tools] in Ht.
    apply lookup_insert_Some in Ht as [[_ <-]|[_ Ht]]; [reflexivity|].
    cbn in Ht. by rewrite lookup_empty in Ht.
  - apply not_elem_of_nil.
Defined.

(** A step that bears the identifier [steps] takes the place of the outputs: later
    references by index find nothing. *)
Theorem step_named_steps :
  let context := record_output (H := counting_json)
    {| step_id := Some (lit "steps"); step_tool := lit "echo"; step_input := VObject [] |}
    (VObject [(lit "x", VBool true)]) (initial_steps (H := counting_json) []) in
  lookup_reference (lit "steps.0.x") context = None ∧ lookup_reference (lit "steps.x") context = Some (VBool true) ∧
  record_output (H := counting_json)
    {| step_id := None; step_tool := lit "echo"; step_input := VObject [] |} (VBool false) context = context.
Proof. split_and!; by vm_compute. Qed.
