(* ===== verification/Shell.v ===== *)
(** * The command lines of the remote backends
    ([codel00p-harness/src/terminal/ssh/commands.rs], [terminal/docker/commands.rs],
    and the option and command builders of [terminal/ssh.rs])

    Everything the SSH backend asks of the remote host is one string read by a POSIX
    shell; the Docker backend passes argument vectors.  A path is its text, a
    resolved working directory its names from the root.  The shell's reading of a
    command (its tokens, and the patterns of [case]) is specified below for the part
    of the language these commands use. *)

From stdpp Require Import base numbers strings gmap list.
From S2P Require Import Prelude RustStr Utf8 Harness FileSystem Workspace.

Definition quote : char := 39%N.
Definition backslash : char := 92%N.

Record CommandSpec := {
  cmd_program : str;
  cmd_args : list str;
  cmd_cwd : ppath;
}.

(** ** Quoting ([sh_quote]) *)

Definition quote_char (c : char) : str :=
  if (c =? quote)%N then [quote; backslash; quote; quote] else [c].
Definition sh_quote (s : str) : str := [quote] ++ concat (quote_char <$> s) ++ [quote].

(** The quoted arguments, each after a space. *)
Definition quoted_args (args : list str) : str := concat ((λ a, lit " " ++ sh_quote a) <$> args).

(** ** SSH options and arguments *)

Record SshConfig := {
  ssh_host : str;
  ssh_user : option str;
  ssh_port : option N;
  ssh_identity_file : option str;
  ssh_workspace : str;
  ssh_options : list str;
}.
Definition SshConfig_new (host workspace : str) : SshConfig :=
  {| ssh_host := host; ssh_user := None; ssh_port := None; ssh_identity_file := None;
     ssh_workspace := workspace; ssh_options := [] |}.
Definition ssh_target (c : SshConfig) : str :=
  match ssh_user c with
  | Some user => user ++ lit "@" ++ ssh_host c
  | None => ssh_host c
  end.
Definition CONTROL_PERSIST_SECS : N := 30%N.
Definition build_base_ssh_options (c : SshConfig) (control_socket : option str) : list str :=
  match control_socket with
  | Some socket =>
      [lit "-o"; lit "ControlMaster=auto"; lit "-o"; lit "ControlPath=" ++ socket; lit "-o";
       lit "ControlPersist=" ++ show_N CONTROL_PERSIST_SECS]
  | None => []
  end
  ++ match ssh_port c with Some port => [lit "-p"; show_N port] | None => [] end
  ++ match ssh_identity_file c with Some identity => [lit "-i"; identity] | None => [] end
  ++ concat ((λ option, [lit "-o"; option]) <$> ssh_options c).
Definition ssh_argv (c : SshConfig) (socket remote_command : str) : list str :=
  build_base_ssh_options c (Some socket) ++ [ssh_target c; lit "--"; remote_command].

(** ** Remote commands *)

Definition build_exec_command (remote_cwd : str) (spec : CommandSpec) : str :=
  lit "cd " ++ sh_quote remote_cwd ++ lit " && exec " ++ sh_quote (cmd_program spec)
    ++ quoted_args (cmd_args spec).
Definition wrap_with_timeout (inner : str) (secs : N) : str :=
  lit "timeout " ++ show_N secs ++ lit " sh -c " ++ sh_quote inner.
Definition background_script (spec : CommandSpec) : str :=
  lit "exec " ++ sh_quote (cmd_program spec) ++ quoted_args (cmd_args spec).
Definition build_background_command (remote_cwd : str) (spec : CommandSpec) (marker : str) : str :=
  lit "cd " ++ sh_quote remote_cwd ++ lit " && exec setsid sh -c "
    ++ sh_quote (background_script spec) ++ lit " " ++ sh_quote marker.
Definition build_kill_command (marker : str) : str :=
  lit "pkill -TERM -f " ++ sh_quote marker ++ lit " 2>/dev/null; true".

Definition MARKER_PREFIX : str := lit "CODEL00P_SSH_BG".
(** [next_marker]: the process and the number of the spawn. *)
Definition marker_of (pid seq : N) : str :=
  MARKER_PREFIX ++ lit "_" ++ show_N pid ++ lit "_" ++ show_N seq.

(** *** Paths *)

(** [str::replace] of backslashes by slashes. *)
Definition to_slashes (s : str) : str := (λ c, if (c =? backslash)%N then slash else c) <$> s.
Definition workspace_str (workspace : str) : str :=
  let trimmed := trim_end_matches (λ c, (c =? slash)%N) (to_slashes workspace) in
  if is_empty trimmed then [slash] else trimmed.

(** [rfind('/')]: what is before the last slash. *)
Fixpoint before_last_slash (s : str) : option str :=
  match s with
  | [] => None
  | c :: s' =>
      match before_last_slash s' with
      | Some before => Some (c :: before)
      | None => if (c =? slash)%N then Some [] else None
      end
  end.
Definition remote_parent (rpath : str) : str :=
  match before_last_slash rpath with
  | Some [] => [slash]
  | Some before => before
  | None => lit "."
  end.

Definition show_ppath (p : ppath) : str := [slash] ++ join [slash] p.
(** [Path::strip_prefix] on resolved paths. *)
Fixpoint strip_path (root p : ppath) : option ppath :=
  match root, p with
  | [], p => Some p
  | r :: root, x :: p => if decide (r = x) then strip_path root p else None
  | _ :: _, [] => None
  end.

Definition RUN_COMMAND : str := lit "run_command".
Definition map_cwd_to_remote (local_root : ppath) (remote_workspace : str) (cwd : ppath)
    : result HarnessError str :=
  let? relative := ok_or (ToolFailed RUN_COMMAND
    (lit "command working directory " ++ show_ppath cwd
       ++ lit " is not under the SSH local workspace root " ++ show_ppath local_root))
    (strip_path local_root cwd) in
  let ws := workspace_str remote_workspace in
  if is_empty relative then Ok ws
  else Ok (ws ++ [slash] ++ to_slashes (join [slash] relative)).

Definition is_absolute (p : str) : bool :=
  match p with c :: _ => (c =? slash)%N | [] => false end.
Definition remote_workspace_path (remote_workspace rel : str) : result HarnessError str :=
  let? _ := reject_unsafe_components rel in
  let ws := workspace_str remote_workspace in
  if is_absolute rel then Ok (to_slashes rel)
  else
    let rel_str := to_slashes rel in
    if is_empty rel_str || bool_decide (rel_str = lit ".") then Ok ws
    else Ok (ws ++ [slash] ++ rel_str).
Definition reject_absolute_for_write (rel : str) : result HarnessError unit :=
  let? _ := reject_unsafe_components rel in
  if is_absolute rel then Err (WorkspaceEscape rel) else Ok tt.

(** *** File operations *)

Definition boundary_glob (ws : str) : str :=
  sh_quote ws ++ lit "/ | " ++ sh_quote ws ++ lit "/*".

(** A command under the boundary check: [readlink -f], then the [case] statement. *)
Definition dquote : char := 34%N.
Definition bounded_command (ws rpath command : str) : str :=
  lit "real=$(readlink -f " ++ sh_quote rpath ++ lit ") && case " ++ [dquote] ++ lit "$real/"
    ++ [dquote] ++ lit " in " ++ boundary_glob ws ++ lit ") " ++ command
    ++ lit ";; *) echo 'workspace escape' 1>&2; exit 1;; esac".
Definition build_read_file_command (workspace rpath : str) : str :=
  bounded_command (workspace_str workspace) rpath (lit "cat -- " ++ sh_quote rpath).
Definition build_write_file_command (rpath : str) : str :=
  lit "mkdir -p -- " ++ sh_quote (remote_parent rpath) ++ lit " && cat > " ++ sh_quote rpath.
Definition build_delete_file_command (workspace rpath : str) : str :=
  lit "test -e " ++ sh_quote rpath ++ lit " && "
    ++ bounded_command (workspace_str workspace) rpath (lit "rm -f -- " ++ sh_quote rpath).
Definition build_mkdir_command (rpath : str) : str := lit "mkdir -p -- " ++ sh_quote rpath.
Definition build_metadata_command (workspace rpath : str) : str :=
  lit "if [ ! -e " ++ sh_quote rpath ++ lit " ] && [ ! -L " ++ sh_quote rpath
    ++ lit " ]; then exit 0; fi; "
    ++ bounded_command (workspace_str workspace) rpath
         (lit "stat -c '%F|%s' -- " ++ sh_quote rpath).
Definition build_read_dir_command (workspace rpath : str) : str :=
  bounded_command (workspace_str workspace) rpath
    (lit "find " ++ sh_quote rpath ++ lit " -maxdepth 1 -mindepth 1 -printf '%y %f\n'").

Definition DEFAULT_IGNORED_DIRS : list str :=
  lit <$> [".git"; ".hg"; ".svn"; "target"; "node_modules"; "dist"; "build"; "out"; ".next";
           ".nuxt"; ".venv"; "venv"; "__pycache__"; ".mypy_cache"; ".pytest_cache";
           ".ruff_cache"; ".gradle"; ".idea"; ".vscode"; "vendor"]%string.
Definition build_walk_command (rpath : str) (include_ignored : bool) : str :=
  if include_ignored then lit "find " ++ sh_quote rpath ++ lit " -type f"
  else
    lit "find " ++ sh_quote rpath ++ lit " \( -type d \( "
      ++ join (lit " -o ") ((λ name, lit "-name " ++ sh_quote name) <$> DEFAULT_IGNORED_DIRS)
      ++ lit " \) -prune \) -o -type f -print".

(** *** Answers *)

Definition parse_metadata (stdout : str) : FileKind :=
  let line := trim stdout in
  if is_empty line then FileKind_MISSING
  else
    let '(kind, size) :=
      match split_once 124%N line with
      | Some (k, s) => (trim k, default 0%N (parse_u64 (trim s)))
      | None => (line, 0%N)
      end in
    let is_file := contains (lit "regular") kind in
    {| fk_exists := true; fk_is_file := is_file; fk_is_dir := bool_decide (kind = lit "directory");
       fk_size := if is_file then size else 0%N |}.

Record DirEntry := { de_name : str; de_is_dir : bool }.
Definition parse_read_dir (stdout : str) : list DirEntry :=
  omap (λ line, '(ty, name) ← split_once 32%N line;
                if is_empty name then None
                else Some {| de_name := name; de_is_dir := bool_decide (ty = lit "d") |})
       (lines stdout).

Definition walk_prefix (workspace : str) : str :=
  if bool_decide (workspace = [slash]) then [slash] else workspace ++ [slash].
Definition parse_walk (stdout workspace : str) : list str :=
  omap (λ line, let line := trim_end_matches (λ c, (c =? carriage_return)%N) line in
                if is_empty line then None else strip_prefix (walk_prefix workspace) line)
       (lines stdout).
Definition MAX_FILES_WALKED : nat := 100 * 1000.

(** ** Docker *)

Record DockerConfig := {
  dk_image : str;
  dk_container_mount : ppath;
  dk_memory : option str;
  dk_cpus : option str;
  dk_network : option str;
  dk_map_host_user : bool;
  dk_env : list (str * str);
  dk_reuse_container : bool;
}.
Definition DockerConfig_default : DockerConfig :=
  {| dk_image := lit "alpine"; dk_container_mount := [lit "workspace"]; dk_memory := None;
     dk_cpus := None; dk_network := Some (lit "none"); dk_map_host_user := true; dk_env := [];
     dk_reuse_container := true |}.

Definition map_cwd_to_container (root mount cwd : ppath) : result HarnessError ppath :=
  let? relative := ok_or (ToolFailed RUN_COMMAND
    (lit "command working directory " ++ show_ppath cwd
       ++ lit " is not under the Docker workspace root " ++ show_ppath root))
    (strip_path root cwd) in
  Ok (mount ++ relative).

Definition flag (name : str) (value : option str) : list str :=
  match value with Some v => [name; v] | None => [] end.
Definition resource_flags (c : DockerConfig) (host_user : option (N * N)) : list str :=
  flag (lit "--memory") (dk_memory c) ++ flag (lit "--cpus") (dk_cpus c)
    ++ flag (lit "--network") (dk_network c)
    ++ (if dk_map_host_user c then
          flag (lit "--user") ((λ u, show_N u.1 ++ lit ":" ++ show_N u.2) <$> host_user)
        else [])
    ++ concat ((λ kv, [lit "-e"; kv.1 ++ lit "=" ++ kv.2]) <$> dk_env c).
Definition volume (c : DockerConfig) (root : ppath) : str :=
  show_ppath root ++ lit ":" ++ show_ppath (dk_container_mount c).

Definition build_docker_run_args (c : DockerConfig) (root : ppath) (spec : CommandSpec)
    (container_name : str) (host_user : option (N * N)) : result HarnessError (list str) :=
  let? container_cwd := map_cwd_to_container root (dk_container_mount c) (cmd_cwd spec) in
  Ok ([lit "run"; lit "--rm"; lit "--name"; container_name] ++ resource_flags c host_user
      ++ [lit "-v"; volume c root; lit "-w"; show_ppath container_cwd; dk_image c;
          cmd_program spec] ++ cmd_args spec).

Definition LABEL_KIND : str := lit "codel00p.kind=warm".
Definition LABEL_PID_KEY : str := lit "codel00p.pid".
Definition KEEPALIVE : list str := [lit "tail"; lit "-f"; lit "/dev/null"].
Definition build_docker_create_args (c : DockerConfig) (root : ppath) (container_name : str)
    (pid : N) (host_user : option (N * N)) : list str :=
  [lit "run"; lit "-d"; lit "--name"; container_name; lit "--label"; LABEL_KIND; lit "--label";
   LABEL_PID_KEY ++ lit "=" ++ show_N pid]
    ++ resource_flags c host_user
    ++ [lit "-v"; volume c root; lit "-w"; show_ppath (dk_container_mount c); dk_image c]
    ++ KEEPALIVE.

Inductive ExecWrap := WrapTimeout (secs : N) | WrapMarker (marker : str).
Definition build_marker_script : str :=
  [dquote] ++ lit "$@" ++ [dquote]
    ++ lit " & p=$!; trap 'kill -TERM $p 2>/dev/null' TERM; wait $p".
Definition build_docker_exec_args (name : str) (container_cwd : ppath) (spec : CommandSpec)
    (wrap : ExecWrap) : list str :=
  [lit "exec"; lit "-w"; show_ppath container_cwd; name]
    ++ match wrap with
       | WrapTimeout secs => [lit "timeout"; show_N secs]
       | WrapMarker marker => [lit "sh"; lit "-c"; build_marker_script; marker]
       end
    ++ [cmd_program spec] ++ cmd_args spec.

(** ** The operations of the SSH backend

    Running a remote command to completion, with its input, is a parameter: it
    answers the output of a successful command or an error. *)

Section operations.
Context (c : SshConfig) (local_root : ppath).
Context (run_capture : str → option (list byte) → result HarnessError (list byte)).

Definition remote_path_for (rel : str) : result HarnessError str :=
  remote_workspace_path (ssh_workspace c) rel.

Definition ssh_read_file (rel : str) : result HarnessError (list byte) :=
  let? rpath := remote_path_for rel in
  run_capture (build_read_file_command (ssh_workspace c) rpath) None.
Definition ssh_write_file (rel : str) (contents : list byte) : result HarnessError unit :=
  let? _ := reject_absolute_for_write rel in
  let? rpath := remote_path_for rel in
  let? _ := run_capture (build_write_file_command rpath) (Some contents) in
  Ok tt.
Definition ssh_delete_file (rel : str) : result HarnessError unit :=
  let? rpath := remote_path_for rel in
  let? _ := run_capture (build_delete_file_command (ssh_workspace c) rpath) None in
  Ok tt.
Definition ssh_create_dir_all (rel : str) : result HarnessError unit :=
  let? _ := reject_absolute_for_write rel in
  let? rpath := remote_path_for rel in
  let? _ := run_capture (build_mkdir_command rpath) None in
  Ok tt.
Definition ssh_metadata (rel : str) : result HarnessError FileKind :=
  let? rpath := remote_path_for rel in
  let? stdout := run_capture (build_metadata_command (ssh_workspace c) rpath) None in
  Ok (parse_metadata (from_utf8_lossy stdout)).
Definition ssh_read_dir (rel : str) : result HarnessError (list DirEntry) :=
  let? rpath := remote_path_for rel in
  let? stdout := run_capture (build_read_dir_command (ssh_workspace c) rpath) None in
  Ok (parse_read_dir (from_utf8_lossy stdout)).
(** The paths visited, in order. *)
Definition ssh_walk (rel : str) (include_ignored : bool) : result HarnessError (list str) :=
  let? rpath := remote_path_for rel in
  let? stdout := run_capture (build_walk_command rpath include_ignored) None in
  Ok (take MAX_FILES_WALKED
        (parse_walk (from_utf8_lossy stdout) (workspace_str (ssh_workspace c)))).

Definition remote_command_for (spec : CommandSpec) : result HarnessError str :=
  let? remote_cwd := map_cwd_to_remote local_root (ssh_workspace c) (cmd_cwd spec) in
  Ok (build_exec_command remote_cwd spec).
(** The remote command of a foreground run: two seconds of grace, at least one. *)
Definition foreground_command (timeout_secs : N) (spec : CommandSpec) : result HarnessError str :=
  let? inner := remote_command_for spec in
  Ok (wrap_with_timeout inner (N.max (u64_saturating_add timeout_secs 2) 1)).
Definition background_command (marker : str) (spec : CommandSpec) : result HarnessError str :=
  let? remote_cwd := map_cwd_to_remote local_root (ssh_workspace c) (cmd_cwd spec) in
  Ok (build_background_command remote_cwd spec marker).
End operations.

(** ** How a shell reads a command

    The tokens of POSIX shell text: blanks separate words, quotes and backslashes make
    characters literal, [& | ; < >], newlines and [)] are operators, a number right
    before [<] or [>] is the descriptor it redirects.  A word is literal characters,
    pattern characters outside quotes and, inside double quotes, values of parameters;
    a command substitution is shown by the token of the word it starts in, the tokens
    of its command and the operator [)].  Any other special character is outside the
    fragment. *)

Inductive word_part := Chr (c : char) | Special (c : char) | Param (name : str).
Inductive token :=
| Word (parts : list word_part)
| IoNumber (digits : str)
| Oper (text : str)
| SubstIn (parts : list word_part).
(** A word that is the given text, as it is. *)
Definition W (text : str) : token := Word (Chr <$> text).

Definition dollar : char := 36%N.
Definition is_blank (c : char) : bool := ((c =? 32) || (c =? 9))%N.
Definition is_oper (c : char) : bool := existsb (N.eqb c) [38; 124; 59; 60; 62; 10]%N.
Definition is_redirect (c : char) : bool := ((c =? 60) || (c =? 62))%N.
Definition is_plain (c : char) : bool :=
  is_ascii_alphanumeric c || existsb (N.eqb c) [45; 95; 47; 46; 61; 33]%N.
Definition is_special (c : char) : bool := existsb (N.eqb c) [42; 91; 93]%N.
(** The operators of two characters; [<<], which starts a document, is outside. *)
Definition oper_pair (o c : char) : bool :=
  existsb (λ p, (fst p =? o) && (snd p =? c))%N
    [(38, 38); (124, 124); (59, 59); (62, 38); (60, 38); (62, 62); (62, 124); (60, 62)]%N.

Inductive lex_state :=
| Unquoted (word : option (list word_part))
| Digits (digits : str)
| Quoted (word : list word_part)
| DoubleQuoted (word : list word_part)
| ParamName (word : list word_part) (name : str)
| Escaped (word : list word_part)
| Dollar (word : list word_part)
| Closed
| Operator (c : char).

Definition word_tokens (word : option (list word_part)) : list token :=
  match word with Some w => [Word w] | None => [] end.
Definition add_part (word : option (list word_part)) (p : word_part) : list word_part :=
  default [] word ++ [p].

(** One character outside quotes: the next state and the tokens it ends. *)
Definition lex_unquoted (word : option (list word_part)) (c : char) : option (lex_state * list token) :=
  if (c =? quote)%N then Some (Quoted (default [] word), [])
  else if (c =? dquote)%N then Some (DoubleQuoted (default [] word), [])
  else if (c =? backslash)%N then Some (Escaped (default [] word), [])
  else if (c =? dollar)%N then Some (Dollar (default [] word), [])
  else if (c =? 41)%N then Some (Closed, word_tokens word ++ [Oper [c]])
  else if is_blank c then Some (Unquoted None, word_tokens word)
  else if is_oper c then Some (Operator c, word_tokens word)
  else if is_ascii_digit c && negb (bool_decide (is_Some word)) then Some (Digits [c], [])
  else if is_plain c then Some (Unquoted (Some (add_part word (Chr c))), [])
  else if is_special c then Some (Unquoted (Some (add_part word (Special c))), [])
  else None.
Definition lex_double_quoted (word : list word_part) (c : char) : option (lex_state * list token) :=
  if (c =? dquote)%N then Some (Unquoted (Some word), [])
  else if (c =? dollar)%N then Some (ParamName word [], [])
  else if (c =? backslash)%N || (c =? 96)%N then None
  else Some (DoubleQuoted (word ++ [Chr c]), []).
Definition is_parameter_char (name : str) (c : char) : bool :=
  is_ascii_alphabetic c || (c =? 95)%N || (is_ascii_digit c && negb (is_empty name)).

Definition lex_char (st : lex_state) (c : char) : option (lex_state * list token) :=
  match st with
  | Unquoted word => lex_unquoted word c
  | Digits ds =>
      if is_ascii_digit c then Some (Digits (ds ++ [c]), [])
      else if is_redirect c then Some (Operator c, [IoNumber ds])
      else lex_unquoted (Some (Chr <$> ds)) c
  | Quoted word =>
      if (c =? quote)%N then Some (Unquoted (Some word), []) else Some (Quoted (word ++ [Chr c]), [])
  | DoubleQuoted word => lex_double_quoted word c
  | ParamName word name =>
      if is_parameter_char name c then Some (ParamName word (name ++ [c]), [])
      else if is_empty name then None
      else lex_double_quoted (word ++ [Param name]) c
  | Escaped word =>
      if (c =? newline)%N then None else Some (Unquoted (Some (word ++ [Chr c])), [])
  | Dollar word => if (c =? 40)%N then Some (Unquoted None, [SubstIn word]) else None
  | Closed => if is_blank c || is_oper c || (c =? 41)%N then lex_unquoted None c else None
  | Operator o =>
      if oper_pair o c then Some (Unquoted None, [Oper [o; c]])
      else if (o =? 60)%N && (c =? 60)%N then None
      else '(st, toks) ← lex_unquoted None c; Some (st, Oper [o] :: toks)
  end.

Fixpoint lex_from (st : lex_state) (s : str) : option (list token) :=
  match s with
  | [] =>
      match st with
      | Unquoted word => Some (word_tokens word)
      | Digits ds => Some [W ds]
      | Operator o => Some [Oper [o]]
      | Closed => Some []
      | _ => None
      end
  | c :: s => '(st, toks) ← lex_char st c; (app toks) <$> lex_from st s
  end.
Definition shell_tokens (s : str) : option (list token) := lex_from (Unquoted None) s.

(** A quoted text is a literal part of one word, whatever it holds. *)
Lemma lex_silent st st' c rest :
  lex_char st c = Some (st', []) → lex_from st (c :: rest) = lex_from st' rest.
Proof. intros H. cbn [lex_from]. rewrite H. cbn [mbind option_bind]. by destruct (lex_from _ rest). Qed.
Lemma lex_quoted word s rest :
  lex_from (Quoted word) (concat (quote_char <$> s) ++ quote :: rest) =
  lex_from (Unquoted (Some (word ++ (Chr <$> s)))) rest.
Proof.
  revert word. induction s as [|c s IH]; intros word.
  - cbn [fmap list_fmap concat app]. rewrite (lex_silent _ (Unquoted (Some word))) by done.
    by rewrite app_nil_r.
  - cbn [fmap list_fmap concat]. unfold quote_char at 1. destruct (N.eqb_spec c quote) as [->|Hc].
    + rewrite <- app_assoc. cbn [app].
      rewrite (lex_silent _ (Unquoted (Some word))) by done.
      rewrite (lex_silent _ (Escaped word)) by done.
      rewrite (lex_silent _ (Unquoted (Some (word ++ [Chr quote])))) by done.
      rewrite (lex_silent _ (Quoted (word ++ [Chr quote]))) by done.
      by rewrite IH, <- app_assoc.
    + cbn [app]. rewrite (lex_silent _ (Quoted (word ++ [Chr c]))).
      * by rewrite IH, <- app_assoc.
      * cbn [lex_char]. by rewrite (proj2 (N.eqb_neq _ _) Hc).
Qed.

Lemma lex_sh_quote word s rest :
  lex_from (Unquoted word) (sh_quote s ++ rest) =
  lex_from (Unquoted (Some (default [] word ++ (Chr <$> s)))) rest.
Proof.
  unfold sh_quote. rewrite <- !app_assoc. cbn [app].
  rewrite (lex_silent _ (Quoted (default [] word))) by done. by rewrite lex_quoted.
Qed.
(** A quoted text where a word can start, and at the end of the text. *)
Lemma lex_quoted_word s rest :
  lex_from (Unquoted None) (sh_quote s ++ rest) = lex_from (Unquoted (Some (Chr <$> s))) rest.
Proof. apply lex_sh_quote. Qed.
Lemma lex_last_word s : lex_from (Unquoted None) (sh_quote s) = Some [W s].
Proof. rewrite <- (app_nil_r (sh_quote s)), lex_quoted_word. done. Qed.

(** The words of a piece of text between quotes. *)
Lemma lex_word w rest :
  lex_from (Unquoted (Some w)) (32%N :: rest) = (cons (Word w)) <$> lex_from (Unquoted None) rest.
Proof. cbn. by destruct (lex_from _ rest). Qed.

Lemma lex_args args w :
  lex_from (Unquoted (Some w)) (quoted_args args) = Some (Word w :: (W <$> args)).
Proof.
  revert w. induction args as [|a args IH]; intros w; [done|].
  unfold quoted_args. cbn [fmap list_fmap concat]. rewrite <- app_assoc.
  change (lit " " ++ ?l) with (32%N :: l). rewrite lex_word, lex_quoted_word.
  fold (quoted_args args). by rewrite IH.
Qed.

(** A literal prefix is read on its own. *)
Fixpoint lex_prefix (st : lex_state) (s : str) : option (lex_state * list token) :=
  match s with
  | [] => Some (st, [])
  | c :: s =>
      '(st, toks) ← lex_char st c; '(st', toks') ← lex_prefix st s; Some (st', toks ++ toks')
  end.
Lemma lex_app st s rest st' toks :
  lex_prefix st s = Some (st', toks) → lex_from st (s ++ rest) = (app toks) <$> lex_from st' rest.
Proof.
  revert st toks. induction s as [|c s IH]; intros st toks; cbn [lex_prefix lex_from app].
  - intros [= <- <-]. cbn. by destruct (lex_from st rest).
  - destruct (lex_char st c) as [[st1 t1]|]; cbn [mbind option_bind]; [|done].
    destruct (lex_prefix st1 s) as [[st2 t2]|] eqn:E; cbn [mbind option_bind]; [|done].
    intros [= <- <-]. rewrite (IH _ _ E). destruct (lex_from st2 rest); cbn; [|done].
    by rewrite app_assoc.
Qed.

(** ** How a shell matches a [case] pattern *)

Inductive pattern_char := PLit (c : char) | PAny.
(** The alternatives of a pattern list: quoted characters are literal, [*] matches
    any text, [|] separates; blanks are dropped. *)
Fixpoint patterns_from (quoted : bool) (current : list pattern_char) (s : str)
    : option (list (list pattern_char)) :=
  match s with
  | [] => if quoted then None else Some [current]
  | c :: s =>
      if quoted then
        if (c =? quote)%N then patterns_from false current s
        else patterns_from true (current ++ [PLit c]) s
      else if (c =? quote)%N then patterns_from true current s
      else if (c =? backslash)%N then
        match s with
        | c' :: s => patterns_from false (current ++ [PLit c']) s
        | [] => None
        end
      else if (c =? 32)%N then patterns_from false current s
      else if (c =? 124)%N then (cons current) <$> patterns_from false [] s
      else if (c =? 42)%N then patterns_from false (current ++ [PAny]) s
      else patterns_from false (current ++ [PLit c]) s
  end.
Fixpoint pattern_matches (p : list pattern_char) (s : str) : bool :=
  match p with
  | [] => is_empty s
  | PLit c :: p => match s with x :: s => (x =? c)%N && pattern_matches p s | [] => false end
  | PAny :: p =>
      (fix any (s : str) : bool :=
         pattern_matches p s || match s with _ :: s => any s | [] => false end) s
  end.
(** Whether a [case] branch is taken for a subject. *)
Definition case_matches (patterns subject : str) : bool :=
  match patterns_from false [] patterns with
  | Some alternatives => existsb (λ p, pattern_matches p subject) alternatives
  | None => false
  end.

Lemma patterns_quoted current s rest :
  patterns_from true current (concat (quote_char <$> s) ++ quote :: rest) =
  patterns_from false (current ++ (PLit <$> s)) rest.
Proof.
  revert current. induction s as [|c s IH]; intros current; [cbn; by rewrite app_nil_r|].
  cbn [fmap list_fmap concat]. unfold quote_char at 1. destruct (N.eqb_spec c quote) as [->|Hc].
  - rewrite <- app_assoc.
    change (patterns_from true current ([quote; backslash; quote; quote] ++ ?l)) with
      (patterns_from true (current ++ [PLit quote]) l).
    rewrite IH. by rewrite <- app_assoc.
  - rewrite <- app_assoc. cbn [app patterns_from]. rewrite (proj2 (N.eqb_neq _ _) Hc), IH.
    by rewrite <- app_assoc.
Qed.

Lemma boundary_patterns ws :
  patterns_from false [] (boundary_glob ws) =
  Some [(PLit <$> ws) ++ [PLit slash]; (PLit <$> ws) ++ [PLit slash; PAny]].
Proof.
  unfold boundary_glob, sh_quote. rewrite <- !app_assoc. cbn [app].
  change (patterns_from false [] (quote :: ?l)) with (patterns_from true [] l).
  rewrite patterns_quoted.
  change (patterns_from false ?x (lit "/ | " ++ quote :: ?l)) with
    (cons (x ++ [PLit slash]) <$> patterns_from true [] l).
  rewrite patterns_quoted. cbn [app].
  change (patterns_from false ?x (lit "/*")) with (Some [(x ++ [PLit slash]) ++ [PAny]]).
  by rewrite <- app_assoc.
Qed.

Lemma pattern_literals l p s :
  pattern_matches ((PLit <$> l) ++ p) s = true ↔
  ∃ rest, s = l ++ rest ∧ pattern_matches p rest = true.
Proof.
  revert s. induction l as [|c l IH]; intros s; cbn [fmap list_fmap app].
  - split; [by exists s | by intros (rest & -> & H)].
  - destruct s as [|x s]; cbn [pattern_matches]; [split; [done | by intros (? & ? & _)]|].
    rewrite andb_true_iff, N.eqb_eq, IH. split.
    + intros [-> (rest & -> & H)]. by exists rest.
    + intros (rest & [= -> ->] & H). split; [done | by exists rest].
Qed.
Lemma pattern_any s : pattern_matches [PAny] s = true.
Proof. induction s as [|c s IH]; [done|]. cbn in *. by rewrite IH. Qed.

(** The branch of the boundary check is taken for the paths under the workspace. *)
Lemma boundary_spec ws real :
  case_matches (boundary_glob ws) (real ++ [slash]) = true ↔ ws ++ [slash] `prefix_of` real ++ [slash].
Proof.
  unfold case_matches. rewrite boundary_patterns. cbn [existsb]. rewrite orb_false_r, orb_true_iff.
  change [PLit slash; PAny] with ((PLit <$> [slash]) ++ [PAny]).
  change [PLit slash] with (PLit <$> [slash]). rewrite <- (app_nil_r (PLit <$> [slash])) at 1.
  rewrite !app_assoc, <- !fmap_app, !pattern_literals. split.
  - intros [(rest & -> & _)|(rest & -> & _)]; by eexists.
  - intros [rest E]. right. exists rest. split; [done | apply pattern_any].
Qed.

(** ** The claims *)

Lemma digit_char c word :
  is_ascii_digit c = true →
  lex_unquoted word c =
    Some (match word with
          | None => Digits [c]
          | Some w => Unquoted (Some (w ++ [Chr c]))
          end, []).
Proof.
  intros Hc. assert (c ≠ quote ∧ c ≠ dquote ∧ c ≠ backslash ∧ c ≠ dollar ∧ c ≠ 41%N ∧
    is_blank c = false ∧ is_oper c = false) as (H1 & H2 & H3 & H4 & H5 & H6 & H7).
  { unfold is_ascii_digit in Hc. rewrite !andb_true_iff, !N.leb_le in Hc.
    unfold quote, dquote, backslash, dollar, is_blank, is_oper. cbn [existsb].
    rewrite !orb_false_iff, !N.eqb_neq. lia. }
  unfold lex_unquoted.
  rewrite (proj2 (N.eqb_neq _ _) H1), (proj2 (N.eqb_neq _ _) H2), (proj2 (N.eqb_neq _ _) H3),
    (proj2 (N.eqb_neq _ _) H4), (proj2 (N.eqb_neq _ _) H5), H6, H7, Hc.
  destruct word; [|done]. unfold is_plain, is_ascii_alphanumeric. by rewrite Hc, orb_true_r.
Qed.
Lemma lex_digits ds ds' rest :
  Forall (λ c, is_ascii_digit c = true) ds' →
  lex_from (Digits ds) (ds' ++ rest) = lex_from (Digits (ds ++ ds')) rest.
Proof.
  intros Hs. revert ds. induction Hs as [|c ds' Hc Hs IH]; intros ds; [by rewrite app_nil_r|].
  cbn [app]. rewrite (lex_silent _ (Digits (ds ++ [c]))); [by rewrite IH, <- app_assoc|].
  cbn [lex_char]. by rewrite Hc.
Qed.
Lemma lex_number n rest :
  lex_from (Unquoted None) (show_N n ++ rest) = lex_from (Digits (show_N n)) rest.
Proof.
  assert (Forall (λ c, is_ascii_digit c = true) (show_N n)) as Hd.
  { apply Forall_forall. intros c Hc.
    exact (proj1 (forallb_forall _ _) (show_N_digits n) c (proj1 (list_elem_of_In _ _) Hc)). }
  destruct (show_N n) as [|c ds] eqn:E; [by destruct (show_N_nonempty n)|].
  apply Forall_cons in Hd as [Hc Hd]. cbn [app].
  rewrite (lex_silent _ (Digits [c])) by (cbn [lex_char]; by rewrite digit_char).
  by apply (lex_digits [c]).
Qed.

(** The tokens of the literal texts the builders use, and of what is between them. *)
Ltac lex_literal :=
  erewrite lex_app; [|vm_compute; reflexivity].
Ltac lex_all :=
  repeat first [rewrite lex_quoted_word | rewrite lex_sh_quote | rewrite lex_number
               | rewrite lex_args | rewrite lex_last_word | lex_literal].

Lemma exec_tokens cwd spec :
  shell_tokens (build_exec_command cwd spec) =
  Some ([W (lit "cd"); W cwd; Oper (lit "&&"); W (lit "exec")]
        ++ (W <$> cmd_program spec :: cmd_args spec)).
Proof. unfold shell_tokens, build_exec_command. lex_all. reflexivity. Qed.
Lemma timeout_tokens inner secs :
  shell_tokens (wrap_with_timeout inner secs) =
  Some [W (lit "timeout"); W (show_N secs); W (lit "sh"); W (lit "-c"); W inner].
Proof. unfold shell_tokens, wrap_with_timeout. lex_all. reflexivity. Qed.

Lemma background_tokens cwd spec marker :
  shell_tokens (build_background_command cwd spec marker) =
  Some [W (lit "cd"); W cwd; Oper (lit "&&"); W (lit "exec"); W (lit "setsid");
        W (lit "sh"); W (lit "-c"); W (background_script spec); W marker].
Proof. unfold shell_tokens, build_background_command. lex_all. reflexivity. Qed.
Lemma script_tokens spec :
  shell_tokens (background_script spec) = Some (W (lit "exec") :: (W <$> cmd_program spec :: cmd_args spec)).
Proof. unfold shell_tokens, background_script. lex_all. reflexivity. Qed.
Lemma kill_tokens marker :
  shell_tokens (build_kill_command marker) =
  Some [W (lit "pkill"); W (lit "-TERM"); W (lit "-f"); W marker; IoNumber (lit "2");
        Oper (lit ">"); W (lit "/dev/null"); Oper (lit ";"); W (lit "true")].
Proof. unfold shell_tokens, build_kill_command. lex_all. reflexivity. Qed.
Lemma write_tokens rpath :
  shell_tokens (build_write_file_command rpath) =
  Some [W (lit "mkdir"); W (lit "-p"); W (lit "--"); W (remote_parent rpath);
        Oper (lit "&&"); W (lit "cat"); Oper (lit ">"); W rpath].
Proof. unfold shell_tokens, build_write_file_command. lex_all. reflexivity. Qed.
Lemma mkdir_tokens rpath :
  shell_tokens (build_mkdir_command rpath) = Some [W (lit "mkdir"); W (lit "-p"); W (lit "--"); W rpath].
Proof. unfold shell_tokens, build_mkdir_command. lex_all. reflexivity. Qed.

(** A command under the boundary check: the substitution that finds the real path, the
    [case] with the two patterns of the workspace, the command in the one branch and
    the refusal in the other. *)
Definition bounded_tokens (ws rpath : str) (command : list token) : list token :=
  [SubstIn (Chr <$> lit "real="); W (lit "readlink"); W (lit "-f"); W rpath; Oper (lit ")");
   Oper (lit "&&"); W (lit "case"); Word [Param (lit "real"); Chr slash]; W (lit "in");
   Word ((Chr <$> ws) ++ [Chr slash]); Oper (lit "|");
   Word (((Chr <$> ws) ++ [Chr slash]) ++ [Special 42]); Oper (lit ")")]
  ++ command ++
  [Oper (lit ";;"); Word [Special 42]; Oper (lit ")"); W (lit "echo"); W (lit "workspace escape");
   IoNumber (lit "1"); Oper (lit ">&"); W (lit "2"); Oper (lit ";"); W (lit "exit"); W (lit "1");
   Oper (lit ";;"); W (lit "esac")].
(** The text of a command as the branch reads it, up to the [;;] after it. *)
Definition reads_as (command : str) (toks : list token) : Prop :=
  ∀ rest, lex_from (Unquoted None) (command ++ lit ";;" ++ rest) =
          (app (toks ++ [Oper (lit ";;")])) <$> lex_from (Unquoted None) rest.

Lemma bounded_from ws rpath command toks :
  reads_as command toks →
  lex_from (Unquoted None) (bounded_command ws rpath command) = Some (bounded_tokens ws rpath toks).
Proof.
  intros Hc. unfold bounded_command, boundary_glob. rewrite <- !app_assoc.
  change (lit ";; *) echo 'workspace escape' 1>&2; exit 1;; esac")
    with (lit ";;" ++ lit " *) echo 'workspace escape' 1>&2; exit 1;; esac").
  lex_literal. rewrite lex_quoted_word. do 5 lex_literal. rewrite lex_quoted_word.
  lex_literal. rewrite lex_quoted_word. do 2 lex_literal.
  rewrite Hc. set (tail := lex_from _ _). 
  assert (tail = Some [Word [Special 42]; Oper (lit ")"); W (lit "echo"); W (lit "workspace escape");
    IoNumber (lit "1"); Oper (lit ">&"); W (lit "2"); Oper (lit ";"); W (lit "exit"); W (lit "1");
    Oper (lit ";;"); W (lit "esac")]) as -> by (vm_compute; reflexivity).
  cbn [fmap option_fmap option_map]. rewrite <- app_assoc. reflexivity.
Qed.

Definition read_tokens (rpath : str) : list token := [W (lit "cat"); W (lit "--"); W rpath].
Definition delete_tokens (rpath : str) : list token := [W (lit "rm"); W (lit "-f"); W (lit "--"); W rpath].
Definition stat_tokens (rpath : str) : list token :=
  [W (lit "stat"); W (lit "-c"); W (lit "%F|%s"); W (lit "--"); W rpath].
Definition find_tokens (rpath : str) : list token :=
  [W (lit "find"); W rpath; W (lit "-maxdepth"); W (lit "1"); W (lit "-mindepth"); W (lit "1");
   W (lit "-printf"); W (lit "%y %f\n")].
(** The test that the path is missing, and not a link either. *)
Definition missing_tokens (rpath : str) : list token :=
  let test flag := [Word [Special 91]; W (lit "!"); W flag; W rpath; Word [Special 93]] in
  [W (lit "if")] ++ test (lit "-e") ++ [Oper (lit "&&")] ++ test (lit "-L") ++
  [Oper (lit ";"); W (lit "then"); W (lit "exit"); W (lit "0"); Oper (lit ";"); W (lit "fi"); Oper (lit ";")].
Fixpoint prune_tokens (names : list str) : list token :=
  match names with
  | [] => []
  | [name] => [W (lit "-name"); W name]
  | name :: names => [W (lit "-name"); W name; W (lit "-o")] ++ prune_tokens names
  end.
Definition walk_tokens (rpath : str) (include_ignored : bool) : list token :=
  if include_ignored then [W (lit "find"); W rpath; W (lit "-type"); W (lit "f")]
  else [W (lit "find"); W rpath; W (lit "("); W (lit "-type"); W (lit "d"); W (lit "(")]
    ++ prune_tokens DEFAULT_IGNORED_DIRS ++
    [W (lit ")"); W (lit "-prune"); W (lit ")"); W (lit "-o"); W (lit "-type"); W (lit "f"); W (lit "-print")].

(** A command that ends in one quoted text. *)
Lemma reads_as_last prefix s toks :
  lex_prefix (Unquoted None) prefix = Some (Unquoted None, toks) →
  reads_as (prefix ++ sh_quote s) (toks ++ [W s]).
Proof.
  intros Hp rest. rewrite <- app_assoc, (lex_app _ _ _ _ _ Hp), lex_quoted_word.
  rewrite (lex_app _ (lit ";;") rest (Unquoted None) [W s; Oper (lit ";;")]) by reflexivity.
  destruct (lex_from (Unquoted None) rest); [|done].
  cbn [fmap option_fmap option_map]. rewrite <- !app_assoc. reflexivity.
Qed.
Lemma read_dir_reads_as rpath :
  reads_as (lit "find " ++ sh_quote rpath ++ lit " -maxdepth 1 -mindepth 1 -printf '%y %f\n'") (find_tokens rpath).
Proof.
  intros rest. rewrite <- !app_assoc. lex_literal. rewrite lex_quoted_word. lex_literal. lex_literal.
  by destruct (lex_from (Unquoted None) rest).
Qed.

Lemma read_tokens_spec ws rpath :
  shell_tokens (build_read_file_command ws rpath) = Some (bounded_tokens (workspace_str ws) rpath (read_tokens rpath)).
Proof. apply bounded_from, (reads_as_last (lit "cat -- ") rpath [W (lit "cat"); W (lit "--")]). vm_compute. reflexivity. Qed.
Lemma delete_tokens_spec ws rpath :
  shell_tokens (build_delete_file_command ws rpath) =
  Some ([W (lit "test"); W (lit "-e"); W rpath; Oper (lit "&&")]
        ++ bounded_tokens (workspace_str ws) rpath (delete_tokens rpath)).
Proof.
  unfold shell_tokens, build_delete_file_command. lex_literal. rewrite lex_quoted_word. lex_literal.
  rewrite (bounded_from _ _ _ (delete_tokens rpath)); [done|].
  apply (reads_as_last (lit "rm -f -- ") rpath [W (lit "rm"); W (lit "-f"); W (lit "--")]). vm_compute. reflexivity.
Qed.
Lemma metadata_tokens_spec ws rpath :
  shell_tokens (build_metadata_command ws rpath) =
  Some (missing_tokens rpath ++ bounded_tokens (workspace_str ws) rpath (stat_tokens rpath)).
Proof.
  unfold shell_tokens, build_metadata_command. lex_literal. rewrite lex_quoted_word. lex_literal.
  rewrite lex_quoted_word. lex_literal. rewrite (bounded_from _ _ _ (stat_tokens rpath)); [reflexivity|].
  apply (reads_as_last (lit "stat -c '%F|%s' -- ") rpath
    [W (lit "stat"); W (lit "-c"); W (lit "%F|%s"); W (lit "--")]). vm_compute. reflexivity.
Qed.
Lemma read_dir_tokens_spec ws rpath :
  shell_tokens (build_read_dir_command ws rpath) = Some (bounded_tokens (workspace_str ws) rpath (find_tokens rpath)).
Proof. apply bounded_from, read_dir_reads_as. Qed.
Lemma walk_tokens_spec rpath include_ignored :
  shell_tokens (build_walk_command rpath include_ignored) = Some (walk_tokens rpath include_ignored).
Proof.
  unfold shell_tokens, build_walk_command. destruct include_ignored.
  - lex_literal. rewrite lex_quoted_word. reflexivity.
  - lex_literal. rewrite lex_quoted_word. lex_literal. vm_compute. reflexivity.
Qed.

(** C29. No program, argument, path or marker can escape its quotes: whatever text
    they hold (quotes, newlines, [;], [$(..)]), the remote shell reads the foreground
    command as a bounded run of a second shell on one word, which reads as a change
    to the mapped directory and one program with exactly the given arguments; the
    background command runs the same program in its own session under its marker; and
    the commands that kill, write, make directories, read, delete, look at, list and
    walk have the path or the marker as whole literal words, in the boundary check of
    the real path against the workspace too where there is one. *)
Theorem ssh_commands_exact (c : SshConfig) (local_root : ppath) (timeout : N) (marker rpath : str)
    (spec : CommandSpec) (foreground background : str)
    (Hfg : foreground_command c local_root timeout spec = Ok foreground)
    (Hbg : background_command c local_root marker spec = Ok background) :
  let argv := W <$> cmd_program spec :: cmd_args spec in
  let ws := workspace_str (ssh_workspace c) in
  (∃ cwd inner script,
    map_cwd_to_remote local_root (ssh_workspace c) (cmd_cwd spec) = Ok cwd ∧
    (∃ secs, shell_tokens foreground =
       Some [W (lit "timeout"); W (show_N secs); W (lit "sh"); W (lit "-c"); W inner]) ∧
    shell_tokens inner = Some ([W (lit "cd"); W cwd; Oper (lit "&&"); W (lit "exec")] ++ argv) ∧
    shell_tokens background =
      Some [W (lit "cd"); W cwd; Oper (lit "&&"); W (lit "exec"); W (lit "setsid");
            W (lit "sh"); W (lit "-c"); W script; W marker] ∧
    shell_tokens script = Some (W (lit "exec") :: argv)) ∧
  shell_tokens (build_kill_command marker) =
    Some [W (lit "pkill"); W (lit "-TERM"); W (lit "-f"); W marker; IoNumber (lit "2");
          Oper (lit ">"); W (lit "/dev/null"); Oper (lit ";"); W (lit "true")] ∧
  shell_tokens (build_write_file_command rpath) =
    Some [W (lit "mkdir"); W (lit "-p"); W (lit "--"); W (remote_parent rpath);
          Oper (lit "&&"); W (lit "cat"); Oper (lit ">"); W rpath] ∧
  shell_tokens (build_mkdir_command rpath) =
    Some [W (lit "mkdir"); W (lit "-p"); W (lit "--"); W rpath] ∧
  shell_tokens (build_read_file_command (ssh_workspace c) rpath) =
    Some (bounded_tokens ws rpath (read_tokens rpath)) ∧
  shell_tokens (build_delete_file_command (ssh_workspace c) rpath) =
    Some ([W (lit "test"); W (lit "-e"); W rpath; Oper (lit "&&")]
          ++ bounded_tokens ws rpath (delete_tokens rpath)) ∧
  shell_tokens (build_metadata_command (ssh_workspace c) rpath) =
    Some (missing_tokens rpath ++ bounded_tokens ws rpath (stat_tokens rpath)) ∧
  shell_tokens (build_read_dir_command (ssh_workspace c) rpath) =
    Some (bounded_tokens ws rpath (find_tokens rpath)) ∧
  ∀ include_ignored,
    shell_tokens (build_walk_command rpath include_ignored) = Some (walk_tokens rpath include_ignored).
Proof.
  intros argv ws. unfold foreground_command, remote_command_for, background_command in *.
  destruct (map_cwd_to_remote _ _ _) as [cwd|] eqn:E; [|done]. cbn [result_bind] in Hfg, Hbg.
  injection Hfg as <-. injection Hbg as <-. split.
  - exists cwd, (build_exec_command cwd spec), (background_script spec).
    rewrite exec_tokens, background_tokens, script_tokens. split_and!; try done.
    eexists. apply timeout_tokens.
  - split_and!; [apply kill_tokens|apply write_tokens|apply mkdir_tokens|apply read_tokens_spec|
      apply delete_tokens_spec|apply metadata_tokens_spec|apply read_dir_tokens_spec|apply walk_tokens_spec].
Qed.

(** What a command does not quote is read as more than one word, or not at all. *)
Example unquoted_is_split :
  shell_tokens (lit "rm -f -- a b") = Some [W (lit "rm"); W (lit "-f"); W (lit "--"); W (lit "a"); W (lit "b")] ∧
  shell_tokens (lit "echo 12>f") = Some [W (lit "echo"); IoNumber (lit "12"); Oper (lit ">"); W (lit "f")] ∧
  shell_tokens (lit "echo '12'>f a2>g") =
    Some [W (lit "echo"); W (lit "12"); Oper (lit ">"); W (lit "f"); W (lit "a2"); Oper (lit ">"); W (lit "g")] ∧
  shell_tokens (lit "cat $HOME") = None.
Proof. vm_compute. split_and!; reflexivity. Qed.

Definition demo_ssh : SshConfig := SshConfig_new (lit "h") (lit "/srv/ws/").
Definition demo_spec : CommandSpec :=
  {| cmd_program := lit "echo"; cmd_args := [lit "it's; rm -rf $HOME"; []];
     cmd_cwd := [lit "w"; lit "sub"] |}.
Lemma ssh_commands_exact_witness :
  ∃ foreground inner,
    foreground_command demo_ssh [lit "w"] 30 demo_spec = Ok foreground ∧
    shell_tokens inner =
      Some [W (lit "cd"); W (lit "/srv/ws/sub"); Oper (lit "&&"); W (lit "exec");
            W (lit "echo"); W (lit "it's; rm -rf $HOME"); W []].
Proof.
  destruct (foreground_command demo_ssh [lit "w"] 30 demo_spec) as [fg|] eqn:Ef; [|discriminate].
  destruct (background_command demo_ssh [lit "w"] (lit "m") demo_spec) as [bg|] eqn:Eb; [|discriminate].
  destruct (ssh_commands_exact demo_ssh [lit "w"] 30 (lit "m") (lit "/x") demo_spec fg bg Ef Eb)
    as ((cwd & inner & script & Ec & _ & Ei & _) & _).
  exists fg, inner. split; [done|]. rewrite Ei. injection Ec as <-. vm_compute. reflexivity.
Defined.

(** ** The boundary check compares whole names *)

Definition name_ok (n : str) : Prop := n ≠ [] ∧ slash ∉ n.

Lemma join_slashes (p : ppath) :
  p ≠ [] → join [slash] p ++ [slash] = concat ((λ n, n ++ [slash]) <$> p).
Proof.
  induction p as [|n p IH]; [done|]. intros _. destruct p as [|m p]; [cbn; by rewrite app_nil_r|].
  cbn [fmap list_fmap concat]. cbn [fmap list_fmap concat] in IH. rewrite <- IH by done.
  cbn [join]. by rewrite <- !app_assoc.
Qed.

Lemma name_prefix n m s t :
  slash ∉ n → slash ∉ m → n ++ slash :: s = m ++ slash :: t → n = m ∧ s = t.
Proof.
  revert m. induction n as [|x n IH]; intros [|y m] Hn Hm [=]; [done|set_solver|set_solver|].
  subst y. destruct (IH m) as [-> ->]; [set_solver..|done|done].
Qed.

Lemma names_prefix (root q : ppath) :
  Forall name_ok root → Forall name_ok q →
  concat ((λ n, n ++ [slash]) <$> root) `prefix_of` concat ((λ n, n ++ [slash]) <$> q) ↔
  root `prefix_of` q.
Proof.
  intros Hr. revert q. induction Hr as [|n root [_ Hn] _ IH]; intros q Hq.
  { split; intros; apply prefix_nil. }
  destruct Hq as [|m q [Hm0 Hm] Hq].
  { split; [intros [k Hk]; by destruct n | by intros [k Hk]]. }
  cbn [fmap list_fmap concat]. split.
  - intros [k Hk]. rewrite <- !app_assoc in Hk. cbn [app] in Hk.
    destruct (name_prefix m n _ _ Hm Hn Hk) as [-> E]. apply prefix_cons, IH; [done|]. by exists k.
  - intros [k [= -> Hk]]. apply prefix_app. apply IH; [done|]. by exists k.
Qed.

(** The remote boundary check accepts exactly the paths inside the workspace:
    for a workspace and a resolved path of proper names, the branch that reads,
    deletes, lists or describes the file is taken when the workspace's names are the
    first names of the path, never for a sibling whose name merely starts alike. *)
Theorem boundary_exact (root q : ppath) (Hroot : root ≠ []) (Hr : Forall name_ok root)
    (Hq : Forall name_ok q) :
  case_matches (boundary_glob (show_ppath root)) (show_ppath q ++ [slash]) = true ↔
  root `prefix_of` q.
Proof.
  assert (∀ a b : str, [slash] ++ a `prefix_of` [slash] ++ b ↔ a `prefix_of` b) as Hcons
    by (split; [apply prefix_cons_inv_2 | apply prefix_cons]).
  rewrite boundary_spec. unfold show_ppath. rewrite <- !app_assoc, Hcons.
  rewrite (join_slashes root) by done. destruct q as [|n q].
  - cbn [join app]. split; [|by intros [k Hk]; destruct root]. intros [k Hk]. exfalso.
    destruct Hr as [|m root [Hm _] _]; [done|]. cbn in Hk. destruct m as [|x m]; [done|].
    injection Hk as _ Hk. by destruct m.
  - rewrite (join_slashes (n :: q)) by done. by apply names_prefix.
Qed.

Lemma boundary_exact_witness :
  case_matches (boundary_glob (show_ppath [lit "srv"; lit "ws"]))
    (show_ppath [lit "srv"; lit "ws"; lit "a"] ++ [slash]) = true ∧
  case_matches (boundary_glob (show_ppath [lit "srv"; lit "ws"]))
    (show_ppath [lit "srv"; lit "wsx"] ++ [slash]) = false.
Proof.
  split.
  - apply (boundary_exact [lit "srv"; lit "ws"] [lit "srv"; lit "ws"; lit "a"]); [done| | |].
    + repeat (constructor; [split; [done | vm_compute; set_solver]|]); constructor.
    + repeat (constructor; [split; [done | vm_compute; set_solver]|]); constructor.
    + by exists [lit "a"].
  - vm_compute. reflexivity.
Defined.

(** ** What the commands get wrong *)

(** A workspace at the root of the remote host refuses every path below it: the
    boundary pattern starts with two slashes. *)
Theorem root_workspace_refused (q : ppath) (Hq : Forall name_ok q) (Hne : q ≠ []) :
  workspace_str (lit "/") = [slash] ∧
  case_matches (boundary_glob (workspace_str (lit "/"))) (show_ppath q ++ [slash]) = false.
Proof.
  split; [done|]. apply not_true_iff_false. rewrite boundary_spec.
  destruct Hq as [|n q [Hn Hs] _]; [done|]. intros [k Hk].
  change (workspace_str (lit "/")) with [slash] in Hk. unfold show_ppath in Hk.
  injection Hk as Hk. destruct n as [|x n]; [done|].
  assert (x = slash) as ->; [|set_solver]. destruct q; cbn in Hk; congruence.
Qed.

(** A background command is killed by searching the command lines for its marker;
    the marker of the second spawn of a process is a part of the marker of its
    eleventh, so killing one kills the other. *)
Theorem marker_matches_another (pid : N) (cwd : str) (spec : CommandSpec) :
  contains (marker_of pid 1) (marker_of pid 10) = true ∧
  shell_tokens (build_background_command cwd spec (marker_of pid 10)) =
    Some [W (lit "cd"); W cwd; Oper (lit "&&"); W (lit "exec"); W (lit "setsid");
          W (lit "sh"); W (lit "-c"); W (background_script spec); W (marker_of pid 10)].
Proof.
  split; [|apply background_tokens]. apply contains_spec. exists [], (lit "0").
  unfold marker_of. rewrite <- !app_assoc. done.
Qed.

(** A file whose name has a backslash is read, and written, under another name. *)
Theorem backslash_names_another :
  remote_workspace_path (lit "/srv") (lit "a\b") = Ok (lit "/srv/a/b") ∧
  remote_workspace_path (lit "/srv") (lit "a/b") = Ok (lit "/srv/a/b").
Proof. vm_compute. done. Qed.
