(* ===== verification/Terminal.v ===== *)
(** * Running commands
    ([codel00p-harness/src/terminal.rs], [background.rs] and the outcomes of
    [terminal/docker.rs] and [terminal/ssh.rs])

    A child process is the actions it has still to take; its output goes to pipes of
    a bounded capacity, a parameter of the system.  A foreground run polls the child
    and reads its pipes once it is over; a background process has a thread per pipe
    that reads it all along. *)

From stdpp Require Import base numbers strings gmap list.
From S2P Require Import Prelude RustStr Utf8 Harness.

(** ** Foreground runs *)

Record OutputLimits := { lim_timeout : N; lim_max_output_bytes : nat }.
Record CommandOutcome := {
  oc_exit_code : option Z;
  oc_success : bool;
  oc_timed_out : bool;
  oc_stdout : str;
  oc_stderr : str;
  oc_stdout_truncated : bool;
  oc_stderr_truncated : bool;
}.
Record CappedOutput := { co_content : str; co_truncated : bool }.
Definition cap_output (bytes : list byte) (max_bytes : nat) : CappedOutput :=
  {| co_content := from_utf8_lossy (take (Nat.min (length bytes) max_bytes) bytes);
     co_truncated := max_bytes <? length bytes |}.

(** What a child does: put a byte on its error or standard output, or anything else. *)
Inductive child_action := Put (to_stderr : bool) (b : byte) | Work.
Record child := {
  ch_script : list child_action;
  ch_stdout : list byte;
  ch_stderr : list byte;
  ch_code : option Z;
}.
Definition child_of (script : list child_action) (code : option Z) : child :=
  {| ch_script := script; ch_stdout := []; ch_stderr := []; ch_code := code |}.

Section foreground.
Context (capacity : nat).

(** One action; a write to a full pipe blocks. *)
Definition child_step (c : child) : option child :=
  match ch_script c with
  | [] => None
  | Work :: script =>
      Some {| ch_script := script; ch_stdout := ch_stdout c; ch_stderr := ch_stderr c;
              ch_code := ch_code c |}
  | Put false b :: script =>
      if decide (length (ch_stdout c) < capacity) then
        Some {| ch_script := script; ch_stdout := ch_stdout c ++ [b]; ch_stderr := ch_stderr c;
                ch_code := ch_code c |}
      else None
  | Put true b :: script =>
      if decide (length (ch_stderr c) < capacity) then
        Some {| ch_script := script; ch_stdout := ch_stdout c; ch_stderr := ch_stderr c ++ [b];
                ch_code := ch_code c |}
      else None
  end.
Fixpoint child_run (actions : nat) (c : child) : child :=
  match actions with
  | 0 => c
  | S actions => match child_step c with Some c => child_run actions c | None => c end
  end.
Definition exited (c : child) : bool := is_empty (ch_script c).

(** The poll loop: before poll [i] the child takes up to [sched i] actions, and at it
    [elapsed i] milliseconds have passed. *)
Context (sched : nat → nat) (elapsed : nat → N).
Fixpoint poll_loop (fuel i : nat) (timeout : N) (c : child) : option (bool * child) :=
  let c := child_run (sched i) c in
  if exited c then Some (false, c)
  else if (timeout <=? elapsed i)%N then Some (true, c)
  else match fuel with
       | 0 => None
       | S fuel => poll_loop fuel (S i) timeout c
       end.

Definition foreground_outcome (limits : OutputLimits) (timed_out : bool) (c : child) : CommandOutcome :=
  let stdout := cap_output (ch_stdout c) (lim_max_output_bytes limits) in
  let stderr := cap_output (ch_stderr c) (lim_max_output_bytes limits) in
  {| oc_exit_code := if timed_out then None else ch_code c;
     oc_success := negb timed_out && bool_decide (ch_code c = Some 0%Z);
     oc_timed_out := timed_out;
     oc_stdout := co_content stdout; oc_stderr := co_content stderr;
     oc_stdout_truncated := co_truncated stdout; oc_stderr_truncated := co_truncated stderr |}.

Definition run_foreground (fuel : nat) (limits : OutputLimits) (c : child)
    : option CommandOutcome :=
  '(timed_out, c) ← poll_loop fuel 0 (lim_timeout limits) c; Some (foreground_outcome limits timed_out c).

(** The SSH backend and a warm container run the command under [timeout], whose exit
    code means that it fired. *)
Definition TIMEOUT_EXIT_CODE : Z := 124%Z.
Definition remote_timed_out (timed_out : bool) (c : child) : bool :=
  timed_out || bool_decide (ch_code c = Some TIMEOUT_EXIT_CODE).
Definition run_foreground_remote (fuel : nat) (limits : OutputLimits) (c : child)
    : option CommandOutcome :=
  '(timed_out, c) ← poll_loop fuel 0 (lim_timeout limits) c;
  Some (foreground_outcome limits (remote_timed_out timed_out c) c).

(** *** Lemmas *)

Definition bytes_to (err : bool) (script : list child_action) : list byte :=
  omap (λ a, match a with Put e b => if Bool.eqb e err then Some b else None | Work => None end)
    script.
Definition stream (err : bool) (c : child) : list byte := if err then ch_stderr c else ch_stdout c.
(** All a child has written and will write to a stream. *)
Definition total (err : bool) (c : child) : list byte := stream err c ++ bytes_to err (ch_script c).

Lemma child_step_total c c' :
  child_step c = Some c' →
  (∀ err, total err c' = total err c) ∧ ch_code c' = ch_code c ∧
  ((∀ err, length (stream err c) ≤ capacity) → ∀ err, length (stream err c') ≤ capacity).
Proof.
  unfold child_step, total. destruct (ch_script c) as [|[[] b|] script] eqn:E; [done|..].
  - case_decide as Hc; [|done]. intros [= <-]. split; [|split; [done|]].
    + intros []; cbn; [by rewrite <- app_assoc | done].
    + intros H []; cbn; [rewrite length_app; cbn; lia | apply (H false)].
  - case_decide as Hc; [|done]. intros [= <-]. split; [|split; [done|]].
    + intros []; cbn; [done | by rewrite <- app_assoc].
    + intros H []; cbn; [apply (H true) | rewrite length_app; cbn; lia].
  - intros [= <-]. split; [by intros []|]. split; [done|].
    intros H []; cbn; [apply (H true) | apply (H false)].
Qed.

Lemma child_run_total n c :
  (∀ err, length (stream err c) ≤ capacity) →
  let c' := child_run n c in
  (∀ err, total err c' = total err c) ∧ ch_code c' = ch_code c ∧
  (∀ err, length (stream err c') ≤ capacity).
Proof.
  revert c. induction n as [|n IH]; intros c Hc; [done|]. cbn [child_run].
  destruct (child_step c) as [c1|] eqn:E; [|done].
  destruct (child_step_total c c1 E) as (H1 & H2 & H3).
  destruct (IH c1 (H3 Hc)) as (I1 & I2 & I3). split; [|split; [congruence | done]].
  intros err. by rewrite I1, H1.
Qed.

Lemma poll_loop_total fuel i timeout c timed_out c' :
  (∀ err, length (stream err c) ≤ capacity) →
  poll_loop fuel i timeout c = Some (timed_out, c') →
  (∀ err, total err c' = total err c) ∧ ch_code c' = ch_code c ∧
  (∀ err, length (stream err c') ≤ capacity) ∧ (timed_out = false → ch_script c' = []).
Proof.
  revert i c. induction fuel as [|fuel IH]; intros i c Hc; cbn [poll_loop];
    destruct (child_run_total (sched i) c Hc) as (H1 & H2 & H3);
    destruct (exited _) eqn:E; try (intros [= <- <-]; split_and!; [done..|]; intros _;
      unfold exited in E; by destruct (ch_script _)).
  - destruct (_ <=? _)%N; [|done]. by intros [= <- <-].
  - destruct (_ <=? _)%N; [by intros [= <- <-]|]. intros Hp.
    destruct (IH _ _ H3 Hp) as (I1 & I2 & I3 & I4). split_and!; [|congruence|done..].
    intros err. by rewrite I1, H1.
Qed.

Lemma poll_loop_returns fuel i timeout c :
  (timeout <= elapsed (i + fuel))%N → ∃ r, poll_loop fuel i timeout c = Some r.
Proof.
  revert i c. induction fuel as [|fuel IH]; intros i c Ht; cbn [poll_loop];
    destruct (exited _); try by eexists.
  - rewrite Nat.add_0_r in Ht. rewrite (proj2 (N.leb_le _ _) Ht). by eexists.
  - destruct (_ <=? _)%N; [by eexists|]. apply IH. by rewrite <- plus_n_Sm in Ht.
Qed.

(** A foreground run ends and reports honestly: once the clock reaches the
    timeout the loop has returned; a run that is not timed out has taken every action
    of the child, reports its exit code and all its output, in order, cut at the byte
    limit with the flag set when anything was cut; a run that is timed out reports no
    exit code, no success, and a prefix of the output. *)
Theorem foreground_spec (fuel : nat) (limits : OutputLimits) (script : list child_action)
    (code : option Z) (Htimeout : (lim_timeout limits <= elapsed fuel)%N) :
  let c := child_of script code in
  ∃ o out err, run_foreground fuel limits c = Some o ∧
    out `prefix_of` bytes_to false script ∧ err `prefix_of` bytes_to true script ∧
    oc_stdout o = from_utf8_lossy (take (lim_max_output_bytes limits) out) ∧
    oc_stderr o = from_utf8_lossy (take (lim_max_output_bytes limits) err) ∧
    oc_stdout_truncated o = (lim_max_output_bytes limits <? length out) ∧
    oc_stderr_truncated o = (lim_max_output_bytes limits <? length err) ∧
    (if oc_timed_out o then oc_exit_code o = None ∧ oc_success o = false
     else out = bytes_to false script ∧ err = bytes_to true script ∧
          oc_exit_code o = code ∧ oc_success o = bool_decide (code = Some 0%Z)).
Proof.
  intros c. destruct (poll_loop_returns fuel 0 (lim_timeout limits) c) as [[t c'] E]; [done|].
  destruct (poll_loop_total fuel 0 (lim_timeout limits) c t c') as (H1 & H2 & _ & H4); [intros []; cbn; lia|done|].
  unfold run_foreground. rewrite E. cbn [mbind option_bind].
  eexists _, (ch_stdout c'), (ch_stderr c'). split; [reflexivity|].
  assert (∀ (l : list byte) n, take (Nat.min (length l) n) l = take n l) as Ht.
  { intros l n. destruct (Nat.min_spec (length l) n) as [[? ->]|[? ->]]; [|done].
    rewrite !take_ge by lia. done. }
  cbn [foreground_outcome oc_stdout oc_stderr oc_stdout_truncated oc_stderr_truncated oc_timed_out
    oc_exit_code oc_success cap_output co_content co_truncated]. rewrite !Ht.
  pose proof (H1 false) as Ho. pose proof (H1 true) as He. unfold total in Ho, He.
  cbn [stream child_of ch_stdout ch_stderr ch_script c app] in Ho, He.
  split_and!; [by eexists..|done|done|done|done|]. destruct t; [done|].
  rewrite (H4 eq_refl), app_nil_r in Ho, He. by rewrite Ho, He, H2.
Qed.

(** A command whose output does not fit its pipe never ends on its own: the loop
    waits for it to exit before anything reads the pipe, so the run is reported as
    timed out whatever the timeout and however fast the command is. *)
Theorem foreground_large_output (fuel : nat) (limits : OutputLimits) (script : list child_action)
    (code : option Z) (err : bool) (o : CommandOutcome)
    (Hlarge : capacity < length (bytes_to err script))
    (Hrun : run_foreground fuel limits (child_of script code) = Some o) :
  oc_timed_out o = true ∧ oc_exit_code o = None.
Proof.
  unfold run_foreground in Hrun.
  destruct (poll_loop _ _ _ _) as [[t c']|] eqn:E; [|done]. injection Hrun as <-.
  destruct (poll_loop_total fuel 0 (lim_timeout limits) (child_of script code) t c') as (H1 & _ & H3 & H4);
    [intros []; cbn; lia|done|].
  destruct t; [done|]. exfalso. specialize (H1 err). specialize (H3 err). unfold total in H1.
  rewrite (H4 eq_refl) in H1. change (bytes_to err []) with (@nil byte) in H1. rewrite app_nil_r in H1.
  rewrite H1 in H3. cbn [ch_script child_of] in H3.
  replace (stream err (child_of script code)) with (@nil byte) in H3 by by destruct err.
  cbn [app] in H3. lia.
Qed.
End foreground.

(** Ten thousand polls of ten milliseconds, the child taking up to a thousand actions
    before each. *)
Definition demo_elapsed (i : nat) : N := (10 * N.of_nat i)%N.
Definition demo_limits : OutputLimits := {| lim_timeout := 40; lim_max_output_bytes := 3 |}.
Definition demo_script : list child_action :=
  [Put false 104; Put true 33; Work; Put false 105]%N.
Lemma foreground_spec_witness :
  ∃ o out err, run_foreground 8 (λ _, 1) demo_elapsed 4 demo_limits (child_of demo_script (Some 0%Z)) = Some o ∧
    out `prefix_of` bytes_to false demo_script ∧ err `prefix_of` bytes_to true demo_script ∧
    oc_timed_out o = false ∧ oc_stdout o = lit "hi".
Proof.
  destruct (foreground_spec 8 (λ _, 1) demo_elapsed 4 demo_limits demo_script (Some 0%Z))
    as (o & out & err & E & H1 & H2 & H3 & _); [vm_compute; discriminate|].
  exists o, out, err. split; [exact E|]. split; [exact H1|]. split; [exact H2|].
  vm_compute in E. injection E as <-. split; reflexivity.
Defined.
Lemma foreground_large_output_witness :
  ∃ o, run_foreground 1 (λ _, 1000) demo_elapsed 4 demo_limits (child_of demo_script (Some 0%Z)) = Some o ∧
    oc_timed_out o = true.
Proof.
  destruct (run_foreground 1 (λ _, 1000) demo_elapsed 4 demo_limits (child_of demo_script (Some 0%Z)))
    as [o|] eqn:E; [|vm_compute in E; discriminate].
  exists o. split; [done|].
  refine (proj1 (foreground_large_output 1 (λ _, 1000) demo_elapsed 4 demo_limits demo_script
    (Some 0%Z) false o _ E)). vm_compute. lia.
Defined.
