(* ===== verification/Background.v ===== *)
(** * Background processes ([codel00p-harness/src/background.rs])

    A process that runs while the turn goes on: the child and its descendants write to
    two pipes, a thread per pipe copies what it reads into a buffer of bounded size,
    and the tools look at the buffers and at the status of the child.  What the system
    does (a write, a read of some bytes of the pipe, an exit) and what the tools do are
    steps of one relation, in any order.  A call is cut into the steps between which
    others can come: a read of a process finds its status and then reads one buffer
    after the other, and a kill ends the child, takes the handles of the threads out of
    the entry, joins them and records the end.  A step that has to wait for a thread
    returns [Blocked]: it is taken once it no longer does. *)

From stdpp Require Import base numbers strings gmap list relations.
From S2P Require Import Prelude RustStr Utf8 Harness.

Inductive outcome (A : Type) := Returned (a : A) | Blocked | Panicked.
Arguments Returned {_} _.
Arguments Blocked {_}.
Arguments Panicked {_}.
Definition outcome_bind {A B} (f : A → outcome B) (m : outcome A) : outcome B :=
  match m with Returned a => f a | Blocked => Blocked | Panicked => Panicked end.
#[export] Instance outcome_mbind : MBind outcome := @outcome_bind.

(** ** Buffers *)

Definition MAX_STREAM_BYTES : nat := N.to_nat (256 * 1024).
Record StreamBuffer := { sb_data : list byte; sb_read_cursor : nat; sb_truncated : bool }.
Definition StreamBuffer_default : StreamBuffer :=
  {| sb_data := []; sb_read_cursor := 0; sb_truncated := false |}.

Definition sb_append (chunk : list byte) (b : StreamBuffer) : StreamBuffer :=
  let remaining := MAX_STREAM_BYTES - length (sb_data b) in
  if remaining =? 0 then
    {| sb_data := sb_data b; sb_read_cursor := sb_read_cursor b; sb_truncated := true |}
  else if remaining <? length chunk then
    {| sb_data := sb_data b ++ take remaining chunk; sb_read_cursor := sb_read_cursor b;
       sb_truncated := true |}
  else
    {| sb_data := sb_data b ++ chunk; sb_read_cursor := sb_read_cursor b;
       sb_truncated := sb_truncated b |}.

(** [&data[from..to]], which panics out of range. *)
Definition slice_range (from to : nat) (data : list byte) : outcome (list byte) :=
  if (from <=? to) && (to <=? length data) then Returned (take (to - from) (drop from data))
  else Panicked.
Definition sb_take_new (max_bytes : nat) (b : StreamBuffer) : outcome (str * bool * StreamBuffer) :=
  let to := Nat.min (sb_read_cursor b + max_bytes) (length (sb_data b)) in
  slice ← slice_range (sb_read_cursor b) to (sb_data b);
  Returned (from_utf8_lossy slice, sb_truncated b,
            {| sb_data := sb_data b; sb_read_cursor := to; sb_truncated := sb_truncated b |}).

(** ** A pipe, its writers, its reader thread and its buffer

    [ps_written], [ps_failed] and [ps_reads] are history: all that was put on the pipe,
    whether a read has failed, and the texts the tools were given. *)
Record pstream := {
  ps_written : list byte;
  ps_pipe : list byte;
  ps_held : nat;
  ps_reading : bool;
  ps_failed : bool;
  ps_buffer : StreamBuffer;
  ps_reads : list str;
}.
Definition pstream_new : pstream :=
  {| ps_written := []; ps_pipe := []; ps_held := 0; ps_reading := true; ps_failed := false;
     ps_buffer := StreamBuffer_default; ps_reads := [] |}.

(** What writers do; [alive]: the child runs.  [ps_held] counts the other processes
    that hold the write end. *)
Definition ps_write (chunk : list byte) (s : pstream) : pstream :=
  {| ps_written := ps_written s ++ chunk; ps_pipe := ps_pipe s ++ chunk; ps_held := ps_held s;
     ps_reading := ps_reading s; ps_failed := ps_failed s; ps_buffer := ps_buffer s;
     ps_reads := ps_reads s |}.
Definition ps_set_held (held : nat) (s : pstream) : pstream :=
  {| ps_written := ps_written s; ps_pipe := ps_pipe s; ps_held := held;
     ps_reading := ps_reading s; ps_failed := ps_failed s; ps_buffer := ps_buffer s;
     ps_reads := ps_reads s |}.

(** A turn of the loop of [spawn_reader]: it reads [n] bytes, or stops. *)
Definition CHUNK : nat := N.to_nat 8192.
Definition ps_read (n : nat) (s : pstream) : pstream :=
  {| ps_written := ps_written s; ps_pipe := drop n (ps_pipe s); ps_held := ps_held s;
     ps_reading := true; ps_failed := ps_failed s;
     ps_buffer := sb_append (take n (ps_pipe s)) (ps_buffer s); ps_reads := ps_reads s |}.
Definition ps_stop (failed : bool) (s : pstream) : pstream :=
  {| ps_written := ps_written s; ps_pipe := ps_pipe s; ps_held := ps_held s;
     ps_reading := false; ps_failed := failed; ps_buffer := ps_buffer s; ps_reads := ps_reads s |}.

Inductive reader_step (alive : bool) (s : pstream) : pstream → Prop :=
| reader_reads n : ps_reading s = true → 0 < n ≤ Nat.min CHUNK (length (ps_pipe s)) →
    reader_step alive s (ps_read n s)
| reader_ends : ps_reading s = true → ps_pipe s = [] → alive = false → ps_held s = 0 →
    reader_step alive s (ps_stop (ps_failed s) s)
| reader_fails : ps_reading s = true → reader_step alive s (ps_stop true s).
Inductive stream_step (capacity : nat) (alive : bool) (s : pstream) : pstream → Prop :=
| stream_reader s' : reader_step alive s s' → stream_step capacity alive s s'
| stream_write chunk : ps_reading s = true → (alive = true ∨ 0 < ps_held s) →
    length (ps_pipe s ++ chunk) ≤ capacity → stream_step capacity alive s (ps_write chunk s)
| stream_inherit : alive = true ∨ 0 < ps_held s →
    stream_step capacity alive s (ps_set_held (S (ps_held s)) s)
| stream_close held : ps_held s = S held → stream_step capacity alive s (ps_set_held held s).

(** ** Processes *)

Record ExitInfo := { xi_code : option Z; xi_killed : bool }.
Inductive ProcessStatus := Running | Exited (code : option Z) (killed : bool).

(** Where a call of [kill] is: the child is gone and the handles are to be taken; it
    joins the handles it has taken, if there were any; the end is to be recorded. *)
Inductive kill_phase := KillDrains | KillJoins (taken : bool) | KillRecords.

(** [pe_exit]: the exit code of a child that is over; [pe_handles]: the handles of the
    reader threads are still in the entry; [pe_kills]: the calls of [kill] under way. *)
Record ProcessEntry := {
  pe_label : str;
  pe_exit : option (option Z);
  pe_stdout : pstream;
  pe_stderr : pstream;
  pe_finished : option ExitInfo;
  pe_handles : bool;
  pe_kills : list kill_phase;
}.
Definition pe_alive (p : ProcessEntry) : bool := bool_decide (pe_exit p = None).
Definition set_exit (exit : option (option Z)) (p : ProcessEntry) : ProcessEntry :=
  {| pe_label := pe_label p; pe_exit := exit; pe_stdout := pe_stdout p; pe_stderr := pe_stderr p;
     pe_finished := pe_finished p; pe_handles := pe_handles p; pe_kills := pe_kills p |}.
Definition set_streams (out err : pstream) (p : ProcessEntry) : ProcessEntry :=
  {| pe_label := pe_label p; pe_exit := pe_exit p; pe_stdout := out; pe_stderr := err;
     pe_finished := pe_finished p; pe_handles := pe_handles p; pe_kills := pe_kills p |}.
Definition set_finished (f : option ExitInfo) (p : ProcessEntry) : ProcessEntry :=
  {| pe_label := pe_label p; pe_exit := pe_exit p; pe_stdout := pe_stdout p;
     pe_stderr := pe_stderr p; pe_finished := f; pe_handles := pe_handles p;
     pe_kills := pe_kills p |}.
Definition take_handles (p : ProcessEntry) : ProcessEntry :=
  {| pe_label := pe_label p; pe_exit := pe_exit p; pe_stdout := pe_stdout p;
     pe_stderr := pe_stderr p; pe_finished := pe_finished p; pe_handles := false;
     pe_kills := pe_kills p |}.
Definition set_kills (kills : list kill_phase) (p : ProcessEntry) : ProcessEntry :=
  {| pe_label := pe_label p; pe_exit := pe_exit p; pe_stdout := pe_stdout p;
     pe_stderr := pe_stderr p; pe_finished := pe_finished p; pe_handles := pe_handles p;
     pe_kills := kills |}.

Definition status_from (finished : option ExitInfo) : ProcessStatus :=
  match finished with None => Running | Some info => Exited (xi_code info) (xi_killed info) end.
Definition readers_run (p : ProcessEntry) : bool :=
  ps_reading (pe_stdout p) || ps_reading (pe_stderr p).
(** The join of the handles a call has taken. *)
Definition join_readers (taken : bool) (p : ProcessEntry) : outcome unit :=
  if taken && readers_run p then Blocked else Returned ().
Definition drain_readers (p : ProcessEntry) : outcome ProcessEntry :=
  _ ← join_readers (pe_handles p) p; Returned (take_handles p).
Definition refresh_status (p : ProcessEntry) : outcome (ProcessStatus * ProcessEntry) :=
  match pe_finished p, pe_exit p with
  | None, Some code =>
      p ← drain_readers p;
      let info := {| xi_code := code; xi_killed := false |} in
      Returned (status_from (Some info), set_finished (Some info) p)
  | finished, _ => Returned (status_from finished, p)
  end.

(** The steps of [kill]: the child is killed and waited for, the handles are taken, and
    the end is recorded unless it already was. *)
Definition kill_child (p : ProcessEntry) : ProcessEntry :=
  set_exit (Some match pe_exit p with Some code => code | None => None end) p.
Definition kill_record (p : ProcessEntry) : ProcessStatus * ProcessEntry :=
  let finished := match pe_finished p with
                  | None => Some {| xi_code := None; xi_killed := true |}
                  | finished => finished
                  end in
  (status_from finished, set_finished finished p).
(** A call of [kill] that nothing comes between. *)
Definition kill_entry (p : ProcessEntry) : outcome (ProcessStatus * ProcessEntry) :=
  let p := kill_child p in
  p ← drain_readers p;
  Returned (kill_record p).

(** A step of one of the calls of [kill] under way. *)
Inductive kill_step (p : ProcessEntry) : ProcessEntry → Prop :=
| kill_starts : kill_step p (set_kills (KillDrains :: pe_kills p) (kill_child p))
| kill_drains before after : pe_kills p = before ++ KillDrains :: after →
    kill_step p (set_kills (before ++ KillJoins (pe_handles p) :: after) (take_handles p))
| kill_joins before taken after : pe_kills p = before ++ KillJoins taken :: after →
    join_readers taken p = Returned () →
    kill_step p (set_kills (before ++ KillRecords :: after) p)
| kill_records before after : pe_kills p = before ++ KillRecords :: after →
    kill_step p (set_kills (before ++ after) (kill_record p).2).

Inductive entry_step (capacity : nat) (p : ProcessEntry) : ProcessEntry → Prop :=
| entry_stdout s : stream_step capacity (pe_alive p) (pe_stdout p) s →
    entry_step capacity p (set_streams s (pe_stderr p) p)
| entry_stderr s : stream_step capacity (pe_alive p) (pe_stderr p) s →
    entry_step capacity p (set_streams (pe_stdout p) s p)
| entry_exit code : pe_exit p = None → entry_step capacity p (set_exit (Some code) p).

(** ** The store *)

Record BackgroundProcesses := {
  bp_processes : gmap str ProcessEntry;
  bp_next_id : N;
}.
Definition BackgroundProcesses_new : BackgroundProcesses :=
  {| bp_processes := ∅; bp_next_id := 1 |}.
Definition set_process (id : str) (p : ProcessEntry) (s : BackgroundProcesses)
    : BackgroundProcesses :=
  {| bp_processes := <[id := p]> (bp_processes s); bp_next_id := bp_next_id s |}.

Definition process_id (n : N) : str := lit "proc-" ++ show_N n.
Definition entry_new (label : str) : ProcessEntry :=
  {| pe_label := label; pe_exit := None; pe_stdout := pstream_new; pe_stderr := pstream_new;
     pe_finished := None; pe_handles := true; pe_kills := [] |}.
(** [spawned]: what the backend answers to [spawn_background]. *)
Definition bp_spawn (spawned : result HarnessError ()) (label : str) (s : BackgroundProcesses)
    : result HarnessError str * BackgroundProcesses :=
  match spawned with
  | Err e => (Err e, s)
  | Ok _ =>
      let id := process_id (bp_next_id s) in
      (Ok id, {| bp_processes := <[id := entry_new label]> (bp_processes s);
                 bp_next_id := u64_add (bp_next_id s) 1 |})
  end.

Record OutputSnapshot := {
  os_label : str;
  os_status : ProcessStatus;
  os_stdout : str;
  os_stderr : str;
  os_stdout_truncated : bool;
  os_stderr_truncated : bool;
}.
Definition ps_take_new (max_bytes : nat) (s : pstream) : outcome (str * bool * pstream) :=
  '(text, truncated, b) ← sb_take_new max_bytes (ps_buffer s);
  Returned (text, truncated,
    {| ps_written := ps_written s; ps_pipe := ps_pipe s; ps_held := ps_held s;
       ps_reading := ps_reading s; ps_failed := ps_failed s; ps_buffer := b;
       ps_reads := ps_reads s ++ [text] |}).
Definition entry_output (max_bytes : nat) (p : ProcessEntry)
    : outcome (OutputSnapshot * ProcessEntry) :=
  '(status, p) ← refresh_status p;
  '(stdout, stdout_truncated, out) ← ps_take_new max_bytes (pe_stdout p);
  '(stderr, stderr_truncated, err) ← ps_take_new max_bytes (pe_stderr p);
  Returned ({| os_label := pe_label p; os_status := status; os_stdout := stdout;
               os_stderr := stderr; os_stdout_truncated := stdout_truncated;
               os_stderr_truncated := stderr_truncated |}, set_streams out err p).
(** [get] then an operation of the entry. *)
Definition on_entry {A} (id : str) (op : ProcessEntry → outcome (A * ProcessEntry))
    (s : BackgroundProcesses) : outcome (option A * BackgroundProcesses) :=
  match bp_processes s !! id with
  | None => Returned (None, s)
  | Some p => '(a, p) ← op p; Returned (Some a, set_process id p s)
  end.
Definition bp_output (id : str) (max_bytes : nat)
    : BackgroundProcesses → outcome (option OutputSnapshot * BackgroundProcesses) :=
  on_entry id (entry_output max_bytes).
Definition bp_kill (id : str)
    : BackgroundProcesses → outcome (option ProcessStatus * BackgroundProcesses) :=
  on_entry id kill_entry.

(** [list], in the order of the ids; it holds the lock of the store meanwhile. *)
Record ProcessInfo := { pi_id : str; pi_label : str; pi_status : ProcessStatus }.
Fixpoint list_entries (entries : list (str * ProcessEntry)) (s : BackgroundProcesses)
    : outcome (list ProcessInfo * BackgroundProcesses) :=
  match entries with
  | [] => Returned ([], s)
  | (id, p) :: entries =>
      '(status, p) ← refresh_status p;
      '(infos, s) ← list_entries entries (set_process id p s);
      Returned ({| pi_id := id; pi_label := pe_label p; pi_status := status |} :: infos, s)
  end.
Definition bp_list (s : BackgroundProcesses) : outcome (list ProcessInfo * BackgroundProcesses) :=
  list_entries (sort_by (cmp_on fst str_cmp) (map_to_list (bp_processes s))) s.

Section steps.
Context (capacity : nat).

(** The steps of [output], [list] and [kill] of the entries, and of the system.  A
    refresh holds the lock of [finished] from its look at the child to the record of
    the end, the join included, so that it is one step to the calls that look at it. *)
Inductive step (s : BackgroundProcesses) : BackgroundProcesses → Prop :=
| step_spawn spawned label : step s (bp_spawn spawned label s).2
| step_refresh id p status p' : bp_processes s !! id = Some p →
    refresh_status p = Returned (status, p') → step s (set_process id p' s)
| step_stdout id p max_bytes text truncated out : bp_processes s !! id = Some p →
    ps_take_new max_bytes (pe_stdout p) = Returned (text, truncated, out) →
    step s (set_process id (set_streams out (pe_stderr p) p) s)
| step_stderr id p max_bytes text truncated err : bp_processes s !! id = Some p →
    ps_take_new max_bytes (pe_stderr p) = Returned (text, truncated, err) →
    step s (set_process id (set_streams (pe_stdout p) err p) s)
| step_kill id p p' : bp_processes s !! id = Some p → kill_step p p' →
    step s (set_process id p' s)
| step_system id p p' : bp_processes s !! id = Some p → entry_step capacity p p' →
    step s (set_process id p' s).

(** ** The invariant *)

(** The buffer holds what was read, up to the cap, and the texts given out are the
    buffer up to the cursor, cut into slices. *)
Definition stream_ok (s : pstream) : Prop :=
  let b := ps_buffer s in
  (∃ consumed, ps_written s = consumed ++ ps_pipe s ∧ sb_data b = take MAX_STREAM_BYTES consumed ∧
     sb_truncated b = (MAX_STREAM_BYTES <? length consumed)) ∧
  sb_read_cursor b ≤ length (sb_data b) ∧
  ∃ slices, ps_reads s = from_utf8_lossy <$> slices ∧
    concat slices = take (sb_read_cursor b) (sb_data b).
Definition stream_over (alive : bool) (s : pstream) : Prop :=
  ps_reading s = false → ps_failed s = false → ps_pipe s = [] ∧ alive = false ∧ ps_held s = 0.
(** A call of [kill] has taken the handles and has not joined them yet. *)
Definition is_joining (k : kill_phase) : bool := match k with KillJoins taken => taken | _ => false end.
Definition kill_joining (p : ProcessEntry) : bool := existsb is_joining (pe_kills p).
Definition past_drain (k : kill_phase) : bool := match k with KillDrains => false | _ => true end.
Definition entry_ok (p : ProcessEntry) : Prop :=
  (stream_ok (pe_stdout p) ∧ stream_ok (pe_stderr p)) ∧
  (stream_over (pe_alive p) (pe_stdout p) ∧ stream_over (pe_alive p) (pe_stderr p)) ∧
  (pe_finished p ≠ None ∨ pe_handles p = false →
     pe_alive p = false ∧ (readers_run p = true → kill_joining p = true)) ∧
  (pe_kills p ≠ [] → pe_alive p = false) ∧
  (existsb past_drain (pe_kills p) = true → pe_handles p = false).

Lemma sb_append_spec chunk b consumed :
  chunk ≠ [] → sb_data b = take MAX_STREAM_BYTES consumed →
  sb_truncated b = (MAX_STREAM_BYTES <? length consumed) →
  let b' := sb_append chunk b in
  sb_data b' = take MAX_STREAM_BYTES (consumed ++ chunk) ∧
  sb_truncated b' = (MAX_STREAM_BYTES <? length (consumed ++ chunk)) ∧
  sb_read_cursor b' = sb_read_cursor b ∧ sb_data b `prefix_of` sb_data b'.
Proof.
  intros Hc Hd Ht. unfold sb_append. rewrite Hd, Ht, length_take, length_app.
  assert (0 < length chunk) by (destruct chunk; [done | cbn; lia]).
  destruct (Nat.eqb_spec (MAX_STREAM_BYTES - Nat.min MAX_STREAM_BYTES (length consumed)) 0);
    [|destruct (Nat.ltb_spec (MAX_STREAM_BYTES - Nat.min MAX_STREAM_BYTES (length consumed))
                             (length chunk))]; cbn [sb_data sb_truncated sb_read_cursor].
  - rewrite take_app_le by lia. split_and!; [done| |done|done].
    symmetry. apply Nat.ltb_lt. lia.
  - rewrite take_app_ge, (take_ge consumed) by lia.
    replace (Nat.min MAX_STREAM_BYTES (length consumed)) with (length consumed) by lia.
    split_and!; [done| |done|by eexists].
    symmetry. apply Nat.ltb_lt. lia.
  - rewrite !take_ge by (rewrite ?length_app; lia).
    split_and!; [done| |done|by eexists].
    destruct (Nat.ltb_spec MAX_STREAM_BYTES (length consumed)),
      (Nat.ltb_spec MAX_STREAM_BYTES (length consumed + length chunk)); [lia..|done].
Qed.

Lemma stream_ok_new : stream_ok pstream_new.
Proof. split; [by exists []|]. split; [done|]. by exists []. Qed.

Lemma ps_read_ok n s :
  0 < n ≤ length (ps_pipe s) → stream_ok s → stream_ok (ps_read n s).
Proof.
  intros Hn ((consumed & Hw & Hd & Ht) & Hcur & slices & Hr & Hs).
  destruct (sb_append_spec (take n (ps_pipe s)) (ps_buffer s) consumed)
    as (Ad & At & Ac & [rest Ap]); [destruct (ps_pipe s), n; cbn in *; [lia..|done]|done..|].
  split; [|split].
  - exists (consumed ++ take n (ps_pipe s)). split; [|done].
    cbn [ps_read ps_written ps_pipe]. by rewrite Hw, <- app_assoc, take_drop.
  - cbn [ps_read ps_buffer]. rewrite Ac, Ap, length_app. lia.
  - exists slices. cbn [ps_read ps_reads ps_buffer]. split; [done|].
    by rewrite Ac, Ap, take_app_le.
Qed.

Lemma ps_take_new_ok max_bytes s :
  stream_ok s → ∃ text truncated s', ps_take_new max_bytes s = Returned (text, truncated, s') ∧
    stream_ok s' ∧ ps_reading s' = ps_reading s ∧ ps_failed s' = ps_failed s ∧
    ps_pipe s' = ps_pipe s ∧ ps_held s' = ps_held s.
Proof.
  intros ((consumed & Hw & Hd & Ht) & Hcur & slices & Hr & Hs).
  unfold ps_take_new, sb_take_new, slice_range.
  set (to := Nat.min (sb_read_cursor (ps_buffer s) + max_bytes) (length (sb_data (ps_buffer s)))).
  assert (sb_read_cursor (ps_buffer s) ≤ to ≤ length (sb_data (ps_buffer s))) as [H1 H2] by lia.
  rewrite (proj2 (Nat.leb_le _ _) H1), (proj2 (Nat.leb_le _ _) H2). cbn.
  eexists _, _, _. split; [reflexivity|]. split; [|done].
  split; [by exists consumed|]. split; [done|]. cbn.
  exists (slices ++ [take (to - sb_read_cursor (ps_buffer s))
                       (drop (sb_read_cursor (ps_buffer s)) (sb_data (ps_buffer s)))]).
  rewrite fmap_app, Hr, concat_app, Hs. split; [done|]. cbn. rewrite app_nil_r.
  rewrite take_take_drop. f_equal. lia.
Qed.

(** Stops, writes and closes leave what the invariant looks at as it is. *)
Lemma stream_ok_eq s s' :
  ps_buffer s' = ps_buffer s → ps_reads s' = ps_reads s →
  (∃ more, ps_written s' = ps_written s ++ more ∧ ps_pipe s' = ps_pipe s ++ more) →
  stream_ok s → stream_ok s'.
Proof.
  intros Hb Hr (more & Hw & Hp) ((consumed & Hc & Hd) & Hrest). unfold stream_ok.
  rewrite Hb, Hr. split; [|exact Hrest]. exists consumed. split; [|exact Hd].
  by rewrite Hw, Hp, Hc, app_assoc.
Qed.
Lemma stream_ok_same s s' :
  ps_buffer s' = ps_buffer s → ps_reads s' = ps_reads s →
  ps_written s' = ps_written s → ps_pipe s' = ps_pipe s → stream_ok s → stream_ok s'.
Proof. intros. apply (stream_ok_eq s); try done. exists []. by rewrite !app_nil_r. Qed.

Lemma stream_step_ok alive s s' :
  stream_step capacity alive s s' → stream_ok s → stream_over alive s →
  stream_ok s' ∧ stream_over alive s' ∧ (ps_reading s = false → ps_reading s' = false).
Proof.
  intros [s1 [n Hr Hn|Hr Hp Ha Hh|Hr]|chunk Hr Ha Hc|Ha|held Hh] Hok Hover.
  - destruct Hn as [Hn1 Hn2]. split; [|split; [done|congruence]].
    apply ps_read_ok; [|exact Hok]. split; [exact Hn1|].
    exact (Nat.le_trans _ _ _ Hn2 (Nat.le_min_r _ _)).
  - split; [by apply (stream_ok_same s)|]. by split.
  - split; [by apply (stream_ok_same s)|]. by split.
  - split; [apply (stream_ok_eq s); [done..|by exists chunk|exact Hok]|].
    split; [intros H; cbn in H; congruence|congruence].
  - split; [by apply (stream_ok_same s)|]. split; [|done]. intros H1 H2.
    destruct (Hover H1 H2) as (H3 & H4 & H5). destruct Ha as [?|?]; [congruence|lia].
  - split; [by apply (stream_ok_same s)|]. split; [|done]. intros H1 H2.
    destruct (Hover H1 H2) as (H3 & H4 & H5). lia.
Qed.

Lemma stream_over_dead alive s : stream_over alive s → stream_over false s.
Proof. intros H H1 H2. by destruct (H H1 H2) as (? & _ & ?). Qed.

(** A change of the streams alone. *)
Lemma entry_ok_streams out err p :
  entry_ok p → stream_ok out → stream_ok err → stream_over (pe_alive p) out → stream_over (pe_alive p) err →
  (ps_reading (pe_stdout p) = false → ps_reading out = false) →
  (ps_reading (pe_stderr p) = false → ps_reading err = false) → entry_ok (set_streams out err p).
Proof.
  intros (_ & _ & Hf & Hk) O1 O2 V1 V2 R1 R2. split; [by split|]. split; [by split|]. split; [|exact Hk].
  intros H. destruct (Hf H) as [Hd Hr]. split; [exact Hd|]. intros Hrun. apply Hr.
  unfold readers_run in *. cbn [set_streams pe_stdout pe_stderr] in Hrun.
  destruct (ps_reading (pe_stdout p)), (ps_reading (pe_stderr p)); try done.
  rewrite R1, R2 in Hrun by done. done.
Qed.
(** A child that is over stays over. *)
Lemma entry_ok_dead exit p : entry_ok p → entry_ok (set_exit (Some exit) p).
Proof.
  intros ((O1 & O2) & (V1 & V2) & Hf & _ & Hd). split; [done|].
  split; [split; by eapply stream_over_dead|]. split; [|done]. intros H. split; [done|]. by apply Hf.
Qed.

Lemma entry_step_ok p p' : entry_step capacity p p' → entry_ok p → entry_ok p'.
Proof.
  intros Hs Hok. pose proof Hok as ((O1 & O2) & (V1 & V2) & _). destruct Hs as [s Hs|s Hs|code He].
  - destruct (stream_step_ok _ _ _ Hs O1 V1) as (A & B & C). by apply entry_ok_streams.
  - destruct (stream_step_ok _ _ _ Hs O2 V2) as (A & B & C). by apply entry_ok_streams.
  - by apply entry_ok_dead.
Qed.

Lemma entry_new_ok label : entry_ok (entry_new label).
Proof. split; [split; apply stream_ok_new|]. split; [done|]. split; [by intros [?|?]|done]. Qed.

Lemma join_returned taken p : join_readers taken p = Returned () → taken = true → readers_run p = false.
Proof. unfold join_readers. by destruct taken, (readers_run p). Qed.

(** The handles are joined and the end recorded. *)
Lemma finished_ok info p :
  entry_ok p → pe_alive p = false → join_readers (pe_handles p) p = Returned () →
  entry_ok (set_finished (Some info) (take_handles p)).
Proof.
  intros (O & V & Hf & Hk & Hd) Ha Hj. split; [exact O|]. split; [exact V|]. split; [|by split].
  intros _. split; [exact Ha|]. intros Hr. destruct (pe_handles p) eqn:Eh.
  - pose proof (join_returned _ _ Hj eq_refl) as Hn. unfold readers_run in *. cbn in Hr. congruence.
  - by apply Hf; [right|].
Qed.

Lemma refresh_status_ok p status p' :
  refresh_status p = Returned (status, p') → entry_ok p →
  entry_ok p' ∧ pe_stdout p' = pe_stdout p ∧ pe_stderr p' = pe_stderr p ∧
  status = status_from (pe_finished p') ∧ pe_exit p' = pe_exit p ∧ pe_label p' = pe_label p ∧
  (pe_finished p ≠ None → p' = p).
Proof.
  unfold refresh_status. destruct (pe_finished p) as [info|] eqn:Ef.
  { intros [= <- <-] Hok. split_and!; try done. by rewrite Ef. }
  destruct (pe_exit p) as [code|] eqn:Ex; [|intros [= <- <-] Hok; by rewrite Ef].
  unfold drain_readers. destruct (join_readers (pe_handles p) p) as [[]| |] eqn:Ej; try done.
  intros [= <- <-] Hok. split; [|by split_and!]. apply finished_ok; [done|by unfold pe_alive; rewrite Ex|done].
Qed.

Lemma refresh_never_panics p : refresh_status p ≠ Panicked.
Proof.
  unfold refresh_status, drain_readers, join_readers.
  destruct (pe_finished p), (pe_exit p); try done. by destruct (_ && _).
Qed.

Lemma existsb_swap {A} (f : A → bool) before x y after :
  f x = f y → existsb f (before ++ x :: after) = existsb f (before ++ y :: after).
Proof. intros H. rewrite !existsb_app. cbn [existsb]. by rewrite H. Qed.
Lemma existsb_middle {A} (f : A → bool) before x after :
  existsb f (before ++ x :: after) = f x || existsb f (before ++ after).
Proof. rewrite !existsb_app. cbn [existsb]. by destruct (existsb f before), (f x). Qed.

Lemma kill_step_ok p p' : kill_step p p' → entry_ok p → entry_ok p'.
Proof.
  intros Hs Hok. destruct Hs as [|before after Hk|before taken after Hk Hj|before after Hk].
  - pose proof (entry_ok_dead (match pe_exit p with Some code => code | None => None end) p Hok)
      as (O & V & Hf & _ & Hd). split; [exact O|]. split; [exact V|]. split; [|by split].
    intros H. destruct (Hf H) as [Ha Hr]. split; [exact Ha|]. intros Hrun. by apply Hr.
  - destruct Hok as (O & V & Hf & Ha & Hd). rewrite Hk in Ha. specialize (Ha ltac:(by destruct before)).
    split; [exact O|]. split; [exact V|]. split; [|by split].
    intros _. split; [exact Ha|]. intros Hrun. unfold kill_joining. cbn [set_kills pe_kills].
    rewrite existsb_middle. destruct (pe_handles p) eqn:Eh; [done|]. destruct (Hf (or_intror eq_refl)) as [_ Hr].
    specialize (Hr Hrun). unfold kill_joining in Hr. by rewrite Hk, existsb_middle in Hr.
  - destruct Hok as (O & V & Hf & Ha & Hd). rewrite Hk in Ha, Hd. specialize (Ha ltac:(by destruct before)).
    rewrite existsb_middle in Hd. specialize (Hd eq_refl).
    split; [exact O|]. split; [exact V|]. split; [|by split].
    intros _. split; [exact Ha|]. intros Hrun. change (readers_run p = true) in Hrun.
    destruct (Hf (or_intror Hd)) as [_ Hr]. specialize (Hr Hrun). unfold kill_joining in *.
    rewrite Hk, existsb_middle in Hr. cbn [set_kills pe_kills]. rewrite existsb_middle.
    destruct taken; [|exact Hr]. by rewrite (join_returned _ _ Hj eq_refl) in Hrun.
  - destruct Hok as (O & V & Hf & Ha & Hd). rewrite Hk in Ha, Hd. specialize (Ha ltac:(by destruct before)).
    rewrite existsb_middle in Hd. specialize (Hd eq_refl).
    split; [exact O|]. split; [exact V|]. split; [|by split].
    intros _. split; [exact Ha|]. intros Hrun. change (readers_run p = true) in Hrun.
    destruct (Hf (or_intror Hd)) as [_ Hr]. specialize (Hr Hrun). unfold kill_joining in *.
    by rewrite Hk, existsb_middle in Hr.
Qed.

(** A read of a buffer by a tool. *)
Lemma take_stdout_ok max_bytes p text truncated out :
  ps_take_new max_bytes (pe_stdout p) = Returned (text, truncated, out) → entry_ok p →
  entry_ok (set_streams out (pe_stderr p) p).
Proof.
  intros E Hok. pose proof Hok as ((O1 & O2) & (V1 & V2) & _).
  destruct (ps_take_new_ok max_bytes _ O1) as (t1 & b1 & s1 & E1 & S1 & R1 & F1 & P1 & H1).
  rewrite E1 in E. injection E as -> -> ->. apply entry_ok_streams; try done; [|by rewrite R1].
  unfold stream_over. by rewrite R1, F1, P1, H1.
Qed.
Lemma take_stderr_ok max_bytes p text truncated err :
  ps_take_new max_bytes (pe_stderr p) = Returned (text, truncated, err) → entry_ok p →
  entry_ok (set_streams (pe_stdout p) err p).
Proof.
  intros E Hok. pose proof Hok as ((O1 & O2) & (V1 & V2) & _).
  destruct (ps_take_new_ok max_bytes _ O2) as (t1 & b1 & s1 & E1 & S1 & R1 & F1 & P1 & H1).
  rewrite E1 in E. injection E as -> -> ->. apply entry_ok_streams; try done; [|by rewrite R1].
  unfold stream_over. by rewrite R1, F1, P1, H1.
Qed.

Lemma entry_output_ok max_bytes p : entry_ok p →
  entry_output max_bytes p ≠ Panicked ∧
  ∀ snapshot p', entry_output max_bytes p = Returned (snapshot, p') →
    entry_ok p' ∧ os_status snapshot = status_from (pe_finished p').
Proof.
  intros Hok. unfold entry_output. pose proof (refresh_never_panics p) as Hnp.
  destruct (refresh_status p) as [[status q]| |] eqn:Er; [|by split|done]. cbn.
  destruct (refresh_status_ok p status q Er Hok) as (Hq & _ & _ & -> & _).
  pose proof Hq as ((O1 & O2) & _).
  destruct (ps_take_new_ok max_bytes (pe_stdout q) O1) as (t1 & b1 & s1 & E1 & _).
  destruct (ps_take_new_ok max_bytes (pe_stderr q) O2) as (t2 & b2 & s2 & E2 & _).
  rewrite E1. cbn. rewrite E2. cbn. split; [done|]. intros ? ? [= <- <-]. split; [|done].
  apply (take_stderr_ok max_bytes (set_streams s1 (pe_stderr q) q) t2 b2 s2); [exact E2|].
  by apply (take_stdout_ok max_bytes q t1 b1 s1).
Qed.

Definition store_ok (s : BackgroundProcesses) : Prop :=
  ∀ id p, bp_processes s !! id = Some p → entry_ok p.

Lemma set_process_ok id p s : entry_ok p → store_ok s → store_ok (set_process id p s).
Proof.
  intros Hp Hs id' p'. cbn. destruct (decide (id = id')) as [<-|Hne].
  - rewrite lookup_insert_eq. by intros [= <-].
  - rewrite lookup_insert_ne by done. apply Hs.
Qed.

Lemma step_ok s s' : step s s' → store_ok s → store_ok s'.
Proof.
  intros [spawned label|id p status p' E Er|id p m t b o E Et|id p m t b o E Et|id p p' E Hk|id p p' E Hp] Hs.
  1: { destruct spawned as [[]|e]; [|done]. intros id p. cbn.
       destruct (decide (process_id (bp_next_id s) = id)) as [<-|Hne].
       + rewrite lookup_insert_eq. intros [= <-]. apply entry_new_ok.
       + rewrite lookup_insert_ne by done. apply Hs. }
  all: apply set_process_ok; [|done]; specialize (Hs _ _ E).
  - by apply (refresh_status_ok p status p' Er).
  - by eapply take_stdout_ok.
  - by eapply take_stderr_ok.
  - by eapply kill_step_ok.
  - by eapply entry_step_ok.
Qed.

Lemma reachable_ok s : rtc step BackgroundProcesses_new s → store_ok s.
Proof.
  intros H. cut (∀ s0, rtc step s0 s → store_ok s0 → store_ok s).
  { intros Hc. apply (Hc _ H). intros id p. cbn. by rewrite lookup_empty. }
  clear H. intros s0. induction 1 as [|s1 s2 s3 Hs _ IH]; [done|]. intros H0.
  by apply IH, (step_ok s1).
Qed.

(** *** Theorems *)

(** What a stream of a process holds for the tools. *)
Definition stream_exact (finished : bool) (s : pstream) : Prop :=
  ∃ consumed slices,
    consumed `prefix_of` ps_written s ∧
    sb_data (ps_buffer s) = take MAX_STREAM_BYTES consumed ∧
    sb_truncated (ps_buffer s) = (MAX_STREAM_BYTES <? length consumed) ∧
    ps_reads s = from_utf8_lossy <$> slices ∧
    concat slices `prefix_of` sb_data (ps_buffer s) ∧
    (finished = true → ps_failed s = false → consumed = ps_written s).

Lemma stream_ok_exact alive finished s :
  stream_ok s → stream_over alive s → (finished = true → ps_reading s = false) →
  stream_exact finished s.
Proof.
  intros ((consumed & Hw & Hd & Ht) & _ & slices & Hr & Hs) Hover Hf.
  exists consumed, slices. rewrite Hs. split_and!; [by eexists|done..|apply prefix_take|].
  intros Hfin Hfail. destruct (Hover (Hf Hfin) Hfail) as (Hp & _). by rewrite Hw, Hp, app_nil_r.
Qed.

(** A call that nothing comes between is a run of its steps. *)
Lemma set_process_twice id p q s : set_process id q (set_process id p s) = set_process id q s.
Proof. unfold set_process. cbn. by rewrite insert_insert_eq. Qed.
Lemma bp_output_steps id max_bytes s o s' :
  bp_output id max_bytes s = Returned (o, s') → rtc step s s'.
Proof.
  unfold bp_output, on_entry. destruct (bp_processes s !! id) as [p|] eqn:E; [|by intros [= _ <-]].
  unfold entry_output. destruct (refresh_status p) as [[status q]| |] eqn:Er; try done. cbn.
  destruct (ps_take_new max_bytes (pe_stdout q)) as [[[t1 b1] out]| |] eqn:E1; try done. cbn.
  destruct (ps_take_new max_bytes (pe_stderr q)) as [[[t2 b2] err]| |] eqn:E2; try done.
  intros [= _ <-]. eapply rtc_l; [by apply (step_refresh _ id p status q)|].
  eapply rtc_l; [eapply (step_stdout _ id q); [apply lookup_insert_eq|exact E1]|]. rewrite set_process_twice.
  eapply rtc_l; [eapply (step_stderr _ id (set_streams out (pe_stderr q) q)); [apply lookup_insert_eq|exact E2]|].
  rewrite set_process_twice. apply rtc_refl.
Qed.
Lemma bp_list_steps s infos s' : bp_list s = Returned (infos, s') → rtc step s s'.
Proof.
  unfold bp_list. set (entries := sort_by _ _).
  assert (NoDup entries.*1) as Hnd.
  { unfold entries. rewrite (sort_by_perm _ (map_to_list _)). apply NoDup_fst_map_to_list. }
  assert (∀ id p, (id, p) ∈ entries → bp_processes s !! id = Some p) as Hin.
  { intros id p H%elem_of_sort_by%elem_of_map_to_list. done. }
  clearbody entries. revert s infos Hin Hnd. induction entries as [|[id p] entries IH]; intros s infos Hin Hnd; cbn.
  { intros [= _ <-]. apply rtc_refl. }
  destruct (refresh_status p) as [[status q]| |] eqn:Er; try done. cbn.
  destruct (list_entries entries _) as [[infos' s1]| |] eqn:El; try done. intros [= _ <-].
  apply NoDup_cons in Hnd as [Hni Hnd].
  eapply rtc_l; [apply (step_refresh _ id p status q); [apply Hin; left|exact Er]|].
  eapply IH; [|exact Hnd|exact El]. intros id' p' H. cbn. rewrite lookup_insert_ne; [by apply Hin; right|].
  intros ->. apply Hni, list_elem_of_fmap. by exists (id', p').
Qed.
Lemma bp_kill_steps id s o s' : bp_kill id s = Returned (o, s') → rtc step s s'.
Proof.
  unfold bp_kill, on_entry. destruct (bp_processes s !! id) as [p|] eqn:E; [|by intros [= _ <-]].
  unfold kill_entry, drain_readers.
  destruct (join_readers (pe_handles (kill_child p)) (kill_child p)) as [[]| |] eqn:Ej; try done.
  intros [= _ <-].
  eapply rtc_l; [eapply step_kill; [exact E|apply kill_starts]|].
  eapply rtc_l; [eapply step_kill; [apply lookup_insert_eq|by apply (kill_drains _ [] (pe_kills p))]|].
  rewrite set_process_twice.
  eapply rtc_l; [eapply step_kill; [apply lookup_insert_eq|by apply (kill_joins _ [] (pe_handles p) (pe_kills p))]|].
  rewrite set_process_twice.
  eapply rtc_l; [eapply step_kill; [apply lookup_insert_eq|by apply (kill_records _ [] (pe_kills p))]|].
  rewrite set_process_twice. by destruct p.
Qed.

(** C28. Whatever the processes, the reader threads and the tools do in whatever
    order, calls of the tools cut into their steps, no byte is lost, repeated or
    reordered: each buffer is what was written so far, as far as the thread has read,
    up to the cap and with the flag set exactly when the cap was passed; the texts
    given out are consecutive slices of it from its start; and once a process is
    recorded as over, its buffer holds all it wrote, provided that no read of its pipe
    failed and that no call of [kill] is at the join of the threads it has taken.  A
    process is reported as over only when the child is, and its threads too unless such
    a call is joining them.  No read of a buffer panics. *)
Theorem background_exact (s : BackgroundProcesses) (id : str) (p : ProcessEntry) (max_bytes : nat)
    (Hreach : rtc step BackgroundProcesses_new s) (Hp : bp_processes s !! id = Some p) :
  (∀ st, st ∈ [pe_stdout p; pe_stderr p] →
     stream_exact (bool_decide (pe_finished p ≠ None) && negb (kill_joining p)) st) ∧
  bp_output id max_bytes s ≠ Panicked ∧
  (∀ o s', bp_output id max_bytes s = Returned (o, s') →
     ∃ snapshot p', o = Some snapshot ∧ bp_processes s' !! id = Some p' ∧
       os_status snapshot = status_from (pe_finished p') ∧
       (os_status snapshot ≠ Running →
          pe_exit p' ≠ None ∧ (readers_run p' = true → kill_joining p' = true))).
Proof.
  pose proof (reachable_ok s Hreach id p Hp) as Hok.
  pose proof Hok as ((O1 & O2) & (V1 & V2) & Hf & _).
  split; [|unfold bp_output, on_entry; rewrite Hp;
           destruct (entry_output_ok max_bytes p Hok) as [Hnp Ho]; split].
  - assert (bool_decide (pe_finished p ≠ None) && negb (kill_joining p) = true → readers_run p = false) as Hr.
    { intros [H%bool_decide_eq_true Hj%negb_true_iff]%andb_prop.
      destruct (Hf (or_introl H)) as [_ Hr]. apply not_true_iff_false. intros Hrun%Hr. congruence. }
    intros st [->|[->|[]%not_elem_of_nil]%elem_of_cons]%elem_of_cons;
      (eapply stream_ok_exact; [done|done|]); intros [? ?]%Hr%orb_false_iff; done.
  - by destruct (entry_output max_bytes p) as [[]| |].
  - intros o s'. destruct (entry_output max_bytes p) as [[snapshot p']| |] eqn:E; try done.
    intros [= <- <-]. destruct (Ho _ _ eq_refl) as [(_ & _ & Hf' & _) Hst].
    exists snapshot, p'. split; [done|]. split; [apply lookup_insert_eq|]. split; [done|].
    rewrite Hst. intros Hrun.
    destruct (pe_finished p') as [info|]; [|done].
    destruct Hf' as [Ha Hr]; [by left|]. split; [|done].
    unfold pe_alive in Ha. by apply bool_decide_eq_false in Ha.
Qed.

(** What is left to do for the reader threads of a process. *)
Definition pending_stream (s : pstream) : nat :=
  length (ps_pipe s) + if ps_reading s then 1 else 0.
Definition pending (p : ProcessEntry) : nat :=
  pending_stream (pe_stdout p) + pending_stream (pe_stderr p).
Definition released (p : ProcessEntry) : Prop :=
  pe_exit p ≠ None ∧ ps_held (pe_stdout p) = 0 ∧ ps_held (pe_stderr p) = 0.

Lemma released_stream_step s s' :
  stream_step capacity false s s' → ps_held s = 0 →
  pending_stream s' < pending_stream s ∧ ps_held s' = 0.
Proof.
  unfold pending_stream.
  intros [s1 [n Hr [Hn1 Hn2]|Hr Hp Ha Hh|Hr]|chunk Hr Ha Hc|Ha|held Hh] H0.
  - pose proof (Nat.le_trans _ _ _ Hn2 (Nat.le_min_r _ _)) as Hle. cbn. rewrite Hr, length_drop. lia.
  - cbn. rewrite Hr. lia.
  - cbn. rewrite Hr. lia.
  - destruct Ha; [done|lia].
  - destruct Ha; [done|lia].
  - lia.
Qed.

Lemma reader_progress s : ps_reading s = true → ps_held s = 0 → ∃ s', stream_step capacity false s s'.
Proof.
  intros Hr Hh. destruct (ps_pipe s) as [|b pipe] eqn:E.
  - eexists. apply stream_reader, reader_ends; done.
  - exists (ps_read 1 s). apply stream_reader, reader_reads; [done|]. split; [lia|].
    apply Nat.min_glb; [|rewrite E; cbn; lia].
    change 1 with (N.to_nat 1). unfold CHUNK. lia.
Qed.

(** C39. A process that is over, and whose pipes nobody holds any more, is soon
    reported as over: every step the system can take for it lowers the number of bytes
    and threads that are pending, and as long as there is none to take, the status is
    its exit code. *)
Theorem background_drains (p : ProcessEntry) (code : option Z) (Hrel : released p)
    (Hexit : pe_exit p = Some code) (Hnew : pe_finished p = None) :
  (∀ p', entry_step capacity p p' →
     pending p' < pending p ∧ released p' ∧ pe_exit p' = Some code ∧ pe_finished p' = None) ∧
  ((∃ p', entry_step capacity p p') ∨
   ∃ p', refresh_status p = Returned (Exited code false, p') ∧ pe_finished p' ≠ None).
Proof.
  destruct Hrel as (_ & H1 & H2).
  assert (pe_alive p = false) as Ha by by (unfold pe_alive; rewrite Hexit). split.
  - unfold pending, released. intros p' [s Hs|s Hs|c He]; [..|congruence]; rewrite Ha in Hs; cbn.
    + destruct (released_stream_step _ _ Hs H1). split_and!; [lia|congruence|done..].
    + destruct (released_stream_step _ _ Hs H2). split_and!; [lia|congruence|done..].
  - destruct (ps_reading (pe_stdout p)) eqn:R1.
    { left. destruct (reader_progress _ R1 H1) as [s Hs]. eexists. apply entry_stdout.
      by rewrite Ha. }
    destruct (ps_reading (pe_stderr p)) eqn:R2.
    { left. destruct (reader_progress _ R2 H2) as [s Hs]. eexists. apply entry_stderr.
      by rewrite Ha. }
    right. unfold refresh_status, drain_readers, join_readers, readers_run.
    rewrite Hnew, Hexit, R1, R2, andb_false_r. by eexists.
Qed.

(** *** Process ids *)

Definition ids_ok (n : nat) (s : BackgroundProcesses) : Prop :=
  (bp_next_id s <= N.of_nat n + 1)%N ∧
  ∀ id p, bp_processes s !! id = Some p → ∃ k, (k < bp_next_id s)%N ∧ id = process_id k.

Lemma ids_ok_process n id p q s :
  bp_processes s !! id = Some q → ids_ok n s → ids_ok n (set_process id p s).
Proof.
  intros Hq [Hn Hi]. split; [done|]. intros id' p'. cbn.
  destruct (decide (id = id')) as [<-|Hne]; [intros _; by eapply Hi|].
  rewrite lookup_insert_ne by done. apply Hi.
Qed.
Lemma ids_ok_step n s s' :
  (N.of_nat n + 2 < u64_modulus)%N → step s s' → ids_ok n s → ids_ok (S n) s'.
Proof.
  intros Hn Hstep Hs. assert (ids_ok (S n) s) as HS by (destruct Hs; split; [lia|done]).
  destruct Hstep as [spawned label|? ? ? ? E _|? ? ? ? ? ? E _|? ? ? ? ? ? E _|? ? ? E _|? ? ? E _];
    [|by eapply ids_ok_process..].
  destruct spawned as [[]|e]; [|done]. destruct Hs as [Hs Hi].
  unfold ids_ok, bp_spawn, u64_add. cbn [snd bp_next_id bp_processes].
  rewrite u64_wrap_small by lia. split; [lia|]. intros id p.
  destruct (decide (process_id (bp_next_id s) = id)) as [<-|Hne].
  + intros _. exists (bp_next_id s). split; [lia|done].
  + rewrite lookup_insert_ne by done. intros Hl. destruct (Hi id p Hl) as (k & ? & ->).
    exists k. split; [lia|done].
Qed.
Lemma ids_ok_reachable n s :
  (N.of_nat n + 2 < u64_modulus)%N → nsteps step n BackgroundProcesses_new s → ids_ok n s.
Proof.
  revert s. induction n as [|n IH]; intros s Hn Hs.
  - inversion Hs; subst. split; [done|]. intros id p. cbn. by rewrite lookup_empty.
  - apply nsteps_inv_r in Hs as (s1 & H1 & H2). eapply ids_ok_step; [lia|exact H2|].
    apply IH; [lia|done].
Qed.

(** A spawned process gets an id no other process has, for as long as fewer than
    2^64 - 2 steps were taken; the others are kept as they are.  A backend that fails to
    spawn leaves the store unchanged. *)
Theorem spawned_id_is_fresh (n : nat) (s : BackgroundProcesses) (spawned : result HarnessError ())
    (label : str) (Hn : (N.of_nat n + 2 < u64_modulus)%N)
    (Hreach : nsteps step n BackgroundProcesses_new s) :
  match bp_spawn spawned label s with
  | (Ok id, s') => spawned = Ok () ∧ bp_processes s !! id = None ∧
      bp_processes s' = <[id := entry_new label]> (bp_processes s)
  | (Err e, s') => spawned = Err e ∧ s' = s
  end.
Proof.
  destruct (ids_ok_reachable n s Hn Hreach) as [_ Hi].
  destruct spawned as [[]|e]; cbn; [|done]. split; [done|]. split.
  - destruct (bp_processes s !! process_id (bp_next_id s)) as [p|] eqn:E; [|done].
    destruct (Hi _ _ E) as (k & Hk & Heq). apply app_inv_head in Heq.
    apply show_N_inj in Heq. lia.
  - done.
Qed.
End steps.

(** ** On examples *)

Definition demo_label : str := lit "npm run dev".
Definition demo_id : str := process_id 1.
Definition demo_spawned : BackgroundProcesses := (bp_spawn (Ok ()) demo_label BackgroundProcesses_new).2.
(** It has written two bytes, of which the thread has read one. *)
Definition demo_entry : ProcessEntry :=
  let p := entry_new demo_label in
  set_streams (ps_read 1 (ps_write [104; 105]%N pstream_new)) pstream_new p.
Definition demo_store : BackgroundProcesses := set_process demo_id demo_entry demo_spawned.

Lemma demo_entry_reached : rtc (entry_step 16) (entry_new demo_label) demo_entry.
Proof.
  eapply rtc_l; [apply entry_stdout, (stream_write _ _ _ [104; 105]%N); [done|by left|vm_compute; lia]|].
  eapply rtc_l; [apply entry_stdout, stream_reader, (reader_reads _ _ 1); [done|]|apply rtc_refl].
  split; [lia|]. apply Nat.min_glb; [change 1 with (N.to_nat 1); unfold CHUNK; lia|cbn; lia].
Qed.
Lemma system_steps id p q capacity s :
  rtc (entry_step capacity) p q → bp_processes s !! id = Some p →
  rtc (step capacity) s (set_process id q s).
Proof.
  intros H. revert s. induction H as [p|p q r Hpq _ IH]; intros s Hs.
  - replace (set_process id p s) with s; [done|]. unfold set_process. rewrite insert_id by done.
    by destruct s.
  - eapply rtc_l; [by eapply step_system|].
    replace (set_process id r s) with (set_process id r (set_process id q s)).
    + apply IH. apply lookup_insert_eq.
    + unfold set_process. cbn. by rewrite insert_insert_eq.
Qed.
Lemma demo_store_reached : rtc (step 16) BackgroundProcesses_new demo_store.
Proof.
  eapply rtc_l; [apply (step_spawn _ _ (Ok ()) demo_label)|].
  eapply system_steps; [apply demo_entry_reached|]. by vm_compute.
Qed.

Lemma background_exact_witness :
  stream_exact false (pe_stdout demo_entry) ∧ bp_output demo_id 10 demo_store ≠ Panicked.
Proof.
  destruct (background_exact 16 demo_store demo_id demo_entry 10 demo_store_reached)
    as (H1 & H2 & _); [apply lookup_insert_eq|].
  split; [apply (H1 (pe_stdout demo_entry)); by apply elem_of_cons; left|exact H2].
Defined.
Lemma spawned_id_is_fresh_witness :
  bp_processes demo_spawned !! process_id 2 = None.
Proof.
  apply (spawned_id_is_fresh 16 1 demo_spawned (Ok ()) demo_label); [reflexivity|].
  eapply nsteps_l; [apply (step_spawn _ _ (Ok ()) demo_label)|apply nsteps_O].
Defined.
Lemma background_drains_witness :
  ∃ p', entry_step 16 (set_exit (Some (Some 0%Z)) demo_entry) p' ∧
    pending p' < pending (set_exit (Some (Some 0%Z)) demo_entry).
Proof.
  destruct (background_drains 16 (set_exit (Some (Some 0%Z)) demo_entry) (Some 0%Z))
    as [H [[p' Hp]|(p' & Hr & _)]]; [by split_and!|done|done| |].
  - exists p'. split; [exact Hp|]. by apply H.
  - discriminate Hr.
Defined.

(** A child that exits while a process it started keeps the pipe: its status, the list
    of all processes and a kill wait for that process. *)
Definition daemon_entry : ProcessEntry :=
  set_exit (Some (Some 0%Z))
    (set_streams (ps_set_held 1 pstream_new) pstream_new (entry_new demo_label)).
Theorem held_pipe_blocks :
  rtc (entry_step 16) (entry_new demo_label) daemon_entry ∧
  pe_exit daemon_entry = Some (Some 0%Z) ∧
  let s := set_process demo_id daemon_entry demo_spawned in
  rtc (step 16) BackgroundProcesses_new s ∧
  bp_output demo_id 10 s = Blocked ∧ bp_list s = Blocked ∧ bp_kill demo_id s = Blocked.
Proof.
  assert (rtc (entry_step 16) (entry_new demo_label) daemon_entry) as H.
  { eapply rtc_l; [apply entry_stdout, stream_inherit; by left|].
    eapply rtc_l; [by apply (entry_exit _ _ (Some 0%Z))|apply rtc_refl]. }
  split; [exact H|]. split; [done|]. split; [|split_and!; by vm_compute].
  eapply rtc_l; [apply (step_spawn _ _ (Ok ()) demo_label)|].
  eapply system_steps; [exact H|]. by vm_compute.
Qed.

(** A read between the two halves of a kill finds the handles gone, does not wait, and
    reports the process as over (and not as killed) while its output is still in the
    pipe. *)
Theorem concurrent_kill_loses_output :
  ∃ s p, rtc (step 16) BackgroundProcesses_new s ∧ bp_processes s !! demo_id = Some p ∧
  ∃ snapshot q s', bp_output demo_id 10 s = Returned (Some snapshot, s') ∧
    bp_processes s' !! demo_id = Some q ∧
    os_status snapshot = Exited None false ∧ os_stdout snapshot = [] ∧
    ps_failed (pe_stdout q) = false ∧ ps_pipe (pe_stdout q) = [104; 105]%N.
Proof.
  set (p0 := set_streams (ps_write [104; 105]%N pstream_new) pstream_new (entry_new demo_label)).
  set (p1 := set_kills [KillDrains] (kill_child p0)).
  set (p2 := set_kills [KillJoins true] (take_handles p1)).
  exists (set_process demo_id p2 demo_spawned), p2. split; [|split].
  - eapply rtc_l; [apply (step_spawn _ _ (Ok ()) demo_label)|].
    eapply rtc_l; [eapply (step_system _ _ demo_id (entry_new demo_label)); [by vm_compute|];
      apply entry_stdout, (stream_write _ _ _ [104; 105]%N); [done|by left|vm_compute; lia]|].
    eapply rtc_l; [eapply (step_kill _ _ demo_id p0 p1); [apply lookup_insert_eq|apply kill_starts]|].
    rewrite set_process_twice.
    eapply rtc_l; [eapply (step_kill _ _ demo_id p1 p2); [apply lookup_insert_eq|exact (kill_drains p1 [] [] eq_refl)]|].
    rewrite set_process_twice. apply rtc_refl.
  - apply lookup_insert_eq.
  - eexists _, _, _. split; [by vm_compute|]. split; [by vm_compute|]. by split_and!.
Qed.

(** A character that two reads share is given out as replacement characters. *)
Theorem split_character_lost :
  let b := sb_append (utf8 [233%N]) StreamBuffer_default in
  from_utf8_lossy (sb_data b) = [233%N] ∧
  ∃ b1 b2, sb_take_new 1 b = Returned ([replacement], false, b1) ∧
    sb_take_new 1 b1 = Returned ([replacement], false, b2).
Proof. split; [by vm_compute|]. eexists _, _. split; by vm_compute. Qed.

(** A process that failed on its own before it is killed is reported as killed, without
    the code it failed with. *)
Theorem kill_hides_exit :
  let p := set_exit (Some (Some 3%Z))
             (set_streams (ps_stop false pstream_new) (ps_stop false pstream_new)
                (entry_new demo_label)) in
  rtc (entry_step 16) (entry_new demo_label) p ∧
  ∃ q, kill_entry p = Returned (Exited None true, q).
Proof.
  split; [|by eexists].
  eapply rtc_l; [by apply (entry_exit _ _ (Some 3%Z))|].
  eapply rtc_l; [by apply entry_stdout, stream_reader, reader_ends|].
  eapply rtc_l; [by apply entry_stderr, stream_reader, reader_ends|]. apply rtc_refl.
Qed.
