(* ===== verification/Commands.v ===== *)
(** * Command tools ([codel00p-harness/src/commands.rs])

    [run_command] and the tools that look after the background processes it starts.
    Where the command runs is the backend's affair: its answers to the two calls,
    [run] and [spawn], are parameters. *)

From stdpp Require Import base numbers strings gmap list.
From S2P Require Import Prelude RustStr Utf8 Json Harness ToolInput SelfCorrect ToolRegistry Patch FileSystem Workspace FileTools Shell Terminal Background.

Definition DEFAULT_TIMEOUT_MS : N := 30000.
Definition MAX_TIMEOUT_MS : N := 120000.
Definition DEFAULT_MAX_OUTPUT_BYTES : N := 16384.
Definition MAX_OUTPUT_BYTES : N := 131072.

Definition optional_string_array (tool_name : str) (input : Value) (key : str)
    : result HarnessError (list str) :=
  let message := lit "`" ++ key ++ lit "` must be an array of strings" in
  match get key input with
  | None => Ok []
  | Some value =>
      let? values := ok_or (InvalidToolInput tool_name message) (as_array value) in
      collect_result ((λ v, ok_or (InvalidToolInput tool_name message) (as_str v)) <$> values)
  end.
Definition optional_u64 (input : Value) (key : str) (d : N) : N :=
  default d (get key input ≫= as_u64).
(** A [usize] has the width of a [u64]. *)
Definition optional_usize (input : Value) (key : str) (d : N) : N :=
  default d (get key input ≫= as_u64).

Definition command_label (program : str) (args : list str) : str :=
  if is_empty args then program else program ++ lit " " ++ join (lit " ") args.

Definition int_value (z : Z) : Value :=
  VNumber (match z with Z.neg p => NegInt p | _ => PosInt (Z.to_N z) end).
Definition code_value (code : option Z) : Value :=
  match code with Some z => int_value z | None => VNull end.

Section commands.
Context `{SerdeJson}.

Definition status_json (status : ProcessStatus) : Value :=
  match status with
  | Running => json_object [(lit "state", VString (lit "running"))]
  | Exited code killed =>
      json_object [(lit "state", VString (if killed then lit "killed" else lit "exited"));
                   (lit "exit_code", code_value code); (lit "killed", VBool killed)]
  end.

(** ** [run_command] *)

Definition run_command_name : str := lit "run_command".
Definition run_command_schema : Value :=
  object_schema [lit "program"]
    [(lit "program", type_of (lit "string"));
     (lit "args", json_object [(lit "type", VString (lit "array"));
                               (lit "items", type_of (lit "string"))]);
     (lit "cwd", type_of (lit "string")); (lit "timeout_ms", type_of (lit "integer"));
     (lit "max_output_bytes", type_of (lit "integer")); (lit "background", type_of (lit "boolean"))].
Definition run_command_permission_scope (input : Value) : PermissionScope := Shell.

Definition started_result (program : str) (args : list str) (cwd id : str) : ToolResult :=
  ToolResult_json (json_object
    [(lit "program", VString program); (lit "args", VArray (VString <$> args));
     (lit "cwd", VString cwd); (lit "background", VBool true); (lit "process_id", VString id);
     (lit "status", VString (lit "running"));
     (lit "hint", VString (lit "poll `process_output` with this process_id; stop with `process_kill`"))]).
Definition outcome_result (program : str) (args : list str) (cwd : str) (o : CommandOutcome)
    : ToolResult :=
  ToolResult_json (json_object
    [(lit "program", VString program); (lit "args", VArray (VString <$> args));
     (lit "cwd", VString cwd); (lit "exit_code", code_value (oc_exit_code o));
     (lit "success", VBool (oc_success o)); (lit "timed_out", VBool (oc_timed_out o));
     (lit "stdout", VString (oc_stdout o)); (lit "stderr", VString (oc_stderr o));
     (lit "stdout_truncated", VBool (oc_stdout_truncated o));
     (lit "stderr_truncated", VBool (oc_stderr_truncated o))]).

Definition run_command_execute
    (run : CommandSpec → OutputLimits → result HarnessError CommandOutcome)
    (spawn : CommandSpec → result HarnessError ()) (w : Workspace) (f : fs) (input : Value)
    (s : BackgroundProcesses) : result HarnessError ToolResult * BackgroundProcesses :=
  match
    (let? program := required_string run_command_name input (lit "program") in
     if is_empty (trim program) then
       Err (InvalidToolInput run_command_name (lit "`program` must not be empty"))
     else
     let? args := optional_string_array run_command_name input (lit "args") in
     let cwd := default (lit ".") (optional_string input (lit "cwd")) in
     let? working_dir := ws_resolve_directory w cwd f in
     Ok (program, args, cwd, working_dir))
  with
  | Err e => (Err e, s)
  | Ok (program, args, cwd, working_dir) =>
      let spec := {| cmd_program := program; cmd_args := args; cmd_cwd := working_dir |} in
      if optional_bool input (lit "background") then
        let label := command_label program args in
        let '(r, s) := bp_spawn (spawn spec) label s in
        ((let? process_id := r in Ok (started_result program args cwd process_id)), s)
      else
        let timeout := N.min (optional_u64 input (lit "timeout_ms") DEFAULT_TIMEOUT_MS)
                             MAX_TIMEOUT_MS in
        let max_output_bytes :=
          N.min (optional_usize input (lit "max_output_bytes") DEFAULT_MAX_OUTPUT_BYTES)
                MAX_OUTPUT_BYTES in
        let limits := {| lim_timeout := timeout; lim_max_output_bytes := N.to_nat max_output_bytes |} in
        ((let? outcome := run spec limits in Ok (outcome_result program args cwd outcome)), s)
  end.

(** ** The process tools *)

Definition unknown_process (tool process_id : str) : HarnessError :=
  ToolFailed tool (lit "no background process with id `" ++ process_id ++ lit "`").

Definition process_output_name : str := lit "process_output".
Definition process_output_schema : Value :=
  object_schema [lit "process_id"]
    [(lit "process_id", type_of (lit "string")); (lit "max_output_bytes", type_of (lit "integer"))].
Definition snapshot_result (process_id : str) (o : OutputSnapshot) : ToolResult :=
  ToolResult_json (json_object
    [(lit "process_id", VString process_id); (lit "label", VString (os_label o));
     (lit "status", status_json (os_status o)); (lit "stdout", VString (os_stdout o));
     (lit "stderr", VString (os_stderr o));
     (lit "stdout_truncated", VBool (os_stdout_truncated o));
     (lit "stderr_truncated", VBool (os_stderr_truncated o))]).
Definition process_output_execute (input : Value) (s : BackgroundProcesses)
    : outcome (result HarnessError ToolResult * BackgroundProcesses) :=
  match required_string process_output_name input (lit "process_id") with
  | Err e => Returned (Err e, s)
  | Ok process_id =>
      let max_output_bytes :=
        N.min (optional_usize input (lit "max_output_bytes") DEFAULT_MAX_OUTPUT_BYTES)
              MAX_OUTPUT_BYTES in
      '(snapshot, s) ← bp_output process_id (N.to_nat max_output_bytes) s;
      Returned ((let? snapshot := ok_or (unknown_process process_output_name process_id) snapshot in
                 Ok (snapshot_result process_id snapshot)), s)
  end.

Definition process_list_name : str := lit "process_list".
Definition process_list_schema : Value :=
  json_object [(lit "type", VString (lit "object")); (lit "properties", json_object [])].
Definition info_value (info : ProcessInfo) : Value :=
  json_object [(lit "process_id", VString (pi_id info)); (lit "label", VString (pi_label info));
               (lit "status", status_json (pi_status info))].
Definition process_list_execute (input : Value) (s : BackgroundProcesses)
    : outcome (result HarnessError ToolResult * BackgroundProcesses) :=
  '(infos, s) ← bp_list s;
  Returned (Ok (ToolResult_json (json_object
    [(lit "processes", VArray (info_value <$> infos))])), s).

Definition process_kill_name : str := lit "process_kill".
Definition process_kill_schema : Value :=
  object_schema [lit "process_id"] [(lit "process_id", type_of (lit "string"))].
Definition process_kill_execute (input : Value) (s : BackgroundProcesses)
    : outcome (result HarnessError ToolResult * BackgroundProcesses) :=
  match required_string process_kill_name input (lit "process_id") with
  | Err e => Returned (Err e, s)
  | Ok process_id =>
      '(status, s) ← bp_kill process_id s;
      Returned ((let? status := ok_or (unknown_process process_kill_name process_id) status in
                 Ok (ToolResult_json (json_object
                   [(lit "process_id", VString process_id); (lit "status", status_json status)]))), s)
  end.

(** ** Theorems *)

Lemma resolve_directory_inside w rel f q :
  ws_resolve_directory w rel f = Ok q → ws_root w `prefix_of` q ∧ path_is_dir f (path_at q) = true.
Proof.
  unfold ws_resolve_directory, ws_resolve, resolve_existing, starts_with_path.
  destruct (reject_unsafe_components rel); [|done]. cbn [result_bind].
  destruct (map_err io_error _) as [q'|]; [|done]. cbn [result_bind].
  case_bool_decide as Hp; [|done]. cbn [result_bind].
  destruct (path_is_dir f (path_at q')) eqn:E; [|done]. by intros [= <-].
Qed.

(** [run_command] calls the backend at most once, and only with a program that
    is not blank, a list of strings, a directory inside the workspace and, for a
    foreground run, at most two minutes and 128 KiB of output; an input it rejects
    reaches no backend and no process store.  Only a background call that the backend
    has started adds a process, under the id it returns. *)
Theorem run_command_confined (w : Workspace) (f : fs) (input : Value) (s : BackgroundProcesses) :
  (∃ e, ∀ run spawn, run_command_execute run spawn w f input s = (Err e, s)) ∨
  ∃ spec cwd, trim (cmd_program spec) ≠ [] ∧ ws_root w `prefix_of` cmd_cwd spec ∧
    path_is_dir f (path_at (cmd_cwd spec)) = true ∧
    if optional_bool input (lit "background") then
      ∀ run spawn, run_command_execute run spawn w f input s =
        match spawn spec with
        | Err e => (Err e, s)
        | Ok _ =>
            let id := process_id (bp_next_id s) in
            (Ok (started_result (cmd_program spec) (cmd_args spec) cwd id),
             {| bp_processes := <[id := entry_new (command_label (cmd_program spec) (cmd_args spec))]>
                                  (bp_processes s);
                bp_next_id := u64_add (bp_next_id s) 1 |})
        end
    else
      ∃ limits, (lim_timeout limits <= 120000)%N ∧ (N.of_nat (lim_max_output_bytes limits) <= 131072)%N ∧
        ∀ run spawn, run_command_execute run spawn w f input s =
          match run spec limits with
          | Err e => (Err e, s)
          | Ok o => (Ok (outcome_result (cmd_program spec) (cmd_args spec) cwd o), s)
          end.
Proof.
  unfold run_command_execute.
  destruct (required_string _ _ _) as [program|e]; [|left; by exists e]. cbn [result_bind].
  destruct (is_empty (trim program)) eqn:Et; [left; by eexists|].
  destruct (optional_string_array _ _ _) as [args|e]; [|left; by exists e]. cbn [result_bind].
  set (cwd := default _ _).
  destruct (ws_resolve_directory w cwd f) as [dir|e] eqn:Ed; [|left; by exists e].
  cbn [result_bind]. right. destruct (resolve_directory_inside w cwd f dir Ed) as [H1 H2].
  exists {| cmd_program := program; cmd_args := args; cmd_cwd := dir |}, cwd.
  split; [cbn [cmd_program]; intros H0; by rewrite H0 in Et|]. split; [exact H1|]. split; [exact H2|].
  destruct (optional_bool input _).
  - intros run spawn. unfold bp_spawn. by destruct (spawn _) as [[]|].
  - exists {| lim_timeout := N.min (optional_u64 input (lit "timeout_ms") DEFAULT_TIMEOUT_MS)
                               MAX_TIMEOUT_MS;
              lim_max_output_bytes := N.to_nat (N.min (optional_usize input
                (lit "max_output_bytes") DEFAULT_MAX_OUTPUT_BYTES) MAX_OUTPUT_BYTES) |}. cbn [lim_timeout lim_max_output_bytes].
    split; [apply N.le_min_r|]. split; [rewrite N2Nat.id; apply N.le_min_r|].
    intros run spawn. by destruct (run _ _).
Qed.

(** The handle a background call returns is good: [process_output] on the id of
    the answer finds the process that was just started, running and without output
    yet, under the label of its command line; an id that was never given out is an
    error that changes nothing. *)
Theorem background_handle_valid
    (run : CommandSpec → OutputLimits → result HarnessError CommandOutcome)
    (spawn : CommandSpec → result HarnessError ()) (w : Workspace) (f : fs) (input : Value)
    (s s' : BackgroundProcesses) (r : ToolResult)
    (Hbackground : optional_bool input (lit "background") = true)
    (Hrun : run_command_execute run spawn w f input s = (Ok r, s')) :
  ∃ id label, get_str (lit "process_id") (result_content r) = Some id ∧
    bp_processes s' !! id = Some (entry_new label) ∧
    (∃ s'', process_output_execute (json_object [(lit "process_id", VString id)]) s' =
      Returned (Ok (snapshot_result id
        {| os_label := label; os_status := Running; os_stdout := []; os_stderr := [];
           os_stdout_truncated := false; os_stderr_truncated := false |}), s'')) ∧
    ∀ other, bp_processes s' !! other = None →
      process_output_execute (json_object [(lit "process_id", VString other)]) s' =
        Returned (Err (unknown_process process_output_name other), s').
Proof.
  unfold run_command_execute in Hrun. destruct (result_bind _ _) as [[[[program args] cwd] dir]|e];
    [|done].
  rewrite Hbackground in Hrun. unfold bp_spawn in Hrun. destruct (spawn _) as [[]|e]; [|done].
  injection Hrun as <- <-. exists (process_id (bp_next_id s)), (command_label program args).
  assert (∀ id, required_string process_output_name (json_object [(lit "process_id", VString id)])
    (lit "process_id") = Ok id) as Hid.
  { intros id. unfold required_string, optional_string, json_object, get_str, get. by rewrite map_get_map_of. }
  split; [unfold started_result, json_object, get_str, get; cbn [ToolResult_json result_content];
          by rewrite map_get_map_of|].
  split; [apply lookup_insert_eq|]. split.
  - unfold process_output_execute. rewrite Hid. unfold bp_output, on_entry.
    cbn [bp_processes]. rewrite lookup_insert_eq.
    generalize (N.to_nat (N.min (optional_usize (json_object [(lit "process_id",
      VString (process_id (bp_next_id s)))]) (lit "max_output_bytes") DEFAULT_MAX_OUTPUT_BYTES)
      MAX_OUTPUT_BYTES)). intros n.
    assert (entry_output n (entry_new (command_label program args)) = Returned
      ({| os_label := command_label program args; os_status := Running; os_stdout := []; os_stderr := [];
           os_stdout_truncated := false; os_stderr_truncated := false |},
       set_streams (Build_pstream [] [] 0 true false StreamBuffer_default [[]])
         (Build_pstream [] [] 0 true false StreamBuffer_default [[]])
         (entry_new (command_label program args)))) as ->.
    { unfold entry_output. cbn -[Nat.min]. unfold ps_take_new, sb_take_new. cbn -[Nat.min].
      rewrite Nat.min_0_r. done. }
    by eexists.
  - intros other Ho. unfold process_output_execute. rewrite Hid. unfold bp_output, on_entry.
    by rewrite Ho.
Qed.
End commands.

Definition demo_command : Value := VObject
  [(lit "program", VString (lit "npm")); (lit "args", VArray [VString (lit "start")]);
   (lit "background", VBool true)].
Lemma background_handle_valid_witness :
  ∃ r s' id, run_command_execute (H := counting_json) (λ _ _, Err (Io [])) (λ _, Ok ())
      demo_ws demo_fs demo_command BackgroundProcesses_new = (Ok r, s') ∧
    get_str (lit "process_id") (result_content r) = Some id ∧
    bp_processes s' !! id = Some (entry_new (lit "npm start")).
Proof.
  destruct (run_command_execute (H := counting_json) (λ _ _, Err (Io [])) (λ _, Ok ())
    demo_ws demo_fs demo_command BackgroundProcesses_new) as [[r|e] s'] eqn:E;
    [|exfalso; vm_compute in E; discriminate E].
  destruct (background_handle_valid (H := counting_json) (λ _ _, Err (Io [])) (λ _, Ok ())
    demo_ws demo_fs demo_command BackgroundProcesses_new s' r) as (id & label & H1 & H2 & _);
    [reflexivity|exact E|].
  exists r, s', id. split; [reflexivity|]. split; [exact H1|].
  rewrite H2. vm_compute in E. injection E as <- <-. vm_compute in H1, H2.
  injection H1 as <-. vm_compute in H2. injection H2 as <-. reflexivity.
Defined.
