(* ===== verification/Checks.v ===== *)
(** * Project checks ([codel00p-harness/src/checks.rs])

    The [run_checks] tool: which test, build or lint command a workspace has, how
    it is run through the terminal backend (a parameter, as for [run_command]) and
    what is read out of a runner's output.  Counters are [u64] and wrap. *)

From stdpp Require Import base numbers strings gmap list.
From S2P Require Import Prelude RustStr Utf8 Json Harness ToolInput SelfCorrect ToolRegistry Patch FileSystem Workspace FileTools Shell Terminal Background Commands.

Definition CHECKS_DEFAULT_TIMEOUT_MS : N := 600000.
Definition CHECKS_MAX_TIMEOUT_MS : N := 1800000.
Definition CHECKS_DEFAULT_MAX_OUTPUT_BYTES : N := 65536.
Definition CHECKS_MAX_OUTPUT_BYTES : N := 262144.

Inductive Check := CheckTest | CheckBuild | CheckLint.
Definition check_parse (raw : str) : option Check :=
  let name := to_ascii_lowercase (trim raw) in
  if bool_decide (name = lit "test") then Some CheckTest
  else if bool_decide (name = lit "build") then Some CheckBuild
  else if bool_decide (name = lit "lint") then Some CheckLint
  else None.
Definition check_as_str (c : Check) : str :=
  match c with
  | CheckTest => lit "test" | CheckBuild => lit "build" | CheckLint => lit "lint"
  end.

(** ** Detection *)

Record DetectedChecks := {
  dc_test : option str; dc_build : option str; dc_lint : option str; dc_source : option str;
}.
Definition DetectedChecks_default : DetectedChecks :=
  {| dc_test := None; dc_build := None; dc_lint := None; dc_source := None |}.
Definition command_for (d : DetectedChecks) (c : Check) : option str :=
  match c with CheckTest => dc_test d | CheckBuild => dc_build d | CheckLint => dc_lint d end.

(** [workspace.exists(name).unwrap_or(false)]. *)
Definition manifest_exists (w : Workspace) (f : fs) (name : str) : bool :=
  match (ws_exists w name f).1 with Ok b => b | Err _ => false end.

Section checks.
Context `{SerdeJson}.

Definition package_scripts (w : Workspace) (f : fs) : option Map :=
  raw ← match (ws_read_utf8 w (lit "package.json") f).1 with Ok raw => Some raw | Err _ => None end;
  value ← from_str raw;
  scripts ← get (lit "scripts") value;
  as_object scripts.
Definition has_script (scripts : option Map) (name : str) : bool :=
  match scripts with Some m => bool_decide (is_Some (map_get name m)) | None => false end.
Definition detect_from_package_json (w : Workspace) (f : fs) : DetectedChecks :=
  let scripts := package_scripts w f in
  {| dc_test := Some (lit "npm test");
     dc_build := if has_script scripts (lit "build") then Some (lit "npm run build") else None;
     dc_lint := if has_script scripts (lit "lint") then Some (lit "npm run lint") else None;
     dc_source := Some (lit "package.json") |}.

Definition detect_checks (w : Workspace) (f : fs) : DetectedChecks :=
  if manifest_exists w f (lit "Cargo.toml") then
    {| dc_test := Some (lit "cargo test"); dc_build := Some (lit "cargo build");
       dc_lint := Some (lit "cargo clippy --all-targets -- -D warnings");
       dc_source := Some (lit "Cargo.toml") |}
  else if manifest_exists w f (lit "package.json") then detect_from_package_json w f
  else if manifest_exists w f (lit "pyproject.toml") then
    {| dc_test := Some (lit "pytest"); dc_build := None; dc_lint := Some (lit "ruff check .");
       dc_source := Some (lit "pyproject.toml") |}
  else if manifest_exists w f (lit "setup.py") then
    {| dc_test := Some (lit "pytest"); dc_build := None; dc_lint := None;
       dc_source := Some (lit "setup.py") |}
  else if manifest_exists w f (lit "go.mod") then
    {| dc_test := Some (lit "go test ./..."); dc_build := Some (lit "go build ./...");
       dc_lint := Some (lit "go vet ./..."); dc_source := Some (lit "go.mod") |}
  else if manifest_exists w f (lit "Makefile") then
    {| dc_test := Some (lit "make test"); dc_build := Some (lit "make build");
       dc_lint := Some (lit "make lint"); dc_source := Some (lit "Makefile") |}
  else DetectedChecks_default.
End checks.

(** ** Summaries *)

Record CheckSummary := { passed : N; failed : N }.
Definition CheckSummary_default : CheckSummary := {| passed := 0; failed := 0 |}.

Definition is_punctuation (c : char) : bool := (c =? 59)%N || (c =? 44)%N || (c =? 46)%N.
(** The loop over the windows of two tokens. *)
Fixpoint number_in (keyword : str) (tokens : list str) : option N :=
  match tokens with
  | value :: (next :: _) as rest =>
      let word := trim_end_matches is_punctuation next in
      if bool_decide (word = keyword) then
        match parse_u64 value with
        | Some parsed => Some parsed
        | None => number_in keyword rest
        end
      else number_in keyword rest
  | _ => None
  end.
Definition number_before (text keyword : str) : option N :=
  number_in keyword (split_whitespace text).

Definition cargo_line (acc : bool * CheckSummary) (line : str) : bool * CheckSummary :=
  let '(found, total) := acc in
  match strip_prefix (lit "test result:") (trim line) with
  | None => (found, total)
  | Some rest =>
      (true, {| passed := u64_add (passed total) (default 0%N (number_before rest (lit "passed")));
                failed := u64_add (failed total) (default 0%N (number_before rest (lit "failed"))) |})
  end.
Definition parse_cargo_summary (output : str) : option CheckSummary :=
  let '(found, total) := foldl cargo_line (false, CheckSummary_default) (lines output) in
  if found then Some total else None.

Definition counts (p f : option N) : option CheckSummary :=
  match p, f with
  | None, None => None
  | p, f => Some {| passed := default 0%N p; failed := default 0%N f |}
  end.
Definition node_line (acc : option N * option N) (line : str) : option N * option N :=
  let '(p, f) := acc in
  let trimmed := trim line in
  match strip_prefix (lit "# pass ") trimmed with
  | Some rest => (parse_u64 (trim rest), f)
  | None =>
      match strip_prefix (lit "# fail ") trimmed with
      | Some rest => (p, parse_u64 (trim rest))
      | None => (p, f)
      end
  end.
Definition parse_node_test_summary (output : str) : option CheckSummary :=
  let '(p, f) := foldl node_line (None, None) (lines output) in counts p f.

Definition parse_pytest_summary (output : str) : option CheckSummary :=
  counts (number_before output (lit "passed")) (number_before output (lit "failed")).

Definition go_verbose_line (acc : N * N * bool) (line : str) : N * N * bool :=
  let '(p, f, saw) := acc in
  let trimmed := trim_start line in
  if starts_with (lit "--- PASS:") trimmed then (u64_add p 1, f, true)
  else if starts_with (lit "--- FAIL:") trimmed then (p, u64_add f 1, true)
  else (p, f, saw).
Definition tab : char := 9%N.
Definition go_package_line (acc : N * N) (line : str) : N * N :=
  let '(ok_pkgs, fail_pkgs) := acc in
  let trimmed := trim_start line in
  if starts_with (lit "ok  " ++ [tab]) trimmed || starts_with (lit "ok ") trimmed
  then (u64_add ok_pkgs 1, fail_pkgs)
  else if starts_with (lit "FAIL" ++ [tab]) trimmed || starts_with (lit "FAIL ") trimmed
  then (ok_pkgs, u64_add fail_pkgs 1)
  else (ok_pkgs, fail_pkgs).
Definition parse_go_summary (output : str) : option CheckSummary :=
  let '(p, f, saw_verbose) := foldl go_verbose_line (0%N, 0%N, false) (lines output) in
  if saw_verbose then Some {| passed := p; failed := f |}
  else
    let '(ok_pkgs, fail_pkgs) := foldl go_package_line (0%N, 0%N) (lines output) in
    if (ok_pkgs =? 0)%N && (fail_pkgs =? 0)%N then None
    else Some {| passed := ok_pkgs; failed := fail_pkgs |}.

Definition parse_summary (output : str) : option CheckSummary :=
  match parse_cargo_summary output with
  | Some summary => Some summary
  | None =>
      match parse_node_test_summary output with
      | Some summary => Some summary
      | None =>
          match parse_pytest_summary output with
          | Some summary => Some summary
          | None => parse_go_summary output
          end
      end
  end.

(** ** The tool *)

Definition split_command (command : str) : option (str * list str) :=
  match split_whitespace command with
  | [] => None
  | program :: args => Some (program, args)
  end.

Section tool.
Context `{SerdeJson}.

Definition run_checks_name : str := lit "run_checks".
Definition described (type description : str) : Value :=
  json_object [(lit "type", VString type); (lit "description", VString description)].
Definition run_checks_schema : Value :=
  json_object
    [(lit "type", VString (lit "object"));
     (lit "properties", json_object
        [(lit "check", json_object
            [(lit "type", VString (lit "string"));
             (lit "enum", VArray [VString (lit "test"); VString (lit "build"); VString (lit "lint")]);
             (lit "description", VString (lit "Which check to run (default: test)."))]);
         (lit "command", described (lit "string")
            (lit "Explicit command override; bypasses detection."));
         (lit "path", described (lit "string")
            (lit "Workspace subdirectory to run in (default: .)."));
         (lit "timeout_ms", type_of (lit "integer"));
         (lit "max_output_bytes", type_of (lit "integer"))])].
Definition run_checks_permission_scope (input : Value) : PermissionScope := Shell.

Definition opt_string (o : option str) : Value :=
  match o with Some s => VString s | None => VNull end.
Definition summary_value (o : option CheckSummary) : Value :=
  match o with
  | Some s => json_object [(lit "passed", VNumber (PosInt (passed s)));
                           (lit "failed", VNumber (PosInt (failed s)))]
  | None => VNull
  end.
Definition check_result (check : Check) (command : str) (detected_from : option str)
    (o : CommandOutcome) : ToolResult :=
  let combined := oc_stdout o ++ [newline] ++ oc_stderr o in
  ToolResult_json (json_object
    [(lit "check", VString (check_as_str check)); (lit "command", VString command);
     (lit "detected_from", opt_string detected_from);
     (lit "exit_code", code_value (oc_exit_code o)); (lit "success", VBool (oc_success o));
     (lit "timed_out", VBool (oc_timed_out o)); (lit "stdout", VString (oc_stdout o));
     (lit "stderr", VString (oc_stderr o));
     (lit "truncated", VBool (oc_stdout_truncated o || oc_stderr_truncated o));
     (lit "summary", summary_value (parse_summary combined))]).

(** The command to run: an explicit one that is not blank, or the detected one. *)
Definition choose_command (d : DetectedChecks) (check : Check) (explicit : option str)
    : result HarnessError (str * option str) :=
  let detected :=
    match command_for d check with
    | Some cmd => Ok (cmd, dc_source d)
    | None =>
        Err (ToolFailed run_checks_name
          (lit "no `" ++ check_as_str check ++ lit "` command detected for this workspace" ++
           match dc_source d with
           | Some s => lit " (detected from " ++ s ++ lit ")"
           | None => []
           end ++
           lit "; pass an explicit `command` to run one"))
    end in
  match explicit with
  | Some explicit =>
      if is_empty (trim explicit) then detected else Ok (trim explicit, Some (lit "override"))
  | None => detected
  end.

Definition check_limits (input : Value) : OutputLimits :=
  {| lim_timeout := N.min (optional_u64 input (lit "timeout_ms") CHECKS_DEFAULT_TIMEOUT_MS)
                          CHECKS_MAX_TIMEOUT_MS;
     lim_max_output_bytes :=
       N.to_nat (N.min (optional_usize input (lit "max_output_bytes")
                          CHECKS_DEFAULT_MAX_OUTPUT_BYTES)
                       CHECKS_MAX_OUTPUT_BYTES) |}.

Definition run_checks_execute
    (run : CommandSpec → OutputLimits → result HarnessError CommandOutcome)
    (w : Workspace) (f : fs) (input : Value) : result HarnessError ToolResult :=
  let check_raw := default (lit "test") (optional_string input (lit "check")) in
  let? check := ok_or (InvalidToolInput run_checks_name
      (lit "`check` must be one of test|build|lint (got `" ++ check_raw ++ lit "`)"))
      (check_parse check_raw) in
  let path := default (lit ".") (optional_string input (lit "path")) in
  let? working_dir := ws_resolve_directory w path f in
  let detected := detect_checks w f in
  let? chosen := choose_command detected check (optional_string input (lit "command")) in
  let '(command, detected_from) := chosen in
  let? parts := ok_or (InvalidToolInput run_checks_name
      (lit "resolved command is empty")) (split_command command) in
  let '(program, args) := parts in
  let spec := {| cmd_program := program; cmd_args := args; cmd_cwd := working_dir |} in
  let? outcome := run spec (check_limits input) in
  Ok (check_result check command detected_from outcome).
End tool.

(** ** Reading a summary *)

(** A word followed by a space is a token of its own. *)
Lemma split_whitespace_word w s :
  w ≠ [] → avoids is_whitespace w → split_whitespace (w ++ 32%N :: s) = w :: split_whitespace s.
Proof.
  intros Hne Hw. unfold split_whitespace. rewrite split_by_avoids by done.
  rewrite filter_cons, decide_True; [done|]. by destruct w.
Qed.

Lemma split_whitespace_space s : split_whitespace (32%N :: s) = split_whitespace s.
Proof. unfold split_whitespace. simpl. by rewrite filter_cons, decide_False. Qed.

Lemma trim_end_head p w k x :
  trim_end_matches p w = k → head k = Some x → head w = Some x.
Proof.
  intros Hk Hx. destruct (trim_end_matches_prefix p w) as (a & Ha & _). rewrite Hk in Ha.
  rewrite Ha. by destruct k.
Qed.

Lemma number_in_skip keyword v n rest x :
  head keyword = Some x → head n ≠ Some x →
  number_in keyword (v :: n :: rest) = number_in keyword (n :: rest).
Proof.
  intros Hk Hn. simpl. case_bool_decide as Hw; [|done].
  destruct Hn. by eapply trim_end_head.
Qed.

Lemma number_in_here keyword v n rest x :
  trim_end_matches is_punctuation n = keyword → parse_u64 v = Some x →
  number_in keyword (v :: n :: rest) = Some x.
Proof. intros Hw Hv. simpl. by rewrite bool_decide_eq_true_2, Hv. Qed.

(** A line of [cargo test] that reports [p] tests passed and [f] failed. *)
Definition cargo_report (verdict : str) (p f : N) (tail : str) : str :=
  lit "test result: " ++ verdict ++ lit " " ++ show_N p ++ lit " passed; " ++ show_N f ++
  lit " failed; " ++ tail.

Lemma digit_range c : is_ascii_digit c = true → (48 <= c <= 57)%N.
Proof. unfold is_ascii_digit. rewrite andb_true_iff, !N.leb_le. done. Qed.
Lemma show_N_head n x : (57 < x)%N → head (show_N n) ≠ Some x.
Proof.
  intros Hx Hh. pose proof (show_N_digits n) as Hd. destruct (show_N n) as [|c s]; [done|].
  simpl in *. simplify_eq. apply andb_true_iff in Hd as [Hd%digit_range _]. lia.
Qed.

Lemma cargo_report_tokens verdict p f tail :
  verdict ≠ [] → avoids is_whitespace verdict →
  ∃ rest more, strip_prefix (lit "test result:") (cargo_report verdict p f tail) = Some rest ∧
    split_whitespace rest =
      verdict :: show_N p :: lit "passed;" :: show_N f :: lit "failed;" :: more.
Proof.
  intros Hne Hv. exists (32%N :: verdict ++ 32%N :: show_N p ++ 32%N :: lit "passed;" ++
    32%N :: show_N f ++ 32%N :: lit "failed;" ++ 32%N :: tail), (split_whitespace tail).
  split; [apply (strip_prefix_app (lit "test result:"))|].
  rewrite split_whitespace_space.
  rewrite split_whitespace_word by done.
  rewrite split_whitespace_word by auto using show_N_nonempty, show_N_words.
  rewrite split_whitespace_word by (done || by apply avoids_forallb).
  rewrite split_whitespace_word by auto using show_N_nonempty, show_N_words.
  by rewrite split_whitespace_word by (done || by apply avoids_forallb).
Qed.

(** What a line means to the reader: a report of so many tests, or nothing. *)
Definition line_means (line : str) (report : option (N * N)) : Prop :=
  match report with
  | Some (p, f) => (p < u64_modulus)%N ∧ (f < u64_modulus)%N ∧
      ∃ verdict tail, verdict ≠ [] ∧ avoids is_whitespace verdict ∧
        trim line = cargo_report verdict p f tail
  | None => strip_prefix (lit "test result:") (trim line) = None
  end.

Lemma cargo_line_means acc line report :
  line_means line report →
  cargo_line acc line =
    match report with
    | Some (p, f) => (true, {| passed := u64_add (passed acc.2) p; failed := u64_add (failed acc.2) f |})
    | None => acc
    end.
Proof.
  destruct acc as [found total]. unfold cargo_line. destruct report as [[p f]|]; cbn [line_means snd]; [|by intros ->].
  intros (Hp & Hf & verdict & tail & Hne & Hv & ->).
  destruct (cargo_report_tokens verdict p f tail Hne Hv) as (rest & more & -> & Ht).
  unfold number_before. rewrite Ht. f_equal. f_equal; f_equal.
  - rewrite (number_in_skip _ _ _ _ 112%N) by (done || by apply show_N_head).
    by rewrite (number_in_here _ _ _ _ p) by (done || by apply parse_show_u64).
  - rewrite (number_in_skip _ _ _ _ 102%N) by (done || by apply show_N_head).
    rewrite (number_in_skip _ _ _ _ 102%N) by done.
    rewrite (number_in_skip _ _ _ _ 102%N) by (done || by apply show_N_head).
    by rewrite (number_in_here _ _ _ _ f) by (done || by apply parse_show_u64).
Qed.

Definition sum_wrapping (l : list N) : N := foldl u64_add 0%N l.

Lemma cargo_fold acc ls reports :
  Forall2 line_means ls reports →
  foldl cargo_line acc ls =
    (acc.1 || negb (is_empty (omap id reports)),
     {| passed := foldl u64_add (passed acc.2) (fst <$> omap id reports);
        failed := foldl u64_add (failed acc.2) (snd <$> omap id reports) |}).
Proof.
  intros Hl. revert acc. induction Hl as [|l r ls rs Hlr _ IH]; intros acc.
  - destruct acc as [found []]. simpl. by rewrite orb_false_r.
  - cbn [foldl]. rewrite IH, (cargo_line_means acc l r Hlr).
    destruct r as [[p f]|]; [|done]. simpl. by rewrite orb_true_r.
Qed.

(** Whatever else a test run prints, when its output holds reports of
    [cargo test] the summary is their sum over all of them, modulo 2^64, and the
    shapes of other runners are not looked for. *)
Theorem cargo_summary_sums output reports :
  Forall2 line_means (lines output) reports → omap id reports ≠ [] →
  parse_summary output =
    Some {| passed := sum_wrapping (fst <$> omap id reports);
            failed := sum_wrapping (snd <$> omap id reports) |}.
Proof.
  intros Hl Hne. unfold parse_summary, parse_cargo_summary. rewrite (cargo_fold _ _ reports Hl).
  cbn [fst snd orb CheckSummary_default passed failed].
  destruct (omap id reports) as [|x l] eqn:Ho; [done|]. done.
Qed.

(** ** What runs *)

Section run.
Context `{SerdeJson}.

(** The commands that detection can give. *)
Definition detected_commands : list str :=
  lit <$> ["cargo test"; "cargo build"; "cargo clippy --all-targets -- -D warnings"; "npm test";
           "npm run build"; "npm run lint"; "pytest"; "ruff check ."; "go test ./...";
           "go build ./..."; "go vet ./..."; "make test"; "make build"; "make lint"]%string.

Lemma detected_known w f check cmd :
  command_for (detect_checks w f) check = Some cmd → cmd ∈ detected_commands.
Proof.
  unfold detect_checks, detect_from_package_json, detected_commands. intros Hc.
  repeat match type of Hc with context [if ?b then _ else _] => destruct b end;
    destruct check; cbn [command_for dc_test dc_build dc_lint DetectedChecks_default] in Hc;
    try discriminate Hc; injection Hc as <-; apply list_elem_of_fmap_2;
    repeat first [left|right].
Qed.

(** A detected command has a program. *)
Lemma detected_splits w f check cmd :
  command_for (detect_checks w f) check = Some cmd → ∃ p, split_command cmd = Some p.
Proof.
  intros Hc%detected_known. apply is_Some_alt.
  assert (Hall : Forall (λ c, match split_command c with Some _ => True | None => False end)
    detected_commands) by by repeat constructor.
  rewrite Forall_forall in Hall. apply Hall in Hc. by destruct (split_command cmd).
Qed.

Lemma split_whitespace_nonempty s : trim s ≠ [] → split_whitespace s ≠ [].
Proof.
  intros Hne Hs. destruct (trim_ends (trim s) Hne (trim_trim s)) as (c & Hl & Hw).
  assert (Hc : c ∈ s).
  { apply last_Some_elem_of in Hl. unfold trim, trim_end, trim_start in Hl.
    destruct (trim_end_matches_prefix is_whitespace (trim_start_matches is_whitespace s))
      as (b & Hb & _).
    destruct (trim_start_matches_suffix is_whitespace s) as (a & Ha & _).
    rewrite Ha, Hb. set_solver. }
  clear Hl Hne. unfold split_whitespace in Hs.
  assert (∃ w, w ∈ split_by is_whitespace s ∧ c ∈ w) as (w & Hw1 & Hw2).
  { clear Hs. induction s as [|x s IH]; [by apply not_elem_of_nil in Hc|]. simpl.
    apply elem_of_cons in Hc as [<-|Hc].
    - rewrite Hw. destruct (split_by is_whitespace s) as [|w ws]; eexists; split; left.
    - destruct (IH Hc) as (w & H1 & H2). destruct (is_whitespace x).
      + exists w. split; [by right|done].
      + destruct (split_by is_whitespace s) as [|w' ws]; [by apply not_elem_of_nil in H1|].
        apply elem_of_cons in H1 as [->|H1]; eexists; (split; [|]); [left|by right|by right|done]. }
  assert (Hin : w ∈ filter (λ w, is_empty w = false) (split_by is_whitespace s)).
  { apply list_elem_of_filter. split; [|done]. destruct w; [by apply not_elem_of_nil in Hw2|done]. }
  rewrite Hs in Hin. by apply not_elem_of_nil in Hin.
Qed.

(** The command that is chosen always has a program: the error for an empty
    command cannot occur. *)
Lemma chosen_splits w f check explicit cmd from :
  choose_command (detect_checks w f) check explicit = Ok (cmd, from) →
  ∃ program args, split_command cmd = Some (program, args).
Proof.
  assert (Hdet : ∀ c, command_for (detect_checks w f) check = Some c →
    ∃ program args, split_command c = Some (program, args)).
  { intros c Hc. destruct (detected_splits w f check c Hc) as [[p a] Hp]. exists p, a. exact Hp. }
  unfold choose_command. destruct explicit as [e|].
  - destruct (is_empty (trim e)) eqn:He.
    + destruct (command_for _ _) eqn:Hc; intros [= <- <-]. by apply Hdet.
    + intros [= <- <-]. unfold split_command.
      destruct (split_whitespace (trim e)) as [|p a] eqn:Hs; [|by eauto].
      exfalso. apply (split_whitespace_nonempty (trim e)); [|done]. rewrite trim_trim.
      by destruct (trim e).
  - destruct (command_for _ _) eqn:Hc; intros [= <- <-]. by apply Hdet.
Qed.

(** [run_checks] either refuses without running anything, or makes exactly
    one call of the backend: the words of the explicit command when there is one
    that is not blank and of the command detected for the check otherwise, in a
    directory inside the workspace, for at most half an hour and with at most 256
    KiB of output; success is what the backend reports, whatever the summary
    says. *)
Theorem run_checks_confined (w : Workspace) (f : fs) (input : Value) :
  (∃ e, ∀ run, run_checks_execute run w f input = Err e) ∨
  ∃ check command from spec,
    choose_command (detect_checks w f) check (optional_string input (lit "command")) =
      Ok (command, from) ∧
    split_whitespace command = cmd_program spec :: cmd_args spec ∧
    ws_root w `prefix_of` cmd_cwd spec ∧ path_is_dir f (path_at (cmd_cwd spec)) = true ∧
    (lim_timeout (check_limits input) <= 1800000)%N ∧
    (N.of_nat (lim_max_output_bytes (check_limits input)) <= 262144)%N ∧
    ∀ run, run_checks_execute run w f input =
      match run spec (check_limits input) with
      | Err e => Err e
      | Ok o => Ok (check_result check command from o)
      end.
Proof.
  unfold run_checks_execute.
  set (raw := default (lit "test") _).
  destruct (check_parse raw) as [check|]; [|left; by eexists].
  cbn [ok_or result_bind].
  set (path := default (lit ".") _).
  destruct (ws_resolve_directory w path f) as [dir|e] eqn:Hd; [|left; by exists e].
  cbn [result_bind].
  destruct (choose_command _ _ _) as [[command from]|e] eqn:Hc; [|left; by exists e].
  cbn [result_bind]. destruct (chosen_splits w f check _ _ _ Hc) as (program & args & Hs).
  rewrite Hs. cbn [ok_or result_bind]. right.
  destruct (resolve_directory_inside w path f dir Hd) as [H1 H2].
  exists check, command, from, {| cmd_program := program; cmd_args := args; cmd_cwd := dir |}.
  split; [done|]. unfold split_command in Hs. destruct (split_whitespace command); [done|].
  injection Hs as -> ->. split; [done|]. split; [exact H1|]. split; [exact H2|]. unfold check_limits.
  cbn [lim_timeout lim_max_output_bytes]. split; [apply N.le_min_r|].
  split; [rewrite N2Nat.id; apply N.le_min_r|]. intros run. by destruct (run _ _).
Qed.

(** A [package.json] without a [build] script has no build command, whatever its
    other scripts: asking for one is an error. *)
Theorem package_json_no_fallback (w : Workspace) (f : fs) (input : Value) run dir :
  manifest_exists w f (lit "Cargo.toml") = false →
  manifest_exists w f (lit "package.json") = true →
  has_script (package_scripts w f) (lit "build") = false →
  optional_string input (lit "check") = Some (lit "build") →
  optional_string input (lit "command") = None →
  ws_resolve_directory w (default (lit ".") (optional_string input (lit "path"))) f = Ok dir →
  ∃ message, run_checks_execute run w f input = Err (ToolFailed run_checks_name message).
Proof.
  intros H1 H2 H3 H4 H5 H6. unfold run_checks_execute. rewrite H4, H5, H6.
  cbn [default ok_or]. unfold detect_checks, detect_from_package_json. rewrite H1, H2, H3.
  by eexists.
Qed.
End run.

Definition demo_test_output : str :=
  lit "running 3 tests" ++ [newline] ++ lit "test result: ok. 2 passed; 1 failed; 0 ignored" ++
  [newline] ++ lit "  test result: FAILED. 40 passed; 2 failed; 0 ignored" ++ [newline].
Lemma cargo_summary_sums_witness :
  parse_summary demo_test_output = Some {| passed := 42; failed := 3 |}.
Proof.
  rewrite (cargo_summary_sums demo_test_output [None; Some (2, 1)%N; Some (40, 2)%N]).
  - reflexivity.
  - change (lines demo_test_output) with
      [lit "running 3 tests"; lit "test result: ok. 2 passed; 1 failed; 0 ignored";
       lit "  test result: FAILED. 40 passed; 2 failed; 0 ignored"].
    constructor; [reflexivity|]. constructor.
    + split; [reflexivity|]. split; [reflexivity|].
      exists (lit "ok."), (lit "0 ignored"). split; [discriminate|].
      split; [by apply avoids_forallb|reflexivity].
    + constructor; [|constructor]. split; [reflexivity|]. split; [reflexivity|].
      exists (lit "FAILED."), (lit "0 ignored"). split; [discriminate|].
      split; [by apply avoids_forallb|reflexivity].
  - discriminate.
Defined.

(** Other runners. *)
Example other_summaries :
  parse_summary (lit "# tests 6" ++ [newline] ++ lit "# pass 5" ++ [newline] ++ lit "# fail 1") =
    Some {| passed := 5; failed := 1 |} ∧
  parse_summary (lit "=== 3 passed, 1 failed in 0.02s ===") = Some {| passed := 3; failed := 1 |} ∧
  parse_summary (lit "--- PASS: TestA (0.00s)" ++ [newline] ++ lit "--- FAIL: TestB (0.00s)") =
    Some {| passed := 1; failed := 1 |} ∧
  parse_summary (lit "ok   example/pkg 0.1s") = Some {| passed := 1; failed := 0 |} ∧
  parse_summary (lit "nothing to see") = None.
Proof. repeat split; vm_compute; reflexivity. Qed.
