(* ===== verification/Notes.v ===== *)
(** * Curated notes ([codel00p-harness/src/curated_memory.rs])

    The two small files of an agent's home that are in every prompt, the operations
    that edit them within their caps, the block they make and the [note] tool.  The
    rendering [debug] of a string in an error message ([{:?}]) is a parameter. *)

From stdpp Require Import base numbers strings gmap list.
From S2P Require Import Prelude RustStr Utf8 Json Harness ToolInput SelfCorrect ToolRegistry Patch FileSystem Workspace FileTools.

Definition NOTES_FILE : str := lit "NOTES.md".
Definition USER_FILE : str := lit "USER.md".
Definition NOTES_CHAR_CAP : nat := 2000.
Definition USER_CHAR_CAP : nat := 1200.

Inductive NoteTarget := NoteAgent | NoteUser.
#[export] Instance NoteTarget_eq_dec : EqDecision NoteTarget.
Proof. solve_decision. Defined.
Definition file_name (t : NoteTarget) : str :=
  match t with NoteAgent => NOTES_FILE | NoteUser => USER_FILE end.
Definition char_cap (t : NoteTarget) : nat :=
  match t with NoteAgent => NOTES_CHAR_CAP | NoteUser => USER_CHAR_CAP end.

(** The files of the home, by their bytes; [None]: missing, or not to be read. *)
Record home := { notes_md : option (list byte); user_md : option (list byte) }.
Definition home_file (t : NoteTarget) (h : home) : option (list byte) :=
  match t with NoteAgent => notes_md h | NoteUser => user_md h end.
Definition set_home_file (t : NoteTarget) (bytes : list byte) (h : home) : home :=
  match t with
  | NoteAgent => {| notes_md := Some bytes; user_md := user_md h |}
  | NoteUser => {| notes_md := notes_md h; user_md := Some bytes |}
  end.
(** What the system does with a write: it succeeds, or it fails with an error text,
    before the file was opened or after it was (and so emptied), with the first
    [written] bytes in it. *)
Inductive write_fault := NoFault | DirFault (text : str) | WriteFault (text : str) (written : nat).

Definition read_note_file (h : home) (t : NoteTarget) : str :=
  default [] (trim <$> (home_file t h ≫= from_utf8)).

Definition block_header : str :=
  lit "# Curated memory (what I durably know)" ++ [newline] ++
  lit "My capped, always-in-context notes. Keep them accurate and consolidated; curate with the `note` tool."
  ++ [newline].
Definition notes_heading : str := [newline] ++ lit "## Notes (env, conventions, lessons)" ++ [newline].
Definition user_heading : str := [newline] ++ lit "## About the user" ++ [newline].
Definition assemble_block (h : home) : option str :=
  let notes := read_note_file h NoteAgent in
  let user := read_note_file h NoteUser in
  if is_empty notes && is_empty user then None
  else Some (block_header
    ++ (if is_empty notes then [] else notes_heading ++ notes ++ [newline])
    ++ (if is_empty user then [] else user_heading ++ user ++ [newline])).

Definition over_cap (t : NoteTarget) (len : nat) : str :=
  file_name t ++ lit " would be " ++ show_N (N.of_nat len) ++ lit " chars, over the "
  ++ show_N (N.of_nat (char_cap t)) ++
  lit "-char cap. Consolidate existing notes (replace/remove redundant lines) before adding more "
  ++ [dash] ++ lit " this layer is intentionally small because it is in context every turn.".

Section notes.
Context (debug : str → str).

Definition NoteTarget_parse (value : option str) : result str NoteTarget :=
  match value with
  | None => Ok NoteAgent
  | Some v =>
      if decide (v = lit "agent" ∨ v = lit "notes") then Ok NoteAgent
      else if decide (v = lit "user") then Ok NoteUser
      else Err (lit "unknown target " ++ debug v ++ lit ": use " ++ [quote] ++ lit "agent" ++ [quote]
                ++ lit " (NOTES.md) or " ++ [quote] ++ lit "user" ++ [quote] ++ lit " (USER.md)")
  end.

Definition write_capped (fault : write_fault) (t : NoteTarget) (contents : str) : st home str str := λ h,
  let len := length contents in
  if char_cap t <? len then (Err (over_cap t len), h)
  else match fault with
       | DirFault text => (Err text, h)
       | WriteFault text written =>
           (Err text, set_home_file t (take written (utf8 (contents ++ [newline]))) h)
       | NoFault => (Ok contents, set_home_file t (utf8 (contents ++ [newline])) h)
       end.

Definition append_note (fault : write_fault) (t : NoteTarget) (text : str) : st home str str := λ h,
  let addition := trim text in
  if is_empty addition then (Err (lit "note text is empty"), h)
  else
    let current := read_note_file h t in
    let next := if is_empty current then addition else current ++ [newline] ++ addition in
    write_capped fault t next h.

(** [current.replacen(find, replacement, 1)] *)
Definition replace_first (find replacement current : str) : str :=
  match split_once_str find current with
  | Some (before, after) => before ++ replacement ++ after
  | None => current
  end.
Definition no_match (find : str) (t : NoteTarget) (what : str) : str :=
  lit "no match for " ++ debug find ++ lit " in " ++ file_name t ++ lit " " ++ [dash]
  ++ lit " nothing " ++ what.
Definition empty_find : str := lit "`find` text is empty".

Definition replace_note (fault : write_fault) (t : NoteTarget) (find replacement : str)
    : st home str str := λ h,
  if is_empty find then (Err empty_find, h)
  else
    let current := read_note_file h t in
    if negb (contains find current) then (Err (no_match find t (lit "replaced")), h)
    else write_capped fault t (trim (replace_first find replacement current)) h.

Definition compact (s : str) : str :=
  join [newline] (List.filter (λ line, negb (is_empty (trim line))) (lines s)).
Definition remove_note (fault : write_fault) (t : NoteTarget) (find : str) : st home str str := λ h,
  if is_empty find then (Err empty_find, h)
  else
    let current := read_note_file h t in
    if negb (contains find current) then (Err (no_match find t (lit "removed")), h)
    else write_capped fault t (trim (compact (replace_first find [] current))) h.

(** ** The [note] tool *)

Definition note_name : str := lit "note".
Definition note_invalid (message : str) : HarnessError := InvalidToolInput note_name message.
Definition note_required (field action : str) : str :=
  lit "`" ++ field ++ lit "` is required for action=" ++ action.
Definition note_schema `{SerdeJson} : Value :=
  let field d := json_object [(lit "type", VString (lit "string")); (lit "description", VString d)] in
  json_object
    [(lit "type", VString (lit "object"));
     (lit "properties", json_object
       [(lit "action", json_object [(lit "type", VString (lit "string"));
          (lit "enum", VArray (VString <$> [lit "add"; lit "replace"; lit "remove"]))]);
        (lit "text", field (lit "Text to append (action=add)."));
        (lit "find", field (lit "Substring to match (action=replace/remove)."));
        (lit "replacement", field (lit "Replacement text (action=replace)."));
        (lit "target", json_object [(lit "type", VString (lit "string"));
          (lit "enum", VArray (VString <$> [lit "agent"; lit "user"]));
          (lit "description", VString (lit "Which file: " ++ [quote] ++ lit "agent" ++ [quote]
             ++ lit " (NOTES.md, default) or " ++ [quote] ++ lit "user" ++ [quote]
             ++ lit " (USER.md)."))])]);
     (lit "required", VArray [VString (lit "action")])].
Definition note_permission_scope (input : Value) : PermissionScope := MemoryWrite.

Definition lift_note {A} (r : result HarnessError A) : st home HarnessError A := st_lift r.
Definition note_failed {A} (m : st home str A) : st home HarnessError A := λ h,
  let '(r, h) := m h in (map_err (ToolFailed note_name) r, h).
Definition note_execute `{SerdeJson} (fault : write_fault) (input : Value)
    : st home HarnessError ToolResult :=
  let! action := lift_note (ok_or (note_invalid (lit "`action` is required"))
                              (get_str (lit "action") input)) in
  let! target := lift_note (map_err note_invalid (NoteTarget_parse (get_str (lit "target") input))) in
  let! contents :=
    if decide (action = lit "add") then
      let! text := lift_note (ok_or (note_invalid (note_required (lit "text") action))
                                (get_str (lit "text") input)) in
      note_failed (append_note fault target text)
    else if decide (action = lit "replace") then
      let! find := lift_note (ok_or (note_invalid (note_required (lit "find") action))
                                (get_str (lit "find") input)) in
      let! replacement := lift_note (ok_or (note_invalid (note_required (lit "replacement") action))
                                       (get_str (lit "replacement") input)) in
      note_failed (replace_note fault target find replacement)
    else if decide (action = lit "remove") then
      let! find := lift_note (ok_or (note_invalid (note_required (lit "find") action))
                                (get_str (lit "find") input)) in
      note_failed (remove_note fault target find)
    else st_err (note_invalid (lit "unknown action " ++ debug action ++ lit ": use " ++ [quote]
      ++ lit "add" ++ [quote] ++ lit ", " ++ [quote] ++ lit "replace" ++ [quote] ++ lit ", or "
      ++ [quote] ++ lit "remove" ++ [quote])) in
  st_ret (ToolResult_json (json_object
    [(lit "file", VString (file_name target)); (lit "action", VString action);
     (lit "chars", size_value (length contents)); (lit "cap", size_value (char_cap target));
     (lit "contents", VString contents)])).

(** ** Lemmas *)

Lemma trim_sublist s : trim s `sublist_of` s.
Proof.
  unfold trim, trim_end.
  destruct (trim_end_matches_prefix is_whitespace (trim_start s)) as (b & Hb & _).
  destruct (trim_start_matches_suffix is_whitespace s) as (a & Ha & _).
  fold (trim_start s) in Ha. rewrite Ha at 2. apply sublist_inserts_l. rewrite Hb at 2.
  by apply sublist_inserts_r.
Qed.
Lemma trim_newline s : trim s = s → trim (s ++ [newline]) = s.
Proof.
  intros Hs. destruct s as [|c s]; [reflexivity|].
  assert (is_whitespace c = false) as Hc by by apply (trim_head (c :: s)).
  unfold trim. rewrite <- app_comm_cons, trim_start_cons by done.
  rewrite app_comm_cons. unfold trim_end, trim_end_matches. rewrite reverse_snoc.
  change (trim_start_matches is_whitespace (newline :: reverse (c :: s)))
    with (trim_start_matches is_whitespace (reverse (c :: s))).
  transitivity (trim_end (c :: s)); [done|].
  unfold trim in Hs. by rewrite (trim_start_cons c s Hc) in Hs.
Qed.
Lemma trim_lines a b : a ≠ [] → b ≠ [] → trim a = a → trim b = b → trim (a ++ [newline] ++ b) = a ++ [newline] ++ b.
Proof.
  intros Ha Hb Ta Tb. apply trim_id; intros c Hc.
  - destruct a as [|x a]; [done|]. by apply (trim_head (x :: a)).
  - rewrite app_assoc, last_app in Hc. destruct (last b) as [y|] eqn:E;
      [|by apply last_None in E]. apply (trim_last b); [done|]. congruence.
Qed.

Lemma scalars_trim s : scalars s → scalars (trim s).
Proof.
  rewrite !Forall_forall. intros Hs c Hc. apply Hs. by eapply elem_of_sublist, trim_sublist.
Qed.
Lemma lossy_utf8_app s rest : scalars s → from_utf8_lossy (utf8 s ++ rest) = s ++ from_utf8_lossy rest.
Proof.
  unfold utf8. induction 1 as [|c s Hc Hs IH]; [done|]. cbn [fmap list_fmap concat].
  rewrite <- app_assoc, decode_encode by done. by rewrite IH.
Qed.
Lemma partial_write_prefix n contents s :
  from_utf8 (take n (utf8 contents)) = Some s → scalars contents → s `prefix_of` contents.
Proof.
  intros Hs Hc. destruct (from_utf8_scalars _ _ Hs) as [Hss Hu].
  rewrite <- (lossy_utf8 contents Hc), <- (take_drop n (utf8 contents)), <- Hu, lossy_utf8_app by done.
  by eexists.
Qed.
Lemma length_trim s : length (trim s) ≤ length s.
Proof. apply sublist_length, trim_sublist. Qed.

Lemma read_scalars h t : scalars (read_note_file h t).
Proof.
  unfold read_note_file. destruct (home_file t h ≫= from_utf8) as [s|] eqn:E; cbn; [|done].
  destruct (home_file t h) as [bs|]; [|done]. cbn in E. apply from_utf8_scalars in E as [E _].
  by apply scalars_trim.
Qed.
Lemma read_trimmed h t : trim (read_note_file h t) = read_note_file h t.
Proof. unfold read_note_file. destruct (_ ≫= _); cbn; [apply trim_trim|done]. Qed.

Lemma scalars_elem (s : str) : scalars s ↔ ∀ c, c ∈ s → is_scalar c = true.
Proof. apply Forall_forall. Qed.
Lemma elem_of_join_lines (c : char) (ls : list str) :
  c ∈ join [newline] ls → c = newline ∨ ∃ l, l ∈ ls ∧ c ∈ l.
Proof.
  induction ls as [|x ls IH]; [by intros ?%elem_of_nil|]. destruct ls as [|y ls].
  - intros Hc. right. exists x. split; [by apply elem_of_cons; left|done].
  - change (join [newline] (x :: y :: ls)) with (x ++ [newline] ++ join [newline] (y :: ls)).
    rewrite !elem_of_app. intros [Hc|[Hc|Hc]].
    + right. exists x. split; [by apply elem_of_cons; left|done].
    + left. by apply list_elem_of_singleton in Hc.
    + destruct (IH Hc) as [->|(l & Hl & Hc')]; [by left|]. right. exists l.
      split; [by apply elem_of_cons; right|done].
Qed.
Lemma elem_of_lines (c : char) s l : l ∈ lines s → c ∈ l → c ∈ s.
Proof.
  intros Hl Hc. apply list_elem_of_fmap in Hl as (x & -> & Hx).
  destruct (line_body_prefix x) as [eol Heol].
  rewrite <- (split_inclusive_nl_concat s). apply elem_of_concat. exists x. split; [done|].
  rewrite Heol. apply elem_of_app. by left.
Qed.
Lemma scalars_compact s : scalars s → scalars (compact s).
Proof.
  rewrite !scalars_elem. intros Hs c [->|(l & Hl & Hc)]%elem_of_join_lines; [reflexivity|].
  apply Hs. apply elem_of_list_filter_bool in Hl as [Hl1 Hl2]. by eapply elem_of_lines.
Qed.

(** The effect of a write that passes the cap. *)
Lemma write_capped_spec fault t contents h :
  scalars contents → trim contents = contents →
  let '(r, h') := write_capped fault t contents h in
  (∀ t', t' ≠ t → home_file t' h' = home_file t' h) ∧
  (length (read_note_file h t) ≤ char_cap t → length (read_note_file h' t) ≤ char_cap t) ∧
  match r with
  | Ok c => c = contents ∧ fault = NoFault ∧ read_note_file h' t = contents ∧ length contents ≤ char_cap t
  | Err _ => (∀ text n, fault ≠ WriteFault text n) → h' = h
  end.
Proof.
  intros Hs Ht. unfold write_capped. destruct (Nat.ltb_spec (char_cap t) (length contents)) as [?|Hle];
    [done|].
  assert (∀ bytes t', t' ≠ t → home_file t' (set_home_file t bytes h) = home_file t' h) as Hother
    by (intros bytes [] H; by destruct t).
  assert (∀ bytes, home_file t (set_home_file t bytes h) = Some bytes) as Hsame
    by (intros bytes; by destruct t).
  assert (scalars (contents ++ [newline])) as Hsn by (apply Forall_app; split; [done|by apply Forall_singleton]).
  destruct fault as [|text|text n].
  - assert (read_note_file (set_home_file t (utf8 (contents ++ [newline])) h) t = contents) as Hr.
    { unfold read_note_file. rewrite Hsame. cbn. rewrite from_utf8_utf8 by done. cbn.
      by apply trim_newline. }
    rewrite Hr. split; [apply Hother|]. by split.
  - done.
  - split; [apply Hother|]. split; [|intros H; by destruct (H text n)]. intros _.
    unfold read_note_file. rewrite Hsame. cbn.
    destruct (from_utf8 _) as [s0|] eqn:E; cbn; [|lia].
    destruct (partial_write_prefix _ _ _ E Hsn) as [rest Hrest].
    destruct rest as [|x rest _] using rev_ind.
    + rewrite app_nil_r in Hrest. rewrite <- Hrest, trim_newline by done. exact Hle.
    + rewrite app_assoc in Hrest. apply app_inj_tail in Hrest as [Hrest _].
      pose proof (length_trim s0). rewrite Hrest, length_app in Hle. lia.
Qed.

(** ** Theorems *)

Inductive note_op :=
| NoteAdd (text : str)
| NoteReplace (find replacement : str)
| NoteRemove (find : str).
Definition run_note (fault : write_fault) (t : NoteTarget) (op : note_op) : st home str str :=
  match op with
  | NoteAdd text => append_note fault t text
  | NoteReplace find replacement => replace_note fault t find replacement
  | NoteRemove find => remove_note fault t find
  end.
Definition op_scalars (op : note_op) : Prop :=
  match op with NoteReplace _ replacement => scalars replacement | NoteAdd text => scalars text | _ => True end.
(** What a note is to hold after an operation. *)
Definition note_result (op : note_op) (current contents : str) : Prop :=
  match op with
  | NoteAdd text => contents = if is_empty current then trim text else current ++ [newline] ++ trim text
  | NoteReplace find replacement =>
      ∃ before after, split_once_str find current = Some (before, after) ∧
        current = before ++ find ++ after ∧ contents = trim (before ++ replacement ++ after)
  | NoteRemove find =>
      ∃ before after, split_once_str find current = Some (before, after) ∧
        current = before ++ find ++ after ∧ contents = trim (compact (before ++ after))
  end.

(** Every operation changes nothing, or writes what it should. *)
Lemma run_note_writes fault t op h : op_scalars op →
  (∃ e, run_note fault t op h = (Err e, h)) ∨
  ∃ contents, run_note fault t op h = write_capped fault t contents h ∧
    scalars contents ∧ trim contents = contents ∧ note_result op (read_note_file h t) contents.
Proof.
  pose proof (read_scalars h t) as Hcur. pose proof (read_trimmed h t) as Htrim.
  destruct op as [text|find replacement|find]; cbn [run_note op_scalars note_result]; intros Hop.
  - unfold append_note. destruct (is_empty (trim text)) eqn:Et; [left; by eexists|].
    right. eexists. split; [reflexivity|]. split; [|split; [|reflexivity]];
      destruct (is_empty (read_note_file h t)) eqn:Ec.
    + by apply scalars_trim.
    + apply Forall_app. split; [done|]. constructor; [done|]. by apply scalars_trim.
    + apply trim_trim.
    + apply trim_lines; [| |done|apply trim_trim]; intros E; [by rewrite E in Ec|by rewrite E in Et].
  - unfold replace_note. destruct (is_empty find); [left; by eexists|].
    destruct (contains find (read_note_file h t)) eqn:Ec; cbn [negb]; [|left; by eexists].
    right. eexists. split; [reflexivity|]. unfold replace_first.
    destruct (split_once_str find (read_note_file h t)) as [[a b]|] eqn:Es;
      [|apply split_once_str_None in Es; congruence].
    pose proof (split_once_str_Some _ _ _ _ Es) as Hsplit.
    rewrite Hsplit in Hcur. apply Forall_app in Hcur as [Ha [_ Hb]%Forall_app].
    split; [|split; [apply trim_trim|by exists a, b]].
    apply scalars_trim. apply Forall_app. split; [done|]. by apply Forall_app.
  - unfold remove_note. destruct (is_empty find); [left; by eexists|].
    destruct (contains find (read_note_file h t)) eqn:Ec; cbn [negb]; [|left; by eexists].
    right. eexists. split; [reflexivity|]. unfold replace_first.
    destruct (split_once_str find (read_note_file h t)) as [[a b]|] eqn:Es;
      [|apply split_once_str_None in Es; congruence].
    pose proof (split_once_str_Some _ _ _ _ Es) as Hsplit.
    rewrite Hsplit in Hcur. apply Forall_app in Hcur as [Ha [_ Hb]%Forall_app].
    split; [|split; [apply trim_trim|by exists a, b]].
    apply scalars_trim, scalars_compact, Forall_app. by split.
Qed.

(** Adding, replacing and removing do what they say or nothing: on success the
    note reads as the old text with the addition on a line of its own, the first match
    replaced, or the first match gone and the text compacted, and it is within the cap;
    on an error, other than a write that broke off half way, both files are as before;
    the other note is never touched. *)
Theorem note_ops_exact (fault : write_fault) (t : NoteTarget) (op : note_op) (h : home)
    (Hscalars : op_scalars op) :
  let '(r, h') := run_note fault t op h in
  (∀ t', t' ≠ t → home_file t' h' = home_file t' h) ∧
  match r with
  | Ok contents => note_result op (read_note_file h t) contents ∧
      read_note_file h' t = contents ∧ length contents ≤ char_cap t
  | Err _ => (∀ text n, fault ≠ WriteFault text n) → h' = h
  end.
Proof.
  destruct (run_note_writes fault t op h Hscalars) as [[e ->]|(contents & -> & Hs & Ht & Hr)]; [done|].
  pose proof (write_capped_spec fault t contents h Hs Ht) as Hw.
  destruct (write_capped fault t contents h) as [[c|e] h']; [|naive_solver].
  destruct Hw as (? & _ & -> & _ & ? & ?). done.
Qed.

Fixpoint run_notes (ops : list (write_fault * NoteTarget * note_op)) (h : home) : home :=
  match ops with
  | [] => h
  | (fault, t, op) :: ops => run_notes ops (run_note fault t op h).2
  end.

Lemma run_notes_capped ops h :
  Forall (λ x, op_scalars x.2) ops → (∀ t, length (read_note_file h t) ≤ char_cap t) →
  ∀ t, length (read_note_file (run_notes ops h) t) ≤ char_cap t.
Proof.
  intros Hops. revert h. induction Hops as [|[[fault t0] op] ops Hop _ IH]; intros h Hh; [done|].
  cbn [run_notes]. apply IH. intros t. cbn in Hop.
  destruct (run_note_writes fault t0 op h Hop) as [[e ->]|(contents & -> & Hs & Ht & _)]; [apply Hh|].
  pose proof (write_capped_spec fault t0 contents h Hs Ht) as Hw.
  destruct (write_capped fault t0 contents h) as [r h']. destruct Hw as (Hother & Hcap & _). cbn.
  destruct (decide (t = t0)) as [->|Hne]; [by apply Hcap|].
  unfold read_note_file. rewrite Hother by done. apply Hh.
Qed.

(** The block that is paid for in every turn stays bounded: after any sequence of
    operations on an empty home, failed writes included, each note reads within its cap
    and the block has at most 3,400 characters. *)
Theorem notes_block_bounded (ops : list (write_fault * NoteTarget * note_op))
    (Hops : Forall (λ x, op_scalars x.2) ops) :
  let h := run_notes ops {| notes_md := None; user_md := None |} in
  (∀ t, length (read_note_file h t) ≤ char_cap t) ∧
  ∀ block, assemble_block h = Some block → length block ≤ 3400.
Proof.
  intros h. assert (∀ t, length (read_note_file h t) ≤ char_cap t) as Hcap.
  { apply run_notes_capped; [done|]. intros []; cbn; lia. }
  split; [done|]. intros block. unfold assemble_block.
  pose proof (Hcap NoteAgent) as H1. pose proof (Hcap NoteUser) as H2.
  change (char_cap NoteAgent) with 2000 in H1. change (char_cap NoteUser) with 1200 in H2.
  revert H1 H2. generalize (read_note_file h NoteAgent), (read_note_file h NoteUser).
  intros a b H1 H2. assert (length block_header = 141) as E1 by reflexivity.
  assert (length notes_heading = 38) as E2 by reflexivity.
  assert (length user_heading = 19) as E3 by reflexivity.
  destruct (is_empty a), (is_empty b); cbn [andb]; [done|..]; intros Hb%(inj Some);
    rewrite <- Hb, !length_app, ?E1, ?E2, ?E3; cbn [length]; lia.
Qed.
End notes.

Definition demo_home : home :=
  {| notes_md := Some (utf8 (lit "use pnpm" ++ [newline; newline] ++ lit "tests: cargo nextest" ++ [newline]));
     user_md := None |}.
Lemma note_ops_exact_witness :
  let '(r, h') := run_note id NoFault NoteAgent (NoteAdd (lit "CI runs on push")) demo_home in
  home_file NoteUser h' = home_file NoteUser demo_home ∧ is_ok r = true.
Proof.
  assert (op_scalars (NoteAdd (lit "CI runs on push"))) as Hs by by apply forallb_Forall.
  pose proof (note_ops_exact id NoFault NoteAgent (NoteAdd (lit "CI runs on push")) demo_home Hs) as H.
  destruct (run_note id NoFault NoteAgent (NoteAdd (lit "CI runs on push")) demo_home) as [r h'] eqn:E.
  destruct H as [H _]. split; [exact (H NoteUser ltac:(discriminate))|].
  destruct r; [reflexivity|]. vm_compute in E. discriminate E.
Defined.
Lemma notes_block_bounded_witness :
  let h := run_notes id [(NoFault, NoteAgent, NoteAdd (lit "use pnpm")); (DirFault [], NoteUser, NoteAdd (lit "terse"));
                         (NoFault, NoteAgent, NoteRemove (lit "pnpm"))]
             {| notes_md := None; user_md := None |} in
  read_note_file h NoteAgent = lit "use" ∧ length (read_note_file h NoteAgent) ≤ char_cap NoteAgent.
Proof.
  intros h. split; [by vm_compute|].
  refine (proj1 (notes_block_bounded id [(NoFault, NoteAgent, NoteAdd (lit "use pnpm"));
    (DirFault [], NoteUser, NoteAdd (lit "terse")); (NoFault, NoteAgent, NoteRemove (lit "pnpm"))] _)
    NoteAgent).
  repeat constructor; by apply forallb_Forall.
Defined.

(** Removing a match takes every blank line of the note with it, not only one the
    match leaves behind. *)
Theorem remove_drops_other_blank_lines :
  read_note_file demo_home NoteAgent = lit "use pnpm" ++ [newline; newline] ++ lit "tests: cargo nextest" ∧
  (remove_note id NoFault NoteAgent (lit "cargo ") demo_home).1
    = Ok (lit "use pnpm" ++ [newline] ++ lit "tests: nextest").
Proof. split; by vm_compute. Qed.

(** A note that is not UTF-8 reads as empty, and adding to it overwrites it. *)
Theorem add_overwrites_unreadable :
  let h := {| notes_md := Some (utf8 (lit "caf") ++ [233; 10]%N); user_md := None |} in
  read_note_file h NoteAgent = [] ∧
  append_note NoFault NoteAgent (lit "x") h
    = (Ok (lit "x"), {| notes_md := Some (utf8 (lit "x" ++ [newline])); user_md := None |}).
Proof. split; by vm_compute. Qed.
