(* ===== verification/CleanTree.v ===== *)
(** * Trees without links

    Below a root with no symbolic links a path names one entry: itself.  Creating
    directories adds directories; moving a tree exchanges names. *)

From stdpp Require Import base numbers strings gmap list.
From S2P Require Import Prelude RustStr Utf8 Json Harness FileSystem Workspace.

Section tree.
Context (root : ppath).

Record clean (f : fs) : Prop := {
  cl_ok : fs_ok root f;
  cl_links : ∀ q t, root `prefix_of` q → f !! q ≠ Some (NLink t);
}.

Abbreviation segs_of p := (SNormal <$> p).

(** No link is met on the way to an entry below the root. *)
Lemma clean_above f q k t : clean f → root `prefix_of` q → f !! take k q ≠ Some (NLink t).
Proof.
  intros [Hok Hl] [r ->]. destruct (decide (k ≤ length root)) as [Hk|Hk].
  - rewrite take_app_le by done. by rewrite (fs_root _ _ Hok k Hk).
  - apply Hl. rewrite take_app_ge by lia. by eexists.
Qed.
Lemma resolve_unlinked f links names cur p l :
  (∀ k t, f !! (cur ++ take k names) ≠ Some (NLink t)) →
  resolve_segs f links (segs_of names) cur = FoundAt p l → p = cur ++ names.
Proof.
  revert cur. induction names as [|n names IH]; intros cur Hl.
  { rewrite resolve_nil, app_nil_r. by intros [= -> _]. }
  change (segs_of (n :: names)) with (SNormal n :: segs_of names). rewrite resolve_normal.
  destruct (is_dir_node _); [|done].
  pose proof (λ t, Hl 1 t) as H1. change (take 1 (n :: names)) with (n :: take 0 names) in H1. rewrite take_0 in H1.
  assert (∀ k t, f !! ((cur ++ [n]) ++ take k names) ≠ Some (NLink t)) as Hl'.
  { intros k t. rewrite <- app_assoc. apply (Hl (S k)). }
  destruct (f !! (cur ++ [n])) as [[b| |t]|]; [| |by destruct (H1 t)|by destruct names];
    (intros ->%IH; [by rewrite <- app_assoc|done]).
Qed.

Lemma clean_root f : clean f → f !! [] = Some NDir.
Proof. intros [Hok _]. apply (fs_root _ _ Hok 0). lia. Qed.
Lemma clean_canonical f q p : clean f → root `prefix_of` q → canonicalize_path f (path_at q) = Ok p → p = q.
Proof.
  intros Hc Hq [l Hl]%canonicalize_found. cbn [p_segs path_at] in Hl.
  eapply (resolve_unlinked f MAX_LINKS q []); [|exact Hl]. intros k t. by apply clean_above.
Qed.
Lemma clean_is_file f q : clean f → root `prefix_of` q →
  path_is_file f (path_at q) = match f !! q with Some (NFile _) => true | _ => false end.
Proof.
  intros Hc Hq. unfold path_is_file. destruct (f !! q) as [[b| |t]|] eqn:Eq.
  - rewrite (canonicalize_physical f q b); [by rewrite Eq|apply Hc|by apply clean_root|done].
  - destruct (canonicalize_path _ _) as [p|] eqn:Ec; [|done]. by rewrite (clean_canonical f q p), Eq.
  - by destruct (cl_links f Hc q t).
  - destruct (canonicalize_path _ _) as [p|] eqn:Ec; [|done]. by rewrite (clean_canonical f q p), Eq.
Qed.
Lemma clean_dirs_above f q x k :
  clean f → f !! q = Some x → k < length q → f !! take k q = Some NDir.
Proof.
  intros Hc Hq Hk. apply (dirs_above f _ (drop k q) x (fs_parents _ _ (cl_ok _ Hc))).
  - intros Hd%(f_equal length). rewrite length_drop in Hd. cbn in Hd. lia.
  - by rewrite take_drop.
Qed.
Lemma clean_resolve_dir f q : clean f → f !! q = Some NDir → ∀ l, resolve_segs f l (segs_of q) [] = FoundAt q l.
Proof.
  intros Hc Hq l. apply (resolve_dirs f l q []). intros k Hk. cbn [app].
  destruct (decide (k = length q)) as [->|]; [by rewrite take_ge|]. eapply clean_dirs_above; [done|done|lia].
Qed.
Lemma clean_exists f q : clean f → root `prefix_of` q → path_exists f (path_at q) = bool_decide (is_Some (f !! q)).
Proof.
  intros Hc Hq. unfold path_exists. destruct (f !! q) as [[b| |t]|] eqn:Eq.
  - by rewrite (canonicalize_physical f q b); [|apply Hc|apply clean_root|].
  - unfold canonicalize_path, lookup_path. cbn [p_segs path_at p_slash]. by rewrite clean_resolve_dir.
  - by destruct (cl_links f Hc q t).
  - destruct (canonicalize_path _ _) as [p|] eqn:Ec; [|done]. exfalso.
    pose proof (clean_canonical f q p Hc Hq Ec) as ->. apply canonicalize_found in Ec as [l Hl].
    cbn [p_segs path_at] in Hl. destruct q as [|n d _] using rev_ind; [by rewrite clean_root in Eq|].
    rewrite fmap_app, resolve_app in Hl.
    destruct (resolve_segs f MAX_LINKS (segs_of d) []) as [p' l'| |] eqn:Ed; try done.
    assert (p' = d) as ->.
    { eapply (resolve_unlinked f MAX_LINKS d []); [|exact Ed]. intros k t. cbn [app].
      destruct (decide (k ≤ length d)).
      - rewrite <- (take_app_le d [n]) by done. by apply clean_above.
      - rewrite take_ge by lia. rewrite <- (take_app_length d [n]). by apply clean_above. }
    cbn [fmap list_fmap] in Hl. rewrite resolve_normal, Eq in Hl. by destruct (is_dir_node _).
Qed.

(** ** Creating directories *)

(** Directories were added, below the root. *)
Record grown (f f' : fs) : Prop := {
  gr_clean : clean f';
  gr_added : ∀ p, f' !! p = f !! p ∨ (f !! p = None ∧ f' !! p = Some NDir);
}.
Lemma grown_refl f : clean f → grown f f.
Proof. split; [done|by left]. Qed.
Lemma grown_trans f g h : grown f g → grown g h → grown f h.
Proof.
  intros [_ H1] [Hc H2]. split; [done|]. intros p.
  destruct (H2 p) as [->|[Hg ->]]; [apply H1|]. destruct (H1 p) as [<-|[_ Hd]]; [by right|congruence].
Qed.
Lemma grown_file f f' p b : grown f f' → f' !! p = Some (NFile b) ↔ f !! p = Some (NFile b).
Proof. intros [_ H]. destruct (H p) as [->|[-> ->]]; done. Qed.

Lemma clean_insert_dir f d n :
  clean f → root `prefix_of` d → f !! d = Some NDir → f !! (d ++ [n]) = None →
  grown f (<[d ++ [n] := NDir]> f).
Proof.
  intros [Hok Hl] Hd Hdir Hn. split.
  - split.
    + split; [apply parents_insert; [apply Hok|done|done]|].
      intros k Hk. rewrite lookup_insert_ne; [by apply (fs_root _ _ Hok)|].
      intros Heq. rewrite Heq in Hn. by rewrite (fs_root _ _ Hok) in Hn.
    + intros q t Hq. destruct (decide (d ++ [n] = q)) as [<-|Hne]; [by rewrite lookup_insert_eq|].
      rewrite lookup_insert_ne by done. by apply Hl.
  - intros p. destruct (decide (d ++ [n] = p)) as [<-|Hne]; [right; by rewrite lookup_insert_eq|].
    left. by rewrite lookup_insert_ne.
Qed.

Lemma mkdir_clean `{OS : Faults} f d n :
  clean f → root `prefix_of` d → f !! d = Some NDir →
  let '(r, f') := mkdir_or_dir (segs_of (d ++ [n])) f in
  grown f f' ∧ (r = Ok tt → f' !! (d ++ [n]) = Some NDir).
Proof.
  intros Hc Hd Hdir. unfold mkdir_or_dir. rewrite fmap_app. cbn [fmap list_fmap].
  rewrite (mkdir_found f _ d MAX_LINKS) by (by apply clean_resolve_dir). rewrite Hdir. cbn [is_dir_node].
  destruct (f !! (d ++ [n])) as [x|] eqn:Ex.
  - split; [by apply grown_refl|]. unfold segs_is_dir.
    rewrite resolve_app, clean_resolve_dir, resolve_normal, Hdir by done. cbn [is_dir_node]. rewrite Ex.
    destruct x as [b| |t]; [by rewrite resolve_nil, Ex|done|].
    by destruct (cl_links f Hc (d ++ [n]) t (prefix_app_r _ _ _ Hd)).
  - destruct (refuse_mkdir f (d ++ [n])) as [e|]; cbn [unless_refused];
      [|split; [by apply clean_insert_dir|]; by rewrite lookup_insert_eq].
    split; [by apply grown_refl|]. unfold segs_is_dir.
    rewrite resolve_app, clean_resolve_dir, resolve_normal, Hdir by done. cbn [is_dir_node]. by rewrite Ex.
Qed.

(** One level: [create_dirs] is [mkdir], unless the parent is missing. *)
Lemma create_dirs_step `{OS : Faults} fuel segs f :
  fs_mkdir f segs ≠ Err NotFound → create_dirs fuel segs f = mkdir_or_dir segs f.
Proof. intros H. unfold mkdir_or_dir. destruct fuel; cbn [create_dirs]; by destruct (fs_mkdir f segs) as [|[]]. Qed.

Lemma mkdir_not_dir `{OS : Faults} f d n :
  clean f → root `prefix_of` d → f !! d ≠ Some NDir →
  (∃ e, fs_mkdir f (segs_of (d ++ [n])) = Err e) ∧ segs_is_dir f (segs_of (d ++ [n])) = false.
Proof.
  intros Hc Hd Hdir. rewrite fmap_app. cbn [fmap list_fmap]. unfold fs_mkdir, segs_is_dir.
  rewrite last_snoc, removelast_last, resolve_app.
  destruct (resolve_segs f MAX_LINKS (segs_of d) []) as [p l| |] eqn:E; [|by split; [eexists|]..].
  assert (p = d) as ->.
  { eapply (resolve_unlinked f MAX_LINKS d []); [|exact E]. intros k t. by apply clean_above. }
  destruct (is_dir_node (f !! d)) eqn:Ed; [by apply is_dir_node_true in Ed|].
  rewrite resolve_normal, Ed. split; [by eexists|done].
Qed.

Lemma create_dirs_clean `{OS : Faults} r fuel f :
  clean f →
  let '(res, f') := create_dirs fuel (segs_of (root ++ r)) f in
  grown f f' ∧ (res = Ok tt → f' !! (root ++ r) = Some NDir).
Proof.
  revert fuel. induction r as [|n r IH] using rev_ind; intros fuel Hc.
  { rewrite app_nil_r. assert (f !! root = Some NDir) as Hr.
    { rewrite <- (take_ge root (length root)) by lia. by apply (fs_root _ _ (cl_ok _ Hc)). }
    pose proof (create_dirs_found f fuel _ _ _ (clean_resolve_dir f root Hc Hr MAX_LINKS)) as He.
    destruct (create_dirs fuel _ f) as [res f']. cbn in He. subst f'. split; [by apply grown_refl|done]. }
  rewrite app_assoc. set (d := root ++ r) in *.
  assert (root `prefix_of` d) as Hd by (by eexists).
  destruct (decide (is_dir_node (f !! d) = true)) as [Hdir%is_dir_node_true|Hdir].
  - rewrite create_dirs_step; [by apply mkdir_clean|]. rewrite fmap_app. cbn [fmap list_fmap].
    rewrite (mkdir_found f _ d MAX_LINKS) by (by apply clean_resolve_dir). rewrite Hdir. cbn [is_dir_node].
    destruct (f !! (d ++ [n])); [done|]. by destruct (refuse_mkdir f (d ++ [n])).
  - rewrite is_dir_node_true in Hdir. destruct (mkdir_not_dir f d n Hc Hd Hdir) as [[e He] Hnd].
    destruct fuel as [|fuel]; cbn [create_dirs]; rewrite He, ?Hnd;
      [by destruct e; split; try apply grown_refl|].
    destruct e; try (split; [by apply grown_refl|done]).
    assert (removelast (segs_of (d ++ [n])) = segs_of d) as ->
      by (rewrite fmap_app; apply removelast_last).
    unfold st_bind. specialize (IH fuel Hc). destruct (create_dirs fuel (segs_of d) f) as [[[]|e] f1].
    + destruct IH as [Hg Hf1]. pose proof (mkdir_clean f1 d n (gr_clean _ _ Hg) Hd (Hf1 eq_refl)) as Hm.
      destruct (mkdir_or_dir _ f1) as [r2 f2]. destruct Hm as [Hg2 Hf2].
      split; [by eapply grown_trans|done].
    + split; [apply IH|done].
Qed.

(** ** Moving and removing *)

Lemma remove_tree_lookup a f q : remove_tree a f !! q = if prefixb a q then None else f !! q.
Proof.
  unfold remove_tree. destruct (prefixb a q) eqn:Ep.
  - apply map_lookup_filter_None. right. intros x Hx H. cbn [fst] in H. congruence.
  - destruct (f !! q) as [x|] eqn:E.
    + apply map_lookup_filter_Some. done.
    + apply map_lookup_filter_None. by left.
Qed.

Lemma prefixb_true a q : prefixb a q = true ↔ ∃ r, q = a ++ r.
Proof. apply bool_decide_eq_true. Qed.
Lemma prefixb_app a r : prefixb a (a ++ r) = true.
Proof. apply prefixb_true. by exists r. Qed.

Section swap.
Context (a b : ppath) (Hab : prefixb a b = false) (Hba : prefixb b a = false).

Lemma not_both q : prefixb a q = true → prefixb b q = false.
Proof.
  intros [r ->]%prefixb_true. destruct (prefixb b (a ++ r)) eqn:E; [|done].
  apply bool_decide_eq_true in E.
  destruct (prefix_weak_total b a (a ++ r) E (prefix_app_r _ _ _ (reflexivity a))) as [H|H].
  - apply bool_decide_eq_false in Hba. done.
  - apply bool_decide_eq_false in Hab. done.
Qed.
Lemma swap_a r : swap_trees a b (a ++ r) = b ++ r.
Proof. unfold swap_trees. rewrite prefixb_app. by rewrite drop_app_length. Qed.
Lemma swap_b r : swap_trees a b (b ++ r) = a ++ r.
Proof.
  unfold swap_trees. destruct (prefixb a (b ++ r)) eqn:E.
  - apply not_both in E. by rewrite prefixb_app in E.
  - rewrite prefixb_app. by rewrite drop_app_length.
Qed.
Lemma swap_other q : prefixb a q = false → prefixb b q = false → swap_trees a b q = q.
Proof. intros H1 H2. unfold swap_trees. by rewrite H1, H2. Qed.
Lemma swap_swap q : swap_trees a b (swap_trees a b q) = q.
Proof.
  destruct (prefixb a q) eqn:Ea.
  { apply prefixb_true in Ea as [r ->]. by rewrite swap_a, swap_b. }
  destruct (prefixb b q) eqn:Eb.
  { apply prefixb_true in Eb as [r ->]. by rewrite swap_b, swap_a. }
  rewrite (swap_other q) by done. by apply swap_other.
Qed.
#[local] Instance swap_inj : Inj (=) (=) (swap_trees a b).
Proof. intros p q H. by rewrite <- (swap_swap p), H, swap_swap. Qed.

Lemma move_tree_lookup f q :
  move_tree a b f !! q = if prefixb b q then f !! (a ++ drop (length b) q)
                         else if prefixb a q then None else f !! q.
Proof.
  unfold move_tree. rewrite <- (swap_swap q) at 1. rewrite (lookup_kmap _), remove_tree_lookup.
  destruct (prefixb b q) eqn:Eb.
  - apply prefixb_true in Eb as [r ->]. rewrite swap_b, drop_app_length, (not_both (a ++ r)) by apply prefixb_app. done.
  - destruct (prefixb a q) eqn:Ea.
    + apply prefixb_true in Ea as [r ->]. by rewrite swap_a, prefixb_app.
    + by rewrite swap_other, Eb.
Qed.
Lemma move_tree_to f r : move_tree a b f !! (b ++ r) = f !! (a ++ r).
Proof. by rewrite move_tree_lookup, prefixb_app, drop_app_length. Qed.
End swap.

Definition strictly_below (a : ppath) : Prop := ∃ r, r ≠ [] ∧ a = root ++ r.
Lemma below_root_not a k : strictly_below a → prefixb a (take k root) = false.
Proof.
  intros (r & Hr & ->). apply bool_decide_eq_false. intros Hp%prefix_length.
  rewrite length_app, length_take in Hp. destruct r; [done|]. cbn in Hp. lia.
Qed.
Lemma prefixb_snoc a q n : prefixb a (q ++ [n]) = true → prefixb a q = true ∨ a = q ++ [n].
Proof.
  intros [r Hr]%prefixb_true. destruct r as [|x r _] using rev_ind; [right; by rewrite app_nil_r in Hr|].
  rewrite app_assoc in Hr. apply app_inj_tail in Hr as [-> _]. left. apply prefixb_app.
Qed.

Lemma clean_remove f a : clean f → strictly_below a → clean (remove_tree a f).
Proof.
  intros [Hok Hl] Ha. split; [split|].
  - intros q n x. rewrite !remove_tree_lookup. destruct (prefixb a (q ++ [n])) eqn:E; [done|].
    intros Hx%(fs_parents _ _ Hok). destruct (prefixb a q) eqn:Eq; [|done].
    apply prefixb_true in Eq as [r ->]. by rewrite <- app_assoc, prefixb_app in E.
  - intros k Hk. rewrite remove_tree_lookup, below_root_not by done. by apply (fs_root _ _ Hok).
  - intros q t Hq. rewrite remove_tree_lookup. destruct (prefixb a q); [done|]. by apply Hl.
Qed.

(** What the stopped removal of a tree leaves: the tree itself and some of what is
    below it, and everything else. *)
Lemma remove_below_lookup gone a f q :
  remove_below gone a f !! q = f !! q ∨ (remove_below gone a f !! q = None ∧ prefixb a q = true ∧ q ≠ a ∧
    ∀ r x, f !! (q ++ r) = Some x → gone (q ++ r) = true).
Proof.
  unfold remove_below. destruct (f !! q) as [x|] eqn:E.
  2: { left. apply map_lookup_filter_None. by left. }
  destruct (prefixb a q && negb (bool_decide (q = a)) &&
            forallb (λ e', negb (prefixb q e'.1) || gone e'.1) (map_to_list f)) eqn:EP.
  - right. split; [apply map_lookup_filter_None; right; intros y _ H; cbn [fst] in H; congruence|].
    apply andb_prop in EP as [[Hp Hne]%andb_prop Hall].
    split; [done|]. split; [by apply negb_true_iff, bool_decide_eq_false in Hne|].
    intros r y Hy. rewrite forallb_forall in Hall. specialize (Hall (q ++ r, y)). cbn [fst] in Hall.
    rewrite prefixb_app in Hall. cbn [negb orb] in Hall.
    apply Hall, list_elem_of_In, elem_of_map_to_list. done.
  - left. apply map_lookup_filter_Some. by split.
Qed.
Lemma remove_below_kept gone a f q r x :
  remove_below gone a f !! (q ++ r) = Some x → parents_exist f → r ≠ [] → remove_below gone a f !! q = Some NDir.
Proof.
  intros Hx Hp Hr.
  assert (f !! (q ++ r) = Some x) as Hf by
    (destruct (remove_below_lookup gone a f (q ++ r)) as [<-|[Hn _]]; [done|by rewrite Hn in Hx]).
  pose proof (dirs_above f q r x Hp Hr Hf) as Hq. rewrite <- Hq.
  destruct (remove_below_lookup gone a f q) as [|(Hn & Hpre & Hne & Hgone)]; [done|exfalso].
  unfold remove_below in Hx. apply map_lookup_filter_Some in Hx as [_ Hx]. cbn [fst] in Hx.
  apply prefixb_true in Hpre as [r0 ->]. rewrite <- app_assoc, prefixb_app in Hx.
  rewrite bool_decide_eq_false_2 in Hx.
  2: { intros Heq%(f_equal length). rewrite !length_app in Heq. destruct r; [done|]. cbn in Heq. lia. }
  cbn [negb andb] in Hx. apply not_true_iff_false in Hx. apply Hx. apply forallb_forall.
  intros [y n] Hy%list_elem_of_In%elem_of_map_to_list. cbn [fst].
  destruct (prefixb (a ++ r0 ++ r) y) eqn:Ey; [|done]. apply prefixb_true in Ey as [r1 ->]. cbn [negb orb].
  specialize (Hgone (r ++ r1) n). rewrite !app_assoc in Hgone. rewrite !app_assoc. apply Hgone.
  by rewrite !app_assoc in Hy.
Qed.
Lemma clean_remove_below f gone a : clean f → strictly_below a → clean (remove_below gone a f).
Proof.
  intros [Hok Hl] Ha. split; [split|].
  - intros q n x Hx. eapply (remove_below_kept gone a f q [n]); [exact Hx|apply Hok|done].
  - intros k Hk. rewrite <- (fs_root _ _ Hok k Hk).
    destruct (remove_below_lookup gone a f (take k root)) as [|(_ & Hp & _)]; [done|].
    by rewrite below_root_not in Hp.
  - intros q t Hq. destruct (remove_below_lookup gone a f q) as [->|[-> _]]; [by apply Hl|done].
Qed.

Lemma clean_move f a d n :
  clean f → strictly_below a → root `prefix_of` d → f !! d = Some NDir →
  prefixb a (d ++ [n]) = false → prefixb (d ++ [n]) a = false → clean (move_tree a (d ++ [n]) f).
Proof.
  intros [Hok Hl] Ha Hd Hdir Hab Hba. set (b := d ++ [n]) in *.
  assert (strictly_below b) as Hb.
  { destruct Hd as [r ->]. exists (r ++ [n]). split; [by destruct r|]. unfold b. by rewrite app_assoc. }
  assert (∀ q, move_tree a b f !! q = if prefixb b q then f !! (a ++ drop (length b) q)
                         else if prefixb a q then None else f !! q) as Hlook
    by (intros; by apply move_tree_lookup).
  split; [split|].
  - intros q m x. rewrite !Hlook. destruct (prefixb b (q ++ [m])) eqn:E.
    + destruct (prefixb_snoc b q m E) as [[r ->]%prefixb_true|Heq].
      * rewrite prefixb_app, <- app_assoc, !drop_app_length, app_assoc. apply (fs_parents _ _ Hok).
      * intros _. apply app_inj_tail in Heq as [-> ->].
        destruct (prefixb b q) eqn:Eb; [apply prefixb_true in Eb as [r Hr]; apply (f_equal length) in Hr;
          unfold b in Hr; rewrite !length_app in Hr; cbn in Hr; lia|].
        destruct (prefixb a q) eqn:Ea; [|done]. apply prefixb_true in Ea as [r ->].
        unfold b in Hab. by rewrite <- app_assoc, prefixb_app in Hab.
    + destruct (prefixb a (q ++ [m])) eqn:Ea; [done|]. intros Hx%(fs_parents _ _ Hok).
      destruct (prefixb b q) eqn:Eb; [apply prefixb_true in Eb as [r ->]; by rewrite <- app_assoc, prefixb_app in E|].
      destruct (prefixb a q) eqn:Ea2; [apply prefixb_true in Ea2 as [r ->]; by rewrite <- app_assoc, prefixb_app in Ea|done].
  - intros k Hk. rewrite Hlook, !below_root_not by done. by apply (fs_root _ _ Hok).
  - intros q t Hq. rewrite Hlook. destruct (prefixb b q).
    + apply Hl. destruct Ha as (r & _ & ->). rewrite <- app_assoc. by eexists.
    + destruct (prefixb a q); [done|]. by apply Hl.
Qed.

(** The entry of a path: its parent must be a directory. *)
Lemma clean_entry f d n :
  clean f → root `prefix_of` d →
  match entry_at f (segs_of (d ++ [n])) with
  | Ok e => e = d ++ [n] ∧ f !! d = Some NDir
  | Err _ => f !! d ≠ Some NDir
  end.
Proof.
  intros Hc Hd. unfold entry_at. rewrite fmap_app. cbn [fmap list_fmap]. rewrite last_snoc, removelast_last.
  destruct (resolve_segs f MAX_LINKS (segs_of d) []) as [p l| |] eqn:E.
  - assert (p = d) as ->.
    { eapply (resolve_unlinked f MAX_LINKS d []); [|exact E]. intros k t. by apply clean_above. }
    destruct (is_dir_node (f !! d)) eqn:Ed; [by apply is_dir_node_true in Ed|].
    intros Hn. by rewrite Hn in Ed.
  - intros Hn. by rewrite clean_resolve_dir in E.
  - intros Hn. by rewrite clean_resolve_dir in E.
Qed.
End tree.
