(* ===== verification/Skills.v ===== *)
(** * Skills ([codel00p-skill/src/lib.rs], [usage.rs], [consolidation.rs])

    A skill is a directory with a [SKILL.md] file: front matter and instructions.
    Proposals wait for review under [.candidates]; retired skills are under
    [.archive].  The operations are over the file system of [FileSystem]; the order
    of a directory listing and the JSON of the usage log are parameters. *)

From stdpp Require Import base numbers strings gmap list.
From S2P Require Import Prelude RustStr Utf8 TextSim Curator FileSystem.

Definition SKILL_FILE : str := lit "SKILL.md".
Definition CANDIDATES_DIR : str := lit ".candidates".
Definition ARCHIVE_DIR : str := lit ".archive".
Definition USAGE_FILE : str := lit ".usage.json".

Inductive SkillError :=
| SkillIo (path : ppath) (source : IoError)
| MissingFrontMatter (path : ppath)
| MissingName (path : ppath)
| AlreadyActive (name : str)
| CandidateExists (name : str)
| UnknownCandidate (name : str)
| UnknownSkill (name : str)
| InvalidName (name : str).

Inductive SkillSource := Bundled | UserSkill | ProjectSkill.
Definition skill_source_label (s : SkillSource) : str :=
  match s with
  | Bundled => lit "bundled" | UserSkill => lit "user" | ProjectSkill => lit "project"
  end.
Definition source_rank (s : SkillSource) : nat :=
  match s with Bundled => 0 | UserSkill => 1 | ProjectSkill => 2 end.

Record Skill := {
  sk_name : str;
  sk_version : option str;
  sk_description : str;
  sk_author : option str;
  sk_triggers : list str;
  sk_created_by : option str;
  sk_source : SkillSource;
  sk_path : ppath;
  sk_body : str;
}.

(** ** Front matter *)

Definition BOM : char := 65279%N.
Definition front_delimiter : str := lit "---".
Definition is_delimiter (line : str) : bool := bool_decide (trim_end line = front_delimiter).

(** The lines up to the closing delimiter, and those after it. *)
Fixpoint until_delimiter (lines : list str) : option (list str * list str) :=
  match lines with
  | [] => None
  | line :: lines =>
      if is_delimiter line then Some ([], lines)
      else '(front, body) ← until_delimiter lines; Some (line :: front, body)
  end.
Definition split_front_matter (content : str) : option (str * str) :=
  let normalized := default content (strip_prefix [BOM] content) in
  match lines normalized with
  | first :: rest =>
      if is_delimiter first then
        '(front, body) ← until_delimiter rest;
        Some (join [newline] front, join [newline] body)
      else None
  | [] => None
  end.

Inductive FrontMatterValue := FScalar (value : str) | FList (items : list str).
Abbreviation front_map := (gmap str FrontMatterValue).

Definition double_quote : char := 34%N.
Definition single_quote : char := 39%N.
Definition unquote_with (quote : char) (value : str) : option str :=
  rest ← strip_prefix [quote] value; strip_suffix [quote] rest.
Definition unquote (value : str) : str :=
  match unquote_with double_quote value with
  | Some inner => inner
  | None => default value (unquote_with single_quote value)
  end.

(** [if let Some((key, items)) = pending_list.take()]. *)
Definition flush (map : front_map) (pending : option (str * list str)) : front_map :=
  match pending with Some (key, items) => <[key := FList items]> map | None => map end.
Definition inline_list (inner : str) : list str :=
  List.filter (λ item, negb (is_empty item))
    ((λ item, unquote (trim item)) <$> split_by (λ c, (c =? 44)%N) inner).
Definition front_line (acc : front_map * option (str * list str)) (raw : str)
    : front_map * option (str * list str) :=
  let '(map, pending) := acc in
  let trimmed := trim raw in
  if is_empty trimmed || starts_with (lit "#") trimmed then (map, pending)
  else match strip_prefix (lit "- ") trimmed with
  | Some item =>
      (map, match pending with
            | Some (key, items) => Some (key, items ++ [unquote (trim item)])
            | None => None
            end)
  | None =>
      let map := flush map pending in
      match split_once 58%N trimmed with
      | None => (map, None)
      | Some (key, value) =>
          let key := trim key in
          let value := trim value in
          if is_empty value then (map, Some (key, []))
          else match (inner ← strip_prefix (lit "[") value; strip_suffix (lit "]") inner) with
          | Some inner => (<[key := FList (inline_list inner)]> map, None)
          | None => (<[key := FScalar (unquote value)]> map, None)
          end
      end
  end.
Definition parse_front_matter (text : str) : front_map :=
  let '(map, pending) := foldl front_line (∅, None) (lines text) in flush map pending.

Definition scalar (map : front_map) (key : str) : option str :=
  match map !! key with
  | Some (FScalar value) => if is_empty value then None else Some value
  | _ => None
  end.
Definition front_list (map : front_map) (key : str) : list str :=
  match map !! key with
  | Some (FList items) => items
  | Some (FScalar value) => if is_empty value then [] else [value]
  | None => []
  end.

Definition directory_name (skill_file : ppath) : option str :=
  match skill_file with [] => None | _ => last (removelast skill_file) end.
Definition parse_skill (path : ppath) (source : SkillSource) (content : str)
    : result SkillError Skill :=
  let? parts := ok_or (MissingFrontMatter path) (split_front_matter content) in
  let '(front_matter, body) := parts in
  let map := parse_front_matter front_matter in
  let? name := ok_or (MissingName path)
    (match scalar map (lit "name") with Some n => Some n | None => directory_name path end) in
  Ok {| sk_name := name; sk_version := scalar map (lit "version");
        sk_description := default [] (scalar map (lit "description"));
        sk_author := scalar map (lit "author"); sk_triggers := front_list map (lit "triggers");
        sk_created_by := scalar map (lit "created_by"); sk_source := source; sk_path := path;
        sk_body := trim body |}.

(** ** Loading *)

(** The order in which a directory lists its entries. *)
Class ReadDir := { dir_order : ppath → list str → list str }.
Class ReadDirLaws `{ReadDir} : Prop := { dir_order_perm : ∀ d l, dir_order d l ≡ₚ l }.

Definition read_to_string (f : fs) (p : ppath) : result IoError str :=
  let? bytes := fs_read f (path_at p) in ok_or InvalidData (from_utf8 bytes).
Definition load_skill (f : fs) (path : ppath) (source : SkillSource) : result SkillError Skill :=
  let? content := map_err (SkillIo path) (read_to_string f path) in
  parse_skill path source content.

Section loading.
Context `{ReadDir}.

Definition read_dir (f : fs) (dir : ppath) : result IoError (list str) :=
  let? q := canonicalize_path f (path_at dir) in
  if is_dir_node (f !! q) then Ok (dir_order dir (children f q)) else Err NotADirectory.
Definition scan_entry (f : fs) (dir : ppath) (source : SkillSource) (entry : str) : option Skill :=
  let skill_file := dir ++ [entry; SKILL_FILE] in
  if path_is_file f (path_at skill_file) then
    match load_skill f skill_file source with Ok s => Some s | Err _ => None end
  else None.
Definition scan_dir (f : fs) (dir : ppath) (source : SkillSource) : list Skill :=
  match read_dir f dir with
  | Ok entries => omap (scan_entry f dir source) entries
  | Err _ => []
  end.

(** The [BTreeMap] by name: an association list in the order of the names. *)
Fixpoint put_skill (s : Skill) (m : list Skill) : list Skill :=
  match m with
  | [] => [s]
  | t :: rest =>
      match str_cmp (sk_name s) (sk_name t) with
      | Lt => s :: m
      | Eq => s :: rest
      | Gt => t :: put_skill s rest
      end
  end.
Definition load_skills (f : fs) (sources : list (SkillSource * ppath)) : list Skill :=
  let ordered := sort_by (cmp_on (λ x : SkillSource * ppath, source_rank x.1) Nat.compare) sources in
  foldl (λ m '(source, dir), foldl (λ m s, put_skill s m) m (scan_dir f dir source)) [] ordered.
Definition candidates_root (skills_dir : ppath) : ppath := skills_dir ++ [CANDIDATES_DIR].
Definition archive_root (skills_dir : ppath) : ppath := skills_dir ++ [ARCHIVE_DIR].
Definition load_candidates (f : fs) (skills_dir : ppath) : list Skill :=
  scan_dir f (candidates_root skills_dir) UserSkill.
Definition load_archived (f : fs) (skills_dir : ppath) : list Skill :=
  scan_dir f (archive_root skills_dir) UserSkill.
End loading.

(** ** Selection *)

Section selection.
Context `{Unicode}.

Definition trigger_matches (query : str) (trigger : str) : bool :=
  let trigger := to_lowercase (trim trigger) in
  negb (is_empty trigger) && contains trigger query.
Definition name_matches (query : str) (skill : Skill) : bool :=
  let name := to_lowercase (sk_name skill) in negb (is_empty name) && contains name query.
Definition relevance_score (skill : Skill) (query : str) : nat :=
  length (List.filter (trigger_matches query) (sk_triggers skill)) +
  (if name_matches query skill then 1 else 0).
Definition select_cmp : nat * Skill → nat * Skill → comparison :=
  cmp_lex (cmp_rev (cmp_on fst Nat.compare)) (cmp_on (λ x, sk_name x.2) str_cmp).
Definition select_skills (skills : list Skill) (query : str) (limit : nat) : list Skill :=
  let haystack := to_lowercase query in
  let scored := omap (λ skill, let score := relevance_score skill haystack in
                               if 0 <? score then Some (score, skill) else None) skills in
  (take limit (sort_by select_cmp scored)).*2.
End selection.

(** ** The candidate lifecycle *)

Record SkillProposal := {
  pr_name : str;
  pr_description : str;
  pr_triggers : list str;
  pr_instructions : str;
  pr_created_by : str;
}.

Definition name_char (c : char) : bool :=
  is_ascii_alphanumeric c || (c =? 45)%N || (c =? 95)%N.
Definition validate_name (name : str) : result SkillError unit :=
  if negb (is_empty name) && forallb name_char name then Ok tt else Err (InvalidName name).

Definition sanitize_char (c : char) : char :=
  if ((c =? newline) || (c =? carriage_return))%N then 32%N
  else if (c =? double_quote)%N then single_quote else c.
Definition sanitize_inline (value : str) : str := sanitize_char <$> value.
Definition nl : str := [newline].
Definition trigger_line (trigger : str) : str := lit "  - " ++ sanitize_inline trigger ++ nl.
Definition render_skill_md (p : SkillProposal) : str :=
  lit "---" ++ nl ++
  lit "name: " ++ pr_name p ++ nl ++
  lit "description: " ++ [double_quote] ++ sanitize_inline (pr_description p) ++ [double_quote] ++ nl ++
  lit "created_by: " ++ pr_created_by p ++ nl ++
  (if is_empty (pr_triggers p) then []
   else lit "triggers:" ++ nl ++ concat (trigger_line <$> pr_triggers p)) ++
  lit "---" ++ nl ++ trim (pr_instructions p) ++ nl.

Abbreviation skillop := (st fs SkillError).
Definition segs_at (p : ppath) : list seg := SNormal <$> p.
Definition skill_io {A} (path : ppath) (m : st fs IoError A) : skillop A := λ f,
  let '(r, f') := m f in (map_err (SkillIo path) r, f').
Definition create_skill_dir `{OS : Faults} (path : ppath) : skillop unit :=
  skill_io path (fs_create_dir_all (segs_at path)).
Definition write_skill_file `{OS : Faults} (path : ppath) (contents : str) : skillop unit :=
  skill_io path (fs_write (path_at path) (utf8 contents)).
Definition rename_skill `{OS : Faults} (from to : ppath) : skillop unit :=
  skill_io from (fs_step (fs_rename (segs_at from) (segs_at to))).
Definition remove_skill_dir `{OS : Faults} (path : ppath) : skillop unit :=
  skill_io path (fs_remove_dir_all (segs_at path)).
Definition has_skill_file (dir : ppath) (f : fs) : bool :=
  path_is_file f (path_at (dir ++ [SKILL_FILE])).
Definition st_gets {A} (g : fs → A) : skillop A := λ f, (Ok (g f), f).

Definition propose_skill `{OS : Faults} (skills_dir : ppath) (p : SkillProposal) : skillop ppath :=
  do! st_lift (validate_name (pr_name p)) in
  let! active := st_gets (has_skill_file (skills_dir ++ [pr_name p])) in
  if active then st_err (AlreadyActive (pr_name p))
  else
    let dir := candidates_root skills_dir ++ [pr_name p] in
    let! waiting := st_gets (has_skill_file dir) in
    if waiting then st_err (CandidateExists (pr_name p))
    else
      do! create_skill_dir dir in
      do! write_skill_file (dir ++ [SKILL_FILE]) (render_skill_md p) in
      st_ret (dir ++ [SKILL_FILE]).

Definition approve_candidate `{OS : Faults} (skills_dir : ppath) (name : str) : skillop ppath :=
  do! st_lift (validate_name name) in
  let from := candidates_root skills_dir ++ [name] in
  let! waiting := st_gets (has_skill_file from) in
  if negb waiting then st_err (UnknownCandidate name)
  else
    let to := skills_dir ++ [name] in
    let! active := st_gets (has_skill_file to) in
    if active then st_err (AlreadyActive name)
    else
      do! rename_skill from to in
      st_ret (to ++ [SKILL_FILE]).

(** [if dir.exists() { fs::remove_dir_all(dir)?; }]. *)
Definition clear_dir `{OS : Faults} (dir : ppath) : skillop unit :=
  let! found := st_gets (λ f, path_exists f (path_at dir)) in
  if found then remove_skill_dir dir else st_ret tt.

Definition reject_candidate `{OS : Faults} (skills_dir : ppath) (name : str) : skillop unit :=
  do! st_lift (validate_name name) in
  let from := candidates_root skills_dir ++ [name] in
  let! waiting := st_gets (has_skill_file from) in
  if negb waiting then st_err (UnknownCandidate name)
  else
    let archive := candidates_root skills_dir ++ [ARCHIVE_DIR; name] in
    do! create_skill_dir (candidates_root skills_dir ++ [ARCHIVE_DIR]) in
    do! clear_dir archive in
    rename_skill from archive.

Definition archive_skill `{OS : Faults} (skills_dir : ppath) (name : str) : skillop ppath :=
  do! st_lift (validate_name name) in
  let from := skills_dir ++ [name] in
  let! active := st_gets (has_skill_file from) in
  if negb active then st_err (UnknownSkill name)
  else
    let to := archive_root skills_dir ++ [name] in
    do! create_skill_dir (archive_root skills_dir) in
    do! clear_dir to in
    do! rename_skill from to in
    st_ret (to ++ [SKILL_FILE]).

Definition restore_skill `{OS : Faults} (skills_dir : ppath) (name : str) : skillop ppath :=
  do! st_lift (validate_name name) in
  let from := archive_root skills_dir ++ [name] in
  let! archived := st_gets (has_skill_file from) in
  if negb archived then st_err (UnknownSkill name)
  else
    let to := skills_dir ++ [name] in
    let! active := st_gets (has_skill_file to) in
    if active then st_err (AlreadyActive name)
    else
      do! rename_skill from to in
      st_ret (to ++ [SKILL_FILE]).

(** ** Usage *)

Record SkillUsage := { su_count : N; su_last_used_epoch : option N }.
Definition SkillUsage_default : SkillUsage := {| su_count := 0; su_last_used_epoch := None |}.
Abbreviation UsageLog := (gmap str SkillUsage).
Definition usage_get (name : str) (log : UsageLog) : SkillUsage :=
  default SkillUsage_default (log !! name).
Definition usage_record (name : str) (now_epoch : N) (log : UsageLog) : UsageLog :=
  let entry := usage_get name log in
  <[name := {| su_count := u64_add (su_count entry) 1; su_last_used_epoch := Some now_epoch |}]> log.

Class UsageJson := {
  usage_to_string_pretty : UsageLog → str;
  usage_from_str : str → option UsageLog;
}.
Class UsageJsonLaws `{UsageJson} : Prop := {
  usage_from_to : ∀ log, usage_from_str (usage_to_string_pretty log) = Some log;
  usage_scalars : ∀ log, scalars (usage_to_string_pretty log);
}.

Section usage.
Context `{UsageJson}.

Definition usage_path (skills_dir : ppath) : ppath := skills_dir ++ [USAGE_FILE].
Definition load_usage (f : fs) (skills_dir : ppath) : UsageLog :=
  match read_to_string f (usage_path skills_dir) with
  | Ok text => default ∅ (usage_from_str text)
  | Err _ => ∅
  end.
Definition record_usage `{OS : Faults} (skills_dir : ppath) (name : str) (now_epoch : N) : skillop unit :=
  let! log := st_gets (λ f, usage_record name now_epoch (load_usage f skills_dir)) in
  write_skill_file (usage_path skills_dir) (usage_to_string_pretty log).
Definition skill_root (skill_file : ppath) : option ppath :=
  match last skill_file with
  | Some file =>
      if decide (file = SKILL_FILE) then
        match removelast skill_file with [] => None | dir => Some (removelast dir) end
      else None
  | None => None
  end.
Definition record_skill_usage `{OS : Faults} (s : Skill) (now_epoch : N) : skillop unit :=
  match skill_root (sk_path s) with
  | Some root => record_usage root (sk_name s) now_epoch
  | None => st_ret tt
  end.
End usage.

(** ** Curation *)

Definition is_agent (s : Skill) : bool := bool_decide (sk_created_by s = Some (lit "agent")).
Definition is_curatable (s : Skill) (usage : SkillUsage) (age_secs min_age_secs : N) : bool :=
  is_agent s && (su_count usage =? 0)%N && (min_age_secs <=? age_secs)%N.

Definition DEFAULT_SKILL_CONSOLIDATION_THRESHOLD : nat := 60.
Record DuplicateSkill := { ds_skill : Skill; ds_similarity : nat }.
Record SkillConsolidation := { sc_survivor : Skill; sc_duplicates : list DuplicateSkill }.
Definition skill_text (s : Skill) : str := sk_description s ++ nl ++ sk_body s.

Section consolidation.
Context `{Unicode} (usage_for : Skill → SkillUsage).

Definition by_name : Skill → Skill → comparison := cmp_on sk_name str_cmp.
(** Most used first, ties by the smallest name. *)
Definition skill_survivor_cmp : Skill → Skill → comparison :=
  cmp_lex (cmp_rev (cmp_on (λ s, su_count (usage_for s)) N.compare)) by_name.
Definition consolidate_skills (members : list Skill) : option SkillConsolidation :=
  if length members <? 2 then None
  else match sort_by skill_survivor_cmp members with
       | [] => None
       | survivor :: rest =>
           Some {| sc_survivor := survivor;
                   sc_duplicates := sort_by (cmp_on (λ d, sk_name (ds_skill d)) str_cmp)
                     ((λ s, {| ds_skill := s;
                               ds_similarity := shingle_similarity (skill_text survivor) (skill_text s) |})
                      <$> rest) |}
       end.
Definition plan_skill_consolidations (skills : list Skill) (threshold : nat)
    : option (list SkillConsolidation) :=
  let candidates := sort_by by_name (List.filter is_agent skills) in
  clusters ← clusters_of skill_text threshold candidates;
  Some (sort_by (cmp_on (λ c, sk_name (sc_survivor c)) str_cmp) (omap consolidate_skills clusters)).
End consolidation.
