(* ===== verification/SkillText.v ===== *)
(** * A proposed skill is read back as it was proposed

    The file [render_skill_md] writes, parsed by the loader. *)

From stdpp Require Import base numbers strings gmap list.
From S2P Require Import Prelude RustStr Utf8 TextSim Curator FileSystem Skills.

(** ** Lines *)

Definition plain_line (l : str) : Prop := (newline ∉ l) ∧ (carriage_return ∉ l).

Lemma split_nl_line l rest :
  newline ∉ l → split_inclusive_nl (l ++ newline :: rest) = (l ++ [newline]) :: split_inclusive_nl rest.
Proof.
  induction l as [|c l IH]; intros Hl; [done|]. apply not_elem_of_cons in Hl as [Hc Hl].
  cbn [app split_inclusive_nl]. rewrite IH by done.
  destruct (N.eqb_spec c newline); [congruence|done].
Qed.
Lemma split_nl_last l : newline ∉ l → l ≠ [] → split_inclusive_nl l = [l].
Proof.
  induction l as [|c l IH]; intros Hl Hne; [done|]. apply not_elem_of_cons in Hl as [Hc Hl].
  cbn [split_inclusive_nl]. destruct (N.eqb_spec c newline); [congruence|].
  destruct l as [|d l]; [done|]. by rewrite IH.
Qed.
Lemma strip_suffix_single c l : strip_suffix [c] (l ++ [c]) = Some l.
Proof. by apply strip_suffix_Some. Qed.
Lemma strip_suffix_none c l : c ∉ l → strip_suffix [c] l = None.
Proof.
  intros Hc. destruct (strip_suffix [c] l) as [r|] eqn:E; [|done].
  apply strip_suffix_Some in E as ->. set_solver.
Qed.
Lemma line_body_nl l : carriage_return ∉ l → line_body (l ++ [newline]) = l.
Proof. intros Hl. unfold line_body. by rewrite strip_suffix_single, strip_suffix_none. Qed.
Lemma lines_cons l rest : plain_line l → lines (l ++ newline :: rest) = l :: lines rest.
Proof. intros [Hn Hc]. unfold lines. rewrite split_nl_line by done. cbn. by rewrite line_body_nl. Qed.
Lemma lines_last l : plain_line l → l ≠ [] → lines l = [l].
Proof.
  intros [Hn Hc] Hne. unfold lines. rewrite split_nl_last by done. cbn. f_equal. unfold line_body.
  by rewrite strip_suffix_none.
Qed.
Lemma lines_join ls x :
  Forall plain_line ls → plain_line x → x ≠ [] → lines (join [newline] (ls ++ [x])) = ls ++ [x].
Proof.
  intros Hls Hx Hne. induction Hls as [|l ls Hl Hls IH]; [by apply lines_last|].
  cbn [app]. assert (join [newline] (l :: ls ++ [x]) = l ++ newline :: join [newline] (ls ++ [x])) as ->
    by (by destruct ls).
  by rewrite lines_cons, IH.
Qed.

(** A text without carriage returns is its lines. *)
Lemma join_lines n x :
  length x < n → carriage_return ∉ x → (lines (x ++ [newline]) ≠ []) ∧ join [newline] (lines (x ++ [newline])) = x.
Proof.
  revert x. induction n as [|n IH]; intros x Hn Hc; [lia|].
  destruct (decide (newline ∈ x)) as [Hin|Hin].
  - destruct (list_elem_of_split_l x newline Hin) as (l & r & -> & Hl).
    assert ((carriage_return ∉ l) ∧ (carriage_return ∉ r)) as [Hcl Hcr] by set_solver.
    rewrite <- app_assoc. cbn [app]. rewrite lines_cons by done.
    rewrite length_app in Hn. cbn in Hn. destruct (IH r ltac:(lia) Hcr) as [Hne Hj].
    split; [done|]. destruct (lines (r ++ [newline])) as [|y ys]; [done|].
    change (join [newline] (l :: y :: ys)) with (l ++ [newline] ++ join [newline] (y :: ys)).
    by rewrite Hj.
  - rewrite lines_cons by done. done.
Qed.

(** ** The parts of a rendered proposal *)

Lemma name_char_plain c : name_char c = true → (33 <= c < 127)%N ∧ c ≠ 58%N ∧ c ≠ 35%N ∧ c ≠ 91%N ∧ c ≠ 34%N ∧ c ≠ 39%N.
Proof.
  unfold name_char, is_ascii_alphanumeric, is_ascii_alphabetic, is_ascii_uppercase, is_ascii_lowercase, is_ascii_digit.
  rewrite !orb_true_iff, !andb_true_iff, !N.leb_le, !N.eqb_eq. lia.
Qed.

Definition good_name (n : str) : Prop := n ≠ [] ∧ forallb name_char n = true.
Lemma good_name_chars n : good_name n → Forall (λ c, name_char c = true) n.
Proof. intros [_ Hn]. by apply Forall_forall; intros c Hc; apply (proj1 (forallb_forall _ _) Hn), list_elem_of_In. Qed.
Lemma chars_avoid (P : char → Prop) n x : Forall P n → ¬ P x → x ∉ n.
Proof. intros Hn Hx Hin. rewrite Forall_forall in Hn. by apply Hx, Hn. Qed.
Lemma good_name_avoids n x : good_name n → name_char x = false → x ∉ n.
Proof. intros Hn Hx. eapply chars_avoid; [by apply good_name_chars|]. cbn. congruence. Qed.
Lemma name_char_not_blank c : name_char c = true → is_whitespace c = false.
Proof. intros H%name_char_plain. unfold is_whitespace. repeat (apply orb_false_intro); rewrite ?andb_false_iff, ?N.leb_gt, ?N.eqb_neq; lia. Qed.
Lemma trim_good_name n : good_name n → trim n = n.
Proof.
  intros Hn%good_name_chars. rewrite Forall_forall in Hn. apply trim_id; intros c Hc; apply name_char_not_blank, Hn.
  - destruct n; [done|]. injection Hc as ->. left.
  - apply last_Some in Hc as [l ->]. set_solver.
Qed.

(** Trimming at the end of a text whose last part is not blank. *)
Lemma trim_end_blank a : forallb is_whitespace a = true → trim_end a = [].
Proof.
  unfold trim_end, trim_end_matches. intros Ha.
  assert (∀ l, forallb is_whitespace l = true → trim_start_matches is_whitespace l = []) as Hall.
  { induction l as [|c l IH]; [done|]. cbn. intros [-> Hl]%andb_prop. by apply IH. }
  rewrite Hall; [done|]. apply forallb_forall. intros c Hc. apply (proj1 (forallb_forall _ _) Ha).
  apply list_elem_of_In, elem_of_reverse. by apply list_elem_of_In.
Qed.
Lemma trim_end_app a t : trim_end t ≠ [] → trim_end (a ++ t) = a ++ trim_end t.
Proof.
  unfold trim_end, trim_end_matches. rewrite reverse_app. generalize (reverse t) as r. intros r.
  induction r as [|c r IH]; cbn [app trim_start_matches]; [done|]. destruct (is_whitespace c); [exact IH|].
  intros _. rewrite app_comm_cons, reverse_app, reverse_involutive. done.
Qed.
Lemma trim_end_nonblank t c : c ∈ t → is_whitespace c = false → trim_end t ≠ [].
Proof.
  intros Hc Hb He. destruct (trim_end_matches_prefix is_whitespace t) as (a & Ha & Hall).
  change (trim_end_matches is_whitespace t) with (trim_end t) in Ha. rewrite He in Ha. cbn in Ha. subst.
  rewrite (proj1 (forallb_forall _ _) Hall c) in Hb; [done|by apply list_elem_of_In].
Qed.
Lemma trim_trim_end t : trim (trim_end t) = trim t.
Proof.
  unfold trim at 2. destruct (trim_start_matches_suffix is_whitespace t) as (a & Ht & Ha).
  change (trim_start_matches is_whitespace t) with (trim_start t) in Ht.
  destruct (trim_start t) as [|c x] eqn:Ex.
  { rewrite app_nil_r in Ht. subst t. by rewrite trim_end_blank. }
  assert (is_whitespace c = false) as Hc.
  { apply (trim_start_matches_head is_whitespace t). unfold trim_start in Ex. by rewrite Ex. }
  assert (trim_end (c :: x) ≠ []) as Hne by (by apply (trim_end_nonblank _ c); [left|]).
  rewrite Ht at 1. rewrite trim_end_app by done.
  assert (∃ y, trim_end (c :: x) = c :: y) as [y Hy].
  { destruct (trim_end_matches_prefix is_whitespace (c :: x)) as (b & Hb & _).
    change (trim_end_matches is_whitespace (c :: x)) with (trim_end (c :: x)) in Hb.
    destruct (trim_end (c :: x)) as [|d y]; [done|]. injection Hb as <- _. eauto. }
  unfold trim. rewrite Hy. assert (trim_start (a ++ c :: y) = c :: y) as ->.
  { clear -Ha Hc. unfold trim_start. induction a as [|d a IH]; cbn; [by rewrite Hc|].
    cbn in Ha. apply andb_prop in Ha as [-> Ha]. by apply IH. }
  rewrite <- Hy. unfold trim_end. by rewrite trim_end_matches_idemp.
Qed.

(** ** Lines of front matter *)

Definition key_ok (key : str) : Prop :=
  (58%N ∉ key) ∧ trim key = key ∧
  ∃ c k, key = c :: k ∧ (is_whitespace c = false) ∧ c ≠ 35%N ∧ c ≠ 45%N.

Lemma key_head key rest : key_ok key →
  is_empty (key ++ rest) = false ∧ starts_with (lit "#") (key ++ rest) = false ∧
  strip_prefix (lit "- ") (key ++ rest) = None.
Proof.
  intros (_ & _ & c & k & -> & _ & H1 & H2). cbn [app]. split_and!; [done| |].
  - change (lit "#") with [35%N]. unfold starts_with. cbn [strip_prefix].
    by destruct (N.eqb_spec 35 c); [congruence|].
  - change (lit "- ") with [45%N; 32%N]. cbn [strip_prefix].
    by destruct (N.eqb_spec 45 c); [congruence|].
Qed.
Lemma key_split key rest : key_ok key → split_once 58%N (key ++ 58%N :: rest) = Some (key, rest).
Proof.
  intros (Hk & _). apply split_once_avoids. intros c Hc. apply N.eqb_neq. by intros ->.
Qed.

Lemma front_scalar_line map key v :
  key_ok key → trim v = v → v ≠ [] → strip_prefix (lit "[") v = None →
  front_line (map, None) (key ++ lit ": " ++ v) = (<[key := FScalar (unquote v)]> map, None).
Proof.
  intros Hk Hv Hne Hb. assert (trim (key ++ lit ": " ++ v) = key ++ lit ": " ++ v) as Ht.
  { apply trim_id.
    - destruct Hk as (_ & _ & c & k & -> & Hc & _). by intros d [= <-].
    - intros c. rewrite app_assoc, last_app. destruct (last v) as [d|] eqn:El.
      + intros [= <-]. by apply (trim_last v).
      + by apply last_None in El. }
  unfold front_line. rewrite Ht. destruct (key_head key (lit ": " ++ v) Hk) as (-> & -> & ->). cbn [orb flush].
  change (lit ": " ++ v) with (58%N :: 32%N :: v). rewrite key_split by done.
  rewrite (trim_space v Hv), Hb. destruct v as [|c v]; [done|]. cbn [is_empty mbind option_bind].
  destruct Hk as (_ & -> & _). done.
Qed.

Lemma front_list_line map key :
  key_ok key → front_line (map, None) (key ++ lit ":") = (map, Some (key, [])).
Proof.
  intros Hk. assert (trim (key ++ lit ":") = key ++ lit ":") as Ht.
  { apply trim_id.
    - destruct Hk as (_ & _ & c & k & -> & Hc & _). by intros d [= <-].
    - intros c. change (lit ":") with [58%N]. rewrite last_snoc. by intros [= <-]. }
  unfold front_line. rewrite Ht. destruct (key_head key (lit ":") Hk) as (-> & -> & ->). cbn [orb flush].
  change (lit ":") with [58%N]. rewrite key_split by done. cbn. by destruct Hk as (_ & -> & _).
Qed.

Lemma front_item_line map key items t :
  (∃ c, c ∈ t ∧ is_whitespace c = false) →
  front_line (map, Some (key, items)) (lit "  - " ++ t) = (map, Some (key, items ++ [unquote (trim t)])).
Proof.
  intros (c & Hc & Hb). pose proof (trim_end_nonblank t c Hc Hb) as Hne.
  assert (trim (lit "  - " ++ t) = lit "- " ++ trim_end t) as Ht.
  { unfold trim. assert (trim_start (lit "  - " ++ t) = lit "- " ++ t) as -> by reflexivity.
    by apply trim_end_app. }
  unfold front_line. rewrite Ht.
  assert (is_empty (lit "- " ++ trim_end t) || starts_with (lit "#") (lit "- " ++ trim_end t) = false) as ->
    by reflexivity.
  rewrite strip_prefix_app. by rewrite trim_trim_end.
Qed.

(** ** The round trip *)

(** The lines of the front matter of a proposal. *)
Definition quoted (s : str) : str := [double_quote] ++ s ++ [double_quote].
Definition item_line (trigger : str) : str := lit "  - " ++ sanitize_inline trigger.
Definition trigger_lines (p : SkillProposal) : list str :=
  if is_empty (pr_triggers p) then [] else lit "triggers:" :: (item_line <$> pr_triggers p).
Definition front_lines (p : SkillProposal) : list str :=
  [lit "name: " ++ pr_name p; lit "description: " ++ quoted (sanitize_inline (pr_description p));
   lit "created_by: " ++ pr_created_by p] ++ trigger_lines p.

Definition with_nl (l : str) : str := l ++ [newline].
Lemma lines_block ls rest :
  Forall plain_line ls → lines (concat (with_nl <$> ls) ++ rest) = ls ++ lines rest.
Proof.
  induction 1 as [|l ls Hl Hls IH]; [done|]. cbn [fmap list_fmap concat app]. unfold with_nl at 1.
  rewrite <- !app_assoc. cbn [app]. rewrite lines_cons by done. by rewrite IH.
Qed.

Lemma render_lines p :
  render_skill_md p =
  concat (with_nl <$> front_delimiter :: front_lines p ++ [front_delimiter]) ++ trim (pr_instructions p) ++ nl.
Proof.
  unfold render_skill_md, front_lines, trigger_lines, quoted, front_delimiter, with_nl, nl.
  assert (∀ ts, concat (trigger_line <$> ts) = concat ((λ l, l ++ [newline]) <$> (item_line <$> ts))) as Hts.
  { intros ts. induction ts as [|t ts IH]; [done|]. 
    change (trigger_line t ++ concat (trigger_line <$> ts) =
            (item_line t ++ [newline]) ++ concat ((λ l, l ++ [newline]) <$> (item_line <$> ts))).
    rewrite IH. unfold trigger_line, item_line, nl. by rewrite !app_assoc. }
  generalize (lit "---") as d, (lit "name: ") as k1, (lit "description: ") as k2,
    (lit "created_by: ") as k3, (lit "triggers:") as k4. intros k4 k3 k2 k1 d.
  destruct (is_empty (pr_triggers p)) eqn:E.
  - cbn [fmap list_fmap concat app]. by do 3 (rewrite <- ?app_assoc; cbn [app]).
  - rewrite Hts. cbn [fmap list_fmap concat app]. rewrite fmap_app, concat_app.
    cbn [fmap list_fmap concat app]. rewrite ?app_nil_r. by do 4 (rewrite <- ?app_assoc; cbn [app]).
Qed.

(** A proposal whose triggers are not blank and whose text uses plain newlines. *)
Record proposal_ok (p : SkillProposal) : Prop := {
  po_name : good_name (pr_name p);
  po_created_by : good_name (pr_created_by p);
  po_triggers : Forall (λ t, ∃ c, c ∈ sanitize_inline t ∧ is_whitespace c = false) (pr_triggers p);
  po_instructions : carriage_return ∉ pr_instructions p;
}.

Lemma sanitize_char_ne c : sanitize_char c ≠ newline ∧ sanitize_char c ≠ carriage_return.
Proof.
  unfold sanitize_char. destruct (N.eqb_spec c newline), (N.eqb_spec c carriage_return); cbn [orb]; [done..|].
  by destruct (N.eqb_spec c double_quote).
Qed.
Lemma sanitize_plain s : plain_line (sanitize_inline s).
Proof.
  split; intros (c & Hc & _)%list_elem_of_fmap; destruct (sanitize_char_ne c); congruence.
Qed.
Lemma plain_app a b : plain_line a → plain_line b → plain_line (a ++ b).
Proof. unfold plain_line. rewrite !elem_of_app. tauto. Qed.
Lemma plain_name n : good_name n → plain_line n.
Proof. intros Hn. split; by apply good_name_avoids. Qed.

Lemma lit_plain s : forallb (λ c, negb ((c =? newline) || (c =? carriage_return))%N) (lit s) = true → plain_line (lit s).
Proof.
  intros H. rewrite forallb_forall in H. split; intros Hin%list_elem_of_In%H; done.
Qed.
#[local] Hint Resolve plain_app sanitize_plain plain_name : core.

Lemma front_lines_plain p : proposal_ok p → Forall plain_line (front_lines p).
Proof.
  intros [Hn Hc _ _]. unfold front_lines, trigger_lines, quoted.
  apply Forall_app. split; [|destruct (is_empty _); [constructor|]].
  - rewrite !Forall_cons, Forall_nil. split_and!; [..|done]; repeat apply plain_app; auto;
      first [by apply lit_plain | split; set_solver].
  - apply Forall_cons. split; [by apply lit_plain|]. apply Forall_fmap, Forall_true. intros t.
    apply (plain_app (lit "  - ")); [by apply lit_plain|apply sanitize_plain].
Qed.

Lemma not_delimiter c l : c ≠ 45%N → is_delimiter (c :: l) = false.
Proof.
  intros Hc. unfold is_delimiter. apply bool_decide_eq_false. intros Ht.
  destruct (trim_end_matches_prefix is_whitespace (c :: l)) as (a & Ha & _).
  change (trim_end_matches is_whitespace (c :: l)) with (trim_end (c :: l)) in Ha.
  rewrite Ht in Ha. unfold front_delimiter in Ha. change (lit "---") with [45%N; 45%N; 45%N] in Ha.
  cbn in Ha. congruence.
Qed.
Lemma until_delimiter_front front body :
  Forall (λ l, is_delimiter l = false) front →
  until_delimiter (front ++ front_delimiter :: body) = Some (front, body).
Proof.
  induction 1 as [|l front Hl Hf IH]; [by vm_compute|]. cbn [app until_delimiter]. rewrite Hl, IH. done.
Qed.
Lemma front_not_delimiter p : Forall (λ l, is_delimiter l = false) (front_lines p).
Proof.
  unfold front_lines, trigger_lines. apply Forall_app. split; [|destruct (is_empty _); [constructor|]].
  - rewrite !Forall_cons, Forall_nil. split_and!; [..|done]; by apply not_delimiter.
  - apply Forall_cons. split; [by apply not_delimiter|]. apply Forall_fmap, Forall_true. intros t.
    by apply not_delimiter.
Qed.

Lemma unquote_name n : good_name n → unquote n = n.
Proof.
  intros Hn. unfold unquote, unquote_with. destruct Hn as [Hne Hn]. destruct n as [|c n]; [done|].
  cbn in Hn. apply andb_prop in Hn as [Hc%name_char_plain _]. cbn [strip_prefix].
  destruct (N.eqb_spec double_quote c) as [<-|_]; [by destruct Hc as (?&?&?&?&?&?)|].
  destruct (N.eqb_spec single_quote c) as [<-|_]; [by destruct Hc as (?&?&?&?&?&?)|done].
Qed.
Lemma unquote_quoted s : unquote (quoted s) = s.
Proof.
  unfold unquote, unquote_with, quoted. rewrite strip_prefix_app. cbn [mbind option_bind].
  by rewrite strip_suffix_single.
Qed.
Lemma name_no_bracket n : good_name n → strip_prefix (lit "[") n = None.
Proof.
  intros [Hne Hn]. destruct n as [|c n]; [done|]. cbn in Hn. apply andb_prop in Hn as [Hc%name_char_plain _].
  change (lit "[") with [91%N]. cbn [strip_prefix]. destruct (N.eqb_spec 91 c); [lia|done].
Qed.
Lemma trim_quoted s : trim (quoted s) = quoted s.
Proof.
  apply trim_id; unfold quoted; [by intros c [= <-]|]. intros c. rewrite app_assoc, last_snoc. by intros [= <-].
Qed.

Lemma front_items map key items ts :
  Forall (λ t, ∃ c, c ∈ sanitize_inline t ∧ is_whitespace c = false) ts →
  foldl front_line (map, Some (key, items)) (item_line <$> ts) =
  (map, Some (key, items ++ ((λ t, unquote (trim (sanitize_inline t))) <$> ts))).
Proof.
  intros Ht. revert items. induction Ht as [|t ts Ht Hts IH]; intros items; [by rewrite app_nil_r|].
  cbn [fmap list_fmap foldl].
  pose proof (front_item_line map key items _ Ht) as He. change (lit "  - " ++ sanitize_inline t) with (item_line t) in He.
  rewrite He, IH. by rewrite <- app_assoc.
Qed.

(** What the front matter of a proposal says. *)
Definition proposal_map (p : SkillProposal) : front_map :=
  let map := <[lit "created_by" := FScalar (pr_created_by p)]>
    (<[lit "description" := FScalar (sanitize_inline (pr_description p))]>
      (<[lit "name" := FScalar (pr_name p)]> ∅)) in
  if is_empty (pr_triggers p) then map
  else <[lit "triggers" := FList ((λ t, unquote (trim (sanitize_inline t))) <$> pr_triggers p)]> map.

Lemma key_ok_lit c k :
  forallb (λ x, negb (x =? 58)%N) (c :: k) = true → trim (c :: k) = c :: k →
  is_whitespace c = false → c ≠ 35%N → c ≠ 45%N → key_ok (c :: k).
Proof.
  intros Hf Ht Hb H1 H2. split_and!; [|done|by exists c, k].
  intros Hin%list_elem_of_In. rewrite forallb_forall in Hf. by specialize (Hf _ Hin).
Qed.

Lemma foldl_front_lines p : proposal_ok p →
  (let '(map, pending) := foldl front_line (∅, None) (front_lines p) in flush map pending) = proposal_map p.
Proof.
  intros [Hn Hc Ht _]. unfold front_lines, proposal_map. rewrite foldl_app. cbn [foldl].
  pose proof (front_scalar_line ∅ (lit "name") (pr_name p)) as H1.
  change (lit "name" ++ lit ": " ++ pr_name p) with (lit "name: " ++ pr_name p) in H1.
  rewrite H1, unquote_name; [|done|by apply key_ok_lit|by apply trim_good_name|apply Hn|by apply name_no_bracket].
  set (m1 := <[lit "name" := _]> ∅).
  pose proof (front_scalar_line m1 (lit "description") (quoted (sanitize_inline (pr_description p)))) as H2.
  change (lit "description" ++ lit ": " ++ ?x) with (lit "description: " ++ x) in H2.
  rewrite H2, unquote_quoted; [|by apply key_ok_lit|apply trim_quoted|done|done].
  set (m2 := <[lit "description" := _]> m1).
  pose proof (front_scalar_line m2 (lit "created_by") (pr_created_by p)) as H3.
  change (lit "created_by" ++ lit ": " ++ ?x) with (lit "created_by: " ++ x) in H3.
  rewrite H3, unquote_name; [|done|by apply key_ok_lit|by apply trim_good_name|apply Hc|by apply name_no_bracket].
  set (m3 := <[lit "created_by" := _]> m2). unfold trigger_lines.
  destruct (is_empty (pr_triggers p)); [done|].
  change (foldl front_line ?a (?x :: ?l)) with (foldl front_line (front_line a x) l).
  pose proof (front_list_line m3 (lit "triggers")) as H4.
  change (lit "triggers" ++ lit ":") with (lit "triggers:") in H4.
  rewrite H4 by (by apply key_ok_lit). by rewrite front_items.
Qed.

Lemma lines_join_all ls :
  ls ≠ [] → Forall plain_line ls → Forall (λ l, l ≠ []) ls → lines (join [newline] ls) = ls.
Proof.
  destruct ls as [|x ls _] using rev_ind; [done|]. intros _ [Hp Hx]%Forall_app [_ Hne]%Forall_app.
  rewrite Forall_singleton in Hx, Hne. by apply lines_join.
Qed.
Lemma front_lines_nonempty p : Forall (λ l, l ≠ []) (front_lines p).
Proof.
  unfold front_lines, trigger_lines. apply Forall_app. split; [|destruct (is_empty _); [constructor|]].
  - rewrite !Forall_cons, Forall_nil. by split_and!.
  - apply Forall_cons. split; [done|]. by apply Forall_fmap, Forall_true.
Qed.

Lemma split_rendered p : proposal_ok p →
  split_front_matter (render_skill_md p) =
  Some (join [newline] (front_lines p), trim (pr_instructions p)).
Proof.
  intros Hp. unfold split_front_matter.
  assert (strip_prefix [BOM] (render_skill_md p) = None) as -> by reflexivity. cbn [default].
  rewrite render_lines, lines_block.
  2: { apply Forall_cons. split; [by apply lit_plain|]. apply Forall_app. split; [by apply front_lines_plain|].
       apply Forall_singleton. by apply lit_plain. }
  cbn [app]. assert (is_delimiter front_delimiter = true) as -> by (vm_compute; reflexivity).
  rewrite <- app_assoc. cbn [app]. rewrite until_delimiter_front by apply front_not_delimiter.
  cbn [mbind option_bind]. unfold nl.
  destruct (join_lines (S (length (trim (pr_instructions p)))) (trim (pr_instructions p))) as [_ ->]; [lia| |done].
  intros Hc. apply (po_instructions p Hp). unfold trim in Hc.
  destruct (trim_end_matches_prefix is_whitespace (trim_start (pr_instructions p))) as (b & Hb & _).
  destruct (trim_start_matches_suffix is_whitespace (pr_instructions p)) as (a & Ha & _).
  unfold trim_start, trim_end in *. rewrite Ha, Hb, !elem_of_app. auto.
Qed.

(** The file written for a proposal is parsed as the skill that was proposed: its
    name, author mark and instructions, its description on one line, and every
    trigger trimmed and unquoted, in order. *)
Theorem proposal_roundtrip p path source :
  proposal_ok p →
  parse_skill path source (render_skill_md p) =
  Ok {| sk_name := pr_name p; sk_version := None;
        sk_description := sanitize_inline (pr_description p); sk_author := None;
        sk_triggers := (λ t, unquote (trim (sanitize_inline t))) <$> pr_triggers p;
        sk_created_by := Some (pr_created_by p); sk_source := source; sk_path := path;
        sk_body := trim (pr_instructions p) |}.
Proof.
  intros Hp. unfold parse_skill. rewrite split_rendered by done. cbn [ok_or result_bind].
  unfold parse_front_matter. rewrite lines_join_all;
    [|done|by apply front_lines_plain|apply front_lines_nonempty].
  rewrite foldl_front_lines by done.
  assert (∀ k, k ≠ lit "triggers" → proposal_map p !! k =
    (<[lit "created_by" := FScalar (pr_created_by p)]>
      (<[lit "description" := FScalar (sanitize_inline (pr_description p))]>
        (<[lit "name" := FScalar (pr_name p)]> ∅)) : front_map) !! k) as Hk.
  { intros k Hne. unfold proposal_map. destruct (is_empty _); [done|]. by rewrite lookup_insert_ne. }
  assert (front_list (proposal_map p) (lit "triggers") =
          (λ t, unquote (trim (sanitize_inline t))) <$> pr_triggers p) as Ht.
  { unfold front_list, proposal_map. destruct (pr_triggers p); cbn [is_empty]; [done|].
    by rewrite lookup_insert_eq. }
  assert (scalar (proposal_map p) (lit "name") = Some (pr_name p)) as Hn.
  { unfold scalar. rewrite Hk by done. rewrite !lookup_insert_ne, lookup_insert_eq by done.
    destruct (po_name p Hp) as [? _]. by destruct (pr_name p). }
  assert (scalar (proposal_map p) (lit "created_by") = Some (pr_created_by p)) as Hc.
  { unfold scalar. rewrite Hk, lookup_insert_eq by done.
    destruct (po_created_by p Hp) as [? _]. by destruct (pr_created_by p). }
  assert (default [] (scalar (proposal_map p) (lit "description")) = sanitize_inline (pr_description p)) as Hd.
  { unfold scalar. rewrite Hk by done. rewrite lookup_insert_ne, lookup_insert_eq by done.
    by destruct (sanitize_inline (pr_description p)). }
  assert (∀ k, k ∈ [lit "version"; lit "author"] → scalar (proposal_map p) k = None) as Hnone.
  { intros k Hin. rewrite !elem_of_cons, elem_of_nil in Hin.
    destruct Hin as [->|[->|[]]]; unfold scalar; rewrite Hk by done;
      by rewrite !lookup_insert_ne, lookup_empty by done. }
  rewrite Hn. cbn [ok_or result_bind]. rewrite Ht, Hc, Hd, !Hnone by set_solver. by rewrite trim_trim.
Qed.

Definition demo_proposal : SkillProposal :=
  {| pr_name := lit "deploy-staging"; pr_description := lit "Deploy to staging";
     pr_triggers := [lit "deploy"; lit " staging "]; pr_instructions := lit "Run the script.";
     pr_created_by := lit "agent" |}.
Lemma proposal_roundtrip_witness :
  parse_skill [] UserSkill (render_skill_md demo_proposal) =
  Ok {| sk_name := lit "deploy-staging"; sk_version := None;
        sk_description := sanitize_inline (lit "Deploy to staging"); sk_author := None;
        sk_triggers := (λ t, unquote (trim (sanitize_inline t))) <$> [lit "deploy"; lit " staging "];
        sk_created_by := Some (lit "agent"); sk_source := UserSkill; sk_path := [];
        sk_body := trim (lit "Run the script.") |}.
Proof.
  apply (proposal_roundtrip demo_proposal [] UserSkill). split.
  - by split.
  - by split.
  - repeat constructor; [exists 100%N|exists 115%N]; (split; [apply (bool_decide_eq_true_1 _); vm_compute; reflexivity|done]).
  - apply (bool_decide_eq_false_1 _). vm_compute. reflexivity.
Defined.

(** A blank trigger ends the list in the file: the triggers after it are lost when
    the proposal is loaded. *)
Theorem blank_trigger_drops_rest :
  match parse_skill [] UserSkill (render_skill_md
          {| pr_name := lit "deploy"; pr_description := lit "d"; pr_triggers := [lit "a"; lit " "; lit "b"; lit "c"];
             pr_instructions := lit "i"; pr_created_by := lit "agent" |}) with
  | Ok s => sk_triggers s = [lit "a"]
  | Err _ => False
  end.
Proof. vm_compute. reflexivity. Qed.
