(* ===== verification/SkillProps.v ===== *)
(** * The life of a skill

    The operations on a skills directory as moves between four shelves; an unreviewed
    proposal is never active; usage, selection and consolidation. *)

From Stdlib Require Import Sorting.Sorted.
From stdpp Require Import base numbers strings gmap list relations sorting.
From S2P Require Import Prelude RustStr Utf8 TextSim Curator FileSystem Workspace CleanTree Skills SkillText.

(** ** Shelves *)

Inductive shelf := Active | Candidates | Archived | Rejected.
#[export] Instance shelf_eq_dec : EqDecision shelf.
Proof. solve_decision. Defined.

Definition shelf_path (s : shelf) : ppath :=
  match s with
  | Active => []
  | Candidates => [CANDIDATES_DIR]
  | Archived => [ARCHIVE_DIR]
  | Rejected => [CANDIDATES_DIR; ARCHIVE_DIR]
  end.

Lemma validate_good n : validate_name n = Ok tt → good_name n.
Proof.
  unfold validate_name, good_name. destruct n; [done|]. cbn [is_empty negb andb].
  by destruct (forallb name_char _).
Qed.
Lemma good_not_dotted n c l : good_name n → c = 46%N → n ≠ c :: l.
Proof. intros [_ Hn] -> ->. done. Qed.

Abbreviation view := (shelf → str → option (list byte)).

Section shelves.
Context `{OS : Faults} (root : ppath).

Definition shelf_dir (s : shelf) : ppath := root ++ shelf_path s.
Definition entry (s : shelf) (n : str) : ppath := shelf_dir s ++ [n].
Definition skill_at (s : shelf) (n : str) : ppath := entry s n ++ [SKILL_FILE].
Definition on_shelf (f : fs) (s : shelf) (n : str) : option (list byte) :=
  match f !! skill_at s n with Some (NFile b) => Some b | _ => None end.

Lemma prefixb_cancel (x y : ppath) : prefixb (root ++ x) (root ++ y) = prefixb x y.
Proof.
  apply eq_bool_prop_intro. split; intros H%Is_true_true%prefixb_true; apply Is_true_true, prefixb_true; destruct H as [r Hr].
  - exists r. rewrite <- app_assoc in Hr. by apply app_inv_head in Hr.
  - exists r. by rewrite Hr, app_assoc.
Qed.
Lemma entry_prefix s n s' m (tail : ppath) :
  good_name n → good_name m → tail = [] ∨ tail = [SKILL_FILE] →
  prefixb (entry s n) (entry s' m ++ tail) = bool_decide (s = s' ∧ n = m).
Proof.
  intros Hn Hm Ht. unfold entry, shelf_dir. rewrite <- !app_assoc, prefixb_cancel.
  assert (∀ k, good_name k → k ≠ CANDIDATES_DIR ∧ k ≠ ARCHIVE_DIR) as Hd.
  { intros k Hk. split; by apply (good_not_dotted k). }
  destruct (Hd n Hn) as [Hn1 Hn2], (Hd m Hm) as [Hm1 Hm2].
  assert (CANDIDATES_DIR ≠ ARCHIVE_DIR) as Hca by done.
  destruct (bool_decide_reflect (s = s' ∧ n = m)) as [[-> ->]|Hne].
  - apply prefixb_true. exists tail. by rewrite <- app_assoc.
  - apply not_true_iff_false. intros [r Hr]%prefixb_true. apply Hne. clear Hne.
    destruct Ht as [->| ->], s, s'; cbn [shelf_path app] in Hr; simplify_list_eq; try congruence; done.
Qed.
Lemma skill_prefix s n s' m :
  good_name n → good_name m → prefixb (entry s n) (skill_at s' m) = bool_decide (s = s' ∧ n = m).
Proof. intros Hn Hm. apply entry_prefix; auto. Qed.
Lemma entry_entry s n s' m :
  good_name n → good_name m → prefixb (entry s n) (entry s' m) = bool_decide (s = s' ∧ n = m).
Proof. intros Hn Hm. rewrite <- (app_nil_r (entry s' m)). apply entry_prefix; auto. Qed.
Lemma skill_at_inj s n s' m : good_name n → good_name m → skill_at s n = skill_at s' m → s = s' ∧ n = m.
Proof.
  intros Hn Hm Heq. pose proof (skill_prefix s n s' m Hn Hm) as H. rewrite <- Heq in H.
  unfold skill_at in H. rewrite prefixb_app in H. symmetry in H. by apply bool_decide_eq_true in H.
Qed.
Lemma shelf_below s : root `prefix_of` shelf_dir s.
Proof. by eexists. Qed.
Lemma entry_below s n : strictly_below root (entry s n).
Proof.
  exists (shelf_path s ++ [n]). split; [by destruct (shelf_path s)|]. unfold entry, shelf_dir. by rewrite app_assoc.
Qed.
Lemma skill_below s n : root `prefix_of` skill_at s n.
Proof. unfold skill_at, entry. do 2 apply prefix_app_r. apply shelf_below. Qed.

(** ** Moves *)

Definition put_on (s : shelf) (n : str) (x : option (list byte)) (v : view) : view :=
  λ s' m, if decide (s' = s ∧ m = n) then x else v s' m.
Definition move_on (a b : shelf) (n : str) (v : view) : view := put_on b n (v a n) (put_on a n None v).
Definition view_eq (v v' : view) : Prop := ∀ s m, good_name m → v s m = v' s m.

Definition same_shelves (f f' : fs) : Prop :=
  ∀ s m, good_name m → on_shelf f' s m = on_shelf f s m.
(** The skill goes from one shelf to another. *)
Definition moved (a b : shelf) (n : str) (f f' : fs) : Prop :=
  ∀ s m, good_name m →
    on_shelf f' s m =
    if decide (s = b ∧ m = n) then on_shelf f a n
    else if decide (s = a ∧ m = n) then None else on_shelf f s m.

Lemma same_shelves_refl f : same_shelves f f.
Proof. by intros s m _. Qed.
Lemma same_shelves_trans f g h : same_shelves f g → same_shelves g h → same_shelves f h.
Proof. intros H1 H2 s m Hm. by rewrite H2, H1. Qed.
Lemma grown_shelves f f' : grown root f f' → same_shelves f f'.
Proof.
  intros [_ Hg] s m _. unfold on_shelf. by destruct (Hg (skill_at s m)) as [->|[-> ->]].
Qed.
Lemma moved_after a b n f g h : same_shelves f g → good_name n → moved a b n g h → moved a b n f h.
Proof. intros H1 Hn H2 s m Hm. rewrite H2, !H1 by done. done. Qed.

Lemma has_file_shelf f s n :
  clean root f → has_skill_file (entry s n) f = bool_decide (is_Some (on_shelf f s n)).
Proof.
  intros Hc. unfold has_skill_file, on_shelf. change (entry s n ++ [SKILL_FILE]) with (skill_at s n).
  rewrite (clean_is_file root) by (done || apply skill_below). by destruct (f !! skill_at s n) as [[]|].
Qed.

Lemma rename_moves f a b n f' :
  clean root f → good_name n → a ≠ b → is_Some (on_shelf f a n) →
  rename_skill (entry a n) (entry b n) f = (Ok tt, f') → clean root f' ∧ moved a b n f f'.
Proof.
  intros Hc Hn Hab [bytes Hs]. unfold rename_skill, skill_io, fs_step, fs_rename, segs_at.
  assert (f !! entry a n = Some NDir) as Hdir.
  { unfold on_shelf in Hs. destruct (f !! skill_at a n) as [[]|] eqn:E; try done.
    by apply (fs_parents _ _ (cl_ok _ _ Hc)) in E. }
  pose proof (clean_entry root f (shelf_dir a) n Hc (shelf_below a)) as Ha.
  pose proof (clean_entry root f (shelf_dir b) n Hc (shelf_below b)) as Hb.
  change (shelf_dir a ++ [n]) with (entry a n) in Ha. change (shelf_dir b ++ [n]) with (entry b n) in Hb.
  destruct (entry_at f (SNormal <$> entry a n)) as [ea|]; [|done]. destruct Ha as [-> _]. cbn [result_bind].
  destruct (entry_at f (SNormal <$> entry b n)) as [eb|]; [|done]. destruct Hb as [-> Hbd]. cbn [result_bind].
  assert (prefixb (entry a n) (entry b n) = false) as P1.
  { rewrite entry_entry by done. by apply bool_decide_eq_false; intros [? _]. }
  assert (prefixb (entry b n) (entry a n) = false) as P2.
  { rewrite entry_entry by done. by apply bool_decide_eq_false; intros [? _]. }
  destruct (decide (entry a n = entry b n)) as [He|_].
  { pose proof (prefixb_app (entry a n) []) as Hp. rewrite app_nil_r in Hp. by rewrite <- He, Hp in P1. }
  rewrite Hdir, P1. intros Hr.
  assert (f' = move_tree (entry a n) (entry b n) f) as ->.
  { destruct (refuse_rename f _ _); cbn [unless_refused] in Hr;
      (destruct (f !! entry b n) as [[]|]; [done|destruct (has_children f (entry b n))|done|]);
      cbn [map_err] in Hr; first [done | by injection Hr]. }
  split; [apply clean_move; try done; [apply entry_below|apply shelf_below]|].
  intros s m Hm. unfold on_shelf. rewrite (move_tree_lookup _ _ P1 P2), !skill_prefix by done.
  destruct (decide (s = b ∧ m = n)) as [[-> ->]|Hsb].
  - rewrite bool_decide_eq_true_2 by done. unfold skill_at at 1. by rewrite drop_app_length.
  - rewrite bool_decide_eq_false_2 by (intros [-> ->]; by apply Hsb).
    destruct (decide (s = a ∧ m = n)) as [[-> ->]|Hsa].
    + by rewrite bool_decide_eq_true_2.
    + by rewrite bool_decide_eq_false_2 by (intros [-> ->]; by apply Hsa).
Qed.

(** A failure that comes from the file system. *)
Definition is_io (e : SkillError) : bool := match e with SkillIo _ _ => true | _ => false end.
Lemma rename_fails f a b n e f' :
  rename_skill (entry a n) (entry b n) f = (Err e, f') → f' = f ∧ is_io e = true.
Proof.
  unfold rename_skill, skill_io, fs_step. destruct (fs_rename _ _ f); cbn [map_err]; [done|].
  by intros [= <- <-].
Qed.
Lemma moved_view a b n f f' : moved a b n f f' → view_eq (on_shelf f') (move_on a b n (on_shelf f)).
Proof. intros H s m Hm. rewrite H by done. unfold move_on, put_on. done. Qed.
Lemma same_view f f' : same_shelves f f' → view_eq (on_shelf f') (on_shelf f).
Proof. intros H s m Hm. by apply H. Qed.

(** Nothing is on the shelf under the name any more, and the rest is as it was. *)
Definition emptied (s : shelf) (n : str) (f f' : fs) : Prop :=
  view_eq (on_shelf f') (put_on s n None (on_shelf f)).

(** Clearing a place removes what is there, and when it fails it may have removed the
    skill file already. *)
Lemma clear_dir_spec f s n :
  clean root f → good_name n → f !! shelf_dir s = Some NDir →
  let '(r, f') := clear_dir (entry s n) f in
  clean root f' ∧
  match r with
  | Ok _ => emptied s n f f'
  | Err e => is_io e = true ∧ (same_shelves f f' ∨ emptied s n f f')
  end.
Proof.
  intros Hc Hn Hd. unfold clear_dir, st_bind, st_gets.
  assert (root `prefix_of` entry s n) as Hbelow by (apply prefix_app_r, shelf_below).
  rewrite (clean_exists root) by done.
  destruct (f !! entry s n) as [x|] eqn:Ex.
  2: { rewrite bool_decide_eq_false_2 by (intros [? [=]]). split; [done|]. intros s' m Hm. unfold put_on.
       destruct (decide (s' = s ∧ m = n)) as [[-> ->]|]; [|done]. unfold on_shelf.
       destruct (f !! skill_at s n) eqn:E; [|done].
       apply (fs_parents _ _ (cl_ok _ _ Hc)) in E. congruence. }
  rewrite bool_decide_eq_true_2 by done.
  unfold remove_skill_dir, skill_io, fs_remove_dir_all, segs_at.
  pose proof (clean_entry root f (shelf_dir s) n Hc (shelf_below s)) as He.
  change (shelf_dir s ++ [n]) with (entry s n) in He.
  destruct (entry_at f (SNormal <$> entry s n)) as [e|]; [|split; [done|]; split; [done|]; by left]. destruct He as [-> _].
  rewrite Ex. destruct x as [b| |t]; cbn [map_err];
    [split; [done|]; split; [done|]; by left| |by destruct (cl_links _ _ Hc (entry s n) t)].
  destruct (refuse_remove_tree f (entry s n)) as [[e gone]|]; cbn [map_err].
  - split; [apply clean_remove_below; [done|apply entry_below]|]. split; [done|].
    assert (∀ s' m, good_name m → ¬ (s' = s ∧ m = n) →
      on_shelf (remove_below gone (entry s n) f) s' m = on_shelf f s' m) as Hother.
    { intros s' m Hm Hne. unfold on_shelf.
      destruct (remove_below_lookup gone (entry s n) f (skill_at s' m)) as [->|(_ & Hp & _)]; [done|].
      rewrite skill_prefix in Hp by done. apply bool_decide_eq_true in Hp as [-> ->]. by destruct Hne. }
    destruct (remove_below_lookup gone (entry s n) f (skill_at s n)) as [Hk|[Hk _]]; [left|right].
    + intros s' m Hm. destruct (decide (s' = s ∧ m = n)) as [[-> ->]|]; [|by apply Hother].
      unfold on_shelf. by rewrite Hk.
    + intros s' m Hm. unfold put_on. destruct (decide (s' = s ∧ m = n)) as [[-> ->]|]; [|by apply Hother].
      unfold on_shelf. by rewrite Hk.
  - split; [apply clean_remove; [done|apply entry_below]|]. intros s' m Hm. unfold on_shelf, put_on.
    rewrite remove_tree_lookup, skill_prefix by done.
    destruct (decide (s' = s ∧ m = n)) as [[-> ->]|Hne]; [by rewrite bool_decide_eq_true_2|].
    rewrite bool_decide_eq_false_2; [done|]. intros [-> ->]. by destruct Hne.
Qed.

(** Creating a shelf, clearing the place and moving there.  A failure may come after the
    place was cleared. *)
Lemma retire_spec f a b n :
  clean root f → good_name n → a ≠ b → is_Some (on_shelf f a n) →
  let '(r, f') := (do! create_skill_dir (shelf_dir b) in do! clear_dir (entry b n) in
                   rename_skill (entry a n) (entry b n)) f in
  clean root f' ∧
  match r with
  | Ok _ => moved a b n f f'
  | Err e => is_io e = true ∧ (same_shelves f f' ∨ emptied b n f f')
  end.
Proof.
  intros Hc Hn Hab Hs. unfold st_bind at 1, create_skill_dir, skill_io, fs_create_dir_all, segs_at.
  pose proof (create_dirs_clean root (shelf_path b) (length (SNormal <$> shelf_dir b)) f Hc) as Hcr.
  change (root ++ shelf_path b) with (shelf_dir b) in Hcr.
  destruct (create_dirs _ _ f) as [[[]|e] f1]; destruct Hcr as [Hg Hd]; cbn [map_err];
    [|split; [apply Hg|]; split; [done|left; by apply grown_shelves]].
  pose proof (gr_clean _ _ _ Hg) as Hc1. pose proof (grown_shelves _ _ Hg) as Hsame.
  assert (∀ f2, emptied b n f1 f2 → emptied b n f f2) as Hem.
  { intros f2 H2 s m Hm. rewrite (H2 s m Hm). unfold put_on. destruct (decide _); [done|by apply Hsame]. }
  unfold st_bind. pose proof (clear_dir_spec f1 b n Hc1 Hn (Hd eq_refl)) as Hcl.
  destruct (clear_dir (entry b n) f1) as [[[]|e] f2]; destruct Hcl as [Hc2 Hcl].
  2: { split; [done|]. destruct Hcl as [Hio [Hcl|Hcl]]; (split; [done|]); [left|right; by apply Hem].
       by eapply same_shelves_trans. }
  apply Hem in Hcl.
  destruct (rename_skill (entry a n) (entry b n) f2) as [[[]|e] f3] eqn:Er.
  2: { apply rename_fails in Er as [-> Hio]. split; [done|]. split; [done|]. by right. }
  assert (∀ s' m, good_name m → ¬ (s' = b ∧ m = n) → on_shelf f2 s' m = on_shelf f s' m) as Hsame3.
  { intros s' m Hm Hne. rewrite (Hcl s' m Hm). unfold put_on. by rewrite decide_False. }
  assert (is_Some (on_shelf f2 a n)) as Hs2 by (rewrite Hsame3; [done|done|by intros [? _]]).
  destruct (rename_moves f2 a b n f3 Hc2 Hn Hab Hs2 Er) as [Hc3 Hm]. split; [done|].
  intros s m Hgm. rewrite Hm by done. destruct (decide (s = b ∧ m = n)); [apply Hsame3; [done|by intros [? _]]|].
  destruct (decide (s = a ∧ m = n)); [done|]. by apply Hsame3.
Qed.

(** ** The specification: four shelves of files *)

Definition is_some {A} (o : option A) : bool := match o with Some _ => true | None => false end.

Inductive skill_op :=
| Propose (p : SkillProposal) | Approve (n : str) | Reject (n : str) | Archive (n : str) | Restore (n : str).

(** Only a new name is proposed; only what waits is approved or rejected, only what is
    active is archived; nothing replaces an active skill. *)
Definition spec_step (o : skill_op) (v : view) : option view :=
  match o with
  | Propose p =>
      if is_ok (validate_name (pr_name p)) && negb (is_some (v Active (pr_name p))) &&
         negb (is_some (v Candidates (pr_name p)))
      then Some (put_on Candidates (pr_name p) (Some (utf8 (render_skill_md p))) v) else None
  | Approve n =>
      if is_ok (validate_name n) && is_some (v Candidates n) && negb (is_some (v Active n))
      then Some (move_on Candidates Active n v) else None
  | Reject n =>
      if is_ok (validate_name n) && is_some (v Candidates n)
      then Some (move_on Candidates Rejected n v) else None
  | Archive n =>
      if is_ok (validate_name n) && is_some (v Active n)
      then Some (move_on Active Archived n v) else None
  | Restore n =>
      if is_ok (validate_name n) && is_some (v Archived n) && negb (is_some (v Active n))
      then Some (move_on Archived Active n v) else None
  end.

(** What an operation that fails may have done.  One that the specification does not
    allow is refused and changes nothing.  One that it allows fails only on the file
    system: then a proposal may be there with the first bytes of its text only, and a
    rejection or an archiving may have removed the older skill whose place it takes. *)
Definition left_over (o : skill_op) (v v' : view) : Prop :=
  match o with
  | Propose p => ∃ k, view_eq v' (put_on Candidates (pr_name p) (Some (take k (utf8 (render_skill_md p)))) v)
  | Reject n => view_eq v' (put_on Rejected n None v)
  | Archive n => view_eq v' (put_on Archived n None v)
  | Approve _ | Restore _ => False
  end.
Definition spec_failed (o : skill_op) (v : view) (e : SkillError) (v' : view) : Prop :=
  match spec_step o v with
  | None => is_io e = false ∧ view_eq v' v
  | Some _ => is_io e = true ∧ (view_eq v' v ∨ left_over o v v')
  end.

Definition ignore {A} (m : skillop A) : skillop unit := do! m in st_ret tt.
Definition run_skill_op (o : skill_op) : skillop unit :=
  match o with
  | Propose p => ignore (propose_skill root p)
  | Approve n => ignore (approve_candidate root n)
  | Reject n => reject_candidate root n
  | Archive n => ignore (archive_skill root n)
  | Restore n => ignore (restore_skill root n)
  end.

(** What a run of an operation shows of the shelves. *)
Definition spec_outcome (o : skill_op) (v : view) (r : result SkillError unit) (v' : view) : Prop :=
  match r with
  | Ok _ => ∃ w, spec_step o v = Some w ∧ view_eq v' w
  | Err e => spec_failed o v e v'
  end.
Definition implements (o : skill_op) (f : fs) (r : result SkillError unit) (f' : fs) : Prop :=
  clean root f' ∧ spec_outcome o (on_shelf f) r (on_shelf f').
Lemma implements_refused o f e :
  clean root f → spec_step o (on_shelf f) = None → is_io e = false → implements o f (Err e) f.
Proof. intros Hc Hs He. split; [done|]. cbn. unfold spec_failed. by rewrite Hs. Qed.
Lemma implements_failed o f e f' w :
  clean root f' → spec_step o (on_shelf f) = Some w → is_io e = true →
  view_eq (on_shelf f') (on_shelf f) ∨ left_over o (on_shelf f) (on_shelf f') → implements o f (Err e) f'.
Proof. intros Hc Hs He Hv. split; [done|]. cbn. unfold spec_failed. by rewrite Hs. Qed.
Lemma invalid_is_io n e : validate_name n = Err e → is_io e = false.
Proof. unfold validate_name. destruct (_ && _); [done|]. by intros [= <-]. Qed.

Lemma is_some_true {A} (o : option A) : is_Some o → is_some o = true.
Proof. by intros [x ->]. Qed.
Lemma is_some_false {A} (o : option A) : ¬ is_Some o → is_some o = false.
Proof. destruct o; [|done]. intros H. by destruct H. Qed.

(** Approving and restoring: a skill goes to the active ones, unless one is there. *)
Lemma approve_like o a f n (miss taken : SkillError) :
  clean root f → good_name n → a ≠ Active → is_io miss = false → is_io taken = false →
  (∀ v, spec_step o v =
     if is_some (v a n) && negb (is_some (v Active n)) then Some (move_on a Active n v) else None) →
  let '(r, f') :=
    (let! waiting := st_gets (has_skill_file (entry a n)) in
     if negb waiting then st_err miss
     else let! active := st_gets (has_skill_file (entry Active n)) in
          if active then st_err taken else rename_skill (entry a n) (entry Active n)) f in
  implements o f r f'.
Proof.
  intros Hc Hn Ha Hmiss Htaken Hspec. unfold st_bind, st_gets. rewrite !has_file_shelf by done.
  destruct (bool_decide_reflect (is_Some (on_shelf f a n))) as [Hs|Hs]; cbn [negb].
  2: { apply implements_refused; [done| |done]. by rewrite Hspec, (is_some_false _ Hs). }
  rewrite has_file_shelf by done.
  destruct (bool_decide_reflect (is_Some (on_shelf f Active n))) as [Hs2|Hs2].
  { apply implements_refused; [done| |done]. by rewrite Hspec, !is_some_true. }
  assert (spec_step o (on_shelf f) = Some (move_on a Active n (on_shelf f))) as Hsp
    by (by rewrite Hspec, is_some_true, is_some_false).
  destruct (rename_skill (entry a n) (entry Active n) f) as [[[]|e] f'] eqn:Er.
  - destruct (rename_moves f a Active n f' Hc Hn Ha Hs Er) as [Hc' Hm].
    split; [done|]. eexists. split; [exact Hsp|by apply moved_view].
  - apply rename_fails in Er as [-> Hio]. eapply implements_failed; [done|exact Hsp|done|by left].
Qed.

(** The file of a candidate: written as a whole, cut short, or not at all. *)
Lemma write_skill_spec f n text :
  clean root f → good_name n → f !! entry Candidates n = Some NDir →
  let '(r, f') := write_skill_file (skill_at Candidates n) text f in
  clean root f' ∧
  match r with
  | Ok _ => view_eq (on_shelf f') (put_on Candidates n (Some (utf8 text)) (on_shelf f))
  | Err e => is_io e = true ∧ (f' = f ∨
      ∃ k, view_eq (on_shelf f') (put_on Candidates n (Some (take k (utf8 text))) (on_shelf f)))
  end.
Proof.
  intros Hc Hn Hd. unfold write_skill_file, skill_io.
  assert (∀ bytes, (f !! skill_at Candidates n = None ∨ ∃ b, f !! skill_at Candidates n = Some (NFile b)) →
    let f' := <[skill_at Candidates n := NFile bytes]> f in
    clean root f' ∧ view_eq (on_shelf f') (put_on Candidates n (Some bytes) (on_shelf f))) as Hput.
  { intros bytes Hnew f'. split.
    - destruct (insert_file_confined root f (entry Candidates n) SKILL_FILE bytes) as [_ Hok]; [apply Hc|
        apply prefix_app_r, shelf_below|done|done|]. split; [done|]. intros q t Hq. unfold f'.
      destruct (decide (skill_at Candidates n = q)) as [<-|Hne]; [by rewrite lookup_insert_eq|].
      rewrite lookup_insert_ne by done. by apply (cl_links _ _ Hc).
    - intros s m Hm. unfold on_shelf, put_on, f'. destruct (decide (s = Candidates ∧ m = n)) as [[-> ->]|Hne].
      + by rewrite lookup_insert_eq.
      + rewrite lookup_insert_ne; [done|]. intros Heq. apply Hne. symmetry in Heq. by apply skill_at_inj in Heq. }
  unfold fs_write, put_file.
  assert (∀ q l, lookup_path f (path_at (skill_at Candidates n)) = FoundAt q l → q = skill_at Candidates n) as Hfound.
  { intros q l Hl. apply (clean_canonical root f); [done|apply skill_below|]. unfold canonicalize_path. by rewrite Hl. }
  assert (∀ q, lookup_path f (path_at (skill_at Candidates n)) = MissingAt q → q = skill_at Candidates n) as Hmiss.
  { intros q. unfold lookup_path, skill_at. cbn [p_segs path_at p_slash]. rewrite fmap_app, resolve_app.
    rewrite (clean_resolve_dir root) by done. cbn [fmap list_fmap]. rewrite resolve_normal, Hd. cbn [is_dir_node].
    destruct (f !! (entry Candidates n ++ [SKILL_FILE])) as [[b| |t]|] eqn:E; rewrite ?resolve_nil; [done..| |by intros [= <-]].
    by destruct (cl_links _ _ Hc _ t (skill_below Candidates n)). }
  destruct (lookup_path f _) as [q l|q|e] eqn:El; [| |split; [done|]; split; [done|]; by left].
  - rewrite (Hfound q l eq_refl). destruct (f !! skill_at Candidates n) as [[b| |]|] eqn:Eq;
      [|split; [done|]; split; [done|]; by left..].
    destruct (refuse_write f _ (utf8 text)) as [[e [k|]]|]; cbn [map_err]; [|split; [done|]; split; [done|]; by left|].
    + destruct (Hput (take k (utf8 text))) as [H1 H2]; [eauto|]. split; [done|]. split; [done|]. right. by exists k.
    + by destruct (Hput (utf8 text)) as [H1 H2]; [eauto|].
  - rewrite (Hmiss q eq_refl). cbn [p_slash path_at].
    destruct (resolve_missing_dir f MAX_LINKS (p_segs (path_at (skill_at Candidates n))) [] (skill_at Candidates n)) as [Hnone _].
    { unfold lookup_path in El. rewrite (Hmiss q eq_refl) in El.
      destruct (resolve_segs _ _ _ _); [by destruct (_ && _)|done|done]. }
    destruct (refuse_write f _ (utf8 text)) as [[e [k|]]|]; cbn [map_err]; [|split; [done|]; split; [done|]; by left|].
    + destruct (Hput (take k (utf8 text))) as [H1 H2]; [eauto|]. split; [done|]. split; [done|]. right. by exists k.
    + by destruct (Hput (utf8 text)) as [H1 H2]; [eauto|].
Qed.

Lemma validate_ok n u : validate_name n = Ok u → is_ok (validate_name n) = true ∧ good_name n.
Proof. intros H. destruct u. split; [by rewrite H|by apply validate_good]. Qed.

(** The operations as the source composes them, in terms of the lemmas above. *)
Lemma propose_implements f p :
  clean root f → let '(r, f') := run_skill_op (Propose p) f in implements (Propose p) f r f'.
Proof.
  intros Hc. cbn [run_skill_op]. unfold ignore, propose_skill, st_bind, st_lift, st_gets.
  destruct (validate_name (pr_name p)) as [u|e] eqn:Ev.
  2: { apply implements_refused; [done| |by eapply invalid_is_io]. cbn [spec_step]. by rewrite Ev. }
  destruct (validate_ok _ _ Ev) as [Hv Hn].
  replace (root ++ [pr_name p]) with (entry Active (pr_name p))
    by (unfold entry, shelf_dir; by rewrite app_nil_r).
  change (candidates_root root ++ [pr_name p]) with (entry Candidates (pr_name p)).
  rewrite !has_file_shelf by done.
  destruct (bool_decide_reflect (is_Some (on_shelf f Active (pr_name p)))) as [H1|H1].
  { apply implements_refused; [done| |done]. cbn [spec_step]. by rewrite Hv, (is_some_true _ H1). }
  rewrite has_file_shelf by done.
  destruct (bool_decide_reflect (is_Some (on_shelf f Candidates (pr_name p)))) as [H2|H2].
  { apply implements_refused; [done| |done]. cbn [spec_step]. by rewrite Hv, (is_some_true _ H2), andb_false_r. }
  assert (∃ w, spec_step (Propose p) (on_shelf f) = Some w ∧
    w = put_on Candidates (pr_name p) (Some (utf8 (render_skill_md p))) (on_shelf f)) as (w & Hsp & Hw0).
  { eexists. split; [|done]. cbn [spec_step]. by rewrite Hv, !is_some_false. }
  unfold create_skill_dir, skill_io at 1, fs_create_dir_all, segs_at.
  pose proof (create_dirs_clean root [CANDIDATES_DIR; pr_name p]
    (length (SNormal <$> entry Candidates (pr_name p))) f Hc) as Hcr.
  replace (root ++ [CANDIDATES_DIR; pr_name p]) with (entry Candidates (pr_name p)) in Hcr
    by (unfold entry, shelf_dir; by rewrite <- app_assoc).
  destruct (create_dirs _ _ f) as [[[]|e] f1]; destruct Hcr as [Hg Hd]; cbn [map_err];
    [|eapply implements_failed; [apply Hg|exact Hsp|done|left; by apply same_view, grown_shelves]].
  pose proof (grown_shelves _ _ Hg) as Hsame.
  assert (∀ x f2, view_eq (on_shelf f2) (put_on Candidates (pr_name p) x (on_shelf f1)) →
                  view_eq (on_shelf f2) (put_on Candidates (pr_name p) x (on_shelf f))) as Hput.
  { intros x f2 H s m Hm. rewrite (H s m Hm). unfold put_on. destruct (decide _); [done|by apply Hsame]. }
  pose proof (write_skill_spec f1 (pr_name p) (render_skill_md p) (gr_clean _ _ _ Hg) Hn (Hd eq_refl)) as Hw.
  change (entry Candidates (pr_name p) ++ [SKILL_FILE]) with (skill_at Candidates (pr_name p)).
  destruct (write_skill_file _ _ f1) as [[[]|e] f2]; destruct Hw as [Hc2 Hw].
  - split; [done|]. exists w. split; [done|]. rewrite Hw0. by apply Hput.
  - destruct Hw as [Hio Hw]. eapply implements_failed; [done|exact Hsp|done|].
    destruct Hw as [-> |[k Hw]]; [left; by apply same_view|right; exists k; by apply Hput].
Qed.

Lemma approve_implements f n :
  clean root f → let '(r, f') := run_skill_op (Approve n) f in implements (Approve n) f r f'.
Proof.
  intros Hc. cbn [run_skill_op]. unfold ignore, approve_candidate.
  unfold st_bind at 1 2, st_lift at 1.
  destruct (validate_name n) as [u|e] eqn:Ev.
  2: { apply implements_refused; [done| |by eapply invalid_is_io]. cbn [spec_step]. by rewrite Ev. }
  destruct (validate_ok _ _ Ev) as [Hv Hn].
  replace (root ++ [n]) with (entry Active n) by (unfold entry, shelf_dir; by rewrite app_nil_r).
  change (candidates_root root ++ [n]) with (entry Candidates n).
  pose proof (approve_like (Approve n) Candidates f n (UnknownCandidate n) (AlreadyActive n) Hc Hn ltac:(done) eq_refl eq_refl) as Ha.
  assert (∀ v, spec_step (Approve n) v = if is_some (v Candidates n) && negb (is_some (v Active n))
                then Some (move_on Candidates Active n v) else None) as Hsp by (intros v; cbn [spec_step]; by rewrite Hv).
  specialize (Ha Hsp). unfold st_bind, st_gets, st_ret, st_err in *.
  destruct (negb (has_skill_file (entry Candidates n) f)); [done|].
  destruct (has_skill_file (entry Active n) f); [done|].
  by destruct (rename_skill _ _ f) as [[[]|e] f'].
Qed.
Lemma restore_implements f n :
  clean root f → let '(r, f') := run_skill_op (Restore n) f in implements (Restore n) f r f'.
Proof.
  intros Hc. cbn [run_skill_op]. unfold ignore, restore_skill.
  unfold st_bind at 1 2, st_lift at 1.
  destruct (validate_name n) as [u|e] eqn:Ev.
  2: { apply implements_refused; [done| |by eapply invalid_is_io]. cbn [spec_step]. by rewrite Ev. }
  destruct (validate_ok _ _ Ev) as [Hv Hn].
  replace (root ++ [n]) with (entry Active n) by (unfold entry, shelf_dir; by rewrite app_nil_r).
  change (archive_root root ++ [n]) with (entry Archived n).
  pose proof (approve_like (Restore n) Archived f n (UnknownSkill n) (AlreadyActive n) Hc Hn ltac:(done) eq_refl eq_refl) as Ha.
  assert (∀ v, spec_step (Restore n) v = if is_some (v Archived n) && negb (is_some (v Active n))
                then Some (move_on Archived Active n v) else None) as Hsp by (intros v; cbn [spec_step]; by rewrite Hv).
  specialize (Ha Hsp). unfold st_bind, st_gets, st_ret, st_err in *.
  destruct (negb (has_skill_file (entry Archived n) f)); [done|].
  destruct (has_skill_file (entry Active n) f); [done|].
  by destruct (rename_skill _ _ f) as [[[]|e] f'].
Qed.
Lemma reject_implements f n :
  clean root f → let '(r, f') := run_skill_op (Reject n) f in implements (Reject n) f r f'.
Proof.
  intros Hc. cbn [run_skill_op]. unfold reject_candidate. unfold st_bind at 1, st_lift at 1.
  destruct (validate_name n) as [u|e] eqn:Ev.
  2: { apply implements_refused; [done| |by eapply invalid_is_io]. cbn [spec_step]. by rewrite Ev. }
  destruct (validate_ok _ _ Ev) as [Hv Hn]. unfold st_bind at 1, st_gets at 1.
  change (candidates_root root ++ [n]) with (entry Candidates n). rewrite has_file_shelf by done.
  destruct (bool_decide_reflect (is_Some (on_shelf f Candidates n))) as [Hs|Hs]; cbn [negb].
  2: { apply implements_refused; [done| |done]. cbn [spec_step]. by rewrite Hv, (is_some_false _ Hs). }
  assert (spec_step (Reject n) (on_shelf f) = Some (move_on Candidates Rejected n (on_shelf f))) as Hsp
    by (cbn [spec_step]; by rewrite Hv, is_some_true).
  replace (candidates_root root ++ [ARCHIVE_DIR; n]) with (entry Rejected n)
    by (unfold entry, shelf_dir, candidates_root; by rewrite <- !app_assoc).
  replace (candidates_root root ++ [ARCHIVE_DIR]) with (shelf_dir Rejected)
    by (unfold shelf_dir, candidates_root; by rewrite <- !app_assoc).
  pose proof (retire_spec f Candidates Rejected n Hc Hn ltac:(done) Hs) as Hr.
  destruct ((do! _ in _) f) as [[[]|e] f']; destruct Hr as [Hc' Hm].
  - split; [done|]. eexists. split; [exact Hsp|by apply moved_view].
  - destruct Hm as [Hio Hm]. eapply implements_failed; [done|exact Hsp|done|].
    destruct Hm as [Hm|Hm]; [left; by apply same_view|right; exact Hm].
Qed.
Lemma archive_implements f n :
  clean root f → let '(r, f') := run_skill_op (Archive n) f in implements (Archive n) f r f'.
Proof.
  intros Hc. cbn [run_skill_op]. unfold ignore, archive_skill. unfold st_bind at 1 2, st_lift at 1.
  destruct (validate_name n) as [u|e] eqn:Ev.
  2: { apply implements_refused; [done| |by eapply invalid_is_io]. cbn [spec_step]. by rewrite Ev. }
  destruct (validate_ok _ _ Ev) as [Hv Hn]. unfold st_bind at 1, st_gets at 1.
  replace (root ++ [n]) with (entry Active n) by (unfold entry, shelf_dir; by rewrite app_nil_r).
  rewrite has_file_shelf by done.
  destruct (bool_decide_reflect (is_Some (on_shelf f Active n))) as [Hs|Hs]; cbn [negb].
  2: { apply implements_refused; [done| |done]. cbn [spec_step]. by rewrite Hv, (is_some_false _ Hs). }
  assert (spec_step (Archive n) (on_shelf f) = Some (move_on Active Archived n (on_shelf f))) as Hsp
    by (cbn [spec_step]; by rewrite Hv, is_some_true).
  change (archive_root root ++ [n]) with (entry Archived n).
  change (archive_root root) with (shelf_dir Archived).
  pose proof (retire_spec f Active Archived n Hc Hn ltac:(done) Hs) as Hr.
  assert (∀ e f', clean root f' ∧ is_io e = true ∧ (same_shelves f f' ∨ emptied Archived n f f') →
    implements (Archive n) f (Err e) f') as Hfail.
  { intros e f' (Hc' & Hio & Hm). eapply implements_failed; [done|exact Hsp|done|].
    destruct Hm as [Hm|Hm]; [left; by apply same_view|right; exact Hm]. }
  unfold st_bind in *.
  destruct (create_skill_dir _ f) as [[[]|e] f1]; [|by apply Hfail].
  destruct (clear_dir _ f1) as [[[]|e] f2]; [|by apply Hfail].
  destruct (rename_skill _ _ f2) as [[[]|e] f3]; [|by apply Hfail].
  destruct Hr as [Hc' Hm]. split; [done|]. eexists. split; [exact Hsp|by apply moved_view].
Qed.

Lemma skill_op_implements o f :
  clean root f → let '(r, f') := run_skill_op o f in implements o f r f'.
Proof.
  destruct o; [apply propose_implements|apply approve_implements|apply reject_implements|
    apply archive_implements|apply restore_implements].
Qed.
End shelves.

(** ** Sequences of operations

    Each operation meets a system of its own: what is refused may change from one to
    the next. *)

Fixpoint run_skill_ops (root : ppath) (ops : list (Faults * skill_op)) (f : fs) : fs :=
  match ops with
  | [] => f
  | (OS, o) :: ops => run_skill_ops root ops (run_skill_op (OS := OS) root o f).2
  end.
(** The operations with their results. *)
Fixpoint outcomes (root : ppath) (ops : list (Faults * skill_op)) (f : fs)
    : list (skill_op * result SkillError unit) :=
  match ops with
  | [] => []
  | (OS, o) :: ops => let '(r, f') := run_skill_op (OS := OS) root o f in (o, r) :: outcomes root ops f'
  end.

(** The runs of the specification: each operation with its result and what it does to
    the shelves. *)
Inductive spec_runs : list (skill_op * result SkillError unit) → view → view → Prop :=
| spec_runs_nil v : spec_runs [] v v
| spec_runs_cons o r l v w u : spec_outcome o v r w → spec_runs l w u → spec_runs ((o, r) :: l) v u.

Lemma run_ops_refine root ops f :
  clean root f →
  clean root (run_skill_ops root ops f) ∧
  spec_runs (outcomes root ops f) (on_shelf root f) (on_shelf root (run_skill_ops root ops f)).
Proof.
  revert f. induction ops as [|[OS o] ops IH]; intros f Hc; cbn [run_skill_ops outcomes];
    [split; [done|constructor]|].
  pose proof (skill_op_implements (OS := OS) root o f Hc) as Hi.
  destruct (run_skill_op root o f) as [r f1]. destruct Hi as [Hc1 Hi]. cbn [snd].
  destruct (IH f1 Hc1) as [Hc2 Hr]. split; [done|]. by econstructor.
Qed.

(** C24. In a skills directory without links, any sequence of proposals, approvals,
    rejections, archivings and restorations does to the active, candidate, archived and
    rejected skills what the specification says for their results, whatever calls the
    system refuses on the way.  One that succeeds moves or adds its skill.  One that the
    specification does not allow is refused and changes nothing.  One that it allows
    fails only on the file system, and then it changes nothing, except that a proposal
    may be left with the first bytes of its text, and a rejection or an archiving may
    have removed the older skill it was to replace. *)
Theorem skill_store_refines root ops f :
  clean root f →
  spec_runs (outcomes root ops f) (on_shelf root f) (on_shelf root (run_skill_ops root ops f)).
Proof. intros Hc. apply (run_ops_refine root ops f Hc). Qed.

(** ** The review gate *)

Definition activates (n : str) (o : skill_op) : bool :=
  match o with Approve m | Restore m => bool_decide (m = n) | _ => false end.

Lemma spec_step_active n o v w b :
  good_name n → activates n o = false → spec_step o v = Some w → w Active n = Some b → v Active n = Some b.
Proof.
  intros Hn Ha. destruct o as [p|m|m|m|m]; cbn [spec_step activates] in *;
    (destruct (_ && _); [|done]); intros [= <-]; unfold move_on, put_on;
    repeat match goal with |- context [decide ?P] => destruct (decide P) as [[? ?]|] end; try done;
    apply bool_decide_eq_false in Ha; congruence.
Qed.
Lemma left_over_active n o v w : good_name n → left_over o v w → w Active n = v Active n.
Proof.
  intros Hn. destruct o as [p|m|m|m|m]; cbn [left_over]; [intros [k H]|done|intros H|intros H|done];
    by rewrite (H Active n Hn).
Qed.
Lemma spec_outcome_active n o r v w b :
  good_name n → activates n o = false → spec_outcome o v r w → w Active n = Some b → v Active n = Some b.
Proof.
  intros Hn Ha. destruct r as [u|e]; cbn [spec_outcome].
  - intros (w' & Hs & Hw). rewrite (Hw _ _ Hn). by eapply spec_step_active.
  - unfold spec_failed. destruct (spec_step o v); intros [_ H]; [|by rewrite (H _ _ Hn)].
    destruct H as [H|H]; [by rewrite (H _ _ Hn)|by rewrite (left_over_active n o v w Hn H)].
Qed.
Lemma spec_runs_active n l v w b :
  good_name n → forallb (λ x, negb (activates n x.1)) l = true → spec_runs l v w →
  w Active n = Some b → v Active n = Some b.
Proof.
  intros Hn Hl Hr. induction Hr as [|o r l v w u Ho _ IH]; [done|].
  cbn [forallb fst] in Hl. apply andb_prop in Hl as [Ha%negb_true_iff Hl]. intros Hb.
  eapply spec_outcome_active; [done|done|exact Ho|]. by apply IH.
Qed.
Lemma outcomes_ops (P : skill_op → bool) root ops f :
  forallb (λ x, P x.1) (outcomes root ops f) = forallb (λ x, P x.2) ops.
Proof.
  revert f. induction ops as [|[OS o] ops IH]; intros f; cbn [forallb outcomes]; [done|].
  destruct (run_skill_op root o f) as [r f']. cbn [forallb fst snd]. by rewrite IH.
Qed.

(** C25. Whatever is proposed, rejected or archived, and whatever calls the system
    refuses, a skill is active afterwards only if it was active before with the same
    contents, unless its name was approved or restored. *)
Theorem skill_review_gate root ops f n b :
  clean root f → good_name n → forallb (λ x, negb (activates n x.2)) ops = true →
  on_shelf root (run_skill_ops root ops f) Active n = Some b → on_shelf root f Active n = Some b.
Proof.
  intros Hc Hn Hops Hb. destruct (run_ops_refine root ops f Hc) as (_ & Hr).
  eapply spec_runs_active; [done| |exact Hr|exact Hb]. by rewrite (outcomes_ops (λ o, negb (activates n o))).
Qed.

(** ** Using, selecting and consolidating skills *)

(** ** Usage *)

(** Recording a use adds one to the count of that skill and sets when it was last
    used; the usage of every other skill stays as it was (a log that cannot be read
    counts as empty). *)
Theorem record_usage_exact `{OS : Faults} `{UsageJson} `{!UsageJsonLaws} dir name now f f' :
  record_usage dir name now f = (Ok tt, f') →
  usage_get name (load_usage f' dir) =
    {| su_count := u64_add (su_count (usage_get name (load_usage f dir))) 1;
       su_last_used_epoch := Some now |} ∧
  ∀ other, other ≠ name → usage_get other (load_usage f' dir) = usage_get other (load_usage f dir).
Proof.
  unfold record_usage, st_bind, st_gets, write_skill_file, skill_io.
  set (log := usage_record name now (load_usage f dir)).
  destruct (fs_write _ _ f) as [[[]|e] g] eqn:Ew; cbn [map_err]; [|done]. intros [= <-].
  apply fs_write_read in Ew.
  assert (load_usage g dir = log) as ->.
  { unfold load_usage, read_to_string. rewrite Ew. cbn [result_bind].
    rewrite from_utf8_utf8 by apply usage_scalars. cbn [ok_or]. by rewrite usage_from_to. }
  unfold log, usage_record. split.
  - unfold usage_get at 1. by rewrite lookup_insert_eq.
  - intros other Hne. unfold usage_get at 1. by rewrite lookup_insert_ne.
Qed.

(** ** Loading by precedence *)

Section loading.
Context `{ReadDir}.

Lemma str_cmp_refl a : str_cmp a a = Eq.
Proof. apply (cmp_refl str_cmp). Qed.
Definition name_lt (a b : Skill) : Prop := str_cmp (sk_name a) (sk_name b) = Lt.

Lemma put_skill_in x m s :
  StronglySorted name_lt m →
  s ∈ put_skill x m ↔ s = x ∨ (s ∈ m ∧ sk_name s ≠ sk_name x).
Proof.
  induction 1 as [|t m Hm IH Ht]; cbn [put_skill]; [set_solver|].
  rewrite Forall_forall in Ht. destruct (str_cmp (sk_name x) (sk_name t)) eqn:E.
  - apply str_cmp_eq in E. rewrite !elem_of_cons. split.
    + intros [->|Hs]; [by left|]. right. split; [by right|]. intros Heq. specialize (Ht s Hs).
      unfold name_lt in Ht. rewrite Heq, E, str_cmp_refl in Ht. done.
    + intros [->|[[->|Hs] Hne]]; [by left| |by right]. by rewrite E in Hne.
  - rewrite !elem_of_cons. split; [|tauto]. intros [->|[->|Hs]]; [by left| |].
    + right. split; [by left|]. intros Heq. by rewrite Heq, str_cmp_refl in E.
    + right. split; [by right|]. intros Heq. specialize (Ht s Hs). unfold name_lt in Ht. rewrite Heq in Ht.
      by rewrite str_cmp_opp, E in Ht.
  - rewrite !elem_of_cons, IH. split; [|tauto]. intros [->|[->|[Hs Hne]]]; [|by left|by right; split; [right|]].
    right. split; [by left|]. intros Heq. by rewrite Heq, str_cmp_refl in E.
Qed.
Lemma put_skill_sorted x m : StronglySorted name_lt m → StronglySorted name_lt (put_skill x m).
Proof.
  induction 1 as [|t m Hm IH Ht]; cbn [put_skill]; [by repeat constructor|].
  destruct (str_cmp (sk_name x) (sk_name t)) eqn:E.
  - apply str_cmp_eq in E. constructor; [done|]. eapply Forall_impl; [exact Ht|]. unfold name_lt. by rewrite E.
  - constructor; [by constructor|]. constructor; [done|]. eapply Forall_impl; [exact Ht|].
    intros s Hs. eapply (cmp_lt_le_trans str_cmp); [exact E|]. unfold name_lt in Hs. by rewrite Hs.
  - constructor; [done|]. rewrite Forall_forall in *. intros s [->|[Hs _]]%put_skill_in; [|by apply Ht|done].
    unfold name_lt. by rewrite str_cmp_opp, E.
Qed.

(** Everything that is scanned, lowest precedence first. *)
Definition scanned (f : fs) (sources : list (SkillSource * ppath)) : list Skill :=
  concat ((λ x, scan_dir f x.2 x.1) <$>
    sort_by (cmp_on (λ x : SkillSource * ppath, source_rank x.1) Nat.compare) sources).
Definition rank_le (a b : Skill) : Prop := source_rank (sk_source a) ≤ source_rank (sk_source b).

Lemma load_skills_scanned f sources :
  load_skills f sources = foldl (λ m s, put_skill s m) [] (scanned f sources).
Proof.
  unfold load_skills, scanned. generalize (@nil Skill) as acc.
  induction (sort_by _ sources) as [|[src dir] l IH]; intros acc; [done|].
  cbn [foldl fmap list_fmap concat]. by rewrite foldl_app, IH.
Qed.
Lemma scan_source f dir src s : s ∈ scan_dir f dir src → sk_source s = src.
Proof.
  unfold scan_dir. destruct (read_dir f dir) as [entries|]; [|by intros ?%elem_of_nil].
  intros (e & _ & He)%list_elem_of_omap. unfold scan_entry, load_skill, parse_skill in He.
  destruct (path_is_file _ _); [|done]. destruct (map_err _ _) as [content|]; [|done]. cbn [result_bind] in He.
  destruct (split_front_matter content) as [[fm body]|]; [|done]. cbn [ok_or result_bind] in He.
  destruct (match scalar _ _ with Some _ => _ | None => _ end); [|done]. by injection He as <-.
Qed.
Lemma scanned_sorted f sources : StronglySorted rank_le (scanned f sources).
Proof.
  unfold scanned. pose proof (sort_by_sorted (cmp_on (λ x : SkillSource * ppath, source_rank x.1) Nat.compare) sources) as Hs.
  induction Hs as [|[src dir] l Hl IH Hx]; [constructor|]. cbn [fmap list_fmap concat].
  apply StronglySorted_app. split_and!; [|  |exact IH].
  - intros s t Hs%scan_source (ts & (x & -> & Hx')%list_elem_of_fmap & Ht)%elem_of_concat.
    apply scan_source in Ht. unfold rank_le. rewrite Hs, Ht. rewrite Forall_forall in Hx. specialize (Hx x Hx').
    unfold cmp_le, cmp_on in Hx. cbn [fst] in Hx. apply Nat.compare_le_iff in Hx. done.
  - assert (Forall (λ s, sk_source s = src) (scan_dir f dir src)) as Hall
      by (apply Forall_forall; intros s Hs; by eapply scan_source).
    cbn [fst snd]. induction Hall as [|s ss Hs Hall IH2]; constructor; [done|].
    eapply Forall_impl; [exact Hall|]. intros t Ht. unfold rank_le. cbn in *. rewrite Hs, Ht. done.
Qed.
Lemma fold_put_spec L :
  StronglySorted rank_le L →
  let m := foldl (λ m s, put_skill s m) [] L in
  StronglySorted name_lt m ∧
  (∀ s, s ∈ m → s ∈ L ∧ ∀ t, t ∈ L → sk_name t = sk_name s → rank_le t s) ∧
  (∀ t, t ∈ L → ∃ s, s ∈ m ∧ sk_name s = sk_name t).
Proof.
  induction L as [|x L IH] using rev_ind; intros Hs m; [by split_and!; [constructor|intros s ?%elem_of_nil..]|].
  unfold m. rewrite foldl_app. cbn [foldl]. set (m0 := foldl _ [] L) in *.
  destruct (IH (StronglySorted_app_1_l _ _ _ Hs)) as (Hsort & Hin & Hall).
  assert (∀ t, t ∈ L → rank_le t x) as Hx.
  { intros t Ht. eapply (StronglySorted_app_1_elem_of _ _ _ _ _ Hs Ht). left. }
  split_and!; [by apply put_skill_sorted| |].
  - intros s [->|[Hsm Hne]]%put_skill_in; [| |done].
    + split; [set_solver|]. intros t [Ht|Ht%list_elem_of_singleton]%elem_of_app _; [by apply Hx|subst; by unfold rank_le].
    + destruct (Hin s Hsm) as [HsL Hmax]. split; [set_solver|].
      intros t [Ht|Ht%list_elem_of_singleton]%elem_of_app Heq; [by apply Hmax|]. subst. by destruct Hne.
  - intros t [Ht|Ht%list_elem_of_singleton]%elem_of_app.
    + destruct (decide (sk_name t = sk_name x)) as [Heq|Hne].
      * exists x. split; [by apply put_skill_in; [|left]|done].
      * destruct (Hall t Ht) as (s & Hsm & Heq). exists s. split; [|done]. apply put_skill_in; [done|]. right.
        split; [done|]. by rewrite Heq.
    + subst. exists x. split; [by apply put_skill_in; [|left]|done].
Qed.

(** Loading gives one skill per name found, in the order of the names: one that was
    found, from a source of the highest precedence among those that have the name. *)
Theorem load_skills_precedence f sources :
  let loaded := load_skills f sources in
  StronglySorted name_lt loaded ∧
  (∀ s, s ∈ loaded →
     (∃ dir, (sk_source s, dir) ∈ sources ∧ s ∈ scan_dir f dir (sk_source s)) ∧
     ∀ src dir t, (src, dir) ∈ sources → t ∈ scan_dir f dir src → sk_name t = sk_name s →
       source_rank src ≤ source_rank (sk_source s)) ∧
  (∀ src dir t, (src, dir) ∈ sources → t ∈ scan_dir f dir src → ∃ s, s ∈ loaded ∧ sk_name s = sk_name t).
Proof.
  intros loaded. unfold loaded. rewrite load_skills_scanned.
  destruct (fold_put_spec (scanned f sources) (scanned_sorted f sources)) as (H1 & H2 & H3).
  assert (∀ s, s ∈ scanned f sources ↔ ∃ src dir, (src, dir) ∈ sources ∧ s ∈ scan_dir f dir src) as Hsc.
  { intros s. unfold scanned. rewrite elem_of_concat. split.
    - intros (l & ([src dir] & -> & Hx%elem_of_sort_by)%list_elem_of_fmap & Hs). by exists src, dir.
    - intros (src & dir & Hx & Hs). eexists. split; [|exact Hs]. apply list_elem_of_fmap.
      exists (src, dir). split; [done|]. by apply elem_of_sort_by. }
  split_and!; [done| |].
  - intros s Hs. destruct (H2 s Hs) as [Hin Hmax]. split.
    + apply Hsc in Hin as (src & dir & Hx & Hin). pose proof (scan_source _ _ _ _ Hin) as ->. by exists dir.
    + intros src dir t Hx Ht Heq. rewrite <- (scan_source _ _ _ _ Ht). apply Hmax; [|done]. apply Hsc. eauto.
  - intros src dir t Hx Ht. apply H3, Hsc. eauto.
Qed.
End loading.

(** ** Selection *)

Section selection.
Context `{Unicode}.

Lemma elem_of_scored (skills : list Skill) haystack n s :
  (n, s) ∈ omap (λ skill, let score := relevance_score skill haystack in
                          if 0 <? score then Some (score, skill) else None) skills ↔
  s ∈ skills ∧ n = relevance_score s haystack ∧ 0 < n.
Proof.
  rewrite list_elem_of_omap. split.
  - intros (t & Ht & He). cbv zeta in He. destruct (Nat.ltb_spec 0 (relevance_score t haystack)); [|done].
    injection He as <- <-. done.
  - intros (Hs & -> & Hn). exists s. split; [done|]. cbv zeta.
    by destruct (Nat.ltb_spec 0 (relevance_score s haystack)); [|lia].
Qed.

Lemma StronglySorted_fmap_in {A B} (R : A → A → Prop) (R' : B → B → Prop) (g : A → B) (l : list A) :
  StronglySorted R l → (∀ x y, x ∈ l → y ∈ l → R x y → R' (g x) (g y)) → StronglySorted R' (g <$> l).
Proof.
  induction 1 as [|x l Hl IH Hx]; intros Hg; [constructor|]. cbn [fmap list_fmap]. constructor.
  - apply IH. intros a b Ha Hb. apply Hg; by right.
  - apply Forall_fmap, Forall_forall. intros y Hy. rewrite Forall_forall in Hx.
    apply Hg; [left|by right|by apply Hx].
Qed.
Lemma elem_of_list_length {A} (x : A) (l : list A) : x ∈ l → 0 < length l.
Proof. destruct l; [by intros ?%elem_of_nil|cbn; lia]. Qed.

#[local] Instance select_cmp_total : TotalCmp select_cmp.
Proof. unfold select_cmp. apply _. Qed.

(** The skills selected for a query are at most [limit] of those that match it, most
    matches first and ties by name; a skill left out, with room for more, matches
    nothing, and otherwise matches no better than the ones that are in. *)
Theorem select_skills_best skills query limit :
  let score s := relevance_score s (to_lowercase query) in
  let chosen := select_skills skills query limit in
  length chosen ≤ limit ∧
  (∀ s, s ∈ chosen → s ∈ skills ∧ 0 < score s) ∧
  StronglySorted (λ a b, score b < score a ∨ (score a = score b ∧ str_cmp (sk_name a) (sk_name b) ≠ Gt)) chosen ∧
  (∀ s, s ∈ skills → s ∉ chosen → 0 < score s →
     length chosen = limit ∧ ∀ t, t ∈ chosen → score s ≤ score t).
Proof.
  intros score chosen. unfold chosen, select_skills.
  set (scored := omap _ skills). set (sorted := sort_by select_cmp scored).
  assert (Hin : ∀ n s, (n, s) ∈ sorted ↔ s ∈ skills ∧ n = score s ∧ 0 < n).
  { intros n s. unfold sorted. rewrite elem_of_sort_by. apply elem_of_scored. }
  assert (Hs : StronglySorted (cmp_le select_cmp) sorted) by exact (sort_by_sorted select_cmp scored).
  assert (Hle : ∀ x y, x ∈ sorted → y ∈ sorted → cmp_le select_cmp x y →
            score y.2 < score x.2 ∨ (score x.2 = score y.2 ∧ str_cmp (sk_name x.2) (sk_name y.2) ≠ Gt)).
  { intros [n s] [m t] (_ & -> & _)%Hin (_ & -> & _)%Hin. cbn [snd].
    unfold cmp_le, select_cmp, cmp_lex, cmp_rev, cmp_on, then_with. cbn [fst snd].
    destruct (Nat.compare_spec (score t) (score s)); [|by left|by intros []].
    intros Hc. right. split; [done|exact Hc]. }
  split_and!.
  - rewrite length_fmap, length_take. lia.
  - intros s ([n s'] & -> & Hx%subseteq_take)%list_elem_of_fmap. apply Hin in Hx as (? & -> & ?). done.
  - apply (StronglySorted_fmap_in (cmp_le select_cmp)); [by apply StronglySorted_take|].
    intros x y Hx%subseteq_take Hy%subseteq_take. by apply Hle.
  - intros s Hsk Hno Hpos. assert (Hx : (score s, s) ∈ sorted) by (by apply Hin).
    rewrite <- (take_drop limit sorted) in Hx, Hs. apply elem_of_app in Hx as [Hx|Hx].
    { destruct Hno. apply list_elem_of_fmap. by exists (score s, s). }
    split.
    + rewrite length_fmap, length_take. apply elem_of_list_length in Hx. rewrite length_drop in Hx. lia.
    + intros t ([n t'] & -> & Ht)%list_elem_of_fmap. cbn [snd].
      pose proof (StronglySorted_app_1_elem_of _ _ _ _ _ Hs Ht Hx) as Hc.
      destruct (Hle (n, t') (score s, s)) as [Hlt|[Heq _]]; [by apply (subseteq_take limit)| |done| |].
      * rewrite <- (take_drop limit sorted). apply elem_of_app. by right.
      * cbn in Hlt. lia.
      * cbn in Heq. lia.
Qed.
End selection.

(** ** Consolidation *)

Section plan.
Context `{Unicode} (usage_for : Skill → SkillUsage).

Definition members_of_plan (c : SkillConsolidation) : list Skill :=
  sc_survivor c :: (ds_skill <$> sc_duplicates c).
Definition preferred_skill (a b : Skill) : Prop :=
  (su_count (usage_for b) < su_count (usage_for a))%N ∨
  (su_count (usage_for a) = su_count (usage_for b) ∧ str_cmp (sk_name a) (sk_name b) ≠ Gt).

#[local] Instance N_compare_total : TotalCmp N.compare.
Proof.
  split.
  - intros a b. apply N.compare_antisym.
  - intros a b c. rewrite !N.compare_le_iff. lia.
Qed.
#[local] Instance skill_survivor_total : TotalCmp (skill_survivor_cmp usage_for).
Proof. unfold skill_survivor_cmp, by_name. apply _. Qed.

Lemma survivor_preferred a b : cmp_le (skill_survivor_cmp usage_for) a b → preferred_skill a b.
Proof.
  unfold cmp_le, skill_survivor_cmp, by_name, cmp_lex, cmp_rev, cmp_on, then_with, preferred_skill.
  destruct (N.compare_spec (su_count (usage_for b)) (su_count (usage_for a))); [|by left|by intros []].
  intros Hc. right. split; [done|exact Hc].
Qed.

Lemma consolidate_skills_spec members :
  match consolidate_skills usage_for members with
  | None => length members < 2
  | Some c => 2 ≤ length members ∧ members_of_plan c ≡ₚ members ∧
      Forall (λ d, preferred_skill (sc_survivor c) (ds_skill d)) (sc_duplicates c) ∧
      Forall (λ d, ds_similarity d =
        shingle_similarity (skill_text (sc_survivor c)) (skill_text (ds_skill d))) (sc_duplicates c)
  end.
Proof.
  unfold consolidate_skills. destruct (Nat.ltb_spec (length members) 2) as [Hl|Hl]; [done|].
  pose proof (sort_by_perm (skill_survivor_cmp usage_for) members) as Hp.
  pose proof (sort_by_sorted (skill_survivor_cmp usage_for) members) as Hs.
  destruct (sort_by _ members) as [|survivor rest].
  { apply Permutation_length in Hp. cbn in Hp. lia. }
  set (dups := (λ s, {| ds_skill := s; ds_similarity := _ |}) <$> rest).
  assert (ds_skill <$> dups = rest) as Hd by (unfold dups; rewrite <- list_fmap_compose; apply list_fmap_id).
  pose proof (sort_by_perm (cmp_on (λ d, sk_name (ds_skill d)) str_cmp) dups) as Hperm.
  cbn [sc_survivor sc_duplicates]. split_and!; [done| | |].
  - unfold members_of_plan. cbn [sc_survivor sc_duplicates]. by rewrite Hperm, Hd.
  - rewrite Hperm, <- (Forall_fmap ds_skill (preferred_skill survivor)), Hd.
    inversion Hs as [|? ? _ Hall]. eapply Forall_impl; [exact Hall|]. apply survivor_preferred.
  - rewrite Hperm. unfold dups. by apply Forall_fmap, Forall_true.
Qed.

(** The plan considers the agent-authored skills only.  Each consolidation is a whole
    group of two or more of them connected by near-duplication; the one kept is the most
    used, ties by the smallest name; the similarities are those to the one kept; and
    every skill connected to another is in some consolidation. *)
Theorem skill_plan_spec skills threshold :
  NoDup (sk_name <$> skills) →
  let agents := List.filter is_agent skills in
  ∃ plan, plan_skill_consolidations usage_for skills threshold = Some plan ∧
    (∀ c, c ∈ plan →
       2 ≤ length (members_of_plan c) ∧
       Forall (λ d, preferred_skill (sc_survivor c) (ds_skill d)) (sc_duplicates c) ∧
       Forall (λ d, ds_similarity d =
         shingle_similarity (skill_text (sc_survivor c)) (skill_text (ds_skill d))) (sc_duplicates c) ∧
       ∀ s, s ∈ members_of_plan c → ∀ t, t ∈ members_of_plan c ↔
         t ∈ agents ∧ rtc (near skill_text threshold agents) s t) ∧
    (∀ s t, s ∈ agents → t ∈ agents → s ≠ t → rtc (near skill_text threshold agents) s t →
       ∃ c, c ∈ plan ∧ s ∈ members_of_plan c).
Proof.
  intros Hnd agents. assert (NoDup agents) as Hag.
  { apply (NoDup_fmap_1 sk_name). by apply NoDup_fmap_filter. }
  unfold plan_skill_consolidations. fold agents.
  destruct (clusters_of_spec skill_text threshold (sort_by by_name agents) agents Hag) as (clusters & -> & Hperm & Hcl);
    [apply sort_by_perm|]. cbn [mbind option_bind].
  eexists. split; [done|].
  assert (Hplan : ∀ c, c ∈ sort_by (cmp_on (λ c, sk_name (sc_survivor c)) str_cmp)
                             (omap (consolidate_skills usage_for) clusters) ↔
                       ∃ m, m ∈ clusters ∧ consolidate_skills usage_for m = Some c).
  { intros c. by rewrite elem_of_sort_by, list_elem_of_omap. }
  split.
  - intros c (m & Hm & Hc)%Hplan. pose proof (consolidate_skills_spec m) as Hs. rewrite Hc in Hs.
    destruct Hs as (Hlen & Hp & Hpref & Hsim). split_and!; [by rewrite (Permutation_length Hp)|done|done|].
    intros s Hs t. rewrite Hp in Hs. rewrite Hp. by apply Hcl.
  - intros s t Hs Ht Hne Hr. assert (s ∈ concat clusters) as (m & Hm & Hsm)%elem_of_concat by (by rewrite Hperm).
    pose proof (consolidate_skills_spec m) as Hspec.
    assert (t ∈ m) as Htm by (by apply (Hcl m s Hm Hsm)).
    destruct (consolidate_skills usage_for m) as [c|] eqn:Ec.
    + exists c. split; [by apply Hplan; exists m|]. destruct Hspec as (_ & Hp & _). by rewrite Hp.
    + exfalso. destruct m as [|x [|y m]]; cbn in Hspec; [by apply elem_of_nil in Hsm| |lia].
      apply list_elem_of_singleton in Hsm, Htm. congruence.
Qed.
End plan.

(** ** Examples *)

(** A lawful format for the usage log: the number of the log. *)
#[export] Instance SkillUsage_eq_dec : EqDecision SkillUsage.
Proof. solve_decision. Defined.
#[export] Instance SkillUsage_countable : Countable SkillUsage.
Proof.
  refine (inj_countable' (λ u, (su_count u, su_last_used_epoch u))
            (λ p, {| su_count := p.1; su_last_used_epoch := p.2 |}) _).
  abstract (by intros []).
Defined.
Definition counting_usage : UsageJson :=
  {| usage_to_string_pretty := λ log, show_N (Npos (encode log));
     usage_from_str := λ s,
       match N.of_uint <$> parse_uint s with Some (Npos p) => decode p | _ => None end |}.
Lemma counting_usage_laws : @UsageJsonLaws counting_usage.
Proof.
  split.
  - intros log. unfold usage_from_str, usage_to_string_pretty, counting_usage, show_N.
    rewrite parse_show_uint. cbn [fmap option_fmap option_map]. rewrite DecimalN.Unsigned.of_to.
    apply countable.decode_encode.
  - intros log. cbn. apply Forall_forall. intros c Hc. apply scalar_low.
    pose proof (show_N_digits (Npos (encode log))) as Hd. rewrite forallb_forall in Hd.
    apply list_elem_of_In, Hd in Hc. unfold is_ascii_digit in Hc.
    apply andb_prop in Hc as [_ Hc%N.leb_le]. lia.
Qed.

Definition demo_skills_fs : fs := list_to_map [([], NDir); (at_ "/s", NDir)].
Lemma record_usage_exact_witness :
  let f' := (@record_usage counting_usage no_faults (at_ "/s") (lit "d") 7%N demo_skills_fs).2 in
  usage_get (lit "d") (@load_usage counting_usage f' (at_ "/s")) =
    {| su_count := u64_add (su_count (usage_get (lit "d") (@load_usage counting_usage demo_skills_fs (at_ "/s")))) 1;
       su_last_used_epoch := Some 7%N |} ∧
  ∀ other, other ≠ lit "d" → usage_get other (@load_usage counting_usage f' (at_ "/s")) =
    usage_get other (@load_usage counting_usage demo_skills_fs (at_ "/s")).
Proof.
  intros f'. apply (@record_usage_exact no_faults counting_usage counting_usage_laws (at_ "/s") (lit "d") 7%N demo_skills_fs f').
  rewrite (surjective_pairing (@record_usage _ _ _ _ _ _)). apply (f_equal (λ r, (r, f'))).
  vm_compute. reflexivity.
Defined.

Definition agent_skill (name description : str) : Skill :=
  {| sk_name := name; sk_version := None; sk_description := description; sk_author := None;
     sk_triggers := []; sk_created_by := Some (lit "agent"); sk_source := UserSkill; sk_path := [];
     sk_body := lit "run the deploy script and verify the staging health check" |}.
Definition demo_skills : list Skill :=
  [agent_skill (lit "b") (lit "Deploy to staging"); agent_skill (lit "a") (lit "Deploy to staging")].
Lemma skill_plan_spec_witness :
  let agents := List.filter is_agent demo_skills in
  let plan := plan_skill_consolidations (H := ascii_unicode) (λ _, SkillUsage_default) demo_skills 60 in
  (∃ p, plan = Some p ∧ map (λ c, sk_name (sc_survivor c)) p = [lit "a"]) ∧
  ∃ plan, plan_skill_consolidations (H := ascii_unicode) (λ _, SkillUsage_default) demo_skills 60 = Some plan ∧
    (∀ c, c ∈ plan →
       2 ≤ length (members_of_plan c) ∧
       Forall (λ d, preferred_skill (λ _, SkillUsage_default) (sc_survivor c) (ds_skill d)) (sc_duplicates c) ∧
       Forall (λ d, ds_similarity d =
         shingle_similarity (H := ascii_unicode) (skill_text (sc_survivor c)) (skill_text (ds_skill d))) (sc_duplicates c) ∧
       ∀ s, s ∈ members_of_plan c → ∀ t, t ∈ members_of_plan c ↔
         t ∈ agents ∧ rtc (near (H := ascii_unicode) skill_text 60 agents) s t) ∧
    (∀ s t, s ∈ agents → t ∈ agents → s ≠ t → rtc (near (H := ascii_unicode) skill_text 60 agents) s t →
       ∃ c, c ∈ plan ∧ s ∈ members_of_plan c).
Proof.
  intros agents plan. split; [by eexists; split; vm_compute; reflexivity|].
  apply (@skill_plan_spec ascii_unicode (λ _, SkillUsage_default) demo_skills 60).
  apply (bool_decide_eq_true_1 _). vm_compute. reflexivity.
Defined.

Lemma clean_check root f :
  fs_ok root f → bool_decide (map_Forall (λ q n, match n with NLink _ => false | _ => true end = true) f) = true → clean root f.
Proof.
  intros Hok H%bool_decide_eq_true. split; [done|]. intros q t _ Hq. by specialize (H _ _ Hq).
Qed.
Lemma demo_skills_clean : clean (at_ "/s") demo_skills_fs.
Proof.
  apply clean_check; [split|].
  - apply parents_check. vm_compute. reflexivity.
  - intros k Hk. change (length (at_ "/s")) with 1 in Hk. destruct k as [|[|k]]; [vm_compute; reflexivity..|lia].
  - vm_compute. reflexivity.
Qed.

(** The system refuses to remove the older archived copy once its file is gone. *)
Definition refuses_removal : Faults :=
  {| refuse_write := λ _ _ _, None; refuse_remove := λ _ _, None; refuse_mkdir := λ _ _, None;
     refuse_rename := λ _ _ _, None; refuse_remove_tree := λ _ _, Some (PermissionDenied, λ _, true) |}.
Definition staging : str := lit "deploy-staging".
Definition demo_skill_ops : list (Faults * skill_op) :=
  [(no_faults, Propose demo_proposal); (no_faults, Propose demo_proposal); (no_faults, Approve staging);
   (no_faults, Archive staging); (no_faults, Propose demo_proposal); (no_faults, Approve staging);
   (refuses_removal, Archive staging); (no_faults, Restore staging); (no_faults, Reject staging)].
Lemma skill_store_refines_witness :
  map (λ x, is_ok x.2) (outcomes (at_ "/s") demo_skill_ops demo_skills_fs) =
    [true; false; true; true; true; true; false; false; false] ∧
  spec_runs (outcomes (at_ "/s") demo_skill_ops demo_skills_fs) (on_shelf (at_ "/s") demo_skills_fs)
    (on_shelf (at_ "/s") (run_skill_ops (at_ "/s") demo_skill_ops demo_skills_fs)).
Proof.
  split; [vm_compute; reflexivity|].
  apply (skill_store_refines (at_ "/s") demo_skill_ops demo_skills_fs demo_skills_clean).
Defined.

(** An archiving that fails may have removed the copy archived before: the skill is
    still active, and the older one is gone. *)
Theorem archive_loses_older_copy :
  let before := run_skill_ops (at_ "/s") (take 6 demo_skill_ops) demo_skills_fs in
  let after := run_skill_ops (at_ "/s") (take 7 demo_skill_ops) demo_skills_fs in
  is_Some (on_shelf (at_ "/s") before Archived staging) ∧
  on_shelf (at_ "/s") after Archived staging = None ∧
  on_shelf (at_ "/s") after Active staging = on_shelf (at_ "/s") before Active staging.
Proof. vm_compute. split_and!; [by eexists|reflexivity..]. Qed.

Definition approved_fs : fs :=
  run_skill_ops (at_ "/s") [(no_faults, Propose demo_proposal); (no_faults, Approve staging)] demo_skills_fs.
Lemma skill_review_gate_witness :
  on_shelf (at_ "/s") approved_fs Active staging = Some (utf8 (render_skill_md demo_proposal)).
Proof.
  apply (skill_review_gate (at_ "/s") [(no_faults, Propose demo_proposal); (no_faults, Reject staging)] approved_fs).
  - apply (run_ops_refine (at_ "/s") [(no_faults, Propose demo_proposal); (no_faults, Approve staging)]), demo_skills_clean.
  - by split.
  - vm_compute. reflexivity.
  - vm_compute. reflexivity.
Defined.
