(* ===== verification/CloudTypes.v ===== *)
(** * The types and the authentication of the cloud service

    [codel00p-protocol/src/cloud.rs] (the shapes the service exchanges),
    [codel00p-cloud/src/error.rs] and [codel00p-cloud/src/auth.rs].  Verifying
    the signature of a token is the work of a library: it is a parameter,
    [JwtLib]. *)

From stdpp Require Import base numbers strings gmap list.
From S2P Require Import Prelude RustStr Storage Protocol Utf8.

(** ** [codel00p-protocol/src/cloud.rs] *)

Definition non_empty (value : str) : option str :=
  if is_empty (trim value) then None else Some value.

Record OrgRef := { org_id : str; org_name : str; org_slug : option str }.
Definition OrgRef_new (id name : str) : OrgRef :=
  {| org_id := id; org_name := name; org_slug := None |}.
Definition org_with_slug (slug : str) (o : OrgRef) : OrgRef :=
  {| org_id := org_id o; org_name := org_name o; org_slug := non_empty slug |}.

Inductive OrgRole := Admin | Member.
#[export] Instance OrgRole_eq_dec : EqDecision OrgRole.
Proof. solve_decision. Defined.
Definition from_clerk_claim (claim : str) : option OrgRole :=
  let claim := trim claim in
  if bool_decide (claim = lit "org:admin" ∨ claim = lit "admin") then Some Admin
  else if bool_decide (claim = lit "org:member" ∨ claim = lit "member") then Some Member
  else None.
Definition is_admin (r : OrgRole) : bool := match r with Admin => true | Member => false end.

Record OrgMember := {
  mem_user_id : str;
  mem_role : OrgRole;
  mem_email : option str;
  mem_name : option str;
}.
Definition OrgMember_new (user_id : str) (role : OrgRole) : OrgMember :=
  {| mem_user_id := user_id; mem_role := role; mem_email := None; mem_name := None |}.
Definition member_with_email (email : str) (m : OrgMember) : OrgMember :=
  {| mem_user_id := mem_user_id m; mem_role := mem_role m; mem_email := non_empty email;
     mem_name := mem_name m |}.
Definition member_with_name (name : str) (m : OrgMember) : OrgMember :=
  {| mem_user_id := mem_user_id m; mem_role := mem_role m; mem_email := mem_email m;
     mem_name := non_empty name |}.

Record Viewer := {
  viewer_user_id : str;
  viewer_email : option str;
  viewer_org : option OrgRef;
  viewer_org_role : option OrgRole;
}.
Definition Viewer_new (user_id : str) : Viewer :=
  {| viewer_user_id := user_id; viewer_email := None; viewer_org := None;
     viewer_org_role := None |}.
Definition viewer_with_email (email : str) (v : Viewer) : Viewer :=
  {| viewer_user_id := viewer_user_id v; viewer_email := non_empty email;
     viewer_org := viewer_org v; viewer_org_role := viewer_org_role v |}.
Definition viewer_with_org (org : OrgRef) (role : OrgRole) (v : Viewer) : Viewer :=
  {| viewer_user_id := viewer_user_id v; viewer_email := viewer_email v;
     viewer_org := Some org; viewer_org_role := Some role |}.

(** [Project]. *)
Record CloudProject := {
  pj_id : str;
  pj_org_id : str;
  pj_name : str;
  pj_slug : str;
  pj_repository_url : option str;
}.
Definition CloudProject_new (id org_id name slug : str) : CloudProject :=
  {| pj_id := id; pj_org_id := org_id; pj_name := name; pj_slug := slug;
     pj_repository_url := None |}.
Definition with_repository_url (url : str) (p : CloudProject) : CloudProject :=
  {| pj_id := pj_id p; pj_org_id := pj_org_id p; pj_name := pj_name p; pj_slug := pj_slug p;
     pj_repository_url := non_empty url |}.
Record NewProject := { np_name : str; np_repository_url : option str }.
Record ProjectUpdate := { pu_name : option str; pu_repository_url : option str }.

Record NewMemoryCandidate := {
  nm_kind : MemoryKind;
  nm_content : str;
  nm_tags : list str;
  nm_sensitivity : MemorySensitivity;
  nm_source_uri : option str;
}.
Inductive MemoryReviewAction := RCreated | RApproved | RRejected | RArchived.
#[export] Instance MemoryReviewAction_eq_dec : EqDecision MemoryReviewAction.
Proof. solve_decision. Defined.
Definition resulting_status (a : MemoryReviewAction) : option MemoryStatus :=
  match a with
  | RCreated => Some Candidate | RApproved => Some Approved
  | RRejected => Some Rejected | RArchived => Some Archived
  end.
Record MemoryAuditEntry := {
  au_memory_id : str;
  au_action : MemoryReviewAction;
  au_actor : str;
}.
Definition MemoryAuditEntry_new (memory_id : str) (action : MemoryReviewAction) (actor : str)
    : MemoryAuditEntry :=
  {| au_memory_id := memory_id; au_action := action; au_actor := actor |}.
#[export] Instance MemoryAuditEntry_eq_dec : EqDecision MemoryAuditEntry.
Proof. solve_decision. Defined.

Inductive McpTransport := McpStdio | McpHttp.
Record McpServer := {
  sv_id : str;
  sv_org_id : str;
  sv_project_id : str;
  sv_name : str;
  sv_transport : McpTransport;
  sv_command : option str;
  sv_url : option str;
  sv_enabled : bool;
  sv_created_by : str;
}.
Definition McpServer_new (id org_id project_id name : str) (transport : McpTransport)
    (created_by : str) : McpServer :=
  {| sv_id := id; sv_org_id := org_id; sv_project_id := project_id; sv_name := name;
     sv_transport := transport; sv_command := None; sv_url := None; sv_enabled := true;
     sv_created_by := created_by |}.
Definition server_with_command (command : str) (s : McpServer) : McpServer :=
  {| sv_id := sv_id s; sv_org_id := sv_org_id s; sv_project_id := sv_project_id s;
     sv_name := sv_name s; sv_transport := sv_transport s; sv_command := non_empty command;
     sv_url := sv_url s; sv_enabled := sv_enabled s; sv_created_by := sv_created_by s |}.
Definition server_with_url (url : str) (s : McpServer) : McpServer :=
  {| sv_id := sv_id s; sv_org_id := sv_org_id s; sv_project_id := sv_project_id s;
     sv_name := sv_name s; sv_transport := sv_transport s; sv_command := sv_command s;
     sv_url := non_empty url; sv_enabled := sv_enabled s; sv_created_by := sv_created_by s |}.
Definition server_with_enabled (enabled : bool) (s : McpServer) : McpServer :=
  {| sv_id := sv_id s; sv_org_id := sv_org_id s; sv_project_id := sv_project_id s;
     sv_name := sv_name s; sv_transport := sv_transport s; sv_command := sv_command s;
     sv_url := sv_url s; sv_enabled := enabled; sv_created_by := sv_created_by s |}.
Record NewMcpServer := {
  ns_name : str;
  ns_transport : McpTransport;
  ns_command : option str;
  ns_url : option str;
  ns_enabled : bool;
}.
Record McpServerUpdate := {
  su_name : option str;
  su_transport : option McpTransport;
  su_command : option str;
  su_url : option str;
  su_enabled : option bool;
}.

Record Agent := {
  ag_id : str;
  ag_org_id : str;
  ag_project_id : str;
  ag_name : str;
  ag_description : option str;
  ag_instructions : option str;
  ag_provider : str;
  ag_model : str;
  ag_mcp_server_ids : list str;
  ag_created_by : str;
}.
Definition Agent_new (id org_id project_id name provider model created_by : str) : Agent :=
  {| ag_id := id; ag_org_id := org_id; ag_project_id := project_id; ag_name := name;
     ag_description := None; ag_instructions := None; ag_provider := provider;
     ag_model := model; ag_mcp_server_ids := []; ag_created_by := created_by |}.
Definition agent_with_description (description : str) (a : Agent) : Agent :=
  {| ag_id := ag_id a; ag_org_id := ag_org_id a; ag_project_id := ag_project_id a;
     ag_name := ag_name a; ag_description := non_empty description;
     ag_instructions := ag_instructions a; ag_provider := ag_provider a; ag_model := ag_model a;
     ag_mcp_server_ids := ag_mcp_server_ids a; ag_created_by := ag_created_by a |}.
Definition agent_with_instructions (instructions : str) (a : Agent) : Agent :=
  {| ag_id := ag_id a; ag_org_id := ag_org_id a; ag_project_id := ag_project_id a;
     ag_name := ag_name a; ag_description := ag_description a;
     ag_instructions := non_empty instructions; ag_provider := ag_provider a;
     ag_model := ag_model a; ag_mcp_server_ids := ag_mcp_server_ids a;
     ag_created_by := ag_created_by a |}.
Definition agent_with_mcp_server_ids (ids : list str) (a : Agent) : Agent :=
  {| ag_id := ag_id a; ag_org_id := ag_org_id a; ag_project_id := ag_project_id a;
     ag_name := ag_name a; ag_description := ag_description a;
     ag_instructions := ag_instructions a; ag_provider := ag_provider a; ag_model := ag_model a;
     ag_mcp_server_ids := ids; ag_created_by := ag_created_by a |}.
Record NewAgent := {
  na_name : str;
  na_description : option str;
  na_instructions : option str;
  na_provider : str;
  na_model : str;
  na_mcp_server_ids : list str;
}.
Record AgentUpdate := {
  up_name : option str;
  up_description : option str;
  up_instructions : option str;
  up_provider : option str;
  up_model : option str;
  up_mcp_server_ids : option (list str);
}.

(** ** [error.rs] *)

Inductive ApiError :=
| Unauthorized (message : str)
| Forbidden (message : str)
| ApiNotFound (message : str)
| BadRequest (message : str)
| Internal (message : str)
| ServiceUnavailable (message : str).
#[export] Instance ApiError_eq_dec : EqDecision ApiError.
Proof. solve_decision. Defined.
(** [ApiError::parts]: the status code, the error name and the message. *)
Definition api_error_parts (e : ApiError) : N * str * str :=
  match e with
  | Unauthorized m => (401%N, lit "unauthorized", m)
  | Forbidden m => (403%N, lit "forbidden", m)
  | ApiNotFound m => (404%N, lit "not_found", m)
  | BadRequest m => (400%N, lit "bad_request", m)
  | Internal m => (500%N, lit "internal", m)
  | ServiceUnavailable m => (503%N, lit "service_unavailable", m)
  end.

(** ** [auth.rs] *)

Record CompactOrgClaim := {
  oc_id : option str;
  oc_slg : option str;
  oc_rol : option str;
  oc_nam : option str;
}.
Record Claims := {
  cl_sub : str;
  cl_exp : N;
  cl_email : option str;
  cl_org_id : option str;
  cl_org_slug : option str;
  cl_org_name : option str;
  cl_org_role : option str;
  cl_o : option CompactOrgClaim;
}.
(** [flat.clone().or_else(|| self.o.as_ref().and_then(..))]. *)
Definition flat_or_compact (flat : option str) (field : CompactOrgClaim → option str)
    (c : Claims) : option str :=
  match flat with Some v => Some v | None => cl_o c ≫= field end.
Definition resolved_org_id (c : Claims) : option str := flat_or_compact (cl_org_id c) oc_id c.
Definition resolved_org_slug (c : Claims) : option str := flat_or_compact (cl_org_slug c) oc_slg c.
Definition resolved_org_name (c : Claims) : option str := flat_or_compact (cl_org_name c) oc_nam c.
Definition resolved_org_role (c : Claims) : option str := flat_or_compact (cl_org_role c) oc_rol c.

Record AuthContext := {
  ac_user_id : str;
  ac_email : option str;
  ac_org : option OrgRef;
  ac_org_role : option OrgRole;
}.
Definition org_of_claims (c : Claims) : option OrgRef :=
  (λ id,
     let name := default (default id (resolved_org_slug c)) (resolved_org_name c) in
     let org := OrgRef_new id name in
     match resolved_org_slug c with Some slug => org_with_slug slug org | None => org end)
  <$> resolved_org_id c.
Definition from_claims (c : Claims) : AuthContext :=
  {| ac_user_id := cl_sub c; ac_email := cl_email c; ac_org := org_of_claims c;
     ac_org_role := resolved_org_role c ≫= from_clerk_claim |}.

Definition require_org (a : AuthContext) : result ApiError (OrgRef * OrgRole) :=
  match ac_org a, ac_org_role a with
  | Some org, Some role => Ok (org, role)
  | _, _ => Err (Forbidden (lit "no active organization in session"))
  end.
Definition require_org_admin (a : AuthContext) : result ApiError OrgRef :=
  let? found := require_org a in
  if is_admin found.2 then Ok found.1
  else Err (Forbidden (lit "requires organization admin")).
Definition to_viewer (a : AuthContext) : Viewer :=
  let viewer := Viewer_new (ac_user_id a) in
  let viewer :=
    match ac_email a with Some email => viewer_with_email email viewer | None => viewer end in
  match ac_org a, ac_org_role a with
  | Some org, Some role => viewer_with_org org role viewer
  | _, _ => viewer
  end.

(** [clerk_frontend_api_from_publishable_key], with the unpadded base64 decoder of its
    crate as a parameter; [None] is [VerifierError::PublishableKey]. *)
Definition clerk_frontend_api_from_publishable_key (base64_decode : str → option (list byte))
    (key : str) : option str :=
  encoded ← match strip_prefix (lit "pk_test_") key with
            | Some encoded => Some encoded
            | None => strip_prefix (lit "pk_live_") key
            end;
  decoded ← base64_decode (trim_end_matches (λ c, (c =? 61)%N) encoded);
  host ← from_utf8 decoded;
  let host := trim (trim_end_matches (λ c, (c =? 36)%N) host) in
  if is_empty host then None else Some host.

(** The [jsonwebtoken] crate: [decode_header] gives the key id of a token, or
    fails; [decode] checks the RS256 signature, the expiry and, when one is
    configured, the issuer, and gives the claims or the text of its error. *)
Class JwtLib := {
  DecodingKey : Type;
  decode_header : str → option (option str);
  decode : str → DecodingKey → option str → result str Claims;
}.

Section verifier.
Context `{JwtLib}.

Record JwtVerifier := {
  jv_keys : gmap str DecodingKey;
  jv_issuer : option str;
}.
Definition verify (v : JwtVerifier) (token : str) : result ApiError Claims :=
  let? kid := ok_or (Unauthorized (lit "malformed token")) (decode_header token) in
  let? kid := ok_or (Unauthorized (lit "token missing key id")) kid in
  let? key := ok_or (Unauthorized (lit "unknown signing key")) (jv_keys v !! kid) in
  map_err (λ err, Unauthorized (lit "invalid token: " ++ err)) (decode token key (jv_issuer v)).

(** [FromRequestParts]: the header, when it is present and readable as text. *)
Definition from_request_parts (v : JwtVerifier) (header : option str)
    : result ApiError AuthContext :=
  let? header := ok_or (Unauthorized (lit "missing authorization header")) header in
  let? token :=
    ok_or (Unauthorized (lit "expected bearer token"))
      (match strip_prefix (lit "Bearer ") header with
       | Some token => Some token
       | None => strip_prefix (lit "bearer ") header
       end) in
  let? claims := verify v (trim token) in
  Ok (from_claims claims).

(** What a granted request proves: its token names a key of the verifier and
    decodes under it to the claims the caller is taken from. *)
Definition token_grants (v : JwtVerifier) (header : option str) (a : AuthContext) : Prop :=
  ∃ token kid key claims,
    (header = Some (lit "Bearer " ++ token) ∨ header = Some (lit "bearer " ++ token)) ∧
    decode_header (trim token) = Some (Some kid) ∧ jv_keys v !! kid = Some key ∧
    decode (trim token) key (jv_issuer v) = Ok claims ∧ a = from_claims claims.

Lemma verify_Ok v token claims :
  verify v token = Ok claims →
  ∃ kid key, decode_header token = Some (Some kid) ∧ jv_keys v !! kid = Some key ∧
    decode token key (jv_issuer v) = Ok claims.
Proof.
  unfold verify. destruct (decode_header token) as [[kid|]|]; simpl; [|done..].
  destruct (jv_keys v !! kid) as [key|] eqn:Hk; simpl; [|done].
  destruct (decode token key _) as [c|] eqn:Hd; simpl; [|done]. intros [= ->]. by exists kid, key.
Qed.

Lemma from_request_parts_Ok v header a :
  from_request_parts v header = Ok a → token_grants v header a.
Proof.
  unfold from_request_parts. destruct header as [h|]; cbn [ok_or result_bind]; [|done].
  destruct (match strip_prefix (lit "Bearer ") h with
            | Some token => Some token
            | None => strip_prefix (lit "bearer ") h end) as [token|] eqn:Ht;
    cbn [ok_or result_bind]; [|done].
  destruct (verify v (trim token)) as [claims|] eqn:Hv; cbn [result_bind]; [|done].
  intros [= <-]. destruct (verify_Ok _ _ _ Hv) as (kid & key & ? & ? & ?).
  exists token, kid, key, claims. split_and!; [|done..].
  destruct (strip_prefix (lit "Bearer ") h) as [t|] eqn:Hb.
  - left. injection Ht as ->. by apply strip_prefix_Some in Hb as ->.
  - right. by apply strip_prefix_Some in Ht as ->.
Qed.
End verifier.
