(* ===== verification/CloudStores.v ===== *)
(** * The stores of the cloud service

    [codel00p-cloud/src/projects.rs], [agents.rs], [mcp.rs] and [memory.rs]: what
    the handlers do to the storage backend, over any backend.  Each module numbers
    its records with a counter of its own, a static of the process; the counters
    are part of the state. *)

From stdpp Require Import base numbers strings gmap list.
From S2P Require Import Prelude RustStr Storage Protocol CloudTypes.

(** [state.rs]: a change notification. *)
Record ChangeEvent := { ev_org_id : str; ev_entity : str; ev_action : str }.
#[export] Instance ChangeEvent_eq_dec : EqDecision ChangeEvent.
Proof. solve_decision. Defined.

(** The process: the storage behind its lock, the four counters, and the
    notifications broadcast so far. *)
Record Cloud (S : Type) := {
  c_store : S;
  c_projects : N;
  c_agents : N;
  c_servers : N;
  c_memories : N;
  c_events : list ChangeEvent;
}.
Arguments c_store {S}. Arguments c_projects {S}. Arguments c_agents {S}.
Arguments c_servers {S}. Arguments c_memories {S}. Arguments c_events {S}.
Arguments Build_Cloud {S}.

(** [AppState::with_storage]: a process starts with counters at one. *)
Definition with_storage {S} (store : S) : Cloud S :=
  {| c_store := store; c_projects := 1; c_agents := 1; c_servers := 1; c_memories := 1;
     c_events := [] |}.
Definition set_store {S} (store : S) (c : Cloud S) : Cloud S :=
  {| c_store := store; c_projects := c_projects c; c_agents := c_agents c;
     c_servers := c_servers c; c_memories := c_memories c; c_events := c_events c |}.

Inductive counter := Projects | Agents | Servers | Memories.
#[export] Instance counter_eq_dec : EqDecision counter.
Proof. solve_decision. Defined.
Definition counter_of {S} (k : counter) (c : Cloud S) : N :=
  match k with
  | Projects => c_projects c | Agents => c_agents c
  | Servers => c_servers c | Memories => c_memories c
  end.
Definition bump {S} (k : counter) (c : Cloud S) : Cloud S :=
  let next k' := if decide (k = k') then u64_add (counter_of k' c) 1 else counter_of k' c in
  {| c_store := c_store c; c_projects := next Projects; c_agents := next Agents;
     c_servers := next Servers; c_memories := next Memories; c_events := c_events c |}.

(** The text of a JSON error is the JSON library's. *)
Class JsonText `{JsonLib} := json_text : JsonError → str.

Section stores.
Context `{JsonLib} `{!JsonText} {S : Type} `{!DocumentStore S} `{!AppendLogStore S}.
Context `{!Serde CloudProject} `{!Serde Agent} `{!Serde McpServer}.
Context `{!Serde MemoryEntry} `{!Serde MemoryAuditEntry}.
Context `{Unicode}.

(** [Display for StorageError]. *)
Definition storage_text (e : StorageError) : str :=
  match e with
  | NotFound key => lit "record not found: " ++ key
  | Conflict key => lit "storage conflict: " ++ key
  | Serialization source => lit "serialization failed: " ++ json_text source
  | Backend message => lit "backend failure: " ++ message
  end.

Abbreviation handler := (st (Cloud S) ApiError).

(** A storage call, its error rendered as an internal one. *)
Definition internal (e : StorageError) : ApiError := Internal (storage_text e).
Definition stored {A} (m : st S StorageError A) : handler A := λ c,
  let '(r, s) := m (c_store c) in (map_err internal r, set_store s c).
Definition reading {A} (m : S → result StorageError A) : handler A := λ c,
  (map_err internal (m (c_store c)), c).
(** [COUNTER.fetch_add(1, Ordering::Relaxed)]. *)
Definition fetch_add (k : counter) : handler N := λ c, (Ok (counter_of k c), bump k c).

(** [serde_json::to_value(..).map_err(..)?], then [put_document]. *)
Definition json_internal (e : JsonError) : ApiError := Internal (json_text e).
Definition store_entity {A} `{!Serde A} (scope : StorageScope) (collection id : str) (a : A)
    : handler unit :=
  let! payload := st_lift (map_err json_internal (to_value a)) in
  do! stored (put_document (StorageDocument_new scope collection id payload)) in
  st_ret tt.
(** [serde_json::from_value(document.payload().clone()).map_err(..)]. *)
Definition read_entity {A} `{!Serde A} (what : str) (d : StorageDocument) : result ApiError A :=
  map_err (λ err, Internal (lit "corrupt " ++ what ++ lit " record: " ++ json_text err))
    (from_value (doc_payload d)).
Definition list_entities {A} `{!Serde A} (scope : StorageScope) (collection what : str)
    : handler (list A) :=
  let! documents := reading (list_documents scope collection) in
  st_lift (collect_result (read_entity what <$> documents)).
Definition delete_entity (scope : StorageScope) (collection id : str) (missing : ApiError)
    : handler unit :=
  let! deleted := stored (delete_document scope collection id) in
  if deleted then st_ret tt else st_err missing.

(** [.map(|v| v.trim().to_string()).filter(|v| !v.is_empty()).unwrap_or_else(..)]. *)
Definition trimmed_or (update : option str) (existing : str) : str :=
  match update with
  | Some v => if is_empty (trim v) then existing else trim v
  | None => existing
  end.
Definition or_existing {A} (update existing : option A) : option A :=
  match update with Some v => Some v | None => existing end.
Definition apply_opt {A B} (f : A → B → B) (o : option A) (b : B) : B :=
  match o with Some a => f a b | None => b end.

(** ** [projects.rs] *)

Definition PROJECTS_COLLECTION : str := lit "projects".
Definition project_missing (id : str) : ApiError :=
  ApiNotFound (lit "project " ++ id ++ lit " not found").

Definition hyphen : char := 45%N.
(** [slugify]: the loop over the characters. *)
Fixpoint slug_chars (name : str) (slug : str) (pending_separator : bool) : str :=
  match name with
  | [] => slug
  | ch :: name =>
      if is_ascii_alphanumeric ch then
        let slug := if pending_separator && negb (is_empty slug) then slug ++ [hyphen] else slug in
        slug_chars name (slug ++ [ascii_lower ch]) false
      else slug_chars name slug true
  end.
Definition slugify (name : str) : str :=
  let slug := slug_chars name [] false in
  if is_empty slug then lit "project" else slug.

Definition store_project (org : str) (p : CloudProject) : handler unit :=
  store_entity (scope_organization org) PROJECTS_COLLECTION (pj_id p) p.
Definition get_project (org id : str) : handler (option CloudProject) :=
  let! document := reading (get_document (scope_organization org) PROJECTS_COLLECTION id) in
  match document with
  | None => st_ret None
  | Some d => let! p := st_lift (read_entity (lit "project") d) in st_ret (Some p)
  end.
Definition list_projects (org : str) : handler (list CloudProject) :=
  list_entities (scope_organization org) PROJECTS_COLLECTION (lit "project").
Definition create_project (org : str) (request : NewProject) : handler CloudProject :=
  let name := trim (np_name request) in
  if is_empty name then st_err (BadRequest (lit "project name is required"))
  else
    let! n := fetch_add Projects in
    let project := CloudProject_new (lit "proj_" ++ show_N n) org name (slugify name) in
    let project := apply_opt with_repository_url (np_repository_url request) project in
    do! store_entity (scope_organization org) PROJECTS_COLLECTION (pj_id project) project in
    st_ret project.
Definition existing_project (org id : str) : handler CloudProject :=
  let! found := get_project org id in
  st_lift (ok_or (project_missing id) found).
Definition updated_project (org : str) (existing : CloudProject) (update : ProjectUpdate)
    : CloudProject :=
  let name := trimmed_or (pu_name update) (pj_name existing) in
  apply_opt with_repository_url
    (or_existing (pu_repository_url update) (pj_repository_url existing))
    (CloudProject_new (pj_id existing) org name (pj_slug existing)).
Definition update_project (org id : str) (update : ProjectUpdate) : handler CloudProject :=
  let! existing := existing_project org id in
  let project := updated_project org existing update in
  do! store_project org project in
  st_ret project.
Definition delete_project (org id : str) : handler unit :=
  delete_entity (scope_organization org) PROJECTS_COLLECTION id (project_missing id).

(** ** [agents.rs] *)

Definition AGENTS_COLLECTION : str := lit "agents".
Definition agent_missing (id : str) : ApiError :=
  ApiNotFound (lit "agent " ++ id ++ lit " not found").
Definition get_entity {A} `{!Serde A} (scope : StorageScope) (collection what id : str)
    (missing : ApiError) : handler A :=
  let! document := reading (get_document scope collection id) in
  match document with
  | None => st_err missing
  | Some d => st_lift (read_entity what d)
  end.

Definition store_agent (org project : str) (a : Agent) : handler unit :=
  store_entity (scope_project org project) AGENTS_COLLECTION (ag_id a) a.
Definition agents_list (org project : str) : handler (list Agent) :=
  list_entities (scope_project org project) AGENTS_COLLECTION (lit "agent").
Definition agents_get (org project id : str) : handler Agent :=
  get_entity (scope_project org project) AGENTS_COLLECTION (lit "agent") id (agent_missing id).
Definition agents_create (org project : str) (request : NewAgent) (actor : str) : handler Agent :=
  let name := trim (na_name request) in
  let provider := trim (na_provider request) in
  let model := trim (na_model request) in
  if is_empty name then st_err (BadRequest (lit "agent name is required"))
  else if is_empty provider || is_empty model then
    st_err (BadRequest (lit "agent provider and model are required"))
  else
    let! n := fetch_add Agents in
    let agent :=
      agent_with_mcp_server_ids (na_mcp_server_ids request)
        (Agent_new (lit "agent_" ++ show_N n) org project name provider model actor) in
    let agent := apply_opt agent_with_description (na_description request) agent in
    let agent := apply_opt agent_with_instructions (na_instructions request) agent in
    do! store_agent org project agent in
    st_ret agent.
Definition updated_agent (org project : str) (existing : Agent) (update : AgentUpdate) : Agent :=
  let agent :=
    agent_with_mcp_server_ids (default (ag_mcp_server_ids existing) (up_mcp_server_ids update))
      (Agent_new (ag_id existing) org project
         (trimmed_or (up_name update) (ag_name existing))
         (trimmed_or (up_provider update) (ag_provider existing))
         (trimmed_or (up_model update) (ag_model existing)) (ag_created_by existing)) in
  let agent :=
    apply_opt agent_with_description
      (or_existing (up_description update) (ag_description existing)) agent in
  apply_opt agent_with_instructions
    (or_existing (up_instructions update) (ag_instructions existing)) agent.
Definition agents_update (org project id : str) (update : AgentUpdate) : handler Agent :=
  let! existing := agents_get org project id in
  let agent := updated_agent org project existing update in
  do! store_agent org project agent in
  st_ret agent.
Definition agents_delete (org project id : str) : handler unit :=
  delete_entity (scope_project org project) AGENTS_COLLECTION id (agent_missing id).

(** ** [mcp.rs] *)

Definition SERVERS_COLLECTION : str := lit "mcp_servers".
Definition server_missing (id : str) : ApiError :=
  ApiNotFound (lit "mcp server " ++ id ++ lit " not found").

(** [value.map(str::trim).unwrap_or("").is_empty()]. *)
Definition blank (value : option str) : bool := is_empty (default [] (trim <$> value)).
Definition validate_server (transport : McpTransport) (command url : option str)
    : result ApiError unit :=
  match transport with
  | McpStdio =>
      if blank command then Err (BadRequest (lit "stdio MCP servers require a command"))
      else Ok tt
  | McpHttp =>
      if blank url then Err (BadRequest (lit "http MCP servers require a url")) else Ok tt
  end.
Definition store_server (org project : str) (s : McpServer) : handler unit :=
  store_entity (scope_project org project) SERVERS_COLLECTION (sv_id s) s.
Definition servers_list (org project : str) : handler (list McpServer) :=
  list_entities (scope_project org project) SERVERS_COLLECTION (lit "mcp").
Definition servers_get (org project id : str) : handler McpServer :=
  get_entity (scope_project org project) SERVERS_COLLECTION (lit "mcp") id (server_missing id).
Definition servers_create (org project : str) (request : NewMcpServer) (actor : str)
    : handler McpServer :=
  let name := trim (ns_name request) in
  if is_empty name then st_err (BadRequest (lit "MCP server name is required"))
  else
    do! st_lift (validate_server (ns_transport request) (ns_command request) (ns_url request)) in
    let! n := fetch_add Servers in
    let server :=
      server_with_enabled (ns_enabled request)
        (McpServer_new (lit "mcp_" ++ show_N n) org project name (ns_transport request) actor) in
    let server := apply_opt server_with_command (ns_command request) server in
    let server := apply_opt server_with_url (ns_url request) server in
    do! store_server org project server in
    st_ret server.
Definition updated_server (org project : str) (existing : McpServer) (update : McpServerUpdate)
    : result ApiError McpServer :=
  let name := trimmed_or (su_name update) (sv_name existing) in
  let transport := default (sv_transport existing) (su_transport update) in
  let command := or_existing (su_command update) (sv_command existing) in
  let url := or_existing (su_url update) (sv_url existing) in
  let enabled := default (sv_enabled existing) (su_enabled update) in
  let? _ := validate_server transport command url in
  let server :=
    server_with_enabled enabled
      (McpServer_new (sv_id existing) org project name transport (sv_created_by existing)) in
  Ok (apply_opt server_with_url url (apply_opt server_with_command command server)).
Definition servers_update (org project id : str) (update : McpServerUpdate) : handler McpServer :=
  let! existing := servers_get org project id in
  let! server := st_lift (updated_server org project existing update) in
  do! store_server org project server in
  st_ret server.
Definition servers_delete (org project id : str) : handler unit :=
  delete_entity (scope_project org project) SERVERS_COLLECTION id (server_missing id).

(** ** [memory.rs] *)

Definition CLOUD_MEMORY_COLLECTION : str := lit "memory".
Definition memory_missing (id : str) : ApiError :=
  ApiNotFound (lit "memory " ++ id ++ lit " not found").
Definition audit_stream (memory : str) : str := lit "memory/" ++ memory.

Definition record_audit (scope : StorageScope) (memory : str) (action : MemoryReviewAction)
    (actor : str) : handler unit :=
  let! payload :=
    st_lift (map_err json_internal (to_value (MemoryAuditEntry_new memory action actor))) in
  do! stored (append_log_entry scope (audit_stream memory) payload) in
  st_ret tt.
Definition candidate_entry (id : str) (project : CloudProject) (request : NewMemoryCandidate)
    : MemoryEntry :=
  foldl (λ entry tag, with_tag tag entry)
    (with_sensitivity (nm_sensitivity request)
       (MemoryEntry_new id (ProjectRef_new (pj_id project) (pj_name project)) (nm_kind request)
          (trim (nm_content request))))
    (nm_tags request).
Definition push_candidate (org : str) (project : CloudProject) (request : NewMemoryCandidate)
    (actor : str) : handler MemoryEntry :=
  if is_empty (trim (nm_content request)) then
    st_err (BadRequest (lit "memory content is required"))
  else
    let! n := fetch_add Memories in
    let id := lit "mem_" ++ show_N n in
    let entry := candidate_entry id project request in
    let scope := scope_project org (pj_id project) in
    let! payload := st_lift (map_err json_internal (to_value entry)) in
    let document := StorageDocument_new scope CLOUD_MEMORY_COLLECTION id payload in
    let document :=
      apply_opt (doc_with_metadata (lit "source_uri")) (nm_source_uri request) document in
    do! stored (put_document document) in
    do! record_audit scope id RCreated actor in
    st_ret entry.

Definition keep_status (status : option MemoryStatus) (entry : result ApiError MemoryEntry) : bool :=
  match status, entry with
  | Some wanted, Ok entry => bool_decide (entry_status entry = wanted)
  | _, _ => true
  end.
Definition list_memory (org project : str) (status : option MemoryStatus)
    : handler (list MemoryEntry) :=
  let! documents := reading (list_documents (scope_project org project) CLOUD_MEMORY_COLLECTION) in
  st_lift (collect_result
    (List.filter (keep_status status) (read_entity (lit "memory") <$> documents))).
Definition review_memory_entry (org project memory : str) (action : MemoryReviewAction)
    (actor : str) : handler MemoryEntry :=
  let! new_status :=
    st_lift (ok_or (Internal (lit "review action has no resulting status"))
               (resulting_status action)) in
  let scope := scope_project org project in
  let! document := reading (get_document scope CLOUD_MEMORY_COLLECTION memory) in
  match document with
  | None => st_err (memory_missing memory)
  | Some document =>
      let! entry := st_lift (read_entity (lit "memory") document) in
      let updated := with_status new_status entry in
      let! payload := st_lift (map_err json_internal (to_value updated)) in
      let next := StorageDocument_new scope CLOUD_MEMORY_COLLECTION memory payload in
      let next :=
        foldr (λ kv next, doc_with_metadata kv.1 kv.2 next) next
          (map_to_list (doc_metadata document)) in
      do! stored (put_document next) in
      do! record_audit scope memory action actor in
      st_ret updated
  end.
Definition read_audit (e : AppendLogEntry) : result ApiError MemoryAuditEntry :=
  map_err (λ err, Internal (lit "corrupt audit record: " ++ json_text err))
    (from_value (log_payload e)).
Definition memory_trail (org project memory : str) : handler (list MemoryAuditEntry) :=
  let! entries := reading (replay_log (scope_project org project) (audit_stream memory)) in
  st_lift (collect_result (read_audit <$> entries)).

(** [content.matches(term).count()] for a term that is not empty: occurrences that do
    not overlap, from the left; [skip] is what is left of the last one. *)
Fixpoint count_matches (term s : str) (skip : nat) : nat :=
  match s with
  | [] => 0
  | _ :: rest =>
      match skip with
      | Datatypes.S skip => count_matches term rest skip
      | O =>
          if starts_with term s then Datatypes.S (count_matches term rest (pred (length term)))
          else count_matches term rest 0
      end
  end.
Definition search_score (terms : list str) (entry : MemoryEntry) : nat :=
  let content := to_lowercase (entry_content entry) in
  sum_list ((λ term, count_matches term content 0) <$> terms).
Definition ranked (terms : list str) (limit : nat) (approved : list MemoryEntry)
    : list MemoryEntry :=
  let scored := (λ entry, (search_score terms entry, entry)) <$> approved in
  let scored := List.filter (λ p, 0 <? p.1) scored in
  snd <$> take limit (sort_by (cmp_rev (cmp_on fst Nat.compare)) scored).
Definition memory_hits (query : str) (limit : nat) (approved : list MemoryEntry)
    : list MemoryEntry :=
  let terms := split_whitespace (to_lowercase query) in
  match terms with
  | [] => take limit approved
  | _ => ranked terms limit approved
  end.
Definition search_memories (org project query : str) (limit : nat) : handler (list MemoryEntry) :=
  let! approved := list_memory org project (Some Approved) in
  st_ret (memory_hits query limit approved).
End stores.
Arguments JsonText {_}.
