(* ===== verification/CloudRoutes.v ===== *)
(** * The routes of the cloud service ([codel00p-cloud/src/routes.rs], [state.rs])

    Every handler that works on the storage, as the source writes it: the check of
    the caller, the storage calls under one lock, the notification.  Matching the
    path and decoding the body are the work of the web framework, so a request
    comes as a value of [Request]; the two routes that read Clerk's directory are
    in [CloudDirectory]. *)

From stdpp Require Import base numbers strings gmap list.
From S2P Require Import Prelude RustStr Storage Protocol CloudTypes CloudStores.

Inductive Request :=
| ReqHealth
| ReqMe
| ReqListProjects
| ReqCreateProject (body : NewProject)
| ReqGetProject (project_id : str)
| ReqUpdateProject (project_id : str) (body : ProjectUpdate)
| ReqDeleteProject (project_id : str)
| ReqListAgents (project_id : str)
| ReqCreateAgent (project_id : str) (body : NewAgent)
| ReqGetAgent (project_id agent_id : str)
| ReqUpdateAgent (project_id agent_id : str) (body : AgentUpdate)
| ReqDeleteAgent (project_id agent_id : str)
| ReqListMcp (project_id : str)
| ReqCreateMcp (project_id : str) (body : NewMcpServer)
| ReqGetMcp (project_id server_id : str)
| ReqUpdateMcp (project_id server_id : str) (body : McpServerUpdate)
| ReqDeleteMcp (project_id server_id : str)
| ReqListMemory (project_id : str) (status : option str)
| ReqPushMemory (project_id : str) (body : NewMemoryCandidate)
| ReqSearchMemory (project_id q : str) (limit : option N)
| ReqApproveMemory (project_id memory_id : str)
| ReqRejectMemory (project_id memory_id : str)
| ReqMemoryAudit (project_id memory_id : str).

Inductive Body :=
| BHealth
| BViewer (v : Viewer)
| BProjects (l : list CloudProject)
| BProject (p : CloudProject)
| BAgents (l : list Agent)
| BAgent (a : Agent)
| BServers (l : list McpServer)
| BServer (s : McpServer)
| BMemories (l : list MemoryEntry)
| BMemory (e : MemoryEntry)
| BTrail (l : list MemoryAuditEntry)
| BEmpty.
(** The status code and the body of a success. *)
Definition Response : Type := N * Body.
Definition OK : N := 200.
Definition CREATED : N := 201.
Definition NO_CONTENT : N := 204.

Definition ChangeEvent_new (org entity action : str) : ChangeEvent :=
  {| ev_org_id := org; ev_entity := entity; ev_action := action |}.

(** [parse_status]: the snake-case name of a status. *)
Definition status_of_label (value : str) : option MemoryStatus :=
  if bool_decide (value = lit "candidate") then Some Candidate
  else if bool_decide (value = lit "approved") then Some Approved
  else if bool_decide (value = lit "rejected") then Some Rejected
  else if bool_decide (value = lit "archived") then Some Archived
  else None.
Definition parse_status (value : str) : result ApiError MemoryStatus :=
  ok_or (BadRequest (lit "unknown memory status: " ++ value)) (status_of_label value).

Section routes.
Context `{JsonLib} `{!JsonText} {S : Type} `{!DocumentStore S} `{!AppendLogStore S}.
Context `{!Serde CloudProject} `{!Serde Agent} `{!Serde McpServer}.
Context `{!Serde MemoryEntry} `{!Serde MemoryAuditEntry}.
Context `{Unicode}.
Abbreviation handler := (st (Cloud S) ApiError).

(** [AppState::publish]. *)
Definition publish (org entity action : str) : handler unit := λ c,
  (Ok tt,
   {| c_store := c_store c; c_projects := c_projects c; c_agents := c_agents c;
      c_servers := c_servers c; c_memories := c_memories c;
      c_events := c_events c ++ [ChangeEvent_new org entity action] |}).

Definition require_project (org project : str) : handler unit :=
  let! found := get_project org project in
  match found with None => st_err (project_missing project) | Some _ => st_ret tt end.

(** [auth.require_org()?] and [auth.require_org_admin()?], with the organization's id. *)
Definition of_member (auth : AuthContext) : handler str :=
  let! found := st_lift (require_org auth) in st_ret (org_id found.1).
Definition of_admin (auth : AuthContext) : handler str :=
  let! org := st_lift (require_org_admin auth) in st_ret (org_id org).

(** *** Projects *)

Definition h_list_projects (auth : AuthContext) : handler Response :=
  let! org := of_member auth in
  let! projects := list_projects org in
  st_ret (OK, BProjects projects).
Definition h_create_project (auth : AuthContext) (body : NewProject) : handler Response :=
  let! org := of_admin auth in
  let! project := create_project org body in
  do! publish org (lit "projects") (lit "created") in
  st_ret (CREATED, BProject project).
Definition h_get_project (auth : AuthContext) (project_id : str) : handler Response :=
  let! org := of_member auth in
  let! project := existing_project org project_id in
  st_ret (OK, BProject project).
Definition h_update_project (auth : AuthContext) (project_id : str) (body : ProjectUpdate)
    : handler Response :=
  let! org := of_admin auth in
  let! project := update_project org project_id body in
  do! publish org (lit "projects") (lit "updated") in
  st_ret (OK, BProject project).
Definition h_delete_project (auth : AuthContext) (project_id : str) : handler Response :=
  let! org := of_admin auth in
  do! delete_project org project_id in
  do! publish org (lit "projects") (lit "deleted") in
  st_ret (NO_CONTENT, BEmpty).

(** *** Agents *)

Definition h_list_agents (auth : AuthContext) (project_id : str) : handler Response :=
  let! org := of_member auth in
  do! require_project org project_id in
  let! agents := agents_list org project_id in
  st_ret (OK, BAgents agents).
Definition h_create_agent (auth : AuthContext) (project_id : str) (body : NewAgent)
    : handler Response :=
  let! org := of_admin auth in
  do! require_project org project_id in
  let! agent := agents_create org project_id body (ac_user_id auth) in
  do! publish org (lit "agents") (lit "created") in
  st_ret (CREATED, BAgent agent).
Definition h_get_agent (auth : AuthContext) (project_id agent_id : str) : handler Response :=
  let! org := of_member auth in
  let! agent := agents_get org project_id agent_id in
  st_ret (OK, BAgent agent).
Definition h_update_agent (auth : AuthContext) (project_id agent_id : str) (body : AgentUpdate)
    : handler Response :=
  let! org := of_admin auth in
  let! agent := agents_update org project_id agent_id body in
  do! publish org (lit "agents") (lit "updated") in
  st_ret (OK, BAgent agent).
Definition h_delete_agent (auth : AuthContext) (project_id agent_id : str) : handler Response :=
  let! org := of_admin auth in
  do! agents_delete org project_id agent_id in
  do! publish org (lit "agents") (lit "deleted") in
  st_ret (NO_CONTENT, BEmpty).

(** *** MCP servers *)

Definition h_list_mcp (auth : AuthContext) (project_id : str) : handler Response :=
  let! org := of_member auth in
  do! require_project org project_id in
  let! servers := servers_list org project_id in
  st_ret (OK, BServers servers).
Definition h_create_mcp (auth : AuthContext) (project_id : str) (body : NewMcpServer)
    : handler Response :=
  let! org := of_admin auth in
  do! require_project org project_id in
  let! server := servers_create org project_id body (ac_user_id auth) in
  do! publish org (lit "mcp") (lit "created") in
  st_ret (CREATED, BServer server).
Definition h_get_mcp (auth : AuthContext) (project_id server_id : str) : handler Response :=
  let! org := of_member auth in
  let! server := servers_get org project_id server_id in
  st_ret (OK, BServer server).
Definition h_update_mcp (auth : AuthContext) (project_id server_id : str)
    (body : McpServerUpdate) : handler Response :=
  let! org := of_admin auth in
  let! server := servers_update org project_id server_id body in
  do! publish org (lit "mcp") (lit "updated") in
  st_ret (OK, BServer server).
Definition h_delete_mcp (auth : AuthContext) (project_id server_id : str) : handler Response :=
  let! org := of_admin auth in
  do! servers_delete org project_id server_id in
  do! publish org (lit "mcp") (lit "deleted") in
  st_ret (NO_CONTENT, BEmpty).

(** *** Memory *)

Definition h_push_memory (auth : AuthContext) (project_id : str) (body : NewMemoryCandidate)
    : handler Response :=
  let! org := of_member auth in
  let! project := existing_project org project_id in
  let! entry := push_candidate org project body (ac_user_id auth) in
  do! publish org (lit "memory") (lit "created") in
  st_ret (CREATED, BMemory entry).
(** [query.status.as_deref().map(parse_status).transpose()?]. *)
Definition wanted_status (status : option str) : result ApiError (option MemoryStatus) :=
  match status with
  | None => Ok None
  | Some value => let? status := parse_status value in Ok (Some status)
  end.
Definition h_list_memory (auth : AuthContext) (project_id : str) (status : option str)
    : handler Response :=
  let! org := of_member auth in
  let! status := st_lift (wanted_status status) in
  do! require_project org project_id in
  let! entries := list_memory org project_id status in
  st_ret (OK, BMemories entries).
Definition review_memory (auth : AuthContext) (project_id memory_id : str)
    (action : MemoryReviewAction) : handler Response :=
  let! org := of_admin auth in
  do! require_project org project_id in
  let! entry := review_memory_entry org project_id memory_id action (ac_user_id auth) in
  do! publish org (lit "memory") (lit "reviewed") in
  st_ret (OK, BMemory entry).
Definition approve_memory (auth : AuthContext) (project_id memory_id : str) : handler Response :=
  review_memory auth project_id memory_id RApproved.
Definition reject_memory (auth : AuthContext) (project_id memory_id : str) : handler Response :=
  review_memory auth project_id memory_id RRejected.
Definition h_memory_audit (auth : AuthContext) (project_id memory_id : str) : handler Response :=
  let! org := of_member auth in
  let! trail := memory_trail org project_id memory_id in
  st_ret (OK, BTrail trail).
(** [query.limit.unwrap_or(20).clamp(1, 100)]. *)
Definition hit_limit (limit : option N) : nat :=
  N.to_nat (N.min 100 (N.max 1 (default 20%N limit))).
Definition h_search_memory (auth : AuthContext) (project_id q : str) (limit : option N)
    : handler Response :=
  let! org := of_member auth in
  do! require_project org project_id in
  let! hits := search_memories org project_id q (hit_limit limit) in
  st_ret (OK, BMemories hits).

(** ** The router *)

Definition dispatch (auth : AuthContext) (r : Request) : handler Response :=
  match r with
  | ReqHealth => st_ret (OK, BHealth)
  | ReqMe => st_ret (OK, BViewer (to_viewer auth))
  | ReqListProjects => h_list_projects auth
  | ReqCreateProject body => h_create_project auth body
  | ReqGetProject p => h_get_project auth p
  | ReqUpdateProject p body => h_update_project auth p body
  | ReqDeleteProject p => h_delete_project auth p
  | ReqListAgents p => h_list_agents auth p
  | ReqCreateAgent p body => h_create_agent auth p body
  | ReqGetAgent p a => h_get_agent auth p a
  | ReqUpdateAgent p a body => h_update_agent auth p a body
  | ReqDeleteAgent p a => h_delete_agent auth p a
  | ReqListMcp p => h_list_mcp auth p
  | ReqCreateMcp p body => h_create_mcp auth p body
  | ReqGetMcp p s => h_get_mcp auth p s
  | ReqUpdateMcp p s body => h_update_mcp auth p s body
  | ReqDeleteMcp p s => h_delete_mcp auth p s
  | ReqListMemory p status => h_list_memory auth p status
  | ReqPushMemory p body => h_push_memory auth p body
  | ReqSearchMemory p q limit => h_search_memory auth p q limit
  | ReqApproveMemory p m => approve_memory auth p m
  | ReqRejectMemory p m => reject_memory auth p m
  | ReqMemoryAudit p m => h_memory_audit auth p m
  end.

(** A request with its authorization header: every route but the health check asks
    for the caller first. *)
Definition serve `{JwtLib} (v : JwtVerifier) (header : option str) (r : Request)
    : handler Response :=
  match r with
  | ReqHealth => st_ret (OK, BHealth)
  | _ => let! auth := st_lift (from_request_parts v header) in dispatch auth r
  end.

(** [events]: what a subscriber of an organization is sent of the broadcast; [None] is
    a gap the channel reports to a receiver that fell behind. *)
Definition events_for (org : str) (received : list (option ChangeEvent)) : list ChangeEvent :=
  omap (λ r, match r with
             | Some e => if bool_decide (ev_org_id e = org) then Some e else None
             | None => None
             end) received.
End routes.
