(* ===== verification/CloudIsolation.v ===== *)
(** * Isolation of organizations in the cloud service

    A handler is confined to an organization when its answer depends only on the
    documents, logs and counters that organization can see, and when it changes
    nothing of any other.  The property is closed under the monad and holds of the
    storage calls in the organization's scopes, so it holds of every handler. *)

From stdpp Require Import base numbers strings gmap list.
From S2P Require Import Prelude RustStr Storage Protocol CloudTypes CloudStores CloudRoutes.

Section isolation.
Context `{JsonLib} `{!JsonText} {S : Type} `{!DocumentStore S} `{!AppendLogStore S}.
Context `{!StorageView S} `{!DocumentLaws S} `{!LogLaws S}.
Context `{!Serde CloudProject} `{!Serde Agent} `{!Serde McpServer}.
Context `{!Serde MemoryEntry} `{!Serde MemoryAuditEntry}.
Context `{Unicode}.
Abbreviation handler := (st (Cloud S) ApiError).
Implicit Types c : Cloud S.

Definition cdocs c : gmap DocumentKey StorageDocument := docs (c_store c).
Definition clogs c : gmap LogKey (list AppendLogEntry) := logs (c_store c).
Definition events_of (o : option str) c : list ChangeEvent :=
  filter (λ e, Some (ev_org_id e) = o) (c_events c).

(** Two states with the same data of one organization (or of none). *)
Record same_data (o : option str) c c' : Prop := {
  sd_docs : ∀ k, organization_id (dk_scope k) = o → cdocs c !! k = cdocs c' !! k;
  sd_logs : ∀ k, organization_id (lk_scope k) = o → clogs c !! k = clogs c' !! k;
  sd_events : events_of o c = events_of o c';
}.
#[export] Instance same_data_equiv o : Equivalence (same_data o).
Proof.
  split.
  - by intros c.
  - intros c c' [Hd Hl He]. split; [intros k Hk; symmetry; auto..|done].
  - intros c c' c'' [Hd Hl He] [Hd' Hl' He'].
    split; [intros k Hk; rewrite Hd, Hd'|intros k Hk; rewrite Hl, Hl'|rewrite He, He']; done.
Qed.

(** What a caller of [o] can tell apart: its data and the counters of the process. *)
Record indist (o : str) c c' : Prop := {
  in_data : same_data (Some o) c c';
  in_counters : ∀ k, counter_of k c = counter_of k c';
  in_keyed : docs_keyed (cdocs c);
  in_keyed' : docs_keyed (cdocs c');
}.
(** Nothing but the data of [o] changed. *)
Definition leaves (o : str) c c' : Prop := ∀ o', o' ≠ Some o → same_data o' c c'.
#[export] Instance leaves_preorder o : PreOrder (leaves o).
Proof.
  split.
  - by intros c o' _.
  - intros c c' c'' Hl Hl' o' Ho. etrans; [by apply Hl|by apply Hl'].
Qed.

Definition confined {A} (o : str) (m : handler A) : Prop :=
  ∀ c c', indist o c c' →
    (m c).1 = (m c').1 ∧ indist o (m c).2 (m c').2 ∧ leaves o c (m c).2.

Lemma confined_lift {A} o (r : result ApiError A) : confined o (st_lift r).
Proof. by intros c c' Hi. Qed.

Lemma confined_bind {A B} o (m : handler A) (f : A → handler B) :
  confined o m → (∀ a, confined o (f a)) → confined o (st_bind m f).
Proof.
  intros Hm Hf c c' Hi. destruct (Hm c c' Hi) as (Hr & Hi' & Hl). unfold st_bind.
  destruct (m c) as [r c1], (m c') as [r' c1']. simpl in *. subst r'.
  destruct r as [a|e]; [|done].
  destruct (Hf a c1 c1' Hi') as (Hr & Hi'' & Hl'). split_and!; [done..|]. by etrans.
Qed.

(** After a pure check, only its success matters. *)
Lemma confined_check {A B} o (r : result ApiError A) (f : A → handler B) :
  (∀ a, r = Ok a → confined o (f a)) → confined o (st_bind (st_lift r) f).
Proof.
  intros Hf c c' Hi. unfold st_bind, st_lift. destruct r as [a|e]; [by apply Hf|done].
Qed.

Lemma counter_bump k k' c :
  counter_of k' (bump k c) =
    if decide (k = k') then u64_add (counter_of k' c) 1 else counter_of k' c.
Proof. by destruct k'. Qed.

Lemma confined_fetch_add o k : confined o (fetch_add k).
Proof.
  intros c c' [[Hd Hl He] Hc Hk Hk']. unfold fetch_add. simpl.
  split_and!; [by rewrite Hc| |by intros o' Ho]. split; [split; done| |done..].
  intros k'. by rewrite !counter_bump, Hc.
Qed.

Lemma confined_publish o entity action : confined o (publish o entity action).
Proof.
  intros c c' [[Hd Hl He] Hc Hk Hk']. unfold publish. simpl. split_and!; [done| |].
  - split; [split; [done..|]|intros k; specialize (Hc k); by destruct k|done..].
    unfold events_of in *. simpl. rewrite !filter_app. by rewrite He.
  - intros o' Ho. split; [done..|]. unfold events_of. simpl. rewrite filter_app.
    rewrite (filter_cons_False _ (ChangeEvent_new o entity action)) by (simpl; congruence).
    by rewrite app_nil_r.
Qed.

(** A step that keeps keys, and whose documents and logs after it are determined by those
    of the organization before it. *)
Lemma confined_get {A} o (scope : StorageScope) coll id (f : result StorageError (option StorageDocument) → A) :
  organization_id scope = Some o →
  ∀ c c', indist o c c' →
    f (get_document scope coll id (c_store c)) = f (get_document scope coll id (c_store c')).
Proof.
  intros Hs c c' [[Hd _ _] _ _ _]. rewrite !get_document_law. f_equal. f_equal. by apply Hd.
Qed.

Lemma confined_reading_get o scope coll id :
  organization_id scope = Some o → confined o (reading (get_document scope coll id)).
Proof.
  intros Hs c c' Hi. unfold reading. simpl. split_and!; [|done..].
  by apply (confined_get o scope coll id (map_err internal)).
Qed.

(** A listing reads the documents of its scope only. *)
Lemma documents_of_scope scope coll m :
  docs_keyed m →
  documents_of scope coll (map_to_list m) =
    documents_of scope coll (map_to_list (filter (λ p, dk_scope p.1 = scope) m)).
Proof.
  intros Hk. apply sort_by_perm_eq; [apply _| |].
  - intros d e Hd He Heq. unfold cmp_on in Heq. apply str_cmp_eq in Heq.
    rewrite list_elem_of_fmap in Hd, He.
    destruct Hd as ([k d'] & -> & Hd), He as ([k' e'] & -> & He).
    rewrite list_elem_of_filter, elem_of_map_to_list in Hd, He. simpl in *.
    destruct Hd as [[Hs Hc] Hd], He as [[Hs' Hc'] He].
    pose proof (Hk _ _ Hd) as Hkd. pose proof (Hk _ _ He) as Hke.
    assert (k = k') as <-; [|congruence]. rewrite <- Hkd, <- Hke in *.
    unfold doc_key, DocumentKey_new in *. simpl in *. congruence.
  - apply fmap_Permutation, NoDup_Permutation;
      [apply NoDup_filter, NoDup_map_to_list..|].
    intros [k d]. rewrite !list_elem_of_filter, !elem_of_map_to_list, map_lookup_filter_Some.
    simpl. naive_solver.
Qed.

Lemma confined_reading_list o scope coll :
  organization_id scope = Some o → confined o (reading (list_documents scope coll)).
Proof.
  intros Hs c c' Hi. unfold reading. simpl. split_and!; [|done..].
  destruct Hi as [[Hd _ _] _ Hk Hk']. rewrite !list_documents_law. do 2 f_equal.
  fold (cdocs c) (cdocs c').
  rewrite (documents_of_scope _ _ _ Hk), (documents_of_scope _ _ _ Hk'). do 2 f_equal.
  apply map_eq. intros k. apply option_eq. intros d. rewrite !map_lookup_filter_Some. simpl.
  split; intros [Hl <-]; (split; [|done]); [rewrite <- Hd|rewrite Hd]; done.
Qed.

Lemma confined_reading_log o scope stream :
  organization_id scope = Some o → confined o (reading (replay_log scope stream)).
Proof.
  intros Hs c c' Hi. unfold reading. simpl. split_and!; [|done..].
  destruct Hi as [[_ Hl _] _ _ _]. rewrite !replay_log_law. do 3 f_equal. by apply Hl.
Qed.

Lemma stored_Ok {A} (m : st S StorageError A) c a s' :
  m (c_store c) = (Ok a, s') → stored m c = (Ok a, set_store s' c).
Proof. intros Hm. unfold stored. by rewrite Hm. Qed.

Lemma confined_put o d :
  organization_id (doc_scope d) = Some o → confined o (stored (put_document d)).
Proof.
  intros Hs c c' [[Hd Hl He] Hc Hk Hk'].
  destruct (put_document_law d (c_store c)) as (s & Hp & Hds & _ & Hls).
  destruct (put_document_law d (c_store c')) as (s' & Hp' & Hds' & _ & Hls').
  rewrite (stored_Ok _ _ _ _ Hp), (stored_Ok _ _ _ _ Hp'). simpl.
  assert (stored_document (docs (c_store c)) d = stored_document (docs (c_store c')) d) as Heq.
  { unfold stored_document. do 2 f_equal. f_equal. by apply Hd. }
  split_and!; [by rewrite Heq| |].
  - split; [split| | |]; [| |done|intros k; specialize (Hc k); by destruct k| |].
    + intros k Hk2. unfold cdocs in *. simpl. rewrite Hds, Hds', <- Heq, !lookup_insert.
      case_decide; [done|by apply Hd].
    + intros k Hk2. unfold clogs in *. simpl. rewrite Hls, Hls'. by apply Hl.
    + unfold cdocs. simpl. rewrite Hds. by apply (docs_keyed_insert _ (stored_document _ d)).
    + unfold cdocs. simpl. rewrite Hds'. by apply (docs_keyed_insert _ (stored_document _ d)).
  - intros o' Ho. split; [| |done]; intros k Hk2; unfold cdocs, clogs; simpl.
    + rewrite Hds, lookup_insert_ne; [done|]. intros <-. simpl in Hk2. congruence.
    + by rewrite Hls.
Qed.

Lemma docs_keyed_delete k (m : gmap DocumentKey StorageDocument) :
  docs_keyed m → docs_keyed (delete k m).
Proof. intros Hm k' d [_ Hd]%lookup_delete_Some. by apply Hm. Qed.

Lemma confined_delete o scope coll id :
  organization_id scope = Some o → confined o (stored (delete_document scope coll id)).
Proof.
  intros Hs c c' [[Hd Hl He] Hc Hk Hk'].
  destruct (delete_document_law scope coll id (c_store c)) as (s & Hp & Hds & _ & Hls).
  destruct (delete_document_law scope coll id (c_store c')) as (s' & Hp' & Hds' & _ & Hls').
  rewrite (stored_Ok _ _ _ _ Hp), (stored_Ok _ _ _ _ Hp'). simpl.
  pose proof (Hd (DocumentKey_new scope coll id) Hs) as Heq. unfold cdocs in Heq.
  split_and!; [by rewrite Heq| |].
  - split; [split| | |]; [| |done|intros k; specialize (Hc k); by destruct k| |].
    + intros k Hk2. unfold cdocs in *. simpl. rewrite Hds, Hds', !lookup_delete.
      case_decide; [done|by apply Hd].
    + intros k Hk2. unfold clogs in *. simpl. rewrite Hls, Hls'. by apply Hl.
    + unfold cdocs. simpl. rewrite Hds. by apply docs_keyed_delete.
    + unfold cdocs. simpl. rewrite Hds'. by apply docs_keyed_delete.
  - intros o' Ho. split; [| |done]; intros k Hk2; unfold cdocs, clogs; simpl.
    + rewrite Hds, lookup_delete_ne; [done|]. intros <-. simpl in Hk2. congruence.
    + by rewrite Hls.
Qed.

Lemma confined_append o scope stream payload :
  organization_id scope = Some o → confined o (stored (append_log_entry scope stream payload)).
Proof.
  intros Hs c c' [[Hd Hl He] Hc Hk Hk'].
  destruct (append_log_law scope stream payload (c_store c)) as (s & Hp & Hls & Hds & _).
  destruct (append_log_law scope stream payload (c_store c')) as (s' & Hp' & Hls' & Hds' & _).
  rewrite (stored_Ok _ _ _ _ Hp), (stored_Ok _ _ _ _ Hp'). simpl.
  pose proof (Hl (LogKey_new scope stream) Hs) as Heq. unfold clogs in Heq.
  split_and!; [by rewrite Heq| |].
  - split; [split| | |]; [| |done|intros k; specialize (Hc k); by destruct k| |].
    + intros k Hk2. unfold cdocs in *. simpl. rewrite Hds, Hds'. by apply Hd.
    + intros k Hk2. unfold clogs in *. simpl. rewrite Hls, Hls', <- Heq, !lookup_insert.
      case_decide; [done|by apply Hl].
    + unfold cdocs. simpl. by rewrite Hds.
    + unfold cdocs. simpl. by rewrite Hds'.
  - intros o' Ho. split; [| |done]; intros k Hk2; unfold cdocs, clogs; simpl.
    + by rewrite Hds.
    + rewrite Hls, lookup_insert_ne; [done|]. intros <-. simpl in Hk2. congruence.
Qed.

(** ** Every operation *)

Lemma confined_ret {A} o (a : A) : confined o (st_ret a).
Proof. apply (confined_lift o (Ok a)). Qed.
Lemma confined_err {A} o e : confined o (st_err (A := A) e).
Proof. apply (confined_lift o (Err e)). Qed.
End isolation.

Create HintDb confine.
#[export] Hint Resolve confined_ret confined_err confined_lift confined_fetch_add
  confined_publish : confine.
#[export] Hint Extern 0 (organization_id _ = Some _) => reflexivity : confine.
#[export] Hint Resolve confined_reading_get confined_reading_list confined_reading_log
  confined_put confined_delete confined_append : confine.

(** Walks through a handler: binds, pure checks, branches and known calls. *)
Ltac confine :=
  repeat lazymatch goal with
  | |- ∀ _, _ => intros ?
  | |- confined _ (st_bind (st_lift _) _) => apply confined_check; intros ? ?
  | |- confined _ (st_bind _ _) => apply confined_bind
  | |- confined _ (match _ with _ => _ end) => case_match
  | |- confined _ _ => solve [eauto with confine]
  end.

Section handlers.
Context `{JsonLib} `{!JsonText} {S : Type} `{!DocumentStore S} `{!AppendLogStore S}.
Context `{!StorageView S} `{!DocumentLaws S} `{!LogLaws S}.
Context `{!Serde CloudProject} `{!Serde Agent} `{!Serde McpServer}.
Context `{!Serde MemoryEntry} `{!Serde MemoryAuditEntry}.
Context `{Unicode}.
Abbreviation handler := (st (Cloud S) ApiError).
Implicit Types c : Cloud S.

Lemma confined_store_entity {A} `{!Serde A} o scope coll id (a : A) :
  organization_id scope = Some o → confined (S := S) o (store_entity scope coll id a).
Proof. intros Hs. unfold store_entity. confine. Qed.
Lemma confined_list_entities {A} `{!Serde A} o scope coll what :
  organization_id scope = Some o →
  confined (S := S) (A := list A) o (list_entities scope coll what).
Proof. intros Hs. unfold list_entities. confine. Qed.
Lemma confined_delete_entity o scope coll id missing :
  organization_id scope = Some o →
  confined (S := S) o (delete_entity scope coll id missing).
Proof. intros Hs. unfold delete_entity. confine. Qed.
Lemma confined_get_entity {A} `{!Serde A} o scope coll what id missing :
  organization_id scope = Some o →
  confined (S := S) (A := A) o (get_entity scope coll what id missing).
Proof. intros Hs. unfold get_entity. confine. Qed.
#[local] Hint Resolve confined_store_entity confined_list_entities confined_delete_entity
  confined_get_entity : confine.

Lemma confined_get_project o id : confined (S := S) o (get_project o id).
Proof. unfold get_project. confine. Qed.
#[local] Hint Resolve confined_get_project : confine.
Lemma confined_existing_project o id : confined (S := S) o (existing_project o id).
Proof. unfold existing_project. confine. Qed.
Lemma confined_require_project o id : confined (S := S) o (require_project o id).
Proof. unfold require_project. confine. Qed.
Lemma confined_record_audit o scope memory action actor :
  organization_id scope = Some o →
  confined (S := S) o (record_audit scope memory action actor).
Proof. intros Hs. unfold record_audit. confine. Qed.
Lemma confined_list_memory o project status : confined (S := S) o (list_memory o project status).
Proof. unfold list_memory. confine. Qed.
#[local] Hint Resolve confined_existing_project confined_require_project confined_record_audit
  confined_list_memory : confine.

Lemma confined_push o project request actor :
  confined (S := S) o (push_candidate o project request actor).
Proof.
  unfold push_candidate. confine. apply confined_put.
  by destruct (nm_source_uri request).
Qed.
Lemma with_metadata_scope (d : StorageDocument) (l : list (str * str)) :
  doc_scope (foldr (λ kv d, doc_with_metadata kv.1 kv.2 d) d l) = doc_scope d.
Proof. by induction l. Qed.
Lemma confined_review o project memory action actor :
  confined (S := S) o (review_memory_entry o project memory action actor).
Proof.
  unfold review_memory_entry. confine. apply confined_put. by rewrite with_metadata_scope.
Qed.
#[local] Hint Resolve confined_push confined_review : confine.

(** The organization a caller acts for. *)
Definition caller_org (auth : AuthContext) : option str :=
  match ac_org auth, ac_org_role auth with
  | Some org, Some _ => Some (org_id org)
  | _, _ => None
  end.

Lemma of_member_org auth (f : str → handler Response) o :
  (caller_org auth = Some o → confined o (f o)) →
  (caller_org auth = None ∨ caller_org auth = Some o) →
  confined o (st_bind (of_member auth) f).
Proof.
  unfold caller_org, of_member, require_org. intros Hf Ho.
  destruct (ac_org auth) as [org|], (ac_org_role auth) as [role|]; try by apply confined_err.
  destruct Ho as [?|[= <-]]; [done|]. by apply Hf.
Qed.
Lemma of_admin_org auth (f : str → handler Response) o :
  (caller_org auth = Some o → confined o (f o)) →
  (caller_org auth = None ∨ caller_org auth = Some o) →
  confined o (st_bind (of_admin auth) f).
Proof.
  unfold caller_org, of_admin, require_org_admin, require_org. intros Hf Ho.
  destruct (ac_org auth) as [org|], (ac_org_role auth) as [[]|];
    try by apply confined_err.
  destruct Ho as [?|[= <-]]; [done|]. by apply Hf.
Qed.

(** Every route is confined to the organization of its caller. *)
Lemma dispatch_confined auth r o :
  (caller_org auth = None ∨ caller_org auth = Some o) → confined (S := S) o (dispatch auth r).
Proof.
  intros Ho. destruct r; simpl; first [apply confined_ret|
    first [apply of_member_org | apply of_admin_org]; [intros _|done]];
    unfold create_project, update_project, store_project, delete_project, list_projects,
      agents_list, agents_create, agents_get, agents_update, agents_delete, store_agent,
      servers_list, servers_create, servers_get, servers_update, servers_delete, store_server,
      memory_trail, search_memories; confine.
Qed.
End handlers.
