(* ===== verification/CloudGate.v ===== *)
(** * Who may change what in the cloud service

    The isolation of organizations over whole sequences of requests, and the
    gate: only a verified administrator of the organization changes its data, and
    a member can only add a memory candidate. *)

From stdpp Require Import base numbers strings gmap list.
From S2P Require Import Prelude RustStr Storage Protocol CloudTypes CloudStores CloudRoutes.
From S2P Require Import CloudIsolation.

Section gate.
Context `{JsonLib} `{!JsonText} {S : Type} `{!DocumentStore S} `{!AppendLogStore S}.
Context `{!StorageView S} `{!DocumentLaws S} `{!LogLaws S}.
Context `{!Serde CloudProject} `{!Serde Agent} `{!Serde McpServer}.
Context `{!Serde MemoryEntry} `{!Serde MemoryAuditEntry}.
Context `{Unicode} `{JwtLib}.
Abbreviation handler := (st (Cloud S) ApiError).
Implicit Types c : Cloud S.

(** The organization of the caller a header authenticates. *)
Definition caller (v : JwtVerifier) (header : option str) : option str :=
  match from_request_parts v header with Ok auth => caller_org auth | Err _ => None end.
Definition run_requests (v : JwtVerifier) (requests : list (option str * Request)) c : Cloud S :=
  foldl (λ c q, (serve v q.1 q.2 c).2) c requests.

Lemma serve_confined v header r o :
  (caller v header = None ∨ caller v header = Some o) →
  confined (S := S) o (serve v header r).
Proof.
  unfold caller, serve. intros Ho. destruct r; try apply confined_ret; apply confined_check;
    intros auth Ha; rewrite Ha in Ho; by apply dispatch_confined.
Qed.

Lemma indist_refl o c : docs_keyed (cdocs c) → indist o c c.
Proof. by intros Hk. Qed.

Lemma serve_step v header r o c :
  docs_keyed (cdocs c) → caller v header ≠ Some o →
  docs_keyed (cdocs (serve v header r c).2) ∧ same_data (Some o) c (serve v header r c).2.
Proof.
  intros Hk Ho.
  assert (∃ o', (caller v header = None ∨ caller v header = Some o') ∧ o' ≠ o) as (o' & Hc & Hne).
  { destruct (caller v header) as [o'|]; [exists o'; split; [by right|congruence]|].
    exists (0%N :: o). split; [by left|]. intros Heq%(f_equal length). simpl in Heq. lia. }
  destruct (serve_confined v header r o' Hc c c (indist_refl o' c Hk)) as (_ & Hi & Hl).
  split; [apply Hi|]. apply Hl. congruence.
Qed.

(** C11. Organizations are isolated.  A caller cannot tell apart two states of the service
    that agree on the documents, logs and notifications of its organization and on the id
    counters: every request gets the same answer on both, and they still agree afterwards.
    And no sequence of requests from callers of other organizations, or from callers who do
    not authenticate, changes a document, a log or a notification of the organization. *)
Theorem org_isolation v o :
  (∀ header r c c', caller v header = Some o → indist o c c' →
     (serve v header r c).1 = (serve v header r c').1 ∧
     indist o (serve v header r c).2 (serve v header r c').2) ∧
  (∀ requests c, docs_keyed (cdocs c) → Forall (λ q, caller v q.1 ≠ Some o) requests →
     same_data (Some o) c (run_requests v requests c)).
Proof.
  split.
  - intros header r c c' Hc Hi.
    destruct (serve_confined v header r o (or_intror Hc) c c' Hi) as (? & ? & _). done.
  - intros requests. induction requests as [|[header r] requests IH]; intros c Hk Hall; [done|].
    apply Forall_cons in Hall as [Hc Hall]. simpl in *.
    destruct (serve_step v header r o c Hk Hc) as [Hk' Hsd]. etrans; [exact Hsd|].
    by apply IH.
Qed.

(** ** Reading handlers *)

Definition readonly {A} (m : handler A) : Prop := ∀ c, (m c).2 = c.
Lemma readonly_ret {A} (a : A) : readonly (st_ret a).
Proof. done. Qed.
Lemma readonly_err {A} e : readonly (st_err (A := A) e).
Proof. done. Qed.
Lemma readonly_lift {A} (r : result ApiError A) : readonly (st_lift r).
Proof. done. Qed.
Lemma readonly_reading {A} (m : S → result StorageError A) : readonly (reading m).
Proof. done. Qed.
Lemma readonly_bind {A B} (m : handler A) (f : A → handler B) :
  readonly m → (∀ a, readonly (f a)) → readonly (st_bind m f).
Proof.
  intros Hm Hf c. specialize (Hm c). unfold st_bind. destruct (m c) as [[a|e] c1]; simpl in *;
    subst; [apply Hf|done].
Qed.
End gate.

Create HintDb readonly.
#[export] Hint Resolve readonly_ret readonly_err readonly_lift readonly_reading : readonly.
Ltac readonly :=
  repeat lazymatch goal with
  | |- ∀ _, _ => intros ?
  | |- readonly (st_bind _ _) => apply readonly_bind
  | |- readonly (match _ with _ => _ end) => case_match
  | |- readonly _ => solve [eauto with readonly]
  end.

Section gated.
Context `{JsonLib} `{!JsonText} {S : Type} `{!DocumentStore S} `{!AppendLogStore S}.
Context `{!StorageView S} `{!DocumentLaws S} `{!LogLaws S}.
Context `{!Serde CloudProject} `{!Serde Agent} `{!Serde McpServer}.
Context `{!Serde MemoryEntry} `{!Serde MemoryAuditEntry} `{!SerdeLaws MemoryEntry}.
Context `{Unicode} `{JwtLib}.
Abbreviation handler := (st (Cloud S) ApiError).
Implicit Types c : Cloud S.

Lemma readonly_get_project org id : readonly (S := S) (get_project org id).
Proof. unfold get_project. readonly. Qed.
#[local] Hint Resolve readonly_get_project : readonly.
Lemma readonly_existing_project org id : readonly (S := S) (existing_project org id).
Proof. unfold existing_project. readonly. Qed.
Lemma readonly_require_project org id : readonly (S := S) (require_project org id).
Proof. unfold require_project. readonly. Qed.
#[local] Hint Resolve readonly_existing_project readonly_require_project : readonly.

(** The requests that write. *)
Definition writes (r : Request) : bool :=
  match r with
  | ReqCreateProject _ | ReqUpdateProject _ _ | ReqDeleteProject _
  | ReqCreateAgent _ _ | ReqUpdateAgent _ _ _ | ReqDeleteAgent _ _
  | ReqCreateMcp _ _ | ReqUpdateMcp _ _ _ | ReqDeleteMcp _ _
  | ReqPushMemory _ _ | ReqApproveMemory _ _ | ReqRejectMemory _ _ => true
  | _ => false
  end.
Definition is_push (r : Request) : bool := match r with ReqPushMemory _ _ => true | _ => false end.

Lemma dispatch_reads auth r : writes r = false → readonly (S := S) (dispatch auth r).
Proof.
  intros Hw. destruct r; try discriminate Hw; simpl;
    unfold h_list_projects, h_get_project, h_list_agents, h_get_agent, h_list_mcp, h_get_mcp,
      h_list_memory, h_search_memory, h_memory_audit, of_member, list_projects, agents_list,
      agents_get, servers_list, servers_get, list_entities, get_entity, search_memories,
      list_memory, memory_trail; readonly.
Qed.

Lemma of_admin_refuses {A} auth (f : str → handler A) c :
  ac_org_role auth ≠ Some Admin → (st_bind (of_admin auth) f c).2 = c.
Proof.
  intros Hr. unfold of_admin, require_org_admin, require_org.
  by destruct (ac_org auth), (ac_org_role auth) as [[]|].
Qed.
Lemma dispatch_refuses auth r c :
  ac_org_role auth ≠ Some Admin → writes r = true → is_push r = false →
  (dispatch auth r c).2 = c.
Proof. intros Hr Hw Hp. destruct r; try discriminate; by apply of_admin_refuses. Qed.

(** A request without an organization changes nothing. *)
Lemma dispatch_no_org auth r c : caller_org auth = None → (dispatch auth r c).2 = c.
Proof.
  intros Hn. destruct (writes r) eqn:Hw; [|by apply dispatch_reads].
  destruct (is_push r) eqn:Hp.
  - destruct r; try discriminate. unfold caller_org in Hn. simpl.
    unfold h_push_memory, of_member, require_org.
    by destruct (ac_org auth), (ac_org_role auth).
  - destruct r; try discriminate; unfold caller_org in Hn; simpl;
      unfold h_create_project, h_update_project, h_delete_project, h_create_agent,
        h_update_agent, h_delete_agent, h_create_mcp, h_update_mcp, h_delete_mcp,
        approve_memory, reject_memory, review_memory, of_admin, require_org_admin, require_org;
      by destruct (ac_org auth), (ac_org_role auth).
Qed.

(** What a push can do: a new candidate under the next memory id of one project, with an
    event in its log. *)
Definition candidate_added (org project : str) c c' : Prop :=
  let id := lit "mem_" ++ show_N (c_memories c) in
  let scope := scope_project org project in
  let key := DocumentKey_new scope CLOUD_MEMORY_COLLECTION id in
  (∀ k, k ≠ key → cdocs c' !! k = cdocs c !! k) ∧
  (∀ k, k ≠ LogKey_new scope (audit_stream id) → clogs c' !! k = clogs c !! k) ∧
  ∃ d e, cdocs c' !! key = Some d ∧ from_value (doc_payload d) = Ok e ∧
    entry_id e = id ∧ entry_status e = Candidate.
Definition same_store c c' : Prop := cdocs c' = cdocs c ∧ clogs c' = clogs c.

Lemma with_tags_keeps tags (e : MemoryEntry) :
  let e' := foldl (λ e tag, with_tag tag e) e tags in
  entry_id e' = entry_id e ∧ entry_status e' = entry_status e.
Proof.
  revert e. induction tags as [|tag tags IH]; intros e; [done|]. simpl.
  destruct (IH (with_tag tag e)) as [-> ->]. done.
Qed.

(** The trail of a state that has the candidate's document: only the log can still change. *)
Lemma record_audit_frame scope memory action actor c :
  let c' := (record_audit scope memory action actor c).2 in
  cdocs c' = cdocs c ∧
  (∀ k, k ≠ LogKey_new scope (audit_stream memory) → clogs c' !! k = clogs c !! k).
Proof.
  unfold record_audit, st_bind, st_lift.
  destruct (to_value _) as [payload|e]; simpl; [|done].
  destruct (append_log_law scope (audit_stream memory) payload (c_store c)) as (s & Hp & Hl & Hd & _).
  rewrite (stored_Ok _ _ _ _ Hp). simpl. split; [exact Hd|].
  intros k Hk. unfold clogs. simpl. by rewrite Hl, lookup_insert_ne.
Qed.

Lemma bind_ret_state {A B} (m : handler A) (b : B) c :
  (st_bind m (λ _, st_ret b) c).2 = (m c).2.
Proof. unfold st_bind. by destruct (m c) as [[]]. Qed.

Lemma push_adds org project request actor c :
  let c' := (push_candidate org project request actor c).2 in
  same_store c c' ∨ candidate_added org (pj_id project) c c'.
Proof.
  unfold push_candidate. destruct (is_empty (trim (nm_content request))); [by left|right].
  unfold st_bind at 1, fetch_add. cbn [counter_of].
  set (id := lit "mem_" ++ show_N (c_memories c)).
  set (entry := candidate_entry id project request).
  destruct (serde_round_trip entry) as (payload & Hto & Hfrom). rewrite Hto.
  unfold st_bind at 1, st_lift. cbn [map_err].
  set (scope := scope_project org (pj_id project)).
  set (d := apply_opt _ _ _).
  assert (doc_payload d = payload) as Hpay by (unfold d; by destruct (nm_source_uri request)).
  assert (doc_key d = DocumentKey_new scope CLOUD_MEMORY_COLLECTION id) as Hkey
    by (unfold d; by destruct (nm_source_uri request)).
  unfold st_bind at 1.
  destruct (put_document_law d (c_store (bump Memories c))) as (s & Hp & Hd & _ & Hl).
  rewrite (stored_Ok _ _ _ _ Hp). rewrite bind_ret_state. set (c1 := set_store s _).
  destruct (record_audit_frame scope id RCreated actor c1) as [Hd2 Hl2].
  unfold candidate_added. fold id scope. rewrite Hd2. unfold cdocs at 1 3. simpl. rewrite Hd, Hkey.
  split_and!.
  - intros k Hk. by rewrite lookup_insert_ne.
  - intros k Hk. rewrite Hl2 by done. unfold clogs. simpl. by rewrite Hl.
  - exists (stored_document (docs (c_store c)) d), entry. rewrite lookup_insert_eq. simpl.
    rewrite Hpay. split_and!; [done|exact Hfrom| |]; apply with_tags_keeps.
Qed.

Lemma push_gate auth project body o c :
  caller_org auth = Some o →
  let c' := (dispatch auth (ReqPushMemory project body) c).2 in
  same_store c c' ∨ ∃ pid, candidate_added o pid c c'.
Proof.
  unfold caller_org. intros Ho. simpl.
  unfold h_push_memory, of_member, require_org.
  destruct (ac_org auth) as [org|], (ac_org_role auth) as [role|]; try discriminate.
  injection Ho as <-. unfold st_bind, st_lift, st_ret. cbn [fst].
  destruct (existing_project (org_id org) project c) as [[p|e] c1] eqn:He;
    pose proof (readonly_existing_project (org_id org) project c) as Hro; rewrite He in Hro;
    simpl in Hro; subst c1; [|by left].
  pose proof (push_adds (org_id org) p body (ac_user_id auth) c) as Hpush.
  destruct (push_candidate (org_id org) p body (ac_user_id auth) c) as [[e|e] c2]; simpl in *;
    destruct Hpush as [?|?]; eauto.
Qed.

(** C12. The gate of the service: whatever the request and the state, either no document and no
    log changed, or the header carries a token that a key of the verifier signed, whose claims
    make the caller a member of an organization, only data of that organization changed, and
    the caller is an administrator of it, unless the request pushes a memory: then the change
    is one new candidate in one project, with an event in its log. *)
Theorem cloud_admin_gate v header r c :
  docs_keyed (cdocs c) →
  let c' := (serve v header r c).2 in
  same_store c c' ∨
  ∃ auth o, token_grants v header auth ∧ caller_org auth = Some o ∧ leaves o c c' ∧
    (ac_org_role auth = Some Admin ∨
     ∃ project body pid, r = ReqPushMemory project body ∧ candidate_added o pid c c').
Proof.
  intros Hk. unfold serve.
  destruct (from_request_parts v header) as [auth|e] eqn:Ha; [|left; by destruct r].
  assert (serve v header r c = dispatch auth r c) as Hs.
  { unfold serve, st_bind, st_lift. rewrite Ha. by destruct r. }
  unfold serve in Hs. rewrite Ha in Hs. rewrite Hs.
  destruct (caller_org auth) as [o|] eqn:Ho; [|left; by rewrite dispatch_no_org].
  assert (leaves o c (dispatch auth r c).2) as Hl
    by by apply (dispatch_confined auth r o (or_intror Ho) c c), indist_refl.
  destruct (writes r) eqn:Hw; [|left; by rewrite dispatch_reads].
  destruct (decide (ac_org_role auth = Some Admin)) as [Hr|Hr].
  { right. exists auth, o. split_and!; [by apply from_request_parts_Ok|done..|by left]. }
  destruct (is_push r) eqn:Hp; [|left; by rewrite dispatch_refuses].
  destruct r as [| | | | | | | | | | | | | | | | | |p body| | | |]; try discriminate.
  destruct (push_gate auth p body o c Ho) as [?|[pid ?]]; [by left|right].
  exists auth, o. split_and!; [by apply from_request_parts_Ok|done..|right]. by exists p, body, pid.
Qed.
End gated.
