(* ===== verification/CloudSpec.v ===== *)
(** * What the cloud service promises

    The service as a machine over plain tables: no documents, no JSON, no
    versions, no logs.  [spec_step] says for every request who may make it, what
    it answers and what it changes; [refines] relates its state to a process over a
    storage backend. *)

From stdpp Require Import base numbers functions strings gmap list.
From S2P Require Import Prelude RustStr Storage Protocol CloudTypes CloudStores CloudRoutes.
From S2P Require Import CloudIsolation.

(** ** Tables: the records of each scope, by id. *)

Abbreviation table A := (StorageScope → gmap str A).
Definition t_put {A} (scope : StorageScope) (id : str) (a : A) (t : table A) : table A :=
  <[scope := <[id := a]> (t scope)]> t.
Definition t_delete {A} (scope : StorageScope) (id : str) (t : table A) : table A :=
  <[scope := delete id (t scope)]> t.
(** The records of a scope in the order of their ids. *)
Definition t_list {A} (scope : StorageScope) (t : table A) : list A :=
  snd <$> sort_by (cmp_on fst str_cmp) (map_to_list (t scope)).

Record Spec := {
  s_projects : table CloudProject;
  s_agents : table Agent;
  s_servers : table McpServer;
  s_memories : table MemoryEntry;
  s_trails : table (list MemoryAuditEntry);
  s_next : counter → N;
  s_events : list ChangeEvent;
}.
Definition spec_init : Spec :=
  {| s_projects := λ _, ∅; s_agents := λ _, ∅; s_servers := λ _, ∅; s_memories := λ _, ∅;
     s_trails := λ _, ∅; s_next := λ _, 1%N; s_events := [] |}.

Definition on_projects (f : table CloudProject → table CloudProject) (s : Spec) : Spec :=
  {| s_projects := f (s_projects s); s_agents := s_agents s; s_servers := s_servers s;
     s_memories := s_memories s; s_trails := s_trails s; s_next := s_next s;
     s_events := s_events s |}.
Definition on_agents (f : table Agent → table Agent) (s : Spec) : Spec :=
  {| s_projects := s_projects s; s_agents := f (s_agents s); s_servers := s_servers s;
     s_memories := s_memories s; s_trails := s_trails s; s_next := s_next s;
     s_events := s_events s |}.
Definition on_servers (f : table McpServer → table McpServer) (s : Spec) : Spec :=
  {| s_projects := s_projects s; s_agents := s_agents s; s_servers := f (s_servers s);
     s_memories := s_memories s; s_trails := s_trails s; s_next := s_next s;
     s_events := s_events s |}.
(** A memory entry with the event that made it what it is. *)
Definition on_memory (scope : StorageScope) (e : MemoryAuditEntry) (entry : MemoryEntry)
    (s : Spec) : Spec :=
  let id := au_memory_id e in
  {| s_projects := s_projects s; s_agents := s_agents s; s_servers := s_servers s;
     s_memories := t_put scope id entry (s_memories s);
     s_trails := t_put scope id (default [] (s_trails s scope !! id) ++ [e]) (s_trails s);
     s_next := s_next s; s_events := s_events s |}.
Definition take_id (k : counter) (s : Spec) : Spec :=
  {| s_projects := s_projects s; s_agents := s_agents s; s_servers := s_servers s;
     s_memories := s_memories s; s_trails := s_trails s;
     s_next := <[k := u64_add (s_next s k) 1]> (s_next s); s_events := s_events s |}.
Definition notify (org entity action : str) (s : Spec) : Spec :=
  {| s_projects := s_projects s; s_agents := s_agents s; s_servers := s_servers s;
     s_memories := s_memories s; s_trails := s_trails s; s_next := s_next s;
     s_events := s_events s ++ [ChangeEvent_new org entity action] |}.

(** ** The requests *)

Section spec.
Context `{Unicode}.

(** Who may make a request. *)
Definition needs_admin (r : Request) : bool :=
  match r with
  | ReqCreateProject _ | ReqUpdateProject _ _ | ReqDeleteProject _
  | ReqCreateAgent _ _ | ReqUpdateAgent _ _ _ | ReqDeleteAgent _ _
  | ReqCreateMcp _ _ | ReqUpdateMcp _ _ _ | ReqDeleteMcp _ _
  | ReqApproveMemory _ _ | ReqRejectMemory _ _ => true
  | _ => false
  end.
Definition admitted (auth : AuthContext) (r : Request) : result ApiError str :=
  if needs_admin r then let? org := require_org_admin auth in Ok (org_id org)
  else let? found := require_org auth in Ok (org_id found.1).

(** The project a request names must exist, for the requests that ask for it. *)
Definition needs_project (r : Request) : option str :=
  match r with
  | ReqListAgents p | ReqCreateAgent p _ | ReqListMcp p | ReqCreateMcp p _
  | ReqListMemory p _ | ReqPushMemory p _ | ReqSearchMemory p _ _
  | ReqApproveMemory p _ | ReqRejectMemory p _ => Some p
  | _ => None
  end.

Definition new_project (org id : str) (body : NewProject) : result ApiError CloudProject :=
  let name := trim (np_name body) in
  if is_empty name then Err (BadRequest (lit "project name is required"))
  else Ok (apply_opt with_repository_url (np_repository_url body)
             (CloudProject_new id org name (slugify name))).
Definition new_agent (org project id : str) (body : NewAgent) (actor : str) : result ApiError Agent :=
  let name := trim (na_name body) in
  let provider := trim (na_provider body) in
  let model := trim (na_model body) in
  if is_empty name then Err (BadRequest (lit "agent name is required"))
  else if is_empty provider || is_empty model then
    Err (BadRequest (lit "agent provider and model are required"))
  else Ok (apply_opt agent_with_instructions (na_instructions body)
             (apply_opt agent_with_description (na_description body)
                (agent_with_mcp_server_ids (na_mcp_server_ids body)
                   (Agent_new id org project name provider model actor)))).
Definition new_server (org project id : str) (body : NewMcpServer) (actor : str)
    : result ApiError McpServer :=
  let name := trim (ns_name body) in
  if is_empty name then Err (BadRequest (lit "MCP server name is required"))
  else let? _ := validate_server (ns_transport body) (ns_command body) (ns_url body) in
       Ok (apply_opt server_with_url (ns_url body)
             (apply_opt server_with_command (ns_command body)
                (server_with_enabled (ns_enabled body)
                   (McpServer_new id org project name (ns_transport body) actor)))).

(** The id the next record of a kind gets. *)
Definition next_id (k : counter) (s : Spec) : str :=
  match k with
  | Projects => lit "proj_" | Agents => lit "agent_"
  | Servers => lit "mcp_" | Memories => lit "mem_"
  end ++ show_N (s_next s k).

(** An answer that changes nothing, and one that does. *)
Definition answer {A} (f : A → Body) (r : result ApiError A) (s : Spec)
    : result ApiError Response * Spec :=
  (let? a := r in Ok (OK, f a), s).
Definition commit {A} (code : N) (f : A → Body) (r : result ApiError A) (s : Spec) (g : A → Spec)
    : result ApiError Response * Spec :=
  match r with Ok a => (Ok (code, f a), g a) | Err e => (Err e, s) end.
Definition found {A} (missing : str → ApiError) (id : str) (rows : gmap str A) : result ApiError A :=
  ok_or (missing id) (rows !! id).
(** A memory under review keeps everything but its status. *)
Definition after_review (s : Spec) (scope : StorageScope) (id : str) (action : MemoryReviewAction)
    : result ApiError MemoryEntry :=
  let? e := found memory_missing id (s_memories s scope) in
  Ok (default e ((λ status, with_status status e) <$> resulting_status action)).
Definition spec_review (org project id actor : str) (action : MemoryReviewAction) (s : Spec)
    : result ApiError Response * Spec :=
  let scope := scope_project org project in
  commit OK BMemory (after_review s scope id action) s (λ e,
    notify org (lit "memory") (lit "reviewed")
      (on_memory scope (MemoryAuditEntry_new id action actor) e s)).
Definition spec_push (org actor : str) (project : CloudProject) (body : NewMemoryCandidate)
    (s : Spec) : result ApiError Response * Spec :=
  let id := next_id Memories s in
  if is_empty (trim (nm_content body)) then
    (Err (BadRequest (lit "memory content is required")), s)
  else
    let entry := candidate_entry id project body in
    (Ok (CREATED, BMemory entry),
     notify org (lit "memory") (lit "created")
       (on_memory (scope_project org (pj_id project)) (MemoryAuditEntry_new id RCreated actor)
          entry (take_id Memories s))).
Definition with_status_of (status : option MemoryStatus) (l : list MemoryEntry) : list MemoryEntry :=
  match status with
  | None => l
  | Some wanted => List.filter (λ e, bool_decide (entry_status e = wanted)) l
  end.

(** A request of a caller admitted to [org], its project [project] found if it asks for one. *)
Definition spec_body (org actor : str) (project : option CloudProject) (r : Request) (s : Spec)
    : result ApiError Response * Spec :=
  let whole := scope_organization org in
  match r with
  | ReqListProjects => answer BProjects (Ok (t_list whole (s_projects s))) s
  | ReqCreateProject body =>
      commit CREATED BProject (new_project org (next_id Projects s) body) s (λ p,
        notify org (lit "projects") (lit "created")
          (on_projects (t_put whole (pj_id p) p) (take_id Projects s)))
  | ReqGetProject p => answer BProject (found project_missing p (s_projects s whole)) s
  | ReqUpdateProject p body =>
      commit OK BProject
        (let? old := found project_missing p (s_projects s whole) in
         Ok (updated_project org old body)) s (λ new,
        notify org (lit "projects") (lit "updated") (on_projects (t_put whole (pj_id new) new) s))
  | ReqDeleteProject p =>
      commit NO_CONTENT (λ _, BEmpty) (found project_missing p (s_projects s whole)) s (λ _,
        notify org (lit "projects") (lit "deleted") (on_projects (t_delete whole p) s))
  | ReqListAgents p => answer BAgents (Ok (t_list (scope_project org p) (s_agents s))) s
  | ReqCreateAgent p body =>
      commit CREATED BAgent (new_agent org p (next_id Agents s) body actor) s (λ a,
        notify org (lit "agents") (lit "created")
          (on_agents (t_put (scope_project org p) (ag_id a) a) (take_id Agents s)))
  | ReqGetAgent p a => answer BAgent (found agent_missing a (s_agents s (scope_project org p))) s
  | ReqUpdateAgent p a body =>
      commit OK BAgent
        (let? old := found agent_missing a (s_agents s (scope_project org p)) in
         Ok (updated_agent org p old body)) s (λ new,
        notify org (lit "agents") (lit "updated")
          (on_agents (t_put (scope_project org p) (ag_id new) new) s))
  | ReqDeleteAgent p a =>
      commit NO_CONTENT (λ _, BEmpty)
        (found agent_missing a (s_agents s (scope_project org p))) s (λ _,
        notify org (lit "agents") (lit "deleted") (on_agents (t_delete (scope_project org p) a) s))
  | ReqListMcp p => answer BServers (Ok (t_list (scope_project org p) (s_servers s))) s
  | ReqCreateMcp p body =>
      commit CREATED BServer (new_server org p (next_id Servers s) body actor) s (λ v,
        notify org (lit "mcp") (lit "created")
          (on_servers (t_put (scope_project org p) (sv_id v) v) (take_id Servers s)))
  | ReqGetMcp p v => answer BServer (found server_missing v (s_servers s (scope_project org p))) s
  | ReqUpdateMcp p v body =>
      commit OK BServer
        (let? old := found server_missing v (s_servers s (scope_project org p)) in
         updated_server org p old body) s (λ new,
        notify org (lit "mcp") (lit "updated")
          (on_servers (t_put (scope_project org p) (sv_id new) new) s))
  | ReqDeleteMcp p v =>
      commit NO_CONTENT (λ _, BEmpty)
        (found server_missing v (s_servers s (scope_project org p))) s (λ _,
        notify org (lit "mcp") (lit "deleted") (on_servers (t_delete (scope_project org p) v) s))
  | ReqListMemory p status =>
      answer BMemories
        (let? wanted := wanted_status status in
         Ok (with_status_of wanted (t_list (scope_project org p) (s_memories s)))) s
  | ReqPushMemory p body =>
      match project with Some found => spec_push org actor found body s | None => (Err (project_missing p), s) end
  | ReqSearchMemory p q limit =>
      answer BMemories
        (Ok (memory_hits q (hit_limit limit)
               (with_status_of (Some Approved) (t_list (scope_project org p) (s_memories s))))) s
  | ReqApproveMemory p m => spec_review org p m actor RApproved s
  | ReqRejectMemory p m => spec_review org p m actor RRejected s
  | ReqMemoryAudit p m =>
      answer BTrail (Ok (default [] (s_trails s (scope_project org p) !! m))) s
  | ReqHealth | ReqMe => (Ok (OK, BHealth), s)
  end.

(** The status a listing asks for is read before the project is looked up. *)
Definition early_error (r : Request) : result ApiError unit :=
  match r with
  | ReqListMemory _ status => let? _ := wanted_status status in Ok tt
  | _ => Ok tt
  end.
Definition spec_dispatch (auth : AuthContext) (r : Request) (s : Spec)
    : result ApiError Response * Spec :=
  match r with
  | ReqHealth => (Ok (OK, BHealth), s)
  | ReqMe => (Ok (OK, BViewer (to_viewer auth)), s)
  | _ =>
      match (let? org := admitted auth r in
             let? _ := early_error r in
             match needs_project r with
             | None => Ok (org, None)
             | Some p =>
                 let? project := found project_missing p (s_projects s (scope_organization org)) in
                 Ok (org, Some project)
             end) with
      | Ok (org, project) => spec_body org (ac_user_id auth) project r s
      | Err e => (Err e, s)
      end
  end.
Definition spec_step `{JwtLib} (v : JwtVerifier) (q : option str * Request) (s : Spec)
    : result ApiError Response * Spec :=
  match q.2 with
  | ReqHealth => (Ok (OK, BHealth), s)
  | _ =>
      match from_request_parts v q.1 with
      | Ok auth => spec_dispatch auth q.2 s
      | Err e => (Err e, s)
      end
  end.
End spec.
