(* ===== verification/CloudRefine.v ===== *)
(** * The cloud service keeps its promise

    [refines] relates a process over a storage backend to the tables of
    [CloudSpec]: every document of the four collections decodes to the row of its
    table, every audit log to its trail.  Each storage call is shown to be the
    table operation it stands for, and every request the step of the specification. *)

From stdpp Require Import base numbers functions strings gmap list.
From S2P Require Import Prelude RustStr Storage Protocol CloudTypes CloudStores CloudRoutes.
From S2P Require Import CloudIsolation CloudSpec.

Lemma fn_put_eq {A} (scope : StorageScope) (id : str) (a : A) (t : table A) (scope' : StorageScope)
    (id' : str) :
  t_put scope id a t scope' !! id' =
    if decide (scope' = scope ∧ id' = id) then Some a else t scope' !! id'.
Proof.
  unfold t_put. destruct (decide (scope' = scope)) as [->|Hs].
  - rewrite fn_lookup_insert, lookup_insert. repeat case_decide; naive_solver.
  - rewrite fn_lookup_insert_ne by done. case_decide; naive_solver.
Qed.
Lemma fn_delete_eq {A} (scope : StorageScope) (id : str) (t : table A) (scope' : StorageScope)
    (id' : str) :
  t_delete scope id t scope' !! id' =
    if decide (scope' = scope ∧ id' = id) then None else t scope' !! id'.
Proof.
  unfold t_delete. destruct (decide (scope' = scope)) as [->|Hs].
  - rewrite fn_lookup_insert, lookup_delete. repeat case_decide; naive_solver.
  - rewrite fn_lookup_insert_ne by done. case_decide; naive_solver.
Qed.

(** ** Documents as rows *)

Section rows.
Context `{JsonLib}.
Implicit Types (m : gmap DocumentKey StorageDocument) (scope : StorageScope) (coll id : str).

Definition decodes {A} `{!Serde A} (d : StorageDocument) (a : A) : Prop :=
  from_value (doc_payload d) = Ok a.
Definition rows {A} `{!Serde A} (coll : str) m (t : table A) : Prop :=
  ∀ scope id, option_Forall2 decodes (m !! DocumentKey_new scope coll id) (t scope !! id).

Lemma rows_put {A} `{!Serde A} coll m (t : table A) d a scope id :
  rows coll m t → doc_scope d = scope → doc_collection d = coll → doc_id d = id → decodes d a →
  rows coll (<[doc_key d := stored_document m d]> m) (t_put scope id a t).
Proof.
  intros Hr <- Hc <- Hd scope' id'. rewrite fn_put_eq, lookup_insert.
  unfold doc_key, DocumentKey_new. rewrite Hc.
  repeat case_decide; [by constructor|naive_solver..|apply Hr].
Qed.
Lemma rows_put_other {A} `{!Serde A} coll coll' m (t : table A) d :
  rows coll m t → doc_collection d = coll' → coll' ≠ coll →
  rows coll (<[doc_key d := stored_document m d]> m) t.
Proof.
  intros Hr <- Hc scope id. rewrite lookup_insert_ne; [apply Hr|].
  unfold doc_key, DocumentKey_new. congruence.
Qed.
Lemma rows_delete {A} `{!Serde A} coll m (t : table A) scope id :
  rows coll m t → rows coll (delete (DocumentKey_new scope coll id) m) (t_delete scope id t).
Proof.
  intros Hr scope' id'. rewrite fn_delete_eq, lookup_delete. unfold DocumentKey_new.
  repeat case_decide; [by constructor|naive_solver..|apply Hr].
Qed.
Lemma rows_delete_other {A} `{!Serde A} coll coll' m (t : table A) scope id :
  rows coll m t → coll' ≠ coll → rows coll (delete (DocumentKey_new scope coll' id) m) t.
Proof.
  intros Hr Hc scope' id'. rewrite lookup_delete_ne; [apply Hr|].
  unfold DocumentKey_new. congruence.
Qed.

Lemma sort_by_fmap {A B} (f : A → B) (cmp : B → B → comparison) (l : list A) :
  f <$> sort_by (cmp_on f cmp) l = sort_by cmp (f <$> l).
Proof.
  induction l as [|x l IH]; [done|]. rewrite fmap_cons. cbn [sort_by]. rewrite <- IH.
  generalize (sort_by (cmp_on f cmp) l) as k. induction k as [|y k IHk]; [done|].
  rewrite fmap_cons. cbn [insert_sorted]. unfold cmp_on at 1.
  destruct (cmp (f x) (f y)); rewrite ?fmap_cons, ?IHk; done.
Qed.

(** The documents of a scope with their rows, in the order of the map. *)
Lemma rows_pairs {A} `{!Serde A} coll m (t : table A) scope :
  rows coll m t → docs_keyed m →
  ∃ l : list (StorageDocument * A),
    l.*1 = snd <$> filter (λ p, dk_scope p.1 = scope ∧ dk_collection p.1 = coll) (map_to_list m) ∧
    Forall (λ x, decodes x.1 x.2) l ∧
    ((λ x, (doc_id x.1, x.2)) <$> l) ≡ₚ map_to_list (t scope).
Proof.
  intros Hr Hk.
  set (keys := filter (λ p, dk_scope p.1 = scope ∧ dk_collection p.1 = coll) (map_to_list m)).
  assert (∀ k d, (k, d) ∈ keys → m !! k = Some d ∧ k = DocumentKey_new scope coll (doc_id d)) as Hin.
  { intros k d. unfold keys. rewrite list_elem_of_filter, elem_of_map_to_list.
    intros [[<- <-] Hl]. split; [done|]. by rewrite <- (Hk _ _ Hl). }
  assert (∃ l : list A, Forall2 (λ p a, decodes p.2 a ∧ t scope !! doc_id p.2 = Some a) keys l)
    as [l Hl].
  { apply Forall_exists_Forall2_l, Forall_forall. intros [k d] [Hl ->]%Hin.
    pose proof (Hr scope (doc_id d)) as Ho. rewrite Hl in Ho. inversion Ho; subst; eauto. }
  assert (∀ d a, (d, a) ∈ zip keys.*2 l → decodes d a ∧ t scope !! doc_id d = Some a) as Hzip.
  { intros d a (i & d2 & a2 & [= <- <-] & Hi & Ha)%elem_of_lookup_zip_with.
    rewrite list_lookup_fmap in Hi. destruct (keys !! i) as [[k d']|] eqn:Hki; [|done].
    simplify_eq/=. apply (Forall2_lookup_lr _ _ _ _ _ _ Hl Hki Ha). }
  exists (zip keys.*2 l). split_and!.
  - apply fst_zip. rewrite length_fmap. apply Forall2_length in Hl. lia.
  - apply Forall_forall. intros [d a] Hz. by apply Hzip.
  - apply NoDup_Permutation; [|apply NoDup_map_to_list|].
    + apply (NoDup_fmap_1 fst). apply (NoDup_fmap_1 (DocumentKey_new scope coll)).
      assert (DocumentKey_new scope coll <$> ((λ x, (doc_id x.1, x.2)) <$> zip keys.*2 l).*1 = keys.*1)
        as ->; [|apply NoDup_fmap_fst; [|apply NoDup_filter, NoDup_map_to_list]].
      * clear Hr Hk Hzip. revert Hin. generalize dependent keys. intros keys Hl Hin.
        induction Hl as [|[k d] a keys l _ Hl IH]; [done|]. simpl.
        destruct (Hin k d) as [_ ->]; [by left|]. f_equal. apply IH. intros. apply Hin. by right.
      * intros k d d' [Hd _]%Hin [Hd' _]%Hin. congruence.
    + intros [id a]. rewrite elem_of_map_to_list, list_elem_of_fmap. split.
      * intros ([d a'] & [= -> ->] & Hz). by apply Hzip in Hz as [_ ?].
      * intros Ha. pose proof (Hr scope id) as Ho. rewrite Ha in Ho. inversion Ho as [d a' Hd Hmd|]; subst.
        assert ((DocumentKey_new scope coll id, d) ∈ keys) as Hkd.
        { unfold keys. rewrite list_elem_of_filter, elem_of_map_to_list. done. }
        assert (doc_id d = id) as Hid by exact (f_equal dk_id (Hk _ _ (eq_sym Hmd))).
        apply list_elem_of_lookup in Hkd as [i Hi].
        destruct (Forall2_lookup_l _ _ _ _ _ Hl Hi) as (a'' & Ha' & _ & Hta). simpl in Hta.
        rewrite Hid, Ha in Hta. injection Hta as <-. exists (d, a). simpl. split; [by rewrite Hid|].
        apply elem_of_lookup_zip_with. exists i, d, a. by rewrite list_lookup_fmap, Hi.
Qed.

(** A listing decodes to the rows of its scope, in the order of their ids. *)
Lemma rows_list {A} `{!Serde A} coll m (t : table A) scope :
  rows coll m t → docs_keyed m →
  ∃ l : list (StorageDocument * A),
    l.*1 = documents_of scope coll (map_to_list m) ∧ Forall (λ x, decodes x.1 x.2) l ∧
    l.*2 = t_list scope t.
Proof.
  intros Hr Hk. destruct (rows_pairs coll m t scope Hr Hk) as (l & Hfst & Hdec & Hperm).
  exists (sort_by (cmp_on fst (cmp_on doc_id str_cmp)) l). split_and!.
  - by rewrite sort_by_fmap, Hfst.
  - rewrite Forall_forall in *. intros x. rewrite elem_of_sort_by. apply Hdec.
  - unfold t_list.
    rewrite <- (λ Hinj, sort_by_perm_eq (cmp_on fst str_cmp) _ _ Hinj Hperm).
    + rewrite <- (sort_by_fmap (λ x : StorageDocument * A, (doc_id x.1, x.2)) (cmp_on fst str_cmp)).
      by rewrite <- list_fmap_compose.
    + intros [i a] [j b] Hi Hj Heq. unfold cmp_on in Heq. apply str_cmp_eq in Heq. simpl in Heq.
      rewrite Hperm, elem_of_map_to_list in Hi, Hj. congruence.
Qed.
End rows.

(** ** The relation *)

Section refinement.
Context `{JsonLib} `{!JsonText} {S : Type} `{!DocumentStore S} `{!AppendLogStore S}.
Context `{!StorageView S} `{!DocumentLaws S} `{!LogLaws S}.
Context `{!Serde CloudProject} `{!Serde Agent} `{!Serde McpServer}.
Context `{!Serde MemoryEntry} `{!Serde MemoryAuditEntry}.
Context `{!SerdeLaws CloudProject} `{!SerdeLaws Agent} `{!SerdeLaws McpServer}.
Context `{!SerdeLaws MemoryEntry} `{!SerdeLaws MemoryAuditEntry}.
Context `{Unicode} `{JwtLib}.
Abbreviation handler := (st (Cloud S) ApiError).
Implicit Types (c : Cloud S) (s : Spec) (scope : StorageScope) (org id coll what : str).

(** The log of a memory decodes to its trail. *)
Definition trails (m : gmap LogKey (list AppendLogEntry)) (t : table (list MemoryAuditEntry)) : Prop :=
  ∀ scope id, Forall2 (λ e a, from_value (log_payload e) = Ok a)
    (default [] (m !! LogKey_new scope (audit_stream id))) (default [] (t scope !! id)).

Record refines c s : Prop := {
  rf_keyed : docs_keyed (cdocs c);
  rf_projects : rows PROJECTS_COLLECTION (cdocs c) (s_projects s);
  rf_agents : rows AGENTS_COLLECTION (cdocs c) (s_agents s);
  rf_servers : rows SERVERS_COLLECTION (cdocs c) (s_servers s);
  rf_memories : rows CLOUD_MEMORY_COLLECTION (cdocs c) (s_memories s);
  rf_trails : trails (clogs c) (s_trails s);
  rf_next : ∀ k, counter_of k c = s_next s k;
  rf_events : c_events c = s_events s;
}.

Lemma refines_init (store : S) :
  docs store = ∅ → logs store = ∅ → refines (with_storage store) spec_init.
Proof.
  intros Hd Hl. split; try done; unfold rows, trails, cdocs, clogs; simpl.
  1: intros k d; unfold cdocs; simpl; by rewrite Hd, lookup_empty.
  1-4: intros scope id; rewrite Hd, !lookup_empty; constructor.
  - intros scope id. rewrite Hl, !lookup_empty. constructor.
  - by intros [].
Qed.

(** *** Reading *)

Lemma get_row {A} `{!Serde A} coll c (t : table A) scope id :
  rows coll (cdocs c) t →
  ∃ d, get_document scope coll id (c_store c) = Ok d ∧
    option_Forall2 decodes d (t scope !! id).
Proof. intros Hr. eexists. split; [apply get_document_law|apply Hr]. Qed.

Lemma read_decodes {A} `{!Serde A} what d (a : A) : decodes d a → read_entity what d = Ok a.
Proof. unfold decodes, read_entity. by intros ->. Qed.

Lemma get_entity_row {A} `{!Serde A} coll what c (t : table A) scope id (missing : str → ApiError) :
  rows coll (cdocs c) t →
  get_entity scope coll what id (missing id) c = (found missing id (t scope), c).
Proof.
  intros Hr. destruct (get_row coll c t scope id Hr) as (d & Hg & Ho).
  unfold get_entity, st_bind, reading, found. rewrite Hg. simpl.
  destruct Ho as [d a Hd|]; simpl; [|done]. unfold st_lift. by rewrite (read_decodes _ _ a).
Qed.

Lemma list_entities_row {A} `{!Serde A} coll what c (t : table A) scope :
  docs_keyed (cdocs c) → rows coll (cdocs c) t →
  list_entities scope coll what c = (Ok (t_list scope t), c).
Proof.
  intros Hk Hr. destruct (rows_list coll _ t scope Hr Hk) as (l & Hfst & Hdec & Hsnd).
  unfold list_entities, st_bind, reading. rewrite list_documents_law. simpl. unfold st_lift.
  do 2 f_equal. apply collect_result_Ok. fold (cdocs c). rewrite <- Hfst, <- Hsnd.
  rewrite <- !list_fmap_compose. apply Forall_fmap_ext_1. eapply Forall_impl; [exact Hdec|].
  intros [d a] Hd. simpl. by apply read_decodes.
Qed.

Lemma get_project_row c s org id :
  refines c s →
  get_project org id c = (Ok (s_projects s (scope_organization org) !! id), c).
Proof.
  intros Hr. destruct (get_row _ c _ (scope_organization org) id (rf_projects _ _ Hr)) as (d & Hg & Ho).
  unfold get_project, st_bind, reading. rewrite Hg. simpl.
  destruct Ho as [d a Hd|]; simpl; [|done]. unfold st_lift. by rewrite (read_decodes _ _ a).
Qed.
Lemma existing_project_row c s org id :
  refines c s →
  existing_project org id c = (found project_missing id (s_projects s (scope_organization org)), c).
Proof. intros Hr. unfold existing_project, st_bind. by rewrite (get_project_row c s). Qed.
Lemma require_project_row c s org id :
  refines c s →
  require_project org id c =
    (let? _ := found project_missing id (s_projects s (scope_organization org)) in Ok tt, c).
Proof.
  intros Hr. unfold require_project, st_bind, found. rewrite (get_project_row c s) by done.
  by destruct (s_projects s _ !! id).
Qed.

Lemma audit_trail_row c s org project id :
  refines c s →
  memory_trail org project id c =
    (Ok (default [] (s_trails s (scope_project org project) !! id)), c).
Proof.
  intros Hr. unfold memory_trail, st_bind, reading. rewrite replay_log_law. simpl. unfold st_lift.
  do 2 f_equal. apply collect_result_Ok. fold (clogs c).
  pose proof (rf_trails _ _ Hr (scope_project org project) id) as Ht.
  induction Ht as [|e a es trail Hd _ IH]; [done|]. simpl. f_equal; [|done].
  unfold read_audit. by rewrite Hd.
Qed.

(** *** Writing *)

Ltac distinct := let Heq := fresh in intros Heq; vm_compute in Heq; discriminate Heq.

Lemma stored_put c d :
  ∃ d' c', stored (put_document d) c = (Ok d', c') ∧
    cdocs c' = <[doc_key d := stored_document (cdocs c) d]> (cdocs c) ∧ clogs c' = clogs c ∧
    (∀ k, counter_of k c' = counter_of k c) ∧ c_events c' = c_events c.
Proof.
  destruct (put_document_law d (c_store c)) as (st' & Hp & Hd & _ & Hl).
  exists (stored_document (docs (c_store c)) d), (set_store st' c).
  split_and!; [by apply stored_Ok|exact Hd|exact Hl|by intros []|done].
Qed.

(** Storing an entity is putting a document that decodes to it. *)
Lemma store_entity_put {A} `{!Serde A} `{!SerdeLaws A} scope coll id (a : A) c :
  ∃ d c', store_entity scope coll id a c = (Ok tt, c') ∧
    doc_scope d = scope ∧ doc_collection d = coll ∧ doc_id d = id ∧ decodes d a ∧
    cdocs c' = <[doc_key d := stored_document (cdocs c) d]> (cdocs c) ∧ clogs c' = clogs c ∧
    (∀ k, counter_of k c' = counter_of k c) ∧ c_events c' = c_events c.
Proof.
  destruct (serde_round_trip a) as (payload & Hto & Hfrom).
  set (d := StorageDocument_new scope coll id payload).
  destruct (stored_put c d) as (d' & c' & Hp & Hrest). exists d, c'.
  split_and!; [|done|done|done|exact Hfrom|apply Hrest..].
  unfold store_entity, st_bind, st_lift. rewrite Hto. simpl. fold d. by rewrite Hp.
Qed.

Lemma keyed_put (m : gmap DocumentKey StorageDocument) d :
  docs_keyed m → docs_keyed (<[doc_key d := stored_document m d]> m).
Proof. apply (docs_keyed_insert m (stored_document m d)). Qed.

(** The relation after a write: the table written to, the others, and the rest. *)
Ltac rows_step :=
  first [ done
        | by apply keyed_put | by apply docs_keyed_delete
        | by apply rows_put | by apply rows_delete
        | eapply rows_put_other; [done|done|distinct] | apply rows_delete_other; [done|distinct]
        | let k := fresh in intros k;
          match goal with Hn : ∀ k, counter_of k _ = counter_of k _ |- _ => by rewrite Hn end
        | congruence ].

Lemma store_project_row c s org p :
  refines c s →
  ∃ c', store_entity (scope_organization org) PROJECTS_COLLECTION (pj_id p) p c = (Ok tt, c') ∧
    refines c' (on_projects (t_put (scope_organization org) (pj_id p) p) s).
Proof.
  intros [Hk Hp Ha Hs Hm Ht Hn He].
  destruct (store_entity_put (scope_organization org) PROJECTS_COLLECTION (pj_id p) p c)
    as (d & c' & Hc & Hds & Hdc & Hdi & Hdd & Hd & Hl & Hn' & He').
  exists c'. split; [done|]. split; rewrite ?Hd, ?Hl; simpl; rows_step.
Qed.
Lemma store_agent_row c s org project a :
  refines c s →
  ∃ c', store_agent org project a c = (Ok tt, c') ∧
    refines c' (on_agents (t_put (scope_project org project) (ag_id a) a) s).
Proof.
  intros [Hk Hp Ha Hs Hm Ht Hn He].
  destruct (store_entity_put (scope_project org project) AGENTS_COLLECTION (ag_id a) a c)
    as (d & c' & Hc & Hds & Hdc & Hdi & Hdd & Hd & Hl & Hn' & He').
  exists c'. split; [done|]. split; rewrite ?Hd, ?Hl; simpl; rows_step.
Qed.
Lemma store_server_row c s org project v :
  refines c s →
  ∃ c', store_server org project v c = (Ok tt, c') ∧
    refines c' (on_servers (t_put (scope_project org project) (sv_id v) v) s).
Proof.
  intros [Hk Hp Ha Hs Hm Ht Hn He].
  destruct (store_entity_put (scope_project org project) SERVERS_COLLECTION (sv_id v) v c)
    as (d & c' & Hc & Hds & Hdc & Hdi & Hdd & Hd & Hl & Hn' & He').
  exists c'. split; [done|]. split; rewrite ?Hd, ?Hl; simpl; rows_step.
Qed.

Lemma stored_delete c scope coll id :
  ∃ c', stored (delete_document scope coll id) c =
      (Ok (bool_decide (is_Some (cdocs c !! DocumentKey_new scope coll id))), c') ∧
    cdocs c' = delete (DocumentKey_new scope coll id) (cdocs c) ∧ clogs c' = clogs c ∧
    (∀ k, counter_of k c' = counter_of k c) ∧ c_events c' = c_events c.
Proof.
  destruct (delete_document_law scope coll id (c_store c)) as (st' & Hp & Hd & _ & Hl).
  exists (set_store st' c). split_and!; [by apply stored_Ok|exact Hd|exact Hl|by intros []|done].
Qed.

(** Deleting answers by whether the row was there. *)
Lemma delete_entity_row {A} `{!Serde A} coll c (t : table A) scope id (missing : str → ApiError) :
  rows coll (cdocs c) t →
  ∃ c', delete_entity scope coll id (missing id) c =
      (let? _ := found missing id (t scope) in Ok tt, c') ∧
    cdocs c' = delete (DocumentKey_new scope coll id) (cdocs c) ∧
    (t scope !! id = None → cdocs c' = cdocs c) ∧ clogs c' = clogs c ∧
    (∀ k, counter_of k c' = counter_of k c) ∧ c_events c' = c_events c.
Proof.
  intros Hr. destruct (stored_delete c scope coll id) as (c' & Hp & Hd & Hrest). exists c'.
  pose proof (Hr scope id) as Ho. split_and!; [|done| |apply Hrest..].
  - unfold delete_entity, st_bind, found. rewrite Hp. by destruct Ho.
  - intros Ht. rewrite Hd. apply delete_id. rewrite Ht in Ho. by inversion Ho.
Qed.

Lemma delete_project_row c s org id :
  refines c s →
  ∃ c', delete_project org id c =
      (let? _ := found project_missing id (s_projects s (scope_organization org)) in Ok tt, c') ∧
    refines c' (if is_Some_dec (s_projects s (scope_organization org) !! id)
                then on_projects (t_delete (scope_organization org) id) s else s).
Proof.
  intros [Hk Hp Ha Hs Hm Ht Hn He].
  destruct (delete_entity_row _ _ _ (scope_organization org) id project_missing Hp)
    as (c' & Hc & Hd & Hno & Hl & Hn' & He').
  exists c'. split; [done|]. destruct (is_Some_dec _) as [Hrow|Hrow];
    [|apply eq_None_not_Some, Hno in Hrow; clear Hd; rename Hrow into Hd].
  all: split; rewrite ?Hd, ?Hl; simpl; rows_step.
Qed.
Lemma delete_agent_row c s org project id :
  refines c s →
  ∃ c', agents_delete org project id c =
      (let? _ := found agent_missing id (s_agents s (scope_project org project)) in Ok tt, c') ∧
    refines c' (if is_Some_dec (s_agents s (scope_project org project) !! id)
                then on_agents (t_delete (scope_project org project) id) s else s).
Proof.
  intros [Hk Hp Ha Hs Hm Ht Hn He].
  destruct (delete_entity_row _ _ _ (scope_project org project) id agent_missing Ha)
    as (c' & Hc & Hd & Hno & Hl & Hn' & He').
  exists c'. split; [done|]. destruct (is_Some_dec _) as [Hrow|Hrow];
    [|apply eq_None_not_Some, Hno in Hrow; clear Hd; rename Hrow into Hd].
  all: split; rewrite ?Hd, ?Hl; simpl; rows_step.
Qed.
Lemma delete_server_row c s org project id :
  refines c s →
  ∃ c', servers_delete org project id c =
      (let? _ := found server_missing id (s_servers s (scope_project org project)) in Ok tt, c') ∧
    refines c' (if is_Some_dec (s_servers s (scope_project org project) !! id)
                then on_servers (t_delete (scope_project org project) id) s else s).
Proof.
  intros [Hk Hp Ha Hs Hm Ht Hn He].
  destruct (delete_entity_row _ _ _ (scope_project org project) id server_missing Hs)
    as (c' & Hc & Hd & Hno & Hl & Hn' & He').
  exists c'. split; [done|]. destruct (is_Some_dec _) as [Hrow|Hrow];
    [|apply eq_None_not_Some, Hno in Hrow; clear Hd; rename Hrow into Hd].
  all: split; rewrite ?Hd, ?Hl; simpl; rows_step.
Qed.

(** *** Ids, notifications and memories *)

Lemma fetch_add_row c s k :
  refines c s → fetch_add k c = (Ok (s_next s k), bump k c) ∧ refines (bump k c) (take_id k s).
Proof.
  intros [Hk Hp Ha Hs Hm Ht Hn He]. unfold fetch_add. rewrite Hn. split; [done|].
  split; [done..| |done]. intros k'. rewrite counter_bump, Hn. simpl.
  case_decide as Hkk; [subst; by rewrite fn_lookup_insert|by rewrite fn_lookup_insert_ne].
Qed.

Lemma publish_row c s org entity action :
  refines c s →
  ∃ c', publish org entity action c = (Ok tt, c') ∧ refines c' (notify org entity action s).
Proof.
  intros [Hk Hp Ha Hs Hm Ht Hn He]. eexists. split; [done|].
  split; [done..| |simpl; by rewrite He]. intros k. transitivity (counter_of k c); [by destruct k|apply Hn].
Qed.

Lemma audit_stream_inj (id id' : str) : audit_stream id = audit_stream id' → id = id'.
Proof. unfold audit_stream. apply app_inv_head. Qed.

Lemma record_audit_row scope e c :
  ∃ c', record_audit scope (au_memory_id e) (au_action e) (au_actor e) c = (Ok tt, c') ∧
    cdocs c' = cdocs c ∧ (∀ k, counter_of k c' = counter_of k c) ∧ c_events c' = c_events c ∧
    ∀ t, trails (clogs c) t →
      trails (clogs c')
        (t_put scope (au_memory_id e) (default [] (t scope !! au_memory_id e) ++ [e]) t).
Proof.
  destruct (serde_round_trip e) as (payload & Hto & Hfrom). set (id := au_memory_id e).
  destruct (append_log_law scope (audit_stream id) payload (c_store c)) as (st' & Hp & Hl & Hd & _).
  exists (set_store st' c). split_and!; [|exact Hd|by intros []|done|].
  { unfold record_audit, st_bind, st_lift. fold id.
    assert (MemoryAuditEntry_new id (au_action e) (au_actor e) = e) as -> by by destruct e.
    rewrite Hto. simpl. by rewrite (stored_Ok _ _ _ _ Hp). }
  intros t Ht scope' id'. rewrite fn_put_eq. unfold clogs. simpl. rewrite Hl, lookup_insert.
  unfold LogKey_new. repeat case_decide; simplify_eq/=.
  - apply Forall2_app; [apply Ht|]. by repeat constructor.
  - naive_solver eauto using audit_stream_inj.
  - naive_solver.
  - apply Ht.
Qed.

Lemma on_memory_row c s scope d entry e :
  refines c s → doc_scope d = scope → doc_collection d = CLOUD_MEMORY_COLLECTION →
  doc_id d = au_memory_id e → decodes d entry →
  ∃ d' c1 c2, stored (put_document d) c = (Ok d', c1) ∧
    record_audit scope (au_memory_id e) (au_action e) (au_actor e) c1 = (Ok tt, c2) ∧
    refines c2 (on_memory scope e entry s).
Proof.
  intros [Hk Hp Ha Hs Hm Ht Hn He] Hds Hdc Hdi Hdd.
  destruct (stored_put c d) as (d' & c1 & Hc1 & Hd & Hl & Hn' & He').
  destruct (record_audit_row scope e c1) as (c2 & Hc2 & Hd2 & Hn2 & He2 & Ht2).
  exists d', c1, c2. split_and!; [done..|].
  split; rewrite ?Hd2, ?Hd; simpl; [rows_step..| |intros k; by rewrite Hn2, Hn'|congruence].
  apply Ht2. by rewrite Hl.
Qed.
End refinement.
