(* ===== verification/CloudProps.v ===== *)
(** * The refinement of the cloud service and what follows from it *)

From stdpp Require Import base numbers functions strings gmap list.
From S2P Require Import Prelude RustStr Storage Protocol CloudTypes CloudStores CloudRoutes.
From S2P Require Import CloudIsolation CloudGate CloudSpec CloudRefine.

Section simulation.
Context `{JsonLib} `{!JsonText} {S : Type} `{!DocumentStore S} `{!AppendLogStore S}.
Context `{!StorageView S} `{!DocumentLaws S} `{!LogLaws S}.
Context `{!Serde CloudProject} `{!Serde Agent} `{!Serde McpServer}.
Context `{!Serde MemoryEntry} `{!Serde MemoryAuditEntry}.
Context `{!SerdeLaws CloudProject} `{!SerdeLaws Agent} `{!SerdeLaws McpServer}.
Context `{!SerdeLaws MemoryEntry} `{!SerdeLaws MemoryAuditEntry}.
Context `{Unicode} `{JwtLib}.
Abbreviation handler := (st (Cloud S) ApiError).
Implicit Types (c : Cloud S) (s : Spec) (scope : StorageScope) (org id : str).

(** A run of the service and one of the specification with the same answer and related ends. *)
Definition agree (x : result ApiError Response * Cloud S) (y : result ApiError Response * Spec)
    : Prop := x.1 = y.1 ∧ refines x.2 y.2.

Lemma agree_intro r c s : refines c s → agree (r, c) (r, s).
Proof. done. Qed.

(** After a write that succeeded: the notification and the answer. *)
Lemma agree_publish c s org entity action code body :
  refines c s →
  agree (st_bind (publish org entity action) (λ _, st_ret (code, body)) c)
        (Ok (code, body), notify org entity action s).
Proof.
  intros Hr. destruct (publish_row c s org entity action Hr) as (c' & Hc & Hr').
  unfold st_bind. by rewrite Hc.
Qed.

(** *** Binds *)

Lemma bind_Ok {A B} (m : handler A) (f : A → handler B) c a c' :
  m c = (Ok a, c') → st_bind m f c = f a c'.
Proof. intros Hm. unfold st_bind. by rewrite Hm. Qed.
Lemma bind_Err {A B} (m : handler A) (f : A → handler B) c e c' :
  m c = (Err e, c') → st_bind m f c = (Err e, c').
Proof. intros Hm. unfold st_bind. by rewrite Hm. Qed.
Lemma bind_assoc {A B C} (m : handler A) (f : A → handler B) (g : B → handler C) c :
  st_bind (st_bind m f) g c = st_bind m (λ a, st_bind (f a) g) c.
Proof. unfold st_bind. by destruct (m c) as [[]]. Qed.

Lemma agents_get_row c s org project id :
  refines c s →
  agents_get org project id c = (found agent_missing id (s_agents s (scope_project org project)), c).
Proof. intros Hr. by apply get_entity_row, rf_agents. Qed.
Lemma servers_get_row c s org project id :
  refines c s →
  servers_get org project id c =
    (found server_missing id (s_servers s (scope_project org project)), c).
Proof. intros Hr. by apply get_entity_row, rf_servers. Qed.
Lemma list_memory_row c s org project status :
  refines c s →
  list_memory org project status c =
    (Ok (with_status_of status (t_list (scope_project org project) (s_memories s))), c).
Proof.
  intros Hr.
  destruct (rows_list _ _ _ (scope_project org project) (rf_memories _ _ Hr) (rf_keyed _ _ Hr))
    as (l & Hfst & Hdec & Hsnd).
  unfold list_memory, st_bind, reading. rewrite list_documents_law. simpl. unfold st_lift.
  do 2 f_equal. apply collect_result_Ok. fold (cdocs c). rewrite <- Hfst, <- Hsnd. clear Hfst Hsnd.
  induction Hdec as [|[d e] l Hd _ IH]; [by destruct status|].
  cbn [fmap list_fmap fst snd]. cbn [List.filter]. simpl in Hd.
  rewrite (read_decodes _ d e Hd). destruct status as [wanted|]; simpl in *; [|by rewrite IH].
  destruct (bool_decide _); simpl; by rewrite IH.
Qed.

(** The continuation of a handler that publishes and answers. *)
Abbreviation published org entity action code body :=
  (λ x, st_bind (publish org (lit entity) (lit action)) (λ _, st_ret (code, body x))).

(** A record stored, the notification sent, the record answered. *)
Lemma agree_store_project c s org p entity action code :
  refines c s →
  agree (st_bind (store_entity (scope_organization org) PROJECTS_COLLECTION (pj_id p) p)
           (λ _, st_bind (st_ret p) (published org entity action code BProject)) c)
        (Ok (code, BProject p), notify org (lit entity) (lit action)
           (on_projects (t_put (scope_organization org) (pj_id p) p) s)).
Proof.
  intros Hr. destruct (store_project_row c s org p Hr) as (c' & Hc & Hr').
  rewrite (bind_Ok _ _ _ _ _ Hc). by apply agree_publish.
Qed.
Lemma agree_store_agent c s org project a entity action code :
  refines c s →
  agree (st_bind (store_agent org project a)
           (λ _, st_bind (st_ret a) (published org entity action code BAgent)) c)
        (Ok (code, BAgent a), notify org (lit entity) (lit action)
           (on_agents (t_put (scope_project org project) (ag_id a) a) s)).
Proof.
  intros Hr. destruct (store_agent_row c s org project a Hr) as (c' & Hc & Hr').
  rewrite (bind_Ok _ _ _ _ _ Hc). by apply agree_publish.
Qed.
Lemma agree_store_server c s org project v entity action code :
  refines c s →
  agree (st_bind (store_server org project v)
           (λ _, st_bind (st_ret v) (published org entity action code BServer)) c)
        (Ok (code, BServer v), notify org (lit entity) (lit action)
           (on_servers (t_put (scope_project org project) (sv_id v) v) s)).
Proof.
  intros Hr. destruct (store_server_row c s org project v Hr) as (c' & Hc & Hr').
  rewrite (bind_Ok _ _ _ _ _ Hc). by apply agree_publish.
Qed.

Lemma agree_create_project c s org actor body :
  refines c s →
  agree (st_bind (create_project org body) (published org "projects" "created" CREATED BProject) c)
        (spec_body org actor None (ReqCreateProject body) s).
Proof.
  intros Hr. cbn [spec_body]. unfold create_project, new_project.
  destruct (is_empty (trim (np_name body))); [done|].
  destruct (fetch_add_row c s Projects Hr) as [Hf Hr1].
  rewrite bind_assoc, (bind_Ok _ _ _ _ _ Hf), bind_assoc. cbn [commit].
  by apply agree_store_project.
Qed.

(** A write that computed its record without touching the state. *)
Lemma agree_update_project c s org actor id body :
  refines c s →
  agree (st_bind (update_project org id body) (published org "projects" "updated" OK BProject) c)
        (spec_body org actor None (ReqUpdateProject id body) s).
Proof.
  intros Hr. cbn [spec_body]. unfold update_project.
  rewrite bind_assoc. pose proof (existing_project_row c s org id Hr) as He.
  destruct (found project_missing id _) as [old|e]; [|by rewrite (bind_Err _ _ _ _ _ He)].
  rewrite (bind_Ok _ _ _ _ _ He), bind_assoc. cbn [result_bind commit].
  by apply agree_store_project.
Qed.
Lemma agree_delete_project c s org actor id :
  refines c s →
  agree (st_bind (delete_project org id)
           (published org "projects" "deleted" NO_CONTENT (λ _, BEmpty)) c)
        (spec_body org actor None (ReqDeleteProject id) s).
Proof.
  intros Hr. cbn [spec_body]. destruct (delete_project_row c s org id Hr) as (c' & Hc & Hr').
  unfold found in *. destruct (s_projects s _ !! id) as [p|]; cbn [ok_or result_bind commit] in *.
  - rewrite (bind_Ok _ _ _ _ _ Hc). by apply agree_publish.
  - by rewrite (bind_Err _ _ _ _ _ Hc).
Qed.

Lemma agree_create_agent c s org actor project body p :
  refines c s →
  agree (st_bind (agents_create org project body actor)
           (published org "agents" "created" CREATED BAgent) c)
        (spec_body org actor p (ReqCreateAgent project body) s).
Proof.
  intros Hr. cbn [spec_body]. unfold agents_create, new_agent.
  destruct (is_empty (trim (na_name body))); [done|]. destruct (_ || _); [done|].
  destruct (fetch_add_row c s Agents Hr) as [Hf Hr1].
  rewrite bind_assoc, (bind_Ok _ _ _ _ _ Hf), bind_assoc. cbn [commit].
  by apply agree_store_agent.
Qed.
Lemma agree_update_agent c s org actor project id body :
  refines c s →
  agree (st_bind (agents_update org project id body) (published org "agents" "updated" OK BAgent) c)
        (spec_body org actor None (ReqUpdateAgent project id body) s).
Proof.
  intros Hr. cbn [spec_body]. unfold agents_update. rewrite bind_assoc.
  pose proof (agents_get_row c s org project id Hr) as He.
  destruct (found agent_missing id _) as [old|e]; [|by rewrite (bind_Err _ _ _ _ _ He)].
  rewrite (bind_Ok _ _ _ _ _ He), bind_assoc. cbn [result_bind commit].
  by apply agree_store_agent.
Qed.
Lemma agree_delete_agent c s org actor project id :
  refines c s →
  agree (st_bind (agents_delete org project id)
           (published org "agents" "deleted" NO_CONTENT (λ _, BEmpty)) c)
        (spec_body org actor None (ReqDeleteAgent project id) s).
Proof.
  intros Hr. cbn [spec_body]. destruct (delete_agent_row c s org project id Hr) as (c' & Hc & Hr').
  unfold found in *. destruct (s_agents s _ !! id) as [p|]; cbn [ok_or result_bind commit] in *.
  - rewrite (bind_Ok _ _ _ _ _ Hc). by apply agree_publish.
  - by rewrite (bind_Err _ _ _ _ _ Hc).
Qed.

Lemma agree_create_server c s org actor project body p :
  refines c s →
  agree (st_bind (servers_create org project body actor)
           (published org "mcp" "created" CREATED BServer) c)
        (spec_body org actor p (ReqCreateMcp project body) s).
Proof.
  intros Hr. cbn [spec_body]. unfold servers_create, new_server.
  destruct (is_empty (trim (ns_name body))); [done|].
  destruct (validate_server _ _ _) as [[]|e]; [|done].
  destruct (fetch_add_row c s Servers Hr) as [Hf Hr1].
  rewrite bind_assoc. change (st_lift (Ok ())) with (st_ret (S := Cloud S) (E := ApiError) ()).
  erewrite bind_Ok; [|done].
  rewrite bind_assoc, (bind_Ok _ _ _ _ _ Hf), bind_assoc. cbn [commit result_bind].
  by apply agree_store_server.
Qed.
Lemma agree_update_server c s org actor project id body :
  refines c s →
  agree (st_bind (servers_update org project id body) (published org "mcp" "updated" OK BServer) c)
        (spec_body org actor None (ReqUpdateMcp project id body) s).
Proof.
  intros Hr. cbn [spec_body]. unfold servers_update. rewrite bind_assoc.
  pose proof (servers_get_row c s org project id Hr) as He.
  destruct (found server_missing id _) as [old|e]; [|by rewrite (bind_Err _ _ _ _ _ He)].
  rewrite (bind_Ok _ _ _ _ _ He), bind_assoc. cbn [result_bind].
  destruct (updated_server org project old body) as [new|e]; [|done]. cbn [commit].
  erewrite bind_Ok; [|done]. rewrite bind_assoc.
  by apply agree_store_server.
Qed.
Lemma agree_delete_server c s org actor project id :
  refines c s →
  agree (st_bind (servers_delete org project id)
           (published org "mcp" "deleted" NO_CONTENT (λ _, BEmpty)) c)
        (spec_body org actor None (ReqDeleteMcp project id) s).
Proof.
  intros Hr. cbn [spec_body]. destruct (delete_server_row c s org project id Hr) as (c' & Hc & Hr').
  unfold found in *. destruct (s_servers s _ !! id) as [p|]; cbn [ok_or result_bind commit] in *.
  - rewrite (bind_Ok _ _ _ _ _ Hc). by apply agree_publish.
  - by rewrite (bind_Err _ _ _ _ _ Hc).
Qed.

(** *** Memory *)

Lemma with_metadata_payload d (l : list (str * str)) :
  let d' := foldr (λ kv (d : StorageDocument), doc_with_metadata kv.1 kv.2 d) d l in
  doc_scope d' = doc_scope d ∧ doc_collection d' = doc_collection d ∧ doc_id d' = doc_id d ∧
  doc_payload d' = doc_payload d.
Proof. by induction l. Qed.

Lemma agree_review c s org actor project id action :
  refines c s →
  agree (st_bind (review_memory_entry org project id action actor)
           (published org "memory" "reviewed" OK BMemory) c)
        (spec_review org project id actor action s).
Proof.
  intros Hr. unfold review_memory_entry, spec_review, after_review, found.
  destruct (resulting_status action) as [status|] eqn:Hst; [|by destruct action].
  set (scope := scope_project org project). rewrite bind_assoc. cbn [ok_or].
  erewrite bind_Ok; [|done]. rewrite bind_assoc.
  destruct (get_row _ c _ scope id (rf_memories _ _ Hr)) as (d & Hg & Ho).
  erewrite bind_Ok; [|unfold reading; by rewrite Hg].
  destruct Ho as [d e Hd|]; [|done]. cbn [ok_or result_bind fmap option_fmap option_map default].
  unfold decodes in Hd. rewrite bind_assoc.
  erewrite bind_Ok; [|unfold st_lift; by rewrite (read_decodes _ d e Hd)]. rewrite bind_assoc.
  set (e' := with_status status e).
  destruct (serde_round_trip e') as (payload & Hto & Hfrom). rewrite Hto. cbn [map_err].
  erewrite bind_Ok; [|done]. cbv beta zeta. set (d' := foldr _ _ _).
  destruct (with_metadata_payload (StorageDocument_new scope CLOUD_MEMORY_COLLECTION id payload)
    (map_to_list (doc_metadata d))) as (Hs & Hc & Hi & Hp). fold d' in Hs, Hc, Hi, Hp.
  destruct (on_memory_row c s scope d' e' (MemoryAuditEntry_new id action actor))
    as (d2 & c1 & c2 & H1' & H2' & Hr2); [done..|unfold decodes; by rewrite Hp|].
  rewrite bind_assoc, (bind_Ok _ _ _ _ _ H1'), bind_assoc. erewrite bind_Ok; [|exact H2'].
  by apply agree_publish.
Qed.

Lemma agree_push c s org actor project body :
  refines c s →
  agree (st_bind (push_candidate org project body actor)
           (published org "memory" "created" CREATED BMemory) c)
        (spec_push org actor project body s).
Proof.
  intros Hr. unfold push_candidate, spec_push. destruct (is_empty _); [done|].
  destruct (fetch_add_row c s Memories Hr) as [Hf Hr1].
  rewrite bind_assoc, (bind_Ok _ _ _ _ _ Hf). cbv beta zeta.
  change (lit "mem_" ++ show_N (s_next s Memories)) with (next_id Memories s).
  set (id := next_id Memories s). set (e := candidate_entry id project body). rewrite bind_assoc.
  destruct (serde_round_trip e) as (payload & Hto & Hfrom). rewrite Hto. cbn [map_err].
  erewrite bind_Ok; [|done]. cbv beta zeta. set (d := apply_opt _ _ _).
  destruct (on_memory_row _ _ (scope_project org (pj_id project)) d e
    (MemoryAuditEntry_new id RCreated actor) Hr1) as (d2 & c1 & c2 & H1' & H2' & Hr2);
    [unfold d, decodes; by destruct (nm_source_uri body)..|].
  rewrite bind_assoc, (bind_Ok _ _ _ _ _ H1'), bind_assoc. erewrite bind_Ok; [|exact H2'].
  by apply agree_publish.
Qed.

(** *** The router *)

Lemma of_member_bind auth (f : str → handler Response) c :
  st_bind (of_member auth) f c =
    match (let? found := require_org auth in Ok (org_id found.1)) with
    | Ok org => f org c | Err e => (Err e, c)
    end.
Proof. unfold of_member, st_bind, st_lift. by destruct (require_org auth). Qed.
Lemma of_admin_bind auth (f : str → handler Response) c :
  st_bind (of_admin auth) f c =
    match (let? o := require_org_admin auth in Ok (org_id o)) with
    | Ok org => f org c | Err e => (Err e, c)
    end.
Proof. unfold of_admin, st_bind, st_lift. by destruct (require_org_admin auth). Qed.

(** A handler that first asks for its project. *)
Lemma agree_project c s org id (f : handler Response) (g : CloudProject → result ApiError Response * Spec) :
  refines c s → (∀ p, agree (f c) (g p)) →
  agree (st_bind (require_project org id) (λ _, f) c)
        (match found project_missing id (s_projects s (scope_organization org)) with
         | Ok p => g p | Err e => (Err e, s)
         end).
Proof.
  intros Hr Hf. pose proof (require_project_row c s org id Hr) as Hp.
  destruct (found project_missing id _) as [p|e]; cbn [result_bind] in Hp.
  - rewrite (bind_Ok _ _ _ _ _ Hp). apply Hf.
  - by rewrite (bind_Err _ _ _ _ _ Hp).
Qed.

(** A reading handler, by what its storage call answers. *)
Lemma agree_read {A} c s (m : handler A) (f : A → Body) (r : result ApiError A) :
  refines c s → m c = (r, c) →
  agree (st_bind m (λ a, st_ret (OK, f a)) c) (answer f r s).
Proof. intros Hr Hm. unfold st_bind, answer. rewrite Hm. by destruct r. Qed.

Lemma spec_with_project {B} org (r : result ApiError CloudProject)
    (k : str → option CloudProject → B) (e' : ApiError → B) :
  match (let? p := r in Ok (org, Some p)) with
  | Ok (org, project) => k org project | Err e => e' e
  end = match r with Ok p => k org (Some p) | Err e => e' e end.
Proof. by destruct r. Qed.

Lemma dispatch_agree auth r c s :
  refines c s → agree (dispatch auth r c) (spec_dispatch auth r s).
Proof.
  intros Hr. unfold spec_dispatch, admitted.
  destruct r; cbn [dispatch needs_admin needs_project early_error]; try done;
    unfold h_list_projects, h_create_project, h_get_project, h_update_project, h_delete_project,
      h_list_agents, h_create_agent, h_get_agent, h_update_agent, h_delete_agent, h_list_mcp,
      h_create_mcp, h_get_mcp, h_update_mcp, h_delete_mcp, h_list_memory, h_push_memory,
      h_search_memory, approve_memory, reject_memory, review_memory, h_memory_audit;
    rewrite ?of_member_bind, ?of_admin_bind;
    match goal with |- context [let? _ := ?x in Ok _] => destruct x as [o|e] end; try done;
    cbn [result_bind]; rewrite ?spec_with_project.
  all: try match goal with |- agree (st_bind (require_project _ _) _ _) _ =>
    apply agree_project; [done|intros p] end.
  - apply agree_read; [done|]. by apply list_entities_row, rf_projects; [apply rf_keyed with s|].
  - by apply agree_create_project.
  - apply agree_read; [done|]. by apply existing_project_row.
  - by apply agree_update_project.
  - by apply agree_delete_project.
  - apply agree_read; [done|]. by apply list_entities_row, rf_agents; [apply rf_keyed with s|].
  - by apply agree_create_agent.
  - apply agree_read; [done|]. by apply agents_get_row.
  - by apply agree_update_agent.
  - by apply agree_delete_agent.
  - apply agree_read; [done|]. by apply list_entities_row, rf_servers; [apply rf_keyed with s|].
  - by apply agree_create_server.
  - apply agree_read; [done|]. by apply servers_get_row.
  - by apply agree_update_server.
  - by apply agree_delete_server.
  - cbn [spec_body]. destruct (wanted_status status) as [wanted|e]; [|done]. cbn [result_bind].
    erewrite bind_Ok; [|done]. rewrite spec_with_project. apply agree_project; [done|intros p].
    apply agree_read; [done|]. by apply list_memory_row.
  - pose proof (existing_project_row c s (org_id o.1) project_id Hr) as He.
    destruct (found project_missing project_id _) as [p|e].
    + rewrite (bind_Ok _ _ _ _ _ He). by apply agree_push.
    + by rewrite (bind_Err _ _ _ _ _ He).
  - apply agree_read; [done|]. unfold search_memories, st_bind. by rewrite (list_memory_row c s).
  - by apply agree_review.
  - by apply agree_review.
  - apply agree_read; [done|]. by apply audit_trail_row.
Qed.

Lemma serve_agree v header r c s :
  refines c s → agree (serve v header r c) (spec_step v (header, r) s).
Proof.
  intros Hr. unfold serve, spec_step. cbn [fst snd].
  destruct r; try done; unfold st_bind, st_lift;
    destruct (from_request_parts v header); try done; by apply dispatch_agree.
Qed.

(** ** Sequences of requests *)

Fixpoint run_service (v : JwtVerifier) (requests : list (option str * Request)) c
    : list (result ApiError Response) * Cloud S :=
  match requests with
  | [] => ([], c)
  | q :: requests =>
      let '(r, c) := serve v q.1 q.2 c in
      let '(rs, c) := run_service v requests c in (r :: rs, c)
  end.
Fixpoint run_spec (v : JwtVerifier) (requests : list (option str * Request)) s
    : list (result ApiError Response) * Spec :=
  match requests with
  | [] => ([], s)
  | q :: requests =>
      let '(r, s) := spec_step v q s in
      let '(rs, s) := run_spec v requests s in (r :: rs, s)
  end.

Lemma run_agree v requests c s :
  refines c s →
  (run_service v requests c).1 = (run_spec v requests s).1 ∧
  refines (run_service v requests c).2 (run_spec v requests s).2.
Proof.
  revert c s. induction requests as [|[header r] requests IH]; intros c s Hr; [done|].
  simpl. pose proof (serve_agree v header r c s Hr) as [Hres Hr'].
  destruct (serve v header r c) as [res c1], (spec_step v (header, r) s) as [res' s1].
  simpl in *. subst res'. destruct (IH c1 s1 Hr') as [Hrs Hend].
  destruct (run_service v requests c1), (run_spec v requests s1). simpl in *. by subst.
Qed.

(** C10. The service implements its specification: over any lawful backend that starts empty,
    every sequence of requests, whatever their tokens and bodies, gets the answers, success
    codes and errors included, that the table machine gives, and its documents, logs and
    counters still decode to the machine's tables. *)
Theorem cloud_refines v requests (store : S) :
  docs store = ∅ → logs store = ∅ →
  (run_service v requests (with_storage store)).1 = (run_spec v requests spec_init).1 ∧
  refines (run_service v requests (with_storage store)).2 (run_spec v requests spec_init).2.
Proof. intros Hd Hl. by apply run_agree, refines_init. Qed.
End simulation.
