(* ===== verification/CloudDirectory.v ===== *)
(** * The organization directory ([codel00p-cloud/src/directory.rs]) and the slugs of projects

    Reading the members of an organization and the organizations of a user page by
    page from Clerk, the mapping of its records, and the encoding of a path segment.
    An answer of Clerk is a parameter: within one listing every page has its own
    offset, so a function of the offset gives every possible sequence of answers. *)

From stdpp Require Import base numbers strings gmap list.
From S2P Require Import Prelude RustStr Utf8 Storage Protocol CloudTypes CloudStores CloudRoutes.

Definition PAGE_LIMIT : N := 100.

(** ** Clerk's records *)

Record PublicUserData := {
  pud_user_id : option str;
  pud_first_name : option str;
  pud_last_name : option str;
  pud_identifier : option str;
}.
Record Membership := { ms_role : option str; ms_public_user_data : option PublicUserData }.
Record ClerkOrganization := { co_id : str; co_name : str; co_slug : option str }.
Record UserMembership := { um_organization : option ClerkOrganization }.
(** [MembershipList] and [UserMembershipList]. *)
Record PageOf (R : Type) := { pg_data : list R; pg_total_count : option nat }.
Arguments pg_data {R}. Arguments pg_total_count {R}. Arguments Build_PageOf {R}.

Definition filled (value : option str) : option str :=
  value ← value; let value := trim value in if is_empty value then None else Some value.
Definition valid_user_id (u : PublicUserData) : option str := filled (pud_user_id u).
Definition user_email (u : PublicUserData) : option str := filled (pud_identifier u).
Definition display_name (u : PublicUserData) : option str :=
  let parts := omap filled [pud_first_name u; pud_last_name u] in
  let name := join (lit " ") parts in
  if is_empty name then None else Some name.
Definition into_member (m : Membership) : option OrgMember :=
  user ← ms_public_user_data m;
  user_id ← valid_user_id user;
  let role := default Member (ms_role m ≫= from_clerk_claim) in
  let member := OrgMember_new user_id role in
  let member := apply_opt member_with_email (user_email user) member in
  Some (apply_opt member_with_name (display_name user) member).
Definition into_org (m : UserMembership) : option OrgRef :=
  org ← um_organization m;
  let id := trim (co_id org) in
  let name := trim (co_name org) in
  if is_empty id || is_empty name then None
  else Some (apply_opt org_with_slug (co_slug org) (OrgRef_new id name)).

(** ** Pages *)

(** What comes of a request: it fails, it is answered with a status that is no success, or
    its body is decoded. *)
Inductive HttpReply (A : Type) :=
| RequestFailed (err : str)
| HttpStatus (status body : str)
| HttpBody (decoded : result str A).
Arguments RequestFailed {A}. Arguments HttpStatus {A}. Arguments HttpBody {A}.

Definition page_result {A} (what : str) (r : HttpReply A) : result ApiError A :=
  match r with
  | RequestFailed err => Err (Internal (lit "clerk request failed: " ++ err))
  | HttpStatus status body =>
      Err (Internal (lit "clerk " ++ what ++ lit " lookup failed (" ++ status ++ lit "): " ++ body))
  | HttpBody (Ok a) => Ok a
  | HttpBody (Err err) => Err (Internal (lit "invalid clerk response: " ++ err))
  end.

Section listing.
Context {R A : Type} (page : N → result ApiError (PageOf R)) (into : R → option A).

(** The [loop] of [list_members] and [list_user_orgs]; [None] is a loop still running. *)
Fixpoint list_pages (fuel : nat) (offset : N) (acc : list A) : option (result ApiError (list A)) :=
  match fuel with
  | O => None
  | S fuel =>
      match page offset with
      | Err e => Some (Err e)
      | Ok payload =>
          let page_len := length (pg_data payload) in
          let total_count := default (page_len + N.to_nat offset) (pg_total_count payload) in
          let acc := acc ++ omap into (pg_data payload) in
          if (total_count <=? length acc) || (page_len =? 0) then Some (Ok acc)
          else list_pages fuel (u32_add offset PAGE_LIMIT) acc
      end
  end.

(** Clerk's documented paging over a list that stays put: a page is the next hundred records
    from the offset, with the total count. *)
Definition pages_of (all : list R) : Prop :=
  ∀ offset, page offset =
    Ok {| pg_data := take (N.to_nat PAGE_LIMIT) (drop (N.to_nat offset) all);
          pg_total_count := Some (length all) |}.

Lemma length_omap_le (l : list R) : length (omap into l) ≤ length l.
Proof. induction l as [|x l IH]; [done|]. csimpl. destruct (into x); simpl; lia. Qed.

(** One turn of the loop over such a list. *)
Lemma list_pages_turn all fuel offset acc :
  pages_of all →
  list_pages (S fuel) offset acc =
    let data := take 100 (drop (N.to_nat offset) all) in
    let acc := acc ++ omap into data in
    if (length all <=? length acc) || (length data =? 0) then Some (Ok acc)
    else list_pages fuel (u32_add offset PAGE_LIMIT) acc.
Proof. intros Hp. cbn [list_pages]. by rewrite Hp. Qed.

(** From page [k] on, [fuel] further pages are enough when they reach past the end; a full
    list whose records are not all mapped costs one empty page more. *)
Lemma list_pages_from all fuel k :
  pages_of all → (N.of_nat (length all) + 200 < u32_modulus)%N →
  length all ≤ fuel * 100 + k * 100 → k * 100 ≤ length all + 100 →
  list_pages (S fuel) (N.of_nat (k * 100)) (omap into (take (k * 100) all)) =
    Some (Ok (omap into all)).
Proof.
  intros Hp Hlen. revert k. induction fuel as [|fuel IH]; intros k Hf Hk;
    rewrite (list_pages_turn all) by done; cbv zeta; rewrite Nat2N.id, <- omap_app, take_take_drop;
    rewrite (length_take (drop (k * 100) all) 100), length_drop.
  - replace (100 `min` (length all - k * 100) =? 0) with true
      by (symmetry; apply Nat.eqb_eq; lia).
    rewrite orb_true_r, take_ge by lia. done.
  - destruct (Nat.eqb_spec (100 `min` (length all - k * 100)) 0) as [Hz|Hz].
    { rewrite orb_true_r, take_ge by lia. done. }
    rewrite orb_false_r. replace (k * 100 + 100) with (S k * 100) by lia.
    destruct (Nat.leb_spec (length all) (length (omap into (take (S k * 100) all)))) as [Hall|Hall].
    { pose proof (length_omap_le (take (S k * 100) all)) as Ho. rewrite length_take in Ho.
      rewrite take_ge by lia. done. }
    replace (u32_add (N.of_nat (k * 100)) PAGE_LIMIT) with (N.of_nat (S k * 100)).
    { apply IH; lia. }
    unfold u32_add, PAGE_LIMIT. rewrite N.mod_small; lia.
Qed.
End listing.

(** ** The directory *)

Record ClerkDirectory := { cd_secret_key : str; cd_api_base : str }.
Definition ClerkDirectory_new (secret_key api_base : str) : ClerkDirectory :=
  {| cd_secret_key := secret_key; cd_api_base := trim_end_matches (λ c, (c =? 47)%N) api_base |}.
(** [ClerkDirectory::from_env], on the two environment variables. *)
Definition DEFAULT_API_BASE : str := lit "https://api.clerk.com".
Definition not_blank (value : option str) : option str :=
  value ← value; if is_empty (trim value) then None else Some value.
Definition directory_from_env (secret_key api_base : option str) : option ClerkDirectory :=
  secret_key ← not_blank secret_key;
  Some (ClerkDirectory_new secret_key (default DEFAULT_API_BASE (not_blank api_base))).

(** [path_encode]. *)
Definition is_unreserved (b : byte) : bool :=
  is_ascii_alphanumeric b || bool_decide (b ∈ [45; 95; 46; 126]%N).
Definition hex_digit (n : N) : char := if (n <? 10)%N then (48 + n)%N else (55 + n)%N.
Definition percent : char := 37%N.
Definition encode_byte (b : byte) : str :=
  if is_unreserved b then [b] else [percent; hex_digit (b / 16); hex_digit (b mod 16)].
Definition path_encode (value : str) : str := concat (encode_byte <$> utf8 value).

Definition members_url (d : ClerkDirectory) (org : str) : str :=
  cd_api_base d ++ lit "/v1/organizations/" ++ org ++ lit "/memberships".
Definition user_orgs_url (d : ClerkDirectory) (user : str) : str :=
  cd_api_base d ++ lit "/v1/users/" ++ path_encode user ++ lit "/organization_memberships".

(** Clerk: what a GET of a url with a limit, an offset and a key is answered. *)
Class ClerkApi := {
  get_members : str → N → N → str → HttpReply (PageOf Membership);
  get_user_orgs : str → N → N → str → HttpReply (PageOf UserMembership);
}.

Section directory.
Context `{ClerkApi}.

Definition list_members_page (d : ClerkDirectory) (org : str) (offset : N)
    : result ApiError (PageOf Membership) :=
  page_result (lit "membership")
    (get_members (members_url d org) PAGE_LIMIT offset (cd_secret_key d)).
Definition list_user_orgs_page (d : ClerkDirectory) (user : str) (offset : N)
    : result ApiError (PageOf UserMembership) :=
  page_result (lit "organization")
    (get_user_orgs (user_orgs_url d user) PAGE_LIMIT offset (cd_secret_key d)).
Definition list_members (d : ClerkDirectory) (fuel : nat) (org : str)
    : option (result ApiError (list OrgMember)) :=
  list_pages (list_members_page d org) into_member fuel 0 [].
Definition list_user_orgs (d : ClerkDirectory) (fuel : nat) (user : str)
    : option (result ApiError (list OrgRef)) :=
  list_pages (list_user_orgs_page d user) into_org fuel 0 [].

(** The two routes that read the directory. *)
Definition unconfigured : ApiError :=
  ServiceUnavailable (lit "organization directory is not configured").
Definition h_list_orgs (directory : option ClerkDirectory) (fuel : nat) (auth : AuthContext)
    : option (result ApiError (list OrgRef)) :=
  match directory with
  | None => Some (Err unconfigured)
  | Some d => list_user_orgs d fuel (ac_user_id auth)
  end.
Definition h_list_org_members (directory : option ClerkDirectory) (fuel : nat)
    (auth : AuthContext) : option (result ApiError (list OrgMember)) :=
  match require_org auth with
  | Err e => Some (Err e)
  | Ok (org, _) =>
      match directory with
      | None => Some (Err unconfigured)
      | Some d => list_members d fuel (org_id org)
      end
  end.

(** The roster is complete: when Clerk serves a membership list as it documents, a hundred
    records to a page with the total count, listing the members ends after at most one page
    more than the list fills and gives every record with a user id, in order and once,
    whatever records have none. *)
Theorem list_members_complete d org all fuel :
  (∀ offset, get_members (members_url d org) PAGE_LIMIT offset (cd_secret_key d) =
     HttpBody (Ok {| pg_data := take 100 (drop (N.to_nat offset) all);
                     pg_total_count := Some (length all) |})) →
  (N.of_nat (length all) + 200 < u32_modulus)%N → length all / 100 + 2 ≤ fuel →
  list_members d fuel org = Some (Ok (omap into_member all)).
Proof.
  intros Hget Hlen Hfuel. unfold list_members. destruct fuel as [|fuel]; [lia|].
  apply (list_pages_from _ into_member all fuel 0); [|done| |lia].
  - intros offset. unfold list_members_page. by rewrite Hget.
  - pose proof (Nat.div_mod_eq (length all) 100). pose proof (Nat.mod_upper_bound (length all) 100).
    lia.
Qed.
End directory.

(** ** Encoded path segments *)

Definition hex_value (c : char) : option N :=
  if is_ascii_digit c then Some (c - 48)%N
  else if ((65 <=? c) && (c <=? 70))%N then Some (c - 55)%N else None.
(** The reference: how a server reads a segment back. *)
Fixpoint percent_decode (s : str) : option (list byte) :=
  match s with
  | [] => Some []
  | c :: s' =>
      if (c =? percent)%N then
        match s' with
        | h :: l :: rest =>
            h ← hex_value h; l ← hex_value l; bs ← percent_decode rest; Some ((h * 16 + l)%N :: bs)
        | _ => None
        end
      else bs ← percent_decode s'; Some (c :: bs)
  end.

Lemma hex_value_digit n : (n < 16)%N → hex_value (hex_digit n) = Some n.
Proof.
  intros Hn. unfold hex_value, hex_digit, is_ascii_digit.
  destruct (N.ltb_spec n 10).
  - rewrite (proj2 (N.leb_le 48 (48 + n))), (proj2 (N.leb_le (48 + n) 57)) by lia.
    simpl. f_equal. lia.
  - rewrite (proj2 (N.leb_gt (55 + n) 57)), andb_false_r by lia.
    rewrite (proj2 (N.leb_le 65 (55 + n))), (proj2 (N.leb_le (55 + n) 70)) by lia.
    simpl. f_equal. lia.
Qed.

Lemma percent_decode_byte b rest :
  (b < 256)%N → percent_decode (encode_byte b ++ rest) = (λ bs, b :: bs) <$> percent_decode rest.
Proof.
  intros Hb. unfold encode_byte. destruct (is_unreserved b) eqn:Hu; cbn [app percent_decode].
  - replace (b =? percent)%N with false; [by destruct (percent_decode rest)|].
    symmetry. apply N.eqb_neq. intros ->. by vm_compute in Hu.
  - rewrite N.eqb_refl. rewrite !hex_value_digit by (apply N.Div0.div_lt_upper_bound || apply N.mod_lt; lia).
    simpl. destruct (percent_decode rest); [|done]. simpl. do 2 f_equal.
    pose proof (N.div_mod b 16 ltac:(lia)). lia.
Qed.

Lemma encode_utf8_bytes c : is_scalar c = true → Forall (λ b, (b < 256)%N) (encode_utf8 c).
Proof.
  intros Hs. assert (c < 1114112)%N as Hc.
  { unfold is_scalar in Hs. apply orb_true_iff in Hs as [Hs|[_ Hs]%andb_true_iff];
      apply N.ltb_lt in Hs; lia. }
  unfold encode_utf8.
  pose proof (N.mod_lt c 64 ltac:(lia)). pose proof (N.mod_lt (c / 64) 64 ltac:(lia)).
  pose proof (N.mod_lt (c / 4096) 64 ltac:(lia)).
  pose proof (N.Div0.div_lt_upper_bound c 262144 16 ltac:(lia)).
  destruct (N.ltb_spec c 128); [repeat constructor; lia|].
  destruct (N.ltb_spec c 2048).
  { pose proof (N.Div0.div_lt_upper_bound c 64 32 ltac:(lia)). repeat constructor; lia. }
  destruct (N.ltb_spec c 65536); [|repeat constructor; lia].
  pose proof (N.Div0.div_lt_upper_bound c 4096 16 ltac:(lia)). repeat constructor; lia.
Qed.

Lemma percent_decode_bytes bs :
  Forall (λ b, (b < 256)%N) bs → percent_decode (concat (encode_byte <$> bs)) = Some bs.
Proof.
  induction 1 as [|b bs Hb _ IH]; [done|]. csimpl. by rewrite percent_decode_byte, IH.
Qed.

(** A character that needs no quoting in a path segment. *)
Definition segment_char (c : char) : bool := is_unreserved c || (c =? percent)%N.
Lemma hex_digit_safe n : (n < 16)%N → segment_char (hex_digit n) = true.
Proof.
  intros Hn. unfold hex_digit, segment_char, is_unreserved, is_ascii_alphanumeric,
    is_ascii_alphabetic, is_ascii_uppercase, is_ascii_digit.
  destruct (N.ltb_spec n 10).
  - rewrite (proj2 (N.leb_le 48 (48 + n))), (proj2 (N.leb_le (48 + n) 57)) by lia.
    by rewrite orb_true_r.
  - rewrite (proj2 (N.leb_le 65 (55 + n))), (proj2 (N.leb_le (55 + n) 90)) by lia. done.
Qed.

(** An encoded path segment is safe and reads back: it contains only unreserved characters
    and escapes, so no slash, question mark or fragment of a user id reaches the url, and
    decoding the escapes and then the bytes gives the value again. *)
Theorem path_encode_roundtrip value :
  Forall (λ c, is_scalar c = true) value →
  Forall (λ c, segment_char c = true) (path_encode value) ∧
  (percent_decode (path_encode value) ≫= from_utf8) = Some value.
Proof.
  intros Hs.
  assert (Forall (λ b, (b < 256)%N) (utf8 value)) as Hb.
  { unfold utf8. apply Forall_concat, Forall_fmap. eapply Forall_impl; [exact Hs|].
    apply encode_utf8_bytes. }
  split.
  - unfold path_encode. apply Forall_concat, Forall_fmap. eapply Forall_impl; [exact Hb|].
    intros b Hlt. simpl in *. unfold encode_byte. destruct (is_unreserved b) eqn:Hu.
    + constructor; [|done]. unfold segment_char. by rewrite Hu.
    + pose proof (N.Div0.div_lt_upper_bound b 16 16 ltac:(lia)).
      pose proof (N.mod_lt b 16 ltac:(lia)). repeat constructor; by apply hex_digit_safe.
  - unfold path_encode. rewrite percent_decode_bytes by done. by apply from_utf8_utf8.
Qed.

Lemma path_encode_roundtrip_witness :
  Forall (λ c, segment_char c = true) (path_encode (lit "a/b c?")) ∧
  (percent_decode (path_encode (lit "a/b c?")) ≫= from_utf8) = Some (lit "a/b c?").
Proof. apply (path_encode_roundtrip (lit "a/b c?")). by repeat constructor. Defined.

(** A directory of 150 members of whom two have no user id. *)
Definition demo_membership (i : nat) : Membership :=
  {| ms_role := Some (lit "org:member");
     ms_public_user_data :=
       if bool_decide (i = 3 ∨ i = 149) then None
       else Some {| pud_user_id := Some (lit "user_" ++ show_N (N.of_nat i)); pud_first_name := None;
                    pud_last_name := Some (lit " Doe "); pud_identifier := None |} |}.
Definition demo_clerk (all : list Membership) : ClerkApi := {|
  get_members := λ _ _ offset _,
    HttpBody (Ok {| pg_data := take 100 (drop (N.to_nat offset) all);
                    pg_total_count := Some (length all) |});
  get_user_orgs := λ _ _ _ _, RequestFailed [];
|}.
Lemma list_members_complete_witness :
  let all := demo_membership <$> seq 0 150 in
  list_members (H := demo_clerk all) (ClerkDirectory_new (lit "sk") DEFAULT_API_BASE) 3 (lit "acme") =
    Some (Ok (omap into_member all)) ∧ length (omap into_member all) = 148.
Proof.
  split; [|vm_compute; reflexivity].
  apply (list_members_complete (H := demo_clerk _)); [done|vm_compute; reflexivity|].
  vm_compute. lia.
Defined.

(** ** Project slugs

    [slugify] of [codel00p-cloud/src/projects.rs] builds a slug in one pass with a
    pending separator; its comment describes the result by words.  The two are the
    same function. *)

(** The words of a name: its longest runs of ASCII letters and digits. *)
Definition slug_words (name : str) : list str :=
  List.filter (λ w, negb (is_empty w)) (split_by (λ c, negb (is_ascii_alphanumeric c)) name).
Definition slug_join (words : list str) : str := join [hyphen] (to_ascii_lowercase <$> words).

(** What has been written, followed by more words. *)
Definition slug_then (slug : str) (words : list str) : str :=
  match slug, words with
  | [], _ => slug_join words
  | _, [] => slug
  | _, _ => slug ++ [hyphen] ++ slug_join words
  end.

Lemma split_by_cons p s : ∃ w ws, split_by p s = w :: ws.
Proof.
  destruct s as [|c s]; simpl; [eauto|]. destruct (p c); [eauto|].
  destruct (split_by p s); eauto.
Qed.

Lemma slug_then_nil slug : slug_then slug [] = slug.
Proof. by destruct slug. Qed.
Lemma slug_join_cons w ws : w ≠ [] → slug_join (w :: ws) = slug_then (to_ascii_lowercase w) ws.
Proof. destruct w as [|c w]; [done|]. by destruct ws. Qed.
Lemma slug_then_words slug w ws :
  slug ≠ [] → slug_then slug (w :: ws) = slug ++ [hyphen] ++ slug_join (w :: ws).
Proof. by destruct slug. Qed.
Lemma slug_then_app slug w ws :
  w ≠ [] → slug ≠ [] →
  slug_then (slug ++ w) ws = slug ++ slug_then w ws.
Proof.
  intros Hw Hs. destruct slug as [|c slug]; [done|]. destruct w as [|d w]; [done|].
  destruct ws; simpl; [done|]. by rewrite <- app_assoc.
Qed.

(** The loop: with a separator pending the rest are new words; without one the first run of
    the rest continues the last word written. *)
Lemma slug_chars_words name slug :
  slug_chars name slug true = slug_then slug (slug_words name) ∧
  ∀ w ws, split_by (λ c, negb (is_ascii_alphanumeric c)) name = w :: ws →
    slug_chars name slug false =
      slug_then (slug ++ to_ascii_lowercase w) (List.filter (λ w, negb (is_empty w)) ws).
Proof.
  revert slug. induction name as [|c name IH]; intros slug; simpl.
  { split; [by rewrite slug_then_nil|]. intros w ws [= <- <-]. simpl.
    by rewrite slug_then_nil, app_nil_r. }
  unfold slug_words. cbn [split_by].
  destruct (split_by_cons (λ c, negb (is_ascii_alphanumeric c)) name) as (w & ws & Hsplit).
  destruct (is_ascii_alphanumeric c) eqn:Hc; simpl.
  - rewrite Hsplit. simpl. split.
    + set (slug' := if negb (is_empty slug) then _ else _).
      rewrite (proj2 (IH (slug' ++ [ascii_lower c])) w ws Hsplit).
      rewrite <- app_assoc. change ([ascii_lower c] ++ to_ascii_lowercase w)
        with (to_ascii_lowercase (c :: w)).
      destruct slug as [|d slug]; simpl in slug'; subst slug'.
      * by rewrite app_nil_l, <- slug_join_cons.
      * rewrite slug_then_app by done. rewrite slug_then_words, <- slug_join_cons by done.
        by rewrite (app_assoc (d :: slug)).
    + intros w' ws' [= <- <-]. rewrite (proj2 (IH (slug ++ [ascii_lower c])) w ws Hsplit).
      by rewrite <- app_assoc.
  - split; [apply IH|]. intros w' ws' [= <- <-]. rewrite app_nil_r. apply IH.
Qed.

(** A slug is the words of the name: its runs of ASCII letters and digits, lowercased and
    joined by single hyphens, with none at either end; a name without such a run gets
    [project]. *)
Theorem slugify_words name :
  slugify name = match slug_words name with [] => lit "project" | words => slug_join words end.
Proof.
  unfold slugify. set (slug := slug_chars name [] false).
  assert (slug = slug_join (slug_words name)) as ->.
  { unfold slug, slug_words. destruct (split_by_cons (λ c, negb (is_ascii_alphanumeric c)) name)
      as (w & ws & Hsplit). rewrite (proj2 (slug_chars_words name []) w ws Hsplit), Hsplit. simpl.
    destruct w as [|c w]; [done|]. symmetry. by apply slug_join_cons. }
  destruct (slug_words name) as [|w ws] eqn:Hw; [done|].
  assert (w ≠ []) as Hne.
  { assert (In w (slug_words name)) as Hin by (rewrite Hw; by left).
    apply filter_In in Hin as [_ Hw']. by intros ->. }
  rewrite slug_join_cons by done. destruct w as [|c w]; [done|]. by destruct ws.
Qed.
