(* ===== verification/CloudReview.v ===== *)
(** * The review of shared memories

    What the specification keeps true of memories and their audit trails along any
    sequence of requests, and what that means for the answers of the service. *)

From stdpp Require Import base numbers functions strings gmap list.
From S2P Require Import Prelude RustStr Storage Protocol CloudTypes CloudStores CloudRoutes CloudIsolation CloudGate CloudSpec CloudRefine CloudProps.

Section review.
Context `{Unicode} `{JwtLib}.
Implicit Types (s : Spec) (scope : StorageScope) (id : str) (v : JwtVerifier).
Implicit Types (hist : list (option str * Request)).

(** An event of a trail is the act of a caller whose request is in the history: a member's
    push, or an administrator's review of this memory in this project. *)
Definition acted v hist scope id (ev : MemoryAuditEntry) : Prop :=
  ∃ header auth o p, scope = scope_project o p ∧ from_request_parts v header = Ok auth ∧
    caller_org auth = Some o ∧ au_actor ev = ac_user_id auth ∧ au_memory_id ev = id ∧
    match au_action ev with
    | RCreated => ∃ body, (header, ReqPushMemory p body) ∈ hist
    | RApproved => ac_org_role auth = Some Admin ∧ (header, ReqApproveMemory p id) ∈ hist
    | RRejected => ac_org_role auth = Some Admin ∧ (header, ReqRejectMemory p id) ∈ hist
    | RArchived => False
    end.
(** A trail starts with the creation, goes on with reviews, and ends with the event that
    gave the entry its status. *)
Definition trail_of v hist scope id (e : MemoryEntry) (trail : list MemoryAuditEntry) : Prop :=
  (∃ created reviews, trail = created :: reviews ∧ au_action created = RCreated ∧
     Forall (λ ev, au_action ev = RApproved ∨ au_action ev = RRejected) reviews) ∧
  (∃ ev, last trail = Some ev ∧ resulting_status (au_action ev) = Some (entry_status e)) ∧
  Forall (acted v hist scope id) trail.

Record reviewed_ok v hist s : Prop := {
  rv_next : (1 ≤ s_next s Memories ≤ 1 + N.of_nat (length hist))%N;
  rv_projects : ∀ scope id p, s_projects s scope !! id = Some p → pj_id p = id;
  rv_ids : ∀ scope id e, s_memories s scope !! id = Some e →
    entry_id e = id ∧ ∃ n, id = lit "mem_" ++ show_N n ∧ (n < s_next s Memories)%N;
  rv_logged : ∀ scope id, s_memories s scope !! id = None → s_trails s scope !! id = None;
  rv_trails : ∀ scope id e, s_memories s scope !! id = Some e →
    ∃ trail, s_trails s scope !! id = Some trail ∧ trail_of v hist scope id e trail;
}.

(** ** What a request does to memories *)

Definition same_memories s s' : Prop :=
  s_memories s' = s_memories s ∧ s_trails s' = s_trails s ∧ s_next s' Memories = s_next s Memories.
Definition memory_written scope (ev : MemoryAuditEntry) (e : MemoryEntry) s s' : Prop :=
  s_memories s' = s_memories (on_memory scope ev e s) ∧
  s_trails s' = s_trails (on_memory scope ev e s).

Inductive memory_effect v (q : option str * Request) s s' : Prop :=
| no_effect : same_memories s s' → memory_effect v q s s'
| pushed header auth o p project body ev e :
    q = (header, ReqPushMemory p body) → from_request_parts v header = Ok auth →
    caller_org auth = Some o → s_projects s (scope_organization o) !! p = Some project →
    ev = MemoryAuditEntry_new (next_id Memories s) RCreated (ac_user_id auth) →
    e = candidate_entry (next_id Memories s) project body →
    memory_written (scope_project o (pj_id project)) ev e s s' →
    s_next s' Memories = u64_add (s_next s Memories) 1 →
    memory_effect v q s s'
| decided header auth o p id action status ev e :
    q = (header, match action with RApproved => ReqApproveMemory p id | _ => ReqRejectMemory p id end) →
    action = RApproved ∨ action = RRejected →
    from_request_parts v header = Ok auth → caller_org auth = Some o →
    ac_org_role auth = Some Admin → s_memories s (scope_project o p) !! id = Some e →
    resulting_status action = Some status →
    ev = MemoryAuditEntry_new id action (ac_user_id auth) →
    memory_written (scope_project o p) ev (with_status status e) s s' →
    s_next s' Memories = s_next s Memories →
    memory_effect v q s s'.

Lemma require_org_caller auth found : require_org auth = Ok found → caller_org auth = Some (org_id found.1).
Proof.
  unfold require_org, caller_org. destruct (ac_org auth), (ac_org_role auth); try done.
  by intros [= <-].
Qed.
Lemma require_org_admin_caller auth org :
  require_org_admin auth = Ok org → caller_org auth = Some (org_id org) ∧ ac_org_role auth = Some Admin.
Proof.
  unfold require_org_admin, require_org, caller_org.
  destruct (ac_org auth), (ac_org_role auth) as [[]|]; try done. simpl. by intros [= <-].
Qed.

Lemma commit_same {A} code (f : A → Body) r s g :
  (∀ a, r = Ok a → same_memories s (g a)) → same_memories s (commit code f r s g).2.
Proof. intros Hg. destruct r; [by apply Hg|done]. Qed.
Lemma take_id_next k s : k ≠ Memories → s_next (take_id k s) Memories = s_next s Memories.
Proof. intros Hk. simpl. by rewrite fn_lookup_insert_ne. Qed.

(** A request that is no push and no review leaves the memories. *)
Lemma spec_body_same org actor project r s :
  match r with ReqPushMemory _ _ | ReqApproveMemory _ _ | ReqRejectMemory _ _ => False | _ => True end →
  same_memories s (spec_body org actor project r s).2.
Proof.
  destruct r; simpl; try done; intros _; apply commit_same; intros a _; split_and!; try done;
    by apply take_id_next.
Qed.

Lemma no_change v q s : memory_effect v q s s.
Proof. by apply no_effect. Qed.

Lemma spec_review_effect v header auth o p id action s :
  from_request_parts v header = Ok auth → caller_org auth = Some o →
  ac_org_role auth = Some Admin → action = RApproved ∨ action = RRejected →
  memory_effect v
    (header, match action with RApproved => ReqApproveMemory p id | _ => ReqRejectMemory p id end)
    s (spec_review o p id (ac_user_id auth) action s).2.
Proof.
  intros Ha Ho Hr Hact. unfold spec_review, after_review, found.
  destruct (s_memories s (scope_project o p) !! id) as [e|] eqn:He; [|apply no_change].
  destruct (resulting_status action) as [status|] eqn:Hst; [|by destruct Hact; subst].
  by eapply decided.
Qed.

Lemma spec_step_effect v q s : memory_effect v q s (spec_step v q s).2.
Proof.
  destruct q as [header r]. unfold spec_step, spec_dispatch, admitted. cbn [fst snd].
  destruct (from_request_parts v header) as [auth|e] eqn:Ha;
    [|destruct r; apply no_change].
  destruct r; cbn [needs_admin needs_project early_error]; try apply no_change.
  all: match goal with
    | |- context [require_org_admin ?a] => destruct (require_org_admin a) as [o|e] eqn:Ho
    | |- context [require_org ?a] => destruct (require_org a) as [o|e] eqn:Ho
    end; [|apply no_change]; cbn [result_bind].
  all: try by apply no_effect, spec_body_same.
  all: try (match goal with |- context [wanted_status ?x] => destruct (wanted_status x) as [w|e] end;
    [|apply no_change]; cbn [result_bind]).
  all: rewrite ?spec_with_project; destruct (found project_missing _ _) as [project|e] eqn:Hp;
    [|apply no_change].
  all: try by apply no_effect, spec_body_same.
  - cbn [spec_body]. unfold spec_push. destruct (is_empty _); [apply no_change|].
    eapply pushed; [done|exact Ha|by apply require_org_caller| |done..|].
    + unfold found in Hp. by destruct (s_projects s _ !! project_id); simplify_eq/=.
    + simpl. by rewrite fn_lookup_insert.
  - destruct (require_org_admin_caller _ _ Ho) as [Hc Hr].
    apply (spec_review_effect v header auth _ project_id memory_id RApproved); auto.
  - destruct (require_org_admin_caller _ _ Ho) as [Hc Hr].
    apply (spec_review_effect v header auth _ project_id memory_id RRejected); auto.
Qed.

(** Projects stay under their own id. *)
Definition projects_keyed s : Prop :=
  ∀ scope id p, s_projects s scope !! id = Some p → pj_id p = id.

Lemma put_project_keyed scope p s :
  projects_keyed s → projects_keyed (on_projects (t_put scope (pj_id p) p) s).
Proof.
  intros Hk scope' id p'. simpl. rewrite fn_put_eq. case_decide as Hd; [|apply Hk].
  destruct Hd as [_ ->]. by intros [= ->].
Qed.
Lemma commit_keyed {A} code (f : A → Body) r s g :
  projects_keyed s → (∀ a, r = Ok a → projects_keyed (g a)) →
  projects_keyed (commit code f r s g).2.
Proof. intros Hk Hg. destruct r; [by apply Hg|done]. Qed.

Lemma spec_body_projects org actor project r s :
  projects_keyed s → projects_keyed (spec_body org actor project r s).2.
Proof.
  intros Hk. destruct r; simpl; try done; try (apply commit_keyed; [done|intros a Ha]); try done.
  - apply (put_project_keyed (scope_organization org) a (take_id Projects s) Hk).
  - apply (put_project_keyed (scope_organization org) a s Hk).
  - intros scope id p. simpl. rewrite fn_delete_eq. case_decide; [done|apply Hk].
  - destruct project; [|done]. unfold spec_push. by destruct (is_empty _).
Qed.
Lemma spec_step_projects v q s :
  projects_keyed s → projects_keyed (spec_step v q s).2.
Proof.
  intros Hk. destruct q as [header r]. unfold spec_step, spec_dispatch. cbn [fst snd].
  destruct (from_request_parts v header) as [auth|e]; [|by destruct r].
  destruct r; try done; match goal with |- context [match ?x with Ok _ => _ | Err _ => _ end] =>
    destruct x as [[o p]|e] end; try done; by apply spec_body_projects.
Qed.

(** ** The invariant *)

Lemma acted_mono v hist q scope id ev : acted v hist scope id ev → acted v (hist ++ [q]) scope id ev.
Proof.
  intros (header & auth & o & p & ? & ? & ? & ? & ? & Hact). exists header, auth, o, p.
  split_and!; [done..|]. destruct (au_action ev); set_solver.
Qed.
Lemma trail_of_mono v hist q scope id e trail :
  trail_of v hist scope id e trail → trail_of v (hist ++ [q]) scope id e trail.
Proof.
  intros (Hshape & Hlast & Hall). split_and!; [done..|]. eapply Forall_impl; [done|].
  intros ev. apply acted_mono.
Qed.

Lemma reviewed_init v : reviewed_ok v [] spec_init.
Proof. split; try done; intros scope id ?; simpl; by rewrite lookup_empty. Qed.

Lemma show_N_mem_inj n m : lit "mem_" ++ show_N n = lit "mem_" ++ show_N m → n = m.
Proof. intros Heq%app_inv_head. by apply show_N_inj. Qed.

(** A trail gets an event, and the entry the status of the event. *)
Lemma trail_of_snoc v hist scope id e ev trail status :
  trail_of v hist scope id e trail →
  au_action ev = RApproved ∨ au_action ev = RRejected →
  resulting_status (au_action ev) = Some status → acted v hist scope id ev →
  trail_of v hist scope id (with_status status e) (trail ++ [ev]).
Proof.
  intros ((created & reviews & -> & Hc & Hrev) & _ & Hall) Hact Hst Hev. split_and!.
  - exists created, (reviews ++ [ev]). split_and!; [done..|]. apply Forall_app. auto.
  - exists ev. by rewrite last_snoc.
  - apply Forall_app. auto.
Qed.

Lemma reviewed_same v hist q s s' :
  reviewed_ok v hist s → projects_keyed s' → same_memories s s' → reviewed_ok v (hist ++ [q]) s'.
Proof.
  intros [Hn _ Hids Hlog Htr] Hp' (Hm & Ht & Hnx).
  split; rewrite ?Hnx, ?Hm, ?Ht, ?length_app; simpl; [lia|done|done|done|].
  intros scope id e He. destruct (Htr _ _ _ He) as (trail & Hl & Hok).
  exists trail. split; [done|]. by apply trail_of_mono.
Qed.

(** A memory pushed under a fresh id starts its trail. *)
Lemma reviewed_push v hist q s s' scope e ev :
  (N.of_nat (length hist) + 2 < u64_modulus)%N →
  reviewed_ok v hist s → projects_keyed s' → memory_written scope ev e s s' →
  s_next s' Memories = u64_add (s_next s Memories) 1 →
  au_memory_id ev = next_id Memories s → entry_id e = next_id Memories s →
  au_action ev = RCreated → entry_status e = Candidate →
  acted v (hist ++ [q]) scope (next_id Memories s) ev → reviewed_ok v (hist ++ [q]) s'.
Proof.
  intros Hlen [[Hn1 Hn2] _ Hids Hlog Htr] Hp' [Hm Ht] Hn Hid Heid Hact Hst Hev.
  assert (u64_add (s_next s Memories) 1 = s_next s Memories + 1)%N as Hadd
    by (unfold u64_add, u64_wrap; apply N.mod_small; lia).
  assert (∀ scope', s_memories s scope' !! next_id Memories s = None) as Hfresh.
  { intros scope'. destruct (s_memories s scope' !! _) as [e'|] eqn:He'; [|done].
    destruct (Hids _ _ _ He') as (_ & n & Heq & Hlt). apply show_N_mem_inj in Heq. lia. }
  split; rewrite ?Hm, ?Ht, ?Hn, ?Hadd, ?length_app; simpl; [lia|done|..].
  - intros scope' id' e'. rewrite fn_put_eq, Hid. case_decide as Hd.
    + destruct Hd as [_ ->]. intros [= <-]. split; [done|]. exists (s_next s Memories).
      split; [done|lia].
    + intros (Hi & n & Heq & Hlt)%Hids. split; [done|]. exists n. split; [done|lia].
  - intros scope' id'. rewrite !fn_put_eq. case_decide; [done|apply Hlog].
  - intros scope' id' e'. rewrite !fn_put_eq, Hid. case_decide as Hd.
    + destruct Hd as [-> ->]. intros [= <-]. eexists. split; [done|].
      rewrite (Hlog _ _ (Hfresh _)). simpl. split_and!.
      * by exists ev, [].
      * exists ev. split; [done|]. by rewrite Hact, Hst.
      * by constructor.
    + intros (trail & Hl & Hok)%Htr. exists trail. split; [done|]. by apply trail_of_mono.
Qed.

Lemma reviewed_decision v hist q s s' scope id e ev status :
  reviewed_ok v hist s → projects_keyed s' →
  memory_written scope ev (with_status status e) s s' → s_next s' Memories = s_next s Memories →
  s_memories s scope !! id = Some e → au_memory_id ev = id →
  au_action ev = RApproved ∨ au_action ev = RRejected →
  resulting_status (au_action ev) = Some status →
  acted v (hist ++ [q]) scope id ev → reviewed_ok v (hist ++ [q]) s'.
Proof.
  intros [Hn1 _ Hids Hlog Htr] Hp' [Hm Ht] Hn He <- Hact Hst Hev.
  split; rewrite ?Hm, ?Ht, ?Hn, ?length_app; simpl; [lia|done|..].
  - intros scope' id' e'. rewrite fn_put_eq. case_decide as Hd; [|apply Hids].
    destruct Hd as [-> ->]. intros [= <-]. by apply (Hids _ _ _ He).
  - intros scope' id'. rewrite !fn_put_eq. case_decide; [done|apply Hlog].
  - intros scope' id' e'. rewrite !fn_put_eq. case_decide as Hd.
    + destruct Hd as [-> ->]. intros [= <-]. eexists. split; [done|].
      destruct (Htr _ _ _ He) as (trail & -> & Hok). simpl.
      by apply trail_of_snoc; [apply trail_of_mono|..].
    + intros (trail & Hl & Hok)%Htr. exists trail. split; [done|]. by apply trail_of_mono.
Qed.

Lemma reviewed_step v hist q s :
  (N.of_nat (length hist) + 2 < u64_modulus)%N →
  reviewed_ok v hist s → reviewed_ok v (hist ++ [q]) (spec_step v q s).2.
Proof.
  intros Hlen Hok. pose proof (spec_step_projects v q s (rv_projects _ _ _ Hok)) as Hp'.
  destruct (spec_step_effect v q s)
    as [Hsame|header auth o p project body ev e -> Ha Ho Hproj -> -> Hw Hn
       |header auth o p id action status ev e -> Hact Ha Ho Hr He Hst -> Hw Hn].
  - by eapply reviewed_same.
  - destruct (CloudGate.with_tags_keeps (nm_tags body)
      (with_sensitivity (nm_sensitivity body) (MemoryEntry_new (next_id Memories s)
         (ProjectRef_new (pj_id project) (pj_name project)) (nm_kind body) (trim (nm_content body)))))
      as [Hid Hst].
    eapply reviewed_push; [done..|]. exists header, auth, o, p.
    rewrite (rv_projects _ _ _ Hok _ _ _ Hproj). split_and!; [done..|]. exists body. set_solver.
  - eapply reviewed_decision; [done..|]. exists header, auth, o, p. split_and!; [done..|].
    destruct Hact as [-> | ->]; simpl; set_solver.
Qed.
End review.

(** ** What the answers show *)

Lemma elem_of_t_list {A} (scope : StorageScope) (t : table A) (a : A) :
  a ∈ t_list scope t ↔ ∃ id, t scope !! id = Some a.
Proof.
  unfold t_list. rewrite list_elem_of_fmap. setoid_rewrite elem_of_sort_by. split.
  - intros ([id a'] & -> & Hin%elem_of_map_to_list). by exists id.
  - intros [id Hl]. exists (id, a). by rewrite elem_of_map_to_list.
Qed.

Lemma elem_of_ranked `{Unicode} (terms : list str) (limit : nat) (l : list MemoryEntry) e :
  e ∈ ranked terms limit l → e ∈ l.
Proof.
  unfold ranked. rewrite list_elem_of_fmap. intros ([n e'] & -> & Hin).
  apply elem_of_take in Hin as (i & Hi & _). apply list_elem_of_lookup_2 in Hi.
  rewrite elem_of_sort_by in Hi. apply list_elem_of_In, filter_In in Hi as [Hi _].
  apply list_elem_of_In, list_elem_of_fmap in Hi as (e & [= -> ->] & Hin). done.
Qed.
Lemma elem_of_memory_hits `{Unicode} (query : str) (limit : nat) (l : list MemoryEntry) e :
  e ∈ memory_hits query limit l → e ∈ l.
Proof.
  unfold memory_hits. destruct (split_whitespace _); [|apply elem_of_ranked].
  intros (i & Hi & _)%elem_of_take. by eapply list_elem_of_lookup_2.
Qed.
Lemma length_memory_hits `{Unicode} (query : str) (limit : nat) (l : list MemoryEntry) :
  length (memory_hits query limit l) ≤ limit.
Proof.
  unfold memory_hits. destruct (split_whitespace _); [rewrite length_take; lia|].
  unfold ranked. rewrite length_fmap, length_take. lia.
Qed.

Section answers.
Context `{JsonLib} `{!JsonText} {S : Type} `{!DocumentStore S} `{!AppendLogStore S}.
Context `{!StorageView S} `{!DocumentLaws S} `{!LogLaws S}.
Context `{!Serde CloudProject} `{!Serde Agent} `{!Serde McpServer}.
Context `{!Serde MemoryEntry} `{!Serde MemoryAuditEntry}.
Context `{!SerdeLaws CloudProject} `{!SerdeLaws Agent} `{!SerdeLaws McpServer}.
Context `{!SerdeLaws MemoryEntry} `{!SerdeLaws MemoryAuditEntry}.
Context `{Unicode} `{JwtLib}.

Lemma run_reviewed v requests hist s :
  (N.of_nat (length hist + length requests) + 2 < u64_modulus)%N →
  reviewed_ok v hist s → reviewed_ok v (hist ++ requests) (run_spec v requests s).2.
Proof.
  revert hist s. induction requests as [|q requests IH]; intros hist s Hlen Hok; simpl in *.
  { by rewrite app_nil_r. }
  pose proof (reviewed_step v hist q s ltac:(lia) Hok) as Hok'.
  destruct (spec_step v q s) as [r s1]. simpl in Hok'.
  specialize (IH (hist ++ [q]) s1). rewrite length_app, <- app_assoc in IH. simpl in IH.
  destruct (run_spec v requests s1) as [rs s2]. apply IH; [lia|done].
Qed.

(** The state a fresh service reaches, with its tables. *)
Lemma run_fresh v requests (store : S) :
  docs store = ∅ → logs store = ∅ → (N.of_nat (length requests) + 2 < u64_modulus)%N →
  ∃ s, refines (run_service v requests (with_storage store)).2 s ∧ reviewed_ok v requests s.
Proof.
  intros Hd Hl Hlen. exists (run_spec v requests spec_init).2. split.
  - by apply (run_agree v requests _ _ (refines_init store Hd Hl)).
  - by apply (run_reviewed v requests []), reviewed_init.
Qed.

(** C13. The audit trail of a shared memory accounts for it: after any sequence of requests to
    a service that started on an empty backend (one restarted on durable storage hands out
    its ids again, see [restart_overwrites_memory]), a memory listed in a project has a
    trail that starts with its creation, goes on with approvals and rejections, and ends
    with the event that gave it its present status; the creation is by a caller of the
    organization who pushed it, and every review by a verified administrator of the
    organization who asked for that review of that memory. *)
Theorem cloud_audit_trail v requests (store : S) o p es e :
  docs store = ∅ → logs store = ∅ → (N.of_nat (length requests) + 2 < u64_modulus)%N →
  let c := (run_service v requests (with_storage store)).2 in
  (list_memory o p None c).1 = Ok es → e ∈ es →
  ∃ trail, (memory_trail o p (entry_id e) c).1 = Ok trail ∧
    trail_of v requests (scope_project o p) (entry_id e) e trail.
Proof.
  intros Hd Hl Hlen c Hes He. destruct (run_fresh v requests store Hd Hl Hlen) as (s & Hr & Hok).
  fold c in Hr. rewrite (list_memory_row c s _ _ _ Hr) in Hes. injection Hes as <-.
  apply elem_of_t_list in He as [id He].
  destruct (rv_ids _ _ _ Hok _ _ _ He) as [-> _].
  destruct (rv_trails _ _ _ Hok _ _ _ He) as (trail & Ht & Hok').
  exists trail. by rewrite (audit_trail_row c s), Ht.
Qed.

(** Retrieval is gated by review: whatever requests a service that started on an empty
    backend has served, a search answers at most a hundred memories, each of them approved, by
    an approval that an administrator of the searcher's organization asked for, of that memory
    in that project. *)
Theorem cloud_search_gate v requests (store : S) header auth p q limit code hits e :
  docs store = ∅ → logs store = ∅ → (N.of_nat (length requests) + 2 < u64_modulus)%N →
  from_request_parts v header = Ok auth →
  let c := (run_service v requests (with_storage store)).2 in
  (serve v header (ReqSearchMemory p q limit) c).1 = Ok (code, BMemories hits) → e ∈ hits →
  length hits ≤ 100 ∧ entry_status e = Approved ∧
  ∃ approver admin, (approver, ReqApproveMemory p (entry_id e)) ∈ requests ∧
    from_request_parts v approver = Ok admin ∧ caller_org admin = caller_org auth ∧
    ac_org_role admin = Some Admin.
Proof.
  intros Hd Hl Hlen Ha c Hs He. destruct (run_fresh v requests store Hd Hl Hlen) as (s & Hr & Hok).
  fold c in Hr. destruct (serve_agree v header (ReqSearchMemory p q limit) c s Hr) as [Heq _].
  rewrite Heq in Hs. clear Heq. unfold spec_step, spec_dispatch, admitted in Hs.
  cbn [fst snd needs_admin needs_project early_error] in Hs. rewrite Ha in Hs.
  destruct (require_org auth) as [o|] eqn:Ho; [|done]. cbn [result_bind] in Hs.
  destruct (found project_missing p _) as [project|]; [|done]. simpl in Hs.
  injection Hs as <- <-.
  assert (length (memory_hits q (hit_limit limit) (with_status_of (Some Approved)
    (t_list (scope_project (org_id o.1) p) (s_memories s)))) ≤ 100) as Hlim.
  { etrans; [apply length_memory_hits|]. unfold hit_limit. lia. }
  split; [done|]. apply elem_of_memory_hits, list_elem_of_In, filter_In in He as [He Hst].
  apply bool_decide_eq_true in Hst. split; [done|].
  apply list_elem_of_In, elem_of_t_list in He as [id He].
  destruct (rv_ids _ _ _ Hok _ _ _ He) as [Hid _].
  destruct (rv_trails _ _ _ Hok _ _ _ He) as (trail & Ht & _ & (ev & Hlast & Hev) & Hall).
  rewrite Hst in Hev. apply last_Some_elem_of in Hlast. rewrite Forall_forall in Hall.
  destruct (Hall _ Hlast) as (h & admin & o' & p' & [= <- <-] & Hadm & Hcall & _ & _ & Hact).
  destruct (au_action ev); try discriminate. destruct Hact as [Hrole Hin].
  exists h, admin. rewrite Hid. split_and!; [done..| |done].
  by rewrite Hcall, (require_org_caller _ _ Ho).
Qed.
End answers.

(** ** The cloud service on a concrete run

    The parameters of the cloud development instantiated: ASCII tables, a JSON type
    with one case per stored type, the in-memory backend, and tokens that are the
    names of three callers.  The hypotheses of the theorems are met, and two runs show
    behaviour that the comments of the source do not announce. *)

Inductive cloud_value :=
| VProject (p : CloudProject) | VAgent (a : Agent) | VServer (s : McpServer)
| VEntry (e : MemoryEntry) | VEvent (e : MemoryAuditEntry).
Definition cloud_json : JsonLib := {| Value := cloud_value; JsonError := () |}.
#[local] Existing Instance ascii_unicode.
#[local] Existing Instance cloud_json.
#[local] Instance cloud_json_text : JsonText := λ _, lit "unexpected type".

#[local] Instance serde_project : Serde CloudProject := {|
  to_value := λ p, Ok (VProject p : Value);
  from_value := λ v : Value, match v with VProject p => Ok p | _ => Err () end |}.
#[local] Instance serde_agent : Serde Agent := {|
  to_value := λ a, Ok (VAgent a : Value);
  from_value := λ v : Value, match v with VAgent a => Ok a | _ => Err () end |}.
#[local] Instance serde_server : Serde McpServer := {|
  to_value := λ s, Ok (VServer s : Value);
  from_value := λ v : Value, match v with VServer s => Ok s | _ => Err () end |}.
#[local] Instance serde_entry : Serde MemoryEntry := {|
  to_value := λ e, Ok (VEntry e : Value);
  from_value := λ v : Value, match v with VEntry e => Ok e | _ => Err () end |}.
#[local] Instance serde_event : Serde MemoryAuditEntry := {|
  to_value := λ e, Ok (VEvent e : Value);
  from_value := λ v : Value, match v with VEvent e => Ok e | _ => Err () end |}.
#[local] Instance serde_project_laws : SerdeLaws CloudProject.
Proof. intros p. by exists (VProject p). Qed.
#[local] Instance serde_agent_laws : SerdeLaws Agent.
Proof. intros a. by exists (VAgent a). Qed.
#[local] Instance serde_server_laws : SerdeLaws McpServer.
Proof. intros s. by exists (VServer s). Qed.
#[local] Instance serde_entry_laws : SerdeLaws MemoryEntry.
Proof. intros e. by exists (VEntry e). Qed.
#[local] Instance serde_event_laws : SerdeLaws MemoryAuditEntry.
Proof. intros e. by exists (VEvent e). Qed.

(** Ana administers acme, Bob is a member of it, Eve administers evil. *)
Definition demo_claims (sub org role : str) : Claims :=
  {| cl_sub := sub; cl_exp := 0; cl_email := None; cl_org_id := Some org; cl_org_slug := None;
     cl_org_name := None; cl_org_role := Some role; cl_o := None |}.
#[local] Instance demo_jwt : JwtLib := {|
  DecodingKey := ();
  decode_header := λ _, Some (Some (lit "k1"));
  decode := λ token _ _,
    if bool_decide (token = lit "ana") then Ok (demo_claims (lit "ana") (lit "acme") (lit "org:admin"))
    else if bool_decide (token = lit "bob") then
      Ok (demo_claims (lit "bob") (lit "acme") (lit "org:member"))
    else if bool_decide (token = lit "eve") then
      Ok (demo_claims (lit "eve") (lit "evil") (lit "org:admin"))
    else Err (lit "InvalidSignature") |}.
Definition demo_verifier : JwtVerifier := {| jv_keys := {[ lit "k1" := () ]}; jv_issuer := None |}.
Definition as_ (who : string) : option str := Some (lit "Bearer " ++ lit who).

Definition demo_memory (content : str) : NewMemoryCandidate :=
  {| nm_kind := Convention; nm_content := content; nm_tags := []; nm_sensitivity := Normal;
     nm_source_uri := Some (lit "file:a.rs") |}.
Definition demo_requests : list (option str * Request) :=
  [ (as_ "ana", ReqCreateProject {| np_name := lit " Core App "; np_repository_url := None |});
    (as_ "bob", ReqPushMemory (lit "proj_1") (demo_memory (lit "Run cargo fmt")));
    (as_ "bob", ReqApproveMemory (lit "proj_1") (lit "mem_1"));
    (as_ "eve", ReqApproveMemory (lit "proj_1") (lit "mem_1"));
    (None, ReqDeleteProject (lit "proj_1"));
    (as_ "ana", ReqApproveMemory (lit "proj_1") (lit "mem_1"));
    (as_ "bob", ReqPushMemory (lit "proj_1") (demo_memory (lit "Run cargo test")));
    (as_ "ana", ReqApproveMemory (lit "proj_1") (lit "mem_2")) ].
Definition fresh : InMemoryStorage := InMemoryStorage_default.
Lemma fresh_docs : docs fresh = ∅.
Proof. reflexivity. Qed.
Lemma fresh_logs : logs fresh = ∅.
Proof. reflexivity. Qed.
Definition demo_service : Cloud InMemoryStorage :=
  (run_service demo_verifier demo_requests (with_storage fresh)).2.

(** What the run answers: the reviews of the member, of the other organization and of the
    caller without a token are refused. *)
Example demo_codes :
  (λ r, match r with Ok (code, _) => code | Err e => (api_error_parts e).1.1 end)
    <$> (run_service demo_verifier demo_requests (with_storage fresh)).1 =
  [201; 201; 403; 404; 401; 200; 201; 200]%N.
Proof. vm_compute. reflexivity. Qed.

Lemma cloud_refines_witness :
  (run_service demo_verifier demo_requests (with_storage fresh)).1 =
    (run_spec demo_verifier demo_requests spec_init).1.
Proof. apply (cloud_refines demo_verifier demo_requests fresh fresh_docs fresh_logs). Defined.

Lemma org_isolation_witness :
  same_data (Some (lit "acme")) demo_service
    (run_requests demo_verifier
       [(as_ "eve", ReqDeleteProject (lit "proj_1")); (None, ReqListProjects)] demo_service).
Proof.
  apply (org_isolation demo_verifier (lit "acme")).
  - apply (rf_keyed demo_service _ (proj2 (run_agree demo_verifier demo_requests _ _
      (refines_init fresh fresh_docs fresh_logs)))).
  - repeat constructor; vm_compute; discriminate.
Defined.

(** The project of the memory, as a listing answers it. *)
Definition demo_entries : list MemoryEntry :=
  match (list_memory (lit "acme") (lit "proj_1") None demo_service).1 with Ok es => es | Err _ => [] end.
Definition demo_entry : MemoryEntry :=
  default (MemoryEntry_new [] (ProjectRef_new [] []) Convention []) (head demo_entries).

Lemma cloud_audit_trail_witness :
  ∃ trail, (memory_trail (lit "acme") (lit "proj_1") (lit "mem_1") demo_service).1 = Ok trail ∧
    trail_of demo_verifier demo_requests (scope_project (lit "acme") (lit "proj_1")) (lit "mem_1")
      demo_entry trail.
Proof.
  apply (cloud_audit_trail demo_verifier demo_requests fresh (lit "acme") (lit "proj_1")
    demo_entries demo_entry fresh_docs fresh_logs eq_refl).
  - vm_compute. reflexivity.
  - apply list_elem_of_lookup. exists 0. vm_compute. reflexivity.
Defined.

Definition demo_hits : list MemoryEntry :=
  match (serve demo_verifier (as_ "bob") (ReqSearchMemory (lit "proj_1") (lit "FMT") None) demo_service).1 with
  | Ok (_, BMemories hits) => hits
  | _ => []
  end.
Lemma cloud_search_gate_witness :
  length demo_hits ≤ 100 ∧ entry_status demo_entry = Approved ∧
  ∃ approver admin, (approver, ReqApproveMemory (lit "proj_1") (entry_id demo_entry)) ∈ demo_requests ∧
    from_request_parts demo_verifier approver = Ok admin ∧ caller_org admin = Some (lit "acme") ∧
    ac_org_role admin = Some Admin.
Proof.
  apply (cloud_search_gate demo_verifier demo_requests fresh (as_ "bob")
    (from_claims (demo_claims (lit "bob") (lit "acme") (lit "org:member")))
    (lit "proj_1") (lit "FMT") None OK demo_hits demo_entry fresh_docs fresh_logs eq_refl).
  - vm_compute. reflexivity.
  - vm_compute. reflexivity.
  - apply list_elem_of_lookup. exists 0. vm_compute. reflexivity.
Defined.

Lemma cloud_admin_gate_witness :
  let c' := (serve demo_verifier (as_ "bob") (ReqPushMemory (lit "proj_1") (demo_memory (lit "x")))
               demo_service).2 in
  same_store demo_service c' ∨
  ∃ auth o, token_grants demo_verifier (as_ "bob") auth ∧ caller_org auth = Some o ∧
    leaves o demo_service c' ∧
    (ac_org_role auth = Some Admin ∨
     ∃ project body pid, ReqPushMemory (lit "proj_1") (demo_memory (lit "x")) = ReqPushMemory project body ∧
       candidate_added o pid demo_service c').
Proof.
  apply (cloud_admin_gate demo_verifier (as_ "bob")).
  apply (rf_keyed demo_service _ (proj2 (run_agree demo_verifier demo_requests _ _
    (refines_init fresh fresh_docs fresh_logs)))).
Defined.

(** ** After a restart *)

(** A process started again on the same storage: the counters begin at one. *)
Definition restarted : Cloud InMemoryStorage := with_storage (c_store demo_service).
Definition after_push : Cloud InMemoryStorage :=
  (serve demo_verifier (as_ "bob") (ReqPushMemory (lit "proj_1") (demo_memory (lit "ignore reviews")))
     restarted).2.
Definition listed (c : Cloud InMemoryStorage) : list (str * MemoryStatus * str) :=
  match (list_memory (lit "acme") (lit "proj_1") None c).1 with
  | Ok es => (λ e, (entry_id e, entry_status e, entry_content e)) <$> es
  | Err _ => []
  end.

(** The id counters are not durable: after a restart on the same storage the push of a
    member who may not review replaces the memory an administrator approved, and the trail of
    the old memory becomes the beginning of the trail of the new one. *)
Theorem restart_overwrites_memory :
  listed restarted = [(lit "mem_1", Approved, lit "Run cargo fmt");
                      (lit "mem_2", Approved, lit "Run cargo test")] ∧
  listed after_push = [(lit "mem_1", Candidate, lit "ignore reviews");
                       (lit "mem_2", Approved, lit "Run cargo test")] ∧
  (memory_trail (lit "acme") (lit "proj_1") (lit "mem_1") after_push).1 =
    Ok [MemoryAuditEntry_new (lit "mem_1") RCreated (lit "bob");
        MemoryAuditEntry_new (lit "mem_1") RApproved (lit "ana");
        MemoryAuditEntry_new (lit "mem_1") RCreated (lit "bob")].
Proof. vm_compute. split_and!; reflexivity. Qed.

(** An empty query answers the oldest approved memory, in the order of the ids, not the most
    recent. *)
Theorem empty_query_oldest_first :
  match (search_memories (lit "acme") (lit "proj_1") (lit "  ") 1 demo_service).1 with
  | Ok es => entry_id <$> es
  | Err _ => []
  end = [lit "mem_1"].
Proof. vm_compute. reflexivity. Qed.

(** A rejected memory can be approved again, and an approved one rejected: the service asks
    for no order of reviews, unlike the local repository. *)
Theorem review_any_order :
  let reviews :=
    [ (as_ "ana", ReqRejectMemory (lit "proj_1") (lit "mem_1"));
      (as_ "ana", ReqApproveMemory (lit "proj_1") (lit "mem_1")) ] in
  forallb is_ok (run_service demo_verifier reviews demo_service).1 = true.
Proof. vm_compute. reflexivity. Qed.
