(* ===== verification/Turn.v ===== *)
(** * The agent turn loop ([codel00p-harness/src/agent/turn.rs], [turn/hooks.rs])

    A turn alternates inferences and batches of tool calls until the model stops
    calling tools.  Everything outside the loop (the model, the permission policy,
    the tools, hooks, providers of context, the cancel flag) is the environment: it
    answers as an arbitrary function of the actions the turn has taken so far, so a
    theorem holds for every behaviour, time-dependent or not.  The actions are kept
    in the state, newest first.  Errors and panics stop the turn. *)

From stdpp Require Import base numbers strings gmap list.
From S2P Require Import Prelude RustStr Json ProviderRequest Protocol Harness ErrorClassify SelfCorrect.
From S2P Require Import ToolRegistry Verify Prompts Truncation IterationBudget ErrorClassify.

Definition DEFAULT_COMPACTION_RECENT_MESSAGES : nat := 4.

(** ** Requests and responses ([codel00p-harness/src/turn.rs]) *)

Record HarnessInferenceRequest := {
  req_session_state : SessionState;
  req_workspace_root : option str;
  req_tools : list ToolSpec;
  req_tool_choice : option ToolChoice;
  req_response_format : option ResponseFormat;
  req_context_window : option ContextWindowState;
  req_persona : option str;
  req_agent_self : option str;
  req_curated_memory : option str;
  req_base_prompt : option str;
  req_project_instructions : option ProjectInstructions;
  req_project_memory : option ProjectMemoryContext;
  req_skills : option SkillContext;
  req_workspace_context : option str;
}.
Definition req_tool_names (r : HarnessInferenceRequest) : list str := spec_name <$> req_tools r.

Record HarnessInferenceResponse := {
  resp_provider : str;
  resp_model : str;
  resp_assistant_message : option str;
  resp_tool_calls : list ToolCall;
  resp_finish_reason : option str;
  resp_usage : option TokenUsage;
  resp_cost : option CostEstimate;
}.

Record TurnOutcome := {
  out_assistant_message : option str;
  out_tool_calls : list ExecutedToolCall;
  out_events : list AgentEvent;
  out_session_state : SessionState;
  out_cancelled : bool;
}.

(** ** What a turn does to its environment *)

Inductive action :=
| DidHook (hook : str) (index message_count : nat) (tool : option str)
| DidPollCancel
| DidSetSelf (state : AgentSelfState)
| DidLoadInstructions
| DidRetrieveMemory (request : ProjectMemoryRequest)
| DidSelectSkills (request : SkillSelectionRequest)
| DidInfer (request : HarnessInferenceRequest)
| DidDecide (requests : list PermissionRequest)
| DidExecute (calls : list ToolCall)
| DidCheck (input : Value)
| DidPersist (label text : str)
| DidExtract (what : str).

Abbreviation history := (list action).
(** The moment a call of a concurrent batch runs at: the past and its place. *)
Abbreviation moment := (prod history nat).

Section types.
Context (MemoryCand SkillProposal Capability : Type).

(** The configuration and collaborators of [AgentHarness]. *)
Record AgentHarness := {
  h_infer : history → HarnessInferenceRequest → result HarnessError HarnessInferenceResponse;
  h_workspace_root : str;
  h_tools : ToolRegistry moment;
  h_decide : history → nat → PermissionRequest → result HarnessError PermissionDecision;
  h_hooks : list (history → str → result HarnessError unit);
  h_load_instructions : history → result HarnessError ProjectInstructions;
  h_memory_provider :
    option (history → ProjectMemoryRequest → result HarnessError ProjectMemoryContext);
  h_skill_provider : option (history → SkillSelectionRequest → result HarnessError SkillContext);
  h_memory_extractor : option (history → option str → nat → result HarnessError (list MemoryCand));
  h_memory_recommender :
    option (history → str → option str → list str → result HarnessError (list MemoryCand));
  h_memory_sink : option (history → list MemoryCand → result HarnessError unit);
  h_skill_extractor :
    option (history → str → option str → list str → result HarnessError (list SkillProposal));
  h_skill_sink : option (history → SkillProposal → result HarnessError unit);
  h_capability_extractor :
    option (history → str → option str → list ExecutedToolCall →
            result HarnessError (option Capability));
  h_capability_sink : option (history → Capability → result HarnessError unit);
  h_context_window : option ContextWindowState;
  h_agent_self : option AgentSelfContext;
  h_persona : option str;
  h_curated_memory : option str;
  h_base_prompt : option str;
  h_workspace_context : option (history → list ExecutedToolCall → option str);
  h_plan_store : option (history → list PlanItem);
  h_max_iterations : N;
  h_truncation : ToolOutputTruncation;
  h_persist : history → str → str → option str;
  h_tool_choice : option ToolChoice;
  h_response_format : option ResponseFormat;
  h_cancelled : history → bool;
  h_detected_test : history → bool;
  h_verify : VerifyConfig;
  h_self_correct : SelfCorrectConfig;
}.
End types.
Arguments AgentHarness : clear implicits.

(** ** The state of a turn and its effects *)

Record TurnState := {
  ts_session : SessionState;
  ts_events : list AgentEvent;
  ts_executed : list ExecutedToolCall;
  ts_usage : option TokenUsage;
  ts_cost : option CostEstimate;
  ts_verify : VerifyState;
  ts_tracker : FailureTracker;
  ts_budget : IterationBudget;
  ts_event_counter : N;
  ts_past : history;
}.

Inductive failure := Failed (e : HarnessError) | Panicked | OutOfFuel.
Abbreviation op := (st TurnState failure).

Definition set_session (x : SessionState) (s : TurnState) : TurnState :=
  {| ts_session := x; ts_events := ts_events s; ts_executed := ts_executed s;
     ts_usage := ts_usage s; ts_cost := ts_cost s; ts_verify := ts_verify s;
     ts_tracker := ts_tracker s; ts_budget := ts_budget s;
     ts_event_counter := ts_event_counter s; ts_past := ts_past s |}.
Definition add_event (session : SessionId) (turn : TurnId) (e : turn_event) (s : TurnState)
    : TurnState :=
  {| ts_session := ts_session s;
     ts_events := ts_events s ++
       [TurnEvent (lit "event-" ++ show_N (ts_event_counter s)) session turn e];
     ts_executed := ts_executed s;
     ts_usage := ts_usage s; ts_cost := ts_cost s; ts_verify := ts_verify s;
     ts_tracker := ts_tracker s; ts_budget := ts_budget s;
     ts_event_counter := u64_add (ts_event_counter s) 1; ts_past := ts_past s |}.
Definition add_executed (c : ExecutedToolCall) (s : TurnState) : TurnState :=
  {| ts_session := ts_session s; ts_events := ts_events s; ts_executed := ts_executed s ++ [c];
     ts_usage := ts_usage s; ts_cost := ts_cost s; ts_verify := ts_verify s;
     ts_tracker := ts_tracker s; ts_budget := ts_budget s;
     ts_event_counter := ts_event_counter s; ts_past := ts_past s |}.
Definition set_totals (u : option TokenUsage) (c : option CostEstimate) (s : TurnState)
    : TurnState :=
  {| ts_session := ts_session s; ts_events := ts_events s; ts_executed := ts_executed s;
     ts_usage := u; ts_cost := c; ts_verify := ts_verify s;
     ts_tracker := ts_tracker s; ts_budget := ts_budget s;
     ts_event_counter := ts_event_counter s; ts_past := ts_past s |}.
Definition set_verify (v : VerifyState) (s : TurnState) : TurnState :=
  {| ts_session := ts_session s; ts_events := ts_events s; ts_executed := ts_executed s;
     ts_usage := ts_usage s; ts_cost := ts_cost s; ts_verify := v;
     ts_tracker := ts_tracker s; ts_budget := ts_budget s;
     ts_event_counter := ts_event_counter s; ts_past := ts_past s |}.
Definition set_tracker (t : FailureTracker) (s : TurnState) : TurnState :=
  {| ts_session := ts_session s; ts_events := ts_events s; ts_executed := ts_executed s;
     ts_usage := ts_usage s; ts_cost := ts_cost s; ts_verify := ts_verify s;
     ts_tracker := t; ts_budget := ts_budget s;
     ts_event_counter := ts_event_counter s; ts_past := ts_past s |}.
Definition set_budget (b : IterationBudget) (s : TurnState) : TurnState :=
  {| ts_session := ts_session s; ts_events := ts_events s; ts_executed := ts_executed s;
     ts_usage := ts_usage s; ts_cost := ts_cost s; ts_verify := ts_verify s;
     ts_tracker := ts_tracker s; ts_budget := b;
     ts_event_counter := ts_event_counter s; ts_past := ts_past s |}.
Definition add_action (a : action) (s : TurnState) : TurnState :=
  {| ts_session := ts_session s; ts_events := ts_events s; ts_executed := ts_executed s;
     ts_usage := ts_usage s; ts_cost := ts_cost s; ts_verify := ts_verify s;
     ts_tracker := ts_tracker s; ts_budget := ts_budget s;
     ts_event_counter := ts_event_counter s; ts_past := a :: ts_past s |}.

Definition modify (f : TurnState → TurnState) : op unit := λ s, (Ok tt, f s).
Definition gets {A} (f : TurnState → A) : op A := λ s, (Ok (f s), s).
(** Take an action: the past, the action included, is what the environment
    answers from. *)
Definition act (a : action) : op history := λ s, (Ok (a :: ts_past s), add_action a s).
Definition raise {A} (e : HarnessError) : op A := st_err (Failed e).
(** The [?] operator, and a computation that may panic. *)
Definition try_ {A} (r : result HarnessError A) : op A := st_lift (map_err Failed r).
Definition or_panic {A} (o : option A) : op A :=
  match o with Some a => st_ret a | None => st_err Panicked end.
Definition push_msg (m : SessionMessage) : op unit :=
  modify (λ s, set_session (push_message m (ts_session s)) s).

Fixpoint for_each {A} (f : A → op unit) (l : list A) : op unit :=
  match l with [] => st_ret tt | x :: l => do! f x in for_each f l end.
(** The elements with their indices. *)
Definition enumerate {A} (l : list A) : list (nat * A) := imap (λ i x, (i, x)) l.

(** [budget.consume()]: no other thread shares this budget. *)
Definition consume : op bool := λ s,
  match run_budget [(0, LoadConsume (used (ts_budget s))); (0, Loop)] (ts_budget s) with
  | Some ([_; Granted], b) => (Ok true, set_budget b s)
  | Some (_, b) => (Ok false, set_budget b s)
  | None => (Err OutOfFuel, s)
  end.

(** ** The turn *)

Section turn.
Context `{SerdeJson} `{Sha256} {MemoryCand SkillProposal Capability : Type}.
Context (h : AgentHarness MemoryCand SkillProposal Capability) (turn_id : TurnId).

Definition record_event (e : turn_event) : op unit :=
  modify (λ s, add_event (session_id (ts_session s)) turn_id e s).

Definition message_count : op nat := gets (λ s, length (messages (ts_session s))).

(** *** Hooks *)

Definition run_hook (hook_name : str) (tool : option str)
    (hook : nat * (history → str → result HarnessError unit)) : op unit :=
  let! count := message_count in
  let! past := act (DidHook hook_name hook.1 count tool) in
  match hook.2 past hook_name with
  | Ok _ => st_ret tt
  | Err error => record_event (LifecycleHookFailed hook_name (error_to_string error))
  end.
Definition run_lifecycle_hook (hook_name : str) : op unit :=
  for_each (run_hook hook_name None) (enumerate (h_hooks _ _ _ h)).
Definition run_post_tool_hook (tool_name : str) : op unit :=
  for_each (run_hook (lit "post_tool") (Some tool_name)) (enumerate (h_hooks _ _ _ h)).

Definition compact_context_if_needed : op unit :=
  match h_context_window _ _ _ h with
  | None => st_ret tt
  | Some context_window =>
      let! count := message_count in
      if negb (is_at_blocking_limit context_window) ||
         (count <=? DEFAULT_COMPACTION_RECENT_MESSAGES + 1)
      then st_ret tt
      else
        do! run_lifecycle_hook (lit "pre_compact") in
        let! session := gets ts_session in
        let! summary := or_panic (summarize_compacted_messages (messages session)
                                    DEFAULT_COMPACTION_RECENT_MESSAGES) in
        let '(record, session) :=
          compact_with_summary summary DEFAULT_COMPACTION_RECENT_MESSAGES session in
        do! modify (set_session session) in
        record_event (ContextCompacted (before_message_count record) (after_message_count record)
                        (Some summary))
  end.

(** *** Post-turn extraction: failures become events, never errors *)

Definition hook_failed (hook : str) (e : HarnessError) : op unit :=
  record_event (LifecycleHookFailed hook (error_to_string e)).

Definition persist_candidates (candidates : list MemoryCand)
    (sink : history → list MemoryCand → result HarnessError unit) : op unit :=
  if is_empty candidates then st_ret tt else
  let! past := act (DidExtract (lit "memory_candidate_sink")) in
  match sink past candidates with
  | Err error => hook_failed (lit "memory_candidate_sink") error
  | Ok _ => st_ret tt
  end.

Definition extract_memory_candidates (assistant_message : option str) : op unit :=
  match h_memory_extractor _ _ _ h, h_memory_sink _ _ _ h with
  | Some extractor, Some sink =>
      let! count := message_count in
      let! past := act (DidExtract (lit "memory_extraction")) in
      match extractor past assistant_message count with
      | Err error => hook_failed (lit "memory_extraction") error
      | Ok candidates => persist_candidates candidates sink
      end
  | _, _ => st_ret tt
  end.

Definition recommend_memory_candidates (goal : str) (assistant_message : option str)
    (tool_calls : list str) : op unit :=
  match h_memory_recommender _ _ _ h, h_memory_sink _ _ _ h with
  | Some recommender, Some sink =>
      let! past := act (DidExtract (lit "memory_recommendation")) in
      match recommender past goal assistant_message tool_calls with
      | Err error => hook_failed (lit "memory_recommendation") error
      | Ok candidates => persist_candidates candidates sink
      end
  | _, _ => st_ret tt
  end.

Definition extract_skill_candidates (goal : str) (assistant_message : option str)
    (tool_calls : list str) : op unit :=
  match h_skill_extractor _ _ _ h, h_skill_sink _ _ _ h with
  | Some extractor, Some sink =>
      let! past := act (DidExtract (lit "skill_extraction")) in
      match extractor past goal assistant_message tool_calls with
      | Err error => hook_failed (lit "skill_extraction") error
      | Ok proposals =>
          for_each (λ proposal,
            let! past := act (DidExtract (lit "skill_proposal")) in
            match sink past proposal with
            | Err error => hook_failed (lit "skill_proposal") error
            | Ok _ => st_ret tt
            end) proposals
      end
  | _, _ => st_ret tt
  end.

Definition extract_capability_candidate (goal : str) (assistant_message : option str)
    (calls : list ExecutedToolCall) : op unit :=
  match h_capability_extractor _ _ _ h, h_capability_sink _ _ _ h with
  | Some extractor, Some sink =>
      let! past := act (DidExtract (lit "capability_extraction")) in
      match extractor past goal assistant_message calls with
      | Err error => hook_failed (lit "capability_extraction") error
      | Ok None => st_ret tt
      | Ok (Some capability) =>
          let! past := act (DidExtract (lit "capability_proposal")) in
          match sink past capability with
          | Err error => hook_failed (lit "capability_proposal") error
          | Ok _ => st_ret tt
          end
      end
  | _, _ => st_ret tt
  end.

(** *** The inference request *)

Definition self_run_state (iteration : N) (usage : option TokenUsage)
    (plan : option (list PlanItem)) : AgentSelfState :=
  let '(completed, total) :=
    match plan with
    | Some items => if is_empty items then (None, None)
                    else (Some (count_status Completed items), Some (length items))
    | None => (None, None)
    end in
  {| st_iteration := Some iteration; st_max_iterations := Some (h_max_iterations _ _ _ h);
     st_context_used_tokens :=
       (λ u, u64_add (u64_add (u64_add (input_tokens u) (output_tokens u)) (cache_read_tokens u))
               (cache_write_tokens u)) <$> usage;
     st_context_window_tokens := context_limit_tokens <$> h_context_window _ _ _ h;
     st_plan_completed := completed; st_plan_total := total |}.

Definition agent_self_block (iteration : N) : op (option str) :=
  match h_agent_self _ _ _ h with
  | None => st_ret None
  | Some context =>
      let! past := gets ts_past in
      let! usage := gets ts_usage in
      let plan := (λ current, current past) <$> h_plan_store _ _ _ h in
      let state := self_run_state iteration usage plan in
      do! act (DidSetSelf state) in
      st_ret (self_prompt context state)
  end.

Definition project_memory_block : op (option ProjectMemoryContext) :=
  match h_memory_provider _ _ _ h with
  | None => st_ret None
  | Some provider =>
      let! session := gets ts_session in
      let request := ProjectMemoryRequest_for (session_id session) turn_id
                       (length (messages session)) (latest_user_message session) in
      let! past := act (DidRetrieveMemory request) in
      let! memory := try_ (provider past request) in
      st_ret (if is_empty (items memory) then None else Some memory)
  end.

Definition skills_block : op (option SkillContext) :=
  match h_skill_provider _ _ _ h with
  | None => st_ret None
  | Some provider =>
      let! session := gets ts_session in
      let request := {| ssr_session_id := session_id session; ssr_turn_id := turn_id;
                        ssr_message_count := length (messages session);
                        ssr_query := latest_user_message session |} in
      let! past := act (DidSelectSkills request) in
      let! context := try_ (provider past request) in
      st_ret (if is_empty (skills context) then None else Some context)
  end.

Definition build_request (iteration : N) : op HarnessInferenceRequest :=
  let! session := gets ts_session in
  let! agent_self := agent_self_block iteration in
  let! past := act DidLoadInstructions in
  let! loaded := try_ (h_load_instructions _ _ _ h past) in
  let! memory := project_memory_block in
  let! selected := skills_block in
  let! past := gets ts_past in
  let! executed := gets ts_executed in
  st_ret {|
    req_session_state := session;
    req_workspace_root := Some (h_workspace_root _ _ _ h);
    req_tools := advertised_specs (h_tools _ _ _ h);
    req_tool_choice := h_tool_choice _ _ _ h;
    req_response_format := h_response_format _ _ _ h;
    req_context_window := h_context_window _ _ _ h;
    req_persona := h_persona _ _ _ h;
    req_agent_self := agent_self;
    req_curated_memory := h_curated_memory _ _ _ h;
    req_base_prompt := h_base_prompt _ _ _ h;
    req_project_instructions := if is_empty (instructions loaded) then None else Some loaded;
    req_project_memory := memory;
    req_skills := selected;
    req_workspace_context := h_workspace_context _ _ _ h ≫= λ gather, gather past executed |}.

Definition manifest_event (r : HarnessInferenceRequest) : turn_event :=
  context_manifest
    (default [] (sources <$> req_project_instructions r))
    (default [] ((λ m, item_id <$> items m) <$> req_project_memory r))
    (req_tool_names r)
    (default [] ((λ c, skill_name <$> skills c) <$> req_skills r))
    (length (messages (req_session_state r))).

(** *** Usage totals *)

Definition accumulate (response : HarnessInferenceResponse) : op unit :=
  modify (λ s, set_totals
    (match resp_usage response with
     | Some usage => Some (usage_add (default TokenUsage_default (ts_usage s)) usage)
     | None => ts_usage s
     end)
    (match resp_cost response with
     | Some cost => Some (cost_add (default CostEstimate_default (ts_cost s)) cost)
     | None => ts_cost s
     end) s).

Definition infer (iteration : N) : op HarnessInferenceResponse :=
  do! run_lifecycle_hook (lit "pre_inference") in
  let! request := build_request iteration in
  do! record_event (manifest_event request) in
  let! past := act (DidInfer request) in
  let! response := try_ (h_infer _ _ _ h past request) in
  do! record_event (InferenceRequested (resp_provider response) (resp_model response)) in
  do! accumulate response in
  do! record_event (InferenceCompleted (resp_finish_reason response) (resp_usage response)
                      (resp_cost response)) in
  st_ret response.

(** *** Ending a turn *)

Definition finish_cancelled (iterations : N) : op TurnOutcome :=
  do! run_lifecycle_hook (lit "turn_completed") in
  let! s := gets id in
  do! record_event (TurnCompleted iterations (ts_usage s) (ts_cost s) None) in
  let! s := gets id in
  st_ret {| out_assistant_message := None; out_tool_calls := ts_executed s;
            out_events := ts_events s; out_session_state := ts_session s;
            out_cancelled := true |}.

Definition critique_completed (produced_tool_calls : bool) : op unit :=
  let! v := gets ts_verify in
  if critique_pending v then
    do! modify (set_verify (clear_critique_pending v)) in
    record_event (SelfCritiqueCompleted produced_tool_calls)
  else st_ret tt.

(** The verification phase runs checks and records in the state of the turn. *)
Definition run_check (input : Value) (s : TurnState) : result HarnessError ToolResult * TurnState :=
  let s := add_action (DidCheck input) s in
  (execute (lit "run_checks") (ts_past s, 0) input (h_tools _ _ _ h), s).
Definition record_in (e : turn_event) (s : TurnState) : TurnState :=
  add_event (session_id (ts_session s)) turn_id e s.
Definition push_in (m : SessionMessage) (s : TurnState) : TurnState :=
  set_session (push_message m (ts_session s)) s.

Definition done_phase : op DonePhase := λ s,
  let '(phase, v, s) :=
    verify_before_done run_check record_in push_in (h_verify _ _ _ h)
      (bool_decide (lit "run_checks" ∈ names (h_tools _ _ _ h)))
      (h_detected_test _ _ _ h (ts_past s)) (ts_executed s) (ts_verify s) s in
  (Ok phase, set_verify v s).

Definition complete_turn (iteration : N) (assistant_message : option str) (verified : option bool)
    : op TurnOutcome :=
  do! extract_memory_candidates assistant_message in
  let! s := gets id in
  let goal := latest_user_message (ts_session s) in
  do! recommend_memory_candidates goal assistant_message (exec_name <$> ts_executed s) in
  do! extract_skill_candidates goal assistant_message (exec_name <$> ts_executed s) in
  do! extract_capability_candidate goal assistant_message (ts_executed s) in
  do! run_lifecycle_hook (lit "turn_completed") in
  do! record_event (TurnCompleted iteration (ts_usage s) (ts_cost s) verified) in
  let! s := gets id in
  st_ret {| out_assistant_message := assistant_message; out_tool_calls := ts_executed s;
            out_events := ts_events s; out_session_state := ts_session s;
            out_cancelled := false |}.

(** *** Batches of tool calls *)

Definition is_safe (c : ToolCall) : bool :=
  is_concurrency_safe (call_name c) (call_input c) (h_tools _ _ _ h).

(** The calls that satisfy [p] at the front, and the rest. *)
Fixpoint span {A} (p : A → bool) (l : list A) : list A * list A :=
  match l with
  | [] => ([], [])
  | x :: l' => if p x then let '(a, b) := span p l' in (x :: a, b) else ([], l)
  end.
(** [tool_calls[index..end]] and what follows. *)
Definition next_batch (c : ToolCall) (rest : list ToolCall) : list ToolCall * list ToolCall :=
  if is_safe c then let '(a, b) := span is_safe rest in (c :: a, b) else ([c], rest).

Definition permission_request (session : SessionId) (c : ToolCall) : PermissionRequest :=
  PermissionRequest_new (lit "permission-" ++ call_id c) session turn_id (call_name c)
    (call_input c) (permission_scope (call_name c) (call_input c) (h_tools _ _ _ h)).

Definition denied_json (message : str) : ToolResult :=
  ToolResult_json (json_object [(lit "error", VString message);
                                (lit "error_kind", VString (lit "permission_denied"))]).

(** The loop over the decisions: the offsets denied with their results, and the
    runnable offsets; the first error of the policy ends the turn. *)
Fixpoint sort_decisions (l : list (nat * (ToolCall * result HarnessError PermissionDecision)))
    : op (list (nat * ToolResult) * list nat) :=
  match l with
  | [] => st_ret ([], [])
  | (offset, (c, decision)) :: l =>
      let! decision := try_ decision in
      if allows_execution decision then
        let! (denied, runnable) := sort_decisions l in
        st_ret (denied, offset :: runnable)
      else
        let message := default (lit "tool execution denied by permission policy")
                         (decision_message decision) in
        do! record_event (Harness.PermissionDenied (call_name c) (decision_request_id decision) message) in
        let! (denied, runnable) := sort_decisions l in
        st_ret ((offset, denied_json message) :: denied, runnable)
  end.

Definition started (c : ToolCall) : turn_event := ToolProgress (call_name c) (lit "started") None.

(** [join_all] of the executable calls: one result per call, in order. *)
Definition execute_all (calls : list ToolCall) : op (list (result HarnessError ToolResult)) :=
  match calls with
  | [] => st_ret []
  | _ =>
      do! for_each (λ c, record_event (started c)) calls in
      let! past := act (DidExecute calls) in
      st_ret (imap (λ i c, execute (call_name c) (past, i) (call_input c) (h_tools _ _ _ h)) calls)
  end.

(** The results in batch order. *)
Definition assemble_results (n : nat) (denied : list (nat * ToolResult)) (runnable : list nat)
    (results : list (result HarnessError ToolResult)) : list (result HarnessError ToolResult) :=
  let slots := replicate n None in
  let slots := foldl (λ slots d, <[d.1 := Some (Ok d.2)]> slots) slots denied in
  let slots := foldl (λ slots r, <[r.1 := Some r.2]> slots) slots (zip runnable results) in
  (λ slot, default
     (Ok (ToolResult_json (json_object
            [(lit "error", VString (lit "tool execution was not scheduled"))]))) slot) <$> slots.

(** One result: events, self-correction, truncation, transcript and record. *)

Definition report_result (c : ToolCall) (r : result HarnessError ToolResult) : op ToolResult :=
  match r with
  | Ok r =>
      do! for_each (λ p, record_event (ToolProgress (call_name c) (progress_phase p)
                                          (progress_message p))) (result_progress r) in
      do! record_event (ToolCallCompleted (call_name c)) in
      st_ret r
  | Err error =>
      let message := error_to_string error in
      do! record_event (ToolCallFailed (call_name c) message) in
      st_ret (ToolResult_json (json_object [(lit "error", VString message)]))
  end.

(** Accounting of a failure; the nudges it queues. *)
Definition count_failure (signature message : str) : op (list str) :=
  let config := h_self_correct _ _ _ h in
  let kind := (classify message).1 in
  let! tracker := gets ts_tracker in
  let graced := bool_decide (kind = InvalidInput) && (streak signature tracker =? 0)%N in
  if graced then st_ret [] else
  let '(attempts, tracker) := record_failure signature tracker in
  do! modify (set_tracker tracker) in
  if replan_on_failure config && (0 <? failure_budget config)%N &&
     (attempts =? failure_budget config)%N
  then
    do! record_event (FailureBudgetExceeded signature attempts (kind_as_str kind)) in
    let! nudge := or_panic (replan_nudge signature attempts message
                              (bool_decide (is_Some (h_plan_store _ _ _ h)))) in
    st_ret [nudge]
  else st_ret [].

Definition self_correct (c : ToolCall) (r : ToolResult) : op (ToolResult * list str) :=
  let signature := operation_signature (call_name c) (call_input c) in
  let content := result_content r in
  if result_is_failure content then
    let message := failure_message content in
    let r := if error_hints (h_self_correct _ _ _ h)
             then ToolResult_json (enrich_failure content message
                                     (input_schema (call_name c) (h_tools _ _ _ h)))
             else r in
    let! nudges := count_failure signature message in
    st_ret (r, nudges)
  else
    do! modify (λ s, set_tracker (record_success signature (ts_tracker s)) s) in
    st_ret (r, []).

(** Only an over-long output is written to a file. *)
Definition truncate_output (label text : str) : op str :=
  let! past := (if byte_len text <=? max_bytes (h_truncation _ _ _ h) then gets ts_past
                else act (DidPersist label text)) in
  or_panic (Truncation.apply (h_persist _ _ _ h past) (h_truncation _ _ _ h) label text).

Definition record_result (c : ToolCall) (r : result HarnessError ToolResult) : op (list str) :=
  let! r := report_result c r in
  let! (r, nudges) := self_correct c r in
  let! recorded := truncate_output (call_name c) (to_string (result_content r)) in
  do! push_msg (msg_tool_result (call_id c) (call_name c) recorded) in
  do! run_post_tool_hook (call_name c) in
  do! modify (add_executed {| exec_id := call_id c; exec_name := call_name c;
                              exec_input := call_input c; exec_result := r |}) in
  st_ret nudges.

Fixpoint record_results (l : list (ToolCall * result HarnessError ToolResult)) : op (list str) :=
  match l with
  | [] => st_ret []
  | (c, r) :: l =>
      let! nudges := record_result c r in
      let! more := record_results l in
      st_ret (nudges ++ more)
  end.

Definition run_batch (batch : list ToolCall) : op unit :=
  do! for_each (λ c, record_event (ToolCallRequested (call_name c))) batch in
  let! session := gets (λ s, session_id (ts_session s)) in
  let requests := permission_request session <$> batch in
  do! for_each (λ '(c, r), record_event (PermissionRequested (call_name c) (request_id r)
                                           (request_scope r))) (zip batch requests) in
  let! past := act (DidDecide requests) in
  let outcomes := imap (λ i r, h_decide _ _ _ h past i r) requests in
  let! (denied, runnable) := sort_decisions (enumerate (zip batch outcomes)) in
  let executable := omap (λ i, batch !! i) runnable in
  let! execution_results := execute_all executable in
  let results := assemble_results (length batch) denied runnable execution_results in
  let! nudges := record_results (zip batch results) in
  for_each (λ nudge, push_msg (msg_user nudge)) nudges.

(** [while index < tool_calls.len()]: each batch takes at least one call. *)
Fixpoint run_batches (fuel : nat) (calls : list ToolCall) : op unit :=
  match fuel, calls with
  | _, [] => st_ret tt
  | 0, _ => st_err OutOfFuel
  | S fuel, c :: rest =>
      let '(batch, rest) := next_batch c rest in
      do! run_batch batch in run_batches fuel rest
  end.

(** *** One iteration: [None] continues the loop *)

Definition poll_cancel : op bool :=
  let! past := act DidPollCancel in st_ret (h_cancelled _ _ _ h past).

(** The model did not call a tool. *)
Definition finish_or_continue (iteration : N) (response : HarnessInferenceResponse)
    : op (option TurnOutcome) :=
  let assistant_message := resp_assistant_message response in
  do! match assistant_message with
      | Some content => push_msg (msg_assistant content)
      | None => st_ret tt
      end in
  do! critique_completed false in
  let! phase := done_phase in
  match phase with
  | Continue => st_ret None
  | Complete verified =>
      let! outcome := complete_turn iteration assistant_message verified in
      st_ret (Some outcome)
  end.

(** The model called tools. *)
Definition run_tools (iteration : N) (calls : list ToolCall) : op (option TurnOutcome) :=
  let! cancelled := poll_cancel in
  if cancelled then
    let! outcome := finish_cancelled iteration in st_ret (Some outcome)
  else
    do! critique_completed true in
    do! push_msg (msg_assistant_tool_calls calls) in
    do! run_batches (length calls) calls in
    st_ret None.

Definition turn_iteration (iteration : N) : op (option TurnOutcome) :=
  let! cancelled := poll_cancel in
  if cancelled then
    let! outcome := finish_cancelled (u32_saturating_sub iteration 1) in st_ret (Some outcome)
  else
    let! response := infer iteration in
    let salvaged :=
      if is_empty (resp_tool_calls response) then
        text ← resp_assistant_message response;
        salvage_tool_call text (names (h_tools _ _ _ h))
      else None in
    match resp_tool_calls response, salvaged with
    | [], None => finish_or_continue iteration response
    | _, Some call => run_tools iteration [call]
    | calls, None => run_tools iteration calls
    end.

(** [while budget.consume()]. *)
Fixpoint turn_loop (fuel : nat) : op TurnOutcome :=
  match fuel with
  | 0 => st_err OutOfFuel
  | S fuel =>
      let! granted := consume in
      if granted then
        let! iteration := gets (λ s, used (ts_budget s)) in
        let! outcome := turn_iteration iteration in
        match outcome with
        | Some outcome => st_ret outcome
        | None => turn_loop fuel
        end
      else raise (IterationLimit (h_max_iterations _ _ _ h))
  end.

Definition start_turn (user_message : str) : op unit :=
  do! record_event TurnStarted in
  do! push_msg (msg_user user_message) in
  do! run_lifecycle_hook (lit "turn_started") in
  do! compact_context_if_needed in
  let! count := message_count in
  record_event (ContextBuilt count).

Definition initial_state (session : SessionState) (event_counter : N) (past : history)
    : TurnState :=
  {| ts_session := session; ts_events := []; ts_executed := []; ts_usage := None; ts_cost := None;
     ts_verify := VerifyState_new; ts_tracker := FailureTracker_new;
     ts_budget := IterationBudget_new (h_max_iterations _ _ _ h);
     ts_event_counter := event_counter; ts_past := past |}.

Definition turn_fuel : nat := S (N.to_nat (h_max_iterations _ _ _ h)).

Definition run_turn_with_state (session : SessionState) (user_message : str) (event_counter : N)
    (past : history) : result failure TurnOutcome * TurnState :=
  (do! start_turn user_message in turn_loop turn_fuel) (initial_state session event_counter past).

Definition run_turn (session : SessionId) (user_message : str) (event_counter : N)
    (past : history) : result failure TurnOutcome * TurnState :=
  run_turn_with_state (SessionState_new session) user_message event_counter past.

End turn.
