(* ===== verification/TurnFrame.v ===== *)
(** * Reasoning about turns: what each step can change

    Rules for the state-and-error monad ([always], [yields]) and the frame of every
    operation of the turn loop. *)

From stdpp Require Import base numbers strings gmap list.
From S2P Require Import Prelude RustStr Json Protocol Harness ErrorClassify SelfCorrect.
From S2P Require Import ToolRegistry Verify Prompts Truncation IterationBudget Turn ErrorClassify.

(** ** Rules *)

(** Whatever an operation returns, it relates the state before and after by [R]. *)
Definition always {A} (R : TurnState → TurnState → Prop) (m : op A) : Prop := ∀ s, R s (m s).2.
(** When it succeeds, its result and the two states satisfy [Q]. *)
Definition yields {A} (m : op A) (Q : A → TurnState → TurnState → Prop) : Prop :=
  ∀ s a s', m s = (Ok a, s') → Q a s s'.

Create HintDb turn.

Lemma st_bind_Ok {S E A B} (m : st S E A) (k : A → st S E B) s b s' :
  st_bind m k s = (Ok b, s') → ∃ a s1, m s = (Ok a, s1) ∧ k a s1 = (Ok b, s').
Proof. unfold st_bind. destruct (m s) as [[a|e] s1]; [eauto | done]. Qed.

Section always.
Context (R : TurnState → TurnState → Prop) `{!PreOrder R}.

Lemma always_ret {A} (a : A) : always R (st_ret a).
Proof. intros s. reflexivity. Qed.
Lemma always_err {A} e : always R (st_err (A := A) e).
Proof. intros s. reflexivity. Qed.
Lemma always_gets {A} (f : TurnState → A) : always R (gets f).
Proof. intros s. reflexivity. Qed.
Lemma always_try {A} (r : result HarnessError A) : always R (try_ r).
Proof. intros s. reflexivity. Qed.
Lemma always_raise {A} e : always R (raise (A := A) e).
Proof. intros s. reflexivity. Qed.
Lemma always_or_panic {A} (o : option A) : always R (or_panic o).
Proof. intros s. by destruct o. Qed.
Lemma always_bind {A B} (m : op A) (k : A → op B) :
  always R m → (∀ a, always R (k a)) → always R (st_bind m k).
Proof.
  intros Hm Hk s. unfold st_bind. specialize (Hm s). destruct (m s) as [[a|e] s1]; cbn in *; [|done].
  etransitivity; [exact Hm | apply Hk].
Qed.
Lemma always_for_each {A} (f : A → op unit) l :
  (∀ x, always R (f x)) → always R (for_each f l).
Proof.
  intros Hf. induction l as [|x l IH]; cbn; [apply always_ret|]. by apply always_bind.
Qed.
Lemma always_modify f : (∀ s, R s (f s)) → always R (modify f).
Proof. intros Hf s. apply Hf. Qed.
End always.

(** Solves [always R m] down to the primitive steps. *)
Ltac always_step :=
  match goal with
  | |- always _ (st_bind _ _) => apply always_bind; [apply _ | | intros ?]
  | |- always _ (st_ret _) => apply always_ret, _
  | |- always _ (st_err _) => apply always_err, _
  | |- always _ (gets _) => apply always_gets, _
  | |- always _ message_count => apply always_gets, _
  | |- always _ (try_ _) => apply always_try, _
  | |- always _ (raise _) => apply always_raise, _
  | |- always _ (or_panic _) => apply always_or_panic, _
  | |- always _ (for_each _ _) => apply always_for_each; [apply _ | intros ?]
  | |- always _ (modify _) => apply always_modify; intros ?
  | |- always _ (match ?x with _ => _ end) => destruct x
  | |- always _ (let '(_, _) := ?x in _) => destruct x
  end.
Ltac always_solve := repeat (first [solve [eauto with turn nocore] | always_step]).

Lemma yields_mono {A} (m : op A) (Q Q' : A → TurnState → TurnState → Prop) :
  yields m Q → (∀ a s s', Q a s s' → Q' a s s') → yields m Q'.
Proof. intros Hm HQ s a s' E. by apply HQ, Hm. Qed.
Lemma yields_always {A} (R : TurnState → TurnState → Prop) (m : op A) :
  always R m → yields m (λ _, R).
Proof. intros Hm s a s' E. specialize (Hm s). by rewrite E in Hm. Qed.

Lemma always_consume (R : TurnState → TurnState → Prop) `{!PreOrder R} :
  (∀ b s, R s (set_budget b s)) → always R consume.
Proof. intros Hb s. unfold consume. repeat case_match; cbn; try apply Hb. reflexivity. Qed.

(** ** What stays the same *)

(** Only events, their counter and the history change. *)
Record quiet (s s' : TurnState) : Prop := {
  quiet_session : ts_session s' = ts_session s;
  quiet_executed : ts_executed s' = ts_executed s;
  quiet_usage : ts_usage s' = ts_usage s;
  quiet_cost : ts_cost s' = ts_cost s;
  quiet_verify : ts_verify s' = ts_verify s;
  quiet_tracker : ts_tracker s' = ts_tracker s;
  quiet_budget : ts_budget s' = ts_budget s;
}.
#[export] Instance quiet_preorder : PreOrder quiet.
Proof.
  split; [by split|]. intros s1 s2 s3 [] []. split; congruence.
Qed.

(** A turn only moves forward: the session id stays, messages after the start,
    calls, events and actions only grow. *)
Record forward (s s' : TurnState) : Prop := {
  fwd_session_id : session_id (ts_session s') = session_id (ts_session s);
  fwd_messages : messages (ts_session s) `prefix_of` messages (ts_session s');
  fwd_executed : ts_executed s `prefix_of` ts_executed s';
  fwd_events : ts_events s `prefix_of` ts_events s';
  fwd_past : ts_past s `suffix_of` ts_past s';
}.
#[export] Instance forward_preorder : PreOrder forward.
Proof.
  split; [by split|]. intros s1 s2 s3 [] []. split; try congruence; by etransitivity.
Qed.

(** Actions that matter to the theorems; the others are bookkeeping. *)
Definition is_core (a : action) : bool :=
  match a with
  | DidInfer _ | DidDecide _ | DidExecute _ | DidCheck _ | DidPollCancel => true
  | _ => false
  end.

(** The events that carry the usage of one inference. *)
Definition is_tally (e : turn_event) : bool :=
  match e with InferenceCompleted _ _ _ => true | _ => false end.

(** A relation that recording other events and bookkeeping actions respects. *)
Class AuxRel (R : TurnState → TurnState → Prop) : Prop := {
  aux_preorder :: PreOrder R;
  aux_event : ∀ session turn e s, is_tally e = false → R s (add_event session turn e s);
  aux_action : ∀ a s, is_core a = false → R s (add_action a s);
}.

#[export] Instance quiet_aux : AuxRel quiet.
Proof. split; [apply _ | by split..]. Qed.
#[export] Instance forward_aux : AuxRel forward.
Proof.
  split; [apply _| |].
  - intros. split; cbn; try done. by apply prefix_app_r.
  - intros. split; cbn; try done. by apply suffix_cons_r.
Qed.

(** The core actions of a history. *)
Definition core (past : history) : history := List.filter is_core past.
(** No core action was taken. *)
Definition core_kept (s s' : TurnState) : Prop := core (ts_past s') = core (ts_past s).
#[export] Instance core_kept_aux : AuxRel core_kept.
Proof.
  split.
  - split; [done|]. intros s1 s2 s3. unfold core_kept. congruence.
  - done.
  - intros a s Ha. unfold core_kept, core; cbn. by rewrite Ha.
Qed.

(** An invariant of the history that bookkeeping actions keep. *)
Definition preserves (P : TurnState → Prop) (s s' : TurnState) : Prop := P s → P s'.
#[export] Instance preserves_preorder P : PreOrder (preserves P).
Proof. split; unfold preserves; [firstorder|]. intros s1 s2 s3. firstorder. Qed.

Section frame.
Context `{SerdeJson} `{Sha256} {MemoryCand SkillProposal Capability : Type}.
Context (h : AgentHarness MemoryCand SkillProposal Capability) (turn_id : TurnId).
Context (R : TurnState → TurnState → Prop) `{!AuxRel R}.

Lemma aux_record_event e : is_tally e = false → always R (record_event turn_id e).
Proof. intros He s. by apply aux_event. Qed.
Lemma aux_act a : is_core a = false → always R (act a).
Proof. intros Ha s. by apply aux_action. Qed.
Hint Extern 1 (always _ (record_event _ _)) => (apply aux_record_event; reflexivity) : turn.
Hint Extern 1 (always _ (act _)) => (apply aux_act; reflexivity) : turn.

Lemma aux_run_hook name tool hook : always R (run_hook turn_id name tool hook).
Proof. unfold run_hook. always_solve. Qed.
Hint Resolve aux_run_hook : turn.
Lemma aux_lifecycle name : always R (run_lifecycle_hook h turn_id name).
Proof. unfold run_lifecycle_hook. always_solve. Qed.
Lemma aux_post_tool name : always R (run_post_tool_hook h turn_id name).
Proof. unfold run_post_tool_hook. always_solve. Qed.
Hint Resolve aux_lifecycle aux_post_tool : turn.

Lemma aux_persist_candidates cs sink :
  always R (persist_candidates turn_id (MemoryCand := MemoryCand) cs sink).
Proof. unfold persist_candidates, hook_failed. always_solve. Qed.
Hint Resolve aux_persist_candidates : turn.
Lemma aux_extract_memory m : always R (extract_memory_candidates h turn_id m).
Proof. unfold extract_memory_candidates, hook_failed. always_solve. Qed.
Lemma aux_recommend g m t : always R (recommend_memory_candidates h turn_id g m t).
Proof. unfold recommend_memory_candidates, hook_failed. always_solve. Qed.
Lemma aux_extract_skills g m t : always R (extract_skill_candidates h turn_id g m t).
Proof. unfold extract_skill_candidates, hook_failed. always_solve. Qed.
Lemma aux_extract_capability g m c : always R (extract_capability_candidate h turn_id g m c).
Proof. unfold extract_capability_candidate, hook_failed. always_solve. Qed.
Hint Resolve aux_extract_memory aux_recommend aux_extract_skills aux_extract_capability : turn.

Lemma aux_build_request n : always R (build_request h turn_id n).
Proof.
  unfold build_request, agent_self_block, project_memory_block, skills_block. always_solve.
Qed.
Lemma aux_complete_turn n m v : always R (complete_turn h turn_id n m v).
Proof. unfold complete_turn. always_solve. Qed.
Lemma aux_finish_cancelled n : always R (finish_cancelled h turn_id n).
Proof. unfold finish_cancelled. always_solve. Qed.
Lemma aux_sort_decisions l : always R (sort_decisions turn_id l).
Proof. induction l as [|[offset [c d]] l IH]; cbn; always_solve. Qed.
Lemma aux_report_result c r : always R (report_result turn_id c r).
Proof. unfold report_result. always_solve. Qed.
Lemma aux_truncate_output l t : always R (truncate_output h l t).
Proof. unfold truncate_output. always_solve. Qed.

End frame.

#[export] Hint Resolve aux_run_hook aux_lifecycle aux_post_tool
  aux_persist_candidates aux_extract_memory aux_recommend aux_extract_skills
  aux_extract_capability aux_build_request aux_complete_turn aux_finish_cancelled
  aux_sort_decisions aux_report_result aux_truncate_output : turn.
#[export] Hint Extern 1 (AuxRel _) => (apply _) : turn.
#[export] Hint Extern 1 (always _ (record_event _ _)) =>
  (apply aux_record_event; [apply _ | reflexivity]) : turn.
#[export] Hint Extern 1 (always _ (act _)) => (apply aux_act; [apply _ | reflexivity]) : turn.

(** ** The rest of the loop, for a relation that respects its own steps *)

(** The verification phase: only messages of the user are appended. *)
Section verify_frame.
Context `{SerdeJson} `{Sha256} {MemoryCand SkillProposal Capability : Type}.
Context (h : AgentHarness MemoryCand SkillProposal Capability) (turn_id : TurnId).
Context (R : TurnState → TurnState → Prop) `{!AuxRel R}.
Context (Hpush : ∀ text s, R s (set_session (push_message (msg_user text) (ts_session s)) s)).
Context (Hverify : ∀ v s, R s (set_verify v s)).
Context (Hcheck : ∀ input s, R s (add_action (DidCheck input) s)).

Lemma always_run_checks checks attempt v s config :
  R s (run_checks (run_check h) (record_in turn_id) push_in config checks attempt v s).2.
Proof.
  revert s. induction checks as [|c checks IH]; intros s; cbn; [reflexivity|].
  set (s1 := add_action _ s). assert (R s s1) as H1 by apply Hcheck.
  destruct (execute _ _ _ _) as [r|e].
  - set (s2 := record_in _ _ s1). assert (R s1 s2) as H2 by by apply aux_event.
    destruct (check_success (result_content r)); cbn.
    + etransitivity; [exact H1|]. etransitivity; [exact H2|]. apply IH.
    + etransitivity; [exact H1|]. etransitivity; [exact H2|]. apply Hpush.
  - set (s2 := record_in _ _ s1). assert (R s1 s2) as H2 by by apply aux_event.
    etransitivity; [exact H1|]. etransitivity; [exact H2|]. apply IH.
Qed.

Lemma always_done_phase : always R (done_phase h turn_id).
Proof.
  intros s. unfold done_phase.
  assert (∀ executed v s d b, R s (verify_before_done (run_check h) (record_in turn_id) push_in
    (h_verify _ _ _ h) b d executed v s).2) as Hv.
  { intros executed v s0 d b.
    assert (∀ v s1, R s1 (critique_phase push_in (h_verify _ _ _ h) executed v s1).2) as Hc.
    { intros v1 s1. unfold critique_phase. case_match; cbn; [apply Hpush | reflexivity]. }
    unfold verify_before_done. case_match; [|apply Hc].
    assert (R s0 (run_verification (run_check h) (record_in turn_id) push_in (h_verify _ _ _ h) b d
      v s0).2) as Hr.
    { unfold run_verification. repeat (case_match; try reflexivity). apply always_run_checks. }
    destruct (run_verification _ _ _ _ _ _ _ _) as [[o v1] s1]. cbn in Hr.
    destruct o; cbn; [|done|]; (etransitivity; [exact Hr | apply Hc]). }
  specialize (Hv (ts_executed s) (ts_verify s) s (h_detected_test _ _ _ h (ts_past s))
    (bool_decide (lit "run_checks" ∈ names (h_tools _ _ _ h)))).
  destruct (verify_before_done _ _ _ _ _ _ _ _ _) as [[ph v] s1]. cbn in *.
  etransitivity; [exact Hv | apply Hverify].
Qed.
End verify_frame.

Section loop_frame.
Context `{SerdeJson} `{Sha256} {MemoryCand SkillProposal Capability : Type}.
Context (h : AgentHarness MemoryCand SkillProposal Capability) (turn_id : TurnId).
Context (R : TurnState → TurnState → Prop) `{!AuxRel R}.
(** What the loop itself does to the state. *)
Context (Hpush : ∀ m s, R s (set_session (push_message m (ts_session s)) s)).
Context (Htracker : ∀ t s, R s (set_tracker t s)).
Context (Hexecuted : ∀ c s, R s (add_executed c s)).
Context (Hverify : ∀ v s, R s (set_verify v s)).
Context (Htotals : ∀ u c s, R s (set_totals u c s)).
Context (Hcheck : ∀ input s, R s (add_action (DidCheck input) s)).
Context (Hpoll : ∀ s, R s (add_action DidPollCancel s)).

Hint Extern 1 (always _ (act _)) => (apply aux_act; [apply _ | reflexivity]) : turn.

Lemma always_push m : always R (push_msg m).
Proof. apply always_modify. intros s. apply Hpush. Qed.
Hint Resolve always_push : turn.

Lemma always_count_failure sig m : always R (count_failure h turn_id sig m).
Proof.
  unfold count_failure, SelfCorrect.record_failure. always_solve; apply Htracker.
Qed.
Hint Resolve always_count_failure : turn.
Lemma always_self_correct c r : always R (self_correct h turn_id c r).
Proof. unfold self_correct. always_solve; apply Htracker. Qed.
Hint Resolve always_self_correct : turn.
Lemma always_record_result c r : always R (record_result h turn_id c r).
Proof. unfold record_result. always_solve; apply Hexecuted. Qed.
Hint Resolve always_record_result : turn.
Lemma always_record_results l : always R (record_results h turn_id l).
Proof. induction l as [|[c r] l IH]; cbn; always_solve. Qed.

Lemma always_critique b : always R (critique_completed turn_id b).
Proof. unfold critique_completed. always_solve; apply Hverify. Qed.

Lemma loop_done_phase : always R (done_phase h turn_id).
Proof. apply always_done_phase; auto. Qed.
Hint Resolve always_critique loop_done_phase : turn.

Lemma always_poll : always R (poll_cancel h).
Proof.
  unfold poll_cancel. apply always_bind; [apply _| |intros ?; apply always_ret, _].
  intros s. apply Hpoll.
Qed.
Hint Resolve always_poll : turn.

Lemma always_finish_or_continue n r : always R (finish_or_continue h turn_id n r).
Proof. unfold finish_or_continue. always_solve. Qed.

Lemma always_accumulate r : always R (accumulate r).
Proof. apply always_modify. intros s. apply Htotals. Qed.

(** Batches, given one. *)
Lemma always_run_batches fuel calls :
  (∀ batch, always R (run_batch h turn_id batch)) → always R (run_batches h turn_id fuel calls).
Proof.
  intros Hb. revert calls. induction fuel as [|fuel IH]; intros [|c calls]; cbn; always_solve.
Qed.

Lemma always_run_tools n calls :
  (∀ batch, always R (run_batch h turn_id batch)) → always R (run_tools h turn_id n calls).
Proof.
  intros Hb. unfold run_tools. always_solve. by apply always_run_batches.
Qed.

(** A batch, for a relation that does not look at what is executed. *)
Lemma always_run_batch batch :
  (∀ rs s, R s (add_action (DidDecide rs) s)) → (∀ cs s, R s (add_action (DidExecute cs) s)) →
  always R (run_batch h turn_id batch).
Proof.
  intros Hd He.
  assert (∀ rs, always R (act (DidDecide rs))) by (intros rs s; apply Hd).
  assert (∀ cs, always R (act (DidExecute cs))) by (intros cs s; apply He).
  unfold run_batch, execute_all. always_solve. apply always_record_results.
Qed.

Lemma always_infer n :
  (∀ r s, R s (add_action (DidInfer r) s)) →
  (∀ session turn e s, R s (add_event session turn e s)) →
  always R (infer h turn_id n).
Proof.
  intros Hi He.
  assert (∀ r, always R (act (DidInfer r))) by (intros r s; apply Hi).
  assert (∀ e, always R (record_event turn_id e)) by (intros e s; apply He).
  assert (∀ r, always R (accumulate r)) by apply always_accumulate.
  unfold infer. always_solve.
Qed.

Lemma always_turn_iteration n :
  always R (infer h turn_id n) → (∀ batch, always R (run_batch h turn_id batch)) →
  always R (turn_iteration h turn_id n).
Proof.
  intros Hi Hb.
  assert (∀ n calls, always R (run_tools h turn_id n calls)) by (intros; by apply always_run_tools).
  assert (∀ n r, always R (finish_or_continue h turn_id n r)) by apply always_finish_or_continue.
  unfold turn_iteration. always_solve.
Qed.

Lemma always_turn_loop fuel :
  always R consume → (∀ n, always R (turn_iteration h turn_id n)) →
  always R (turn_loop h turn_id fuel).
Proof. intros Hc Hi. induction fuel as [|fuel IH]; cbn; always_solve. Qed.

End loop_frame.
