(* ===== verification/TurnProps.v ===== *)
(** * Theorems about agent turns

    Permissions, transcripts, bounds, cancellation and usage totals of
    [run_turn_with_state], for every environment. *)

From stdpp Require Import base numbers strings gmap list.
From S2P Require Import Prelude RustStr Json Protocol Harness ErrorClassify SelfCorrect.
From S2P Require Import ToolRegistry Verify Prompts Truncation IterationBudget ErrorClassify.
From S2P Require Import Turn TurnFrame.

(** Steps that do not touch what an invariant is about. *)
Ltac unframed := solve [intros; unfold preserves in *; first [done | by intros ?]].

Section permissions.
Context `{SerdeJson} `{Sha256} {MemoryCand SkillProposal Capability : Type}.
Context (h : AgentHarness MemoryCand SkillProposal Capability) (turn_id : TurnId).

(** ** Decisions *)

(** The offset of a call the policy allowed, and the result of one it denied. *)
Definition allowed_offset (x : nat * (ToolCall * result HarnessError PermissionDecision))
    : option nat :=
  match x.2.2 with
  | Ok d => if allows_execution d then Some x.1 else None
  | Err _ => None
  end.
Definition denied_result (x : nat * (ToolCall * result HarnessError PermissionDecision))
    : option (nat * ToolResult) :=
  match x.2.2 with
  | Ok d => if allows_execution d then None
            else Some (x.1, denied_json (default (lit "tool execution denied by permission policy")
                                           (decision_message d)))
  | Err _ => None
  end.

Lemma sort_decisions_spec l s denied runnable s' :
  sort_decisions turn_id l s = (Ok (denied, runnable), s') →
  ts_past s' = ts_past s ∧ runnable = omap allowed_offset l ∧ denied = omap denied_result l ∧
  Forall (λ x, is_ok x.2.2 = true) l.
Proof.
  revert s denied runnable s'. induction l as [|x l IH]; intros s denied runnable s'.
  { intros [= <- <- <-]. by repeat constructor. }
  destruct x as [o [c [d|e]]]; [cbn|done].
  unfold st_bind at 1. cbn. unfold allowed_offset at 1, denied_result at 1; cbn.
  destruct (allows_execution d).
  - intros ([d' r'] & s1 & E & [= <- <- <-])%st_bind_Ok.
    apply IH in E as (? & -> & -> & ?). by repeat constructor.
  - unfold st_bind at 1. cbn. intros ([d' r'] & s1 & E & [= <- <- <-])%st_bind_Ok.
    apply IH in E as (? & -> & -> & ?). by repeat constructor.
Qed.

(** A call that runs was allowed: the last action before it was the decision on
    its batch, and the policy allowed the request made for it. *)
Definition authorized (older : history) (calls : list ToolCall) : Prop :=
  ∃ requests older', older = DidDecide requests :: older' ∧
    ∀ c, c ∈ calls → ∃ i r d, requests !! i = Some r ∧
      request_tool_name r = call_name c ∧ request_input r = call_input c ∧
      request_scope r = permission_scope (call_name c) (call_input c) (h_tools _ _ _ h) ∧
      h_decide _ _ _ h older i r = Ok d ∧ allows_execution d = true.
Fixpoint all_authorized (past : history) : Prop :=
  match past with
  | [] => True
  | a :: older =>
      all_authorized older ∧ match a with DidExecute calls => authorized older calls | _ => True end
  end.

Definition safe_past (s : TurnState) : Prop := all_authorized (ts_past s).
#[local] Instance safe_past_aux : AuxRel (preserves safe_past).
Proof.
  split; [apply _ | by intros ? ? ? ? _ Hs |]. intros a s Ha Hs. split; [done|]. by destruct a.
Qed.

Lemma elem_of_executable batch session past c :
  c ∈ omap (λ i, batch !! i)
        (omap allowed_offset (enumerate (zip batch
           (imap (λ i r, h_decide _ _ _ h past i r) (permission_request h turn_id session <$> batch))))) →
  ∃ i d, (permission_request h turn_id session <$> batch) !! i =
           Some (permission_request h turn_id session c) ∧
         h_decide _ _ _ h past i (permission_request h turn_id session c) = Ok d ∧
         allows_execution d = true.
Proof.
  intros (i & (x & Hx & Hi)%list_elem_of_omap & Hc)%list_elem_of_omap.
  apply list_elem_of_lookup_1 in Hx as [j Hj]. unfold enumerate in Hj.
  rewrite list_lookup_imap in Hj. apply fmap_Some in Hj as ([c' o] & Hz & ->).
  unfold allowed_offset in Hi; cbn in Hi. destruct o as [d|]; [|done].
  destruct (allows_execution d) eqn:Ha; [|done]. injection Hi as ->.
  apply lookup_zip_Some in Hz as [Hb Ho]. rewrite Hc in Hb. injection Hb as ->.
  rewrite list_lookup_imap, list_lookup_fmap, Hc in Ho. cbn in Ho. injection Ho as Ho.
  exists i, d. by rewrite list_lookup_fmap, Hc.
Qed.

(** Recording events leaves the past as it is. *)
Lemma events_past {A} (f : A → turn_event) l s :
  ∃ s', for_each (λ x, record_event turn_id (f x)) l s = (Ok tt, s') ∧ ts_past s' = ts_past s.
Proof.
  revert s. induction l as [|x l IH]; intros s; cbn; [by eexists|].
  destruct (IH (add_event (session_id (ts_session s)) turn_id (f x) s)) as (s' & E & Hp).
  exists s'. by rewrite Hp.
Qed.

Lemma execute_all_safe calls s :
  safe_past s → (calls ≠ [] → authorized (ts_past s) calls) →
  safe_past (execute_all h turn_id calls s).2.
Proof.
  intros Hs Ha. unfold execute_all. destruct calls as [|c calls]; [done|].
  destruct (events_past started (c :: calls) s) as (s1 & E & Hp).
  unfold st_bind at 1. rewrite E. cbn. split.
  - unfold safe_past in Hs. by rewrite Hp.
  - rewrite Hp. by apply Ha.
Qed.

Lemma run_batch_safe batch : always (preserves safe_past) (run_batch h turn_id batch).
Proof.
  unfold run_batch.
  apply always_bind; [apply _ | always_solve | intros _].
  apply always_bind; [apply _ | always_solve | intros session].
  apply always_bind; [apply _ | always_solve; destruct x; always_solve | intros _].
  intros s Hs. unfold st_bind at 1, act. cbn.
  set (s1 := add_action _ s). assert (safe_past s1) as Hs1 by by split.
  set (requests := permission_request h turn_id session <$> batch).
  unfold st_bind at 1. destruct (sort_decisions _ _ s1) as [[[denied runnable]|e] s2] eqn:Hd.
  2: { match type of Hd with sort_decisions _ ?l _ = _ =>
         pose proof (aux_sort_decisions turn_id (preserves safe_past) l s1 Hs1) as Hx end.
       by rewrite Hd in Hx. }
  apply sort_decisions_spec in Hd as (Hp & -> & -> & _).
  assert (safe_past s2) as Hs2 by (unfold safe_past; by rewrite Hp).
  set (executable := omap (λ i, batch !! i) _).
  assert (safe_past (execute_all h turn_id executable s2).2) as Hx.
  { apply execute_all_safe; [done|]. intros _. rewrite Hp. exists requests, (ts_past s).
    split; [done|]. intros c (i & d & Hi & Hdec & Hal)%elem_of_executable.
    by exists i, (permission_request h turn_id session c), d. }
  unfold st_bind at 1. destruct (execute_all _ _ _ s2) as [[results|e] s3]; cbn in Hx; [|done].
  match goal with |- safe_past (?m s3).2 => enough (always (preserves safe_past) m) as Hy end.
  { exact (Hy s3 Hx). }
  apply always_bind; [apply _| |].
  - apply always_record_results; [apply _ | unframed..].
  - intros nudges. apply always_for_each; [apply _|]. intros nudge. apply always_push. unframed.
Qed.

Lemma start_turn_safe m : always (preserves safe_past) (start_turn h turn_id m).
Proof.
  unfold start_turn, compact_context_if_needed. always_solve; unframed.
Qed.

(** C2. Nothing runs without permission: in every turn, in every environment,
    whenever the model's calls are executed the last thing done before was to ask
    the policy about their batch, and for each executed call there was a request
    with its name, its arguments and its scope which the policy allowed.  This
    also holds of turns that end with an error or a panic. *)
Theorem executed_calls_were_allowed (session : SessionState) (user_message : str)
    (event_counter : N) (past : history) (Hpast : all_authorized past) :
  all_authorized (ts_past
    (run_turn_with_state h turn_id session user_message event_counter past).2).
Proof.
  unfold run_turn_with_state.
  assert (always (preserves safe_past)
    (do! start_turn h turn_id user_message in turn_loop h turn_id (turn_fuel h))) as Ha.
  { apply always_bind; [apply _ | apply start_turn_safe | intros _].
    apply always_turn_loop; [apply _ | apply always_consume; [apply _ | unframed] |].
    intros n. apply always_turn_iteration; [apply _ | unframed.. | | apply run_batch_safe].
    apply always_infer; [apply _ | unframed..]. }
  by apply Ha.
Qed.

End permissions.

(** ** Transcripts *)

(** Reading messages with the calls still to be answered: an assistant message is
    only allowed when none is, a tool result answers the first. *)
Definition scan_step (pending : list ToolCall) (m : SessionMessage) : option (list ToolCall) :=
  match msg_role m with
  | RUser => Some pending
  | RAssistant => if is_empty pending then Some (msg_tool_calls m) else None
  | RTool =>
      match pending with
      | c :: rest =>
          if decide (msg_tool_call_id m = Some (call_id c) ∧ msg_tool_name m = Some (call_name c))
          then Some rest else None
      | [] => None
      end
  | RSystem => None
  end.
Definition scan (pending : list ToolCall) (msgs : list SessionMessage) : option (list ToolCall) :=
  fold_opt scan_step pending msgs.
Definition called (e : ExecutedToolCall) : ToolCall :=
  {| call_id := exec_id e; call_name := exec_name e; call_input := exec_input e |}.

(** From [p] to [q] pending calls: the messages added and the calls recorded. *)
Definition transcript (p q : list ToolCall) (s s' : TurnState) : Prop :=
  ∃ new execs, messages (ts_session s') = messages (ts_session s) ++ new ∧
    ts_executed s' = ts_executed s ++ execs ∧ scan p new = Some q ∧
    p ++ concat (msg_tool_calls <$> new) = (called <$> execs) ++ q.

Lemma fold_opt_app {A B} (f : A → B → option A) a l k :
  fold_opt f a (l ++ k) = fold_opt f a l ≫= λ b, fold_opt f b k.
Proof. revert a. induction l as [|x l IH]; intros a; cbn; [done|]. by destruct (f a x). Qed.

Lemma transcript_quiet p s s' :
  ts_session s' = ts_session s → ts_executed s' = ts_executed s → transcript p p s s'.
Proof. intros Hs He. exists [], []. rewrite Hs, He, !app_nil_r. done. Qed.
Lemma quiet_transcript p s s' : quiet s s' → transcript p p s s'.
Proof. intros []. by apply transcript_quiet. Qed.
Lemma transcript_trans p q r s1 s2 s3 :
  transcript p q s1 s2 → transcript q r s2 s3 → transcript p r s1 s3.
Proof.
  intros (n1 & e1 & Hm1 & He1 & Hs1 & Hc1) (n2 & e2 & Hm2 & He2 & Hs2 & Hc2).
  exists (n1 ++ n2), (e1 ++ e2). rewrite Hm2, Hm1, He2, He1, <- !app_assoc. split_and!; [done..| |].
  - unfold scan. rewrite fold_opt_app. unfold scan in Hs1. by rewrite Hs1.
  - rewrite !fmap_app, concat_app, app_assoc, Hc1, <- !app_assoc, Hc2. done.
Qed.
Lemma transcript_user p text s :
  transcript p p s (set_session (push_message (msg_user text) (ts_session s)) s).
Proof. exists [msg_user text], []. split_and!; cbn; by rewrite ?app_nil_r. Qed.
Lemma transcript_assistant calls m s :
  msg_role m = RAssistant → msg_tool_calls m = calls →
  transcript [] calls s (set_session (push_message m (ts_session s)) s).
Proof.
  intros Hr Hc. exists [m], []. rewrite app_nil_r. split_and!; [done..| |].
  - cbn. unfold scan_step. by rewrite Hr, Hc.
  - cbn. by rewrite app_nil_r, Hc.
Qed.

(** An operation that succeeds turns [p] pending calls into [q]. *)
Definition answers {A} (p q : list ToolCall) (m : op A) : Prop :=
  yields m (λ _, transcript p q).

Lemma answers_bind {A B} p q r (m : op A) (k : A → op B) :
  answers p q m → (∀ a, answers q r (k a)) → answers p r (st_bind m k).
Proof.
  intros Hm Hk s b s' (a & s1 & E1 & E2)%st_bind_Ok.
  eapply transcript_trans; [by eapply Hm | by eapply Hk].
Qed.
Lemma answers_quiet {A} p (m : op A) : always quiet m → answers p p m.
Proof.
  intros Hm. eapply yields_mono; [by apply yields_always|]. intros. by apply quiet_transcript.
Qed.

Section transcripts.
Context `{SerdeJson} `{Sha256} {MemoryCand SkillProposal Capability : Type}.
Context (h : AgentHarness MemoryCand SkillProposal Capability) (turn_id : TurnId).

Lemma answers_modify p f :
  (∀ s, ts_session (f s) = ts_session s) → (∀ s, ts_executed (f s) = ts_executed s) →
  answers p p (modify f).
Proof. intros Hs He s a s' [= <- <-]. by apply transcript_quiet. Qed.

Lemma answers_self_correct p c r : answers p p (self_correct h turn_id c r).
Proof.
  assert (∀ sig m, answers p p (count_failure h turn_id sig m)) as Hc.
  { intros sig m. unfold count_failure. eapply answers_bind; [apply answers_quiet; always_solve|].
    intros t. case_match; [apply answers_quiet; always_solve|].
    destruct (record_failure sig t) as [n t'].
    eapply answers_bind; [by apply answers_modify|]. intros _. apply answers_quiet. always_solve. }
  unfold self_correct. case_match.
  - eapply answers_bind; [apply Hc|]. intros n. apply answers_quiet. always_solve.
  - eapply answers_bind; [by apply answers_modify|]. intros _. apply answers_quiet. always_solve.
Qed.

Lemma answers_record_result p c r : answers (c :: p) p (record_result h turn_id c r).
Proof.
  unfold record_result.
  eapply answers_bind; [apply answers_quiet; always_solve|]. intros r1.
  eapply answers_bind; [apply answers_self_correct|]. intros [r2 nudges].
  eapply answers_bind; [apply answers_quiet; always_solve|]. intros recorded.
  intros s a s' E.
  apply st_bind_Ok in E as (u1 & s1 & [= <- <-] & E).
  apply st_bind_Ok in E as (u2 & s2 & E2 & E).
  apply st_bind_Ok in E as (u3 & s3 & [= <- <-] & [= <- <-]).
  pose proof (aux_post_tool h turn_id quiet (call_name c)
    (set_session (push_message (msg_tool_result (call_id c) (call_name c) recorded)
       (ts_session s)) s)) as Hq. rewrite E2 in Hq. destruct Hq as [Hqs Hqe _ _ _ _ _]. cbn in *.
  exists [msg_tool_result (call_id c) (call_name c) recorded],
    [{| exec_id := call_id c; exec_name := call_name c; exec_input := call_input c;
        exec_result := r2 |}].
  cbn. rewrite Hqs, Hqe. split_and!; [done..| |].
  - unfold scan, scan_step; cbn. by rewrite decide_True.
  - rewrite !app_nil_r. by destruct c.
Qed.

Lemma answers_record_results p l :
  answers (l.*1 ++ p) p (record_results h turn_id l).
Proof.
  induction l as [|[c r] l IH]; cbn; [apply answers_quiet; always_solve|].
  eapply answers_bind; [apply answers_record_result|]. intros n.
  eapply answers_bind; [apply IH|]. intros m. apply answers_quiet. always_solve.
Qed.

Lemma answers_nudges p l : answers p p (for_each (λ nudge, push_msg (msg_user nudge)) l).
Proof.
  induction l as [|n l IH]; cbn; [apply answers_quiet; always_solve|].
  eapply answers_bind; [|intros _; apply IH]. intros s a s' [= <- <-]. apply transcript_user.
Qed.

Lemma length_assemble n denied runnable results :
  length (assemble_results n denied runnable results) = n.
Proof.
  unfold assemble_results. rewrite length_fmap.
  assert (∀ (l : list (nat * ToolResult)) (slots : list (option (result HarnessError ToolResult))),
    length (foldl (λ slots d, <[d.1 := Some (Ok d.2)]> slots) slots l) = length slots) as H1.
  { intros l. induction l as [|d l IH]; intros slots; cbn; [done|]. by rewrite IH, length_insert. }
  assert (∀ (l : list (nat * result HarnessError ToolResult)) slots,
    length (foldl (λ slots r, <[r.1 := Some r.2]> slots) slots l) = length slots) as H2.
  { intros l. induction l as [|d l IH]; intros slots; cbn; [done|]. by rewrite IH, length_insert. }
  by rewrite H2, H1, length_replicate.
Qed.

Lemma quiet_act a : always quiet (act a).
Proof. intros s. by split. Qed.
Hint Resolve quiet_act : turn.

Lemma answers_run_batch p batch : answers (batch ++ p) p (run_batch h turn_id batch).
Proof.
  unfold run_batch.
  eapply answers_bind; [apply answers_quiet; always_solve | intros _].
  eapply answers_bind; [apply answers_quiet; always_solve | intros session].
  eapply answers_bind; [apply answers_quiet; always_solve; destruct x; always_solve | intros _].
  eapply answers_bind; [apply answers_quiet, quiet_act | intros past].
  eapply answers_bind; [apply answers_quiet; always_solve | intros [denied runnable]].
  eapply answers_bind; [apply answers_quiet; unfold execute_all; always_solve | intros results].
  eapply answers_bind; [|intros nudges; apply answers_nudges].
  set (rs := assemble_results _ _ _ _).
  replace batch with ((zip batch rs).*1) at 1; [apply answers_record_results|].
  rewrite fst_zip; [done|]. unfold rs. by rewrite length_assemble.
Qed.

Lemma span_app {A} (q : A → bool) l : (span q l).1 ++ (span q l).2 = l.
Proof.
  induction l as [|x l IH]; [done|]. cbn. destruct (q x); [|done].
  destruct (span q l) as [a b]; cbn in *. by rewrite IH.
Qed.
Lemma next_batch_app c rest : (next_batch h c rest).1 ++ (next_batch h c rest).2 = c :: rest.
Proof.
  unfold next_batch. destruct (is_safe h c); [|done].
  pose proof (span_app (is_safe h) rest) as E. destruct (span _ rest); cbn in *. by rewrite E.
Qed.

Lemma answers_run_batches fuel calls : answers calls [] (run_batches h turn_id fuel calls).
Proof.
  revert calls. induction fuel as [|fuel IH]; intros [|c rest]; cbn;
    try (apply answers_quiet; always_solve); [done|].
  pose proof (next_batch_app c rest) as E. destruct (next_batch h c rest) as [batch rest'].
  cbn in E. rewrite <- E. eapply answers_bind; [apply answers_run_batch | intros _; apply IH].
Qed.

Lemma answers_critique b : answers [] [] (critique_completed turn_id b).
Proof.
  unfold critique_completed. eapply answers_bind; [apply answers_quiet; always_solve|]. intros v.
  case_match; [|apply answers_quiet; always_solve].
  eapply answers_bind; [by apply answers_modify|]. intros _. apply answers_quiet. always_solve.
Qed.

Lemma answers_run_tools n calls : answers [] [] (run_tools h turn_id n calls).
Proof.
  unfold run_tools. eapply answers_bind; [apply answers_quiet; unfold poll_cancel; always_solve|].
  intros []; [apply answers_quiet; always_solve|].
  eapply answers_bind; [apply answers_critique | intros _].
  eapply answers_bind; [|intros _; eapply answers_bind;
    [apply answers_run_batches | intros _; apply answers_quiet; always_solve]].
  intros s a s' [= <- <-]. by apply transcript_assistant.
Qed.

#[local] Instance transcript_aux : AuxRel (transcript [] []).
Proof.
  split; [split|..].
  - intros s. by apply transcript_quiet.
  - intros s1 s2 s3. apply transcript_trans.
  - intros. by apply transcript_quiet.
  - intros. by apply transcript_quiet.
Qed.

Lemma answers_finish n r : answers [] [] (finish_or_continue h turn_id n r).
Proof.
  unfold finish_or_continue.
  eapply (answers_bind _ []).
  { destruct (resp_assistant_message r); [|apply answers_quiet; always_solve].
    intros s a s' [= <- <-]. by apply transcript_assistant. }
  intros _. eapply answers_bind; [apply answers_critique | intros _].
  eapply (answers_bind _ []).
  { apply yields_always, always_done_phase; [apply _ | | |]; intros;
      [apply transcript_user | by apply transcript_quiet..]. }
  intros [v|]; apply answers_quiet; always_solve.
Qed.

Lemma quiet_but_totals n : answers [] [] (infer h turn_id n).
Proof.
  unfold infer. eapply answers_bind; [apply answers_quiet; always_solve | intros _].
  eapply answers_bind; [apply answers_quiet; always_solve | intros req].
  eapply answers_bind; [apply answers_quiet; always_solve | intros _].
  eapply answers_bind; [apply answers_quiet, quiet_act | intros past].
  eapply answers_bind; [apply answers_quiet; always_solve | intros resp].
  eapply answers_bind; [apply answers_quiet; always_solve | intros _].
  eapply answers_bind; [by apply answers_modify | intros _].
  apply answers_quiet. apply always_bind; [apply _ | intros s; by split | intros _; always_solve].
Qed.

Lemma answers_iteration n : answers [] [] (turn_iteration h turn_id n).
Proof.
  unfold turn_iteration.
  eapply answers_bind; [apply answers_quiet; unfold poll_cancel; always_solve|].
  intros []; [apply answers_quiet; always_solve|].
  eapply answers_bind; [apply quiet_but_totals | intros resp].
  repeat case_match; try apply answers_run_tools; apply answers_finish.
Qed.

Lemma answers_loop fuel : answers [] [] (turn_loop h turn_id fuel).
Proof.
  induction fuel as [|fuel IH]; cbn; [apply answers_quiet; always_solve|].
  eapply (answers_bind _ []).
  { intros s a s' E. unfold consume in E. repeat case_match; simplify_eq; by apply transcript_quiet. }
  intros []; [|apply answers_quiet; always_solve].
  eapply answers_bind; [apply answers_quiet; always_solve | intros n].
  eapply answers_bind; [apply answers_iteration|].
  intros [o|]; [apply answers_quiet; always_solve | apply IH].
Qed.

(** The outcome is the state the turn ended in. *)
Definition reports (o : TurnOutcome) (s : TurnState) : Prop :=
  out_session_state o = ts_session s ∧ out_tool_calls o = ts_executed s ∧
  out_events o = ts_events s.
Definition reports_opt (o : option TurnOutcome) (s : TurnState) : Prop :=
  match o with Some o => reports o s | None => True end.

Lemma yields_bind_last {A B} (m : op A) (k : A → op B) (Q : B → TurnState → Prop) :
  (∀ a, yields (k a) (λ b _ s', Q b s')) → yields (st_bind m k) (λ b _ s', Q b s').
Proof. intros Hk s b s' (a & s1 & _ & E)%st_bind_Ok. by eapply Hk. Qed.

Ltac last_step :=
  match goal with
  | |- yields (st_bind _ _) _ => apply yields_bind_last; intros ?
  | |- yields (match ?x with _ => _ end) _ => destruct x
  end.

Lemma yields_finish_cancelled n : yields (finish_cancelled h turn_id n) (λ o _ s', reports o s').
Proof. unfold finish_cancelled. do 3 last_step. intros s o s' [= <- <-]. done. Qed.
Lemma yields_complete n m v : yields (complete_turn h turn_id n m v) (λ o _ s', reports o s').
Proof. unfold complete_turn. do 7 last_step. intros s o s' [= <- <-]. done. Qed.

Lemma yields_wrap m :
  yields m (λ o _ s', reports o s') →
  yields (let! o := m in st_ret (Some o)) (λ o _ s', reports_opt o s').
Proof. intros Hm s o s' (a & s1 & E & [= <- <-])%st_bind_Ok. by eapply Hm. Qed.

Lemma yields_none (m : op unit) : yields (do! m in st_ret None) (λ o _ s', reports_opt o s').
Proof. by intros s o s' (a & s1 & E & [= <- <-])%st_bind_Ok. Qed.

Lemma yields_run_tools n calls : yields (run_tools h turn_id n calls) (λ o _ s', reports_opt o s').
Proof.
  unfold run_tools. do 2 last_step; [apply yields_wrap, yields_finish_cancelled|].
  do 2 last_step. apply yields_none.
Qed.

Lemma yields_finish n r : yields (finish_or_continue h turn_id n r) (λ o _ s', reports_opt o s').
Proof.
  unfold finish_or_continue. do 4 last_step; [apply yields_wrap, yields_complete|].
  by intros s o s' [= <- <-].
Qed.

Lemma yields_iteration n : yields (turn_iteration h turn_id n) (λ o _ s', reports_opt o s').
Proof.
  unfold turn_iteration. do 2 last_step; [apply yields_wrap, yields_finish_cancelled|].
  last_step. repeat case_match; first [apply yields_run_tools | apply yields_finish].
Qed.

Lemma yields_loop fuel : yields (turn_loop h turn_id fuel) (λ o _ s', reports o s').
Proof.
  induction fuel as [|fuel IH]; [done|]. cbn. do 2 last_step; [|done]. last_step.
  intros s o s' (r & s1 & E & E')%st_bind_Ok. apply yields_iteration in E.
  destruct r as [o'|]; [|by eapply IH]. by injection E' as <- <-.
Qed.

Lemma start_turn_executed m : always (λ s s', ts_executed s' = ts_executed s) (start_turn h turn_id m).
Proof.
  assert (AuxRel (λ s s', ts_executed s' = ts_executed s)).
  { split; [split|..]; [done | congruence | done..]. }
  unfold start_turn, compact_context_if_needed. always_solve; done.
Qed.

(** C3. Every tool call is answered exactly once, in order: in the transcript a
    finished or cancelled turn returns, after the messages it started from, each
    assistant message that calls tools is followed by one tool result per call,
    with its id and name and in the order of the calls, before the assistant
    speaks again; and the calls recorded as executed are exactly the calls the
    assistant messages carry. *)
Theorem turn_transcript (session : SessionState) (user_message : str) (event_counter : N)
    (past : history) (o : TurnOutcome) (s' : TurnState)
    (Hrun : run_turn_with_state h turn_id session user_message event_counter past = (Ok o, s')) :
  ∃ s1 new, start_turn h turn_id user_message (initial_state h session event_counter past) =
              (Ok tt, s1) ∧
    messages (out_session_state o) = messages (ts_session s1) ++ new ∧
    scan [] new = Some [] ∧
    concat (msg_tool_calls <$> new) = called <$> out_tool_calls o.
Proof.
  unfold run_turn_with_state in Hrun. apply st_bind_Ok in Hrun as ([] & s1 & E1 & E2).
  pose proof (start_turn_executed user_message (initial_state h session event_counter past)) as He.
  rewrite E1 in He. cbn in He.
  pose proof (yields_loop _ _ _ _ E2) as (Hs & Hx & _).
  apply answers_loop in E2 as (new & execs & Hm & Hex & Hscan & Hc).
  exists s1, new. rewrite Hs, Hx, Hm, Hex, He. split_and!; [done..|].
  cbn in *. by rewrite Hc, app_nil_r.
Qed.

End transcripts.
