(* ===== verification/TurnBounds.v ===== *)
(** * Turns end: iterations, the verify-and-fix cycle, cancellation, usage *)

From stdpp Require Import base numbers strings gmap list.
From S2P Require Import Prelude RustStr Protocol IterationBudget Truncation Json Harness ErrorClassify SelfCorrect ToolRegistry Verify Prompts Turn TurnFrame TurnProps.

(** ** The budget of a turn *)

(** The only thread is between calls. *)
Definition budget_idle (b : IterationBudget) : Prop :=
  thread_of b 0 = Idle ∧ (used b <= max_total b)%N ∧ (max_total b < u32_modulus)%N.

Lemma consume_alone s :
  budget_idle (ts_budget s) →
  ∃ b', consume s = (Ok (used (ts_budget s) <? max_total (ts_budget s))%N, set_budget b' s) ∧
        budget_idle b' ∧ max_total b' = max_total (ts_budget s) ∧
        used b' = if (used (ts_budget s) <? max_total (ts_budget s))%N
                  then (used (ts_budget s) + 1)%N else used (ts_budget s).
Proof.
  destruct s as [? ? ? ? ? ? ? b ? ?]; cbn. intros (Ht & Hu & Hm).
  assert (Hvis : visible b (bud_used b) = true) by (apply bool_decide_eq_true_2; left).
  unfold consume; cbn [ts_budget run_budget]. unfold budget_step. rewrite Ht. unfold used in *.
  rewrite Hvis. cbn [mbind option_bind]. rewrite thread_of_set, decide_True by done.
  unfold consume_step; cbn [max_total set_thread bud_used]. rewrite N.eqb_refl.
  destruct (N.leb_spec (max_total b) (bud_used b)) as [Hle|Hlt].
  - cbn. rewrite (proj2 (N.ltb_ge _ _)) by done. eexists. split; [done|]. split_and!; cbn; try done.
    unfold budget_idle. rewrite thread_of_set. by rewrite decide_True.
  - cbn. rewrite (proj2 (N.ltb_lt _ _)) by done. eexists. split; [done|].
    assert (u32_add (bud_used b) 1 = bud_used b + 1)%N as Hadd.
    { unfold u32_add. apply N.mod_small. lia. }
    split_and!; cbn; [|done|done]. unfold budget_idle, used; cbn. rewrite thread_of_set.
    rewrite decide_True by done. rewrite Hadd. split_and!; [done | lia | done].
Qed.

(** ** Never out of fuel *)

Definition fueled {A} (m : op A) : Prop := ∀ s, (m s).1 ≠ Err OutOfFuel.

Lemma fueled_bind {A B} (m : op A) (k : A → op B) :
  fueled m → (∀ a, fueled (k a)) → fueled (st_bind m k).
Proof.
  intros Hm Hk s. unfold st_bind. specialize (Hm s). destruct (m s) as [[a|e] s1]; cbn in *;
    [apply Hk | congruence].
Qed.
Lemma fueled_ret {A} (a : A) : fueled (st_ret a).
Proof. by intros s. Qed.
Lemma fueled_gets {A} (f : TurnState → A) : fueled (gets f).
Proof. by intros s. Qed.
Lemma fueled_act a : fueled (act a).
Proof. by intros s. Qed.
Lemma fueled_modify f : fueled (modify f).
Proof. by intros s. Qed.
Lemma fueled_try {A} (r : result HarnessError A) : fueled (try_ r).
Proof. intros s. by destruct r. Qed.
Lemma fueled_raise {A} e : fueled (raise (A := A) e).
Proof. by intros s. Qed.
Lemma fueled_or_panic {A} (o : option A) : fueled (or_panic o).
Proof. intros s. by destruct o. Qed.
Lemma fueled_for_each {A} (f : A → op unit) l : (∀ x, fueled (f x)) → fueled (for_each f l).
Proof. intros Hf. induction l; cbn; [apply fueled_ret | by apply fueled_bind]. Qed.

Ltac fueled_step :=
  match goal with
  | |- fueled (st_bind _ _) => apply fueled_bind; [|intros ?]
  | |- fueled (st_ret _) => apply fueled_ret
  | |- fueled (gets _) => apply fueled_gets
  | |- fueled message_count => apply fueled_gets
  | |- fueled (act _) => apply fueled_act
  | |- fueled (modify _) => apply fueled_modify
  | |- fueled (record_event _ _) => apply fueled_modify
  | |- fueled (push_msg _) => apply fueled_modify
  | |- fueled (accumulate _) => apply fueled_modify
  | |- fueled (try_ _) => apply fueled_try
  | |- fueled (raise _) => apply fueled_raise
  | |- fueled (or_panic _) => apply fueled_or_panic
  | |- fueled (for_each _ _) => apply fueled_for_each; intros ?
  | |- fueled (match ?x with _ => _ end) => destruct x
  | H : fueled ?m |- fueled ?m => exact H
  | H : ∀ x, fueled _ |- _ => apply H
  | H : ∀ x y, fueled _ |- _ => apply H
  end.
Ltac fueled_solve := repeat fueled_step.

Section bounds.
Context `{SerdeJson} `{Sha256} {MemoryCand SkillProposal Capability : Type}.
Context (h : AgentHarness MemoryCand SkillProposal Capability) (turn_id : TurnId).

Lemma fueled_hook name : fueled (run_lifecycle_hook h turn_id name).
Proof. unfold run_lifecycle_hook, run_hook. fueled_solve. Qed.
Lemma fueled_sort_decisions l : fueled (sort_decisions turn_id l).
Proof. induction l as [|[o [c d]] l IH]; cbn; fueled_solve. Qed.
Lemma fueled_record_results l : fueled (record_results h turn_id l).
Proof.
  induction l as [|[c r] l IH]; cbn; [fueled_solve|]. apply fueled_bind; [|intros ?; fueled_solve].
  unfold record_result, report_result, self_correct, count_failure, truncate_output,
    run_post_tool_hook, run_hook, SelfCorrect.record_failure. fueled_solve.
Qed.
Lemma fueled_run_batch batch : fueled (run_batch h turn_id batch).
Proof.
  pose proof fueled_sort_decisions. pose proof fueled_record_results.
  unfold run_batch, execute_all. fueled_solve.
Qed.

Lemma span_length {A} (q : A → bool) l : length (span q l).2 ≤ length l.
Proof.
  pose proof (span_app q l) as E. apply (f_equal length) in E. rewrite length_app in E. lia.
Qed.
(** A batch takes its first call, so the number of calls bounds the batches. *)
Lemma fueled_run_batches fuel calls :
  length calls ≤ fuel → fueled (run_batches h turn_id fuel calls).
Proof.
  revert calls. induction fuel as [|fuel IH]; intros [|c rest] Hl; cbn in *;
    [apply fueled_ret | lia | apply fueled_ret |].
  destruct (next_batch h c rest) as [batch rest'] eqn:E.
  apply fueled_bind; [apply fueled_run_batch | intros _]. apply IH.
  unfold next_batch in E. pose proof (span_length (is_safe h) rest).
  destruct (is_safe h c); [|naive_solver lia]. destruct (span _ rest); naive_solver lia.
Qed.

Lemma fueled_iteration n : fueled (turn_iteration h turn_id n).
Proof.
  pose proof fueled_hook as Hhook.
  assert (∀ n, fueled (finish_cancelled h turn_id n)) as Hc.
  { intros k. unfold finish_cancelled. fueled_solve. }
  assert (∀ n calls, fueled (run_tools h turn_id n calls)) as Ht.
  { intros k calls. pose proof (fueled_run_batches (length calls) calls (le_n _)).
    unfold run_tools, poll_cancel, critique_completed. fueled_solve. }
  assert (fueled (done_phase h turn_id)) as Hd.
  { intros s. unfold done_phase. by destruct (verify_before_done _ _ _ _ _ _ _ _ _) as [[? ?] ?]. }
  assert (∀ r, fueled (finish_or_continue h turn_id n r)) as Hf.
  { intros r. unfold finish_or_continue, critique_completed, complete_turn,
      extract_memory_candidates, recommend_memory_candidates, extract_skill_candidates,
      extract_capability_candidate, persist_candidates, hook_failed. fueled_solve. }
  assert (fueled (infer h turn_id n)) as Hi.
  { unfold infer, build_request, agent_self_block, project_memory_block, skills_block.
    fueled_solve. }
  unfold turn_iteration, poll_cancel. fueled_solve.
Qed.

(** ** Inferences are bounded by the budget *)

Definition is_infer (a : action) : bool := match a with DidInfer _ => true | _ => false end.
Definition infers (past : history) : nat := length (List.filter is_infer past).
Definition infers_kept (s s' : TurnState) : Prop :=
  infers (ts_past s') = infers (ts_past s) ∧ ts_budget s' = ts_budget s.
#[local] Instance infers_kept_aux : AuxRel infers_kept.
Proof.
  split; [split|..].
  - by intros s.
  - intros s1 s2 s3 [] []. unfold infers_kept. by split; etransitivity.
  - by intros.
  - intros a s Ha. unfold infers_kept, infers; cbn. by destruct a.
Qed.

(** An inference is the only step that adds one. *)
Definition one_more (s s' : TurnState) : Prop :=
  infers (ts_past s') ≤ S (infers (ts_past s)) ∧ ts_budget s' = ts_budget s.
Lemma always_then {A B} (m : op A) (k : A → op B) :
  (always infers_kept m ∧ ∀ a, always one_more (k a)) ∨
  (always one_more m ∧ ∀ a, always infers_kept (k a)) →
  always one_more (st_bind m k).
Proof.
  intros Hmk s. unfold st_bind.
  destruct Hmk as [[Hm Hk]|[Hm Hk]]; specialize (Hm s); destruct (m s) as [[a|e] s1]; cbn in *;
    try (specialize (Hk a s1)); unfold infers_kept, one_more in *; destruct_and?; split;
    first [lia | congruence].
Qed.

Lemma infer_one_more n : always one_more (infer h turn_id n).
Proof.
  unfold infer.
  apply always_then; left. split; [always_solve | intros _].
  apply always_then; left. split; [always_solve | intros req].
  apply always_then; left. split; [always_solve | intros _].
  apply always_then; right. split; [by intros s; split; cbn | intros past].
  always_solve. all: by intros s.
Qed.

Lemma run_batch_kept batch : always infers_kept (run_batch h turn_id batch).
Proof. apply always_run_batch; [apply _ | by intros ..]. Qed.

Lemma iteration_one_more n : always one_more (turn_iteration h turn_id n).
Proof.
  assert (∀ n calls, always infers_kept (run_tools h turn_id n calls)) as Ht.
  { intros k calls. apply always_run_tools; [apply _ | by intros .. | apply run_batch_kept]. }
  assert (∀ n r, always infers_kept (finish_or_continue h turn_id n r)) as Hf.
  { intros k r. apply always_finish_or_continue; [apply _ | by intros ..]. }
  assert (∀ m : op (option TurnOutcome), always infers_kept m → always one_more m) as Hkept.
  { intros m Hm s. destruct (Hm s) as [E ?]. split; [lia | done]. }
  unfold turn_iteration. apply always_then; left.
  split; [apply always_poll; [apply _ | by intros] | intros []].
  - apply Hkept. always_solve.
  - apply always_then; right. split; [apply infer_one_more | intros r].
    repeat case_match; auto.
Qed.

Lemma turn_loop_S fuel s :
  turn_loop h turn_id (S fuel) s =
  match consume s with
  | (Ok true, s1) =>
      match turn_iteration h turn_id (used (ts_budget s1)) s1 with
      | (Ok (Some o), s2) => (Ok o, s2)
      | (Ok None, s2) => turn_loop h turn_id fuel s2
      | (Err e, s2) => (Err e, s2)
      end
  | (Ok false, s1) => (Err (Failed (IterationLimit (h_max_iterations _ _ _ h))), s1)
  | (Err e, s1) => (Err e, s1)
  end.
Proof.
  cbn [turn_loop]. unfold st_bind at 1. destruct (consume s) as [[[]|e] s1]; [|done..].
  unfold st_bind at 1, gets. unfold st_bind.
  by destruct (turn_iteration h turn_id (used (ts_budget s1)) s1) as [[[o|]|e] s2].
Qed.

(** The loop, with the fuel it needs. *)
Lemma loop_bounded fuel s :
  budget_idle (ts_budget s) → max_total (ts_budget s) = h_max_iterations _ _ _ h →
  N.to_nat (max_total (ts_budget s) - used (ts_budget s)) < fuel →
  (turn_loop h turn_id fuel s).1 ≠ Err OutOfFuel ∧
  infers (ts_past (turn_loop h turn_id fuel s).2) ≤
    infers (ts_past s) + N.to_nat (max_total (ts_budget s) - used (ts_budget s)).
Proof.
  revert s. induction fuel as [|fuel IH]; intros s Hb Hmax Hf; [lia|]. rewrite turn_loop_S.
  destruct (consume_alone s Hb) as (b' & -> & Hb' & Hm' & Hu').
  destruct (N.ltb_spec (used (ts_budget s)) (max_total (ts_budget s))) as [Hlt|Hge].
  2: { split; [done | apply Nat.le_add_r]. }
  change (ts_budget (set_budget b' s)) with b'. set (s1 := set_budget b' s).
  pose proof (iteration_one_more (used b') s1) as [Hi Hbud].
  pose proof (fueled_iteration (used b') s1) as Hne.
  change (ts_past s1) with (ts_past s) in Hi. change (ts_budget s1) with b' in Hbud.
  destruct (turn_iteration h turn_id (used b') s1) as [[[o|]|e] s2]; cbn [fst snd] in *.
  - split; [done | lia].
  - destruct (IH s2) as [Hok Hcnt].
    + by rewrite Hbud.
    + rewrite Hbud. congruence.
    + rewrite Hbud, Hm', Hu'. lia.
    + split; [done|]. rewrite Hbud, Hm', Hu' in Hcnt. lia.
  - split; [congruence | lia].
Qed.

Lemma start_kept m : always infers_kept (start_turn h turn_id m).
Proof. unfold start_turn, compact_context_if_needed. always_solve; by intros. Qed.

Lemma fueled_start m : fueled (start_turn h turn_id m).
Proof.
  pose proof fueled_hook. unfold start_turn, compact_context_if_needed. fueled_solve.
Qed.

(** C4. Every turn ends: whatever the model, the tools, the policy and the checks
    do, the turn returns an outcome, an error or a panic after at most
    [max_iterations] inferences; the fuel of the model never runs out. *)
Theorem turn_terminates (session : SessionState) (user_message : str) (event_counter : N)
    (past : history) (Hmax : (h_max_iterations _ _ _ h < u32_modulus)%N) :
  let '(r, s') := run_turn_with_state h turn_id session user_message event_counter past in
  r ≠ Err OutOfFuel ∧
  infers (ts_past s') ≤ infers past + N.to_nat (h_max_iterations _ _ _ h).
Proof.
  unfold run_turn_with_state, st_bind.
  pose proof (start_kept user_message (initial_state h session event_counter past)) as [Hs Hb].
  pose proof (fueled_start user_message (initial_state h session event_counter past)) as Hf.
  change (ts_past (initial_state h session event_counter past)) with past in Hs.
  destruct (start_turn _ _ _ _) as [[[]|e] s1]; cbn [fst snd] in *; [|split; [congruence | lia]].
  destruct (loop_bounded (turn_fuel h) s1) as [Hok Hcnt].
  - rewrite Hb. split_and!; cbn; [done | lia | done].
  - by rewrite Hb.
  - rewrite Hb; cbn. unfold turn_fuel. lia.
  - destruct (turn_loop _ _ _ _) as [r s']; cbn [fst snd] in *. split; [done|].
    rewrite Hb, Hs in Hcnt. cbn [max_total used ts_budget initial_state IterationBudget_new] in Hcnt.
    unfold used in Hcnt; cbn in Hcnt. lia.
Qed.

End bounds.

(** ** The verify-and-fix cycle is bounded *)

Definition is_check (a : action) : bool := match a with DidCheck _ => true | _ => false end.
(** The checks a turn has run. *)
Definition checks (past : history) : nat := length (List.filter is_check past).

Section cycle.
Context `{SerdeJson} `{Sha256} {MemoryCand SkillProposal Capability : Type}.
Context (h : AgentHarness MemoryCand SkillProposal Capability) (turn_id : TurnId).
Abbreviation config := (h_verify _ _ _ h).

(** The model is done: it calls no tool, in no form. *)
Definition signals_done (response : HarnessInferenceResponse) : bool :=
  is_empty (resp_tool_calls response) &&
  negb (bool_decide (is_Some (text ← resp_assistant_message response;
                              salvage_tool_call text (names (h_tools _ _ _ h))))).
Definition answer_done (r : result HarnessError HarnessInferenceResponse) : nat :=
  match r with Ok response => if signals_done response then 1 else 0 | Err _ => 0 end.
(** How often the model has answered in a history that it is done. *)
Fixpoint dones (past : history) : nat :=
  match past with
  | [] => 0
  | a :: past' =>
      match a with DidInfer request => answer_done (h_infer _ _ _ h past request) | _ => 0 end
      + dones past'
  end.

(** What the cycle depends on stays the same. *)
Definition cycle_kept (s s' : TurnState) : Prop :=
  ts_verify s' = ts_verify s ∧ dones (ts_past s') = dones (ts_past s) ∧
  checks (ts_past s') = checks (ts_past s).
#[local] Instance cycle_kept_aux : AuxRel cycle_kept.
Proof.
  split; [split|..].
  - by intros s.
  - intros s1 s2 s3 (? & ? & ?) (? & ? & ?). split_and!; congruence.
  - by intros.
  - intros a s Ha. unfold cycle_kept, checks; cbn. by destruct a.
Qed.

(** An operation whose result counts for [f] answers that the model is done. *)
Definition answers {A} (f : result failure A → nat) (m : op A) : Prop :=
  ∀ s, let '(r, s') := m s in
  ts_verify s' = ts_verify s ∧ checks (ts_past s') = checks (ts_past s) ∧
  dones (ts_past s') = dones (ts_past s) + f r.
Lemma answers_after {A B} (m : op A) (k : A → op B) f :
  (∀ e, f (Err e) = 0) → always cycle_kept m → (∀ a, answers f (k a)) → answers f (st_bind m k).
Proof.
  intros Hf Hm Hk s. unfold st_bind. specialize (Hm s). destruct (m s) as [[a|e] s1]; cbn in Hm.
  - specialize (Hk a s1). destruct (k a s1) as [r s2]. unfold cycle_kept in Hm. destruct_and?.
    split_and!; congruence.
  - unfold cycle_kept in Hm. destruct_and?. rewrite Hf. split_and!; [done..|lia].
Qed.

Definition result_done (r : result failure HarnessInferenceResponse) : nat :=
  match r with Ok response => if signals_done response then 1 else 0 | Err _ => 0 end.
Lemma infer_answers n : answers result_done (infer h turn_id n).
Proof.
  unfold infer. do 3 (apply answers_after; [done|always_solve|intros ?]).
  intros s. unfold st_bind at 1, act. unfold st_bind at 1, try_, st_lift.
  set (past := _ :: ts_past s). set (s1 := add_action _ s).
  assert (dones (ts_past s1) = answer_done (h_infer _ _ _ h past a0) + dones (ts_past s)) as H1 by done.
  assert (ts_verify s1 = ts_verify s ∧ checks (ts_past s1) = checks (ts_past s)) as [Hv Hc] by done.
  destruct (h_infer _ _ _ h past a0) as [response|e]; cbn [map_err].
  2: { split_and!; [done..|]. rewrite H1. cbn. lia. }
  assert (always cycle_kept
    (do! record_event turn_id (InferenceRequested (resp_provider response) (resp_model response)) in
     do! accumulate response in
     do! record_event turn_id (InferenceCompleted (resp_finish_reason response) (resp_usage response)
                      (resp_cost response)) in st_ret response)) as Hk.
  { apply always_bind; [apply _|always_solve|intros _].
    apply always_bind; [apply _|by apply always_accumulate|intros _].
    apply always_bind; [apply _|by intros s0|intros _]. always_solve. }
  specialize (Hk s1). revert Hk.
  match goal with |- cycle_kept s1 (?m s1).2 → _ => set (mm := m) end. intros Hk.
  assert (∀ r s2, mm s1 = (r, s2) → r = Ok response) as Hr by (intros r s2 E; cbv [mm st_bind record_event accumulate modify st_ret] in E; congruence).
  destruct (mm s1) as [r s2]. rewrite (Hr r s2 eq_refl). cbn [snd] in Hk. unfold cycle_kept in Hk.
  destruct_and?. split_and!; [congruence..|]. cbn [result_done]. cbn [answer_done] in H1. lia.
Qed.

Lemma run_batch_cycle batch : always cycle_kept (run_batch h turn_id batch).
Proof. apply always_run_batch; [apply _ | by intros ..]. Qed.

(** The checks of a verification are no more than those enabled. *)
Lemma run_checks_count l attempt v s :
  let '(_, _, s') := Verify.run_checks (run_check h) (record_in turn_id) push_in config l attempt v s in
  checks (ts_past s') ≤ checks (ts_past s) + length l ∧ dones (ts_past s') = dones (ts_past s).
Proof.
  revert s. induction l as [|c l IH]; intros s; cbn; [lia|].
  destruct (execute _ _ _ _) as [r|e].
  - destruct (check_success (result_content r)); cbn.
    + match goal with |- context [Verify.run_checks _ _ _ _ _ _ _ ?s0] => specialize (IH s0) end.
      destruct (Verify.run_checks _ _ _ _ _ _ _ _) as [[o v'] s']. unfold checks in *. cbn in IH |- *. lia.
    + unfold checks; cbn. lia.
  - match goal with |- context [Verify.run_checks _ _ _ _ _ _ _ ?s0] => specialize (IH s0) end.
    destruct (Verify.run_checks _ _ _ _ _ _ _ _) as [[o v'] s']. unfold checks in *. cbn in IH |- *. lia.
Qed.

(** What a done-point spends: an attempt pays for the checks, and sending the model
    back costs patience. *)
Definition allowed : nat := length (enabled_checks config).
Definition paid (s s' : TurnState) : Prop :=
  (N.of_nat (checks (ts_past s')) + N.of_nat allowed * vs_attempts (ts_verify s) <=
   N.of_nat (checks (ts_past s)) + N.of_nat allowed * vs_attempts (ts_verify s'))%N ∧
  (vs_attempts (ts_verify s') <= verify_iterations config)%N.

Hypothesis Hn : (verify_iterations config < u32_modulus)%N.

Lemma done_phase_paid s :
  (vs_attempts (ts_verify s) <= verify_iterations config)%N →
  let '(r, s') := done_phase h turn_id s in
  paid s s' ∧ dones (ts_past s') = dones (ts_past s) ∧
  (patience config (ts_verify s') <= patience config (ts_verify s))%N ∧
  (r = Ok Continue → patience config (ts_verify s') < patience config (ts_verify s))%N.
Proof.
  intros Hle. unfold done_phase. set (b := bool_decide _). set (d := h_detected_test _ _ _ h _).
  assert (∀ v s1, let '(_, v2, s2) := critique_phase push_in config (ts_executed s) v s1 in
            vs_attempts v2 = vs_attempts v ∧ checks (ts_past s2) = checks (ts_past s1) ∧
            dones (ts_past s2) = dones (ts_past s1)) as Hc.
  { intros v s1. unfold critique_phase. by destruct (_ && _). }
  assert (let '(_, v', s') := verify_before_done (run_check h) (record_in turn_id) push_in config b d
            (ts_executed s) (ts_verify s) s in
          (N.of_nat (checks (ts_past s')) + N.of_nat allowed * vs_attempts (ts_verify s) <=
           N.of_nat (checks (ts_past s)) + N.of_nat allowed * vs_attempts v')%N ∧
          dones (ts_past s') = dones (ts_past s)) as Hcount.
  { unfold verify_before_done. destruct (should_verify config (ts_executed s) (ts_verify s)) eqn:Hs.
    2: { specialize (Hc (ts_verify s) s). destruct (critique_phase _ _ _ _ s) as [[ph v2] s2].
         destruct Hc as (-> & -> & ->). done. }
    unfold should_verify in Hs. apply andb_true_iff in Hs as [_ Hs%N.ltb_lt].
    assert (let '(_, v1, s1) := run_verification (run_check h) (record_in turn_id) push_in config b d
              (ts_verify s) s in
            (N.of_nat (checks (ts_past s1)) + N.of_nat allowed * vs_attempts (ts_verify s) <=
             N.of_nat (checks (ts_past s)) + N.of_nat allowed * vs_attempts v1)%N ∧
            dones (ts_past s1) = dones (ts_past s)) as Hr.
    { unfold run_verification. destruct (negb b); [split; [lia|done]|].
      destruct (_ && _); [split; [lia|done]|]. destruct (is_empty (enabled_checks config)); [split; [lia|done]|].
      pose proof (run_checks_count (enabled_checks config) (vs_attempts (bump_attempts (ts_verify s)))
                    (bump_attempts (ts_verify s)) s) as Hk.
      pose proof (run_checks_spec (run_check h) (record_in turn_id) push_in config (enabled_checks config)
                    (vs_attempts (bump_attempts (ts_verify s))) (bump_attempts (ts_verify s)) s) as Hsp.
      destruct (Verify.run_checks _ _ _ _ _ _ _ _) as [[o v1] s1]. destruct Hsp as (-> & _).
      change (vs_attempts (set_last_verified ?x ?y)) with (vs_attempts y).
      change (vs_attempts (bump_attempts (ts_verify s))) with (u32_add (vs_attempts (ts_verify s)) 1).
      unfold u32_add. rewrite N.mod_small by lia. unfold allowed. split; [|apply Hk].
      destruct Hk as [Hk _]. lia. }
    destruct (run_verification _ _ _ _ _ _ _ _) as [[o v1] s1].
    specialize (Hc v1 s1). destruct (critique_phase _ _ _ _ s1) as [[ph v2] s2].
    destruct Hc as (Hc1 & Hc2 & Hc3). destruct o; rewrite ?Hc1, ?Hc2, ?Hc3; exact Hr. }
  pose proof (patience_step (run_check h) (record_in turn_id) push_in config b d (ts_executed s) (ts_verify s) s) as Hp.
  pose proof (attempts_step (run_check h) (record_in turn_id) push_in config b d (ts_executed s) (ts_verify s) s) as Ha.
  destruct (verify_before_done _ _ _ _ _ _ _ _ _) as [[ph v'] s'].
  destruct (Hp ph v' s' Hn eq_refl) as [Hp1 Hp2]. destruct (Ha ph v' s' Hn Hle eq_refl) as [Ha1 Ha2].
  destruct Hcount as [H1 H2]. split; [split; [exact H1|exact Ha2]|]. split; [exact H2|].
  split; [exact Hp1|]. intros [= ->]. by apply Hp2.
Qed.

(** What an operation may cost: an answer that the model is done, when it does not
    end the turn, is paid for with patience. *)
Definition within (s : TurnState) : Prop := (vs_attempts (ts_verify s) <= verify_iterations config)%N.
Definition owed (s : TurnState) : Z :=
  Z.of_nat (dones (ts_past s)) + Z.of_N (patience config (ts_verify s)).
Definition spends (cost : Z) (s s' : TurnState) : Prop :=
  within s → paid s s' ∧ (owed s' <= owed s + cost)%Z.
Definition costs {A} (f : result failure A → Z) (m : op A) : Prop :=
  ∀ s, let '(r, s') := m s in spends (f r) s s'.

Lemma spends_kept s s' : cycle_kept s s' → spends 0 s s'.
Proof.
  intros (Hv & Hd & Hc) Hw. unfold paid, owed. rewrite Hv, Hd, Hc. unfold within in Hw. lia.
Qed.
Lemma spends_trans c1 c2 s1 s2 s3 : spends c1 s1 s2 → spends c2 s2 s3 → spends (c1 + c2) s1 s3.
Proof.
  intros Ha Hb Hw. destruct (Ha Hw) as [P1 O1]. destruct (Hb (proj2 P1)) as [P2 O2].
  unfold paid in *. lia.
Qed.
Lemma spends_le c1 c2 s s' : (c1 <= c2)%Z → spends c1 s s' → spends c2 s s'.
Proof. intros Hle Hs Hw. destruct (Hs Hw) as [? ?]. split; [done|lia]. Qed.

Lemma costs_kept {A} (m : op A) : always cycle_kept m → costs (λ _, 0%Z) m.
Proof. intros Hm s. specialize (Hm s). destruct (m s) as [r s']. by apply spends_kept. Qed.
Lemma costs_bind {A B} (m : op A) (k : A → op B) f :
  (∀ e, 0 <= f (Err e))%Z → costs (λ _, 0%Z) m → (∀ a, costs f (k a)) → costs f (st_bind m k).
Proof.
  intros Hf Hm Hk s. unfold st_bind. specialize (Hm s). destruct (m s) as [[a|e] s1].
  - specialize (Hk a s1). destruct (k a s1) as [r s2]. exact (spends_trans 0 _ _ _ _ Hm Hk).
  - exact (spends_le 0 _ _ _ (Hf e) Hm).
Qed.

Lemma critique_costs b : costs (λ _, 0%Z) (critique_completed turn_id b).
Proof.
  intros s. unfold critique_completed, st_bind, gets.
  destruct (critique_pending (ts_verify s)); [|by apply spends_kept].
  intros Hw. unfold modify, record_event, paid, owed, checks; cbn. unfold within in Hw.
  change (patience config (clear_critique_pending ?v)) with (patience config v). lia.
Qed.

(** Sending the model back takes patience; ending the turn takes none. *)
Definition sent_back (r : result failure (option TurnOutcome)) : Z :=
  match r with Ok None => -1 | _ => 0 end.
Lemma done_phase_costs :
  costs (λ r, match r with Ok Continue => (-1)%Z | _ => 0%Z end) (done_phase h turn_id).
Proof.
  intros s. pose proof (done_phase_paid s) as Hp. destruct (done_phase h turn_id s) as [r s'].
  intros Hw. destruct (Hp Hw) as (P & Hd & Hle & Hlt). split; [done|]. unfold owed. rewrite Hd.
  destruct r as [[|]|]; try lia. specialize (Hlt eq_refl). lia.
Qed.
Lemma finish_costs n response : costs sent_back (finish_or_continue h turn_id n response).
Proof.
  unfold finish_or_continue. apply costs_bind; [done| |intros _].
  { apply costs_kept. destruct (resp_assistant_message response); always_solve; by intros. }
  apply costs_bind; [done|apply critique_costs|intros _].
  intros s. unfold st_bind at 1. pose proof (done_phase_costs s) as Hd.
  destruct (done_phase h turn_id s) as [[[verified|]|e] s1]; [|exact Hd..].
  assert (always cycle_kept (complete_turn h turn_id n (resp_assistant_message response) verified))
    as Hc by (always_solve; by intros).
  specialize (Hc s1). unfold st_bind. destruct (complete_turn _ _ _ _ _ s1) as [[o|e] s2];
    exact (spends_trans 0 0 _ _ _ Hd (spends_kept _ _ Hc)).
Qed.

Lemma run_tools_costs n calls : costs (λ _, 0%Z) (run_tools h turn_id n calls).
Proof.
  unfold run_tools. apply costs_bind; [done| |intros []].
  - apply costs_kept, always_poll; [apply _|by intros].
  - apply costs_kept. always_solve; by intros.
  - apply costs_bind; [done|apply critique_costs|intros _]. apply costs_kept.
    apply always_bind; [apply _|always_solve; by intros|intros _].
    apply always_bind; [apply _| |intros _; always_solve; by intros].
    apply always_run_batches; [apply _|apply run_batch_cycle].
Qed.

(** An iteration that does not end the turn is paid for; the last may be free. *)
Definition ended (r : result failure (option TurnOutcome)) : Z :=
  match r with Ok None => 0 | _ => 1 end.
Lemma turn_iteration_costs n : costs ended (turn_iteration h turn_id n).
Proof.
  unfold turn_iteration. apply costs_bind; [done| |intros []].
  { apply costs_kept, always_poll; [apply _|by intros]. }
  { intros s. assert (always cycle_kept (finish_cancelled h turn_id (u32_saturating_sub n 1))) as Hc
      by (always_solve; by intros). specialize (Hc s). unfold st_bind.
    destruct (finish_cancelled _ _ _ s) as [[o|e] s1]; eapply spends_le, spends_kept, Hc; done. }
  intros s. unfold st_bind. pose proof (infer_answers n s) as Hi.
  destruct (infer h turn_id n s) as [r s1]. destruct Hi as (Hv & Hc & Hd).
  assert (spends (Z.of_nat (result_done r)) s s1) as Hs.
  { intros Hw. unfold paid, owed. rewrite Hv, Hc, Hd. unfold within in Hw. lia. }
  destruct r as [response|e]; [|by eapply spends_le, Hs]. cbn [result_done] in Hs.
  unfold signals_done in Hs.
  destruct (resp_tool_calls response) as [|c l]; cbn [is_empty andb] in *.
  - destruct (resp_assistant_message response ≫= _) as [call|] eqn:Ht; cbn in Hs.
    + pose proof (run_tools_costs n [call] s1) as Hr. destruct (run_tools _ _ _ _ s1) as [r s2].
      eapply spends_le, (spends_trans 0 0), Hr; [|exact Hs]. by destruct r as [[]|].
    + pose proof (finish_costs n response s1) as Hr. destruct (finish_or_continue _ _ _ _ s1) as [r s2].
      eapply spends_le, (spends_trans 1), Hr; [|exact Hs]. by destruct r as [[]|].
  - pose proof (run_tools_costs n (c :: l) s1) as Hr. destruct (run_tools _ _ _ _ s1) as [r s2].
    eapply spends_le, (spends_trans 0 0), Hr; [|exact Hs]. by destruct r as [[]|].
Qed.

Lemma turn_loop_costs fuel : costs (λ _, 1%Z) (turn_loop h turn_id fuel).
Proof.
  induction fuel as [|fuel IH]; intros s; [by eapply spends_le, spends_kept|].
  rewrite turn_loop_S.
  assert (always cycle_kept consume) as Hc by (apply always_consume; [apply _|by intros]).
  specialize (Hc s). destruct (consume s) as [[[|]|e] s1]; [|by eapply spends_le, spends_kept..].
  pose proof (turn_iteration_costs (used (ts_budget s1)) s1) as Hi.
  destruct (turn_iteration _ _ _ s1) as [[[o|]|e] s2];
    [exact (spends_trans 0 1 _ _ _ (spends_kept _ _ Hc) Hi)| |
     exact (spends_trans 0 1 _ _ _ (spends_kept _ _ Hc) Hi)].
  specialize (IH s2). destruct (turn_loop _ _ _ s2) as [r s3].
  exact (spends_trans 0 1 _ _ _ (spends_kept _ _ Hc) (spends_trans 0 1 _ _ _ Hi IH)).
Qed.

(** C38. The verify-and-fix cycle of a turn is bounded, whatever the model, the tools
    and the checks do: over a whole turn the model answers that it is done at most two
    times more than the verification attempts allowed, and the turn runs at most that
    many attempts' worth of checks; the harness sends a model that is done back only so
    often. *)
Theorem verify_cycle_bounded (session : SessionState) (user_message : str) (event_counter : N)
    (past : history) :
  let s' := (run_turn_with_state h turn_id session user_message event_counter past).2 in
  (N.of_nat (dones (ts_past s')) <= N.of_nat (dones past) + verify_iterations config + 2)%N ∧
  (N.of_nat (checks (ts_past s')) <=
   N.of_nat (checks past) + N.of_nat (length (enabled_checks config)) * verify_iterations config)%N.
Proof.
  assert (costs (λ _, 1%Z)
            (do! start_turn h turn_id user_message in turn_loop h turn_id (turn_fuel h))) as Hc.
  { apply costs_bind; [done| |intros _; apply turn_loop_costs]. apply costs_kept.
    unfold start_turn, compact_context_if_needed. always_solve; by intros. }
  specialize (Hc (initial_state h session event_counter past)). unfold run_turn_with_state.
  destruct ((do! start_turn h turn_id user_message in turn_loop h turn_id (turn_fuel h)) _)
    as [r s'].
  destruct (Hc ltac:(unfold within; cbn; lia)) as [[P W] O]. cbn [snd].
  unfold owed, patience in O. cbn in P, O. unfold allowed, checks in *. split; [case_match; lia|nia].
Qed.

End cycle.

(** ** Usage totals *)

(** The usage and the cost of the inferences in a list of events. *)
Definition tally_usage (acc : option TokenUsage) (e : AgentEvent) : option TokenUsage :=
  match e with
  | TurnEvent _ _ _ (InferenceCompleted _ (Some u) _) =>
      Some (usage_add (default TokenUsage_default acc) u)
  | _ => acc
  end.
Definition tally_cost (acc : option CostEstimate) (e : AgentEvent) : option CostEstimate :=
  match e with
  | TurnEvent _ _ _ (InferenceCompleted _ _ (Some c)) =>
      Some (cost_add (default CostEstimate_default acc) c)
  | _ => acc
  end.
Definition sum_usage (events : list AgentEvent) : option TokenUsage := foldl tally_usage None events.
Definition sum_cost (events : list AgentEvent) : option CostEstimate := foldl tally_cost None events.

Definition tallied (s : TurnState) : Prop :=
  ts_usage s = sum_usage (ts_events s) ∧ ts_cost s = sum_cost (ts_events s).

#[export] Instance tallied_aux : AuxRel (preserves tallied).
Proof.
  split; [apply _| |].
  - intros session turn e s He [Hu Hc]. unfold tallied; cbn. rewrite Hu, Hc.
    unfold sum_usage, sum_cost. rewrite !foldl_app. by destruct e.
  - by intros a s _ Hs.
Qed.

Section usage.
Context `{SerdeJson} `{Sha256} {MemoryCand SkillProposal Capability : Type}.
Context (h : AgentHarness MemoryCand SkillProposal Capability) (turn_id : TurnId).

Lemma infer_tallied n : always (preserves tallied) (infer h turn_id n).
Proof.
  unfold infer. do 3 (apply always_bind; [apply _ | always_solve | intros ?]).
  apply always_bind; [apply _ | by intros s Hs | intros past].
  apply always_bind; [apply _ | always_solve | intros r].
  apply always_bind; [apply _ | always_solve | intros _].
  intros s [Hu Hc]. unfold tallied, st_bind, accumulate, modify; cbn.
  rewrite Hu, Hc. unfold sum_usage, sum_cost. rewrite !foldl_app. cbn.
  by destruct (resp_usage r), (resp_cost r).
Qed.

Lemma iteration_tallied n : always (preserves tallied) (turn_iteration h turn_id n).
Proof.
  apply always_turn_iteration; [apply _ | unframed.. | apply infer_tallied |].
  intros batch. apply always_run_batch; [apply _ | unframed..].
Qed.

(** The closing event of a turn and the outcome that carries it. *)
Definition closes (o : TurnOutcome) : Prop :=
  ∃ pre id session iterations verified,
    out_events o = pre ++ [TurnEvent id session turn_id
                             (TurnCompleted iterations (sum_usage pre) (sum_cost pre) verified)] ∧
    (out_cancelled o = true → verified = None).
Definition closes_opt (o : option TurnOutcome) : Prop :=
  match o with Some o => closes o | None => True end.

(** From a tallied state, a successful run ends in an outcome that closes. *)
Definition yields_from {A} (m : op A) (Q : A → Prop) : Prop :=
  ∀ s a s', tallied s → m s = (Ok a, s') → Q a.

Lemma yields_from_bind {A B} (m : op A) (k : A → op B) Q :
  always (preserves tallied) m → (∀ a, yields_from (k a) Q) → yields_from (st_bind m k) Q.
Proof.
  intros Hm Hk s b s' Hs (a & s1 & E1 & E2)%st_bind_Ok. eapply Hk; [|exact E2].
  specialize (Hm s Hs). by rewrite E1 in Hm.
Qed.
Lemma yields_from_wrap (m : op TurnOutcome) :
  yields_from m closes → yields_from (let! o := m in st_ret (Some o)) closes_opt.
Proof. intros Hm s o s' Hs (a & s1 & E & [= <- <-])%st_bind_Ok. by eapply Hm. Qed.

Lemma finish_cancelled_closes n : yields_from (finish_cancelled h turn_id n) closes.
Proof.
  unfold finish_cancelled. apply yields_from_bind; [always_solve | intros _].
  intros s o s' [Hu Hc] E. cbn in E. injection E as <- <-.
  eexists _, _, _, _, _. cbn. by rewrite <- Hu, <- Hc.
Qed.

Lemma complete_turn_closes n m v : yields_from (complete_turn h turn_id n m v) closes.
Proof.
  unfold complete_turn. apply yields_from_bind; [always_solve | intros _].
  intros s o s' Hs E. apply st_bind_Ok in E as (s0 & s1 & [= <- <-] & E). unfold id in E.
  set (closing := record_event turn_id (TurnCompleted n (ts_usage s) (ts_cost s) v)) in E.
  assert (∀ (m : op unit) s1, quiet s s1 → tallied s1 → always quiet m →
    always (preserves tallied) m → ∀ s2, m s1 = (Ok tt, s2) → quiet s s2 ∧ tallied s2) as Hstep.
  { intros mm s1 Hq Ht Hmq Hmt s2 Em. specialize (Hmq s1). specialize (Hmt s1 Ht).
    rewrite Em in Hmq, Hmt. split; [by etransitivity | done]. }
  do 4 (apply st_bind_Ok in E as ([] & ?s & ?E & E)).
  apply (Hstep _ s) in E0 as [Q0 T0]; [| done | done | always_solve | always_solve].
  apply (Hstep _ s0) in E1 as [Q1 T1]; [| done | done | always_solve | always_solve].
  apply (Hstep _ s1) in E2 as [Q2 T2]; [| done | done | always_solve | always_solve].
  apply (Hstep _ s2) in E3 as [Q3 [T3u T3c]]; [| done | done | always_solve | always_solve].
  cbn in E. injection E as <- <-. destruct Q3 as [_ _ Hu Hc _ _ _].
  eexists _, _, _, _, _. cbn. rewrite <- Hu, <- Hc, T3u, T3c. by split.
Qed.

Lemma run_tools_closes n calls : yields_from (run_tools h turn_id n calls) closes_opt.
Proof.
  unfold run_tools. apply yields_from_bind; [apply always_poll; [apply _ | unframed]|].
  intros []; [apply yields_from_wrap, finish_cancelled_closes|].
  intros s o s' _ E. do 3 (apply st_bind_Ok in E as (? & ? & _ & E)). by injection E as <- <-.
Qed.

Lemma finish_closes n r : yields_from (finish_or_continue h turn_id n r) closes_opt.
Proof.
  unfold finish_or_continue.
  apply yields_from_bind; [destruct (resp_assistant_message r); [by intros s Hs | always_solve]|].
  intros _. apply yields_from_bind; [apply always_critique; [apply _ | unframed] | intros _].
  apply yields_from_bind; [apply always_done_phase; [apply _ | unframed..]|].
  intros [v|]; [apply yields_from_wrap, complete_turn_closes|]. by intros s o s' _ [= <- <-].
Qed.

Lemma iteration_closes n : yields_from (turn_iteration h turn_id n) closes_opt.
Proof.
  unfold turn_iteration. apply yields_from_bind; [apply always_poll; [apply _ | unframed]|].
  intros []; [apply yields_from_wrap, finish_cancelled_closes|].
  apply yields_from_bind; [apply infer_tallied|]. intros r.
  repeat case_match; first [apply run_tools_closes | apply finish_closes].
Qed.

Lemma loop_closes fuel : yields_from (turn_loop h turn_id fuel) closes.
Proof.
  induction fuel as [|fuel IH]; [done|]. intros s o s' Hs. rewrite turn_loop_S.
  destruct (consume s) as [[[]|e] s1] eqn:Ec; try done.
  assert (tallied s1) as Hs1.
  { pose proof (always_consume (preserves tallied)) as Hc. specialize (Hc ltac:(unframed) s Hs).
    by rewrite Ec in Hc. }
  destruct (turn_iteration _ _ _ s1) as [[[o'|]|e] s2] eqn:Ei; try done.
  - intros [= <- <-]. by apply (iteration_closes _ _ _ _ Hs1 Ei).
  - apply IH. pose proof (iteration_tallied (used (ts_budget s1)) s1 Hs1) as Ht.
    by rewrite Ei in Ht.
Qed.

(** C32. The closing event reports the whole turn: a turn that returns an outcome
    ends its events with [TurnCompleted], whose usage and cost are the saturating
    sums over the [InferenceCompleted] events before it, absent when none reported
    any; a cancelled turn never claims to be verified. *)
Theorem turn_completed_totals (session : SessionState) (user_message : str) (event_counter : N)
    (past : history) (o : TurnOutcome) (s' : TurnState)
    (Hrun : run_turn_with_state h turn_id session user_message event_counter past = (Ok o, s')) :
  ∃ pre id session_id iterations verified,
    out_events o = pre ++ [TurnEvent id session_id turn_id
                             (TurnCompleted iterations (sum_usage pre) (sum_cost pre) verified)] ∧
    (out_cancelled o = true → verified = None).
Proof.
  unfold run_turn_with_state in Hrun. apply st_bind_Ok in Hrun as ([] & s1 & E1 & E2).
  eapply loop_closes; [|exact E2].
  assert (always (preserves tallied) (start_turn h turn_id user_message)) as Hs.
  { unfold start_turn, compact_context_if_needed. always_solve; unframed. }
  specialize (Hs (initial_state h session event_counter past)). rewrite E1 in Hs. by apply Hs.
Qed.

End usage.

(** ** Concrete turns

    A scripted model and a few tools, to run the loop on: the witnesses of the
    theorems about turns, and the runs that show where the code departs from what
    it means to do. *)

#[local] Existing Instance string_json.
Definition demo_sha : Sha256 := {| sha256_hex := λ s, s |}.
#[local] Existing Instance demo_sha.

(** ** The harness *)

Definition a_tool (name : str) (run : moment → Value → result HarnessError ToolResult)
    : Tool moment :=
  {| ToolRegistry.tool_name := name; tool_description := lit "a tool"; tool_input_schema := VNull;
     tool_is_concurrency_safe := λ _, false; tool_permission_scope := λ _, Shell;
     tool_execute := run |}.
Definition returns (v : Value) : moment → Value → result HarnessError ToolResult :=
  λ _ _, Ok (ToolResult_json v).
Definition demo_tools : ToolRegistry moment :=
  with_tool (a_tool (lit "apply_patch") (returns (VObject [])))
    (with_tool (a_tool (lit "run_checks") (returns (VObject [(lit "success", VBool true)])))
       (with_tool (a_tool (lit "broken") (λ _ _, Err (ToolFailed (lit "broken") (lit "no luck"))))
          ToolRegistry_new)).

Definition reply (calls : list ToolCall) (text : option str) : HarnessInferenceResponse :=
  {| resp_provider := lit "p"; resp_model := lit "m"; resp_assistant_message := text;
     resp_tool_calls := calls; resp_finish_reason := None;
     resp_usage := Some {| input_tokens := 5; output_tokens := 2; cache_read_tokens := 0;
                           cache_write_tokens := 0; reasoning_tokens := 0 |};
     resp_cost := None |}.
Definition a_call (id name : str) : ToolCall :=
  {| call_id := id; call_name := name; call_input := VNull |}.

(** The model calls the tools once and then answers. *)
Definition script (calls : list ToolCall) (past : history) (_ : HarnessInferenceRequest)
    : result HarnessError HarnessInferenceResponse :=
  Ok (if infers past =? 1 then reply calls None else reply [] (Some (lit "done"))).
(** Everything but [run_checks] is allowed. *)
Definition no_checks (_ : history) (_ : nat) (r : PermissionRequest)
    : result HarnessError PermissionDecision :=
  Ok (if decide (request_tool_name r = lit "run_checks")
      then decision_deny (request_id r) ModeDeny (lit "denied")
      else decision_allow (request_id r) ModeAllow).

Definition demo_harness (calls : list ToolCall) (verify : VerifyConfig)
    (correct : SelfCorrectConfig) (max : N) : AgentHarness unit unit unit :=
  {| h_infer := script calls; h_workspace_root := lit "/w"; h_tools := demo_tools;
     h_decide := no_checks; h_hooks := []; h_load_instructions := λ _, Ok {| instructions := [] |};
     h_memory_provider := None; h_skill_provider := None; h_memory_extractor := None;
     h_memory_recommender := None; h_memory_sink := None; h_skill_extractor := None;
     h_skill_sink := None; h_capability_extractor := None; h_capability_sink := None;
     h_context_window := None; h_agent_self := None; h_persona := None; h_curated_memory := None;
     h_base_prompt := None; h_workspace_context := None; h_plan_store := None;
     h_max_iterations := max; h_truncation := {| max_bytes := 1000 |}; h_persist := λ _ _ _, None;
     h_tool_choice := None; h_response_format := None; h_cancelled := λ _, false;
     h_detected_test := λ _, true; h_verify := verify; h_self_correct := correct |}.

Definition run_demo (h : AgentHarness unit unit unit) : result failure TurnOutcome * TurnState :=
  run_turn_with_state h (lit "turn-1") (SessionState_new (lit "session-1")) (lit "go") 1 [].

Definition roles_of (r : result failure TurnOutcome * TurnState) : list SessionRole :=
  msg_role <$> messages (ts_session r.2).
Definition outcome_of (r : result failure TurnOutcome * TurnState) : option TurnOutcome :=
  match r.1 with Ok o => Some o | Err _ => None end.

(** ** Witnesses *)

Definition plain_demo : AgentHarness unit unit unit :=
  demo_harness [a_call (lit "1") (lit "apply_patch")] VerifyConfig_default
    SelfCorrectConfig_default 5.
Definition plain_outcome : option TurnOutcome :=
  Eval vm_compute in outcome_of (run_demo plain_demo).
Definition empty_outcome : TurnOutcome :=
  {| out_assistant_message := None; out_tool_calls := []; out_events := [];
     out_session_state := SessionState_new []; out_cancelled := false |}.

Lemma plain_run : ∃ s', run_demo plain_demo = (Ok (default empty_outcome plain_outcome), s').
Proof. eexists. vm_compute. reflexivity. Qed.

Lemma executed_calls_were_allowed_witness :
  all_authorized plain_demo (ts_past (run_demo plain_demo).2).
Proof.
  unfold run_demo. exact (executed_calls_were_allowed plain_demo (lit "turn-1")
    (SessionState_new (lit "session-1")) (lit "go") 1 [] I).
Defined.

Lemma turn_transcript_witness :
  ∃ new, scan [] new = Some [] ∧
    concat (msg_tool_calls <$> new) = called <$> out_tool_calls (default empty_outcome plain_outcome).
Proof.
  destruct plain_run as [s' E].
  destruct (turn_transcript plain_demo (lit "turn-1") (SessionState_new (lit "session-1"))
    (lit "go") 1 [] _ s' E) as (s1 & new & _ & _ & Hs & Hc).
  exists new. split; [exact Hs | exact Hc].
Defined.

Lemma turn_terminates_witness :
  (run_demo plain_demo).1 ≠ Err OutOfFuel.
Proof.
  pose proof (turn_terminates plain_demo (lit "turn-1") (SessionState_new (lit "session-1"))
    (lit "go") 1 [] eq_refl) as H. unfold run_demo.
  destruct (run_turn_with_state _ _ _ _ _ _) as [r s]. exact (proj1 H).
Defined.

Lemma turn_completed_totals_witness :
  ∃ pre id session_id iterations verified,
    out_events (default empty_outcome plain_outcome) =
    pre ++ [TurnEvent id session_id (lit "turn-1")
              (TurnCompleted iterations (sum_usage pre) (sum_cost pre) verified)].
Proof.
  destruct plain_run as [s' E].
  destruct (turn_completed_totals plain_demo (lit "turn-1") (SessionState_new (lit "session-1"))
    (lit "go") 1 [] _ s' E) as (pre & id & sid & n & v & Ho & _).
  exists pre, id, sid, n, v. exact Ho.
Defined.

(** ** Where the code departs from its intent *)

Definition quick_nudges : SelfCorrectConfig :=
  {| error_hints := true; replan_on_failure := true; failure_budget := 1 |}.
Definition nudge_demo : AgentHarness unit unit unit :=
  demo_harness [a_call (lit "1") (lit "broken"); a_call (lit "2") (lit "broken")]
    VerifyConfig_default quick_nudges 5.

(** A nudge can separate the results of one response: when a response carries
    two calls that may not run together and the first exhausts its failure budget,
    the user message of the nudge is placed before the second call's result, so
    the results do not follow the assistant message in one block. *)
Theorem nudge_between_results :
  is_ok (run_demo nudge_demo).1 = true ∧
  roles_of (run_demo nudge_demo) = [RUser; RAssistant; RTool; RUser; RTool; RAssistant] ∧
  (∃ calls, msg_tool_calls <$> messages (ts_session (run_demo nudge_demo).2) !! 1 = Some calls ∧
            length calls = 2).
Proof.
  split; [vm_compute; reflexivity|]. split; [vm_compute; reflexivity|].
  exists [a_call (lit "1") (lit "broken"); a_call (lit "2") (lit "broken")].
  split; [vm_compute; reflexivity | reflexivity].
Qed.

Definition checking : VerifyConfig :=
  {| self_verify := true; auto_test := true; lint_and_fix := false; self_critique := false;
     verify_iterations := 3; test_command := None |}.
Definition bypass_demo : AgentHarness unit unit unit :=
  demo_harness [a_call (lit "1") (lit "apply_patch")] checking SelfCorrectConfig_default 5.

(** A turn that changed a file, with one check enabled and three attempts allowed. *)
Lemma verify_cycle_bounded_witness :
  let s' := (run_demo bypass_demo).2 in
  (1 <= N.of_nat (dones bypass_demo (ts_past s')) <= 5)%N ∧
  (1 <= N.of_nat (checks (ts_past s')) <= 3)%N.
Proof.
  pose proof (verify_cycle_bounded bypass_demo (lit "turn-1") eq_refl
    (SessionState_new (lit "session-1")) (lit "go") 1 []) as [Hd Hc].
  split; split; [by vm_compute|exact Hd|by vm_compute|exact Hc].
Defined.

(** Verification does not ask the permission policy: under a policy that denies
    every request to run [run_checks], a turn that changed a file still executes
    [run_checks] and completes as verified. *)
Theorem verification_ignores_policy :
  (∀ past i r, request_tool_name r = lit "run_checks" →
     ∃ d, h_decide _ _ _ bypass_demo past i r = Ok d ∧ allows_execution d = false) ∧
  existsb is_check (ts_past (run_demo bypass_demo).2) = true ∧
  is_ok (run_demo bypass_demo).1 = true.
Proof.
  split.
  - intros past i r Hr. cbn. unfold no_checks. rewrite decide_True by done. by eexists.
  - split; vm_compute; reflexivity.
Qed.

(** A conversation with two answered calls, and its compaction. *)
Definition before_compaction : SessionState :=
  {| session_id := lit "s";
     messages := [msg_user (lit "go");
                  msg_assistant_tool_calls [a_call (lit "1") (lit "x"); a_call (lit "2") (lit "x")];
                  msg_tool_result (lit "1") (lit "x") (lit "one");
                  msg_tool_result (lit "2") (lit "x") (lit "two");
                  msg_assistant (lit "ok"); msg_user (lit "thanks")] |}.
Definition after_compaction : SessionState :=
  (compact_with_summary (lit "...") DEFAULT_COMPACTION_RECENT_MESSAGES before_compaction).2.

(** Compaction can orphan tool results: it keeps the last four messages wherever
    they start, so a transcript whose calls are all answered can become one that
    begins, after the summary, with the results of calls it no longer contains. *)
Theorem compaction_orphans_results :
  scan [] (messages before_compaction) = Some [] ∧
  msg_role <$> messages after_compaction = [RSystem; RTool; RTool; RAssistant; RUser] ∧
  scan [] (tail (messages after_compaction)) = None.
Proof. split_and!; vm_compute; reflexivity. Qed.

(** ** Graced failures *)

Section grace.
Context {MemoryCand SkillProposal Capability : Type}.
Context (h : AgentHarness MemoryCand SkillProposal Capability) (turn_id : TurnId).

(** An operation failing over and over, with these messages. *)
Fixpoint count_failures (signature : str) (msgs : list str) : op (list str) :=
  match msgs with
  | [] => st_ret []
  | m :: msgs =>
      let! nudges := count_failure h turn_id signature m in
      let! more := count_failures signature msgs in
      st_ret (nudges ++ more)
  end.

(** Not only the first invalid-input failure is graced: since a graced failure
    leaves the streak at zero, an operation whose failures are all classified as
    invalid input is graced every time; however often it fails, no failure is
    counted, no event recorded and no nudge produced, whatever the budget. *)
Theorem invalid_input_always_graced (signature : str) (msgs : list str) (s : TurnState)
    (Hkind : Forall (λ m, (classify m).1 = InvalidInput) msgs)
    (Hfresh : streak signature (ts_tracker s) = 0%N) :
  count_failures signature msgs s = (Ok [], s).
Proof.
  induction Hkind as [|m msgs Hm Hms IH]; [done|]. cbn [count_failures].
  assert (count_failure h turn_id signature m s = (Ok [], s)) as Hc.
  { unfold count_failure, st_bind, gets. rewrite Hfresh, Hm.
    by rewrite bool_decide_true by done. }
  unfold st_bind. by rewrite Hc, IH.
Qed.

End grace.

Lemma invalid_input_always_graced_witness :
  let s := initial_state plain_demo (SessionState_new (lit "s")) 1 [] in
  count_failures plain_demo (lit "turn-1") (lit "op")
    (replicate 10 (lit "invalid input for tool x: bad")) s = (Ok [], s).
Proof.
  intros s. apply (invalid_input_always_graced plain_demo (lit "turn-1")).
  - repeat constructor; vm_compute; reflexivity.
  - vm_compute. reflexivity.
Defined.
