(* ===== verification/CliSettings.v ===== *)
(** * Settings of the command line ([codel00p-cli/src/settings]: schema.rs, edit.rs, loading.rs, paths.rs; [config.rs])

    The settings, how the layers of files, environment and profiles are merged,
    and the dotted keys that read and write them.  A configuration file is the
    table its TOML denotes; [decode] is what the derived deserializer makes of a
    table.  Reading and printing TOML text are parameters. *)

From stdpp Require Import base numbers strings gmap list.
From S2P Require Import Prelude RustStr Json.

(** ** The schema ([schema.rs]) *)

Definition take_some {A} (slot value : option A) : option A :=
  match value with Some _ => value | None => slot end.
Definition fill {A} (slot value : option A) : option A :=
  match slot with Some _ => slot | None => value end.
Definition CONFIG_VERSION : N := 1.

Record WorkspaceSettings := {
  ws_organization_id : option str; ws_project_id : option str; ws_project_name : option str;
  ws_memory_db : option str;
}.
Definition WorkspaceSettings_default : WorkspaceSettings :=
  {| ws_organization_id := None; ws_project_id := None; ws_project_name := None;
     ws_memory_db := None |}.
Definition ws_merge (self other : WorkspaceSettings) : WorkspaceSettings :=
  {| ws_organization_id := take_some (ws_organization_id self) (ws_organization_id other);
     ws_project_id := take_some (ws_project_id self) (ws_project_id other);
     ws_project_name := take_some (ws_project_name self) (ws_project_name other);
     ws_memory_db := take_some (ws_memory_db self) (ws_memory_db other) |}.

Record DockerSettings := {
  dk_image : option str; dk_container_mount : option str; dk_memory : option str;
  dk_cpus : option str; dk_network : option str; dk_map_host_user : option bool;
  dk_reuse_container : option bool;
}.
Definition DockerSettings_default : DockerSettings :=
  {| dk_image := None; dk_container_mount := None; dk_memory := None; dk_cpus := None;
     dk_network := None; dk_map_host_user := None; dk_reuse_container := None |}.
Definition dk_merge (self other : DockerSettings) : DockerSettings :=
  {| dk_image := take_some (dk_image self) (dk_image other);
     dk_container_mount := take_some (dk_container_mount self) (dk_container_mount other);
     dk_memory := take_some (dk_memory self) (dk_memory other);
     dk_cpus := take_some (dk_cpus self) (dk_cpus other);
     dk_network := take_some (dk_network self) (dk_network other);
     dk_map_host_user := take_some (dk_map_host_user self) (dk_map_host_user other);
     dk_reuse_container := take_some (dk_reuse_container self) (dk_reuse_container other) |}.

Record SshSettings := {
  sh_host : option str; sh_user : option str; sh_port : option N; sh_identity_file : option str;
  sh_workspace : option str;
}.
Definition SshSettings_default : SshSettings :=
  {| sh_host := None; sh_user := None; sh_port := None; sh_identity_file := None;
     sh_workspace := None |}.
Definition sh_merge (self other : SshSettings) : SshSettings :=
  {| sh_host := take_some (sh_host self) (sh_host other);
     sh_user := take_some (sh_user self) (sh_user other);
     sh_port := take_some (sh_port self) (sh_port other);
     sh_identity_file := take_some (sh_identity_file self) (sh_identity_file other);
     sh_workspace := take_some (sh_workspace self) (sh_workspace other) |}.

Record BehaviorSettings := {
  bh_self_knowledge : option bool; bh_self_state : option bool; bh_base_prompt : option bool;
  bh_auto_plan : option bool; bh_self_verify : option bool; bh_auto_test : option bool;
  bh_lint_and_fix : option bool; bh_self_critique : option bool; bh_verify_iterations : option N;
  bh_test_command : option str; bh_error_hints : option bool; bh_replan_on_failure : option bool;
  bh_failure_budget : option N; bh_workspace_context : option bool;
  bh_proactive_memory : option bool; bh_persona : option bool; bh_curated_memory : option bool;
  bh_curator : option bool;
}.
Definition BehaviorSettings_default : BehaviorSettings :=
  {| bh_self_knowledge := None; bh_self_state := None; bh_base_prompt := None;
     bh_auto_plan := None; bh_self_verify := None; bh_auto_test := None; bh_lint_and_fix := None;
     bh_self_critique := None; bh_verify_iterations := None; bh_test_command := None;
     bh_error_hints := None; bh_replan_on_failure := None; bh_failure_budget := None;
     bh_workspace_context := None; bh_proactive_memory := None; bh_persona := None;
     bh_curated_memory := None; bh_curator := None |}.
Definition bh_merge (self other : BehaviorSettings) : BehaviorSettings :=
  {| bh_self_knowledge := take_some (bh_self_knowledge self) (bh_self_knowledge other);
     bh_self_state := take_some (bh_self_state self) (bh_self_state other);
     bh_base_prompt := take_some (bh_base_prompt self) (bh_base_prompt other);
     bh_auto_plan := take_some (bh_auto_plan self) (bh_auto_plan other);
     bh_self_verify := take_some (bh_self_verify self) (bh_self_verify other);
     bh_auto_test := take_some (bh_auto_test self) (bh_auto_test other);
     bh_lint_and_fix := take_some (bh_lint_and_fix self) (bh_lint_and_fix other);
     bh_self_critique := take_some (bh_self_critique self) (bh_self_critique other);
     bh_verify_iterations := take_some (bh_verify_iterations self) (bh_verify_iterations other);
     bh_test_command := take_some (bh_test_command self) (bh_test_command other);
     bh_error_hints := take_some (bh_error_hints self) (bh_error_hints other);
     bh_replan_on_failure := take_some (bh_replan_on_failure self) (bh_replan_on_failure other);
     bh_failure_budget := take_some (bh_failure_budget self) (bh_failure_budget other);
     bh_workspace_context := take_some (bh_workspace_context self) (bh_workspace_context other);
     bh_proactive_memory := take_some (bh_proactive_memory self) (bh_proactive_memory other);
     bh_persona := take_some (bh_persona self) (bh_persona other);
     bh_curated_memory := take_some (bh_curated_memory self) (bh_curated_memory other);
     bh_curator := take_some (bh_curator self) (bh_curator other) |}.

Record ProfileSettings := {
  pf_description : option str; pf_provider : option str; pf_model : option str;
  pf_base_url : option str; pf_max_iterations : option N; pf_permission_mode : option str;
  pf_tool_sets : option (list str); pf_execution_backend : option str;
  pf_self_knowledge : option bool; pf_self_state : option bool; pf_base_prompt : option bool;
  pf_auto_plan : option bool; pf_self_verify : option bool; pf_auto_test : option bool;
  pf_lint_and_fix : option bool; pf_self_critique : option bool; pf_verify_iterations : option N;
  pf_test_command : option str; pf_error_hints : option bool; pf_replan_on_failure : option bool;
  pf_failure_budget : option N;
}.
Definition ProfileSettings_default : ProfileSettings :=
  {| pf_description := None; pf_provider := None; pf_model := None; pf_base_url := None;
     pf_max_iterations := None; pf_permission_mode := None; pf_tool_sets := None;
     pf_execution_backend := None; pf_self_knowledge := None; pf_self_state := None;
     pf_base_prompt := None; pf_auto_plan := None; pf_self_verify := None; pf_auto_test := None;
     pf_lint_and_fix := None; pf_self_critique := None; pf_verify_iterations := None;
     pf_test_command := None; pf_error_hints := None; pf_replan_on_failure := None;
     pf_failure_budget := None |}.
Definition pf_merge (self other : ProfileSettings) : ProfileSettings :=
  {| pf_description := take_some (pf_description self) (pf_description other);
     pf_provider := take_some (pf_provider self) (pf_provider other);
     pf_model := take_some (pf_model self) (pf_model other);
     pf_base_url := take_some (pf_base_url self) (pf_base_url other);
     pf_max_iterations := take_some (pf_max_iterations self) (pf_max_iterations other);
     pf_permission_mode := take_some (pf_permission_mode self) (pf_permission_mode other);
     pf_tool_sets := take_some (pf_tool_sets self) (pf_tool_sets other);
     pf_execution_backend := take_some (pf_execution_backend self) (pf_execution_backend other);
     pf_self_knowledge := take_some (pf_self_knowledge self) (pf_self_knowledge other);
     pf_self_state := take_some (pf_self_state self) (pf_self_state other);
     pf_base_prompt := take_some (pf_base_prompt self) (pf_base_prompt other);
     pf_auto_plan := take_some (pf_auto_plan self) (pf_auto_plan other);
     pf_self_verify := take_some (pf_self_verify self) (pf_self_verify other);
     pf_auto_test := take_some (pf_auto_test self) (pf_auto_test other);
     pf_lint_and_fix := take_some (pf_lint_and_fix self) (pf_lint_and_fix other);
     pf_self_critique := take_some (pf_self_critique self) (pf_self_critique other);
     pf_verify_iterations := take_some (pf_verify_iterations self) (pf_verify_iterations other);
     pf_test_command := take_some (pf_test_command self) (pf_test_command other);
     pf_error_hints := take_some (pf_error_hints self) (pf_error_hints other);
     pf_replan_on_failure := take_some (pf_replan_on_failure self) (pf_replan_on_failure other);
     pf_failure_budget := take_some (pf_failure_budget self) (pf_failure_budget other) |}.

Record PluginSettings := {
  pl_enabled : option (list str);
}.
Definition PluginSettings_default : PluginSettings :=
  {| pl_enabled := None |}.
Definition pl_merge (self other : PluginSettings) : PluginSettings :=
  {| pl_enabled := take_some (pl_enabled self) (pl_enabled other) |}.

Record DelegationSettings := {
  dl_max_concurrent_children : option N;
}.
Definition DelegationSettings_default : DelegationSettings :=
  {| dl_max_concurrent_children := None |}.
Definition dl_merge (self other : DelegationSettings) : DelegationSettings :=
  {| dl_max_concurrent_children := take_some (dl_max_concurrent_children self) (dl_max_concurrent_children other) |}.

Record MemorySettings := {
  mm_ranker : option str; mm_external_url : option str; mm_allow_external_ranking : option bool;
}.
Definition MemorySettings_default : MemorySettings :=
  {| mm_ranker := None; mm_external_url := None; mm_allow_external_ranking := None |}.
Definition mm_merge (self other : MemorySettings) : MemorySettings :=
  {| mm_ranker := take_some (mm_ranker self) (mm_ranker other);
     mm_external_url := take_some (mm_external_url self) (mm_external_url other);
     mm_allow_external_ranking := take_some (mm_allow_external_ranking self) (mm_allow_external_ranking other) |}.

Record TuiSettings := {
  tu_show_advanced : option bool; tu_check_updates : option bool; tu_theme : option str;
}.
Definition TuiSettings_default : TuiSettings :=
  {| tu_show_advanced := None; tu_check_updates := None; tu_theme := None |}.
Definition tu_merge (self other : TuiSettings) : TuiSettings :=
  {| tu_show_advanced := take_some (tu_show_advanced self) (tu_show_advanced other);
     tu_check_updates := take_some (tu_check_updates self) (tu_check_updates other);
     tu_theme := take_some (tu_theme self) (tu_theme other) |}.

(** A [BTreeMap] of profiles is a map; its order shows only in listings. *)
Record AgentSettings := {
  agt_provider : option str; agt_model : option str; agt_base_url : option str;
  agt_provider_policy_preset : option str; agt_max_iterations : option N;
  agt_permission_mode : option str; agt_tool_sets : option (list str);
  agt_tool_choice : option str; agt_response_format : option str;
  agt_fallbacks : option (list str); agt_stream : option bool;
  agt_remember_permissions : option bool; agt_execution_backend : option str;
  agt_docker : DockerSettings; agt_ssh : SshSettings;
  agt_require_isolation_for_unattended : option bool; agt_behavior : BehaviorSettings;
  agt_profile : option str; agt_profiles : gmap str ProfileSettings;
}.
Definition AgentSettings_default : AgentSettings :=
  {| agt_provider := None; agt_model := None; agt_base_url := None;
     agt_provider_policy_preset := None; agt_max_iterations := None; agt_permission_mode := None;
     agt_tool_sets := None; agt_tool_choice := None; agt_response_format := None;
     agt_fallbacks := None; agt_stream := None; agt_remember_permissions := None;
     agt_execution_backend := None; agt_docker := DockerSettings_default;
     agt_ssh := SshSettings_default; agt_require_isolation_for_unattended := None;
     agt_behavior := BehaviorSettings_default; agt_profile := None; agt_profiles := ∅ |}.
(** [entry(name).or_default().merge(profile)] for every profile of the other. *)
Definition merge_profiles (self other : gmap str ProfileSettings) : gmap str ProfileSettings :=
  map_fold (λ name profile acc,
              <[name := pf_merge (default ProfileSettings_default (acc !! name)) profile]> acc) self other.
Definition agt_merge (self other : AgentSettings) : AgentSettings :=
  {| agt_provider := take_some (agt_provider self) (agt_provider other);
     agt_model := take_some (agt_model self) (agt_model other);
     agt_base_url := take_some (agt_base_url self) (agt_base_url other);
     agt_provider_policy_preset := take_some (agt_provider_policy_preset self) (agt_provider_policy_preset other);
     agt_max_iterations := take_some (agt_max_iterations self) (agt_max_iterations other);
     agt_permission_mode := take_some (agt_permission_mode self) (agt_permission_mode other);
     agt_tool_sets := take_some (agt_tool_sets self) (agt_tool_sets other);
     agt_tool_choice := take_some (agt_tool_choice self) (agt_tool_choice other);
     agt_response_format := take_some (agt_response_format self) (agt_response_format other);
     agt_fallbacks := take_some (agt_fallbacks self) (agt_fallbacks other);
     agt_stream := take_some (agt_stream self) (agt_stream other);
     agt_remember_permissions := take_some (agt_remember_permissions self) (agt_remember_permissions other);
     agt_execution_backend := take_some (agt_execution_backend self) (agt_execution_backend other);
     agt_docker := dk_merge (agt_docker self) (agt_docker other);
     agt_ssh := sh_merge (agt_ssh self) (agt_ssh other);
     agt_require_isolation_for_unattended := take_some (agt_require_isolation_for_unattended self) (agt_require_isolation_for_unattended other);
     agt_behavior := bh_merge (agt_behavior self) (agt_behavior other);
     agt_profile := take_some (agt_profile self) (agt_profile other);
     agt_profiles := merge_profiles (agt_profiles self) (agt_profiles other) |}.

Record Settings := {
  st_config_version : option N; st_workspace : WorkspaceSettings; st_agent : AgentSettings;
  st_plugins : PluginSettings; st_delegation : DelegationSettings; st_memory : MemorySettings;
  st_tui : TuiSettings;
}.
Definition Settings_default : Settings :=
  {| st_config_version := None; st_workspace := WorkspaceSettings_default;
     st_agent := AgentSettings_default; st_plugins := PluginSettings_default;
     st_delegation := DelegationSettings_default; st_memory := MemorySettings_default;
     st_tui := TuiSettings_default |}.
Definition settings_merge (self other : Settings) : Settings :=
  {| st_config_version := take_some (st_config_version self) (st_config_version other);
     st_workspace := ws_merge (st_workspace self) (st_workspace other);
     st_agent := agt_merge (st_agent self) (st_agent other);
     st_plugins := pl_merge (st_plugins self) (st_plugins other);
     st_delegation := dl_merge (st_delegation self) (st_delegation other);
     st_memory := mm_merge (st_memory self) (st_memory other);
     st_tui := tu_merge (st_tui self) (st_tui other) |}.

Definition self_knowledge_enabled (b : BehaviorSettings) : bool := default true (bh_self_knowledge b).
Definition self_state_enabled (b : BehaviorSettings) : bool := default true (bh_self_state b).
Definition base_prompt_enabled (b : BehaviorSettings) : bool := default true (bh_base_prompt b).
Definition auto_plan_enabled (b : BehaviorSettings) : bool := default true (bh_auto_plan b).
Definition self_verify_enabled (b : BehaviorSettings) : bool := default true (bh_self_verify b).
Definition auto_test_enabled (b : BehaviorSettings) : bool := default true (bh_auto_test b).
Definition lint_and_fix_enabled (b : BehaviorSettings) : bool := default false (bh_lint_and_fix b).
Definition self_critique_enabled (b : BehaviorSettings) : bool := default true (bh_self_critique b).
Definition error_hints_enabled (b : BehaviorSettings) : bool := default true (bh_error_hints b).
Definition replan_on_failure_enabled (b : BehaviorSettings) : bool := default true (bh_replan_on_failure b).
Definition workspace_context_enabled (b : BehaviorSettings) : bool := default true (bh_workspace_context b).
Definition proactive_memory_enabled (b : BehaviorSettings) : bool := default true (bh_proactive_memory b).
Definition persona_enabled (b : BehaviorSettings) : bool := default true (bh_persona b).
Definition curated_memory_enabled (b : BehaviorSettings) : bool := default true (bh_curated_memory b).
Definition curator_enabled (b : BehaviorSettings) : bool := default false (bh_curator b).
Definition verify_iterations_value (b : BehaviorSettings) : N := default 3%N (bh_verify_iterations b).
Definition failure_budget_value (b : BehaviorSettings) : N := default 3%N (bh_failure_budget b).
Definition external_ranking_enabled (m : MemorySettings) : bool :=
  bool_decide (mm_ranker m = Some (lit "external")) &&
  match mm_external_url m with Some url => negb (is_empty url) | None => false end &&
  default false (mm_allow_external_ranking m).

(** *** Profiles *)

Definition autonomous_profile : ProfileSettings :=
  {| pf_description := Some (lit "Full autonomy: every behavior on, full tool set, higher verify budget.");
     pf_provider := None; pf_model := None; pf_base_url := None; pf_max_iterations := None;
     pf_permission_mode := Some (lit "allow"); pf_tool_sets := Some [lit "all"];
     pf_execution_backend := None; pf_self_knowledge := Some true; pf_self_state := Some true;
     pf_base_prompt := Some true; pf_auto_plan := Some true; pf_self_verify := Some true;
     pf_auto_test := Some true; pf_lint_and_fix := Some true; pf_self_critique := Some true;
     pf_verify_iterations := Some 5%N; pf_test_command := None; pf_error_hints := Some true;
     pf_replan_on_failure := Some true; pf_failure_budget := None |}.
Definition careful_profile : ProfileSettings :=
  {| pf_description := Some (lit "Human in the loop: ask before privileged actions, verify + lint-and-fix on.");
     pf_provider := None; pf_model := None; pf_base_url := None; pf_max_iterations := None;
     pf_permission_mode := Some (lit "ask"); pf_tool_sets := None; pf_execution_backend := None;
     pf_self_knowledge := None; pf_self_state := None; pf_base_prompt := None;
     pf_auto_plan := None; pf_self_verify := Some true; pf_auto_test := Some true;
     pf_lint_and_fix := Some true; pf_self_critique := Some true;
     pf_verify_iterations := Some 3%N; pf_test_command := None; pf_error_hints := Some true;
     pf_replan_on_failure := Some true; pf_failure_budget := None |}.
Definition manual_profile : ProfileSettings :=
  {| pf_description := Some (lit "Do exactly what I say: autonomy off (no auto-plan/verify/critique), read+edit only.");
     pf_provider := None; pf_model := None; pf_base_url := None; pf_max_iterations := None;
     pf_permission_mode := None; pf_tool_sets := Some [lit "read"; lit "edit"];
     pf_execution_backend := None; pf_self_knowledge := None; pf_self_state := None;
     pf_base_prompt := None; pf_auto_plan := Some false; pf_self_verify := Some false;
     pf_auto_test := None; pf_lint_and_fix := None; pf_self_critique := Some false;
     pf_verify_iterations := None; pf_test_command := None; pf_error_hints := None;
     pf_replan_on_failure := Some false; pf_failure_budget := None |}.
Definition builtin_profiles : list (str * ProfileSettings) :=
  [(lit "autonomous", autonomous_profile); (lit "careful", careful_profile);
   (lit "manual", manual_profile)].
(** The value of a key in a list of pairs. *)
Fixpoint assoc {A} (key : str) (l : list (str * A)) : option A :=
  match l with
  | [] => None
  | (k, a) :: l => if bool_decide (k = key) then Some a else assoc key l
  end.
Definition available_profile_names (a : AgentSettings) : list str :=
  sort_by str_cmp (elements (list_to_set (builtin_profiles.*1) ∪ dom (agt_profiles a) : gset str)).
Definition resolve_profile (name : str) (a : AgentSettings) : result str ProfileSettings :=
  match agt_profiles a !! name with
  | Some profile => Ok profile
  | None =>
      match assoc name builtin_profiles with
      | Some profile => Ok profile
      | None => Err (lit "unknown agent profile `" ++ name ++ lit "`. Available profiles: " ++
                     join (lit ", ") (available_profile_names a))
      end
  end.
Definition bh_apply_profile (profile : ProfileSettings) (b : BehaviorSettings) : BehaviorSettings :=
  {| bh_self_knowledge := fill (bh_self_knowledge b) (pf_self_knowledge profile);
     bh_self_state := fill (bh_self_state b) (pf_self_state profile);
     bh_base_prompt := fill (bh_base_prompt b) (pf_base_prompt profile);
     bh_auto_plan := fill (bh_auto_plan b) (pf_auto_plan profile);
     bh_self_verify := fill (bh_self_verify b) (pf_self_verify profile);
     bh_auto_test := fill (bh_auto_test b) (pf_auto_test profile);
     bh_lint_and_fix := fill (bh_lint_and_fix b) (pf_lint_and_fix profile);
     bh_self_critique := fill (bh_self_critique b) (pf_self_critique profile);
     bh_verify_iterations := fill (bh_verify_iterations b) (pf_verify_iterations profile);
     bh_test_command := fill (bh_test_command b) (pf_test_command profile);
     bh_error_hints := fill (bh_error_hints b) (pf_error_hints profile);
     bh_replan_on_failure := fill (bh_replan_on_failure b) (pf_replan_on_failure profile);
     bh_failure_budget := fill (bh_failure_budget b) (pf_failure_budget profile);
     bh_workspace_context := bh_workspace_context b;
     bh_proactive_memory := bh_proactive_memory b; bh_persona := bh_persona b;
     bh_curated_memory := bh_curated_memory b; bh_curator := bh_curator b |}.
Definition apply_profile (profile : ProfileSettings) (a : AgentSettings) : AgentSettings :=
  {| agt_provider := fill (agt_provider a) (pf_provider profile);
     agt_model := fill (agt_model a) (pf_model profile);
     agt_base_url := fill (agt_base_url a) (pf_base_url profile);
     agt_provider_policy_preset := agt_provider_policy_preset a;
     agt_max_iterations := fill (agt_max_iterations a) (pf_max_iterations profile);
     agt_permission_mode := fill (agt_permission_mode a) (pf_permission_mode profile);
     agt_tool_sets := fill (agt_tool_sets a) (pf_tool_sets profile);
     agt_tool_choice := agt_tool_choice a; agt_response_format := agt_response_format a;
     agt_fallbacks := agt_fallbacks a; agt_stream := agt_stream a;
     agt_remember_permissions := agt_remember_permissions a;
     agt_execution_backend := fill (agt_execution_backend a) (pf_execution_backend profile);
     agt_docker := agt_docker a; agt_ssh := agt_ssh a;
     agt_require_isolation_for_unattended := agt_require_isolation_for_unattended a;
     agt_behavior := bh_apply_profile profile (agt_behavior a); agt_profile := agt_profile a;
     agt_profiles := agt_profiles a |}.

(** ** Keys ([edit.rs]) *)

Inductive ValueKind := KStr | KBool | KU32 | KStrList.
#[export] Instance ValueKind_eq_dec : EqDecision ValueKind.
Proof. solve_decision. Defined.
Definition KEY_SPECS : list (str * ValueKind) :=
  [(lit "workspace.organization_id", KStr); (lit "workspace.project_id", KStr);
   (lit "workspace.project_name", KStr); (lit "workspace.memory_db", KStr);
   (lit "agent.provider", KStr); (lit "agent.model", KStr); (lit "agent.base_url", KStr);
   (lit "agent.provider_policy_preset", KStr); (lit "agent.max_iterations", KU32);
   (lit "agent.permission_mode", KStr); (lit "agent.tool_sets", KStrList);
   (lit "agent.fallbacks", KStrList); (lit "agent.stream", KBool);
   (lit "agent.remember_permissions", KBool); (lit "agent.execution_backend", KStr);
   (lit "agent.docker.image", KStr); (lit "agent.docker.container_mount", KStr);
   (lit "agent.docker.memory", KStr); (lit "agent.docker.cpus", KStr);
   (lit "agent.docker.network", KStr); (lit "agent.docker.map_host_user", KBool);
   (lit "agent.docker.reuse_container", KBool); (lit "agent.ssh.host", KStr);
   (lit "agent.ssh.user", KStr); (lit "agent.ssh.port", KU32);
   (lit "agent.ssh.identity_file", KStr); (lit "agent.ssh.workspace", KStr);
   (lit "agent.require_isolation_for_unattended", KBool);
   (lit "agent.behavior.self_knowledge", KBool); (lit "agent.behavior.self_state", KBool);
   (lit "agent.behavior.base_prompt", KBool); (lit "agent.behavior.auto_plan", KBool);
   (lit "agent.behavior.self_verify", KBool); (lit "agent.behavior.auto_test", KBool);
   (lit "agent.behavior.lint_and_fix", KBool); (lit "agent.behavior.self_critique", KBool);
   (lit "agent.behavior.verify_iterations", KU32); (lit "agent.behavior.test_command", KStr);
   (lit "agent.behavior.error_hints", KBool); (lit "agent.behavior.replan_on_failure", KBool);
   (lit "agent.behavior.failure_budget", KU32); (lit "agent.behavior.workspace_context", KBool);
   (lit "agent.behavior.proactive_memory", KBool); (lit "agent.behavior.persona", KBool);
   (lit "agent.behavior.curated_memory", KBool); (lit "agent.behavior.curator", KBool);
   (lit "agent.profile", KStr); (lit "plugins.enabled", KStrList);
   (lit "delegation.max_concurrent_children", KU32); (lit "memory.ranker", KStr);
   (lit "memory.external_url", KStr); (lit "memory.allow_external_ranking", KBool);
   (lit "tui.show_advanced", KBool); (lit "tui.check_updates", KBool); (lit "tui.theme", KStr)].
Definition PROFILE_FIELDS : list (str * ValueKind) :=
  [(lit "description", KStr); (lit "provider", KStr); (lit "model", KStr);
   (lit "base_url", KStr); (lit "permission_mode", KStr); (lit "execution_backend", KStr);
   (lit "test_command", KStr); (lit "tool_sets", KStrList); (lit "max_iterations", KU32);
   (lit "verify_iterations", KU32); (lit "failure_budget", KU32); (lit "self_knowledge", KBool);
   (lit "self_state", KBool); (lit "base_prompt", KBool); (lit "auto_plan", KBool);
   (lit "self_verify", KBool); (lit "auto_test", KBool); (lit "lint_and_fix", KBool);
   (lit "self_critique", KBool); (lit "error_hints", KBool); (lit "replan_on_failure", KBool)].
Definition dot : char := 46%N.
(** The name and the field of a profile key. *)
Definition profile_key (key : str) : option (str * str) :=
  rest ← strip_prefix (lit "agent.profiles.") key; split_once dot rest.
Definition profile_field_kind (key : str) : option ValueKind :=
  '(name, field) ← profile_key key;
  if is_empty name || existsb (λ c, (c =? dot)%N) field then None else assoc field PROFILE_FIELDS.
Definition key_kind (key : str) : option ValueKind :=
  match assoc key KEY_SPECS with Some kind => Some kind | None => profile_field_kind key end.
Definition known_keys : list str := KEY_SPECS.*1.
Definition unknown_key_error (key : str) : str :=
  lit "unknown config key: " ++ key ++ [newline] ++ lit "valid keys:" ++ [newline] ++ lit "  " ++
  join ([newline] ++ lit "  ") known_keys ++ [newline] ++
  lit "  agent.profiles.<name>.<field>  (field: description, provider, model, base_url, max_iterations, permission_mode, tool_sets, execution_backend, or any [agent.behavior] toggle)".

Definition shown_bool (o : option bool) : option str :=
  (λ b : bool, if b then lit "true" else lit "false") <$> o.
Definition shown_u32 (o : option N) : option str := show_N <$> o.
Definition shown_list (o : option (list str)) : option str := join (lit ",") <$> o.
(** The arms of [effective_value]. *)
Definition EFFECTIVE : list (str * (Settings → option str)) :=
  [(lit "workspace.organization_id", λ s, ws_organization_id (st_workspace s));
   (lit "workspace.project_id", λ s, ws_project_id (st_workspace s));
   (lit "workspace.project_name", λ s, ws_project_name (st_workspace s));
   (lit "workspace.memory_db", λ s, ws_memory_db (st_workspace s));
   (lit "agent.provider", λ s, agt_provider (st_agent s));
   (lit "agent.model", λ s, agt_model (st_agent s));
   (lit "agent.base_url", λ s, agt_base_url (st_agent s));
   (lit "agent.provider_policy_preset", λ s, agt_provider_policy_preset (st_agent s));
   (lit "agent.max_iterations", λ s, shown_u32 (agt_max_iterations (st_agent s)));
   (lit "agent.permission_mode", λ s, agt_permission_mode (st_agent s));
   (lit "agent.tool_sets", λ s, shown_list (agt_tool_sets (st_agent s)));
   (lit "agent.fallbacks", λ s, shown_list (agt_fallbacks (st_agent s)));
   (lit "agent.stream", λ s, shown_bool (agt_stream (st_agent s)));
   (lit "agent.remember_permissions", λ s, shown_bool (agt_remember_permissions (st_agent s)));
   (lit "agent.execution_backend", λ s, agt_execution_backend (st_agent s));
   (lit "agent.docker.image", λ s, dk_image (agt_docker (st_agent s)));
   (lit "agent.docker.container_mount", λ s, dk_container_mount (agt_docker (st_agent s)));
   (lit "agent.docker.memory", λ s, dk_memory (agt_docker (st_agent s)));
   (lit "agent.docker.cpus", λ s, dk_cpus (agt_docker (st_agent s)));
   (lit "agent.docker.network", λ s, dk_network (agt_docker (st_agent s)));
   (lit "agent.docker.map_host_user", λ s, shown_bool (dk_map_host_user (agt_docker (st_agent s))));
   (lit "agent.docker.reuse_container", λ s, shown_bool (dk_reuse_container (agt_docker (st_agent s))));
   (lit "agent.ssh.host", λ s, sh_host (agt_ssh (st_agent s)));
   (lit "agent.ssh.user", λ s, sh_user (agt_ssh (st_agent s)));
   (lit "agent.ssh.port", λ s, shown_u32 (sh_port (agt_ssh (st_agent s))));
   (lit "agent.ssh.identity_file", λ s, sh_identity_file (agt_ssh (st_agent s)));
   (lit "agent.ssh.workspace", λ s, sh_workspace (agt_ssh (st_agent s)));
   (lit "agent.require_isolation_for_unattended", λ s, shown_bool (agt_require_isolation_for_unattended (st_agent s)));
   (lit "agent.behavior.self_knowledge", λ s, shown_bool (bh_self_knowledge (agt_behavior (st_agent s))));
   (lit "agent.behavior.self_state", λ s, shown_bool (bh_self_state (agt_behavior (st_agent s))));
   (lit "agent.behavior.base_prompt", λ s, shown_bool (bh_base_prompt (agt_behavior (st_agent s))));
   (lit "agent.behavior.auto_plan", λ s, shown_bool (bh_auto_plan (agt_behavior (st_agent s))));
   (lit "agent.behavior.self_verify", λ s, shown_bool (bh_self_verify (agt_behavior (st_agent s))));
   (lit "agent.behavior.auto_test", λ s, shown_bool (bh_auto_test (agt_behavior (st_agent s))));
   (lit "agent.behavior.lint_and_fix", λ s, shown_bool (bh_lint_and_fix (agt_behavior (st_agent s))));
   (lit "agent.behavior.self_critique", λ s, shown_bool (bh_self_critique (agt_behavior (st_agent s))));
   (lit "agent.behavior.verify_iterations", λ s, shown_u32 (bh_verify_iterations (agt_behavior (st_agent s))));
   (lit "agent.behavior.test_command", λ s, bh_test_command (agt_behavior (st_agent s)));
   (lit "agent.behavior.error_hints", λ s, shown_bool (bh_error_hints (agt_behavior (st_agent s))));
   (lit "agent.behavior.replan_on_failure", λ s, shown_bool (bh_replan_on_failure (agt_behavior (st_agent s))));
   (lit "agent.behavior.failure_budget", λ s, shown_u32 (bh_failure_budget (agt_behavior (st_agent s))));
   (lit "agent.behavior.workspace_context", λ s, shown_bool (bh_workspace_context (agt_behavior (st_agent s))));
   (lit "agent.behavior.proactive_memory", λ s, shown_bool (bh_proactive_memory (agt_behavior (st_agent s))));
   (lit "agent.behavior.persona", λ s, shown_bool (bh_persona (agt_behavior (st_agent s))));
   (lit "agent.behavior.curated_memory", λ s, shown_bool (bh_curated_memory (agt_behavior (st_agent s))));
   (lit "agent.behavior.curator", λ s, shown_bool (bh_curator (agt_behavior (st_agent s))));
   (lit "agent.profile", λ s, agt_profile (st_agent s));
   (lit "plugins.enabled", λ s, shown_list (pl_enabled (st_plugins s)));
   (lit "delegation.max_concurrent_children", λ s, shown_u32 (dl_max_concurrent_children (st_delegation s)));
   (lit "memory.ranker", λ s, mm_ranker (st_memory s));
   (lit "memory.external_url", λ s, mm_external_url (st_memory s));
   (lit "memory.allow_external_ranking", λ s, shown_bool (mm_allow_external_ranking (st_memory s)));
   (lit "tui.show_advanced", λ s, shown_bool (tu_show_advanced (st_tui s)));
   (lit "tui.check_updates", λ s, shown_bool (tu_check_updates (st_tui s)));
   (lit "tui.theme", λ s, tu_theme (st_tui s))].
Definition PROFILE_EFFECTIVE : list (str * (ProfileSettings → option str)) :=
  [(lit "description", λ p, pf_description p); (lit "provider", λ p, pf_provider p);
   (lit "model", λ p, pf_model p); (lit "base_url", λ p, pf_base_url p);
   (lit "permission_mode", λ p, pf_permission_mode p);
   (lit "execution_backend", λ p, pf_execution_backend p);
   (lit "test_command", λ p, pf_test_command p);
   (lit "tool_sets", λ p, shown_list (pf_tool_sets p));
   (lit "max_iterations", λ p, shown_u32 (pf_max_iterations p));
   (lit "verify_iterations", λ p, shown_u32 (pf_verify_iterations p));
   (lit "failure_budget", λ p, shown_u32 (pf_failure_budget p));
   (lit "self_knowledge", λ p, shown_bool (pf_self_knowledge p));
   (lit "self_state", λ p, shown_bool (pf_self_state p));
   (lit "base_prompt", λ p, shown_bool (pf_base_prompt p));
   (lit "auto_plan", λ p, shown_bool (pf_auto_plan p));
   (lit "self_verify", λ p, shown_bool (pf_self_verify p));
   (lit "auto_test", λ p, shown_bool (pf_auto_test p));
   (lit "lint_and_fix", λ p, shown_bool (pf_lint_and_fix p));
   (lit "self_critique", λ p, shown_bool (pf_self_critique p));
   (lit "error_hints", λ p, shown_bool (pf_error_hints p));
   (lit "replan_on_failure", λ p, shown_bool (pf_replan_on_failure p))].
Definition profile_effective_value (a : AgentSettings) (key : str) : option str :=
  '(name, field) ← profile_key key;
  profile ← agt_profiles a !! name;
  getter ← assoc field PROFILE_EFFECTIVE; getter profile.
Definition read_key (s : Settings) (key : str) : option str :=
  match assoc key EFFECTIVE with
  | Some getter => getter s
  | None => if starts_with (lit "agent.profiles.") key then profile_effective_value (st_agent s) key
            else None
  end.
Definition effective_value (s : Settings) (key : str) : result str (option str) :=
  match key_kind key with
  | None => Err (unknown_key_error key)
  | Some _ => Ok (read_key s key)
  end.

(** ** Configuration documents *)

(** A table keeps the order of its keys; the keys are distinct.  [TOther] is any
    value the settings do not use (a float, a date). *)
Inductive toml :=
| TStr (s : str)
| TBool (b : bool)
| TInt (z : Z)
| TArr (l : list toml)
| TTable (t : list (str * toml))
| TInline (t : list (str * toml))
| TOther.
Abbreviation table := (list (str * toml)).
Fixpoint tset (key : str) (v : toml) (t : table) : table :=
  match t with
  | [] => [(key, v)]
  | (k, x) :: t => if bool_decide (k = key) then (key, v) :: t else (k, x) :: tset key v t
  end.
Definition tremove (key : str) (t : table) : table :=
  List.filter (λ '(k, _), negb (bool_decide (k = key))) t.

Definition coerce (kind : ValueKind) (raw : str) : result str toml :=
  match kind with
  | KStr => Ok (TStr raw)
  | KBool =>
      let word := to_ascii_lowercase (trim raw) in
      if bool_decide (word ∈ [lit "true"; lit "yes"; lit "on"; lit "1"]) then Ok (TBool true)
      else if bool_decide (word ∈ [lit "false"; lit "no"; lit "off"; lit "0"]) then Ok (TBool false)
      else Err (lit "expected a boolean (true/false), got `" ++ raw ++ lit "`")
  | KU32 =>
      match n ← parse_u64 (trim raw); if (n <? 2 ^ 32)%N then Some n else None with
      | Some n => Ok (TInt (Z.of_N n))
      | None => Err (lit "expected a non-negative integer, got `" ++ raw ++ lit "`")
      end
  | KStrList =>
      Ok (TArr (TStr <$> List.filter (λ item, negb (is_empty item))
                           (trim <$> split_by (λ c, (c =? 44)%N) raw)))
  end.

(** [nested_table] and the insertion: a missing table on the way is created. *)
Fixpoint set_in (walked : list str) (segments : list str) (field : str) (v : toml) (t : table)
    : result str table :=
  match segments with
  | [] => Ok (tset field v t)
  | segment :: rest =>
      let walked := walked ++ [segment] in
      match default (TTable []) (assoc segment t) with
      | TTable child => let? child := set_in walked rest field v child in
                        Ok (tset segment (TTable child) t)
      | _ => Err (lit "config key `" ++ join (lit ".") walked ++ lit "` is not a table")
      end
  end.
Fixpoint remove_in (segments : list str) (field : str) (t : table) : bool * table :=
  match segments with
  | [] => (bool_decide (is_Some (assoc field t)), tremove field t)
  | segment :: rest =>
      match assoc segment t with
      | Some (TTable child) =>
          let '(removed, child) := remove_in rest field child in
          (removed, if is_empty child then tremove segment t else tset segment (TTable child) t)
      | _ => (false, t)
      end
  end.
Definition ensure_version (t : table) : table :=
  match assoc (lit "config_version") t with
  | Some _ => t
  | None => tset (lit "config_version") (TInt (Z.of_N CONFIG_VERSION)) t
  end.

(** [rsplit_once('.')]: the path of the table and the field. *)
Definition split_key (key : str) : list str * str :=
  let segments := split_by (λ c, (c =? dot)%N) key in
  (removelast segments, default [] (last segments)).

Section documents.
Context (parse_doc : str → result str table) (print_doc : table → str).
(** The text of the file, if there is one. *)
Definition read_document (file : option str) : result str table :=
  match file with
  | Some text => parse_doc text
  | None => Ok []
  end.
Definition set_value (file : option str) (key raw : str) : result str str :=
  let? kind := ok_or (unknown_key_error key) (key_kind key) in
  let '(segments, field) := split_key key in
  let? value := coerce kind raw in
  let? doc := read_document file in
  let? doc := set_in [] segments field value (ensure_version doc) in
  Ok (print_doc doc).
(** Whether anything was removed, and the new text if so. *)
Definition unset_value (file : option str) (key : str) : result str (option str) :=
  let? _ := ok_or (unknown_key_error key) (key_kind key) in
  let '(segments, field) := split_key key in
  let? doc := read_document file in
  let '(removed, doc) := remove_in segments field doc in
  Ok (if removed then Some (print_doc (ensure_version doc)) else None).
Definition migrate (file : option str) : result str (option str) :=
  let? doc := read_document file in
  let before := print_doc doc in
  let after := print_doc (ensure_version doc) in
  Ok (if bool_decide (after = before) then None else Some after).
End documents.

(** ** Reading a document as settings (the derived deserializer) *)

(** Missing keys are unset, unknown ones ignored, a value of another type is an
    error. *)
Definition type_error : str := lit "invalid type".
Definition opt_str (key : string) (t : table) : result str (option str) :=
  match assoc (lit key) t with
  | None => Ok None | Some (TStr s) => Ok (Some s) | Some _ => Err type_error
  end.
Definition opt_bool (key : string) (t : table) : result str (option bool) :=
  match assoc (lit key) t with
  | None => Ok None | Some (TBool b) => Ok (Some b) | Some _ => Err type_error
  end.
Definition opt_uint (limit : N) (key : string) (t : table) : result str (option N) :=
  match assoc (lit key) t with
  | None => Ok None
  | Some (TInt z) => if (0 <=? z)%Z && (z <? Z.of_N limit)%Z then Ok (Some (Z.to_N z))
                     else Err type_error
  | Some _ => Err type_error
  end.
Definition opt_u32 : string → table → result str (option N) := opt_uint (2 ^ 32).
Definition opt_u16 : string → table → result str (option N) := opt_uint (2 ^ 16).
Definition as_str (v : toml) : result str str :=
  match v with TStr s => Ok s | _ => Err type_error end.
Definition opt_list (key : string) (t : table) : result str (option (list str)) :=
  match assoc (lit key) t with
  | None => Ok None
  | Some (TArr l) => let? items := collect_result (as_str <$> l) in Ok (Some items)
  | Some _ => Err type_error
  end.
Definition as_table (v : toml) : result str table :=
  match v with TTable t | TInline t => Ok t | _ => Err type_error end.
Definition child (key : str) (t : table) : result str table :=
  match assoc key t with None => Ok [] | Some v => as_table v end.
Definition sub (key : string) (t : table) : result str table := child (lit key) t.

Definition decode_ws (t : table) : result str WorkspaceSettings :=
  let? organization_id := opt_str "organization_id" t in
  let? project_id := opt_str "project_id" t in
  let? project_name := opt_str "project_name" t in
  let? memory_db := opt_str "memory_db" t in
  Ok {| ws_organization_id := organization_id; ws_project_id := project_id;
        ws_project_name := project_name; ws_memory_db := memory_db |}.
Definition decode_dk (t : table) : result str DockerSettings :=
  let? image := opt_str "image" t in
  let? container_mount := opt_str "container_mount" t in
  let? memory := opt_str "memory" t in
  let? cpus := opt_str "cpus" t in
  let? network := opt_str "network" t in
  let? map_host_user := opt_bool "map_host_user" t in
  let? reuse_container := opt_bool "reuse_container" t in
  Ok {| dk_image := image; dk_container_mount := container_mount; dk_memory := memory;
        dk_cpus := cpus; dk_network := network; dk_map_host_user := map_host_user;
        dk_reuse_container := reuse_container |}.
Definition decode_sh (t : table) : result str SshSettings :=
  let? host := opt_str "host" t in
  let? user := opt_str "user" t in
  let? port := opt_u16 "port" t in
  let? identity_file := opt_str "identity_file" t in
  let? workspace := opt_str "workspace" t in
  Ok {| sh_host := host; sh_user := user; sh_port := port; sh_identity_file := identity_file;
        sh_workspace := workspace |}.
Definition decode_bh (t : table) : result str BehaviorSettings :=
  let? self_knowledge := opt_bool "self_knowledge" t in
  let? self_state := opt_bool "self_state" t in
  let? base_prompt := opt_bool "base_prompt" t in
  let? auto_plan := opt_bool "auto_plan" t in
  let? self_verify := opt_bool "self_verify" t in
  let? auto_test := opt_bool "auto_test" t in
  let? lint_and_fix := opt_bool "lint_and_fix" t in
  let? self_critique := opt_bool "self_critique" t in
  let? verify_iterations := opt_u32 "verify_iterations" t in
  let? test_command := opt_str "test_command" t in
  let? error_hints := opt_bool "error_hints" t in
  let? replan_on_failure := opt_bool "replan_on_failure" t in
  let? failure_budget := opt_u32 "failure_budget" t in
  let? workspace_context := opt_bool "workspace_context" t in
  let? proactive_memory := opt_bool "proactive_memory" t in
  let? persona := opt_bool "persona" t in
  let? curated_memory := opt_bool "curated_memory" t in
  let? curator := opt_bool "curator" t in
  Ok {| bh_self_knowledge := self_knowledge; bh_self_state := self_state;
        bh_base_prompt := base_prompt; bh_auto_plan := auto_plan; bh_self_verify := self_verify;
        bh_auto_test := auto_test; bh_lint_and_fix := lint_and_fix;
        bh_self_critique := self_critique; bh_verify_iterations := verify_iterations;
        bh_test_command := test_command; bh_error_hints := error_hints;
        bh_replan_on_failure := replan_on_failure; bh_failure_budget := failure_budget;
        bh_workspace_context := workspace_context; bh_proactive_memory := proactive_memory;
        bh_persona := persona; bh_curated_memory := curated_memory; bh_curator := curator |}.
Definition decode_pf (t : table) : result str ProfileSettings :=
  let? description := opt_str "description" t in
  let? provider := opt_str "provider" t in
  let? model := opt_str "model" t in
  let? base_url := opt_str "base_url" t in
  let? max_iterations := opt_u32 "max_iterations" t in
  let? permission_mode := opt_str "permission_mode" t in
  let? tool_sets := opt_list "tool_sets" t in
  let? execution_backend := opt_str "execution_backend" t in
  let? self_knowledge := opt_bool "self_knowledge" t in
  let? self_state := opt_bool "self_state" t in
  let? base_prompt := opt_bool "base_prompt" t in
  let? auto_plan := opt_bool "auto_plan" t in
  let? self_verify := opt_bool "self_verify" t in
  let? auto_test := opt_bool "auto_test" t in
  let? lint_and_fix := opt_bool "lint_and_fix" t in
  let? self_critique := opt_bool "self_critique" t in
  let? verify_iterations := opt_u32 "verify_iterations" t in
  let? test_command := opt_str "test_command" t in
  let? error_hints := opt_bool "error_hints" t in
  let? replan_on_failure := opt_bool "replan_on_failure" t in
  let? failure_budget := opt_u32 "failure_budget" t in
  Ok {| pf_description := description; pf_provider := provider; pf_model := model;
        pf_base_url := base_url; pf_max_iterations := max_iterations;
        pf_permission_mode := permission_mode; pf_tool_sets := tool_sets;
        pf_execution_backend := execution_backend; pf_self_knowledge := self_knowledge;
        pf_self_state := self_state; pf_base_prompt := base_prompt; pf_auto_plan := auto_plan;
        pf_self_verify := self_verify; pf_auto_test := auto_test;
        pf_lint_and_fix := lint_and_fix; pf_self_critique := self_critique;
        pf_verify_iterations := verify_iterations; pf_test_command := test_command;
        pf_error_hints := error_hints; pf_replan_on_failure := replan_on_failure;
        pf_failure_budget := failure_budget |}.
Definition decode_pl (t : table) : result str PluginSettings :=
  let? enabled := opt_list "enabled" t in
  Ok {| pl_enabled := enabled |}.
Definition decode_dl (t : table) : result str DelegationSettings :=
  let? max_concurrent_children := opt_u32 "max_concurrent_children" t in
  Ok {| dl_max_concurrent_children := max_concurrent_children |}.
Definition decode_mm (t : table) : result str MemorySettings :=
  let? ranker := opt_str "ranker" t in
  let? external_url := opt_str "external_url" t in
  let? allow_external_ranking := opt_bool "allow_external_ranking" t in
  Ok {| mm_ranker := ranker; mm_external_url := external_url;
        mm_allow_external_ranking := allow_external_ranking |}.
Definition decode_tu (t : table) : result str TuiSettings :=
  let? show_advanced := opt_bool "show_advanced" t in
  let? check_updates := opt_bool "check_updates" t in
  let? theme := opt_str "theme" t in
  Ok {| tu_show_advanced := show_advanced; tu_check_updates := check_updates; tu_theme := theme |}.
Fixpoint decode_profiles (t : table) : result str (gmap str ProfileSettings) :=
  match t with
  | [] => Ok ∅
  | (name, v) :: t =>
      let? fields := as_table v in
      let? profile := decode_pf fields in
      let? rest := decode_profiles t in
      Ok (<[name := profile]> rest)
  end.
Definition decode_agt (t : table) : result str AgentSettings :=
  let? provider := opt_str "provider" t in
  let? model := opt_str "model" t in
  let? base_url := opt_str "base_url" t in
  let? provider_policy_preset := opt_str "provider_policy_preset" t in
  let? max_iterations := opt_u32 "max_iterations" t in
  let? permission_mode := opt_str "permission_mode" t in
  let? tool_sets := opt_list "tool_sets" t in
  let? tool_choice := opt_str "tool_choice" t in
  let? response_format := opt_str "response_format" t in
  let? fallbacks := opt_list "fallbacks" t in
  let? stream := opt_bool "stream" t in
  let? remember_permissions := opt_bool "remember_permissions" t in
  let? execution_backend := opt_str "execution_backend" t in
  let? docker := sub "docker" t in
  let? docker := decode_dk docker in
  let? ssh := sub "ssh" t in
  let? ssh := decode_sh ssh in
  let? require_isolation_for_unattended := opt_bool "require_isolation_for_unattended" t in
  let? behavior := sub "behavior" t in
  let? behavior := decode_bh behavior in
  let? profile := opt_str "profile" t in
  let? profiles := sub "profiles" t in
  let? profiles := decode_profiles profiles in
  Ok {| agt_provider := provider; agt_model := model; agt_base_url := base_url;
        agt_provider_policy_preset := provider_policy_preset;
        agt_max_iterations := max_iterations; agt_permission_mode := permission_mode;
        agt_tool_sets := tool_sets; agt_tool_choice := tool_choice;
        agt_response_format := response_format; agt_fallbacks := fallbacks; agt_stream := stream;
        agt_remember_permissions := remember_permissions;
        agt_execution_backend := execution_backend; agt_docker := docker; agt_ssh := ssh;
        agt_require_isolation_for_unattended := require_isolation_for_unattended;
        agt_behavior := behavior; agt_profile := profile; agt_profiles := profiles |}.
Definition decode (t : table) : result str Settings :=
  let? config_version := opt_u32 "config_version" t in
  let? workspace := sub "workspace" t in
  let? workspace := decode_ws workspace in
  let? agent := sub "agent" t in
  let? agent := decode_agt agent in
  let? plugins := sub "plugins" t in
  let? plugins := decode_pl plugins in
  let? delegation := sub "delegation" t in
  let? delegation := decode_dl delegation in
  let? memory := sub "memory" t in
  let? memory := decode_mm memory in
  let? tui := sub "tui" t in
  let? tui := decode_tu tui in
  Ok {| st_config_version := config_version; st_workspace := workspace; st_agent := agent;
        st_plugins := plugins; st_delegation := delegation; st_memory := memory; st_tui := tui |}.

(** ** Layers ([loading.rs], [config.rs]) *)

Definition env_string (env : str → option str) (key : string) : option str :=
  value ← env (lit key); if is_empty (trim value) then None else Some value.
Definition apply_env_overrides (env : str → option str) (s : Settings) : Settings :=
  let w := st_workspace s in
  let a := st_agent s in
  {| st_config_version := st_config_version s;
     st_workspace :=
       {| ws_organization_id := take_some (ws_organization_id w) (env_string env "CODEL00P_ORGANIZATION_ID");
          ws_project_id := take_some (ws_project_id w) (env_string env "CODEL00P_PROJECT_ID");
          ws_project_name := take_some (ws_project_name w) (env_string env "CODEL00P_PROJECT_NAME");
          ws_memory_db := take_some (ws_memory_db w) (env_string env "CODEL00P_MEMORY_DB") |};
     st_agent :=
       {| agt_provider := take_some (agt_provider a) (env_string env "CODEL00P_AGENT_PROVIDER");
          agt_model := take_some (agt_model a) (env_string env "CODEL00P_AGENT_MODEL");
          agt_base_url := agt_base_url a;
          agt_provider_policy_preset := agt_provider_policy_preset a;
          agt_max_iterations := agt_max_iterations a;
          agt_permission_mode := agt_permission_mode a; agt_tool_sets := agt_tool_sets a;
          agt_tool_choice := agt_tool_choice a; agt_response_format := agt_response_format a;
          agt_fallbacks := agt_fallbacks a; agt_stream := agt_stream a;
          agt_remember_permissions := agt_remember_permissions a;
          agt_execution_backend := agt_execution_backend a; agt_docker := agt_docker a;
          agt_ssh := agt_ssh a;
          agt_require_isolation_for_unattended := agt_require_isolation_for_unattended a;
          agt_behavior := agt_behavior a; agt_profile := agt_profile a;
          agt_profiles := agt_profiles a |};
     st_plugins := st_plugins s; st_delegation := st_delegation s; st_memory := st_memory s;
     st_tui := st_tui s |}.
Section layers.
Context (parse_doc : str → result str table).
Definition load_file (file : option str) : result str (option Settings) :=
  match file with
  | None => Ok None
  | Some text => let? doc := parse_doc text in let? s := decode doc in Ok (Some s)
  end.
Definition merge_layer (s : Settings) (layer : option Settings) : Settings :=
  match layer with Some other => settings_merge s other | None => s end.
(** The text of the user's file and of the project's, if there are. *)
Definition load_layered (user project : option str) (env : str → option str)
    : result str Settings :=
  let? user := load_file user in
  let merged := merge_layer Settings_default user in
  let? project := load_file project in
  Ok (apply_env_overrides env (merge_layer merged project)).
End layers.

(** Whether the variable is set, and to what; a line of the file sets only what
    is not. *)
Definition env_file_line (env : gmap str str) (line : str) : gmap str str :=
  let line := trim line in
  if is_empty line || starts_with (lit "#") line then env
  else match split_once 61%N line with
       | None => env
       | Some (key, value) =>
           let key := trim key in
           if is_empty key || bool_decide (is_Some (env !! key)) then env
           else let quote c := (c =? 34)%N in
                <[key := trim_end_matches quote (trim_start_matches quote (trim value))]> env
       end.
Definition load_env_file (file : option str) (env : gmap str str) : gmap str str :=
  match file with
  | Some text => foldl env_file_line env (lines text)
  | None => env
  end.

(** *** Paths ([paths.rs]): absolute ones, as their names from the root *)

Definition CONFIG_FILE_NAME : str := lit "config.toml".
Definition PROJECT_DIR : str := lit ".codel00p".
(** The loop upwards; the current directory is given deepest name first. *)
Fixpoint discover_up (is_file : list str → bool) (home current : list str) : option (list str) :=
  let project_dir := reverse current ++ [PROJECT_DIR] in
  let candidate := project_dir ++ [CONFIG_FILE_NAME] in
  if negb (bool_decide (project_dir = home)) && is_file candidate then Some candidate
  else match current with
       | _ :: parent => discover_up is_file home parent
       | [] => None
       end.
Definition discover_project_config (is_file : list str → bool) (home start : list str) : option (list str) :=
  discover_up is_file home (reverse start).
Definition project_config_path (is_file : list str → bool) (home start : list str) : list str :=
  default (start ++ [PROJECT_DIR; CONFIG_FILE_NAME]) (discover_project_config is_file home start).
(** The home of a named agent ([agent/registry.rs]). *)
Definition agent_home (base : list str) (name : str) : list str := base ++ [lit "agents"; name].

Inductive MemoryRanking := Internal | External (url : str).
Definition memory_ranking (m : MemorySettings) : MemoryRanking :=
  if external_ranking_enabled m then External (default [] (mm_external_url m)) else Internal.

(** *** Global flags *)

Record GlobalOverrides := {
  go_memory_db : option str; go_organization_id : option str; go_project_id : option str;
  go_project_name : option str; go_agent : option str;
}.
Definition GlobalOverrides_default : GlobalOverrides :=
  {| go_memory_db := None; go_organization_id := None; go_project_id := None;
     go_project_name := None; go_agent := None |}.
Inductive global_flag := FlagMemoryDb | FlagOrganization | FlagProject | FlagProjectName | FlagAgent.
Definition FLAGS : list (str * global_flag) :=
  [(lit "--memory-db", FlagMemoryDb); (lit "--organization-id", FlagOrganization);
   (lit "--project-id", FlagProject); (lit "--project-name", FlagProjectName);
   (lit "--agent", FlagAgent)].
Definition set_flag (flag : global_flag) (value : str) (o : GlobalOverrides) : GlobalOverrides :=
  match flag with
  | FlagMemoryDb => {| go_memory_db := Some value; go_organization_id := go_organization_id o;
      go_project_id := go_project_id o; go_project_name := go_project_name o; go_agent := go_agent o |}
  | FlagOrganization => {| go_memory_db := go_memory_db o; go_organization_id := Some value;
      go_project_id := go_project_id o; go_project_name := go_project_name o; go_agent := go_agent o |}
  | FlagProject => {| go_memory_db := go_memory_db o; go_organization_id := go_organization_id o;
      go_project_id := Some value; go_project_name := go_project_name o; go_agent := go_agent o |}
  | FlagProjectName => {| go_memory_db := go_memory_db o; go_organization_id := go_organization_id o;
      go_project_id := go_project_id o; go_project_name := Some value; go_agent := go_agent o |}
  | FlagAgent => {| go_memory_db := go_memory_db o; go_organization_id := go_organization_id o;
      go_project_id := go_project_id o; go_project_name := go_project_name o; go_agent := Some value |}
  end.
Definition required_value (rest : list str) (name : str) : result str str :=
  match rest with
  | value :: _ => if starts_with (lit "--") value then Err (lit "missing value for " ++ name)
                  else Ok value
  | [] => Err (lit "missing value for " ++ name)
  end.
(** The loop: [index + 2] skips the value of a flag. *)
Fixpoint parse_global_overrides (args : list str) (o : GlobalOverrides)
    : result str (GlobalOverrides * list str) :=
  match args with
  | [] => Ok (o, [])
  | arg :: args =>
      match assoc arg FLAGS with
      | Some flag =>
          match args with
          | value :: args' =>
              let? value := required_value args arg in parse_global_overrides args' (set_flag flag value o)
          | [] => Err (lit "missing value for " ++ arg)
          end
      | None => let? r := parse_global_overrides args o in Ok (r.1, arg :: r.2)
      end
  end.

(** [resolve_cli_config]: the flags over the settings.  The default database and
    the expansion of a leading tilde are of the file system. *)
Record CliConfig := {
  cc_memory_db : str; cc_organization_id : str; cc_project_id : str; cc_project_name : str;
  cc_memory_ranking : MemoryRanking;
}.
Definition organization_id (s : Settings) : str := default (lit "default") (ws_organization_id (st_workspace s)).
Definition project_id (s : Settings) : str := default (lit "default") (ws_project_id (st_workspace s)).
Definition project_name (s : Settings) : str := default (lit "default") (ws_project_name (st_workspace s)).
Definition resolve_cli_config (expand_tilde : str → str) (default_memory_db : str) (s : Settings)
    (o : GlobalOverrides) : CliConfig :=
  {| cc_memory_db := default match ws_memory_db (st_workspace s) with
                             | Some path => expand_tilde path
                             | None => default_memory_db
                             end (go_memory_db o);
     cc_organization_id := default (organization_id s) (go_organization_id o);
     cc_project_id := default (project_id s) (go_project_id o);
     cc_project_name := default (project_name s) (go_project_name o);
     cc_memory_ranking := memory_ranking (st_memory s) |}.

(** ** Layers: the last one that sets a key wins *)

Lemma take_some_assoc {A} (x y z : option A) :
  take_some (take_some x y) z = take_some x (take_some y z).
Proof. by destruct y, z. Qed.
Lemma take_some_fmap {A B} (f : A → B) (x y : option A) :
  f <$> take_some x y = take_some (f <$> x) (f <$> y).
Proof. by destruct y. Qed.

(** The profiles of both sides, merged where both have one. *)
Lemma merge_profiles_lookup self other name :
  merge_profiles self other !! name =
    match other !! name with
    | Some p => Some (pf_merge (default ProfileSettings_default (self !! name)) p)
    | None => self !! name
    end.
Proof.
  unfold merge_profiles.
  apply (map_fold_weak_ind (λ acc m, acc !! name =
    match m !! name with
    | Some p => Some (pf_merge (default ProfileSettings_default (self !! name)) p)
    | None => self !! name
    end)); [done|].
  intros k p m acc Hk IH. destruct (decide (k = name)) as [->|Hne].
  - rewrite !lookup_insert_eq, IH, Hk. done.
  - by rewrite !lookup_insert_ne, IH by done.
Qed.

Lemma assoc_Forall {A} (P : str → A → Prop) (l : list (str * A)) key a :
  Forall (λ e, P e.1 e.2) l → assoc key l = Some a → P key a.
Proof.
  induction 1 as [|[k x] l HP Hl IH]; simpl; [done|].
  case_bool_decide as Hk; [|done]. by intros [= <-]; subst.
Qed.

#[local] Arguments assoc : simpl never.

Lemma effective_merge s o :
  Forall (λ e : str * (Settings → option str), e.2 (settings_merge s o) = take_some (e.2 s) (e.2 o)) EFFECTIVE.
Proof. unfold EFFECTIVE. repeat constructor; apply take_some_fmap. Qed.
Lemma profile_effective_merge p q :
  Forall (λ e : str * (ProfileSettings → option str), e.2 (pf_merge p q) = take_some (e.2 p) (e.2 q)) PROFILE_EFFECTIVE.
Proof. unfold PROFILE_EFFECTIVE. repeat constructor; apply take_some_fmap. Qed.
Lemma profile_effective_default :
  Forall (λ e : str * (ProfileSettings → option str), e.2 ProfileSettings_default = None) PROFILE_EFFECTIVE.
Proof. unfold PROFILE_EFFECTIVE. repeat constructor. Qed.

Lemma profile_effective_value_merge a b key :
  profile_effective_value (agt_merge a b) key =
    take_some (profile_effective_value a key) (profile_effective_value b key).
Proof.
  unfold profile_effective_value. destruct (profile_key key) as [[name field]|]; simpl; [|done].
  rewrite merge_profiles_lookup.
  destruct (agt_profiles b !! name) as [q|]; simpl; [|reflexivity].
  destruct (assoc field PROFILE_EFFECTIVE) as [getter|] eqn:Hf; simpl;
    [|by destruct (agt_profiles a !! name)].
  pose proof (assoc_Forall (λ _ g, g (pf_merge _ q) = take_some (g _) (g q)) _ _ _
    (profile_effective_merge (default ProfileSettings_default (agt_profiles a !! name)) q) Hf) as Hm.
  simpl in Hm. rewrite Hm.
  destruct (agt_profiles a !! name) as [p|]; simpl; [done|]. f_equal.
  exact (assoc_Forall (λ _ g, g ProfileSettings_default = None) _ _ _ profile_effective_default Hf).
Qed.

Lemma read_key_merge s o key :
  read_key (settings_merge s o) key = take_some (read_key s key) (read_key o key).
Proof.
  unfold read_key. destruct (assoc key EFFECTIVE) as [getter|] eqn:Hk.
  - exact (assoc_Forall (λ _ g, g (settings_merge s o) = take_some (g s) (g o)) _ _ _ (effective_merge s o) Hk).
  - destruct (starts_with _ key); [apply profile_effective_value_merge|done].
Qed.
Lemma read_key_default key : read_key Settings_default key = None.
Proof.
  unfold read_key. destruct (assoc key EFFECTIVE) as [getter|] eqn:Hk.
  - apply (assoc_Forall (λ _ g, g Settings_default = None) _ _ _) in Hk; [done|].
    unfold EFFECTIVE. repeat constructor.
  - destruct (starts_with _ key); [|done]. unfold profile_effective_value.
    destruct (profile_key key) as [[name field]|]; simpl; [|done]. by rewrite lookup_empty.
Qed.

(** The variable of the environment that sets a key. *)
Definition ENV_KEYS : list (str * string) :=
  [(lit "workspace.organization_id", "CODEL00P_ORGANIZATION_ID"%string);
   (lit "workspace.project_id", "CODEL00P_PROJECT_ID"%string);
   (lit "workspace.project_name", "CODEL00P_PROJECT_NAME"%string);
   (lit "workspace.memory_db", "CODEL00P_MEMORY_DB"%string);
   (lit "agent.provider", "CODEL00P_AGENT_PROVIDER"%string);
   (lit "agent.model", "CODEL00P_AGENT_MODEL"%string)].
Definition env_layer (env : str → option str) (key : str) : option str :=
  variable ← assoc key ENV_KEYS; env_string env variable.
Definition file_layer (layer : option Settings) (key : str) : option str :=
  s ← layer; read_key s key.

Lemma effective_env env s :
  Forall (λ e : str * (Settings → option str),
    e.2 (apply_env_overrides env s) = take_some (e.2 s) (env_layer env e.1)) EFFECTIVE.
Proof.
  unfold EFFECTIVE.
  repeat (constructor; [unfold env_layer;
    match goal with |- context [assoc ?k ENV_KEYS] =>
      let v := eval vm_compute in (assoc k ENV_KEYS) in
      replace (assoc k ENV_KEYS) with v by (vm_compute; reflexivity) end; reflexivity|]).
  constructor.
Qed.
Lemma env_layer_profile env key : assoc key EFFECTIVE = None → env_layer env key = None.
Proof.
  intros Hk. unfold env_layer. destruct (assoc key ENV_KEYS) as [v|] eqn:He; [|done].
  assert (Forall (λ e : str * string, is_Some (assoc e.1 EFFECTIVE)) ENV_KEYS) as Hall.
  { unfold ENV_KEYS. repeat (constructor; [vm_compute; by eexists|]). constructor. }
  pose proof (assoc_Forall (λ k _, is_Some (assoc k EFFECTIVE)) _ _ _ Hall He) as [x Hx]. congruence.
Qed.
Lemma read_key_env env s key :
  read_key (apply_env_overrides env s) key = take_some (read_key s key) (env_layer env key).
Proof.
  unfold read_key. destruct (assoc key EFFECTIVE) as [getter|] eqn:Hk.
  - exact (assoc_Forall (λ k g, g (apply_env_overrides env s) = take_some (g s) (env_layer env k))
      _ _ _ (effective_env env s) Hk).
  - rewrite env_layer_profile by done. by destruct (starts_with _ key).
Qed.
Lemma read_key_layer s layer key :
  read_key (merge_layer s layer) key = take_some (read_key s key) (file_layer layer key).
Proof. destruct layer; [apply read_key_merge|done]. Qed.

(** C31. Precedence of the layers: whatever key is read, its value is the one the
    environment sets, else the project's file, else the user's file, whichever
    keys the files set and however they nest, profile fields included. *)
Theorem layers_precedence parse_doc user project env s key :
  load_layered parse_doc user project env = Ok s →
  ∃ u p, load_file parse_doc user = Ok u ∧ load_file parse_doc project = Ok p ∧
    read_key s key =
      match env_layer env key with
      | Some v => Some v
      | None => match file_layer p key with Some v => Some v | None => file_layer u key end
      end.
Proof.
  unfold load_layered. destruct (load_file parse_doc user) as [u|]; simpl; [|done].
  destruct (load_file parse_doc project) as [p|]; simpl; [|done].
  intros [= <-]. exists u, p. split_and!; [done..|].
  rewrite read_key_env, !read_key_layer, read_key_default.
  by destruct (env_layer env key), (file_layer p key), (file_layer u key).
Qed.

Definition demo_parse (text : str) : result str table :=
  if bool_decide (text = lit "user") then
    Ok [(lit "agent", TTable [(lit "model", TStr (lit "m1")); (lit "stream", TBool true)])]
  else Ok [(lit "agent", TTable [(lit "model", TStr (lit "m2"))])].
Lemma layers_precedence_witness : ∃ s u p,
  load_layered demo_parse (Some (lit "user")) (Some (lit "project")) (λ _, None) = Ok s ∧
  load_file demo_parse (Some (lit "user")) = Ok u ∧ load_file demo_parse (Some (lit "project")) = Ok p ∧
  read_key s (lit "agent.model") = file_layer p (lit "agent.model") ∧
  file_layer p (lit "agent.model") = Some (lit "m2") ∧ file_layer u (lit "agent.model") = Some (lit "m1").
Proof.
  destruct (load_layered demo_parse (Some (lit "user")) (Some (lit "project")) (λ _, None)) as [s|e] eqn:Hs;
    [|vm_compute in Hs; discriminate].
  destruct (layers_precedence _ _ _ _ _ (lit "agent.model") Hs) as (u & p & Hu & Hp & Hr).
  exists s, u, p. split_and!; [done|done|done| | |].
  - rewrite Hr. vm_compute in Hp. injection Hp as <-. vm_compute. reflexivity.
  - vm_compute in Hp. injection Hp as <-. vm_compute. reflexivity.
  - vm_compute in Hu. injection Hu as <-. vm_compute. reflexivity.
Defined.

(** *** Profiles fill what the configuration leaves open *)

(** The field of a profile that a key of the agent takes its value from. *)
Definition profile_source (key : str) : option str :=
  field ← match strip_prefix (lit "agent.behavior.") key with
          | Some field => Some field
          | None => strip_prefix (lit "agent.") key
          end;
  if bool_decide (field = lit "description") then None else Some field.
Definition profile_layer (p : ProfileSettings) (key : str) : option str :=
  field ← profile_source key; getter ← assoc field PROFILE_EFFECTIVE; getter p.

Lemma fill_take {A} (x y : option A) : fill x y = take_some y x.
Proof. by destruct x, y. Qed.

Lemma take_none {A} (x : option A) : take_some None x = x.
Proof. by destruct x. Qed.

Definition with_agent (a : AgentSettings) (s : Settings) : Settings :=
  {| st_config_version := st_config_version s; st_workspace := st_workspace s; st_agent := a;
     st_plugins := st_plugins s; st_delegation := st_delegation s; st_memory := st_memory s;
     st_tui := st_tui s |}.

Lemma effective_profile p s :
  Forall (λ e : str * (Settings → option str),
    e.2 (with_agent (apply_profile p (st_agent s)) s) = take_some (profile_layer p e.1) (e.2 s)) EFFECTIVE.
Proof.
  unfold EFFECTIVE.
  repeat (constructor; [
    unfold profile_layer; cbv beta;
    match goal with |- context [profile_source ?k] =>
      let v := eval vm_compute in (profile_source k ≫= λ f, assoc f PROFILE_EFFECTIVE) in
      replace (field ← profile_source k; getter ← assoc field PROFILE_EFFECTIVE; getter p)
        with (getter ← v; getter p) by (vm_compute; reflexivity) end;
    simpl; rewrite ?take_none, ?fill_take; first [reflexivity | apply take_some_fmap]|]).
  constructor.
Qed.

(** A profile changes only what the configuration leaves unset. *)
Lemma profile_fills p s key getter :
  assoc key EFFECTIVE = Some getter →
  read_key (with_agent (apply_profile p (st_agent s)) s) key =
    match read_key s key with Some v => Some v | None => profile_layer p key end.
Proof.
  intros Hk. unfold read_key. rewrite Hk.
  rewrite (assoc_Forall (λ k g, g (with_agent (apply_profile p (st_agent s)) s) =
    take_some (profile_layer p k) (g s)) _ _ _ (effective_profile p s) Hk).
  by destruct (getter s).
Qed.

(** Memories leave for an external ranker only when the ranker is named, its
    address given and the export allowed. *)
Lemma external_ranking_gate m url :
  memory_ranking m = External url →
  mm_ranker m = Some (lit "external") ∧ mm_external_url m = Some url ∧ url ≠ [] ∧
  mm_allow_external_ranking m = Some true.
Proof.
  unfold memory_ranking, external_ranking_enabled. intros H.
  case_bool_decide; [|discriminate]. destruct (mm_external_url m) as [u|]; [|discriminate].
  destruct (mm_allow_external_ranking m) as [[]|], u; simplify_eq/=; done.
Qed.

(** ** Documents and settings *)

(** What the schema takes at a key. *)
Inductive fkind := FStr | FBool | FUint (limit : N) | FList.
#[export] Instance fkind_eq_dec : EqDecision fkind.
Proof. solve_decision. Defined.
Abbreviation path := (list str * str)%type.
Definition typed (kind : fkind) (o : option toml) : bool :=
  match o, kind with
  | None, _ | Some (TStr _), FStr | Some (TBool _), FBool => true
  | Some (TInt z), FUint limit => (0 <=? z)%Z && (z <? Z.of_N limit)%Z
  | Some (TArr l), FList => is_ok (collect_result (as_str <$> l))
  | Some _, _ => false
  end.
(** How [config get] shows a value. *)
Definition shown_toml (v : toml) : option str :=
  match v with
  | TStr s => Some s
  | TBool b => shown_bool (Some b)
  | TInt z => Some (show_N (Z.to_N z))
  | TArr l => match collect_result (as_str <$> l) with Ok items => Some (join (lit ",") items) | Err _ => None end
  | _ => None
  end.
Fixpoint table_at (segments : list str) (t : table) : result str table :=
  match segments with
  | [] => Ok t
  | segment :: rest => let? c := child segment t in table_at rest c
  end.
Definition entry (p : path) (t : table) : result str (option toml) :=
  let? c := table_at p.1 t in Ok (assoc p.2 c).
Definition value_at (p : path) (t : table) : option str :=
  match entry p t with Ok o => o ≫= shown_toml | Err _ => None end.

(** The fields of the keys of [KEY_SPECS], in its order. *)
Definition STATIC : list (path * fkind) :=
  [([lit "workspace"], lit "organization_id", FStr); ([lit "workspace"], lit "project_id", FStr);
   ([lit "workspace"], lit "project_name", FStr); ([lit "workspace"], lit "memory_db", FStr);
   ([lit "agent"], lit "provider", FStr); ([lit "agent"], lit "model", FStr);
   ([lit "agent"], lit "base_url", FStr); ([lit "agent"], lit "provider_policy_preset", FStr);
   ([lit "agent"], lit "max_iterations", FUint (2 ^ 32));
   ([lit "agent"], lit "permission_mode", FStr); ([lit "agent"], lit "tool_sets", FList);
   ([lit "agent"], lit "fallbacks", FList); ([lit "agent"], lit "stream", FBool);
   ([lit "agent"], lit "remember_permissions", FBool);
   ([lit "agent"], lit "execution_backend", FStr);
   ([lit "agent"; lit "docker"], lit "image", FStr);
   ([lit "agent"; lit "docker"], lit "container_mount", FStr);
   ([lit "agent"; lit "docker"], lit "memory", FStr);
   ([lit "agent"; lit "docker"], lit "cpus", FStr);
   ([lit "agent"; lit "docker"], lit "network", FStr);
   ([lit "agent"; lit "docker"], lit "map_host_user", FBool);
   ([lit "agent"; lit "docker"], lit "reuse_container", FBool);
   ([lit "agent"; lit "ssh"], lit "host", FStr); ([lit "agent"; lit "ssh"], lit "user", FStr);
   ([lit "agent"; lit "ssh"], lit "port", FUint (2 ^ 16));
   ([lit "agent"; lit "ssh"], lit "identity_file", FStr);
   ([lit "agent"; lit "ssh"], lit "workspace", FStr);
   ([lit "agent"], lit "require_isolation_for_unattended", FBool);
   ([lit "agent"; lit "behavior"], lit "self_knowledge", FBool);
   ([lit "agent"; lit "behavior"], lit "self_state", FBool);
   ([lit "agent"; lit "behavior"], lit "base_prompt", FBool);
   ([lit "agent"; lit "behavior"], lit "auto_plan", FBool);
   ([lit "agent"; lit "behavior"], lit "self_verify", FBool);
   ([lit "agent"; lit "behavior"], lit "auto_test", FBool);
   ([lit "agent"; lit "behavior"], lit "lint_and_fix", FBool);
   ([lit "agent"; lit "behavior"], lit "self_critique", FBool);
   ([lit "agent"; lit "behavior"], lit "verify_iterations", FUint (2 ^ 32));
   ([lit "agent"; lit "behavior"], lit "test_command", FStr);
   ([lit "agent"; lit "behavior"], lit "error_hints", FBool);
   ([lit "agent"; lit "behavior"], lit "replan_on_failure", FBool);
   ([lit "agent"; lit "behavior"], lit "failure_budget", FUint (2 ^ 32));
   ([lit "agent"; lit "behavior"], lit "workspace_context", FBool);
   ([lit "agent"; lit "behavior"], lit "proactive_memory", FBool);
   ([lit "agent"; lit "behavior"], lit "persona", FBool);
   ([lit "agent"; lit "behavior"], lit "curated_memory", FBool);
   ([lit "agent"; lit "behavior"], lit "curator", FBool); ([lit "agent"], lit "profile", FStr);
   ([lit "plugins"], lit "enabled", FList);
   ([lit "delegation"], lit "max_concurrent_children", FUint (2 ^ 32));
   ([lit "memory"], lit "ranker", FStr); ([lit "memory"], lit "external_url", FStr);
   ([lit "memory"], lit "allow_external_ranking", FBool);
   ([lit "tui"], lit "show_advanced", FBool); ([lit "tui"], lit "check_updates", FBool);
   ([lit "tui"], lit "theme", FStr)].
Definition SCHEMA : list (path * fkind) :=
  STATIC ++ [([], lit "config_version", FUint (2 ^ 32)); ([lit "agent"], lit "tool_choice", FStr);
             ([lit "agent"], lit "response_format", FStr)].
Definition field_ok (t : table) (f : path * fkind) : bool :=
  match entry f.1 t with Ok o => typed f.2 o | Err _ => false end.
Definition profiles_path : path := ([lit "agent"], lit "profiles").
Definition profiles_ok (o : option toml) : bool :=
  is_ok (let? c := match o with None => Ok [] | Some v => as_table v end in decode_profiles c).
(** What a document must satisfy to load. *)
Definition loads (t : table) : bool :=
  forallb (field_ok t) SCHEMA &&
  match entry profiles_path t with Ok o => profiles_ok o | Err _ => false end.

Lemma opt_str_Ok k t o : opt_str k t = Ok o → typed FStr (assoc (lit k) t) = true ∧ o = assoc (lit k) t ≫= shown_toml.
Proof. unfold opt_str. by destruct (assoc _ t) as [[]|]; intros [= <-]. Qed.
Lemma opt_bool_Ok k t o :
  opt_bool k t = Ok o → typed FBool (assoc (lit k) t) = true ∧ shown_bool o = assoc (lit k) t ≫= shown_toml.
Proof. unfold opt_bool. by destruct (assoc _ t) as [[]|]; intros [= <-]. Qed.
Lemma opt_uint_Ok limit k t o :
  opt_uint limit k t = Ok o →
  typed (FUint limit) (assoc (lit k) t) = true ∧ shown_u32 o = assoc (lit k) t ≫= shown_toml.
Proof.
  unfold opt_uint. destruct (assoc _ t) as [[]|]; simpl; try by intros [= <-].
  destruct (_ && _); by intros [= <-].
Qed.
Lemma opt_list_Ok k t o :
  opt_list k t = Ok o → typed FList (assoc (lit k) t) = true ∧ shown_list o = assoc (lit k) t ≫= shown_toml.
Proof.
  unfold opt_list. destruct (assoc _ t) as [[]|]; simpl; try by intros [= <-].
  destruct (collect_result _); simpl; by intros [= <-].
Qed.
Lemma typed_str k t : typed FStr (assoc (lit k) t) = true → ∃ o, opt_str k t = Ok o.
Proof. unfold opt_str. destruct (assoc _ t) as [[]|]; simpl; eauto; discriminate. Qed.
Lemma typed_bool k t : typed FBool (assoc (lit k) t) = true → ∃ o, opt_bool k t = Ok o.
Proof. unfold opt_bool. destruct (assoc _ t) as [[]|]; simpl; eauto; discriminate. Qed.
Lemma typed_uint limit k t : typed (FUint limit) (assoc (lit k) t) = true → ∃ o, opt_uint limit k t = Ok o.
Proof. unfold opt_uint. destruct (assoc _ t) as [[]|]; simpl; eauto; try discriminate. intros ->. eauto. Qed.
Lemma typed_list k t : typed FList (assoc (lit k) t) = true → ∃ o, opt_list k t = Ok o.
Proof.
  unfold opt_list. destruct (assoc _ t) as [[]|]; simpl; eauto; try discriminate.
  destruct (collect_result _); simpl; [eauto|discriminate].
Qed.

Ltac open_binds :=
  repeat match goal with
    | H : result_bind _ _ = Ok _ |- _ =>
        let Hx := fresh "Hx" in apply result_bind_Ok in H as (? & Hx & H); cbv beta in H
    end.
Ltac open_fields :=
  repeat match goal with
    | H : opt_str _ _ = Ok _ |- _ => apply opt_str_Ok in H as [? ?]
    | H : opt_bool _ _ = Ok _ |- _ => apply opt_bool_Ok in H as [? ?]
    | H : opt_u32 _ _ = Ok _ |- _ => apply opt_uint_Ok in H as [? ?]
    | H : opt_u16 _ _ = Ok _ |- _ => apply opt_uint_Ok in H as [? ?]
    | H : opt_list _ _ = Ok _ |- _ => apply opt_list_Ok in H as [? ?]
    end.
Ltac open_decode :=
  repeat match goal with
    | H : decode _ = Ok _ |- _ => unfold decode in H; open_binds
    | H : decode_ws _ = Ok _ |- _ => unfold decode_ws in H; open_binds; injection H as <-
    | H : decode_dk _ = Ok _ |- _ => unfold decode_dk in H; open_binds; injection H as <-
    | H : decode_sh _ = Ok _ |- _ => unfold decode_sh in H; open_binds; injection H as <-
    | H : decode_bh _ = Ok _ |- _ => unfold decode_bh in H; open_binds; injection H as <-
    | H : decode_pl _ = Ok _ |- _ => unfold decode_pl in H; open_binds; injection H as <-
    | H : decode_dl _ = Ok _ |- _ => unfold decode_dl in H; open_binds; injection H as <-
    | H : decode_mm _ = Ok _ |- _ => unfold decode_mm in H; open_binds; injection H as <-
    | H : decode_tu _ = Ok _ |- _ => unfold decode_tu in H; open_binds; injection H as <-
    | H : decode_agt _ = Ok _ |- _ => unfold decode_agt in H; open_binds; injection H as <-
    end; open_fields.
(** The entry of a path, from the tables on the way. *)
Ltac walk :=
  cbn [fst snd table_at result_bind];
  repeat match goal with
    | H : child ?k ?t = Ok _ |- context [child ?k ?t] => rewrite H; cbn [result_bind]
    end.

Lemma decode_reads t s :
  decode t = Ok s →
  Forall2 (λ (e : str * (Settings → option str)) f, e.2 s = value_at f.1 t) EFFECTIVE STATIC.
Proof.
  intros Hd. open_decode. injection Hd as <-. unfold sub in *.
  unfold EFFECTIVE, STATIC, value_at, entry.
  repeat (constructor; [walk; assumption|]). constructor.
Qed.
Lemma decode_loads t s : decode t = Ok s → loads t = true.
Proof.
  intros Hd. open_decode. injection Hd as <-. unfold sub in *.
  unfold loads, field_ok, SCHEMA, STATIC, entry, profiles_path, profiles_ok. apply andb_true_intro. split.
  - cbn [app forallb]. repeat (apply andb_true_intro; split; [walk; assumption|]). reflexivity.
  - walk. unfold child in *.
    match goal with H : match assoc (lit "profiles") _ with _ => _ end = Ok _ |- _ => rewrite H end.
    cbn [result_bind]. match goal with H : decode_profiles _ = Ok _ |- _ => rewrite H end. reflexivity.
Qed.
Ltac decode_step :=
  match goal with
  | H : child ?k ?t = Ok _ |- context [child ?k ?t] => rewrite H
  | |- context [opt_str ?k ?c] => destruct (typed_str k c) as [? ->]; [assumption|]
  | |- context [opt_bool ?k ?c] => destruct (typed_bool k c) as [? ->]; [assumption|]
  | |- context [opt_u32 ?k ?c] => unfold opt_u32 at 1; destruct (typed_uint (2 ^ 32) k c) as [? ->]; [assumption|]
  | |- context [opt_u16 ?k ?c] => unfold opt_u16 at 1; destruct (typed_uint (2 ^ 16) k c) as [? ->]; [assumption|]
  | |- context [opt_list ?k ?c] => destruct (typed_list k c) as [? ->]; [assumption|]
  | H : decode_profiles ?c = Ok _ |- context [decode_profiles ?c] => rewrite H
  end; cbn [result_bind].
Lemma loads_decode t : loads t = true → ∃ s, decode t = Ok s.
Proof.
  unfold loads, field_ok, SCHEMA, STATIC, entry, profiles_path, profiles_ok. intros [Hf Hp]%andb_prop.
  cbn [app forallb fst snd table_at] in Hf, Hp. repeat (apply andb_prop in Hf as [? Hf]). clear Hf.
  repeat match goal with
    | H : context [result_bind _ (child ?k ?t)] |- _ =>
        destruct (child k t) eqn:?; [|discriminate H]; cbn [result_bind] in *
    end.
  match type of Hp with is_ok (result_bind _ ?m) = _ => destruct m as [ps|] eqn:Hps; [|discriminate] end.
  cbn [result_bind] in Hp. destruct (decode_profiles ps) as [profiles|] eqn:Hd; [|discriminate].
  match type of Hps with match assoc ?k ?c with _ => _ end = _ => change (child k c = Ok ps) in Hps end.
  unfold decode, decode_agt, decode_ws, decode_dk, decode_sh, decode_bh, decode_pl, decode_dl, decode_mm, decode_tu, sub.
  repeat decode_step. eauto.
Qed.

(** *** Setting a key *)

Lemma assoc_cons_eq {A} key (a : A) l : assoc key ((key, a) :: l) = Some a.
Proof. unfold assoc. by rewrite bool_decide_eq_true_2. Qed.
Lemma assoc_cons_ne {A} key k (a : A) l : k ≠ key → assoc key ((k, a) :: l) = assoc key l.
Proof. intros ?. unfold assoc at 1. by rewrite bool_decide_eq_false_2. Qed.
Lemma assoc_tset_eq key v t : assoc key (tset key v t) = Some v.
Proof.
  induction t as [|[k x] t IH]; simpl; [apply assoc_cons_eq|].
  case_bool_decide; [apply assoc_cons_eq|by rewrite assoc_cons_ne].
Qed.
Lemma assoc_tset_ne key key' v t : key ≠ key' → assoc key' (tset key v t) = assoc key' t.
Proof.
  intros Hne. induction t as [|[k x] t IH]; simpl; [by rewrite assoc_cons_ne|].
  case_bool_decide as Hk; [subst; by rewrite !assoc_cons_ne|].
  destruct (decide (k = key')) as [->|]; [by rewrite !assoc_cons_eq|by rewrite !assoc_cons_ne].
Qed.
Lemma child_tset_eq key c t : child key (tset key (TTable c) t) = Ok c.
Proof. unfold child. by rewrite assoc_tset_eq. Qed.
Lemma child_tset_ne key key' v t : key ≠ key' → child key' (tset key v t) = child key' t.
Proof. intros. unfold child. by rewrite assoc_tset_ne. Qed.

(** Neither path is a prefix of the other. *)
Fixpoint apart (segments : list str) (field : str) (segments' : list str) (field' : str) : bool :=
  match segments, segments' with
  | [], [] => negb (bool_decide (field = field'))
  | [], s' :: _ => negb (bool_decide (field = s'))
  | s :: _, [] => negb (bool_decide (s = field'))
  | s :: rest, s' :: rest' => if bool_decide (s = s') then apart rest field rest' field' else true
  end.
Definition paths_apart (p q : path) : bool := apart p.1 p.2 q.1 q.2.

Lemma set_in_child walked segment rest field v t t' :
  set_in walked (segment :: rest) field v t = Ok t' →
  ∃ c c' w, child segment t = Ok c ∧ set_in w rest field v c = Ok c' ∧ t' = tset segment (TTable c') t.
Proof.
  cbn [set_in]. unfold child. destruct (assoc segment t) as [v'|]; cbn [default]; [destruct v'; try discriminate|];
    (intros (c' & Hc & [= <-])%result_bind_Ok; eauto 6).
Qed.
Lemma set_in_same walked segments field v t t' :
  set_in walked segments field v t = Ok t' → entry (segments, field) t' = Ok (Some v).
Proof.
  unfold entry. cbn [fst snd]. revert walked t t'. induction segments as [|s rest IH]; intros walked t t' Hs.
  - injection Hs as <-. simpl. by rewrite assoc_tset_eq.
  - apply set_in_child in Hs as (c & c' & w & _ & Hs & ->). cbn [table_at].
    rewrite child_tset_eq. cbn [result_bind]. eauto.
Qed.
Lemma set_in_apart walked segments field v t t' q :
  set_in walked segments field v t = Ok t' → paths_apart (segments, field) q = true → entry q t' = entry q t.
Proof.
  destruct q as [segments' field']. unfold entry, paths_apart. cbn [fst snd].
  revert walked segments' t t'. induction segments as [|s rest IH]; intros walked segments' t t' Hs Ha.
  - injection Hs as <-. destruct segments' as [|s' rest']; cbn [table_at result_bind apart] in *;
      apply negb_true_iff, bool_decide_eq_false_1 in Ha; [by rewrite assoc_tset_ne|by rewrite child_tset_ne].
  - apply set_in_child in Hs as (c & c' & w & Hc & Hs & ->).
    destruct segments' as [|s' rest']; cbn [table_at result_bind apart] in *.
    + apply negb_true_iff, bool_decide_eq_false_1 in Ha. by rewrite assoc_tset_ne.
    + case_bool_decide as Hss; [subst s'|by rewrite child_tset_ne].
      rewrite child_tset_eq, Hc. cbn [result_bind]. eauto.
Qed.

Definition version_path : path := ([], lit "config_version").
Lemma ensure_version_apart t q : paths_apart version_path q = true → entry q (ensure_version t) = entry q t.
Proof.
  unfold ensure_version. destruct (assoc _ t); [done|].
  by apply (set_in_apart [] [] (lit "config_version") (TInt (Z.of_N CONFIG_VERSION))).
Qed.

(** The paths of the schema are pairwise apart, and apart from the profiles. *)
Definition fields_apart (f g : path * fkind) : bool := bool_decide (f = g) || paths_apart f.1 g.1.
Lemma schema_apart :
  forallb (λ f, forallb (fields_apart f) SCHEMA && paths_apart f.1 profiles_path &&
                (bool_decide (f.1 = version_path) || paths_apart version_path f.1)) SCHEMA = true.
Proof. vm_compute. reflexivity. Qed.
Lemma schema_apart_in f :
  f ∈ SCHEMA → paths_apart f.1 profiles_path = true ∧ (∀ g, g ∈ SCHEMA → f = g ∨ paths_apart f.1 g.1 = true) ∧
  (f.1 = version_path ∨ paths_apart version_path f.1 = true).
Proof.
  intros Hf. pose proof schema_apart as H. rewrite forallb_forall in H.
  apply list_elem_of_In in Hf. specialize (H f Hf). cbv beta in H.
  apply andb_prop in H as [H1 H2]. apply andb_prop in H1 as [H1 H3]. split_and!; [done| |].
  - intros g Hg%list_elem_of_In. rewrite forallb_forall in H1. specialize (H1 g Hg). unfold fields_apart in H1.
    apply orb_prop in H1 as [H1%bool_decide_eq_true_1|H1]; auto.
  - apply orb_prop in H2 as [H2%bool_decide_eq_true_1|H2]; auto.
Qed.

Lemma loads_fields t :
  loads t = true ↔ (∀ f, f ∈ SCHEMA → field_ok t f = true) ∧
    match entry profiles_path t with Ok o => profiles_ok o = true | Err _ => False end.
Proof.
  unfold loads. rewrite andb_true_iff, forallb_forall. split; intros [H1 H2]; split.
  - intros f Hf%list_elem_of_In. auto.
  - by destruct (entry profiles_path t).
  - intros f Hf%list_elem_of_In. auto.
  - by destruct (entry profiles_path t).
Qed.
Lemma ensure_version_loads t : loads t = true → loads (ensure_version t) = true.
Proof.
  rewrite !loads_fields. intros [Hf Hp]. split.
  - intros f Hin. destruct (schema_apart_in f Hin) as (_ & _ & [Hv|Ha]).
    + specialize (Hf f Hin). unfold ensure_version. destruct (assoc (lit "config_version") t) as [v|] eqn:Hc; [done|].
      assert (f = (version_path, FUint (2 ^ 32))) as ->.
      { assert (Hs : (version_path, FUint (2 ^ 32)) ∈ SCHEMA) by (apply list_elem_of_In; vm_compute; tauto).
        destruct (schema_apart_in f Hin) as (_ & Hg & _). destruct (Hg _ Hs) as [?|H]; [done|].
        rewrite Hv in H. vm_compute in H. discriminate H. }
      unfold field_ok, entry. cbn [fst snd version_path table_at result_bind]. rewrite assoc_tset_eq. reflexivity.
    + unfold field_ok. rewrite ensure_version_apart by done. by apply Hf.
  - by rewrite ensure_version_apart by (vm_compute; reflexivity).
Qed.
Lemma set_loads walked f v t t' :
  set_in walked f.1.1 f.1.2 v t = Ok t' → f ∈ SCHEMA → typed f.2 (Some v) = true → loads t = true → loads t' = true.
Proof.
  destruct f as [[segments field] kind]. cbn [fst snd].
  intros Hs Hin Hv. rewrite !loads_fields. intros [Hf Hp].
  destruct (schema_apart_in _ Hin) as (Ha & Hg & _). cbn [fst snd] in *. split.
  - intros g Hgin. unfold field_ok. destruct (Hg g Hgin) as [<-|Hag].
    + cbn [fst snd]. by rewrite (set_in_same _ _ _ _ _ _ Hs).
    + rewrite (set_in_apart _ _ _ _ _ _ _ Hs Hag). by apply Hf.
  - by rewrite (set_in_apart _ _ _ _ _ _ _ Hs Ha).
Qed.

(** *** [config set] and [config unset] *)

Definition port_key : str := lit "agent.ssh.port".
(** The kinds [config set] writes and the ones the schema reads. *)
Definition agrees (key : str) (kind : ValueKind) (f : fkind) : bool :=
  match kind, f with
  | KStr, FStr | KBool, FBool | KStrList, FList => true
  | KU32, FUint limit => (limit =? 2 ^ 32)%N || bool_decide (key = port_key) && (limit =? 2 ^ 16)%N
  | _, _ => false
  end.
Lemma specs_static :
  EFFECTIVE.*1 = known_keys ∧
  Forall2 (λ (e : str * ValueKind) f, assoc e.1 KEY_SPECS = Some e.2 ∧ split_key e.1 = f.1 ∧
    join (lit ".") (f.1.1 ++ [f.1.2]) = e.1 ∧ agrees e.1 e.2 f.2 = true) KEY_SPECS STATIC.
Proof.
  split; [vm_compute; reflexivity|]. unfold KEY_SPECS at 2, STATIC.
  repeat (constructor; [split_and!; vm_compute; reflexivity|]). constructor.
Qed.
Lemma Forall2_elem {A B} (P : A → B → Prop) l k a : Forall2 P l k → a ∈ l → ∃ b, b ∈ k ∧ P a b.
Proof.
  induction 1 as [|x y l k Hxy Hl IH]; intros Hin; [by apply not_elem_of_nil in Hin|].
  apply elem_of_cons in Hin as [->|(b & Hb & HP)%IH]; [exists y|exists b]; rewrite elem_of_cons; auto.
Qed.
Lemma known_key key :
  key ∈ known_keys → ∃ kind f, key_kind key = Some kind ∧ f ∈ SCHEMA ∧ split_key key = f.1 ∧
    join (lit ".") (f.1.1 ++ [f.1.2]) = key ∧ agrees key kind f.2 = true.
Proof.
  intros ([k kind] & -> & Hin)%list_elem_of_fmap. destruct specs_static as [_ Hs].
  destruct (Forall2_elem _ _ _ _ Hs Hin) as (f & Hf & Hk & Hp & Hj & Ha). cbn [fst snd] in *.
  exists kind, f. unfold key_kind. rewrite Hk. split_and!; [done|unfold SCHEMA; apply elem_of_app; by left|done..].
Qed.
Lemma assoc_elem {A} key (l : list (str * A)) : key ∈ l.*1 → ∃ a, assoc key l = Some a.
Proof.
  induction l as [|[k a] l IH]; intros Hin; [by apply not_elem_of_nil in Hin|].
  destruct (decide (k = key)) as [->|]; [rewrite assoc_cons_eq; eauto|]. rewrite assoc_cons_ne by done.
  apply IH. by apply elem_of_cons in Hin as [|].
Qed.
Lemma Forall2_keys {A A' B} (P : str → B → Prop) (l : list (str * A)) (l' : list (str * A')) k :
  Forall2 (λ e f, P e.1 f) l k → l'.*1 = l.*1 → Forall2 (λ e f, P e.1 f) l' k.
Proof.
  intros H. revert l'. induction H as [|e f l k Hef Hl IH]; intros [|e' l'] He; try discriminate; [constructor|].
  injection He as He1 He2. constructor; [by rewrite He1|auto].
Qed.
(** [config get] reads the document where [config set] writes it. *)
Lemma known_key_read key t s : key ∈ known_keys → decode t = Ok s → read_key s key = value_at (split_key key) t.
Proof.
  intros Hin Hd. destruct specs_static as [He Hs].
  destruct (assoc_elem key EFFECTIVE) as [getter Hg]; [by rewrite He|]. unfold read_key. rewrite Hg.
  assert (Forall2 (λ (e : str * (Settings → option str)) f, split_key e.1 = f.1) EFFECTIVE STATIC) as Hp.
  { apply (Forall2_keys (λ k f, split_key k = f.1) KEY_SPECS); [|done]. eapply Forall2_impl; [exact Hs|naive_solver]. }
  pose proof (decode_reads t s Hd) as Hr.
  assert (Forall (λ e : str * (Settings → option str), e.2 s = value_at (split_key e.1) t) EFFECTIVE) as Hall.
  { clear -Hp Hr. revert Hp. induction Hr as [|e f l k He Hl IH]; intros Hp; constructor.
    - inversion Hp as [|? ? ? ? Hef]; subst. by rewrite He, Hef.
    - apply IH. by inversion Hp. }
  exact (assoc_Forall (λ k g, g s = value_at (split_key k) t) _ _ _ Hall Hg).
Qed.
Lemma coerce_typed key kind raw v f :
  coerce kind raw = Ok v → agrees key kind f = true →
  (key = port_key → ∀ n, parse_u64 (trim raw) = Some n → (n < 2 ^ 16)%N) →
  typed f (Some v) = true ∧ is_Some (shown_toml v).
Proof.
  unfold coerce. destruct kind, f; try discriminate; intros Hc Ha Hport.
  - injection Hc as <-. cbn. eauto.
  - repeat case_bool_decide; simplify_eq; cbn; eauto.
  - destruct (parse_u64 (trim raw)) as [n|] eqn:Hn; cbn [mbind option_bind] in Hc; [|discriminate].
    destruct (n <? 2 ^ 32)%N eqn:Hlt; [|discriminate]. injection Hc as <-.
    cbn [agrees] in Ha. split; [|cbn; eauto]. cbn [typed]. apply N.ltb_lt in Hlt.
    assert (n < limit)%N as Hn'.
    { apply orb_prop in Ha as [->%N.eqb_eq|[Hk%bool_decide_eq_true_1 ->%N.eqb_eq]%andb_prop]; eauto. }
    apply andb_true_intro; split; lia.
  - injection Hc as <-. cbn [typed shown_toml].
    generalize (List.filter (λ item, negb (is_empty item)) (trim <$> split_by (λ c, (c =? 44)%N) raw)) as l.
    intros l. rewrite <- list_fmap_compose, (collect_result_map_Ok _ id) by done. cbn. eauto.
Qed.

Lemma value_at_entry p t t' : entry p t = entry p t' → value_at p t = value_at p t'.
Proof. unfold value_at. by intros ->. Qed.
Lemma known_keys_apart key key' :
  key ∈ known_keys → key' ∈ known_keys → key' ≠ key → paths_apart (split_key key) (split_key key') = true.
Proof.
  intros (kind & f & _ & Hf & Hp & Hj & _)%known_key (kind' & f' & _ & Hf' & Hp' & Hj' & _)%known_key Hne.
  destruct (schema_apart_in f Hf) as (_ & Hg & _). destruct (Hg f' Hf') as [->|Ha]; [congruence|by rewrite Hp, Hp'].
Qed.
Lemma known_key_version key : key ∈ known_keys → paths_apart version_path (split_key key) = true.
Proof.
  intros ([k kind] & -> & Hin)%list_elem_of_fmap. cbn [fst].
  assert (forallb (λ e : str * ValueKind, paths_apart version_path (split_key e.1)) KEY_SPECS = true) as H
    by (vm_compute; reflexivity).
  rewrite forallb_forall in H. exact (H _ (proj1 (list_elem_of_In _ _) Hin)).
Qed.
Lemma decode_empty : decode [] = Ok Settings_default.
Proof. vm_compute. reflexivity. Qed.
(** A file that loads is a document that decodes; a missing one is empty. *)
Lemma load_file_document parse_doc file before doc :
  load_file parse_doc file = Ok before → read_document parse_doc file = Ok doc →
  ∃ s, decode doc = Ok s ∧ ∀ key, read_key s key = file_layer before key.
Proof.
  unfold load_file, read_document. destruct file as [text|].
  - intros (d & -> & (s & Hs & [= <-])%result_bind_Ok)%result_bind_Ok [= <-]. eauto.
  - intros [= <-] [= <-]. exists Settings_default. split; [apply decode_empty|]. intros key. apply read_key_default.
Qed.

Lemma assoc_tremove key key' t : assoc key' (tremove key t) = if bool_decide (key = key') then None else assoc key' t.
Proof.
  unfold tremove. induction t as [|[k x] t IH]; [by destruct (bool_decide _)|]. cbn [List.filter].
  destruct (decide (k = key)) as [->|Hk].
  - rewrite (bool_decide_eq_true_2 (key = key)) by done. cbn [negb]. rewrite IH.
    case_bool_decide; [done|]. by rewrite assoc_cons_ne.
  - rewrite (bool_decide_eq_false_2 (k = key)) by done. cbn [negb].
    destruct (decide (k = key')) as [->|]; [|by rewrite !assoc_cons_ne].
    rewrite !assoc_cons_eq. by rewrite bool_decide_eq_false_2.
Qed.
(** Removing below a table: an emptied table is dropped, and reads as one. *)
Lemma remove_in_child segment rest field t t' :
  remove_in (segment :: rest) field t = (true, t') →
  ∃ c c', child segment t = Ok c ∧ remove_in rest field c = (true, c') ∧ child segment t' = Ok c' ∧
    ∀ key, key ≠ segment → assoc key t' = assoc key t.
Proof.
  cbn [remove_in]. destruct (assoc segment t) as [[]|] eqn:Hs; try discriminate.
  destruct (remove_in rest field t0) as [removed c'] eqn:Hr. intros [= -> <-].
  exists t0, c'. unfold child at 1. rewrite Hs. split_and!; [done|done| |].
  - destruct c'; cbn [is_empty]; [|apply child_tset_eq].
    unfold child. rewrite assoc_tremove. by rewrite bool_decide_eq_true_2.
  - intros key Hne. destruct (is_empty c'); [rewrite assoc_tremove; by rewrite bool_decide_eq_false_2|by rewrite assoc_tset_ne].
Qed.
Lemma remove_in_same segments field t t' :
  remove_in segments field t = (true, t') → entry (segments, field) t' = Ok None.
Proof.
  unfold entry. cbn [fst snd]. revert t t'. induction segments as [|s rest IH]; intros t t' Hr.
  - injection Hr as _ <-. cbn. rewrite assoc_tremove. by rewrite bool_decide_eq_true_2.
  - apply remove_in_child in Hr as (c & c' & _ & Hr & Hc' & _). cbn [table_at]. rewrite Hc'. cbn [result_bind]. eauto.
Qed.
Lemma remove_in_apart segments field t t' q :
  remove_in segments field t = (true, t') → paths_apart (segments, field) q = true → entry q t' = entry q t.
Proof.
  destruct q as [segments' field']. unfold entry, paths_apart. cbn [fst snd].
  revert segments' t t'. induction segments as [|s rest IH]; intros segments' t t' Hr Ha.
  - injection Hr as _ <-. destruct segments' as [|s' rest']; cbn [table_at result_bind apart] in *;
      unfold child; apply negb_true_iff in Ha; by rewrite assoc_tremove, Ha.
  - apply remove_in_child in Hr as (c & c' & Hc & Hr & Hc' & Hother).
    destruct segments' as [|s' rest']; cbn [table_at result_bind apart] in *.
    + apply negb_true_iff, bool_decide_eq_false_1 in Ha. by rewrite Hother.
    + case_bool_decide as Hss; [subst s'|unfold child; by rewrite Hother].
      rewrite Hc, Hc'. cbn [result_bind]. eauto.
Qed.
Lemma remove_loads f t t' :
  remove_in f.1.1 f.1.2 t = (true, t') → f ∈ SCHEMA → loads t = true → loads t' = true.
Proof.
  destruct f as [[segments field] kind]. cbn [fst snd].
  intros Hr Hin. rewrite !loads_fields. intros [Hf Hp].
  destruct (schema_apart_in _ Hin) as (Ha & Hg & _). cbn [fst snd] in *. split.
  - intros g Hgin. unfold field_ok. destruct (Hg g Hgin) as [<-|Hag].
    + cbn [fst snd]. by rewrite (remove_in_same _ _ _ _ Hr).
    + rewrite (remove_in_apart _ _ _ _ _ Hr Hag). by apply Hf.
  - by rewrite (remove_in_apart _ _ _ _ _ Hr Ha).
Qed.

Section editing.
Context (parse_doc : str → result str table) (print_doc : table → str).

(** C30. [config set] and [config get]: when a file loads and a known key is set in
    it, the file that is written loads again, the key reads as the value given
    (as its kind shows it) and every other known key reads as before.  The port
    of the ssh backend must fit in sixteen bits: a larger number is written and the
    file no longer loads ([ssh_port_unloadable]). *)
Theorem set_then_get file before key raw text :
  load_file parse_doc file = Ok before → key ∈ known_keys →
  (key = port_key → ∀ n, parse_u64 (trim raw) = Some n → (n < 2 ^ 16)%N) →
  set_value parse_doc print_doc file key raw = Ok text →
  (∀ doc, print_doc doc = text → parse_doc text = Ok doc) →
  ∃ kind v shown s, key_kind key = Some kind ∧ coerce kind raw = Ok v ∧ shown_toml v = Some shown ∧
    load_file parse_doc (Some text) = Ok (Some s) ∧ read_key s key = Some shown ∧
    ∀ key', key' ∈ known_keys → key' ≠ key → read_key s key' = file_layer before key'.
Proof.
  intros Hload Hin Hport Hset Hround. destruct (known_key key Hin) as (kind & f & Hk & Hf & Hp & _ & Ha).
  unfold set_value in Hset. rewrite Hk, Hp in Hset. destruct f as [[segments field] fk]. cbn [fst snd] in *.
  apply result_bind_Ok in Hset as (kind' & [= <-] & Hset). cbv beta in Hset.
  apply result_bind_Ok in Hset as (v & Hv & Hset). apply result_bind_Ok in Hset as (doc & Hdoc & Hset).
  apply result_bind_Ok in Hset as (doc' & Hset & [= Htext]).
  destruct (load_file_document _ _ _ _ Hload Hdoc) as (s & Hs & Hbefore).
  destruct (coerce_typed _ _ _ _ _ Hv Ha Hport) as [Htyped [shown Hshown]].
  destruct (loads_decode doc') as [s' Hs'].
  { apply (set_loads [] (segments, field, fk) _ _ _ Hset Hf Htyped), ensure_version_loads. by eapply decode_loads. }
  exists kind, v, shown, s'. split_and!; try done.
  - unfold load_file. rewrite (Hround _ Htext). cbn [result_bind]. by rewrite Hs'.
  - rewrite (known_key_read key _ _ Hin Hs'), Hp. unfold value_at. by rewrite (set_in_same _ _ _ _ _ _ Hset).
  - intros key' Hin' Hne. rewrite <- Hbefore, (known_key_read _ _ _ Hin' Hs'), (known_key_read _ _ _ Hin' Hs).
    apply value_at_entry. rewrite (set_in_apart _ _ _ _ _ _ _ Hset), ensure_version_apart; [done| |].
    + by apply known_key_version.
    + rewrite <- Hp. by apply known_keys_apart.
Qed.

(** Setting an unknown key, or a value that is not of its kind, writes nothing. *)
Lemma set_unknown_key file key raw :
  key_kind key = None → set_value parse_doc print_doc file key raw = Err (unknown_key_error key).
Proof. intros Hk. unfold set_value. by rewrite Hk. Qed.

(** [config unset]: the key reads as unset, the others as before. *)
Lemma unset_then_get file before key text :
  load_file parse_doc file = Ok before → key ∈ known_keys →
  unset_value parse_doc print_doc file key = Ok (Some text) →
  (∀ doc, print_doc doc = text → parse_doc text = Ok doc) →
  ∃ s, load_file parse_doc (Some text) = Ok (Some s) ∧ read_key s key = None ∧
    ∀ key', key' ∈ known_keys → key' ≠ key → read_key s key' = file_layer before key'.
Proof.
  intros Hload Hin Hset Hround. destruct (known_key key Hin) as (kind & f & Hk & Hf & Hp & _).
  unfold unset_value in Hset. rewrite Hk, Hp in Hset. destruct f as [[segments field] fk]. cbn [fst snd] in *.
  apply result_bind_Ok in Hset as (_ & _ & Hset). apply result_bind_Ok in Hset as (doc & Hdoc & Hset).
  destruct (remove_in segments field doc) as [removed doc'] eqn:Hr. destruct removed; [|discriminate].
  injection Hset as Htext. destruct (load_file_document _ _ _ _ Hload Hdoc) as (s & Hs & Hbefore).
  destruct (loads_decode (ensure_version doc')) as [s' Hs'].
  { apply ensure_version_loads, (remove_loads (segments, field, fk) _ _ Hr Hf). by eapply decode_loads. }
  exists s'. split_and!.
  - unfold load_file. rewrite (Hround _ Htext). cbn [result_bind]. by rewrite Hs'.
  - rewrite (known_key_read key _ _ Hin Hs'). unfold value_at.
    rewrite ensure_version_apart by (by apply known_key_version). by rewrite Hp, (remove_in_same _ _ _ _ Hr).
  - intros key' Hin' Hne. rewrite <- Hbefore, (known_key_read _ _ _ Hin' Hs'), (known_key_read _ _ _ Hin' Hs).
    apply value_at_entry. rewrite ensure_version_apart by (by apply known_key_version).
    apply (remove_in_apart _ _ _ _ _ Hr). rewrite <- Hp. by apply known_keys_apart.
Qed.

End editing.

(** A codec of the documents with one version and one text in one table. *)
Definition demo_print (doc : table) : str :=
  match doc with
  | [(a, TInt z); (b, TTable [(c, TStr d)])] => [N.pos (countable.encode (a, z, b, c, d))]
  | _ => []
  end.
Definition demo_read (text : str) : result str table :=
  match text with
  | [N.pos p] =>
      match countable.decode (A := str * Z * str * str * str) p with
      | Some (a, z, b, c, d) => Ok [(a, TInt z); (b, TTable [(c, TStr d)])]
      | None => Err []
      end
  | _ => Err []
  end.
Lemma demo_codec doc text : text ≠ [] → demo_print doc = text → demo_read text = Ok doc.
Proof.
  intros Hne <-. destruct doc as [|[a []] [|[b []] [|]]]; try done.
  all: destruct t as [|[c []] [|]]; try done.
  all: unfold demo_print, demo_read; by rewrite countable.decode_encode.
Qed.
Lemma set_then_get_witness : ∃ text s,
  set_value demo_read demo_print None (lit "agent.model") (lit "m") = Ok text ∧
  load_file demo_read (Some text) = Ok (Some s) ∧ read_key s (lit "agent.model") = Some (lit "m").
Proof.
  destruct (set_value demo_read demo_print None (lit "agent.model") (lit "m")) as [text|e] eqn:Hset;
    [|discriminate Hset].
  assert (lit "agent.model" ∈ known_keys) as Hin.
  { apply list_elem_of_In. vm_compute. tauto. }
  destruct (set_then_get demo_read demo_print None None (lit "agent.model") (lit "m") text)
    as (kind & v & shown & s & Hk & Hc & Hshown & Hl & Hr & _); [done|exact Hin| |exact Hset| |].
  - intros H. vm_compute in H. discriminate H.
  - intros doc Hdoc. apply demo_codec; [|exact Hdoc]. intros ->. discriminate Hset.
  - exists text, s. split_and!; [done|done|]. rewrite Hr, <- Hshown.
    vm_compute in Hk. injection Hk as <-. injection Hc as <-. reflexivity.
Defined.

(** The port of the ssh backend: [config set] accepts any 32-bit number, the
    schema reads 16 bits, so the file that is written no longer loads. *)
Definition port_doc : table :=
  [(lit "config_version", TInt 1);
   (lit "agent", TTable [(lit "ssh", TTable [(lit "port", TInt 70000)])])].
Theorem ssh_port_unloadable parse_doc print_doc :
  set_value parse_doc print_doc None port_key (lit "70000") = Ok (print_doc port_doc) ∧
  (parse_doc (print_doc port_doc) = Ok port_doc →
   load_file parse_doc (Some (print_doc port_doc)) = Err type_error).
Proof.
  split; [vm_compute; reflexivity|]. intros Hp. unfold load_file. rewrite Hp. vm_compute. reflexivity.
Qed.

(** *** Global flags *)

(** The arguments that are neither a global flag nor the value of one. *)
Fixpoint plain_args (args : list str) : list str :=
  match args with
  | [] => []
  | arg :: args =>
      match assoc arg FLAGS with
      | Some _ => match args with _ :: args' => plain_args args' | [] => [] end
      | None => arg :: plain_args args
      end
  end.
(** Global flags may stand anywhere; what is left is the command, in order. *)
Lemma global_flags_anywhere : ∀ args o r, parse_global_overrides args o = Ok r → r.2 = plain_args args.
Proof.
  fix IH 1. intros [|arg args] o r; [by intros [= <-]|]. cbn [parse_global_overrides plain_args].
  destruct (assoc arg FLAGS) as [flag|].
  - destruct args as [|value args]; [discriminate|]. intros (v & _ & Hr)%result_bind_Ok. exact (IH args _ _ Hr).
  - intros (r' & Hr & [= <-])%result_bind_Ok. cbn [fst snd]. by rewrite (IH args _ _ Hr).
Qed.

(** *** The environment file and the project's file *)

(** A variable that is set keeps its value, whatever the file says. *)
Lemma env_file_line_keeps env line key v : env !! key = Some v → env_file_line env line !! key = Some v.
Proof.
  intros Hk. unfold env_file_line. destruct (is_empty _ || _); [done|].
  destruct (split_once _ _) as [[k x]|]; [|done]. destruct (is_empty (trim k)); [done|]. simpl.
  case_bool_decide as Hs; [done|]. rewrite lookup_insert_ne; [done|]. intros <-. apply Hs. eauto.
Qed.
Lemma load_env_file_keeps file env key v : env !! key = Some v → load_env_file file env !! key = Some v.
Proof.
  destruct file as [text|]; [|done]. simpl. revert env.
  induction (lines text) as [|line l IH]; intros env Hk; [done|]. simpl. by apply IH, env_file_line_keeps.
Qed.

(** The project's file is the one of the nearest directory that has one, other
    than the home. *)
Definition config_of (dir : list str) : list str := dir ++ [PROJECT_DIR; CONFIG_FILE_NAME].
Definition project_here (is_file : list str → bool) (home dir : list str) : Prop :=
  dir ++ [PROJECT_DIR] ≠ home ∧ is_file (config_of dir) = true.
Lemma discover_up_nearest is_file home current :
  match discover_up is_file home current with
  | Some c => ∃ dir rest, reverse current = dir ++ rest ∧ c = config_of dir ∧ project_here is_file home dir ∧
                ∀ pre suf, rest = pre ++ suf → pre ≠ [] → ~ project_here is_file home (dir ++ pre)
  | None => ∀ dir rest, reverse current = dir ++ rest → ~ project_here is_file home dir
  end.
Proof.
  induction current as [|n current IH]; cbn [discover_up];
    rewrite <- app_assoc; cbn [app];
    destruct (negb _ && _) eqn:Hhere.
  all: try (apply andb_prop in Hhere as [Hne%negb_true_iff%bool_decide_eq_false_1 Hf];
    eexists _, []; split_and!; [by rewrite app_nil_r|done|by split|];
    intros pre suf [-> _]%eq_sym%app_nil; done).
  all: assert (~ project_here is_file home (reverse _)) as Hnot by
    (intros [Hne Hf]; rewrite bool_decide_eq_false_2 in Hhere by exact Hne; unfold config_of in Hf;
     by rewrite Hf in Hhere).
  - intros dir rest [-> ->]%eq_sym%app_nil. exact Hnot.
  - rewrite reverse_cons in *. destruct (discover_up is_file home current) as [c|].
    + destruct IH as (dir & rest & Hs & -> & Hd & Hr). rewrite Hs in *. exists dir, (rest ++ [n]).
      split_and!; [by rewrite app_assoc|done|done|]. intros pre suf Hps Hpre.
      destruct suf as [|x suf _] using rev_ind.
      * rewrite app_nil_r in Hps. subst pre. rewrite app_assoc. exact Hnot.
      * rewrite app_assoc in Hps. apply app_inj_tail in Hps as [Hps _]. eauto.
    + intros dir rest Hs. destruct rest as [|x rest _] using rev_ind.
      * rewrite app_nil_r in Hs. subst dir. exact Hnot.
      * rewrite app_assoc in Hs. apply app_inj_tail in Hs as [Hs _]. eauto.
Qed.
Lemma discover_nearest is_file home start :
  match discover_project_config is_file home start with
  | Some c => ∃ dir rest, start = dir ++ rest ∧ c = config_of dir ∧ project_here is_file home dir ∧
                ∀ pre suf, rest = pre ++ suf → pre ≠ [] → ~ project_here is_file home (dir ++ pre)
  | None => ∀ dir rest, start = dir ++ rest → ~ project_here is_file home dir
  end.
Proof.
  pose proof (discover_up_nearest is_file home (reverse start)) as H. by rewrite reverse_involutive in H.
Qed.

(** With a named agent active, the home is the agent's: below the user's home
    directory the default agent's file is then found as the project's, although
    the user's directory is never to be a project, and being the later layer it
    overrides the file of the agent. *)
Theorem agent_config_overridden is_file user_home rest name :
  (∀ pre suf, rest = pre ++ suf → pre ≠ [] → is_file (config_of (user_home ++ pre)) = false) →
  let base := user_home ++ [PROJECT_DIR] in
  is_file (base ++ [CONFIG_FILE_NAME]) = true →
  discover_project_config is_file base (user_home ++ rest) ≠ Some (base ++ [CONFIG_FILE_NAME]) ∧
  discover_project_config is_file (agent_home base name) (user_home ++ rest) = Some (base ++ [CONFIG_FILE_NAME]).
Proof.
  intros Hnone base Hf.
  assert (config_of user_home = base ++ [CONFIG_FILE_NAME]) as Hc by (unfold config_of, base; by rewrite <- app_assoc).
  assert (project_here is_file (agent_home base name) user_home) as Hhere.
  { split; [|by rewrite Hc]. unfold agent_home. change (base ≠ base ++ [lit "agents"; name]).
    intros Heq%(f_equal length). rewrite length_app in Heq. simpl in Heq. lia. }
  split.
  - intros Hd. pose proof (discover_nearest is_file base (user_home ++ rest)) as H. rewrite Hd in H.
    destruct H as (dir & rest' & _ & Hdir & [Hne _] & _). apply Hne. unfold config_of in Hdir.
    change [PROJECT_DIR; CONFIG_FILE_NAME] with ([PROJECT_DIR] ++ [CONFIG_FILE_NAME]) in Hdir.
    rewrite app_assoc in Hdir. by apply app_inj_tail in Hdir as [? _].
  - pose proof (discover_nearest is_file (agent_home base name) (user_home ++ rest)) as H.
    destruct (discover_project_config _ _ _) as [c|]; [|by destruct (H user_home rest)].
    destruct H as (dir & rest' & Hs & -> & Hd & Hr). rewrite <- Hc. do 2 f_equal.
    apply app_eq_inv in Hs as [(k & -> & ->)|(k & -> & ->)].
    + destruct (decide (k = [])) as [->|Hk]; [by rewrite app_nil_r|]. exfalso. eapply Hr; [done|exact Hk|exact Hhere].
    + destruct (decide (k = [])) as [->|Hk]; [by rewrite app_nil_r|]. destruct Hd as [_ Hd]. by rewrite (Hnone k rest') in Hd.
Qed.
