(* ===== verification/CliSession.v ===== *)
(** * Conversations of the command line ([codel00p-cli/src/session.rs], [agent/session_state.rs], [agent/chat.rs])

    How the command line keeps a conversation in the session store: replaying it
    into a session state, persisting what a turn added, titles, listings, the
    [sessions] subcommands and the line chat.  The store is the one of Session.v
    over any storage; opening the database file is outside.  A handler that can
    panic gives [None] for the panic. *)

From stdpp Require Import base numbers strings gmap list.
From S2P Require Import Prelude RustStr Json Storage Protocol Session Harness Recall Turn.

Definition shown (n : nat) : str := show_N (N.of_nat n).
Definition tab_char : char := 9%N.

(** ** Titles and labels ([session.rs]) *)

Definition SESSION_TITLE_MAX_CHARS : nat := 64.
Definition join_words (text : str) : str := join (lit " ") (split_whitespace text).
(** The loop over the words: it stops at the first that does not fit. *)
Fixpoint fill_title (truncated : str) (words : list str) : str :=
  match words with
  | [] => truncated
  | word :: words =>
      let separator := if is_empty truncated then 0 else 1 in
      if SESSION_TITLE_MAX_CHARS <? length truncated + separator + length word + 3 then truncated
      else fill_title (truncated ++ (if is_empty truncated then [] else lit " ") ++ word) words
  end.
Definition normalized_session_title (content : str) : option str :=
  let title := join_words content in
  if is_empty title then None
  else if length title <=? SESSION_TITLE_MAX_CHARS then Some title
  else
    let truncated := fill_title [] (split_whitespace title) in
    let truncated := if is_empty truncated then take (SESSION_TITLE_MAX_CHARS - 3) title
                     else truncated in
    Some (trim_end truncated ++ lit "...").
Definition session_title_from_messages (messages : list SessionMessage) : option str :=
  head (omap (λ m, if bool_decide (msg_role m = RUser) then normalized_session_title (msg_content m)
                   else None) messages).

Definition session_role_label (r : SessionRole) : str :=
  match r with
  | RSystem => lit "system" | RUser => lit "user" | RAssistant => lit "assistant"
  | RTool => lit "tool"
  end.
Definition session_message_summary (m : SessionMessage) : str :=
  if negb (is_empty (msg_content m)) then msg_content m
  else if negb (is_empty (msg_tool_calls m))
  then shown (length (msg_tool_calls m)) ++ lit " tool call(s)"
  else [].
Definition agent_event_label (e : AgentEvent) : str :=
  match e with
  | SessionStarted _ _ => lit "session_started"
  | TurnEvent _ _ _ event =>
      match event with
      | TurnStarted => lit "turn_started"
      | ContextBuilt _ => lit "context_built"
      | ContextCompacted _ _ _ => lit "context_compacted"
      | InferenceRequested _ _ => lit "inference_requested"
      | InferenceCompleted _ _ _ => lit "inference_completed"
      | ToolCallArgsDelta _ _ _ _ => lit "tool_call_args_delta"
      | ToolCallRequested _ => lit "tool_call_requested"
      | ToolCallCompleted _ => lit "tool_call_completed"
      | ToolCallFailed _ _ => lit "tool_call_failed"
      | PermissionRequested _ _ _ => lit "permission_requested"
      | PermissionDenied _ _ _ => lit "permission_denied"
      | ToolProgress _ _ _ => lit "tool_progress"
      | LifecycleHookFailed _ _ => lit "lifecycle_hook_failed"
      | ContextManifest _ _ _ _ _ _ => lit "context_manifest"
      | VerificationCompleted _ _ _ _ _ => lit "verification_completed"
      | SelfCritiqueCompleted _ => lit "self_critique_completed"
      | FailureBudgetExceeded _ _ _ => lit "failure_budget_exceeded"
      | TurnCompleted _ _ _ _ => lit "turn_completed"
      end
  end.
(** [chat_history_listing] of [agent/chat.rs]. *)
Definition chat_history_listing (s : Harness.SessionState) : str :=
  if is_empty (Harness.messages s) then lit "No messages in this conversation yet." ++ [newline]
  else concat ((λ m, lit "  " ++ session_role_label (msg_role m) ++ lit ": " ++
                     session_message_summary m ++ [newline]) <$> Harness.messages s).

(** ** The store of the command line *)

Section cli.
Context `{JsonLib} (json_text : JsonError → str).
Context `{!Serde SessionMetadata} `{!Serde (SessionRecord SessionMessage AgentEvent)}.
Context {S : Type} `{!DocumentStore S} `{!AppendLogStore S}.
Abbreviation World := (Session.World S).
Abbreviation Records := (list (PersistedSessionRecord SessionMessage AgentEvent)).

(** [error.to_string()] *)
Definition store_error_text (e : SessionStoreError) : str :=
  match e with
  | SessionAlreadyExists id => lit "session already exists: " ++ id
  | SessionNotFound id => lit "session not found: " ++ id
  | SStorage e => lit "storage failed: " ++ storage_error_text json_text e
  | SSerialization e => lit "serialization failed: " ++ json_text e
  end.
Definition cli {A} : Type := st World str A.
Arguments cli A : clear implicits.
(** [.map_err(|error| error.to_string())] *)
Definition shown_errors {A} (m : st World SessionStoreError A) : cli A := λ w,
  let '(r, w) := m w in (map_err store_error_text r, w).
Definition store_read {A} (f : StorageBackedSessionStore S → result SessionStoreError A) : cli A :=
  shown_errors (on_store f).

Definition message_of (r : SessionRecord SessionMessage AgentEvent) : option SessionMessage :=
  match r with RMessage m => Some m | REvent _ => None end.
Definition record_messages (records : Records) : list SessionMessage :=
  omap (message_of ∘ psr_record) records.

(** *** Replaying and persisting ([agent/session_state.rs]) *)

Definition replay_session_messages (id : SessionId) : cli Harness.SessionState :=
  let! records := shown_errors (replay id) in
  st_ret (foldl (λ s m, push_message m s) (SessionState_new id) (record_messages records)).

Inductive AgentSessionMode := Fresh | Resume.
(** [fresh] is what [SessionId::default] draws. *)
Definition prepare_session_state (session_id : option str) (mode : AgentSessionMode)
    (fresh : SessionId) : cli (Harness.SessionState * nat) :=
  match mode with
  | Fresh => st_ret (SessionState_new (default fresh session_id), 0)
  | Resume =>
      match session_id with
      | None => st_err (lit "missing resume session id")
      | Some id =>
          let! state := replay_session_messages id in
          st_ret (state, length (Harness.messages state))
      end
  end.
(** [load_chat_session_state] of [agent/chat.rs]. *)
Definition load_chat_session_state (id : SessionId) : cli (Harness.SessionState * nat) := λ w,
  match metadata id (w_store w) with
  | Ok _ => (let! state := replay_session_messages id in
             st_ret (state, length (Harness.messages state))) w
  | Err (SessionNotFound _) => (Ok (SessionState_new id, 0), w)
  | Err error => (Err (store_error_text error), w)
  end.

(** The metadata of the session: created, or titled if it still has no title. *)
Definition persist_metadata (state : Harness.SessionState) (source : str) (parent : option SessionId)
    (now : N) : cli unit :=
  let id := Harness.session_id state in
  let auto_title := session_title_from_messages (Harness.messages state) in
  let m := sm_with_created_at now (SessionMetadata_new id source) in
  let m := match auto_title with Some title => sm_with_title title m | None => m end in
  let m := match parent with Some parent => sm_with_parent parent m | None => m end in
  λ w, match create_session m w with
       | (Ok _, w) => (Ok tt, w)
       | (Err (SessionAlreadyExists _), w) =>
           match auto_title with
           | Some title =>
               let has_title :=
                 match metadata id (w_store w) with
                 | Ok existing => bool_decide (is_Some (sm_title existing))
                 | Err _ => false
                 end in
               if has_title then (Ok tt, w) else shown_errors (set_session_title id title) w
           | None => (Ok tt, w)
           end
       | (Err error, w) => (Err (store_error_text error), w)
       end.
Fixpoint append_all (id : SessionId) (records : list (SessionRecord SessionMessage AgentEvent))
    : cli unit :=
  match records with
  | [] => st_ret tt
  | r :: records => do! shown_errors (append_record id r) in append_all id records
  end.
(** [&session_state.messages()[message_start_index..]] panics past the end. *)
Definition persist_session_records (state : Harness.SessionState) (events : list AgentEvent)
    (message_start_index : nat) (source : str) (parent : option SessionId) (now : N) (w : World)
    : option (result str unit) * World :=
  let id := Harness.session_id state in
  match persist_metadata state source parent now w with
  | (Err error, w) => (Some (Err error), w)
  | (Ok _, w) =>
      if length (Harness.messages state) <? message_start_index then (None, w)
      else
        let messages := drop message_start_index (Harness.messages state) in
        let '(r, w) := append_all id ((RMessage <$> messages) ++ (REvent <$> events)) w in
        (Some r, w)
  end.
Definition persist_turn_outcome (state : Harness.SessionState) (events : list AgentEvent)
    (message_start_index : nat) : N → World → option (result str unit) * World :=
  persist_session_records state events message_start_index (lit "cli") None.

(** [max_by] keeps the last of equal ones. *)
Definition latest_cmp : SessionMetadata → SessionMetadata → comparison :=
  cmp_lex (cmp_on (λ m, default 0%N (sm_created_at m)) N.compare) (cmp_on sm_session_id str_cmp).
Definition latest_session_id (sessions : list SessionMetadata) : option str :=
  sm_session_id <$>
  foldl (λ best m, match best with
                   | None => Some m
                   | Some b => match latest_cmp b m with Gt => Some b | _ => Some m end
                   end) None sessions.

(** *** Listings ([session.rs], [agent/chat.rs]) *)

(** [Option<u64>] compares [None] as the smallest. *)
Definition opt_compare (a b : option N) : comparison :=
  match a, b with
  | None, None => Eq
  | None, Some _ => Lt
  | Some _, None => Gt
  | Some a, Some b => N.compare a b
  end.
Definition listed_cmp : SessionMetadata → SessionMetadata → comparison :=
  cmp_lex (cmp_rev (cmp_on sm_created_at opt_compare)) (cmp_on sm_session_id str_cmp).
Definition recent_cmp : SessionMetadata → SessionMetadata → comparison :=
  cmp_lex (cmp_rev (cmp_on (λ m, default 0%N (sm_created_at m)) N.compare))
    (cmp_on sm_session_id str_cmp).

Fixpoint for_each {A B} (f : A → cli B) (l : list A) : cli (list B) :=
  match l with
  | [] => st_ret []
  | a :: l => let! b := f a in let! bs := for_each f l in st_ret (b :: bs)
  end.
Definition session_title (m : SessionMetadata) (records : Records) : option str :=
  match sm_title m with
  | Some title => Some title
  | None => session_title_from_messages (record_messages records)
  end.
Definition untitled (title : option str) : str := default (lit "Untitled conversation") title.
Definition tabbed (parts : list str) : str := join [tab_char] parts ++ [newline].
Definition chat_sessions_listing : cli str :=
  let! sessions := store_read list_sessions in
  if is_empty sessions then st_ret (lit "No saved conversations yet." ++ [newline])
  else
    let! rows := for_each (λ m,
      let! records := shown_errors (replay (sm_session_id m)) in
      st_ret (lit "  " ++ tabbed [sm_session_id m; untitled (session_title m records); sm_source m;
                shown (length (record_messages records)) ++ lit " message(s)"]))
      (sort_by listed_cmp sessions) in
    st_ret (concat rows).
Record ChatSessionSummary := {
  cs_session_id : str; cs_title : option str; cs_description : option str; cs_source : str;
  cs_message_count : nat;
}.
Definition chat_session_summaries : cli (list ChatSessionSummary) :=
  let! sessions := store_read list_sessions in
  for_each (λ m,
    let! records := shown_errors (replay (sm_session_id m)) in
    st_ret {| cs_session_id := sm_session_id m; cs_title := session_title m records;
              cs_description := sm_description m; cs_source := sm_source m;
              cs_message_count := length (record_messages records) |})
    (sort_by recent_cmp sessions).

(** *** The [sessions] command ([session.rs], [config.rs]) *)

Definition single_id (args : list str) (command : str) : result str str :=
  match args with
  | [id] => Ok id
  | _ => Err (command ++ lit " expects exactly one memory id")
  end.
Record ListedSession := {
  ls_metadata : SessionMetadata; ls_title : option str; ls_messages : nat; ls_events : nat;
}.
Fixpoint parse_list_flags (args : list str) (json_output : bool) : result str bool :=
  match args with
  | [] => Ok json_output
  | arg :: args =>
      if bool_decide (arg = lit "--json") then parse_list_flags args true
      else Err (lit "unknown session list option: " ++ arg)
  end.
Definition opt_json (o : option str) : Json.Value :=
  match o with Some s => VString s | None => VNull end.
Definition nat_json (n : nat) : Json.Value := VNumber (PosInt (N.of_nat n)).
Definition session_summary_json `{SerdeJson} (l : ListedSession) : Json.Value :=
  let m := ls_metadata l in
  json_object
    [(lit "session_id", VString (sm_session_id m)); (lit "title", opt_json (ls_title l));
     (lit "source", VString (sm_source m));
     (lit "parent_session_id", opt_json (sm_parent_session_id m));
     (lit "message_count", nat_json (ls_messages l)); (lit "event_count", nat_json (ls_events l));
     (lit "created_at", match sm_created_at m with
                        | Some n => VNumber (PosInt n) | None => VNull end)].
(** [serde_json::to_string] is [json_string]. *)
Definition session_list `{SerdeJson} (json_string : Json.Value → result str str) (args : list str) : cli str :=
  let! json_output := st_lift (parse_list_flags args false) in
  let! sessions := store_read list_sessions in
  let! summaries := for_each (λ m,
    let! records := shown_errors (replay (sm_session_id m)) in
    let messages := length (record_messages records) in
    st_ret {| ls_metadata := m; ls_title := session_title m records; ls_messages := messages;
              ls_events := length records - messages |}) sessions in
  let summaries := sort_by (cmp_on ls_metadata listed_cmp) summaries in
  if json_output then st_lift (json_string (VArray (session_summary_json <$> summaries)))
  else st_ret (concat ((λ l, tabbed
         [sm_session_id (ls_metadata l); untitled (ls_title l); sm_source (ls_metadata l);
          shown (ls_messages l) ++ lit " message(s)"; shown (ls_events l) ++ lit " event(s)"])
         <$> summaries)).
Definition session_show (args : list str) : cli str :=
  let! id := st_lift (single_id args (lit "session show")) in
  let! records := shown_errors (replay id) in
  st_ret (concat ((λ r,
    match psr_record r with
    | RMessage m => tabbed [show_N (psr_sequence r); lit "message"; session_role_label (msg_role m);
                            session_message_summary m]
    | REvent e => tabbed [show_N (psr_sequence r); lit "event"; agent_event_label e; []]
    end) <$> records)).
Definition quote : char := 34%N.
Definition session_rename (args : list str) : cli str :=
  match args with
  | [] => st_err (lit "session rename expects: <session_id> <new title>")
  | id :: parts =>
      let title := join_words (join (lit " ") parts) in
      if is_empty title then st_err (lit "session rename expects a non-empty title")
      else
        do! shown_errors (set_session_title id title) in
        st_ret (lit "Renamed session " ++ id ++ lit " to " ++ [quote] ++ title ++ [quote] ++
                lit "." ++ [newline])
  end.
Definition session_describe (args : list str) : cli str :=
  match args with
  | [] => st_err (lit "session describe expects: <session_id> <description>")
  | id :: parts =>
      let description := join_words (join (lit " ") parts) in
      do! shown_errors (set_session_description id description) in
      st_ret (if is_empty description
              then lit "Cleared the description for session " ++ id ++ lit "." ++ [newline]
              else lit "Set the description for session " ++ id ++ lit "." ++ [newline])
  end.
Definition session_delete (args : list str) : cli str :=
  let! id := st_lift (single_id args (lit "session delete")) in
  let! existed := shown_errors (delete_session id) in
  if existed then st_ret (lit "Deleted session " ++ id ++ lit "." ++ [newline])
  else st_err (lit "No such session: " ++ id).
Definition command_is (command : str) (names : list string) : bool :=
  bool_decide (command ∈ (lit <$> names)).
(** Without a command on a terminal the browser opens; here there is none. *)
Definition sessions_run `{SerdeJson} (json_string : Json.Value → result str str) (args : list str) : cli str :=
  match args with
  | [] => st_err (lit "missing session command")
  | command :: rest =>
      if command_is command ["list"] then session_list json_string rest
      else if command_is command ["show"] then session_show rest
      else if command_is command ["rename"] then session_rename rest
      else if command_is command ["describe"] then session_describe rest
      else if command_is command ["delete"; "rm"] then session_delete rest
      else st_err (lit "unknown session command: " ++ command)
  end.

(** ** The line chat ([agent/chat.rs]) *)

Definition split_chat_command (command : str) : str * option str :=
  let command := trim command in
  match split_at_first is_whitespace command with
  | Some (name, rest) =>
      let rest := trim (tail rest) in (name, if is_empty rest then None else Some rest)
  | None => (command, None)
  end.
Record ChatState := {
  ch_session : Harness.SessionState; ch_persisted : nat; ch_provider : str; ch_model : str;
}.
Definition chat_set_session (s : Harness.SessionState) (n : nat) (c : ChatState) : ChatState :=
  {| ch_session := s; ch_persisted := n; ch_provider := ch_provider c; ch_model := ch_model c |}.
Definition chat_set_model (model : str) (c : ChatState) : ChatState :=
  {| ch_session := ch_session c; ch_persisted := ch_persisted c; ch_provider := ch_provider c;
     ch_model := model |}.
Inductive ChatControl := Continue | Exit.
(** The texts written to the terminal are left out: what a command changes, and
    whether the chat goes on.  [fresh] is what [SessionId::default] draws. *)
Definition handle_chat_command (command : str) (fresh : SessionId) (c : ChatState)
    : ChatControl * ChatState :=
  let name := trim command in
  if command_is name ["exit"; "quit"; "q"] then (Exit, c)
  else if command_is name ["help"; "?"] then (Continue, c)
  else if command_is name ["session"] then (Continue, c)
  else if command_is name ["reset"; "clear"] then
    (Continue, chat_set_session (SessionState_new fresh) 0 c)
  else (Continue, c).

(** What a line asks of the rest of the program. *)
Record ChatEnv := {
  (** building the harness can fail, which ends the chat *)
  ce_harness : result str unit;
  ce_run_turn : Harness.SessionState → str → result HarnessError TurnOutcome;
  ce_fresh : SessionId;
  ce_now : N;
  (** the listings of tools and of memory that fail end the chat *)
  ce_tools : result str unit;
  ce_memory : result str unit;
}.
(** One round of the loop on a line: an error ends the chat with it, [None] is a
    panic. *)
Definition chat_command (env : ChatEnv) (command : str) (c : ChatState) (w : World)
    : option (result str ChatControl) * ChatState * World :=
  let '(name, argument) := split_chat_command command in
  let carry_on := (Some (Ok Continue), c, w) in
  let listing r := match r with Ok _ => carry_on | Err e => (Some (Err e), c, w) end in
  if command_is name ["sessions"] then
    match chat_sessions_listing w with
    | (Ok _, w) => (Some (Ok Continue), c, w)
    | (Err e, w) => (Some (Err e), c, w)
    end
  else if command_is name ["history"] then carry_on
  else if command_is name ["tools"] then listing (ce_tools env)
  else if command_is name ["model"] then
    match argument with
    | Some model => (Some (Ok Continue), chat_set_model model c, w)
    | None => carry_on
    end
  else if command_is name ["memory"] then listing (ce_memory env)
  else let '(control, c) := handle_chat_command name (ce_fresh env) c in (Some (Ok control), c, w).
Definition chat_turn (env : ChatEnv) (prompt : str) (c : ChatState) (w : World)
    : option (result str ChatControl) * ChatState * World :=
  match ce_harness env, ce_run_turn env (ch_session c) prompt with
  | Err e, _ => (Some (Err e), c, w)
  | Ok _, Err _ => (Some (Ok Continue), c, w)
  | Ok _, Ok outcome =>
      match persist_turn_outcome (out_session_state outcome) (out_events outcome) (ch_persisted c)
              (ce_now env) w with
      | (None, w) => (None, c, w)
      | (Some (Err e), w) => (Some (Err e), c, w)
      | (Some (Ok _), w) =>
          (Some (Ok Continue),
           chat_set_session (out_session_state outcome)
             (length (Harness.messages (out_session_state outcome))) c, w)
      end
  end.
Definition chat_line (env : ChatEnv) (line : str) (c : ChatState) (w : World)
    : option (result str ChatControl) * ChatState * World :=
  let prompt := trim line in
  if is_empty prompt then (Some (Ok Continue), c, w)
  else match strip_prefix (lit "/") prompt with
       | Some command => chat_command env command c w
       | None => chat_turn env prompt c w
       end.
Fixpoint chat_loop (input : list (ChatEnv * str)) (c : ChatState) (w : World)
    : option (result str unit) * ChatState * World :=
  match input with
  | [] => (Some (Ok tt), c, w)
  | (env, line) :: input =>
      match chat_line env line c w with
      | (None, c, w) => (None, c, w)
      | (Some (Err e), c, w) => (Some (Err e), c, w)
      | (Some (Ok Exit), c, w) => (Some (Ok tt), c, w)
      | (Some (Ok Continue), c, w) => chat_loop input c w
      end
  end.
End cli.

(** ** What is persisted is what is loaded *)

(** A title is not empty, and at most 64 characters. *)
Lemma fill_title_bound truncated words :
  length truncated + 3 ≤ SESSION_TITLE_MAX_CHARS ∨ truncated = [] →
  length (fill_title truncated words) + 3 ≤ SESSION_TITLE_MAX_CHARS.
Proof.
  revert truncated. induction words as [|word words IH]; intros t Ht; cbn [fill_title].
  { destruct Ht as [Ht| ->]; [done|]. unfold SESSION_TITLE_MAX_CHARS. simpl. lia. }
  case_match eqn:Hw.
  { destruct Ht as [Ht| ->]; [done|]. unfold SESSION_TITLE_MAX_CHARS. simpl. lia. }
  apply Nat.ltb_ge in Hw. apply IH. left. rewrite !length_app. destruct t; simpl in *; lia.
Qed.
Lemma trim_end_length s : length (trim_end s) ≤ length s.
Proof.
  unfold trim_end, trim_end_matches. rewrite length_reverse, <- (length_reverse s).
  generalize (reverse s) as l. intros l. induction l as [|c l IH]; [done|]. cbn [trim_start_matches].
  case_match; simpl in *; lia.
Qed.
Lemma title_bounded content title :
  normalized_session_title content = Some title → 0 < length title ≤ SESSION_TITLE_MAX_CHARS.
Proof.
  unfold normalized_session_title. destruct (is_empty (join_words content)) eqn:He; [discriminate|].
  destruct (Nat.leb_spec (length (join_words content)) SESSION_TITLE_MAX_CHARS) as [Hl|_].
  { intros [= <-]. destruct (join_words content); [done|]. simpl in *. lia. }
  intros [= <-]. rewrite length_app. set (t := if is_empty _ then _ else _).
  pose proof (trim_end_length t). assert (length t + 3 ≤ SESSION_TITLE_MAX_CHARS); [|simpl; lia].
  unfold t. case_match; [rewrite length_take; unfold SESSION_TITLE_MAX_CHARS; lia|].
  apply fill_title_bound. by right.
Qed.

Section props.
Context `{JsonLib} (json_text : JsonError → str).
Context `{!Serde SessionMetadata} `{!Serde (SessionRecord SessionMessage AgentEvent)}.
Context `{!SerdeLaws SessionMetadata} `{!SerdeLaws (SessionRecord SessionMessage AgentEvent)}.
Context {S : Type} `{!DocumentStore S} `{!AppendLogStore S} `{!StorageView S}.
Context `{!DocumentLaws S} `{!LogLaws S}.
Context (scope : StorageScope).
Abbreviation World := (Session.World S).
Abbreviation Sessions := (Session.SessionState SessionMessage AgentEvent).
Abbreviation repr := (session_repr (M:=SessionMessage) (E:=AgentEvent) scope).

Definition messages_in (m : Sessions) (id : SessionId) : list SessionMessage :=
  omap message_of (stream_of m id).

Lemma push_all s ms :
  foldl (λ s m, push_message m s) s ms =
  {| Harness.session_id := Harness.session_id s; Harness.messages := Harness.messages s ++ ms |}.
Proof.
  revert s. induction ms as [|x ms IH]; intros s; simpl.
  - rewrite app_nil_r. by destruct s.
  - rewrite IH. simpl. by rewrite <- app_assoc.
Qed.
Lemma record_messages_replay (n : nat → N) id (l : list (SessionRecord SessionMessage AgentEvent)) :
  record_messages (imap (λ i, persisted id (n i) i) l) = omap message_of l.
Proof.
  unfold record_messages. rewrite <- (replayed_records id n l) at 2. generalize (imap (λ i, persisted id (n i) i) l).
  intros k. induction k as [|r k IH]; [done|]. cbn. rewrite IH. done.
Qed.

(** Loading gives the messages of the session, and changes nothing but the event
    counter. *)
Definition loaded (m : Sessions) (id : SessionId) : Harness.SessionState * nat :=
  match sessions m !! id with
  | Some _ => ({| Harness.session_id := id; Harness.messages := messages_in m id |},
               length (messages_in m id))
  | None => (SessionState_new id, 0)
  end.
Lemma replay_messages_repr w m id :
  repr w m → is_Some (sessions m !! id) →
  ∃ w', replay_session_messages json_text id w =
        (Ok {| Harness.session_id := id; Harness.messages := messages_in m id |}, w').
Proof.
  intros Hr [meta Hm]. unfold replay_session_messages, st_bind, shown_errors.
  destruct (replay_repr scope w m id Hr) as [H1 _]. unfold spec_replay in H1. rewrite Hm in H1.
  destruct (replay id w) as [[records|e] w']; simpl in H1; [|discriminate].
  injection H1 as ->. exists w'. simpl. unfold st_ret. rewrite push_all, record_messages_replay. done.
Qed.
Lemma load_repr w m id : repr w m → (load_chat_session_state json_text id w).1 = Ok (loaded m id).
Proof.
  intros Hr. unfold load_chat_session_state, loaded. rewrite (metadata_repr scope w m) by done.
  destruct (sessions m !! id) as [meta|] eqn:Hm; simpl; [|done].
  destruct (replay_messages_repr w m id Hr) as [w' Hw]; [by rewrite Hm|].
  unfold st_bind. by rewrite Hw.
Qed.

Lemma append_record_repr w m id r :
  repr w m → is_Some (sessions m !! id) →
  ∃ x w' m', append_record id r w = (Ok x, w') ∧ repr w' m' ∧ sessions m' = sessions m ∧
    stream_of m' id = stream_of m id ++ [r] ∧ ∀ id', id' ≠ id → stream_of m' id' = stream_of m id'.
Proof.
  intros Hr [meta Hm]. destruct (append_step_repr scope w m id r Hr) as [H1 H2].
  unfold spec_append in H1, H2. rewrite Hm in H1, H2.
  destruct (append_record id r w) as [[x|e] w']; simpl in H1; [|discriminate].
  exists x, w'. eexists. split; [done|]. split; [exact H2|]. split; [done|]. unfold stream_of. simpl.
  split; [by rewrite lookup_insert_eq|]. intros id' Hne. by rewrite lookup_insert_ne.
Qed.
Lemma append_all_repr w m id records :
  repr w m → is_Some (sessions m !! id) →
  ∃ w' m', append_all json_text id records w = (Ok tt, w') ∧ repr w' m' ∧ sessions m' = sessions m ∧
    stream_of m' id = stream_of m id ++ records ∧ ∀ id', id' ≠ id → stream_of m' id' = stream_of m id'.
Proof.
  revert w m. induction records as [|r records IH]; intros w m Hr Hm; cbn [append_all].
  { exists w, m. rewrite app_nil_r. done. }
  destruct (append_record_repr w m id r Hr Hm) as (x & w1 & m1 & Hw & Hr1 & Hs1 & Hst1 & Ho1).
  unfold st_bind, shown_errors. rewrite Hw. simpl.
  destruct (IH w1 m1 Hr1) as (w' & m' & Hw' & Hr' & Hs' & Hst' & Ho'); [by rewrite Hs1|].
  exists w', m'. split; [done|]. split; [done|]. split; [congruence|].
  split; [by rewrite Hst', Hst1, <- app_assoc|]. intros id' Hne. by rewrite Ho', Ho1.
Qed.

(** The metadata: a new session is created, an existing one keeps its title. *)
Lemma persist_metadata_repr w m state source parent now :
  repr w m →
  ∃ w' m', persist_metadata json_text state source parent now w = (Ok tt, w') ∧ repr w' m' ∧
    streams m' = streams m ∧ is_Some (sessions m' !! Harness.session_id state) ∧
    (∀ id', id' ≠ Harness.session_id state → sessions m' !! id' = sessions m !! id') ∧
    (∀ meta title, sessions m !! Harness.session_id state = Some meta → sm_title meta = Some title →
       sessions m' !! Harness.session_id state = Some meta).
Proof.
  intros Hr. unfold persist_metadata. set (id := Harness.session_id state).
  set (auto := session_title_from_messages _). set (meta := match parent with Some _ => _ | None => _ end).
  assert (sm_session_id meta = id) as Hid by by unfold meta; destruct parent, auto.
  destruct (session_step_repr scope (OpCreateSession meta) w m Hr) as [H1 H2].
  cbn [session_step spec_session_step] in H1, H2. rewrite Hid in H1, H2.
  destruct (sessions m !! id) as [found|] eqn:Hm.
  - destruct (create_session meta w) as [[|e] w1]; simpl in H1; [discriminate|]. injection H1 as ->.
    simpl in H2. assert (is_Some (sessions m !! id)) as Hin by by rewrite Hm.
    destruct auto as [title|]; [|exists w1, m; split_and!; try done; intros; congruence].
    rewrite (metadata_repr scope w1 m) by done. rewrite Hm. simpl.
    case_bool_decide as Ht; [exists w1, m; split_and!; try done; intros; congruence|].
    destruct (session_step_repr scope (OpTitle id title) w1 m H2) as [H3 H4].
    cbn [session_step spec_session_step] in H3, H4. unfold spec_update in H3, H4. rewrite Hm in H3, H4.
    unfold shown_errors. destruct (set_session_title id title w1) as [[[]|] w2]; simpl in H3; [|discriminate].
    eexists w2, _. split; [done|]. split; [exact H4|]. split; [done|]. 
    pose proof (srepr_doc _ _ _ H2 id) as Hd. rewrite Hm in Hd. inversion Hd as [d x (_ & Hfid & _) Hdoc|]; subst.
    simpl. rewrite Hfid. split; [by rewrite lookup_insert_eq|]. split.
    + intros id' Hne. by rewrite lookup_insert_ne.
    + intros meta' t [= <-] Htt. exfalso. apply Ht. by eexists.
  - destruct (create_session meta w) as [[|e] w1]; simpl in H1; [|discriminate].
    eexists w1, _. split; [done|]. split; [exact H2|]. split; [done|]. simpl. rewrite Hid.
    split; [by rewrite lookup_insert_eq|]. split; [|done].
    intros id' Hne. by rewrite lookup_insert_ne.
Qed.

Lemma messages_in_append (m m' : Sessions) id ms events :
  stream_of m' id = stream_of m id ++ (RMessage <$> ms) ++ (REvent <$> events) →
  messages_in m' id = messages_in m id ++ ms.
Proof.
  unfold messages_in. intros ->. rewrite !omap_app. f_equal.
  replace (omap message_of (REvent <$> events)) with (@nil SessionMessage) by by induction events.
  rewrite app_nil_r. induction ms as [|x ms IH]; [done|]. cbn. by f_equal.
Qed.

(** Persisting appends the messages from the start index to the session, and
    leaves the other sessions and a title as they are. *)
Lemma persist_repr w m state events start source parent now :
  repr w m → start ≤ length (Harness.messages state) →
  let id := Harness.session_id state in
  ∃ w' m', persist_session_records json_text state events start source parent now w = (Some (Ok tt), w') ∧
    repr w' m' ∧ is_Some (sessions m' !! id) ∧
    messages_in m' id = messages_in m id ++ drop start (Harness.messages state) ∧
    (∀ id', id' ≠ id → sessions m' !! id' = sessions m !! id' ∧ stream_of m' id' = stream_of m id') ∧
    (∀ meta title, sessions m !! id = Some meta → sm_title meta = Some title →
       sessions m' !! id = Some meta).
Proof.
  intros Hr Hs id. unfold persist_session_records.
  destruct (persist_metadata_repr w m state source parent now Hr)
    as (w1 & m1 & -> & Hr1 & Hst1 & Hin1 & Ho1 & Ht1).
  rewrite (proj2 (Nat.ltb_ge _ _) Hs).
  destruct (append_all_repr w1 m1 id ((RMessage <$> drop start (Harness.messages state)) ++
    (REvent <$> events)) Hr1 Hin1) as (w2 & m2 & Hw & Hr2 & Hs2 & Hst2 & Ho2).
  fold id. rewrite Hw. exists w2, m2. split; [done|]. split; [done|].
  assert (∀ i, stream_of m1 i = stream_of m i) as Hst by (intros i; unfold stream_of; by rewrite Hst1).
  rewrite Hs2. split; [done|]. split.
  { rewrite Hst in Hst2. by eapply messages_in_append. }
  split; [|done]. intros id' Hne. split; [by apply Ho1|]. by rewrite Ho2, Hst.
Qed.

(** The stored session holds nothing but what loading it shows: it exists, or
    nothing was ever appended to it. *)
Definition clean (w : World) (id : SessionId) : Prop :=
  is_ok (metadata id (w_store w)) = true ∨ session_log w id = [].
Lemma clean_repr w m id :
  repr w m → clean w id → loaded m id =
    ({| Harness.session_id := id; Harness.messages := messages_in m id |}, length (messages_in m id)).
Proof.
  intros Hr Hc. unfold loaded. destruct (sessions m !! id) eqn:Hm; [done|].
  destruct Hc as [Hc|Hc].
  - rewrite (metadata_repr scope w m), Hm in Hc by done. discriminate.
  - pose proof (log_length scope w m id Hr) as Hl. rewrite Hc in Hl. unfold messages_in.
    by destruct (stream_of m id).
Qed.

(** C19. What a turn persists is what is loaded.  If the store holds no log of a
    deleted session under the id of the conversation, loading it gave [start]
    messages and the state after the turn extends them, persisting from [start]
    succeeds, and loading the conversation afterwards gives exactly that
    state; every other conversation loads as before, and a title a user gave stays. *)
Theorem persist_then_load w base state start events now :
  session_reachable (M:=SessionMessage) (E:=AgentEvent) scope w →
  clean w (Harness.session_id state) →
  (load_chat_session_state json_text (Harness.session_id state) w).1 = Ok (base, start) →
  Harness.messages base `prefix_of` Harness.messages state →
  ∃ w', persist_turn_outcome json_text state events start now w = (Some (Ok tt), w') ∧
    (load_chat_session_state json_text (Harness.session_id state) w').1 =
      Ok (state, length (Harness.messages state)) ∧
    (∀ id, id ≠ Harness.session_id state →
       (load_chat_session_state json_text id w').1 = (load_chat_session_state json_text id w).1) ∧
    (∀ meta title, metadata (Harness.session_id state) (w_store w) = Ok meta →
       sm_title meta = Some title → metadata (Harness.session_id state) (w_store w') = Ok meta).
Proof.
  intros [m Hr]%session_reachable_repr Hc Hload [added Hadd].
  rewrite (load_repr w m), (clean_repr w m) in Hload by done. injection Hload as <- <-.
  simpl in Hadd. destruct (persist_repr w m state events (length (messages_in m (Harness.session_id state)))
    (lit "cli") None now Hr)
    as (w' & m' & Hw & Hr' & Hin & Hms & Ho & Ht).
  { rewrite Hadd, length_app. lia. }
  exists w'. split; [exact Hw|]. rewrite Hadd, drop_app_length, <- Hadd in Hms. split_and!.
  - rewrite (load_repr w' m') by done. unfold loaded. destruct Hin as [meta ->]. rewrite Hms.
    by destruct state.
  - intros id Hne. rewrite (load_repr w' m'), (load_repr w m) by done. unfold loaded, messages_in.
    by destruct (Ho id Hne) as [-> ->].
  - intros meta title. rewrite (metadata_repr scope w m), (metadata_repr scope w' m') by done.
    destruct (sessions m !! _) as [meta'|] eqn:Hm; simpl; [|done]. intros [= <-] Htt.
    by rewrite (Ht meta' title).
Qed.

(** Two fresh runs share a conversation.  A run without a session id starts a
    state with no messages under the id [SessionId::default] draws, the same in
    every process; when an earlier run was stored under it, the new run's messages
    are appended to the old ones, and resuming the conversation replays both. *)
Theorem fresh_runs_collide w fresh state state' start start' events events' now now' :
  session_reachable (M:=SessionMessage) (E:=AgentEvent) scope w → clean w fresh →
  is_ok (metadata fresh (w_store w)) = false →
  (prepare_session_state json_text None Fresh fresh w).1 = Ok (SessionState_new fresh, start) →
  (prepare_session_state json_text None Fresh fresh w).1 = Ok (SessionState_new fresh, start') →
  Harness.session_id state = fresh → Harness.session_id state' = fresh →
  ∃ w1 w2, persist_turn_outcome json_text state events start now w = (Some (Ok tt), w1) ∧
    persist_turn_outcome json_text state' events' start' now' w1 = (Some (Ok tt), w2) ∧
    (prepare_session_state json_text (Some fresh) Resume fresh w2).1 =
      Ok ({| Harness.session_id := fresh;
             Harness.messages := Harness.messages state ++ Harness.messages state' |},
          length (Harness.messages state ++ Harness.messages state')).
Proof.
  intros [m Hr]%session_reachable_repr Hc Hnew [= <-] [= <-] Hid Hid'.
  destruct (persist_repr w m state events 0 (lit "cli") None now Hr) as (w1 & m1 & Hw1 & Hr1 & _ & Hms1 & _);
    [lia|].
  destruct (persist_repr w1 m1 state' events' 0 (lit "cli") None now' Hr1)
    as (w2 & m2 & Hw2 & Hr2 & Hin2 & Hms2 & _); [lia|].
  exists w1, w2. split; [done|]. split; [done|]. cbn [prepare_session_state].
  rewrite Hid in Hms1. rewrite Hid' in Hms2, Hin2.
  destruct (replay_messages_repr w2 m2 fresh Hr2 Hin2) as [w3 Hw3]. unfold st_bind. rewrite Hw3.
  rewrite Hms2, Hms1, !drop_0. pose proof (clean_repr w m fresh Hr Hc) as Hl. unfold loaded in Hl.
  rewrite (metadata_repr scope w m) in Hnew by done.
  destruct (sessions m !! fresh); [done|]. injection Hl as Hl. by rewrite <- Hl.
Qed.

(** A start index past the messages of the state panics. *)
Lemma persist_past_end w m state events start now :
  repr w m → length (Harness.messages state) < start →
  (persist_turn_outcome json_text state events start now w).1 = None.
Proof.
  intros Hr Hs. unfold persist_turn_outcome, persist_session_records.
  destruct (persist_metadata_repr w m state (lit "cli") None now Hr) as (w1 & m1 & -> & _).
  by rewrite (proj2 (Nat.ltb_lt _ _) Hs).
Qed.

(** ** The chat keeps the store and the conversation together *)

(** The harness gives back the conversation it was given, with more messages. *)
Definition extends_turns (env : ChatEnv) : Prop :=
  ∀ s prompt o, ce_run_turn env s prompt = Ok o →
    Harness.session_id (out_session_state o) = Harness.session_id s ∧
    Harness.messages s `prefix_of` Harness.messages (out_session_state o).
(** An id nothing is stored under. *)
Definition unused (m : Sessions) (id : SessionId) : Prop :=
  sessions m !! id = None ∧ stream_of m id = [].
Definition in_step (m : Sessions) (c : ChatState) : Prop :=
  ch_persisted c = length (Harness.messages (ch_session c)) ∧
  messages_in m (Harness.session_id (ch_session c)) = Harness.messages (ch_session c) ∧
  (sessions m !! Harness.session_id (ch_session c) = None → Harness.messages (ch_session c) = []).
(** The ids [/reset] may draw are unused, distinct, and not the current one. *)
Definition fresh_ids (m : Sessions) (c : ChatState) (ids : list SessionId) : Prop :=
  NoDup (Harness.session_id (ch_session c) :: ids) ∧ Forall (unused m) ids.

Lemma in_step_loaded m c :
  in_step m c → loaded m (Harness.session_id (ch_session c)) = (ch_session c, ch_persisted c).
Proof.
  intros (Hn & Hm & He). unfold loaded. destruct (sessions m !! _).
  - rewrite Hm, Hn. by destruct (ch_session c).
  - specialize (He eq_refl). rewrite Hn. destruct (ch_session c) as [i l]. simpl in *. by rewrite He.
Qed.
Lemma chat_turn_step env prompt c w m ids :
  repr w m → in_step m c → fresh_ids m c ids → extends_turns env →
  ∃ r c' w' m', chat_turn json_text env prompt c w = (Some r, c', w') ∧ repr w' m' ∧ in_step m' c' ∧
    fresh_ids m' c' ids.
Proof.
  intros Hr (Hn & Hm & He) [Hnd Hun] Hx. unfold chat_turn.
  destruct (ce_harness env); [|by exists (Err e), c, w, m].
  destruct (ce_run_turn env (ch_session c) prompt) as [o|] eqn:Ho; [|by exists (Ok Continue), c, w, m].
  destruct (Hx _ _ _ Ho) as [Hid [added Hadd]].
  destruct (persist_repr w m (out_session_state o) (out_events o) (ch_persisted c) (lit "cli") None
    (ce_now env) Hr) as (w' & m' & Hw & Hr' & Hin & Hms & Hoth & _).
  { rewrite Hn, Hadd, length_app. lia. }
  unfold persist_turn_outcome. rewrite Hw.
  eexists (Ok Continue), _, w', m'. split; [done|]. split; [done|].
  rewrite Hid, Hm, Hadd, Hn, drop_app_length in Hms.
  split; [split_and!; simpl; [done|by rewrite Hid, Hadd|by destruct Hin as [? ->]]|].
  split; simpl; [by rewrite Hid|]. apply NoDup_cons in Hnd as [Hnd _].
  apply Forall_forall. intros i Hi. rewrite Forall_forall in Hun. destruct (Hun i Hi) as [H1 H2].
  destruct (Hoth i) as [H3 H4]; [by intros ->; rewrite Hid in Hi|]. split; congruence.
Qed.
Lemma fresh_ids_weaken m c i ids : fresh_ids m c (i :: ids) → fresh_ids m c ids.
Proof.
  intros [Hn Hf]. apply Forall_cons in Hf as [_ Hf]. split; [|done].
  apply NoDup_cons in Hn as [H1 H2]. apply NoDup_cons in H2 as [_ H2]. apply NoDup_cons. set_solver.
Qed.

(** Reads of the store move only the event counter. *)
Definition keeps {A} (f : World → result str A * World) : Prop :=
  ∀ w m, repr w m → ∃ r w' m', f w = (r, w') ∧ repr w' m' ∧ sessions m' = sessions m ∧
    streams m' = streams m.
Lemma keeps_ret {A} (r : result str A) : keeps (st_lift r).
Proof. intros w m Hr. by exists r, w, m. Qed.
Lemma keeps_bind {A B} (f : st World str A) (g : A → st World str B) :
  keeps f → (∀ a, keeps (g a)) → keeps (st_bind f g).
Proof.
  intros Hf Hg w m Hr. unfold st_bind. destruct (Hf w m Hr) as ([a|e] & w1 & m1 & -> & Hr1 & Hs1 & Ht1).
  - destruct (Hg a w1 m1 Hr1) as (r & w2 & m2 & -> & Hr2 & Hs2 & Ht2).
    exists r, w2, m2. split_and!; congruence.
  - by exists (Err e), w1, m1.
Qed.
Lemma keeps_read {A} (f : StorageBackedSessionStore S → result SessionStoreError A) :
  keeps (store_read json_text f).
Proof. intros w m Hr. by exists (map_err (store_error_text json_text) (f (w_store w))), w, m. Qed.
Lemma keeps_replay id :
  keeps (shown_errors json_text (replay (M:=SessionMessage) (E:=AgentEvent) id)).
Proof.
  intros w m Hr. destruct (replay_repr scope w m id Hr) as [_ H2]. unfold shown_errors.
  destruct (replay id w) as [r w']. simpl in H2. eexists _, w', _. split; [done|]. split; [exact H2|].
  unfold spec_replay. by destruct (sessions m !! id).
Qed.
Lemma keeps_for_each {A B} (f : A → st World str B) l : (∀ a, keeps (f a)) → keeps (for_each f l).
Proof.
  intros Hf. induction l as [|a l IH]; cbn [for_each]; [apply keeps_ret|].
  apply keeps_bind; [done|]. intros b. apply keeps_bind; [done|]. intros bs. apply keeps_ret.
Qed.
Lemma keeps_listing : keeps (chat_sessions_listing json_text).
Proof.
  apply keeps_bind; [apply keeps_read|]. intros sessions. case_match; [apply keeps_ret|].
  apply keeps_bind; [|intros; apply keeps_ret]. apply keeps_for_each. intros meta.
  apply keeps_bind; [apply keeps_replay|intros; apply keeps_ret].
Qed.
Lemma in_step_keeps m m' c ids :
  sessions m' = sessions m → streams m' = streams m → in_step m c → fresh_ids m c ids →
  in_step m' c ∧ fresh_ids m' c ids.
Proof.
  unfold in_step, fresh_ids, unused, messages_in, stream_of. intros -> ->. done.
Qed.

Lemma reset_step m c i ids :
  fresh_ids m c (i :: ids) →
  in_step m (chat_set_session (SessionState_new i) 0 c) ∧
  fresh_ids m (chat_set_session (SessionState_new i) 0 c) ids.
Proof.
  intros [Hn Hf]. apply Forall_cons in Hf as [[H1 H2] Hf]. apply NoDup_cons in Hn as [_ Hn].
  split; [|by split]. unfold in_step, messages_in. simpl. by rewrite H2.
Qed.
Lemma handle_chat_command_cases name i c :
  (handle_chat_command name i c).2 = c ∨
  (handle_chat_command name i c).2 = chat_set_session (SessionState_new i) 0 c.
Proof. unfold handle_chat_command. repeat (case_match; [by auto|]). by auto. Qed.
Lemma chat_command_step env command c w m ids :
  repr w m → in_step m c → fresh_ids m c (ce_fresh env :: ids) →
  ∃ r c' w' m', chat_command json_text env command c w = (Some r, c', w') ∧ repr w' m' ∧ in_step m' c' ∧
    fresh_ids m' c' ids.
Proof.
  intros Hr Hs Hf. pose proof (fresh_ids_weaken _ _ _ _ Hf) as Hf'. unfold chat_command.
  destruct (split_chat_command command) as [name argument]. case_match.
  { destruct (keeps_listing w m Hr) as (r & w' & m' & -> & Hr' & H1 & H2).
    destruct (in_step_keeps m m' c ids H1 H2 Hs Hf') as [H3 H4].
    destruct r; by eexists _, c, w', m'. }
  case_match; [by eexists _, c, w, m|]. case_match; [by destruct (ce_tools env); eexists _, c, w, m|].
  case_match; [by destruct argument; eexists _, _, w, m|].
  case_match; [by destruct (ce_memory env); eexists _, c, w, m|].
  pose proof (handle_chat_command_cases name (ce_fresh env) c) as Hh.
  destruct (handle_chat_command name (ce_fresh env) c) as [control c'].
  eexists _, c', w, m. split; [done|]. split; [done|].
  destruct Hh as [Hh|Hh]; simpl in Hh; rewrite Hh; [done|]. by apply reset_step.
Qed.
Lemma chat_line_step env line c w m ids :
  repr w m → in_step m c → fresh_ids m c (ce_fresh env :: ids) → extends_turns env →
  ∃ r c' w' m', chat_line json_text env line c w = (Some r, c', w') ∧ repr w' m' ∧ in_step m' c' ∧
    fresh_ids m' c' ids.
Proof.
  intros Hr Hs Hf Hx. pose proof (fresh_ids_weaken _ _ _ _ Hf) as Hf'. unfold chat_line.
  case_match; [by eexists _, c, w, m|].
  case_match; [by apply (chat_command_step _ _ c w m)|by apply (chat_turn_step _ _ c w m)].
Qed.
Lemma chat_loop_step input c w m :
  repr w m → in_step m c → fresh_ids m c (ce_fresh <$> input.*1) → Forall extends_turns input.*1 →
  ∃ r c' w' m', chat_loop json_text input c w = (Some r, c', w') ∧ repr w' m' ∧ in_step m' c'.
Proof.
  revert c w m. induction input as [|[env line] input IH]; intros c w m Hr Hs Hf Hx; cbn [chat_loop].
  { by exists (Ok tt), c, w, m. }
  apply Forall_cons in Hx as [Hx1 Hx2].
  destruct (chat_line_step env line c w m _ Hr Hs Hf Hx1) as (r & c' & w' & m' & -> & Hr' & Hs' & Hf').
  destruct r as [[]|e]; [by apply (IH c' w' m')|by eexists _, c', w', m'|by eexists _, c', w', m'].
Qed.

(** C18. The chat and the store stay together.  Starting from a loaded conversation
    without the log of an earlier session of its id, when every id that [/reset]
    draws is new to the store and drawn once (the counter of the real program starts
    again at every start, so this is a condition) and every turn extends the
    conversation it was given: whatever lines are typed, the chat never panics, and
    when it ends, by leaving or by an error, loading the current conversation gives
    the one the chat holds, message for message. *)
Theorem chat_matches_store input id w provider model :
  session_reachable (M:=SessionMessage) (E:=AgentEvent) scope w → clean w id →
  (∀ i, i ∈ (ce_fresh <$> input.*1) →
     is_ok (metadata i (w_store w)) = false ∧ session_log w i = []) →
  NoDup (id :: (ce_fresh <$> input.*1)) → Forall extends_turns input.*1 →
  ∃ s n, (load_chat_session_state json_text id w).1 = Ok (s, n) ∧
  ∃ r c w', chat_loop json_text input
      {| ch_session := s; ch_persisted := n; ch_provider := provider; ch_model := model |} w =
      (Some r, c, w') ∧
    (load_chat_session_state json_text (Harness.session_id (ch_session c)) w').1 =
      Ok (ch_session c, ch_persisted c).
Proof.
  intros [m Hr]%session_reachable_repr Hc Hfresh Hnd Hx.
  pose proof (clean_repr w m id Hr Hc) as Hl. rewrite (load_repr w m) by done. rewrite Hl.
  eexists _, _. split; [done|].
  set (c0 := {| ch_session := _; ch_persisted := _; ch_provider := provider; ch_model := model |}).
  destruct (chat_loop_step input c0 w m Hr) as (r & c & w' & m' & Hw & Hr' & Hs').
  4: { exists r, c, w'. split; [exact Hw|]. rewrite (load_repr w' m') by done.
       by rewrite (in_step_loaded m' c Hs'). }
  - split_and!; simpl; [done|done|]. intros Hn. unfold loaded in Hl. rewrite Hn in Hl.
    by injection Hl as <-.
  - split; simpl; [done|]. apply Forall_forall. intros i Hi. destruct (Hfresh i Hi) as [H1 H2].
    rewrite (metadata_repr scope w m) in H1 by done. split; [by destruct (sessions m !! i)|].
    pose proof (log_length scope w m i Hr) as Hlen. rewrite H2 in Hlen. by destruct (stream_of m i).
  - done.
Qed.
End props.

(** ** A concrete run *)

Definition demo_json : JsonLib :=
  {| Storage.Value := SessionMetadata + SessionRecord SessionMessage AgentEvent; JsonError := () |}.
#[local] Existing Instance demo_json.
#[local] Instance demo_serde_meta : Serde SessionMetadata := {|
  to_value := λ m : SessionMetadata, Ok (inl m : Storage.Value);
  from_value := λ v : Storage.Value, match v with inl m => Ok m | inr _ => Err () end;
|}.
#[local] Instance demo_serde_records : Serde (SessionRecord SessionMessage AgentEvent) := {|
  to_value := λ r : SessionRecord SessionMessage AgentEvent, Ok (inr r : Storage.Value);
  from_value := λ v : Storage.Value, match v with inr r => Ok r | inl _ => Err () end;
|}.
#[local] Instance demo_serde_meta_laws : SerdeLaws SessionMetadata.
Proof. intros m. by exists (inl m). Qed.
#[local] Instance demo_serde_records_laws : SerdeLaws (SessionRecord SessionMessage AgentEvent).
Proof. intros r. by exists (inr r). Qed.
Definition demo_text : JsonError → str := λ _, lit "invalid".
Definition empty_world : Session.World InMemoryStorage :=
  {| w_event_counter := 1;
     w_store := {| ss_scope := scope_global; ss_storage := InMemoryStorage_default |} |}.
Lemma empty_world_reachable :
  session_reachable (M:=SessionMessage) (E:=AgentEvent) scope_global empty_world.
Proof. exists empty_world, []. by repeat split. Qed.
Lemma empty_world_clean id : clean empty_world id.
Proof. by right. Qed.
Definition talk (id : str) (texts : list str) : Harness.SessionState :=
  {| Harness.session_id := id; Harness.messages := msg_user <$> texts |}.

Lemma persist_then_load_witness :
  ∃ w', persist_turn_outcome demo_text (talk (lit "s1") [lit "hi"; lit "ok"]) [] 0 5 empty_world =
        (Some (Ok tt), w') ∧
    (load_chat_session_state demo_text (lit "s1") w').1 =
      Ok (talk (lit "s1") [lit "hi"; lit "ok"], 2).
Proof.
  destruct (persist_then_load demo_text scope_global empty_world (SessionState_new (lit "s1"))
    (talk (lit "s1") [lit "hi"; lit "ok"]) 0 [] 5 empty_world_reachable (empty_world_clean _))
    as (w' & H1 & H2 & _).
  - vm_compute. reflexivity.
  - exists (msg_user <$> [lit "hi"; lit "ok"]). reflexivity.
  - exists w'. split; [exact H1|exact H2].
Defined.
Lemma fresh_runs_collide_witness :
  ∃ w1 w2, persist_turn_outcome demo_text (talk (lit "session-1") [lit "a"]) [] 0 5 empty_world =
      (Some (Ok tt), w1) ∧
    persist_turn_outcome demo_text (talk (lit "session-1") [lit "b"]) [] 0 6 w1 = (Some (Ok tt), w2) ∧
    (prepare_session_state demo_text (Some (lit "session-1")) Resume (lit "session-1") w2).1 =
      Ok (talk (lit "session-1") [lit "a"; lit "b"], 2).
Proof.
  apply (fresh_runs_collide demo_text scope_global empty_world (lit "session-1")
    (talk (lit "session-1") [lit "a"]) (talk (lit "session-1") [lit "b"]) 0 0 [] [] 5 6
    empty_world_reachable (empty_world_clean _)); vm_compute; reflexivity.
Defined.

(** A harness that answers "ok". *)
Definition echo_env (fresh : str) : ChatEnv :=
  {| ce_harness := Ok tt;
     ce_run_turn s prompt := Ok {| out_assistant_message := Some (lit "ok"); out_tool_calls := [];
       out_events := []; out_cancelled := false;
       out_session_state := {| Harness.session_id := Harness.session_id s;
         Harness.messages := Harness.messages s ++ [msg_user prompt; msg_assistant (lit "ok")] |} |};
     ce_fresh := fresh; ce_now := 9; ce_tools := Ok tt; ce_memory := Ok tt |}.
Lemma echo_extends fresh : extends_turns (echo_env fresh).
Proof. intros s prompt o [= <-]. simpl. split; [done|]. by eexists. Qed.
Definition demo_chat : list (ChatEnv * str) :=
  [(echo_env (lit "f1"), lit "hi"); (echo_env (lit "f2"), lit "/reset"); (echo_env (lit "f3"), lit "again");
   (echo_env (lit "f4"), lit "/sessions")].
Lemma chat_matches_store_witness :
  ∃ s n, (load_chat_session_state demo_text (lit "s1") empty_world).1 = Ok (s, n) ∧
  ∃ r c w', chat_loop demo_text demo_chat
      {| ch_session := s; ch_persisted := n; ch_provider := lit "openai"; ch_model := lit "o3" |}
      empty_world = (Some r, c, w') ∧
    (load_chat_session_state demo_text (Harness.session_id (ch_session c)) w').1 =
      Ok (ch_session c, ch_persisted c).
Proof.
  apply (chat_matches_store demo_text scope_global demo_chat (lit "s1") empty_world);
    [apply empty_world_reachable|apply empty_world_clean| | |].
  - intros i _. split; vm_compute; reflexivity.
  - apply (bool_decide_unpack _). vm_compute. exact I.
  - do 4 (apply Forall_cons_2; [apply echo_extends|]). apply Forall_nil_2.
Defined.
