(* ===== verification/CliAgent.v ===== *)
(** * The agent on the command line ([codel00p-cli/src/agent]: options.rs, permissions.rs, command.rs, turn.rs, tooling.rs, mcp/spec.rs; [connector_permissions.rs]; [codel00p-gateway/src/lib.rs])

    Flags and settings become the options of a turn; the options decide its
    tools, its permission policy and its behavior.  A turn of the chat gateway
    asks the remote user for every privileged tool.  The turn itself is the one
    of Turn.v: here it is any sequence of permission requests. *)

From stdpp Require Import base numbers strings gmap list.
From S2P Require Import Prelude RustStr CliSettings Json Harness Verify SelfCorrect ProviderRequest Cron Approvals.

(** ** Options ([options.rs]) *)

Inductive AgentToolSet :=
  SetRead | SetEdit | SetCommand | SetGit | SetWeb | SetDelegate | SetLearn | SetPipeline | SetCode | SetAll.
#[export] Instance AgentToolSet_eq_dec : EqDecision AgentToolSet.
Proof. solve_decision. Defined.
Definition tool_set_as_str (set : AgentToolSet) : str :=
  match set with
  | SetRead => lit "read" | SetEdit => lit "edit" | SetCommand => lit "command" | SetGit => lit "git"
  | SetWeb => lit "web" | SetDelegate => lit "delegate" | SetLearn => lit "learn"
  | SetPipeline => lit "pipeline" | SetCode => lit "code" | SetAll => lit "all"
  end.
Inductive CliPermissionMode := CliAllow | CliAsk | CliDeny.
Definition permission_mode_as_str (mode : CliPermissionMode) : str :=
  match mode with CliAllow => lit "allow" | CliAsk => lit "ask" | CliDeny => lit "deny" end.

(** Maps with their entries in the order of the file; the scopes of the tools are
    a [HashMap]. *)
Record McpServerSpec := {
  mcp_server_id : str; mcp_command : option str; mcp_args : list str; mcp_env : list (str * str);
  mcp_url : option str; mcp_headers : list (str * str); mcp_bearer_token_env : option str;
  mcp_timeout_ms : option N; mcp_permission_scope : option PermissionScope;
  mcp_tool_scopes : gmap str PermissionScope;
}.
(** The approval store of a gateway turn is the directory the handlers thread. *)
Record GatewayApproval := { ga_conversation : str; ga_granted_tool : option str }.
Record AgentRunOptions := {
  ro_prompt : str; ro_workspace : str; ro_provider : str; ro_model : str;
  ro_provider_policy_preset : option str; ro_base_url : option str; ro_session_id : option str;
  ro_max_iterations : option N; ro_json_events : bool; ro_stream_events : bool; ro_stream : bool;
  ro_tool_sets : list AgentToolSet; ro_tool_choice : option ToolChoice;
  ro_response_format : option ResponseFormat; ro_permission_mode : CliPermissionMode;
  ro_remember_permissions : bool; ro_mcp_servers : list McpServerSpec;
  ro_fallback_routes : list InferenceFallbackRoute; ro_gateway_approval : option GatewayApproval;
  ro_unattended : bool; ro_profile : option str;
}.

(** A match on the trimmed, lower-case word. *)
Definition folded_word (value : str) : str := to_ascii_lowercase (trim value).
Definition word_of {A} (table : list (str * A)) (value : str) : option A := assoc (folded_word value) table.
Definition TOOL_SET_WORDS : list (str * AgentToolSet) :=
  [(lit "read", SetRead); (lit "read-only", SetRead); (lit "readonly", SetRead); (lit "edit", SetEdit);
   (lit "editing", SetEdit); (lit "write", SetEdit); (lit "command", SetCommand);
   (lit "commands", SetCommand); (lit "shell", SetCommand); (lit "git", SetGit); (lit "web", SetWeb);
   (lit "delegate", SetDelegate); (lit "delegation", SetDelegate); (lit "learn", SetLearn);
   (lit "learning", SetLearn); (lit "pipeline", SetPipeline); (lit "programmatic", SetPipeline);
   (lit "code", SetCode); (lit "execute", SetCode); (lit "code-execution", SetCode); (lit "all", SetAll)].
Definition parse_agent_tool_set (value : str) : result str AgentToolSet :=
  ok_or (lit "unknown tool set: " ++ value ++
         lit " (accepted: read, edit, command, git, web, delegate, learn, pipeline, code, all)")
    (word_of TOOL_SET_WORDS value).
Definition PERMISSION_WORDS : list (str * CliPermissionMode) :=
  [(lit "allow", CliAllow); (lit "allowed", CliAllow); (lit "ask", CliAsk); (lit "prompt", CliAsk);
   (lit "interactive", CliAsk); (lit "deny", CliDeny); (lit "denied", CliDeny)].
Definition parse_permission_mode (value : str) : result str CliPermissionMode :=
  ok_or (lit "unknown permission mode: " ++ value) (word_of PERMISSION_WORDS value).
Definition parse_tool_choice (value : str) : result str ToolChoice :=
  let trimmed := trim value in
  let word := to_ascii_lowercase trimmed in
  if is_empty word then Err (lit "empty --tool-choice")
  else if bool_decide (word = lit "auto") then Ok ChoiceAuto
  else if bool_decide (word ∈ [lit "required"; lit "any"]) then Ok ChoiceRequired
  else if bool_decide (word = lit "none") then Ok ChoiceNone
  else Ok (ChoiceTool trimmed).
Definition parse_response_format (value : str) : result str ResponseFormat :=
  let word := folded_word value in
  if is_empty word then Err (lit "empty --response-format")
  else if bool_decide (word = lit "text") then Ok FormatText
  else if bool_decide (word ∈ [lit "json"; lit "json_object"; lit "json-object"]) then Ok FormatJsonObject
  else Err (lit "unknown response format: " ++ value).

Definition at_sign : char := 64%N.
Definition colon : char := 58%N.
Definition parse_fallback_route (value : str) : result str InferenceFallbackRoute :=
  let '(route, base_url) := match split_once at_sign value with
                            | Some (route, base_url) => (route, Some (trim base_url))
                            | None => (value, None)
                            end in
  let? parts := ok_or (lit "invalid --fallback `" ++ value ++
                       lit "`: expected `<provider>:<model>[@<base_url>]`") (split_once colon route) in
  let provider := trim parts.1 in
  let model := trim parts.2 in
  if is_empty provider || is_empty model
  then Err (lit "invalid --fallback `" ++ value ++ lit "`: provider and model must be non-empty")
  else let route := InferenceFallbackRoute_new provider model in
       Ok match base_url with
          | Some base_url => if is_empty base_url then route else fallback_base_url base_url route
          | None => route
          end.
Definition resolve_configured_fallback_routes (fallbacks : option (list str))
    : result str (list InferenceFallbackRoute) :=
  match fallbacks with
  | Some values => collect_result (parse_fallback_route <$> values)
  | None => Ok []
  end.

(** *** MCP servers ([mcp/spec.rs]) *)

Definition single_quote : char := 39%N.
Definition double_quote : char := 34%N.
Definition backslash_char : char := 92%N.
(** The characters, with the open quote and the token so far. *)
Fixpoint split_command_loop (chars : str) (quote : option char) (current : str) (tokens : list str)
    : result str (list str) :=
  match chars with
  | [] =>
      match quote with
      | Some q => Err (lit "invalid --mcp-server, unterminated " ++ [q] ++ lit " quote")
      | None => Ok (if is_empty current then tokens else tokens ++ [current])
      end
  | ch :: chars =>
      let escape :=
        if (ch =? backslash_char)%N then
          match chars with
          | next :: rest => split_command_loop rest quote (current ++ [next]) tokens
          | [] => split_command_loop chars quote (current ++ [backslash_char]) tokens
          end
        else split_command_loop chars quote (current ++ [ch]) tokens in
      match quote with
      | None =>
          if (ch =? single_quote)%N || (ch =? double_quote)%N
          then split_command_loop chars (Some ch) current tokens
          else if is_whitespace ch then
            if is_empty current then split_command_loop chars None current tokens
            else split_command_loop chars None [] (tokens ++ [current])
          else escape
      | Some q => if (ch =? q)%N then split_command_loop chars None current tokens else escape
      end
  end.
Definition split_command_spec (value : str) : result str (list str) := split_command_loop value None [] [].
Definition equals_sign : char := 61%N.
Definition env_name_char (c : char) : bool := (c =? 95)%N || is_ascii_alphanumeric c.
Definition parse_env_assignment_token (token : str) : option (str * str) :=
  '(key, value) ← split_once equals_sign token;
  if is_empty key || existsb (λ c, negb (env_name_char c)) key ||
     match key with c :: _ => is_ascii_digit c | [] => false end
  then None else Some (key, value).
(** The assignments before the command. *)
Fixpoint take_assignments (tokens : list str) : list (str * str) * list str :=
  match tokens with
  | [] => ([], [])
  | token :: rest =>
      match parse_env_assignment_token token with
      | Some e => let '(env, tokens) := take_assignments rest in (e :: env, tokens)
      | None => ([], tokens)
      end
  end.
Definition parse_mcp_server (value : str) : result str McpServerSpec :=
  let? parts := ok_or (lit "invalid --mcp-server, expected <id>=<command>") (split_once equals_sign value) in
  let server_id := trim parts.1 in
  let command_spec := trim parts.2 in
  if is_empty server_id then Err (lit "invalid --mcp-server, server id is empty")
  else if is_empty command_spec then Err (lit "invalid --mcp-server, command is empty")
  else
    let? tokens := split_command_spec command_spec in
    match take_assignments tokens with
    | (_, []) => Err (lit "invalid --mcp-server, command is empty")
    | (env, command :: args) =>
        Ok {| mcp_server_id := server_id; mcp_command := Some command; mcp_args := args; mcp_env := env;
              mcp_url := None; mcp_headers := []; mcp_bearer_token_env := None; mcp_timeout_ms := None;
              mcp_permission_scope := None; mcp_tool_scopes := ∅ |}
    end.

Definition MCP_SCOPES : list (str * PermissionScope) :=
  [(lit "read_only", ReadOnly); (lit "readonly", ReadOnly); (lit "read-only", ReadOnly);
   (lit "workspace_write", WorkspaceWrite); (lit "workspace-write", WorkspaceWrite);
   (lit "write", WorkspaceWrite); (lit "shell", Shell); (lit "command", Shell);
   (lit "external_connector", ExternalConnector); (lit "external-connector", ExternalConnector);
   (lit "external", ExternalConnector)].
Definition parse_permission_scope (value : str) : result str PermissionScope :=
  ok_or (lit "has unknown permission scope: " ++ value) (word_of MCP_SCOPES value).

Definition string_entry (fail : str → str) (entry : str * Value) : result str (str * str) :=
  let? s := ok_or (fail entry.1) (as_str entry.2) in Ok (entry.1, s).
(** [map(..).transpose()?.unwrap_or_default()] of an optional object or array. *)
Definition optional_list {A B} (f : A → result str B) (l : option (list A)) : result str (list B) :=
  match l with Some l => collect_result (f <$> l) | None => Ok [] end.
Definition mcp_server (join_workspace : str → str) (server_id : str) (server : Value)
    : result str McpServerSpec :=
  let name := lit "mcp server `" ++ server_id ++ lit "`" in
  let command := join_workspace <$> (get (lit "command") server ≫= as_str) in
  let url := get (lit "url") server ≫= as_str in
  match command, url with
  | Some _, Some _ => Err (name ++ lit " must not define both command and url")
  | None, None => Err (name ++ lit " is missing command or url")
  | _, _ =>
      let? args := optional_list (λ arg, ok_or (name ++ lit " has a non-string arg") (as_str arg))
                     (get (lit "args") server ≫= as_array) in
      let? env := optional_list (string_entry (λ key, name ++ lit " env `" ++ key ++ lit "` must be a string"))
                    (get (lit "env") server ≫= as_object) in
      let? headers := optional_list
                        (string_entry (λ key, name ++ lit " header `" ++ key ++ lit "` must be a string"))
                        (get (lit "headers") server ≫= as_object) in
      let? scope := match get (lit "permissionScope") server ≫= as_str with
                    | None => Ok None
                    | Some value => match parse_permission_scope value with
                                    | Ok scope => Ok (Some scope)
                                    | Err error => Err (name ++ lit " " ++ error)
                                    end
                    end in
      let? scopes := optional_list
          (λ entry : str * Value,
             let? scope := ok_or (name ++ lit " tool scope `" ++ entry.1 ++ lit "` must be a string")
                             (as_str entry.2) in
             let? scope := parse_permission_scope scope in Ok (entry.1, scope))
          (get (lit "toolScopes") server ≫= as_object) in
      Ok {| mcp_server_id := server_id; mcp_command := command; mcp_args := args; mcp_env := env;
            mcp_url := url; mcp_headers := headers;
            mcp_bearer_token_env := get (lit "bearerTokenEnv") server ≫= as_str;
            mcp_timeout_ms := get (lit "timeoutMs") server ≫= as_u64;
            mcp_permission_scope := scope; mcp_tool_scopes := list_to_map scopes |}
  end.
(** The parsed file, if there is one; a relative command is joined to the
    workspace. *)
Definition load_mcp_servers_from_workspace (join_workspace : str → str) (file : option Value)
    : result str (list McpServerSpec) :=
  optional_list (λ entry : str * Value, mcp_server join_workspace entry.1 entry.2)
    (config ← file; servers ← get (lit "servers") config; as_object servers).

(** *** Flags *)

Record AgentFlags := {
  fl_profile : option str; fl_workspace : str; fl_provider : option str; fl_model : option str;
  fl_provider_policy_preset : option str; fl_base_url : option str; fl_session_id : option str;
  fl_max_iterations : option N; fl_json_events : bool; fl_stream_events : bool; fl_stream : option bool;
  fl_tool_sets : list AgentToolSet; fl_tool_choice : option ToolChoice;
  fl_response_format : option ResponseFormat; fl_permission_mode : option CliPermissionMode;
  fl_remember_permissions : option bool; fl_mcp_servers : list McpServerSpec;
  fl_fallback_routes : list InferenceFallbackRoute;
}.
Definition AgentFlags_new (workspace : str) : AgentFlags :=
  {| fl_profile := None; fl_workspace := workspace; fl_provider := None; fl_model := None;
     fl_provider_policy_preset := None; fl_base_url := None; fl_session_id := None;
     fl_max_iterations := None; fl_json_events := false; fl_stream_events := false; fl_stream := None;
     fl_tool_sets := []; fl_tool_choice := None; fl_response_format := None; fl_permission_mode := None;
     fl_remember_permissions := None; fl_mcp_servers := []; fl_fallback_routes := [] |}.
Definition eta_flags (f : AgentFlags) : AgentFlags :=
  Build_AgentFlags (fl_profile f) (fl_workspace f) (fl_provider f) (fl_model f)
    (fl_provider_policy_preset f) (fl_base_url f) (fl_session_id f) (fl_max_iterations f)
    (fl_json_events f) (fl_stream_events f) (fl_stream f) (fl_tool_sets f) (fl_tool_choice f)
    (fl_response_format f) (fl_permission_mode f) (fl_remember_permissions f) (fl_mcp_servers f)
    (fl_fallback_routes f).
Definition set_profile : option str → AgentFlags → AgentFlags := ltac:(setter eta_flags fl_profile).
Definition set_workspace : str → AgentFlags → AgentFlags := ltac:(setter eta_flags fl_workspace).
Definition set_provider : option str → AgentFlags → AgentFlags := ltac:(setter eta_flags fl_provider).
Definition set_model : option str → AgentFlags → AgentFlags := ltac:(setter eta_flags fl_model).
Definition set_preset : option str → AgentFlags → AgentFlags := ltac:(setter eta_flags fl_provider_policy_preset).
Definition set_base_url : option str → AgentFlags → AgentFlags := ltac:(setter eta_flags fl_base_url).
Definition set_session_id : option str → AgentFlags → AgentFlags := ltac:(setter eta_flags fl_session_id).
Definition set_max_iterations : option N → AgentFlags → AgentFlags := ltac:(setter eta_flags fl_max_iterations).
Definition set_json_events : bool → AgentFlags → AgentFlags := ltac:(setter eta_flags fl_json_events).
Definition set_stream_events : bool → AgentFlags → AgentFlags := ltac:(setter eta_flags fl_stream_events).
Definition set_stream : option bool → AgentFlags → AgentFlags := ltac:(setter eta_flags fl_stream).
Definition set_tool_sets : list AgentToolSet → AgentFlags → AgentFlags := ltac:(setter eta_flags fl_tool_sets).
Definition set_tool_choice : option ToolChoice → AgentFlags → AgentFlags := ltac:(setter eta_flags fl_tool_choice).
Definition set_response_format : option ResponseFormat → AgentFlags → AgentFlags :=
  ltac:(setter eta_flags fl_response_format).
Definition set_permission_mode : option CliPermissionMode → AgentFlags → AgentFlags :=
  ltac:(setter eta_flags fl_permission_mode).
Definition set_remember : option bool → AgentFlags → AgentFlags := ltac:(setter eta_flags fl_remember_permissions).
Definition set_mcp_servers : list McpServerSpec → AgentFlags → AgentFlags := ltac:(setter eta_flags fl_mcp_servers).
Definition set_fallback_routes : list InferenceFallbackRoute → AgentFlags → AgentFlags :=
  ltac:(setter eta_flags fl_fallback_routes).

(** The sets of a comma-separated list; blank parts are skipped. *)
Definition parse_tool_set_list (value : str) : result str (list AgentToolSet) :=
  collect_result (parse_agent_tool_set <$>
    List.filter (λ part, negb (is_empty part)) (trim <$> split_by (λ c, (c =? 44)%N) value)).
Definition parse_u32 (value : str) : option N :=
  n ← parse_u64 value; if (n <? 2 ^ 32)%N then Some n else None.
(** The flags with a value. *)
Definition VALUE_FLAGS : list (str * (str → AgentFlags → result str AgentFlags)) :=
  [(lit "--profile", λ v f, Ok (set_profile (Some v) f));
   (lit "--workspace", λ v f, Ok (set_workspace v f));
   (lit "--provider", λ v f, Ok (set_provider (Some v) f));
   (lit "--model", λ v f, Ok (set_model (Some v) f));
   (lit "--provider-policy-preset", λ v f, Ok (set_preset (Some v) f));
   (lit "--base-url", λ v f, Ok (set_base_url (Some v) f));
   (lit "--session-id", λ v f, Ok (set_session_id (Some v) f));
   (lit "--max-iterations", λ v f,
      let? n := ok_or (lit "invalid --max-iterations") (parse_u32 v) in Ok (set_max_iterations (Some n) f));
   (lit "--tool-set", λ v f,
      let? sets := parse_tool_set_list v in Ok (set_tool_sets (fl_tool_sets f ++ sets) f));
   (lit "--tool-choice", λ v f, let? c := parse_tool_choice v in Ok (set_tool_choice (Some c) f));
   (lit "--response-format", λ v f, let? r := parse_response_format v in Ok (set_response_format (Some r) f));
   (lit "--permission-mode", λ v f, let? m := parse_permission_mode v in Ok (set_permission_mode (Some m) f));
   (lit "--mcp-server", λ v f, let? m := parse_mcp_server v in Ok (set_mcp_servers (fl_mcp_servers f ++ [m]) f));
   (lit "--fallback", λ v f,
      let? r := parse_fallback_route v in Ok (set_fallback_routes (fl_fallback_routes f ++ [r]) f))].
Definition SWITCHES : list (str * (AgentFlags → AgentFlags)) :=
  [(lit "--json-events", set_json_events true); (lit "--stream-events", set_stream_events true);
   (lit "--stream", set_stream (Some true)); (lit "--remember-permissions", set_remember (Some true))].
Fixpoint parse_flags (context : str) (args : list str) (f : AgentFlags) : result str AgentFlags :=
  match args with
  | [] => Ok f
  | arg :: args =>
      match assoc arg VALUE_FLAGS with
      | Some update =>
          match args with
          | value :: rest =>
              let? value := required_value args arg in
              let? f := update value f in parse_flags context rest f
          | [] => Err (lit "missing value for " ++ arg)
          end
      | None =>
          match assoc arg SWITCHES with
          | Some switch => parse_flags context args (switch f)
          | None => Err (lit "unknown agent " ++ context ++ lit " option: " ++ arg)
          end
      end
  end.

(** A flag over a parsed setting. *)
Definition or_parsed {A} (parse : str → result str A) (flag : option A) (setting : option str)
    : result str (option A) :=
  match flag, setting with
  | Some a, _ => Ok (Some a)
  | None, Some value => let? a := parse value in Ok (Some a)
  | None, None => Ok None
  end.
(** The settings with the selected profile folded in. *)
Definition folded_defaults (defaults : AgentSettings) (profile : option str) : result str AgentSettings :=
  match profile with
  | Some name => let? p := resolve_profile name defaults in Ok (apply_profile p defaults)
  | None => Ok defaults
  end.
Definition resolve_options (defaults : AgentSettings) (f : AgentFlags) : result str AgentRunOptions :=
  let active_profile := fill (fl_profile f) (agt_profile defaults) in
  let? d := folded_defaults defaults active_profile in
  let? provider := ok_or (lit "no provider configured " ++ [8212%N] ++
      lit " run `codel00p providers use <id>` or pass --provider") (fill (fl_provider f) (agt_provider d)) in
  let? model := ok_or (lit "no model configured " ++ [8212%N] ++
      lit " run `codel00p providers use <id> --model <model>` or pass --model") (fill (fl_model f) (agt_model d)) in
  let? mode := or_parsed parse_permission_mode (fl_permission_mode f) (agt_permission_mode d) in
  let? tool_sets := if is_empty (fl_tool_sets f) then
                      match agt_tool_sets d with
                      | Some values => collect_result (parse_agent_tool_set <$> values)
                      | None => Ok [SetAll; SetDelegate; SetLearn]
                      end
                    else Ok (fl_tool_sets f) in
  let? tool_choice := or_parsed parse_tool_choice (fl_tool_choice f) (agt_tool_choice d) in
  let? response_format := or_parsed parse_response_format (fl_response_format f) (agt_response_format d) in
  let? fallback_routes := if is_empty (fl_fallback_routes f)
                          then resolve_configured_fallback_routes (agt_fallbacks d)
                          else Ok (fl_fallback_routes f) in
  Ok {| ro_prompt := []; ro_workspace := fl_workspace f; ro_provider := provider; ro_model := model;
        ro_provider_policy_preset := fill (fl_provider_policy_preset f) (agt_provider_policy_preset d);
        ro_base_url := fill (fl_base_url f) (agt_base_url d); ro_session_id := fl_session_id f;
        ro_max_iterations := fill (fl_max_iterations f) (agt_max_iterations d);
        ro_json_events := fl_json_events f; ro_stream_events := fl_stream_events f;
        ro_stream := default false (fill (fl_stream f) (agt_stream d)); ro_tool_sets := tool_sets;
        ro_tool_choice := tool_choice; ro_response_format := response_format;
        ro_permission_mode := default CliAllow mode;
        ro_remember_permissions := default false (fill (fl_remember_permissions f) (agt_remember_permissions d));
        ro_mcp_servers := fl_mcp_servers f; ro_fallback_routes := fallback_routes;
        ro_gateway_approval := None; ro_unattended := false; ro_profile := active_profile |}.
(** The current directory is the first thing read. *)
Definition parse_agent_flag_options (current_dir : result str str) (defaults : AgentSettings)
    (args : list str) (context : str) : result str AgentRunOptions :=
  let? workspace := current_dir in
  let? f := parse_flags context args (AgentFlags_new workspace) in
  resolve_options defaults f.
Definition with_prompt (prompt : str) (session_id : option str) (o : AgentRunOptions) : AgentRunOptions :=
  {| ro_prompt := prompt; ro_workspace := ro_workspace o; ro_provider := ro_provider o;
     ro_model := ro_model o; ro_provider_policy_preset := ro_provider_policy_preset o;
     ro_base_url := ro_base_url o; ro_session_id := session_id; ro_max_iterations := ro_max_iterations o;
     ro_json_events := ro_json_events o; ro_stream_events := ro_stream_events o; ro_stream := ro_stream o;
     ro_tool_sets := ro_tool_sets o; ro_tool_choice := ro_tool_choice o;
     ro_response_format := ro_response_format o; ro_permission_mode := ro_permission_mode o;
     ro_remember_permissions := ro_remember_permissions o; ro_mcp_servers := ro_mcp_servers o;
     ro_fallback_routes := ro_fallback_routes o; ro_gateway_approval := ro_gateway_approval o;
     ro_unattended := ro_unattended o; ro_profile := ro_profile o |}.
Definition parse_agent_run_options (current_dir : result str str) (defaults : AgentSettings)
    (args : list str) : result str AgentRunOptions :=
  match args with
  | [] => Err (lit "missing agent prompt")
  | prompt :: rest =>
      let? o := parse_agent_flag_options current_dir defaults rest (lit "run") in
      Ok (with_prompt prompt (ro_session_id o) o)
  end.
Definition parse_agent_chat_options (current_dir : result str str) (defaults : AgentSettings)
    (args : list str) : result str AgentRunOptions :=
  parse_agent_flag_options current_dir defaults args (lit "chat").
Definition parse_agent_resume_options (current_dir : result str str) (defaults : AgentSettings)
    (args : list str) : result str AgentRunOptions :=
  match args with
  | session_id :: ((_ :: _) as rest) =>
      let? o := parse_agent_run_options current_dir defaults rest in
      Ok (with_prompt (ro_prompt o) (Some session_id) o)
  | _ => Err (lit "usage: agent resume <session-id> <prompt>")
  end.

(** ** Assembling a turn ([turn.rs], [tooling.rs]) *)

Inductive Backend :=
  BackendLocal | BackendDocker (settings : DockerSettings) | BackendSsh (host workspace : str) (settings : SshSettings).
Definition is_isolated (b : Backend) : bool := match b with BackendLocal => false | _ => true end.
Definition non_blank (o : option str) : option str :=
  s ← o; if is_empty (trim s) then None else Some s.
(** Resolving the path of the workspace, for docker, is of the file system. *)
Definition backend_from_setting (value : option str) (docker : DockerSettings) (ssh : SshSettings)
    : result str Backend :=
  match value with
  | None => Ok BackendLocal
  | Some v =>
      if bool_decide (v = lit "local") then Ok BackendLocal
      else if bool_decide (v = lit "docker") then Ok (BackendDocker docker)
      else if bool_decide (v = lit "ssh") then
        let? host := ok_or (lit "ssh backend: `agent.ssh.host` is required (a hostname/IP or ~/.ssh/config alias). Set it or use agent.execution_backend = " ++ [double_quote] ++ lit "local" ++ [double_quote] ++ lit ".")
                       (non_blank (sh_host ssh)) in
        let? workspace := ok_or (lit "ssh backend: `agent.ssh.workspace` is required (the absolute path on the remote host where the workspace lives). Set it or use agent.execution_backend = " ++ [double_quote] ++ lit "local" ++ [double_quote] ++ lit ".")
                            (non_blank (sh_workspace ssh)) in
        Ok (BackendSsh host workspace ssh)
      else Err (lit "unknown agent.execution_backend `" ++ v ++
                lit "`: supported values are `local`, `docker`, and `ssh`")
  end.
Definition isolation_error : str :=
  lit "agent.require_isolation_for_unattended is set: this unattended/gateway turn can execute shell commands but the execution backend does not isolate them. Set agent.execution_backend = " ++
  [double_quote] ++ lit "docker" ++ [double_quote] ++ lit " (or disable the policy) to run it.".
Definition shell_capable (sets : list AgentToolSet) : bool :=
  existsb (λ set, bool_decide (set = SetCommand) || bool_decide (set = SetAll)) sets.
Definition enforce_unattended_isolation (unattended require_isolation : bool) (sets : list AgentToolSet)
    (backend_isolated : bool) : result str unit :=
  if negb unattended || negb require_isolation || backend_isolated then Ok tt
  else if shell_capable sets then Err isolation_error else Ok tt.

(** What the tools of a turn come from, a server or the plugins standing for all
    their tools; whether the tools of many servers are deferred is left out. *)
Inductive ToolSource :=
  SrcReadOnly | SrcPlanning | SrcEditing | SrcCommand | SrcGit | SrcWeb | SrcMcp (server : str) | SrcPlugins
| SrcDelegation | SrcLearning | SrcCheckpoints | SrcNote.
Definition sources_of_set (set : AgentToolSet) : list ToolSource :=
  match set with
  | SetEdit => [SrcEditing] | SetCommand => [SrcCommand] | SetGit => [SrcGit] | SetWeb => [SrcWeb]
  | SetAll => [SrcEditing; SrcCommand; SrcGit; SrcWeb]
  | SetRead | SetDelegate | SetLearn | SetPipeline | SetCode => []
  end.
Definition build_tool_registry (sets : list AgentToolSet) (servers : list McpServerSpec) : list ToolSource :=
  [SrcReadOnly; SrcPlanning] ++ (sets ≫= sources_of_set) ++ (SrcMcp <$> (mcp_server_id <$> servers)).
Definition has_set (sets : list AgentToolSet) (set : AgentToolSet) : bool := bool_decide (set ∈ sets).
Definition turn_tools (o : AgentRunOptions) (workspace_servers : list McpServerSpec) (b : BehaviorSettings)
    : list ToolSource :=
  build_tool_registry (ro_tool_sets o) (workspace_servers ++ ro_mcp_servers o) ++ [SrcPlugins] ++
  (if has_set (ro_tool_sets o) SetDelegate then [SrcDelegation] else []) ++
  (if has_set (ro_tool_sets o) SetLearn then [SrcLearning] else []) ++
  (if has_set (ro_tool_sets o) SetGit || has_set (ro_tool_sets o) SetAll then [SrcCheckpoints] else []) ++
  (if curated_memory_enabled b then [SrcNote] else []).
Inductive TurnPolicy := PolicyGateway (approval : GatewayApproval) | PolicyCli (mode : CliPermissionMode) (remember : bool).
Definition turn_policy (o : AgentRunOptions) : TurnPolicy :=
  match ro_gateway_approval o with
  | Some approval => PolicyGateway approval
  | None => PolicyCli (ro_permission_mode o) (ro_remember_permissions o)
  end.
Definition test_command_value (b : BehaviorSettings) : option str := bh_test_command b.
Definition turn_verify_config (b : BehaviorSettings) : VerifyConfig :=
  {| self_verify := self_verify_enabled b; auto_test := auto_test_enabled b;
     lint_and_fix := lint_and_fix_enabled b; self_critique := self_critique_enabled b;
     verify_iterations := verify_iterations_value b; test_command := test_command_value b |}.
Definition turn_self_correct_config (b : BehaviorSettings) : SelfCorrectConfig :=
  {| error_hints := error_hints_enabled b; replan_on_failure := replan_on_failure_enabled b;
     failure_budget := failure_budget_value b |}.
(** The parts of the harness [build_agent_harness_with] chooses from the options
    and the settings, [None] for settings that fail to load. *)
Record TurnPlan := {
  tp_backend : Backend; tp_tools : list ToolSource; tp_policy : TurnPolicy;
  tp_base_prompt : option bool; tp_verify : VerifyConfig; tp_self_correct : SelfCorrectConfig;
  tp_programmatic : bool; tp_code_execution : bool; tp_workspace_context : bool; tp_proactive_memory : bool;
}.
Definition build_agent_harness_with (settings : option Settings) (workspace_servers : list McpServerSpec)
    (o : AgentRunOptions) : result str TurnPlan :=
  let agent := default AgentSettings_default (st_agent <$> settings) in
  let? backend := backend_from_setting (agt_execution_backend agent) (agt_docker agent) (agt_ssh agent) in
  let require_isolation := default false (agt_require_isolation_for_unattended agent) in
  let? _ := enforce_unattended_isolation (ro_unattended o) require_isolation (ro_tool_sets o) (is_isolated backend) in
  let behavior := agt_behavior agent in
  Ok {| tp_backend := backend; tp_tools := turn_tools o workspace_servers behavior; tp_policy := turn_policy o;
        tp_base_prompt := if base_prompt_enabled behavior then Some (auto_plan_enabled behavior) else None;
        tp_verify := turn_verify_config behavior; tp_self_correct := turn_self_correct_config behavior;
        tp_programmatic := has_set (ro_tool_sets o) SetPipeline || has_set (ro_tool_sets o) SetAll;
        tp_code_execution := has_set (ro_tool_sets o) SetCode || has_set (ro_tool_sets o) SetAll;
        tp_workspace_context := workspace_context_enabled behavior;
        tp_proactive_memory := proactive_memory_enabled behavior |}.

(** ** Remembered permissions ([connector_permissions.rs]) *)

Inductive ConnectorPermissionStatus := ConnectorAllow | ConnectorDeny.
Record ConnectorPermissionDecision := {
  cp_tool_name : str; cp_scope : PermissionScope; cp_status : ConnectorPermissionStatus;
}.
#[export] Instance PermissionScope_eq_dec' : EqDecision PermissionScope.
Proof. solve_decision. Defined.
Definition KEY_PREFIX : str := lit "connector_permission:".
Definition is_rememberable_permission (tool_name : str) (scope : PermissionScope) : bool :=
  starts_with (lit "mcp.") tool_name || bool_decide (scope = ExternalConnector).
Definition connector_scope_label (scope : PermissionScope) : str :=
  match scope with
  | ReadOnly => lit "read_only" | WorkspaceWrite => lit "workspace_write" | Shell => lit "shell"
  | ScopeNetwork => lit "network" | ExternalConnector => lit "external_connector"
  | MemoryWrite => lit "memory_write"
  end.
Definition permission_key (tool_name : str) (scope : PermissionScope) : str :=
  KEY_PREFIX ++ connector_scope_label scope ++ lit ":" ++ tool_name.
Definition SCOPE_LABELS : list (str * PermissionScope) :=
  [(lit "read_only", ReadOnly); (lit "readonly", ReadOnly); (lit "read-only", ReadOnly);
   (lit "workspace_write", WorkspaceWrite); (lit "workspace-write", WorkspaceWrite);
   (lit "write", WorkspaceWrite); (lit "shell", Shell); (lit "command", Shell);
   (lit "network", ScopeNetwork); (lit "external_connector", ExternalConnector);
   (lit "external-connector", ExternalConnector); (lit "connector", ExternalConnector);
   (lit "mcp", ExternalConnector); (lit "memory_write", MemoryWrite); (lit "memory-write", MemoryWrite)].
Definition parse_scope_label (value : str) : result str PermissionScope :=
  ok_or (lit "unknown permission scope: " ++ value) (assoc value SCOPE_LABELS).
Definition connector_status_label (status : ConnectorPermissionStatus) : str :=
  match status with ConnectorAllow => lit "allow" | ConnectorDeny => lit "deny" end.

(** The values of the project's scope, by key. *)
Abbreviation connector_store := (gmap str Value).
Definition decision_payload (d : ConnectorPermissionDecision) : Value :=
  VObject [(lit "tool_name", VString (cp_tool_name d));
           (lit "scope", VString (connector_scope_label (cp_scope d)));
           (lit "status", VString (connector_status_label (cp_status d)))].
Definition decode_decision (payload : Value) : option ConnectorPermissionDecision :=
  tool_name ← (get (lit "tool_name") payload ≫= as_str);
  label ← (get (lit "scope") payload ≫= as_str);
  scope ← match parse_scope_label label with Ok scope => Some scope | Err _ => None end;
  status ← (get (lit "status") payload ≫= as_str);
  status ← assoc status [(lit "allow", ConnectorAllow); (lit "deny", ConnectorDeny)];
  Some {| cp_tool_name := tool_name; cp_scope := scope; cp_status := status |}.
Definition remember_decision (d : ConnectorPermissionDecision) (s : connector_store) : connector_store :=
  <[permission_key (cp_tool_name d) (cp_scope d) := decision_payload d]> s.
Definition load_decision (tool_name : str) (scope : PermissionScope) (s : connector_store)
    : option ConnectorPermissionDecision :=
  s !! permission_key tool_name scope ≫= decode_decision.
Definition forget_decision (tool_name : str) (scope : PermissionScope) (s : connector_store)
    : bool * connector_store :=
  (bool_decide (is_Some (s !! permission_key tool_name scope)), delete (permission_key tool_name scope) s).

(** ** Permission policies ([permissions.rs]) *)

(** *** The local policy *)

Record CliPermissionPolicy := { cpp_mode : CliPermissionMode; cpp_remember : bool }.
Definition should_remember (p : CliPermissionPolicy) (r : PermissionRequest) : bool :=
  cpp_remember p && is_rememberable_permission (request_tool_name r) (request_scope r).
Definition remembered_decision (p : CliPermissionPolicy) (r : PermissionRequest) (s : connector_store)
    : option PermissionDecision :=
  if negb (should_remember p r) then None
  else match cp_status <$> load_decision (request_tool_name r) (request_scope r) s with
       | Some ConnectorAllow => Some (decision_allow (request_id r) ModeAsk)
       | Some ConnectorDeny =>
           Some (decision_deny (request_id r) ModeAsk
                   (request_tool_name r ++ lit " denied by remembered connector policy"))
       | None => None
       end.
Definition fast_path (p : CliPermissionPolicy) (r : PermissionRequest) (s : connector_store)
    : option PermissionDecision :=
  match cpp_mode p with
  | CliAllow => Some (decision_allow (request_id r) ModeAllow)
  | CliAsk => remembered_decision p r s
  | CliDeny => Some (decision_deny (request_id r) ModeDeny
                       (request_tool_name r ++ lit " denied by CLI permission mode"))
  end.
Definition persist_decision_if_needed (p : CliPermissionPolicy) (r : PermissionRequest)
    (d : PermissionDecision) (s : connector_store) : connector_store :=
  if negb (should_remember p r) then s
  else remember_decision {| cp_tool_name := request_tool_name r; cp_scope := request_scope r;
                            cp_status := if allows_execution d then ConnectorAllow else ConnectorDeny |} s.
(** The line read from standard input; [None] at its end. *)
Definition prompt_for_permission (answer : option str) : bool :=
  match answer with
  | None => false
  | Some line => bool_decide (folded_word line ∈ [lit "y"; lit "yes"])
  end.
Definition decide_with_prompt (r : PermissionRequest) (answer : option str) : PermissionDecision :=
  if prompt_for_permission answer then decision_allow (request_id r) ModeAsk
  else decision_deny (request_id r) ModeAsk (request_tool_name r ++ lit " rejected by CLI approval prompt").
(** The decision, the store and whether the operator was asked; the store and the
    standard streams do not fail. *)
Definition cli_decide (p : CliPermissionPolicy) (r : PermissionRequest) (answer : option str)
    (s : connector_store) : PermissionDecision * connector_store * bool :=
  match fast_path p r s with
  | Some d => (d, s, false)
  | None => let d := decide_with_prompt r answer in (d, persist_decision_if_needed p r d s, true)
  end.

(** *** The policy of the chat gateway *)

Section gateway.
Context `{SerdeJson, ApprovalJson}.
Context (json_failure_text : JsonFailure → str).

Definition approval_error_text (e : ApprovalError) : str :=
  match e with Serialize e => lit "approval serialize error: " ++ json_failure_text e end.

Definition DETAIL_MAX : nat := 200.
Definition describe_permission_request (r : PermissionRequest) : str :=
  match get (lit "command") (request_input r) ≫= as_str with
  | Some command => trim command
  | None =>
      let rendered := match request_input r with VNull => [] | other => to_string other end in
      if bool_decide (DETAIL_MAX < length rendered) then take DETAIL_MAX rendered ++ [8230%N] else rendered
  end.
(** The grant of the turn and the directory of pending requests. *)
Abbreviation gateway_state := (option str * gmap str str)%type.
Definition gateway_decide (conversation : str) (r : PermissionRequest) (s : gateway_state)
    : result HarnessError PermissionDecision * gateway_state :=
  let '(granted, d) := s in
  if bool_decide (request_scope r = ReadOnly) then (Ok (decision_allow (request_id r) ModeAllow), s)
  else if bool_decide (granted = Some (request_tool_name r)) then
    (Ok (decision_allow (request_id r) ModeAsk), (None, d))
  else
    match record conversation (request_tool_name r) (describe_permission_request r) d with
    | (Err e, d) =>
        (Err (ToolFailed (request_tool_name r)
                (lit "failed to record approval request: " ++ approval_error_text e)), (granted, d))
    | (Ok _, d) =>
        (Ok (decision_deny (request_id r) ModeAsk
               (lit "awaiting remote /approve for " ++ request_tool_name r)), (granted, d))
    end.
(** The requests of a turn, in order; one that fails ends it. *)
Fixpoint decide_all (conversation : str) (rs : list PermissionRequest) (s : gateway_state)
    : list (PermissionRequest * PermissionDecision) * gateway_state :=
  match rs with
  | [] => ([], s)
  | r :: rs =>
      match gateway_decide conversation r s with
      | (Ok d, s) => let '(ds, s) := decide_all conversation rs s in ((r, d) :: ds, s)
      | (Err _, s) => ([], s)
      end
  end.

(** ** Gateway messages ([codel00p-gateway/src/lib.rs], [command.rs]) *)

Inductive GatewayCommand := GwHelp | GwStop | GwApprove | GwDeny | GwMessage (text : str).
Definition parse_command (text : str) : GatewayCommand :=
  let trimmed := trim text in
  match strip_prefix (lit "/") trimmed with
  | None => GwMessage trimmed
  | Some rest =>
      let word := to_ascii_lowercase (default [] (head (split_whitespace rest))) in
      if bool_decide (word = lit "help") then GwHelp
      else if bool_decide (word ∈ [lit "stop"; lit "cancel"]) then GwStop
      else if bool_decide (word ∈ [lit "approve"; lit "yes"; lit "allow"]) then GwApprove
      else if bool_decide (word ∈ [lit "deny"; lit "no"; lit "reject"]) then GwDeny
      else GwMessage trimmed
  end.
Definition help_text : str :=
  lit "I'm your codel00p agent. Send a message and I'll work on it in this conversation (I remember the thread). Controls: /help, /stop, /approve, /deny.".
Definition session_prefix : str := lit "gateway-".
Fixpoint session_id_loop (chars : str) (prev_dash : bool) : str :=
  match chars with
  | [] => []
  | ch :: chars =>
      if is_ascii_alphanumeric ch || (ch =? 95)%N then ascii_lower ch :: session_id_loop chars false
      else if prev_dash then session_id_loop chars true else 45%N :: session_id_loop chars true
  end.
Definition conversation_session_id (conversation : str) : str :=
  let trimmed := trim_end_matches (λ c, (c =? 45)%N) (session_prefix ++ session_id_loop (trim conversation) true) in
  if bool_decide (byte_len session_prefix < byte_len trimmed) then trimmed else lit "gateway-default".

(** What the turn of an agent does here: the requests it makes and its reply.  The
    session id of a conversation is never empty, so that it always parses; whether
    the session exists decides only how its messages are loaded. *)
Record turn_run := { tr_requests : list PermissionRequest; tr_reply : result str str }.
Definition approval_prompt (p : PendingApproval) : str :=
  [128274%N] ++ lit " Approval needed to use `" ++ pa_tool p ++ lit "`." ++ [newline] ++ pa_detail p ++
  [newline] ++ lit "Reply /approve to allow or /deny to reject." ++ [newline].
Definition gateway_options (defaults : AgentSettings) (current_dir : result str str) (conversation prompt : str)
    (granted : option str) : result str AgentRunOptions :=
  let? provider := ok_or (lit "no provider configured; set agent.provider") (agt_provider defaults) in
  let? model := ok_or (lit "no model configured; set agent.model") (agt_model defaults) in
  let? workspace := current_dir in
  let? routes := resolve_configured_fallback_routes (agt_fallbacks defaults) in
  Ok {| ro_prompt := prompt; ro_workspace := workspace; ro_provider := provider; ro_model := model;
        ro_provider_policy_preset := agt_provider_policy_preset defaults; ro_base_url := agt_base_url defaults;
        ro_session_id := Some (conversation_session_id conversation);
        ro_max_iterations := agt_max_iterations defaults; ro_json_events := false; ro_stream_events := false;
        ro_stream := false; ro_tool_sets := [SetRead; SetEdit; SetCommand]; ro_tool_choice := None;
        ro_response_format := None; ro_permission_mode := CliAllow; ro_remember_permissions := false;
        ro_mcp_servers := []; ro_fallback_routes := routes;
        ro_gateway_approval := Some {| ga_conversation := conversation; ga_granted_tool := granted |};
        ro_unattended := true; ro_profile := None |}.
Definition scheduled_options (defaults : AgentSettings) (current_dir : result str str) (job : CronJob)
    : result str AgentRunOptions :=
  let? provider := ok_or (lit "no provider configured; set agent.provider or the job's provider")
                     (fill (job_provider job) (agt_provider defaults)) in
  let? model := ok_or (lit "no model configured; set agent.model or the job's model")
                  (fill (job_model job) (agt_model defaults)) in
  let? workspace := match job_workspace job with Some path => Ok path | None => current_dir end in
  let? routes := resolve_configured_fallback_routes (agt_fallbacks defaults) in
  Ok {| ro_prompt := job_prompt job; ro_workspace := workspace; ro_provider := provider; ro_model := model;
        ro_provider_policy_preset := agt_provider_policy_preset defaults; ro_base_url := agt_base_url defaults;
        ro_session_id := None; ro_max_iterations := agt_max_iterations defaults; ro_json_events := false;
        ro_stream_events := false; ro_stream := false; ro_tool_sets := [SetRead]; ro_tool_choice := None;
        ro_response_format := None; ro_permission_mode := CliAllow; ro_remember_permissions := false;
        ro_mcp_servers := []; ro_fallback_routes := routes; ro_gateway_approval := None;
        ro_unattended := true; ro_profile := None |}.

Section messages.
Context (defaults : AgentSettings) (current_dir : result str str).
(** The decisions of the turn, beside the reply and the directory. *)
Abbreviation outcome := (result str str * list (PermissionRequest * PermissionDecision) * gmap str str)%type.
Definition gateway_turn (run : AgentRunOptions → turn_run) (conversation prompt : str) (granted : option str)
    (d : gmap str str) : outcome :=
  match gateway_options defaults current_dir conversation prompt granted with
  | Err e => (Err e, [], d)
  | Ok options =>
      let turn := run options in
      let '(decisions, (_, d)) := decide_all conversation (tr_requests turn) (granted, d) in
      match tr_reply turn with
      | Err e => (Err e, decisions, d)
      | Ok reply => (Ok match pending conversation d with
                        | Some p => approval_prompt p
                        | None => reply
                        end, decisions, d)
      end
  end.
Definition approved_prompt : str :=
  lit "The remote user approved your pending request. Carry it out and report the result.".
Definition gateway_resolve (removed : bool) (run : AgentRunOptions → turn_run) (conversation : str) (approve : bool)
    (d : gmap str str) : outcome :=
  let pending := pending conversation d in
  match resolve removed conversation approve d with
  | (Nothing, d) => (Ok (lit "No permission request is pending." ++ [newline]), [], d)
  | (Denied, d) =>
      (Ok (lit "Denied the pending request to use `" ++ default (lit "request") (pa_tool <$> pending) ++
           lit "`." ++ [newline]), [], d)
  | (Approved, d) => gateway_turn run conversation approved_prompt (pa_tool <$> pending) d
  end.
Definition run_gateway_message (removed : bool) (run : AgentRunOptions → turn_run) (conversation text : str)
    (d : gmap str str) : outcome :=
  match parse_command text with
  | GwHelp => (Ok (help_text ++ [newline]), [], d)
  | GwStop => (Ok (lit "Nothing is currently running." ++ [newline]), [], d)
  | GwApprove => gateway_resolve removed run conversation true d
  | GwDeny => gateway_resolve removed run conversation false d
  | GwMessage message => gateway_turn run conversation message None (resolve removed conversation false d).2
  end.
End messages.
End gateway.

(** ** What a chat gateway lets run *)

Section approvals.
Context {serde : SerdeJson} {approval_json : ApprovalJson} {approval_laws : ApprovalJsonLaws}.
Context (json_failure_text : JsonFailure → str) (defaults : AgentSettings) (current_dir : result str str).

(** Messages with the turns they start, whatever those do.  The files of decided
    requests are removed; [kept_request_decided_again] says what happens otherwise. *)
Record message := { ms_conversation : str; ms_text : str; ms_run : AgentRunOptions → turn_run }.
Record log_entry := {
  le_file : str; le_approved : option str; le_decisions : list (PermissionRequest * PermissionDecision);
}.
Definition approved_by (m : message) (d : gmap str str) : option str :=
  match parse_command (ms_text m) with
  | GwApprove => pa_tool <$> pending (ms_conversation m) d
  | _ => None
  end.
Fixpoint gateway_log (ms : list message) (d : gmap str str) : list log_entry :=
  match ms with
  | [] => []
  | m :: ms =>
      let '(_, decisions, d') :=
        run_gateway_message json_failure_text defaults current_dir true (ms_run m) (ms_conversation m) (ms_text m) d in
      {| le_file := path_for (ms_conversation m); le_approved := approved_by m d; le_decisions := decisions |}
      :: gateway_log ms d'
  end.

Definition privileged (tool : str) (allowed : bool) (p : PermissionRequest * PermissionDecision) : bool :=
  negb (bool_decide (request_scope p.1 = ReadOnly)) && bool_decide (request_tool_name p.1 = tool) &&
  Bool.eqb (allows_execution p.2) allowed.
Definition counted (tool : str) (allowed : bool) (ds : list (PermissionRequest * PermissionDecision)) : nat :=
  length (List.filter (privileged tool allowed) ds).
(** The privileged uses of a tool that were allowed, the approvals of the remote
    user, and the uses that were refused and left pending, for a file of the
    store. *)
Definition entries_of (file : str) (log : list log_entry) : list log_entry :=
  List.filter (λ e, bool_decide (le_file e = file)) log.
Definition ran (file tool : str) (log : list log_entry) : nat :=
  sum_list ((λ e, counted tool true (le_decisions e)) <$> entries_of file log).
Definition asked (file tool : str) (log : list log_entry) : nat :=
  sum_list ((λ e, counted tool false (le_decisions e)) <$> entries_of file log).
Definition approvals (file tool : str) (log : list log_entry) : nat :=
  length (List.filter (λ e, bool_decide (le_approved e = Some tool)) (entries_of file log)).

Definition granting (tool : str) (granted : option str) : nat := if bool_decide (granted = Some tool) then 1 else 0.
Definition waiting (file tool : str) (d : gmap str str) : nat :=
  match d !! file with
  | Some text => match parse_pending text with
                 | Ok p => if bool_decide (pa_tool p = tool) then 1 else 0
                 | Err _ => 0
                 end
  | None => 0
  end.

Lemma granting_none tool : granting tool None = 0.
Proof. unfold granting. by rewrite bool_decide_eq_false_2. Qed.
Lemma counted_cons tool allowed p ds :
  counted tool allowed (p :: ds) = (if privileged tool allowed p then 1 else 0) + counted tool allowed ds.
Proof. unfold counted. cbn [List.filter]. by destruct (privileged tool allowed p). Qed.

Lemma gateway_decide_counts conversation r s tool :
  match gateway_decide json_failure_text conversation r s with
  | (Ok dec, s') =>
      (if privileged tool true (r, dec) then 1 else 0) + granting tool s'.1 ≤ granting tool s.1 ∧
      waiting (path_for conversation) tool s'.2 ≤
        waiting (path_for conversation) tool s.2 + (if privileged tool false (r, dec) then 1 else 0) ∧
      ∀ file, file ≠ path_for conversation → s'.2 !! file = s.2 !! file
  | (Err _, _) => False
  end.
Proof.
  destruct s as [granted d]. unfold gateway_decide, privileged.
  destruct (decide (request_scope r = ReadOnly)) as [Hs|Hs].
  { rewrite !bool_decide_eq_true_2 by done. simpl. split_and!; [lia..|done]. }
  rewrite !(bool_decide_eq_false_2 (request_scope r = ReadOnly)) by done. cbn [negb andb].
  destruct (decide (granted = Some (request_tool_name r))) as [Hg|Hg].
  { rewrite !(bool_decide_eq_true_2 (granted = _)) by done. cbn [fst snd]. subst granted. unfold granting.
    split_and!; [|lia|done].
    destruct (decide (request_tool_name r = tool)) as [->|Hne].
    - rewrite !(bool_decide_eq_true_2 (_ = tool)), !(bool_decide_eq_true_2 (Some tool = _)) by done.
      destruct (negb _); simpl; lia.
    - rewrite (bool_decide_eq_false_2 (_ = tool)) by done. destruct (negb _); simpl; lia. }
  rewrite !(bool_decide_eq_false_2 (granted = _)) by done. unfold record.
  edestruct pending_round_trip as (text & -> & Hp). cbn [fst snd].
  rewrite !(bool_decide_eq_false_2 (request_scope r = ReadOnly)) by done. cbn [negb andb]. split_and!.
  - rewrite andb_false_r. simpl. lia.
  - unfold waiting. rewrite lookup_insert_eq, Hp. cbn [pa_tool].
    destruct (bool_decide (request_tool_name r = tool)); cbn; lia.
  - intros file Hf. by rewrite lookup_insert_ne.
Qed.
Lemma decide_all_counts conversation tool rs s ds s' :
  decide_all json_failure_text conversation rs s = (ds, s') →
  counted tool true ds + granting tool s'.1 ≤ granting tool s.1 ∧
  waiting (path_for conversation) tool s'.2 ≤ waiting (path_for conversation) tool s.2 + counted tool false ds ∧
  ∀ file, file ≠ path_for conversation → s'.2 !! file = s.2 !! file.
Proof.
  revert s ds s'. induction rs as [|r rs IH]; intros s ds s'; cbn [decide_all].
  { intros [= <- <-]. cbn. split_and!; [lia..|done]. }
  pose proof (gateway_decide_counts conversation r s tool) as Hd.
  destruct (gateway_decide _ conversation r s) as [[dec|e] s1]; [|done]. destruct Hd as (H1 & H2 & H3).
  destruct (decide_all _ conversation rs s1) as [ds1 s2] eqn:Hr. intros [= <- <-].
  destruct (IH _ _ _ Hr) as (I1 & I2 & I3). rewrite !counted_cons. split_and!; [lia..|].
  intros file Hf. by rewrite I3, H3.
Qed.
Lemma gateway_turn_counts run conversation prompt granted d out ds d' tool :
  gateway_turn json_failure_text defaults current_dir run conversation prompt granted d = (out, ds, d') →
  counted tool true ds ≤ granting tool granted ∧
  waiting (path_for conversation) tool d' ≤ waiting (path_for conversation) tool d + counted tool false ds ∧
  ∀ file, file ≠ path_for conversation → d' !! file = d !! file.
Proof.
  unfold gateway_turn. destruct (gateway_options _ _ _ _ _) as [o|e].
  2:{ intros [= _ <- <-]. cbn. split_and!; [lia..|done]. }
  destruct (decide_all _ _ _ _) as [ds1 [g1 d1]] eqn:Hr.
  destruct (decide_all_counts _ tool _ _ _ _ Hr) as (H1 & H2 & H3). cbn [fst snd] in *.
  destruct (tr_reply _); intros [= _ <- <-]; split_and!; try done; lia.
Qed.
Lemma resolve_waiting conversation approve d :
  (∀ tool, waiting (path_for conversation) tool (resolve true conversation approve d).2 = 0) ∧
  ∀ file, file ≠ path_for conversation → (resolve true conversation approve d).2 !! file = d !! file.
Proof.
  unfold resolve. destruct (d !! path_for conversation) eqn:Hd; cbn [snd].
  - split; [intros tool; unfold waiting; by rewrite lookup_delete_eq|]. intros file Hf. by rewrite lookup_delete_ne.
  - split; [intros tool; unfold waiting; by rewrite Hd|done].
Qed.
Lemma pending_waiting conversation tool d :
  granting tool (pa_tool <$> pending conversation d) = waiting (path_for conversation) tool d.
Proof.
  unfold granting, waiting, pending. destruct (d !! path_for conversation) as [text|]; simpl; [|done].
  destruct (parse_pending text) as [p|]; simpl; [|done].
  destruct (decide (pa_tool p = tool)) as [->|]; [by rewrite !bool_decide_eq_true_2|].
  rewrite !bool_decide_eq_false_2; [done|done|congruence].
Qed.
(** A message runs a tool at most once, and only if it approves it; an approval
    uses up a request that waits. *)
Lemma message_counts m d out ds d' tool :
  run_gateway_message json_failure_text defaults current_dir true (ms_run m) (ms_conversation m) (ms_text m) d = (out, ds, d') →
  counted tool true ds ≤ granting tool (approved_by m d) ∧
  granting tool (approved_by m d) + waiting (path_for (ms_conversation m)) tool d' ≤
    waiting (path_for (ms_conversation m)) tool d + counted tool false ds ∧
  ∀ file, file ≠ path_for (ms_conversation m) → d' !! file = d !! file.
Proof.
  unfold run_gateway_message, approved_by, gateway_resolve. set (c := ms_conversation m).
  destruct (parse_command (ms_text m)); rewrite ?granting_none.
  1,2: intros [= _ <- <-]; cbn; split_and!; [lia..|done].
  - pose proof (resolve_waiting c true d) as [Hw Ho]. rewrite pending_waiting.
    destruct (resolve true c true d) as [[] d1] eqn:Hr; cbn [snd] in *.
    + intros (H1 & H2 & H3)%(gateway_turn_counts _ _ _ _ _ _ _ _ tool). rewrite pending_waiting in H1.
      specialize (Hw tool). fold c in H2, H3. split_and!; [lia..|]. intros file Hf. by rewrite H3, Ho.
    + intros [= _ <- <-]. unfold resolve in Hr. destruct (d !! path_for c); discriminate Hr.
    + intros [= _ <- <-]. unfold resolve in Hr. destruct (d !! path_for c) eqn:Hd; [discriminate Hr|].
      injection Hr as <-. unfold waiting. rewrite Hd. cbn. split_and!; [lia..|done].
  - pose proof (resolve_waiting c false d) as [Hw Ho]. destruct (resolve true c false d) as [[] d1] eqn:Hr; cbn [snd] in *.
    1: by unfold resolve in Hr; destruct (d !! path_for c).
    all: intros [= _ <- <-]; rewrite Hw; cbn; split_and!; [lia..|done].
  - pose proof (resolve_waiting c false d) as [Hw Ho].
    intros (H1 & H2 & H3)%(gateway_turn_counts _ _ _ _ _ _ _ _ tool). specialize (Hw tool). rewrite granting_none in H1.
    split_and!; [exact H1|cbn; lia|]. intros file Hf. by rewrite H3, Ho.
Qed.
Lemma gateway_log_counts ms d file tool :
  ran file tool (gateway_log ms d) ≤ approvals file tool (gateway_log ms d) ∧
  approvals file tool (gateway_log ms d) ≤ waiting file tool d + asked file tool (gateway_log ms d).
Proof.
  revert d. induction ms as [|m ms IH]; intros d; cbn [gateway_log].
  { unfold ran, approvals, asked. cbn. lia. }
  destruct (run_gateway_message _ _ _ _ _ _ _ _) as [[out ds] d'] eqn:Hm.
  destruct (message_counts _ _ _ _ _ tool Hm) as (H1 & H2 & H3). specialize (IH d').
  unfold ran, approvals, asked, entries_of in *. cbn [List.filter le_file].
  case_bool_decide as Hf; [|unfold waiting in *; rewrite H3 in IH by done; exact IH].
  rewrite <- Hf in *. cbn [fmap list_fmap List.filter sum_list le_decisions le_approved] in *. unfold granting, id in *.
  destruct (bool_decide (approved_by m d = Some tool)); cbn [length] in *; lia.
Qed.

(** C6. The chat gateway: whatever messages arrive and whatever the turns they
    start ask for, a privileged use of a tool is allowed at most once for every
    approval by the remote user, and only tools that were asked for and left
    pending are approved, each request at most once (the files of decided requests
    being removed). *)
Theorem gateway_runs_only_approved ms file tool :
  ran file tool (gateway_log ms ∅) ≤ approvals file tool (gateway_log ms ∅) ∧
  approvals file tool (gateway_log ms ∅) ≤ asked file tool (gateway_log ms ∅).
Proof.
  destruct (gateway_log_counts ms ∅ file tool) as [H1 H2]. split; [exact H1|].
  unfold waiting in H2. rewrite lookup_empty in H2. exact H2.
Qed.
End approvals.

(** *** What an approval covers *)

Section findings.
Context {serde : SerdeJson} {approval_json : ApprovalJson} {approval_laws : ApprovalJsonLaws}.
Context (json_failure_text : JsonFailure → str) (defaults : AgentSettings) (current_dir : result str str).

(** The remote user sees the input of the request that waits, but approves the
    tool by name: the next turn may use it once with any other input. *)
Theorem approval_covers_any_input conversation run run' (r r' : PermissionRequest) d o reply reply' :
  gateway_options defaults current_dir conversation (lit "do it") None = Ok o →
  request_tool_name r' = request_tool_name r → request_scope r ≠ ReadOnly → request_scope r' ≠ ReadOnly →
  (∀ o, run o = {| tr_requests := [r]; tr_reply := Ok reply |}) →
  (∀ o, run' o = {| tr_requests := [r']; tr_reply := Ok reply' |}) →
  ∃ p d1 d2 answer,
    run_gateway_message json_failure_text defaults current_dir true run conversation (lit "do it") d =
      (Ok (approval_prompt p), [(r, decision_deny (request_id r) ModeAsk
                                      (lit "awaiting remote /approve for " ++ request_tool_name r))], d1) ∧
    pa_detail p = describe_permission_request r ∧
    run_gateway_message json_failure_text defaults current_dir true run' conversation (lit "/approve") d1 =
      (answer, [(r', decision_allow (request_id r') ModeAsk)], d2).
Proof.
  intros Ho Hn Hr Hr' Hrun Hrun'.
  set (p := {| pa_conversation := conversation; pa_tool := request_tool_name r; pa_detail := describe_permission_request r |}).
  destruct (pending_round_trip p) as (text & Hp & Htext).
  set (d0 := (resolve true conversation false d).2). exists p, (<[path_for conversation := text]> d0).
  assert (parse_command (lit "do it") = GwMessage (lit "do it")) as Hdo by (vm_compute; reflexivity).
  assert (parse_command (lit "/approve") = GwApprove) as Happ by (vm_compute; reflexivity).
  unfold run_gateway_message. rewrite Hdo, Happ. unfold gateway_resolve, gateway_turn. rewrite Ho, Hrun. fold d0.
  cbn [tr_requests tr_reply decide_all]. unfold gateway_decide at 1, record.
  rewrite (bool_decide_eq_false_2 (request_scope r = ReadOnly)), (bool_decide_eq_false_2 (None = _)) by done.
  fold p. rewrite Hp. unfold pending, resolve. rewrite !lookup_insert_eq. simpl. rewrite Htext. cbn [fmap option_fmap option_map].
  assert (∃ o', gateway_options defaults current_dir conversation approved_prompt (Some (pa_tool p)) = Ok o') as [o' ->].
  { revert Ho. unfold gateway_options.
    destruct (ok_or _ (agt_provider defaults)); [|discriminate]. cbn [result_bind].
    destruct (ok_or _ (agt_model defaults)); [|discriminate]. cbn [result_bind].
    destruct current_dir; [|discriminate]. cbn [result_bind].
    destruct (resolve_configured_fallback_routes _); [|discriminate]. eauto. }
  rewrite Hrun'. cbn [tr_requests tr_reply decide_all]. unfold gateway_decide.
  rewrite (bool_decide_eq_false_2 (request_scope r' = ReadOnly)), (bool_decide_eq_true_2 (Some _ = _)) by (simpl; congruence).
  do 2 eexists. split_and!; reflexivity.
Qed.
End findings.

(** ** Options: flags over settings over the profile *)

Definition first_set {A} (l : list (option A)) : option A := fold_right fill None l.
Lemma ok_or_inv {E A} (e : E) (o : option A) a : ok_or e o = Ok a → Some a = o.
Proof. destruct o; [by intros [= <-]|discriminate]. Qed.
Lemma fill_none {A} (x : option A) : fill x None = x.
Proof. by destruct x. Qed.
Lemma fill_first {A} (x y z : option A) : fill x (fill y z) = first_set [x; y; z].
Proof. by destruct x, y, z. Qed.

Lemma folded_defaults_profile defaults profile d :
  folded_defaults defaults profile = Ok d →
  ∃ p, d = apply_profile p defaults ∧
    match profile with Some name => resolve_profile name defaults = Ok p | None => p = ProfileSettings_default end.
Proof.
  unfold folded_defaults. destruct profile as [name|].
  - intros (p & Hp & [= <-])%result_bind_Ok. eauto.
  - intros [= <-]. exists ProfileSettings_default. split; [|done].
    destruct defaults as [????????????????[]??]. unfold apply_profile, bh_apply_profile. cbn.
    by rewrite !fill_none.
Qed.
Lemma or_parsed_spec {A} (parse : str → result str A) flag setting o :
  or_parsed parse flag setting = Ok o →
  (∀ a, flag = Some a → o = Some a) ∧
  (flag = None → (∀ text, setting = Some text → ∃ a, parse text = Ok a ∧ o = Some a) ∧ (setting = None → o = None)).
Proof.
  destruct flag as [a|], setting as [text|]; cbn [or_parsed].
  1,2: intros [= <-]; split; [by intros ? [= <-]|done].
  - intros (a & Ha & [= <-])%result_bind_Ok. split; [done|]. intros _. split; [intros ? [= <-]; eauto|done].
  - intros [= <-]. done.
Qed.

(** Precedence of the options of a turn: an explicit flag wins, then the
    settings, then the selected profile (the flag's, else the settings'), then
    the default; the permission mode and the tool sets are parsed from the first
    that is set, and with none set the mode is to allow and the tools are all. *)
Theorem options_precedence defaults f o :
  resolve_options defaults f = Ok o →
  ∃ p, match fill (fl_profile f) (agt_profile defaults) with
       | Some name => resolve_profile name defaults = Ok p
       | None => p = ProfileSettings_default
       end ∧
    Some (ro_provider o) = first_set [fl_provider f; agt_provider defaults; pf_provider p] ∧
    Some (ro_model o) = first_set [fl_model f; agt_model defaults; pf_model p] ∧
    ro_base_url o = first_set [fl_base_url f; agt_base_url defaults; pf_base_url p] ∧
    ro_max_iterations o = first_set [fl_max_iterations f; agt_max_iterations defaults; pf_max_iterations p] ∧
    match fl_permission_mode f, fill (agt_permission_mode defaults) (pf_permission_mode p) with
    | Some mode, _ => ro_permission_mode o = mode
    | None, Some text => parse_permission_mode text = Ok (ro_permission_mode o)
    | None, None => ro_permission_mode o = CliAllow
    end ∧
    match fl_tool_sets f, fill (agt_tool_sets defaults) (pf_tool_sets p) with
    | _ :: _, _ => ro_tool_sets o = fl_tool_sets f
    | [], Some words => parse_agent_tool_set <$> words = Ok <$> ro_tool_sets o
    | [], None => ro_tool_sets o = [SetAll; SetDelegate; SetLearn]
    end.
Proof.
  unfold resolve_options. intros H.
  apply result_bind_Ok in H as (d & Hd & H). destruct (folded_defaults_profile _ _ _ Hd) as (p & -> & Hp).
  apply result_bind_Ok in H as (provider & Hprov & H). apply result_bind_Ok in H as (model & Hmodel & H).
  apply result_bind_Ok in H as (mode & Hmode & H). apply result_bind_Ok in H as (sets & Hsets & H).
  apply result_bind_Ok in H as (choice & _ & H). apply result_bind_Ok in H as (format & _ & H).
  apply result_bind_Ok in H as (routes & _ & H). injection H as <-. 
  cbn [apply_profile agt_provider agt_model agt_permission_mode agt_tool_sets] in Hprov, Hmodel, Hmode, Hsets.
  exists p. split; [exact Hp|]. cbn [ro_provider ro_model ro_base_url ro_max_iterations ro_permission_mode ro_tool_sets].
  cbn [apply_profile agt_base_url agt_max_iterations]. rewrite fill_first in Hprov, Hmodel. rewrite !fill_first.
  destruct (or_parsed_spec _ _ _ _ Hmode) as [Hflag Hset]. split_and!; [| |done|done| |].
  - exact (ok_or_inv _ _ _ Hprov).
  - exact (ok_or_inv _ _ _ Hmodel).
  - destruct (fl_permission_mode f) as [m|]; [by rewrite (Hflag m)|]. destruct (Hset eq_refl) as [Hs Hn].
    destruct (fill _ _) as [text|]; [destruct (Hs text) as (a & Ha & ->); done|by rewrite Hn].
  - destruct (fl_tool_sets f); cbn [is_empty] in Hsets; [|by injection Hsets as <-].
    destruct (fill (agt_tool_sets defaults) (pf_tool_sets p)) as [words|].
    + by apply collect_result_Ok in Hsets.
    + by injection Hsets as <-.
Qed.

(** *** Findings of the assembly *)

(** A list of blank sets restricts nothing: the run gets every tool. *)
Theorem blank_tool_sets_widen defaults prompt workspace provider model :
  agt_provider defaults = Some provider → agt_model defaults = Some model → agt_profile defaults = None →
  agt_permission_mode defaults = None → agt_tool_sets defaults = None → agt_tool_choice defaults = None →
  agt_response_format defaults = None → agt_fallbacks defaults = None →
  ∃ o, parse_agent_run_options (Ok workspace) defaults [prompt; lit "--tool-set"; lit ","] = Ok o ∧
       ro_tool_sets o = [SetAll; SetDelegate; SetLearn] ∧ ro_permission_mode o = CliAllow.
Proof.
  intros Hp Hm Hpr Hmode Hs Hc Hf Hfb. unfold parse_agent_run_options, parse_agent_flag_options. cbn [result_bind].
  replace (parse_flags (lit "run") [lit "--tool-set"; lit ","] (AgentFlags_new workspace))
    with (Ok (E := str) (set_tool_sets [] (AgentFlags_new workspace))) by (vm_compute; reflexivity).
  unfold resolve_options.
  cbn [result_bind set_tool_sets AgentFlags_new fl_profile fl_provider fl_model fl_permission_mode fl_tool_sets
       fl_tool_choice fl_response_format fl_fallback_routes fill is_empty].
  rewrite Hpr. cbn [folded_defaults result_bind]. rewrite Hp, Hm, Hmode, Hs, Hc, Hf, Hfb.
  cbn [ok_or result_bind or_parsed resolve_configured_fallback_routes]. eexists. split; [reflexivity|]. done.
Qed.

(** A profile changes no behavior of the turn: the options only carry its name,
    and the behaviors are those of the settings. *)
Definition with_profile (profile : option str) (o : AgentRunOptions) : AgentRunOptions :=
  {| ro_prompt := ro_prompt o; ro_workspace := ro_workspace o; ro_provider := ro_provider o;
     ro_model := ro_model o; ro_provider_policy_preset := ro_provider_policy_preset o;
     ro_base_url := ro_base_url o; ro_session_id := ro_session_id o; ro_max_iterations := ro_max_iterations o;
     ro_json_events := ro_json_events o; ro_stream_events := ro_stream_events o; ro_stream := ro_stream o;
     ro_tool_sets := ro_tool_sets o; ro_tool_choice := ro_tool_choice o;
     ro_response_format := ro_response_format o; ro_permission_mode := ro_permission_mode o;
     ro_remember_permissions := ro_remember_permissions o; ro_mcp_servers := ro_mcp_servers o;
     ro_fallback_routes := ro_fallback_routes o; ro_gateway_approval := ro_gateway_approval o;
     ro_unattended := ro_unattended o; ro_profile := profile |}.
Theorem profile_behaviors_ignored settings servers o plan profile :
  build_agent_harness_with (Some settings) servers o = Ok plan →
  build_agent_harness_with (Some settings) servers (with_profile profile o) = Ok plan ∧
  tp_verify plan = turn_verify_config (agt_behavior (st_agent settings)) ∧
  (agt_behavior (st_agent settings) = BehaviorSettings_default →
   tp_base_prompt plan = Some true ∧ self_verify (tp_verify plan) = true ∧ self_critique (tp_verify plan) = true ∧
   (pf_auto_plan manual_profile, pf_self_verify manual_profile, pf_self_critique manual_profile) =
     (Some false, Some false, Some false)).
Proof.
  intros H. split; [exact H|]. unfold build_agent_harness_with in H.
  apply result_bind_Ok in H as (b & _ & H). apply result_bind_Ok in H as (u & _ & H). injection H as <-.
  cbn [tp_verify tp_base_prompt default fmap option_fmap option_map]. split; [done|]. by intros ->.
Qed.

(** Isolation of unattended turns: when the settings load and require it, a
    gateway turn is only built on a backend that isolates its commands. *)
Theorem unattended_isolated settings servers defaults current_dir conversation prompt granted o plan :
  gateway_options defaults current_dir conversation prompt granted = Ok o →
  agt_require_isolation_for_unattended (st_agent settings) = Some true →
  build_agent_harness_with (Some settings) servers o = Ok plan →
  is_isolated (tp_backend plan) = true ∧ tp_policy plan = PolicyGateway {| ga_conversation := conversation; ga_granted_tool := granted |}.
Proof.
  unfold gateway_options, build_agent_harness_with. intros Ho Hr H.
  apply result_bind_Ok in Ho as (p & _ & Ho). apply result_bind_Ok in Ho as (m & _ & Ho).
  apply result_bind_Ok in Ho as (w & _ & Ho). apply result_bind_Ok in Ho as (r & _ & [= <-]).
  apply result_bind_Ok in H as (b & _ & H). apply result_bind_Ok in H as (u & Hi & H). injection H as <-.
  cbn [tp_backend tp_policy]. split; [|done]. change (default AgentSettings_default (st_agent <$> Some settings)) with (st_agent settings) in Hi.
  rewrite Hr in Hi.
  unfold enforce_unattended_isolation in Hi. cbn [ro_unattended ro_tool_sets negb orb] in Hi.
  by destruct (is_isolated b).
Qed.
(** When the settings fail to load, the same turn is built on the local backend,
    required or not: the guard is open. *)
Theorem isolation_fails_open servers defaults current_dir conversation prompt granted o :
  gateway_options defaults current_dir conversation prompt granted = Ok o →
  ∃ plan, build_agent_harness_with None servers o = Ok plan ∧ tp_backend plan = BackendLocal ∧
    SrcCommand ∈ tp_tools plan.
Proof.
  unfold gateway_options. intros Ho.
  apply result_bind_Ok in Ho as (p & _ & Ho). apply result_bind_Ok in Ho as (m & _ & Ho).
  apply result_bind_Ok in Ho as (w & _ & Ho). apply result_bind_Ok in Ho as (r & _ & [= <-]).
  eexists. split; [reflexivity|]. split; [done|]. cbn [tp_tools turn_tools build_tool_registry ro_tool_sets].
  unfold build_tool_registry. set_solver.
Qed.

(** A scheduled job never gets the tools that edit, run commands, use git or
    the web: what it has beside reading and planning are the servers and the
    plugins of its workspace and the notes of the agent, all allowed. *)
Theorem scheduled_tools settings servers defaults current_dir job o plan :
  scheduled_options defaults current_dir job = Ok o →
  build_agent_harness_with settings servers o = Ok plan →
  tp_policy plan = PolicyCli CliAllow false ∧ tp_programmatic plan = false ∧ tp_code_execution plan = false ∧
  ∃ notes, tp_tools plan = [SrcReadOnly; SrcPlanning] ++ (SrcMcp <$> (mcp_server_id <$> servers)) ++ [SrcPlugins] ++ notes ∧
    notes = if curated_memory_enabled (agt_behavior (default AgentSettings_default (st_agent <$> settings)))
            then [SrcNote] else [].
Proof.
  unfold scheduled_options, build_agent_harness_with. intros Ho H.
  apply result_bind_Ok in Ho as (p & _ & Ho). apply result_bind_Ok in Ho as (m & _ & Ho).
  apply result_bind_Ok in Ho as (w & _ & Ho). apply result_bind_Ok in Ho as (r & _ & [= <-]).
  apply result_bind_Ok in H as (b & _ & H). apply result_bind_Ok in H as (u & _ & H). injection H as <-.
  cbn [tp_policy tp_programmatic tp_code_execution tp_tools]. split_and!; [done..|]. eexists. split; [|reflexivity].
  unfold turn_tools, build_tool_registry. cbn [ro_tool_sets ro_mcp_servers].
  by rewrite app_nil_r.
Qed.

(** ** Remembered decisions *)

Lemma permission_key_inj tool scope tool' scope' :
  permission_key tool scope = permission_key tool' scope' → tool = tool' ∧ scope = scope'.
Proof. by destruct scope, scope'; intros [= ?]. Qed.
Lemma decode_decision_payload d : decode_decision (decision_payload d) = Some d.
Proof. destruct d as [tool [] []]; reflexivity. Qed.
Lemma load_remember d s tool scope :
  load_decision tool scope (remember_decision d s) =
    if bool_decide (tool = cp_tool_name d ∧ scope = cp_scope d) then Some d else load_decision tool scope s.
Proof.
  unfold load_decision, remember_decision. case_bool_decide as Hk.
  - destruct Hk as [-> ->]. rewrite lookup_insert_eq. apply decode_decision_payload.
  - rewrite lookup_insert_ne; [done|]. intros [? ?]%permission_key_inj. by apply Hk.
Qed.

(** The local policy asks at most once: after the operator answered for a
    connector tool, the next request for it in the same scope is decided the same
    way without a prompt, whatever the input, and requests for other tools or
    scopes are decided as before. *)
Theorem remembered_answer p r r' answer answer' s d s' :
  cpp_mode p = CliAsk → cpp_remember p = true → is_rememberable_permission (request_tool_name r) (request_scope r) = true →
  cli_decide p r answer s = (d, s', true) →
  (request_tool_name r' = request_tool_name r → request_scope r' = request_scope r →
   ∃ d', cli_decide p r' answer' s' = (d', s', false) ∧ allows_execution d' = allows_execution d) ∧
  (request_tool_name r' ≠ request_tool_name r ∨ request_scope r' ≠ request_scope r →
   fast_path p r' s' = fast_path p r' s).
Proof.
  intros Hm Hr Hk. unfold cli_decide. destruct (fast_path p r s) as [d0|] eqn:Hf; [discriminate|].
  intros [= <- <-].
  assert (∀ r0, request_tool_name r0 = request_tool_name r → request_scope r0 = request_scope r → should_remember p r0 = true)
    as Hs by (intros r0 H1 H2; unfold should_remember; by rewrite Hr, H1, H2, Hk).
  unfold persist_decision_if_needed. rewrite (Hs r) by done. cbn [negb]. split.
  - intros Ht Hsc. unfold fast_path, remembered_decision. rewrite Hm, (Hs r') by done. cbn [negb].
    rewrite load_remember. cbn [cp_tool_name cp_scope]. rewrite bool_decide_eq_true_2 by done.
    unfold decide_with_prompt. destruct (prompt_for_permission answer); cbn; eauto.
  - intros Hne. unfold fast_path, remembered_decision. rewrite Hm. destruct (should_remember p r'); [cbn [negb]|done].
    rewrite load_remember. cbn [cp_tool_name cp_scope]. by rewrite bool_decide_eq_false_2 by naive_solver.
Qed.

(** ** Witnesses *)

Definition demo_defaults : AgentSettings :=
  {| agt_provider := Some (lit "p"); agt_model := Some (lit "m"); agt_base_url := None;
     agt_provider_policy_preset := None; agt_max_iterations := None; agt_permission_mode := None;
     agt_tool_sets := None; agt_tool_choice := None; agt_response_format := None; agt_fallbacks := None;
     agt_stream := None; agt_remember_permissions := None; agt_execution_backend := Some (lit "docker");
     agt_docker := DockerSettings_default; agt_ssh := SshSettings_default;
     agt_require_isolation_for_unattended := Some true; agt_behavior := BehaviorSettings_default;
     agt_profile := Some (lit "careful"); agt_profiles := ∅ |}.
Definition demo_request (tool : str) (scope : PermissionScope) : PermissionRequest :=
  PermissionRequest_new (lit "r") (lit "s") (lit "t") tool VNull scope.
Definition demo_messages : list message :=
  [{| ms_conversation := lit "C1"; ms_text := lit "do it";
      ms_run := λ _, {| tr_requests := [demo_request (lit "x") WorkspaceWrite]; tr_reply := Ok [] |} |};
   {| ms_conversation := lit "C1"; ms_text := lit "/approve";
      ms_run := λ _, {| tr_requests := [demo_request (lit "x") WorkspaceWrite; demo_request (lit "x") WorkspaceWrite];
                        tr_reply := Ok [] |} |}].
Definition demo_log : list log_entry :=
  gateway_log (serde := counting_json) (approval_json := demo_approval_json) (λ _, []) demo_defaults (Ok (lit "/w"))
    demo_messages ∅.
Lemma gateway_runs_only_approved_witness :
  ran (path_for (lit "C1")) (lit "x") demo_log = 1 ∧ approvals (path_for (lit "C1")) (lit "x") demo_log = 1 ∧
  asked (path_for (lit "C1")) (lit "x") demo_log = 2 ∧
  ran (path_for (lit "C1")) (lit "x") demo_log ≤ approvals (path_for (lit "C1")) (lit "x") demo_log ∧
  approvals (path_for (lit "C1")) (lit "x") demo_log ≤ asked (path_for (lit "C1")) (lit "x") demo_log.
Proof.
  split; [vm_compute; reflexivity|]. split; [vm_compute; reflexivity|]. split; [vm_compute; reflexivity|].
  exact (gateway_runs_only_approved (serde := counting_json) (approval_json := demo_approval_json)
           (approval_laws := demo_approval_json_laws) (λ _, []) demo_defaults (Ok (lit "/w"))
           demo_messages (path_for (lit "C1")) (lit "x")).
Defined.

Definition demo_flags : AgentFlags := set_model (Some (lit "n")) (AgentFlags_new (lit "/w")).
Lemma options_precedence_witness : ∃ o, resolve_options demo_defaults demo_flags = Ok o ∧
  Some (ro_model o) = first_set [Some (lit "n"); Some (lit "m"); None] ∧ ro_permission_mode o = CliAsk.
Proof.
  destruct (resolve_options demo_defaults demo_flags) as [o|e] eqn:Ho; [|vm_compute in Ho; discriminate Ho].
  destruct (options_precedence demo_defaults demo_flags o Ho) as (p & Hp & _ & Hm & _).
  vm_compute in Hp. injection Hp as <-. exists o. split; [reflexivity|]. split; [exact Hm|].
  vm_compute in Ho. injection Ho as <-. reflexivity.
Defined.

Definition demo_settings : Settings :=
  {| st_config_version := None; st_workspace := WorkspaceSettings_default; st_agent := demo_defaults;
     st_plugins := PluginSettings_default; st_delegation := DelegationSettings_default;
     st_memory := MemorySettings_default; st_tui := TuiSettings_default |}.
Lemma unattended_isolated_witness : ∃ o plan,
  gateway_options demo_defaults (Ok (lit "/w")) (lit "C1") (lit "hi") None = Ok o ∧
  build_agent_harness_with (Some demo_settings) [] o = Ok plan ∧ is_isolated (tp_backend plan) = true.
Proof.
  destruct (gateway_options demo_defaults (Ok (lit "/w")) (lit "C1") (lit "hi") None) as [o|e] eqn:Ho;
    [|vm_compute in Ho; discriminate Ho].
  destruct (build_agent_harness_with (Some demo_settings) [] o) as [plan|e] eqn:Hp;
    [|vm_compute in Ho; injection Ho as <-; vm_compute in Hp; discriminate Hp].
  exists o, plan. split; [reflexivity|]. split; [exact Hp|].
  exact (proj1 (unattended_isolated demo_settings [] demo_defaults (Ok (lit "/w")) (lit "C1") (lit "hi") None o plan
                  Ho eq_refl Hp)).
Defined.

Lemma scheduled_tools_witness : ∃ o plan job,
  scheduled_options demo_defaults (Ok (lit "/w")) job = Ok o ∧
  build_agent_harness_with (Some demo_settings) [] o = Ok plan ∧ tp_programmatic plan = false.
Proof.
  set (job := {| job_id := []; job_schedule := []; job_prompt := []; job_enabled := true; job_workspace := None;
                 job_provider := None; job_model := None; job_command := None; job_last_run_epoch := None |}).
  destruct (scheduled_options demo_defaults (Ok (lit "/w")) job) as [o|e] eqn:Ho; [|vm_compute in Ho; discriminate Ho].
  destruct (build_agent_harness_with (Some demo_settings) [] o) as [plan|e] eqn:Hp;
    [|vm_compute in Ho; injection Ho as <-; vm_compute in Hp; discriminate Hp].
  exists o, plan, job. split; [exact Ho|]. split; [exact Hp|].
  exact (proj1 (proj2 (scheduled_tools (Some demo_settings) [] demo_defaults (Ok (lit "/w")) job o plan Ho Hp))).
Defined.

Definition demo_policy : CliPermissionPolicy := {| cpp_mode := CliAsk; cpp_remember := true |}.
Definition demo_connector : PermissionRequest := demo_request (lit "mcp.x") Shell.
Lemma remembered_answer_witness : ∃ s' d',
  cli_decide demo_policy demo_connector (Some (lit "y")) ∅ = (decision_allow (lit "r") ModeAsk, s', true) ∧
  cli_decide demo_policy demo_connector None s' = (d', s', false) ∧ allows_execution d' = true.
Proof.
  assert (fast_path demo_policy demo_connector ∅ = None) as Hf by (vm_compute; reflexivity).
  assert (decide_with_prompt demo_connector (Some (lit "y")) = decision_allow (lit "r") ModeAsk) as Hd
    by (vm_compute; reflexivity).
  set (s' := persist_decision_if_needed demo_policy demo_connector (decision_allow (lit "r") ModeAsk) ∅).
  assert (cli_decide demo_policy demo_connector (Some (lit "y")) ∅ = (decision_allow (lit "r") ModeAsk, s', true)) as H0
    by (unfold cli_decide; rewrite Hf, Hd; reflexivity).
  assert (is_rememberable_permission (request_tool_name demo_connector) (request_scope demo_connector) = true) as Hr
    by (vm_compute; reflexivity).
  destruct (remembered_answer demo_policy demo_connector demo_connector (Some (lit "y")) None ∅ _ s'
              eq_refl eq_refl Hr H0) as [H _].
  destruct (H eq_refl eq_refl) as (d' & H1 & H2). exists s', d'. split; [exact H0|]. split; [exact H1|exact H2].
Defined.
