(* ===== verification/TuiState.v ===== *)
(** * The state of the terminal interface ([codel00p-cli/src/tui]: picker.rs, composer.rs, conversation.rs, overlay.rs)

    Terminal-independent state: the generic selectable list, the message
    composer, the chat transcript and the panels drawn over it, each with the
    operations that change it.  A method taking [&mut self] is a function to the
    new state. *)

From stdpp Require Import base numbers strings gmap list.
From S2P Require Import Prelude RustStr Json Protocol CloudTypes Harness Curator Recall.

(** ** Key events (what the sources match on of [crossterm]) *)

Inductive KeyCode :=
| KEsc | KEnter | KUp | KDown | KLeft | KRight | KHome | KEnd | KPageUp | KPageDown
| KTab | KBackTab | KBackspace | KDelete
| KF (n : nat)
| KChar (c : char)
| KOther.
#[export] Instance KeyCode_eq_dec : EqDecision KeyCode.
Proof. solve_decision. Defined.
Record KeyEvent := { code : KeyCode; ctrl : bool; alt : bool; shift : bool }.
Definition key_char (s : string) : KeyCode := KChar (default 0%N (head (lit s))).

(** ** Pickers ([picker.rs]) *)

Class PickerItem (T : Type) := { label : T → str; detail : T → option str }.

Inductive PickerOutcome := Pending | Selected | Cancelled.

(** [filtered] holds the positions of the visible items. *)
Record Picker (T : Type) := {
  pk_items : list T; pk_query : str; pk_filtered : list nat; pk_selected : nat;
}.
Arguments Build_Picker {T}.
Arguments pk_items {T}.
Arguments pk_query {T}.
Arguments pk_filtered {T}.
Arguments pk_selected {T}.

Section picker.
Context `{Unicode} {T : Type} `{!PickerItem T}.

Definition matches (needle : str) (item : T) : bool :=
  is_empty needle || contains needle (to_lowercase (label item)).
Definition refilter (p : Picker T) : Picker T :=
  let needle := to_lowercase (pk_query p) in
  let filtered := fst <$> List.filter (λ '(_, item), matches needle item)
                            (imap pair (pk_items p)) in
  let selected := if length filtered <=? pk_selected p then length filtered - 1
                  else pk_selected p in
  {| pk_items := pk_items p; pk_query := pk_query p; pk_filtered := filtered;
     pk_selected := selected |}.
Definition Picker_new (items : list T) : Picker T :=
  refilter {| pk_items := items; pk_query := []; pk_filtered := []; pk_selected := 0 |}.
Definition set_items (items : list T) (p : Picker T) : Picker T :=
  refilter {| pk_items := items; pk_query := pk_query p; pk_filtered := pk_filtered p;
              pk_selected := pk_selected p |}.
Definition set_query (query : str) (p : Picker T) : Picker T :=
  {| pk_items := pk_items p; pk_query := query; pk_filtered := pk_filtered p;
     pk_selected := pk_selected p |}.
Definition set_selected (n : nat) (p : Picker T) : Picker T :=
  {| pk_items := pk_items p; pk_query := pk_query p; pk_filtered := pk_filtered p;
     pk_selected := n |}.

(** [&self.items[index]] panics out of range; the positions never are. *)
Definition selected_item (p : Picker T) : option T :=
  index ← pk_filtered p !! pk_selected p; pk_items p !! index.
Definition visible_rows (p : Picker T) : list (T * bool) :=
  omap (λ '(row, index), item ← pk_items p !! index;
                         Some (item, row =? pk_selected p)) (imap pair (pk_filtered p)).

Definition move_up (p : Picker T) : Picker T := set_selected (pk_selected p - 1) p.
Definition move_down (p : Picker T) : Picker T :=
  if S (pk_selected p) <? length (pk_filtered p) then set_selected (S (pk_selected p)) p else p.
Definition move_by (delta : Z) (p : Picker T) : Picker T :=
  let len := Z.of_nat (length (pk_filtered p)) in
  if (len =? 0)%Z then p
  else set_selected (Z.to_nat (Z.max 0 (Z.min (Z.of_nat (pk_selected p) + delta) (len - 1)))) p.

Definition picker_on_key (key : KeyEvent) (p : Picker T) : PickerOutcome * Picker T :=
  match code key with
  | KEsc => (Cancelled, p)
  | KEnter => (if bool_decide (is_Some (selected_item p)) then Selected else Pending, p)
  | KUp => (Pending, move_up p)
  | KDown => (Pending, move_down p)
  | KPageUp => (Pending, move_by (-5) p)
  | KPageDown => (Pending, move_by 5 p)
  | KBackspace => (Pending, refilter (set_query (removelast (pk_query p)) p))
  | KChar c =>
      if ctrl key then
        if bool_decide (KChar c = key_char "p") then (Pending, move_up p)
        else if bool_decide (KChar c = key_char "n") then (Pending, move_down p)
        else (Pending, p)
      else (Pending, refilter (set_query (pk_query p ++ [c]) p))
  | _ => (Pending, p)
  end.
End picker.

(** ** The composer ([composer.rs]) *)

Record Composer := { cp_text : str; cp_cursor : nat }.
Definition Composer_default : Composer := {| cp_text := []; cp_cursor := 0 |}.
Definition cp_is_empty (c : Composer) : bool := is_empty (cp_text c).
Definition cp_set_text (text : str) (c : Composer) : Composer :=
  {| cp_text := text; cp_cursor := length text |}.
Definition cp_clear (c : Composer) : Composer := {| cp_text := []; cp_cursor := 0 |}.
Definition cp_take (c : Composer) : str * Composer := (trim (cp_text c), cp_clear c).
(** A character index as a byte offset, clamped to the end. *)
Definition byte_at (c : Composer) (char_idx : nat) : nat := byte_len (take char_idx (cp_text c)).
(** [String::insert] and [String::replace_range] work at the byte offsets of
    [byte_at] and panic off a character boundary.  Here they work on character
    positions; [composer_insert_bytes] and [composer_remove_bytes] say that this
    is the same and that no boundary is missed. *)
Definition cp_insert_char (ch : char) (c : Composer) : Composer :=
  {| cp_text := take (cp_cursor c) (cp_text c) ++ ch :: drop (cp_cursor c) (cp_text c);
     cp_cursor := S (cp_cursor c) |}.
Definition cp_insert_newline (c : Composer) : Composer := cp_insert_char newline c.
Definition cp_backspace (c : Composer) : Composer :=
  match cp_cursor c with
  | 0 => c
  | S n => {| cp_text := take n (cp_text c) ++ drop (S n) (cp_text c); cp_cursor := n |}
  end.
Definition cp_delete (c : Composer) : Composer :=
  if length (cp_text c) <=? cp_cursor c then c
  else {| cp_text := take (cp_cursor c) (cp_text c) ++ drop (S (cp_cursor c)) (cp_text c);
          cp_cursor := cp_cursor c |}.
Definition cp_left (c : Composer) : Composer :=
  {| cp_text := cp_text c; cp_cursor := cp_cursor c - 1 |}.
Definition cp_right (c : Composer) : Composer :=
  if cp_cursor c <? length (cp_text c)
  then {| cp_text := cp_text c; cp_cursor := S (cp_cursor c) |} else c.
(** The loops of [home] and [end]: [chars[i - 1]] and [chars[i]] are in range. *)
Fixpoint home_from (chars : str) (i : nat) : nat :=
  match i with
  | 0 => 0
  | S j => if bool_decide (chars !! j = Some newline) then i else home_from chars j
  end.
Definition cp_home (c : Composer) : Composer :=
  {| cp_text := cp_text c; cp_cursor := home_from (cp_text c) (cp_cursor c) |}.
Fixpoint end_from (rest : str) (i : nat) : nat :=
  match rest with
  | ch :: rest => if bool_decide (ch = newline) then i else end_from rest (S i)
  | [] => i
  end.
Definition cp_end (c : Composer) : Composer :=
  {| cp_text := cp_text c;
     cp_cursor := end_from (drop (cp_cursor c) (cp_text c)) (cp_cursor c) |}.

(** ** The transcript ([conversation.rs]) *)

Inductive ToolState := Requested | ToolRunning (message : option str) | Done | Failed (message : str).
Inductive Block :=
| BUser (text : str)
| BAssistant (text : str)
| BTool (name : str) (state : ToolState)
| BNotice (text : str)
| BError (text : str).
Record Conversation := { blocks : list Block }.
Definition Conversation_default : Conversation := {| blocks := [] |}.

Definition push_block (b : Block) (c : Conversation) : Conversation := {| blocks := blocks c ++ [b] |}.
Definition conv_push_user (text : str) : Conversation → Conversation := push_block (BUser text).
Definition push_notice (text : str) : Conversation → Conversation := push_block (BNotice text).
Definition push_error (text : str) : Conversation → Conversation := push_block (BError text).

Definition message_blocks (m : SessionMessage) : list Block :=
  match msg_role m with
  | RSystem => if is_empty (msg_content m) then [] else [BNotice (msg_content m)]
  | RUser => [BUser (msg_content m)]
  | RAssistant =>
      (if is_empty (msg_content m) then [] else [BAssistant (msg_content m)]) ++
      ((λ call, BTool (call_name call) Done) <$> msg_tool_calls m)
  | RTool => [BTool (default (lit "tool") (msg_tool_name m)) Done]
  end.
Definition append_session_messages (messages : list SessionMessage) (c : Conversation)
    : Conversation :=
  {| blocks := blocks c ++ concat (message_blocks <$> messages) |}.

Definition append_token (token : str) (c : Conversation) : Conversation :=
  match last (blocks c) with
  | Some (BAssistant text) => {| blocks := removelast (blocks c) ++ [BAssistant (text ++ token)] |}
  | _ => push_block (BAssistant token) c
  end.
Definition finalize_assistant (message : str) (c : Conversation) : Conversation :=
  if is_empty message then c
  else match last (blocks c) with
       | Some (BAssistant (_ :: _)) => c
       | _ => push_block (BAssistant message) c
       end.

(** The loop of [set_tool_state] from the newest block: [None] when no block of
    that tool was found. *)
Fixpoint update_newest (name : str) (state : ToolState) (reversed : list Block)
    : option (list Block) :=
  match reversed with
  | [] => None
  | b :: rest =>
      match b with
      | BTool tool_name _ =>
          if bool_decide (tool_name = name) then Some (BTool tool_name state :: rest)
          else cons b <$> update_newest name state rest
      | _ => cons b <$> update_newest name state rest
      end
  end.
Definition set_tool_state (name : str) (state : ToolState) (c : Conversation) : Conversation :=
  match update_newest name state (reverse (blocks c)) with
  | Some reversed => {| blocks := reverse reversed |}
  | None => push_block (BTool name state) c
  end.
Definition tool_requested (name : str) : Conversation → Conversation :=
  push_block (BTool name Requested).
Definition tool_progress (name : str) (message : option str) : Conversation → Conversation :=
  set_tool_state name (ToolRunning message).
Definition tool_completed (name : str) : Conversation → Conversation := set_tool_state name Done.
Definition conv_tool_failed (name message : str) : Conversation → Conversation :=
  set_tool_state name (Failed message).

Definition string_insert (s : str) (at_ : nat) (ch : char) : option str :=
  a ← byte_take s at_; b ← byte_drop s at_; Some (a ++ ch :: b).
Definition string_remove (s : str) (start end_ : nat) : option str :=
  if end_ <? start then None else a ← byte_take s start; b ← byte_drop s end_; Some (a ++ b).

Lemma byte_take_at c i : byte_take (cp_text c) (byte_at c i) = Some (take i (cp_text c)).
Proof.
  unfold byte_at. rewrite <- (take_drop i (cp_text c)) at 1. apply byte_take_app.
Qed.
Lemma byte_drop_at c i : byte_drop (cp_text c) (byte_at c i) = Some (drop i (cp_text c)).
Proof.
  unfold byte_at. rewrite <- (take_drop i (cp_text c)) at 1. apply byte_drop_app.
Qed.
Lemma composer_insert_bytes c ch :
  string_insert (cp_text c) (byte_at c (cp_cursor c)) ch = Some (cp_text (cp_insert_char ch c)).
Proof. unfold string_insert. by rewrite byte_take_at, byte_drop_at. Qed.
Lemma byte_at_mono c i j : i ≤ j → byte_at c i ≤ byte_at c j.
Proof.
  intros Hij. unfold byte_at. replace j with (i + (j - i)) by lia.
  rewrite <- (take_take_drop (cp_text c) i (j - i)), byte_len_app. lia.
Qed.
Lemma composer_remove_bytes c i :
  string_remove (cp_text c) (byte_at c i) (byte_at c (S i)) =
  Some (take i (cp_text c) ++ drop (S i) (cp_text c)).
Proof.
  unfold string_remove. destruct (Nat.ltb_spec (byte_at c (S i)) (byte_at c i)) as [Hl|_].
  - pose proof (byte_at_mono c i (S i) (Nat.le_succ_diag_r i)). lia.
  - by rewrite byte_take_at, byte_drop_at.
Qed.

(** The cursor is a position of the text. *)
Definition composer_wf (c : Composer) : Prop := cp_cursor c ≤ length (cp_text c).

Lemma home_from_le chars i : home_from chars i ≤ i.
Proof. induction i as [|i IH]; simpl; [done|]. case_bool_decide; lia. Qed.
Lemma end_from_le rest i : end_from rest i ≤ i + length rest.
Proof.
  revert i. induction rest as [|ch rest IH]; intros i; simpl; [lia|].
  case_bool_decide; [lia|]. specialize (IH (S i)). lia.
Qed.

Lemma composer_ops_wf c ch text :
  composer_wf c →
  composer_wf (cp_set_text text c) ∧ composer_wf (cp_clear c) ∧
  composer_wf (cp_insert_char ch c) ∧ composer_wf (cp_backspace c) ∧ composer_wf (cp_delete c) ∧
  composer_wf (cp_left c) ∧ composer_wf (cp_right c) ∧ composer_wf (cp_home c) ∧
  composer_wf (cp_end c).
Proof.
  unfold composer_wf. destruct c as [s n]. simpl. intros Hn. repeat split; simpl; try lia.
  - rewrite length_app, length_take. simpl. rewrite length_drop. lia.
  - unfold cp_backspace. destruct n; simpl; [lia|]. rewrite length_app, length_take, length_drop. lia.
  - unfold cp_delete. simpl. destruct (Nat.leb_spec (length s) n); simpl; [done|].
    rewrite length_app, length_take, length_drop. lia.
  - unfold cp_right. simpl. destruct (Nat.ltb_spec n (length s)); simpl; lia.
  - pose proof (home_from_le s n). lia.
  - pose proof (end_from_le (drop n s) n) as He. rewrite length_drop in He. lia.
Qed.

(** ** Pickers stay within their rows *)

Section picker_wf.
Context `{Unicode} {T : Type} `{!PickerItem T}.

(** The visible rows are the items that match the query, in order, and the
    highlighted row is one of them, if there is any. *)
Record picker_wf (p : Picker T) : Prop := {
  pw_filtered : pk_filtered p =
    fst <$> List.filter (λ '(_, item), matches (to_lowercase (pk_query p)) item)
              (imap pair (pk_items p));
  pw_selected : pk_selected p ≤ length (pk_filtered p) - 1;
}.

Lemma refilter_wf p : picker_wf (refilter p).
Proof.
  split; [done|]. unfold refilter. simpl. set (l := fmap _ _).
  destruct (Nat.leb_spec (length l) (pk_selected p)); lia.
Qed.

Lemma set_selected_wf n p :
  picker_wf p → n ≤ length (pk_filtered p) - 1 → picker_wf (set_selected n p).
Proof. intros [Hf _] Hn. by split. Qed.

Lemma move_up_wf p : picker_wf p → picker_wf (move_up p).
Proof. intros Hw. pose proof (pw_selected p Hw). apply set_selected_wf; [done|lia]. Qed.
Lemma move_down_wf p : picker_wf p → picker_wf (move_down p).
Proof.
  intros Hw. unfold move_down. destruct (Nat.ltb_spec (S (pk_selected p)) (length (pk_filtered p)));
    [|done]. apply set_selected_wf; [done|lia].
Qed.
Lemma move_by_wf delta p : picker_wf p → picker_wf (move_by delta p).
Proof.
  intros Hw. unfold move_by. destruct (Z.eqb_spec (Z.of_nat (length (pk_filtered p))) 0); [done|].
  apply set_selected_wf; [done|lia].
Qed.

Lemma picker_on_key_wf key p : picker_wf p → picker_wf (picker_on_key key p).2.
Proof.
  intros Hw. unfold picker_on_key.
  repeat case_match; simpl; auto using refilter_wf, move_up_wf, move_down_wf, move_by_wf.
Qed.

(** A highlighted row shows an item that matches the query, and there is one
    exactly when some row is visible: the index never leaves the items. *)
Lemma selected_item_spec p :
  picker_wf p →
  match selected_item p with
  | Some item => item ∈ pk_items p ∧ matches (to_lowercase (pk_query p)) item = true
  | None => pk_filtered p = []
  end.
Proof.
  intros [Hf Hs]. unfold selected_item. destruct (pk_filtered p !! pk_selected p) as [i|] eqn:Hi.
  - cbn [mbind option_bind]. rewrite Hf in Hi. apply list_lookup_fmap_Some in Hi as ([j item] & -> & Hi).
    apply list_elem_of_lookup_2, elem_of_list_filter_bool in Hi as [Hin Hm].
    apply list_elem_of_lookup in Hin as [k Hk]. rewrite list_lookup_imap in Hk.
    destruct (pk_items p !! k) as [x|] eqn:Hx; simpl in Hk; simplify_eq. simpl. rewrite Hx.
    split; [by apply list_elem_of_lookup_2 in Hx|done].
  - simpl. apply lookup_ge_None in Hi. destruct (pk_filtered p); simpl in *; [done|lia].
Qed.
End picker_wf.
