(* ===== verification/TuiOverlay.v ===== *)
(** * The panels of the terminal interface ([codel00p-cli/src/tui/overlay.rs], [theme.rs])

    The rows of every picker with their labels, the switchers, editors and
    settings panels with the operations on them, and the overlay that is open. *)

From stdpp Require Import base numbers strings gmap list.
From S2P Require Import Prelude RustStr Json Protocol CloudTypes Harness Curator Recall TuiState.

Definition middle_dot : str := [32%N; 183%N; 32%N].
Definition em_dash : str := [32%N; 8212%N; 32%N].
Definition show_nat (n : nat) : str := show_N (N.of_nat n).

(** The position of an element, [0] when it is not there. *)
Fixpoint position {A} `{EqDecision A} (x : A) (l : list A) : option nat :=
  match l with
  | [] => None
  | y :: l => if bool_decide (y = x) then Some 0 else S <$> position x l
  end.
(** The element after or before the one at [index], wrapping. *)
Definition wrap_index (len index : nat) (forward : bool) : nat :=
  if forward then (index + 1) mod len else (index + len - 1) mod len.

(** ** Models *)

Record ModelChoice := { mc_provider : str; mc_model : str; mc_note : option str }.
#[export] Instance ModelChoice_item : PickerItem ModelChoice := {|
  label m := mc_provider m ++ middle_dot ++ mc_model m;
  detail := mc_note;
|}.
Record ModelPicker := { mpk_picker : Picker ModelChoice; mpk_status : option str }.

Section models.
Context `{Unicode}.
Definition ModelPicker_new (choices : list ModelChoice) (status : option str) : ModelPicker :=
  {| mpk_picker := Picker_new choices; mpk_status := status |}.
Definition set_choices (choices : list ModelChoice) (status : option str) (m : ModelPicker)
    : ModelPicker :=
  {| mpk_picker := set_items choices (mpk_picker m); mpk_status := status |}.
End models.
Definition mpk_set_status (status : str) (m : ModelPicker) : ModelPicker :=
  {| mpk_picker := mpk_picker m; mpk_status := Some status |}.
Definition free_text (m : ModelPicker) : str := pk_query (mpk_picker m).

(** ** Conversations *)

Record SessionSummary := {
  ss_session_id : str; ss_title : option str; ss_description : option str;
  ss_source : str; ss_message_count : nat;
}.
Definition summary_label (s : SessionSummary) : str := default (ss_session_id s) (ss_title s).
Definition summary_detail (s : SessionSummary) : option str :=
  let count := show_nat (ss_message_count s) ++ lit " message(s)" in
  let meta :=
    match ss_title s with
    | Some _ => ss_session_id s ++ middle_dot ++ ss_source s ++ middle_dot ++ count
    | None => ss_source s ++ middle_dot ++ count
    end in
  match ss_description s with
  | Some (_ :: _ as description) => Some (meta ++ em_dash ++ description)
  | _ => Some meta
  end.
#[export] Instance SessionSummary_item : PickerItem SessionSummary :=
  {| label := summary_label; detail := summary_detail |}.

Inductive ConversationRow := NewConversation | SessionRow (summary : SessionSummary).
Definition fullwidth_plus : char := 65291%N.
#[export] Instance ConversationRow_item : PickerItem ConversationRow := {|
  label r := match r with
             | NewConversation => fullwidth_plus :: lit " New conversation"
             | SessionRow s => summary_label s
             end;
  detail r := match r with
              | NewConversation => Some (lit "start a fresh chat")
              | SessionRow s => summary_detail s
              end;
|}.

(** ** Entities of the cloud *)

#[export] Instance Project_item : PickerItem CloudProject :=
  {| label := pj_name; detail := pj_repository_url |}.
#[export] Instance Agent_item : PickerItem Agent :=
  {| label := ag_name; detail a := Some (ag_provider a ++ middle_dot ++ ag_model a) |}.
Definition opt_or_else (a b : option str) : option str :=
  match a with Some x => Some x | None => b end.
Definition mcp_detail (s : McpServer) : option str :=
  let transport := match sv_transport s with McpStdio => lit "stdio" | McpHttp => lit "http" end in
  let target := default [] (opt_or_else (sv_command s) (sv_url s)) in
  let state := if sv_enabled s then lit "enabled" else lit "disabled" in
  Some (transport ++ middle_dot ++ state ++ middle_dot ++ target).
#[export] Instance McpServer_item : PickerItem McpServer := {| label := sv_name; detail := mcp_detail |}.
#[export] Instance MemoryEntry_item : PickerItem MemoryEntry := {|
  label := entry_content;
  detail e := Some (kind_debug (entry_kind e) ++ middle_dot ++ status_debug (entry_status e));
|}.
Definition member_label (m : OrgMember) : str :=
  default (mem_user_id m) (opt_or_else (mem_name m) (mem_email m)).
Definition member_detail (m : OrgMember) : option str :=
  let role := match mem_role m with Admin => lit "admin" | Member => lit "member" end in
  match mem_email m with
  | Some email => if bool_decide (email = member_label m) then Some role
                  else Some (role ++ middle_dot ++ email)
  | None => Some role
  end.
#[export] Instance OrgMember_item : PickerItem OrgMember :=
  {| label := member_label; detail := member_detail |}.
Definition org_detail (o : OrgRef) : option str :=
  match org_slug o with
  | Some slug => Some (org_id o ++ middle_dot ++ slug)
  | None => Some (org_id o)
  end.
#[export] Instance OrgRef_item : PickerItem OrgRef := {| label := org_name; detail := org_detail |}.

Inductive EntityTab := TabProjects | TabAgents | TabMcp | TabMemory | TabUsers | TabOrg.
#[export] Instance EntityTab_eq_dec : EqDecision EntityTab.
Proof. solve_decision. Defined.
Definition TAB_ORDER : list EntityTab := [TabProjects; TabAgents; TabMcp; TabMemory; TabUsers; TabOrg].
Definition tab_title (t : EntityTab) : str :=
  match t with
  | TabProjects => lit "Projects" | TabAgents => lit "Agents" | TabMcp => lit "MCP"
  | TabMemory => lit "Memory" | TabUsers => lit "Users" | TabOrg => lit "Org"
  end.
Definition tab_next (t : EntityTab) : EntityTab :=
  default TabProjects (TAB_ORDER !! wrap_index (length TAB_ORDER)
                                     (default 0 (position t TAB_ORDER)) true).
Definition tab_prev (t : EntityTab) : EntityTab :=
  default TabProjects (TAB_ORDER !! wrap_index (length TAB_ORDER)
                                     (default 0 (position t TAB_ORDER)) false).

Record EntityBrowser := {
  eb_tab : EntityTab; eb_projects : Picker CloudProject; eb_agents : Picker Agent;
  eb_mcp : Picker McpServer; eb_memory : Picker MemoryEntry; eb_users : Picker OrgMember;
  eb_orgs : Picker OrgRef; eb_selected_project : option CloudProject; eb_status : option str;
}.
Definition loading : option str := Some (lit "Loading" ++ [8230%N]).
Definition EntityBrowser_new `{Unicode} (tab : EntityTab) : EntityBrowser :=
  {| eb_tab := tab; eb_projects := Picker_new []; eb_agents := Picker_new [];
     eb_mcp := Picker_new []; eb_memory := Picker_new []; eb_users := Picker_new [];
     eb_orgs := Picker_new []; eb_selected_project := None; eb_status := loading |}.

(** ** Field updates *)

Definition eta_browser (b : EntityBrowser) : EntityBrowser :=
  Build_EntityBrowser (eb_tab b) (eb_projects b) (eb_agents b) (eb_mcp b) (eb_memory b)
    (eb_users b) (eb_orgs b) (eb_selected_project b) (eb_status b).
Definition set_tab : EntityTab → EntityBrowser → EntityBrowser := ltac:(setter eta_browser eb_tab).
Definition set_projects : Picker CloudProject → EntityBrowser → EntityBrowser :=
  ltac:(setter eta_browser eb_projects).
Definition set_agents_list : Picker Agent → EntityBrowser → EntityBrowser :=
  ltac:(setter eta_browser eb_agents).
Definition set_mcp : Picker McpServer → EntityBrowser → EntityBrowser :=
  ltac:(setter eta_browser eb_mcp).
Definition set_memory : Picker MemoryEntry → EntityBrowser → EntityBrowser :=
  ltac:(setter eta_browser eb_memory).
Definition set_users : Picker OrgMember → EntityBrowser → EntityBrowser :=
  ltac:(setter eta_browser eb_users).
Definition set_orgs : Picker OrgRef → EntityBrowser → EntityBrowser :=
  ltac:(setter eta_browser eb_orgs).
Definition set_selected_project : option CloudProject → EntityBrowser → EntityBrowser :=
  ltac:(setter eta_browser eb_selected_project).
Definition set_eb_status : option str → EntityBrowser → EntityBrowser :=
  ltac:(setter eta_browser eb_status).

(** ** The conversations panel *)

Inductive SessionEditField := EditName | EditDescription.
Record SessionEdit := {
  se_session_id : str; se_name : str; se_description : str; se_field : SessionEditField;
}.
Definition toggle_field (e : SessionEdit) : SessionEdit :=
  {| se_session_id := se_session_id e; se_name := se_name e; se_description := se_description e;
     se_field := match se_field e with
                 | EditName => EditDescription | EditDescription => EditName end |}.
(** An edit of the buffer in focus: [f] is a [push] or a [pop]. *)
Definition edit_buffer (f : str → str) (e : SessionEdit) : SessionEdit :=
  match se_field e with
  | EditName =>
      {| se_session_id := se_session_id e; se_name := f (se_name e);
         se_description := se_description e; se_field := se_field e |}
  | EditDescription =>
      {| se_session_id := se_session_id e; se_name := se_name e;
         se_description := f (se_description e); se_field := se_field e |}
  end.
Definition push_char (c : char) (s : str) : str := s ++ [c].
Definition pop_char (s : str) : str := removelast s.

Record SessionDelete := { sd_session_id : str; sd_label : str }.
Record SessionSwitcher := {
  sw_rows : Picker ConversationRow; sw_status : option str; sw_edit : option SessionEdit;
  sw_confirm_delete : option SessionDelete;
}.
Definition eta_switcher (s : SessionSwitcher) : SessionSwitcher :=
  Build_SessionSwitcher (sw_rows s) (sw_status s) (sw_edit s) (sw_confirm_delete s).
Definition set_sw_rows : Picker ConversationRow → SessionSwitcher → SessionSwitcher :=
  ltac:(setter eta_switcher sw_rows).
Definition set_sw_status : option str → SessionSwitcher → SessionSwitcher :=
  ltac:(setter eta_switcher sw_status).
Definition set_sw_edit : option SessionEdit → SessionSwitcher → SessionSwitcher :=
  ltac:(setter eta_switcher sw_edit).
Definition set_sw_confirm : option SessionDelete → SessionSwitcher → SessionSwitcher :=
  ltac:(setter eta_switcher sw_confirm_delete).

Section sessions.
Context `{Unicode}.
Definition SessionSwitcher_new : SessionSwitcher :=
  {| sw_rows := Picker_new [NewConversation]; sw_status := loading; sw_edit := None;
     sw_confirm_delete := None |}.
Definition set_sessions (sessions : list SessionSummary) (status : option str)
    (s : SessionSwitcher) : SessionSwitcher :=
  set_sw_status status (set_sw_rows (set_items (NewConversation :: (SessionRow <$> sessions))
                                       (sw_rows s)) s).
End sessions.
Definition selected_session (s : SessionSwitcher) : option SessionSummary :=
  match selected_item (sw_rows s) with Some (SessionRow summary) => Some summary | _ => None end.
Definition begin_edit (s : SessionSwitcher) : SessionSwitcher :=
  match selected_session s with
  | Some session =>
      set_sw_edit (Some {| se_session_id := ss_session_id session;
                           se_name := default (ss_session_id session) (ss_title session);
                           se_description := default [] (ss_description session);
                           se_field := EditName |}) s
  | None => s
  end.
Definition begin_delete (s : SessionSwitcher) : SessionSwitcher :=
  match selected_session s with
  | Some session =>
      set_sw_confirm (Some {| sd_session_id := ss_session_id session;
                              sd_label := default (ss_session_id session) (ss_title session) |}) s
  | None => s
  end.

(** ** The agents panel *)

Record AgentChoice := { ac_name : str; ac_description : option str; ac_active : bool }.
Definition choice_label (a : AgentChoice) : str :=
  if ac_active a then ac_name a ++ [32%N; 10003%N] else ac_name a.
Definition choice_detail (a : AgentChoice) : option str :=
  match ac_description a, ac_active a with
  | Some description, true => Some (lit "active" ++ middle_dot ++ description)
  | Some description, false => Some description
  | None, true => Some (lit "active")
  | None, false => None
  end.
Inductive AgentRow := NewAgentRow | LocalAgent (choice : AgentChoice).
#[export] Instance AgentRow_item : PickerItem AgentRow := {|
  label r := match r with
             | NewAgentRow => fullwidth_plus :: lit " New agent"
             | LocalAgent choice => choice_label choice
             end;
  detail r := match r with
              | NewAgentRow => Some (lit "define a new local agent")
              | LocalAgent choice => choice_detail choice
              end;
|}.
Record AgentSwitcher := {
  as_rows : Picker AgentRow; as_status : option str; as_confirm_delete : option str;
}.
Definition set_as_status (status : option str) (s : AgentSwitcher) : AgentSwitcher :=
  {| as_rows := as_rows s; as_status := status; as_confirm_delete := as_confirm_delete s |}.
Definition set_as_rows (rows : Picker AgentRow) (s : AgentSwitcher) : AgentSwitcher :=
  {| as_rows := rows; as_status := as_status s; as_confirm_delete := as_confirm_delete s |}.
Definition set_as_confirm (name : option str) (s : AgentSwitcher) : AgentSwitcher :=
  {| as_rows := as_rows s; as_status := as_status s; as_confirm_delete := name |}.

Section agents.
Context `{Unicode}.
Definition AgentSwitcher_new : AgentSwitcher :=
  {| as_rows := Picker_new [NewAgentRow]; as_status := loading; as_confirm_delete := None |}.
Definition set_agents (agents : list AgentChoice) (status : option str) (s : AgentSwitcher)
    : AgentSwitcher :=
  set_as_status status (set_as_rows (set_items (NewAgentRow :: (LocalAgent <$> agents))
                                       (as_rows s)) s).
End agents.
Definition selected_agent (s : AgentSwitcher) : option AgentChoice :=
  match selected_item (as_rows s) with Some (LocalAgent choice) => Some choice | _ => None end.
Definition agent_begin_delete (default_label : str) (s : AgentSwitcher) : AgentSwitcher :=
  match selected_agent s with
  | Some agent =>
      if ac_active agent || bool_decide (ac_name agent = default_label) then s
      else set_as_confirm (Some (ac_name agent)) s
  | None => s
  end.

Inductive AgentField := FDescription | FProvider | FModel | FDispatch | FPersona.
#[export] Instance AgentField_eq_dec : EqDecision AgentField.
Proof. solve_decision. Defined.
Record AgentDetailData := {
  dd_description : str; dd_provider : str; dd_model : str; dd_dispatch : str; dd_persona : str;
  dd_memory_note : str;
}.
Record AgentDetail := {
  ad_name : str; ad_is_default : bool; ad_description : str; ad_provider : str; ad_model : str;
  ad_dispatch : str; ad_persona : str; ad_memory_note : str; ad_field : AgentField;
  ad_loaded : bool; ad_status : option str;
}.
Definition eta_detail (d : AgentDetail) : AgentDetail :=
  Build_AgentDetail (ad_name d) (ad_is_default d) (ad_description d) (ad_provider d) (ad_model d)
    (ad_dispatch d) (ad_persona d) (ad_memory_note d) (ad_field d) (ad_loaded d) (ad_status d).
Definition set_ad_description : str → AgentDetail → AgentDetail := ltac:(setter eta_detail ad_description).
Definition set_ad_provider : str → AgentDetail → AgentDetail := ltac:(setter eta_detail ad_provider).
Definition set_ad_model : str → AgentDetail → AgentDetail := ltac:(setter eta_detail ad_model).
Definition set_ad_dispatch : str → AgentDetail → AgentDetail := ltac:(setter eta_detail ad_dispatch).
Definition set_ad_persona : str → AgentDetail → AgentDetail := ltac:(setter eta_detail ad_persona).
Definition set_ad_field : AgentField → AgentDetail → AgentDetail := ltac:(setter eta_detail ad_field).
Definition set_ad_status : option str → AgentDetail → AgentDetail := ltac:(setter eta_detail ad_status).

Definition detail_loading (name : str) (is_default : bool) : AgentDetail :=
  {| ad_name := name; ad_is_default := is_default; ad_description := []; ad_provider := [];
     ad_model := []; ad_dispatch := []; ad_persona := []; ad_memory_note := [];
     ad_field := if is_default then FProvider else FDescription; ad_loaded := false;
     ad_status := loading |}.
Definition detail_apply (data : AgentDetailData) (d : AgentDetail) : AgentDetail :=
  {| ad_name := ad_name d; ad_is_default := ad_is_default d;
     ad_description := dd_description data; ad_provider := dd_provider data;
     ad_model := dd_model data; ad_dispatch := dd_dispatch data; ad_persona := dd_persona data;
     ad_memory_note := dd_memory_note data; ad_field := ad_field d; ad_loaded := true;
     ad_status := None |}.
Definition detail_fields (d : AgentDetail) : list AgentField :=
  (if ad_is_default d then [] else [FDescription]) ++ [FProvider; FModel; FDispatch; FPersona].
Definition move_field (forward : bool) (d : AgentDetail) : AgentDetail :=
  let fields := detail_fields d in
  let current := default 0 (position (ad_field d) fields) in
  set_ad_field (default (ad_field d) (fields !! wrap_index (length fields) current forward)) d.
Definition detail_edit_buffer (f : str → str) (d : AgentDetail) : AgentDetail :=
  match ad_field d with
  | FDescription => set_ad_description (f (ad_description d)) d
  | FProvider => set_ad_provider (f (ad_provider d)) d
  | FModel => set_ad_model (f (ad_model d)) d
  | FDispatch => set_ad_dispatch (f (ad_dispatch d)) d
  | FPersona => set_ad_persona (f (ad_persona d)) d
  end.

Inductive AgentCreateField := CreateName | CreateDescription.
Record AgentCreateForm := {
  fm_name : str; fm_description : str; fm_field : AgentCreateField; fm_error : option str;
}.
Definition AgentCreateForm_new : AgentCreateForm :=
  {| fm_name := []; fm_description := []; fm_field := CreateName; fm_error := None |}.
Definition form_edit (f : str → str) (m : AgentCreateForm) : AgentCreateForm :=
  match fm_field m with
  | CreateName => {| fm_name := f (fm_name m); fm_description := fm_description m;
                     fm_field := fm_field m; fm_error := None |}
  | CreateDescription => {| fm_name := fm_name m; fm_description := f (fm_description m);
                            fm_field := fm_field m; fm_error := None |}
  end.
Definition form_push (c : char) : AgentCreateForm → AgentCreateForm := form_edit (push_char c).
Definition form_backspace : AgentCreateForm → AgentCreateForm := form_edit pop_char.
Definition focus_next (m : AgentCreateForm) : AgentCreateForm :=
  {| fm_name := fm_name m; fm_description := fm_description m;
     fm_field := match fm_field m with
                 | CreateName => CreateDescription | CreateDescription => CreateName end;
     fm_error := fm_error m |}.
Definition form_error (error : str) (m : AgentCreateForm) : AgentCreateForm :=
  {| fm_name := fm_name m; fm_description := fm_description m; fm_field := fm_field m;
     fm_error := Some error |}.

(** ** The menu *)

Inductive MenuSection := MenuAgent | MenuConversations | MenuOrganization | MenuSettings.
Definition MENU_ORDER : list MenuSection :=
  [MenuAgent; MenuConversations; MenuOrganization; MenuSettings].
Definition section_label (s : MenuSection) : str :=
  match s with
  | MenuAgent => lit "Agent" | MenuConversations => lit "Conversations"
  | MenuOrganization => lit "Organization" | MenuSettings => lit "Settings"
  end.
Definition dotted (parts : list str) : str := join middle_dot parts.
Definition section_hint (s : MenuSection) : str :=
  match s with
  | MenuAgent => dotted [lit "switch"; lit "create"; lit "edit the active agent"]
  | MenuConversations => dotted [lit "new"; lit "resume"; lit "rename"; lit "delete chats"]
  | MenuOrganization => dotted [lit "switch org"; lit "projects"; lit "members"; lit "data"]
  | MenuSettings => dotted [lit "behavior"; lit "display"; lit "profiles"; lit "providers"]
  end.
#[export] Instance MenuSection_item : PickerItem MenuSection :=
  {| label := section_label; detail s := Some (section_hint s) |}.
Record MainMenu := { mm_picker : Picker MenuSection }.
Definition MainMenu_new `{Unicode} : MainMenu := {| mm_picker := Picker_new MENU_ORDER |}.

(** ** Settings *)

Inductive SettingsPref := ShowAdvanced | CheckUpdatesPref.
Inductive SettingsRow :=
| RowPref (pref : SettingsPref)
| RowPermissionMode | RowProfile | RowTheme | RowApiKey | RowAccount | RowAdvanced.
Definition SETTINGS_ORDER : list SettingsRow :=
  [RowPref ShowAdvanced; RowPref CheckUpdatesPref; RowPermissionMode; RowProfile; RowTheme;
   RowApiKey; RowAccount; RowAdvanced].
Definition pref_label (p : SettingsPref) : str :=
  match p with
  | ShowAdvanced => lit "Show advanced info"
  | CheckUpdatesPref => lit "Check for updates on start"
  end.
Definition settings_label (r : SettingsRow) : str :=
  match r with
  | RowPref pref => pref_label pref
  | RowPermissionMode => lit "Tool approvals" | RowProfile => lit "Agent profile"
  | RowTheme => lit "Theme" | RowApiKey => lit "Provider API key" | RowAccount => lit "Account"
  | RowAdvanced => lit "Advanced" ++ [8230%N]
  end.

Record SettingsOverlay := { so_selected : nat; so_api_key_entry : option str }.
Definition SettingsOverlay_new : SettingsOverlay :=
  {| so_selected := 0; so_api_key_entry := None |}.
Definition set_api_key (entry : option str) (s : SettingsOverlay) : SettingsOverlay :=
  {| so_selected := so_selected s; so_api_key_entry := entry |}.
Definition row_up (len selected : nat) : nat :=
  if selected =? 0 then len - 1 else selected - 1.
Definition row_down (len selected : nat) : nat := (selected + 1) mod Nat.max len 1.
Definition settings_up (s : SettingsOverlay) : SettingsOverlay :=
  {| so_selected := row_up (length SETTINGS_ORDER) (so_selected s);
     so_api_key_entry := so_api_key_entry s |}.
Definition settings_down (s : SettingsOverlay) : SettingsOverlay :=
  {| so_selected := row_down (length SETTINGS_ORDER) (so_selected s);
     so_api_key_entry := so_api_key_entry s |}.
Definition settings_current (s : SettingsOverlay) : SettingsRow :=
  default RowAdvanced (SETTINGS_ORDER !! Nat.min (so_selected s) (length SETTINGS_ORDER - 1)).

Inductive AdvancedPref :=
| MaxIterations | VerifyIterations | FailureBudget | SelfKnowledge | SelfState | BasePrompt | AutoPlan.
Inductive AdvancedKind := KindNumber (step min max : N) | KindBool.
Definition ADVANCED_ORDER : list AdvancedPref :=
  [MaxIterations; VerifyIterations; FailureBudget; SelfKnowledge; SelfState; BasePrompt; AutoPlan].
Definition advanced_label (p : AdvancedPref) : str :=
  match p with
  | MaxIterations => lit "Max iterations" | VerifyIterations => lit "Verify iterations"
  | FailureBudget => lit "Failure budget" | SelfKnowledge => lit "Self-knowledge"
  | SelfState => lit "Self run-state" | BasePrompt => lit "Base operating prompt"
  | AutoPlan => lit "Auto-plan guidance"
  end.
Definition config_key (p : AdvancedPref) : str :=
  match p with
  | MaxIterations => lit "agent.max_iterations"
  | VerifyIterations => lit "agent.behavior.verify_iterations"
  | FailureBudget => lit "agent.behavior.failure_budget"
  | SelfKnowledge => lit "agent.behavior.self_knowledge"
  | SelfState => lit "agent.behavior.self_state"
  | BasePrompt => lit "agent.behavior.base_prompt"
  | AutoPlan => lit "agent.behavior.auto_plan"
  end.
Definition advanced_kind (p : AdvancedPref) : AdvancedKind :=
  match p with
  | MaxIterations => KindNumber 1 1 200
  | VerifyIterations => KindNumber 1 1 20
  | FailureBudget => KindNumber 1 0 20
  | SelfKnowledge | SelfState | BasePrompt | AutoPlan => KindBool
  end.
Record AdvancedSettingsOverlay := { ao_selected : nat }.
Definition AdvancedSettingsOverlay_new : AdvancedSettingsOverlay := {| ao_selected := 0 |}.
Definition advanced_up (a : AdvancedSettingsOverlay) : AdvancedSettingsOverlay :=
  {| ao_selected := row_up (length ADVANCED_ORDER) (ao_selected a) |}.
Definition advanced_down (a : AdvancedSettingsOverlay) : AdvancedSettingsOverlay :=
  {| ao_selected := row_down (length ADVANCED_ORDER) (ao_selected a) |}.
Definition advanced_current (a : AdvancedSettingsOverlay) : AdvancedPref :=
  default AutoPlan (ADVANCED_ORDER !! Nat.min (ao_selected a) (length ADVANCED_ORDER - 1)).

Record UpdatePrompt := { up_current : str; up_latest : str }.

(** ** Themes ([theme.rs]) *)

Inductive ThemeKind := Dark | Light | HighContrast | Solarized.
#[export] Instance ThemeKind_eq_dec : EqDecision ThemeKind.
Proof. solve_decision. Defined.
Definition THEME_ORDER : list ThemeKind := [Dark; Light; HighContrast; Solarized].
Definition theme_name (t : ThemeKind) : str :=
  match t with
  | Dark => lit "dark" | Light => lit "light" | HighContrast => lit "high-contrast"
  | Solarized => lit "solarized"
  end.
Definition theme_label (t : ThemeKind) : str :=
  match t with
  | Dark => lit "Dark" | Light => lit "Light" | HighContrast => lit "High contrast"
  | Solarized => lit "Solarized"
  end.
Definition theme_from_name (name : str) : ThemeKind :=
  default Dark (List.find (λ kind, bool_decide (theme_name kind = to_ascii_lowercase (trim name)))
                  THEME_ORDER).
Definition theme_cycle (t : ThemeKind) (forward : bool) : ThemeKind :=
  default Dark (THEME_ORDER !! wrap_index (length THEME_ORDER)
                                 (default 0 (position t THEME_ORDER)) forward).

(** ** The overlay *)

Inductive Overlay :=
| ONone
| OHelp
| OPermission (request : PermissionRequest)
| OModel (picker : ModelPicker)
| OSessions (switcher : SessionSwitcher)
| OEntities (browser : EntityBrowser)
| OMenu (menu : MainMenu)
| OSettings (settings : SettingsOverlay)
| OAdvancedSettings (advanced : AdvancedSettingsOverlay)
| OUpdatePrompt (prompt : UpdatePrompt)
| OAgentSwitcher (switcher : AgentSwitcher)
| OAgentCreate (form : AgentCreateForm)
| OAgentDetail (detail : AgentDetail).
Definition is_open (o : Overlay) : bool := match o with ONone => false | _ => true end.

(** Round trips of the cyclers: every theme is written and read back, and
    stepping forward and back returns. *)
Lemma theme_name_roundtrip t : theme_from_name (theme_name t) = t.
Proof. by destruct t. Qed.
Lemma theme_cycle_back t b : theme_cycle (theme_cycle t b) (negb b) = t.
Proof. by destruct t, b. Qed.
Lemma tab_next_prev t : tab_prev (tab_next t) = t ∧ tab_next (tab_prev t) = t.
Proof. by destruct t. Qed.
