(* ===== verification/TuiUpdate.v ===== *)
(** * The update loop of the terminal interface ([codel00p-cli/src/tui]: update.rs, update/, app.rs, msg.rs)

    [update] takes the application and a message and gives the new application
    and the effects the event loop is to carry out.  What it asks of the rest of
    the program on the way (writing a setting, creating an agent, the clock, the
    version) is the environment of the step.  A reply channel is its identity. *)

From stdpp Require Import base numbers strings gmap list.
From S2P Require Import Prelude RustStr Json Protocol CloudTypes Harness Curator Recall Turn CliSession TuiState TuiOverlay.

(** ** The application ([app.rs]) *)

(** Offsets and rows are [u16]. *)
Definition u16_max : N := 65535.
Record ScrollState := { offset_from_bottom : N; follow : bool }.
Definition ScrollState_default : ScrollState := {| offset_from_bottom := 0; follow := true |}.
Record TurnStatus := {
  ts_running : bool; ts_current_tool : option str; ts_iterations : N;
  ts_finish_reason : option str; ts_started_tick : N;
}.
Definition TurnStatus_default : TurnStatus :=
  {| ts_running := false; ts_current_tool := None; ts_iterations := 0; ts_finish_reason := None;
     ts_started_tick := 0 |}.
Record SessionUsage := { su_estimated_tokens : N; su_messages : nat }.
Record CloudState := {
  cl_viewer : option Viewer; cl_error : option str; cl_configured : bool;
}.
(** The options the interface reads and sets; a tool set is its [{:?}] form. *)
Record RunOptions := { ro_provider : str; ro_model : str; ro_tool_sets : list str }.
Definition Reply : Type := nat.

Record App := {
  options : RunOptions;
  session_state : SessionState;
  persisted_message_count : nat;
  conversation : Conversation;
  composer : Composer;
  scroll : ScrollState;
  viewport_rows : N;
  overlay : Overlay;
  pending_permission : option Reply;
  turn : TurnStatus;
  usage : SessionUsage;
  last_usage : option TokenUsage;
  last_cost : option CostEstimate;
  verification : option str;
  cloud : CloudState;
  theme : ThemeKind;
  show_advanced : bool;
  check_updates : bool;
  self_knowledge : bool;
  self_state : bool;
  base_prompt : bool;
  auto_plan : bool;
  max_iterations : N;
  verify_iterations : N;
  failure_budget : N;
  active_profile : option str;
  profile_names : list str;
  permission_mode : option str;
  active_agent : option str;
  should_quit : bool;
  tick : N;
  update_available : option str;
  update_prompt_dismissed : bool;
  run_update_on_exit : bool;
}.
Definition eta_app (a : App) : App :=
  Build_App (options a) (session_state a) (persisted_message_count a) (conversation a)
    (composer a) (scroll a) (viewport_rows a) (overlay a) (pending_permission a) (turn a)
    (usage a) (last_usage a) (last_cost a) (verification a) (cloud a) (theme a)
    (show_advanced a) (check_updates a) (self_knowledge a) (self_state a) (base_prompt a)
    (auto_plan a) (max_iterations a) (verify_iterations a) (failure_budget a) (active_profile a)
    (profile_names a) (permission_mode a) (active_agent a) (should_quit a) (tick a)
    (update_available a)
    (update_prompt_dismissed a) (run_update_on_exit a).

Definition set_options : RunOptions → App → App := ltac:(setter eta_app options).
Definition set_session_state : SessionState → App → App := ltac:(setter eta_app session_state).
Definition set_persisted : nat → App → App := ltac:(setter eta_app persisted_message_count).
Definition set_conversation : Conversation → App → App := ltac:(setter eta_app conversation).
Definition set_composer : Composer → App → App := ltac:(setter eta_app composer).
Definition set_scroll : ScrollState → App → App := ltac:(setter eta_app scroll).
Definition set_overlay : Overlay → App → App := ltac:(setter eta_app overlay).
Definition set_pending : option Reply → App → App := ltac:(setter eta_app pending_permission).
Definition set_turn : TurnStatus → App → App := ltac:(setter eta_app turn).
Definition set_usage : SessionUsage → App → App := ltac:(setter eta_app usage).
Definition set_last_usage : option TokenUsage → App → App := ltac:(setter eta_app last_usage).
Definition set_last_cost : option CostEstimate → App → App := ltac:(setter eta_app last_cost).
Definition set_verification : option str → App → App := ltac:(setter eta_app verification).
Definition set_cloud : CloudState → App → App := ltac:(setter eta_app cloud).
Definition set_theme : ThemeKind → App → App := ltac:(setter eta_app theme).
Definition set_show_advanced : bool → App → App := ltac:(setter eta_app show_advanced).
Definition set_check_updates : bool → App → App := ltac:(setter eta_app check_updates).
Definition set_self_knowledge : bool → App → App := ltac:(setter eta_app self_knowledge).
Definition set_self_state : bool → App → App := ltac:(setter eta_app self_state).
Definition set_base_prompt : bool → App → App := ltac:(setter eta_app base_prompt).
Definition set_auto_plan : bool → App → App := ltac:(setter eta_app auto_plan).
Definition set_max_iterations : N → App → App := ltac:(setter eta_app max_iterations).
Definition set_verify_iterations : N → App → App := ltac:(setter eta_app verify_iterations).
Definition set_failure_budget : N → App → App := ltac:(setter eta_app failure_budget).
Definition set_active_profile : option str → App → App := ltac:(setter eta_app active_profile).
Definition set_permission_mode : option str → App → App := ltac:(setter eta_app permission_mode).
Definition set_active_agent : option str → App → App := ltac:(setter eta_app active_agent).
Definition set_should_quit : bool → App → App := ltac:(setter eta_app should_quit).
Definition set_tick : N → App → App := ltac:(setter eta_app tick).
Definition set_update_available : option str → App → App := ltac:(setter eta_app update_available).
Definition set_dismissed : bool → App → App := ltac:(setter eta_app update_prompt_dismissed).
Definition set_run_update : bool → App → App := ltac:(setter eta_app run_update_on_exit).

(** What [App::new] is given: the settings, and the version of the update cache. *)
Record Startup := {
  st_options : RunOptions; st_session : SessionState; st_persisted : nat;
  st_cloud_configured : bool; st_show_advanced : bool; st_check_updates : bool;
  st_self_knowledge : bool; st_self_state : bool; st_base_prompt : bool; st_auto_plan : bool;
  st_max_iterations : N; st_verify_iterations : N; st_failure_budget : N;
  st_active_profile : option str; st_profile_names : list str; st_active_agent : option str;
  st_cached_version : option str;
}.
Definition App_new (s : Startup) : App :=
  {| options := st_options s; session_state := st_session s;
     persisted_message_count := st_persisted s; conversation := Conversation_default;
     composer := Composer_default; scroll := ScrollState_default; viewport_rows := 0;
     overlay := ONone; pending_permission := None; turn := TurnStatus_default;
     usage := {| su_estimated_tokens := 0; su_messages := 0 |}; last_usage := None;
     last_cost := None; verification := None;
     cloud := {| cl_viewer := None; cl_error := None; cl_configured := st_cloud_configured s |};
     theme := Dark; show_advanced := st_show_advanced s; check_updates := st_check_updates s;
     self_knowledge := st_self_knowledge s; self_state := st_self_state s;
     base_prompt := st_base_prompt s; auto_plan := st_auto_plan s;
     max_iterations := st_max_iterations s; verify_iterations := st_verify_iterations s;
     failure_budget := st_failure_budget s; active_profile := st_active_profile s;
     profile_names := st_profile_names s; permission_mode := None;
     active_agent := st_active_agent s; should_quit := false; tick := 0;
     update_available := st_cached_version s; update_prompt_dismissed := false;
     run_update_on_exit := false |}.

Definition notice (text : str) (a : App) : App :=
  set_conversation (push_notice text (conversation a)) a.
Definition error_block (text : str) (a : App) : App :=
  set_conversation (push_error text (conversation a)) a.

Definition session_label (a : App) : str := Harness.session_id (session_state a).
Definition refresh_usage (a : App) : App :=
  let messages := Harness.messages (session_state a) in
  let chars := list_sum (byte_len ∘ msg_content <$> messages) in
  set_usage {| su_estimated_tokens := (N.of_nat chars + 3) / 4; su_messages := length messages |} a.

Definition MODEL_CATALOG : list (str * str) :=
  [(lit "anthropic", lit "claude-opus-4-8"); (lit "anthropic", lit "claude-sonnet-4-6");
   (lit "anthropic", lit "claude-haiku-4-5"); (lit "openai", lit "gpt-4o");
   (lit "openai", lit "gpt-4o-mini"); (lit "openai", lit "o3");
   (lit "gemini", lit "gemini-2.0-flash"); (lit "gemini", lit "gemini-1.5-pro");
   (lit "openrouter", lit "anthropic/claude-opus-4-8"); (lit "openrouter", lit "openai/gpt-4o")].
Definition model_choices (a : App) : list ModelChoice :=
  {| mc_provider := ro_provider (options a); mc_model := ro_model (options a);
     mc_note := Some (lit "current") |} ::
  omap (λ '(provider, model),
      if bool_decide (provider = ro_provider (options a) ∧ model = ro_model (options a)) then None
      else Some {| mc_provider := provider; mc_model := model; mc_note := None |})
    MODEL_CATALOG.

(** ** Messages and effects ([msg.rs]) *)

Inductive CloudFetch :=
| FetchViewer | FetchOrgs | FetchProjects | FetchAgents (project : str) | FetchMcp (project : str)
| FetchMemory (project : str) | FetchUsers.
Inductive LocalQuery := QuerySessions | QueryMemory.

Inductive Msg :=
| MKey (key : KeyEvent)
| MResize
| MTick
| MScroll (delta : Z)
| MToken (token : str)
| MEvent (event : AgentEvent)
| MTurnFinished (r : result str TurnOutcome)
| MPermissionAsked (request : PermissionRequest) (reply : Reply)
| MNotice (text : str)
| MCloudViewer (r : result str Viewer)
| MCloudOrgs (r : result str (list OrgRef))
| MCloudProjects (r : result str (list CloudProject))
| MCloudAgents (r : result str (list Agent))
| MCloudMcp (r : result str (list McpServer))
| MCloudMemory (r : result str (list MemoryEntry))
| MCloudUsers (r : result str (list OrgMember))
| MModels (r : result str (list ModelChoice))
| MSessionList (r : result str (list SessionSummary))
| MAgentList (r : result str (list AgentChoice))
| MAgentDetailLoaded (r : result str AgentDetailData)
| MSessionResumed (r : result str (SessionState * nat))
| MUpdateAvailable (version : str)
| MCheckUpdates.

Inductive Effect :=
| SubmitTurn (prompt : str)
| ResolvePermission (reply : Reply) (decision : PermissionDecision)
| Persist (outcome : TurnOutcome) (start : nat)
| Cloud (fetch : CloudFetch)
| SwitchOrg (org : str)
| OpenUrl (url : str)
| SetProviderKey (provider key : str)
| Local (query : LocalQuery)
| FetchModels (provider : str)
| ListSessions
| ListAgents
| SwitchAgent (name : str)
| DeleteAgent (name : str)
| LoadAgentDetail (name : str) (is_default : bool)
| SaveAgentDetail (name : str) (is_default : bool)
    (description provider model dispatch persona : str)
| ResumeSession (session_id : SessionId)
| EditSession (session_id : SessionId) (title description : str)
| DeleteSession (session_id : SessionId)
| CheckUpdates
| Quit.

(** What a step asks of the rest of the program: writing a setting, creating an
    agent, the clock, the version, and for the effects done in place the switch of
    the configuration (the agent it leaves active), the session store and the
    login. *)
Record Env := {
  env_set_value : str → str → result str unit;
  env_create_agent : str → option str → result str unit;
  env_chat_stamp : N;
  env_current_version : str;
  env_switch_config : str → result str (option str);
  env_persist : TurnOutcome → nat → result str unit;
  env_login : str → result str str;
}.

Definition step : Type := list Effect * App.
Definition stay (a : App) : step := ([], a).

(** The derived deserialiser of a transparent newtype over [String] accepts every
    string. *)
Definition parse_session_id (value : str) : result str SessionId := Ok value.
Definition fresh_chat_session_id (env : Env) : str := lit "chat-" ++ show_N (env_chat_stamp env).

(** ** Transcript scrolling and submission ([update/input.rs]) *)

Definition page_step (a : App) : N := N.max (viewport_rows a - 1) 1.
Definition scroll_up (rows : N) (a : App) : App :=
  set_scroll {| offset_from_bottom := N.min (offset_from_bottom (scroll a) + rows) u16_max;
                follow := false |} a.
Definition scroll_down (rows : N) (a : App) : App :=
  let offset := (offset_from_bottom (scroll a) - rows)%N in
  set_scroll {| offset_from_bottom := offset;
                follow := if (offset =? 0)%N then true else follow (scroll a) |} a.

Definition submit_turn (prompt : str) (a : App) : step :=
  if ts_running (turn a) then
    stay (notice (lit "A turn is already running" ++ em_dash ++ lit "wait for it to finish.") a)
  else
    let a := set_conversation (conv_push_user prompt (conversation a)) a in
    let a := set_scroll ScrollState_default a in
    let a := set_turn {| ts_running := true; ts_current_tool := None; ts_iterations := 0;
                         ts_finish_reason := None; ts_started_tick := tick a |} a in
    ([SubmitTurn prompt], a).

(** ** Opening panels *)

Definition DEFAULT_AGENT_LABEL : str := lit "default".
Definition ellipsis_text : str := [8230%N].
Definition open_quote : str := [8220%N].
Definition close_quote : str := [8221%N].

Section update.
Context `{Unicode}.

Definition open_menu (a : App) : step := stay (set_overlay (OMenu MainMenu_new) a).
Definition open_settings (a : App) : step := stay (set_overlay (OSettings SettingsOverlay_new) a).
Definition open_sessions (a : App) : step :=
  ([ListSessions], set_overlay (OSessions SessionSwitcher_new) a).
Definition open_entities (tab : EntityTab) (a : App) : step :=
  if negb (cl_configured (cloud a)) then
    stay (notice (lit "Cloud not configured" ++ em_dash ++
                  lit "run `codel00p auth login` to browse org entities.") a)
  else ([Cloud FetchViewer; Cloud FetchOrgs; Cloud FetchProjects; Cloud FetchUsers],
        set_overlay (OEntities (EntityBrowser_new tab)) a).
Definition cannot_switch : str :=
  lit "Can't switch agents while a turn is running" ++ em_dash ++ lit "wait for it to finish.".
Definition open_agent_switcher (a : App) : step :=
  if ts_running (turn a) then stay (notice cannot_switch a)
  else ([ListAgents], set_overlay (OAgentSwitcher AgentSwitcher_new) a).
Definition open_agent_creator (a : App) : step :=
  stay (set_overlay (OAgentCreate AgentCreateForm_new) a).
Definition open_model_picker (a : App) : step :=
  let choices := model_choices a in
  ([FetchModels (ro_provider (options a))],
   set_overlay (OModel (ModelPicker_new choices (Some (lit "Loading models" ++ ellipsis_text)))) a).
Definition open_section (section : MenuSection) (a : App) : step :=
  match section with
  | MenuAgent => open_agent_switcher a
  | MenuConversations => open_sessions a
  | MenuOrganization => open_entities TabOrg a
  | MenuSettings => open_settings a
  end.

Definition set_model (provider model : str) (a : App) : App :=
  set_options {| ro_provider := provider; ro_model := model;
                 ro_tool_sets := ro_tool_sets (options a) |} a.
Definition apply_model (provider model : str) (a : App) : App :=
  notice (lit "Model set to " ++ provider ++ middle_dot ++ model ++
          lit " (applies to the next turn).") (set_model provider model a).

(** ** Slash commands ([update/commands.rs]) *)

(** [{:?}] of a list. *)
Definition debug_list (items : list str) : str := lit "[" ++ join (lit ", ") items ++ lit "]".

Definition start_new (env : Env) (a : App) : App :=
  let id := match parse_session_id (fresh_chat_session_id env) with Ok id => id | Err _ => [] end in
  let a := set_session_state (SessionState_new id) a in
  let a := set_persisted 0 a in
  let a := set_conversation Conversation_default a in
  let a := set_scroll ScrollState_default a in
  notice (lit "Started a new conversation (" ++ session_label a ++ lit ").") a.

Definition slash_is (name : str) (words : list string) : bool :=
  bool_decide (name ∈ (lit <$> words)).
Definition handle_slash (env : Env) (command : str) (a : App) : step :=
  let name := default [] (head (split_whitespace command)) in
  if slash_is name ["model"] then open_model_picker a
  else if slash_is name ["agent"; "switch-agent"] then open_agent_switcher a
  else if slash_is name ["new-agent"; "create-agent"] then open_agent_creator a
  else if slash_is name ["agents"] then open_entities TabAgents a
  else if slash_is name ["org"] then open_entities TabOrg a
  else if slash_is name ["entities"; "projects"] then open_entities TabProjects a
  else if slash_is name ["help"; "?"] then stay (set_overlay OHelp a)
  else if slash_is name ["switch"] then open_sessions a
  else if slash_is name ["sessions"] then ([Local QuerySessions], a)
  else if slash_is name ["memory"] then ([Local QueryMemory], a)
  else if slash_is name ["history"] then
    stay (notice (trim_end (chat_history_listing (session_state a))) a)
  else if slash_is name ["tools"] then
    stay (notice (lit "Tool sets enabled: " ++
            (if is_empty (ro_tool_sets (options a)) then lit "(none)"
             else debug_list (ro_tool_sets (options a)))) a)
  else if slash_is name ["reset"; "clear"] then stay (start_new env a)
  else if slash_is name ["quit"; "exit"] then ([Quit], a)
  else stay (notice (lit "Unknown command: /" ++ name ++ lit ". Press F1 for help.") a).

(** ** The composer's keys ([update/input.rs]) *)

Definition on_composer (f : Composer → Composer) (a : App) : step :=
  stay (set_composer (f (composer a)) a).
Definition submit_line (env : Env) (line : str) (a : App) : step :=
  if is_empty line then stay a
  else match strip_prefix (lit "/") line with
       | Some command => handle_slash env command a
       | None => submit_turn line a
       end.
Definition handle_input_key (env : Env) (key : KeyEvent) (a : App) : step :=
  match code key with
  | KF 1 => stay (set_overlay OHelp a)
  | KF 2 => open_model_picker a
  | KF 3 => open_entities TabProjects a
  | KF 4 => open_entities TabOrg a
  | KF 5 => open_sessions a
  | KPageUp => stay (scroll_up (page_step a) a)
  | KPageDown => stay (scroll_down (page_step a) a)
  | KEnter =>
      if alt key || shift key then on_composer cp_insert_newline a
      else
        let '(line, emptied) := cp_take (composer a) in
        submit_line env line (set_composer emptied a)
  | KBackspace => on_composer cp_backspace a
  | KDelete => on_composer cp_delete a
  | KLeft => on_composer cp_left a
  | KRight => on_composer cp_right a
  | KHome => on_composer cp_home a
  | KEnd => on_composer cp_end a
  | KEsc => if cp_is_empty (composer a) then ([Quit], a) else on_composer cp_clear a
  | KChar c => on_composer (cp_insert_char c) a
  | _ => stay a
  end.

(** ** Events of a turn ([update/events.rs]) *)

Definition on_turn (f : TurnStatus → TurnStatus) (a : App) : App := set_turn (f (turn a)) a.
Definition with_current_tool (tool : option str) (t : TurnStatus) : TurnStatus :=
  {| ts_running := ts_running t; ts_current_tool := tool; ts_iterations := ts_iterations t;
     ts_finish_reason := ts_finish_reason t; ts_started_tick := ts_started_tick t |}.
Definition turn_with_finish_reason (reason : option str) (t : TurnStatus) : TurnStatus :=
  {| ts_running := ts_running t; ts_current_tool := ts_current_tool t;
     ts_iterations := ts_iterations t; ts_finish_reason := reason;
     ts_started_tick := ts_started_tick t |}.
Definition with_iterations (n : N) (t : TurnStatus) : TurnStatus :=
  {| ts_running := ts_running t; ts_current_tool := ts_current_tool t; ts_iterations := n;
     ts_finish_reason := ts_finish_reason t; ts_started_tick := ts_started_tick t |}.
Definition stopped (t : TurnStatus) : TurnStatus :=
  {| ts_running := false; ts_current_tool := None; ts_iterations := ts_iterations t;
     ts_finish_reason := ts_finish_reason t; ts_started_tick := ts_started_tick t |}.
Definition on_conversation (f : Conversation → Conversation) (a : App) : App :=
  set_conversation (f (conversation a)) a.
Definition turn_record_usage (u : option TokenUsage) (c : option CostEstimate) (a : App) : App :=
  let a := match u with Some _ => set_last_usage u a | None => a end in
  match c with Some _ => set_last_cost c a | None => a end.

Definition warning : str := [9888%N; 32%N].
Definition apply_event (event : AgentEvent) (a : App) : App :=
  match event with
  | SessionStarted _ _ => a
  | TurnEvent _ _ _ event =>
      match event with
      | ToolCallRequested tool_name =>
          on_turn (with_current_tool (Some tool_name))
            (on_conversation (tool_requested tool_name) a)
      | ToolProgress tool_name _ message => on_conversation (tool_progress tool_name message) a
      | ToolCallCompleted tool_name =>
          on_turn (with_current_tool None) (on_conversation (tool_completed tool_name) a)
      | ToolCallFailed tool_name message =>
          on_turn (with_current_tool None) (on_conversation (conv_tool_failed tool_name message) a)
      | PermissionDenied tool_name _ message =>
          notice (lit "Permission denied for " ++ tool_name ++ lit ": " ++ message) a
      | ContextCompacted before_count after_count _ =>
          notice (lit "Context compacted: " ++ show_nat before_count ++ [32%N; arrow; 32%N] ++
                  show_nat after_count ++ lit " messages.") a
      | InferenceCompleted finish_reason u c =>
          turn_record_usage u c (on_turn (turn_with_finish_reason finish_reason) a)
      | TurnCompleted iterations u c _ => turn_record_usage u c (on_turn (with_iterations iterations) a)
      | VerificationCompleted check command success _ _ =>
          if success then
            let line := [10003%N; 32%N] ++ lit "Verified: " ++ check ++ lit " pass" in
            notice line (set_verification (Some line) a)
          else
            let line := warning ++ lit "Verification failed: `" ++ command ++ lit "`" ++ em_dash ++
                        lit "retrying" in
            notice line (set_verification
                           (Some (warning ++ check ++ lit " failed" ++ em_dash ++ lit "retrying")) a)
      | SelfCritiqueCompleted produced_tool_calls =>
          let line := [9675%N; 32%N] ++
            if produced_tool_calls then lit "Self-check found a gap" ++ em_dash ++ lit "addressing it"
            else lit "Self-check done" in
          notice line (set_verification (Some line) a)
      | FailureBudgetExceeded operation attempts _ =>
          let line := warning ++ lit "repeated failures (" ++ operation ++ [32%N; 215%N] ++
                      show_N attempts ++ lit ")" ++ em_dash ++ lit "replanning" in
          notice line (set_verification
                         (Some (warning ++ lit "repeated failures" ++ em_dash ++ lit "replanning")) a)
      | _ => a
      end
  end.

Definition handle_turn_finished (r : result str TurnOutcome) (a : App) : step :=
  let a := on_turn stopped a in
  match r with
  | Ok outcome =>
      let a := match out_assistant_message outcome with
               | Some message => on_conversation (finalize_assistant message) a
               | None => a
               end in
      let start := persisted_message_count a in
      let a := set_session_state (out_session_state outcome) a in
      let a := set_persisted (length (Harness.messages (out_session_state outcome))) a in
      ([Persist outcome start], refresh_usage a)
  | Err message => stay (error_block message a)
  end.
End update.


(** ** Key tests *)

Definition is_key (key : KeyEvent) (c : string) : bool := bool_decide (code key = key_char c).
Definition is_code (key : KeyEvent) (k : KeyCode) : bool := bool_decide (code key = k).
Definition increases (key : KeyEvent) : bool := is_code key KRight || is_key key "+" || is_key key "=".
Definition decreases (key : KeyEvent) : bool := is_code key KLeft || is_key key "-" || is_key key "_".
Definition activates (key : KeyEvent) : bool := is_code key KEnter || is_key key " ".
(** The keys of a list that is navigated and not filtered by typing. *)
Definition navigates (key : KeyEvent) : bool :=
  bool_decide (code key ∈ [KUp; KDown; KPageUp; KPageDown; KEnter; KEsc]).

(** A handler of a panel has taken the panel out of the application: it puts it
    back with [set_overlay], or leaves the panel closed. *)

(** ** Settings ([update/settings.rs]) *)

Definition persist_setting (env : Env) (key value ok_message what : str) (a : App) : App :=
  match env_set_value env key value with
  | Ok tt => notice ok_message a
  | Err error => notice (lit "Toggled " ++ what ++ lit ", but could not save it: " ++ error) a
  end.
Definition next_position (len : nat) (current : option nat) (forward : bool) : nat :=
  match current with
  | Some index => wrap_index len index forward
  | None => if forward then 0 else len - 1
  end.

Definition PERMISSION_MODES : list str := [lit "allow"; lit "ask"; lit "deny"].
Definition cycle_permission_mode (env : Env) (forward : bool) (a : App) : App :=
  let current := mode ← permission_mode a; position mode PERMISSION_MODES in
  let next := default [] (PERMISSION_MODES !! next_position (length PERMISSION_MODES) current forward) in
  persist_setting env (lit "agent.permission_mode") next
    (lit "Tool approvals set to " ++ open_quote ++ next ++ close_quote ++
     lit ". Takes effect next turn.") (lit "tool approvals")
    (set_permission_mode (Some next) a).
Definition cycle_theme (env : Env) (forward : bool) (a : App) : App :=
  let next := theme_cycle (theme a) forward in
  persist_setting env (lit "tui.theme") (theme_name next)
    (lit "Theme set to " ++ theme_label next ++ lit ".") (lit "theme") (set_theme next a).
Definition org_role_debug (r : OrgRole) : str :=
  match r with Admin => lit "Admin" | Member => lit "Member" end.
Definition show_account (a : App) : App :=
  match cl_viewer (cloud a) with
  | Some viewer =>
      let email := default (lit "(no email)") (viewer_email viewer) in
      let org := default (lit "(personal)") (org_name <$> viewer_org viewer) in
      let role := default [8212%N] (org_role_debug <$> viewer_org_role viewer) in
      notice (lit "Signed in as " ++ email ++ middle_dot ++ lit "org " ++ org ++ middle_dot ++
              lit "role " ++ role ++ lit ".") a
  | None => notice (lit "Not signed in. Run `codel00p auth login` to connect an account.") a
  end.
Definition cycle_profile (env : Env) (forward : bool) (a : App) : App :=
  let names := profile_names a in
  if is_empty names then notice (lit "No agent profiles available to switch to.") a
  else
    let current := name ← active_profile a; position name names in
    let next := default [] (names !! next_position (length names) current forward) in
    persist_setting env (lit "agent.profile") next
      (lit "Agent profile set to " ++ next ++ lit ". Takes effect next run.") (lit "agent profile")
      (set_active_profile (Some next) a).

Definition flag_text (b : bool) : str := if b then lit "true" else lit "false".
Definition toggle_setting (env : Env) (pref : SettingsPref) (a : App) : App :=
  match pref with
  | ShowAdvanced =>
      let value := negb (show_advanced a) in
      persist_setting env (lit "tui.show_advanced") (flag_text value)
        (lit "Advanced info " ++ (if value then lit "shown" else lit "hidden") ++ lit ".")
        (lit "advanced info") (set_show_advanced value a)
  | CheckUpdatesPref =>
      let value := negb (check_updates a) in
      persist_setting env (lit "tui.check_updates") (flag_text value)
        (lit "Update checks " ++ (if value then lit "enabled" else lit "disabled") ++ lit ".")
        (lit "update checks") (set_check_updates value a)
  end.

(** The chooser rows that Left and Right cycle. *)
Definition cycle_row (env : Env) (row : SettingsRow) (forward : bool) (a : App) : App :=
  match row with
  | RowProfile => cycle_profile env forward a
  | RowPermissionMode => cycle_permission_mode env forward a
  | RowTheme => cycle_theme env forward a
  | _ => a
  end.

Section keys.
Context `{Unicode}.

Definition handle_api_key_entry (settings : SettingsOverlay) (buffer : str) (key : KeyEvent)
    (a : App) : step :=
  let back entry a := set_overlay (OSettings (set_api_key entry settings)) a in
  match code key with
  | KEsc => stay (back None a)
  | KEnter =>
      let key_value := trim buffer in
      let a := back None a in
      if is_empty key_value
      then stay (notice (lit "No key entered" ++ em_dash ++ lit "nothing saved.") a)
      else ([SetProviderKey (ro_provider (options a)) key_value], a)
  | KBackspace => stay (back (Some (pop_char buffer)) a)
  | KChar c => stay (back (Some (if ctrl key then buffer else push_char c buffer)) a)
  | _ => stay (back (Some buffer) a)
  end.

Definition handle_settings_key (env : Env) (settings : SettingsOverlay) (key : KeyEvent) (a : App)
    : step :=
  match so_api_key_entry settings with
  | Some buffer => handle_api_key_entry settings buffer key a
  | None =>
      let back settings a := stay (set_overlay (OSettings settings) a) in
      let row := settings_current settings in
      if is_code key KEsc then stay a
      else if is_code key KUp then back (settings_up settings) a
      else if is_code key KDown then back (settings_down settings) a
      else if increases key then back settings (cycle_row env row true a)
      else if decreases key then back settings (cycle_row env row false a)
      else if activates key then
        match row with
        | RowPref pref => back settings (toggle_setting env pref a)
        | RowPermissionMode | RowProfile | RowTheme => back settings (cycle_row env row true a)
        | RowApiKey => back (set_api_key (Some []) settings) a
        | RowAccount => back settings (show_account a)
        | RowAdvanced => stay (set_overlay (OAdvancedSettings AdvancedSettingsOverlay_new) a)
        end
      else back settings a
  end.

(** Counters are [u32]. *)
Definition u32_limit : N := 4294967295.
Definition advanced_number (a : App) (pref : AdvancedPref) : N :=
  match pref with
  | MaxIterations => max_iterations a
  | VerifyIterations => verify_iterations a
  | FailureBudget => failure_budget a
  | _ => 0
  end.
Definition set_advanced_number (pref : AdvancedPref) (n : N) (a : App) : App :=
  match pref with
  | MaxIterations => set_max_iterations n a
  | VerifyIterations => set_verify_iterations n a
  | FailureBudget => set_failure_budget n a
  | _ => a
  end.
Definition adjust_advanced (env : Env) (pref : AdvancedPref) (increase : bool) (a : App) : App :=
  match advanced_kind pref with
  | KindNumber step min max =>
      let current := advanced_number a pref in
      let next := if increase then N.min (N.min (current + step) u32_limit) max
                  else N.max (current - step) min in
      if (next =? current)%N then a
      else persist_setting env (config_key pref) (show_N next)
             (advanced_label pref ++ lit " set to " ++ show_N next ++ lit ".") (advanced_label pref)
             (set_advanced_number pref next a)
  | KindBool => a
  end.
Definition advanced_flag (a : App) (pref : AdvancedPref) : option bool :=
  match pref with
  | SelfKnowledge => Some (self_knowledge a)
  | SelfState => Some (self_state a)
  | BasePrompt => Some (base_prompt a)
  | AutoPlan => Some (auto_plan a)
  | _ => None
  end.
Definition set_advanced_flag (pref : AdvancedPref) (b : bool) (a : App) : App :=
  match pref with
  | SelfKnowledge => set_self_knowledge b a
  | SelfState => set_self_state b a
  | BasePrompt => set_base_prompt b a
  | AutoPlan => set_auto_plan b a
  | _ => a
  end.
Definition toggle_advanced (env : Env) (pref : AdvancedPref) (a : App) : App :=
  match advanced_kind pref, advanced_flag a pref with
  | KindBool, Some flag =>
      let new_value := negb flag in
      persist_setting env (config_key pref) (flag_text new_value)
        (advanced_label pref ++ lit " " ++ (if new_value then lit "enabled" else lit "disabled") ++
         lit ".") (advanced_label pref) (set_advanced_flag pref new_value a)
  | _, _ => a
  end.
Definition handle_advanced_settings_key (env : Env) (advanced : AdvancedSettingsOverlay)
    (key : KeyEvent) (a : App) : step :=
  let back advanced a := stay (set_overlay (OAdvancedSettings advanced) a) in
  let pref := advanced_current advanced in
  if is_code key KEsc then stay (set_overlay (OSettings SettingsOverlay_new) a)
  else if is_code key KUp then back (advanced_up advanced) a
  else if is_code key KDown then back (advanced_down advanced) a
  else if increases key then back advanced (adjust_advanced env pref true a)
  else if decreases key then back advanced (adjust_advanced env pref false a)
  else if activates key then back advanced (toggle_advanced env pref a)
  else back advanced a.

Definition handle_update_prompt_key (prompt : UpdatePrompt) (key : KeyEvent) (a : App) : step :=
  match code key with
  | KEnter => ([Quit], set_run_update true a)
  | KEsc => stay (set_dismissed true a)
  | _ => stay (set_overlay (OUpdatePrompt prompt) a)
  end.

(** ** Conversations ([update/sessions.rs]) *)

Definition with_session_id (verb id : str) (f : SessionId → Effect) (a : App) : step :=
  match parse_session_id id with
  | Ok session_id => ([f session_id], a)
  | Err error => stay (error_block (lit "Cannot " ++ verb ++ lit " " ++ id ++ lit ": " ++ error) a)
  end.
Definition handle_session_edit_key (switcher : SessionSwitcher) (edit : SessionEdit)
    (key : KeyEvent) (a : App) : step :=
  let back edit a := set_overlay (OSessions (set_sw_edit edit switcher)) a in
  match code key with
  | KEsc => stay (back None a)
  | KTab => stay (back (Some (toggle_field edit)) a)
  | KEnter =>
      let name := join_words (se_name edit) in
      let description := join_words (se_description edit) in
      let a := back None a in
      if is_empty name then stay (notice (lit "A conversation needs a non-empty name.") a)
      else with_session_id (lit "edit") (se_session_id edit)
             (λ id, EditSession id name description) a
  | KBackspace => stay (back (Some (edit_buffer pop_char edit)) a)
  | KChar c => stay (back (Some (if ctrl key then edit else edit_buffer (push_char c) edit)) a)
  | _ => stay (back (Some edit) a)
  end.
Definition handle_session_delete_key (switcher : SessionSwitcher) (confirm : SessionDelete)
    (key : KeyEvent) (a : App) : step :=
  let back a := set_overlay (OSessions (set_sw_confirm None switcher)) a in
  if is_key key "y" then
    with_session_id (lit "delete") (sd_session_id confirm) DeleteSession (back a)
  else if is_key key "n" || is_code key KEsc then stay (back a)
  else stay (set_overlay (OSessions switcher) a).
Definition open_conversation (env : Env) (row : option ConversationRow) (a : App) : step :=
  match row with
  | Some NewConversation => handle_slash env (lit "reset") a
  | Some (SessionRow session) =>
      with_session_id (lit "resume") (ss_session_id session) ResumeSession a
  | None => stay a
  end.
Definition handle_sessions_key (env : Env) (switcher : SessionSwitcher) (key : KeyEvent) (a : App)
    : step :=
  match sw_edit switcher, sw_confirm_delete switcher with
  | Some edit, _ => handle_session_edit_key switcher edit key a
  | None, Some confirm => handle_session_delete_key switcher confirm key a
  | None, None =>
      let chosen := bool_decide (is_Some (selected_session switcher)) in
      if (is_key key "e" || is_code key (KF 2)) && chosen
      then stay (set_overlay (OSessions (begin_edit switcher)) a)
      else if is_key key "d" && chosen
      then stay (set_overlay (OSessions (begin_delete switcher)) a)
      else if navigates key then
        let '(outcome, rows) := picker_on_key key (sw_rows switcher) in
        match outcome with
        | Selected => open_conversation env (selected_item rows) a
        | Cancelled => stay a
        | Pending => stay (set_overlay (OSessions (set_sw_rows rows switcher)) a)
        end
      else stay (set_overlay (OSessions switcher) a)
  end.

(** ** The entity browser ([update/entities.rs]) *)

Definition CLERK_DASHBOARD_URL : str := lit "https://dashboard.clerk.com".
Definition with_entities (f : EntityBrowser → EntityBrowser) (a : App) : App :=
  match overlay a with
  | OEntities browser => set_overlay (OEntities (f browser)) a
  | _ => a
  end.
Definition choose_project (browser : EntityBrowser) (a : App) : step :=
  match selected_item (eb_projects browser) with
  | Some project =>
      let id := pj_id project in
      let browser := set_selected_project (Some project) browser in
      let browser := set_tab TabAgents browser in
      let browser := set_eb_status (Some (lit "Loading project" ++ ellipsis_text)) browser in
      ([Cloud (FetchAgents id); Cloud (FetchMcp id); Cloud (FetchMemory id)],
       set_overlay (OEntities browser) a)
  | None => stay (set_overlay (OEntities browser) a)
  end.
Definition choose_cloud_agent (browser : EntityBrowser) (a : App) : step :=
  match selected_item (eb_agents browser) with
  | Some agent =>
      stay (notice (lit "Agent " ++ open_quote ++ ag_name agent ++ close_quote ++ lit " selected" ++
                    em_dash ++ lit "provider " ++ ag_provider agent ++ lit ", model " ++
                    ag_model agent ++ lit " (applies next turn).")
              (set_model (ag_provider agent) (ag_model agent) a))
  | None => stay a
  end.
Definition choose_org (browser : EntityBrowser) (a : App) : step :=
  match selected_item (eb_orgs browser) with
  | Some org =>
      let active := org_id <$> (cl_viewer (cloud a) ≫= viewer_org) in
      if bool_decide (active = Some (org_id org))
      then stay (notice (lit "Already using organization " ++ org_name org ++ lit ".") a)
      else ([SwitchOrg (org_id org)],
            notice (lit "Opening browser to switch to organization " ++ org_name org ++
                    ellipsis_text) a)
  | None => stay (set_overlay (OEntities browser) a)
  end.
(** A picker of the browser takes a key: what a selection does, what a key that
    keeps the panel does. *)
Definition on_tab {T} `{!PickerItem T} (picker : Picker T)
    (put : Picker T → EntityBrowser → EntityBrowser) (choose : EntityBrowser → App → step)
    (browser : EntityBrowser) (key : KeyEvent) (a : App) : step :=
  let '(outcome, picker) := picker_on_key key picker in
  let browser := put picker browser in
  match outcome with
  | Selected => choose browser a
  | Cancelled => stay a
  | Pending => stay (set_overlay (OEntities browser) a)
  end.
Definition keep_open (browser : EntityBrowser) (a : App) : step :=
  stay (set_overlay (OEntities browser) a).
Definition handle_entities_key (browser : EntityBrowser) (key : KeyEvent) (a : App) : step :=
  if is_code key KTab then keep_open (set_tab (tab_next (eb_tab browser)) browser) a
  else if is_code key KBackTab then keep_open (set_tab (tab_prev (eb_tab browser)) browser) a
  else match eb_tab browser with
  | TabProjects => on_tab (eb_projects browser) set_projects choose_project browser key a
  | TabAgents => on_tab (eb_agents browser) set_agents_list choose_cloud_agent browser key a
  | TabMcp => on_tab (eb_mcp browser) set_mcp keep_open browser key a
  | TabMemory => on_tab (eb_memory browser) set_memory keep_open browser key a
  | TabUsers => on_tab (eb_users browser) set_users keep_open browser key a
  | TabOrg =>
      if is_key key "n" then
        ([OpenUrl CLERK_DASHBOARD_URL],
         set_overlay (OEntities browser)
           (notice (lit "Opening the Clerk dashboard to create an organization" ++ ellipsis_text) a))
      else on_tab (eb_orgs browser) set_orgs choose_org browser key a
  end.

(** ** Agents ([update/agents.rs], [agent/registry.rs]) *)

Definition backtick (name : str) : str := lit ": `" ++ name ++ lit "`".
Definition validate_agent_name (name : str) : result str unit :=
  if is_empty name then Err (lit "agent name must not be empty")
  else if bool_decide (name = lit ".") || bool_decide (name = lit "..")
  then Err (lit "invalid agent name" ++ backtick name)
  else if bool_decide (head name = head (lit "."))
  then Err (lit "agent name must not start with a dot" ++ backtick name)
  else if existsb (λ c, bool_decide (c ∈ [47; 92; 0]%N)) name
  then Err (lit "agent name must be a single path segment (no `/`, `\`)" ++ backtick name)
  else if existsb (λ c, negb (is_ascii_alphanumeric c || bool_decide (c ∈ [45; 95; 46]%N))) name
  then Err (lit "agent name may only contain letters, digits, `-`, `_`, `.`" ++ backtick name)
  else Ok tt.

Definition submit_agent_create (env : Env) (form : AgentCreateForm) (a : App) : step :=
  let name := trim (fm_name form) in
  let refuse error := stay (set_overlay (OAgentCreate (form_error error form)) a) in
  match validate_agent_name name with
  | Err error => refuse error
  | Ok tt =>
      let trimmed := trim (fm_description form) in
      let description := if is_empty trimmed then None else Some trimmed in
      match env_create_agent env name description with
      | Ok tt =>
          ([SwitchAgent name],
           notice (lit "Created agent " ++ open_quote ++ name ++ close_quote ++
                   lit ". Switching to it" ++ ellipsis_text) a)
      | Err error => refuse error
      end
  end.
Definition handle_agent_create_key (env : Env) (form : AgentCreateForm) (key : KeyEvent) (a : App)
    : step :=
  let back form := stay (set_overlay (OAgentCreate form) a) in
  match code key with
  | KEsc => stay a
  | KTab | KDown | KUp => back (focus_next form)
  | KBackspace => back (form_backspace form)
  | KChar c => back (form_push c form)
  | KEnter => submit_agent_create env form a
  | _ => back form
  end.
Definition handle_agent_detail_key (detail : AgentDetail) (key : KeyEvent) (a : App) : step :=
  let back detail := stay (set_overlay (OAgentDetail detail) a) in
  let listed := set_overlay (OAgentSwitcher AgentSwitcher_new) a in
  if is_code key KEsc then ([ListAgents], listed)
  else if negb (ad_loaded detail) then back detail
  else match code key with
  | KUp => back (move_field false detail)
  | KDown | KTab => back (move_field true detail)
  | KEnter =>
      ([SaveAgentDetail (ad_name detail) (ad_is_default detail) (ad_description detail)
          (ad_provider detail) (ad_model detail) (ad_dispatch detail) (ad_persona detail);
        ListAgents], listed)
  | KBackspace => back (detail_edit_buffer pop_char detail)
  | KChar c => back (if ctrl key then detail else detail_edit_buffer (push_char c) detail)
  | _ => back detail
  end.
Definition handle_agent_delete_key (switcher : AgentSwitcher) (name : str) (key : KeyEvent)
    (a : App) : step :=
  let back := set_overlay (OAgentSwitcher (set_as_confirm None switcher)) a in
  if is_key key "y" then ([DeleteAgent name], back)
  else if is_key key "n" || is_code key KEsc then stay back
  else stay (set_overlay (OAgentSwitcher switcher) a).
Definition open_agent_row (row : option AgentRow) (a : App) : step :=
  match row with
  | Some NewAgentRow => open_agent_creator a
  | Some (LocalAgent agent) =>
      if ac_active agent
      then stay (notice (lit "Already using agent " ++ open_quote ++ ac_name agent ++ close_quote ++
                         lit ".") a)
      else ([SwitchAgent (ac_name agent)], a)
  | None => stay a
  end.
Definition handle_agent_switcher_key (switcher : AgentSwitcher) (key : KeyEvent) (a : App) : step :=
  match as_confirm_delete switcher with
  | Some name => handle_agent_delete_key switcher name key a
  | None =>
      let back switcher a := stay (set_overlay (OAgentSwitcher switcher) a) in
      if is_key key "e" then
        match selected_agent switcher with
        | Some agent =>
            let is_default := bool_decide (ac_name agent = DEFAULT_AGENT_LABEL) in
            ([LoadAgentDetail (ac_name agent) is_default],
             set_overlay (OAgentDetail (detail_loading (ac_name agent) is_default)) a)
        | None => back switcher a
        end
      else if is_key key "d" && bool_decide (is_Some (selected_agent switcher)) then
        let switcher := agent_begin_delete DEFAULT_AGENT_LABEL switcher in
        back switcher
          (if bool_decide (as_confirm_delete switcher = None)
           then notice (lit "Can't delete the active or default agent.") a else a)
      else if is_code key KEnter && ts_running (turn a) &&
              bool_decide (is_Some (selected_agent switcher)) then
        back switcher (notice cannot_switch a)
      else if navigates key then
        let '(outcome, rows) := picker_on_key key (as_rows switcher) in
        match outcome with
        | Selected => open_agent_row (selected_item rows) a
        | Cancelled => stay a
        | Pending => back (set_as_rows rows switcher) a
        end
      else back switcher a
  end.

(** ** Dispatch ([update.rs]) *)

Definition permission_allow (key : KeyEvent) : bool := is_key key "y" || is_key key "a".
Definition permission_deny (key : KeyEvent) : bool := is_key key "n" || is_code key KEsc.
Definition modal_decision (request : PermissionRequest) (allow : bool) : PermissionDecision :=
  if allow then decision_allow (request_id request) ModeAsk
  else decision_deny (request_id request) ModeAsk
         (request_tool_name request ++ lit " denied in the approval modal").
Definition handle_permission_key (request : PermissionRequest) (key : KeyEvent) (a : App) : step :=
  let allow := permission_allow key in
  if negb allow && negb (permission_deny key)
  then stay (set_overlay (OPermission request) a)
  else
    let taken := set_pending None a in
    match pending_permission a with
    | Some reply => ([ResolvePermission reply (modal_decision request allow)], taken)
    | None => stay taken
    end.
Definition handle_model_key (picker : ModelPicker) (key : KeyEvent) (a : App) : step :=
  let typed := trim (free_text picker) in
  if is_code key KEnter && bool_decide (selected_item (mpk_picker picker) = None) &&
     negb (is_empty typed)
  then stay (apply_model (ro_provider (options a)) typed a)
  else
    let '(outcome, rows) := picker_on_key key (mpk_picker picker) in
    match outcome with
    | Selected =>
        match selected_item rows with
        | Some choice => stay (apply_model (mc_provider choice) (mc_model choice) a)
        | None => stay a
        end
    | Cancelled => stay a
    | Pending =>
        stay (set_overlay (OModel {| mpk_picker := rows; mpk_status := mpk_status picker |}) a)
    end.
Definition handle_menu_key (menu : MainMenu) (key : KeyEvent) (a : App) : step :=
  let '(outcome, rows) := picker_on_key key (mm_picker menu) in
  match outcome with
  | Selected => match selected_item rows with
                | Some section => open_section section a
                | None => stay a
                end
  | Cancelled => stay a
  | Pending => stay (set_overlay (OMenu {| mm_picker := rows |}) a)
  end.

(** [mem::replace] takes the panel out. *)
Definition handle_overlay_key (env : Env) (key : KeyEvent) (a : App) : step :=
  let taken := set_overlay ONone a in
  match overlay a with
  | OHelp => stay taken
  | OPermission request => handle_permission_key request key taken
  | OModel picker => handle_model_key picker key taken
  | OSessions switcher => handle_sessions_key env switcher key taken
  | OEntities browser => handle_entities_key browser key taken
  | OSettings settings => handle_settings_key env settings key taken
  | OAdvancedSettings advanced => handle_advanced_settings_key env advanced key taken
  | OAgentSwitcher switcher => handle_agent_switcher_key switcher key taken
  | OAgentCreate form => handle_agent_create_key env form key taken
  | OAgentDetail detail => handle_agent_detail_key detail key taken
  | OUpdatePrompt prompt => handle_update_prompt_key prompt key taken
  | OMenu menu => handle_menu_key menu key taken
  | ONone => stay taken
  end.
Definition handle_key (env : Env) (key : KeyEvent) (a : App) : step :=
  if ctrl key && is_key key "c" then ([Quit], a)
  else if ctrl key && is_key key "p" then open_menu a
  else if is_open (overlay a) then handle_overlay_key env key a
  else handle_input_key env key a.

Definition set_viewer (r : result str Viewer) (c : CloudState) : CloudState :=
  match r with
  | Ok viewer => {| cl_viewer := Some viewer; cl_error := None; cl_configured := cl_configured c |}
  | Err error => {| cl_viewer := cl_viewer c; cl_error := Some error;
                    cl_configured := cl_configured c |}
  end.
(** A result for the browser: [clears] tells whether the rows clear the status. *)
Definition browser_rows {T} `{!PickerItem T} (picker : EntityBrowser → Picker T)
    (put : Picker T → EntityBrowser → EntityBrowser) (clears : bool) (r : result str (list T))
    (browser : EntityBrowser) : EntityBrowser :=
  match r with
  | Ok items =>
      let browser := put (set_items items (picker browser)) browser in
      if clears then set_eb_status None browser else browser
  | Err error => set_eb_status (Some error) browser
  end.
Definition apply_models (r : result str (list ModelChoice)) (picker : ModelPicker) : ModelPicker :=
  match r with
  | Ok [] => mpk_set_status (lit "No live models" ++ em_dash ++ lit "showing catalog.") picker
  | Ok models => set_choices models None picker
  | Err error =>
      mpk_set_status (lit "Catalog unavailable (" ++ error ++ lit ")" ++ em_dash ++
                      lit "showing catalog.") picker
  end.
Definition apply_session_list (r : result str (list SessionSummary)) (s : SessionSwitcher)
    : SessionSwitcher :=
  match r with
  | Ok [] => set_sessions [] (Some (lit "No saved conversations yet.")) s
  | Ok sessions => set_sessions sessions None s
  | Err error => set_sw_status (Some error) s
  end.
Definition session_resumed (state : SessionState) (persisted : nat) (a : App) : App :=
  let a := set_session_state state a in
  let a := set_persisted persisted a in
  let a := set_conversation Conversation_default a in
  let a := set_scroll ScrollState_default a in
  let a := set_turn TurnStatus_default a in
  let a := refresh_usage a in
  let a := notice (lit "Resumed conversation " ++ session_label a ++ lit " (" ++
                   show_nat persisted ++ lit " message(s)).") a in
  on_conversation (append_session_messages (Harness.messages (session_state a))) a.

Definition update (env : Env) (m : Msg) (a : App) : step :=
  match m with
  | MKey key => handle_key env key a
  | MScroll delta =>
      stay (if is_open (overlay a) then a
            else if (0 <? delta)%Z then scroll_up (Z.to_N delta) a
            else scroll_down (Z.to_N (- delta)) a)
  | MResize | MTick => stay (set_tick ((tick a + 1) mod u64_modulus) a)
  | MToken token => stay (on_conversation (append_token token) a)
  | MEvent event => stay (apply_event event a)
  | MNotice text => stay (notice text a)
  | MTurnFinished r => handle_turn_finished r a
  | MPermissionAsked request reply =>
      stay (set_pending (Some reply) (set_overlay (OPermission request) a))
  | MCloudViewer r => stay (set_cloud (set_viewer r (cloud a)) a)
  | MCloudOrgs r => stay (with_entities (browser_rows eb_orgs set_orgs true r) a)
  | MCloudProjects r => stay (with_entities (browser_rows eb_projects set_projects true r) a)
  | MCloudAgents r => stay (with_entities (browser_rows eb_agents set_agents_list true r) a)
  | MCloudMcp r => stay (with_entities (browser_rows eb_mcp set_mcp false r) a)
  | MCloudMemory r => stay (with_entities (browser_rows eb_memory set_memory false r) a)
  | MCloudUsers r => stay (with_entities (browser_rows eb_users set_users false r) a)
  | MModels r =>
      stay match overlay a with
           | OModel picker => set_overlay (OModel (apply_models r picker)) a
           | _ => a
           end
  | MSessionList r =>
      stay match overlay a with
           | OSessions switcher => set_overlay (OSessions (apply_session_list r switcher)) a
           | _ => a
           end
  | MAgentList r =>
      stay match overlay a with
           | OAgentSwitcher switcher =>
               set_overlay (OAgentSwitcher match r with
                                           | Ok agents => set_agents agents None switcher
                                           | Err error => set_as_status (Some error) switcher
                                           end) a
           | _ => a
           end
  | MAgentDetailLoaded r =>
      stay match overlay a with
           | OAgentDetail detail =>
               set_overlay (OAgentDetail match r with
                                         | Ok data => detail_apply data detail
                                         | Err error => set_ad_status (Some error) detail
                                         end) a
           | _ => a
           end
  | MSessionResumed r =>
      stay match r with
           | Ok (state, persisted) => session_resumed state persisted a
           | Err error => error_block error a
           end
  | MUpdateAvailable version =>
      let a := set_update_available (Some version) a in
      stay (if negb (update_prompt_dismissed a) && negb (is_open (overlay a))
            then set_overlay (OUpdatePrompt {| up_current := env_current_version env;
                                               up_latest := version |}) a
            else a)
  | MCheckUpdates => ([CheckUpdates], a)
  end.
End keys.


(** ** The event loop ([event_loop.rs])

    Effects are carried out in the order [update] gives them.  Most hand their
    work to a task that answers with a message; the ones below change the
    application in place. *)

Definition switch_agent (env : Env) (name : str) (a : App) : App :=
  match env_switch_config env name with
  | Ok active =>
      let a := set_active_agent active a in
      let id := match parse_session_id (fresh_chat_session_id env) with Ok id => id | Err _ => [] end in
      let a := set_session_state (SessionState_new id) a in
      let a := set_persisted 0 a in
      let a := set_conversation Conversation_default a in
      let a := set_scroll ScrollState_default a in
      let a := set_turn TurnStatus_default a in
      let a := refresh_usage a in
      let label := default DEFAULT_AGENT_LABEL (active_agent a) in
      notice (lit "Switched to agent " ++ open_quote ++ label ++ close_quote ++
              lit ". New turns use its memory + sessions (" ++ session_label a ++ lit ").") a
  | Err error => error_block (lit "Could not switch agent: " ++ error) a
  end.
Definition set_configured (c : CloudState) : CloudState :=
  {| cl_viewer := cl_viewer c; cl_error := cl_error c; cl_configured := true |}.
Definition switch_org (env : Env) (org : str) (a : App) : App :=
  match env_login env org with
  | Ok output =>
      let message := trim_end output in
      let a := if is_empty message then a else notice message a in
      set_overlay ONone (set_cloud (set_configured (cloud a)) a)
  | Err error => error_block (lit "Organization switch failed: " ++ error) a
  end.
Definition execute_effect (env : Env) (e : Effect) (a : App) : App :=
  match e with
  | Quit => set_should_quit true a
  | Persist outcome start =>
      match env_persist env outcome start with
      | Ok tt => a
      | Err error => error_block (lit "Failed to persist session: " ++ error) a
      end
  | SwitchAgent name => switch_agent env name a
  | SwitchOrg org => switch_org env org a
  | _ => a
  end.
Definition execute_effects (env : Env) (es : list Effect) (a : App) : App :=
  foldl (λ a e, execute_effect env e a) a es.

(** One round of the loop, and the loop over the messages that arrive: it ends
    once the application is to quit. *)
Definition loop_step `{Unicode} (env : Env) (m : Msg) (a : App) : step :=
  let '(es, a) := update env m a in (es, execute_effects env es a).
Fixpoint event_loop `{Unicode} (messages : list (Env * Msg)) (a : App) : step :=
  match messages with
  | [] => ([], a)
  | (env, m) :: rest =>
      if should_quit a then ([], a)
      else
        let '(es, a) := loop_step env m a in
        let '(later, a) := event_loop rest a in (es ++ later, a)
  end.
