(* ===== verification/TuiProps.v ===== *)
(** * What the terminal interface guarantees

    Invariants over every sequence of messages ([update] of TuiUpdate.v): who
    answers a permission request and how, which panels and inputs are well
    formed, when turns are submitted and what is persisted of them. *)

From stdpp Require Import base numbers strings gmap list.
From S2P Require Import Prelude RustStr Json Protocol CloudTypes Harness Curator Recall Turn TuiState TuiOverlay TuiUpdate.

(** ** What one step keeps *)

(** Each numeric setting is within the bounds the panel declares, widened to the value
    the interface was started with when that one is outside: the configuration is not
    checked. *)
Definition in_bounds (start a : App) : Prop :=
  ∀ pref step min max, advanced_kind pref = KindNumber step min max →
    (N.min min (advanced_number start pref) ≤ advanced_number a pref ≤
     N.max max (advanced_number start pref))%N.

(** Every list of the open panel is consistent, the highlighted rows exist, and a
    deletion waiting for its confirmation is not of the default agent. *)
Definition overlay_ok `{Unicode} (o : Overlay) : Prop :=
  match o with
  | OModel p => picker_wf (mpk_picker p)
  | OSessions s => picker_wf (sw_rows s)
  | OEntities b =>
      picker_wf (eb_projects b) ∧ picker_wf (eb_agents b) ∧ picker_wf (eb_mcp b) ∧
      picker_wf (eb_memory b) ∧ picker_wf (eb_users b) ∧ picker_wf (eb_orgs b)
  | OMenu m => picker_wf (mm_picker m)
  | OSettings s => so_selected s < length SETTINGS_ORDER
  | OAdvancedSettings s => ao_selected s < length ADVANCED_ORDER
  | OAgentSwitcher s =>
      picker_wf (as_rows s) ∧ as_confirm_delete s ≠ Some DEFAULT_AGENT_LABEL
  | OAgentDetail d => ad_field d ∈ detail_fields d
  | _ => True
  end.
Definition is_permission (o : Overlay) : bool :=
  match o with OPermission _ => true | _ => false end.
Definition panel_ok `{Unicode} (o : Overlay) : Prop := overlay_ok o ∧ is_permission o = false.

(** The effects a panel may ask for at any time. *)
Definition quiet (e : Effect) : Prop :=
  match e with
  | SubmitTurn _ | ResolvePermission _ _ | Persist _ _ => False
  | DeleteAgent name => name ≠ DEFAULT_AGENT_LABEL
  | _ => True
  end.

(** [b] is [a] up to what no invariant looks at. *)
Record same (a b : App) : Prop := {
  same_pending : pending_permission b = pending_permission a;
  same_turn : turn b = turn a;
  same_composer : composer b = composer a;
  same_session : session_state b = session_state a;
  same_persisted : persisted_message_count b = persisted_message_count a;
  same_overlay : overlay b = overlay a;
  same_bounds : ∀ start, in_bounds start a → in_bounds start b;
}.
Lemma same_refl a : same a a.
Proof. by split. Qed.
Lemma same_notice a b t : same a b → same a (notice t b).
Proof. by intros []; split. Qed.
Lemma same_error_block a b t : same a b → same a (error_block t b).
Proof. by intros []; split. Qed.
Lemma same_model a b p m : same a b → same a (set_model p m b).
Proof. by intros []; split. Qed.
Lemma same_persist_setting env k v ok what a b :
  same a b → same a (persist_setting env k v ok what b).
Proof. intros H. unfold persist_setting. case_match; [case_match|]; by apply same_notice. Qed.
Lemma same_apply_model p m a b : same a b → same a (apply_model p m b).
Proof. intros. by apply same_notice, same_model. Qed.
Create HintDb tui.
#[export] Hint Resolve same_refl same_notice same_error_block same_model same_persist_setting
  same_apply_model : tui.

Lemma cycle_permission_mode_same env f a : same a (cycle_permission_mode env f a).
Proof. apply same_persist_setting. by split. Qed.
Lemma cycle_theme_same env f a : same a (cycle_theme env f a).
Proof. apply same_persist_setting. by split. Qed.
Lemma cycle_profile_same env f a : same a (cycle_profile env f a).
Proof.
  unfold cycle_profile. case_match; [auto with tui|]. apply same_persist_setting. by split.
Qed.
Lemma cycle_row_same env row f a : same a (cycle_row env row f a).
Proof.
  destruct row; cbn [cycle_row]; auto using cycle_permission_mode_same, cycle_theme_same,
    cycle_profile_same with tui.
Qed.
Lemma toggle_setting_same env p a : same a (toggle_setting env p a).
Proof. destruct p; apply same_persist_setting; by split. Qed.
Lemma show_account_same a : same a (show_account a).
Proof. unfold show_account. case_match; auto with tui. Qed.
Lemma toggle_advanced_same env p a : same a (toggle_advanced env p a).
Proof. destruct p; try apply same_refl; apply same_persist_setting; by split. Qed.

(** Adjusting a numeric setting moves it towards its bounds. *)
Lemma adjust_number (increase : bool) step min max current start :
  (0 < step)%N → (min ≤ max ≤ u32_limit)%N →
  (N.min min start ≤ current ≤ N.max max start)%N →
  (N.min min start ≤ (if increase then N.min (N.min (current + step) u32_limit) max
          else N.max (current - step) min) ≤ N.max max start)%N.
Proof. intros. destruct increase; lia. Qed.
Lemma adjust_advanced_same env p increase a : same a (adjust_advanced env p increase a).
Proof.
  destruct p; try apply same_refl; unfold adjust_advanced; cbn [advanced_kind];
    case_match; try apply same_refl; apply same_persist_setting; split; try reflexivity;
    intros start Hb q step min max Hq.
  all: pose proof (Hb q _ _ _ Hq) as Hq'; destruct q; try discriminate Hq;
    injection Hq as <- <- <-;
    first [exact Hq' | apply adjust_number; [unfold u32_limit; lia..|exact Hq']].
Qed.
#[export] Hint Resolve cycle_row_same toggle_setting_same show_account_same toggle_advanced_same
  adjust_advanced_same : tui.

Section steps.
Context `{Unicode}.

(** A step that answers no permission request, starts and ends no turn, and
    leaves a panel that is not a permission request. *)
Record calm (a : App) (s : step) : Prop := {
  calm_pending : pending_permission s.2 = pending_permission a;
  calm_turn : turn s.2 = turn a;
  calm_composer : composer s.2 = composer a;
  calm_tracked :
    session_state s.2 = session_state a ∧
      persisted_message_count s.2 = persisted_message_count a ∨
    Harness.messages (session_state s.2) = [] ∧ persisted_message_count s.2 = 0;
  calm_bounds : ∀ start, in_bounds start a → in_bounds start s.2;
  calm_panel : panel_ok (overlay s.2);
  calm_effects : Forall quiet s.1;
}.
Lemma calm_same a b es : same a b → panel_ok (overlay b) → Forall quiet es → calm a (es, b).
Proof. intros []. split; auto. Qed.
Lemma calm_set a b o es : same a b → panel_ok o → Forall quiet es → calm a (es, set_overlay o b).
Proof. intros []. split; auto. Qed.
Lemma calm_stay a b o : same a b → panel_ok o → calm a (stay (set_overlay o b)).
Proof. intros. by apply calm_set. Qed.
Lemma calm_close a b : same a b → overlay a = ONone → calm a (stay b).
Proof. intros Hs Ho. apply calm_same; [done| |done]. by rewrite (same_overlay _ _ Hs), Ho. Qed.
Lemma calm_do a b e : same a b → overlay a = ONone → quiet e → calm a ([e], b).
Proof.
  intros Hs Ho He. apply calm_same; [done| |auto]. by rewrite (same_overlay _ _ Hs), Ho.
Qed.

(** *** Opening panels *)

Lemma Picker_new_wf {T} `{!PickerItem T} (items : list T) : picker_wf (Picker_new items).
Proof. apply refilter_wf. Qed.
Lemma set_items_wf {T} `{!PickerItem T} (items : list T) p : picker_wf (set_items items p).
Proof. apply refilter_wf. Qed.
Lemma new_switcher_ok : panel_ok (OAgentSwitcher AgentSwitcher_new).
Proof. split; [split; [apply Picker_new_wf|discriminate]|done]. Qed.
Lemma new_settings_ok : panel_ok (OSettings SettingsOverlay_new).
Proof. split; [unfold overlay_ok; simpl; lia|done]. Qed.

Lemma open_menu_calm a : calm a (open_menu a).
Proof. apply calm_stay; [apply same_refl|]. split; [apply Picker_new_wf|done]. Qed.
Lemma open_settings_calm a : calm a (open_settings a).
Proof. apply calm_stay; [apply same_refl|apply new_settings_ok]. Qed.
Lemma open_sessions_calm a : calm a (open_sessions a).
Proof. apply calm_set; [apply same_refl| |auto]. split; [apply Picker_new_wf|done]. 
  constructor; [exact I|constructor]. Qed.
Lemma open_entities_calm tab a : overlay a = ONone → calm a (open_entities tab a).
Proof.
  intros Ho. unfold open_entities. case_match; [by apply calm_close; auto with tui|].
  apply calm_set; [apply same_refl| |by repeat constructor].
  split; [repeat split; apply Picker_new_wf|done].
Qed.
Lemma open_agent_switcher_calm a : overlay a = ONone → calm a (open_agent_switcher a).
Proof.
  intros Ho. unfold open_agent_switcher. case_match; [by apply calm_close; auto with tui|].
  apply calm_set; [apply same_refl|apply new_switcher_ok|by repeat constructor].
Qed.
Lemma open_agent_creator_calm a : calm a (open_agent_creator a).
Proof. by apply calm_stay; [apply same_refl|]. Qed.
Lemma open_model_picker_calm a : calm a (open_model_picker a).
Proof.
  apply calm_set; [apply same_refl| |by repeat constructor]. split; [apply Picker_new_wf|done].
Qed.
Lemma open_section_calm section a : overlay a = ONone → calm a (open_section section a).
Proof.
  intros. destruct section; cbn [open_section];
    auto using open_agent_switcher_calm, open_sessions_calm, open_entities_calm, open_settings_calm.
Qed.
Lemma help_calm a : calm a (stay (set_overlay OHelp a)).
Proof. by apply calm_stay; [apply same_refl|]. Qed.
Lemma start_new_calm env a : overlay a = ONone → calm a (stay (start_new env a)).
Proof.
  intros Ho. split; try reflexivity; [by right|by intros Hb| |constructor].
  change (overlay (stay (start_new env a)).2) with (overlay a). by rewrite Ho.
Qed.

Lemma handle_slash_calm env command a : overlay a = ONone → calm a (handle_slash env command a).
Proof.
  intros Ho. unfold handle_slash.
  repeat case_match; auto using open_model_picker_calm, open_agent_switcher_calm,
    open_agent_creator_calm, open_entities_calm, open_sessions_calm, start_new_calm, help_calm.
  all: first [apply calm_do; [auto with tui|done|exact I] | apply calm_close; auto with tui].
Qed.
End steps.

Section panels.
Context `{Unicode}.
Implicit Types (a : App) (key : KeyEvent).

(** *** Settings *)

Lemma row_up_lt len n : 0 < len → n < len → row_up len n < len.
Proof. unfold row_up. destruct (Nat.eqb_spec n 0); lia. Qed.
Lemma row_down_lt len n : row_down (S len) n < S len.
Proof. unfold row_down. rewrite (Nat.max_l (S len) 1) by lia. by apply Nat.mod_upper_bound. Qed.
Lemma settings_panel s : so_selected s < length SETTINGS_ORDER → panel_ok (OSettings s).
Proof. by split. Qed.

Lemma handle_settings_key_calm env s key a :
  overlay a = ONone → so_selected s < length SETTINGS_ORDER →
  calm a (handle_settings_key env s key a).
Proof.
  intros Ho Hs. unfold handle_settings_key. destruct (so_api_key_entry s) as [buffer|].
  - unfold handle_api_key_entry.
    assert (∀ entry, panel_ok (OSettings (set_api_key entry s))) as Hok by (intros; by apply settings_panel).
    destruct (code key); try (apply calm_stay; [apply same_refl|apply Hok]).
    case_match; [|by apply calm_set; [apply same_refl|apply Hok|repeat constructor]].
    apply (calm_stay a (notice _ a) (OSettings _)); auto with tui.
  - assert (∀ b, same a b → calm a (stay (set_overlay (OSettings s) b))) as Hback.
    { intros b Hb. apply calm_stay; [done|]. by apply settings_panel. }
    repeat case_match; try (apply Hback; auto with tui).
    + apply calm_close; auto with tui.
    + apply calm_stay; [apply same_refl|]. apply settings_panel, row_up_lt; [simpl; lia|done].
    + apply calm_stay; [apply same_refl|]. apply settings_panel, row_down_lt.
    + apply calm_stay; [apply same_refl|]. by apply settings_panel.
    + apply calm_stay; [apply same_refl|]. split; [unfold overlay_ok; simpl; lia|done].
Qed.

Lemma handle_advanced_settings_key_calm env s key a :
  ao_selected s < length ADVANCED_ORDER →
  calm a (handle_advanced_settings_key env s key a).
Proof.
  intros Hs. unfold handle_advanced_settings_key.
  repeat case_match; apply calm_stay; auto with tui; try (split; [exact Hs|done]).
  - apply new_settings_ok.
  - split; [apply row_up_lt; [simpl; lia|done]|done].
  - split; [apply row_down_lt|done].
Qed.
Lemma handle_update_prompt_key_calm prompt key a :
  overlay a = ONone → calm a (handle_update_prompt_key prompt key a).
Proof.
  intros Ho. unfold handle_update_prompt_key.
  case_match; try (by apply calm_stay; [apply same_refl|]).
  - by apply calm_close; [split|].
  - by apply calm_do; [split| |].
Qed.

(** *** Conversations *)

Lemma session_panel s : picker_wf (sw_rows s) → panel_ok (OSessions s).
Proof. by split. Qed.
Lemma with_session_id_eq verb id f a : with_session_id verb id f a = ([f id], a).
Proof. done. Qed.
Lemma begin_edit_rows s : sw_rows (begin_edit s) = sw_rows s.
Proof. unfold begin_edit. by case_match. Qed.
Lemma begin_delete_rows s : sw_rows (begin_delete s) = sw_rows s.
Proof. unfold begin_delete. by case_match. Qed.

Lemma handle_session_edit_key_calm s edit key a :
  picker_wf (sw_rows s) → calm a (handle_session_edit_key s edit key a).
Proof.
  intros Hs. unfold handle_session_edit_key.
  assert (∀ e, panel_ok (OSessions (set_sw_edit e s))) as Hok by (intros; by apply session_panel).
  destruct (code key); try (apply calm_stay; [apply same_refl|apply Hok]).
  case_match; [apply (calm_stay a (notice _ a) (OSessions _)); auto with tui|].
  rewrite with_session_id_eq. by apply calm_set; [apply same_refl|apply Hok|repeat constructor].
Qed.
Lemma handle_session_delete_key_calm s confirm key a :
  picker_wf (sw_rows s) → calm a (handle_session_delete_key s confirm key a).
Proof.
  intros Hs. unfold handle_session_delete_key.
  assert (panel_ok (OSessions (set_sw_confirm None s))) as Hok by by apply session_panel.
  repeat case_match; [|by apply calm_stay; [apply same_refl|]..].
  rewrite with_session_id_eq. by apply calm_set; [apply same_refl|apply Hok|repeat constructor].
Qed.
Lemma handle_sessions_key_calm env s key a :
  overlay a = ONone → picker_wf (sw_rows s) → calm a (handle_sessions_key env s key a).
Proof.
  intros Ho Hs. unfold handle_sessions_key.
  destruct (sw_edit s) as [edit|]; [by apply handle_session_edit_key_calm|].
  destruct (sw_confirm_delete s) as [confirm|]; [by apply handle_session_delete_key_calm|].
  case_match; [apply calm_stay; [apply same_refl|]; apply session_panel; by rewrite begin_edit_rows|].
  case_match; [apply calm_stay; [apply same_refl|]; apply session_panel; by rewrite begin_delete_rows|].
  case_match; [|apply calm_stay; [apply same_refl|by apply session_panel]].
  pose proof (picker_on_key_wf key _ Hs) as Hw.
  destruct (picker_on_key key (sw_rows s)) as [outcome rows]. destruct outcome.
  - apply calm_stay; [apply same_refl|by apply session_panel].
  - unfold open_conversation. repeat case_match;
      [by apply handle_slash_calm|by apply calm_do; [apply same_refl| |]|by apply calm_close; auto with tui].
  - by apply calm_close; auto with tui.
Qed.

(** *** The entity browser *)

Definition browser_ok (b : EntityBrowser) : Prop := overlay_ok (OEntities b).
Lemma browser_stay b a : browser_ok b → calm a (keep_open b a).
Proof. intros. by apply calm_stay; [apply same_refl|]. Qed.

Lemma on_tab_calm {T} `{!PickerItem T} (p : Picker T) put choose b key a :
  overlay a = ONone → picker_wf p → (∀ q, picker_wf q → browser_ok (put q b)) →
  (∀ q, browser_ok (put q b) → calm a (choose (put q b) a)) →
  calm a (on_tab p put choose b key a).
Proof.
  intros Ho Hp Hput Hchoose. unfold on_tab. pose proof (picker_on_key_wf key _ Hp) as Hw.
  destruct (picker_on_key key p) as [outcome q]. destruct outcome.
  - by apply browser_stay, Hput.
  - by apply Hchoose, Hput.
  - by apply calm_close; auto with tui.
Qed.
Lemma choose_project_calm b a : browser_ok b → calm a (choose_project b a).
Proof.
  intros Hb. unfold choose_project. case_match; [|by apply browser_stay].
  by apply calm_set; [apply same_refl| |repeat constructor].
Qed.
Lemma choose_cloud_agent_calm b a : overlay a = ONone → calm a (choose_cloud_agent b a).
Proof. intros Ho. unfold choose_cloud_agent. case_match; apply calm_close; auto with tui. Qed.
Lemma choose_org_calm b a : overlay a = ONone → browser_ok b → calm a (choose_org b a).
Proof.
  intros Ho Hb. unfold choose_org. case_match; [case_match|].
  - by apply calm_close; auto with tui.
  - apply calm_do; [auto with tui|done|exact I].
  - by apply browser_stay.
Qed.
Lemma handle_entities_key_calm b key a :
  overlay a = ONone → browser_ok b → calm a (handle_entities_key b key a).
Proof.
  intros Ho Hb. pose proof Hb as (H1 & H2 & H3 & H4 & H5 & H6). unfold handle_entities_key.
  case_match; [by apply browser_stay|]. case_match; [by apply browser_stay|].
  destruct (eb_tab b).
  1-5: apply on_tab_calm; try done; auto using choose_project_calm, choose_cloud_agent_calm,
    browser_stay; intros q Hq; repeat apply conj; assumption.
  case_match.
  - apply (calm_set a (notice _ a)); [auto with tui|by split|by repeat constructor].
  - apply on_tab_calm; [done|done|intros q Hq; repeat apply conj; assumption|]. auto using choose_org_calm.
Qed.

(** *** Agents *)

Lemma switcher_panel s :
  picker_wf (as_rows s) → as_confirm_delete s ≠ Some DEFAULT_AGENT_LABEL → panel_ok (OAgentSwitcher s).
Proof. by split. Qed.
Lemma position_lt {A} `{EqDecision A} (x : A) l i : position x l = Some i → i < length l.
Proof.
  revert i. induction l as [|y l IH]; intros i; simpl; [discriminate|].
  case_bool_decide; [intros [= <-]; lia|].
  destruct (position x l) as [j|]; simpl; intros [= <-]. specialize (IH j eq_refl). lia.
Qed.
Lemma wrap_index_lt len i f : 0 < len → wrap_index len i f < len.
Proof. intros. unfold wrap_index. destruct f; apply Nat.mod_upper_bound; lia. Qed.
Lemma detail_fields_length d : 0 < length (detail_fields d).
Proof. unfold detail_fields. rewrite length_app. simpl. lia. Qed.
Lemma move_field_ok f d : ad_field (move_field f d) ∈ detail_fields (move_field f d).
Proof.
  unfold move_field. set (i := wrap_index _ _ _).
  change (detail_fields (set_ad_field ?x d)) with (detail_fields d).
  destruct (lookup_lt_is_Some_2 (detail_fields d) i) as [x Hx].
  { apply wrap_index_lt, detail_fields_length. }
  change (ad_field (set_ad_field ?x d)) with x. rewrite Hx. by eapply list_elem_of_lookup_2.
Qed.
Lemma detail_edit_buffer_ok f d :
  ad_field d ∈ detail_fields d →
  ad_field (detail_edit_buffer f d) ∈ detail_fields (detail_edit_buffer f d).
Proof. unfold detail_edit_buffer. intros Hd. by destruct (ad_field d) eqn:E; simpl; rewrite E. Qed.
Lemma detail_loading_ok name is_default :
  ad_field (detail_loading name is_default) ∈ detail_fields (detail_loading name is_default).
Proof. destruct is_default; simpl; set_solver. Qed.

Lemma handle_agent_create_key_calm env form key a :
  overlay a = ONone → calm a (handle_agent_create_key env form key a).
Proof.
  intros Ho. unfold handle_agent_create_key, submit_agent_create.
  repeat case_match; first [by apply calm_stay; [apply same_refl|] | by apply calm_close; auto with tui
    | apply calm_do; [auto with tui|done|exact I]].
Qed.
Lemma handle_agent_detail_key_calm d key a :
  ad_field d ∈ detail_fields d → calm a (handle_agent_detail_key d key a).
Proof.
  intros Hd. unfold handle_agent_detail_key. case_match.
  { apply calm_set; [apply same_refl|apply new_switcher_ok|by repeat constructor]. }
  case_match; [by apply calm_stay; [apply same_refl|]|].
  case_match; try (by apply calm_stay; [apply same_refl|]);
    try (apply calm_stay; [apply same_refl|]; split; [apply move_field_ok|done]).
  - apply calm_set; [apply same_refl|apply new_switcher_ok|by repeat constructor].
  - apply calm_stay; [apply same_refl|]. split; [by apply detail_edit_buffer_ok|done].
  - apply calm_stay; [apply same_refl|]. case_match; [done|].
    split; [by apply detail_edit_buffer_ok|done].
Qed.
Lemma agent_begin_delete_ok s :
  picker_wf (as_rows s) → as_confirm_delete s ≠ Some DEFAULT_AGENT_LABEL →
  panel_ok (OAgentSwitcher (agent_begin_delete DEFAULT_AGENT_LABEL s)).
Proof.
  intros. unfold agent_begin_delete. case_match; [|by split].
  case_match eqn:Hg; [by split|]. apply orb_false_iff in Hg as [_ Hg].
  case_bool_decide; [done|]. split; [|done]. split; [done|]. by intros [= ?].
Qed.
Lemma handle_agent_switcher_key_calm s key a :
  overlay a = ONone → picker_wf (as_rows s) →
  as_confirm_delete s ≠ Some DEFAULT_AGENT_LABEL → calm a (handle_agent_switcher_key s key a).
Proof.
  intros Ho Hw Hc. unfold handle_agent_switcher_key.
  destruct (as_confirm_delete s) as [name|] eqn:Es.
  - unfold handle_agent_delete_key.
    assert (panel_ok (OAgentSwitcher (set_as_confirm None s))) as Hok by by apply switcher_panel.
    repeat case_match; [|by apply calm_stay; [apply same_refl|]|].
    + apply calm_set; [apply same_refl|done|]. constructor; [|constructor]. intros ->. by apply Hc.
    + apply calm_stay; [apply same_refl|]. apply switcher_panel; [done|by rewrite Es].
  - assert (as_confirm_delete s ≠ Some DEFAULT_AGENT_LABEL) as Hs by by rewrite Es.
    assert (∀ b, same a b → calm a (stay (set_overlay (OAgentSwitcher s) b))) as Hback.
    { intros. apply calm_stay; [done|]. by apply switcher_panel. }
    case_match; [case_match; [|by apply Hback, same_refl]|].
    { apply calm_set; [apply same_refl| |by repeat constructor].
      split; [apply detail_loading_ok|done]. }
    case_match.
    { apply calm_stay; [case_match; auto with tui|by apply agent_begin_delete_ok]. }
    case_match; [apply Hback; auto with tui|].
    case_match; [|by apply Hback, same_refl].
    pose proof (picker_on_key_wf key _ Hw) as Hw'.
    destruct (picker_on_key key (as_rows s)) as [outcome rows]. destruct outcome.
    + apply calm_stay; [apply same_refl|]. by apply switcher_panel.
    + unfold open_agent_row. repeat case_match; [apply open_agent_creator_calm| | |];
        first [by apply calm_close; auto with tui | by apply calm_do; auto with tui].
    + by apply calm_close; auto with tui.
Qed.

(** *** The other panels *)

Lemma handle_model_key_calm p key a :
  overlay a = ONone → picker_wf (mpk_picker p) → calm a (handle_model_key p key a).
Proof.
  intros Ho Hp. unfold handle_model_key. case_match; [by apply calm_close; auto with tui|].
  pose proof (picker_on_key_wf key _ Hp) as Hw.
  destruct (picker_on_key key (mpk_picker p)) as [outcome q]. destruct outcome.
  - by apply calm_stay; [apply same_refl|].
  - case_match; by apply calm_close; auto with tui.
  - by apply calm_close; auto with tui.
Qed.
Lemma handle_menu_key_calm m key a :
  overlay a = ONone → picker_wf (mm_picker m) → calm a (handle_menu_key m key a).
Proof.
  intros Ho Hp. unfold handle_menu_key. pose proof (picker_on_key_wf key _ Hp) as Hw.
  destruct (picker_on_key key (mm_picker m)) as [outcome q]. destruct outcome.
  - by apply calm_stay; [apply same_refl|].
  - case_match; [by apply open_section_calm|by apply calm_close; auto with tui].
  - by apply calm_close; auto with tui.
Qed.

Lemma calm_taken a s : calm (set_overlay ONone a) s → calm a s.
Proof. by intros []; split. Qed.
(** Every panel but the permission request handles its keys calmly. *)
Lemma handle_overlay_key_calm env key a :
  panel_ok (overlay a) → calm a (handle_overlay_key env key a).
Proof.
  intros [Ho Hp]. unfold handle_overlay_key. apply calm_taken.
  destruct (overlay a) as [| |r|p|s|b|m|s|s|p|s|f|d]; try discriminate Hp; cbn [overlay_ok] in Ho.
  - by apply calm_close; auto with tui.
  - by apply calm_close; auto with tui.
  - by apply handle_model_key_calm.
  - by apply handle_sessions_key_calm.
  - by apply handle_entities_key_calm.
  - by apply handle_menu_key_calm.
  - by apply handle_settings_key_calm.
  - by apply handle_advanced_settings_key_calm.
  - by apply handle_update_prompt_key_calm.
  - destruct Ho. by apply handle_agent_switcher_key_calm.
  - by apply handle_agent_create_key_calm.
  - by apply handle_agent_detail_key_calm.
Qed.
End panels.


(** ** Every message *)

Section update_step.
Context `{Unicode}.
Implicit Types (a : App) (key : KeyEvent).

Record inv a : Prop := {
  inv_composer : composer_wf (composer a);
  inv_overlay : overlay_ok (overlay a);
}.
Definition tracked a b : Prop :=
  session_state b = session_state a ∧ persisted_message_count b = persisted_message_count a ∨
  Harness.messages (session_state b) = [] ∧ persisted_message_count b = 0.
(** A turn is submitted only when none is running, and runs from then on. *)
Definition turn_step a (s : step) : Prop :=
  ts_running (turn s.2) = ts_running (turn a) ∧ Forall quiet s.1 ∨
  ∃ prompt, s.1 = [SubmitTurn prompt] ∧ ts_running (turn a) = false ∧
    ts_running (turn s.2) = true ∧ session_state s.2 = session_state a.

(** What holds of every step but the ones that ask or answer a permission
    request, end a turn or resume a session. *)
Record tame a (s : step) : Prop := {
  tame_pending : pending_permission s.2 = pending_permission a;
  tame_overlay : ∀ r, overlay s.2 = OPermission r → overlay a = OPermission r;
  tame_turn : turn_step a s;
  tame_tracked : tracked a s.2;
  tame_inv : inv a → inv s.2;
  tame_bounds : ∀ start, in_bounds start a → in_bounds start s.2;
}.
Lemma calm_tame a s : calm a s → tame a s.
Proof.
  intros [Hp Ht Hc Htr Hb [Ho1 Ho2] He]. split; try done.
  - intros r Hr. by rewrite Hr in Ho2.
  - left. by rewrite Ht.
  - intros [Hw _]. split; [by rewrite Hc|done].
Qed.

Lemma composer_tame f a :
  overlay a = ONone → (composer_wf (composer a) → composer_wf (f (composer a))) →
  tame a (on_composer f a).
Proof.
  intros Ho Hf. split; try done; [by left|by left|]. intros [Hw Hov]. split; auto.
Qed.
Lemma scroll_tame a sc : tame a (stay (set_scroll sc a)).
Proof. split; try done; [by left|by left|]. by intros []. Qed.
Lemma submit_turn_tame prompt a : overlay a = ONone → tame a (submit_turn prompt a).
Proof.
  intros Ho. unfold submit_turn. destruct (ts_running (turn a)) eqn:Hr.
  - apply calm_tame, calm_close; auto with tui.
  - split; [reflexivity|done|by right; exists prompt|by left|by intros []|done].
Qed.
(** Emptying the composer before the line is run. *)
Lemma tame_emptied a c s :
  composer_wf c → tame (set_composer c a) s → tame a s.
Proof. intros Hc [H1 H2 H3 H4 H5 H6]. split; try done. intros []. by apply H5. Qed.
Lemma handle_input_key_tame env key a : overlay a = ONone → tame a (handle_input_key env key a).
Proof.
  intros Ho. unfold handle_input_key, cp_take.
  assert (∀ ch, composer_wf (composer a) → composer_wf (cp_insert_char ch (composer a))) as Hins.
  { intros ch Hw. by apply (composer_ops_wf _ ch [] Hw). }
  assert (composer_wf (composer a) →
    composer_wf (cp_backspace (composer a)) ∧ composer_wf (cp_delete (composer a)) ∧
    composer_wf (cp_left (composer a)) ∧ composer_wf (cp_right (composer a)) ∧
    composer_wf (cp_home (composer a)) ∧ composer_wf (cp_end (composer a))) as Hops.
  { intros Hw. by destruct (composer_ops_wf _ 0%N [] Hw) as (?&?&?&?&?&?&?&?&?). }
  destruct (code key).
  all: try (apply composer_tame; [done|]; try apply Hins; intros Hw; by apply Hops in Hw as (?&?&?&?&?&?)).
  all: try (unfold scroll_up, scroll_down; apply scroll_tame).
  all: try (apply calm_tame, calm_close; [apply same_refl|done]).
  - case_match; [apply calm_tame, calm_do; auto with tui; exact I|].
    by apply composer_tame; [|intros _; apply Nat.le_0_l].
  - case_match; [apply composer_tame; [done|apply Hins]|].
    apply (tame_emptied a (cp_clear (composer a))); [unfold composer_wf; simpl; lia|].
    unfold submit_line. case_match; [by apply calm_tame, calm_close; [apply same_refl|]|].
    case_match; [by apply calm_tame, handle_slash_calm|by apply submit_turn_tame].
  - repeat case_match; apply calm_tame;
      auto using help_calm, open_model_picker_calm, open_entities_calm, open_sessions_calm;
      by apply calm_close; [apply same_refl|].
Qed.

(** *** Messages that arrive in the background *)

(** [b] is [a] with a transcript, a status or the panel changed. *)
Record beside a b : Prop := {
  bs_pending : pending_permission b = pending_permission a;
  bs_running : ts_running (turn b) = ts_running (turn a);
  bs_composer : composer b = composer a;
  bs_session : session_state b = session_state a;
  bs_persisted : persisted_message_count b = persisted_message_count a;
  bs_overlay : overlay b = overlay a ∨ panel_ok (overlay b);
  bs_bounds : ∀ start, in_bounds start a → in_bounds start b;
}.
Lemma beside_tame a b : beside a b → tame a (stay b).
Proof.
  intros [Hp Hr Hc Hs Hn Ho Hb]. split; [done| |by left|by left| |done].
  - intros r Hov. simpl in Hov. destruct Ho as [Ho|[_ Ho]]; [by rewrite <- Ho|by rewrite Hov in Ho].
  - intros [Hw Hov]. split; simpl; [by rewrite Hc|].
    destruct Ho as [->|[Ho _]]; done.
Qed.
Lemma same_beside a b : same a b → beside a b.
Proof. intros []. split; auto. congruence. Qed.
Lemma panel_beside a o : panel_ok o → beside a (set_overlay o a).
Proof. intros. split; auto. Qed.
Lemma conversation_beside f a : beside a (on_conversation f a).
Proof. split; auto. Qed.
Lemma on_turn_beside f a b :
  (∀ t, ts_running (f t) = ts_running t) → beside a b → beside a (on_turn f b).
Proof. intros Hf []. split; auto. simpl. by rewrite Hf. Qed.
Lemma notice_beside a b t : beside a b → beside a (notice t b).
Proof. intros []. split; auto. Qed.
Lemma turn_record_usage_beside u c a b : beside a b → beside a (turn_record_usage u c b).
Proof. intros []. unfold turn_record_usage. destruct u, c; split; auto. Qed.
Lemma set_verification_beside v a b : beside a b → beside a (set_verification v b).
Proof. intros []. split; auto. Qed.
Lemma apply_event_beside e a : beside a (apply_event e a).
Proof.
  destruct e as [|session turn_id ts event]; [by apply same_beside, same_refl|].
  unfold apply_event.
  destruct event; try (by apply same_beside, same_refl);
    try (apply on_turn_beside; [done|]); try apply conversation_beside;
    try apply turn_record_usage_beside; try (apply on_turn_beside; [done|]); try case_match;
    try apply notice_beside; try apply set_verification_beside; by apply same_beside, same_refl.
Qed.

Lemma browser_rows_ok {T} `{!PickerItem T} (get : EntityBrowser → Picker T) put clears r b :
  (∀ q, picker_wf q → browser_ok (put q b)) → browser_ok b →
  browser_ok (browser_rows get put clears r b).
Proof.
  intros Hput Hb. unfold browser_rows. destruct r as [items|]; [|done].
  destruct clears; [|apply Hput, set_items_wf]. exact (Hput _ (set_items_wf items _)).
Qed.
Lemma with_entities_beside f a :
  (∀ b, browser_ok b → browser_ok (f b)) → overlay_ok (overlay a) → beside a (with_entities f a).
Proof.
  intros Hf Ho. unfold with_entities. case_match eqn:E; try (by apply same_beside, same_refl).
  apply panel_beside. split; [|done]. by apply Hf.
Qed.
Lemma rows_beside {T} `{!PickerItem T} (get : EntityBrowser → Picker T) put clears r a :
  (∀ q b, browser_ok b → picker_wf q → browser_ok (put q b)) → inv a →
  beside a (with_entities (browser_rows get put clears r) a).
Proof.
  intros Hput Hi. apply with_entities_beside; [|apply Hi]. intros b Hb.
  apply browser_rows_ok; auto.
Qed.
Lemma put_rows_ok b :
  browser_ok b →
  (∀ q, picker_wf q → browser_ok (set_projects q b)) ∧ (∀ q, picker_wf q → browser_ok (set_agents_list q b)) ∧
  (∀ q, picker_wf q → browser_ok (set_mcp q b)) ∧ (∀ q, picker_wf q → browser_ok (set_memory q b)) ∧
  (∀ q, picker_wf q → browser_ok (set_users q b)) ∧ (∀ q, picker_wf q → browser_ok (set_orgs q b)).
Proof.
  intros (?&?&?&?&?&?). repeat apply conj; intros q Hq; repeat apply conj; assumption.
Qed.
Lemma listing_tame env m a :
  inv a →
  match m with
  | MModels _ | MSessionList _ | MAgentList _ | MAgentDetailLoaded _ => True | _ => False
  end → tame a (update env m a).
Proof.
  intros Hi Hm. pose proof (inv_overlay _ Hi) as Ho.
  destruct m; try done; cbn [update]; apply beside_tame; destruct (overlay a) eqn:E;
    try (by apply same_beside, same_refl); apply panel_beside; cbn [overlay_ok] in Ho.
  - split; [|done]. unfold apply_models. case_match; [case_match|]; try done. apply set_items_wf.
  - split; [|done]. unfold apply_session_list. case_match; [case_match|]; try done; apply set_items_wf.
  - destruct Ho. split; [|done]. case_match; [|done]. split; [apply set_items_wf|done].
  - split; [|done]. by case_match.
Qed.
Ltac rows_tame :=
  apply beside_tame, rows_beside; [|done]; intros q b Hb Hq;
  destruct (put_rows_ok b Hb) as (?&?&?&?&?&?); auto.

(** *** The step of every other message *)

Definition resumes (m : Msg) : bool :=
  match m with MSessionResumed (Ok _) => true | _ => false end.
Definition finishes (m : Msg) : bool := match m with MTurnFinished _ => true | _ => false end.
Definition asks (m : Msg) : option (PermissionRequest * Reply) :=
  match m with MPermissionAsked r reply => Some (r, reply) | _ => None end.
Definition decides (key : KeyEvent) : bool := permission_allow key || permission_deny key.

Lemma handle_permission_key_tame env key a :
  is_permission (overlay a) = true → decides key = false → tame a (handle_overlay_key env key a).
Proof.
  intros Hp Hd. unfold handle_overlay_key. destruct (overlay a) as [| |r| | | | | | | | | |] eqn:Ho;
    try discriminate Hp.
  unfold handle_permission_key. apply orb_false_iff in Hd as [-> ->]. cbn [negb andb].
  split; [done| |by left|by left| |done].
  - intros r' Hr'. by rewrite <- Hr', Ho.
  - by intros [? _].
Qed.
Lemma update_tame env m a :
  inv a → resumes m = false → finishes m = false → asks m = None →
  (∀ key, m = MKey key → is_permission (overlay a) = true → decides key = false) →
  tame a (update env m a).
Proof.
  intros Hi Hr Hf Ha Hp. pose proof (inv_overlay _ Hi) as Ho.
  destruct m; try discriminate; cbn [update].
  - unfold handle_key. case_match; [by split; try done; left; repeat constructor|].
    case_match; [apply calm_tame, open_menu_calm|]. case_match eqn:Hop.
    + destruct (is_permission (overlay a)) eqn:Hperm.
      { apply handle_permission_key_tame; [done|]. by apply Hp. }
      apply calm_tame, handle_overlay_key_calm. by split.
    + apply handle_input_key_tame. by destruct (overlay a).
  - apply beside_tame. by split; auto.
  - apply beside_tame. by split; auto.
  - repeat case_match; [by apply beside_tame, same_beside, same_refl|apply scroll_tame..].
  - apply beside_tame, conversation_beside.
  - apply beside_tame, apply_event_beside.
  - apply beside_tame, same_beside; auto with tui.
  - apply beside_tame. by split; auto.
  - by rows_tame.
  - by rows_tame.
  - by rows_tame.
  - by rows_tame.
  - by rows_tame.
  - by rows_tame.
  - exact (listing_tame env (MModels r) a Hi I).
  - exact (listing_tame env (MSessionList r) a Hi I).
  - exact (listing_tame env (MAgentList r) a Hi I).
  - exact (listing_tame env (MAgentDetailLoaded r) a Hi I).
  - destruct r as [[]|]; [discriminate|]. apply beside_tame, same_beside; auto with tui.
  - apply beside_tame. case_match; [|by split; auto]. split; auto. right. by split.
  - split; try done; left; by repeat constructor.
Qed.

(** *** The steps that ask, answer, end a turn and resume *)

Lemma permission_key_step env key r a :
  overlay a = OPermission r → decides key = true →
  update env (MKey key) a =
  (match pending_permission a with
   | Some reply => [ResolvePermission reply (modal_decision r (permission_allow key))]
   | None => []
   end, set_pending None (set_overlay ONone a)).
Proof.
  intros Ho Hd. cbn [update]. unfold handle_key.
  assert (is_key key "c" = false ∧ is_key key "p" = false) as [-> ->].
  { unfold is_key, decides, permission_allow, permission_deny, is_key, is_code in *.
    split; apply bool_decide_eq_false; intros Hk; rewrite Hk in Hd; discriminate Hd. }
  rewrite !andb_false_r. unfold handle_overlay_key. rewrite Ho. cbn [is_open].
  unfold handle_permission_key. unfold decides in Hd.
  replace (negb (permission_allow key) && negb (permission_deny key)) with false
    by by rewrite <- negb_orb, Hd.
  change (pending_permission (set_overlay ONone a)) with (pending_permission a).
  by destruct (pending_permission a).
Qed.

(** The messages that end a turn or resume a session leave the panel alone. *)
Lemma turn_message_frame env m a :
  resumes m || finishes m = true →
  pending_permission (update env m a).2 = pending_permission a ∧
  overlay (update env m a).2 = overlay a ∧ composer (update env m a).2 = composer a ∧
  (∀ start, in_bounds start a → in_bounds start (update env m a).2).
Proof.
  intros Hm. destruct m; try discriminate; cbn [update].
  - destruct r as [o|]; cbn [handle_turn_finished]; [|done].
    by destruct (out_assistant_message o).
  - by destruct r as [[]|].
Qed.

(** *** Effects carried out in place *)

Record executed a b : Prop := {
  ex_pending : pending_permission b = pending_permission a;
  ex_overlay : overlay b = overlay a ∨ overlay b = ONone;
  ex_inv : inv a → inv b;
  ex_bounds : ∀ start, in_bounds start a → in_bounds start b;
  ex_tracked : tracked a b;
}.
Lemma executed_same a b : same a b → executed a b.
Proof.
  intros [? ? Hc ? ? Ho Hb]. split; [done|by left| |done|by left].
  intros []. split; [by rewrite Hc|by rewrite Ho].
Qed.
Lemma execute_effect_executed env e a : executed a (execute_effect env e a).
Proof.
  destruct e; cbn [execute_effect]; try (by apply executed_same, same_refl).
  - repeat case_match; apply executed_same; auto with tui.
  - unfold switch_org. case_match; [|apply executed_same; auto with tui].
    split; [by case_match|by right| |by case_match|by case_match; left].
    intros [Hc _]. by case_match; split.
  - unfold switch_agent. case_match; [|apply executed_same; auto with tui].
    split; [done|by left|by intros []|done|by right].
  - apply executed_same. by split.
Qed.
Lemma tracked_trans a b c : tracked a b → tracked b c → tracked a c.
Proof. intros [[H1 H2]|[H1 H2]] [[H3 H4]|[H3 H4]]; unfold tracked; rewrite ?H3, ?H4, ?H1, ?H2; auto. Qed.
Lemma executed_trans a b c : executed a b → executed b c → executed a c.
Proof.
  intros [Hp1 Ho1 Hi1 Hb1 Ht1] [Hp2 Ho2 Hi2 Hb2 Ht2].
  split; [congruence| |auto|auto|by eapply tracked_trans].
  destruct Ho2 as [Ho2|Ho2]; rewrite Ho2; auto.
Qed.
Lemma execute_effects_executed env es a : executed a (execute_effects env es a).
Proof.
  revert a. induction es as [|e es IH]; intros a; [by apply executed_same, same_refl|].
  eapply executed_trans; [apply execute_effect_executed|apply IH].
Qed.
End update_step.

(** ** Theorems over the event loop *)

Section theorems.
Context `{Unicode}.
Implicit Types (a : App) (key : KeyEvent).

Definition no_default_delete (e : Effect) : Prop :=
  match e with DeleteAgent name => name ≠ DEFAULT_AGENT_LABEL | _ => True end.
Lemma quiet_no_default e : quiet e → no_default_delete e.
Proof. by destruct e. Qed.

Lemma loop_step_eq env m a :
  loop_step env m a = ((update env m a).1, execute_effects env (update env m a).1 (update env m a).2).
Proof. unfold loop_step. by destruct (update env m a). Qed.

Lemma turn_step_no_default a s : turn_step a s → Forall no_default_delete s.1.
Proof.
  intros [[_ Hq]|(prompt & -> & _)]; [|by repeat constructor].
  eapply Forall_impl; [exact Hq|apply quiet_no_default].
Qed.
(** A message is tame, ends a turn or resumes a session, asks for a permission,
    or is the key that answers the request shown. *)
Lemma message_cases m a :
  resumes m || finishes m = true ∨ (∃ r reply, m = MPermissionAsked r reply) ∨
  (∃ key r, m = MKey key ∧ overlay a = OPermission r ∧ decides key = true) ∨
  (resumes m = false ∧ finishes m = false ∧ asks m = None ∧
   ∀ key, m = MKey key → is_permission (overlay a) = true → decides key = false).
Proof.
  destruct (resumes m) eqn:Hr; [by left|]. destruct (finishes m) eqn:Hf; [by left|].
  destruct (asks m) as [[r reply]|] eqn:Ha.
  { right; left. destruct m; try discriminate Ha. by injection Ha as -> ->; eauto. }
  destruct m as [key| | | | | | | | | | | | | | | | | | | | | |];
    try (right; right; right; split_and!; [done..|]; discriminate).
  destruct (overlay a) as [| |r| | | | | | | | | |] eqn:Ho;
    try (right; right; right; by split_and!).
  destruct (decides key) eqn:Hd.
  - right; right; left. by exists key, r.
  - right; right; right. split_and!; [done..|]. by intros ? [= <-].
Qed.

Lemma update_inv env m a :
  inv a →
  inv (update env m a).2 ∧ (∀ start, in_bounds start a → in_bounds start (update env m a).2) ∧
  Forall no_default_delete (update env m a).1.
Proof.
  intros Hi. destruct (message_cases m a) as [Hm|[(r & reply & ->)|[(key & r & -> & Ho & Hd)|
    (Hr & Hf & Ha & Hk)]]].
  - destruct (turn_message_frame env m a Hm) as (_ & Ho & Hc & Hb). destruct Hi as [Hw Hov].
    split; [split; [by rewrite Hc|by rewrite Ho]|]. split; [done|].
    destruct m as [| | | | | |[]| | | | | | | | | | | | | |[[]|]| |]; try discriminate Hm;
      by repeat constructor.
  - split; [by destruct Hi|]. split; [done|constructor].
  - rewrite (permission_key_step env key r a Ho Hd). split; [by destruct Hi|].
    split; [done|]. case_match; by repeat constructor.
  - pose proof (update_tame env m a Hi Hr Hf Ha Hk) as Ht.
    split; [by apply Ht|]. split; [apply Ht|eapply turn_step_no_default, Ht].
Qed.

Lemma event_loop_inv messages a :
  inv a →
  inv (event_loop messages a).2 ∧ (∀ start, in_bounds start a → in_bounds start (event_loop messages a).2) ∧
  Forall no_default_delete (event_loop messages a).1.
Proof.
  revert a. induction messages as [|[env m] rest IH]; intros a Hi; cbn [event_loop]; [by split|].
  destruct (should_quit a); [by split|]. rewrite loop_step_eq.
  destruct (update_inv env m a Hi) as (Hi1 & Hb1 & Hd1).
  pose proof (execute_effects_executed env (update env m a).1 (update env m a).2) as Hx.
  destruct (IH _ (ex_inv _ _ Hx Hi1)) as (Hi3 & Hb3 & Hd3). pose proof (ex_bounds _ _ Hx) as Hb2.
  destruct (event_loop rest _). split; [done|]. split; [auto|]. by apply Forall_app.
Qed.

(** ** Permission requests *)

Inductive input := Ask (r : PermissionRequest) (reply : Reply) | Press (key : KeyEvent).
Definition inputs (messages : list (Env * Msg)) : list input :=
  omap (λ '(_, m), match m with
                   | MKey key => Some (Press key)
                   | MPermissionAsked r reply => Some (Ask r reply)
                   | _ => None
                   end) messages.
Definition answers (es : list Effect) : list (Reply * PermissionDecision) :=
  omap (λ e, match e with ResolvePermission reply d => Some (reply, d) | _ => None end) es.

(** What a key says about a request. *)
Definition verdict (key : KeyEvent) : option bool :=
  if decide (code key = key_char "y" ∨ code key = key_char "a") then Some true
  else if decide (code key = key_char "n" ∨ code key = KEsc) then Some false
  else None.
Lemma verdict_decides key :
  verdict key = if decides key then Some (permission_allow key) else None.
Proof.
  unfold verdict, decides, permission_allow, permission_deny, is_key, is_code.
  repeat case_decide; repeat case_bool_decide; simpl; tauto || congruence.
Qed.

(** Who may answer what: a request is answered at most once, to its own caller
    and under its own id, by the first key after it that says anything, before
    another request arrives, and as that key says. *)
Inductive answered : list input → list (Reply * PermissionDecision) → Prop :=
| answered_nil : answered [] []
| answered_skip i ins ds : answered ins ds → answered (i :: ins) ds
| answered_block r reply ks key allow d ins ds :
    Forall (λ k, verdict k = None) ks → verdict key = Some allow →
    decision_request_id d = request_id r → allows_execution d = allow → answered ins ds →
    answered (Ask r reply :: (Press <$> ks) ++ Press key :: ins) ((reply, d) :: ds).

Lemma answered_key r reply key ins ds :
  decides key = false → answered (Ask r reply :: ins) ds →
  answered (Ask r reply :: Press key :: ins) ds.
Proof.
  intros Hk Ha. inversion Ha as [|? ? ? Hs|? ? ks key' allow d ins' ds' Hks Hv Hi Hd Hs]; subst.
  - by do 2 constructor.
  - apply (answered_block r reply (key :: ks) _ (allows_execution d)); [|done..].
    constructor; [by rewrite verdict_decides, Hk|done].
Qed.

(** What the modal is waiting for: the request shown, which is the one whose
    caller is pending. *)
Definition waiting a : list input :=
  match overlay a, pending_permission a with
  | OPermission r, Some reply => [Ask r reply]
  | _, _ => []
  end.
Lemma waiting_frame a b ins ds :
  pending_permission b = pending_permission a →
  (∀ r, overlay b = OPermission r → overlay a = OPermission r) →
  answered (waiting b ++ ins) ds → answered (waiting a ++ ins) ds.
Proof.
  intros Hp Ho. unfold waiting. rewrite Hp. destruct (overlay b) as [| |r| | | | | | | | | |] eqn:Hb;
    try rewrite (Ho r eq_refl); try done; intros Hd; simpl in Hd;
    destruct (overlay a), (pending_permission a); try done; by constructor.
Qed.
Lemma quiet_answers es : Forall quiet es → answers es = [].
Proof. induction 1 as [|e es He _ IH]; [done|]. by destruct e; simpl; rewrite ?IH. Qed.
Lemma answers_turn_step a s : turn_step a s → answers s.1 = [].
Proof. intros [[_ Hq]|(prompt & -> & _)]; [by apply quiet_answers|done]. Qed.

Lemma answered_none ins : answered ins [].
Proof. induction ins; by constructor. Qed.
Lemma answers_app es es' : answers (es ++ es') = answers es ++ answers es'.
Proof. apply omap_app. Qed.

(** A key that is not an answer does not change what is answered. *)
Lemma answered_press a key ins ds :
  (is_permission (overlay a) = true → decides key = false) →
  answered (waiting a ++ ins) ds → answered (waiting a ++ Press key :: ins) ds.
Proof.
  unfold waiting. intros Hk Ha.
  destruct (overlay a) as [| |r| | | | | | | | | |]; try by constructor.
  destruct (pending_permission a) as [reply|]; [|by constructor].
  by apply answered_key; [apply Hk|].
Qed.
Lemma inputs_cons env m messages :
  inputs ((env, m) :: messages) =
  match m with
  | MKey key => [Press key]
  | MPermissionAsked r reply => [Ask r reply]
  | _ => []
  end ++ inputs messages.
Proof. by destruct m. Qed.

Lemma executed_waiting a b ins ds :
  executed a b → answered (waiting b ++ ins) ds → answered (waiting a ++ ins) ds.
Proof.
  intros [Hp Ho _ _]. apply waiting_frame; [done|]. intros r Hr.
  destruct Ho as [Ho|Ho]; congruence.
Qed.
(** One message: what is answered afterwards, with what it answers itself. *)
Lemma update_answered env m a ins ds :
  inv a → answered (waiting (update env m a).2 ++ ins) ds →
  answered (waiting a ++ match m with
                         | MKey key => [Press key]
                         | MPermissionAsked r reply => [Ask r reply]
                         | _ => []
                         end ++ ins) (answers (update env m a).1 ++ ds).
Proof.
  intros Hi. destruct (message_cases m a) as [Hm|[(r & reply & ->)|[(key & r & -> & Ho & Hd)|
    (Hr & Hf & Ha & Hk)]]].
  - destruct (turn_message_frame env m a Hm) as (Hp & Ho & _).
    destruct m as [| | | | | |[]| | | | | | | | | | | | | |[[]|]| |]; try discriminate Hm;
      apply waiting_frame; intros; congruence.
  - cbn. intros Ha. unfold waiting. case_match; try done. case_match; [by constructor|done].
  - rewrite (permission_key_step env key r a Ho Hd). cbn [snd fst]. intros Ha.
    unfold waiting. rewrite Ho. destruct (pending_permission a) as [reply|].
    + apply (answered_block r reply [] _ (permission_allow key)); [constructor| | | |exact Ha].
      * by rewrite verdict_decides, Hd.
      * by destruct (permission_allow key).
      * by destruct (permission_allow key).
    + constructor. exact Ha.
  - pose proof (update_tame env m a Hi Hr Hf Ha Hk) as Ht. intros Had.
    rewrite (answers_turn_step _ _ (tame_turn _ _ Ht)).
    apply (waiting_frame a) in Had; [|apply Ht..].
    destruct m; try discriminate Ha; try exact Had. apply answered_press; [|done].
    by apply Hk.
Qed.
Lemma event_loop_answered messages a :
  inv a → answered (waiting a ++ inputs messages) (answers (event_loop messages a).1).
Proof.
  revert a. induction messages as [|[env m] rest IH]; intros a Hi; cbn [event_loop].
  { apply answered_none. }
  destruct (should_quit a); [apply answered_none|]. rewrite loop_step_eq, inputs_cons.
  pose proof (execute_effects_executed env (update env m a).1 (update env m a).2) as Hx.
  destruct (update_inv env m a Hi) as (Hi1 & _).
  specialize (IH _ (ex_inv _ _ Hx Hi1)). destruct (event_loop rest _) as [later b].
  cbn [fst] in *. rewrite answers_app. apply update_answered; [done|].
  by apply (executed_waiting _ _ _ _ Hx).
Qed.

Lemma App_new_inv s : inv (App_new s).
Proof. split; [unfold composer_wf; simpl; lia|done]. Qed.

(** C7. Permission requests are answered by the user and by nobody else.  Over
    every run of the event loop, whatever messages arrive in whatever order, the
    decisions sent are what the specification [answered] allows: each goes to the
    caller of a request that was asked, at most once, carries the id of that
    request, and is an approval exactly when the first deciding key pressed after
    the request, before any other request, was [y] or [a]. *)
Theorem permission_answers_sound messages s :
  answered (inputs messages) (answers (event_loop messages (App_new s)).1).
Proof. apply (event_loop_answered messages (App_new s)), App_new_inv. Qed.

(** C36. The panels, the composer and the settings stay well formed.  After any
    messages, the cursor is a position of the text, the visible rows of every list
    are the ones that match its filter and the highlighted one exists, the numeric
    settings are within their bounds (widened to the value the interface was started
    with, when the configuration holds one outside), and no deletion of the default
    agent is ever asked for. *)
Theorem interface_invariant messages s :
  inv (event_loop messages (App_new s)).2 ∧
  in_bounds (App_new s) (event_loop messages (App_new s)).2 ∧
  Forall no_default_delete (event_loop messages (App_new s)).1.
Proof.
  destruct (event_loop_inv messages (App_new s) (App_new_inv s)) as (Hi & Hb & Hd).
  split_and!; [exact Hi| |exact Hd]. apply Hb. intros pref step min max _. lia.
Qed.

(** ** Turns and what is persisted of them *)

Definition submits (es : list Effect) : bool :=
  existsb (λ e, match e with SubmitTurn _ => true | _ => false end) es.
Definition switches (es : list Effect) : bool :=
  existsb (λ e, match e with SwitchAgent _ => true | _ => false end) es.
(** The count of persisted messages is the length of the session. *)
Definition synced a : Prop :=
  persisted_message_count a = length (Harness.messages (session_state a)).
Definition resumed_synced (m : Msg) : Prop :=
  match m with
  | MSessionResumed (Ok (state, persisted)) => persisted = length (Harness.messages state)
  | _ => True
  end.

(** The application together with the turn in flight: the session it was
    submitted with.  A turn ends only if there is one; while it runs, the
    conversation is not reset, no session is resumed and no agent switched to.
    A resumed session comes with the number of its messages. *)
Inductive flight : option SessionState → App → Prop :=
| flight_start s :
    st_persisted s = length (Harness.messages (st_session s)) → flight None (App_new s)
| flight_finish base a env r :
    flight (Some base) a → flight None (loop_step env (MTurnFinished r) a).2
| flight_idle a env m :
    flight None a → finishes m = false → resumed_synced m →
    flight (if submits (loop_step env m a).1 then Some (session_state a) else None)
      (loop_step env m a).2
| flight_running base a env m :
    flight (Some base) a → finishes m = false → resumes m = false →
    switches (loop_step env m a).1 = false →
    session_state (loop_step env m a).2 = session_state a →
    flight (Some base) (loop_step env m a).2.

Definition flight_ok (f : option SessionState) a : Prop :=
  inv a ∧ synced a ∧ ts_running (turn a) = bool_decide (is_Some f) ∧
  ∀ base, f = Some base → session_state a = base.

Lemma tracked_synced a b : tracked a b → synced a → synced b.
Proof. unfold synced. intros [[-> ->]|[-> ->]]; done. Qed.
Lemma execute_running env es a :
  switches es = false → ts_running (turn (execute_effects env es a)) = ts_running (turn a) ∧
  session_state (execute_effects env es a) = session_state a.
Proof.
  revert a. induction es as [|e es IH]; intros a; [done|]. cbn [switches existsb].
  intros [He Hes]%orb_false_iff. specialize (IH (execute_effect env e a) Hes).
  change (execute_effects env (e :: es) a) with (execute_effects env es (execute_effect env e a)).
  destruct IH as [-> ->].
  destruct e; try done; cbn [execute_effect]; [by repeat case_match|].
  unfold switch_org. by repeat case_match.
Qed.
Lemma execute_idle env es a :
  ts_running (turn a) = false → ts_running (turn (execute_effects env es a)) = false.
Proof.
  revert a. induction es as [|e es IH]; intros a Ha; [done|]. apply (IH (execute_effect env e a)).
  destruct e; try done; cbn [execute_effect]; [by repeat case_match| |].
  - unfold switch_org. by repeat case_match.
  - unfold switch_agent. by case_match.
Qed.
Lemma submits_in prompt es : SubmitTurn prompt ∈ es → submits es = true.
Proof. intros Hin. apply existsb_exists. eexists. by rewrite <- list_elem_of_In. Qed.
Lemma submits_turn_step a s :
  turn_step a s →
  (submits s.1 = true → ts_running (turn a) = false ∧ switches s.1 = false ∧
                        session_state s.2 = session_state a) ∧
  (∀ o start, Persist o start ∉ s.1) ∧
  (submits s.1 = false → ts_running (turn s.2) = ts_running (turn a)) ∧
  (submits s.1 = true → ts_running (turn s.2) = true).
Proof.
  intros [[Hr Hq]|(prompt & Hs & Hn & Ht & Hss)].
  - assert (submits s.1 = false ∧ ∀ o start, Persist o start ∉ s.1) as [-> Hp]; [|done].
    clear -Hq. induction Hq as [|e es He _ [IH1 IH2]]; [split; [done|set_solver]|].
    split; [by destruct e|]. intros o start [He'|Hin]%elem_of_cons; [by rewrite <- He' in He|].
    by eapply IH2.
  - rewrite Hs. split; [done|]. split; [|done]. intros o start. set_solver.
Qed.

(** A message that does not end a turn: a turn starts only when none runs, and
    nothing is persisted. *)
Lemma update_turn env m a :
  inv a → finishes m = false →
  let s := update env m a in
  (submits s.1 = true → ts_running (turn a) = false ∧ switches s.1 = false ∧
                        session_state s.2 = session_state a) ∧
  (∀ o start, Persist o start ∉ s.1) ∧
  (submits s.1 = false → resumes m = false → ts_running (turn s.2) = ts_running (turn a)) ∧
  (submits s.1 = true → ts_running (turn s.2) = true) ∧
  (resumes m = true → s.1 = [] ∧ ts_running (turn s.2) = false) ∧
  (synced a → resumed_synced m → synced s.2).
Proof.
  intros Hi Hf. destruct (message_cases m a) as [Hm|[(r & reply & ->)|[(key & r & -> & Ho & Hd)|
    (Hr & _ & Ha & Hk)]]].
  - rewrite Hf, orb_false_r in Hm. destruct m as [| | | | | | | | | | | | | | | | | | | |[[state n]|]| |];
      try discriminate Hm. split_and!; try done. intros o start. cbn. set_solver.
  - split_and!; try done. intros o start. cbn. set_solver.
  - rewrite (permission_key_step env key r a Ho Hd). cbn zeta.
    split_and!; try done; case_match; try done; set_solver.
  - pose proof (update_tame env m a Hi Hr Hf Ha Hk) as Ht.
    destruct (submits_turn_step _ _ (tame_turn _ _ Ht)) as (H1 & H2 & H3 & H4).
    split_and!; try done; [auto|by rewrite Hr|]. intros Hs _. eapply tracked_synced; [apply Ht|done].
Qed.
Lemma finish_turn env r a :
  inv a → synced a →
  let s := loop_step env (MTurnFinished r) a in
  inv s.2 ∧ synced s.2 ∧ ts_running (turn s.2) = false ∧
  s.1 = match r with Ok o => [Persist o (persisted_message_count a)] | Err _ => [] end.
Proof.
  intros Hi Hs s. unfold s. rewrite loop_step_eq. cbn [fst snd].
  destruct (update_inv env (MTurnFinished r) a Hi) as (Hi1 & _).
  pose proof (execute_effects_executed env (update env (MTurnFinished r) a).1
                (update env (MTurnFinished r) a).2) as Hx.
  assert (switches (update env (MTurnFinished r) a).1 = false) as Hsw by by destruct r.
  destruct (execute_running env _ (update env (MTurnFinished r) a).2 Hsw) as [-> _].
  split_and!; [by apply Hx| | |].
  - eapply tracked_synced; [apply Hx|]. destruct r as [o|]; [|done].
    cbn [update handle_turn_finished]. by destruct (out_assistant_message o).
  - destruct r as [o|]; [|done]. cbn [update handle_turn_finished].
    by destruct (out_assistant_message o).
  - destruct r as [o|]; [|done]. cbn [update handle_turn_finished].
    by destruct (out_assistant_message o).
Qed.
Lemma running_idle (f : option SessionState) a : ts_running (turn a) = bool_decide (is_Some f) → ts_running (turn a) = false → f = None.
Proof. intros ->. destruct f; [|done]. by rewrite bool_decide_true by eauto. Qed.

Lemma flight_invariant f a : flight f a → flight_ok f a.
Proof.
  induction 1 as [s Hs|base a env r _ (Hi & Hsy & Hr & Hb)|a env m _ (Hi & Hsy & Hr & _) Hf Hrs
    |base a env m _ (Hi & Hsy & Hr & Hb) Hf Hres Hsw Hss].
  - split_and!; [apply App_new_inv|exact Hs|done|done].
  - destruct (finish_turn env r a Hi Hsy) as (H1 & H2 & H3 & _). split_and!; [done|done| |done].
    by rewrite H3.
  - destruct (update_turn env m a Hi Hf) as (H1 & _ & H3 & H4 & H5 & H6). specialize (H6 Hsy Hrs).
    destruct (update_inv env m a Hi) as (Hi1 & _). rewrite loop_step_eq. cbn [fst snd].
    pose proof (execute_effects_executed env (update env m a).1 (update env m a).2) as Hx.
    split_and!; [by apply Hx|by eapply tracked_synced; [apply Hx|]| |].
    + destruct (submits (update env m a).1) eqn:Hsub.
      * destruct (H1 eq_refl) as (_ & Hsw & _).
        destruct (execute_running env _ (update env m a).2 Hsw) as [-> _]. by apply H4.
      * apply execute_idle. destruct (resumes m) eqn:Hres; [by apply H5|].
        rewrite H3 by done. by rewrite Hr.
    + intros base. destruct (submits (update env m a).1) eqn:Hsub; [|done]. intros [= <-].
      destruct (H1 eq_refl) as (_ & Hsw & Hss).
      destruct (execute_running env _ (update env m a).2 Hsw) as [_ ->]. done.
  - rewrite loop_step_eq in *. cbn [fst snd] in *.
    destruct (update_turn env m a Hi Hf) as (H1 & _ & H3 & _ & _ & H6).
    assert (synced (update env m a).2) as Hsy'.
    { apply H6; [done|]. by destruct m as [| | | | | | | | | | | | | | | | | | | |[[]|]| |]. }
    destruct (update_inv env m a Hi) as (Hi1 & _).
    pose proof (execute_effects_executed env (update env m a).1 (update env m a).2) as Hx.
    destruct (execute_running env _ (update env m a).2 Hsw) as [Hrun _].
    split_and!; [by apply Hx|by eapply tracked_synced; [apply Hx|]| |].
    + rewrite Hrun, <- Hr. apply H3; [|done]. destruct (submits _) eqn:Hsub; [|done].
      destruct (H1 eq_refl) as [Hr' _]. by rewrite Hr' in Hr.
    + intros b Hbase. rewrite Hss. auto.
Qed.

(** C20. Turns are serialised and each is persisted from where it began.  While the
    conversation is left alone during a turn, a turn is submitted only when none
    is in flight, and what the end of a turn asks to persist starts at the number
    of messages of the very session the turn was submitted with. *)
Theorem turns_serialised f a env m :
  flight f a →
  (∀ prompt, SubmitTurn prompt ∈ (loop_step env m a).1 → f = None) ∧
  (∀ o start base, f = Some base → Persist o start ∈ (loop_step env m a).1 →
     m = MTurnFinished (Ok o) ∧ start = length (Harness.messages base)).
Proof.
  intros Hfl. destruct (flight_invariant _ _ Hfl) as (Hi & Hsy & Hr & Hb).
  destruct (finishes m) eqn:Hf.
  - destruct m as [| | | | | |r| | | | | | | | | | | | | | | |]; try discriminate Hf.
    destruct (finish_turn env r a Hi Hsy) as (_ & _ & _ & ->). split; intros ? ?; [by destruct r; set_solver|].
    intros base Hbase. rewrite <- (Hb _ Hbase), <- Hsy. destruct r; set_solver.
  - rewrite loop_step_eq. cbn [fst].
    destruct (update_turn env m a Hi Hf) as (H1 & H2 & _). split; [|by intros ? ? ? _ ?%H2].
    intros prompt Hin. eapply running_idle; [done|]. by apply H1, (submits_in prompt).
Qed.

(** ** A request that is covered is lost *)

Definition asked_replies (messages : list (Env * Msg)) : list Reply :=
  snd <$> omap (λ '(_, m), asks m) messages.
Lemma answered_replies ins ds reply :
  answered ins ds → reply ∈ ds.*1 → ∃ r, Ask r reply ∈ ins.
Proof.
  induction 1 as [|i ins ds _ IH|r reply' ks key allow d ins ds _ _ _ _ _ IH]; cbn [fmap list_fmap fst].
  - by intros ?%elem_of_nil.
  - intros Hin. destruct (IH Hin) as [r Hr]. exists r. by constructor.
  - intros [->|Hin]%elem_of_cons; [exists r; by constructor|].
    destruct (IH Hin) as [r' Hr]. exists r'. right. apply elem_of_app. right. by constructor.
Qed.
Lemma asked_inputs messages r reply :
  Ask r reply ∈ inputs messages → reply ∈ asked_replies messages.
Proof.
  unfold inputs, asked_replies. rewrite list_elem_of_omap. intros ([env m] & Hin & Hm).
  apply list_elem_of_fmap. exists (r, reply). split; [done|]. apply list_elem_of_omap.
  exists (env, m). split; [done|]. by destruct m; simplify_eq.
Qed.

(** A permission request that the menu covers is never answered.  With the
    request of [reply] shown, Ctrl-P opens the menu over it; from then on no
    sequence of messages answers [reply], although its caller is still pending. *)
Theorem covered_request_lost env key r reply messages a :
  inv a → should_quit a = false → overlay a = OPermission r → pending_permission a = Some reply →
  ctrl key = true → is_key key "p" = true → reply ∉ asked_replies messages →
  pending_permission (update env (MKey key) a).2 = Some reply ∧
  reply ∉ (answers (event_loop ((env, MKey key) :: messages) a).1).*1.
Proof.
  intros Hi Hq Ho Hp Hc Hk Hfresh.
  assert (update env (MKey key) a = open_menu a) as Hu.
  { cbn [update]. unfold handle_key. rewrite Hc, Hk. replace (is_key key "c") with false; [done|].
    unfold is_key in *. apply bool_decide_eq_true in Hk. by rewrite Hk. }
  split; [by rewrite Hu|]. cbn [event_loop]. rewrite Hq, loop_step_eq, Hu. cbn [fst snd].
  change (execute_effects env (open_menu a).1 (open_menu a).2) with (set_overlay (OMenu MainMenu_new) a).
  assert (inv (set_overlay (OMenu MainMenu_new) a)) as Hi'.
  { destruct Hi. split; [done|apply Picker_new_wf]. }
  pose proof (event_loop_answered messages _ Hi') as Ha.
  destruct (event_loop messages _) as [later b]. cbn [fst open_menu stay app] in *.
  intros Hin. destruct (answered_replies _ _ _ Ha Hin) as [r' Hr'%asked_inputs]. done.
Qed.

(** ** A loaded agent is not matched with the panel *)

(** What a load of an agent's files delivers goes to whichever agent's panel is
    open.  The message names no agent: with the panel of [ad_name d] open, the
    values of any load replace its fields, and Enter asks to write them to the
    files of [ad_name d]. *)
Theorem agent_detail_unmatched env env' data d key a :
  overlay a = OAgentDetail d → code key = KEnter →
  ∃ b, update env (MAgentDetailLoaded (Ok data)) a = ([], b) ∧
  (update env' (MKey key) b).1 =
  [SaveAgentDetail (ad_name d) (ad_is_default d) (dd_description data) (dd_provider data)
     (dd_model data) (dd_dispatch data) (dd_persona data); ListAgents].
Proof.
  intros Ho Hk. eexists. cbn [update]. rewrite Ho. split; [reflexivity|].
  unfold handle_key, is_key. rewrite Hk. cbn [update]. rewrite !bool_decide_false, !andb_false_r by done.
  unfold handle_overlay_key. cbn [overlay is_open set_overlay].
  unfold handle_agent_detail_key, is_code. by rewrite Hk.
Qed.
End theorems.

(** ** Runs *)

#[local] Existing Instance ascii_unicode.

Definition demo_env : Env :=
  {| env_set_value _ _ := Ok tt; env_create_agent _ _ := Ok tt; env_chat_stamp := 7;
     env_current_version := lit "1.0"; env_switch_config name := Ok (Some name);
     env_persist _ _ := Ok tt; env_login _ := Ok [] |}.
Definition demo_start : Startup :=
  {| st_options := {| ro_provider := lit "openai"; ro_model := lit "o3"; ro_tool_sets := [] |};
     st_session := SessionState_new (lit "s1"); st_persisted := 0; st_cloud_configured := false;
     st_show_advanced := false; st_check_updates := true; st_self_knowledge := true;
     st_self_state := true; st_base_prompt := true; st_auto_plan := true; st_max_iterations := 25;
     st_verify_iterations := 3; st_failure_budget := 3; st_active_profile := None;
     st_profile_names := []; st_active_agent := None; st_cached_version := None |}.
Definition plain (k : KeyCode) : KeyEvent := {| code := k; ctrl := false; alt := false; shift := false |}.
Definition pressed (k : KeyCode) : Env * Msg := (demo_env, MKey (plain k)).
Definition typed (text : string) : list (Env * Msg) := (λ c, pressed (KChar c)) <$> lit text.
Definition ctrl_p : KeyEvent := {| code := key_char "p"; ctrl := true; alt := false; shift := false |}.
Definition demo_request : PermissionRequest :=
  PermissionRequest_new (lit "p1") (lit "s1") (lit "t1") (lit "write_file") VNull WorkspaceWrite.
Definition demo_modal : App :=
  (event_loop [(demo_env, MPermissionAsked demo_request 4)] (App_new demo_start)).2.

(** The first key that decides answers; keys before it do not, and the same key
    later goes to the composer. *)
Example permission_run :
  (event_loop ([(demo_env, MPermissionAsked demo_request 4)] ++ typed "xyn") (App_new demo_start)).1 =
  [ResolvePermission 4 (decision_allow (lit "p1") ModeAsk)].
Proof. vm_compute. reflexivity. Qed.

Lemma covered_request_lost_witness :
  pending_permission (update demo_env (MKey ctrl_p) demo_modal).2 = Some 4 ∧
  4 ∉ (answers (event_loop ((demo_env, MKey ctrl_p) :: pressed KEsc :: typed "y") demo_modal).1).*1.
Proof.
  apply (covered_request_lost demo_env ctrl_p demo_request 4 (pressed KEsc :: typed "y") demo_modal).
  - destruct (event_loop_inv [(demo_env, MPermissionAsked demo_request 4)] (App_new demo_start)
                (App_new_inv demo_start)) as [Hi _]. exact Hi.
  - reflexivity.
  - reflexivity.
  - reflexivity.
  - reflexivity.
  - vm_compute. reflexivity.
  - vm_compute. intros Hin. inversion Hin.
Defined.

Definition outcome_of (messages : list SessionMessage) : TurnOutcome :=
  {| out_assistant_message := Some (lit "ok"); out_tool_calls := []; out_events := [];
     out_session_state := {| Harness.session_id := lit "s1"; Harness.messages := messages |};
     out_cancelled := false |}.
Definition demo_outcome : TurnOutcome := outcome_of [msg_user (lit "hi"); msg_assistant (lit "ok")].

(** After "hi" and Enter. *)
Definition demo_running : App :=
  (loop_step demo_env (MKey (plain KEnter)) (event_loop (typed "hi") (App_new demo_start)).2).2.
Lemma demo_running_flight : flight (Some (SessionState_new (lit "s1"))) demo_running.
Proof.
  assert (flight None (event_loop (typed "hi") (App_new demo_start)).2) as Hf.
  { apply (flight_idle (loop_step demo_env (MKey (plain (key_char "h"))) (App_new demo_start)).2
             demo_env (MKey (plain (key_char "i")))); [|reflexivity|exact I].
    apply (flight_idle (App_new demo_start) demo_env (MKey (plain (key_char "h"))));
      [apply flight_start; reflexivity|reflexivity|exact I]. }
  exact (flight_idle _ demo_env (MKey (plain KEnter)) Hf eq_refl I).
Qed.
Lemma turns_serialised_witness :
  (loop_step demo_env (MTurnFinished (Ok demo_outcome)) demo_running).1 = [Persist demo_outcome 0] ∧
  (∀ prompt, SubmitTurn prompt ∈ (loop_step demo_env (MKey (plain KEnter)) demo_running).1 →
             Some (SessionState_new (lit "s1")) = None).
Proof.
  split; [vm_compute; reflexivity|].
  apply (turns_serialised _ _ demo_env (MKey (plain KEnter)) demo_running_flight).
Defined.
Lemma agent_detail_unmatched_witness :
  ∃ b, update demo_env (MAgentDetailLoaded (Ok {| dd_description := []; dd_provider := []; dd_model := [];
         dd_dispatch := []; dd_persona := lit "You are scout."; dd_memory_note := [] |}))
         (set_overlay (OAgentDetail (detail_loading (lit "writer") false)) (App_new demo_start)) = ([], b) ∧
  (update demo_env (MKey (plain KEnter)) b).1 =
  [SaveAgentDetail (lit "writer") false [] [] [] [] (lit "You are scout."); ListAgents].
Proof.
  apply (agent_detail_unmatched demo_env demo_env
           {| dd_description := []; dd_provider := []; dd_model := []; dd_dispatch := [];
              dd_persona := lit "You are scout."; dd_memory_note := [] |}
           (detail_loading (lit "writer") false) (plain KEnter)); reflexivity.
Defined.

(** ** What an interrupted turn does *)

Definition long_session : SessionState :=
  {| Harness.session_id := lit "s2";
     Harness.messages := [msg_user (lit "a"); msg_assistant (lit "b"); msg_user (lit "c");
                          msg_assistant (lit "d")] |}.
(** A conversation resumed while a turn runs: the second turn is submitted before
    the first has ended, and the end of the first asks to persist its two messages
    from position 4. *)
Definition resume_run : list (Env * Msg) :=
  typed "hi" ++ [pressed KEnter; (demo_env, MSessionResumed (Ok (long_session, 4)))] ++
  typed "yo" ++ [pressed KEnter; (demo_env, MTurnFinished (Ok demo_outcome))].
Theorem resume_overlaps_turns :
  (event_loop resume_run (App_new demo_start)).1 =
  [SubmitTurn (lit "hi"); SubmitTurn (lit "yo"); Persist demo_outcome 4].
Proof. vm_compute. reflexivity. Qed.

(** An agent created while a turn runs: the switch is carried out at once, and the
    end of the turn is persisted under the new agent, from the start. *)
Definition create_run : list (Env * Msg) :=
  typed "hi" ++ [pressed KEnter] ++ typed "/new-agent" ++ [pressed KEnter] ++ typed "scout" ++
  [pressed KEnter; (demo_env, MTurnFinished (Ok demo_outcome))].
Theorem create_agent_mid_turn :
  (event_loop create_run (App_new demo_start)).1 =
    [SubmitTurn (lit "hi"); SwitchAgent (lit "scout"); Persist demo_outcome 0] ∧
  active_agent (event_loop create_run (App_new demo_start)).2 = Some (lit "scout") ∧
  session_state (event_loop create_run (App_new demo_start)).2 = out_session_state demo_outcome.
Proof. vm_compute. auto. Qed.
