(* ===== verification/Capability.v ===== *)
(** * Capabilities ([codel00p-harness/src/capability.rs], [capability/extract.rs])

    A pipeline that worked, frozen under a name with parameters: how it is checked,
    proposed, loaded, run and verified, and how it is made out of the calls of a turn.
    The derived JSON printer and parser of a capability are a class. *)

From stdpp Require Import base numbers strings gmap list.
From S2P Require Import Prelude RustStr Json ProviderRequest Protocol Harness ErrorClassify ToolInput SelfCorrect ToolRegistry Turn Pipeline.

Record Capability := {
  cap_name : str;
  cap_description : str;
  cap_parameters : Value;
  cap_steps : list Value;
}.
Class CapabilityJson := {
  cap_to_string_pretty : Capability → str;
  cap_from_str : str → option Capability;
}.

Definition propose_capability_name : str := lit "propose_capability".
Definition capability_invalid (message : str) : HarnessError :=
  InvalidToolInput propose_capability_name message.

Definition is_name_char (c : char) : bool :=
  is_ascii_lowercase c || is_ascii_digit c || (c =? 95)%N.
Definition is_valid_tool_name (name : str) : bool :=
  match name with
  | [] => false
  | c :: rest => is_ascii_lowercase c && forallb is_name_char rest && (byte_len name <=? 64)
  end.

Definition capability_validate (c : Capability) : result HarnessError (list PipelineStep) :=
  if negb (is_valid_tool_name (cap_name c)) then
    Err (capability_invalid (lit "`" ++ cap_name c ++
      lit "` is not a valid capability name (use lowercase letters, digits, and underscores; start with a letter)"))
  else if is_empty (trim (cap_description c)) then
    Err (capability_invalid (lit "`description` must not be empty"))
  else if negb (is_object (cap_parameters c)) then
    Err (capability_invalid (lit "`parameters` must be a JSON Schema object"))
  else parse_steps (cap_name c) (cap_steps c).

(** ** Loading and proposing *)

(** [Path::extension] of a file name. *)
Definition file_extension (name : str) : option str :=
  match split_once 46%N (reverse name) with
  | Some (ext, stem) => if is_empty stem then None else Some (reverse ext)
  | None => None
  end.
Section files.
Context `{CapabilityJson}.

(** One entry of the directory; the text is missing when it cannot be read. *)
Definition load_entry (entry : str * option str) : option Capability :=
  if bool_decide (file_extension entry.1 = Some (lit "json")) then
    contents ← entry.2;
    c ← cap_from_str contents;
    if is_ok (capability_validate c) then Some c else None
  else None.
(** The entries in the order the directory lists them; none when it cannot be read. *)
Definition load_capabilities (entries : option (list (str * option str))) : list Capability :=
  match entries with
  | None => []
  | Some entries => sort_by (cmp_on cap_name str_cmp) (omap load_entry entries)
  end.

(** [FileCapabilityProposalSink::propose] over the files of its directory.  A fault of
    the system is its error text and, if the file was opened, what is left in it. *)
Definition proposal_file (c : Capability) : str := cap_name c ++ lit ".json".
Definition file_propose (fault : option (str * option str)) (c : Capability)
    : st (gmap str str) HarnessError unit := λ dir,
  match fault with
  | Some (text, None) => (Err (Io text), dir)
  | Some (text, Some written) => (Err (Io text), <[proposal_file c := written]> dir)
  | None => (Ok tt, <[proposal_file c := cap_to_string_pretty c]> dir)
  end.
End files.

Section capabilities.
Context `{SerdeJson}.

Definition empty_object_schema : Value :=
  json_object [(lit "type", VString (lit "object")); (lit "properties", json_object [])].

(** ** Running *)

Record CapabilityTool := { ct_capability : Capability; ct_steps : list PipelineStep }.
Definition CapabilityTool_new (c : Capability) : result HarnessError CapabilityTool :=
  let? steps := capability_validate c in Ok {| ct_capability := c; ct_steps := steps |}.

Section engine.
Context (sub_tools : @ToolRegistry world).
Context (decide_policy : world → PermissionRequest → result HarnessError PermissionDecision).

Definition capability_permission_scope (t : CapabilityTool) (input : Value) : PermissionScope :=
  max_step_scope sub_tools (ct_steps t).
Definition capability_execute (t : CapabilityTool) (input : Value) : st world HarnessError ToolResult :=
  let context := map_insert (lit "params") input [] in
  let! run := run_pipeline sub_tools decide_policy (ct_steps t) true
                (lit "capability-" ++ cap_name (ct_capability t)) context in
  let ok := (run_completed run =? run_total run) && negb (run_stopped_early run) in
  st_ret (ToolResult_json (json_object
    [(lit "capability", VString (cap_name (ct_capability t))); (lit "ok", VBool ok);
     (lit "steps", VArray (run_reports run)); (lit "completed", VNat (run_completed run));
     (lit "total", VNat (run_total run))])).

(** [capability_tools]: the registry, by name; a later capability takes the place of an
    earlier one of its name. *)
Fixpoint register_capabilities (registry : gmap str CapabilityTool) (capabilities : list Capability)
    : result HarnessError (gmap str CapabilityTool) :=
  match capabilities with
  | [] => Ok registry
  | c :: capabilities =>
      let? tool := CapabilityTool_new c in
      register_capabilities (<[cap_name c := tool]> registry) capabilities
  end.
Definition capability_tools (capabilities : list Capability) : result HarnessError (gmap str CapabilityTool) :=
  register_capabilities ∅ capabilities.

(** [verify_capability], on the world of a fresh workspace. *)
Record VerificationOutcome := {
  vo_ok : bool; vo_completed : N; vo_total : N; vo_report : Value;
}.
Definition verify_capability (c : Capability) (sample_params : Value)
    : st world HarnessError VerificationOutcome :=
  let! tool := st_lift (CapabilityTool_new c) in
  let! result := capability_execute tool sample_params in
  let content := result_content result in
  st_ret {| vo_ok := default false (get (lit "ok") content ≫= as_bool);
            vo_completed := default 0%N (get (lit "completed") content ≫= as_u64);
            vo_total := default 0%N (get (lit "total") content ≫= as_u64);
            vo_report := content |}.

(** ** [propose_capability], over a sink with a state of its own *)

Definition propose_capability_schema : Value :=
  json_object
    [(lit "type", VString (lit "object"));
     (lit "required", VArray (VString <$> [lit "name"; lit "description"; lit "steps"]));
     (lit "properties", json_object
       [(lit "name", json_object [(lit "type", VString (lit "string"))]);
        (lit "description", json_object [(lit "type", VString (lit "string"))]);
        (lit "parameters", json_object [(lit "type", VString (lit "object"))]);
        (lit "steps", json_object [(lit "type", VString (lit "array")); (lit "items", step_schema)])])].
Definition propose_permission_scope (input : Value) : PermissionScope := ReadOnly.
Definition proposed_capability (input : Value) : result HarnessError Capability :=
  let? name := required_string propose_capability_name input (lit "name") in
  let? description := required_string propose_capability_name input (lit "description") in
  let parameters := default empty_object_schema (get (lit "parameters") input) in
  let? steps := ok_or (InvalidToolInput propose_capability_name (lit "missing array field `steps`"))
                  (get (lit "steps") input ≫= as_array) in
  Ok {| cap_name := name; cap_description := description; cap_parameters := parameters;
        cap_steps := steps |}.
Definition propose_execute {S} (sink : Capability → st S HarnessError unit) (input : Value)
    : st S HarnessError ToolResult :=
  let! c := st_lift (proposed_capability input) in
  let! parsed := st_lift (capability_validate c) in
  let scope := max_step_scope sub_tools parsed in
  do! sink c in
  st_ret (ToolResult_json (json_object
    [(lit "proposed", VBool true); (lit "name", VString (cap_name c));
     (lit "step_count", VNat (length parsed)); (lit "inferred_scope", VString (scope_label scope));
     (lit "status", VString (lit "pending_review"));
     (lit "note", match optional_string input (lit "note") with Some n => VString n | None => VNull end)])).
End engine.

(** ** Extraction *)

Record CapabilityCandidateCall := { cc_name : str; cc_input : Value; cc_output : Value }.
Record CapabilityExtractionRequest := {
  cer_goal : str;
  cer_assistant_message : option str;
  cer_calls : list CapabilityCandidateCall;
}.

Definition pipeline_succeeded (output : Value) : bool :=
  let total := default 0%N (get (lit "total") output ≫= as_u64) in
  let completed := default 0%N (get (lit "completed") output ≫= as_u64) in
  let stopped := default true (get (lit "stopped_early") output ≫= as_bool) in
  (0 <? total)%N && (completed =? total)%N && negb stopped.
Definition is_successful_pipeline (call : CapabilityCandidateCall) : bool :=
  bool_decide (cc_name call = run_pipeline_name) && pipeline_succeeded (cc_output call).
Definition successful_pipeline_steps (calls : list CapabilityCandidateCall) : option (list Value) :=
  call ← List.find is_successful_pipeline (reverse calls);
  get (lit "steps") (cc_input call) ≫= as_array.

(** The loop of [capability_slug]; [prev_us]: the last character is a [_]. *)
Fixpoint slug_loop (chars : str) (out : str) (prev_us : bool) : str :=
  match chars with
  | [] => out
  | ch :: chars =>
      let '(out, prev_us) :=
        if is_ascii_alphanumeric ch then (out ++ [ascii_lower ch], false)
        else if negb prev_us && negb (is_empty out) then (out ++ [95%N], true)
        else (out, prev_us) in
      if 48 <=? byte_len out then out else slug_loop chars out prev_us
  end.
Definition trim_matches (p : char → bool) (s : str) : str := trim_end_matches p (trim_start_matches p s).
Definition capability_slug (goal : str) : str :=
  let trimmed := trim_matches (λ c, (c =? 95)%N) (slug_loop (trim goal) [] false) in
  match trimmed with
  | c :: _ => if is_ascii_lowercase c then trimmed else lit "cap_" ++ trimmed
  | [] => []
  end.
Definition line_ellipsis : char := 8230%N.
Definition first_line (text : str) : str :=
  let line := trim (default [] (head (lines (trim text)))) in
  if 120 <? length line then take 119 line ++ [line_ellipsis] else line.

(** [PipelineCapabilityExtractor::extract] *)
Definition pipeline_extract (request : CapabilityExtractionRequest) : option Capability :=
  message ← cer_assistant_message request;
  if is_empty (trim message) then None
  else
    steps ← successful_pipeline_steps (cer_calls request);
    if length steps <? 2 then None
    else
      let name := capability_slug (cer_goal request) in
      if is_empty name then None
      else
        let c := {| cap_name := name; cap_description := first_line (cer_goal request);
                    cap_parameters := empty_object_schema; cap_steps := steps |} in
        if is_ok (capability_validate c) then Some c else None.

(** From the first [{] to the last [}]. *)
Fixpoint drop_until (c : char) (s : str) : str :=
  match s with x :: s' => if (x =? c)%N then s else drop_until c s' | [] => [] end.
Definition parse_capability_json `{CapabilityJson} (message : str) : option Capability :=
  match reverse (drop_until 125%N (reverse (drop_until 123%N message))) with
  | [] => None
  | body => cap_from_str body
  end.

(** [ModelCapabilityExtractor::extract]; [pretty] is [serde_json::to_string_pretty]. *)
Definition quoted (s : string) : str := [quote] ++ lit s ++ [quote].
Definition blank_line : str := [newline; newline].
Definition model_prompt (goal steps_json : str) : str :=
  lit "You turn a successful tool pipeline into a reusable, parameterized capability for a coding agent."
  ++ blank_line ++ lit "The user's request was:" ++ [newline] ++ goal ++ blank_line
  ++ lit "The agent ran this pipeline successfully (steps as JSON):" ++ [newline] ++ steps_json
  ++ blank_line
  ++ lit "Generalize it into a capability by lifting concrete literals (file names, identifiers, messages) into named parameters. Reply with ONLY a JSON object of this exact shape:"
  ++ [newline] ++ lit "{" ++ [newline] ++ lit "  " ++ quoted "name" ++ lit ": "
  ++ quoted "snake_case_tool_name" ++ lit "," ++ [newline] ++ lit "  " ++ quoted "description"
  ++ lit ": " ++ quoted "one line, what it does" ++ lit "," ++ [newline] ++ lit "  "
  ++ quoted "parameters" ++ lit ": { " ++ quoted "type" ++ lit ": " ++ quoted "object" ++ lit ", "
  ++ quoted "required" ++ lit ": [...], " ++ quoted "properties" ++ lit ": { " ++ quoted "<param>"
  ++ lit ": { " ++ quoted "type" ++ lit ": " ++ quoted "string" ++ lit " } } }," ++ [newline]
  ++ lit "  " ++ quoted "steps" ++ lit ": [ { " ++ quoted "tool" ++ lit ": " ++ quoted "..."
  ++ lit ", " ++ quoted "input" ++ lit ": { ... } } ]" ++ [newline] ++ lit "}" ++ [newline]
  ++ lit "In step inputs, reference a parameter as {{params.<name>}} and an earlier step's output as {{steps.N.field}}. Keep the same tools and order as the pipeline above. Output JSON only, no prose.".
Definition extraction_request (prompt : str) : HarnessInferenceRequest := {|
  req_session_state := push_user prompt (SessionState_new (lit "capability-extraction"));
  req_workspace_root := None; req_tools := []; req_tool_choice := None;
  req_response_format := Some FormatJsonObject; req_context_window := None; req_persona := None;
  req_agent_self := None; req_curated_memory := None; req_base_prompt := None;
  req_project_instructions := None; req_project_memory := None; req_skills := None;
  req_workspace_context := None;
|}.
Definition model_extract `{CapabilityJson} (pretty : list Value → str)
    (infer : HarnessInferenceRequest → result HarnessError HarnessInferenceResponse)
    (request : CapabilityExtractionRequest) : result HarnessError (option Capability) :=
  match successful_pipeline_steps (cer_calls request) with
  | None => Ok None
  | Some steps =>
      let? response := infer (extraction_request (model_prompt (cer_goal request) (pretty steps))) in
      Ok (message ← resp_assistant_message response;
          c ← parse_capability_json message;
          if is_ok (capability_validate c) then Some c else None)
  end.
End capabilities.

(** ** Names *)

Lemma name_char_ascii c : is_name_char c = true → len_utf8 c = 1.
Proof.
  unfold is_name_char, is_ascii_lowercase, is_ascii_digit, len_utf8. intros Hc.
  rewrite !orb_true_iff, !andb_true_iff, !N.leb_le, N.eqb_eq in Hc.
  assert (c < 128)%N as Hlt by lia. by rewrite (proj2 (N.ltb_lt _ _) Hlt).
Qed.
Lemma name_byte_len s : forallb is_name_char s = true → byte_len s = length s.
Proof.
  induction s as [|c s IH]; [done|]. cbn [forallb byte_len length]. intros [Hc Hs]%andb_true_iff.
  by rewrite (name_char_ascii c Hc), IH.
Qed.
Lemma lower_name_char c : is_ascii_alphanumeric c = true → is_name_char (ascii_lower c) = true.
Proof.
  unfold is_ascii_alphanumeric, is_ascii_alphabetic, is_name_char, ascii_lower, is_ascii_uppercase,
    is_ascii_lowercase, is_ascii_digit. intros Hc.
  rewrite !orb_true_iff, !andb_true_iff, !N.leb_le in Hc. rewrite !orb_true_iff, !andb_true_iff, !N.leb_le.
  destruct ((65 <=? c) && (c <=? 90))%N eqn:E; rewrite ?N.eqb_eq.
  - apply andb_true_iff in E as [E1%N.leb_le E2%N.leb_le]. lia.
  - apply andb_false_iff in E as [E%N.leb_gt|E%N.leb_gt]; lia.
Qed.

Lemma slug_loop_ok chars : ∀ out prev_us,
  forallb is_name_char out = true → length out < 48 →
  forallb is_name_char (slug_loop chars out prev_us) = true ∧ length (slug_loop chars out prev_us) ≤ 48.
Proof.
  induction chars as [|ch chars IH]; intros out prev_us Ho Hl; cbn [slug_loop]; [split; [done|lia]|].
  assert (∀ c p, is_name_char c = true →
    let r := if 48 <=? byte_len (out ++ [c]) then out ++ [c] else slug_loop chars (out ++ [c]) p in
    forallb is_name_char r = true ∧ length r ≤ 48) as Hpush.
  { intros c p Hc. assert (forallb is_name_char (out ++ [c]) = true) as Hn.
    { rewrite forallb_app, Ho. cbn. by rewrite Hc. }
    rewrite name_byte_len by done. rewrite length_app. cbn [length].
    destruct (Nat.leb_spec 48 (length out + 1)); [split; [done|rewrite length_app; cbn; lia]|].
    apply IH; [done|]. rewrite length_app. cbn. lia. }
  destruct (is_ascii_alphanumeric ch) eqn:Ea; [by apply Hpush, lower_name_char|].
  destruct (negb prev_us && negb (is_empty out)); [by apply Hpush|].
  rewrite name_byte_len by done. destruct (Nat.leb_spec 48 (length out)); [lia|]. by apply IH.
Qed.

Lemma trim_matches_sub p s : ∃ a b, s = a ++ trim_matches p s ++ b.
Proof.
  unfold trim_matches. destruct (trim_start_matches_suffix p s) as (a & Ha & _).
  destruct (trim_end_matches_prefix p (trim_start_matches p s)) as (b & Hb & _).
  exists a, b. by rewrite <- Hb.
Qed.
Lemma trim_matches_head p s c : head (trim_matches p s) = Some c → p c = false.
Proof.
  unfold trim_matches. intros Hc. apply (trim_start_matches_head p s).
  destruct (trim_end_matches_prefix p (trim_start_matches p s)) as (b & Hb & _). rewrite Hb.
  by destruct (trim_end_matches p (trim_start_matches p s)).
Qed.

Lemma capability_slug_valid goal :
  capability_slug goal = [] ∨ is_valid_tool_name (capability_slug goal) = true.
Proof.
  unfold capability_slug. set (out := slug_loop (trim goal) [] false).
  destruct (slug_loop_ok (trim goal) [] false eq_refl) as [Hn Hl]; [cbn; lia|]. fold out in Hn, Hl.
  pose proof (trim_matches_head (λ c, (c =? 95)%N) out) as Hhead.
  destruct (trim_matches_sub (λ c, (c =? 95)%N) out) as (a & b & Ho).
  destruct (trim_matches (λ c, (c =? 95)%N) out) as [|c t]; [by left|]. right.
  rewrite Ho, !forallb_app in Hn. apply andb_true_iff in Hn as [_ [Hn _]%andb_true_iff].
  rewrite Ho, !length_app in Hl. specialize (Hhead c eq_refl).
  pose proof (name_byte_len _ Hn) as Hb. cbn [length] in Hb, Hl.
  cbn [forallb] in Hn. apply andb_true_iff in Hn as [Hc Ht].
  destruct (is_ascii_lowercase c) eqn:Ec.
  - unfold is_valid_tool_name. rewrite Ec, Ht, Hb. cbn [andb]. apply Nat.leb_le. lia.
  - change (lit "cap_" ++ c :: t) with (99%N :: [97; 112; 95]%N ++ c :: t).
    unfold is_valid_tool_name. rewrite forallb_app. cbn [forallb]. rewrite Hc, Ht.
    change (99%N :: [97; 112; 95]%N ++ c :: t) with ([99; 97; 112; 95]%N ++ c :: t).
    rewrite byte_len_app, Hb. change (byte_len [99; 97; 112; 95]%N) with 4.
    change (is_ascii_lowercase 99 && (forallb is_name_char [97; 112; 95]%N && (true && true))) with true.
    cbn [andb]. apply Nat.leb_le. lia.
Qed.

Lemma validate_Ok c steps : capability_validate c = Ok steps →
  is_valid_tool_name (cap_name c) = true ∧ trim (cap_description c) ≠ [] ∧
  is_object (cap_parameters c) = true ∧ parse_steps (cap_name c) (cap_steps c) = Ok steps.
Proof.
  unfold capability_validate. destruct (is_valid_tool_name _); [|done]. cbn [negb].
  destruct (trim (cap_description c)) eqn:Et; [done|]. cbn [is_empty].
  destruct (is_object _); [|done]. done.
Qed.
Lemma is_ok_Ok {E A} (r : result E A) : is_ok r = true → ∃ a, r = Ok a.
Proof. destruct r; [by eexists|done]. Qed.

Lemma find_first {A} (f : A → bool) (l : list A) x :
  List.find f l = Some x → ∃ a b, l = a ++ x :: b ∧ f x = true ∧ Forall (λ y, f y = false) a.
Proof.
  induction l as [|y l IH]; [done|]. cbn. destruct (f y) eqn:E.
  - intros [= ->]. by exists [], l.
  - intros Hf. destruct (IH Hf) as (a & b & -> & Hx & Ha). exists (y :: a), b.
    split; [done|]. split; [done|by constructor].
Qed.

(** ** Theorems *)

(** What is frozen is what worked: a capability the extractor makes has the steps of
    the last pipeline call of the turn that completed all its steps, at least two and at
    most 32 of them, and passes every check of a proposal: in particular its name, made
    from the goal, is a legal tool name of at most 64 bytes. *)
Theorem extracted_capability_valid `{SerdeJson} (request : CapabilityExtractionRequest) (c : Capability)
    (Hextract : pipeline_extract request = Some c) :
  (∃ before call after values, cer_calls request = before ++ call :: after ∧
     is_successful_pipeline call = true ∧ Forall (λ x, is_successful_pipeline x = false) after ∧
     get (lit "steps") (cc_input call) = Some (VArray values) ∧ cap_steps c = values) ∧
  is_valid_tool_name (cap_name c) = true ∧
  ∃ steps, capability_validate c = Ok steps ∧ 2 ≤ length steps ≤ 32.
Proof.
  unfold pipeline_extract in Hextract.
  destruct (cer_assistant_message request) as [message|]; [|done]. cbn [mbind option_bind] in Hextract.
  destruct (is_empty (trim message)); [done|].
  destruct (successful_pipeline_steps (cer_calls request)) as [values|] eqn:Es; [|done].
  cbn [mbind option_bind] in Hextract. destruct (Nat.ltb_spec (length values) 2) as [?|Hlen]; [done|].
  destruct (is_empty (capability_slug (cer_goal request))) eqn:En; [done|].
  set (c0 := Build_Capability _ _ _ _) in Hextract.
  destruct (is_ok (capability_validate c0)) eqn:Ev; [|done]. injection Hextract as <-.
  apply is_ok_Ok in Ev as [steps Ev]. destruct (validate_Ok _ _ Ev) as (Hn & _ & _ & Hp). split.
  - unfold successful_pipeline_steps in Es.
    destruct (List.find is_successful_pipeline (reverse (cer_calls request))) as [call|] eqn:Ef; [|done].
    cbn [mbind option_bind] in Es.
    destruct (get (lit "steps") (cc_input call)) as [v|] eqn:Eg; [|done].
    destruct v as [| | | |items|]; try done. injection Es as <-.
    destruct (find_first _ _ _ Ef) as (a & b & Hab & Hc & Ha).
    exists (reverse b), call, (reverse a), items. split_and!; [|done| |done|done].
    + rewrite <- (reverse_involutive (cer_calls request)), Hab, reverse_app, reverse_cons.
      by rewrite <- app_assoc.
    + by rewrite Forall_reverse.
  - split; [done|]. exists steps. split; [done|].
    pose proof (parse_steps_length _ _ _ Hp) as [_ Hmax]. unfold MAX_STEPS in Hmax. split; [|done].
    unfold parse_steps in Hp. destruct (is_empty (cap_steps c0)); [done|].
    destruct (_ <? _); [done|]. apply collect_result_Ok, (f_equal length) in Hp.
    rewrite length_imap, length_fmap in Hp. rewrite <- Hp. exact Hlen.
Qed.

(** Running a capability gives it no authority of its own: its requests and
    dispatches are governed like those of a pipeline, at most one per step, and a
    verification succeeds exactly when every frozen step was completed. *)
Theorem capability_verified `{SerdeJson} (sub_tools : @ToolRegistry world)
    (decide_policy : world → PermissionRequest → result HarnessError PermissionDecision)
    (c : Capability) (sample_params : Value) (past : world) :
  ∃ r events, verify_capability sub_tools decide_policy c sample_params past = (r, past ++ events) ∧
    governed sub_tools events ∧ length (asked events) ≤ 32 ∧
    match r, capability_validate c with
    | Err e, Err e' => e = e' ∧ events = []
    | Err _, Ok _ => True
    | Ok _, Err _ => False
    | Ok outcome, Ok steps =>
        vo_ok outcome = bool_decide (vo_completed outcome = vo_total outcome) ∧
        vo_total outcome = N.of_nat (length steps) ∧
        (vo_ok outcome = true → length (asked events) = length steps)
    end.
Proof.
  unfold verify_capability, CapabilityTool_new, capability_execute, st_bind, st_lift.
  destruct (capability_validate c) as [steps|e] eqn:Ev.
  2:{ exists (Err e), []. rewrite app_nil_r. split; [done|]. split; [apply governed_nil|].
      split; [cbn; lia|done]. }
  cbn [result_bind ct_steps ct_capability].
  destruct (validate_Ok _ _ Ev) as (_ & _ & _ & Hp).
  pose proof (parse_steps_length _ _ _ Hp) as [_ Hmax]. unfold MAX_STEPS in Hmax.
  destruct (run_pipeline_spec sub_tools decide_policy steps true (lit "capability-" ++ cap_name c)
    (map_insert (lit "params") sample_params []) past) as (r & events & reports & -> & Hg & _ & Hl & Hr).
  destruct r as [run|e]; [|exists (Err e), events; split; [done|]; split; [done|]; split; [lia|done]].
  destruct Hr as (Hrep & Hlen & Htot & Hc & He).
  eexists _, events. split; [reflexivity|]. split; [done|]. split; [lia|].
  unfold json_object, ToolResult_json, get. cbn [result_content vo_ok vo_completed vo_total].
  rewrite !map_get_map_of.
  change (map_get (lit "ok") (reverse _)) with
    (Some (VBool ((run_completed run =? run_total run) && negb (run_stopped_early run)))).
  change (map_get (lit "completed") (reverse _)) with (Some (VNat (run_completed run))).
  change (map_get (lit "total") (reverse _)) with (Some (VNat (run_total run))).
  cbn [mbind option_bind as_bool as_u64 VNat default]. rewrite Htot in *.
  assert ((run_completed run =? length steps) && negb (run_stopped_early run)
    = bool_decide (N.of_nat (run_completed run) = N.of_nat (length steps))) as Hok.
  { destruct (run_stopped_early run); cbn [negb]; [rewrite andb_false_r|rewrite andb_true_r].
    - symmetry. apply bool_decide_eq_false. intros Heq%Nat2N.inj.
      destruct He as (_ & before & failed & -> & _ & Hf & Hle). rewrite Hc in Heq.
      rewrite List.filter_app, length_app in Heq. cbn [List.filter] in Heq. rewrite Hf in Heq.
      rewrite length_app in Hle. cbn in *. pose proof (List.filter_length_le report_ok before). lia.
    - destruct (Nat.eqb_spec (run_completed run) (length steps)) as [->|Hne];
        symmetry; [by apply bool_decide_eq_true|]. apply bool_decide_eq_false. intros ?%Nat2N.inj. done. }
  split; [exact Hok|]. split; [done|]. intros Ht. apply andb_true_iff in Ht as [_ Hs%negb_true_iff].
  rewrite Hs in He. rewrite Hlen. apply He.
Qed.

(** *** Proposing and loading *)

Lemma name_no_dot c : is_name_char c = true → c ≠ 46%N.
Proof. intros Hc ->. discriminate Hc. Qed.
Lemma proposal_extension c :
  is_valid_tool_name (cap_name c) = true → file_extension (proposal_file c) = Some (lit "json").
Proof.
  unfold is_valid_tool_name, file_extension, proposal_file. destruct (cap_name c) as [|x name]; [done|].
  intros _. rewrite reverse_app. change (reverse (lit ".json")) with (reverse (lit "json") ++ [46%N]).
  rewrite <- app_assoc. cbn [app].
  rewrite split_once_avoids by by apply avoids_forallb.
  rewrite reverse_cons. destruct (reverse name); by cbn.
Qed.
Lemma proposal_no_slash c : is_valid_tool_name (cap_name c) = true → 47%N ∉ proposal_file c.
Proof.
  unfold is_valid_tool_name, proposal_file. destruct (cap_name c) as [|x name]; [done|].
  intros [[Hx Hn]%andb_true_iff _]%andb_true_iff. rewrite elem_of_app. intros [Hin|Hin].
  - apply elem_of_cons in Hin as [<-|Hin]; [discriminate Hx|].
    rewrite forallb_forall in Hn. apply list_elem_of_In, Hn in Hin. discriminate Hin.
  - vm_compute in Hin. repeat (apply elem_of_cons in Hin as [?|Hin]; [done|]). by apply elem_of_nil in Hin.
Qed.

Section roundtrip.
Context `{SerdeJson} `{CapabilityJson}.

(** A proposal that the tool accepts is one file of the directory, named after the
    capability and inside the directory, and loading the directory, in whatever order it
    is listed, finds the capability again; a refused proposal, for its input or its
    checks, writes nothing. *)
Theorem proposal_roundtrip_load (sub_tools : @ToolRegistry world) (input : Value) (dir : gmap str str)
    (Hjson : ∀ c, cap_from_str (cap_to_string_pretty c) = Some c) :
  let '(r, dir') := propose_execute sub_tools (file_propose None) input dir in
  match r with
  | Err _ => dir' = dir
  | Ok _ => ∃ c steps, proposed_capability input = Ok c ∧ capability_validate c = Ok steps ∧
      (47%N ∉ proposal_file c) ∧ dir' = <[proposal_file c := cap_to_string_pretty c]> dir ∧
      ∀ entries, entries ≡ₚ map_to_list dir' →
        c ∈ load_capabilities (Some ((λ e, (e.1, Some e.2)) <$> entries))
  end.
Proof.
  unfold propose_execute, st_bind, st_lift.
  destruct (proposed_capability input) as [c|e]; [|done].
  destruct (capability_validate c) as [steps|e] eqn:Ev; [|done]. cbn [file_propose].
  exists c, steps. destruct (validate_Ok _ _ Ev) as (Hn & _).
  split; [done|]. split; [done|]. split; [by apply proposal_no_slash|]. split; [done|].
  intros entries Hperm. unfold load_capabilities. apply elem_of_sort_by, list_elem_of_omap.
  exists (proposal_file c, Some (cap_to_string_pretty c)). split.
  - apply list_elem_of_fmap. exists (proposal_file c, cap_to_string_pretty c). split; [done|].
    rewrite Hperm. apply elem_of_map_to_list, lookup_insert_eq.
  - unfold load_entry. cbn [fst snd]. rewrite proposal_extension by done.
    rewrite bool_decide_true by done. cbn [mbind option_bind]. rewrite Hjson. cbn [mbind option_bind].
    by rewrite Ev.
Qed.
End roundtrip.

(** ** On examples *)

Definition counting_capabilities : CapabilityJson := {|
  cap_to_string_pretty := λ c,
    [Npos (encode (cap_name c, cap_description c, cap_parameters c, cap_steps c))];
  cap_from_str := λ s, match s with
    | [Npos p] => '(name, description, parameters, steps) ← decode p;
        Some {| cap_name := name; cap_description := description; cap_parameters := parameters;
                cap_steps := steps |}
    | _ => None
    end;
|}.
Lemma counting_capabilities_law c :
  cap_from_str (CapabilityJson := counting_capabilities)
    (cap_to_string_pretty (CapabilityJson := counting_capabilities) c) = Some c.
Proof. cbn. rewrite decode_encode. by destruct c. Qed.

Definition demo_step : Value := VObject [(lit "tool", VString (lit "echo"))].
Definition demo_goal : str := lit "3 Release Notes!".
Definition demo_extraction : CapabilityExtractionRequest := {|
  cer_goal := demo_goal; cer_assistant_message := Some (lit "done");
  cer_calls := [{| cc_name := lit "run_pipeline";
    cc_input := VObject [(lit "steps", VArray [demo_step; demo_step])];
    cc_output := VObject [(lit "completed", VNat 2); (lit "total", VNat 2);
                          (lit "stopped_early", VBool false)] |}];
|}.
Lemma extracted_capability_valid_witness :
  ∃ c, pipeline_extract (H := counting_json) demo_extraction = Some c ∧
    cap_name c = lit "cap_3_release_notes" ∧ is_valid_tool_name (cap_name c) = true.
Proof.
  destruct (pipeline_extract (H := counting_json) demo_extraction) as [c|] eqn:E;
    [|vm_compute in E; discriminate E].
  exists c. split; [reflexivity|]. split; [vm_compute in E; injection E as <-; reflexivity|].
  exact (proj1 (proj2 (extracted_capability_valid (H := counting_json) demo_extraction c E))).
Defined.

Definition demo_proposal : Value := VObject
  [(lit "description", VString (lit "echo twice")); (lit "name", VString (lit "twice"));
   (lit "steps", VArray [demo_step; demo_step])].
Lemma proposal_roundtrip_load_witness :
  ∃ r dir' c, propose_execute (H := counting_json) demo_tools
      (file_propose (H := counting_capabilities) None) demo_proposal ∅ = (Ok r, dir') ∧
    proposed_capability (H := counting_json) demo_proposal = Ok c ∧
    c ∈ load_capabilities (H := counting_capabilities)
          (Some ((λ e, (e.1, Some e.2)) <$> map_to_list dir')).
Proof.
  pose proof (proposal_roundtrip_load (H := counting_json) (H0 := counting_capabilities)
    demo_tools demo_proposal ∅ counting_capabilities_law) as Hr.
  destruct (propose_execute (H := counting_json) demo_tools
      (file_propose (H := counting_capabilities) None) demo_proposal ∅)
    as [[r|e] dir'] eqn:E; [|vm_compute in E; discriminate E].
  destruct Hr as (c & steps & Hc & _ & _ & _ & Hload). exists r, dir', c.
  split; [reflexivity|]. split; [exact Hc|]. by apply Hload.
Defined.
