(* ===== verification/WireHttp.v ===== *)
(** * What the provider transports share
    ([codel00p-providers/src/stream.rs], [transports/mod.rs] and the exchange every
    transport of [transports/] repeats)

    The HTTP client is outside the sources: a request goes to a parameter [send],
    which answers a reply.  The derived deserialisers of the wire structures are
    generated code and parameters too.  A sink records the calls made to it, in
    order. *)

From stdpp Require Import base numbers strings gmap list.
From S2P Require Import Prelude RustStr Utf8 Json ProviderRequest ProviderPolicy ProviderClient Sse.

(** ** The sink ([stream.rs]) *)

Inductive sink_event :=
| OnToken (token : str)
| OnToolCallDelta (index : N) (id name : option str) (args_fragment : str).
Abbreviation sink_log := (list sink_event).

Definition tokens_of (log : sink_log) : list str :=
  omap (λ e, match e with OnToken t => Some t | _ => None end) log.

(** ** The exchange *)

Record http_request (B : Type) := {
  hq_url : str;
  hq_headers : list (str * str);
  hq_body : B;
}.
Arguments hq_url {B} _.
Arguments hq_headers {B} _.
Arguments hq_body {B} _.

(** A reply with a failure status has the display form of the status, the bytes of
    its [Retry-After] header, and a body when it could be read. *)
Inductive http_reply :=
| SendFailed (message : str)
| StatusFailed (status : str) (retry_after : option (list byte)) (body : option str)
| StatusOk (chunks : list (result str (list byte))).

(** [HeaderValue::to_str]: visible ASCII. *)
Definition visible_ascii (b : byte) : bool := between 32 126 b || (b =? 9)%N.
Definition header_to_str (value : list byte) : option str :=
  if forallb visible_ascii value then Some value else None.
Definition retry_after_seconds (header : option (list byte)) : option N :=
  value ← header; text ← header_to_str value; parse_u64 (trim text).

(** The body of a successful reply: its chunks, unless the connection breaks. *)
Fixpoint reply_body (chunks : list (result str (list byte))) : result str (list byte) :=
  match chunks with
  | [] => Ok []
  | Err message :: _ => Err message
  | Ok chunk :: chunks => let? rest := reply_body chunks in Ok (chunk ++ rest)
  end.

Section exchange.
Context (provider : str).

(** A complete answer: [response.json()], then [normalize]. *)
Definition json_exchange {W} (decode : list byte → result str W)
    (normalize : W → result ProviderError InferenceResponse) (reply : http_reply)
    : result ProviderError InferenceResponse :=
  match reply with
  | SendFailed message => Err (Http provider message)
  | StatusFailed status retry_after body =>
      Err (http_status_error provider status (default [] body) (retry_after_seconds retry_after))
  | StatusOk chunks =>
      let? wire := map_err (InvalidResponse provider)
                     (let? bytes := reply_body chunks in decode bytes) in
      normalize wire
  end.

(** A streamed answer: the reply goes to [stream_sse]. *)
Definition stream_exchange {X} (on_data : str → X → result ProviderError bool * X)
    (reply : http_reply) (x : X) : result ProviderError unit * X :=
  match reply with
  | SendFailed message => (Err (Http provider message), x)
  | StatusFailed status retry_after body =>
      stream_sse provider on_data
        (SseFailure status (default [] body) (retry_after_seconds retry_after)) x
  | StatusOk chunks => stream_sse provider on_data (SseStream chunks) x
  end.

(** An accumulator decodes each payload, then takes a step that cannot fail; the
    stream goes on until it ends. *)
Definition ingest_payload {C X} (decode : str → result str C) (step : C → X → X)
    (payload : str) (x : X) : result ProviderError unit * X :=
  match decode payload with
  | Err message => (Err (InvalidResponse provider message), x)
  | Ok event => (Ok tt, step event x)
  end.
Definition keep_going {X} (ingest : str → X → result ProviderError unit * X)
    (payload : str) (x : X) : result ProviderError bool * X :=
  match ingest payload x with
  | (Ok _, x) => (Ok false, x)
  | (Err e, x) => (Err e, x)
  end.

Lemma deliver_ingest {C X} (decode : str → result str C) (step : C → X → X) payloads events x :
  Forall2 (λ p c, decode p = Ok c) payloads events →
  deliver (keep_going (ingest_payload decode step)) payloads x =
  (Ok tt, foldl (λ x c, step c x) x events).
Proof.
  intros H. revert x. induction H as [|p c ps cs Hp _ IH]; intros x; [done|].
  cbn [deliver]. unfold keep_going, ingest_payload. rewrite Hp. apply IH.
Qed.

(** The events of a text cut anywhere are folded in order. *)
Lemma stream_exchange_fold {C X} (decode : str → result str C) (step : C → X → X)
    (parts : list str) events (x : X) :
  Forall (Forall (λ c, is_scalar c = true)) parts →
  Forall2 (λ p c, decode p = Ok c) (payloads (concat parts)) events →
  stream_exchange (keep_going (ingest_payload decode step))
    (StatusOk ((λ part, Ok (utf8 part)) <$> parts)) x =
  (Ok tt, foldl (λ x c, step c x) x events).
Proof. intros. cbn [stream_exchange]. rewrite stream_sse_deliver by done. by apply deliver_ingest. Qed.

End exchange.

(** ** Shared pieces of the wire formats *)

(** [text.is_empty()] guards of optional texts. *)
Definition nonempty (o : option str) : option str :=
  text ← o; if is_empty text then None else Some text.

(** [if blocks.is_empty() { None } else { Some(blocks.join(sep)) }]. *)
Definition join_blocks (sep : str) (blocks : list str) : option str :=
  if is_empty blocks then None else Some (join sep blocks).

(** [has_content.then_some(content)]. *)
Definition then_some {A} (b : bool) (a : A) : option A := if b then Some a else None.

(** [u64::saturating_sub]. *)
Definition u64_saturating_sub (a b : N) : N := (a - b)%N.

Definition tool_result_missing_id (provider : str) : ProviderError :=
  InvalidResponse provider (lit "tool result message is missing tool_call_id").

(** The values of a [BTreeMap<usize, _>], by increasing key. *)
Definition btree_values {A} (m : gmap N A) : list A :=
  snd <$> sort_by (cmp_on fst N.compare) (map_to_list m).

Section arguments.
Context `{SerdeJson}.

(** [serde_json::from_str(s).unwrap_or(Value::String(s))]. *)
Definition parse_arguments (s : str) : Value := default (VString s) (from_str s).

(** [serialize_tool_arguments]. *)
Definition serialize_tool_arguments (arguments : Value) : str :=
  match arguments with VString value => value | other => to_string other end.

End arguments.

(** ** The message loop of the transports that set the system prompt apart

    A conversion answers [None] where the code has [unreachable!]. *)

Definition is_system (m : ChatMessage) : bool :=
  match chat_role m with RoleSystem | RoleDeveloper => true | _ => false end.
Definition system_text (m : ChatMessage) : option str :=
  if is_system m then nonempty (chat_content m) else None.

Section loop.
Context {M : Type} (convert : ChatMessage → option (result ProviderError M)).

Fixpoint convert_messages (system : list str) (messages : list M) (l : list ChatMessage)
    : option (result ProviderError (list str * list M)) :=
  match l with
  | [] => Some (Ok (system, messages))
  | m :: l =>
      match chat_role m with
      | RoleSystem | RoleDeveloper =>
          convert_messages (system ++ option_list (nonempty (chat_content m))) messages l
      | _ =>
          match convert m with
          | None => None
          | Some (Err e) => Some (Err e)
          | Some (Ok w) => convert_messages system (messages ++ [w]) l
          end
      end
  end.

Lemma convert_messages_spec (c : ChatMessage → result ProviderError M) l :
  (∀ m, is_system m = false → convert m = Some (c m)) →
  ∀ system messages,
  convert_messages system messages l =
  Some (let? ws := collect_result (c <$> filter (λ m, is_system m = false) l) in
        Ok (system ++ omap system_text l, messages ++ ws)).
Proof.
  intros Hc. induction l as [|m l IH]; intros system messages; [cbn; by rewrite !app_nil_r|].
  cbn [convert_messages omap list_omap]. rewrite filter_cons.
  assert (is_system m = true ↔ chat_role m = RoleSystem ∨ chat_role m = RoleDeveloper) as Hs
    by (unfold is_system; destruct (chat_role m); naive_solver).
  destruct (is_system m) eqn:Em.
  - rewrite decide_False by done. unfold system_text at 1. rewrite Em.
    destruct (proj1 Hs eq_refl) as [->| ->]; rewrite IH; destruct (collect_result _); cbn; try done;
      do 3 f_equal; rewrite <- app_assoc; by destruct (nonempty _).
  - rewrite decide_True by done. unfold system_text at 1. rewrite Em. cbn [fmap list_fmap collect_result].
    rewrite Hc by done.
    assert (∀ A (x y : A), match chat_role m with RoleSystem | RoleDeveloper => x | _ => y end = y) as ->
      by (intros; destruct (chat_role m); try done; exfalso; destruct Hs; naive_solver).
    destruct (c m) as [w|e]; [|done]. rewrite IH. cbn. destruct (collect_result _); cbn; [|done].
    by rewrite <- app_assoc.
Qed.
End loop.

(** A tool result that does not say which call it answers. *)
Definition unanswering (m : ChatMessage) : bool :=
  match chat_role m, chat_tool_call_id m with RoleTool, None => true | _, _ => false end.

(** The conversions fail on such a message only, with the same error. *)
Lemma collect_conversions {M} provider (c : ChatMessage → result ProviderError M)
    (w : ChatMessage → M) (l : list ChatMessage) :
  (∀ m, c m = if unanswering m then Err (tool_result_missing_id provider) else Ok (w m)) →
  collect_result (c <$> l) =
  if existsb unanswering l then Err (tool_result_missing_id provider) else Ok (w <$> l).
Proof.
  intros Hc. induction l as [|m l IH]; [done|]. cbn. rewrite Hc.
  destruct (unanswering m); [done|]. cbn. rewrite IH. by destruct (existsb _ _).
Qed.

Lemma existsb_filter_system l :
  existsb unanswering (filter (λ m, is_system m = false) l) = existsb unanswering l.
Proof.
  induction l as [|m l IH]; [done|]. rewrite filter_cons. case_decide as Hm; cbn; [by rewrite IH|].
  rewrite IH. apply not_false_is_true in Hm. unfold is_system, unanswering in *.
  by destruct (chat_role m).
Qed.
