(* ===== verification/WireChat.v ===== *)
(** * The Chat Completions transports
    ([codel00p-providers/src/transports/chat_completions.rs],
    [azure_chat_completions.rs])

    The wire request built from a provider-neutral one, the normalisation of a
    complete response, and the accumulator of a streamed one.  A streamed tool call
    names the index of its slot, a [usize] of the network: the accumulator's vector
    grows to it, and a vector the allocator does not grant ends the task.  The
    longest vector granted is the parameter [vec_limit]. *)

From stdpp Require Import base numbers strings gmap list.
From S2P Require Import Prelude RustStr Utf8 Json ProviderRequest ProviderPolicy ProviderClient Sse WireHttp.

(** ** The request *)

Record ChatCompletionsToolCall := {
  ctc_id : str;
  ctc_kind : str;
  ctc_name : str;
  ctc_arguments : str;
}.
Record ChatCompletionsMessage := {
  cm_role : str;
  cm_content : option str;
  cm_tool_call_id : option str;
  cm_tool_calls : list ChatCompletionsToolCall;
}.
Record ChatCompletionsTool := {
  ctool_kind : str;
  ctool_name : str;
  ctool_description : str;
  ctool_parameters : Value;
}.
(** [stream_options] is its [include_usage]. *)
Record ChatCompletionsRequest := {
  cr_model : option str;
  cr_messages : list ChatCompletionsMessage;
  cr_temperature : option N;
  cr_max_tokens : option N;
  cr_max_completion_tokens : option N;
  cr_tools : list ChatCompletionsTool;
  cr_tool_choice : option Value;
  cr_response_format : option Value;
  cr_stream : bool;
  cr_stream_options : option bool;
}.

Definition chat_role_name (r : MessageRole) : str :=
  match r with
  | RoleSystem => lit "system"
  | RoleDeveloper => lit "developer"
  | RoleUser => lit "user"
  | RoleAssistant => lit "assistant"
  | RoleTool => lit "tool"
  end.

Definition ChatCompletionsTool_from (tool : ToolDefinition) : ChatCompletionsTool :=
  {| ctool_kind := lit "function"; ctool_name := td_name tool;
     ctool_description := td_description tool; ctool_parameters := td_parameters tool |}.

Section request.
Context `{SerdeJson}.

Definition ChatCompletionsToolCall_from (call : ProviderToolCall) : ChatCompletionsToolCall :=
  {| ctc_id := default (ptc_name call) (ptc_id call); ctc_kind := lit "function";
     ctc_name := ptc_name call; ctc_arguments := serialize_tool_arguments (ptc_arguments call) |}.
Definition ChatCompletionsMessage_from (m : ChatMessage) : ChatCompletionsMessage :=
  {| cm_role := chat_role_name (chat_role m); cm_content := chat_content m;
     cm_tool_call_id := chat_tool_call_id m;
     cm_tool_calls := ChatCompletionsToolCall_from <$> chat_tool_calls m |}.

(** [(!tools.is_empty()).then(..).flatten()]: a choice needs a tool. *)
Definition choice_when_tools (value : ToolChoice → Value) (r : InferenceRequest)
    : option Value :=
  if is_empty (ir_tools r) then None else value <$> ir_tool_choice r.

Definition chat_from_request (r : InferenceRequest) (parameter : OutputTokenParameter)
    : ChatCompletionsRequest :=
  let '(max_tokens, max_completion_tokens) :=
    match parameter with
    | MaxTokens => (ir_max_output_tokens r, None)
    | MaxCompletionTokens => (None, ir_max_output_tokens r)
    end in
  {| cr_model := Some (ir_model r);
     cr_messages := ChatCompletionsMessage_from <$> ir_messages r;
     cr_temperature := ir_temperature r; cr_max_tokens := max_tokens;
     cr_max_completion_tokens := max_completion_tokens;
     cr_tools := ChatCompletionsTool_from <$> ir_tools r;
     cr_tool_choice := choice_when_tools choice_openai_value r;
     cr_response_format := ir_response_format r ≫= format_openai_value;
     cr_stream := false; cr_stream_options := None |}.
End request.

Definition without_model (r : ChatCompletionsRequest) : ChatCompletionsRequest :=
  {| cr_model := None; cr_messages := cr_messages r; cr_temperature := cr_temperature r;
     cr_max_tokens := cr_max_tokens r; cr_max_completion_tokens := cr_max_completion_tokens r;
     cr_tools := cr_tools r; cr_tool_choice := cr_tool_choice r;
     cr_response_format := cr_response_format r; cr_stream := cr_stream r;
     cr_stream_options := cr_stream_options r |}.
Definition chat_streaming (r : ChatCompletionsRequest) : ChatCompletionsRequest :=
  {| cr_model := cr_model r; cr_messages := cr_messages r; cr_temperature := cr_temperature r;
     cr_max_tokens := cr_max_tokens r; cr_max_completion_tokens := cr_max_completion_tokens r;
     cr_tools := cr_tools r; cr_tool_choice := cr_tool_choice r;
     cr_response_format := cr_response_format r; cr_stream := true;
     cr_stream_options := Some true |}.

Definition no_slash (base_url : str) : str := trim_end_matches (λ c, (c =? 47)%N) base_url.
Definition chat_url (base_url : str) : str := no_slash base_url ++ lit "/chat/completions".

(** ** Complete responses *)

Record ChatUsage := {
  cu_prompt_tokens : option N;
  cu_completion_tokens : option N;
  cu_cached_tokens : option (option N);
  cu_reasoning_tokens : option (option N);
}.
Definition ChatUsage_normalize (u : ChatUsage) : Usage :=
  let prompt_total := default 0%N (cu_prompt_tokens u) in
  let cache_read := default 0%N (cached ← cu_cached_tokens u; cached) in
  let reasoning := default 0%N (tokens ← cu_reasoning_tokens u; tokens) in
  {| input_tokens := u64_saturating_sub prompt_total cache_read;
     output_tokens := default 0%N (cu_completion_tokens u);
     cache_read_tokens := cache_read; cache_write_tokens := 0; reasoning_tokens := reasoning |}.

Record ChatToolCallResponse := {
  ctr_id : option str;
  ctr_name : str;
  ctr_arguments : str;
}.
Record ChatChoice := {
  cc_finish_reason : option str;
  cc_content : option str;
  cc_tool_calls : list ChatToolCallResponse;
}.
Record ChatCompletionsResponse := {
  cresp_choices : list ChatChoice;
  cresp_usage : option ChatUsage;
}.

Section response.
Context `{SerdeJson}.

Definition ChatToolCallResponse_normalize (c : ChatToolCallResponse) : ProviderToolCall :=
  {| ptc_id := ctr_id c; ptc_name := ctr_name c;
     ptc_arguments := parse_arguments (ctr_arguments c); ptc_provider_data := ∅ |}.

Definition chat_normalize (provider : str) (r : ChatCompletionsResponse)
    : result ProviderError InferenceResponse :=
  let? choice := ok_or (InvalidResponse provider (lit "missing choices[0]"))
                   (head (cresp_choices r)) in
  Ok {| rs_content := cc_content choice;
        rs_tool_calls := ChatToolCallResponse_normalize <$> cc_tool_calls choice;
        rs_finish_reason := cc_finish_reason choice; rs_reasoning := None;
        rs_usage := ChatUsage_normalize <$> cresp_usage r; rs_cost := None;
        rs_provider_data := ∅ |}.
End response.

(** ** Streamed responses *)

(** A tool-call delta has an optional function, whose name and arguments are
    optional. *)
Record ChatStreamToolCall := {
  cd_index : option N;
  cd_id : option str;
  cd_function : option (option str * option str);
}.
Record ChatStreamChoice := {
  cs_content : option str;
  cs_tool_calls : list ChatStreamToolCall;
  cs_finish_reason : option str;
}.
Record ChatCompletionsStreamChunk := {
  ck_choices : list ChatStreamChoice;
  ck_usage : option ChatUsage;
}.

Record StreamingToolCall := {
  slot_id : option str;
  slot_name : str;
  slot_arguments : str;
}.
Definition StreamingToolCall_default : StreamingToolCall :=
  {| slot_id := None; slot_name := []; slot_arguments := [] |}.
Record StreamingAccumulator := {
  sa_content : str;
  sa_has_content : bool;
  sa_finish_reason : option str;
  sa_usage : option Usage;
  sa_tool_calls : list StreamingToolCall;
}.
Definition StreamingAccumulator_default : StreamingAccumulator :=
  {| sa_content := []; sa_has_content := false; sa_finish_reason := None; sa_usage := None;
     sa_tool_calls := [] |}.

Definition set_calls (calls : list StreamingToolCall) (a : StreamingAccumulator)
    : StreamingAccumulator :=
  {| sa_content := sa_content a; sa_has_content := sa_has_content a;
     sa_finish_reason := sa_finish_reason a; sa_usage := sa_usage a; sa_tool_calls := calls |}.

(** What a delta does to its slot. *)
Definition delta_name (d : ChatStreamToolCall) : option str := f ← cd_function d; f.1.
Definition delta_args (d : ChatStreamToolCall) : str := default [] (f ← cd_function d; f.2).
Definition delta_slot (d : ChatStreamToolCall) (slot : StreamingToolCall) : StreamingToolCall :=
  {| slot_id := match cd_id d with Some i => Some i | None => slot_id slot end;
     slot_name := slot_name slot ++ default [] (delta_name d);
     slot_arguments := slot_arguments slot ++ delta_args d |}.

Section accumulator.
Context (vec_limit : N).

(** [resize_with(index + 1, ..)] when the index is out of range; [None] when the
    sum overflows or the vector is not granted. *)
Definition grow (index : N) (calls : list StreamingToolCall)
    : option (list StreamingToolCall) :=
  if (N.of_nat (length calls) <=? index)%N then
    if (index <? u64_max)%N && (index <? vec_limit)%N then
      Some (calls ++ replicate (S (N.to_nat index) - length calls) StreamingToolCall_default)
    else None
  else Some calls.

Definition ingest_delta (x : StreamingAccumulator * sink_log) (d : ChatStreamToolCall)
    : option (StreamingAccumulator * sink_log) :=
  let '(a, log) := x in
  let index := default 0%N (cd_index d) in
  calls ← grow index (sa_tool_calls a);
  slot ← calls !! N.to_nat index;
  let slot := delta_slot d slot in
  Some (set_calls (<[N.to_nat index := slot]> calls) a,
        log ++ [OnToolCallDelta index (slot_id slot) (delta_name d) (delta_args d)]).

Definition ingest_usage (usage : option ChatUsage) (a : StreamingAccumulator)
    : StreamingAccumulator :=
  {| sa_content := sa_content a; sa_has_content := sa_has_content a;
     sa_finish_reason := sa_finish_reason a;
     sa_usage := match usage with Some u => Some (ChatUsage_normalize u) | None => sa_usage a end;
     sa_tool_calls := sa_tool_calls a |}.
Definition ingest_text (choice : ChatStreamChoice) (x : StreamingAccumulator * sink_log)
    : StreamingAccumulator * sink_log :=
  let '(a, log) := x in
  let text := nonempty (cs_content choice) in
  ({| sa_content := sa_content a ++ default [] text;
      sa_has_content := match text with Some _ => true | None => sa_has_content a end;
      sa_finish_reason :=
        match cs_finish_reason choice with Some r => Some r | None => sa_finish_reason a end;
      sa_usage := sa_usage a; sa_tool_calls := sa_tool_calls a |},
   log ++ match text with Some t => [OnToken t] | None => [] end).

Definition ingest_chunk (chunk : ChatCompletionsStreamChunk) (x : StreamingAccumulator * sink_log)
    : option (StreamingAccumulator * sink_log) :=
  let x := (ingest_usage (ck_usage chunk) x.1, x.2) in
  match head (ck_choices chunk) with
  | None => Some x
  | Some choice => fold_opt ingest_delta (ingest_text choice x) (cs_tool_calls choice)
  end.

(** The callback of the stream.  A panic unwinds through the stream: it is the state
    [None], in which nothing more is read. *)
Definition chat_on_data (provider : str) (decode : str → result str ChatCompletionsStreamChunk)
    (payload : str) (x : option (StreamingAccumulator * sink_log))
    : result ProviderError bool * option (StreamingAccumulator * sink_log) :=
  match x with
  | None => (Ok true, None)
  | Some x =>
      match decode payload with
      | Err message => (Err (InvalidResponse provider message), Some x)
      | Ok chunk =>
          match ingest_chunk chunk x with
          | Some x => (Ok false, Some x)
          | None => (Ok true, None)
          end
      end
  end.
End accumulator.

Section finish.
Context `{SerdeJson}.

Definition finished_call (c : StreamingToolCall) : ProviderToolCall :=
  {| ptc_id := slot_id c; ptc_name := slot_name c;
     ptc_arguments := parse_arguments (slot_arguments c); ptc_provider_data := ∅ |}.
Definition chat_finish (provider : str) (a : StreamingAccumulator)
    : result ProviderError InferenceResponse :=
  let tool_calls := finished_call <$> filter (λ c, slot_name c ≠ []) (sa_tool_calls a) in
  if negb (sa_has_content a) && is_empty tool_calls && negb (bool_decide (is_Some (sa_finish_reason a)))
  then Err (InvalidResponse provider (lit "stream produced no events"))
  else Ok {| rs_content := then_some (sa_has_content a) (sa_content a);
             rs_tool_calls := tool_calls; rs_finish_reason := sa_finish_reason a;
             rs_reasoning := None; rs_usage := sa_usage a; rs_cost := None;
             rs_provider_data := ∅ |}.

(** [None]: the task panicked. *)
Definition stream_chat_completions_response (vec_limit : N) (provider : str)
    (decode : str → result str ChatCompletionsStreamChunk) (reply : http_reply)
    : option (result ProviderError InferenceResponse * sink_log) :=
  match stream_exchange provider (chat_on_data vec_limit provider decode) reply
          (Some (StreamingAccumulator_default, [])) with
  | (_, None) => None
  | (Ok _, Some (a, log)) => Some (chat_finish provider a, log)
  | (Err e, Some (_, log)) => Some (Err e, log)
  end.
End finish.

(** ** The transports *)

Section transport.
Context `{SerdeJson}.
Context (decode_body : list byte → result str ChatCompletionsResponse)
        (decode_chunk : str → result str ChatCompletionsStreamChunk)
        (vec_limit : N) (urlencode : str → str)
        (send : http_request ChatCompletionsRequest → http_reply).

Definition bearer_auth (api_key : str) : str * str :=
  (lit "authorization", lit "Bearer " ++ api_key).

Definition chat_complete (provider base_url : str) (credential : Credential)
    (parameter : OutputTokenParameter) (request : InferenceRequest)
    : result ProviderError InferenceResponse :=
  match credential with
  | CredApiKey api_key =>
      json_exchange provider decode_body (chat_normalize provider)
        (send {| hq_url := chat_url base_url; hq_headers := [bearer_auth api_key];
                 hq_body := chat_from_request request parameter |})
  | _ => Err (MissingCredential provider)
  end.
Definition chat_complete_streaming (provider base_url : str) (credential : Credential)
    (parameter : OutputTokenParameter) (request : InferenceRequest)
    : option (result ProviderError InferenceResponse * sink_log) :=
  match credential with
  | CredApiKey api_key =>
      stream_chat_completions_response vec_limit provider decode_chunk
        (send {| hq_url := chat_url base_url; hq_headers := [bearer_auth api_key];
                 hq_body := chat_streaming (chat_from_request request parameter) |})
  | _ => Some (Err (MissingCredential provider), [])
  end.

Definition DEFAULT_AZURE_API_VERSION : str := lit "2024-10-21".
Definition azure_chat_completions_url (base_url deployment api_version : str) : str :=
  no_slash base_url ++ lit "/openai/deployments/" ++ urlencode deployment
    ++ lit "/chat/completions?api-version=" ++ urlencode api_version.
Definition azure_url (base_url : str) (request : InferenceRequest) : str :=
  azure_chat_completions_url base_url (default (ir_model request) (ir_deployment request))
    (default DEFAULT_AZURE_API_VERSION (ir_api_version request)).

Definition azure_complete (provider base_url : str) (credential : Credential)
    (parameter : OutputTokenParameter) (request : InferenceRequest)
    : result ProviderError InferenceResponse :=
  match credential with
  | CredApiKey api_key =>
      json_exchange provider decode_body (chat_normalize provider)
        (send {| hq_url := azure_url base_url request; hq_headers := [(lit "api-key", api_key)];
                 hq_body := without_model (chat_from_request request parameter) |})
  | _ => Err (MissingCredential provider)
  end.
Definition azure_complete_streaming (provider base_url : str) (credential : Credential)
    (parameter : OutputTokenParameter) (request : InferenceRequest)
    : option (result ProviderError InferenceResponse * sink_log) :=
  match credential with
  | CredApiKey api_key =>
      stream_chat_completions_response vec_limit provider decode_chunk
        (send {| hq_url := azure_url base_url request; hq_headers := [(lit "api-key", api_key)];
                 hq_body :=
                   chat_streaming (without_model (chat_from_request request parameter)) |})
  | _ => Some (Err (MissingCredential provider), [])
  end.
End transport.
