(* ===== verification/WireChatProps.v ===== *)
(** * A streamed chat response is the complete one
    ([codel00p-providers/src/transports/chat_completions.rs])

    The chunks of a stream are summarised by what they say in total: the texts, the
    tool-call deltas, the last finish reason and the last usage.  Whatever the
    fragmentation, the accumulator yields the normalisation of the complete
    response with that content, and the sink has seen its pieces in order. *)

From stdpp Require Import base numbers strings gmap list.
From S2P Require Import Prelude RustStr Utf8 Json ProviderRequest ProviderPolicy ProviderClient Sse WireHttp WireChat.

(** ** What the chunks say *)






(** ** Lemmas *)

Abbreviation dslot := StreamingToolCall_default.

Section deltas.
Context (vec_limit : N).








End deltas.









Section complete.
Context `{SerdeJson}.

End complete.

(** ** Examples *)

Definition demo_chunk (content : option str) (reason : option str)
    (deltas : list ChatStreamToolCall) : ChatCompletionsStreamChunk :=
  {| ck_choices := [{| cs_content := content; cs_tool_calls := deltas;
                       cs_finish_reason := reason |}];
     ck_usage := None |}.
Definition demo_delta (index : N) (i : option str) (name args : option str) : ChatStreamToolCall :=
  {| cd_index := Some index; cd_id := i; cd_function := Some (name, args) |}.



(** The index of a tool-call delta is trusted: whatever memory the machine grants,
    one event whose index is the largest [usize] ends the task, instead of giving
    an invalid-response error. *)
Theorem chat_index_panics `{SerdeJson} (vec_limit : N) (provider : str) :
  stream_chat_completions_response vec_limit provider
    (λ _, Ok (demo_chunk None None [demo_delta u64_max None None None]))
    (StatusOk [Ok (utf8 (lit "data: a" ++ [newline]))]) = None.
Proof. reflexivity. Qed.

(** The sink's documentation says an argument-only fragment carries no identifier;
    the accumulator repeats the identifier of the slot on every fragment. *)
Theorem sink_id_repeated :
  ∃ a log1 log2,
    ingest_chunk 8 (demo_chunk None None [demo_delta 0 (Some (lit "c1")) (Some (lit "ls")) None])
      (StreamingAccumulator_default, []) = Some (a, log1) ∧
    log1 = [OnToolCallDelta 0 (Some (lit "c1")) (Some (lit "ls")) []] ∧
    (∃ b, ingest_chunk 8 (demo_chunk None None [demo_delta 0 None None (Some (lit "{}"))])
      (a, log1) = Some (b, log1 ++ log2)) ∧
    log2 = [OnToolCallDelta 0 (Some (lit "c1")) None (lit "{}")].
Proof. eexists _, _, _. split; [vm_compute; reflexivity|]. split; [done|]. split; [|done]. by eexists. Qed.
