(* ===== verification/WireAnthropic.v ===== *)
(** * The Anthropic Messages transport
    ([codel00p-providers/src/transports/anthropic_messages.rs])

    System messages are joined into one text; tool calls and results become content
    blocks.  The streaming accumulator keeps the tool calls by block index. *)

From stdpp Require Import base numbers strings gmap list.
From S2P Require Import Prelude RustStr Utf8 Json ProviderRequest ProviderPolicy ProviderClient Sse WireHttp WireChat.

Definition ANTHROPIC_VERSION : str := lit "2023-06-01".
Definition DEFAULT_MAX_TOKENS : N := 1024%N.

Definition ends_with (p s : str) : bool := bool_decide (is_Some (strip_suffix p s)).
Definition messages_url (base_url : str) : str :=
  let base_url := no_slash base_url in
  if ends_with (lit "/v1") base_url then base_url ++ lit "/messages"
  else base_url ++ lit "/v1/messages".

(** ** The request *)

Inductive AnthropicContentBlock :=
| AnText (text : str)
| AnToolUse (id name : str) (input : Value)
| AnToolResult (tool_use_id content : str).
Inductive AnthropicContent :=
| AnContentText (text : str)
| AnContentBlocks (blocks : list AnthropicContentBlock).
Record AnthropicMessage := {
  am_role : str;
  am_content : AnthropicContent;
}.
Record AnthropicTool := {
  atool_name : str;
  atool_description : str;
  atool_input_schema : Value;
}.
Record AnthropicMessagesRequest := {
  ar_model : str;
  ar_max_tokens : N;
  ar_messages : list AnthropicMessage;
  ar_system : option str;
  ar_temperature : option N;
  ar_tools : list AnthropicTool;
  ar_tool_choice : option Value;
  ar_stream : bool;
}.

Definition AnthropicTool_from (tool : ToolDefinition) : AnthropicTool :=
  {| atool_name := td_name tool; atool_description := td_description tool;
     atool_input_schema := td_parameters tool |}.
Definition AnthropicContentBlock_from (call : ProviderToolCall) : AnthropicContentBlock :=
  AnToolUse (default (ptc_name call) (ptc_id call)) (ptc_name call) (ptc_arguments call).
Definition anthropic_assistant_content (content : option str) (calls : list ProviderToolCall)
    : AnthropicContent :=
  if is_empty calls then AnContentText (default [] content)
  else AnContentBlocks
         (option_list (AnText <$> nonempty content) ++ (AnthropicContentBlock_from <$> calls)).

Definition anthropic_from_chat_message (provider : str) (m : ChatMessage)
    : option (result ProviderError AnthropicMessage) :=
  match chat_role m with
  | RoleUser =>
      Some (Ok {| am_role := lit "user"; am_content := AnContentText (default [] (chat_content m)) |})
  | RoleAssistant =>
      Some (Ok {| am_role := lit "assistant";
                  am_content := anthropic_assistant_content (chat_content m) (chat_tool_calls m) |})
  | RoleTool =>
      Some (let? tool_use_id := ok_or (tool_result_missing_id provider) (chat_tool_call_id m) in
            Ok {| am_role := lit "user";
                  am_content :=
                    AnContentBlocks [AnToolResult tool_use_id (default [] (chat_content m))] |})
  | RoleSystem | RoleDeveloper => None
  end.

Definition join_system_messages (messages : list str) : option str :=
  join_blocks [newline; newline] messages.

Section request.
Context `{SerdeJson}.

Definition anthropic_from_request (provider : str) (r : InferenceRequest)
    : option (result ProviderError AnthropicMessagesRequest) :=
  match convert_messages (anthropic_from_chat_message provider) [] [] (ir_messages r) with
  | None => None
  | Some (Err e) => Some (Err e)
  | Some (Ok (system_messages, messages)) =>
      Some (Ok {| ar_model := ir_model r;
                  ar_max_tokens := default DEFAULT_MAX_TOKENS (ir_max_output_tokens r);
                  ar_messages := messages; ar_system := join_system_messages system_messages;
                  ar_temperature := ir_temperature r;
                  ar_tools := AnthropicTool_from <$> ir_tools r;
                  ar_tool_choice := choice_when_tools choice_anthropic_value r;
                  ar_stream := false |})
  end.
End request.
Definition anthropic_streaming (r : AnthropicMessagesRequest) : AnthropicMessagesRequest :=
  {| ar_model := ar_model r; ar_max_tokens := ar_max_tokens r; ar_messages := ar_messages r;
     ar_system := ar_system r; ar_temperature := ar_temperature r; ar_tools := ar_tools r;
     ar_tool_choice := ar_tool_choice r; ar_stream := true |}.

(** ** Complete responses *)

Record AnthropicUsage := {
  au_input_tokens : option N;
  au_output_tokens : option N;
  au_cache_read_input_tokens : option N;
  au_cache_creation_input_tokens : option N;
}.
Definition AnthropicUsage_normalize (u : AnthropicUsage) : Usage :=
  {| input_tokens := default 0%N (au_input_tokens u);
     output_tokens := default 0%N (au_output_tokens u);
     cache_read_tokens := default 0%N (au_cache_read_input_tokens u);
     cache_write_tokens := default 0%N (au_cache_creation_input_tokens u);
     reasoning_tokens := 0 |}.

Record AnthropicResponseContentBlock := {
  ab_kind : str;
  ab_text : option str;
  ab_id : option str;
  ab_name : option str;
  ab_input : option Value;
}.
Record AnthropicMessagesResponse := {
  ares_id : option str;
  ares_model : option str;
  ares_content : list AnthropicResponseContentBlock;
  ares_stop_reason : option str;
  ares_usage : option AnthropicUsage;
}.

Definition normalize_tool_use (provider : str) (b : AnthropicResponseContentBlock)
    : result ProviderError ProviderToolCall :=
  let? i := ok_or (InvalidResponse provider (lit "tool_use block is missing id")) (ab_id b) in
  let? name := ok_or (InvalidResponse provider (lit "tool_use block is missing name")) (ab_name b) in
  Ok {| ptc_id := Some i; ptc_name := name; ptc_arguments := default (VObject []) (ab_input b);
        ptc_provider_data := ∅ |}.

(** The loop over the blocks: the non-empty texts and the calls, in order. *)
Fixpoint anthropic_blocks (provider : str) (blocks : list AnthropicResponseContentBlock)
    : result ProviderError (list str * list ProviderToolCall) :=
  match blocks with
  | [] => Ok ([], [])
  | b :: blocks =>
      if decide (ab_kind b = lit "text") then
        let? rest := anthropic_blocks provider blocks in
        Ok (option_list (nonempty (ab_text b)) ++ rest.1, rest.2)
      else if decide (ab_kind b = lit "tool_use") then
        let? call := normalize_tool_use provider b in
        let? rest := anthropic_blocks provider blocks in
        Ok (rest.1, call :: rest.2)
      else anthropic_blocks provider blocks
  end.

Definition insert_some (key : str) (o : option str) (m : gmap str Value) : gmap str Value :=
  match o with Some v => <[key := VString v]> m | None => m end.

Definition anthropic_normalize (provider : str) (r : AnthropicMessagesResponse)
    : result ProviderError InferenceResponse :=
  let? blocks := anthropic_blocks provider (ares_content r) in
  Ok {| rs_content := join_blocks [newline] blocks.1; rs_tool_calls := blocks.2;
        rs_finish_reason := ares_stop_reason r; rs_reasoning := None;
        rs_usage := AnthropicUsage_normalize <$> ares_usage r; rs_cost := None;
        rs_provider_data :=
          insert_some (lit "model") (ares_model r) (insert_some (lit "id") (ares_id r) ∅) |}.

(** ** Streamed responses *)

(** A message has a usage; a content block its kind, identifier and name; a delta a
    text, a piece of JSON and a stop reason. *)
Record AnthropicStreamDelta := {
  ad_text : option str;
  ad_partial_json : option str;
  ad_stop_reason : option str;
}.
Record AnthropicStreamContentBlock := {
  asb_kind : str;
  asb_id : option str;
  asb_name : option str;
}.
Record AnthropicStreamEvent := {
  ae_kind : str;
  ae_message : option (option AnthropicUsage);
  ae_index : option N;
  ae_content_block : option AnthropicStreamContentBlock;
  ae_delta : option AnthropicStreamDelta;
  ae_usage : option AnthropicUsage;
}.

Record AnthropicStreamAccumulator := {
  aa_content : str;
  aa_has_content : bool;
  aa_tool_calls : gmap N StreamingToolCall;
  aa_finish_reason : option str;
  aa_input_tokens : N;
  aa_output_tokens : N;
  aa_cache_read_tokens : N;
  aa_cache_write_tokens : N;
  aa_saw_usage : bool;
}.
Definition AnthropicStreamAccumulator_default : AnthropicStreamAccumulator :=
  {| aa_content := []; aa_has_content := false; aa_tool_calls := ∅; aa_finish_reason := None;
     aa_input_tokens := 0; aa_output_tokens := 0; aa_cache_read_tokens := 0;
     aa_cache_write_tokens := 0; aa_saw_usage := false |}.

Definition merge_usage (u : AnthropicUsage) (a : AnthropicStreamAccumulator)
    : AnthropicStreamAccumulator :=
  {| aa_content := aa_content a; aa_has_content := aa_has_content a;
     aa_tool_calls := aa_tool_calls a; aa_finish_reason := aa_finish_reason a;
     aa_input_tokens := default (aa_input_tokens a) (au_input_tokens u);
     aa_output_tokens := default (aa_output_tokens a) (au_output_tokens u);
     aa_cache_read_tokens := default (aa_cache_read_tokens a) (au_cache_read_input_tokens u);
     aa_cache_write_tokens := default (aa_cache_write_tokens a) (au_cache_creation_input_tokens u);
     aa_saw_usage := true |}.
Definition aa_set_calls (calls : gmap N StreamingToolCall) (a : AnthropicStreamAccumulator)
    : AnthropicStreamAccumulator :=
  {| aa_content := aa_content a; aa_has_content := aa_has_content a;
     aa_tool_calls := calls; aa_finish_reason := aa_finish_reason a;
     aa_input_tokens := aa_input_tokens a; aa_output_tokens := aa_output_tokens a;
     aa_cache_read_tokens := aa_cache_read_tokens a;
     aa_cache_write_tokens := aa_cache_write_tokens a; aa_saw_usage := aa_saw_usage a |}.
Definition aa_push_text (text : str) (a : AnthropicStreamAccumulator)
    : AnthropicStreamAccumulator :=
  {| aa_content := aa_content a ++ text; aa_has_content := true;
     aa_tool_calls := aa_tool_calls a; aa_finish_reason := aa_finish_reason a;
     aa_input_tokens := aa_input_tokens a; aa_output_tokens := aa_output_tokens a;
     aa_cache_read_tokens := aa_cache_read_tokens a;
     aa_cache_write_tokens := aa_cache_write_tokens a; aa_saw_usage := aa_saw_usage a |}.
Definition aa_set_reason (reason : str) (a : AnthropicStreamAccumulator)
    : AnthropicStreamAccumulator :=
  {| aa_content := aa_content a; aa_has_content := aa_has_content a;
     aa_tool_calls := aa_tool_calls a; aa_finish_reason := Some reason;
     aa_input_tokens := aa_input_tokens a; aa_output_tokens := aa_output_tokens a;
     aa_cache_read_tokens := aa_cache_read_tokens a;
     aa_cache_write_tokens := aa_cache_write_tokens a; aa_saw_usage := aa_saw_usage a |}.

(** The slot of a tool call that opens. *)
Definition open_slot (i : option str) (name : str) : StreamingToolCall :=
  {| slot_id := i; slot_name := name; slot_arguments := [] |}.
Definition push_arguments (partial : str) (s : StreamingToolCall) : StreamingToolCall :=
  {| slot_id := slot_id s; slot_name := slot_name s;
     slot_arguments := slot_arguments s ++ partial |}.

Definition anthropic_block_start (e : AnthropicStreamEvent)
    (x : AnthropicStreamAccumulator * sink_log) : AnthropicStreamAccumulator * sink_log :=
  let '(a, log) := x in
  match ae_index e, ae_content_block e with
  | Some index, Some block =>
      if decide (asb_kind block = lit "tool_use") then
        let name := default [] (asb_name block) in
        (aa_set_calls (<[index := open_slot (asb_id block) name]> (aa_tool_calls a)) a,
         log ++ [OnToolCallDelta index (asb_id block) (Some name) []])
      else x
  | _, _ => x
  end.
Definition anthropic_delta_text (d : AnthropicStreamDelta)
    (x : AnthropicStreamAccumulator * sink_log) : AnthropicStreamAccumulator * sink_log :=
  match nonempty (ad_text d) with
  | Some text => (aa_push_text text x.1, x.2 ++ [OnToken text])
  | None => x
  end.
Definition anthropic_delta_json (index : option N) (d : AnthropicStreamDelta)
    (x : AnthropicStreamAccumulator * sink_log) : AnthropicStreamAccumulator * sink_log :=
  match index, ad_partial_json d with
  | Some index, Some partial =>
      match aa_tool_calls x.1 !! index with
      | Some slot =>
          (aa_set_calls (<[index := push_arguments partial slot]> (aa_tool_calls x.1)) x.1,
           x.2 ++ [OnToolCallDelta index (slot_id slot) None partial])
      | None => x
      end
  | _, _ => x
  end.
Definition anthropic_message_delta (e : AnthropicStreamEvent) (a : AnthropicStreamAccumulator)
    : AnthropicStreamAccumulator :=
  let a := match (d ← ae_delta e; ad_stop_reason d) with
           | Some reason => aa_set_reason reason a
           | None => a
           end in
  match ae_usage e with Some u => merge_usage u a | None => a end.

Definition anthropic_step (e : AnthropicStreamEvent) (x : AnthropicStreamAccumulator * sink_log)
    : AnthropicStreamAccumulator * sink_log :=
  if decide (ae_kind e = lit "message_start") then
    match (m ← ae_message e; m) with
    | Some usage => (merge_usage usage x.1, x.2)
    | None => x
    end
  else if decide (ae_kind e = lit "content_block_start") then anthropic_block_start e x
  else if decide (ae_kind e = lit "content_block_delta") then
    match ae_delta e with
    | Some d => anthropic_delta_json (ae_index e) d (anthropic_delta_text d x)
    | None => x
    end
  else if decide (ae_kind e = lit "message_delta") then (anthropic_message_delta e x.1, x.2)
  else x.

Section finish.
Context `{SerdeJson}.

(** The argument text of a block: an empty one is an empty object. *)
Definition block_arguments (text : str) : Value :=
  if is_empty text then VObject [] else parse_arguments text.
Definition finished_block (c : StreamingToolCall) : ProviderToolCall :=
  {| ptc_id := slot_id c; ptc_name := slot_name c;
     ptc_arguments := block_arguments (slot_arguments c); ptc_provider_data := ∅ |}.
Definition anthropic_finish (a : AnthropicStreamAccumulator) : InferenceResponse :=
  {| rs_content := then_some (aa_has_content a) (aa_content a);
     rs_tool_calls :=
       finished_block <$> filter (λ c, slot_name c ≠ []) (btree_values (aa_tool_calls a));
     rs_finish_reason := aa_finish_reason a; rs_reasoning := None;
     rs_usage := then_some (aa_saw_usage a)
       {| input_tokens := aa_input_tokens a; output_tokens := aa_output_tokens a;
          cache_read_tokens := aa_cache_read_tokens a;
          cache_write_tokens := aa_cache_write_tokens a; reasoning_tokens := 0 |};
     rs_cost := None; rs_provider_data := ∅ |}.
End finish.

(** ** The transport *)

Section transport.
Context `{SerdeJson}.
Context (decode_body : list byte → result str AnthropicMessagesResponse)
        (decode_event : str → result str AnthropicStreamEvent)
        (send : http_request AnthropicMessagesRequest → http_reply).

Definition anthropic_headers (api_key : str) : list (str * str) :=
  [(lit "x-api-key", api_key); (lit "anthropic-version", ANTHROPIC_VERSION)].

Definition anthropic_complete (provider base_url : str) (credential : Credential)
    (request : InferenceRequest) : option (result ProviderError InferenceResponse) :=
  match credential with
  | CredApiKey api_key =>
      match anthropic_from_request provider request with
      | None => None
      | Some (Err e) => Some (Err e)
      | Some (Ok wire_request) =>
          Some (json_exchange provider decode_body (anthropic_normalize provider)
            (send {| hq_url := messages_url base_url; hq_headers := anthropic_headers api_key;
                     hq_body := wire_request |}))
      end
  | _ => Some (Err (MissingCredential provider))
  end.

Definition anthropic_stream_response (provider : str) (reply : http_reply)
    : result ProviderError InferenceResponse * sink_log :=
  let '(r, (a, log)) :=
    stream_exchange provider (keep_going (ingest_payload provider decode_event anthropic_step))
      reply (AnthropicStreamAccumulator_default, []) in
  (let? _ := r in Ok (anthropic_finish a), log).
Definition anthropic_complete_streaming (provider base_url : str) (credential : Credential)
    (request : InferenceRequest)
    : option (result ProviderError InferenceResponse * sink_log) :=
  match credential with
  | CredApiKey api_key =>
      match anthropic_from_request provider request with
      | None => None
      | Some (Err e) => Some (Err e, [])
      | Some (Ok wire_request) =>
          Some (anthropic_stream_response provider
            (send {| hq_url := messages_url base_url; hq_headers := anthropic_headers api_key;
                     hq_body := anthropic_streaming wire_request |}))
      end
  | _ => Some (Err (MissingCredential provider), [])
  end.
End transport.
