(* ===== verification/WireAnthropicProps.v ===== *)
(** * A streamed Anthropic message against the complete one
    ([codel00p-providers/src/transports/anthropic_messages.rs])

    A message is a list of text and tool blocks.  Its stream opens with the usage so
    far, sends each block in pieces between a start and a stop event, and closes
    with the stop reason and the final usage; other events may come in between. *)

From stdpp Require Import base numbers strings gmap list fin_maps sorting.
From S2P Require Import Prelude RustStr Utf8 Json ProviderRequest ProviderPolicy ProviderClient Sse WireHttp WireChat WireAnthropic.

(** ** The events of a message *)

Inductive message_block :=
| TextBlock (pieces : list str)
| ToolBlock (id name : str) (pieces : list str).

Definition event_of (kind : str) : AnthropicStreamEvent :=
  {| ae_kind := kind; ae_message := None; ae_index := None; ae_content_block := None;
     ae_delta := None; ae_usage := None |}.
Definition start_event (k : N) (kind : str) (i name : option str) : AnthropicStreamEvent :=
  {| ae_kind := lit "content_block_start"; ae_message := None; ae_index := Some k;
     ae_content_block := Some {| asb_kind := kind; asb_id := i; asb_name := name |};
     ae_delta := None; ae_usage := None |}.
Definition delta_event (k : N) (text json : option str) : AnthropicStreamEvent :=
  {| ae_kind := lit "content_block_delta"; ae_message := None; ae_index := Some k;
     ae_content_block := None;
     ae_delta := Some {| ad_text := text; ad_partial_json := json; ad_stop_reason := None |};
     ae_usage := None |}.
Definition opening_event (usage : AnthropicUsage) : AnthropicStreamEvent :=
  {| ae_kind := lit "message_start"; ae_message := Some (Some usage); ae_index := None;
     ae_content_block := None; ae_delta := None; ae_usage := None |}.
Definition closing_event (reason : option str) (usage : AnthropicUsage) : AnthropicStreamEvent :=
  {| ae_kind := lit "message_delta"; ae_message := None; ae_index := None;
     ae_content_block := None;
     ae_delta := Some {| ad_text := None; ad_partial_json := None; ad_stop_reason := reason |};
     ae_usage := Some usage |}.

Definition block_events (k : N) (b : message_block) : list AnthropicStreamEvent :=
  match b with
  | TextBlock ps =>
      start_event k (lit "text") None None :: ((λ p, delta_event k (Some p) None) <$> ps)
  | ToolBlock i name ps =>
      start_event k (lit "tool_use") (Some i) (Some name)
        :: ((λ p, delta_event k None (Some p)) <$> ps)
  end.
Fixpoint blocks_events (k : N) (bs : list message_block) : list AnthropicStreamEvent :=
  match bs with
  | [] => []
  | b :: bs => block_events k b ++ blocks_events (k + 1) bs
  end.

(** The kinds the accumulator reacts to. *)
Definition handled (e : AnthropicStreamEvent) : Prop :=
  ae_kind e ∈ [lit "message_start"; lit "content_block_start"; lit "content_block_delta";
               lit "message_delta"].
#[export] Instance handled_dec e : Decision (handled e).
Proof. unfold handled. apply _. Defined.

Definition message_events (first : AnthropicUsage) (bs : list message_block)
    (reason : option str) (final : AnthropicUsage) : list AnthropicStreamEvent :=
  opening_event first :: blocks_events 0 bs ++ [closing_event reason final].

(** ** The complete message *)

Definition later (new old : option N) : option N :=
  match new with Some n => Some n | None => old end.
Definition merged_usage (first final : AnthropicUsage) : AnthropicUsage :=
  {| au_input_tokens := later (au_input_tokens final) (au_input_tokens first);
     au_output_tokens := later (au_output_tokens final) (au_output_tokens first);
     au_cache_read_input_tokens :=
       later (au_cache_read_input_tokens final) (au_cache_read_input_tokens first);
     au_cache_creation_input_tokens :=
       later (au_cache_creation_input_tokens final) (au_cache_creation_input_tokens first) |}.

Definition block_text (b : message_block) : option str :=
  match b with TextBlock ps => nonempty (Some (concat ps)) | ToolBlock _ _ _ => None end.
Definition block_pieces (b : message_block) : list str :=
  match b with TextBlock ps => filter (λ p, p ≠ []) ps | ToolBlock _ _ _ => [] end.
Definition block_named (b : message_block) : Prop :=
  match b with TextBlock _ => True | ToolBlock _ name _ => name ≠ [] end.

Section complete_message.
Context `{SerdeJson}.

Definition wire_block (b : message_block) : AnthropicResponseContentBlock :=
  match b with
  | TextBlock ps =>
      {| ab_kind := lit "text"; ab_text := Some (concat ps); ab_id := None; ab_name := None;
         ab_input := None |}
  | ToolBlock i name ps =>
      {| ab_kind := lit "tool_use"; ab_text := None; ab_id := Some i; ab_name := Some name;
         ab_input := Some (block_arguments (concat ps)) |}
  end.
Definition block_call (b : message_block) : option ProviderToolCall :=
  match b with
  | TextBlock _ => None
  | ToolBlock i name ps =>
      Some {| ptc_id := Some i; ptc_name := name; ptc_arguments := block_arguments (concat ps);
              ptc_provider_data := ∅ |}
  end.
Definition wire_message (first : AnthropicUsage) (bs : list message_block)
    (reason : option str) (final : AnthropicUsage) : AnthropicMessagesResponse :=
  {| ares_id := None; ares_model := None; ares_content := wire_block <$> bs;
     ares_stop_reason := reason; ares_usage := Some (merged_usage first final) |}.

Lemma anthropic_blocks_spec provider bs :
  anthropic_blocks provider (wire_block <$> bs) = Ok (omap block_text bs, omap block_call bs).
Proof.
  induction bs as [|[ps|i name ps] bs IH]; [done|..]; cbn [fmap list_fmap].
  - change (anthropic_blocks provider (wire_block (TextBlock ps) :: (wire_block <$> bs))) with
      (let? rest := anthropic_blocks provider (wire_block <$> bs) in
       Ok (option_list (nonempty (Some (concat ps))) ++ rest.1, rest.2)).
    rewrite IH. cbn [result_bind fst snd omap list_omap block_text block_call].
    by destruct (nonempty _).
  - change (anthropic_blocks provider (wire_block (ToolBlock i name ps) :: (wire_block <$> bs))) with
      (let? rest := anthropic_blocks provider (wire_block <$> bs) in
       Ok (rest.1, {| ptc_id := Some i; ptc_name := name;
                      ptc_arguments := block_arguments (concat ps); ptc_provider_data := ∅ |}
                   :: rest.2)).
    by rewrite IH.
Qed.
End complete_message.

(** ** The fold *)

Definition aa_add (text : str) (a : AnthropicStreamAccumulator) : AnthropicStreamAccumulator :=
  if is_empty text then a else aa_push_text text a.

Lemma aa_add_app s t a : aa_add (s ++ t) a = aa_add t (aa_add s a).
Proof.
  destruct s, t; try done; unfold aa_add; cbn [is_empty app]; unfold aa_push_text; cbn;
    by rewrite ?app_nil_r, <- ?app_assoc.
Qed.
Lemma aa_add_calls t a : aa_tool_calls (aa_add t a) = aa_tool_calls a.
Proof. by destruct t. Qed.
Lemma aa_set_add calls t a : aa_set_calls calls (aa_add t a) = aa_add t (aa_set_calls calls a).
Proof. by destruct t. Qed.
Lemma aa_set_id a : aa_set_calls (aa_tool_calls a) a = a.
Proof. by destruct a. Qed.

Section fold.
Abbreviation run := (foldl (λ x e, anthropic_step e x)).

Lemma step_ignored e x : ¬ handled e → anthropic_step e x = x.
Proof.
  unfold handled, anthropic_step. intros H.
  rewrite !decide_False; [done|intros E; apply H; rewrite E; set_solver..].
Qed.

Lemma run_handled es x : run x es = run x (filter handled es).
Proof.
  revert x. induction es as [|e es IH]; intros x; [done|]. cbn [foldl]. rewrite filter_cons.
  case_decide; [apply IH|]. rewrite step_ignored by done. apply IH.
Qed.

Lemma run_text k ps a log :
  run (a, log) ((λ p, delta_event k (Some p) None) <$> ps) =
  (aa_add (concat ps) a, log ++ (OnToken <$> filter (λ p, p ≠ []) ps)).
Proof.
  revert a log. induction ps as [|p ps IH]; intros a log; [cbn; by rewrite app_nil_r|].
  cbn [fmap list_fmap foldl concat]. rewrite aa_add_app.
  assert (anthropic_step (delta_event k (Some p) None) (a, log) =
          (aa_add p a, log ++ (OnToken <$> filter (λ p, p ≠ []) [p]))) as ->.
  { destruct p; [|done]. cbn. by rewrite app_nil_r. }
  rewrite IH, <- app_assoc. do 2 f_equal. by destruct p.
Qed.

Lemma run_json k ps a log slot :
  aa_tool_calls a !! k = Some slot →
  ∃ log', run (a, log) ((λ p, delta_event k None (Some p)) <$> ps) =
    (aa_set_calls (<[k := push_arguments (concat ps) slot]> (aa_tool_calls a)) a, log ++ log') ∧
    tokens_of log' = [].
Proof.
  revert a log slot. induction ps as [|p ps IH]; intros a log slot Hk.
  - exists []. cbn. rewrite app_nil_r. split; [|done]. f_equal.
    unfold push_arguments. rewrite app_nil_r. rewrite insert_id, aa_set_id; [done|].
    rewrite Hk. by destruct slot.
  - cbn [fmap list_fmap foldl concat].
    assert (anthropic_step (delta_event k None (Some p)) (a, log) =
      (aa_set_calls (<[k := push_arguments p slot]> (aa_tool_calls a)) a,
       log ++ [OnToolCallDelta k (slot_id slot) None p])) as ->.
    { change (anthropic_step _ _) with (anthropic_delta_json (Some k)
        {| ad_text := None; ad_partial_json := Some p; ad_stop_reason := None |} (a, log)).
      unfold anthropic_delta_json. cbn [ad_partial_json fst snd]. by rewrite Hk. }
    edestruct (IH (aa_set_calls (<[k:=push_arguments p slot]> (aa_tool_calls a)) a)) as (log' & E & Ht).
    { cbn. by rewrite lookup_insert_eq. }
    rewrite E. exists ([OnToolCallDelta k (slot_id slot) None p] ++ log').
    rewrite <- app_assoc. split; [|done].
    unfold aa_set_calls at 1 2 3. cbn. do 2 f_equal. rewrite insert_insert_eq. f_equal.
    unfold push_arguments. cbn. by rewrite app_assoc.
Qed.

Fixpoint tool_entries (k : N) (bs : list message_block) : list (N * StreamingToolCall) :=
  match bs with
  | [] => []
  | TextBlock _ :: bs => tool_entries (k + 1) bs
  | ToolBlock i name ps :: bs =>
      (k, {| slot_id := Some i; slot_name := name; slot_arguments := concat ps |})
        :: tool_entries (k + 1) bs
  end.

Lemma tool_entries_above k bs : Forall (λ e, (k <= e.1)%N) (tool_entries k bs).
Proof.
  revert k. induction bs as [|[ps|i name ps] bs IH]; intros k; cbn [tool_entries]; [done|..];
    [|constructor; [cbn; lia|]]; eapply Forall_impl; [apply IH|cbn; lia|apply IH|cbn; lia].
Qed.
Lemma tool_entries_fresh k j bs : (j < k)%N → (list_to_map (tool_entries k bs) : gmap N _) !! j = None.
Proof.
  intros Hj. apply not_elem_of_list_to_map_1. intros ([j' s] & -> & Hin)%list_elem_of_fmap.
  pose proof (tool_entries_above k bs) as Ha. rewrite Forall_forall in Ha.
  specialize (Ha _ Hin). cbn in *. lia.
Qed.

Definition all_text (bs : list message_block) : str := concat (omap block_text bs).

Lemma run_blocks bs k a log :
  ∃ log', run (a, log) (blocks_events k bs) =
    (aa_add (all_text bs)
       (aa_set_calls (list_to_map (tool_entries k bs) ∪ aa_tool_calls a) a), log ++ log') ∧
    tokens_of log' = concat (block_pieces <$> bs).
Proof.
  revert k a log. induction bs as [|[ps|i name ps] bs IH]; intros k a log.
  - exists []. cbn. rewrite app_nil_r, (left_id_L ∅ (∪)), aa_set_id. done.
  - cbn [blocks_events block_events]. rewrite foldl_app. cbn [foldl].
    change (anthropic_step (start_event _ _ _ _) (a, log)) with (a, log). rewrite run_text.
    destruct (IH (k + 1)%N (aa_add (concat ps) a) (log ++ (OnToken <$> filter (λ p, p ≠ []) ps)))
      as (log' & -> & Ht).
    eexists. rewrite <- app_assoc. split.
    + f_equal. cbn [tool_entries]. rewrite aa_add_calls, aa_set_add, <- aa_add_app. f_equal.
      unfold all_text. cbn [omap list_omap block_text]. by destruct (concat ps).
    + unfold tokens_of. rewrite omap_app. cbn [fmap list_fmap concat block_pieces].
      fold (tokens_of log'). rewrite Ht. f_equal. induction (filter _ _); cbn; [done | by f_equal].
  - cbn [blocks_events block_events]. rewrite foldl_app. cbn [foldl].
    change (anthropic_step (start_event _ _ _ _) (a, log)) with
      (aa_set_calls (<[k := open_slot (Some i) name]> (aa_tool_calls a)) a,
       log ++ [OnToolCallDelta k (Some i) (Some name) []]).
    edestruct (run_json k ps (aa_set_calls (<[k := open_slot (Some i) name]> (aa_tool_calls a)) a))
      as (log1 & -> & Ht1); [cbn; apply lookup_insert_eq|].
    edestruct (IH (k + 1)%N) as (log' & -> & Ht). eexists. rewrite <- !app_assoc. split.
    + f_equal. cbn [tool_entries list_to_map foldr fst snd].
      change (all_text (ToolBlock i name ps :: bs)) with (all_text bs). f_equal.
      unfold aa_set_calls. cbn. f_equal. rewrite insert_insert_eq.
      rewrite <- insert_union_l, insert_union_r by (apply tool_entries_fresh; lia). done.
    + unfold tokens_of in *. rewrite !omap_app, Ht1, Ht. done.
Qed.
End fold.

(** The values of the map are the entries in order. *)
Lemma btree_values_sorted {A} (l : list (N * A)) :
  StronglySorted (λ x y, (x.1 < y.1)%N) l → btree_values (list_to_map l : gmap N A) = l.*2.
Proof.
  intros Hs. unfold btree_values. f_equal.
  assert (NoDup l.*1) as Hnd.
  { induction Hs as [|x l Hs IH Hx]; [constructor|]. cbn. constructor; [|done].
    rewrite list_elem_of_fmap. intros (y & E & Hy). rewrite Forall_forall in Hx. specialize (Hx _ Hy). lia. }
  apply (sorted_perm_unique (cmp_on fst N.compare)).
  - intros x y Hx Hy E. unfold cmp_on in E. apply N.compare_eq in E. destruct x as [i x], y as [j y]; cbn in E; subst j.
    rewrite elem_of_sort_by in Hx, Hy. apply elem_of_map_to_list in Hx, Hy. congruence.
  - apply sort_by_sorted, _.
  - eapply StronglySorted_mono; [|done]. intros x y. unfold cmp_le, cmp_on. 
    intros Hlt E. apply N.compare_gt_iff in E. lia.
  - rewrite sort_by_perm. by apply map_to_list_to_map.
Qed.

Lemma tool_entries_sorted k bs : StronglySorted (λ x y, (x.1 < y.1)%N) (tool_entries k bs).
Proof.
  revert k. induction bs as [|[ps|i name ps] bs IH]; intros k; cbn [tool_entries]; [constructor|apply IH|].
  constructor; [apply IH|]. eapply Forall_impl; [apply tool_entries_above|]. cbn. lia.
Qed.

Lemma filter_keeps {A} (P : A → Prop) `{!∀ x, Decision (P x)} (l : list A) :
  Forall P l → filter P l = l.
Proof. induction 1; [done|]. rewrite filter_cons_True by done. by f_equal. Qed.

Lemma tool_entries_named k bs :
  Forall block_named bs → Forall (λ c, slot_name c ≠ []) (tool_entries k bs).*2.
Proof.
  intros H. revert k. induction H as [|[ps|i name ps] bs Hb _ IH]; intros k; cbn; [done|apply IH|].
  constructor; [exact Hb | apply IH].
Qed.

Section stream.
Context `{SerdeJson}.

Lemma tool_entries_calls k bs : finished_block <$> (tool_entries k bs).*2 = omap block_call bs.
Proof.
  revert k. induction bs as [|[ps|i name ps] bs IH]; intros k; cbn; [done|apply IH|]. f_equal. apply IH.
Qed.

(** What the accumulator makes of a whole message. *)
Lemma run_message first bs reason final es :
  filter handled es = message_events first bs reason final → Forall block_named bs →
  ∃ a log,
    foldl (λ x e, anthropic_step e x) (AnthropicStreamAccumulator_default, []) es = (a, log) ∧
    anthropic_finish a =
      {| rs_content := nonempty (Some (all_text bs)); rs_tool_calls := omap block_call bs;
         rs_finish_reason := reason; rs_reasoning := None;
         rs_usage := Some (AnthropicUsage_normalize (merged_usage first final));
         rs_cost := None; rs_provider_data := ∅ |} ∧
    tokens_of log = concat (block_pieces <$> bs).
Proof.
  intros Hes Hn. rewrite run_handled, Hes. unfold message_events. cbn [foldl]. rewrite foldl_app.
  change (anthropic_step (opening_event first) _) with
    (merge_usage first AnthropicStreamAccumulator_default, @nil sink_event).
  destruct (run_blocks bs 0 (merge_usage first AnthropicStreamAccumulator_default) []) as (log & -> & Ht).
  cbn [app foldl]. eexists _, _. split; [reflexivity|]. split; [|exact Ht].
  assert (∀ m : gmap N StreamingToolCall, m ∪ ∅ = m) as Hu by (intros; apply map_union_empty).
  change (aa_tool_calls (merge_usage first AnthropicStreamAccumulator_default))
    with (∅ : gmap N StreamingToolCall). rewrite Hu. cbn [fst].
  unfold anthropic_finish.
  assert (∀ b, aa_tool_calls (anthropic_message_delta (closing_event reason final) b) =
               aa_tool_calls b) as -> by (intros; by destruct reason).
  rewrite aa_add_calls. cbn [aa_set_calls aa_tool_calls].
  rewrite btree_values_sorted by apply tool_entries_sorted.
  rewrite filter_keeps by by apply tool_entries_named. rewrite tool_entries_calls.
  destruct (all_text bs) eqn:Et, reason, first as [[] [] [] []], final as [[] [] [] []]; reflexivity.
Qed.
Lemma join_at_most_one sep (l : list str) : length l ≤ 1 → join sep l = concat l.
Proof. destruct l as [|x [|]]; cbn; [done| |lia]. by rewrite app_nil_r. Qed.
Lemma texts_nonempty (bs : list message_block) :
  join_blocks [newline] (omap block_text bs) = None ↔ all_text bs = [].
Proof.
  unfold join_blocks, all_text. destruct (omap block_text bs) as [|t l] eqn:E; [done|].
  split; [done|]. cbn. intros [Ht _]%app_eq_nil. exfalso.
  assert (t ∈ omap block_text bs) as Hin by (rewrite E; left).
  apply list_elem_of_omap in Hin as ([ps|] & _ & Hp); [|done]. cbn in Hp.
  by destruct (concat ps); simplify_eq.
Qed.

(** Streaming and completing an Anthropic message agree on everything but the
    joints between text blocks: for any cut of the stream, any pieces of each block
    and any other events in between, the streamed answer has the complete one's
    tool calls (with the same arguments), stop reason and usage; its text is the
    blocks' texts in order, which is the complete answer's text when at most one
    block has text; and the sink received the non-empty pieces in order. *)
Theorem anthropic_stream_complete (provider : str)
    (decode : str → result str AnthropicStreamEvent) (parts : list str)
    (es : list AnthropicStreamEvent) (first final : AnthropicUsage)
    (bs : list message_block) (reason : option str)
    (Hscalar : Forall (Forall (λ c, is_scalar c = true)) parts)
    (Hdecode : Forall2 (λ p e, decode p = Ok e) (payloads (concat parts)) es)
    (Hes : filter handled es = message_events first bs reason final)
    (Hnamed : Forall block_named bs) :
  ∃ r c log,
    anthropic_stream_response decode provider
      (StatusOk ((λ part, Ok (utf8 part)) <$> parts)) = (Ok r, log) ∧
    anthropic_normalize provider (wire_message first bs reason final) = Ok c ∧
    rs_tool_calls r = rs_tool_calls c ∧ rs_finish_reason r = rs_finish_reason c ∧
    rs_usage r = rs_usage c ∧
    default [] (rs_content r) = concat (omap block_text bs) ∧
    (length (omap block_text bs) ≤ 1 → rs_content r = rs_content c) ∧
    tokens_of log = concat (block_pieces <$> bs).
Proof.
  destruct (run_message first bs reason final es Hes Hnamed) as (a & log & E & Ef & Ht).
  unfold anthropic_stream_response. rewrite (stream_exchange_fold _ _ _ _ es) by done. rewrite E.
  unfold anthropic_normalize. cbn [ares_content wire_message]. rewrite anthropic_blocks_spec.
  eexists _, _, _. split_and!; [reflexivity..| | | | | |exact Ht]; rewrite Ef; [done..| |].
  - cbn [rs_content]. fold (all_text bs). by destruct (all_text bs).
  - intros Hl. cbn [rs_content fst]. pose proof (texts_nonempty bs) as Hn.
    unfold join_blocks in *. destruct (is_empty (omap block_text bs)).
    + by rewrite (proj1 Hn eq_refl).
    + rewrite join_at_most_one by done. fold (all_text bs).
      destruct (all_text bs) eqn:Ea; [discriminate (proj2 Hn eq_refl)|done].
Qed.
End stream.

(** ** Examples *)

Definition no_usage : AnthropicUsage :=
  {| au_input_tokens := None; au_output_tokens := None; au_cache_read_input_tokens := None;
     au_cache_creation_input_tokens := None |}.
Definition demo_first : AnthropicUsage :=
  {| au_input_tokens := Some 9%N; au_output_tokens := Some 1%N;
     au_cache_read_input_tokens := None; au_cache_creation_input_tokens := None |}.
Definition demo_final : AnthropicUsage :=
  {| au_input_tokens := None; au_output_tokens := Some 7%N;
     au_cache_read_input_tokens := None; au_cache_creation_input_tokens := None |}.
Definition demo_blocks : list message_block :=
  [TextBlock [lit "he"; []; lit "y"]; ToolBlock (lit "t1") (lit "ls") [lit "{"; lit "}"]].
(** Each payload is one letter, the position of its event from [a]. *)
Definition decode_nth (es : list AnthropicStreamEvent) (payload : str)
    : result str AnthropicStreamEvent :=
  match payload with
  | [c] => ok_or (lit "end") (es !! (N.to_nat c - 97))
  | _ => Err (lit "expected value")
  end.
Definition nth_line (k : nat) : str := lit "data: " ++ [N.of_nat (97 + k)] ++ [newline].
Definition demo_events (bs : list message_block) : list AnthropicStreamEvent :=
  event_of (lit "ping") :: message_events demo_first bs (Some (lit "end_turn")) demo_final.
Definition demo_stream (bs : list message_block) : list str :=
  nth_line <$> seq 0 (length (demo_events bs)).

Lemma anthropic_stream_complete_witness :
  ∃ r log,
    @anthropic_stream_response counting_json (decode_nth (demo_events demo_blocks)) (lit "p")
      (StatusOk ((λ part, Ok (utf8 part)) <$> demo_stream demo_blocks)) = (Ok r, log) ∧
    default [] (rs_content r) = lit "hey" ∧ tokens_of log = [lit "he"; lit "y"].
Proof.
  destruct (@anthropic_stream_complete counting_json (lit "p") (decode_nth (demo_events demo_blocks))
    (demo_stream demo_blocks) (demo_events demo_blocks) demo_first demo_final demo_blocks
    (Some (lit "end_turn"))) as (r & c & log & E & _ & _ & _ & _ & Ec & _ & Ht).
  - repeat (constructor; try reflexivity).
  - repeat (constructor; try reflexivity).
  - vm_compute. reflexivity.
  - repeat constructor; discriminate.
  - exists r, log. split; [exact E|]. split; [exact Ec | exact Ht].
Defined.

(** Two text blocks: the complete answer puts a newline between them, the streamed
    one nothing. *)
Theorem text_blocks_joined_differently :
  let bs := [TextBlock [lit "one"]; TextBlock [lit "two"]] in
  ∃ r c log,
    @anthropic_stream_response counting_json (decode_nth (demo_events bs)) (lit "p")
      (StatusOk ((λ part, Ok (utf8 part)) <$> demo_stream bs)) = (Ok r, log) ∧
    @anthropic_normalize (lit "p")
      (@wire_message counting_json demo_first bs (Some (lit "end_turn")) demo_final) = Ok c ∧
    rs_content r = Some (lit "onetwo") ∧ rs_content c = Some (lit "one" ++ [newline] ++ lit "two").
Proof. intros bs. eexists _, _, _. split; [vm_compute; reflexivity|]. split; [vm_compute; reflexivity|]. done. Qed.
