(* ===== verification/WireGemini.v ===== *)
(** * The Gemini transport ([codel00p-providers/src/transports/gemini.rs])

    System messages become the parts of an instruction; a tool result is named after
    the call it answers, found by its identifier among the calls made before it. *)

From stdpp Require Import base numbers strings gmap list.
From S2P Require Import Prelude RustStr Utf8 Json ProviderRequest ProviderPolicy ProviderClient Sse WireHttp WireChat WireAnthropic.

Definition gemini_models_url (base_url model method : str) : str :=
  let model := default model (strip_prefix (lit "models/") model) in
  let base_url := no_slash base_url in
  if ends_with (lit "/v1beta") base_url then base_url ++ lit "/models/" ++ model ++ method
  else base_url ++ lit "/v1beta/models/" ++ model ++ method.
Definition generate_content_url (base_url model : str) : str :=
  gemini_models_url base_url model (lit ":generateContent").
Definition stream_generate_content_url (base_url model : str) : str :=
  gemini_models_url base_url model (lit ":streamGenerateContent?alt=sse").

(** ** The request *)

Inductive GeminiPart :=
| GpText (text : str)
| GpFunctionCall (id : option str) (name : str) (args : Value)
| GpFunctionResponse (id : option str) (name : str) (response : Value).
Record GeminiContent := {
  gc_role : str;
  gc_parts : list GeminiPart;
}.
Record GeminiGenerationConfig := {
  gg_temperature : option N;
  gg_max_output_tokens : option N;
  gg_response_mime_type : option str;
  gg_response_schema : option Value;
}.
Record GeminiFunctionDeclaration := {
  gf_name : str;
  gf_description : str;
  gf_parameters : Value;
}.
(** A system instruction is its parts, a tool its declarations. *)
Record GeminiRequest := {
  gr_contents : list GeminiContent;
  gr_system_instruction : option (list GeminiPart);
  gr_generation_config : option GeminiGenerationConfig;
  gr_tools : list (list GeminiFunctionDeclaration);
  gr_tool_config : option Value;
}.

Definition GeminiGenerationConfig_from_options (temperature max_output_tokens : option N)
    (format : option ResponseFormat) : option GeminiGenerationConfig :=
  let mime := format ≫= format_gemini_mime_type in
  let schema := format ≫= format_gemini_schema in
  match temperature, max_output_tokens, mime, schema with
  | None, None, None, None => None
  | _, _, _, _ =>
      Some {| gg_temperature := temperature; gg_max_output_tokens := max_output_tokens;
              gg_response_mime_type := mime; gg_response_schema := schema |}
  end.
Definition GeminiFunctionDeclaration_from (tool : ToolDefinition) : GeminiFunctionDeclaration :=
  {| gf_name := td_name tool; gf_description := td_description tool;
     gf_parameters := td_parameters tool |}.
Definition GeminiTool_from_tools (tools : list ToolDefinition)
    : list (list GeminiFunctionDeclaration) :=
  if is_empty tools then [] else [GeminiFunctionDeclaration_from <$> tools].
Definition GeminiSystemInstruction_from_parts (parts : list GeminiPart)
    : option (list GeminiPart) := if is_empty parts then None else Some parts.

Definition GeminiPart_from (call : ProviderToolCall) : GeminiPart :=
  GpFunctionCall (ptc_id call) (ptc_name call) (ptc_arguments call).
Definition assistant_parts (content : option str) (calls : list ProviderToolCall)
    : list GeminiPart :=
  option_list (GpText <$> nonempty content) ++ (GeminiPart_from <$> calls).

Definition tool_result_name (provider : str) (m : ChatMessage) (names : gmap str str)
    : result ProviderError str :=
  let? tool_call_id := ok_or (tool_result_missing_id provider) (chat_tool_call_id m) in
  Ok (default tool_call_id (names !! tool_call_id)).

Section request.
Context `{SerdeJson}.

Definition parse_tool_response (content : str) : Value :=
  match from_str content with
  | Some (VObject map) => VObject map
  | Some other => VObject (map_insert (lit "result") other [])
  | None => VObject (map_insert (lit "result") (VString content) [])
  end.

Definition gemini_from_chat_message (provider : str) (m : ChatMessage) (names : gmap str str)
    : option (result ProviderError GeminiContent) :=
  match chat_role m with
  | RoleUser =>
      Some (Ok {| gc_role := lit "user"; gc_parts := [GpText (default [] (chat_content m))] |})
  | RoleAssistant =>
      Some (Ok {| gc_role := lit "model";
                  gc_parts := assistant_parts (chat_content m) (chat_tool_calls m) |})
  | RoleTool =>
      Some (let? name := tool_result_name provider m names in
            Ok {| gc_role := lit "user";
                  gc_parts :=
                    [GpFunctionResponse (chat_tool_call_id m) name
                       (parse_tool_response (default [] (chat_content m)))] |})
  | RoleSystem | RoleDeveloper => None
  end.

(** The names of the calls made so far, a later call of the same identifier
    replacing an earlier one. *)
Definition record_names (names : gmap str str) (calls : list ProviderToolCall) : gmap str str :=
  foldl (λ names call, match ptc_id call with
                       | Some i => <[i := ptc_name call]> names
                       | None => names
                       end) names calls.

Fixpoint gemini_messages (provider : str) (system : list GeminiPart)
    (contents : list GeminiContent) (names : gmap str str) (l : list ChatMessage)
    : option (result ProviderError (list GeminiPart * list GeminiContent)) :=
  match l with
  | [] => Some (Ok (system, contents))
  | m :: l =>
      match chat_role m with
      | RoleSystem | RoleDeveloper =>
          gemini_messages provider
            (system ++ option_list (GpText <$> nonempty (chat_content m))) contents names l
      | RoleAssistant =>
          let names := record_names names (chat_tool_calls m) in
          match gemini_from_chat_message provider m names with
          | None => None
          | Some (Err e) => Some (Err e)
          | Some (Ok c) => gemini_messages provider system (contents ++ [c]) names l
          end
      | _ =>
          match gemini_from_chat_message provider m names with
          | None => None
          | Some (Err e) => Some (Err e)
          | Some (Ok c) => gemini_messages provider system (contents ++ [c]) names l
          end
      end
  end.

Definition gemini_from_request (provider : str) (r : InferenceRequest)
    : option (result ProviderError GeminiRequest) :=
  match gemini_messages provider [] [] ∅ (ir_messages r) with
  | None => None
  | Some (Err e) => Some (Err e)
  | Some (Ok (system_parts, contents)) =>
      Some (Ok {| gr_contents := contents;
                  gr_system_instruction := GeminiSystemInstruction_from_parts system_parts;
                  gr_generation_config :=
                    GeminiGenerationConfig_from_options (ir_temperature r)
                      (ir_max_output_tokens r) (ir_response_format r);
                  gr_tools := GeminiTool_from_tools (ir_tools r);
                  gr_tool_config := choice_when_tools choice_gemini_config r |})
  end.
End request.

(** ** Complete responses *)

Record GeminiUsageMetadata := {
  gu_prompt_token_count : option N;
  gu_cached_content_token_count : option N;
  gu_candidates_token_count : option N;
  gu_thoughts_token_count : option N;
}.
Definition GeminiUsageMetadata_normalize (u : GeminiUsageMetadata) : Usage :=
  let input_total := default 0%N (gu_prompt_token_count u) in
  let cache_read := default 0%N (gu_cached_content_token_count u) in
  {| input_tokens := u64_saturating_sub input_total cache_read;
     output_tokens := default 0%N (gu_candidates_token_count u);
     cache_read_tokens := cache_read; cache_write_tokens := 0;
     reasoning_tokens := default 0%N (gu_thoughts_token_count u) |}.

Inductive GeminiResponsePart :=
| GrText (text : str)
| GrFunctionCall (id : option str) (name : str) (args : option Value)
| GrOther.
(** A candidate's content is its parts; the role is not read. *)
Record GeminiCandidate := {
  gcand_parts : list GeminiResponsePart;
  gcand_finish_reason : option str;
}.
Record GeminiResponse := {
  gres_candidates : list GeminiCandidate;
  gres_usage_metadata : option GeminiUsageMetadata;
  gres_response_id : option str;
  gres_model_version : option str;
}.

Definition gemini_call (i : option str) (name : str) (args : option Value) : ProviderToolCall :=
  {| ptc_id := i; ptc_name := name; ptc_arguments := default (VObject []) args;
     ptc_provider_data := ∅ |}.
Definition part_text (p : GeminiResponsePart) : option str :=
  match p with GrText text => nonempty (Some text) | _ => None end.
Definition part_call (p : GeminiResponsePart) : option ProviderToolCall :=
  match p with GrFunctionCall i name args => Some (gemini_call i name args) | _ => None end.

Definition gemini_normalize (provider : str) (r : GeminiResponse)
    : result ProviderError InferenceResponse :=
  let? candidate := ok_or (InvalidResponse provider (lit "missing candidates[0]"))
                      (head (gres_candidates r)) in
  Ok {| rs_content := join_blocks [newline] (omap part_text (gcand_parts candidate));
        rs_tool_calls := omap part_call (gcand_parts candidate);
        rs_finish_reason := gcand_finish_reason candidate; rs_reasoning := None;
        rs_usage := GeminiUsageMetadata_normalize <$> gres_usage_metadata r; rs_cost := None;
        rs_provider_data :=
          insert_some (lit "model_version") (gres_model_version r)
            (insert_some (lit "response_id") (gres_response_id r) ∅) |}.

(** ** Streamed responses *)

Record GeminiStreamAccumulator := {
  ga_content : str;
  ga_has_content : bool;
  ga_tool_calls : list ProviderToolCall;
  ga_finish_reason : option str;
  ga_usage : option Usage;
}.
Definition GeminiStreamAccumulator_default : GeminiStreamAccumulator :=
  {| ga_content := []; ga_has_content := false; ga_tool_calls := []; ga_finish_reason := None;
     ga_usage := None |}.
Definition ga_push_text (text : str) (a : GeminiStreamAccumulator) : GeminiStreamAccumulator :=
  {| ga_content := ga_content a ++ text; ga_has_content := true;
     ga_tool_calls := ga_tool_calls a; ga_finish_reason := ga_finish_reason a;
     ga_usage := ga_usage a |}.
Definition ga_push_call (call : ProviderToolCall) (a : GeminiStreamAccumulator)
    : GeminiStreamAccumulator :=
  {| ga_content := ga_content a; ga_has_content := ga_has_content a;
     ga_tool_calls := ga_tool_calls a ++ [call]; ga_finish_reason := ga_finish_reason a;
     ga_usage := ga_usage a |}.

Section accumulator.
Context `{SerdeJson}.

Definition gemini_part (x : GeminiStreamAccumulator * sink_log) (p : GeminiResponsePart)
    : GeminiStreamAccumulator * sink_log :=
  match p with
  | GrText text =>
      if is_empty text then x else (ga_push_text text x.1, x.2 ++ [OnToken text])
  | GrFunctionCall i name args =>
      let call := gemini_call i name args in
      (ga_push_call call x.1,
       x.2 ++ [OnToolCallDelta (N.of_nat (length (ga_tool_calls x.1))) (ptc_id call)
                 (Some (ptc_name call)) (serialize_tool_arguments (ptc_arguments call))])
  | GrOther => x
  end.
Definition gemini_step (chunk : GeminiResponse) (x : GeminiStreamAccumulator * sink_log)
    : GeminiStreamAccumulator * sink_log :=
  let a := x.1 in
  let usage := match gres_usage_metadata chunk with
               | Some u => Some (GeminiUsageMetadata_normalize u)
               | None => ga_usage a
               end in
  match head (gres_candidates chunk) with
  | None =>
      ({| ga_content := ga_content a; ga_has_content := ga_has_content a;
          ga_tool_calls := ga_tool_calls a; ga_finish_reason := ga_finish_reason a;
          ga_usage := usage |}, x.2)
  | Some candidate =>
      let reason := match gcand_finish_reason candidate with
                    | Some r => Some r
                    | None => ga_finish_reason a
                    end in
      foldl gemini_part
        ({| ga_content := ga_content a; ga_has_content := ga_has_content a;
            ga_tool_calls := ga_tool_calls a; ga_finish_reason := reason;
            ga_usage := usage |}, x.2)
        (gcand_parts candidate)
  end.
Definition gemini_finish (a : GeminiStreamAccumulator) : InferenceResponse :=
  {| rs_content := then_some (ga_has_content a) (ga_content a);
     rs_tool_calls := ga_tool_calls a; rs_finish_reason := ga_finish_reason a;
     rs_reasoning := None; rs_usage := ga_usage a; rs_cost := None; rs_provider_data := ∅ |}.

(** ** The transport *)

Context (decode_body : list byte → result str GeminiResponse)
        (decode_chunk : str → result str GeminiResponse)
        (send : http_request GeminiRequest → http_reply).

Definition gemini_complete (provider base_url : str) (credential : Credential)
    (request : InferenceRequest) : option (result ProviderError InferenceResponse) :=
  match credential with
  | CredApiKey api_key =>
      match gemini_from_request provider request with
      | None => None
      | Some (Err e) => Some (Err e)
      | Some (Ok wire_request) =>
          Some (json_exchange provider decode_body (gemini_normalize provider)
            (send {| hq_url := generate_content_url base_url (ir_model request);
                     hq_headers := [(lit "x-goog-api-key", api_key)];
                     hq_body := wire_request |}))
      end
  | _ => Some (Err (MissingCredential provider))
  end.
Definition gemini_stream_response (provider : str) (reply : http_reply)
    : result ProviderError InferenceResponse * sink_log :=
  let '(r, (a, log)) :=
    stream_exchange provider (keep_going (ingest_payload provider decode_chunk gemini_step))
      reply (GeminiStreamAccumulator_default, []) in
  (let? _ := r in Ok (gemini_finish a), log).
Definition gemini_complete_streaming (provider base_url : str) (credential : Credential)
    (request : InferenceRequest)
    : option (result ProviderError InferenceResponse * sink_log) :=
  match credential with
  | CredApiKey api_key =>
      match gemini_from_request provider request with
      | None => None
      | Some (Err e) => Some (Err e, [])
      | Some (Ok wire_request) =>
          Some (gemini_stream_response provider
            (send {| hq_url := stream_generate_content_url base_url (ir_model request);
                     hq_headers := [(lit "x-goog-api-key", api_key)];
                     hq_body := wire_request |}))
      end
  | _ => Some (Err (MissingCredential provider), [])
  end.
End accumulator.

(** ** The Responses transport
    ([codel00p-providers/src/transports/responses.rs])

    Messages become input items, tool calls and results items of their own.  A
    streamed answer is the terminal event's response, or the streamed text when no
    terminal event came.  Serialising the output items back to a value
    ([serde_json::to_value] of a derived structure) is a parameter. *)

Definition responses_url (base_url : str) : str :=
  let base_url := no_slash base_url in
  if ends_with (lit "/v1") base_url then base_url ++ lit "/responses"
  else base_url ++ lit "/v1/responses".

(** ** The request *)

Inductive ResponsesInputTextType := InputText | OutputText.
Definition text_type_as_str (t : ResponsesInputTextType) : str :=
  match t with InputText => lit "input_text" | OutputText => lit "output_text" end.

(** The content of a message is its list of typed texts. *)
Inductive ResponsesInputItem :=
| RiMessage (role : str) (content : list (str * str))
| RiFunctionCall (kind call_id name arguments : str)
| RiFunctionCallOutput (kind call_id output : str).
Record ResponsesTool := {
  rtool_kind : str;
  rtool_name : str;
  rtool_description : str;
  rtool_parameters : Value;
}.
Record ResponsesRequest := {
  rr_model : str;
  rr_input : list ResponsesInputItem;
  rr_store : bool;
  rr_temperature : option N;
  rr_max_output_tokens : option N;
  rr_tools : list ResponsesTool;
  rr_tool_choice : option Value;
  rr_stream : bool;
}.
Definition ResponsesTool_from (tool : ToolDefinition) : ResponsesTool :=
  {| rtool_kind := lit "function"; rtool_name := td_name tool;
     rtool_description := td_description tool; rtool_parameters := td_parameters tool |}.

Definition text_message (role : str) (t : ResponsesInputTextType) (content : option str)
    : ResponsesInputItem := RiMessage role [(text_type_as_str t, default [] content)].

Section request.
Context `{SerdeJson}.

Definition from_tool_call (call : ProviderToolCall) : ResponsesInputItem :=
  RiFunctionCall (lit "function_call") (default (ptc_name call) (ptc_id call)) (ptc_name call)
    (serialize_tool_arguments (ptc_arguments call)).

Definition responses_from_chat_message (provider : str) (m : ChatMessage)
    : result ProviderError (list ResponsesInputItem) :=
  match chat_role m with
  | RoleSystem => Ok [text_message (lit "system") InputText (chat_content m)]
  | RoleDeveloper => Ok [text_message (lit "developer") InputText (chat_content m)]
  | RoleUser => Ok [text_message (lit "user") InputText (chat_content m)]
  | RoleAssistant =>
      Ok (option_list ((λ text, text_message (lit "assistant") OutputText (Some text))
                         <$> nonempty (chat_content m))
          ++ (from_tool_call <$> chat_tool_calls m))
  | RoleTool =>
      let? call_id := ok_or (tool_result_missing_id provider) (chat_tool_call_id m) in
      Ok [RiFunctionCallOutput (lit "function_call_output") call_id (default [] (chat_content m))]
  end.

Definition responses_from_request (provider : str) (r : InferenceRequest)
    : result ProviderError ResponsesRequest :=
  let? input := collect_result (responses_from_chat_message provider <$> ir_messages r) in
  Ok {| rr_model := ir_model r; rr_input := concat input; rr_store := false;
        rr_temperature := ir_temperature r; rr_max_output_tokens := ir_max_output_tokens r;
        rr_tools := ResponsesTool_from <$> ir_tools r;
        rr_tool_choice := choice_when_tools choice_openai_value r; rr_stream := false |}.
End request.
Definition responses_streaming (r : ResponsesRequest) : ResponsesRequest :=
  {| rr_model := rr_model r; rr_input := rr_input r; rr_store := rr_store r;
     rr_temperature := rr_temperature r; rr_max_output_tokens := rr_max_output_tokens r;
     rr_tools := rr_tools r; rr_tool_choice := rr_tool_choice r; rr_stream := true |}.

(** ** Complete responses *)

Record ResponsesUsage := {
  ru_input_tokens : option N;
  ru_output_tokens : option N;
  ru_cached_tokens : option (option N);
  ru_reasoning_tokens : option (option N);
}.
Definition ResponsesUsage_normalize (u : ResponsesUsage) : Usage :=
  let input_total := default 0%N (ru_input_tokens u) in
  let cache_read := default 0%N (cached ← ru_cached_tokens u; cached) in
  let reasoning := default 0%N (tokens ← ru_reasoning_tokens u; tokens) in
  {| input_tokens := u64_saturating_sub input_total cache_read;
     output_tokens := default 0%N (ru_output_tokens u);
     cache_read_tokens := cache_read; cache_write_tokens := 0; reasoning_tokens := reasoning |}.

Record ResponsesOutputContent := {
  roc_kind : str;
  roc_text : option str;
  roc_extra : gmap str Value;
}.
Definition into_text (c : ResponsesOutputContent) : option str :=
  if decide (roc_kind c = lit "output_text") then nonempty (roc_text c) else None.

Record ResponsesOutputItem := {
  roi_kind : str;
  roi_id : option str;
  roi_status : option str;
  roi_role : option str;
  roi_content : list ResponsesOutputContent;
  roi_call_id : option str;
  roi_name : option str;
  roi_arguments : option str;
  roi_extra : gmap str Value;
}.
Definition output_text_blocks (item : ResponsesOutputItem) : list str :=
  omap into_text (roi_content item).

Record ResponsesResponse := {
  rres_id : option str;
  rres_status : option str;
  rres_model : option str;
  rres_output : list ResponsesOutputItem;
  rres_usage : option ResponsesUsage;
}.

Section response.
Context `{SerdeJson} (items_to_value : list ResponsesOutputItem → result str Value).

Definition normalize_function_call (provider : str) (item : ResponsesOutputItem)
    : result ProviderError ProviderToolCall :=
  let? call_id := ok_or (InvalidResponse provider (lit "function_call output is missing call_id"))
                    (roi_call_id item) in
  let? name := ok_or (InvalidResponse provider (lit "function_call output is missing name"))
                 (roi_name item) in
  Ok {| ptc_id := Some call_id; ptc_name := name;
        ptc_arguments := parse_arguments (default [] (roi_arguments item));
        ptc_provider_data :=
          insert_some (lit "status") (roi_status item)
            (insert_some (lit "id") (roi_id item) ∅) |}.

Fixpoint responses_items (provider : str) (items : list ResponsesOutputItem)
    : result ProviderError (list str * list ProviderToolCall) :=
  match items with
  | [] => Ok ([], [])
  | item :: items =>
      if decide (roi_kind item = lit "message") then
        let? rest := responses_items provider items in
        Ok (output_text_blocks item ++ rest.1, rest.2)
      else if decide (roi_kind item = lit "function_call") then
        let? call := normalize_function_call provider item in
        let? rest := responses_items provider items in
        Ok (rest.1, call :: rest.2)
      else responses_items provider items
  end.

Definition responses_normalize (provider : str) (r : ResponsesResponse)
    : result ProviderError InferenceResponse :=
  let? output := map_err (InvalidResponse provider) (items_to_value (rres_output r)) in
  let? blocks := responses_items provider (rres_output r) in
  Ok {| rs_content := join_blocks [newline] blocks.1; rs_tool_calls := blocks.2;
        rs_finish_reason := rres_status r; rs_reasoning := None;
        rs_usage := ResponsesUsage_normalize <$> rres_usage r; rs_cost := None;
        rs_provider_data :=
          <[lit "output" := output]>
            (insert_some (lit "status") (rres_status r)
              (insert_some (lit "model") (rres_model r)
                (insert_some (lit "id") (rres_id r) ∅))) |}.
End response.

(** ** Streamed responses *)

Record ResponsesStreamEvent := {
  re_kind : str;
  re_delta : option str;
  re_response : option ResponsesResponse;
}.
Record ResponsesStreamAccumulator := {
  ra_text : str;
  ra_has_text : bool;
  ra_completed : option ResponsesResponse;
}.
Definition ResponsesStreamAccumulator_default : ResponsesStreamAccumulator :=
  {| ra_text := []; ra_has_text := false; ra_completed := None |}.
Definition terminal_kinds : list str :=
  [lit "response.completed"; lit "response.incomplete"; lit "response.failed"].

Definition responses_step (e : ResponsesStreamEvent) (x : ResponsesStreamAccumulator * sink_log)
    : ResponsesStreamAccumulator * sink_log :=
  let '(a, log) := x in
  if decide (re_kind e = lit "response.output_text.delta") then
    match nonempty (re_delta e) with
    | Some delta =>
        ({| ra_text := ra_text a ++ delta; ra_has_text := true; ra_completed := ra_completed a |},
         log ++ [OnToken delta])
    | None => x
    end
  else if decide (re_kind e ∈ terminal_kinds) then
    match re_response e with
    | Some response =>
        ({| ra_text := ra_text a; ra_has_text := ra_has_text a; ra_completed := Some response |},
         log)
    | None => x
    end
  else x.

Section transport.
Context `{SerdeJson} (items_to_value : list ResponsesOutputItem → result str Value).
Context (decode_body : list byte → result str ResponsesResponse)
        (decode_event : str → result str ResponsesStreamEvent)
        (send : http_request ResponsesRequest → http_reply).

Definition responses_finish (provider : str) (a : ResponsesStreamAccumulator)
    : result ProviderError InferenceResponse :=
  match ra_completed a with
  | Some response => responses_normalize items_to_value provider response
  | None =>
      Ok {| rs_content := then_some (ra_has_text a) (ra_text a); rs_tool_calls := [];
            rs_finish_reason := None; rs_reasoning := None; rs_usage := None; rs_cost := None;
            rs_provider_data := ∅ |}
  end.

Definition responses_complete (provider base_url : str) (credential : Credential)
    (request : InferenceRequest) : result ProviderError InferenceResponse :=
  match credential with
  | CredApiKey api_key =>
      let? wire_request := responses_from_request provider request in
      json_exchange provider decode_body (responses_normalize items_to_value provider)
        (send {| hq_url := responses_url base_url; hq_headers := [bearer_auth api_key];
                 hq_body := wire_request |})
  | _ => Err (MissingCredential provider)
  end.
Definition responses_stream_response (provider : str) (reply : http_reply)
    : result ProviderError InferenceResponse * sink_log :=
  let '(r, (a, log)) :=
    stream_exchange provider (keep_going (ingest_payload provider decode_event responses_step))
      reply (ResponsesStreamAccumulator_default, []) in
  (let? _ := r in responses_finish provider a, log).
Definition responses_complete_streaming (provider base_url : str) (credential : Credential)
    (request : InferenceRequest) : result ProviderError InferenceResponse * sink_log :=
  match credential with
  | CredApiKey api_key =>
      match responses_from_request provider request with
      | Err e => (Err e, [])
      | Ok wire_request =>
          responses_stream_response provider
            (send {| hq_url := responses_url base_url; hq_headers := [bearer_auth api_key];
                     hq_body := responses_streaming wire_request |})
      end
  | _ => (Err (MissingCredential provider), [])
  end.
End transport.
