(* ===== verification/WireBedrock.v ===== *)
(** * The Bedrock Converse transport
    ([codel00p-providers/src/transports/bedrock_converse.rs] and the files of
    [bedrock_converse/])

    The request, the normalisation of a complete response, the AWS signature of the
    exchange, and the accumulator of a stream of binary event frames.  The digests,
    the hexadecimal and percent encodings, the URL parser, the clock and the derived
    (de)serialisers are parameters. *)

From stdpp Require Import base numbers strings gmap list.
From S2P Require Import Prelude RustStr Utf8 Json ProviderRequest ProviderPolicy ProviderClient Sse WireHttp WireChat WireAnthropic.

Definition AWS_ALGORITHM : str := lit "AWS4-HMAC-SHA256".
Definition BEDROCK_SERVICE : str := lit "bedrock".

(** ** The request ([request.rs]) *)

Definition DEFAULT_BEDROCK_BASE_URL : str := lit "https://bedrock-runtime.us-east-1.amazonaws.com".
Definition bedrock_base_url (base_url region : str) : str :=
  if bool_decide (no_slash base_url = DEFAULT_BEDROCK_BASE_URL)
     && negb (bool_decide (region = lit "us-east-1"))
  then lit "https://bedrock-runtime." ++ region ++ lit ".amazonaws.com"
  else no_slash base_url.

Section urls.
Context (urlencode : str → str).
Definition converse_url (base_url region model : str) : str :=
  bedrock_base_url base_url region ++ lit "/model/" ++ urlencode model ++ lit "/converse".
Definition converse_stream_url (base_url region model : str) : str :=
  bedrock_base_url base_url region ++ lit "/model/" ++ urlencode model ++ lit "/converse-stream".
End urls.

(** The content of a tool result is its texts. *)
Inductive BedrockContentBlock :=
| BcText (text : str)
| BcToolUse (tool_use_id name : str) (input : Value)
| BcToolResult (tool_use_id : str) (content : list str).
Record BedrockMessage := {
  bm_role : str;
  bm_content : list BedrockContentBlock;
}.
Record BedrockInferenceConfig := {
  bi_temperature : option N;
  bi_max_tokens : option N;
}.
Record BedrockTool := {
  bt_name : str;
  bt_description : str;
  bt_input_schema : Value;
}.
Record BedrockToolConfig := {
  btc_tools : list BedrockTool;
  btc_tool_choice : option Value;
}.
(** A system block is its text. *)
Record BedrockConverseRequest := {
  br_system : list str;
  br_messages : list BedrockMessage;
  br_inference_config : option BedrockInferenceConfig;
  br_tool_config : option BedrockToolConfig;
}.

Definition BedrockInferenceConfig_from_options (temperature max_tokens : option N)
    : option BedrockInferenceConfig :=
  match temperature, max_tokens with
  | None, None => None
  | _, _ => Some {| bi_temperature := temperature; bi_max_tokens := max_tokens |}
  end.
Definition BedrockTool_from (tool : ToolDefinition) : BedrockTool :=
  {| bt_name := td_name tool; bt_description := td_description tool;
     bt_input_schema := td_parameters tool |}.
Definition BedrockContentBlock_from (call : ProviderToolCall) : BedrockContentBlock :=
  BcToolUse (default (ptc_name call) (ptc_id call)) (ptc_name call) (ptc_arguments call).
Definition bedrock_assistant_content (content : option str) (calls : list ProviderToolCall)
    : list BedrockContentBlock :=
  option_list (BcText <$> nonempty content) ++ (BedrockContentBlock_from <$> calls).

Definition bedrock_from_chat_message (provider : str) (m : ChatMessage)
    : option (result ProviderError BedrockMessage) :=
  match chat_role m with
  | RoleUser =>
      Some (Ok {| bm_role := lit "user"; bm_content := [BcText (default [] (chat_content m))] |})
  | RoleAssistant =>
      Some (Ok {| bm_role := lit "assistant";
                  bm_content := bedrock_assistant_content (chat_content m) (chat_tool_calls m) |})
  | RoleTool =>
      Some (let? tool_use_id := ok_or (tool_result_missing_id provider) (chat_tool_call_id m) in
            Ok {| bm_role := lit "user";
                  bm_content := [BcToolResult tool_use_id [default [] (chat_content m)]] |})
  | RoleSystem | RoleDeveloper => None
  end.

Section request.
Context `{SerdeJson}.

Definition BedrockToolConfig_from_tools (tools : list ToolDefinition)
    (choice : option ToolChoice) : option BedrockToolConfig :=
  if is_empty tools then None
  else Some {| btc_tools := BedrockTool_from <$> tools;
               btc_tool_choice := choice ≫= choice_bedrock_value |}.

Definition bedrock_from_request (provider : str) (r : InferenceRequest)
    : option (result ProviderError BedrockConverseRequest) :=
  match convert_messages (bedrock_from_chat_message provider) [] [] (ir_messages r) with
  | None => None
  | Some (Err e) => Some (Err e)
  | Some (Ok (system, messages)) =>
      Some (Ok {| br_system := system; br_messages := messages;
                  br_inference_config :=
                    BedrockInferenceConfig_from_options (ir_temperature r) (ir_max_output_tokens r);
                  br_tool_config := BedrockToolConfig_from_tools (ir_tools r) (ir_tool_choice r) |})
  end.
End request.

(** ** Complete responses ([response.rs]) *)

Record BedrockUsage := {
  bu_input_tokens : option N;
  bu_output_tokens : option N;
  bu_cache_read_input_tokens : option N;
  bu_cache_write_input_tokens : option N;
}.
Definition BedrockUsage_normalize (u : BedrockUsage) : Usage :=
  let input_total := default 0%N (bu_input_tokens u) in
  let cache_read := default 0%N (bu_cache_read_input_tokens u) in
  {| input_tokens := u64_saturating_sub input_total cache_read;
     output_tokens := default 0%N (bu_output_tokens u);
     cache_read_tokens := cache_read;
     cache_write_tokens := default 0%N (bu_cache_write_input_tokens u); reasoning_tokens := 0 |}.

Inductive BedrockResponseContentBlock :=
| BrText (text : str)
| BrToolUse (tool_use_id name : str) (input : Value)
| BrOther.
(** The output is its message's blocks. *)
Record BedrockConverseResponse := {
  bres_output : option (list BedrockResponseContentBlock);
  bres_stop_reason : option str;
  bres_usage : option BedrockUsage;
}.
Definition bedrock_block_text (b : BedrockResponseContentBlock) : option str :=
  match b with BrText text => nonempty (Some text) | _ => None end.
Definition bedrock_block_call (b : BedrockResponseContentBlock) : option ProviderToolCall :=
  match b with
  | BrToolUse tool_use_id name input =>
      Some {| ptc_id := Some tool_use_id; ptc_name := name; ptc_arguments := input;
              ptc_provider_data := ∅ |}
  | _ => None
  end.
Definition bedrock_normalize (r : BedrockConverseResponse)
    : result ProviderError InferenceResponse :=
  let blocks := default [] (bres_output r) in
  Ok {| rs_content := join_blocks [newline] (omap bedrock_block_text blocks);
        rs_tool_calls := omap bedrock_block_call blocks;
        rs_finish_reason := bres_stop_reason r; rs_reasoning := None;
        rs_usage := BedrockUsage_normalize <$> bres_usage r; rs_cost := None;
        rs_provider_data := ∅ |}.

(** ** Event frames ([stream.rs]) *)

Definition be_bytes (bs : list byte) : N := foldl (λ n b, n * 256 + b)%N 0%N bs.

Record DecodedFrame := {
  df_event_type : option str;
  df_payload : list byte;
  df_consumed : nat;
}.

Definition event_type_name : list byte := utf8 (lit ":event-type").

(** The bytes of a value of a type, after the length it may start with; [None] ends
    the loop. *)
Definition header_value_len (value_type : byte) (rest : list byte) : option (nat * list byte) :=
  match value_type with
  | 0%N | 1%N => Some (0, rest)
  | 2%N => Some (1, rest)
  | 3%N => Some (2, rest)
  | 4%N => Some (4, rest)
  | 5%N => Some (8, rest)
  | 6%N | 7%N =>
      match rest with
      | b0 :: b1 :: rest => Some (N.to_nat (be_bytes [b0; b1]), rest)
      | _ => None
      end
  | 8%N => Some (8, rest)
  | 9%N => Some (16, rest)
  | _ => None
  end.

(** One turn of the loop takes a byte at least. *)
Fixpoint event_type_loop (fuel : nat) (headers : list byte) (event_type : option str)
    : option str :=
  match fuel, headers with
  | S fuel, name_len :: rest =>
      let name := take (N.to_nat name_len) rest in
      match drop (N.to_nat name_len) rest with
      | [] => event_type
      | value_type :: rest =>
          match header_value_len value_type rest with
          | None => event_type
          | Some (value_len, rest) =>
              if decide (length rest < value_len) then event_type
              else
                let event_type :=
                  if bool_decide (name = event_type_name) && (value_type =? 7)%N
                  then Some (from_utf8_lossy (take value_len rest)) else event_type in
                event_type_loop fuel (drop value_len rest) event_type
          end
      end
  | _, _ => event_type
  end.
Definition event_type_from_headers (headers : list byte) : option str :=
  event_type_loop (length headers) headers None.

Definition decode_eventstream_frame (buffer : list byte)
    : result ProviderError (option DecodedFrame) :=
  if decide (length buffer < 12) then Ok None
  else
    let total_len := be_bytes (take 4 buffer) in
    let headers_len := be_bytes (take 4 (drop 4 buffer)) in
    if ((total_len <? 16) || (total_len - 16 <? headers_len))%N then
      Err (InvalidResponse BEDROCK_SERVICE (lit "invalid eventstream frame lengths"))
    else if (N.of_nat (length buffer) <? total_len)%N then Ok None
    else
      let h := N.to_nat headers_len in
      let t := N.to_nat total_len in
      Ok (Some {| df_event_type := event_type_from_headers (take h (drop 12 buffer));
                  df_payload := take (t - 4 - (12 + h)) (drop (12 + h) buffer);
                  df_consumed := t |}).

(** ** The accumulator *)

Record BedrockStreamAccumulator := {
  ba_content : str;
  ba_has_content : bool;
  ba_tool_calls : gmap N StreamingToolCall;
  ba_finish_reason : option str;
  ba_usage : option Usage;
}.
Definition BedrockStreamAccumulator_default : BedrockStreamAccumulator :=
  {| ba_content := []; ba_has_content := false; ba_tool_calls := ∅; ba_finish_reason := None;
     ba_usage := None |}.

Definition content_block_index (value : Value) : N :=
  default 0%N (i ← get (lit "contentBlockIndex") value; as_u64 i).
Definition usage_field (usage : Value) (field : str) : N :=
  default 0%N (n ← get field usage; as_u64 n).

Definition ba_set_calls (calls : gmap N StreamingToolCall) (a : BedrockStreamAccumulator)
    : BedrockStreamAccumulator :=
  {| ba_content := ba_content a; ba_has_content := ba_has_content a; ba_tool_calls := calls;
     ba_finish_reason := ba_finish_reason a; ba_usage := ba_usage a |}.
Definition ba_push_text (text : str) (a : BedrockStreamAccumulator) : BedrockStreamAccumulator :=
  {| ba_content := ba_content a ++ text; ba_has_content := true;
     ba_tool_calls := ba_tool_calls a; ba_finish_reason := ba_finish_reason a;
     ba_usage := ba_usage a |}.

Definition bedrock_block_start (value : Value) (x : BedrockStreamAccumulator * sink_log)
    : BedrockStreamAccumulator * sink_log :=
  let '(a, log) := x in
  let index := content_block_index value in
  match (start ← get (lit "start") value; get (lit "toolUse") start) with
  | Some tool =>
      let i := get_str (lit "toolUseId") tool in
      let name := default [] (get_str (lit "name") tool) in
      (ba_set_calls (<[index := open_slot i name]> (ba_tool_calls a)) a,
       log ++ [OnToolCallDelta index i (Some name) []])
  | None => x
  end.
Definition bedrock_delta_text (delta : Value) (x : BedrockStreamAccumulator * sink_log)
    : BedrockStreamAccumulator * sink_log :=
  match nonempty (get_str (lit "text") delta) with
  | Some text => (ba_push_text text x.1, x.2 ++ [OnToken text])
  | None => x
  end.
Definition bedrock_delta_input (index : N) (delta : Value)
    (x : BedrockStreamAccumulator * sink_log) : BedrockStreamAccumulator * sink_log :=
  match (tool ← get (lit "toolUse") delta; get_str (lit "input") tool) with
  | Some input =>
      let slot := default StreamingToolCall_default (ba_tool_calls x.1 !! index) in
      (ba_set_calls (<[index := push_arguments input slot]> (ba_tool_calls x.1)) x.1,
       x.2 ++ [OnToolCallDelta index (slot_id slot) None input])
  | None => x
  end.
Definition ba_set_reason (reason : str) (a : BedrockStreamAccumulator)
    : BedrockStreamAccumulator :=
  {| ba_content := ba_content a; ba_has_content := ba_has_content a;
     ba_tool_calls := ba_tool_calls a; ba_finish_reason := Some reason; ba_usage := ba_usage a |}.
Definition ba_set_usage (usage : Value) (a : BedrockStreamAccumulator)
    : BedrockStreamAccumulator :=
  {| ba_content := ba_content a; ba_has_content := ba_has_content a;
     ba_tool_calls := ba_tool_calls a; ba_finish_reason := ba_finish_reason a;
     ba_usage := Some
       {| input_tokens := usage_field usage (lit "inputTokens");
          output_tokens := usage_field usage (lit "outputTokens");
          cache_read_tokens := usage_field usage (lit "cacheReadInputTokens");
          cache_write_tokens := usage_field usage (lit "cacheWriteInputTokens");
          reasoning_tokens := 0 |} |}.

Definition bedrock_step (event_type : str) (value : Value)
    (x : BedrockStreamAccumulator * sink_log) : BedrockStreamAccumulator * sink_log :=
  if decide (event_type = lit "contentBlockStart") then bedrock_block_start value x
  else if decide (event_type = lit "contentBlockDelta") then
    match get (lit "delta") value with
    | Some delta =>
        bedrock_delta_input (content_block_index value) delta (bedrock_delta_text delta x)
    | None => x
    end
  else if decide (event_type = lit "messageStop") then
    match get_str (lit "stopReason") value with
    | Some reason => (ba_set_reason reason x.1, x.2)
    | None => x
    end
  else if decide (event_type = lit "metadata") then
    match get (lit "usage") value with
    | Some usage => (ba_set_usage usage x.1, x.2)
    | None => x
    end
  else x.

Definition bedrock_finish `{SerdeJson} (a : BedrockStreamAccumulator) : InferenceResponse :=
  {| rs_content := then_some (ba_has_content a) (ba_content a);
     rs_tool_calls :=
       finished_block <$> filter (λ c, slot_name c ≠ []) (btree_values (ba_tool_calls a));
     rs_finish_reason := ba_finish_reason a; rs_reasoning := None; rs_usage := ba_usage a;
     rs_cost := None; rs_provider_data := ∅ |}.

(** ** Reading the stream ([bedrock_converse.rs]) *)

Section frames.
Context {X : Type} (provider : str).
Context (ingest : str → list byte → X → result ProviderError unit * X).

Definition ingest_frame (frame : DecodedFrame) (x : X) : result ProviderError unit * X :=
  match df_event_type frame with
  | Some event_type => ingest event_type (df_payload frame) x
  | None => (Ok tt, x)
  end.

(** A frame has sixteen bytes at least: the length of the buffer is enough fuel. *)
Fixpoint drain_frames (fuel : nat) (buffer : list byte) (x : X)
    : result ProviderError (list byte) * X :=
  match fuel with
  | 0 => (Ok buffer, x)
  | S fuel =>
      match decode_eventstream_frame buffer with
      | Err e => (Err e, x)
      | Ok None => (Ok buffer, x)
      | Ok (Some frame) =>
          match ingest_frame frame x with
          | (Err e, x) => (Err e, x)
          | (Ok _, x) => drain_frames fuel (drop (df_consumed frame) buffer) x
          end
      end
  end.

Fixpoint read_frames (chunks : list (result str (list byte))) (buffer : list byte) (x : X)
    : result ProviderError unit * X :=
  match chunks with
  | [] => (Ok tt, x)
  | Err message :: _ => (Err (Http provider message), x)
  | Ok chunk :: chunks =>
      let buffer := buffer ++ chunk in
      match drain_frames (S (length buffer)) buffer x with
      | (Err e, x) => (Err e, x)
      | (Ok buffer, x) => read_frames chunks buffer x
      end
  end.
End frames.

(** ** The signature ([signing.rs]) *)

Record Url := {
  url_path : str;
  url_host_str : option str;
  url_port : option N;
}.
(** The clock: a date and a time of day, in UTC. *)
Record utc_now := {
  now_year : N; now_month : N; now_day : N;
  now_hour : N; now_minute : N; now_second : N;
}.

(** [{:0width}]. *)
Definition padded (width : nat) (n : N) : str :=
  let digits := show_N n in replicate (width - length digits) 48%N ++ digits.

Definition canonical_host (url : Url) : str :=
  let host := default [] (url_host_str url) in
  match url_port url with
  | Some port => host ++ lit ":" ++ show_N port
  | None => host
  end.

Section signing.
Context (sha256 : list byte → list byte) (hmac : list byte → list byte → list byte)
        (hex_encode : list byte → str) (invalid_header : str).

Definition sha256_hex (bytes : list byte) : str := hex_encode (sha256 bytes).
Definition aws_signing_key (secret_access_key date_stamp region service : str) : list byte :=
  let date_key := hmac (utf8 (lit "AWS4" ++ secret_access_key)) (utf8 date_stamp) in
  let region_key := hmac date_key (utf8 region) in
  let service_key := hmac region_key (utf8 service) in
  hmac service_key (utf8 (lit "aws4_request")).

(** [HeaderValue::from_str]: no control character but the tab. *)
Definition header_byte (b : byte) : bool := ((32 <=? b) && negb (b =? 127) || (b =? 9))%N.
Definition header_value (s : str) : result ProviderError str :=
  if forallb header_byte (utf8 s) then Ok s else Err (Http (lit "bedrock") invalid_header).

Definition date_stamp_of (now : utc_now) : str :=
  padded 4 (now_year now) ++ padded 2 (now_month now) ++ padded 2 (now_day now).
Definition amz_date_of (now : utc_now) : str :=
  date_stamp_of now ++ lit "T" ++ padded 2 (now_hour now) ++ padded 2 (now_minute now)
    ++ padded 2 (now_second now) ++ lit "Z".

Definition signed_headers_of (host payload_hash amz_date : str) (session_token : option str)
    : list (str * str) :=
  sort_by (cmp_on fst str_cmp)
    ([(lit "content-type", lit "application/json"); (lit "host", host);
      (lit "x-amz-content-sha256", payload_hash); (lit "x-amz-date", amz_date)]
     ++ option_list ((λ token, (lit "x-amz-security-token", token)) <$> session_token)).
Definition canonical_headers (headers : list (str * str)) : str :=
  concat ((λ h, h.1 ++ lit ":" ++ h.2 ++ [newline]) <$> headers).
Definition header_names (headers : list (str * str)) : str := join (lit ";") headers.*1.
Definition canonical_request (path : str) (headers : list (str * str)) (payload_hash : str)
    : str :=
  lit "POST" ++ [newline] ++ path ++ [newline; newline] ++ canonical_headers headers
    ++ header_names headers ++ [newline] ++ payload_hash.
Definition credential_scope_of (date_stamp region : str) : str :=
  date_stamp ++ lit "/" ++ region ++ lit "/" ++ BEDROCK_SERVICE ++ lit "/aws4_request".
Definition string_to_sign (amz_date credential_scope canonical : str) : str :=
  AWS_ALGORITHM ++ [newline] ++ amz_date ++ [newline] ++ credential_scope ++ [newline]
    ++ sha256_hex (utf8 canonical).

Definition sign_bedrock_request (now : utc_now) (url : Url) (body : list byte)
    (access_key_id secret_access_key : str) (session_token : option str) (region : str)
    : result ProviderError (list (str * str)) :=
  let date_stamp := date_stamp_of now in
  let amz_date := amz_date_of now in
  let payload_hash := sha256_hex body in
  let host := canonical_host url in
  let signed_headers := signed_headers_of host payload_hash amz_date session_token in
  let canonical := canonical_request (url_path url) signed_headers payload_hash in
  let credential_scope := credential_scope_of date_stamp region in
  let signing_key := aws_signing_key secret_access_key date_stamp region BEDROCK_SERVICE in
  let signature :=
    hex_encode (hmac signing_key (utf8 (string_to_sign amz_date credential_scope canonical))) in
  let authorization :=
    AWS_ALGORITHM ++ lit " Credential=" ++ access_key_id ++ lit "/" ++ credential_scope
      ++ lit ", SignedHeaders=" ++ header_names signed_headers ++ lit ", Signature=" ++ signature in
  let? host := header_value host in
  let? payload_hash := header_value payload_hash in
  let? amz_date := header_value amz_date in
  let? token := match session_token with
                | Some token => let? token := header_value token in
                                Ok [(lit "x-amz-security-token", token)]
                | None => Ok []
                end in
  let? authorization := header_value authorization in
  Ok ([(lit "content-type", lit "application/json"); (lit "host", host);
       (lit "x-amz-content-sha256", payload_hash); (lit "x-amz-date", amz_date)]
      ++ token ++ [(lit "authorization", authorization)]).

(** ** The transport *)

Context `{SerdeJson} (urlencode : str → str) (url_parse : str → result str Url)
        (encode_request : BedrockConverseRequest → result str (list byte))
        (decode_body : list byte → result str BedrockConverseResponse)
        (from_slice : list byte → result str Value)
        (now : utc_now) (send : http_request (list byte) → http_reply).

Definition bedrock_ingest (provider event_type : str) (payload : list byte)
    (x : BedrockStreamAccumulator * sink_log)
    : result ProviderError unit * (BedrockStreamAccumulator * sink_log) :=
  match from_slice payload with
  | Err message => (Err (InvalidResponse provider message), x)
  | Ok value => (Ok tt, bedrock_step event_type value x)
  end.

(** Building, signing and sending the request; [None] where the code has
    [unreachable!]. *)
Definition bedrock_send (url_of : str → str → str → str) (provider base_url : str)
    (credential : Credential) (request : InferenceRequest)
    : option (result ProviderError http_reply) :=
  match credential with
  | CredAwsSigV4 access_key_id secret_access_key session_token region =>
      match bedrock_from_request provider request with
      | None => None
      | Some (Err e) => Some (Err e)
      | Some (Ok wire_request) =>
          Some (let? body := map_err (InvalidResponse provider) (encode_request wire_request) in
                let text := url_of base_url region (ir_model request) in
                let? url := map_err (Http provider) (url_parse text) in
                let? headers := sign_bedrock_request now url body access_key_id secret_access_key
                                  session_token region in
                Ok (send {| hq_url := text; hq_headers := headers; hq_body := body |}))
      end
  | _ => Some (Err (MissingCredential provider))
  end.

Definition bedrock_complete (provider base_url : str) (credential : Credential)
    (request : InferenceRequest) : option (result ProviderError InferenceResponse) :=
  match bedrock_send (converse_url urlencode) provider base_url credential request with
  | None => None
  | Some (Err e) => Some (Err e)
  | Some (Ok reply) => Some (json_exchange provider decode_body bedrock_normalize reply)
  end.

Definition bedrock_stream_response (provider : str) (reply : http_reply)
    : result ProviderError InferenceResponse * sink_log :=
  match reply with
  | SendFailed message => (Err (Http provider message), [])
  | StatusFailed status retry_after body =>
      (Err (http_status_error provider status (default [] body)
              (retry_after_seconds retry_after)), [])
  | StatusOk chunks =>
      let '(r, (a, log)) :=
        read_frames provider (bedrock_ingest provider) chunks []
          (BedrockStreamAccumulator_default, []) in
      (let? _ := r in Ok (bedrock_finish a), log)
  end.
Definition bedrock_complete_streaming (provider base_url : str) (credential : Credential)
    (request : InferenceRequest)
    : option (result ProviderError InferenceResponse * sink_log) :=
  match bedrock_send (converse_stream_url urlencode) provider base_url credential request with
  | None => None
  | Some (Err e) => Some (Err e, [])
  | Some (Ok reply) => Some (bedrock_stream_response provider reply)
  end.
End signing.
