(* ===== verification/WireBedrockProps.v ===== *)
(** * Event frames survive any cut
    ([codel00p-providers/src/transports/bedrock_converse/stream.rs],
    [bedrock_converse.rs])

    The encoder of event-stream messages is the specification here: typed headers,
    a payload and two checksums the decoder does not read.  Whatever the chunks of
    the connection, the accumulator receives exactly the events encoded, in order. *)

From stdpp Require Import base numbers strings gmap list.
From S2P Require Import Prelude RustStr Utf8 Json ProviderRequest ProviderPolicy ProviderClient Sse WireHttp WireChat WireAnthropic WireBedrock.

(** ** The encoder *)

Definition be16 (n : N) : list byte := [(n / 256)%N; (n mod 256)%N].
Definition be32 (n : N) : list byte :=
  [(n / 16777216)%N; (n / 65536 mod 256)%N; (n / 256 mod 256)%N; (n mod 256)%N].

(** A header: its name, its type and the bytes of its value. *)
Record wire_header := {
  wh_name : list byte;
  wh_type : byte;
  wh_value : list byte;
}.
Definition fixed_len (t : byte) : option nat :=
  match t with
  | 0%N | 1%N => Some 0 | 2%N => Some 1 | 3%N => Some 2 | 4%N => Some 4 | 5%N => Some 8
  | 8%N => Some 8 | 9%N => Some 16 | _ => None
  end.
Definition header_ok (h : wire_header) : Prop :=
  length (wh_name h) < 256 ∧
  (fixed_len (wh_type h) = Some (length (wh_value h)) ∨
   (wh_type h = 6%N ∨ wh_type h = 7%N) ∧ (N.of_nat (length (wh_value h)) < 65536)%N).
Definition encode_header (h : wire_header) : list byte :=
  N.of_nat (length (wh_name h)) :: wh_name h ++ wh_type h ::
    (if ((wh_type h =? 6) || (wh_type h =? 7))%N then be16 (N.of_nat (length (wh_value h))) else [])
    ++ wh_value h.

Record wire_frame := {
  wf_headers : list wire_header;
  wf_payload : list byte;
  wf_prelude_crc : list byte;
  wf_message_crc : list byte;
}.
Definition header_bytes (f : wire_frame) : list byte := concat (encode_header <$> wf_headers f).
Definition frame_len (f : wire_frame) : nat :=
  16 + length (header_bytes f) + length (wf_payload f).
Definition frame_ok (f : wire_frame) : Prop :=
  Forall header_ok (wf_headers f) ∧ length (wf_prelude_crc f) = 4 ∧
  length (wf_message_crc f) = 4 ∧ (N.of_nat (frame_len f) < 4294967296)%N.
Definition encode_frame (f : wire_frame) : list byte :=
  be32 (N.of_nat (frame_len f)) ++ be32 (N.of_nat (length (header_bytes f))) ++ wf_prelude_crc f
    ++ header_bytes f ++ wf_payload f ++ wf_message_crc f.

(** The event of a frame: the last string header of that name. *)
Definition header_event (h : wire_header) : option str :=
  if bool_decide (wh_name h = event_type_name) && (wh_type h =? 7)%N
  then Some (from_utf8_lossy (wh_value h)) else None.
Definition frame_event (f : wire_frame) : option str := last (omap header_event (wf_headers f)).
Definition decoded (f : wire_frame) : DecodedFrame :=
  {| df_event_type := frame_event f; df_payload := wf_payload f; df_consumed := frame_len f |}.

(** ** Numbers *)

Lemma be_bytes_16 n : (n < 65536)%N → be_bytes (be16 n) = n.
Proof.
  intros Hn. unfold be_bytes, be16. cbn [foldl].
  pose proof (N.div_mod n 256 ltac:(lia)). lia.
Qed.
Lemma be_bytes_32 n : (n < 4294967296)%N → be_bytes (be32 n) = n.
Proof.
  intros Hn. unfold be_bytes, be32. cbn [foldl].
  pose proof (N.div_mod n 256 ltac:(lia)) as E1.
  pose proof (N.div_mod (n / 256) 256 ltac:(lia)) as E2.
  pose proof (N.div_mod (n / 65536) 256 ltac:(lia)) as E3.
  assert (n / 256 / 256 = n / 65536)%N as E by (by rewrite N.Div0.div_div).
  assert (n / 65536 / 256 = n / 16777216)%N as E' by (by rewrite N.Div0.div_div).
  rewrite E in E2. rewrite E' in E3. lia.
Qed.

(** ** Headers *)

Lemma header_value_len_spec h rest :
  header_ok h →
  header_value_len (wh_type h)
    ((if ((wh_type h =? 6) || (wh_type h =? 7))%N then be16 (N.of_nat (length (wh_value h))) else [])
     ++ wh_value h ++ rest) = Some (length (wh_value h), wh_value h ++ rest).
Proof.
  intros [_ [Hf | [[E|E] Hl]]].
  - unfold fixed_len in Hf. repeat (case_match; try discriminate); injection Hf as Hf;
      cbn [N.eqb Pos.eqb orb app header_value_len]; by rewrite <- Hf.
  - rewrite E. cbn [N.eqb Pos.eqb orb header_value_len be16 app].
    fold (be16 (N.of_nat (length (wh_value h)))). by rewrite be_bytes_16, Nat2N.id.
  - rewrite E. cbn [N.eqb Pos.eqb orb header_value_len be16 app].
    fold (be16 (N.of_nat (length (wh_value h)))). by rewrite be_bytes_16, Nat2N.id.
Qed.

Lemma event_type_loop_spec hs fuel seen :
  Forall header_ok hs → length (concat (encode_header <$> hs)) ≤ fuel →
  event_type_loop fuel (concat (encode_header <$> hs)) seen =
  match last (omap header_event hs) with Some e => Some e | None => seen end.
Proof.
  intros Hok. revert fuel seen. induction Hok as [|h hs Hh _ IH]; intros fuel seen Hf.
  - by destruct fuel.
  - cbn [fmap list_fmap concat] in *. rewrite length_app in Hf.
    assert (1 ≤ length (encode_header h)) as Hpos by (unfold encode_header; cbn; lia).
    destruct fuel as [|fuel]; [lia|].
    unfold encode_header at 1. cbn [event_type_loop app]. rewrite Nat2N.id.
    rewrite <- !app_assoc. cbn [app]. rewrite take_app_length, drop_app_length.
    rewrite <- !app_assoc, header_value_len_spec by done.
    rewrite decide_False by (rewrite length_app; lia).
    rewrite take_app_length, drop_app_length.
    rewrite IH by lia.
    change (omap header_event (h :: hs)) with
      (match header_event h with Some y => y :: omap header_event hs | None => omap header_event hs end).
    unfold header_event at 2. destruct (_ && _); [|done].
    rewrite last_cons. by destruct (last (omap header_event hs)).
Qed.

Lemma event_type_spec f : Forall header_ok (wf_headers f) →
  event_type_from_headers (header_bytes f) = frame_event f.
Proof.
  intros Hf. unfold event_type_from_headers, header_bytes, frame_event.
  rewrite event_type_loop_spec by done. by destruct (last _).
Qed.

(** ** Frames *)

Lemma length_encode_frame f : frame_ok f → length (encode_frame f) = frame_len f.
Proof.
  intros (_ & H1 & H2 & _). unfold encode_frame, frame_len. rewrite !length_app, H1, H2.
  cbn [length be32]. lia.
Qed.

(** A buffer that starts a frame decodes to it when it has the whole of it, and to
    nothing before. *)
Lemma decode_frame_spec f buffer more tail :
  frame_ok f → buffer ++ more = encode_frame f ++ tail →
  decode_eventstream_frame buffer =
    Ok (if decide (length buffer < frame_len f) then None else Some (decoded f)).
Proof.
  intros Hok E. pose proof (length_encode_frame f Hok) as Hlen.
  destruct Hok as (Hh & Hc1 & Hc2 & Hl).
  unfold decode_eventstream_frame. destruct (decide (length buffer < 12)) as [H12|H12].
  { rewrite decide_True; [done|]. unfold frame_len. lia. }
  assert (∀ n, n ≤ 12 → take n buffer = take n (encode_frame f)) as Ht.
  { intros n Hn. rewrite <- (take_app_le buffer more) by lia. rewrite E.
    apply take_app_le. rewrite Hlen. unfold frame_len. lia. }
  assert (take 4 buffer = be32 (N.of_nat (frame_len f))) as E1 by (by rewrite Ht by lia).
  assert (take 4 (drop 4 buffer) = be32 (N.of_nat (length (header_bytes f)))) as E2.
  { rewrite take_drop_commute, Ht by lia. done. }
  rewrite E1, E2, !be_bytes_32; [|unfold frame_len in Hl; lia|done].
  assert (((N.of_nat (frame_len f) <? 16) ||
    (N.of_nat (frame_len f) - 16 <? N.of_nat (length (header_bytes f))))%N = false) as ->.
  { apply orb_false_intro; apply N.ltb_ge; unfold frame_len; lia. }
  destruct (N.ltb_spec (N.of_nat (length buffer)) (N.of_nat (frame_len f))) as [Hb|Hb];
    [by rewrite decide_True by lia|]. rewrite decide_False by lia.
  assert (∃ rest, buffer = encode_frame f ++ rest) as [rest ->].
  { exists (drop (frame_len f) buffer). rewrite <- (take_drop (frame_len f) buffer) at 1.
    f_equal. rewrite <- (take_app_le buffer more), E by lia.
    rewrite take_app_le, take_ge by lia. done. }
  rewrite !Nat2N.id. unfold encode_frame. rewrite <- !app_assoc.
  set (hb := header_bytes f) in *. set (cr := wf_prelude_crc f) in *.
  assert (∀ l, drop 12 (be32 (N.of_nat (frame_len f)) ++ be32 (N.of_nat (length hb)) ++ cr ++ l) = l) as Ed.
  { intros l. rewrite !app_assoc. apply drop_app_length'. rewrite !length_app, Hc1. done. }
  rewrite <- drop_drop, !Ed, drop_app_length, take_app_length.
  unfold hb. rewrite event_type_spec by done. do 3 f_equal.
  rewrite take_app_length'; [done|]. unfold frame_len. lia.
Qed.

Section stream.
Context {X : Type} (provider : str) (ingest : str → list byte → X → result ProviderError unit * X).

(** The reference: the events of the frames, in order, to the first error. *)
Fixpoint deliver_frames (fs : list wire_frame) (x : X) : result ProviderError unit * X :=
  match fs with
  | [] => (Ok tt, x)
  | f :: fs =>
      match ingest_frame ingest (decoded f) x with
      | (Err e, x) => (Err e, x)
      | (Ok _, x) => deliver_frames fs x
      end
  end.

Abbreviation encoded fs := (concat (encode_frame <$> fs)).

Lemma decode_nothing : decode_eventstream_frame [] = Ok None.
Proof. done. Qed.

Lemma drain_frames_spec fuel fs buffer more x :
  Forall frame_ok fs → length buffer < fuel → buffer ++ more = encoded fs →
  match drain_frames ingest fuel buffer x with
  | (Err e, x') => deliver_frames fs x = (Err e, x')
  | (Ok rest, x') =>
      ∃ fs', Forall frame_ok fs' ∧ rest ++ more = encoded fs' ∧
             deliver_frames fs x = deliver_frames fs' x' ∧
             (∀ f, head fs' = Some f → length rest < frame_len f)
  end.
Proof.
  intros Hok. revert fuel buffer x. induction Hok as [|f fs Hf Hok IH]; intros fuel buffer x Hfuel E.
  - cbn in E. apply app_eq_nil in E as [-> ->]. destruct fuel; [cbn in Hfuel; lia|].
    cbn [drain_frames]. rewrite decode_nothing. by exists [].
  - destruct fuel as [|fuel]; [lia|]. cbn [drain_frames]. cbn [fmap list_fmap concat] in E.
    rewrite (decode_frame_spec f buffer more (encoded fs)) by done.
    pose proof (length_encode_frame f Hf) as Hlen.
    destruct (decide (length buffer < frame_len f)) as [Hs|Hs].
    + exists (f :: fs). split_and!; [by constructor|done|done|]. by intros g [= <-].
    + cbn [deliver_frames]. destruct (ingest_frame ingest (decoded f) x) as [[[]|e] x1]; [|done].
      cbn [df_consumed decoded]. apply IH.
      * rewrite length_drop. unfold frame_len in *. lia.
      * rewrite <- drop_app_le, E by lia. apply drop_app_length'. done.
Qed.

Lemma read_frames_spec chunks fs buffer x :
  Forall frame_ok fs → buffer ++ concat chunks = encoded fs →
  (∀ f, head fs = Some f → length buffer < frame_len f) →
  read_frames provider ingest (Ok <$> chunks) buffer x = deliver_frames fs x.
Proof.
  revert fs buffer x. induction chunks as [|chunk chunks IH]; intros fs buffer x Hok E Hh;
    cbn [fmap list_fmap read_frames].
  - cbn in E. rewrite app_nil_r in E. destruct Hok as [|f fs Hf Hok]; [done|].
    specialize (Hh f eq_refl). rewrite E in Hh.
    cbn [fmap list_fmap concat] in Hh. rewrite length_app, length_encode_frame in Hh by done. lia.
  - cbn [concat] in E. rewrite app_assoc in E.
    pose proof (drain_frames_spec (S (length (buffer ++ chunk))) fs (buffer ++ chunk) (concat chunks) x
      Hok ltac:(lia) E) as Hd.
    destruct (drain_frames _ _ _ _) as [[rest|e] x']; [|done].
    destruct Hd as (fs' & Hok' & E' & -> & Hh'). by apply IH.
Qed.
End stream.

Section claim.
Context `{SerdeJson} (from_slice : list byte → result str Value).

(** C34. A Bedrock stream does not depend on how the connection cuts it: for every
    list of well-formed frames (any typed headers, any payload, any checksums) and
    every way of cutting their encoding into chunks, inside headers and lengths
    too, the transport ingests exactly the frames that carry an event type, each
    with the last such header and its own payload, in order and up to the first
    payload that is not JSON. *)
Theorem bedrock_chunking_irrelevant (provider : str) (fs : list wire_frame)
    (chunks : list (list byte))
    (Hok : Forall frame_ok fs)
    (Hcut : concat chunks = concat (encode_frame <$> fs)) :
  bedrock_stream_response from_slice provider (StatusOk (Ok <$> chunks)) =
  let '(r, (a, log)) :=
    deliver_frames (bedrock_ingest from_slice provider) fs
      (BedrockStreamAccumulator_default, []) in
  (let? _ := r in Ok (bedrock_finish a), log).
Proof.
  unfold bedrock_stream_response. rewrite (read_frames_spec _ _ _ fs); [done..|].
  intros f _. cbn. unfold frame_len. lia.
Qed.
End claim.

(** ** Examples *)

Definition event_header (name : str) : wire_header :=
  {| wh_name := event_type_name; wh_type := 7; wh_value := utf8 name |}.
Definition demo_frame (event : str) (payload : list byte) : wire_frame :=
  {| wf_headers := [{| wh_name := utf8 (lit "n"); wh_type := 4; wh_value := [1; 2; 3; 4]%N |};
                    event_header event];
     wf_payload := payload; wf_prelude_crc := [0; 0; 0; 0]%N; wf_message_crc := [9; 9; 9; 9]%N |}.
Definition demo_frames : list wire_frame :=
  [demo_frame (lit "contentBlockDelta") [1%N]; demo_frame (lit "messageStop") [2%N]].
(** The payloads are numbers of two values. *)
Definition demo_slice (payload : list byte) : result str Value :=
  match payload with
  | [1%N] => Ok (VObject [(lit "delta", VObject [(lit "text", VString (lit "hi"))])])
  | [2%N] => Ok (VObject [(lit "stopReason", VString (lit "end_turn"))])
  | _ => Err (lit "expected value")
  end.

Lemma bedrock_chunking_irrelevant_witness :
  ∃ r, @bedrock_stream_response counting_json demo_slice (lit "p")
         (StatusOk (Ok <$> ((λ b, [b]) <$> concat (encode_frame <$> demo_frames)))) =
       (Ok r, [OnToken (lit "hi")]) ∧
       rs_content r = Some (lit "hi") ∧ rs_finish_reason r = Some (lit "end_turn").
Proof.
  eexists. split; [|split].
  - etrans; [apply (@bedrock_chunking_irrelevant counting_json demo_slice (lit "p") demo_frames
      ((λ b, [b]) <$> concat (encode_frame <$> demo_frames))) | vm_compute; reflexivity].
    + repeat (apply Forall_cons; split); [..|apply Forall_nil; exact I];
        (split; [|split; [reflexivity|split; [reflexivity|vm_compute; reflexivity]]]);
        (repeat (apply Forall_cons; split); [..|apply Forall_nil; exact I]);
        (split; [vm_compute; lia|]); [left|right|left|right];
        first [reflexivity | split; [right; reflexivity | vm_compute; reflexivity]].
    + vm_compute. reflexivity.
  - reflexivity.
  - reflexivity.
Defined.

(** The two ways of reading a Bedrock answer count its input differently: a complete
    answer's input tokens exclude the tokens read from the cache, a streamed one's
    include them, so the same numbers cost more when streamed. *)
Theorem bedrock_usage_differs :
  let wire := VObject [(lit "inputTokens", VNumber (PosInt 10));
                       (lit "outputTokens", VNumber (PosInt 1));
                       (lit "cacheReadInputTokens", VNumber (PosInt 8))] in
  let complete := {| bu_input_tokens := Some 10%N; bu_output_tokens := Some 1%N;
                     bu_cache_read_input_tokens := Some 8%N;
                     bu_cache_write_input_tokens := None |} in
  let price := {| price_currency := lit "USD"; input_nanos_per_million_tokens := 3000000;
                  output_nanos_per_million_tokens := 0;
                  cache_read_nanos_per_million_tokens := 1000000;
                  cache_write_nanos_per_million_tokens := 0;
                  reasoning_nanos_per_million_tokens := 0 |} in
  let x := bedrock_step (lit "metadata") (VObject [(lit "usage", wire)])
             (BedrockStreamAccumulator_default, []) in
  ∃ u, ba_usage x.1 = Some u ∧ input_tokens u = 10%N ∧
       input_tokens (BedrockUsage_normalize complete) = 2%N ∧
       cache_read_tokens u = cache_read_tokens (BedrockUsage_normalize complete) ∧
       est_total_nanos (estimate_cost u price) = 38%N ∧
       est_total_nanos (estimate_cost (BedrockUsage_normalize complete) price) = 14%N.
Proof. intros wire complete price x. eexists. split; [vm_compute; reflexivity|]. vm_compute. done. Qed.
