(* ===== verification/WireProps.v ===== *)
(** * What the transports make of a conversation
    ([codel00p-providers/src/transports/])

    The conversation of a request is its messages without the system ones.  Every
    transport keeps its order; those that set the system prompt apart keep the order
    of its texts; all refuse a tool result that names no call, with one error. *)

From stdpp Require Import base numbers strings gmap list.
From S2P Require Import Prelude RustStr Utf8 Json ProviderRequest ProviderPolicy ProviderClient Sse WireHttp WireChat WireAnthropic WireGemini WireGemini WireBedrock.

Definition conversation (l : list ChatMessage) : list ChatMessage :=
  filter (λ m, is_system m = false) l.
Definition system_texts (l : list ChatMessage) : list str := omap system_text l.

(** ** The conversions as total functions *)

Definition anthropic_content_of (m : ChatMessage) : AnthropicContent :=
  match chat_role m with
  | RoleAssistant => anthropic_assistant_content (chat_content m) (chat_tool_calls m)
  | RoleTool => AnContentBlocks [AnToolResult (default [] (chat_tool_call_id m)) (default [] (chat_content m))]
  | _ => AnContentText (default [] (chat_content m))
  end.
Definition anthropic_message_of (m : ChatMessage) : AnthropicMessage :=
  {| am_role := match chat_role m with RoleAssistant => lit "assistant" | _ => lit "user" end;
     am_content := anthropic_content_of m |}.
Definition bedrock_message_of (m : ChatMessage) : BedrockMessage :=
  {| bm_role := match chat_role m with RoleAssistant => lit "assistant" | _ => lit "user" end;
     bm_content :=
       match chat_role m with
       | RoleAssistant => bedrock_assistant_content (chat_content m) (chat_tool_calls m)
       | RoleTool => [BcToolResult (default [] (chat_tool_call_id m)) [default [] (chat_content m)]]
       | _ => [BcText (default [] (chat_content m))]
       end |}.

Definition refusing {M} (provider : str) (w : ChatMessage → M) (m : ChatMessage)
    : result ProviderError M :=
  if unanswering m then Err (tool_result_missing_id provider) else Ok (w m).

Lemma anthropic_conversion provider m :
  is_system m = false →
  anthropic_from_chat_message provider m = Some (refusing provider anthropic_message_of m).
Proof.
  unfold is_system, anthropic_from_chat_message, refusing, unanswering, anthropic_message_of,
    anthropic_content_of.
  destruct (chat_role m); try done. by destruct (chat_tool_call_id m).
Qed.
Lemma bedrock_conversion provider m :
  is_system m = false →
  bedrock_from_chat_message provider m = Some (refusing provider bedrock_message_of m).
Proof.
  unfold is_system, bedrock_from_chat_message, refusing, unanswering, bedrock_message_of.
  destruct (chat_role m); try done. by destruct (chat_tool_call_id m).
Qed.

Lemma refusing_loop {M} provider (convert : ChatMessage → option (result ProviderError M)) w l :
  (∀ m, is_system m = false → convert m = Some (refusing provider w m)) →
  convert_messages convert [] [] l =
  Some (if existsb unanswering l then Err (tool_result_missing_id provider)
        else Ok (system_texts l, w <$> conversation l)).
Proof.
  intros Hc. rewrite (convert_messages_spec convert (refusing provider w)) by done.
  rewrite (collect_conversions provider _ w) by done. rewrite existsb_filter_system.
  by destruct (existsb _ _).
Qed.

Section responses.
Context `{SerdeJson}.

Definition responses_items_of (m : ChatMessage) : list ResponsesInputItem :=
  match chat_role m with
  | RoleAssistant =>
      option_list ((λ text, text_message (lit "assistant") OutputText (Some text))
                     <$> nonempty (chat_content m)) ++ (from_tool_call <$> chat_tool_calls m)
  | RoleTool =>
      [RiFunctionCallOutput (lit "function_call_output") (default [] (chat_tool_call_id m))
         (default [] (chat_content m))]
  | _ => [text_message (chat_role_name (chat_role m)) InputText (chat_content m)]
  end.
Lemma responses_conversion provider m :
  responses_from_chat_message provider m = refusing provider responses_items_of m.
Proof.
  unfold responses_from_chat_message, refusing, unanswering, responses_items_of.
  destruct (chat_role m); try done. by destruct (chat_tool_call_id m).
Qed.
End responses.

(** ** The names of Gemini's tool results *)

Definition calls_of (l : list ChatMessage) : list ProviderToolCall :=
  concat ((λ m, match chat_role m with RoleAssistant => chat_tool_calls m | _ => [] end) <$> l).
(** The name of the last call of an identifier, or the identifier itself. *)
Definition call_named (calls : list ProviderToolCall) (i : str) : option str :=
  last (omap (λ c, if decide (ptc_id c = Some i) then Some (ptc_name c) else None) calls).

Lemma record_names_spec names calls i :
  record_names names calls !! i =
  match call_named calls i with Some n => Some n | None => names !! i end.
Proof.
  unfold record_names, call_named. induction calls as [|c calls IH] using rev_ind; [done|].
  rewrite foldl_app, omap_app. cbn [foldl omap list_omap].
  destruct (ptc_id c) as [j|] eqn:Ej.
  - destruct (decide (Some j = Some i)) as [[= ->]|Hne].
    + by rewrite lookup_insert_eq, last_snoc.
    + rewrite lookup_insert_ne by congruence. by rewrite app_nil_r, IH.
  - rewrite decide_False by done. by rewrite app_nil_r, IH.
Qed.

Section gemini.
Context `{SerdeJson}.

Definition gemini_content_of (before : list ChatMessage) (m : ChatMessage) : GeminiContent :=
  {| gc_role := match chat_role m with RoleAssistant => lit "model" | _ => lit "user" end;
     gc_parts :=
       match chat_role m with
       | RoleAssistant => assistant_parts (chat_content m) (chat_tool_calls m)
       | RoleTool =>
           [GpFunctionResponse (chat_tool_call_id m)
              (let i := default [] (chat_tool_call_id m) in
               default i (call_named (calls_of before) i))
              (parse_tool_response (default [] (chat_content m)))]
       | _ => [GpText (default [] (chat_content m))]
       end |}.
Fixpoint gemini_contents_of (before l : list ChatMessage) : list GeminiContent :=
  match l with
  | [] => []
  | m :: l =>
      (if is_system m then [] else [gemini_content_of before m])
        ++ gemini_contents_of (before ++ [m]) l
  end.

Lemma calls_of_snoc l m :
  calls_of (l ++ [m]) =
  calls_of l ++ match chat_role m with RoleAssistant => chat_tool_calls m | _ => [] end.
Proof. unfold calls_of. rewrite fmap_app, concat_app. cbn. by rewrite app_nil_r. Qed.

Lemma gemini_conversion provider before names m :
  is_system m = false → (∀ i, names !! i = call_named (calls_of before) i) →
  gemini_from_chat_message provider m names =
  Some (refusing provider (gemini_content_of before) m).
Proof.
  intros Hs Hn.
  unfold is_system, gemini_from_chat_message, refusing, unanswering, gemini_content_of,
    tool_result_name in *.
  destruct (chat_role m); try done. destruct (chat_tool_call_id m) as [i|]; [|done].
  cbn. by rewrite Hn.
Qed.

(** The names recorded for an assistant message serve the messages after it. *)
Lemma record_step names before m :
  (∀ i, names !! i = call_named (calls_of before) i) → chat_role m = RoleAssistant →
  ∀ i, record_names names (chat_tool_calls m) !! i = call_named (calls_of (before ++ [m])) i.
Proof.
  intros Hn Hm i. rewrite record_names_spec, calls_of_snoc, Hm, Hn. unfold call_named.
  rewrite omap_app, last_app. by destruct (last (omap _ (chat_tool_calls m))).
Qed.

Lemma gemini_messages_spec provider l :
  ∀ before system contents names,
  (∀ i, names !! i = call_named (calls_of before) i) →
  gemini_messages provider system contents names l =
  Some (if existsb unanswering l then Err (tool_result_missing_id provider)
        else Ok (system ++ (GpText <$> system_texts l), contents ++ gemini_contents_of before l)).
Proof.
  induction l as [|m l IH]; intros before system contents names Hn; [cbn; by rewrite !app_nil_r|].
  cbn [gemini_messages existsb gemini_contents_of].
  assert (is_system m = true → ∀ names', gemini_messages provider
      (system ++ option_list (GpText <$> nonempty (chat_content m))) contents names' l =
    gemini_messages provider
      (system ++ (GpText <$> option_list (system_text m))) contents names' l) as Hsys.
  { intros Hm names'. unfold system_text. rewrite Hm. by destruct (nonempty _). }
  assert (system_texts (m :: l) = option_list (system_text m) ++ system_texts l) as Est.
  { unfold system_texts. cbn. by destruct (system_text m). }
  rewrite Est, fmap_app.
  destruct (is_system m) eqn:Hm.
  - assert (unanswering m = false) as -> by (unfold is_system, unanswering in *; by destruct (chat_role m)).
    assert (∀ i, names !! i = call_named (calls_of (before ++ [m])) i) as Hn'.
    { intros i. rewrite calls_of_snoc, Hn. unfold is_system in Hm.
      destruct (chat_role m); try discriminate; by rewrite app_nil_r. }
    assert (∀ A (x y z : A), match chat_role m with RoleSystem | RoleDeveloper => x
      | RoleAssistant => y | _ => z end = x) as -> by (unfold is_system in Hm; by destruct (chat_role m)).
    rewrite Hsys, (IH (before ++ [m])) by done. cbn [orb app]. rewrite <- app_assoc. done.
  - assert (system_text m = None) as -> by (unfold system_text; by rewrite Hm). cbn [option_list fmap list_fmap app].
    destruct (chat_role m) eqn:Er; try (unfold is_system in Hm; rewrite Er in Hm; discriminate).
    + assert (∀ i, names !! i = call_named (calls_of (before ++ [m])) i) as Hn'
        by (intros i; rewrite calls_of_snoc, Er, app_nil_r; apply Hn).
      rewrite (gemini_conversion _ before) by done. unfold refusing.
      destruct (unanswering m); [done|]. rewrite (IH (before ++ [m])) by done. by rewrite <- app_assoc.
    + assert (gemini_from_chat_message provider m (record_names names (chat_tool_calls m)) =
              Some (refusing provider (gemini_content_of before) m)) as ->.
      { unfold gemini_from_chat_message, refusing, unanswering, gemini_content_of. by rewrite Er. }
      unfold refusing. destruct (unanswering m); [done|].
      rewrite (IH (before ++ [m])) by by apply record_step. by rewrite <- app_assoc.
    + assert (∀ i, names !! i = call_named (calls_of (before ++ [m])) i) as Hn'
        by (intros i; rewrite calls_of_snoc, Er, app_nil_r; apply Hn).
      rewrite (gemini_conversion _ before) by done. unfold refusing.
      destruct (unanswering m); [done|]. rewrite (IH (before ++ [m])) by done. by rewrite <- app_assoc.
Qed.
End gemini.

(** ** The claims *)

Section claims.
Context `{SerdeJson}.

(** Every transport that rewrites a conversation rewrites it faithfully: the
    Anthropic, Bedrock, Gemini and Responses requests are refused together, with
    the same error, exactly when some tool result names no call; otherwise each has
    the image of every message of the conversation in order, the system texts that
    are not empty set apart in order (kept in place by Responses), and Gemini names
    each tool result after the last call of its identifier made before it. *)
Theorem requests_keep_conversation (provider : str) (r : InferenceRequest) :
  let l := ir_messages r in
  if existsb unanswering l then
    anthropic_from_request provider r = Some (Err (tool_result_missing_id provider)) ∧
    bedrock_from_request provider r = Some (Err (tool_result_missing_id provider)) ∧
    gemini_from_request provider r = Some (Err (tool_result_missing_id provider)) ∧
    responses_from_request provider r = Err (tool_result_missing_id provider)
  else
    ∃ a b g s,
      anthropic_from_request provider r = Some (Ok a) ∧
      bedrock_from_request provider r = Some (Ok b) ∧
      gemini_from_request provider r = Some (Ok g) ∧
      responses_from_request provider r = Ok s ∧
      ar_messages a = anthropic_message_of <$> conversation l ∧
      ar_system a = join_system_messages (system_texts l) ∧
      br_messages b = bedrock_message_of <$> conversation l ∧ br_system b = system_texts l ∧
      gr_contents g = gemini_contents_of [] l ∧
      gr_system_instruction g = GeminiSystemInstruction_from_parts (GpText <$> system_texts l) ∧
      rr_input s = concat (responses_items_of <$> l).
Proof.
  intros l. unfold anthropic_from_request, bedrock_from_request, gemini_from_request,
    responses_from_request. fold l.
  rewrite (refusing_loop provider _ _ _ (anthropic_conversion provider)).
  rewrite (refusing_loop provider _ _ _ (bedrock_conversion provider)).
  rewrite (gemini_messages_spec provider l []) by by intros i.
  rewrite (collect_conversions provider _ responses_items_of) by apply responses_conversion.
  destruct (existsb unanswering l); [done|]. eexists _, _, _, _. done.
Qed.

(** The arguments of a tool call survive the trip to the wire and back, unless they
    are a string that is itself JSON text. *)
Theorem tool_arguments_roundtrip `{!SerdeJsonLaws} (v : Value) (Hwf : value_wf v = true)
    (Hstring : ∀ s, v = VString s → from_str s = None) :
  parse_arguments (serialize_tool_arguments v) = v.
Proof.
  unfold parse_arguments, serialize_tool_arguments. destruct v; try (by rewrite from_to_string).
  by rewrite (Hstring s).
Qed.
End claims.

(** The signature covers every header sent but the signature itself: what is sent is
    the signed headers in some order and the authorization, which lists their names
    in increasing order. *)
Theorem signature_covers_headers sha256 hmac hex_encode invalid_header now url body key secret token
    region headers :
  sign_bedrock_request sha256 hmac hex_encode invalid_header now url body key secret token region
    = Ok headers →
  ∃ sent authorization signature,
    headers = sent ++ [(lit "authorization", authorization)] ∧
    signed_headers_of (canonical_host url) (sha256_hex sha256 hex_encode body) (amz_date_of now)
      token ≡ₚ sent ∧
    authorization = AWS_ALGORITHM ++ lit " Credential=" ++ key ++ lit "/" ++
      credential_scope_of (date_stamp_of now) region ++ lit ", SignedHeaders=" ++
      header_names (sort_by (cmp_on fst str_cmp) sent) ++ lit ", Signature=" ++ signature.
Proof.
  intros Hs.
  set (signed := signed_headers_of (canonical_host url) (sha256_hex sha256 hex_encode body)
    (amz_date_of now) token) in *.
  unfold sign_bedrock_request in Hs. fold signed in Hs.
  assert (∀ s r, header_value invalid_header s = Ok r → r = s) as Hv
    by (intros s r; unfold header_value; destruct (forallb _ _); congruence).
  destruct (header_value _ (canonical_host url)) as [h|] eqn:E1; cbn [result_bind] in Hs; [|done].
  destruct (header_value _ (sha256_hex _ _ _)) as [p|] eqn:E2; cbn [result_bind] in Hs; [|done].
  destruct (header_value _ (amz_date_of now)) as [d|] eqn:E3; cbn [result_bind] in Hs; [|done].
  apply Hv in E1, E2, E3. subst h p d.
  assert (∃ t, match token with
    | Some token => let? token := header_value invalid_header token in
                    Ok [(lit "x-amz-security-token", token)]
    | None => Ok []
    end = Ok t ∧ t = option_list ((λ token, (lit "x-amz-security-token", token)) <$> token)) as (t & Et & ->).
  { destruct token as [tok|]; [|by eexists].
    destruct (header_value invalid_header tok) as [tok'|] eqn:E4; cbn [result_bind] in Hs |- *; [|done].
    apply Hv in E4 as ->. by eexists. }
  rewrite Et in Hs. cbn [result_bind] in Hs.
  destruct (header_value _ (AWS_ALGORITHM ++ _)) as [auth|] eqn:E5; cbn [result_bind] in Hs; [|done].
  apply Hv in E5. injection Hs as <-.
  eexists (_ :: _ :: _ :: _ :: _), auth, _. split; [reflexivity|]. split.
  - unfold signed, signed_headers_of. rewrite sort_by_perm. done.
  - rewrite E5. reflexivity.
Qed.
